(* ===== verification/_CoqProject ===== *)
-Q . S2P
Prelude.v
TimeMath.v
Doubles.v
ProtobufWire.v
FieldLoop.v
GeometryCodec.v
ColorCodec.v
MessageCodecs.v
SensorCodecs.v
PointCodecs.v
SceneCodecs.v
OverlayCodecs.v
Text.v
SemVer.v
Ingest.v
TypeTree.v
ParserCore.v
CdrReader.v
ProtoReader.v
ProtoMessages.v
ProtoSchema.v
ProtoLocator.v
ProtoDescriptor.v
CdrSchema.v
CdrLocator.v
CdrTraversal.v
CdrPlanned.v
CdrMinimum.v
ClaimCatalog.v
BuiltinCodec.v
RouteResolver.v
Json.v
WidgetData.v
WidgetDataView.v
TreeItems.v
WidgetDocument.v
WidgetRoundtrip.v
WidgetProtocol.v
TableBatch.v
WidgetEvents.v
EventRoundtrip.v
ProviderJob.v
ProviderJobProofs.v
ProviderJobContract.v
ImportJob.v
EvaluationReport.v
ClaimManifest.v
PluginCatalog.v
PluginLoader.v
ServiceRegistry.v
WidgetHandle.v
WidgetPlugin.v
IngestPolicy.v
ModuleAbi.v
ModuleManifest.v
ObjectWriter.v
ObjectWriterProofs.v
ObjectWire.v
ObjectContract.v
ModuleReaders.v
ModuleExports.v
ModuleTokens.v
ModuleRuntime.v
StrikeContract.v
ModuleContract.v
MessageParser.v
Decimal.v
Origin.v
TimeFormat.v
Presentation.v
Sha256.v
SourceDescriptor.v
RequestCache.v
CacheSystem.v
CacheSafety.v
CacheDiscipline.v
CacheEviction.v
CachePublish.v
CacheContract.v
CacheRace.v
