(* ===== verification/Prelude.v ===== *)
(** * PlotJuggler SDK: a verification library (root)

    The SDK (under [src/]) is what plugins and their host share: [pj_base], the data types, codecs and
    interfaces, and [pj_plugins], the host's side of loading plugins and showing dialogs.  This
    library models its logic in Rocq and proves what makes it correct.  This file is its prelude:
    bytes, machine integers, errors, and the notations and tactics that the other files share.

    ** The parts and their files

    Codecs.  The builtin objects travel in a protobuf subset that the SDK writes and reads by hand.
    - [ProtobufWire]: [Writer], [Reader] and [parseFields] of [pj_base/src/builtin/protobuf_wire.hpp];
      a writer call is a function on the bytes written, a reader the bytes that are left.
      [FieldLoop]: the decoders that loop themselves.
    - [TimeMath] ([time_math.hpp], [slider_window.hpp]), [Doubles], [GeometryCodec], [ColorCodec]
      ([geometry_codec.hpp]), [MessageCodecs], [SensorCodecs], [PointCodecs], [SceneCodecs], [OverlayCodecs]: the codecs of
      the eighteen types; [BuiltinCodec]: the store keyed by type tag ([builtin_object_codec.cpp]).

    Parser modules.  A parser is compiled into a module behind a C interface; the host hands it a payload and
    takes back an object or scalars.
    - Inside a module: [ParserCore] ([parser_module/core.hpp]), [ProtoReader] ([proto_reader.hpp]) and
      [ProtoMessages], [ProtoSchema] and [ProtoLocator] ([proto_field_locator.hpp]; [ProtoDescriptor]), [CdrReader] ([cdr_reader.hpp]), [CdrSchema] and [CdrLocator] ([cdr_field_locator.hpp]) with the theorems in
      [CdrTraversal], [CdrPlanned] and [CdrMinimum], [ObjectWriter] ([object_writer.hpp]; its theorems in [ObjectWriterProofs],
      [ObjectWire] and [ObjectContract]), [ModuleReaders] and [ModuleExports] ([module.hpp]; [ModuleTokens]).
    - Between: [ModuleAbi] ([parser_module_abi.cpp]), the blocks that cross; [ModuleManifest] ([parser_module_manifest.cpp]), the
      section of a WebAssembly module that holds its manifest.
    - In the host: [PluginLoader] ([native_parser_module.cpp]), [ClaimManifest] and [ClaimCatalog] ([parser_claim_catalog.cpp]),
      [RouteResolver] ([parser_route_resolver.cpp]), which chooses the parser of a route, and [ModuleRuntime]
      ([parser_module_runtime.cpp]; [StrikeContract], [ModuleContract]).
    [MessageParser] is the interface of parsers that are plugins ([message_parser_handle.hpp], [message_parser_plugin_base.hpp],
    [message_parser_trampolines.hpp]): the host's handle and sinks, the base class of plugins, and both together.
    [ModuleContract] puts [ModuleExports] behind the host's interface [NativeParserModule]: from an author's calls on a writer to
    the object the host owns.

    Plugins.  [PluginCatalog] (the manifests of [plugin_catalog.cpp]) and [PluginLoader] (its probes and scan, [library_loader.hpp],
    [vtable_validation.cpp], the libraries of data sources, parsers, toolboxes and dialogs): which files are plugins, with the system as a
    parameter.  [ServiceRegistry] ([service_registry_builder.hpp], [service_registry.hpp], [service_traits.hpp]): what a plugin
    finds of the host.  [WidgetHandle] and [WidgetPlugin] ([widget_protocol/]): the host's and the plugin's side of widgets.

    Data sources.  [ProviderJob] ([source/provider_job.cpp]; [ProviderJobProofs], [ProviderJobContract]): worker, watchdog and caller
    as interleaved steps; [ImportJob] ([sdk/descriptor_import.hpp]): the other end of the same interface, the
    host's handle on a job.  [SourceDescriptor] ([source_descriptor.cpp], [record_envelope.cpp]) with [Sha256] ([sha256.cpp]): what
    a request is and the identity that names its artifact; [Origin] ([origin.cpp], [text_utils.hpp]), [Presentation]
    ([presentation.cpp]), [Decimal] ([limits.cpp]).  [RequestCache] ([request_cache.cpp], [file_lock.cpp]): the cache of
    artifacts, each operation a program of system calls; [CacheSystem]: what the calls may do, and the agents that
    make them; [CacheSafety] and [CacheDiscipline]: a logic of these programs and the operations in it, for [CacheContract];
    [CacheEviction] and [CachePublish]: the operations run alone; [CacheRace]: executed schedules.
    [Ingest] ([outcome_ledger.cpp], [ingest_completion.hpp]), [IngestPolicy] ([timestamp_policy.hpp], [parser_array_policy.hpp],
    [object_ingest_policy.hpp]), [EvaluationReport] ([evaluation_report.hpp]), [TimeFormat] ([time_format.cpp]), [TypeTree] ([type_tree.cpp], [dataset_qualified_name.hpp]), [SemVer].

    Dialogs.  A plugin describes a dialog in JSON and receives its events in JSON.  [Json]: the documents, with the JSON library
    as the class [JsonText].  [WidgetData] ([widget_data.hpp]), [WidgetDataView] and [TreeItems] ([widget_data_view.hpp]),
    [WidgetDocument], [WidgetRoundtrip], [WidgetProtocol], [TableBatch]: description.  [WidgetEvents], [EventRoundtrip]
    ([widget_event.hpp], [widget_event_builder.hpp], [dialog_plugin_typed.hpp]): events.

    [Text] has strings and orders, [Decimal] decimal digits.

    ** How the code is represented

    A [w]-bit integer is a [Z] with [wrap w] or [to_signed w] where it may leave its range; signed overflow and other undefined
    behaviour is [Undef] of [exec], so an equation with [Val] excludes it.  A [double] is its bit pattern ([Doubles] where it is
    computed with).  [PJ::Expected] is [Expected], [pj::Expected] is [PjExpected] with a [Status]; an exception that leaves a function is
    [Throws] of [thrown].  A pointer with a length is the bytes from
    it on, [None] when null.  Allocation that the code checks is an oracle ([alloc]) of the sizes it grants.  Objects
    with methods are states, and a method returns the state after it; a thread's program is a step function, and theorems hold for every
    interleaving.  Code from outside the repository is a parameter: the JSON library, an author's virtual
    methods, the functions of a loaded module, the dynamic linker and the file system, the host's settings, environment and probe.

    ** What the theorems show

    - Round trips, of well-formed values ([object_wf]; [op_ok] of dialogs): each codec, the type-tagged store, the CDR reader on plain encodings, the dialog description and the
      events, the blocks of the module boundary, manifest sections, manifests of modules and plugins, reports, ISO 8601 times, a
      widget's inputs.
    - Across the boundary: the decoders of host and module agree; any history of calls on a writer that finishes gives a
      descriptor that decodes to the object described; the host owns that object with the spliced bytes of its payload;
      whatever a module answers, what the host accepts is sound; whatever a parser plugin does, the host has a record exactly when
      it was delivered once; what an author's handler returns is what the host receives.
    - Admission: the catalog lists as data source, parser, toolbox or dialog what the loader of that kind accepts and no earlier one
      does, and whose manifest decodes (a dialog is listed only if it has a static manifest or can be created); the loaders accept only
      complete tables of the library itself; a decoded manifest is always ingested; a plugin finds exactly the services registered.
    - Safety: readers stay within their message; planned access equals sequential access; a module's tokens never revive; a job
      calls its sink in order and is quiet once freed, and the host's handle is quiet once it was reset or its start
      failed; events reach only their method; a widget instance is destroyed once.
    - The cache, for every interleaving of any agents and every failure of a call: a lookup's hit stays valid while it is kept,
      writers exclude users, foreign files are left alone, locks are given back.  Where nothing fails: what is committed is found,
      a cleanup evicts the oldest unlocked artifacts and no more than the budget asks.  [CacheRace.commit_hit_may_vanish]: the hit of a
      [commit] lacks that protection in its first instant.
    - Requests: which descriptors are accepted, what their identity depends on, the digest is that of FIPS 180-4 ([Sha256.Fips] states
      the standard on bit strings, apart from the code); the key of an origin
      identifies it, allowlists are exact.
    - Routes: candidates are decided in policy order by the cache or their probe, and the first that is not rejected wins; for a host
      whose answers depend on what the cache compares, the cache is invisible.
    - Schemas: the locators accept well-formed schemas only, compile exactly their paths, and find the fields of a message.
    - Grammars: semantic versions, ISO 8601 times with the calendar, service names.
    - Refinement: a blob is a list of bytes; a table delta is a batch of row operations.
    - Invariants: the claim catalog, compiled schemas, strikes, version precedence, accepted reports.
    - Termination and liveness: field loops, tree snapshots, jobs that finish.

    ** Fuel

    Loops without a structural argument take fuel.  [grow_loop]: 65, as a 64-bit capacity doubles at most 63 times; varints: ten bytes,
    five in a manifest section; field loops, the readers' scans, the scan of a module's sections, lists of origins and the cap of a
    presentation: the bytes that are left, as every turn consumes one; tree walks: the number
    of items; schema graphs, nested descriptors and traversals: the depth bounds of the code (65 for descriptors, the
    call that reports the error included).  Each has a theorem that the fuel is enough (the loop returns,
    or the result does not change with more).

    ** Not modelled

    Durability (what [fsync] does), the cache and the loaders on Windows, when a native library is closed, the forwarding layers over C function
    tables (the other plugin bases and handles, host views, data API), Qt widgets, metadata in JSON and media helpers, decimal text of floating
    point, [secondsToNanoseconds].  The aliasing of payloads (buffer anchors) is not observable
    in these models, and neither are memory orders: steps of threads are atomic where the code holds a lock. *)

From Stdlib Require Export ZArith Lia.
From stdpp Require Export base numbers list strings.
From Stdlib Require Strings.Byte Strings.String.
From stdpp Require countable.

#[global] Open Scope Z_scope.

Declare Scope pj_scope.
Delimit Scope pj_scope with pj.
#[global] Open Scope pj_scope.

(** ** Bytes

    A [uint8_t] (and a [char] of a [std::string]) is the 256-element type
    [Byte.byte], so that every list of bytes is a possible buffer. *)

Notation byte := Byte.byte.
Notation bytes := (list Byte.byte).

#[global] Instance byte_eq_dec : EqDecision byte := Byte.byte_eq_dec.

#[global] Program Instance byte_countable : countable.Countable byte :=
  countable.inj_countable Byte.to_N Byte.of_N _.
Next Obligation. intros b. apply Byte.of_to_N. Qed.

(** The numeric value of a byte, and the conversion [static_cast<uint8_t>]. *)
Definition b2z (b : byte) : Z := Z.of_N (Byte.to_N b).

Definition z2b (z : Z) : byte :=
  match Byte.of_N (Z.to_N (z mod 256)) with Some b => b | None => Byte.x00 end.

(** String literals of the source as byte lists. *)
Definition str (s : string) : bytes := String.list_byte_of_string s.

(** ** Machine-width integers: [Z] with its wrap-around written out. *)

(** Reduction to an unsigned [w]-bit integer. *)
Definition wrap (w z : Z) : Z := z mod 2 ^ w.

(** Reinterpretation of a [w]-bit pattern as a two's complement integer. *)
Definition to_signed (w z : Z) : Z :=
  let u := wrap w z in if u <? 2 ^ (w - 1) then u else u - 2 ^ w.

Definition in_u (w z : Z) : Prop := 0 <= z < 2 ^ w.
Definition in_s (w z : Z) : Prop := - 2 ^ (w - 1) <= z < 2 ^ (w - 1).

#[global] Arguments wrap w z : simpl never.
#[global] Arguments to_signed w z : simpl never.
#[global] Arguments in_u w z : simpl never.
#[global] Arguments in_s w z : simpl never.

Notation INT64_MAX := 9223372036854775807.
Notation INT64_MIN := (-9223372036854775808).
Notation UINT64_MAX := 18446744073709551615.
Notation UINT32_MAX := 4294967295.

(** ** Errors: [Expected<T>] with the message of the error. *)
Inductive Expected (A : Type) : Type :=
  | Ok (a : A)
  | Err (msg : string).
Arguments Ok {A} a.
Arguments Err {A} msg%_string.

Definition ebind {A B} (m : Expected A) (f : A -> Expected B) : Expected B :=
  match m with Ok a => f a | Err e => Err e end.

Notation "'let?' x := m 'in' k" := (ebind m (fun x => k))
  (at level 10, x pattern, m at level 100, k at level 200) : pj_scope.

Definition has_value {A} (m : Expected A) : bool :=
  match m with Ok _ => true | Err _ => false end.

(** ** Signed arithmetic: [exec]

    Overflow of a signed integer is undefined in C++.  A computation of type
    [exec A] is [Undef] when the source would evaluate such an operation, so a
    theorem [f x = Val r] also says that no signed operation overflows. *)
Inductive exec (A : Type) : Type :=
  | Val (a : A)
  | Undef.
Arguments Val {A} a.
Arguments Undef {A}.

Definition xbind {A B} (m : exec A) (f : A -> exec B) : exec B :=
  match m with Val a => f a | Undef => Undef end.

Notation "'let!' x := m 'in' k" := (xbind m (fun x => k))
  (at level 10, x pattern, m at level 100, k at level 200) : pj_scope.

(** The result of a signed 64-bit operation. *)
Definition i64 (z : Z) : exec Z :=
  if (INT64_MIN <=? z) && (z <=? INT64_MAX) then Val z else Undef.

(** ** Automation *)

Create HintDb pj discriminated.
Create Rewrite HintDb pj_len.

(** Break the [match]es and [if]s of a hypothesis or the goal. *)
Ltac destruct_scrut t :=
  lazymatch t with
  | context [match ?u with _ => _ end] => destruct_scrut u
  | _ => let E := fresh "E" in destruct t eqn:E
  end.

Ltac break_match :=
  match goal with
  | |- context [match ?t with _ => _ end] => destruct_scrut t
  | |- context [if ?t then _ else _] => destruct_scrut t
  end.

Ltac break_match_in H :=
  match type of H with
  | context [match ?t with _ => _ end] => destruct_scrut t
  | context [if ?t then _ else _] => destruct_scrut t
  end.

(** Boolean comparisons of the hypotheses and the goal to propositions. *)
Ltac bprop :=
  rewrite ?Z.gtb_ltb, ?Z.geb_leb in *;
  repeat match goal with
  | H : (_ && _)%bool = true |- _ => apply andb_prop in H; destruct H
  | H : (_ || _)%bool = false |- _ => apply orb_false_elim in H; destruct H
  | H : (_ && _)%bool = false |- _ => apply andb_false_iff in H
  | H : (_ || _)%bool = true |- _ => apply orb_true_iff in H
  | H : negb _ = true |- _ => apply negb_true_iff in H
  | H : negb _ = false |- _ => apply negb_false_iff in H
  end;
  rewrite ?Z.ltb_lt, ?Z.ltb_ge, ?Z.leb_le, ?Z.leb_gt, ?Z.eqb_eq, ?Z.eqb_neq,
    ?Nat.ltb_lt, ?Nat.ltb_ge, ?Nat.leb_le, ?Nat.leb_gt, ?Nat.eqb_eq, ?Nat.eqb_neq in *.

Ltac blia := bprop; lia.

(** A closed decidable proposition, by evaluation. *)
Ltac by_compute := refine (bool_decide_eq_true_1 _ _); vm_compute; reflexivity.

(** ** Facts about bytes and integers *)

Lemma b2z_range b : 0 <= b2z b < 256.
Proof. unfold b2z. pose proof (Byte.to_N_bounded b). lia. Qed.

Lemma b2z_z2b z : b2z (z2b z) = z mod 256.
Proof.
  unfold b2z, z2b. pose proof (Z.mod_pos_bound z 256 ltac:(lia)).
  destruct (Byte.of_N _) eqn:E.
  - apply Byte.to_of_N in E. rewrite E. lia.
  - apply Byte.of_N_None_iff in E. lia.
Qed.

Lemma z2b_b2z b : z2b (b2z b) = b.
Proof.
  unfold z2b, b2z. rewrite Z.mod_small by (pose proof (Byte.to_N_bounded b); lia).
  rewrite N2Z.id, Byte.of_to_N. reflexivity.
Qed.

Lemma b2z_inj a b : b2z a = b2z b -> a = b.
Proof. intros H. rewrite <-(z2b_b2z a), <-(z2b_b2z b), H. reflexivity. Qed.

Lemma b2z_z2b_small z : 0 <= z < 256 -> b2z (z2b z) = z.
Proof. intros. rewrite b2z_z2b. apply Z.mod_small. lia. Qed.

Lemma z2b_mod z : z2b (z mod 256) = z2b z.
Proof. apply b2z_inj. rewrite !b2z_z2b. apply Z.mod_mod. lia. Qed.

Lemma wrap_small w z : in_u w z -> wrap w z = z.
Proof. unfold wrap, in_u. apply Z.mod_small. Qed.

Lemma wrap_range w z : 0 <= w -> in_u w (wrap w z).
Proof. intros. apply Z.mod_pos_bound, Z.pow_pos_nonneg; lia. Qed.

Lemma wrap_wrap w z : 0 <= w -> wrap w (wrap w z) = wrap w z.
Proof. intros. apply wrap_small, wrap_range; lia. Qed.

Lemma pow2_half w : 0 < w -> 2 ^ w = 2 * 2 ^ (w - 1).
Proof. intros. rewrite <-Z.pow_succ_r by lia. f_equal. lia. Qed.

Lemma to_signed_range w z : 0 < w -> in_s w (to_signed w z).
Proof.
  intros Hw. unfold to_signed, in_s. pose proof (wrap_range w z ltac:(lia)) as H.
  unfold in_u in H. rewrite (pow2_half w Hw) in *. case_match eqn:E; lia.
Qed.

(** A signed value survives the cast to its unsigned pattern and back. *)
Lemma to_signed_wrap w z : 0 < w -> in_s w z -> to_signed w (wrap w z) = z.
Proof.
  intros Hw [Hl Hu]. unfold to_signed. rewrite wrap_wrap by lia. unfold wrap.
  pose proof (pow2_half w Hw). destruct (Z.lt_ge_cases z 0).
  - replace (z mod 2 ^ w) with (z + 2 ^ w).
    + case_match eqn:E; lia.
    + symmetry. rewrite <-(Z.mod_add z 1) by lia. rewrite Z.mul_1_l. apply Z.mod_small. lia.
  - rewrite Z.mod_small by lia. case_match eqn:E; lia.
Qed.

Lemma wrap_to_signed w z : 0 < w -> wrap w (to_signed w z) = wrap w z.
Proof.
  intros Hw. unfold to_signed. case_match eqn:E.
  - apply wrap_wrap. lia.
  - unfold wrap. replace (z mod 2 ^ w - 2 ^ w) with (z mod 2 ^ w + (-1) * 2 ^ w) by lia.
    rewrite Z.mod_add by (pose proof (Z.pow_pos_nonneg 2 w); lia). apply Z.mod_mod.
    pose proof (Z.pow_pos_nonneg 2 w); lia.
Qed.

(** A disjoint [lor] is an addition. *)
Lemma lor_shiftl_add a b n :
  0 <= n -> 0 <= a < 2 ^ n -> Z.lor a (Z.shiftl b n) = a + b * 2 ^ n.
Proof.
  intros Hn Ha. rewrite <-Z.shiftl_mul_pow2 by lia. symmetry.
  rewrite Z.add_nocarry_lxor; [apply Z.lxor_lor|];
  apply Z.bits_inj'; intros i Hi; rewrite Z.land_spec, Z.shiftl_spec, Z.bits_0 by lia;
  (destruct (Z.lt_ge_cases i n);
   [rewrite (Z.testbit_neg_r b) by lia; apply andb_false_r
   |rewrite <-(Z.mod_small a (2 ^ n)), Z.mod_pow2_bits_high by lia; reflexivity]).
Qed.

(** ** Little-endian encodings

    [le_bytes n v] is the [n] low bytes of [v], least significant first;
    [le_val] assembles such a buffer.  The source writes both as loops over
    shifts; the components relate their loops to these two functions. *)
Fixpoint le_bytes (n : nat) (v : Z) : bytes :=
  match n with
  | O => []
  | S n' => z2b v :: le_bytes n' (v / 256)
  end.

Fixpoint le_val (l : bytes) : Z :=
  match l with
  | [] => 0
  | b :: l' => b2z b + 256 * le_val l'
  end.

Lemma length_le_bytes n v : length (le_bytes n v) = n.
Proof. revert v. induction n; intros; simpl; auto. Qed.

Lemma le_val_range l : in_u (8 * Z.of_nat (length l)) (le_val l).
Proof.
  unfold in_u. induction l as [|b l IH]; [simpl; lia|].
  cbn [length le_val]. pose proof (b2z_range b).
  replace (8 * Z.of_nat (S (length l))) with (8 + 8 * Z.of_nat (length l)) by lia.
  rewrite Z.pow_add_r by lia. change (2 ^ 8) with 256. lia.
Qed.

Lemma le_val_bytes n v : le_val (le_bytes n v) = wrap (8 * Z.of_nat n) v.
Proof.
  revert v. induction n as [|n IH]; intros v; cbn [le_bytes le_val].
  - unfold wrap. simpl. rewrite Z.mod_1_r. reflexivity.
  - rewrite IH, b2z_z2b. unfold wrap.
    replace (8 * Z.of_nat (S n)) with (8 + 8 * Z.of_nat n) by lia.
    rewrite Z.pow_add_r by lia. change (2 ^ 8) with 256.
    rewrite Z.rem_mul_r; try lia; apply Z.pow_pos_nonneg; lia.
Qed.

Lemma le_bytes_val l : le_bytes (length l) (le_val l) = l.
Proof.
  induction l as [|b l IH]; [reflexivity|]. cbn [length le_val le_bytes].
  pose proof (b2z_range b). f_equal.
  - apply b2z_inj. rewrite b2z_z2b, (Z.mul_comm 256), Z.mod_add by lia.
    apply Z.mod_small. lia.
  - rewrite (Z.mul_comm 256), Z.div_add, Z.div_small by lia. rewrite Z.add_0_l. exact IH.
Qed.

Lemma in_s64_iff z : in_s 64 z <-> INT64_MIN <= z <= INT64_MAX.
Proof. unfold in_s. change (2 ^ (64 - 1)) with 9223372036854775808. lia. Qed.

#[global] Instance in_s_dec w z : Decision (in_s w z).
Proof. unfold in_s. apply _. Defined.

#[global] Instance in_u_dec w z : Decision (in_u w z).
Proof. unfold in_u. apply _. Defined.

Lemma i64_val z : INT64_MIN <= z <= INT64_MAX -> i64 z = Val z.
Proof. intros. unfold i64. rewrite (proj2 (andb_true_iff _ _)); [reflexivity|lia]. Qed.

(** ** Lists *)

Lemma take_length_app {A} (l k : list A) : take (length l) (l ++ k) = l.
Proof. rewrite take_app_length. reflexivity. Qed.

Lemma drop_length_app {A} (l k : list A) : drop (length l) (l ++ k) = k.
Proof. rewrite drop_app_length. reflexivity. Qed.

#[export] Hint Rewrite @length_app @length_le_bytes @length_take @length_drop
  @length_nil @length_cons : pj_len.
#[export] Hint Resolve b2z_range wrap_range to_signed_range le_val_range : pj.

(** ** Powers of two and alignment *)

Lemma land_pred_pow2 z : 0 < z -> (Z.land z (z - 1) = 0 <-> z = 2 ^ Z.log2 z).
Proof.
  intros Hz. pose proof (Z.log2_spec z Hz) as [Hlo Hhi]. pose proof (Z.log2_nonneg z).
  split.
  - intros Hl. destruct (Z.eq_dec z (2 ^ Z.log2 z)) as [|Hne]; [done|exfalso].
    assert (Z.log2 (z - 1) = Z.log2 z) as Heq by (apply Z.log2_unique; lia).
    assert (Z.testbit (Z.land z (z - 1)) (Z.log2 z) = true) as Ht.
    { rewrite Z.land_spec, Z.bit_log2 by done. rewrite <-Heq, Z.bit_log2; [done|].
      pose proof (Z.pow_pos_nonneg 2 (Z.log2 z)). lia. }
    by rewrite Hl, Z.bits_0 in Ht.
  - intros Hp. rewrite Hp. set (k := Z.log2 z) in *.
    replace (2 ^ k - 1) with (Z.ones k) by (rewrite Z.ones_equiv; lia).
    rewrite Z.land_ones by done. apply Z.mod_same.
    pose proof (Z.pow_pos_nonneg 2 k). lia.
Qed.

Lemma land_low x k : 0 <= k -> Z.land x (2 ^ k - 1) = x mod 2 ^ k.
Proof.
  intros. replace (2 ^ k - 1) with (Z.ones k) by (rewrite Z.ones_equiv; lia).
  by apply Z.land_ones.
Qed.

(** ** Records updated field by field

    [r <| f := v |>] is the record [r] with its field [f] replaced.  A record type that
    allows it has an instance of [Eta]: its constructor applied to its fields. *)

Class Eta (R : Type) : Type := eta : R -> R.

Class Setter {R T} (field : R -> T) : Type := update : T -> R -> R.
Arguments update {R T} field {_} v r.

(** The expansion of the record with [field] replaced by a constant function. *)
Ltac solve_setter :=
  lazymatch goal with
  | |- @Setter ?R ?T ?field =>
    let e := eval hnf in (eta : R -> R) in
    match eval pattern field in e with ?F _ => exact (fun v : T => F (fun _ : R => v)) end
  end.

#[export] Hint Extern 1 (Setter _) => solve_setter : typeclass_instances.

Notation "r <| f := v |>" := (update f v r) (at level 12, left associativity, f at level 99, v at level 200) : pj_scope.

Ltac reduce_updates := cbv beta delta [update] in *.
