(* ===== verification/TimeMath.v ===== *)
(** * TimeMath: checked nanosecond arithmetic and the slider window

    [pj_base/include/pj_base/time_math.hpp] and [slider_window.hpp].  Every
    function that the header promises to be overflow free is a computation in
    [exec]; its specification theorem shows the value it returns and, because
    the result is [Val _], that no signed operation of it overflows.
    [secondsToNanoseconds] (binary floating point) is not modelled. *)

From S2P Require Import Prelude.

Inductive TimeUnit : Set := kSeconds | kMilliseconds | kMicroseconds | kNanoseconds.

Definition nanosecondsPer (unit : TimeUnit) : Z :=
  match unit with
  | kSeconds => 1000000000
  | kMilliseconds => 1000000
  | kMicroseconds => 1000
  | kNanoseconds => 1
  end.

Definition scaleToNanoseconds (ticks : Z) (unit : TimeUnit) : exec (option Z) :=
  let scale := nanosecondsPer unit in
  if (scale =? 0) || (ticks >? Z.quot INT64_MAX scale) || (ticks <? Z.quot INT64_MIN scale)
  then Val None
  else let! r := i64 (ticks * scale) in Val (Some r).

(** The argument is a [uint64_t]. *)
Definition toSignedTicks (ticks : Z) : option Z :=
  if ticks >? INT64_MAX then None else Some ticks.

Definition kNanosecondsPerSecond : Z := 1000000000.

Definition combineSecondsAndNanos (seconds nanos : Z) : exec (option Z) :=
  if (nanos <? 0) || (nanos >=? kNanosecondsPerSecond) then Val None
  else if seconds <? 0 then
    let! s := i64 (seconds + 1) in
    let! n := i64 (nanos - kNanosecondsPerSecond) in
    let! d := i64 (INT64_MIN - n) in
    if s <? Z.quot d kNanosecondsPerSecond then Val None
    else
      let! p := i64 (s * kNanosecondsPerSecond) in
      let! r := i64 (p + n) in Val (Some r)
  else
    let! d := i64 (INT64_MAX - nanos) in
    if seconds >? Z.quot d kNanosecondsPerSecond then Val None
    else
      let! p := i64 (seconds * kNanosecondsPerSecond) in
      let! r := i64 (p + nanos) in Val (Some r).

Definition syntheticInstant (anchor_ns interval_ns row : Z) : exec (option Z) :=
  if row <? 0 then Val None
  else if ((interval_ns >? 0) && (row >? Z.quot INT64_MAX interval_ns))
       || ((interval_ns <? 0) && (row >? 0) && (interval_ns <? Z.quot INT64_MIN row))
  then Val None
  else
    let! offset := i64 (interval_ns * row) in
    if offset >? 0 then
      let! d := i64 (INT64_MAX - offset) in
      if anchor_ns >? d then Val None
      else let! r := i64 (anchor_ns + offset) in Val (Some r)
    else if offset <? 0 then
      let! d := i64 (INT64_MIN - offset) in
      if anchor_ns <? d then Val None
      else let! r := i64 (anchor_ns + offset) in Val (Some r)
    else let! r := i64 (anchor_ns + offset) in Val (Some r).

(** [span] and [interval] are computed in [uint64_t]. *)
Definition fitSyntheticInterval (first_ns last_ns rows fallback_ns : Z) : exec Z :=
  if (rows <? 2) || (last_ns <=? first_ns) then Val fallback_ns
  else
    let span := wrap 64 (wrap 64 last_ns - wrap 64 first_ns) in
    let! rows' := i64 (rows - 1) in
    let interval := span / wrap 64 rows' in
    if interval >? INT64_MAX then Val fallback_ns else Val (to_signed 64 interval).

Definition kDefaultSyntheticIntervalNs : Z := 33333333.

Record SliderWindow : Set := mkSliderWindow { start_ns : Z; end_ns : Z }.

(** The lambda [offset] of [sliderToWindow]. *)
Definition slider_offset (span steps position : Z) : exec Z :=
  let! a := i64 (Z.quot span steps * position) in
  let! b := i64 (Z.rem span steps * position) in
  i64 (a + Z.quot b steps).

(** [lower], [upper] and [steps] are [int]. *)
Definition sliderToWindow (min_ns max_ns lower upper steps : Z) : exec (option SliderWindow) :=
  if (max_ns <=? min_ns) || (steps <=? 0) || (lower <? 0) || (upper <? lower) || (upper >? steps)
  then Val None
  else
    let span_unsigned := wrap 64 (wrap 64 max_ns - wrap 64 min_ns) in
    if (span_unsigned >? INT64_MAX) || ((upper =? steps) && (max_ns =? INT64_MAX)) then Val None
    else
      let span := to_signed 64 span_unsigned in
      let! lo := slider_offset span steps lower in
      let! s := i64 (min_ns + lo) in
      let! e := (if upper =? steps then i64 (max_ns + 1)
                 else let! hi := slider_offset span steps upper in i64 (min_ns + hi)) in
      Val (Some (mkSliderWindow s e)).

(** ** Truncated division as the header's overflow tests use it *)

Lemma quot_neg_le a s x : 0 < s -> a <= 0 -> (x < Z.quot a s <-> x * s < a).
Proof.
  intros Hs Ha. pose proof (Z.quot_rem' a s). pose proof (Z.rem_bound_pos_neg a s Hs Ha). nia.
Qed.

Lemma quot_pos_ge a s x : 0 < s -> 0 <= a -> (x > Z.quot a s <-> x * s > a).
Proof.
  intros Hs Ha. pose proof (Z.quot_rem' a s). pose proof (Z.rem_bound_pos a s Ha Hs). nia.
Qed.

Lemma nanosecondsPer_pos unit : 0 < nanosecondsPer unit.
Proof. destruct unit; reflexivity. Qed.

(** Run the [exec] steps of a goal, proving each intermediate in range. *)
Ltac run_i64 :=
  repeat (rewrite i64_val by lia; cbn [xbind]).

(** [Some v] when [v] is a timestamp, [None] otherwise. *)
Definition in_range_or_null (v : Z) : option Z :=
  if decide (in_s 64 v) then Some v else None.

Lemma in_range_some v : INT64_MIN <= v <= INT64_MAX -> in_range_or_null v = Some v.
Proof. intros. unfold in_range_or_null. rewrite decide_True by (apply in_s64_iff; lia). done. Qed.

Lemma in_range_none v : ~ (INT64_MIN <= v <= INT64_MAX) -> in_range_or_null v = None.
Proof. intros. unfold in_range_or_null. rewrite decide_False by (rewrite in_s64_iff; lia). done. Qed.

(** [scaleToNanoseconds] is exact multiplication by the unit when the product
    is an [int64_t] and [nullopt] otherwise; no operation of it overflows. *)
Theorem scaleToNanoseconds_spec ticks unit :
  in_s 64 ticks ->
  scaleToNanoseconds ticks unit = Val (in_range_or_null (ticks * nanosecondsPer unit)).
Proof.
  rewrite in_s64_iff. intros Ht. unfold scaleToNanoseconds.
  pose proof (nanosecondsPer_pos unit) as Hs. set (s := nanosecondsPer unit) in *.
  pose proof (quot_pos_ge INT64_MAX s ticks Hs ltac:(lia)).
  pose proof (quot_neg_le INT64_MIN s ticks Hs ltac:(lia)).
  case_match eqn:E.
  - rewrite in_range_none by lia. done.
  - rewrite in_range_some by lia. run_i64. done.
Qed.

(** [combineSecondsAndNanos] accepts a nanosecond part in [0, 1e9) and returns
    the exact instant for every instant that is an [int64_t], the earliest one
    included (its seconds times 1e9 alone would overflow); all other arguments
    give [nullopt], and no operation of it overflows. *)
Theorem combineSecondsAndNanos_spec seconds nanos :
  in_s 64 seconds -> in_s 64 nanos ->
  combineSecondsAndNanos seconds nanos =
    Val (if (0 <=? nanos) && (nanos <? kNanosecondsPerSecond)
         then in_range_or_null (seconds * kNanosecondsPerSecond + nanos) else None).
Proof.
  rewrite !in_s64_iff. intros Hs Hn. unfold combineSecondsAndNanos, kNanosecondsPerSecond.
  case_match eqn:E1; [rewrite (proj2 (andb_false_iff _ _)) by lia; done|].
  rewrite (proj2 (andb_true_iff _ _)) by lia.
  case_match eqn:E2; run_i64.
  - pose proof (quot_neg_le (INT64_MIN - (nanos - 1000000000)) 1000000000 (seconds + 1)
      ltac:(lia) ltac:(lia)).
    case_match eqn:E3; [rewrite in_range_none by lia; done|].
    rewrite in_range_some by lia. run_i64. do 2 f_equal. lia.
  - pose proof (quot_pos_ge (INT64_MAX - nanos) 1000000000 seconds ltac:(lia) ltac:(lia)).
    case_match eqn:E3; [rewrite in_range_none by lia; done|].
    rewrite in_range_some by lia. run_i64. done.
Qed.

Lemma syntheticInstant_val anchor interval row :
  in_s 64 anchor -> in_s 64 interval -> in_s 64 row ->
  syntheticInstant anchor interval row =
    Val (if (0 <=? row) && bool_decide (in_s 64 (interval * row))
         then in_range_or_null (anchor + interval * row) else None).
Proof.
  rewrite !in_s64_iff. intros Ha Hi Hr. unfold syntheticInstant.
  case_match eqn:E1; [rewrite (proj2 (Z.leb_gt 0 row)) by lia; done|].
  rewrite (proj2 (Z.leb_le 0 row)) by lia. cbn [andb].
  assert (((interval >? 0) && (row >? Z.quot INT64_MAX interval))
       || ((interval <? 0) && (row >? 0) && (interval <? Z.quot INT64_MIN row)) = true
     <-> ~ in_s 64 (interval * row)) as Hov.
  { rewrite in_s64_iff. destruct (Z.lt_trichotomy interval 0) as [Hc|[->|Hc]]; [|cbn; lia|].
    - destruct (Z.eq_dec row 0) as [->|];
        [rewrite Z.mul_0_r; generalize (Z.quot INT64_MAX interval) (Z.quot INT64_MIN 0); lia|].
      pose proof (quot_neg_le INT64_MIN row interval ltac:(lia) ltac:(lia)).
      assert (interval * row <= 0) by nia. lia.
    - pose proof (quot_pos_ge INT64_MAX interval row ltac:(lia) ltac:(lia)) as Hq.
      rewrite (Z.mul_comm row) in Hq. assert (0 <= interval * row) by nia. lia. }
  case_match eqn:E2.
  - rewrite bool_decide_false by (apply Hov; done). done.
  - assert (in_s 64 (interval * row)) as Hin.
    { destruct (decide (in_s 64 (interval * row))) as [|Hn]; [done|].
      apply Hov in Hn. congruence. }
    rewrite bool_decide_true by done. apply in_s64_iff in Hin.
    run_i64. set (o := interval * row) in *.
    case_match eqn:E3; run_i64; [|case_match eqn:E4; run_i64; [|rewrite in_range_some by lia; done]];
      (case_match eqn:E5; [rewrite in_range_none by lia; done|]);
      rewrite in_range_some by lia; run_i64; done.
Qed.

(** The unsigned difference of two ordered timestamps is their distance. *)
Lemma unsigned_span lo hi :
  in_s 64 lo -> in_s 64 hi -> lo <= hi -> wrap 64 (wrap 64 hi - wrap 64 lo) = hi - lo.
Proof.
  rewrite !in_s64_iff. intros. unfold wrap. rewrite <-Zminus_mod. apply Z.mod_small.
  change (2 ^ 64) with 18446744073709551616. lia.
Qed.

Lemma to_signed64_small z : 0 <= z <= INT64_MAX -> to_signed 64 z = z.
Proof.
  intros. unfold to_signed. rewrite wrap_small by (unfold in_u; simpl; lia).
  change (2 ^ (64 - 1)) with 9223372036854775808. case_match eqn:E; lia.
Qed.

Lemma fitSyntheticInterval_val first last rows fallback :
  in_s 64 first -> in_s 64 last -> in_s 64 rows ->
  fitSyntheticInterval first last rows fallback =
    Val (if (2 <=? rows) && (first <? last) && ((last - first) / (rows - 1) <=? INT64_MAX)
         then (last - first) / (rows - 1) else fallback).
Proof.
  intros Hf Hl Hr. unfold fitSyntheticInterval.
  case_match eqn:E1; [rewrite (proj2 (andb_false_iff _ _)) by (rewrite andb_false_iff; lia); done|].
  rewrite unsigned_span by (done || lia). rewrite in_s64_iff in *. run_i64.
  rewrite (wrap_small 64 (rows - 1)) by (unfold in_u; simpl; lia).
  assert (0 <= (last - first) / (rows - 1)) by (apply Z.div_pos; lia).
  case_match eqn:E2.
  - rewrite (proj2 (andb_false_iff _ _)) by lia. done.
  - rewrite !(proj2 (andb_true_iff _ _)) by (rewrite ?andb_true_iff; lia).
    rewrite to_signed64_small by lia. done.
Qed.

(** The synthetic time axis: row [k] lies [k] intervals after the anchor,
    exactly, or there is no instant (a negative row, or a value outside
    [int64_t]); the fitted interval is the span divided by the number of gaps,
    or the fallback for fewer than two rows, an empty or reversed span and an
    interval outside [int64_t].  No operation overflows on any arguments. *)
Theorem synthetic_axis_spec first last rows interval row :
  in_s 64 first -> in_s 64 last -> in_s 64 rows -> in_s 64 interval -> in_s 64 row ->
  syntheticInstant first interval row =
    Val (if (0 <=? row) && bool_decide (in_s 64 (interval * row))
         then in_range_or_null (first + interval * row) else None) /\
  fitSyntheticInterval first last rows interval =
    Val (if (2 <=? rows) && (first <? last) && ((last - first) / (rows - 1) <=? INT64_MAX)
         then (last - first) / (rows - 1) else interval).
Proof. intros. split; [by apply syntheticInstant_val|by apply fitSyntheticInterval_val]. Qed.

Lemma synthetic_axis_spec_witness :
  syntheticInstant INT64_MIN INT64_MAX 2 = Val None /\
  fitSyntheticInterval INT64_MIN INT64_MAX 3 7 = Val INT64_MAX.
Proof.
  assert (in_s 64 INT64_MIN) as H1 by by_compute. assert (in_s 64 INT64_MAX) as H2 by by_compute.
  assert (in_s 64 2) as H3 by by_compute. assert (in_s 64 3) as H4 by by_compute.
  assert (in_s 64 7) as H5 by by_compute. assert (in_s 64 0) as H6 by by_compute.
  split.
  - rewrite (proj1 (synthetic_axis_spec _ _ _ _ _ H1 H2 H4 H2 H3)). vm_compute. reflexivity.
  - rewrite (proj2 (synthetic_axis_spec _ _ _ _ _ H1 H2 H4 H5 H6)). vm_compute. reflexivity.
Defined.

(** The interval fitted to a span places every row inside the span: no row of
    the synthetic axis fails or leaves the recording, the first row is at its
    start and the last one is less than a nanosecond per row before its end. *)
Theorem fit_then_instant first last rows fallback row :
  in_s 64 first -> in_s 64 last -> in_s 64 rows -> 2 <= rows ->
  first < last -> in_s 64 (last - first) -> 0 <= row < rows ->
  exists interval t,
    fitSyntheticInterval first last rows fallback = Val interval /\
    syntheticInstant first interval row = Val (Some t) /\
    first <= t <= last /\ (row = 0 -> t = first) /\
    (row = rows - 1 -> last - (rows - 1) < t).
Proof.
  intros Hf Hl Hr Hrows Hlt Hspan Hrow.
  rewrite fitSyntheticInterval_val by done.
  pose proof (Z.mod_pos_bound (last - first) (rows - 1) ltac:(lia)) as Hm.
  rewrite Z.mod_eq in Hm by lia.
  set (iv := (last - first) / (rows - 1)).
  pose proof (Z.mul_div_le (last - first) (rows - 1) ltac:(lia)) as Hle. fold iv in Hle.
  assert (0 <= iv) by (apply Z.div_pos; lia).
  rewrite !in_s64_iff in *.
  assert (0 <= iv * row <= last - first) by nia.
  exists iv, (first + iv * row). split_and!; try lia.
  - rewrite !(proj2 (andb_true_iff _ _)) by (rewrite ?andb_true_iff; nia). done.
  - rewrite syntheticInstant_val by (apply in_s64_iff; nia).
    rewrite (proj2 (Z.leb_le 0 row)), bool_decide_true by (try rewrite in_s64_iff; lia).
    cbn [andb]. rewrite in_range_some by lia. done.
Qed.

(** ** The slider window *)

(** [slider_offset] is the exact floor of [span * position / steps]: splitting
    the quotient avoids the overflow of the product, not the rounding. *)
Lemma slider_offset_spec span steps position :
  0 <= span <= INT64_MAX -> 0 < steps < 2 ^ 31 -> 0 <= position <= steps ->
  slider_offset span steps position = Val (span * position / steps) /\
  0 <= span * position / steps <= span.
Proof.
  intros Hs Hst Hp. unfold slider_offset. change (2 ^ 31) with 2147483648 in Hst.
  rewrite Z.quot_div_nonneg, Z.rem_mod_nonneg by lia.
  pose proof (Z.div_mod span steps ltac:(lia)) as Hdm.
  pose proof (Z.mod_pos_bound span steps ltac:(lia)).
  assert (0 <= span / steps) by (apply Z.div_pos; lia).
  set (q := span / steps) in *. set (r := span mod steps) in *.
  assert (0 <= q * position <= span) by nia.
  assert (0 <= r * position < 4611686018427387904) by nia.
  assert (span * position / steps = q * position + r * position / steps) as Heq.
  { rewrite Hdm. replace ((steps * q + r) * position) with (r * position + q * position * steps) by ring.
    rewrite Z.div_add by lia. lia. }
  assert (0 <= span * position / steps <= span) as Hb.
  { split; [apply Z.div_pos; nia|]. apply Z.div_le_upper_bound; nia. }
  rewrite i64_val by lia. cbn [xbind]. rewrite i64_val by lia. cbn [xbind].
  rewrite Z.quot_div_nonneg by lia. rewrite i64_val by lia. rewrite Heq in *. split; [done|lia].
Qed.

(** The window the header documents, as one formula. *)
Definition slider_window_ref (min_ns max_ns lower upper steps : Z) : SliderWindow :=
  mkSliderWindow (min_ns + (max_ns - min_ns) * lower / steps)
    (if upper =? steps then max_ns + 1 else min_ns + (max_ns - min_ns) * upper / steps).

Definition slider_valid (min_ns max_ns lower upper steps : Z) : bool :=
  (min_ns <? max_ns) && (0 <? steps) && (0 <=? lower) && (lower <=? upper) && (upper <=? steps)
  && (max_ns - min_ns <=? INT64_MAX) && negb ((upper =? steps) && (max_ns =? INT64_MAX)).

(** [sliderToWindow] is its documented formula in exact arithmetic: the start
    is the floor of the position's share of the span, the end too except at the
    last step, where it is one past the maximum so that the last sample is
    inside; invalid arguments give [nullopt], and nothing overflows although the
    product of span and position may not fit 64 bits. *)
Theorem sliderToWindow_spec min_ns max_ns lower upper steps :
  in_s 64 min_ns -> in_s 64 max_ns -> in_s 32 lower -> in_s 32 upper -> in_s 32 steps ->
  sliderToWindow min_ns max_ns lower upper steps =
    Val (if slider_valid min_ns max_ns lower upper steps
         then Some (slider_window_ref min_ns max_ns lower upper steps) else None).
Proof.
  intros Hmin Hmax Hlo Hup Hst. unfold in_s in Hlo, Hup, Hst.
  change (2 ^ (32 - 1)) with 2147483648 in *.
  unfold sliderToWindow. destruct (slider_valid _ _ _ _ _) eqn:Hv; unfold slider_valid in Hv.
  - case_match eqn:E1; [blia|]. rewrite unsigned_span by (done || lia).
    case_match eqn:E2; [blia|]. rewrite to_signed64_small by lia.
    rewrite in_s64_iff in *.
    destruct (slider_offset_spec (max_ns - min_ns) steps lower) as [-> ?]; [lia..|].
    cbn [xbind]. rewrite i64_val by lia. cbn [xbind]. unfold slider_window_ref.
    destruct (upper =? steps) eqn:E3; [run_i64; done|].
    destruct (slider_offset_spec (max_ns - min_ns) steps upper) as [-> ?]; [lia..|].
    cbn [xbind]. rewrite i64_val by lia. done.
  - case_match eqn:E1; [done|]. rewrite unsigned_span by (done || lia).
    case_match eqn:E2; [done|]. exfalso. blia.
Qed.

Lemma scaleToNanoseconds_spec_witness :
  scaleToNanoseconds (-9223372036) kSeconds = Val (Some (-9223372036000000000)) /\
  scaleToNanoseconds 9223372037 kSeconds = Val None.
Proof.
  assert (in_s 64 (-9223372036)) as H1 by by_compute.
  assert (in_s 64 9223372037) as H2 by by_compute.
  split.
  - rewrite (scaleToNanoseconds_spec _ kSeconds H1). vm_compute. reflexivity.
  - rewrite (scaleToNanoseconds_spec _ kSeconds H2). vm_compute. reflexivity.
Defined.

(** The earliest timestamp: -9223372037 s + 145224192 ns. *)
Lemma combineSecondsAndNanos_spec_witness :
  combineSecondsAndNanos (-9223372037) 145224192 = Val (Some INT64_MIN) /\
  combineSecondsAndNanos (-9223372037) 145224191 = Val None.
Proof.
  assert (in_s 64 (-9223372037)) as H by by_compute.
  assert (in_s 64 145224192) as H1 by by_compute. assert (in_s 64 145224191) as H2 by by_compute.
  split.
  - rewrite (combineSecondsAndNanos_spec _ _ H H1). vm_compute. reflexivity.
  - rewrite (combineSecondsAndNanos_spec _ _ H H2). vm_compute. reflexivity.
Defined.

Lemma fit_then_instant_witness :
  exists interval t,
    fitSyntheticInterval (-10) 90 7 1 = Val interval /\
    syntheticInstant (-10) interval 6 = Val (Some t) /\
    -10 <= t <= 90 /\ (6 = 0 -> t = -10) /\ (6 = 7 - 1 -> 90 - (7 - 1) < t).
Proof.
  assert (in_s 64 (-10)) as H1 by by_compute. assert (in_s 64 90) as H2 by by_compute.
  assert (in_s 64 7) as H3 by by_compute. assert (in_s 64 (90 - -10)) as H4 by by_compute.
  exact (fit_then_instant (-10) 90 7 1 6 H1 H2 H3 ltac:(lia) ltac:(lia) H4 ltac:(lia)).
Defined.

Lemma sliderToWindow_spec_witness :
  sliderToWindow 0 INT64_MAX 1 999 1000 =
    Val (Some (mkSliderWindow 9223372036854775 9214148664817921031)) /\
  sliderToWindow (-1) INT64_MAX 0 5 10 = Val None.
Proof.
  assert (in_s 64 0) as H0 by by_compute. assert (in_s 64 (-1)) as H1 by by_compute.
  assert (in_s 64 INT64_MAX) as H2 by by_compute.
  assert (forall k, in_s 32 k <-> -2147483648 <= k < 2147483648) as H32 by (intros; reflexivity).
  split.
  - rewrite (sliderToWindow_spec _ _ 1 999 1000 H0 H2); [vm_compute; reflexivity|apply H32; lia..].
  - rewrite (sliderToWindow_spec _ _ 0 5 10 H1 H2); [vm_compute; reflexivity|apply H32; lia..].
Defined.
