(* ===== verification/Doubles.v ===== *)
(** * Doubles: binary64 values and their bit patterns

    The codecs only copy most doubles and keep them as bit patterns ([Z] below 2^64);
    the places that compute use the arithmetic of the Standard Library's [SpecFloat],
    rounding to nearest, ties to even. *)

From Stdlib Require Import Floats.SpecFloat.
From S2P Require Import Prelude.

(** ** Values *)

Notation double := spec_float.

#[export] Instance double_eq_dec : EqDecision double.
Proof. solve_decision. Defined.

Definition double_ok (f : double) : bool := valid_binary 53 1024 f.

Definition is_finite (f : double) : bool :=
  match f with S754_zero _ | S754_finite _ _ _ => true | _ => false end.

(** [static_cast<double>] of an integer: rounded to nearest, ties to even. *)
Definition int_to_double (z : Z) : double := binary_normalize 53 1024 z 0 false.

(** [static_cast<int>] of a double: towards zero; undefined outside the range of [int]. *)
Definition double_to_int (f : double) : exec Z :=
  let magnitude m e := if e >=? 0 then Zpos m * 2 ^ e else Zpos m / 2 ^ (- e) in
  match f with
  | S754_zero _ => Val 0
  | S754_finite s m e =>
    let z := if s then - magnitude m e else magnitude m e in
    if bool_decide (in_s 32 z) then Val z else Undef
  | _ => Undef
  end.

Definition dmul : double -> double -> double := SFmul 53 1024.
Definition dadd : double -> double -> double := SFadd 53 1024.
Definition ddiv : double -> double -> double := SFdiv 53 1024.

(** ** Bit patterns: sign, 11 bits of exponent, 52 bits of mantissa *)

Definition bits_to_double (b : Z) : double :=
  let s := 2 ^ 63 <=? b in
  let e := b / 2 ^ 52 mod 2 ^ 11 in
  let m := b mod 2 ^ 52 in
  if e =? 2047 then if m =? 0 then S754_infinity s else S754_nan
  else
    match (if e =? 0 then m else m + 2 ^ 52) with
    | Zpos p => S754_finite s p ((if e =? 0 then 1 else e) - 1075)
    | _ => S754_zero s
    end.

(** The pattern of a NaN is not determined by its value; any one will do. *)
Definition double_to_bits (f : double) : Z :=
  let sign s := if s : bool then 2 ^ 63 else 0 in
  match f with
  | S754_zero s => sign s
  | S754_infinity s => sign s + 2047 * 2 ^ 52
  | S754_nan => 2047 * 2 ^ 52 + 2 ^ 51
  | S754_finite s m e =>
    sign s + (if Zpos m <? 2 ^ 52 then Zpos m else (e + 1075) * 2 ^ 52 + (Zpos m - 2 ^ 52))
  end.

Definition is_nan (f : double) : bool := match f with S754_nan => true | _ => false end.

Lemma double_to_bits_inv b :
  in_u 64 b -> is_nan (bits_to_double b) = false -> double_to_bits (bits_to_double b) = b.
Proof.
  unfold in_u, bits_to_double. change (2 ^ 64) with 18446744073709551616. change (2 ^ 63) with 9223372036854775808.
  change (2 ^ 52) with 4503599627370496. change (2 ^ 11) with 2048. intros Hb Hn.
  set (e := b / 4503599627370496 mod 2048) in *. set (m := b mod 4503599627370496) in *.
  assert (0 <= m < 4503599627370496) as Hm by (apply Z.mod_pos_bound; lia).
  assert (0 <= e < 2048) as He by (apply Z.mod_pos_bound; lia).
  assert (b = (if 9223372036854775808 <=? b then 9223372036854775808 else 0) + e * 4503599627370496 + m) as Hs.
  { pose proof (Z.div_mod b 4503599627370496 ltac:(lia)). fold m in H.
    pose proof (Z.div_mod (b / 4503599627370496) 2048 ltac:(lia)). fold e in H0.
    assert (0 <= b / 4503599627370496 / 2048 <= 1).
    { rewrite Z.div_div by lia. split; [apply Z.div_pos; lia|].
      apply Z.lt_succ_r, Z.div_lt_upper_bound; lia. }
    destruct (_ <=? b) eqn:E; lia. }
  clearbody e m. destruct (e =? 2047) eqn:E1.
  - destruct (m =? 0) eqn:E2; [|done]. cbn [double_to_bits]. change (2 ^ 63) with 9223372036854775808. change (2 ^ 52) with 4503599627370496. destruct (_ <=? b); lia.
  - destruct (e =? 0) eqn:E2; [destruct m as [|p|p] eqn:Em|destruct (m + _) as [|p|p] eqn:Em]; cbn [double_to_bits];
      change (2 ^ 63) with 9223372036854775808; change (2 ^ 52) with 4503599627370496; try lia;
      destruct (Z.pos p <? _) eqn:E3; destruct (_ <=? b); lia.
Qed.

(** ** Scaling by powers of two is exact *)

Lemma Zdigits2_log2 m : 0 < m -> Zdigits2 m = Z.log2 m + 1.
Proof.
  intros Hm. destruct m as [|p|]; [lia| |lia]. clear Hm. cbn [Zdigits2]. induction p as [p IH|p IH|]; [| |done]; cbn [digits2_pos].
  - rewrite Pos2Z.inj_succ, IH, Pos2Z.inj_xI, Z.log2_succ_double by lia. lia.
  - rewrite Pos2Z.inj_succ, IH, Pos2Z.inj_xO, Z.log2_double by lia. lia.
Qed.

Definition exact_record (m : Z) : shr_record := Build_shr_record m false false.

Lemma shr_1_double m : 0 < m -> shr_1 (exact_record (m * 2)) = exact_record m.
Proof. intros. rewrite Z.mul_comm. by destruct m. Qed.

Lemma iter_pos_iter {A} (f : A -> A) n x : SpecFloat.iter_pos f n x = Pos.iter f x n.
Proof.
  revert x. induction n as [n IH|n IH|]; intros x; cbn [SpecFloat.iter_pos Pos.iter]; rewrite ?IH; [|done|done].
  by rewrite <-!Pos.iter_swap.
Qed.

Lemma shr_exact m e k : 0 < m -> 0 <= k -> shr (exact_record (m * 2 ^ k)) e k = (exact_record m, e + k).
Proof.
  intros Hm Hk. destruct k as [|p|]; [|cbn [shr]; rewrite iter_pos_iter; f_equal|lia].
  - cbn [shr]. by rewrite Z.pow_0_r, Z.mul_1_r, Z.add_0_r.
  - revert m Hm. induction p as [|p IH] using Pos.peano_ind; intros m Hm.
    + cbn [Pos.iter]. by rewrite Z.pow_1_r, shr_1_double.
    + rewrite Pos.iter_succ, Pos2Z.inj_succ, Z.pow_succ_r, Z.mul_assoc by lia.
      rewrite IH by lia. by apply shr_1_double.
Qed.

(** A product [m * 2 ^ k] whose exponent rounds down to [m]'s. *)
Lemma round_exact s m e k :
  0 < m -> 0 <= k -> Z.max (Z.log2 m + k + 1 + e - 53) (-1074) = e + k -> e + k <= 971 ->
  binary_round_aux 53 1024 s (m * 2 ^ k) e loc_Exact = S754_finite s (Z.to_pos m) (e + k).
Proof.
  intros Hm Hk Hexp Hmax. assert (0 < m * 2 ^ k) by (apply Z.mul_pos_pos; [lia|apply Z.pow_pos_nonneg; lia]).
  unfold binary_round_aux, shr_fexp, fexp, SpecFloat.emin. cbn [shr_record_of_loc].
  change {| shr_m := m * 2 ^ k; shr_r := false; shr_s := false |} with (exact_record (m * 2 ^ k)).
  rewrite Zdigits2_log2, Z.log2_mul_pow2 by lia.
  replace (Z.max (k + Z.log2 m + 1 + e - 53) (3 - 1024 - 53) - e) with k by lia. rewrite shr_exact by done.
  cbn [shr_m loc_of_shr_record exact_record round_nearest_even shr_record_of_loc].
  change {| shr_m := m; shr_r := false; shr_s := false |} with (exact_record m). rewrite Zdigits2_log2 by done.
  replace (Z.max (Z.log2 m + 1 + (e + k) - 53) (3 - 1024 - 53) - (e + k)) with 0 by lia.
  cbn [shr shr_m exact_record]. destruct m as [|p|]; [lia| |lia].
  destruct (_ <=? _) eqn:E; [done|lia].
Qed.

(** The finite doubles. *)
Definition finite_ok (m e : Z) : Prop :=
  (2 ^ 52 <= m < 2 ^ 53 /\ -1074 <= e <= 971) \/ (0 < m < 2 ^ 52 /\ e = -1074).

Lemma bits_to_double_inv s p e :
  finite_ok (Zpos p) e ->
  bits_to_double (double_to_bits (S754_finite s p e)) = S754_finite s p e /\
  in_u 64 (double_to_bits (S754_finite s p e)).
Proof.
  unfold finite_ok, bits_to_double, double_to_bits, in_u. change (2 ^ 64) with 18446744073709551616.
  change (2 ^ 63) with 9223372036854775808. change (2 ^ 52) with 4503599627370496.
  change (2 ^ 53) with 9007199254740992. change (2 ^ 11) with 2048. intros H.
  set (sg := if s then 9223372036854775808 else 0).
  set (q := if Z.pos p <? 4503599627370496 then 0 else e + 1075).
  set (f := if Z.pos p <? 4503599627370496 then Z.pos p else Z.pos p - 4503599627370496).
  assert (0 <= q < 2047 /\ 0 <= f < 4503599627370496) as [Hq Hf] by (subst q f; destruct (_ <? _) eqn:E; lia).
  replace (sg + _) with (sg + (q * 4503599627370496 + f)) by (subst q f; destruct (_ <? _); lia).
  assert ((sg + (q * 4503599627370496 + f)) mod 4503599627370496 = f) as ->.
  { replace (sg + _) with (f + (q + (if s then 2048 else 0)) * 4503599627370496) by (subst sg; destruct s; lia).
    rewrite Z.mod_add by lia. by apply Z.mod_small. }
  assert ((sg + (q * 4503599627370496 + f)) / 4503599627370496 mod 2048 = q) as ->.
  { replace (sg + _) with (f + (q + (if s then 2048 else 0)) * 4503599627370496) by (subst sg; destruct s; lia).
    rewrite Z.div_add, Z.div_small, Z.add_0_l by lia.
    destruct s; [replace (q + 2048) with (q + 1 * 2048) by lia; rewrite Z.mod_add by lia|rewrite Z.add_0_r]; apply Z.mod_small; lia. }
  assert ((9223372036854775808 <=? sg + (q * 4503599627370496 + f)) = s) as ->.
  { subst sg. destruct s; [apply Z.leb_le|apply Z.leb_gt]; lia. }
  split; [|subst sg; destruct s; lia]. destruct (q =? 2047) eqn:E1; [lia|].
  replace (if q =? 0 then f else f + 4503599627370496) with (Z.pos p)
    by (subst q f; destruct (_ <? _) eqn:E; destruct (_ =? 0) eqn:E'; lia).
  f_equal. subst q. destruct (_ <? _) eqn:E; destruct (_ =? 0) eqn:E'; lia.
Qed.

Definition d2 : double := int_to_double 2.
Definition d_half : double := ddiv (int_to_double 1) d2.

Lemma d2_eq : d2 = S754_finite false (2 ^ 52) (-51).
Proof. by vm_compute. Qed.
Lemma d_half_eq : d_half = S754_finite false (2 ^ 52) (-53).
Proof. by vm_compute. Qed.

Lemma log2_normal m : 2 ^ 52 <= m < 2 ^ 53 -> Z.log2 m = 52.
Proof. intros. apply Z.log2_unique; [lia|]. change (2 ^ Z.succ 52) with (2 ^ 53). lia. Qed.

Lemma log2_subnormal m : 0 < m < 2 ^ 52 -> Z.log2 m < 52.
Proof. intros. apply Z.log2_lt_pow2; lia. Qed.

(** The finite doubles of the bit patterns. *)
Lemma bits_to_double_ok b s p e : bits_to_double b = S754_finite s p e -> finite_ok (Zpos p) e.
Proof.
  unfold bits_to_double, finite_ok. set (x := b / 2 ^ 52 mod 2 ^ 11). set (m := b mod 2 ^ 52).
  assert (0 <= m < 2 ^ 52) as Hm by (apply Z.mod_pos_bound; lia).
  assert (0 <= x < 2 ^ 11) as Hx by (apply Z.mod_pos_bound; lia).
  change (2 ^ 52) with 4503599627370496 in *. change (2 ^ 53) with 9007199254740992. change (2 ^ 11) with 2048 in Hx.
  destruct (x =? 2047) eqn:E1; bprop; [by destruct (m =? 0)|].
  destruct (x =? 0) eqn:E2; bprop.
  - destruct m as [|q|q] eqn:Em; [done| |lia]. intros [= _ <- <-]. right. lia.
  - destruct (m + 4503599627370496) as [|q|q] eqn:Em; [lia| |lia]. intros [= _ <- <-]. left. lia.
Qed.

(** Doubling and halving again gives the double back, unless doubling overflows. *)
Lemma half_double s p e :
  finite_ok (Zpos p) e -> e <= 970 ->
  exists p' e', dmul (S754_finite s p e) d2 = S754_finite s p' e' /\ finite_ok (Zpos p') e' /\
    dmul (S754_finite s p' e') d_half = S754_finite s p e.
Proof.
  intros Hf He. unfold dmul. rewrite d2_eq, d_half_eq. cbn [SFmul].
  destruct Hf as [[Hm Hr]|[Hm ->]].
  - pose proof (log2_normal _ Hm) as Hl. exists p, (e + 1). rewrite xorb_false_r, Pos2Z.inj_mul.
    change (Z.pos (2 ^ 52)) with (2 ^ 52). split_and!.
    + rewrite round_exact by lia. f_equal. lia.
    + left. lia.
    + rewrite round_exact by lia. f_equal. lia.
  - pose proof (log2_subnormal _ Hm) as Hl. pose proof (Z.log2_nonneg (Zpos p)). exists (p~0)%positive, (-1074).
    rewrite xorb_false_r, !Pos2Z.inj_mul. change (Z.pos (2 ^ 52)) with (2 ^ 52). change (Z.pos p~0) with (2 * Z.pos p). split_and!.
    + replace (Z.pos p * 2 ^ 52) with (2 * Z.pos p * 2 ^ 51) by lia.
      rewrite round_exact by (rewrite ?Z.log2_double by lia; lia). done.
    + unfold finite_ok. change (Z.pos p~0) with (2 * Z.pos p). lia.
    + replace (2 * Z.pos p * 2 ^ 52) with (Z.pos p * 2 ^ 53) by lia.
      rewrite round_exact by lia. done.
Qed.
