(* ===== verification/ProtobufWire.v ===== *)
(** * ProtobufWire: the builtin codecs' wire writer and reader

    [pj_base/src/builtin/protobuf_wire.hpp].

    A [Writer] is a reference to the output vector: its methods are functions
    from the bytes written so far to the bytes after the call ([wop]).  The
    calls of [reserveFor] and [reserve] change a vector's capacity only and
    have no counterpart.

    A [Reader] is the range [p_, end_): the model keeps the unread bytes.  A
    reader whose pointers are null is the empty range; every method treats the
    two alike.  A method returns its result together with the reader, on
    failure too: a failed read may have advanced [p_], and [parseFields] goes
    on from there. *)

From S2P Require Import Prelude.

(** ** Tags *)

Inductive WireType : Set :=
  | kVarint
  | kFixed64
  | kLengthDelimited
  | kFixed32
  | kOtherWire (raw : Z).

(** [static_cast<uint32_t>(type)] and [static_cast<WireType>(raw)]. *)
Definition wire_raw (t : WireType) : Z :=
  match t with
  | kVarint => 0
  | kFixed64 => 1
  | kLengthDelimited => 2
  | kFixed32 => 5
  | kOtherWire raw => raw
  end.

Definition wire_of_raw (n : Z) : WireType :=
  if n =? 0 then kVarint
  else if n =? 1 then kFixed64
  else if n =? 2 then kLengthDelimited
  else if n =? 5 then kFixed32
  else kOtherWire n.

Definition wt_eqb (a b : WireType) : bool := wire_raw a =? wire_raw b.

Record Tag : Set := mkTag { tag_field : Z; tag_type : WireType }.

(** ** Writer *)

Definition wop := bytes -> bytes.

Definition wskip : wop := fun out => out.
Definition wseq (f g : wop) : wop := fun out => g (f out).
Notation "f ;> g" := (wseq f g) (at level 60, right associativity) : pj_scope.

Definition push_back (b : Z) : wop := fun out => out ++ [z2b b].
Definition insert_end (data : bytes) : wop := fun out => out ++ data.

(** [while (value >= 0x80)]: at most ten bytes for a [uint64_t]. *)
Fixpoint appendVarint_loop (fuel : nat) (value : Z) : wop := fun out =>
  match fuel with
  | O => out
  | S fuel' =>
    if value >=? 128
    then appendVarint_loop fuel' (Z.shiftr value 7)
           (push_back (Z.lor (Z.land value 127) 128) out)
    else push_back value out
  end.

Definition appendVarint (value : Z) : wop := appendVarint_loop 10 value.

Definition wtag (field : Z) (type : WireType) : wop :=
  appendVarint (Z.lor (Z.shiftl field 3) (wire_raw type)).

(** [for (int i = 0; i < n; ++i) push_back((value >> (8 * i)) & 0xFF)]. *)
Fixpoint appendFixed_from (i n : nat) (value : Z) : wop := fun out =>
  match n with
  | O => out
  | S n' => appendFixed_from (S i) n' value
              (push_back (Z.land (Z.shiftr value (8 * Z.of_nat i)) 255) out)
  end.

Definition appendFixed64 (value : Z) : wop := appendFixed_from 0 8 value.
Definition appendFixed32 (value : Z) : wop := appendFixed_from 0 4 value.

Definition varint (field value : Z) : wop := wtag field kVarint ;> appendVarint value.
Definition fixed64 (field value : Z) : wop := wtag field kFixed64 ;> appendFixed64 value.
Definition fixed32 (field value : Z) : wop := wtag field kFixed32 ;> appendFixed32 value.

(** A [double] or [float] is its bit pattern: the source only copies it. *)
Definition doubleField (field bits : Z) : wop := fixed64 field bits.
Definition floatField (field bits : Z) : wop := fixed32 field bits.

Definition wbytes (field : Z) (data : bytes) : wop :=
  wtag field kLengthDelimited ;> appendVarint (Z.of_nat (length data)) ;> insert_end data.

Definition wstring (field : Z) (value : bytes) : wop := wbytes field value.

Definition message (field : Z) (build : wop) : wop := wbytes field (build []).

(** [for (auto v : values) f(v)]. *)
Definition appendAll {A} (f : A -> wop) (values : list A) : wop :=
  fun out => foldl (fun o v => f v o) out values.

Definition packedFixed32 (field : Z) (values : list Z) : wop :=
  if (length values =? 0)%nat then wskip
  else wtag field kLengthDelimited ;> appendVarint (Z.of_nat (length values) * 4)
       ;> appendAll appendFixed32 values.

Definition packedDouble (field : Z) (values : list Z) : wop :=
  if (length values =? 0)%nat then wskip
  else wtag field kLengthDelimited ;> appendVarint (Z.of_nat (length values) * 8)
       ;> appendAll appendFixed64 values.

(** ** Reader *)

Definition reader := bytes.

(** A reading method: its result, or [None] for [false], and the reader left. *)
Definition rop (A : Type) := reader -> option A * reader.

Definition eof (r : reader) : bool := match r with [] => true | _ => false end.

Definition remaining (r : reader) : Z := Z.of_nat (length r).

Fixpoint readVarint_loop (n : nat) (shift out : Z) (r : reader) : option Z * reader :=
  match n, r with
  | O, _ => (None, r)
  | S _, [] => (None, [])
  | S n', byte :: r' =>
    let payload := Z.land (b2z byte) 127 in
    if (shift =? 63) && (payload >? 1) then (None, r')
    else
      let out' := Z.lor out (wrap 64 (Z.shiftl payload shift)) in
      if Z.land (b2z byte) 128 =? 0 then (Some out', r')
      else readVarint_loop n' (shift + 7) out' r'
  end.

Definition readVarint : rop Z := readVarint_loop 10 0 0.

Definition readTag : rop Tag := fun r =>
  match readVarint r with
  | (None, r') => (None, r')
  | (Some raw, r') =>
    if raw =? 0 then (None, r')
    else
      let t := mkTag (wrap 32 (Z.shiftr raw 3)) (wire_of_raw (Z.land raw 7)) in
      if tag_field t =? 0 then (None, r') else (Some t, r')
  end.

(** [for (int i = 0; i < n; ++i) out |= p_[i] << (8 * i)]. *)
Fixpoint readFixed_from (i n : nat) (out : Z) (r : reader) : Z :=
  match n, r with
  | S n', b :: r' =>
    readFixed_from (S i) n' (Z.lor out (Z.shiftl (b2z b) (8 * Z.of_nat i))) r'
  | _, _ => out
  end.

Definition readFixed (width : nat) : rop Z := fun r =>
  if (length r <? width)%nat then (None, r)
  else (Some (readFixed_from 0 width 0 r), drop width r).

Definition readFixed64 : rop Z := readFixed 8.
Definition readFixed32 : rop Z := readFixed 4.
Definition readDouble : rop Z := readFixed64.
Definition readFloat : rop Z := readFixed32.

Definition readBytes : rop bytes := fun r =>
  match readVarint r with
  | (None, r') => (None, r')
  | (Some len, r') =>
    if len >? remaining r' then (None, r')
    else (Some (take (Z.to_nat len) r'), drop (Z.to_nat len) r')
  end.

Definition readString : rop bytes := readBytes.

(** [readMessage] yields a reader over the payload. *)
Definition readMessage : rop reader := readBytes.

Definition skipBytes (size : nat) (r : reader) : bool * reader :=
  if (length r <? size)%nat then (false, r) else (true, drop size r).

Definition is_some_read {A} (x : option A * reader) : bool * reader :=
  (match fst x with Some _ => true | None => false end, snd x).

Definition skip (type : WireType) (r : reader) : bool * reader :=
  match type with
  | kVarint => is_some_read (readVarint r)
  | kFixed64 => skipBytes 8 r
  | kLengthDelimited => is_some_read (readBytes r)
  | kFixed32 => skipBytes 4 r
  | kOtherWire _ => (false, r)
  end.

(** ** parseFields

    A field handler may assign the message under construction and advance the
    reader whether or not it reports the field as handled. *)
Definition handler (St : Type) := Tag -> St -> reader -> bool * St * reader.

Fixpoint parseFields_loop {St} (fuel : nat) (h : handler St) (s : St) (r : reader)
  : bool * St * reader :=
  match fuel with
  | O => (false, s, r)
  | S fuel' =>
    if eof r then (true, s, r)
    else
      match readTag r with
      | (None, r1) => (false, s, r1)
      | (Some tag, r1) =>
        match h tag s r1 with
        | (true, s2, r2) => parseFields_loop fuel' h s2 r2
        | (false, s2, r2) =>
          match skip (tag_type tag) r2 with
          | (false, r3) => (false, s2, r3)
          | (true, r3) => parseFields_loop fuel' h s2 r3
          end
        end
      end
  end.

(** Every iteration consumes at least the tag, so the bytes left bound the
    number of iterations ([parseFields_unfold]). *)
Definition parseFields {St} (h : handler St) (s : St) (r : reader) : bool * St * reader :=
  parseFields_loop (S (length r)) h s r.

(** The forms a handler's [return r.readX(out.field)] and
    [return readXMessage(r, out.field)] take: an assignment of the field read,
    and a decoder run over the payload of a nested message, whose partial
    assignments stay when it fails. *)
Definition read_into {A St} (rd : rop A) (set : A -> St -> St) (s : St) (r : reader)
  : bool * St * reader :=
  match rd r with
  | (Some a, r') => (true, set a s, r')
  | (None, r') => (false, s, r')
  end.

Definition decoder (A : Type) := A -> reader -> bool * A * reader.

Definition read_nested {A St} (dec : decoder A) (get : St -> A) (set : A -> St -> St)
    (s : St) (r : reader) : bool * St * reader :=
  match readMessage r with
  | (None, r') => (false, s, r')
  | (Some nested, r') => let '(ok, a, _) := dec (get s) nested in (ok, set a s, r')
  end.

(** A nested message decoded into a fresh variable and appended to a vector of
    the message under construction. *)
Definition read_push {A St} (dec : decoder A) (init : A) (push : A -> St -> St)
    (s : St) (r : reader) : bool * St * reader :=
  match readMessage r with
  | (None, r') => (false, s, r')
  | (Some nested, r') =>
    let '(ok, a, _) := dec init nested in if ok then (true, push a s, r') else (false, s, r')
  end.

(** A packed field read into a vector or array of the message. *)
Definition read_packed {St} (rd : list Z -> reader -> bool * list Z * reader)
    (get : St -> list Z) (set : list Z -> St -> St) (s : St) (r : reader) : bool * St * reader :=
  let '(ok, l, r') := rd (get s) r in (ok, set l s, r').

(** Packed payloads, appended to [out]. *)
Fixpoint readAll_loop (fuel width : nat) (sub : reader) (out : list Z) : bool * list Z :=
  match fuel with
  | O => (false, out)
  | S fuel' =>
    if eof sub then (true, out)
    else
      match readFixed width sub with
      | (None, _) => (false, out)
      | (Some v, sub') => readAll_loop fuel' width sub' (out ++ [v])
      end
  end.

Definition readPacked (width : nat) (out : list Z) (r : reader) : bool * list Z * reader :=
  match readBytes r with
  | (None, r') => (false, out, r')
  | (Some data, r') =>
    if negb (Z.of_nat (length data) mod Z.of_nat width =? 0) then (false, out, r')
    else let '(ok, out') := readAll_loop (S (length data)) width data out in (ok, out', r')
  end.

Definition readPackedFixed32 : list Z -> reader -> bool * list Z * reader := readPacked 4.
Definition readPackedDouble : list Z -> reader -> bool * list Z * reader := readPacked 8.

(** [std::array<double, N>]: every element is overwritten, so the result does
    not depend on the array passed in except on failure, when it is unchanged. *)
Fixpoint readArray_loop (n : nat) (sub : reader) : option (list Z) :=
  match n with
  | O => Some []
  | S n' =>
    match readDouble sub with
    | (None, _) => None
    | (Some v, sub') => option_map (cons v) (readArray_loop n' sub')
    end
  end.

Definition readPackedDoubleArray (N : nat) (out : list Z) (r : reader) : bool * list Z * reader :=
  match readBytes r with
  | (None, r') => (false, out, r')
  | (Some data, r') =>
    if negb (length data =? N * 8)%nat then (false, out, r')
    else match readArray_loop N data with
         | Some vs => (true, vs, r')
         | None => (false, out, r')
         end
  end.

(** ** The base-128 encoding *)

(** Reference decoding: seven payload bits per byte, least significant first. *)
Fixpoint base128 (l : bytes) : Z :=
  match l with
  | [] => 0
  | b :: l' => b2z b mod 128 + 128 * base128 l'
  end.

(** Continuation bits of a complete varint: set on all bytes but the last. *)
Fixpoint varint_shape (l : bytes) : bool :=
  match l with
  | [] => false
  | [b] => b2z b <? 128
  | b :: l' => (128 <=? b2z b) && varint_shape l'
  end.

Lemma byte_payload b : Z.land (b2z b) 127 = b2z b mod 128.
Proof. change 127 with (Z.ones 7). rewrite Z.land_ones by lia. done. Qed.

Lemma byte_continuation b : (Z.land (b2z b) 128 =? 0) = (b2z b <? 128).
Proof. destruct b; reflexivity. Qed.

Lemma land_127 v : Z.land v 127 = v mod 128.
Proof. change 127 with (Z.ones 7). rewrite Z.land_ones by lia. done. Qed.

Lemma varint_byte_more v : Z.lor (Z.land v 127) 128 = v mod 128 + 128.
Proof.
  rewrite land_127. change 128 with (Z.shiftl 1 7) at 2. rewrite lor_shiftl_add; [done|lia|].
  apply Z.mod_pos_bound. lia.
Qed.

Lemma varint_byte_value v : b2z (z2b (Z.lor (Z.land v 127) 128)) = v mod 128 + 128.
Proof.
  rewrite varint_byte_more. pose proof (Z.mod_pos_bound v 128). apply b2z_z2b_small. lia.
Qed.

Lemma shiftr_7 v : Z.shiftr v 7 = v / 128.
Proof. rewrite Z.shiftr_div_pow2 by lia. done. Qed.

(** ** Writers append *)

Class Appends (w : wop) : Prop := appends : forall out, w out = out ++ w [].

#[global] Typeclasses Opaque wseq wskip push_back insert_end appendVarint_loop appendFixed_from
  appendAll appendVarint appendFixed64 appendFixed32 wtag varint fixed64 fixed32 doubleField
  floatField wbytes wstring message packedFixed32 packedDouble.

#[export] Instance appends_skip : Appends wskip.
Proof. intros out. unfold wskip. rewrite app_nil_r. done. Qed.

#[export] Instance appends_seq f g `{!Appends f} `{!Appends g} : Appends (f ;> g).
Proof.
  intros out. unfold wseq. rewrite (appends (w:=f) out), (appends (w:=g) (out ++ f [])).
  rewrite (appends (w:=g) (f [])), <-app_assoc. done.
Qed.

#[export] Instance appends_push b : Appends (push_back b).
Proof. intros out. done. Qed.

#[export] Instance appends_insert data : Appends (insert_end data).
Proof. intros out. done. Qed.

#[export] Instance appends_varint_loop fuel v : Appends (appendVarint_loop fuel v).
Proof.
  revert v. induction fuel as [|fuel IH]; intros v out; cbn [appendVarint_loop].
  - rewrite app_nil_r. done.
  - case_match; [|apply appends]. specialize (IH (Z.shiftr v 7)).
    rewrite (IH (push_back _ out)), (IH (push_back _ [])). unfold push_back.
    rewrite <-!app_assoc. done.
Qed.

#[export] Instance appends_fixed i n v : Appends (appendFixed_from i n v).
Proof.
  revert i. induction n as [|n IH]; intros i out; cbn [appendFixed_from].
  - rewrite app_nil_r. done.
  - rewrite (IH _ (push_back _ out)), (IH _ (push_back _ [])). unfold push_back.
    rewrite <-!app_assoc. done.
Qed.

#[export] Instance appends_all {A} (f : A -> wop) vs `{!forall v, Appends (f v)} : Appends (appendAll f vs).
Proof.
  unfold appendAll. induction vs as [|v vs IH]; intros out; cbn [foldl].
  - rewrite app_nil_r. done.
  - rewrite (IH (f v out)), (IH (f v [])), (appends (w:=f v) out), app_assoc. done.
Qed.

#[export] Instance appends_appendVarint v : Appends (appendVarint v).
Proof. apply appends_varint_loop. Qed.
#[export] Instance appends_appendFixed64 v : Appends (appendFixed64 v).
Proof. apply appends_fixed. Qed.
#[export] Instance appends_appendFixed32 v : Appends (appendFixed32 v).
Proof. apply appends_fixed. Qed.
#[export] Instance appends_wtag f t : Appends (wtag f t).
Proof. apply appends_appendVarint. Qed.
#[export] Instance appends_varint f v : Appends (varint f v).
Proof. unfold varint. apply _. Qed.
#[export] Instance appends_fixed64 f v : Appends (fixed64 f v).
Proof. unfold fixed64, appendFixed64. apply _. Qed.
#[export] Instance appends_fixed32 f v : Appends (fixed32 f v).
Proof. unfold fixed32, appendFixed32. apply _. Qed.
#[export] Instance appends_wbytes f d : Appends (wbytes f d).
Proof. unfold wbytes. apply _. Qed.
#[export] Instance appends_packedDouble f vs : Appends (packedDouble f vs).
Proof. unfold packedDouble, appendFixed64. case_match; apply _. Qed.
#[export] Instance appends_packedFixed32 f vs : Appends (packedFixed32 f vs).
Proof. unfold packedFixed32, appendFixed32. case_match; apply _. Qed.

(** The bytes of a sequence of writes. *)
Lemma wseq_bytes f g `{!Appends g} : (f ;> g) [] = f [] ++ g [].
Proof. unfold wseq. apply appends. Qed.

#[export] Instance appends_doubleField f v : Appends (doubleField f v).
Proof. apply appends_fixed64. Qed.
#[export] Instance appends_floatField f v : Appends (floatField f v).
Proof. apply appends_fixed32. Qed.
#[export] Instance appends_wstring f v : Appends (wstring f v).
Proof. apply appends_wbytes. Qed.
#[export] Instance appends_message f w : Appends (message f w).
Proof. apply appends_wbytes. Qed.

(** ** Varints: the reader inverts the writer *)

Lemma base128_nonneg l : 0 <= base128 l.
Proof.
  induction l as [|b l IH]; cbn [base128]; [lia|].
  pose proof (Z.mod_pos_bound (b2z b) 128). lia.
Qed.

Lemma varint_shape_cons b l :
  varint_shape (b :: l) =
    match l with [] => b2z b <? 128 | _ => (128 <=? b2z b) && varint_shape l end.
Proof. destruct l; done. Qed.

(** One iteration of the reading loop, with its shifts as arithmetic. *)
Lemma readVarint_step n shift out b r :
  0 <= shift <= 63 -> 0 <= out < 2 ^ shift ->
  readVarint_loop (S n) shift out (b :: r) =
    (let p := b2z b mod 128 in
     if (shift =? 63) && (p >? 1) then (None, r)
     else let out' := out + wrap 64 (p * 2 ^ shift) in
       if b2z b <? 128 then (Some out', r) else readVarint_loop n (shift + 7) out' r).
Proof.
  intros Hs Ho. cbn [readVarint_loop]. rewrite byte_payload, byte_continuation.
  assert (Z.lor out (wrap 64 (Z.shiftl (b2z b mod 128) shift))
          = out + wrap 64 (b2z b mod 128 * 2 ^ shift)) as ->; [|done].
  unfold wrap. rewrite Z.shiftl_mul_pow2 by lia.
  replace (2 ^ 64) with (2 ^ (64 - shift) * 2 ^ shift)
    by (rewrite <-Z.pow_add_r by lia; f_equal; lia).
  rewrite Z.mul_mod_distr_r, <-Z.shiftl_mul_pow2, lor_shiftl_add, Z.shiftl_mul_pow2 by lia. done.
Qed.

Lemma readVarint_loop_complete n pre rest shift out :
  shift = 7 * (10 - Z.of_nat n) -> (n <= 10)%nat -> 0 <= out < 2 ^ shift ->
  varint_shape pre = true -> (length pre <= n)%nat ->
  out + base128 pre * 2 ^ shift < 2 ^ 64 ->
  readVarint_loop n shift out (pre ++ rest) = (Some (out + base128 pre * 2 ^ shift), rest).
Proof.
  revert n shift out. induction pre as [|b pre IH]; intros n shift out Hs Hn Ho Hsh Hl Hv; [done|].
  destruct n as [|n]; [cbn [length] in Hl; lia|].
  cbn [app]. rewrite readVarint_step by lia. cbn [base128] in *.
  pose proof (Z.mod_pos_bound (b2z b) 128 ltac:(lia)) as Hp. pose proof (base128_nonneg pre).
  set (p := b2z b mod 128) in *. assert (0 < 2 ^ shift) by (apply Z.pow_pos_nonneg; lia).
  cbv zeta. rewrite (wrap_small 64 (p * 2 ^ shift)) by (unfold in_u; nia).
  destruct ((shift =? 63) && (p >? 1)) eqn:E1.
  { assert (shift = 63) as Hs63 by lia. rewrite Hs63 in Hv.
    change (2 ^ 63) with 9223372036854775808 in Hv. change (2 ^ 64) with 18446744073709551616 in Hv.
    change (2 ^ shift) with (2 ^ shift) in Ho. lia. }
  rewrite varint_shape_cons in Hsh. destruct pre as [|b' pre].
  - rewrite Hsh. cbn [base128 app]. do 2 f_equal. lia.
  - apply andb_prop in Hsh as [Hb Hsh]. rewrite (proj2 (Z.ltb_ge _ _)) by lia.
    assert (2 ^ (shift + 7) = 2 ^ shift * 128) as Hp7 by (rewrite Z.pow_add_r by lia; done).
    cbn [length] in *. rewrite IH; rewrite ?Hp7; try done; try lia; try nia. do 2 f_equal. ring.
Qed.

Lemma readVarint_loop_sound n shift out r v rest :
  shift = 7 * (10 - Z.of_nat n) -> (n <= 10)%nat -> 0 <= out < 2 ^ shift ->
  readVarint_loop n shift out r = (Some v, rest) ->
  exists pre, r = pre ++ rest /\ varint_shape pre = true /\ (length pre <= n)%nat /\
    v = out + base128 pre * 2 ^ shift /\ v < 2 ^ 64.
Proof.
  revert shift out r. induction n as [|n IH]; intros shift out r Hs Hn Ho; [done|].
  destruct r as [|b r]; [done|]. rewrite readVarint_step by lia. cbv zeta.
  pose proof (Z.mod_pos_bound (b2z b) 128 ltac:(lia)) as Hp. set (p := b2z b mod 128) in *.
  assert (0 < 2 ^ shift) by (apply Z.pow_pos_nonneg; lia).
  destruct ((shift =? 63) && (p >? 1)) eqn:E1; [done|].
  assert (p * 2 ^ shift + 2 ^ shift <= 2 ^ 64) as Hfit.
  { destruct (Z.eq_dec shift 63) as [->|]; [change (2 ^ 64) with (2 * 2 ^ 63); nia|].
    assert (2 ^ shift <= 2 ^ 56) by (apply Z.pow_le_mono_r; lia).
    change (2 ^ 64) with (256 * 2 ^ 56). nia. }
  rewrite wrap_small by (unfold in_u; nia).
  assert (2 ^ (shift + 7) = 2 ^ shift * 128) as Hp7 by (rewrite Z.pow_add_r by lia; done).
  destruct (b2z b <? 128) eqn:E2.
  - intros [= <- <-]. exists [b]. cbn. rewrite E2. fold p. split_and!; try done; lia.
  - intros Hr. apply IH in Hr as (pre & -> & Hsh & Hl & -> & Hv); [|lia|lia|nia].
    exists (b :: pre). rewrite varint_shape_cons. cbn [base128 length app]. fold p.
    split_and!; try done; [|lia|rewrite Hp7; ring].
    destruct pre; [done|]. rewrite Hsh. lia.
Qed.

(** [readVarint] accepts exactly the complete varints of at most ten bytes
    whose value fits 64 bits, and returns that value. *)
Lemma readVarint_iff r v rest :
  readVarint r = (Some v, rest) <->
  exists pre, r = pre ++ rest /\ varint_shape pre = true /\ (length pre <= 10)%nat /\
    v = base128 pre /\ in_u 64 v.
Proof.
  unfold readVarint, in_u. split.
  - intros H. apply readVarint_loop_sound in H as (pre & -> & Hsh & Hl & -> & Hv); [|lia..].
    pose proof (base128_nonneg pre). exists pre. split_and!; try done; lia.
  - intros (pre & -> & Hsh & Hl & -> & Hv).
    rewrite readVarint_loop_complete by (done || lia). do 2 f_equal. lia.
Qed.

Lemma appendVarint_loop_shape fuel v :
  0 <= v < 128 ^ Z.of_nat fuel ->
  let l := appendVarint_loop fuel v [] in
  (fuel = O \/ varint_shape l = true) /\ (length l <= fuel)%nat /\ base128 l = v.
Proof.
  revert v. induction fuel as [|fuel IH]; intros v Hv; cbn [appendVarint_loop].
  - simpl in *. split_and!; [by left|lia|lia].
  - cbv zeta. case_match eqn:E.
    + rewrite (appends (w:=appendVarint_loop fuel (Z.shiftr v 7))). unfold push_back.
      rewrite shiftr_7. cbn [app].
      replace (Z.of_nat (S fuel)) with (Z.succ (Z.of_nat fuel)) in Hv by lia.
      rewrite Z.pow_succ_r in Hv by lia.
      destruct (IH (v / 128)) as (Hsh & Hl & Hb).
      { split; [apply Z.div_pos; lia|apply Z.div_lt_upper_bound; lia]. }
      cbv zeta in *. set (l := appendVarint_loop fuel (v / 128) []) in *.
      pose proof (Z.mod_pos_bound v 128 ltac:(lia)).
      cbn [length base128]. rewrite varint_byte_value.
      split_and!; [right|lia|].
      * rewrite varint_shape_cons, varint_byte_value. destruct Hsh as [->|Hsh]; [simpl in Hv; lia|].
        destruct l; [done|]. rewrite Hsh. lia.
      * rewrite Hb. replace (v mod 128 + 128) with (v mod 128 + 1 * 128) by lia.
        rewrite Z.mod_add, Z.mod_mod by lia. pose proof (Z.div_mod v 128). lia.
    + unfold push_back. cbn [app varint_shape base128 length].
      rewrite b2z_z2b_small by lia. rewrite Z.mod_small by lia. split_and!; [right|..]; lia.
Qed.

Lemma appendVarint_shape v :
  in_u 64 v ->
  varint_shape (appendVarint v []) = true /\ (length (appendVarint v []) <= 10)%nat /\
  base128 (appendVarint v []) = v.
Proof.
  unfold in_u. intros Hv. destruct (appendVarint_loop_shape 10 v) as ([|] & ? & ?); try done.
  change (128 ^ Z.of_nat 10) with (64 * 2 ^ 64). lia.
Qed.

Lemma readVarint_appendVarint v rest :
  in_u 64 v -> readVarint (appendVarint v [] ++ rest) = (Some v, rest).
Proof.
  intros Hv. apply readVarint_iff. destruct (appendVarint_shape v Hv) as (? & ? & ?).
  exists (appendVarint v []). done.
Qed.

(** The encoding has no spare bytes: no complete varint of the value is shorter. *)
Lemma varint_length fuel v l :
  varint_shape l = true -> base128 l = v -> (length (appendVarint_loop fuel v []) <= length l)%nat.
Proof.
  revert v l. induction fuel as [|fuel IH]; intros v l Hs Hv; [apply Nat.le_0_l|].
  destruct l as [|b l]; [done|]. rewrite varint_shape_cons in Hs. cbn [base128] in Hv.
  pose proof (Z.mod_pos_bound (b2z b) 128 ltac:(lia)).
  cbn [appendVarint_loop]. destruct (v >=? 128) eqn:E; [|apply le_n_S, Nat.le_0_l].
  rewrite (appends (w:=appendVarint_loop fuel (Z.shiftr v 7))), shiftr_7.
  destruct l as [|b' l]; [cbn [base128] in Hv; lia|].
  unfold push_back. cbn [app length]. apply andb_true_iff in Hs as [_ Hs].
  assert (length (appendVarint_loop fuel (v / 128) []) <= length (b' :: l))%nat as Hl.
  { apply IH; [done|]. subst v. rewrite (Z.mul_comm 128), Z.div_add by lia.
    rewrite Z.div_small by lia. lia. }
  cbn [length] in Hl. lia.
Qed.

(** The varint reader accepts exactly the complete varints of at most ten
    bytes whose value fits 64 bits, and returns that value and the bytes after
    it: a truncated, an eleven-byte or an overflowing varint is rejected. *)
Theorem readVarint_spec r v rest :
  readVarint r = (Some v, rest) <->
  exists pre, r = pre ++ rest /\ varint_shape pre = true /\ (length pre <= 10)%nat /\
    v = base128 pre /\ in_u 64 v.
Proof. apply readVarint_iff. Qed.

(** Every [uint64_t] survives the varint writer and reader whatever bytes
    follow, and the writer's encoding is the shortest the reader accepts. *)
Theorem varint_roundtrip_minimal v rest :
  in_u 64 v ->
  readVarint (appendVarint v [] ++ rest) = (Some v, rest) /\
  forall pre rest', readVarint (pre ++ rest') = (Some v, rest') ->
    (length (appendVarint v []) <= length pre)%nat.
Proof.
  intros Hv. split; [by apply readVarint_appendVarint|].
  intros pre rest' Hr. apply readVarint_iff in Hr as (pre' & Heq & Hs & Hl & Hb & _).
  apply app_inv_tail in Heq as <-. by apply varint_length.
Qed.

Lemma varint_roundtrip_minimal_witness :
  readVarint (appendVarint UINT64_MAX [] ++ [Byte.x00]) = (Some UINT64_MAX, [Byte.x00]) /\
  (length (appendVarint 1 []) <= length [Byte.x81; Byte.x00])%nat.
Proof.
  assert (in_u 64 UINT64_MAX) as H by by_compute. assert (in_u 64 1) as H1 by by_compute.
  split.
  - exact (proj1 (varint_roundtrip_minimal UINT64_MAX [Byte.x00] H)).
  - exact (proj2 (varint_roundtrip_minimal 1 [] H1) [Byte.x81; Byte.x00] []
      ltac:(vm_compute; reflexivity)).
Defined.

(** ** Fixed-width values *)

Lemma shift_byte v i : z2b (Z.land (Z.shiftr v (8 * Z.of_nat i)) 255) = z2b (v / 256 ^ Z.of_nat i).
Proof.
  change 255 with (Z.ones 8). rewrite Z.land_ones, Z.shiftr_div_pow2, Z.pow_mul_r by lia.
  apply z2b_mod.
Qed.

Lemma appendFixed_from_bytes i n v :
  0 <= v -> appendFixed_from i n v [] = le_bytes n (v / 256 ^ Z.of_nat i).
Proof.
  intros Hv. revert i. induction n as [|n IH]; intros i; cbn [appendFixed_from le_bytes]; [done|].
  rewrite (appends (w:=appendFixed_from (S i) n v)). unfold push_back. rewrite shift_byte, IH.
  cbn [app]. do 2 f_equal. rewrite Z.div_div by (try lia; apply Z.pow_pos_nonneg; lia).
  f_equal. replace (Z.of_nat (S i)) with (Z.of_nat i + 1) by lia.
  rewrite Z.pow_add_r by lia. done.
Qed.

Lemma appendFixed_bytes n v : 0 <= v -> appendFixed_from 0 n v [] = le_bytes n v.
Proof. intros. rewrite appendFixed_from_bytes by lia. f_equal. apply Z.div_1_r. Qed.

Lemma readFixed_from_val i n out r :
  (n <= length r)%nat -> 0 <= out < 2 ^ (8 * Z.of_nat i) ->
  readFixed_from i n out r = out + le_val (take n r) * 2 ^ (8 * Z.of_nat i).
Proof.
  revert i out r. induction n as [|n IH]; intros i out r Hl Ho.
  { cbn [readFixed_from]. rewrite take_0. cbn [le_val]. lia. }
  destruct r as [|b r]; [cbn in Hl; lia|]. rewrite firstn_cons. cbn [readFixed_from le_val length] in *.
  pose proof (b2z_range b).
  assert (2 ^ (8 * Z.of_nat (S i)) = 2 ^ (8 * Z.of_nat i) * 256) as Hp.
  { replace (8 * Z.of_nat (S i)) with (8 * Z.of_nat i + 8) by lia.
    rewrite Z.pow_add_r by lia. done. }
  rewrite lor_shiftl_add by lia. rewrite IH; [rewrite Hp; ring|lia|rewrite Hp; nia].
Qed.

(** [readFixed] is little-endian assembly of the next bytes. *)
Lemma readFixed_spec width r :
  (width <= length r)%nat -> readFixed width r = (Some (le_val (take width r)), drop width r).
Proof.
  intros Hl. unfold readFixed. rewrite (proj2 (Nat.ltb_ge _ _)) by lia.
  rewrite readFixed_from_val by (cbn; lia). do 2 f_equal. cbn. lia.
Qed.

Lemma readFixed_appendFixed n v rest :
  in_u (8 * Z.of_nat n) v -> readFixed n (appendFixed_from 0 n v [] ++ rest) = (Some v, rest).
Proof.
  intros Hv. rewrite appendFixed_bytes by (unfold in_u in Hv; lia).
  rewrite readFixed_spec by (autorewrite with pj_len; lia).
  rewrite <-(length_le_bytes n v) at 1 3. rewrite take_length_app, drop_length_app.
  rewrite le_val_bytes, wrap_small by done. done.
Qed.

(** ** Tags and length-delimited payloads *)

Definition wire_ok (t : WireType) : bool :=
  match t with kOtherWire _ => false | _ => true end.

(** The field numbers of the codecs (any number below 2^29 of the proto spec). *)
Definition field_ok (f : Z) : Prop := 0 < f < 2 ^ 29.

Lemma wire_of_raw_raw t : wire_ok t = true -> wire_of_raw (wire_raw t) = t.
Proof. by destruct t. Qed.

Lemma wire_raw_range t : wire_ok t = true -> 0 <= wire_raw t < 8.
Proof. destruct t; cbn; (lia || done). Qed.

Lemma tag_value f t :
  wire_ok t = true -> Z.lor (Z.shiftl f 3) (wire_raw t) = wire_raw t + f * 2 ^ 3.
Proof.
  intros Ht. rewrite Z.lor_comm. apply lor_shiftl_add; [lia|]. apply wire_raw_range in Ht. lia.
Qed.

Lemma readTag_wtag f t rest :
  field_ok f -> wire_ok t = true -> readTag (wtag f t [] ++ rest) = (Some (mkTag f t), rest).
Proof.
  intros Hf Ht. unfold readTag, wtag, field_ok in *. rewrite tag_value by done.
  pose proof (wire_raw_range t Ht). change (2 ^ 29) with 536870912 in *. change (2 ^ 3) with 8.
  rewrite readVarint_appendVarint by (unfold in_u; change (2 ^ 64) with 18446744073709551616; lia).
  rewrite (proj2 (Z.eqb_neq _ _)) by lia.
  rewrite Z.shiftr_div_pow2 by lia. change 7 with (Z.ones 3). rewrite Z.land_ones by lia.
  change (2 ^ 3) with 8. rewrite Z.div_add, Z.mod_add, Z.div_small, Z.mod_small by lia.
  rewrite wire_of_raw_raw by done. cbv zeta. rewrite wrap_small by (unfold in_u; simpl; lia).
  rewrite Z.add_0_l. cbn [tag_field]. rewrite (proj2 (Z.eqb_neq _ _)) by lia. done.
Qed.

Lemma wtag_ne f t rest : field_ok f -> wire_ok t = true -> wtag f t [] ++ rest <> [].
Proof.
  intros Hf Ht E. pose proof (readTag_wtag f t rest Hf Ht) as H. rewrite E in H. by vm_compute in H.
Qed.

(** Buffers whose size is a [size_t]. *)
Definition fits (l : bytes) : Prop := Z.of_nat (length l) < 2 ^ 64.

Lemma fits_app l k : fits (l ++ k) -> fits l /\ fits k.
Proof. unfold fits. rewrite length_app. lia. Qed.

Lemma readBytes_written data rest :
  fits data -> readBytes ((appendVarint (Z.of_nat (length data)) [] ++ data) ++ rest) = (Some data, rest).
Proof.
  intros Hd. unfold readBytes. rewrite <-app_assoc.
  rewrite readVarint_appendVarint by (unfold in_u, fits in *; lia).
  unfold remaining. rewrite length_app. destruct (_ >? _) eqn:E; [blia|].
  rewrite Nat2Z.id, take_length_app, drop_length_app. done.
Qed.

Lemma wbytes_bytes f data :
  wbytes f data [] = wtag f kLengthDelimited [] ++ appendVarint (Z.of_nat (length data)) [] ++ data.
Proof. unfold wbytes. rewrite wseq_bytes, wseq_bytes by apply _. done. Qed.

(** ** What a read leaves *)

(** The reader left is a suffix of the reader given. *)
Definition suffix_of (r' r : reader) : Prop := exists k, r = k ++ r'.

Lemma suffix_refl r : suffix_of r r.
Proof. by exists []. Qed.

Lemma suffix_trans r1 r2 r3 : suffix_of r1 r2 -> suffix_of r2 r3 -> suffix_of r1 r3.
Proof. intros [k ->] [k' ->]. exists (k' ++ k). by rewrite app_assoc. Qed.

Lemma suffix_drop n r : suffix_of (drop n r) r.
Proof. exists (take n r). by rewrite take_drop. Qed.

Lemma suffix_length r' r : suffix_of r' r -> (length r' <= length r)%nat.
Proof. intros [k ->]. rewrite length_app. lia. Qed.

Lemma readVarint_loop_suffix n shift out r : suffix_of (readVarint_loop n shift out r).2 r.
Proof.
  revert shift out r. induction n as [|n IH]; intros shift out r; [apply suffix_refl|].
  destruct r as [|b r]; [apply suffix_refl|]. cbn [readVarint_loop].
  assert (suffix_of r (b :: r)) by (by exists [b]).
  repeat case_match; cbn [snd]; try done. eapply suffix_trans; [apply IH|done].
Qed.

Lemma readVarint_suffix r : suffix_of (readVarint r).2 r.
Proof. apply readVarint_loop_suffix. Qed.

Lemma readVarint_progress r v r' : readVarint r = (Some v, r') -> (length r' < length r)%nat.
Proof.
  intros (pre & -> & Hsh & _)%readVarint_spec. rewrite length_app.
  destruct pre; [done|cbn; lia].
Qed.

Lemma readTag_suffix r : suffix_of (readTag r).2 r.
Proof.
  unfold readTag. pose proof (readVarint_suffix r). by destruct (readVarint r) as [[]]; repeat case_match.
Qed.

Lemma readTag_progress r t r' : readTag r = (Some t, r') -> (length r' < length r)%nat.
Proof.
  unfold readTag. destruct (readVarint r) as [[v|] r1] eqn:E; [|done].
  apply readVarint_progress in E. repeat case_match; intros [=]; by subst.
Qed.

Lemma readFixed_suffix n r : suffix_of (readFixed n r).2 r.
Proof. unfold readFixed. case_match; [apply suffix_refl|apply suffix_drop]. Qed.

Lemma readBytes_suffix r : suffix_of (readBytes r).2 r.
Proof.
  unfold readBytes. pose proof (readVarint_suffix r). destruct (readVarint r) as [[] r']; [|done].
  case_match; cbn [snd] in *; [done|]. eapply suffix_trans; [apply suffix_drop|done].
Qed.

Lemma skip_suffix t r : suffix_of (skip t r).2 r.
Proof.
  destruct t; cbn [skip is_some_read snd].
  1: apply readVarint_suffix. 2: apply readBytes_suffix. 3: apply suffix_refl.
  all: unfold skipBytes; case_match; [apply suffix_refl|apply suffix_drop].
Qed.

(** ** parseFields *)

(** A handler never gives back bytes: the [Reader&] it gets only moves on. *)
Class Consumes {St} (h : handler St) : Prop :=
  consumes : forall t s r, suffix_of (h t s r).2 r.

(** One iteration. *)
Definition parseFields_body {St} (h : handler St) (k : St -> reader -> bool * St * reader)
    (s : St) (r : reader) : bool * St * reader :=
  if eof r then (true, s, r)
  else
    match readTag r with
    | (None, r1) => (false, s, r1)
    | (Some tag, r1) =>
      match h tag s r1 with
      | (true, s2, r2) => k s2 r2
      | (false, s2, r2) =>
        match skip (tag_type tag) r2 with
        | (false, r3) => (false, s2, r3)
        | (true, r3) => k s2 r3
        end
      end
    end.

Lemma parseFields_body_ext {St} (h : handler St) `{!Consumes h} k1 k2 s r :
  (forall s' r', (length r' < length r)%nat -> k1 s' r' = k2 s' r') ->
  parseFields_body h k1 s r = parseFields_body h k2 s r.
Proof.
  intros Hk. unfold parseFields_body. case_match; [done|].
  destruct (readTag r) as [[tag|] r1] eqn:Et; [|done]. apply readTag_progress in Et.
  pose proof (suffix_length _ _ (consumes tag s r1)) as Hh.
  destruct (h tag s r1) as [[[|] s2] r2]; cbn [snd] in Hh; [apply Hk; lia|].
  pose proof (suffix_length _ _ (skip_suffix (tag_type tag) r2)) as Hs.
  destruct (skip (tag_type tag) r2) as [[|] r3]; cbn [snd] in Hs; [apply Hk; lia|done].
Qed.

Lemma parseFields_loop_fuel {St} (h : handler St) `{!Consumes h} f1 f2 s r :
  (length r < f1)%nat -> (length r < f2)%nat ->
  parseFields_loop f1 h s r = parseFields_loop f2 h s r.
Proof.
  revert f2 s r. induction f1 as [|f1 IH]; intros f2 s r H1 H2; [lia|].
  destruct f2 as [|f2]; [lia|].
  apply (parseFields_body_ext h (parseFields_loop f1 h) (parseFields_loop f2 h)).
  intros. apply IH; lia.
Qed.

(** [parseFields] is the fixed point of its iteration. *)
Lemma parseFields_unfold {St} (h : handler St) `{!Consumes h} s r :
  parseFields h s r = parseFields_body h (parseFields h) s r.
Proof.
  unfold parseFields at 1. change (parseFields_loop (S (length r)) h s r)
    with (parseFields_body h (parseFields_loop (length r) h) s r).
  apply (parseFields_body_ext h). intros. unfold parseFields.
  apply parseFields_loop_fuel; [done|lia..].
Qed.

Lemma parseFields_loop_suffix {St} (h : handler St) `{!Consumes h} fuel s r :
  suffix_of (parseFields_loop fuel h s r).2 r /\
  ((parseFields_loop fuel h s r).1.1 = true -> (parseFields_loop fuel h s r).2 = []).
Proof.
  revert s r. induction fuel as [|fuel IH]; intros s r; cbn [parseFields_loop];
    [by split; [apply suffix_refl|]|].
  destruct (eof r) eqn:E; [split; [apply suffix_refl|by destruct r]|].
  pose proof (readTag_suffix r) as Ht. destruct (readTag r) as [[tag|] r1]; [|by split].
  pose proof (consumes tag s r1) as Hh. destruct (h tag s r1) as [[[|] s2] r2]; cbn [snd] in *.
  - destruct (IH s2 r2). split; [|done]. eauto using suffix_trans.
  - pose proof (skip_suffix (tag_type tag) r2) as Hs.
    destruct (skip (tag_type tag) r2) as [[|] r3]; cbn [snd] in *;
      [|by split; [eauto using suffix_trans|]].
    destruct (IH s2 r3). split; [|done]. eauto using suffix_trans.
Qed.

(** The parsing loop terminates on every input with every handler that does
    not give bytes back: more iterations than the bytes of the input never
    change the result, which is the fixed point of one iteration; success means
    that the whole input was consumed, and failure leaves a suffix of it. *)
Theorem parseFields_total {St} (h : handler St) `{!Consumes h} s r :
  (forall fuel, (length r < fuel)%nat -> parseFields_loop fuel h s r = parseFields h s r) /\
  parseFields h s r = parseFields_body h (parseFields h) s r /\
  suffix_of (parseFields h s r).2 r /\
  ((parseFields h s r).1.1 = true -> (parseFields h s r).2 = []).
Proof.
  split_and!.
  - intros fuel Hf. apply parseFields_loop_fuel; [done|done|lia].
  - by apply parseFields_unfold.
  - by apply parseFields_loop_suffix.
  - by apply parseFields_loop_suffix.
Qed.

Lemma parseFields_nil {St} (h : handler St) s : parseFields h s [] = (true, s, []).
Proof. done. Qed.

(** ** Field by field decoding

    [encodes h w s s']: parsing the bytes of [w] takes the message [s] to [s']
    and goes on with the bytes that follow. *)
Definition encodes {St} (h : handler St) (w : wop) (s s' : St) : Prop :=
  fits (w []) -> forall rest, parseFields h s (w [] ++ rest) = parseFields h s' rest.

Lemma encodes_done {St} (h : handler St) w s s' :
  encodes h w s s' -> fits (w []) -> parseFields h s (w []) = (true, s', []).
Proof.
  intros He Hf. specialize (He Hf []). rewrite app_nil_r in He. rewrite He. apply parseFields_nil.
Qed.

Lemma encodes_skip {St} (h : handler St) s : encodes h wskip s s.
Proof. done. Qed.

Lemma encodes_seq {St} (h : handler St) w1 w2 `{!Appends w2} s s1 s2 :
  encodes h w1 s s1 -> encodes h w2 s1 s2 -> encodes h (w1 ;> w2) s s2.
Proof.
  intros H1 H2 Hf rest. rewrite wseq_bytes in * by apply _. apply fits_app in Hf as [Hf1 Hf2].
  rewrite <-app_assoc, H1, H2 by done. done.
Qed.

Section fields.
Context {St : Type} (h : handler St) `{!Consumes h}.

(** A tag that the handler accepts. *)
Lemma encodes_tag f t (payload : bytes) s s' rest :
  field_ok f -> wire_ok t = true ->
  h (mkTag f t) s (payload ++ rest) = (true, s', rest) ->
  parseFields h s ((wtag f t [] ++ payload) ++ rest) = parseFields h s' rest.
Proof.
  intros Hf Ht Hh. rewrite parseFields_unfold by done. unfold parseFields_body.
  rewrite <-app_assoc. case_match eqn:E.
  - exfalso. pose proof (wtag_ne f t (payload ++ rest) Hf Ht).
    by destruct (wtag f t [] ++ payload ++ rest).
  - rewrite readTag_wtag, Hh by done. done.
Qed.

Lemma encodes_varint f v s s' :
  field_ok f ->
  (forall rest, h (mkTag f kVarint) s (appendVarint v [] ++ rest) = (true, s', rest)) ->
  encodes h (varint f v) s s'.
Proof. intros Hf Hh _ rest. unfold varint. rewrite wseq_bytes by apply _. by apply encodes_tag. Qed.

Lemma encodes_fixed64 f v s s' :
  field_ok f ->
  (forall rest, h (mkTag f kFixed64) s (appendFixed64 v [] ++ rest) = (true, s', rest)) ->
  encodes h (fixed64 f v) s s'.
Proof. intros Hf Hh _ rest. unfold fixed64. rewrite wseq_bytes by apply _. by apply encodes_tag. Qed.

Lemma encodes_fixed32 f v s s' :
  field_ok f ->
  (forall rest, h (mkTag f kFixed32) s (appendFixed32 v [] ++ rest) = (true, s', rest)) ->
  encodes h (fixed32 f v) s s'.
Proof. intros Hf Hh _ rest. unfold fixed32. rewrite wseq_bytes by apply _. by apply encodes_tag. Qed.

Lemma encodes_wbytes f data s s' :
  field_ok f ->
  (fits data -> forall rest, h (mkTag f kLengthDelimited) s
     ((appendVarint (Z.of_nat (length data)) [] ++ data) ++ rest) = (true, s', rest)) ->
  encodes h (wbytes f data) s s'.
Proof.
  intros Hf Hh Hfit rest. rewrite wbytes_bytes in *. apply fits_app in Hfit as [_ Hfit].
  apply fits_app in Hfit as [_ Hfit]. by apply encodes_tag, Hh.
Qed.

(** A field the handler declines without touching anything is skipped:
    its payload has no influence on the message. *)
Lemma encodes_declined f t (payload : bytes) s :
  field_ok f -> wire_ok t = true ->
  (forall r, h (mkTag f t) s r = (false, s, r)) ->
  (forall rest, skip t (payload ++ rest) = (true, rest)) ->
  forall rest, parseFields h s ((wtag f t [] ++ payload) ++ rest) = parseFields h s rest.
Proof.
  intros Hf Ht Hh Hs rest. rewrite parseFields_unfold by done. unfold parseFields_body.
  rewrite <-app_assoc. case_match eqn:E.
  - exfalso. pose proof (wtag_ne f t (payload ++ rest) Hf Ht).
    by destruct (wtag f t [] ++ payload ++ rest).
  - rewrite readTag_wtag, Hh by done. cbn [tag_type]. rewrite Hs. done.
Qed.
End fields.

(** ** The reading forms of the handlers *)

Lemma read_into_suffix {A St} (rd : rop A) set (s : St) r :
  suffix_of (rd r).2 r -> suffix_of (read_into rd set s r).2 r.
Proof. unfold read_into. by destruct (rd r) as [[] r']. Qed.

Lemma read_nested_suffix {A St} (dec : decoder A) get set (s : St) r :
  suffix_of (read_nested dec get set s r).2 r.
Proof.
  unfold read_nested, readMessage. pose proof (readBytes_suffix r).
  destruct (readBytes r) as [[data|] r']; [|done]. by destruct (dec (get s) data) as [[] ?].
Qed.

Lemma read_push_suffix {A St} (dec : decoder A) init push (s : St) r :
  suffix_of (read_push dec init push s r).2 r.
Proof.
  unfold read_push, readMessage. pose proof (readBytes_suffix r).
  destruct (readBytes r) as [[data|] r']; [|done]. by destruct (dec init data) as [[[] ?] ?].
Qed.

Lemma readPacked_suffix n out r : suffix_of (readPacked n out r).2 r.
Proof.
  unfold readPacked. pose proof (readBytes_suffix r).
  destruct (readBytes r) as [[data|] r']; [|done]. case_match; [done|]. by destruct (readAll_loop _ _ _ _).
Qed.

Lemma readPackedDoubleArray_suffix n out r : suffix_of (readPackedDoubleArray n out r).2 r.
Proof.
  unfold readPackedDoubleArray. pose proof (readBytes_suffix r).
  destruct (readBytes r) as [[data|] r']; [|done]. case_match; [done|]. by case_match.
Qed.

Lemma read_packed_suffix {St} rd get set (s : St) r :
  (forall out, suffix_of (rd out r).2 r) -> suffix_of (read_packed rd get set s r).2 r.
Proof. intros H. unfold read_packed. specialize (H (get s)). by destruct (rd (get s) r) as [[? ?] ?]. Qed.

#[export] Hint Resolve read_push_suffix readPacked_suffix readPackedDoubleArray_suffix
  read_packed_suffix : pj.
#[export] Hint Resolve suffix_refl read_into_suffix read_nested_suffix readVarint_suffix
  readFixed_suffix readBytes_suffix : pj.

(** Split a handler into its branches; each leaves a suffix. *)
Ltac solve_consumes :=
  intros ? s r; cbv beta zeta delta [readDouble readFixed64 readFloat readFixed32 readString
    readPackedDouble readPackedFixed32];
  repeat case_match; cbn [snd]; eauto with pj.

Section written.
Context {A St : Type}.

Lemma read_into_written (rd : rop A) set (s : St) payload a rest :
  rd (payload ++ rest) = (Some a, rest) ->
  read_into rd set s (payload ++ rest) = (true, set a s, rest).
Proof. unfold read_into. by intros ->. Qed.

Lemma read_nested_written (dec : decoder A) get set (s : St) data a r' rest :
  fits data -> dec (get s) data = (true, a, r') ->
  read_nested dec get set s ((appendVarint (Z.of_nat (length data)) [] ++ data) ++ rest)
    = (true, set a s, rest).
Proof.
  intros Hf Hd. unfold read_nested, readMessage. rewrite readBytes_written, Hd by done. done.
Qed.
End written.

Lemma readDouble_written v rest :
  in_u 64 v -> readDouble (appendFixed64 v [] ++ rest) = (Some v, rest).
Proof. apply (readFixed_appendFixed 8). Qed.

Lemma readFixed32_written v rest :
  in_u 32 v -> readFixed32 (appendFixed32 v [] ++ rest) = (Some v, rest).
Proof. apply (readFixed_appendFixed 4). Qed.

(** ** Automation for the codecs *)

(** Evaluate a handler at a concrete tag, without touching its reads. *)
Ltac eval_tag :=
  cbv beta iota delta [wt_eqb wire_raw tag_type tag_field Z.eqb Pos.eqb negb andb orb].

Ltac solve_field_ok := unfold field_ok; change (2 ^ 29) with 536870912; lia.

(** ** Codecs: the interface between a message type and the messages that nest it

    What a writer and a decoder of [A] promise each other: on well-formed
    values the decoder recovers the value, whatever the variable it assigns
    held before. *)
Class Codec {A} (wf : A -> Prop) (write : A -> wop) (dec : decoder A) : Prop := {
  codec_appends a : Appends (write a);
  codec_roundtrip a0 a : wf a -> fits (write a []) -> dec a0 (write a []) = (true, a, []);
}.

Lemma encodes_eq {St} (h : handler St) w s s1 s' : encodes h w s s1 -> s1 = s' -> encodes h w s s'.
Proof. by intros ? <-. Qed.

Lemma codec_of_encodes {A} (wf : A -> Prop) write (h : handler A) :
  (forall a, Appends (write a)) ->
  (forall a0 a, wf a -> encodes h (write a) a0 a) ->
  Codec wf write (parseFields h).
Proof. intros Ha He. split; [done|]. intros a0 a Hwf Hf. by apply encodes_done, Hf; apply He. Qed.

Section nested.
Context {St A : Type} (h : handler St) `{!Consumes h}.

Lemma encodes_message `{Hc : !Codec wf write dec} (get : St -> A) set f a s :
  field_ok f -> wf a ->
  (forall r, h (mkTag f kLengthDelimited) s r = read_nested dec get set s r) ->
  encodes h (message f (write a)) s (set a s).
Proof.
  intros Hf Hwf Hh. apply encodes_wbytes; [done|done|]. intros Hfit rest. rewrite Hh.
  eapply read_nested_written; [done|]. by apply codec_roundtrip.
Qed.
End nested.

Section strings.
Context {St : Type} (h : handler St) `{!Consumes h}.

Lemma encodes_string set f v s :
  field_ok f ->
  (forall r, h (mkTag f kLengthDelimited) s r = read_into readString set s r) ->
  encodes h (wstring f v) s (set v s).
Proof.
  intros Hf Hh. apply encodes_wbytes; [done|done|]. intros Hfit rest. rewrite Hh.
  by apply read_into_written, readBytes_written.
Qed.

Lemma encodes_double set f v s :
  field_ok f -> in_u 64 v ->
  (forall r, h (mkTag f kFixed64) s r = read_into readDouble set s r) ->
  encodes h (doubleField f v) s (set v s).
Proof.
  intros Hf Hv Hh. apply encodes_fixed64; [done|done|]. intros rest. rewrite Hh.
  by apply read_into_written, readDouble_written.
Qed.

Lemma encodes_float set f v s :
  field_ok f -> in_u 32 v ->
  (forall r, h (mkTag f kFixed32) s r = read_into readFloat set s r) ->
  encodes h (floatField f v) s (set v s).
Proof.
  intros Hf Hv Hh. apply encodes_fixed32; [done|done|]. intros rest. rewrite Hh.
  by apply read_into_written, readFixed32_written.
Qed.

Lemma encodes_uint set f v s :
  field_ok f -> in_u 64 v ->
  (forall r, h (mkTag f kVarint) s r = read_into readVarint set s r) ->
  encodes h (varint f v) s (set v s).
Proof.
  intros Hf Hv Hh. apply encodes_varint; [done|done|]. intros rest. rewrite Hh.
  by apply read_into_written, readVarint_appendVarint.
Qed.
End strings.

(** ** Repeated fields *)

Section repeated.
Context {St A : Type} (h : handler St) `{!Consumes h}.

Lemma encodes_all (f : A -> wop) (upd : St -> A -> St) l s `{!forall a, Appends (f a)} :
  (forall a s0, a ∈ l -> encodes h (f a) s0 (upd s0 a)) ->
  encodes h (appendAll f l) s (foldl upd s l).
Proof.
  revert s. induction l as [|a l IH]; intros s Hl; [apply encodes_skip|].
  intros Hfit rest. unfold appendAll in *. cbn [foldl] in *.
  change (foldl (fun o v => f v o) (f a []) l) with (appendAll f l (f a [])) in *.
  rewrite (appends (w:=appendAll f l)) in *. apply fits_app in Hfit as [Hf1 Hf2].
  rewrite <-app_assoc, (Hl a s) by (done || by left).
  apply IH; [|done]. intros. apply Hl. by right.
Qed.

Lemma encodes_push {wf : A -> Prop} {write dec} `{Hc : !Codec wf write dec}
    (init : A) (push : A -> St -> St) f a s :
  field_ok f -> wf a ->
  (forall r, h (mkTag f kLengthDelimited) s r = read_push dec init push s r) ->
  encodes h (message f (write a)) s (push a s).
Proof.
  intros Hf Hwf Hh. apply encodes_wbytes; [done|done|]. intros Hfit rest. rewrite Hh.
  unfold read_push, readMessage. rewrite readBytes_written, codec_roundtrip by done. done.
Qed.
End repeated.

(** ** Packed fields *)

Lemma appendAll_cons {A} (f : A -> wop) `{!forall a, Appends (f a)} v vs :
  appendAll f (v :: vs) [] = f v [] ++ appendAll f vs [].
Proof. unfold appendAll. cbn [foldl]. apply (appends (w:=appendAll f vs)). Qed.

Lemma length_appendFixed n v : 0 <= v -> length (appendFixed_from 0 n v []) = n.
Proof. intros. rewrite appendFixed_bytes by done. apply length_le_bytes. Qed.

Lemma length_appendAll_fixed n vs :
  Forall (in_u (8 * Z.of_nat n)) vs ->
  length (appendAll (appendFixed_from 0 n) vs []) = (length vs * n)%nat.
Proof.
  induction 1 as [|v vs Hv Hvs IH]; [done|].
  rewrite (appendAll_cons (appendFixed_from 0 n)), length_app, IH, length_appendFixed; [done|].
  unfold in_u in Hv. lia.
Qed.

Lemma readAll_written n vs out fuel :
  (0 < n)%nat -> Forall (in_u (8 * Z.of_nat n)) vs -> (length vs < fuel)%nat ->
  readAll_loop fuel n (appendAll (appendFixed_from 0 n) vs []) out = (true, out ++ vs).
Proof.
  intros Hn Hvs. revert out fuel. induction Hvs as [|v vs Hv Hvs IH]; intros out fuel Hf;
    (destruct fuel as [|fuel]; [cbn in Hf; lia|]).
  - cbn. by rewrite app_nil_r.
  - rewrite (appendAll_cons (appendFixed_from 0 n)). cbn [readAll_loop length] in *.
    pose proof (length_appendFixed n v ltac:(unfold in_u in Hv; lia)) as Hl.
    rewrite readFixed_appendFixed by done.
    destruct (appendFixed_from 0 n v [] ++ _) eqn:E; cbn [eof].
    { apply (f_equal length) in E. rewrite length_app in E. cbn in E. lia. }
    rewrite IH by lia. by rewrite <-app_assoc.
Qed.

Lemma readPacked_written n vs out rest :
  (0 < n)%nat -> Forall (in_u (8 * Z.of_nat n)) vs ->
  fits (appendAll (appendFixed_from 0 n) vs []) ->
  readPacked n out ((appendVarint (Z.of_nat (length vs) * Z.of_nat n) []
                     ++ appendAll (appendFixed_from 0 n) vs []) ++ rest) = (true, out ++ vs, rest).
Proof.
  intros Hn Hvs Hfit. pose proof (length_appendAll_fixed n vs Hvs) as Hl.
  unfold readPacked. rewrite <-Nat2Z.inj_mul, <-Hl, readBytes_written by done.
  rewrite Hl, Nat2Z.inj_mul, Z.mod_mul by lia. cbn [Z.eqb negb].
  rewrite readAll_written by (done || nia). done.
Qed.

Lemma readArray_written vs :
  Forall (in_u 64) vs -> readArray_loop (length vs) (appendAll appendFixed64 vs []) = Some vs.
Proof.
  induction 1 as [|v vs Hv Hvs IH]; [done|]. rewrite (appendAll_cons appendFixed64).
  cbn [length readArray_loop]. rewrite readDouble_written, IH by done. done.
Qed.

Lemma readPackedDoubleArray_written vs out rest :
  Forall (in_u 64) vs -> fits (appendAll appendFixed64 vs []) ->
  readPackedDoubleArray (length vs) out
    ((appendVarint (Z.of_nat (length vs) * 8) [] ++ appendAll appendFixed64 vs []) ++ rest)
  = (true, vs, rest).
Proof.
  intros Hvs Hfit. pose proof (length_appendAll_fixed 8 vs Hvs) as Hl.
  unfold readPackedDoubleArray. change (appendFixed_from 0 8) with appendFixed64 in Hl.
  replace (Z.of_nat (length vs) * 8) with (Z.of_nat (length (appendAll appendFixed64 vs []))) by lia.
  rewrite readBytes_written by done. rewrite (proj2 (Nat.eqb_eq _ _)) by lia. cbn [negb].
  rewrite readArray_written by done. done.
Qed.

Section packed.
Context {St : Type} (h : handler St) `{!Consumes h}.

Lemma encodes_packedDouble get set f vs s :
  field_ok f -> Forall (in_u 64) vs ->
  (forall r, h (mkTag f kLengthDelimited) s r = read_packed readPackedDouble get set s r) ->
  set (get s) s = s ->
  encodes h (packedDouble f vs) s (set (get s ++ vs) s).
Proof.
  intros Hf Hvs Hh Hset. unfold packedDouble. case_match eqn:E.
  - apply Nat.eqb_eq, nil_length_inv in E as ->. rewrite app_nil_r, Hset. apply encodes_skip.
  - intros Hfit rest. rewrite !wseq_bytes in * by apply _.
    apply fits_app in Hfit as [_ Hfit]. apply fits_app in Hfit as [_ Hfit].
    apply encodes_tag; [done|done|done|]. rewrite Hh. unfold read_packed, readPackedDouble.
    by rewrite (readPacked_written 8) by (done || lia).
Qed.

Lemma encodes_packedArray N get set f vs s :
  field_ok f -> Forall (in_u 64) vs -> length vs = S N ->
  (forall r, h (mkTag f kLengthDelimited) s r
             = read_packed (readPackedDoubleArray (S N)) get set s r) ->
  encodes h (packedDouble f vs) s (set vs s).
Proof.
  intros Hf Hvs Hpos Hh. rewrite <-Hpos in Hh. unfold packedDouble. rewrite (proj2 (Nat.eqb_neq _ _)) by lia.
  intros Hfit rest. rewrite !wseq_bytes in * by apply _.
  apply fits_app in Hfit as [_ Hfit]. apply fits_app in Hfit as [_ Hfit].
  apply encodes_tag; [done|done|done|]. rewrite Hh. unfold read_packed.
  by rewrite readPackedDoubleArray_written by done.
Qed.
End packed.

(** The values written as varints fit 64 bits. *)
Lemma in_u32_64 v : in_u 32 v -> in_u 64 v.
Proof. unfold in_u. change (2 ^ 32) with 4294967296. change (2 ^ 64) with 18446744073709551616. lia. Qed.

Lemma in_u64_bool (b : bool) : in_u 64 (if b then 1 else 0).
Proof. destruct b; unfold in_u; simpl; lia. Qed.

Ltac solve_in_u :=
  first [done | by apply in_u32_64 | by apply in_u32_64, wrap_range | apply in_u64_bool].

(** Walk a sequence of writes, one field lemma per write. *)
Ltac encodes_field :=
  lazymatch goal with
  | |- encodes _ wskip _ _ => apply encodes_skip
  | |- encodes _ (doubleField _ _) _ _ =>
    eapply encodes_double; [apply _|solve_field_ok|done|intros; eval_tag; reflexivity]
  | |- encodes _ (floatField _ _) _ _ =>
    eapply encodes_float; [apply _|solve_field_ok|done|intros; eval_tag; reflexivity]
  | |- encodes _ (varint _ _) _ _ =>
    eapply encodes_uint; [apply _|solve_field_ok|solve_in_u|intros; eval_tag; reflexivity]
  | |- encodes _ (wstring _ _) _ _ =>
    eapply encodes_string; [apply _|solve_field_ok|intros; eval_tag; reflexivity]
  | |- encodes _ (wbytes _ _) _ _ =>
    eapply encodes_string; [apply _|solve_field_ok|intros; eval_tag; reflexivity]
  | |- encodes _ (message _ _) _ _ =>
    eapply encodes_message; [apply _|apply _|solve_field_ok|done|intros; eval_tag; reflexivity]
  | |- encodes _ (packedDouble _ _) _ _ =>
    first
      [ eapply encodes_packedArray;
          [apply _|solve_field_ok|done|eassumption|intros; eval_tag; reflexivity]
      | eapply encodes_packedDouble;
          [apply _|solve_field_ok|done|intros; eval_tag; reflexivity|reflexivity] ]
  end.

(** A varint field of a handler [h] that reads the value before it dispatches. *)
Ltac encodes_raw_varint h :=
  eapply encodes_eq;
    [eapply encodes_varint; [apply _|solve_field_ok|]; intros rest; unfold h; eval_tag;
     rewrite readVarint_appendVarint by solve_in_u; reflexivity
    |cbn; try reflexivity].

Ltac solve_encodes :=
  lazymatch goal with
  | |- encodes _ (_ ;> _) _ _ => eapply encodes_seq;
      [apply _|eapply encodes_eq; [encodes_field|cbn; reflexivity]|solve_encodes]
  | |- encodes _ _ _ _ => eapply encodes_eq; [encodes_field|try reflexivity]
  end.

(** ** Invariants of the message under construction *)

(** [h] keeps [P], whether or not it accepts the field. *)
Class Preserves {St} (P : St -> Prop) (h : handler St) : Prop :=
  preserves : forall t s r, P s -> P (h t s r).1.2.

Lemma parseFields_preserves {St} (P : St -> Prop) (h : handler St) `{!Preserves P h} s r :
  P s -> P (parseFields h s r).1.2.
Proof.
  unfold parseFields. generalize (S (length r)) as fuel. intros fuel. revert s r.
  induction fuel as [|fuel IH]; intros s r Hs; cbn [parseFields_loop]; [done|].
  case_match; [done|]. destruct (readTag r) as [[tag|] r1]; [|done].
  pose proof (preserves tag s r1 Hs) as Hh. destruct (h tag s r1) as [[[|] s2] r2]; cbn in Hh.
  - by apply IH.
  - destruct (skip (tag_type tag) r2) as [[|] r3]; [by apply IH|done].
Qed.

Lemma read_into_preserves {A St} (P : St -> Prop) (rd : rop A) set s r :
  (forall a, P (set a s)) -> P s -> P (read_into rd set s r).1.2.
Proof. intros H1 H2. unfold read_into. by destruct (rd r) as [[] ?]; cbn. Qed.

Lemma read_nested_preserves {A St} (P : St -> Prop) (dec : decoder A) get set s r :
  (forall a, P (set a s)) -> P s -> P (read_nested dec get set s r).1.2.
Proof.
  intros H1 H2. unfold read_nested. destruct (readMessage r) as [[d|] ?]; [|done].
  destruct (dec (get s) d) as [[? ?] ?]; cbn. apply H1.
Qed.

Lemma read_push_preserves {A St} (P : St -> Prop) (Q : A -> Prop) (dec : decoder A) init push s r :
  (forall d, Q (dec init d).1.2) -> (forall a, Q a -> P (push a s)) -> P s ->
  P (read_push dec init push s r).1.2.
Proof.
  intros Hd Hp Hs. unfold read_push. destruct (readMessage r) as [[d|] ?]; [|done].
  specialize (Hd d). destruct (dec init d) as [[[] ?] ?]; cbn in *; auto.
Qed.

(** ** Unknown fields *)

(** A field of any valid wire type, as a newer writer may add it. *)
Inductive wire_value : Type :=
  | WVarint (v : Z)
  | WFixed64 (v : Z)
  | WFixed32 (v : Z)
  | WBytes (data : bytes).

Definition value_type (wv : wire_value) : WireType :=
  match wv with
  | WVarint _ => kVarint | WFixed64 _ => kFixed64 | WFixed32 _ => kFixed32
  | WBytes _ => kLengthDelimited
  end.

Definition value_wf (wv : wire_value) : Prop :=
  match wv with
  | WVarint v | WFixed64 v => in_u 64 v
  | WFixed32 v => in_u 32 v
  | WBytes data => fits data
  end.

Definition write_value (f : Z) (wv : wire_value) : wop :=
  match wv with
  | WVarint v => varint f v
  | WFixed64 v => fixed64 f v
  | WFixed32 v => fixed32 f v
  | WBytes data => wbytes f data
  end.

(** The handler declines field [f] and touches nothing. *)
Definition declines {St} (h : handler St) (f : Z) : Prop :=
  forall t s r, h (mkTag f t) s r = (false, s, r).

Lemma skipBytes_fixed n v rest :
  0 <= v -> skipBytes n (appendFixed_from 0 n v [] ++ rest) = (true, rest).
Proof.
  intros Hv. pose proof (length_appendFixed n v Hv) as Hl. unfold skipBytes.
  rewrite length_app, Hl, (proj2 (Nat.ltb_ge _ _)) by lia.
  rewrite <-Hl at 1. by rewrite drop_length_app.
Qed.

(** Forward compatibility of the parsing loop: a field that the handler
    declines has no effect, whatever its number, wire type and contents. *)
Theorem parseFields_skips_unknown {St} (h : handler St) `{!Consumes h} f wv s rest :
  field_ok f -> value_wf wv -> declines h f ->
  parseFields h s (write_value f wv [] ++ rest) = parseFields h s rest.
Proof.
  intros Hf Hwf Hd. destruct wv as [v|v|v|data]; cbn [write_value value_wf] in *;
    unfold varint, fixed64, fixed32; rewrite ?wbytes_bytes, ?wseq_bytes by apply _;
    (apply encodes_declined; [done..|intros; apply Hd|]; intros rest'; cbn [skip]).
  - by rewrite readVarint_appendVarint.
  - apply (skipBytes_fixed 8). apply Hwf.
  - apply (skipBytes_fixed 4). apply Hwf.
  - by rewrite readBytes_written.
Qed.
