(* ===== verification/FieldLoop.v ===== *)
(** * FieldLoop: decoders that drive their own loop

    Several builtin codecs do not go through [parseFields] but loop over the fields
    themselves: [while (!reader.eof()) { readTag ... }], with an early return where a field
    they know does not decode, and [skip] for the others.  Their common loop, what it
    needs to terminate, and the field-by-field lemmas of [ProtobufWire] for it. *)

From S2P Require Import Prelude ProtobufWire.

(** What the body of the loop does with a field. *)
Inductive verdict (St E : Type) : Type :=
  | Took (s : St) (r : reader)  (** the field was read *)
  | Broke (e : E)               (** an early return *)
  | Other.                      (** left to [skip] *)
Arguments Took {St E} s r.
Arguments Broke {St E} e.
Arguments Other {St E}.

Definition field_step (St E : Type) : Type := Tag -> St -> reader -> verdict St E.

Fixpoint field_loop_fuel {St E} (fuel : nat) (bad_tag bad_skip : E) (step : field_step St E) (s : St) (r : reader)
  : E + St :=
  match fuel with
  | O => inl bad_tag
  | S fuel' =>
    if eof r then inr s
    else
      match readTag r with
      | (None, _) => inl bad_tag
      | (Some tag, r1) =>
        match step tag s r1 with
        | Took s' r2 => field_loop_fuel fuel' bad_tag bad_skip step s' r2
        | Broke e => inl e
        | Other =>
          match skip (tag_type tag) r1 with
          | (false, _) => inl bad_skip
          | (true, r2) => field_loop_fuel fuel' bad_tag bad_skip step s r2
          end
        end
      end
  end.

(** Every iteration consumes a tag, so the length of the input bounds the iterations
    ([field_loop_unfold]). *)
Definition field_loop {St E} (bad_tag bad_skip : E) (step : field_step St E) (s : St) (r : reader) : E + St :=
  field_loop_fuel (S (length r)) bad_tag bad_skip step s r.

(** A loop as the decoder of a nested message.  What a failed decoder has assigned already
    is dropped with the message it belongs to: every caller returns. *)
Definition loop_decoder {A} (step : field_step A unit) : decoder A := fun a r =>
  match field_loop tt tt step a r with
  | inr a' => (true, a', [])
  | inl _ => (false, a, r)
  end.

Definition to_expected {A} (x : string + A) : Expected A := match x with inl e => Err e | inr a => Ok a end.

(** The reading forms of the bodies; a nested message may be cut short or fail to decode. *)
Definition take_into {A St E} (e : E) (rd : rop A) (set : A -> St -> St) (s : St) (r : reader) : verdict St E :=
  match rd r with (Some a, r') => Took (set a s) r' | (None, _) => Broke e end.

Definition take_nested {A St E} (e_cut e_decode : E) (dec : decoder A) (get : St -> A) (set : A -> St -> St) (s : St) (r : reader)
  : verdict St E :=
  match readMessage r with
  | (None, _) => Broke e_cut
  | (Some nested, r') => let '(ok, a, _) := dec (get s) nested in if ok then Took (set a s) r' else Broke e_decode
  end.

(** ** Termination *)

Class StepConsumes {St E} (step : field_step St E) : Prop :=
  step_consumes : forall t s r s' r', step t s r = Took s' r' -> suffix_of r' r.

Section loop.
Context {St E : Type} (bad_tag bad_skip : E) (step : field_step St E) `{!StepConsumes step}.

Definition field_body (k : St -> reader -> E + St) (s : St) (r : reader) : E + St :=
  if eof r then inr s
  else
    match readTag r with
    | (None, _) => inl bad_tag
    | (Some tag, r1) =>
      match step tag s r1 with
      | Took s' r2 => k s' r2
      | Broke e => inl e
      | Other => match skip (tag_type tag) r1 with (false, _) => inl bad_skip | (true, r2) => k s r2 end
      end
    end.

Lemma field_body_ext k1 k2 s r :
  (forall s' r', (length r' < length r)%nat -> k1 s' r' = k2 s' r') -> field_body k1 s r = field_body k2 s r.
Proof.
  intros Hk. unfold field_body. case_match; [done|].
  destruct (readTag r) as [[tag|] r1] eqn:Et; [|done]. apply readTag_progress in Et.
  destruct (step tag s r1) as [s' r2|e|] eqn:Es; [|done|].
  - apply step_consumes, suffix_length in Es. apply Hk. lia.
  - pose proof (suffix_length _ _ (skip_suffix (tag_type tag) r1)) as Hs.
    destruct (skip (tag_type tag) r1) as [[|] r2]; cbn [snd] in Hs; [apply Hk; lia|done].
Qed.

Lemma field_loop_enough f1 f2 s r :
  (length r < f1)%nat -> (length r < f2)%nat ->
  field_loop_fuel f1 bad_tag bad_skip step s r = field_loop_fuel f2 bad_tag bad_skip step s r.
Proof.
  revert f2 s r. induction f1 as [|f1 IH]; intros f2 s r H1 H2; [lia|]. destruct f2 as [|f2]; [lia|].
  apply (field_body_ext (field_loop_fuel f1 bad_tag bad_skip step) (field_loop_fuel f2 bad_tag bad_skip step)).
  intros. apply IH; lia.
Qed.

(** The loop is the fixed point of its body. *)
Lemma field_loop_unfold s r :
  field_loop bad_tag bad_skip step s r = field_body (field_loop bad_tag bad_skip step) s r.
Proof.
  unfold field_loop at 1. change (field_loop_fuel (S (length r)) bad_tag bad_skip step s r)
    with (field_body (field_loop_fuel (length r) bad_tag bad_skip step) s r).
  apply field_body_ext. intros. unfold field_loop. apply field_loop_enough; lia.
Qed.

(** ** Field by field *)

Definition loops (w : wop) (s s' : St) : Prop :=
  fits (w []) -> forall rest,
    field_loop bad_tag bad_skip step s (w [] ++ rest) = field_loop bad_tag bad_skip step s' rest.

Lemma loops_done w s s' : loops w s s' -> fits (w []) -> field_loop bad_tag bad_skip step s (w []) = inr s'.
Proof. intros Hl Hf. specialize (Hl Hf []). rewrite app_nil_r in Hl. by rewrite Hl. Qed.

Lemma loops_skip s : loops wskip s s.
Proof. done. Qed.

Lemma loops_eq w s s1 s' : loops w s s1 -> s1 = s' -> loops w s s'.
Proof. by intros ? <-. Qed.

Lemma loops_seq w1 w2 `{!Appends w2} s s1 s2 : loops w1 s s1 -> loops w2 s1 s2 -> loops (w1 ;> w2) s s2.
Proof.
  intros H1 H2 Hf rest. rewrite wseq_bytes in * by apply _. apply fits_app in Hf as [Hf1 Hf2].
  by rewrite <-app_assoc, H1, H2.
Qed.

Lemma loops_tag f t (payload : bytes) s s' rest :
  field_ok f -> wire_ok t = true -> step (mkTag f t) s (payload ++ rest) = Took s' rest ->
  field_loop bad_tag bad_skip step s ((wtag f t [] ++ payload) ++ rest) = field_loop bad_tag bad_skip step s' rest.
Proof.
  intros Hf Ht Hs. rewrite field_loop_unfold. unfold field_body. rewrite <-app_assoc. case_match eqn:E1.
  - exfalso. pose proof (wtag_ne f t (payload ++ rest) Hf Ht). by destruct (wtag f t [] ++ payload ++ rest).
  - by rewrite readTag_wtag, Hs.
Qed.

Lemma loops_varint f v set s :
  field_ok f -> in_u 64 v -> (forall r, exists e, step (mkTag f kVarint) s r = take_into e readVarint set s r) ->
  loops (varint f v) s (set v s).
Proof.
  intros Hf Hv Hs _ rest. unfold varint. rewrite wseq_bytes by apply _. apply loops_tag; [done|done|].
  destruct (Hs (appendVarint v [] ++ rest)) as [e ->]. unfold take_into. by rewrite readVarint_appendVarint.
Qed.

Lemma loops_double f v set s :
  field_ok f -> in_u 64 v -> (forall r, exists e, step (mkTag f kFixed64) s r = take_into e readDouble set s r) ->
  loops (doubleField f v) s (set v s).
Proof.
  intros Hf Hv Hs _ rest. unfold doubleField, fixed64. rewrite wseq_bytes by apply _. apply loops_tag; [done|done|].
  destruct (Hs (appendFixed64 v [] ++ rest)) as [e ->]. unfold take_into. by rewrite readDouble_written.
Qed.

Lemma loops_wbytes f data s s' :
  field_ok f ->
  (fits data -> forall rest, step (mkTag f kLengthDelimited) s
     ((appendVarint (Z.of_nat (length data)) [] ++ data) ++ rest) = Took s' rest) ->
  loops (wbytes f data) s s'.
Proof.
  intros Hf Hh Hfit rest. rewrite wbytes_bytes in *. apply fits_app in Hfit as [_ Hfit].
  apply fits_app in Hfit as [_ Hfit]. by apply loops_tag, Hh.
Qed.

Lemma loops_string f v set s :
  field_ok f -> (forall r, exists e, step (mkTag f kLengthDelimited) s r = take_into e readString set s r) ->
  loops (wstring f v) s (set v s).
Proof.
  intros Hf Hs. apply loops_wbytes; [done|]. intros Hfit rest.
  destruct (Hs ((appendVarint (Z.of_nat (length v)) [] ++ v) ++ rest)) as [e ->]. unfold take_into, readString.
  by rewrite readBytes_written.
Qed.
End loop.

(** ** Decoding from a given start

    A message with repeated fields is decoded into a fresh variable, so its decoder needs to
    recover a value from that start only. *)
Class CodecFrom {A} (wf : A -> Prop) (write : A -> wop) (dec : decoder A) (init : A) : Prop := {
  from_appends a : Appends (write a);
  from_roundtrip a : wf a -> fits (write a []) -> dec init (write a []) = (true, a, []);
}.

#[export] Instance codec_from {A} (wf : A -> Prop) write dec init `{!Codec wf write dec} : CodecFrom wf write dec init.
Proof. split; [apply codec_appends|intros; by apply codec_roundtrip]. Qed.

Lemma codec_from_encodes {A} (wf : A -> Prop) write (h : handler A) init :
  (forall a, Appends (write a)) -> (forall a, wf a -> encodes h (write a) init a) ->
  CodecFrom wf write (parseFields h) init.
Proof. intros Ha He. split; [done|]. intros a Hwf Hf. by apply encodes_done, Hf; apply He. Qed.

Lemma codec_of_loops {A} (wf : A -> Prop) write (step : field_step A unit) `{!StepConsumes step} :
  (forall a, Appends (write a)) -> (forall a0 a, wf a -> loops tt tt step (write a) a0 a) ->
  Codec wf write (loop_decoder step).
Proof.
  intros Ha Hl. split; [done|]. intros a0 a Hwf Hf. unfold loop_decoder. by rewrite (loops_done tt tt step _ a0 a); auto.
Qed.

Lemma codec_from_loops {A} (wf : A -> Prop) write (step : field_step A unit) init `{!StepConsumes step} :
  (forall a, Appends (write a)) -> (forall a, wf a -> loops tt tt step (write a) init a) ->
  CodecFrom wf write (loop_decoder step) init.
Proof.
  intros Ha Hl. split; [done|]. intros a Hwf Hf. unfold loop_decoder. by rewrite (loops_done tt tt step _ init a); auto.
Qed.

(** Appending to a vector of the message under construction. *)
Class Adds {A St} (add : list A -> St -> St) : Prop := {
  add_nil s : add [] s = s;
  add_add l1 l2 s : add l2 (add l1 s) = add (l1 ++ l2) s;
}.

Ltac solve_adds :=
  split; [intros []|intros ? ? []];
  match goal with |- ?f _ _ = _ => unfold f end; cbn; rewrite ?app_nil_r, ?app_assoc; reflexivity.

Section repeated.
Context {St A : Type} (h : handler St) `{!Consumes h}.

(** A repeated field of nested messages, pushed one by one. *)
Lemma encodes_repeated {wf : A -> Prop} {write dec init} `{Hc : !CodecFrom wf write dec init}
    (add : list A -> St -> St) `{Ha : !Adds add} f l s :
  field_ok f -> Forall wf l ->
  (forall s r, h (mkTag f kLengthDelimited) s r = read_push dec init (fun v m => add [v] m) s r) ->
  encodes h (appendAll (fun a => message f (write a)) l) s (add l s).
Proof.
  intros Hf Hl Hh. assert (forall a, Appends (message f (write a))) by apply _.
  revert s. induction Hl as [|a l Ha0 Hl IH]; intros s; [rewrite add_nil; apply encodes_skip|].
  intros Hfit rest. rewrite (appendAll_cons (fun a => message f (write a))) in *. apply fits_app in Hfit as [Hf1 Hf2].
  rewrite <-app_assoc.
  assert (encodes h (message f (write a)) s (add [a] s)) as He.
  { apply encodes_wbytes; [done|done|]. intros Hfit rest'. rewrite Hh. unfold read_push, readMessage.
    by rewrite readBytes_written, from_roundtrip. }
  rewrite He, IH by done. by rewrite add_add.
Qed.

Lemma encodes_packedFixed32 get set f vs s :
  field_ok f -> Forall (in_u 32) vs ->
  (forall r, h (mkTag f kLengthDelimited) s r = read_packed readPackedFixed32 get set s r) ->
  set (get s) s = s ->
  encodes h (packedFixed32 f vs) s (set (get s ++ vs) s).
Proof.
  intros Hf Hvs Hh Hset. unfold packedFixed32. case_match eqn:E.
  - apply Nat.eqb_eq, nil_length_inv in E as ->. rewrite app_nil_r, Hset. apply encodes_skip.
  - intros Hfit rest. rewrite !wseq_bytes in * by apply _.
    apply fits_app in Hfit as [_ Hfit]. apply fits_app in Hfit as [_ Hfit].
    apply encodes_tag; [done|done|done|]. rewrite Hh. unfold read_packed, readPackedFixed32.
    by rewrite (readPacked_written 4) by (done || lia).
Qed.

(** A field that is written only when it has bytes, read into an empty vector. *)
Lemma encodes_nonempty set f d s :
  field_ok f -> (forall r, h (mkTag f kLengthDelimited) s r = read_into readBytes set s r) ->
  set [] s = s ->
  encodes h (if (length d =? 0)%nat then wskip else wbytes f d) s (set d s).
Proof.
  intros Hf Hh Hs. destruct d as [|b d]; cbn [length Nat.eqb]; [rewrite Hs; apply encodes_skip|].
  by apply (encodes_string h set f (b :: d)).
Qed.
End repeated.

Section loop_repeated.
Context {St E A : Type} (bad_tag bad_skip : E) (step : field_step St E) `{!StepConsumes step}.

Lemma loops_message {wf : A -> Prop} {write dec} `{Hc : !Codec wf write dec} (get : St -> A) set f a s :
  field_ok f -> wf a ->
  (forall r, exists e1 e2, step (mkTag f kLengthDelimited) s r = take_nested e1 e2 dec get set s r) ->
  loops bad_tag bad_skip step (message f (write a)) s (set a s).
Proof.
  intros Hf Hwf Hs. apply loops_wbytes; [done|done|]. intros Hfit rest.
  destruct (Hs ((appendVarint (Z.of_nat (length (write a []))) [] ++ write a []) ++ rest)) as (e1 & e2 & ->).
  unfold take_nested, readMessage. by rewrite readBytes_written, codec_roundtrip.
Qed.

Lemma loops_repeated {wf : A -> Prop} {write dec init} `{Hc : !CodecFrom wf write dec init}
    (add : list A -> St -> St) `{Ha : !Adds add} f l s :
  field_ok f -> Forall wf l ->
  (forall s r, exists e1 e2, step (mkTag f kLengthDelimited) s r
     = take_nested e1 e2 dec (fun _ => init) (fun v m => add [v] m) s r) ->
  loops bad_tag bad_skip step (appendAll (fun a => message f (write a)) l) s (add l s).
Proof.
  intros Hf Hl Hs. assert (forall a, Appends (message f (write a))) by apply _.
  revert s. induction Hl as [|a l Ha0 Hl IH]; intros s; [rewrite add_nil; apply loops_skip|].
  intros Hfit rest. rewrite (appendAll_cons (fun a => message f (write a))) in *. apply fits_app in Hfit as [Hf1 Hf2].
  rewrite <-app_assoc.
  assert (loops bad_tag bad_skip step (message f (write a)) s (add [a] s)) as He.
  { apply loops_wbytes; [done|done|]. intros Hfit rest'.
    destruct (Hs s ((appendVarint (Z.of_nat (length (write a []))) [] ++ write a []) ++ rest')) as (e1 & e2 & ->).
    unfold take_nested, readMessage. by rewrite readBytes_written, from_roundtrip. }
  rewrite He, IH by done. by rewrite add_add.
Qed.
End loop_repeated.

(** ** Automation *)

Lemma take_into_consumes {A St E} (e : E) (rd : rop A) set (s s' : St) r r' :
  suffix_of (rd r).2 r -> take_into e rd set s r = Took s' r' -> suffix_of r' r.
Proof. unfold take_into. destruct (rd r) as [[a|] r1]; intros Hs [=]. by subst. Qed.

Lemma take_nested_consumes {A St E} (e1 e2 : E) (dec : decoder A) get set (s s' : St) r r' :
  take_nested e1 e2 dec get set s r = Took s' r' -> suffix_of r' r.
Proof.
  unfold take_nested, readMessage. pose proof (readBytes_suffix r). destruct (readBytes r) as [[d|] r1]; [|done].
  destruct (dec (get s) d) as [[[|] a] ?]; intros [=]. by subst.
Qed.

Ltac solve_step_consumes :=
  let E := fresh in
  intros ? ? ? ? ? E; repeat (case_match; try discriminate E);
  first [eapply take_nested_consumes; exact E
        |eapply take_into_consumes; [|exact E]; unfold readString, readDouble, readFixed64;
           first [apply readVarint_suffix|apply readBytes_suffix|apply readFixed_suffix]].

(** One write, into the field its lemma finds; the handler says which decoder reads it. *)
Ltac encodes_write :=
  lazymatch goal with
  | |- encodes _ (appendAll (fun a => message ?f (?w a)) ?l) _ _ =>
    eapply encodes_repeated; [apply _| | |solve_field_ok| |intros; eval_tag; reflexivity]; [apply _|apply _|done]
  | |- encodes _ (message _ _) _ _ =>
    eapply encodes_message; [apply _| |solve_field_ok| |intros; eval_tag; reflexivity]; [apply _|done]
  | |- encodes _ (packedFixed32 _ _) _ _ =>
    eapply encodes_packedFixed32; [apply _|solve_field_ok|done|intros; eval_tag; reflexivity|reflexivity]
  | |- encodes _ (if _ then wskip else _) _ _ =>
    eapply encodes_nonempty; [apply _|solve_field_ok|intros; eval_tag; reflexivity|reflexivity]
  | |- _ => encodes_field
  end.

Ltac solve_writes :=
  lazymatch goal with
  | |- encodes _ (_ ;> _) _ _ =>
    eapply encodes_seq; [apply _|eapply encodes_eq; [encodes_write|cbn; reflexivity]|solve_writes]
  | |- encodes _ _ _ _ => eapply encodes_eq; [encodes_write|try reflexivity]
  end.

Ltac eval_step :=
  lazymatch goal with
  | |- exists _ _, ?step _ _ _ = _ => unfold step
  | |- exists _, ?step _ _ _ = _ => unfold step
  end; eval_tag.

Ltac loops_write :=
  lazymatch goal with
  | |- loops _ _ _ wskip _ _ => apply loops_skip
  | |- loops _ _ _ (appendAll _ _) _ _ =>
    eapply loops_repeated; [apply _| | |solve_field_ok| |intros; eval_step; do 2 eexists; reflexivity]; [apply _|apply _|done]
  | |- loops _ _ _ (doubleField _ _) _ _ =>
    eapply loops_double; [apply _|solve_field_ok|done|intros; eval_step; eexists; reflexivity]
  | |- loops _ _ _ (varint _ _) _ _ =>
    eapply loops_varint; [apply _|solve_field_ok|solve_in_u|intros; eval_step; eexists; reflexivity]
  | |- loops _ _ _ (wstring _ _) _ _ =>
    eapply loops_string; [apply _|solve_field_ok|intros; eval_step; eexists; reflexivity]
  | |- loops _ _ _ (message _ _) _ _ =>
    eapply loops_message; [apply _| |solve_field_ok| |intros; eval_step; do 2 eexists; reflexivity]; [apply _|done]
  end.

Ltac solve_loops :=
  lazymatch goal with
  | |- loops _ _ _ (_ ;> _) _ _ =>
    eapply loops_seq; [apply _|eapply loops_eq; [loops_write|cbn; reflexivity]|solve_loops]
  | |- loops _ _ _ _ _ _ => eapply loops_eq; [loops_write|try reflexivity]
  end.
