(* ===== verification/GeometryCodec.v ===== *)
(** * GeometryCodec: the primitives shared by the builtin codecs

    [pj_base/src/builtin/geometry_codec.hpp]: timestamps (proto seconds and
    nanoseconds), vectors, quaternions and poses.  A coordinate is the bit
    pattern of its [double].  Colours, which compute in
    floating point, are in [ColorCodec]. *)

From S2P Require Import Prelude TimeMath ProtobufWire.

(** ** Timestamps *)

Record TimestampParts : Set := mkTimestampParts { seconds : Z; nanos : Z }.

Definition splitTimestamp (timestamp_ns : Z) : TimestampParts :=
  let s := Z.quot timestamp_ns kNanosecondsPerSecond in
  let n := to_signed 32 (Z.rem timestamp_ns kNanosecondsPerSecond) in
  if n <? 0 then mkTimestampParts (s - 1) (n + kNanosecondsPerSecond)
  else mkTimestampParts s n.

(** [None] for [false].  The arithmetic never is undefined
    ([combineSecondsAndNanos_spec]). *)
Definition combineTimestamp (parts : TimestampParts) : option Z :=
  match combineSecondsAndNanos (seconds parts) (nanos parts) with
  | Val r => r
  | Undef => None
  end.

Definition writeTimestamp (timestamp_ns : Z) : wop :=
  let parts := splitTimestamp timestamp_ns in
  varint 1 (wrap 64 (seconds parts)) ;> varint 2 (wrap 32 (nanos parts)).

(** The lambda passed to [parseFields].  It consumes the value of every varint
    field before it looks at the field number. *)
Definition timestamp_handler : handler TimestampParts := fun tag parts r =>
  if negb (wt_eqb (tag_type tag) kVarint) then (false, parts, r)
  else
    match readVarint r with
    | (None, r') => (false, parts, r')
    | (Some value, r') =>
      if tag_field tag =? 1 then (true, mkTimestampParts (to_signed 64 value) (nanos parts), r')
      else if tag_field tag =? 2 then
        (true, mkTimestampParts (seconds parts) (to_signed 32 value), r')
      else (false, parts, r')
    end.

Definition decodeTimestamp : decoder Z := fun out r =>
  let '(ok, parts, r') := parseFields timestamp_handler (mkTimestampParts 0 0) r in
  if ok then
    match combineTimestamp parts with
    | Some t => (true, t, r')
    | None => (false, out, r')
    end
  else (false, out, r').

(** ** Vectors, quaternions, poses *)

Record Vector2 : Set := mkVector2 { v2_x : Z; v2_y : Z }.
Record Vector3 : Set := mkVector3 { v3_x : Z; v3_y : Z; v3_z : Z }.
Record Point3 : Set := mkPoint3 { p3_x : Z; p3_y : Z; p3_z : Z }.
Record Quaternion : Set := mkQuaternion { q_x : Z; q_y : Z; q_z : Z; q_w : Z }.
Record Pose : Set := mkPose { position : Vector3; orientation : Quaternion }.

(** The bit pattern of [1.0]. *)
Definition double_one : Z := 0x3FF0000000000000.

Definition vector2_default : Vector2 := mkVector2 0 0.
Definition vector3_default : Vector3 := mkVector3 0 0 0.
Definition point3_default : Point3 := mkPoint3 0 0 0.
Definition quaternion_default : Quaternion := mkQuaternion 0 0 0 double_one.
Definition pose_default : Pose := mkPose vector3_default quaternion_default.

Definition writeVector2 (v : Vector2) : wop :=
  doubleField 1 (v2_x v) ;> doubleField 2 (v2_y v).

Definition vector2_handler : handler Vector2 := fun tag out r =>
  if negb (wt_eqb (tag_type tag) kFixed64) then (false, out, r)
  else if tag_field tag =? 1 then read_into readDouble (fun d v => mkVector2 d (v2_y v)) out r
  else if tag_field tag =? 2 then read_into readDouble (fun d v => mkVector2 (v2_x v) d) out r
  else (false, out, r).

Definition decodeVector2 : decoder Vector2 := parseFields vector2_handler.

Definition writeVector3 (v : Vector3) : wop :=
  doubleField 1 (v3_x v) ;> doubleField 2 (v3_y v) ;> doubleField 3 (v3_z v).

Definition vector3_handler : handler Vector3 := fun tag out r =>
  if negb (wt_eqb (tag_type tag) kFixed64) then (false, out, r)
  else if tag_field tag =? 1 then
    read_into readDouble (fun d v => mkVector3 d (v3_y v) (v3_z v)) out r
  else if tag_field tag =? 2 then
    read_into readDouble (fun d v => mkVector3 (v3_x v) d (v3_z v)) out r
  else if tag_field tag =? 3 then
    read_into readDouble (fun d v => mkVector3 (v3_x v) (v3_y v) d) out r
  else (false, out, r).

Definition decodeVector3 : decoder Vector3 := parseFields vector3_handler.

Definition writePoint3 (v : Point3) : wop :=
  doubleField 1 (p3_x v) ;> doubleField 2 (p3_y v) ;> doubleField 3 (p3_z v).

Definition point3_handler : handler Point3 := fun tag out r =>
  if negb (wt_eqb (tag_type tag) kFixed64) then (false, out, r)
  else if tag_field tag =? 1 then
    read_into readDouble (fun d v => mkPoint3 d (p3_y v) (p3_z v)) out r
  else if tag_field tag =? 2 then
    read_into readDouble (fun d v => mkPoint3 (p3_x v) d (p3_z v)) out r
  else if tag_field tag =? 3 then
    read_into readDouble (fun d v => mkPoint3 (p3_x v) (p3_y v) d) out r
  else (false, out, r).

Definition decodePoint3 : decoder Point3 := parseFields point3_handler.

Definition writeQuaternion (q : Quaternion) : wop :=
  doubleField 1 (q_x q) ;> doubleField 2 (q_y q) ;> doubleField 3 (q_z q) ;> doubleField 4 (q_w q).

Definition quaternion_handler : handler Quaternion := fun tag out r =>
  if negb (wt_eqb (tag_type tag) kFixed64) then (false, out, r)
  else if tag_field tag =? 1 then
    read_into readDouble (fun d v => mkQuaternion d (q_y v) (q_z v) (q_w v)) out r
  else if tag_field tag =? 2 then
    read_into readDouble (fun d v => mkQuaternion (q_x v) d (q_z v) (q_w v)) out r
  else if tag_field tag =? 3 then
    read_into readDouble (fun d v => mkQuaternion (q_x v) (q_y v) d (q_w v)) out r
  else if tag_field tag =? 4 then
    read_into readDouble (fun d v => mkQuaternion (q_x v) (q_y v) (q_z v) d) out r
  else (false, out, r).

Definition decodeQuaternion : decoder Quaternion := parseFields quaternion_handler.

Definition writePose (p : Pose) : wop :=
  message 1 (writeVector3 (position p)) ;> message 2 (writeQuaternion (orientation p)).

Definition pose_handler : handler Pose := fun tag out r =>
  if negb (wt_eqb (tag_type tag) kLengthDelimited) then (false, out, r)
  else if tag_field tag =? 1 then
    read_nested decodeVector3 position (fun v p => mkPose v (orientation p)) out r
  else if tag_field tag =? 2 then
    read_nested decodeQuaternion orientation (fun q p => mkPose (position p) q) out r
  else (false, out, r).

Definition decodePose : decoder Pose := parseFields pose_handler.

(** ** Well-formed values: bit patterns and timestamps at their width *)

Definition vector2_wf (v : Vector2) : Prop := in_u 64 (v2_x v) /\ in_u 64 (v2_y v).
Definition vector3_wf (v : Vector3) : Prop :=
  in_u 64 (v3_x v) /\ in_u 64 (v3_y v) /\ in_u 64 (v3_z v).
Definition point3_wf (v : Point3) : Prop :=
  in_u 64 (p3_x v) /\ in_u 64 (p3_y v) /\ in_u 64 (p3_z v).
Definition quaternion_wf (q : Quaternion) : Prop :=
  in_u 64 (q_x q) /\ in_u 64 (q_y q) /\ in_u 64 (q_z q) /\ in_u 64 (q_w q).
Definition pose_wf (p : Pose) : Prop := vector3_wf (position p) /\ quaternion_wf (orientation p).

(** ** Handlers only move the reader on *)

#[export] Instance timestamp_consumes : Consumes timestamp_handler.
Proof.
  intros t s r. unfold timestamp_handler. pose proof (readVarint_suffix r).
  case_match; [apply suffix_refl|]. destruct (readVarint r) as [[] r']; by repeat case_match.
Qed.
#[export] Instance vector2_consumes : Consumes vector2_handler.
Proof. unfold vector2_handler. solve_consumes. Qed.
#[export] Instance vector3_consumes : Consumes vector3_handler.
Proof. unfold vector3_handler. solve_consumes. Qed.
#[export] Instance point3_consumes : Consumes point3_handler.
Proof. unfold point3_handler. solve_consumes. Qed.
#[export] Instance quaternion_consumes : Consumes quaternion_handler.
Proof. unfold quaternion_handler. solve_consumes. Qed.
#[export] Instance pose_consumes : Consumes pose_handler.
Proof. unfold pose_handler. solve_consumes. Qed.

(** ** Round trips *)

#[export] Instance vector2_codec : Codec vector2_wf writeVector2 decodeVector2.
Proof.
  apply codec_of_encodes; [intros; unfold writeVector2; apply _|].
  intros a0 [x y] (? & ?). unfold writeVector2. solve_encodes.
Qed.

#[export] Instance vector3_codec : Codec vector3_wf writeVector3 decodeVector3.
Proof.
  apply codec_of_encodes; [intros; unfold writeVector3; apply _|].
  intros a0 [x y z] (? & ? & ?). unfold writeVector3. solve_encodes.
Qed.

#[export] Instance point3_codec : Codec point3_wf writePoint3 decodePoint3.
Proof.
  apply codec_of_encodes; [intros; unfold writePoint3; apply _|].
  intros a0 [x y z] (? & ? & ?). unfold writePoint3. solve_encodes.
Qed.

#[export] Instance quaternion_codec : Codec quaternion_wf writeQuaternion decodeQuaternion.
Proof.
  apply codec_of_encodes; [intros; unfold writeQuaternion; apply _|].
  intros a0 [x y z w] (? & ? & ? & ?). unfold writeQuaternion. solve_encodes.
Qed.

#[export] Instance pose_codec : Codec pose_wf writePose decodePose.
Proof.
  apply codec_of_encodes; [intros; unfold writePose; apply _|].
  intros a0 [p q] (? & ?). unfold writePose. solve_encodes.
Qed.

(** *** Timestamps *)

(** The nanosecond part is normalised to [0, 1e9), before and after the epoch. *)
Lemma splitTimestamp_spec t :
  in_s 64 t ->
  let p := splitTimestamp t in
  t = seconds p * kNanosecondsPerSecond + nanos p /\
  0 <= nanos p < kNanosecondsPerSecond /\ in_s 64 (seconds p).
Proof.
  rewrite in_s64_iff. intros Ht. unfold splitTimestamp, kNanosecondsPerSecond.
  pose proof (Z.quot_rem' t 1000000000) as Hq.
  pose proof (Z.rem_bound_abs t 1000000000 ltac:(lia)) as Hr.
  assert (0 <= t -> 0 <= Z.rem t 1000000000) by (intros; apply Z.rem_nonneg; lia).
  assert (t <= 0 -> Z.rem t 1000000000 <= 0) by (intros; apply Z.rem_nonpos; lia).
  set (q := Z.quot t 1000000000) in *. set (r := Z.rem t 1000000000) in *.
  assert (to_signed 32 r = r) as ->.
  { rewrite <-(to_signed_wrap 32 r) at 2; [|lia|unfold in_s; change (2 ^ (32 - 1)) with 2147483648; lia].
    unfold to_signed. rewrite wrap_wrap by lia. done. }
  cbv zeta. case_match eqn:E; cbn [seconds nanos]; rewrite in_s64_iff; lia.
Qed.

Lemma combine_splitTimestamp t :
  in_s 64 t -> combineTimestamp (splitTimestamp t) = Some t.
Proof.
  intros Ht. destruct (splitTimestamp_spec t Ht) as (Heq & Hn & Hs).
  unfold combineTimestamp. unfold kNanosecondsPerSecond in *.
  rewrite combineSecondsAndNanos_spec by (done || rewrite in_s64_iff; lia).
  unfold kNanosecondsPerSecond. rewrite (proj2 (andb_true_iff _ _)) by lia.
  rewrite <-Heq. apply in_range_some. rewrite in_s64_iff in Ht. lia.
Qed.

#[export] Instance timestamp_codec : Codec (in_s 64) writeTimestamp decodeTimestamp.
Proof.
  split; [intros; unfold writeTimestamp; apply _|]. intros t0 t Ht Hfit.
  destruct (splitTimestamp_spec t Ht) as (_ & Hn & Hs). unfold kNanosecondsPerSecond in Hn.
  pose proof (combine_splitTimestamp t Ht) as Hc. destruct (splitTimestamp t) as [s n] eqn:Ep.
  cbn [seconds nanos] in *.
  assert (encodes timestamp_handler (writeTimestamp t) (mkTimestampParts 0 0) (mkTimestampParts s n)) as He.
  { unfold writeTimestamp. rewrite Ep. cbn [seconds nanos].
    assert (in_u 64 (wrap 64 s)) by (apply wrap_range; lia).
    assert (in_u 64 (wrap 32 n)).
    { pose proof (wrap_range 32 n ltac:(lia)) as H0. unfold in_u in *.
      change (2 ^ 32) with 4294967296 in H0. change (2 ^ 64) with 18446744073709551616. lia. }
    eapply encodes_seq; [apply _|encodes_raw_varint timestamp_handler|].
    encodes_raw_varint timestamp_handler.
    cbn [seconds nanos]. rewrite !to_signed_wrap; [done|lia| |lia|done].
    unfold in_s. change (2 ^ (32 - 1)) with 2147483648. lia. }
  unfold decodeTimestamp. rewrite (encodes_done _ _ _ _ He Hfit), Hc. done.
Qed.

Lemma quaternion_declines f : f <> 1 -> f <> 2 -> f <> 3 -> f <> 4 -> declines quaternion_handler f.
Proof.
  intros ? ? ? ? t s r. unfold quaternion_handler. cbn [tag_field].
  rewrite !(proj2 (Z.eqb_neq f _)) by done. by case_match.
Qed.

(** ** Unknown varint fields of a timestamp

    [timestamp_handler] reads the value of a varint field before it declines
    the field, and [parseFields] then skips a second varint: the tag that
    follows the field, when there is one. *)
Lemma timestamp_unknown_step f v w parts rest :
  field_ok f -> f <> 1 -> f <> 2 -> in_u 64 v -> in_u 64 w ->
  parseFields timestamp_handler parts ((varint f v ;> appendVarint w) [] ++ rest)
  = parseFields timestamp_handler parts rest.
Proof.
  intros Hf H1 H2 Hv Hw. rewrite parseFields_unfold by apply _. unfold parseFields_body, varint.
  rewrite !wseq_bytes by apply _. rewrite <-!app_assoc.
  destruct (eof _) eqn:E.
  { exfalso. pose proof (wtag_ne f kVarint (appendVarint v [] ++ appendVarint w [] ++ rest) Hf eq_refl).
    by destruct (wtag f kVarint [] ++ _). }
  rewrite readTag_wtag by done. unfold timestamp_handler at 1. cbn [tag_type tag_field].
  change (negb (wt_eqb kVarint kVarint)) with false. cbv iota.
  rewrite readVarint_appendVarint by done. rewrite !(proj2 (Z.eqb_neq f _)) by done.
  cbn [skip tag_type is_some_read]. by rewrite readVarint_appendVarint.
Qed.

(** Timestamps survive the split into seconds and nanoseconds of the proto
    message, before and after the epoch: the nanosecond part is normalised to
    [0, 1e9) and decoding the written message yields the timestamp, whatever
    the variable decoded into held. *)
Theorem timestamp_roundtrip t t0 :
  in_s 64 t ->
  (let p := splitTimestamp t in
   t = seconds p * kNanosecondsPerSecond + nanos p /\ 0 <= nanos p < kNanosecondsPerSecond) /\
  decodeTimestamp t0 (writeTimestamp t []) = (true, t, []).
Proof.
  intros Ht. destruct (splitTimestamp_spec t Ht) as (Heq & Hn & Hs). split; [done|].
  apply (codec_roundtrip (dec:=decodeTimestamp)); [done|].
  unfold fits, writeTimestamp. cbv zeta. unfold varint. rewrite !wseq_bytes by apply _.
  rewrite !length_app.
  assert (forall v, in_u 64 v -> (length (appendVarint v []) <= 10)%nat) as Hl
    by (intros v Hv; apply appendVarint_shape, Hv).
  pose proof (Hl _ (in_u32_64 _ (wrap_range 32 (nanos (splitTimestamp t)) ltac:(lia)))).
  pose proof (Hl _ (wrap_range 64 (seconds (splitTimestamp t)) ltac:(lia))).
  change (length (wtag 1 kVarint [])) with 1%nat. change (length (wtag 2 kVarint [])) with 1%nat.
  change (2 ^ 64) with 18446744073709551616. lia.
Qed.

Lemma timestamp_roundtrip_witness :
  in_s 64 (-1) /\ decodeTimestamp 5 (writeTimestamp (-1) []) = (true, -1, []).
Proof.
  assert (in_s 64 (-1)) as H by by_compute.
  split; [exact H|]. exact (proj2 (timestamp_roundtrip (-1) 5 H)).
Defined.

(** The timestamp decoder loses its place after an unknown varint field: the
    handler has consumed the field's value when it declines, so the loop skips
    the varint after it as well.  A timestamp that a newer writer prefixed with
    such a field is rejected. *)
Theorem timestamp_unknown_varint f v w parts rest :
  field_ok f -> f <> 1 -> f <> 2 -> in_u 64 v -> in_u 64 w ->
  parseFields timestamp_handler parts ((varint f v ;> appendVarint w) [] ++ rest)
    = parseFields timestamp_handler parts rest /\
  (decodeTimestamp 0 ((varint 3 5 ;> writeTimestamp 1500000000) [])).1.1 = false /\
  decodeTimestamp 0 ((fixed32 3 5 ;> writeTimestamp 1500000000) []) = (true, 1500000000, []).
Proof.
  intros. split; [by apply timestamp_unknown_step|]. split; vm_compute; reflexivity.
Qed.

Lemma timestamp_unknown_varint_witness :
  parseFields timestamp_handler (mkTimestampParts 4 2) ((varint 9 300 ;> appendVarint 8) [] ++ [])
  = (true, mkTimestampParts 4 2, []).
Proof.
  assert (field_ok 9) as Hf by solve_field_ok.
  assert (in_u 64 300) as Hv by by_compute. assert (in_u 64 8) as Hw by by_compute.
  exact (proj1 (timestamp_unknown_varint 9 300 8 (mkTimestampParts 4 2) [] Hf
    ltac:(discriminate) ltac:(discriminate) Hv Hw)).
Defined.

(** The loop's guarantee at work: a pose's orientation with a field of a newer
    schema in front decodes like the orientation alone. *)
Lemma parseFields_skips_unknown_witness :
  decodeQuaternion quaternion_default
    (write_value 17 (WBytes (str "future")) [] ++ writeQuaternion (mkQuaternion 1 2 3 4) [])
  = (true, mkQuaternion 1 2 3 4, []).
Proof.
  assert (field_ok 17) as Hf by solve_field_ok.
  assert (fits (str "future")) as Hw by (vm_compute; reflexivity).
  assert (declines quaternion_handler 17) as Hd by (apply quaternion_declines; discriminate).
  etransitivity.
  - exact (parseFields_skips_unknown quaternion_handler 17 (WBytes (str "future")) quaternion_default
      (writeQuaternion (mkQuaternion 1 2 3 4) []) Hf Hw Hd).
  - vm_compute. reflexivity.
Defined.

(** On a truncated input: the orientation's first component without its bytes. *)
Lemma parseFields_total_witness :
  parseFields quaternion_handler quaternion_default (wtag 1 kFixed64 [])
    = parseFields_body quaternion_handler (parseFields quaternion_handler) quaternion_default
        (wtag 1 kFixed64 []) /\
  parseFields_loop 99 quaternion_handler quaternion_default (wtag 1 kFixed64 [])
    = (false, quaternion_default, []).
Proof.
  destruct (parseFields_total quaternion_handler quaternion_default (wtag 1 kFixed64 []))
    as (Hfuel & Hunf & _).
  split; [exact Hunf|]. rewrite Hfuel by (apply Nat.ltb_lt; vm_compute; reflexivity).
  vm_compute. reflexivity.
Defined.
