(* ===== verification/ColorCodec.v ===== *)
(** * ColorCodec: colours between bytes and fractions

    The last part of [pj_base/src/builtin/geometry_codec.hpp]: a colour has four bytes, and
    its message four doubles from 0 to 1.  The plot markers and the image annotations have
    decoders of their own, which differ in the default of alpha and in looping
    themselves; they share [normalizedToByte].

    A channel is [Undef] where the conversion to a byte is undefined behaviour: for
    a NaN, which [std::clamp] lets through.  Nothing is promised from there on. *)

From Stdlib Require Import Floats.SpecFloat.
From S2P Require Import Prelude Doubles TimeMath ProtobufWire FieldLoop GeometryCodec.

Record ColorRGBA : Type := mkColor { c_r : exec Z; c_g : exec Z; c_b : exec Z; c_a : exec Z }.

Definition color (r g b a : Z) : ColorRGBA := mkColor (Val r) (Val g) (Val b) (Val a).

Definition color_default : ColorRGBA := color 0 0 0 255.

(** ** Channels *)

Definition d0 : double := S754_zero false.
Definition d1 : double := int_to_double 1.
Definition d255 : double := int_to_double 255.

(** [std::clamp(value, 0.0, 1.0)]: comparisons with a NaN are false. *)
Definition clamp01 (value : double) : double :=
  if SFltb value d0 then d0 else if SFltb d1 value then d1 else value.

(** [static_cast<uint8_t>]: towards zero, undefined where the result is no byte. *)
Definition double_to_byte (value : double) : exec Z :=
  match value with
  | S754_zero _ => Val 0
  | S754_finite s m e =>
    let magnitude := if e >=? 0 then Zpos m * 2 ^ e else Zpos m / 2 ^ (- e) in
    let z := if s then - magnitude else magnitude in
    if (0 <=? z) && (z <=? 255) then Val z else Undef
  | _ => Undef
  end.

Definition normalizedToByte (bits : Z) : exec Z :=
  double_to_byte (dadd (dmul (clamp01 (bits_to_double bits)) d255) d_half).

(** [static_cast<double>(channel) / 255.0] *)
Definition channel_bits (channel : Z) : Z := double_to_bits (ddiv (int_to_double channel) d255).

Definition writeChannel (field : Z) (channel : exec Z) : wop :=
  match channel with Val v => doubleField field (channel_bits v) | Undef => wskip end.

Definition writeColor (c : ColorRGBA) : wop :=
  writeChannel 1 (c_r c) ;> writeChannel 2 (c_g c) ;> writeChannel 3 (c_b c) ;> writeChannel 4 (c_a c).

(** The local variables [r], [g], [b], [a] of the decoders. *)
Record Channels : Type := mkChannels { ch_r : Z; ch_g : Z; ch_b : Z; ch_a : Z }.

Definition set_r v c := mkChannels v (ch_g c) (ch_b c) (ch_a c).
Definition set_g v c := mkChannels (ch_r c) v (ch_b c) (ch_a c).
Definition set_b v c := mkChannels (ch_r c) (ch_g c) v (ch_a c).
Definition set_a v c := mkChannels (ch_r c) (ch_g c) (ch_b c) v.

Definition to_color (c : Channels) : ColorRGBA :=
  mkColor (normalizedToByte (ch_r c)) (normalizedToByte (ch_g c)) (normalizedToByte (ch_b c)) (normalizedToByte (ch_a c)).

(** ** [builtin_wire::decodeColor] *)

Definition color_handler : handler Channels := fun tag c r =>
  if negb (wt_eqb (tag_type tag) kFixed64) then (false, c, r)
  else if tag_field tag =? 1 then read_into readDouble set_r c r
  else if tag_field tag =? 2 then read_into readDouble set_g c r
  else if tag_field tag =? 3 then read_into readDouble set_b c r
  else if tag_field tag =? 4 then read_into readDouble set_a c r
  else (false, c, r).

Definition decodeColor : decoder ColorRGBA := fun out r =>
  let '(ok, c, r') := parseFields color_handler (mkChannels 0 0 0 0) r in
  if ok then (true, to_color c, r') else (false, out, r').

(** ** The loops of the plot markers and the annotations *)

Definition channel_step : field_step Channels unit := fun tag c r =>
  if wt_eqb (tag_type tag) kFixed64 && (tag_field tag >=? 1) && (tag_field tag <=? 4) then
    take_into tt readDouble
      (if tag_field tag =? 1 then set_r else if tag_field tag =? 2 then set_g
       else if tag_field tag =? 3 then set_b else set_a) c r
  else Other.

Definition decode_color_loop (alpha : Z) : decoder ColorRGBA := fun out r =>
  match field_loop tt tt channel_step (mkChannels 0 0 0 alpha) r with
  | inr c => (true, to_color c, [])
  | inl _ => (false, out, r)
  end.

Definition decodeMarkerColor : decoder ColorRGBA := decode_color_loop 0.
Definition decodeAnnotationColor : decoder ColorRGBA := decode_color_loop double_one.

(** ** Round trips *)

Definition color_wf (c : ColorRGBA) : Prop :=
  exists r g b a, c = color r g b a /\ in_u 8 r /\ in_u 8 g /\ in_u 8 b /\ in_u 8 a.

#[export] Instance color_consumes : Consumes color_handler.
Proof. unfold color_handler. solve_consumes. Qed.
#[export] Instance channel_step_consumes : StepConsumes channel_step.
Proof. unfold channel_step. solve_step_consumes. Qed.

(** A check of all bytes. *)
Lemma channel_table :
  forallb (fun v => (0 <=? channel_bits v) && (channel_bits v <=? double_one) &&
      match normalizedToByte (channel_bits v) with Val w => w =? v | Undef => false end)
    (map Z.of_nat (seq 0 256)) = true.
Proof. by vm_compute. Qed.

Lemma channel_spec v : in_u 8 v -> in_u 64 (channel_bits v) /\ normalizedToByte (channel_bits v) = Val v.
Proof.
  intros Hv. pose proof channel_table as Ht. rewrite forallb_forall in Ht. specialize (Ht v). unfold in_u in *.
  assert (In v (map Z.of_nat (seq 0 256))) as Hin.
  { apply in_map_iff. exists (Z.to_nat v). change (2 ^ 8) with 256 in Hv. split; [lia|]. apply in_seq. lia. }
  apply Ht, andb_true_iff in Hin as [[H1 H2]%andb_true_iff H3].
  change double_one with 4607182418800017408 in H2. change (2 ^ 64) with 18446744073709551616.
  split; [lia|]. destruct (normalizedToByte _) as [w|]; [f_equal; lia|done].
Qed.

(** A NaN on the wire is undefined behaviour. *)
Lemma normalizedToByte_nan bits : is_nan (bits_to_double bits) = true -> normalizedToByte bits = Undef.
Proof. unfold normalizedToByte. by destruct (bits_to_double bits). Qed.

Lemma to_color_bits r g b a :
  in_u 8 r -> in_u 8 g -> in_u 8 b -> in_u 8 a ->
  to_color (mkChannels (channel_bits r) (channel_bits g) (channel_bits b) (channel_bits a)) = color r g b a.
Proof. intros. unfold to_color. cbn [ch_r ch_g ch_b ch_a]. by rewrite !(fun v H => proj2 (channel_spec v H)). Qed.

#[export] Instance color_appends c : Appends (writeColor c).
Proof. unfold writeColor, writeChannel. destruct (c_r c), (c_g c), (c_b c), (c_a c); apply _. Qed.

#[export] Instance color_codec : Codec color_wf writeColor decodeColor.
Proof.
  split; [apply _|]. intros c0 c (r & g & b & a & -> & Hr & Hg & Hb & Ha) Hf. unfold decodeColor.
  pose proof (channel_spec r Hr) as [? _]. pose proof (channel_spec g Hg) as [? _].
  pose proof (channel_spec b Hb) as [? _]. pose proof (channel_spec a Ha) as [? _].
  rewrite (encodes_done color_handler _ _ (mkChannels (channel_bits r) (channel_bits g) (channel_bits b) (channel_bits a)));
    [by rewrite to_color_bits| |done].
  unfold writeColor, writeChannel, color. cbn [c_r c_g c_b c_a]. solve_writes.
Qed.

Lemma loops_color alpha r g b a :
  in_u 8 r -> in_u 8 g -> in_u 8 b -> in_u 8 a ->
  loops tt tt channel_step (writeColor (color r g b a)) (mkChannels 0 0 0 alpha)
    (mkChannels (channel_bits r) (channel_bits g) (channel_bits b) (channel_bits a)).
Proof.
  intros Hr Hg Hb Ha. pose proof (channel_spec r Hr) as [? _]. pose proof (channel_spec g Hg) as [? _].
  pose proof (channel_spec b Hb) as [? _]. pose proof (channel_spec a Ha) as [? _].
  unfold writeColor, writeChannel, color. cbn [c_r c_g c_b c_a]. solve_loops.
Qed.

#[export] Instance color_loop_codec alpha : Codec color_wf writeColor (decode_color_loop alpha).
Proof.
  split; [apply _|]. intros c0 c (r & g & b & a & -> & Hr & Hg & Hb & Ha) Hf. unfold decode_color_loop.
  rewrite (loops_done tt tt channel_step _ _ (mkChannels (channel_bits r) (channel_bits g) (channel_bits b) (channel_bits a)));
    [by rewrite to_color_bits|by apply loops_color|done].
Qed.
#[export] Instance marker_color_codec : Codec color_wf writeColor decodeMarkerColor := color_loop_codec 0.
#[export] Instance annotation_color_codec : Codec color_wf writeColor decodeAnnotationColor := color_loop_codec double_one.

Lemma color_default_wf : color_wf color_default.
Proof. exists 0, 0, 0, 255. split_and!; (done || by_compute). Qed.
