(* ===== verification/MessageCodecs.v ===== *)
(** * MessageCodecs: text, transform and pose messages

    [pj_base/src/builtin/]: [log_codec.cpp], [robot_description_codec.cpp],
    [compressed_point_cloud_codec.cpp], [video_frame_codec.cpp],
    [poses_in_frame_codec.cpp] and [frame_transforms_codec.cpp].

    A payload [Span] with its [BufferAnchor] is the bytes it views; whether the
    decoder copies or aliases them (the [...View] entry points) is not
    observable in the decoded value. *)

From S2P Require Import Prelude TimeMath ProtobufWire FieldLoop GeometryCodec.

(** ** The entry points' common frame

    [deserializeX] rejects an empty buffer, runs [parseFields] over a default
    message and reports a failed parse. *)
Definition deserialize {St} (what : string) (h : handler St) (init : St) (data : bytes)
  : Expected St :=
  if eof data then Err (what +:+ " wire: empty buffer")
  else
    let '(ok, s, _) := parseFields h init data in
    if ok then Ok s else Err (what +:+ " wire: decode failed").

Lemma message_nonempty f w rest : field_ok f -> message f w [] ++ rest <> [].
Proof.
  intros Hf. unfold message. rewrite wbytes_bytes, <-app_assoc. by apply wtag_ne.
Qed.

Lemma deserialize_encodes {St} what (h : handler St) w init s :
  encodes h w init s -> fits (w []) -> w [] <> [] -> deserialize what h init (w []) = Ok s.
Proof.
  intros He Hf Hne. unfold deserialize. rewrite (encodes_done h w init s He Hf).
  by destruct (w []).
Qed.

(** ** Log *)

Inductive Level : Set :=
  | kUnknown | kDebug | kInfo | kWarning | kError | kFatal.

Record Log : Set := mkLog {
  log_timestamp_ns : Z; log_level : Level; log_message : bytes; log_name : bytes }.

Definition log_default : Log := mkLog 0 kUnknown [] [].

(** [static_cast<uint64_t>(log.level)]. *)
Definition level_to_wire (l : Level) : Z :=
  match l with
  | kUnknown => 0 | kDebug => 1 | kInfo => 2 | kWarning => 3 | kError => 4 | kFatal => 5
  end.

Definition levelFromWire (value : Z) : Level :=
  if value =? 1 then kDebug
  else if value =? 2 then kInfo
  else if value =? 3 then kWarning
  else if value =? 4 then kError
  else if value =? 5 then kFatal
  else kUnknown.

Definition writeLog (log : Log) : wop :=
  message 1 (writeTimestamp (log_timestamp_ns log))
  ;> varint 2 (level_to_wire (log_level log))
  ;> wstring 3 (log_message log)
  ;> wstring 4 (log_name log).

Definition serializeLog (log : Log) : bytes := writeLog log [].

Definition log_handler : handler Log := fun tag log r =>
  if tag_field tag =? 1 then
    if wt_eqb (tag_type tag) kLengthDelimited then
      read_nested decodeTimestamp log_timestamp_ns
        (fun v m => mkLog v (log_level m) (log_message m) (log_name m)) log r
    else (false, log, r)
  else if tag_field tag =? 2 then
    if negb (wt_eqb (tag_type tag) kVarint) then (false, log, r)
    else read_into readVarint
        (fun v m => mkLog (log_timestamp_ns m) (levelFromWire v) (log_message m) (log_name m)) log r
  else if tag_field tag =? 3 then
    if wt_eqb (tag_type tag) kLengthDelimited then
      read_into readString
        (fun v m => mkLog (log_timestamp_ns m) (log_level m) v (log_name m)) log r
    else (false, log, r)
  else if tag_field tag =? 4 then
    if wt_eqb (tag_type tag) kLengthDelimited then
      read_into readString
        (fun v m => mkLog (log_timestamp_ns m) (log_level m) (log_message m) v) log r
    else (false, log, r)
  else (false, log, r).

Definition deserializeLog : bytes -> Expected Log := deserialize "Log" log_handler log_default.

(** ** RobotDescription *)

Record RobotDescription : Set := mkRobotDescription {
  rd_timestamp_ns : Z; rd_topic : bytes; rd_format : bytes; rd_text : bytes }.

Definition robot_description_default : RobotDescription := mkRobotDescription 0 [] [] [].

Definition writeRobotDescription (d : RobotDescription) : wop :=
  message 1 (writeTimestamp (rd_timestamp_ns d))
  ;> wstring 2 (rd_topic d)
  ;> wstring 3 (rd_format d)
  ;> wstring 4 (rd_text d).

Definition serializeRobotDescription (d : RobotDescription) : bytes := writeRobotDescription d [].

Definition robot_description_handler : handler RobotDescription := fun tag d r =>
  if tag_field tag =? 1 then
    if wt_eqb (tag_type tag) kLengthDelimited then
      read_nested decodeTimestamp rd_timestamp_ns
        (fun v m => mkRobotDescription v (rd_topic m) (rd_format m) (rd_text m)) d r
    else (false, d, r)
  else if tag_field tag =? 2 then
    if wt_eqb (tag_type tag) kLengthDelimited then
      read_into readString
        (fun v m => mkRobotDescription (rd_timestamp_ns m) v (rd_format m) (rd_text m)) d r
    else (false, d, r)
  else if tag_field tag =? 3 then
    if wt_eqb (tag_type tag) kLengthDelimited then
      read_into readString
        (fun v m => mkRobotDescription (rd_timestamp_ns m) (rd_topic m) v (rd_text m)) d r
    else (false, d, r)
  else if tag_field tag =? 4 then
    if wt_eqb (tag_type tag) kLengthDelimited then
      read_into readString
        (fun v m => mkRobotDescription (rd_timestamp_ns m) (rd_topic m) (rd_format m) v) d r
    else (false, d, r)
  else (false, d, r).

Definition deserializeRobotDescription : bytes -> Expected RobotDescription :=
  deserialize "RobotDescription" robot_description_handler robot_description_default.

(** ** CompressedPointCloud *)

Record CompressedPointCloud : Set := mkCompressedPointCloud {
  cpc_timestamp_ns : Z; cpc_frame_id : bytes; cpc_format : bytes; cpc_data : bytes }.

Definition compressed_point_cloud_default : CompressedPointCloud := mkCompressedPointCloud 0 [] [] [].

Definition writeCompressedPointCloud (c : CompressedPointCloud) : wop :=
  message 1 (writeTimestamp (cpc_timestamp_ns c))
  ;> wstring 2 (cpc_frame_id c)
  ;> wstring 3 (cpc_format c)
  ;> wbytes 4 (cpc_data c).

Definition serializeCompressedPointCloud (c : CompressedPointCloud) : bytes :=
  writeCompressedPointCloud c [].

Definition compressed_point_cloud_handler : handler CompressedPointCloud := fun tag c r =>
  if negb (wt_eqb (tag_type tag) kLengthDelimited) then (false, c, r)
  else if tag_field tag =? 1 then
    read_nested decodeTimestamp cpc_timestamp_ns
      (fun v m => mkCompressedPointCloud v (cpc_frame_id m) (cpc_format m) (cpc_data m)) c r
  else if tag_field tag =? 2 then
    read_into readString
      (fun v m => mkCompressedPointCloud (cpc_timestamp_ns m) v (cpc_format m) (cpc_data m)) c r
  else if tag_field tag =? 3 then
    read_into readString
      (fun v m => mkCompressedPointCloud (cpc_timestamp_ns m) (cpc_frame_id m) v (cpc_data m)) c r
  else if tag_field tag =? 4 then
    read_into readBytes
      (fun v m => mkCompressedPointCloud (cpc_timestamp_ns m) (cpc_frame_id m) (cpc_format m) v) c r
  else (false, c, r).

Definition deserializeCompressedPointCloud : bytes -> Expected CompressedPointCloud :=
  deserialize "CompressedPointCloud" compressed_point_cloud_handler compressed_point_cloud_default.

(** ** VideoFrame *)

Record VideoFrame : Set := mkVideoFrame {
  vf_timestamp_ns : Z; vf_frame_id : bytes; vf_data : bytes; vf_format : bytes }.

Definition video_frame_default : VideoFrame := mkVideoFrame 0 [] [] [].

Definition writeVideoFrame (f : VideoFrame) : wop :=
  message 1 (writeTimestamp (vf_timestamp_ns f))
  ;> wstring 2 (vf_frame_id f)
  ;> wbytes 3 (vf_data f)
  ;> wstring 4 (vf_format f).

Definition serializeVideoFrame (f : VideoFrame) : bytes := writeVideoFrame f [].

(** [parseVideoFrame]'s dispatch, with [read_data] reading field 3. *)
Definition video_frame_handler : handler VideoFrame := fun tag f r =>
  if tag_field tag =? 1 then
    if negb (wt_eqb (tag_type tag) kLengthDelimited) then (false, f, r)
    else read_nested decodeTimestamp vf_timestamp_ns
           (fun v m => mkVideoFrame v (vf_frame_id m) (vf_data m) (vf_format m)) f r
  else if tag_field tag =? 2 then
    if negb (wt_eqb (tag_type tag) kLengthDelimited) then (false, f, r)
    else read_into readString
           (fun v m => mkVideoFrame (vf_timestamp_ns m) v (vf_data m) (vf_format m)) f r
  else if tag_field tag =? 3 then
    if negb (wt_eqb (tag_type tag) kLengthDelimited) then (false, f, r)
    else read_into readBytes
           (fun v m => mkVideoFrame (vf_timestamp_ns m) (vf_frame_id m) v (vf_format m)) f r
  else if tag_field tag =? 4 then
    if negb (wt_eqb (tag_type tag) kLengthDelimited) then (false, f, r)
    else read_into readString
           (fun v m => mkVideoFrame (vf_timestamp_ns m) (vf_frame_id m) (vf_data m) v) f r
  else (false, f, r).

Definition deserializeVideoFrame : bytes -> Expected VideoFrame :=
  deserialize "VideoFrame" video_frame_handler video_frame_default.

(** ** PosesInFrame *)

Record PosesInFrame : Set := mkPosesInFrame {
  pif_timestamp_ns : Z; pif_frame_id : bytes; pif_poses : list Pose }.

Definition poses_in_frame_default : PosesInFrame := mkPosesInFrame 0 [] [].

Definition writePosesInFrame (p : PosesInFrame) : wop :=
  message 1 (writeTimestamp (pif_timestamp_ns p))
  ;> wstring 2 (pif_frame_id p)
  ;> appendAll (fun pose => message 3 (writePose pose)) (pif_poses p).

Definition serializePosesInFrame (p : PosesInFrame) : bytes := writePosesInFrame p [].

Definition poses_in_frame_handler : handler PosesInFrame := fun tag p r =>
  if tag_field tag =? 1 then
    if negb (wt_eqb (tag_type tag) kLengthDelimited) then (false, p, r)
    else read_nested decodeTimestamp pif_timestamp_ns
           (fun v m => mkPosesInFrame v (pif_frame_id m) (pif_poses m)) p r
  else if tag_field tag =? 2 then
    if negb (wt_eqb (tag_type tag) kLengthDelimited) then (false, p, r)
    else read_into readString
           (fun v m => mkPosesInFrame (pif_timestamp_ns m) v (pif_poses m)) p r
  else if tag_field tag =? 3 then
    if negb (wt_eqb (tag_type tag) kLengthDelimited) then (false, p, r)
    else read_push decodePose pose_default
           (fun v m => mkPosesInFrame (pif_timestamp_ns m) (pif_frame_id m) (pif_poses m ++ [v])) p r
  else (false, p, r).

Definition deserializePosesInFrame : bytes -> Expected PosesInFrame :=
  deserialize "PosesInFrame" poses_in_frame_handler poses_in_frame_default.

(** ** FrameTransforms *)

Record FrameTransform : Set := mkFrameTransform {
  ft_timestamp : Z; ft_parent : bytes; ft_child : bytes;
  ft_translation : Vector3; ft_rotation : Quaternion }.

Definition frame_transform_default : FrameTransform :=
  mkFrameTransform 0 [] [] vector3_default quaternion_default.

Definition writeFrameTransform (t : FrameTransform) : wop :=
  message 1 (writeTimestamp (ft_timestamp t))
  ;> wstring 2 (ft_parent t)
  ;> wstring 3 (ft_child t)
  ;> message 4 (writeVector3 (ft_translation t))
  ;> message 5 (writeQuaternion (ft_rotation t)).

Definition frame_transform_handler : handler FrameTransform := fun tag t r =>
  if negb (wt_eqb (tag_type tag) kLengthDelimited) then (false, t, r)
  else if tag_field tag =? 1 then
    read_nested decodeTimestamp ft_timestamp
      (fun v m => mkFrameTransform v (ft_parent m) (ft_child m) (ft_translation m) (ft_rotation m)) t r
  else if tag_field tag =? 2 then
    read_into readString
      (fun v m => mkFrameTransform (ft_timestamp m) v (ft_child m) (ft_translation m) (ft_rotation m)) t r
  else if tag_field tag =? 3 then
    read_into readString
      (fun v m => mkFrameTransform (ft_timestamp m) (ft_parent m) v (ft_translation m) (ft_rotation m)) t r
  else if tag_field tag =? 4 then
    read_nested decodeVector3 ft_translation
      (fun v m => mkFrameTransform (ft_timestamp m) (ft_parent m) (ft_child m) v (ft_rotation m)) t r
  else if tag_field tag =? 5 then
    read_nested decodeQuaternion ft_rotation
      (fun v m => mkFrameTransform (ft_timestamp m) (ft_parent m) (ft_child m) (ft_translation m) v) t r
  else (false, t, r).

Definition decodeFrameTransform : decoder FrameTransform := parseFields frame_transform_handler.

Definition writeFrameTransforms (ts : list FrameTransform) : wop :=
  appendAll (fun t => message 1 (writeFrameTransform t)) ts.

Definition serializeFrameTransforms (ts : list FrameTransform) : bytes := writeFrameTransforms ts [].

(** The decoder drives its own loop: every length-delimited field is a nested
    message, but only field 1 is decoded. *)
Definition push_transforms (l acc : list FrameTransform) : list FrameTransform := acc ++ l.

Definition frame_transforms_step : field_step (list FrameTransform) string := fun tag acc r =>
  if negb (wt_eqb (tag_type tag) kLengthDelimited) then Other
  else
    match readMessage r with
    | (None, _) => Broke "FrameTransforms wire: bad nested message length"%string
    | (Some nested, r') =>
      if tag_field tag =? 1 then
        let '(ok, t, _) := decodeFrameTransform frame_transform_default nested in
        if ok then Took (push_transforms [t] acc) r'
        else Broke "FrameTransforms wire: FrameTransform decode failed"%string
      else Took acc r'
    end.

Definition deserializeFrameTransforms (data : bytes) : Expected (list FrameTransform) :=
  if eof data then Err "FrameTransforms wire: empty buffer"
  else
    to_expected (field_loop "FrameTransforms wire: bad tag"%string "FrameTransforms wire: skip failed"%string
      frame_transforms_step [] data).

(** ** Handlers only move the reader on *)

#[export] Instance log_consumes : Consumes log_handler.
Proof. unfold log_handler. solve_consumes. Qed.
#[export] Instance robot_description_consumes : Consumes robot_description_handler.
Proof. unfold robot_description_handler. solve_consumes. Qed.
#[export] Instance compressed_point_cloud_consumes : Consumes compressed_point_cloud_handler.
Proof. unfold compressed_point_cloud_handler. solve_consumes. Qed.
#[export] Instance video_frame_consumes : Consumes video_frame_handler.
Proof. unfold video_frame_handler. solve_consumes. Qed.
#[export] Instance poses_in_frame_consumes : Consumes poses_in_frame_handler.
Proof. unfold poses_in_frame_handler. solve_consumes. Qed.
#[export] Instance frame_transform_consumes : Consumes frame_transform_handler.
Proof. unfold frame_transform_handler. solve_consumes. Qed.

(** ** Encodings *)

Lemma level_roundtrip l : levelFromWire (level_to_wire l) = l.
Proof. by destruct l. Qed.

Lemma level_in_u64 l : in_u 64 (level_to_wire l).
Proof. destruct l; unfold in_u; simpl; lia. Qed.

Lemma encodes_log m0 m :
  in_s 64 (log_timestamp_ns m) -> encodes log_handler (writeLog m) m0 m.
Proof.
  intros Hts. destruct m as [ts l msg nm]. cbn in Hts. unfold writeLog. cbn [log_timestamp_ns log_level log_message log_name].
  pose proof (level_in_u64 l). solve_encodes. cbn. by rewrite level_roundtrip.
Qed.

Lemma encodes_robot_description m0 m :
  in_s 64 (rd_timestamp_ns m) -> encodes robot_description_handler (writeRobotDescription m) m0 m.
Proof. intros Hts. destruct m. cbn in Hts. unfold writeRobotDescription. solve_encodes. Qed.

Lemma encodes_compressed_point_cloud m0 m :
  in_s 64 (cpc_timestamp_ns m) ->
  encodes compressed_point_cloud_handler (writeCompressedPointCloud m) m0 m.
Proof. intros Hts. destruct m. cbn in Hts. unfold writeCompressedPointCloud. solve_encodes. Qed.

Lemma encodes_video_frame m0 m :
  in_s 64 (vf_timestamp_ns m) -> encodes video_frame_handler (writeVideoFrame m) m0 m.
Proof. intros Hts. destruct m. cbn in Hts. unfold writeVideoFrame. solve_encodes. Qed.

Definition frame_transform_wf (t : FrameTransform) : Prop :=
  in_s 64 (ft_timestamp t) /\ vector3_wf (ft_translation t) /\ quaternion_wf (ft_rotation t).

#[export] Instance frame_transform_codec :
  Codec frame_transform_wf writeFrameTransform decodeFrameTransform.
Proof.
  apply codec_of_encodes; [intros; unfold writeFrameTransform; apply _|].
  intros a0 [ts p c tr q] (? & ? & ?). cbn in *. unfold writeFrameTransform. solve_encodes.
Qed.

(** The encodings are never empty: they start with the timestamp. *)
Lemma write_nonempty f w w' `{!Appends w'} : field_ok f -> (message f w ;> w') [] <> [].
Proof. intros Hf. rewrite wseq_bytes by done. by apply message_nonempty. Qed.

Ltac by_encodes H :=
  apply deserialize_encodes; [by apply H|done|apply write_nonempty; [apply _|solve_field_ok]].

Lemma foldl_poses ts f acc l :
  foldl (fun m v => mkPosesInFrame (pif_timestamp_ns m) (pif_frame_id m) (pif_poses m ++ [v]))
    (mkPosesInFrame ts f acc) l = mkPosesInFrame ts f (acc ++ l).
Proof.
  revert acc. induction l as [|a l IH]; intros acc; cbn [foldl]; [by rewrite app_nil_r|].
  cbn [pif_timestamp_ns pif_frame_id pif_poses]. by rewrite IH, <-app_assoc.
Qed.

Definition poses_in_frame_wf (m : PosesInFrame) : Prop :=
  in_s 64 (pif_timestamp_ns m) /\ Forall pose_wf (pif_poses m).

Lemma encodes_poses_in_frame m :
  poses_in_frame_wf m ->
  encodes poses_in_frame_handler (writePosesInFrame m) poses_in_frame_default m.
Proof.
  intros [Hts Hp]. destruct m as [ts f ps]. cbn in Hts, Hp. unfold writePosesInFrame.
  eapply encodes_seq; [apply _|encodes_field|]. eapply encodes_seq; [apply _|encodes_field|].
  cbn [pif_poses]. rewrite Forall_forall in Hp. eapply encodes_eq.
  - eapply (encodes_all poses_in_frame_handler (fun pose => message 3 (writePose pose))
      (fun m v => mkPosesInFrame (pif_timestamp_ns m) (pif_frame_id m) (pif_poses m ++ [v])));
      try apply _. intros a s Ha.
    eapply (encodes_push poses_in_frame_handler pose_default
      (fun v m => mkPosesInFrame (pif_timestamp_ns m) (pif_frame_id m) (pif_poses m ++ [v])));
      [solve_field_ok|by apply Hp|done].
  - cbn. apply foldl_poses.
Qed.

(** *** The FrameTransforms loop *)

#[export] Instance push_transforms_adds : Adds push_transforms.
Proof. split; intros; unfold push_transforms; by rewrite ?app_nil_r, ?app_assoc. Qed.

#[export] Instance frame_transforms_step_consumes : StepConsumes frame_transforms_step.
Proof.
  intros t s r s' r' E. unfold frame_transforms_step, readMessage in E. pose proof (readBytes_suffix r).
  destruct (negb _); [discriminate E|]. destruct (readBytes r) as [[d|] r1]; [|discriminate E].
  destruct (decodeFrameTransform _ d) as [[[|] ?] ?]; repeat case_match; by simplify_eq.
Qed.

Lemma loops_frame_transforms ts :
  Forall frame_transform_wf ts ->
  loops "FrameTransforms wire: bad tag"%string "FrameTransforms wire: skip failed"%string frame_transforms_step
    (writeFrameTransforms ts) [] ts.
Proof. intros Hts. unfold writeFrameTransforms. solve_loops. Qed.

(** Each text, stream and pose message survives serialization: decoding the
    bytes the serializer produced yields the message again, for any contents
    whose timestamp is an [int64_t] and whose encoding fits a [size_t]. *)
Theorem message_codecs_roundtrip :
  (forall m, in_s 64 (log_timestamp_ns m) -> fits (serializeLog m) ->
     deserializeLog (serializeLog m) = Ok m) /\
  (forall m, in_s 64 (rd_timestamp_ns m) -> fits (serializeRobotDescription m) ->
     deserializeRobotDescription (serializeRobotDescription m) = Ok m) /\
  (forall m, in_s 64 (cpc_timestamp_ns m) -> fits (serializeCompressedPointCloud m) ->
     deserializeCompressedPointCloud (serializeCompressedPointCloud m) = Ok m) /\
  (forall m, in_s 64 (vf_timestamp_ns m) -> fits (serializeVideoFrame m) ->
     deserializeVideoFrame (serializeVideoFrame m) = Ok m) /\
  (forall m, poses_in_frame_wf m -> fits (serializePosesInFrame m) ->
     deserializePosesInFrame (serializePosesInFrame m) = Ok m).
Proof.
  split_and!; intros m Hwf Hfit;
    [by_encodes encodes_log|by_encodes encodes_robot_description
    |by_encodes encodes_compressed_point_cloud|by_encodes encodes_video_frame
    |by_encodes encodes_poses_in_frame].
Qed.

Lemma frame_transforms_written ts :
  Forall frame_transform_wf ts -> fits (serializeFrameTransforms ts) ->
  (serializeFrameTransforms ts = [] /\ ts = []) \/
  (serializeFrameTransforms ts <> [] /\ deserializeFrameTransforms (serializeFrameTransforms ts) = Ok ts).
Proof.
  intros Hwf Hfit. unfold deserializeFrameTransforms, serializeFrameTransforms in *.
  destruct ts as [|t ts]; [by left|]. right.
  assert (writeFrameTransforms (t :: ts) [] <> []) as Hne.
  { unfold writeFrameTransforms. rewrite appendAll_cons by (intros; apply _). by apply message_nonempty. }
  split; [done|]. rewrite (loops_done _ _ frame_transforms_step _ _ (t :: ts) (loops_frame_transforms _ Hwf)) by done.
  by destruct (writeFrameTransforms _ []).
Qed.

(** A list of transforms survives serialization; only the empty list, whose
    encoding is the empty buffer, is rejected. *)
Theorem frame_transforms_roundtrip ts :
  Forall frame_transform_wf ts -> fits (serializeFrameTransforms ts) ->
  deserializeFrameTransforms (serializeFrameTransforms ts)
    = if decide (ts = []) then Err "FrameTransforms wire: empty buffer" else Ok ts.
Proof.
  intros Hwf Hfit. case_decide as Hd; [by subst|].
  by destruct (frame_transforms_written ts Hwf Hfit) as [[_ ?]|[_ ?]].
Qed.

Lemma frame_transforms_roundtrip_witness :
  let ts := [mkFrameTransform (-1500000001) (str "map") (str "base_link")
               (mkVector3 1 2 3) quaternion_default;
             mkFrameTransform 7 (str "base_link") (str "lidar") vector3_default quaternion_default] in
  (Forall frame_transform_wf ts /\ fits (serializeFrameTransforms ts)) /\
  deserializeFrameTransforms (serializeFrameTransforms ts) = Ok ts.
Proof.
  intros ts.
  assert (Forall frame_transform_wf ts) as Hwf.
  { unfold frame_transform_wf, vector3_wf, quaternion_wf, ts. by_compute. }
  assert (fits (serializeFrameTransforms ts)) as Hfit by (vm_compute; reflexivity).
  split; [split; assumption|]. exact (frame_transforms_roundtrip ts Hwf Hfit).
Defined.

Lemma message_codecs_roundtrip_witness :
  let m := mkLog (-1) kFatal (str "out of memory") [] in
  let p := mkPosesInFrame 1500000000 (str "map") [pose_default; pose_default] in
  deserializeLog (serializeLog m) = Ok m /\
  deserializePosesInFrame (serializePosesInFrame p) = Ok p.
Proof.
  intros m p. destruct message_codecs_roundtrip as (Hlog & _ & _ & _ & Hposes).
  assert (in_s 64 (log_timestamp_ns m)) as Hm by by_compute.
  assert (fits (serializeLog m)) as Hmf by (vm_compute; reflexivity).
  assert (poses_in_frame_wf p) as Hp.
  { unfold poses_in_frame_wf, pose_wf, vector3_wf, quaternion_wf, p. by_compute. }
  assert (fits (serializePosesInFrame p)) as Hpf by (vm_compute; reflexivity).
  split; [exact (Hlog m Hm Hmf)|exact (Hposes p Hp Hpf)].
Defined.
