(* ===== verification/SensorCodecs.v ===== *)
(** * SensorCodecs: grids, camera calibration and images

    [pj_base/src/builtin/]: [occupancy_grid_codec.cpp],
    [occupancy_grid_update_codec.cpp], [camera_info_codec.cpp],
    [depth_image_codec.cpp] and [image_codec.cpp].  A [std::array] is a list of
    its length; an [optional<float>] is an option of a bit pattern. *)

From S2P Require Import Prelude TimeMath ProtobufWire GeometryCodec MessageCodecs.

(** ** OccupancyGrid *)

Record OccupancyGrid : Set := mkOccupancyGrid {
  og_timestamp_ns : Z; og_frame_id : bytes; og_origin : Pose; og_resolution : Z; og_width : Z;
  og_height : Z; og_data : bytes }.

Definition occupancy_grid_default : OccupancyGrid := mkOccupancyGrid 0 [] pose_default 0 0 0 [].

Definition writeOccupancyGrid (m : OccupancyGrid) : wop :=
  message 1 (writeTimestamp (og_timestamp_ns m))
  ;> wstring 2 (og_frame_id m)
  ;> message 3 (writePose (og_origin m))
  ;> doubleField 4 (og_resolution m)
  ;> varint 5 (og_width m)
  ;> varint 6 (og_height m)
  ;> wbytes 7 (og_data m).

Definition serializeOccupancyGrid (m : OccupancyGrid) : bytes := writeOccupancyGrid m [].

Definition occupancy_grid_handler : handler OccupancyGrid := fun tag m r =>
  if tag_field tag =? 1 then
    if wt_eqb (tag_type tag) kLengthDelimited then read_nested decodeTimestamp og_timestamp_ns
      (fun v m => mkOccupancyGrid v (og_frame_id m) (og_origin m) (og_resolution m) (og_width m)
        (og_height m) (og_data m)) m r
    else (false, m, r)
  else if tag_field tag =? 2 then
    if wt_eqb (tag_type tag) kLengthDelimited then read_into readString
      (fun v m => mkOccupancyGrid (og_timestamp_ns m) v (og_origin m) (og_resolution m) (og_width
        m) (og_height m) (og_data m)) m r
    else (false, m, r)
  else if tag_field tag =? 3 then
    if wt_eqb (tag_type tag) kLengthDelimited then read_nested decodePose og_origin
      (fun v m => mkOccupancyGrid (og_timestamp_ns m) (og_frame_id m) v (og_resolution m)
        (og_width m) (og_height m) (og_data m)) m r
    else (false, m, r)
  else if tag_field tag =? 4 then
    if wt_eqb (tag_type tag) kFixed64 then read_into readDouble
      (fun v m => mkOccupancyGrid (og_timestamp_ns m) (og_frame_id m) (og_origin m) v (og_width
        m) (og_height m) (og_data m)) m r
    else (false, m, r)
  else if tag_field tag =? 5 then
    if wt_eqb (tag_type tag) kVarint then read_into readVarint
      (fun v m => mkOccupancyGrid (og_timestamp_ns m) (og_frame_id m) (og_origin m)
        (og_resolution m) (wrap 32 v) (og_height m) (og_data m)) m r
    else (false, m, r)
  else if tag_field tag =? 6 then
    if wt_eqb (tag_type tag) kVarint then read_into readVarint
      (fun v m => mkOccupancyGrid (og_timestamp_ns m) (og_frame_id m) (og_origin m)
        (og_resolution m) (og_width m) (wrap 32 v) (og_data m)) m r
    else (false, m, r)
  else if tag_field tag =? 7 then
    if wt_eqb (tag_type tag) kLengthDelimited then read_into readBytes
      (fun v m => mkOccupancyGrid (og_timestamp_ns m) (og_frame_id m) (og_origin m)
        (og_resolution m) (og_width m) (og_height m) v) m r
    else (false, m, r)
  else (false, m, r).

Definition deserializeOccupancyGrid : bytes -> Expected OccupancyGrid :=
  deserialize "OccupancyGrid" occupancy_grid_handler occupancy_grid_default.

Definition occupancy_grid_wf (m : OccupancyGrid) : Prop :=
  in_s 64 (og_timestamp_ns m) /\ pose_wf (og_origin m) /\ in_u 64 (og_resolution m) /\ in_u 32
  (og_width m) /\ in_u 32 (og_height m).

#[export] Instance occupancy_grid_consumes : Consumes occupancy_grid_handler.
Proof. unfold occupancy_grid_handler. solve_consumes. Qed.

(** ** OccupancyGridUpdate *)

Record OccupancyGridUpdate : Set := mkOccupancyGridUpdate {
  ogu_timestamp_ns : Z; ogu_frame_id : bytes; ogu_x : Z; ogu_y : Z; ogu_width : Z; ogu_height : Z;
  ogu_data : bytes }.

Definition occupancy_grid_update_default : OccupancyGridUpdate := mkOccupancyGridUpdate 0 [] 0 0
  0 0 [].

Definition writeOccupancyGridUpdate (m : OccupancyGridUpdate) : wop :=
  message 1 (writeTimestamp (ogu_timestamp_ns m))
  ;> wstring 2 (ogu_frame_id m)
  ;> varint 3 (wrap 32 (ogu_x m))
  ;> varint 4 (wrap 32 (ogu_y m))
  ;> varint 5 (ogu_width m)
  ;> varint 6 (ogu_height m)
  ;> wbytes 7 (ogu_data m).

Definition serializeOccupancyGridUpdate (m : OccupancyGridUpdate) : bytes := writeOccupancyGridUpdate m [].

Definition occupancy_grid_update_handler : handler OccupancyGridUpdate := fun tag m r =>
  if tag_field tag =? 1 then
    if wt_eqb (tag_type tag) kLengthDelimited then read_nested decodeTimestamp ogu_timestamp_ns
      (fun v m => mkOccupancyGridUpdate v (ogu_frame_id m) (ogu_x m) (ogu_y m) (ogu_width m)
        (ogu_height m) (ogu_data m)) m r
    else (false, m, r)
  else if tag_field tag =? 2 then
    if wt_eqb (tag_type tag) kLengthDelimited then read_into readString
      (fun v m => mkOccupancyGridUpdate (ogu_timestamp_ns m) v (ogu_x m) (ogu_y m) (ogu_width m)
        (ogu_height m) (ogu_data m)) m r
    else (false, m, r)
  else if tag_field tag =? 3 then
    if wt_eqb (tag_type tag) kVarint then read_into readVarint
      (fun v m => mkOccupancyGridUpdate (ogu_timestamp_ns m) (ogu_frame_id m) (to_signed 32 v)
        (ogu_y m) (ogu_width m) (ogu_height m) (ogu_data m)) m r
    else (false, m, r)
  else if tag_field tag =? 4 then
    if wt_eqb (tag_type tag) kVarint then read_into readVarint
      (fun v m => mkOccupancyGridUpdate (ogu_timestamp_ns m) (ogu_frame_id m) (ogu_x m)
        (to_signed 32 v) (ogu_width m) (ogu_height m) (ogu_data m)) m r
    else (false, m, r)
  else if tag_field tag =? 5 then
    if wt_eqb (tag_type tag) kVarint then read_into readVarint
      (fun v m => mkOccupancyGridUpdate (ogu_timestamp_ns m) (ogu_frame_id m) (ogu_x m) (ogu_y m)
        (wrap 32 v) (ogu_height m) (ogu_data m)) m r
    else (false, m, r)
  else if tag_field tag =? 6 then
    if wt_eqb (tag_type tag) kVarint then read_into readVarint
      (fun v m => mkOccupancyGridUpdate (ogu_timestamp_ns m) (ogu_frame_id m) (ogu_x m) (ogu_y m)
        (ogu_width m) (wrap 32 v) (ogu_data m)) m r
    else (false, m, r)
  else if tag_field tag =? 7 then
    if wt_eqb (tag_type tag) kLengthDelimited then read_into readBytes
      (fun v m => mkOccupancyGridUpdate (ogu_timestamp_ns m) (ogu_frame_id m) (ogu_x m) (ogu_y m)
        (ogu_width m) (ogu_height m) v) m r
    else (false, m, r)
  else (false, m, r).

Definition deserializeOccupancyGridUpdate : bytes -> Expected OccupancyGridUpdate :=
  deserialize "OccupancyGridUpdate" occupancy_grid_update_handler occupancy_grid_update_default.

Definition occupancy_grid_update_wf (m : OccupancyGridUpdate) : Prop :=
  in_s 64 (ogu_timestamp_ns m) /\ in_s 32 (ogu_x m) /\ in_s 32 (ogu_y m) /\ in_u 32 (ogu_width m)
  /\ in_u 32 (ogu_height m).

#[export] Instance occupancy_grid_update_consumes : Consumes occupancy_grid_update_handler.
Proof. unfold occupancy_grid_update_handler. solve_consumes. Qed.

(** ** CameraInfo *)

Record CameraInfo : Set := mkCameraInfo {
  ci_timestamp_ns : Z; ci_frame_id : bytes; ci_width : Z; ci_height : Z; ci_distortion_model :
  bytes; ci_D : list Z; ci_K : list Z; ci_R : list Z; ci_P : list Z }.

Definition camera_info_default : CameraInfo := mkCameraInfo 0 [] 0 0 [] [] (replicate 9 0)
  (replicate 9 0) (replicate 12 0).

Definition writeCameraInfo (m : CameraInfo) : wop :=
  message 1 (writeTimestamp (ci_timestamp_ns m))
  ;> wstring 2 (ci_frame_id m)
  ;> varint 3 (ci_width m)
  ;> varint 4 (ci_height m)
  ;> wstring 5 (ci_distortion_model m)
  ;> packedDouble 6 (ci_D m)
  ;> packedDouble 7 (ci_K m)
  ;> packedDouble 8 (ci_R m)
  ;> packedDouble 9 (ci_P m).

Definition serializeCameraInfo (m : CameraInfo) : bytes := writeCameraInfo m [].

Definition camera_info_handler : handler CameraInfo := fun tag m r =>
  if tag_field tag =? 1 then
    if wt_eqb (tag_type tag) kLengthDelimited then read_nested decodeTimestamp ci_timestamp_ns
      (fun v m => mkCameraInfo v (ci_frame_id m) (ci_width m) (ci_height m) (ci_distortion_model
        m) (ci_D m) (ci_K m) (ci_R m) (ci_P m)) m r
    else (false, m, r)
  else if tag_field tag =? 2 then
    if wt_eqb (tag_type tag) kLengthDelimited then read_into readString
      (fun v m => mkCameraInfo (ci_timestamp_ns m) v (ci_width m) (ci_height m)
        (ci_distortion_model m) (ci_D m) (ci_K m) (ci_R m) (ci_P m)) m r
    else (false, m, r)
  else if tag_field tag =? 3 then
    if wt_eqb (tag_type tag) kVarint then read_into readVarint
      (fun v m => mkCameraInfo (ci_timestamp_ns m) (ci_frame_id m) (wrap 32 v) (ci_height m)
        (ci_distortion_model m) (ci_D m) (ci_K m) (ci_R m) (ci_P m)) m r
    else (false, m, r)
  else if tag_field tag =? 4 then
    if wt_eqb (tag_type tag) kVarint then read_into readVarint
      (fun v m => mkCameraInfo (ci_timestamp_ns m) (ci_frame_id m) (ci_width m) (wrap 32 v)
        (ci_distortion_model m) (ci_D m) (ci_K m) (ci_R m) (ci_P m)) m r
    else (false, m, r)
  else if tag_field tag =? 5 then
    if wt_eqb (tag_type tag) kLengthDelimited then read_into readString
      (fun v m => mkCameraInfo (ci_timestamp_ns m) (ci_frame_id m) (ci_width m) (ci_height m) v
        (ci_D m) (ci_K m) (ci_R m) (ci_P m)) m r
    else (false, m, r)
  else if tag_field tag =? 6 then
    if wt_eqb (tag_type tag) kLengthDelimited then read_packed readPackedDouble ci_D
      (fun v m => mkCameraInfo (ci_timestamp_ns m) (ci_frame_id m) (ci_width m) (ci_height m)
        (ci_distortion_model m) v (ci_K m) (ci_R m) (ci_P m)) m r
    else (false, m, r)
  else if tag_field tag =? 7 then
    if wt_eqb (tag_type tag) kLengthDelimited then read_packed (readPackedDoubleArray 9) ci_K
      (fun v m => mkCameraInfo (ci_timestamp_ns m) (ci_frame_id m) (ci_width m) (ci_height m)
        (ci_distortion_model m) (ci_D m) v (ci_R m) (ci_P m)) m r
    else (false, m, r)
  else if tag_field tag =? 8 then
    if wt_eqb (tag_type tag) kLengthDelimited then read_packed (readPackedDoubleArray 9) ci_R
      (fun v m => mkCameraInfo (ci_timestamp_ns m) (ci_frame_id m) (ci_width m) (ci_height m)
        (ci_distortion_model m) (ci_D m) (ci_K m) v (ci_P m)) m r
    else (false, m, r)
  else if tag_field tag =? 9 then
    if wt_eqb (tag_type tag) kLengthDelimited then read_packed (readPackedDoubleArray 12) ci_P
      (fun v m => mkCameraInfo (ci_timestamp_ns m) (ci_frame_id m) (ci_width m) (ci_height m)
        (ci_distortion_model m) (ci_D m) (ci_K m) (ci_R m) v) m r
    else (false, m, r)
  else (false, m, r).

Definition deserializeCameraInfo : bytes -> Expected CameraInfo :=
  deserialize "CameraInfo" camera_info_handler camera_info_default.

Definition camera_info_wf (m : CameraInfo) : Prop :=
  in_s 64 (ci_timestamp_ns m) /\ in_u 32 (ci_width m) /\ in_u 32 (ci_height m) /\ Forall (in_u 64)
  (ci_D m) /\ (length (ci_K m) = 9)%nat /\ Forall (in_u 64) (ci_K m) /\ (length (ci_R m) = 9)%nat
  /\ Forall (in_u 64) (ci_R m) /\ (length (ci_P m) = 12)%nat /\ Forall (in_u 64) (ci_P m).

#[export] Instance camera_info_consumes : Consumes camera_info_handler.
Proof. unfold camera_info_handler. solve_consumes. Qed.

(** ** DepthImage *)

Record DepthImage : Set := mkDepthImage {
  di_width : Z; di_height : Z; di_encoding : bytes; di_data : bytes; di_K : list Z;
  di_distortion_model : bytes; di_D : list Z; di_timestamp_ns : Z }.

Definition depth_image_default : DepthImage := mkDepthImage 0 0 [] [] (replicate 9 0) [] [] 0.

Definition writeDepthImage (m : DepthImage) : wop :=
  message 1 (writeTimestamp (di_timestamp_ns m))
  ;> varint 2 (di_width m)
  ;> varint 3 (di_height m)
  ;> wstring 4 (di_encoding m)
  ;> wbytes 5 (di_data m)
  ;> packedDouble 6 (di_K m)
  ;> wstring 7 (di_distortion_model m)
  ;> packedDouble 8 (di_D m).

Definition serializeDepthImage (m : DepthImage) : bytes := writeDepthImage m [].

Definition depth_image_handler : handler DepthImage := fun tag m r =>
  if tag_field tag =? 1 then
    if wt_eqb (tag_type tag) kLengthDelimited then read_nested decodeTimestamp di_timestamp_ns
      (fun v m => mkDepthImage (di_width m) (di_height m) (di_encoding m) (di_data m) (di_K m)
        (di_distortion_model m) (di_D m) v) m r
    else (false, m, r)
  else if tag_field tag =? 2 then
    if wt_eqb (tag_type tag) kVarint then read_into readVarint
      (fun v m => mkDepthImage (wrap 32 v) (di_height m) (di_encoding m) (di_data m) (di_K m)
        (di_distortion_model m) (di_D m) (di_timestamp_ns m)) m r
    else (false, m, r)
  else if tag_field tag =? 3 then
    if wt_eqb (tag_type tag) kVarint then read_into readVarint
      (fun v m => mkDepthImage (di_width m) (wrap 32 v) (di_encoding m) (di_data m) (di_K m)
        (di_distortion_model m) (di_D m) (di_timestamp_ns m)) m r
    else (false, m, r)
  else if tag_field tag =? 4 then
    if wt_eqb (tag_type tag) kLengthDelimited then read_into readString
      (fun v m => mkDepthImage (di_width m) (di_height m) v (di_data m) (di_K m)
        (di_distortion_model m) (di_D m) (di_timestamp_ns m)) m r
    else (false, m, r)
  else if tag_field tag =? 5 then
    if wt_eqb (tag_type tag) kLengthDelimited then read_into readBytes
      (fun v m => mkDepthImage (di_width m) (di_height m) (di_encoding m) v (di_K m)
        (di_distortion_model m) (di_D m) (di_timestamp_ns m)) m r
    else (false, m, r)
  else if tag_field tag =? 6 then
    if wt_eqb (tag_type tag) kLengthDelimited then read_packed (readPackedDoubleArray 9) di_K
      (fun v m => mkDepthImage (di_width m) (di_height m) (di_encoding m) (di_data m) v
        (di_distortion_model m) (di_D m) (di_timestamp_ns m)) m r
    else (false, m, r)
  else if tag_field tag =? 7 then
    if wt_eqb (tag_type tag) kLengthDelimited then read_into readString
      (fun v m => mkDepthImage (di_width m) (di_height m) (di_encoding m) (di_data m) (di_K m) v
        (di_D m) (di_timestamp_ns m)) m r
    else (false, m, r)
  else if tag_field tag =? 8 then
    if wt_eqb (tag_type tag) kLengthDelimited then read_packed readPackedDouble di_D
      (fun v m => mkDepthImage (di_width m) (di_height m) (di_encoding m) (di_data m) (di_K m)
        (di_distortion_model m) v (di_timestamp_ns m)) m r
    else (false, m, r)
  else (false, m, r).

Definition deserializeDepthImage : bytes -> Expected DepthImage :=
  deserialize "DepthImage" depth_image_handler depth_image_default.

Definition depth_image_wf (m : DepthImage) : Prop :=
  in_u 32 (di_width m) /\ in_u 32 (di_height m) /\ (length (di_K m) = 9)%nat /\ Forall (in_u 64)
  (di_K m) /\ Forall (in_u 64) (di_D m) /\ in_s 64 (di_timestamp_ns m).

#[export] Instance depth_image_consumes : Consumes depth_image_handler.
Proof. unfold depth_image_handler. solve_consumes. Qed.

(** ** Image *)

Record Image : Set := mkImage {
  im_width : Z; im_height : Z; im_encoding : bytes; im_row_step : Z; im_is_bigendian : bool;
  im_data : bytes; im_compressed_depth_min : option Z; im_compressed_depth_max : option Z;
  im_timestamp_ns : Z; im_frame_id : bytes }.

Definition image_default : Image := mkImage 0 0 [] 0 false [] None None 0 [].

Definition writeImage (m : Image) : wop :=
  message 1 (writeTimestamp (im_timestamp_ns m))
  ;> varint 2 (im_width m)
  ;> varint 3 (im_height m)
  ;> wstring 4 (im_encoding m)
  ;> varint 5 (im_row_step m)
  ;> varint 6 (if im_is_bigendian m then 1 else 0)
  ;> wbytes 7 (im_data m)
  ;> match im_compressed_depth_min m with Some v => floatField 8 v | None => wskip end
  ;> match im_compressed_depth_max m with Some v => floatField 9 v | None => wskip end
  ;> wstring 10 (im_frame_id m).

Definition serializeImage (m : Image) : bytes := writeImage m [].

Definition image_handler : handler Image := fun tag m r =>
  if tag_field tag =? 1 then
    if wt_eqb (tag_type tag) kLengthDelimited then read_nested decodeTimestamp im_timestamp_ns
      (fun v m => mkImage (im_width m) (im_height m) (im_encoding m) (im_row_step m)
        (im_is_bigendian m) (im_data m) (im_compressed_depth_min m) (im_compressed_depth_max m) v
        (im_frame_id m)) m r
    else (false, m, r)
  else if tag_field tag =? 2 then
    if wt_eqb (tag_type tag) kVarint then read_into readVarint
      (fun v m => mkImage (wrap 32 v) (im_height m) (im_encoding m) (im_row_step m)
        (im_is_bigendian m) (im_data m) (im_compressed_depth_min m) (im_compressed_depth_max m)
        (im_timestamp_ns m) (im_frame_id m)) m r
    else (false, m, r)
  else if tag_field tag =? 3 then
    if wt_eqb (tag_type tag) kVarint then read_into readVarint
      (fun v m => mkImage (im_width m) (wrap 32 v) (im_encoding m) (im_row_step m)
        (im_is_bigendian m) (im_data m) (im_compressed_depth_min m) (im_compressed_depth_max m)
        (im_timestamp_ns m) (im_frame_id m)) m r
    else (false, m, r)
  else if tag_field tag =? 4 then
    if wt_eqb (tag_type tag) kLengthDelimited then read_into readString
      (fun v m => mkImage (im_width m) (im_height m) v (im_row_step m) (im_is_bigendian m)
        (im_data m) (im_compressed_depth_min m) (im_compressed_depth_max m) (im_timestamp_ns m)
        (im_frame_id m)) m r
    else (false, m, r)
  else if tag_field tag =? 5 then
    if wt_eqb (tag_type tag) kVarint then read_into readVarint
      (fun v m => mkImage (im_width m) (im_height m) (im_encoding m) (wrap 32 v) (im_is_bigendian
        m) (im_data m) (im_compressed_depth_min m) (im_compressed_depth_max m) (im_timestamp_ns
        m) (im_frame_id m)) m r
    else (false, m, r)
  else if tag_field tag =? 6 then
    if wt_eqb (tag_type tag) kVarint then read_into readVarint
      (fun v m => mkImage (im_width m) (im_height m) (im_encoding m) (im_row_step m) (negb (v =?
        0)) (im_data m) (im_compressed_depth_min m) (im_compressed_depth_max m) (im_timestamp_ns
        m) (im_frame_id m)) m r
    else (false, m, r)
  else if tag_field tag =? 7 then
    if wt_eqb (tag_type tag) kLengthDelimited then read_into readBytes
      (fun v m => mkImage (im_width m) (im_height m) (im_encoding m) (im_row_step m)
        (im_is_bigendian m) v (im_compressed_depth_min m) (im_compressed_depth_max m)
        (im_timestamp_ns m) (im_frame_id m)) m r
    else (false, m, r)
  else if tag_field tag =? 8 then
    if wt_eqb (tag_type tag) kFixed32 then read_into readFloat
      (fun v m => mkImage (im_width m) (im_height m) (im_encoding m) (im_row_step m)
        (im_is_bigendian m) (im_data m) (Some v) (im_compressed_depth_max m) (im_timestamp_ns m)
        (im_frame_id m)) m r
    else (false, m, r)
  else if tag_field tag =? 9 then
    if wt_eqb (tag_type tag) kFixed32 then read_into readFloat
      (fun v m => mkImage (im_width m) (im_height m) (im_encoding m) (im_row_step m)
        (im_is_bigendian m) (im_data m) (im_compressed_depth_min m) (Some v) (im_timestamp_ns m)
        (im_frame_id m)) m r
    else (false, m, r)
  else if tag_field tag =? 10 then
    if wt_eqb (tag_type tag) kLengthDelimited then read_into readString
      (fun v m => mkImage (im_width m) (im_height m) (im_encoding m) (im_row_step m)
        (im_is_bigendian m) (im_data m) (im_compressed_depth_min m) (im_compressed_depth_max m)
        (im_timestamp_ns m) v) m r
    else (false, m, r)
  else (false, m, r).

Definition deserializeImage : bytes -> Expected Image :=
  deserialize "Image" image_handler image_default.

Definition image_wf (m : Image) : Prop :=
  in_u 32 (im_width m) /\ in_u 32 (im_height m) /\ in_u 32 (im_row_step m) /\ from_option (in_u 32)
  True (im_compressed_depth_min m) /\ from_option (in_u 32) True (im_compressed_depth_max m) /\
  in_s 64 (im_timestamp_ns m).

#[export] Instance image_consumes : Consumes image_handler.
Proof. unfold image_handler. solve_consumes. Qed.

(** ** Encodings *)

(** Name the fields of a well-formed message and walk its writes. *)
Ltac solve_message_encodes :=
  repeat match goal with H : _ /\ _ |- _ => destruct H end;
  cbn in *; solve_encodes; cbn; rewrite ?wrap_small by done; try reflexivity.

Lemma encodes_occupancy_grid m0 m :
  occupancy_grid_wf m -> encodes occupancy_grid_handler (writeOccupancyGrid m) m0 m.
Proof. destruct m. unfold occupancy_grid_wf, writeOccupancyGrid. intros. solve_message_encodes. Qed.

Lemma encodes_occupancy_grid_update m0 m :
  occupancy_grid_update_wf m ->
  encodes occupancy_grid_update_handler (writeOccupancyGridUpdate m) m0 m.
Proof.
  destruct m. unfold occupancy_grid_update_wf, writeOccupancyGridUpdate. intros.
  solve_message_encodes. rewrite !to_signed_wrap by (done || lia). by rewrite !wrap_small by done.
Qed.

(** The distortion coefficients are appended to those of the message, so a
    default message is decoded into. *)
Lemma encodes_camera_info m :
  camera_info_wf m -> encodes camera_info_handler (writeCameraInfo m) camera_info_default m.
Proof.
  destruct m. unfold camera_info_wf, writeCameraInfo. intros.
  solve_message_encodes.
Qed.

Lemma encodes_depth_image m :
  depth_image_wf m -> encodes depth_image_handler (writeDepthImage m) depth_image_default m.
Proof. destruct m. unfold depth_image_wf, writeDepthImage. intros. solve_message_encodes. Qed.

Lemma bool_roundtrip (b : bool) : negb ((if b then 1 else 0) =? 0) = b.
Proof. by destruct b. Qed.

(** An absent depth bound writes nothing and leaves the default, which is absent. *)
Lemma encodes_image m : image_wf m -> encodes image_handler (writeImage m) image_default m.
Proof.
  destruct m as [? ? ? ? ? ? [lo|] [hi|] ? ?]; unfold image_wf, writeImage; intros;
    solve_message_encodes; by rewrite bool_roundtrip.
Qed.

(** Grids, calibrations and images survive serialization: decoding the
    serialized bytes yields the message, with every integer at its width, cell
    offsets of either sign and optional depth bounds present or absent. *)
Theorem sensor_codecs_roundtrip :
  (forall m, occupancy_grid_wf m -> fits (serializeOccupancyGrid m) ->
     deserializeOccupancyGrid (serializeOccupancyGrid m) = Ok m) /\
  (forall m, occupancy_grid_update_wf m -> fits (serializeOccupancyGridUpdate m) ->
     deserializeOccupancyGridUpdate (serializeOccupancyGridUpdate m) = Ok m) /\
  (forall m, camera_info_wf m -> fits (serializeCameraInfo m) ->
     deserializeCameraInfo (serializeCameraInfo m) = Ok m) /\
  (forall m, depth_image_wf m -> fits (serializeDepthImage m) ->
     deserializeDepthImage (serializeDepthImage m) = Ok m) /\
  (forall m, image_wf m -> fits (serializeImage m) ->
     deserializeImage (serializeImage m) = Ok m).
Proof.
  split_and!; intros m Hwf Hfit;
    [by_encodes encodes_occupancy_grid|by_encodes encodes_occupancy_grid_update
    |by_encodes encodes_camera_info|by_encodes encodes_depth_image|].
  apply deserialize_encodes; [by apply encodes_image|done|].
  destruct m as [? ? ? ? ? ? [?|] [?|] ? ?]; apply write_nonempty; try apply _; solve_field_ok.
Qed.

(** A negative cell offset, and an image with one of its two depth bounds. *)
Lemma sensor_codecs_roundtrip_witness :
  let u := mkOccupancyGridUpdate (-7) (str "map") (-2) 3 1 2 [Byte.xff; Byte.x64] in
  let i := mkImage 2 1 (str "mono8") 2 true [Byte.x01; Byte.x02] (Some 0) None 5 (str "cam") in
  deserializeOccupancyGridUpdate (serializeOccupancyGridUpdate u) = Ok u /\
  deserializeImage (serializeImage i) = Ok i.
Proof.
  intros u i. destruct sensor_codecs_roundtrip as (_ & Hu & _ & _ & Hi).
  assert (occupancy_grid_update_wf u) as Hw.
  { unfold occupancy_grid_update_wf, u. by_compute. }
  assert (fits (serializeOccupancyGridUpdate u)) as Hf by (vm_compute; reflexivity).
  assert (image_wf i) as Hw'.
  { unfold image_wf, i. cbn. by_compute. }
  assert (fits (serializeImage i)) as Hf' by (vm_compute; reflexivity).
  split; [exact (Hu u Hw Hf)|exact (Hi i Hw' Hf')].
Defined.
