(* ===== verification/PointCodecs.v ===== *)
(** * PointCodecs: packed records and the grids made of them

    [pj_base/src/builtin/]: [point_field_codec.hpp], [point_cloud_codec.cpp],
    [voxel_grid_codec.cpp] and [grid_map_codec.cpp], with the layout validation
    of a grid map. *)

From S2P Require Import Prelude TimeMath ProtobufWire GeometryCodec MessageCodecs SensorCodecs.

(** ** PointField *)

Inductive Datatype : Set :=
  | dtUnknown | dtInt8 | dtUint8 | dtInt16 | dtUint16 | dtInt32 | dtUint32 | dtFloat32 | dtFloat64.

Record PointField : Set := mkPointField {
  pf_name : bytes; pf_offset : Z; pf_datatype : Datatype; pf_count : Z }.

Definition point_field_default : PointField := mkPointField [] 0 dtUnknown 1.

(** [sdk::bytesPerElement]. *)
Definition bytesPerElement (dt : Datatype) : Z :=
  match dt with
  | dtInt8 | dtUint8 => 1
  | dtInt16 | dtUint16 => 2
  | dtInt32 | dtUint32 | dtFloat32 => 4
  | dtFloat64 => 8
  | dtUnknown => 0
  end.

Definition pointFieldDatatypeToWire (dt : Datatype) : Z :=
  match dt with
  | dtUnknown => 0 | dtInt8 => 1 | dtUint8 => 2 | dtInt16 => 3 | dtUint16 => 4
  | dtInt32 => 5 | dtUint32 => 6 | dtFloat32 => 7 | dtFloat64 => 8
  end.

Definition pointFieldDatatypeFromWire (value : Z) : Datatype :=
  if value =? 1 then dtInt8
  else if value =? 2 then dtUint8
  else if value =? 3 then dtInt16
  else if value =? 4 then dtUint16
  else if value =? 5 then dtInt32
  else if value =? 6 then dtUint32
  else if value =? 7 then dtFloat32
  else if value =? 8 then dtFloat64
  else dtUnknown.

Definition writePointField (field : PointField) : wop :=
  wstring 1 (pf_name field)
  ;> varint 2 (pf_offset field)
  ;> varint 3 (pointFieldDatatypeToWire (pf_datatype field))
  ;> varint 4 (pf_count field).

(** Like the timestamp handler, it consumes the value of a varint field before
    it looks at the field number. *)
Definition point_field_handler : handler PointField := fun tag f r =>
  if tag_field tag =? 1 then
    if wt_eqb (tag_type tag) kLengthDelimited then
      read_into readString
        (fun v m => mkPointField v (pf_offset m) (pf_datatype m) (pf_count m)) f r
    else (false, f, r)
  else if negb (wt_eqb (tag_type tag) kVarint) then (false, f, r)
  else
    match readVarint r with
    | (None, r') => (false, f, r')
    | (Some v, r') =>
      if tag_field tag =? 2 then
        (true, mkPointField (pf_name f) (wrap 32 v) (pf_datatype f) (pf_count f), r')
      else if tag_field tag =? 3 then
        (true, mkPointField (pf_name f) (pf_offset f) (pointFieldDatatypeFromWire v) (pf_count f), r')
      else if tag_field tag =? 4 then
        (true, mkPointField (pf_name f) (pf_offset f) (pf_datatype f) (wrap 32 v), r')
      else (false, f, r')
    end.

Definition decodePointField : decoder PointField := parseFields point_field_handler.

Definition point_field_wf (f : PointField) : Prop := in_u 32 (pf_offset f) /\ in_u 32 (pf_count f).

#[export] Instance point_field_consumes : Consumes point_field_handler.
Proof.
  intros t f r. unfold point_field_handler. pose proof (readVarint_suffix r) as H.
  case_match; [case_match; eauto with pj|]. case_match; [apply suffix_refl|].
  destruct (readVarint r) as [[v|] r']; by repeat case_match.
Qed.

(** ** PointCloud *)

Record PointCloud : Set := mkPointCloud {
  pc_width : Z; pc_height : Z; pc_point_step : Z; pc_row_step : Z; pc_is_bigendian : bool;
  pc_is_dense : bool; pc_frame_id : bytes; pc_fields : list PointField; pc_data : bytes;
  pc_timestamp_ns : Z }.

Definition point_cloud_default : PointCloud := mkPointCloud 0 1 0 0 false true [] [] [] 0.

Definition writePointCloud (m : PointCloud) : wop :=
  message 1 (writeTimestamp (pc_timestamp_ns m))
  ;> varint 2 (pc_width m)
  ;> varint 3 (pc_height m)
  ;> varint 4 (pc_point_step m)
  ;> varint 5 (pc_row_step m)
  ;> varint 6 (if pc_is_bigendian m then 1 else 0)
  ;> varint 7 (if pc_is_dense m then 1 else 0)
  ;> appendAll (fun field => message 8 (writePointField field)) (pc_fields m)
  ;> wbytes 9 (pc_data m)
  ;> wstring 10 (pc_frame_id m).

Definition serializePointCloud (m : PointCloud) : bytes := writePointCloud m [].

Definition point_cloud_handler : handler PointCloud := fun tag m r =>
  if tag_field tag =? 1 then
    if wt_eqb (tag_type tag) kLengthDelimited then read_nested decodeTimestamp pc_timestamp_ns
      (fun v m => mkPointCloud (pc_width m) (pc_height m) (pc_point_step m) (pc_row_step m)
        (pc_is_bigendian m) (pc_is_dense m) (pc_frame_id m) (pc_fields m) (pc_data m) v) m r
    else (false, m, r)
  else if tag_field tag =? 2 then
    if wt_eqb (tag_type tag) kVarint then read_into readVarint
      (fun v m => mkPointCloud (wrap 32 v) (pc_height m) (pc_point_step m) (pc_row_step m)
        (pc_is_bigendian m) (pc_is_dense m) (pc_frame_id m) (pc_fields m) (pc_data m)
        (pc_timestamp_ns m)) m r
    else (false, m, r)
  else if tag_field tag =? 3 then
    if wt_eqb (tag_type tag) kVarint then read_into readVarint
      (fun v m => mkPointCloud (pc_width m) (wrap 32 v) (pc_point_step m) (pc_row_step m)
        (pc_is_bigendian m) (pc_is_dense m) (pc_frame_id m) (pc_fields m) (pc_data m)
        (pc_timestamp_ns m)) m r
    else (false, m, r)
  else if tag_field tag =? 4 then
    if wt_eqb (tag_type tag) kVarint then read_into readVarint
      (fun v m => mkPointCloud (pc_width m) (pc_height m) (wrap 32 v) (pc_row_step m)
        (pc_is_bigendian m) (pc_is_dense m) (pc_frame_id m) (pc_fields m) (pc_data m)
        (pc_timestamp_ns m)) m r
    else (false, m, r)
  else if tag_field tag =? 5 then
    if wt_eqb (tag_type tag) kVarint then read_into readVarint
      (fun v m => mkPointCloud (pc_width m) (pc_height m) (pc_point_step m) (wrap 32 v)
        (pc_is_bigendian m) (pc_is_dense m) (pc_frame_id m) (pc_fields m) (pc_data m)
        (pc_timestamp_ns m)) m r
    else (false, m, r)
  else if tag_field tag =? 6 then
    if wt_eqb (tag_type tag) kVarint then read_into readVarint
      (fun v m => mkPointCloud (pc_width m) (pc_height m) (pc_point_step m) (pc_row_step m) (negb
        (v =? 0)) (pc_is_dense m) (pc_frame_id m) (pc_fields m) (pc_data m) (pc_timestamp_ns m))
        m r
    else (false, m, r)
  else if tag_field tag =? 7 then
    if wt_eqb (tag_type tag) kVarint then read_into readVarint
      (fun v m => mkPointCloud (pc_width m) (pc_height m) (pc_point_step m) (pc_row_step m)
        (pc_is_bigendian m) (negb (v =? 0)) (pc_frame_id m) (pc_fields m) (pc_data m)
        (pc_timestamp_ns m)) m r
    else (false, m, r)
  else if tag_field tag =? 8 then
    if wt_eqb (tag_type tag) kLengthDelimited then read_push decodePointField point_field_default
      (fun v m => mkPointCloud (pc_width m) (pc_height m) (pc_point_step m) (pc_row_step m)
        (pc_is_bigendian m) (pc_is_dense m) (pc_frame_id m) (pc_fields m ++ [v]) (pc_data m)
        (pc_timestamp_ns m)) m r
    else (false, m, r)
  else if tag_field tag =? 9 then
    if wt_eqb (tag_type tag) kLengthDelimited then read_into readBytes
      (fun v m => mkPointCloud (pc_width m) (pc_height m) (pc_point_step m) (pc_row_step m)
        (pc_is_bigendian m) (pc_is_dense m) (pc_frame_id m) (pc_fields m) v (pc_timestamp_ns m))
        m r
    else (false, m, r)
  else if tag_field tag =? 10 then
    if wt_eqb (tag_type tag) kLengthDelimited then read_into readString
      (fun v m => mkPointCloud (pc_width m) (pc_height m) (pc_point_step m) (pc_row_step m)
        (pc_is_bigendian m) (pc_is_dense m) v (pc_fields m) (pc_data m) (pc_timestamp_ns m)) m r
    else (false, m, r)
  else (false, m, r).

Definition deserializePointCloud : bytes -> Expected PointCloud :=
  deserialize "PointCloud" point_cloud_handler point_cloud_default.

Definition point_cloud_wf (m : PointCloud) : Prop :=
  in_u 32 (pc_width m) /\ in_u 32 (pc_height m) /\ in_u 32 (pc_point_step m) /\ in_u 32
  (pc_row_step m) /\ Forall point_field_wf (pc_fields m) /\ in_s 64 (pc_timestamp_ns m).

#[export] Instance point_cloud_consumes : Consumes point_cloud_handler.
Proof. unfold point_cloud_handler. solve_consumes. Qed.

(** ** VoxelGrid *)

Record VoxelGrid : Set := mkVoxelGrid {
  vg_timestamp_ns : Z; vg_frame_id : bytes; vg_origin : Pose; vg_cell_size : Vector3;
  vg_column_count : Z; vg_row_count : Z; vg_slice_count : Z; vg_cell_stride : Z; vg_row_stride :
  Z; vg_slice_stride : Z; vg_fields : list PointField; vg_data : bytes }.

Definition voxel_grid_default : VoxelGrid := mkVoxelGrid 0 [] pose_default vector3_default 0 0 0
  0 0 0 [] [].

Definition writeVoxelGrid (m : VoxelGrid) : wop :=
  message 1 (writeTimestamp (vg_timestamp_ns m))
  ;> wstring 2 (vg_frame_id m)
  ;> message 3 (writePose (vg_origin m))
  ;> message 4 (writeVector3 (vg_cell_size m))
  ;> varint 5 (vg_column_count m)
  ;> varint 6 (vg_row_count m)
  ;> varint 7 (vg_slice_count m)
  ;> varint 8 (vg_cell_stride m)
  ;> varint 9 (vg_row_stride m)
  ;> varint 10 (vg_slice_stride m)
  ;> appendAll (fun field => message 11 (writePointField field)) (vg_fields m)
  ;> wbytes 12 (vg_data m).

Definition serializeVoxelGrid (m : VoxelGrid) : bytes := writeVoxelGrid m [].

Definition voxel_grid_handler : handler VoxelGrid := fun tag m r =>
  if tag_field tag =? 1 then
    if wt_eqb (tag_type tag) kLengthDelimited then read_nested decodeTimestamp vg_timestamp_ns
      (fun v m => mkVoxelGrid v (vg_frame_id m) (vg_origin m) (vg_cell_size m) (vg_column_count
        m) (vg_row_count m) (vg_slice_count m) (vg_cell_stride m) (vg_row_stride m)
        (vg_slice_stride m) (vg_fields m) (vg_data m)) m r
    else (false, m, r)
  else if tag_field tag =? 2 then
    if wt_eqb (tag_type tag) kLengthDelimited then read_into readString
      (fun v m => mkVoxelGrid (vg_timestamp_ns m) v (vg_origin m) (vg_cell_size m)
        (vg_column_count m) (vg_row_count m) (vg_slice_count m) (vg_cell_stride m) (vg_row_stride
        m) (vg_slice_stride m) (vg_fields m) (vg_data m)) m r
    else (false, m, r)
  else if tag_field tag =? 3 then
    if wt_eqb (tag_type tag) kLengthDelimited then read_nested decodePose vg_origin
      (fun v m => mkVoxelGrid (vg_timestamp_ns m) (vg_frame_id m) v (vg_cell_size m)
        (vg_column_count m) (vg_row_count m) (vg_slice_count m) (vg_cell_stride m) (vg_row_stride
        m) (vg_slice_stride m) (vg_fields m) (vg_data m)) m r
    else (false, m, r)
  else if tag_field tag =? 4 then
    if wt_eqb (tag_type tag) kLengthDelimited then read_nested decodeVector3 vg_cell_size
      (fun v m => mkVoxelGrid (vg_timestamp_ns m) (vg_frame_id m) (vg_origin m) v
        (vg_column_count m) (vg_row_count m) (vg_slice_count m) (vg_cell_stride m) (vg_row_stride
        m) (vg_slice_stride m) (vg_fields m) (vg_data m)) m r
    else (false, m, r)
  else if tag_field tag =? 5 then
    if wt_eqb (tag_type tag) kVarint then read_into readVarint
      (fun v m => mkVoxelGrid (vg_timestamp_ns m) (vg_frame_id m) (vg_origin m) (vg_cell_size m)
        (wrap 32 v) (vg_row_count m) (vg_slice_count m) (vg_cell_stride m) (vg_row_stride m)
        (vg_slice_stride m) (vg_fields m) (vg_data m)) m r
    else (false, m, r)
  else if tag_field tag =? 6 then
    if wt_eqb (tag_type tag) kVarint then read_into readVarint
      (fun v m => mkVoxelGrid (vg_timestamp_ns m) (vg_frame_id m) (vg_origin m) (vg_cell_size m)
        (vg_column_count m) (wrap 32 v) (vg_slice_count m) (vg_cell_stride m) (vg_row_stride m)
        (vg_slice_stride m) (vg_fields m) (vg_data m)) m r
    else (false, m, r)
  else if tag_field tag =? 7 then
    if wt_eqb (tag_type tag) kVarint then read_into readVarint
      (fun v m => mkVoxelGrid (vg_timestamp_ns m) (vg_frame_id m) (vg_origin m) (vg_cell_size m)
        (vg_column_count m) (vg_row_count m) (wrap 32 v) (vg_cell_stride m) (vg_row_stride m)
        (vg_slice_stride m) (vg_fields m) (vg_data m)) m r
    else (false, m, r)
  else if tag_field tag =? 8 then
    if wt_eqb (tag_type tag) kVarint then read_into readVarint
      (fun v m => mkVoxelGrid (vg_timestamp_ns m) (vg_frame_id m) (vg_origin m) (vg_cell_size m)
        (vg_column_count m) (vg_row_count m) (vg_slice_count m) (wrap 32 v) (vg_row_stride m)
        (vg_slice_stride m) (vg_fields m) (vg_data m)) m r
    else (false, m, r)
  else if tag_field tag =? 9 then
    if wt_eqb (tag_type tag) kVarint then read_into readVarint
      (fun v m => mkVoxelGrid (vg_timestamp_ns m) (vg_frame_id m) (vg_origin m) (vg_cell_size m)
        (vg_column_count m) (vg_row_count m) (vg_slice_count m) (vg_cell_stride m) (wrap 32 v)
        (vg_slice_stride m) (vg_fields m) (vg_data m)) m r
    else (false, m, r)
  else if tag_field tag =? 10 then
    if wt_eqb (tag_type tag) kVarint then read_into readVarint
      (fun v m => mkVoxelGrid (vg_timestamp_ns m) (vg_frame_id m) (vg_origin m) (vg_cell_size m)
        (vg_column_count m) (vg_row_count m) (vg_slice_count m) (vg_cell_stride m) (vg_row_stride
        m) (wrap 32 v) (vg_fields m) (vg_data m)) m r
    else (false, m, r)
  else if tag_field tag =? 11 then
    if wt_eqb (tag_type tag) kLengthDelimited then read_push decodePointField point_field_default
      (fun v m => mkVoxelGrid (vg_timestamp_ns m) (vg_frame_id m) (vg_origin m) (vg_cell_size m)
        (vg_column_count m) (vg_row_count m) (vg_slice_count m) (vg_cell_stride m) (vg_row_stride
        m) (vg_slice_stride m) (vg_fields m ++ [v]) (vg_data m)) m r
    else (false, m, r)
  else if tag_field tag =? 12 then
    if wt_eqb (tag_type tag) kLengthDelimited then read_into readBytes
      (fun v m => mkVoxelGrid (vg_timestamp_ns m) (vg_frame_id m) (vg_origin m) (vg_cell_size m)
        (vg_column_count m) (vg_row_count m) (vg_slice_count m) (vg_cell_stride m) (vg_row_stride
        m) (vg_slice_stride m) (vg_fields m) v) m r
    else (false, m, r)
  else (false, m, r).

Definition deserializeVoxelGrid : bytes -> Expected VoxelGrid :=
  deserialize "VoxelGrid" voxel_grid_handler voxel_grid_default.

Definition voxel_grid_wf (m : VoxelGrid) : Prop :=
  in_s 64 (vg_timestamp_ns m) /\ pose_wf (vg_origin m) /\ vector3_wf (vg_cell_size m) /\ in_u 32
  (vg_column_count m) /\ in_u 32 (vg_row_count m) /\ in_u 32 (vg_slice_count m) /\ in_u 32
  (vg_cell_stride m) /\ in_u 32 (vg_row_stride m) /\ in_u 32 (vg_slice_stride m) /\ Forall
  point_field_wf (vg_fields m).

#[export] Instance voxel_grid_consumes : Consumes voxel_grid_handler.
Proof. unfold voxel_grid_handler. solve_consumes. Qed.

(** ** GridMap *)

Record GridMap : Set := mkGridMap {
  gm_timestamp_ns : Z; gm_frame_id : bytes; gm_origin : Pose; gm_cell_size : Vector2;
  gm_column_count : Z; gm_row_count : Z; gm_cell_stride : Z; gm_row_stride : Z; gm_fields : list
  PointField; gm_data : bytes }.

Definition grid_map_default : GridMap := mkGridMap 0 [] pose_default vector2_default 0 0 0 0 [] [].

Definition writeGridMap (m : GridMap) : wop :=
  message 1 (writeTimestamp (gm_timestamp_ns m))
  ;> wstring 2 (gm_frame_id m)
  ;> message 3 (writePose (gm_origin m))
  ;> message 4 (writeVector2 (gm_cell_size m))
  ;> varint 5 (gm_column_count m)
  ;> varint 6 (gm_row_count m)
  ;> varint 7 (gm_cell_stride m)
  ;> varint 8 (gm_row_stride m)
  ;> appendAll (fun field => message 9 (writePointField field)) (gm_fields m)
  ;> wbytes 10 (gm_data m).

Definition serializeGridMap (m : GridMap) : bytes := writeGridMap m [].

Definition grid_map_handler : handler GridMap := fun tag m r =>
  if tag_field tag =? 1 then
    if wt_eqb (tag_type tag) kLengthDelimited then read_nested decodeTimestamp gm_timestamp_ns
      (fun v m => mkGridMap v (gm_frame_id m) (gm_origin m) (gm_cell_size m) (gm_column_count m)
        (gm_row_count m) (gm_cell_stride m) (gm_row_stride m) (gm_fields m) (gm_data m)) m r
    else (false, m, r)
  else if tag_field tag =? 2 then
    if wt_eqb (tag_type tag) kLengthDelimited then read_into readString
      (fun v m => mkGridMap (gm_timestamp_ns m) v (gm_origin m) (gm_cell_size m) (gm_column_count
        m) (gm_row_count m) (gm_cell_stride m) (gm_row_stride m) (gm_fields m) (gm_data m)) m r
    else (false, m, r)
  else if tag_field tag =? 3 then
    if wt_eqb (tag_type tag) kLengthDelimited then read_nested decodePose gm_origin
      (fun v m => mkGridMap (gm_timestamp_ns m) (gm_frame_id m) v (gm_cell_size m)
        (gm_column_count m) (gm_row_count m) (gm_cell_stride m) (gm_row_stride m) (gm_fields m)
        (gm_data m)) m r
    else (false, m, r)
  else if tag_field tag =? 4 then
    if wt_eqb (tag_type tag) kLengthDelimited then read_nested decodeVector2 gm_cell_size
      (fun v m => mkGridMap (gm_timestamp_ns m) (gm_frame_id m) (gm_origin m) v (gm_column_count
        m) (gm_row_count m) (gm_cell_stride m) (gm_row_stride m) (gm_fields m) (gm_data m)) m r
    else (false, m, r)
  else if tag_field tag =? 5 then
    if wt_eqb (tag_type tag) kVarint then read_into readVarint
      (fun v m => mkGridMap (gm_timestamp_ns m) (gm_frame_id m) (gm_origin m) (gm_cell_size m)
        (wrap 32 v) (gm_row_count m) (gm_cell_stride m) (gm_row_stride m) (gm_fields m) (gm_data
        m)) m r
    else (false, m, r)
  else if tag_field tag =? 6 then
    if wt_eqb (tag_type tag) kVarint then read_into readVarint
      (fun v m => mkGridMap (gm_timestamp_ns m) (gm_frame_id m) (gm_origin m) (gm_cell_size m)
        (gm_column_count m) (wrap 32 v) (gm_cell_stride m) (gm_row_stride m) (gm_fields m)
        (gm_data m)) m r
    else (false, m, r)
  else if tag_field tag =? 7 then
    if wt_eqb (tag_type tag) kVarint then read_into readVarint
      (fun v m => mkGridMap (gm_timestamp_ns m) (gm_frame_id m) (gm_origin m) (gm_cell_size m)
        (gm_column_count m) (gm_row_count m) (wrap 32 v) (gm_row_stride m) (gm_fields m) (gm_data
        m)) m r
    else (false, m, r)
  else if tag_field tag =? 8 then
    if wt_eqb (tag_type tag) kVarint then read_into readVarint
      (fun v m => mkGridMap (gm_timestamp_ns m) (gm_frame_id m) (gm_origin m) (gm_cell_size m)
        (gm_column_count m) (gm_row_count m) (gm_cell_stride m) (wrap 32 v) (gm_fields m)
        (gm_data m)) m r
    else (false, m, r)
  else if tag_field tag =? 9 then
    if wt_eqb (tag_type tag) kLengthDelimited then read_push decodePointField point_field_default
      (fun v m => mkGridMap (gm_timestamp_ns m) (gm_frame_id m) (gm_origin m) (gm_cell_size m)
        (gm_column_count m) (gm_row_count m) (gm_cell_stride m) (gm_row_stride m) (gm_fields m ++
        [v]) (gm_data m)) m r
    else (false, m, r)
  else if tag_field tag =? 10 then
    if wt_eqb (tag_type tag) kLengthDelimited then read_into readBytes
      (fun v m => mkGridMap (gm_timestamp_ns m) (gm_frame_id m) (gm_origin m) (gm_cell_size m)
        (gm_column_count m) (gm_row_count m) (gm_cell_stride m) (gm_row_stride m) (gm_fields m)
        v) m r
    else (false, m, r)
  else (false, m, r).

(** The message texts name the field. *)
Definition grid_field_error (name : bytes) (what : string) : string :=
  "GridMap: field '" +:+ String.string_of_list_byte name +:+ "' " +:+ what.

(** The loop over the fields. The sums are [uint64_t] of [uint32_t] terms. *)
Fixpoint validate_fields (cell_stride : Z) (fields : list PointField) : Expected unit :=
  match fields with
  | [] => Ok tt
  | f :: rest =>
    match pf_datatype f with
    | dtUnknown => Err (grid_field_error (pf_name f) "has an unknown datatype")
    | dt =>
      if pf_count f =? 0 then Err (grid_field_error (pf_name f) "has a zero count")
      else if wrap 64 (pf_offset f + wrap 64 (bytesPerElement dt * pf_count f)) >? cell_stride
      then Err (grid_field_error (pf_name f) "reaches past cell_stride")
      else validate_fields cell_stride rest
    end
  end.

Definition validateLayout (grid : GridMap) (check_data : bool) : Expected unit :=
  let? _ := validate_fields (gm_cell_stride grid) (gm_fields grid) in
  if negb ((gm_column_count grid >? 0) && (gm_row_count grid >? 0)) then Ok tt
  else if (gm_cell_stride grid =? 0) || (gm_row_stride grid =? 0)
  then Err "GridMap: zero stride with cells declared"
  else if gm_row_stride grid <? wrap 64 (gm_column_count grid * gm_cell_stride grid)
  then Err "GridMap: row_stride shorter than column_count * cell_stride"
  else if check_data &&
       (Z.of_nat (length (gm_data grid)) <? wrap 64 (gm_row_count grid * gm_row_stride grid))
  then Err "GridMap: data shorter than row_count * row_stride"
  else Ok tt.

Definition validateGridMap (grid : GridMap) : Expected unit := validateLayout grid true.

Definition deserializeGridMap (data : bytes) : Expected GridMap :=
  let? grid := deserialize "GridMap" grid_map_handler grid_map_default data in
  let? _ := validateLayout grid (negb (length (gm_data grid) =? 0)%nat) in Ok grid.

Definition grid_map_wf (m : GridMap) : Prop :=
  in_s 64 (gm_timestamp_ns m) /\ pose_wf (gm_origin m) /\ vector2_wf (gm_cell_size m) /\ in_u 32
  (gm_column_count m) /\ in_u 32 (gm_row_count m) /\ in_u 32 (gm_cell_stride m) /\ in_u 32
  (gm_row_stride m) /\ Forall point_field_wf (gm_fields m).

#[export] Instance grid_map_consumes : Consumes grid_map_handler.
Proof. unfold grid_map_handler. solve_consumes. Qed.

(** ** Encodings *)

Lemma datatype_roundtrip dt : pointFieldDatatypeFromWire (pointFieldDatatypeToWire dt) = dt.
Proof. by destruct dt. Qed.

#[export] Instance point_field_codec : Codec point_field_wf writePointField decodePointField.
Proof.
  apply codec_of_encodes; [intros; unfold writePointField; apply _|].
  intros a0 [n o dt c] [Ho Hc]. cbn in Ho, Hc. unfold writePointField. cbn.
  assert (in_u 64 (pointFieldDatatypeToWire dt)) by (destruct dt; unfold in_u; simpl; lia).
  eapply encodes_seq; [apply _|eapply encodes_eq; [encodes_field|cbn; reflexivity]|].
  do 2 (eapply encodes_seq; [apply _|encodes_raw_varint point_field_handler|]).
  encodes_raw_varint point_field_handler.
  cbn. rewrite datatype_roundtrip. by rewrite !wrap_small by done.
Qed.

(** A repeated field of point fields, pushed one by one. *)
Lemma encodes_point_fields {St} (h : handler St) `{!Consumes h} (push : PointField -> St -> St) f l s :
  field_ok f -> Forall point_field_wf l ->
  (forall s r, h (mkTag f kLengthDelimited) s r
             = read_push decodePointField point_field_default push s r) ->
  encodes h (appendAll (fun field => message f (writePointField field)) l) s
    (foldl (fun s a => push a s) s l).
Proof.
  intros Hf Hl Hh. rewrite Forall_forall in Hl.
  apply (encodes_all h (fun field => message f (writePointField field)) (fun s a => push a s));
    try apply _.
  intros a s0 Ha. eapply (encodes_push h point_field_default push); [done|by apply Hl|done].
Qed.

(** The pushes of a repeated field append its elements in order. *)
Lemma foldl_push {St} (push : PointField -> St -> St) (build : list PointField -> St) acc l :
  (forall a k, push a (build k) = build (k ++ [a])) ->
  foldl (fun s a => push a s) (build acc) l = build (acc ++ l).
Proof.
  intros Hp. revert acc. induction l as [|a l IH]; intros acc; cbn [foldl]; [by rewrite app_nil_r|].
  by rewrite Hp, IH, <-app_assoc.
Qed.

(** The fields before the repeated one, the repeated one, the fields after it;
    [build] is the message as a function of its point fields. *)
Ltac encodes_points build :=
  eapply encodes_seq;
    [apply _
    |eapply encodes_eq;
      [eapply encodes_point_fields; [apply _|solve_field_ok|done|intros; eval_tag; reflexivity]
      |etransitivity; [apply (foldl_push _ build []); reflexivity|cbn; reflexivity]]
    |].

Ltac encodes_before_points :=
  repeat lazymatch goal with
  | |- encodes _ (appendAll _ _ ;> _) _ _ => fail
  | |- encodes _ (_ ;> _) _ _ =>
    eapply encodes_seq; [apply _|eapply encodes_eq; [encodes_field|cbn; reflexivity]|]
  end.

Lemma encodes_point_cloud m :
  point_cloud_wf m -> encodes point_cloud_handler (writePointCloud m) point_cloud_default m.
Proof.
  destruct m as [w h ps rs be dn fr fs d t]. unfold point_cloud_wf, writePointCloud. intros.
  repeat match goal with H : _ /\ _ |- _ => destruct H end. cbn in *. encodes_before_points.
  encodes_points (fun k => mkPointCloud (wrap 32 w) (wrap 32 h) (wrap 32 ps) (wrap 32 rs)
    (negb ((if be then 1 else 0) =? 0)) (negb ((if dn then 1 else 0) =? 0)) [] k [] t).
  solve_encodes. cbn. by rewrite !wrap_small, !bool_roundtrip by done.
Qed.

Lemma encodes_voxel_grid m :
  voxel_grid_wf m -> encodes voxel_grid_handler (writeVoxelGrid m) voxel_grid_default m.
Proof.
  destruct m as [t fr o cs cc rc sc ce ro sl fs d]. unfold voxel_grid_wf, writeVoxelGrid. intros.
  repeat match goal with H : _ /\ _ |- _ => destruct H end. cbn in *. encodes_before_points.
  encodes_points (fun k => mkVoxelGrid t fr o cs (wrap 32 cc) (wrap 32 rc) (wrap 32 sc)
    (wrap 32 ce) (wrap 32 ro) (wrap 32 sl) k []).
  solve_encodes. cbn. by rewrite !wrap_small by done.
Qed.

Lemma encodes_grid_map m :
  grid_map_wf m -> encodes grid_map_handler (writeGridMap m) grid_map_default m.
Proof.
  destruct m as [t fr o cs cc rc ce ro fs d]. unfold grid_map_wf, writeGridMap. intros.
  repeat match goal with H : _ /\ _ |- _ => destruct H end. cbn in *. encodes_before_points.
  encodes_points (fun k => mkGridMap t fr o cs (wrap 32 cc) (wrap 32 rc) (wrap 32 ce)
    (wrap 32 ro) k []).
  solve_encodes. cbn. by rewrite !wrap_small by done.
Qed.

(** ** Layout of a decoded grid map *)

(** The integers of a grid map have the width of their C++ type. *)
Definition grid_map_ranges (g : GridMap) : Prop :=
  in_u 32 (gm_column_count g) /\ in_u 32 (gm_row_count g) /\ in_u 32 (gm_cell_stride g) /\
  in_u 32 (gm_row_stride g) /\ Forall point_field_wf (gm_fields g).

#[export] Instance point_field_preserves : Preserves point_field_wf point_field_handler.
Proof.
  intros t f r [Ho Hc]. assert (forall v, in_u 32 (wrap 32 v)) as Hw by (intros; by apply wrap_range).
  unfold point_field_handler. case_match.
  - case_match; [|done]. by apply read_into_preserves.
  - case_match; [done|]. destruct (readVarint r) as [[v|] r']; [|done].
    repeat case_match; cbn; by split; cbn.
Qed.

#[export] Instance grid_map_preserves : Preserves grid_map_ranges grid_map_handler.
Proof.
  intros t g r Hg. destruct Hg as (? & ? & ? & ? & ?) eqn:Eg. clear Eg.
  assert (forall v, in_u 32 (wrap 32 v)) as Hw by (intros; by apply wrap_range).
  unfold grid_map_handler.
  repeat (case_match; [case_match; [|done]|]); try done;
    try (apply read_into_preserves; [by intros; unfold grid_map_ranges; cbn; auto|done]);
    try (apply read_nested_preserves; [by intros; unfold grid_map_ranges; cbn; auto|done]).
  apply (read_push_preserves _ point_field_wf); [|intros a Ha|done].
  - intros d. apply (parseFields_preserves point_field_wf point_field_handler). split; by_compute.
  - unfold grid_map_ranges. cbn. split_and!; try done. apply Forall_app. by split; [|constructor].
Qed.

Lemma validate_fields_ok cs fs :
  validate_fields cs fs = Ok tt -> in_u 32 cs -> Forall point_field_wf fs ->
  Forall (fun f => 0 < bytesPerElement (pf_datatype f) * pf_count f /\
                   0 <= pf_offset f /\
                   pf_offset f + bytesPerElement (pf_datatype f) * pf_count f <= cs) fs.
Proof.
  intros Hv Hcs Hfs. induction Hfs as [|f fs [Ho Hc] Hfs IH]; [constructor|].
  cbn [validate_fields] in Hv. unfold in_u in *. change (2 ^ 32) with 4294967296 in *.
  destruct (pf_datatype f) eqn:E; [done|..]; (destruct (pf_count f =? 0) eqn:E0; [done|]);
    cbn [bytesPerElement] in *;
    rewrite (wrap_small 64 (_ * pf_count f)) in Hv
      by (unfold in_u; change (2 ^ 64) with 18446744073709551616; lia);
    rewrite (wrap_small 64) in Hv
      by (unfold in_u; change (2 ^ 64) with 18446744073709551616; lia);
    (destruct (_ >? _) eqn:E1; [done|]); (constructor; [rewrite ?E; cbn [bytesPerElement]; blia|by apply IH]).
Qed.

(** A decoded grid map that carries data can be indexed safely: for every
    row, column and field, the bytes of the field's record lie inside the data
    buffer (and inside the cell they belong to). *)
Theorem grid_map_access_in_bounds data g row col f :
  deserializeGridMap data = Ok g -> gm_data g <> [] -> f ∈ gm_fields g ->
  0 <= row < gm_row_count g -> 0 <= col < gm_column_count g ->
  let cell := row * gm_row_stride g + col * gm_cell_stride g in
  let last := cell + pf_offset f + bytesPerElement (pf_datatype f) * pf_count f in
  0 <= cell + pf_offset f < last /\ last <= cell + gm_cell_stride g /\
  last <= Z.of_nat (length (gm_data g)).
Proof.
  intros Hd Hne Hf Hrow Hcol. unfold deserializeGridMap, deserialize in Hd.
  destruct (eof data); [done|].
  pose proof (parseFields_preserves grid_map_ranges grid_map_handler grid_map_default data) as Hr.
  destruct (parseFields _ _ data) as [[[|] g'] r'] eqn:E; [|done]. cbn [ebind fst snd] in *.
  destruct (validateLayout _ _) as [u|] eqn:Ev; [|done]. injection Hd as <-. cbn [fst snd] in *.
  destruct Hr as (Hc & Hrc & Hcs & Hrs & Hfs); [unfold grid_map_ranges; by_compute|].
  rewrite (proj2 (Nat.eqb_neq _ 0)) in Ev by (by destruct (gm_data g')).
  unfold validateLayout in Ev. destruct (validate_fields _ _) as [[]|] eqn:Evf; [|done].
  apply validate_fields_ok in Evf; [|done..]. rewrite Forall_forall in Evf.
  destruct (Evf f Hf) as (Hp & Ho & Hend). cbn [ebind] in Ev.
  destruct (negb _) eqn:E1; [blia|]. destruct (_ || _) eqn:E2; [done|].
  unfold in_u in *. change (2 ^ 32) with 4294967296 in *.
  rewrite !(wrap_small 64) in Ev by (unfold in_u; change (2 ^ 64) with 18446744073709551616; nia).
  destruct (gm_row_stride g' <? _) eqn:E3; [done|]. cbn [negb andb] in Ev.
  destruct (Z.of_nat _ <? _) eqn:E4; [done|].
  bprop. cbv zeta.
  assert (row * gm_row_stride g' + gm_row_stride g' <= gm_row_count g' * gm_row_stride g') by nia.
  assert (col * gm_cell_stride g' + gm_cell_stride g' <= gm_column_count g' * gm_cell_stride g') by nia.
  assert (0 <= row * gm_row_stride g' /\ 0 <= col * gm_cell_stride g') by nia.
  generalize dependent (bytesPerElement (pf_datatype f) * pf_count f). intros.
  split_and!; lia.
Qed.

(** A layout that fails validation: the row stride is shorter than a row. *)
Definition sample_grid (row_stride : Z) : GridMap :=
  mkGridMap (-3) (str "map") pose_default (mkVector2 1 2) 2 2 5 row_stride
    [mkPointField (str "h") 0 dtFloat32 1; mkPointField (str "c") 4 dtUint8 1]
    (repeat Byte.x07 20).

Lemma grid_map_access_in_bounds_witness :
  let f := mkPointField (str "c") 4 dtUint8 1 in
  deserializeGridMap (serializeGridMap (sample_grid 10)) = Ok (sample_grid 10) /\
  1 * 10 + 1 * 5 + 4 + bytesPerElement (pf_datatype f) * pf_count f
    <= Z.of_nat (length (gm_data (sample_grid 10))).
Proof.
  intros f.
  assert (deserializeGridMap (serializeGridMap (sample_grid 10)) = Ok (sample_grid 10)) as H
    by (vm_compute; reflexivity).
  split; [exact H|].
  pose proof (grid_map_access_in_bounds (serializeGridMap (sample_grid 10)) (sample_grid 10) 1 1 f
    H ltac:(discriminate) ltac:(constructor 2; constructor 1) ltac:(cbn; lia) ltac:(cbn; lia)) as (_ & _ & Hl).
  exact Hl.
Defined.

(** ** Round trips *)

Lemma deserialize_grid_map_written m :
  grid_map_wf m -> fits (serializeGridMap m) ->
  deserialize "GridMap" grid_map_handler grid_map_default (serializeGridMap m) = Ok m.
Proof. intros Hwf Hfit. by_encodes encodes_grid_map. Qed.

(** C5 Point clouds and voxel grids survive serialization with their packed
    bytes and field tables; of the grid maps exactly those survive whose strides
    and record layout agree with the counts and, when there is data, with its
    size: the others are rejected with the error of the layout check. *)
Theorem point_codecs_roundtrip :
  (forall m, point_cloud_wf m -> fits (serializePointCloud m) ->
     deserializePointCloud (serializePointCloud m) = Ok m) /\
  (forall m, voxel_grid_wf m -> fits (serializeVoxelGrid m) ->
     deserializeVoxelGrid (serializeVoxelGrid m) = Ok m) /\
  (forall m, grid_map_wf m -> fits (serializeGridMap m) ->
     deserializeGridMap (serializeGridMap m)
       = match validateLayout m (negb (length (gm_data m) =? 0)%nat) with
         | Ok _ => Ok m
         | Err e => Err e
         end).
Proof.
  split_and!; intros m Hwf Hfit; [by_encodes encodes_point_cloud|by_encodes encodes_voxel_grid|].
  unfold deserializeGridMap. rewrite deserialize_grid_map_written by done. cbn [ebind].
  by destruct (validateLayout _ _).
Qed.

Lemma point_codecs_roundtrip_witness :
  deserializeGridMap (serializeGridMap (sample_grid 10)) = Ok (sample_grid 10) /\
  deserializeGridMap (serializeGridMap (sample_grid 9))
    = Err "GridMap: row_stride shorter than column_count * cell_stride".
Proof.
  destruct point_codecs_roundtrip as (_ & _ & H).
  assert (forall k, in_u 32 k -> grid_map_wf (sample_grid k)) as Hwf.
  { intros k Hk. unfold grid_map_wf, pose_wf, vector3_wf, quaternion_wf, vector2_wf, sample_grid.
    cbn [gm_row_stride]. split_and!; try exact Hk; by_compute. }
  split.
  - rewrite (H (sample_grid 10) (Hwf 10 ltac:(by_compute)) ltac:(vm_compute; reflexivity)).
    vm_compute. reflexivity.
  - rewrite (H (sample_grid 9) (Hwf 9 ltac:(by_compute)) ltac:(vm_compute; reflexivity)).
    vm_compute. reflexivity.
Defined.
