(* ===== verification/SceneCodecs.v ===== *)
(** * SceneCodecs: scenes of primitives and meshes

    [pj_base/src/builtin/]: [scene_entities_codec.cpp] and [mesh3d_codec.cpp], with the
    data of [pj_base/builtin/scene_entities.hpp] and [mesh3d.hpp].  Lengths and
    coordinates are bit patterns of doubles. *)

From S2P Require Import Prelude Doubles TimeMath ProtobufWire FieldLoop GeometryCodec ColorCodec MessageCodecs SensorCodecs.

(** ** Enumerations *)

Inductive LineType : Set := kLineStrip | kLineLoop | kLineList.

Definition lineTypeToWire (type : LineType) : Z := match type with kLineStrip => 1 | kLineLoop => 2 | kLineList => 3 end.

Definition lineTypeFromWire (value : Z) : LineType :=
  if value =? 2 then kLineLoop else if value =? 3 then kLineList else kLineStrip.

(** [SceneEntityDeletion::Type] *)
Inductive DeletionType : Set := kMatchingId | kAll.

Definition deletion_to_wire (type : DeletionType) : Z := match type with kMatchingId => 0 | kAll => 1 end.

Definition deletion_from_wire (value : Z) : DeletionType := if value =? 1 then kAll else kMatchingId.

(** ** Primitives *)

(** *** KeyValuePair *)

Record KeyValuePair : Type := mkKeyValuePair {
  kv_key : bytes; kv_value : bytes }.

Definition key_value_default : KeyValuePair :=
  mkKeyValuePair [] [].

Definition writeKeyValuePair (m : KeyValuePair) : wop :=
  wstring 1 (kv_key m)
  ;> wstring 2 (kv_value m).

Definition key_value_handler : handler KeyValuePair := fun tag m r =>
  if negb (wt_eqb (tag_type tag) kLengthDelimited) then (false, m, r)
  else if tag_field tag =? 1 then
    read_into readString (fun v m => mkKeyValuePair v (kv_value m)) m r
  else if tag_field tag =? 2 then
    read_into readString (fun v m => mkKeyValuePair (kv_key m) v) m r
  else (false, m, r).

Definition decodeKeyValuePair : decoder KeyValuePair := parseFields key_value_handler.

Definition key_value_wf (m : KeyValuePair) : Prop :=
  True.

#[export] Instance key_value_consumes : Consumes key_value_handler.
Proof. unfold key_value_handler. solve_consumes. Qed.

(** *** ArrowPrimitive *)

Record ArrowPrimitive : Type := mkArrowPrimitive {
  ar_pose : Pose; ar_shaft_length : Z; ar_shaft_diameter : Z; ar_head_length : Z; ar_head_diameter : Z;
  ar_color : ColorRGBA }.

Definition arrow_default : ArrowPrimitive :=
  mkArrowPrimitive pose_default 0 0 0 0 color_default.

Definition writeArrowPrimitive (m : ArrowPrimitive) : wop :=
  message 1 (writePose (ar_pose m))
  ;> doubleField 2 (ar_shaft_length m)
  ;> doubleField 3 (ar_shaft_diameter m)
  ;> doubleField 4 (ar_head_length m)
  ;> doubleField 5 (ar_head_diameter m)
  ;> message 6 (writeColor (ar_color m)).

Definition arrow_handler : handler ArrowPrimitive := fun tag m r =>
  if tag_field tag =? 1 then
    if wt_eqb (tag_type tag) kLengthDelimited then
      read_nested decodePose ar_pose (fun v m => mkArrowPrimitive v (ar_shaft_length m) (ar_shaft_diameter
        m) (ar_head_length m) (ar_head_diameter m) (ar_color m)) m r
    else (false, m, r)
  else if tag_field tag =? 2 then
    if wt_eqb (tag_type tag) kFixed64 then
      read_into readDouble (fun v m => mkArrowPrimitive (ar_pose m) v (ar_shaft_diameter m) (ar_head_length
        m) (ar_head_diameter m) (ar_color m)) m r
    else (false, m, r)
  else if tag_field tag =? 3 then
    if wt_eqb (tag_type tag) kFixed64 then
      read_into readDouble (fun v m => mkArrowPrimitive (ar_pose m) (ar_shaft_length m) v (ar_head_length m)
        (ar_head_diameter m) (ar_color m)) m r
    else (false, m, r)
  else if tag_field tag =? 4 then
    if wt_eqb (tag_type tag) kFixed64 then
      read_into readDouble (fun v m => mkArrowPrimitive (ar_pose m) (ar_shaft_length m) (ar_shaft_diameter
        m) v (ar_head_diameter m) (ar_color m)) m r
    else (false, m, r)
  else if tag_field tag =? 5 then
    if wt_eqb (tag_type tag) kFixed64 then
      read_into readDouble (fun v m => mkArrowPrimitive (ar_pose m) (ar_shaft_length m) (ar_shaft_diameter
        m) (ar_head_length m) v (ar_color m)) m r
    else (false, m, r)
  else if tag_field tag =? 6 then
    if wt_eqb (tag_type tag) kLengthDelimited then
      read_nested decodeColor ar_color (fun v m => mkArrowPrimitive (ar_pose m) (ar_shaft_length m)
        (ar_shaft_diameter m) (ar_head_length m) (ar_head_diameter m) v) m r
    else (false, m, r)
  else (false, m, r).

Definition decodeArrowPrimitive : decoder ArrowPrimitive := parseFields arrow_handler.

Definition arrow_wf (m : ArrowPrimitive) : Prop :=
  pose_wf (ar_pose m) /\ in_u 64 (ar_shaft_length m) /\ in_u 64 (ar_shaft_diameter m) /\ in_u 64
  (ar_head_length m) /\ in_u 64 (ar_head_diameter m) /\ color_wf (ar_color m).

#[export] Instance arrow_consumes : Consumes arrow_handler.
Proof. unfold arrow_handler. solve_consumes. Qed.

(** *** CubePrimitive *)

Record CubePrimitive : Type := mkCubePrimitive {
  cu_pose : Pose; cu_size : Vector3; cu_color : ColorRGBA }.

Definition cube_default : CubePrimitive :=
  mkCubePrimitive pose_default vector3_default color_default.

Definition writeCubePrimitive (m : CubePrimitive) : wop :=
  message 1 (writePose (cu_pose m))
  ;> message 2 (writeVector3 (cu_size m))
  ;> message 3 (writeColor (cu_color m)).

Definition cube_handler : handler CubePrimitive := fun tag m r =>
  if negb (wt_eqb (tag_type tag) kLengthDelimited) then (false, m, r)
  else if tag_field tag =? 1 then
    read_nested decodePose cu_pose (fun v m => mkCubePrimitive v (cu_size m) (cu_color m)) m r
  else if tag_field tag =? 2 then
    read_nested decodeVector3 cu_size (fun v m => mkCubePrimitive (cu_pose m) v (cu_color m)) m r
  else if tag_field tag =? 3 then
    read_nested decodeColor cu_color (fun v m => mkCubePrimitive (cu_pose m) (cu_size m) v) m r
  else (false, m, r).

Definition decodeCubePrimitive : decoder CubePrimitive := parseFields cube_handler.

Definition cube_wf (m : CubePrimitive) : Prop :=
  pose_wf (cu_pose m) /\ vector3_wf (cu_size m) /\ color_wf (cu_color m).

#[export] Instance cube_consumes : Consumes cube_handler.
Proof. unfold cube_handler. solve_consumes. Qed.

(** *** SpherePrimitive *)

Record SpherePrimitive : Type := mkSpherePrimitive {
  sp_pose : Pose; sp_size : Vector3; sp_color : ColorRGBA }.

Definition sphere_default : SpherePrimitive :=
  mkSpherePrimitive pose_default vector3_default color_default.

Definition writeSpherePrimitive (m : SpherePrimitive) : wop :=
  message 1 (writePose (sp_pose m))
  ;> message 2 (writeVector3 (sp_size m))
  ;> message 3 (writeColor (sp_color m)).

Definition sphere_handler : handler SpherePrimitive := fun tag m r =>
  if negb (wt_eqb (tag_type tag) kLengthDelimited) then (false, m, r)
  else if tag_field tag =? 1 then
    read_nested decodePose sp_pose (fun v m => mkSpherePrimitive v (sp_size m) (sp_color m)) m r
  else if tag_field tag =? 2 then
    read_nested decodeVector3 sp_size (fun v m => mkSpherePrimitive (sp_pose m) v (sp_color m)) m r
  else if tag_field tag =? 3 then
    read_nested decodeColor sp_color (fun v m => mkSpherePrimitive (sp_pose m) (sp_size m) v) m r
  else (false, m, r).

Definition decodeSpherePrimitive : decoder SpherePrimitive := parseFields sphere_handler.

Definition sphere_wf (m : SpherePrimitive) : Prop :=
  pose_wf (sp_pose m) /\ vector3_wf (sp_size m) /\ color_wf (sp_color m).

#[export] Instance sphere_consumes : Consumes sphere_handler.
Proof. unfold sphere_handler. solve_consumes. Qed.

(** *** CylinderPrimitive *)

Record CylinderPrimitive : Type := mkCylinderPrimitive {
  cy_pose : Pose; cy_size : Vector3; cy_bottom_scale : Z; cy_top_scale : Z; cy_color : ColorRGBA }.

Definition cylinder_default : CylinderPrimitive :=
  mkCylinderPrimitive pose_default vector3_default double_one double_one color_default.

Definition writeCylinderPrimitive (m : CylinderPrimitive) : wop :=
  message 1 (writePose (cy_pose m))
  ;> message 2 (writeVector3 (cy_size m))
  ;> doubleField 3 (cy_bottom_scale m)
  ;> doubleField 4 (cy_top_scale m)
  ;> message 5 (writeColor (cy_color m)).

Definition cylinder_handler : handler CylinderPrimitive := fun tag m r =>
  if tag_field tag =? 1 then
    if wt_eqb (tag_type tag) kLengthDelimited then
      read_nested decodePose cy_pose (fun v m => mkCylinderPrimitive v (cy_size m) (cy_bottom_scale m)
        (cy_top_scale m) (cy_color m)) m r
    else (false, m, r)
  else if tag_field tag =? 2 then
    if wt_eqb (tag_type tag) kLengthDelimited then
      read_nested decodeVector3 cy_size (fun v m => mkCylinderPrimitive (cy_pose m) v (cy_bottom_scale m)
        (cy_top_scale m) (cy_color m)) m r
    else (false, m, r)
  else if tag_field tag =? 3 then
    if wt_eqb (tag_type tag) kFixed64 then
      read_into readDouble (fun v m => mkCylinderPrimitive (cy_pose m) (cy_size m) v (cy_top_scale m)
        (cy_color m)) m r
    else (false, m, r)
  else if tag_field tag =? 4 then
    if wt_eqb (tag_type tag) kFixed64 then
      read_into readDouble (fun v m => mkCylinderPrimitive (cy_pose m) (cy_size m) (cy_bottom_scale m) v
        (cy_color m)) m r
    else (false, m, r)
  else if tag_field tag =? 5 then
    if wt_eqb (tag_type tag) kLengthDelimited then
      read_nested decodeColor cy_color (fun v m => mkCylinderPrimitive (cy_pose m) (cy_size m)
        (cy_bottom_scale m) (cy_top_scale m) v) m r
    else (false, m, r)
  else (false, m, r).

Definition decodeCylinderPrimitive : decoder CylinderPrimitive := parseFields cylinder_handler.

Definition cylinder_wf (m : CylinderPrimitive) : Prop :=
  pose_wf (cy_pose m) /\ vector3_wf (cy_size m) /\ in_u 64 (cy_bottom_scale m) /\ in_u 64 (cy_top_scale m) /\
  color_wf (cy_color m).

#[export] Instance cylinder_consumes : Consumes cylinder_handler.
Proof. unfold cylinder_handler. solve_consumes. Qed.

(** *** LinePrimitive *)

Record LinePrimitive : Type := mkLinePrimitive {
  ln_type : LineType; ln_pose : Pose; ln_thickness : Z; ln_scale_invariant : bool; ln_points : list Point3;
  ln_color : ColorRGBA; ln_colors : list ColorRGBA; ln_indices : list Z }.

Definition line_default : LinePrimitive :=
  mkLinePrimitive kLineStrip pose_default 0 false [] color_default [] [].

Definition ln_add_points (l : list Point3) (m : LinePrimitive) : LinePrimitive :=
  mkLinePrimitive (ln_type m) (ln_pose m) (ln_thickness m) (ln_scale_invariant m) (ln_points m ++ l) (ln_color
  m) (ln_colors m) (ln_indices m).
#[export] Instance ln_add_points_adds : Adds ln_add_points.
Proof. solve_adds. Qed.

Definition ln_add_colors (l : list ColorRGBA) (m : LinePrimitive) : LinePrimitive :=
  mkLinePrimitive (ln_type m) (ln_pose m) (ln_thickness m) (ln_scale_invariant m) (ln_points m) (ln_color m)
  (ln_colors m ++ l) (ln_indices m).
#[export] Instance ln_add_colors_adds : Adds ln_add_colors.
Proof. solve_adds. Qed.

Definition writeLinePrimitive (m : LinePrimitive) : wop :=
  varint 1 (lineTypeToWire (ln_type m))
  ;> message 2 (writePose (ln_pose m))
  ;> doubleField 3 (ln_thickness m)
  ;> varint 4 (if (ln_scale_invariant m) then 1 else 0)
  ;> appendAll (fun a => message 5 (writePoint3 a)) (ln_points m)
  ;> message 6 (writeColor (ln_color m))
  ;> appendAll (fun a => message 7 (writeColor a)) (ln_colors m)
  ;> packedFixed32 8 (ln_indices m).

Definition line_handler : handler LinePrimitive := fun tag m r =>
  if tag_field tag =? 1 then
    if wt_eqb (tag_type tag) kVarint then
      read_into readVarint (fun v m => mkLinePrimitive (lineTypeFromWire v) (ln_pose m) (ln_thickness m)
        (ln_scale_invariant m) (ln_points m) (ln_color m) (ln_colors m) (ln_indices m)) m r
    else (false, m, r)
  else if tag_field tag =? 2 then
    if wt_eqb (tag_type tag) kLengthDelimited then
      read_nested decodePose ln_pose (fun v m => mkLinePrimitive (ln_type m) v (ln_thickness m)
        (ln_scale_invariant m) (ln_points m) (ln_color m) (ln_colors m) (ln_indices m)) m r
    else (false, m, r)
  else if tag_field tag =? 3 then
    if wt_eqb (tag_type tag) kFixed64 then
      read_into readDouble (fun v m => mkLinePrimitive (ln_type m) (ln_pose m) v (ln_scale_invariant m)
        (ln_points m) (ln_color m) (ln_colors m) (ln_indices m)) m r
    else (false, m, r)
  else if tag_field tag =? 4 then
    if wt_eqb (tag_type tag) kVarint then
      read_into readVarint (fun v m => mkLinePrimitive (ln_type m) (ln_pose m) (ln_thickness m) (negb (v =?
        0)) (ln_points m) (ln_color m) (ln_colors m) (ln_indices m)) m r
    else (false, m, r)
  else if tag_field tag =? 5 then
    if wt_eqb (tag_type tag) kLengthDelimited then
      read_push decodePoint3 point3_default (fun v => ln_add_points [v]) m r
    else (false, m, r)
  else if tag_field tag =? 6 then
    if wt_eqb (tag_type tag) kLengthDelimited then
      read_nested decodeColor ln_color (fun v m => mkLinePrimitive (ln_type m) (ln_pose m) (ln_thickness m)
        (ln_scale_invariant m) (ln_points m) v (ln_colors m) (ln_indices m)) m r
    else (false, m, r)
  else if tag_field tag =? 7 then
    if wt_eqb (tag_type tag) kLengthDelimited then
      read_push decodeColor color_default (fun v => ln_add_colors [v]) m r
    else (false, m, r)
  else if tag_field tag =? 8 then
    if wt_eqb (tag_type tag) kLengthDelimited then
      read_packed readPackedFixed32 ln_indices (fun v m => mkLinePrimitive (ln_type m) (ln_pose m)
        (ln_thickness m) (ln_scale_invariant m) (ln_points m) (ln_color m) (ln_colors m) v) m r
    else (false, m, r)
  else (false, m, r).

Definition decodeLinePrimitive : decoder LinePrimitive := parseFields line_handler.

Definition line_wf (m : LinePrimitive) : Prop :=
  pose_wf (ln_pose m) /\ in_u 64 (ln_thickness m) /\ Forall point3_wf (ln_points m) /\ color_wf (ln_color m)
  /\ Forall color_wf (ln_colors m) /\ Forall (in_u 32) (ln_indices m).

#[export] Instance line_consumes : Consumes line_handler.
Proof. unfold line_handler. solve_consumes. Qed.

(** *** TrianglePrimitive *)

Record TrianglePrimitive : Type := mkTrianglePrimitive {
  tr_pose : Pose; tr_points : list Point3; tr_color : ColorRGBA; tr_colors : list ColorRGBA; tr_indices : list
  Z }.

Definition triangle_default : TrianglePrimitive :=
  mkTrianglePrimitive pose_default [] color_default [] [].

Definition tr_add_points (l : list Point3) (m : TrianglePrimitive) : TrianglePrimitive :=
  mkTrianglePrimitive (tr_pose m) (tr_points m ++ l) (tr_color m) (tr_colors m) (tr_indices m).
#[export] Instance tr_add_points_adds : Adds tr_add_points.
Proof. solve_adds. Qed.

Definition tr_add_colors (l : list ColorRGBA) (m : TrianglePrimitive) : TrianglePrimitive :=
  mkTrianglePrimitive (tr_pose m) (tr_points m) (tr_color m) (tr_colors m ++ l) (tr_indices m).
#[export] Instance tr_add_colors_adds : Adds tr_add_colors.
Proof. solve_adds. Qed.

Definition writeTrianglePrimitive (m : TrianglePrimitive) : wop :=
  message 1 (writePose (tr_pose m))
  ;> appendAll (fun a => message 2 (writePoint3 a)) (tr_points m)
  ;> message 3 (writeColor (tr_color m))
  ;> appendAll (fun a => message 4 (writeColor a)) (tr_colors m)
  ;> packedFixed32 5 (tr_indices m).

Definition triangle_handler : handler TrianglePrimitive := fun tag m r =>
  if negb (wt_eqb (tag_type tag) kLengthDelimited) then (false, m, r)
  else if tag_field tag =? 1 then
    read_nested decodePose tr_pose (fun v m => mkTrianglePrimitive v (tr_points m) (tr_color m) (tr_colors
      m) (tr_indices m)) m r
  else if tag_field tag =? 2 then
    read_push decodePoint3 point3_default (fun v => tr_add_points [v]) m r
  else if tag_field tag =? 3 then
    read_nested decodeColor tr_color (fun v m => mkTrianglePrimitive (tr_pose m) (tr_points m) v (tr_colors
      m) (tr_indices m)) m r
  else if tag_field tag =? 4 then
    read_push decodeColor color_default (fun v => tr_add_colors [v]) m r
  else if tag_field tag =? 5 then
    read_packed readPackedFixed32 tr_indices (fun v m => mkTrianglePrimitive (tr_pose m) (tr_points m)
      (tr_color m) (tr_colors m) v) m r
  else (false, m, r).

Definition decodeTrianglePrimitive : decoder TrianglePrimitive := parseFields triangle_handler.

Definition triangle_wf (m : TrianglePrimitive) : Prop :=
  pose_wf (tr_pose m) /\ Forall point3_wf (tr_points m) /\ color_wf (tr_color m) /\ Forall color_wf (tr_colors
  m) /\ Forall (in_u 32) (tr_indices m).

#[export] Instance triangle_consumes : Consumes triangle_handler.
Proof. unfold triangle_handler. solve_consumes. Qed.

(** *** TextPrimitive *)

Record TextPrimitive : Type := mkTextPrimitive {
  tx_pose : Pose; tx_billboard : bool; tx_font_size : Z; tx_scale_invariant : bool; tx_color : ColorRGBA;
  tx_text : bytes }.

Definition text_default : TextPrimitive :=
  mkTextPrimitive pose_default false 0 false color_default [].

Definition writeTextPrimitive (m : TextPrimitive) : wop :=
  message 1 (writePose (tx_pose m))
  ;> varint 2 (if (tx_billboard m) then 1 else 0)
  ;> doubleField 3 (tx_font_size m)
  ;> varint 4 (if (tx_scale_invariant m) then 1 else 0)
  ;> message 5 (writeColor (tx_color m))
  ;> wstring 6 (tx_text m).

Definition text_handler : handler TextPrimitive := fun tag m r =>
  if tag_field tag =? 1 then
    if wt_eqb (tag_type tag) kLengthDelimited then
      read_nested decodePose tx_pose (fun v m => mkTextPrimitive v (tx_billboard m) (tx_font_size m)
        (tx_scale_invariant m) (tx_color m) (tx_text m)) m r
    else (false, m, r)
  else if tag_field tag =? 2 then
    if wt_eqb (tag_type tag) kVarint then
      read_into readVarint (fun v m => mkTextPrimitive (tx_pose m) (negb (v =? 0)) (tx_font_size m)
        (tx_scale_invariant m) (tx_color m) (tx_text m)) m r
    else (false, m, r)
  else if tag_field tag =? 3 then
    if wt_eqb (tag_type tag) kFixed64 then
      read_into readDouble (fun v m => mkTextPrimitive (tx_pose m) (tx_billboard m) v (tx_scale_invariant m)
        (tx_color m) (tx_text m)) m r
    else (false, m, r)
  else if tag_field tag =? 4 then
    if wt_eqb (tag_type tag) kVarint then
      read_into readVarint (fun v m => mkTextPrimitive (tx_pose m) (tx_billboard m) (tx_font_size m) (negb
        (v =? 0)) (tx_color m) (tx_text m)) m r
    else (false, m, r)
  else if tag_field tag =? 5 then
    if wt_eqb (tag_type tag) kLengthDelimited then
      read_nested decodeColor tx_color (fun v m => mkTextPrimitive (tx_pose m) (tx_billboard m)
        (tx_font_size m) (tx_scale_invariant m) v (tx_text m)) m r
    else (false, m, r)
  else if tag_field tag =? 6 then
    if wt_eqb (tag_type tag) kLengthDelimited then
      read_into readString (fun v m => mkTextPrimitive (tx_pose m) (tx_billboard m) (tx_font_size m)
        (tx_scale_invariant m) (tx_color m) v) m r
    else (false, m, r)
  else (false, m, r).

Definition decodeTextPrimitive : decoder TextPrimitive := parseFields text_handler.

Definition text_wf (m : TextPrimitive) : Prop :=
  pose_wf (tx_pose m) /\ in_u 64 (tx_font_size m) /\ color_wf (tx_color m).

#[export] Instance text_consumes : Consumes text_handler.
Proof. unfold text_handler. solve_consumes. Qed.

(** *** AxesPrimitive *)

Record AxesPrimitive : Type := mkAxesPrimitive {
  ax_pose : Pose; ax_length : Z; ax_thickness : Z; ax_scale_invariant : bool }.

Definition axes_default : AxesPrimitive :=
  mkAxesPrimitive pose_default 0 0 false.

Definition writeAxesPrimitive (m : AxesPrimitive) : wop :=
  message 1 (writePose (ax_pose m))
  ;> doubleField 2 (ax_length m)
  ;> doubleField 3 (ax_thickness m)
  ;> varint 4 (if (ax_scale_invariant m) then 1 else 0).

Definition axes_handler : handler AxesPrimitive := fun tag m r =>
  if tag_field tag =? 1 then
    if wt_eqb (tag_type tag) kLengthDelimited then
      read_nested decodePose ax_pose (fun v m => mkAxesPrimitive v (ax_length m) (ax_thickness m)
        (ax_scale_invariant m)) m r
    else (false, m, r)
  else if tag_field tag =? 2 then
    if wt_eqb (tag_type tag) kFixed64 then
      read_into readDouble (fun v m => mkAxesPrimitive (ax_pose m) v (ax_thickness m) (ax_scale_invariant
        m)) m r
    else (false, m, r)
  else if tag_field tag =? 3 then
    if wt_eqb (tag_type tag) kFixed64 then
      read_into readDouble (fun v m => mkAxesPrimitive (ax_pose m) (ax_length m) v (ax_scale_invariant m)) m r
    else (false, m, r)
  else if tag_field tag =? 4 then
    if wt_eqb (tag_type tag) kVarint then
      read_into readVarint (fun v m => mkAxesPrimitive (ax_pose m) (ax_length m) (ax_thickness m) (negb (v
        =? 0))) m r
    else (false, m, r)
  else (false, m, r).

Definition decodeAxesPrimitive : decoder AxesPrimitive := parseFields axes_handler.

Definition axes_wf (m : AxesPrimitive) : Prop :=
  pose_wf (ax_pose m) /\ in_u 64 (ax_length m) /\ in_u 64 (ax_thickness m).

#[export] Instance axes_consumes : Consumes axes_handler.
Proof. unfold axes_handler. solve_consumes. Qed.

(** *** ModelPrimitive *)

Record ModelPrimitive : Type := mkModelPrimitive {
  mo_pose : Pose; mo_scale : Vector3; mo_color : ColorRGBA; mo_override_color : bool; mo_url : bytes;
  mo_media_type : bytes; mo_data : bytes }.

Definition model_default : ModelPrimitive :=
  mkModelPrimitive pose_default vector3_default color_default false [] [] [].

Definition writeModelPrimitive (m : ModelPrimitive) : wop :=
  message 1 (writePose (mo_pose m))
  ;> message 2 (writeVector3 (mo_scale m))
  ;> message 3 (writeColor (mo_color m))
  ;> varint 4 (if (mo_override_color m) then 1 else 0)
  ;> wstring 5 (mo_url m)
  ;> wstring 6 (mo_media_type m)
  ;> (if (length (mo_data m) =? 0)%nat then wskip else wbytes 7 (mo_data m)).

Definition model_handler : handler ModelPrimitive := fun tag m r =>
  if tag_field tag =? 1 then
    if wt_eqb (tag_type tag) kLengthDelimited then
      read_nested decodePose mo_pose (fun v m => mkModelPrimitive v (mo_scale m) (mo_color m)
        (mo_override_color m) (mo_url m) (mo_media_type m) (mo_data m)) m r
    else (false, m, r)
  else if tag_field tag =? 2 then
    if wt_eqb (tag_type tag) kLengthDelimited then
      read_nested decodeVector3 mo_scale (fun v m => mkModelPrimitive (mo_pose m) v (mo_color m)
        (mo_override_color m) (mo_url m) (mo_media_type m) (mo_data m)) m r
    else (false, m, r)
  else if tag_field tag =? 3 then
    if wt_eqb (tag_type tag) kLengthDelimited then
      read_nested decodeColor mo_color (fun v m => mkModelPrimitive (mo_pose m) (mo_scale m) v
        (mo_override_color m) (mo_url m) (mo_media_type m) (mo_data m)) m r
    else (false, m, r)
  else if tag_field tag =? 4 then
    if wt_eqb (tag_type tag) kVarint then
      read_into readVarint (fun v m => mkModelPrimitive (mo_pose m) (mo_scale m) (mo_color m) (negb (v =?
        0)) (mo_url m) (mo_media_type m) (mo_data m)) m r
    else (false, m, r)
  else if tag_field tag =? 5 then
    if wt_eqb (tag_type tag) kLengthDelimited then
      read_into readString (fun v m => mkModelPrimitive (mo_pose m) (mo_scale m) (mo_color m)
        (mo_override_color m) v (mo_media_type m) (mo_data m)) m r
    else (false, m, r)
  else if tag_field tag =? 6 then
    if wt_eqb (tag_type tag) kLengthDelimited then
      read_into readString (fun v m => mkModelPrimitive (mo_pose m) (mo_scale m) (mo_color m)
        (mo_override_color m) (mo_url m) v (mo_data m)) m r
    else (false, m, r)
  else if tag_field tag =? 7 then
    if wt_eqb (tag_type tag) kLengthDelimited then
      read_into readBytes (fun v m => mkModelPrimitive (mo_pose m) (mo_scale m) (mo_color m)
        (mo_override_color m) (mo_url m) (mo_media_type m) v) m r
    else (false, m, r)
  else (false, m, r).

Definition decodeModelPrimitive : decoder ModelPrimitive := parseFields model_handler.

Definition model_wf (m : ModelPrimitive) : Prop :=
  pose_wf (mo_pose m) /\ vector3_wf (mo_scale m) /\ color_wf (mo_color m).

#[export] Instance model_consumes : Consumes model_handler.
Proof. unfold model_handler. solve_consumes. Qed.

(** *** SceneEntityDeletion *)

Record SceneEntityDeletion : Type := mkSceneEntityDeletion {
  sd_type : DeletionType; sd_timestamp : Z; sd_id : bytes }.

Definition deletion_default : SceneEntityDeletion :=
  mkSceneEntityDeletion kMatchingId 0 [].

Definition writeSceneEntityDeletion (m : SceneEntityDeletion) : wop :=
  message 1 (writeTimestamp (sd_timestamp m))
  ;> varint 2 (deletion_to_wire (sd_type m))
  ;> wstring 3 (sd_id m).

Definition deletion_handler : handler SceneEntityDeletion := fun tag m r =>
  if tag_field tag =? 1 then
    if wt_eqb (tag_type tag) kLengthDelimited then
      read_nested decodeTimestamp sd_timestamp (fun v m => mkSceneEntityDeletion (sd_type m) v (sd_id m)) m r
    else (false, m, r)
  else if tag_field tag =? 2 then
    if wt_eqb (tag_type tag) kVarint then
      read_into readVarint (fun v m => mkSceneEntityDeletion (deletion_from_wire v) (sd_timestamp m) (sd_id
        m)) m r
    else (false, m, r)
  else if tag_field tag =? 3 then
    if wt_eqb (tag_type tag) kLengthDelimited then
      read_into readString (fun v m => mkSceneEntityDeletion (sd_type m) (sd_timestamp m) v) m r
    else (false, m, r)
  else (false, m, r).

Definition decodeSceneEntityDeletion : decoder SceneEntityDeletion := parseFields deletion_handler.

Definition deletion_wf (m : SceneEntityDeletion) : Prop :=
  in_s 64 (sd_timestamp m).

#[export] Instance deletion_consumes : Consumes deletion_handler.
Proof. unfold deletion_handler. solve_consumes. Qed.

(** ** Entities *)

(** *** SceneEntity *)

Record SceneEntity : Type := mkSceneEntity {
  se_timestamp : Z; se_frame_id : bytes; se_id : bytes; se_lifetime_ns : Z; se_frame_locked : bool;
  se_metadata : list KeyValuePair; se_arrows : list ArrowPrimitive; se_cubes : list CubePrimitive; se_spheres
  : list SpherePrimitive; se_cylinders : list CylinderPrimitive; se_lines : list LinePrimitive; se_triangles :
  list TrianglePrimitive; se_texts : list TextPrimitive; se_models : list ModelPrimitive; se_axes : list
  AxesPrimitive }.

Definition entity_default : SceneEntity :=
  mkSceneEntity 0 [] [] 0 false [] [] [] [] [] [] [] [] [] [].

Definition se_add_metadata (l : list KeyValuePair) (m : SceneEntity) : SceneEntity :=
  mkSceneEntity (se_timestamp m) (se_frame_id m) (se_id m) (se_lifetime_ns m) (se_frame_locked m) (se_metadata
  m ++ l) (se_arrows m) (se_cubes m) (se_spheres m) (se_cylinders m) (se_lines m) (se_triangles m) (se_texts
  m) (se_models m) (se_axes m).
#[export] Instance se_add_metadata_adds : Adds se_add_metadata.
Proof. solve_adds. Qed.

Definition se_add_arrows (l : list ArrowPrimitive) (m : SceneEntity) : SceneEntity :=
  mkSceneEntity (se_timestamp m) (se_frame_id m) (se_id m) (se_lifetime_ns m) (se_frame_locked m) (se_metadata
  m) (se_arrows m ++ l) (se_cubes m) (se_spheres m) (se_cylinders m) (se_lines m) (se_triangles m) (se_texts
  m) (se_models m) (se_axes m).
#[export] Instance se_add_arrows_adds : Adds se_add_arrows.
Proof. solve_adds. Qed.

Definition se_add_cubes (l : list CubePrimitive) (m : SceneEntity) : SceneEntity :=
  mkSceneEntity (se_timestamp m) (se_frame_id m) (se_id m) (se_lifetime_ns m) (se_frame_locked m) (se_metadata
  m) (se_arrows m) (se_cubes m ++ l) (se_spheres m) (se_cylinders m) (se_lines m) (se_triangles m) (se_texts
  m) (se_models m) (se_axes m).
#[export] Instance se_add_cubes_adds : Adds se_add_cubes.
Proof. solve_adds. Qed.

Definition se_add_spheres (l : list SpherePrimitive) (m : SceneEntity) : SceneEntity :=
  mkSceneEntity (se_timestamp m) (se_frame_id m) (se_id m) (se_lifetime_ns m) (se_frame_locked m) (se_metadata
  m) (se_arrows m) (se_cubes m) (se_spheres m ++ l) (se_cylinders m) (se_lines m) (se_triangles m) (se_texts
  m) (se_models m) (se_axes m).
#[export] Instance se_add_spheres_adds : Adds se_add_spheres.
Proof. solve_adds. Qed.

Definition se_add_cylinders (l : list CylinderPrimitive) (m : SceneEntity) : SceneEntity :=
  mkSceneEntity (se_timestamp m) (se_frame_id m) (se_id m) (se_lifetime_ns m) (se_frame_locked m) (se_metadata
  m) (se_arrows m) (se_cubes m) (se_spheres m) (se_cylinders m ++ l) (se_lines m) (se_triangles m) (se_texts
  m) (se_models m) (se_axes m).
#[export] Instance se_add_cylinders_adds : Adds se_add_cylinders.
Proof. solve_adds. Qed.

Definition se_add_lines (l : list LinePrimitive) (m : SceneEntity) : SceneEntity :=
  mkSceneEntity (se_timestamp m) (se_frame_id m) (se_id m) (se_lifetime_ns m) (se_frame_locked m) (se_metadata
  m) (se_arrows m) (se_cubes m) (se_spheres m) (se_cylinders m) (se_lines m ++ l) (se_triangles m) (se_texts
  m) (se_models m) (se_axes m).
#[export] Instance se_add_lines_adds : Adds se_add_lines.
Proof. solve_adds. Qed.

Definition se_add_triangles (l : list TrianglePrimitive) (m : SceneEntity) : SceneEntity :=
  mkSceneEntity (se_timestamp m) (se_frame_id m) (se_id m) (se_lifetime_ns m) (se_frame_locked m) (se_metadata
  m) (se_arrows m) (se_cubes m) (se_spheres m) (se_cylinders m) (se_lines m) (se_triangles m ++ l) (se_texts
  m) (se_models m) (se_axes m).
#[export] Instance se_add_triangles_adds : Adds se_add_triangles.
Proof. solve_adds. Qed.

Definition se_add_texts (l : list TextPrimitive) (m : SceneEntity) : SceneEntity :=
  mkSceneEntity (se_timestamp m) (se_frame_id m) (se_id m) (se_lifetime_ns m) (se_frame_locked m) (se_metadata
  m) (se_arrows m) (se_cubes m) (se_spheres m) (se_cylinders m) (se_lines m) (se_triangles m) (se_texts m ++
  l) (se_models m) (se_axes m).
#[export] Instance se_add_texts_adds : Adds se_add_texts.
Proof. solve_adds. Qed.

Definition se_add_models (l : list ModelPrimitive) (m : SceneEntity) : SceneEntity :=
  mkSceneEntity (se_timestamp m) (se_frame_id m) (se_id m) (se_lifetime_ns m) (se_frame_locked m) (se_metadata
  m) (se_arrows m) (se_cubes m) (se_spheres m) (se_cylinders m) (se_lines m) (se_triangles m) (se_texts m)
  (se_models m ++ l) (se_axes m).
#[export] Instance se_add_models_adds : Adds se_add_models.
Proof. solve_adds. Qed.

Definition se_add_axes (l : list AxesPrimitive) (m : SceneEntity) : SceneEntity :=
  mkSceneEntity (se_timestamp m) (se_frame_id m) (se_id m) (se_lifetime_ns m) (se_frame_locked m) (se_metadata
  m) (se_arrows m) (se_cubes m) (se_spheres m) (se_cylinders m) (se_lines m) (se_triangles m) (se_texts m)
  (se_models m) (se_axes m ++ l).
#[export] Instance se_add_axes_adds : Adds se_add_axes.
Proof. solve_adds. Qed.

Definition writeSceneEntity (m : SceneEntity) : wop :=
  message 1 (writeTimestamp (se_timestamp m))
  ;> wstring 2 (se_frame_id m)
  ;> wstring 3 (se_id m)
  ;> message 4 (writeTimestamp (se_lifetime_ns m))
  ;> varint 5 (if (se_frame_locked m) then 1 else 0)
  ;> appendAll (fun a => message 6 (writeKeyValuePair a)) (se_metadata m)
  ;> appendAll (fun a => message 7 (writeArrowPrimitive a)) (se_arrows m)
  ;> appendAll (fun a => message 8 (writeCubePrimitive a)) (se_cubes m)
  ;> appendAll (fun a => message 9 (writeSpherePrimitive a)) (se_spheres m)
  ;> appendAll (fun a => message 10 (writeCylinderPrimitive a)) (se_cylinders m)
  ;> appendAll (fun a => message 11 (writeLinePrimitive a)) (se_lines m)
  ;> appendAll (fun a => message 12 (writeTrianglePrimitive a)) (se_triangles m)
  ;> appendAll (fun a => message 13 (writeTextPrimitive a)) (se_texts m)
  ;> appendAll (fun a => message 14 (writeModelPrimitive a)) (se_models m)
  ;> appendAll (fun a => message 15 (writeAxesPrimitive a)) (se_axes m).

Definition entity_handler : handler SceneEntity := fun tag m r =>
  if tag_field tag =? 1 then
    if wt_eqb (tag_type tag) kLengthDelimited then
      read_nested decodeTimestamp se_timestamp (fun v m => mkSceneEntity v (se_frame_id m) (se_id m)
        (se_lifetime_ns m) (se_frame_locked m) (se_metadata m) (se_arrows m) (se_cubes m) (se_spheres m)
        (se_cylinders m) (se_lines m) (se_triangles m) (se_texts m) (se_models m) (se_axes m)) m r
    else (false, m, r)
  else if tag_field tag =? 2 then
    if wt_eqb (tag_type tag) kLengthDelimited then
      read_into readString (fun v m => mkSceneEntity (se_timestamp m) v (se_id m) (se_lifetime_ns m)
        (se_frame_locked m) (se_metadata m) (se_arrows m) (se_cubes m) (se_spheres m) (se_cylinders m)
        (se_lines m) (se_triangles m) (se_texts m) (se_models m) (se_axes m)) m r
    else (false, m, r)
  else if tag_field tag =? 3 then
    if wt_eqb (tag_type tag) kLengthDelimited then
      read_into readString (fun v m => mkSceneEntity (se_timestamp m) (se_frame_id m) v (se_lifetime_ns m)
        (se_frame_locked m) (se_metadata m) (se_arrows m) (se_cubes m) (se_spheres m) (se_cylinders m)
        (se_lines m) (se_triangles m) (se_texts m) (se_models m) (se_axes m)) m r
    else (false, m, r)
  else if tag_field tag =? 4 then
    if wt_eqb (tag_type tag) kLengthDelimited then
      read_nested decodeTimestamp se_lifetime_ns (fun v m => mkSceneEntity (se_timestamp m) (se_frame_id m)
        (se_id m) v (se_frame_locked m) (se_metadata m) (se_arrows m) (se_cubes m) (se_spheres m)
        (se_cylinders m) (se_lines m) (se_triangles m) (se_texts m) (se_models m) (se_axes m)) m r
    else (false, m, r)
  else if tag_field tag =? 5 then
    if wt_eqb (tag_type tag) kVarint then
      read_into readVarint (fun v m => mkSceneEntity (se_timestamp m) (se_frame_id m) (se_id m)
        (se_lifetime_ns m) (negb (v =? 0)) (se_metadata m) (se_arrows m) (se_cubes m) (se_spheres m)
        (se_cylinders m) (se_lines m) (se_triangles m) (se_texts m) (se_models m) (se_axes m)) m r
    else (false, m, r)
  else if tag_field tag =? 6 then
    if wt_eqb (tag_type tag) kLengthDelimited then
      read_push decodeKeyValuePair key_value_default (fun v => se_add_metadata [v]) m r
    else (false, m, r)
  else if tag_field tag =? 7 then
    if wt_eqb (tag_type tag) kLengthDelimited then
      read_push decodeArrowPrimitive arrow_default (fun v => se_add_arrows [v]) m r
    else (false, m, r)
  else if tag_field tag =? 8 then
    if wt_eqb (tag_type tag) kLengthDelimited then
      read_push decodeCubePrimitive cube_default (fun v => se_add_cubes [v]) m r
    else (false, m, r)
  else if tag_field tag =? 9 then
    if wt_eqb (tag_type tag) kLengthDelimited then
      read_push decodeSpherePrimitive sphere_default (fun v => se_add_spheres [v]) m r
    else (false, m, r)
  else if tag_field tag =? 10 then
    if wt_eqb (tag_type tag) kLengthDelimited then
      read_push decodeCylinderPrimitive cylinder_default (fun v => se_add_cylinders [v]) m r
    else (false, m, r)
  else if tag_field tag =? 11 then
    if wt_eqb (tag_type tag) kLengthDelimited then
      read_push decodeLinePrimitive line_default (fun v => se_add_lines [v]) m r
    else (false, m, r)
  else if tag_field tag =? 12 then
    if wt_eqb (tag_type tag) kLengthDelimited then
      read_push decodeTrianglePrimitive triangle_default (fun v => se_add_triangles [v]) m r
    else (false, m, r)
  else if tag_field tag =? 13 then
    if wt_eqb (tag_type tag) kLengthDelimited then
      read_push decodeTextPrimitive text_default (fun v => se_add_texts [v]) m r
    else (false, m, r)
  else if tag_field tag =? 14 then
    if wt_eqb (tag_type tag) kLengthDelimited then
      read_push decodeModelPrimitive model_default (fun v => se_add_models [v]) m r
    else (false, m, r)
  else if tag_field tag =? 15 then
    if wt_eqb (tag_type tag) kLengthDelimited then
      read_push decodeAxesPrimitive axes_default (fun v => se_add_axes [v]) m r
    else (false, m, r)
  else (false, m, r).

Definition decodeSceneEntity : decoder SceneEntity := parseFields entity_handler.

Definition entity_wf (m : SceneEntity) : Prop :=
  in_s 64 (se_timestamp m) /\ in_s 64 (se_lifetime_ns m) /\ Forall key_value_wf (se_metadata m) /\ Forall
  arrow_wf (se_arrows m) /\ Forall cube_wf (se_cubes m) /\ Forall sphere_wf (se_spheres m) /\ Forall
  cylinder_wf (se_cylinders m) /\ Forall line_wf (se_lines m) /\ Forall triangle_wf (se_triangles m) /\ Forall
  text_wf (se_texts m) /\ Forall model_wf (se_models m) /\ Forall axes_wf (se_axes m).

#[export] Instance entity_consumes : Consumes entity_handler.
Proof. unfold entity_handler. solve_consumes. Qed.

(** ** Meshes *)

(** *** Mesh3D *)

Record Mesh3D : Type := mkMesh3D {
  m3_timestamp_ns : Z; m3_frame_id : bytes; m3_id : bytes; m3_pose : Pose; m3_scale : Vector3; m3_format :
  bytes; m3_data : bytes; m3_url : bytes; m3_color : ColorRGBA; m3_override_color : bool }.

Definition mesh3d_default : Mesh3D :=
  mkMesh3D 0 [] [] pose_default (mkVector3 double_one double_one double_one) [] [] [] color_default false.

Definition writeMesh3D (m : Mesh3D) : wop :=
  message 1 (writeTimestamp (m3_timestamp_ns m))
  ;> wstring 2 (m3_frame_id m)
  ;> wstring 3 (m3_id m)
  ;> message 4 (writePose (m3_pose m))
  ;> message 5 (writeVector3 (m3_scale m))
  ;> wstring 6 (m3_format m)
  ;> wbytes 7 (m3_data m)
  ;> wstring 8 (m3_url m)
  ;> message 9 (writeColor (m3_color m))
  ;> varint 10 (if (m3_override_color m) then 1 else 0).

Definition mesh3d_handler : handler Mesh3D := fun tag m r =>
  if tag_field tag =? 1 then
    if wt_eqb (tag_type tag) kLengthDelimited then
      read_nested decodeTimestamp m3_timestamp_ns (fun v m => mkMesh3D v (m3_frame_id m) (m3_id m) (m3_pose
        m) (m3_scale m) (m3_format m) (m3_data m) (m3_url m) (m3_color m) (m3_override_color m)) m r
    else (false, m, r)
  else if tag_field tag =? 2 then
    if wt_eqb (tag_type tag) kLengthDelimited then
      read_into readString (fun v m => mkMesh3D (m3_timestamp_ns m) v (m3_id m) (m3_pose m) (m3_scale m)
        (m3_format m) (m3_data m) (m3_url m) (m3_color m) (m3_override_color m)) m r
    else (false, m, r)
  else if tag_field tag =? 3 then
    if wt_eqb (tag_type tag) kLengthDelimited then
      read_into readString (fun v m => mkMesh3D (m3_timestamp_ns m) (m3_frame_id m) v (m3_pose m) (m3_scale
        m) (m3_format m) (m3_data m) (m3_url m) (m3_color m) (m3_override_color m)) m r
    else (false, m, r)
  else if tag_field tag =? 4 then
    if wt_eqb (tag_type tag) kLengthDelimited then
      read_nested decodePose m3_pose (fun v m => mkMesh3D (m3_timestamp_ns m) (m3_frame_id m) (m3_id m) v
        (m3_scale m) (m3_format m) (m3_data m) (m3_url m) (m3_color m) (m3_override_color m)) m r
    else (false, m, r)
  else if tag_field tag =? 5 then
    if wt_eqb (tag_type tag) kLengthDelimited then
      read_nested decodeVector3 m3_scale (fun v m => mkMesh3D (m3_timestamp_ns m) (m3_frame_id m) (m3_id m)
        (m3_pose m) v (m3_format m) (m3_data m) (m3_url m) (m3_color m) (m3_override_color m)) m r
    else (false, m, r)
  else if tag_field tag =? 6 then
    if wt_eqb (tag_type tag) kLengthDelimited then
      read_into readString (fun v m => mkMesh3D (m3_timestamp_ns m) (m3_frame_id m) (m3_id m) (m3_pose m)
        (m3_scale m) v (m3_data m) (m3_url m) (m3_color m) (m3_override_color m)) m r
    else (false, m, r)
  else if tag_field tag =? 7 then
    if wt_eqb (tag_type tag) kLengthDelimited then
      read_into readBytes (fun v m => mkMesh3D (m3_timestamp_ns m) (m3_frame_id m) (m3_id m) (m3_pose m)
        (m3_scale m) (m3_format m) v (m3_url m) (m3_color m) (m3_override_color m)) m r
    else (false, m, r)
  else if tag_field tag =? 8 then
    if wt_eqb (tag_type tag) kLengthDelimited then
      read_into readString (fun v m => mkMesh3D (m3_timestamp_ns m) (m3_frame_id m) (m3_id m) (m3_pose m)
        (m3_scale m) (m3_format m) (m3_data m) v (m3_color m) (m3_override_color m)) m r
    else (false, m, r)
  else if tag_field tag =? 9 then
    if wt_eqb (tag_type tag) kLengthDelimited then
      read_nested decodeColor m3_color (fun v m => mkMesh3D (m3_timestamp_ns m) (m3_frame_id m) (m3_id m)
        (m3_pose m) (m3_scale m) (m3_format m) (m3_data m) (m3_url m) v (m3_override_color m)) m r
    else (false, m, r)
  else if tag_field tag =? 10 then
    if wt_eqb (tag_type tag) kVarint then
      read_into readVarint (fun v m => mkMesh3D (m3_timestamp_ns m) (m3_frame_id m) (m3_id m) (m3_pose m)
        (m3_scale m) (m3_format m) (m3_data m) (m3_url m) (m3_color m) (negb (v =? 0))) m r
    else (false, m, r)
  else (false, m, r).

Definition mesh3d_wf (m : Mesh3D) : Prop :=
  in_s 64 (m3_timestamp_ns m) /\ pose_wf (m3_pose m) /\ vector3_wf (m3_scale m) /\ color_wf (m3_color m).

#[export] Instance mesh3d_consumes : Consumes mesh3d_handler.
Proof. unfold mesh3d_handler. solve_consumes. Qed.

Definition serializeMesh3D (m : Mesh3D) : bytes := writeMesh3D m [].

Definition deserializeMesh3D : bytes -> Expected Mesh3D := deserialize "Mesh3D" mesh3d_handler mesh3d_default.

(** ** The batch *)

Record SceneEntities : Type := mkSceneEntities { ses_entities : list SceneEntity; ses_deletions : list SceneEntityDeletion }.

Definition scene_entities_default : SceneEntities := mkSceneEntities [] [].

Definition ses_add_entities (l : list SceneEntity) (m : SceneEntities) : SceneEntities :=
  mkSceneEntities (ses_entities m ++ l) (ses_deletions m).
#[export] Instance ses_add_entities_adds : Adds ses_add_entities.
Proof. solve_adds. Qed.

Definition ses_add_deletions (l : list SceneEntityDeletion) (m : SceneEntities) : SceneEntities :=
  mkSceneEntities (ses_entities m) (ses_deletions m ++ l).
#[export] Instance ses_add_deletions_adds : Adds ses_add_deletions.
Proof. solve_adds. Qed.

(** Deletions come before entities on the wire. *)
Definition writeSceneEntities (m : SceneEntities) : wop :=
  appendAll (fun a => message 1 (writeSceneEntityDeletion a)) (ses_deletions m)
  ;> appendAll (fun a => message 2 (writeSceneEntity a)) (ses_entities m).

Definition serializeSceneEntities (m : SceneEntities) : bytes := writeSceneEntities m [].

(** Any length-delimited field is read as a message; fields 1 and 2 are decoded. *)
Definition scene_step : field_step SceneEntities string := fun tag m r =>
  if negb (wt_eqb (tag_type tag) kLengthDelimited) then Other
  else
    match readMessage r with
    | (None, _) => Broke "SceneEntities wire: bad nested message length"%string
    | (Some nested, r') =>
      if tag_field tag =? 1 then
        let '(ok, deletion, _) := decodeSceneEntityDeletion deletion_default nested in
        if ok then Took (ses_add_deletions [deletion] m) r'
        else Broke "SceneEntities wire: SceneEntityDeletion decode failed"%string
      else if tag_field tag =? 2 then
        let '(ok, entity, _) := decodeSceneEntity entity_default nested in
        if ok then Took (ses_add_entities [entity] m) r'
        else Broke "SceneEntities wire: SceneEntity decode failed"%string
      else Took m r'
    end.

Definition deserializeSceneEntities (data : bytes) : Expected SceneEntities :=
  if eof data then Err "SceneEntities wire: empty buffer"
  else
    to_expected (field_loop "SceneEntities wire: bad tag"%string "SceneEntities wire: skip failed"%string scene_step
      scene_entities_default data).

(** ** Round trips *)

#[export] Instance appends_nonempty (b : bool) w `{!Appends w} : Appends (if b then wskip else w).
Proof. destruct b; apply _. Qed.

Lemma line_type_roundtrip t : lineTypeFromWire (lineTypeToWire t) = t.
Proof. by destruct t. Qed.

Lemma line_type_in_u64 t : in_u 64 (lineTypeToWire t).
Proof. destruct t; unfold in_u; simpl; lia. Qed.

Lemma deletion_roundtrip t : deletion_from_wire (deletion_to_wire t) = t.
Proof. by destruct t. Qed.

Lemma deletion_in_u64 t : in_u 64 (deletion_to_wire t).
Proof. destruct t; unfold in_u; simpl; lia. Qed.

(** A message whose fields are written in order and read into the default message. *)
Ltac codec_by wf write :=
  apply codec_from_encodes;
  [intros; unfold write; apply _
  |let H := fresh in
   intros [] H; unfold wf in H; repeat match goal with H : _ /\ _ |- _ => destruct H end; unfold write; cbn in *;
   solve_writes; cbn; rewrite ?bool_roundtrip, ?line_type_roundtrip, ?deletion_roundtrip; reflexivity].

#[export] Instance key_value_codec : CodecFrom key_value_wf writeKeyValuePair decodeKeyValuePair key_value_default.
Proof. codec_by key_value_wf writeKeyValuePair. Qed.
#[export] Instance arrow_codec : CodecFrom arrow_wf writeArrowPrimitive decodeArrowPrimitive arrow_default.
Proof. codec_by arrow_wf writeArrowPrimitive. Qed.
#[export] Instance cube_codec : CodecFrom cube_wf writeCubePrimitive decodeCubePrimitive cube_default.
Proof. codec_by cube_wf writeCubePrimitive. Qed.
#[export] Instance sphere_codec : CodecFrom sphere_wf writeSpherePrimitive decodeSpherePrimitive sphere_default.
Proof. codec_by sphere_wf writeSpherePrimitive. Qed.
#[export] Instance cylinder_codec : CodecFrom cylinder_wf writeCylinderPrimitive decodeCylinderPrimitive cylinder_default.
Proof. codec_by cylinder_wf writeCylinderPrimitive. Qed.
#[export] Instance line_codec : CodecFrom line_wf writeLinePrimitive decodeLinePrimitive line_default.
Proof. pose proof line_type_in_u64. codec_by line_wf writeLinePrimitive. Qed.
#[export] Instance triangle_codec : CodecFrom triangle_wf writeTrianglePrimitive decodeTrianglePrimitive triangle_default.
Proof. codec_by triangle_wf writeTrianglePrimitive. Qed.
#[export] Instance text_codec : CodecFrom text_wf writeTextPrimitive decodeTextPrimitive text_default.
Proof. codec_by text_wf writeTextPrimitive. Qed.
#[export] Instance axes_codec : CodecFrom axes_wf writeAxesPrimitive decodeAxesPrimitive axes_default.
Proof. codec_by axes_wf writeAxesPrimitive. Qed.
#[export] Instance model_codec : CodecFrom model_wf writeModelPrimitive decodeModelPrimitive model_default.
Proof. codec_by model_wf writeModelPrimitive. Qed.
#[export] Instance deletion_codec : CodecFrom deletion_wf writeSceneEntityDeletion decodeSceneEntityDeletion deletion_default.
Proof. pose proof deletion_in_u64. codec_by deletion_wf writeSceneEntityDeletion. Qed.
#[export] Instance entity_codec : CodecFrom entity_wf writeSceneEntity decodeSceneEntity entity_default.
Proof. codec_by entity_wf writeSceneEntity. Qed.

#[export] Instance scene_step_consumes : StepConsumes scene_step.
Proof.
  intros t s r s' r' E. unfold scene_step, readMessage in E. pose proof (readBytes_suffix r).
  destruct (negb _); [discriminate E|]. destruct (readBytes r) as [[d|] r1]; [|discriminate E].
  destruct (decodeSceneEntityDeletion _ d) as [[[|] ?] ?], (decodeSceneEntity _ d) as [[[|] ?] ?];
    repeat case_match; by simplify_eq.
Qed.

Definition scene_entities_wf (m : SceneEntities) : Prop := Forall entity_wf (ses_entities m) /\ Forall deletion_wf (ses_deletions m).

Lemma loops_scene m :
  scene_entities_wf m ->
  loops "SceneEntities wire: bad tag"%string "SceneEntities wire: skip failed"%string scene_step (writeSceneEntities m)
    scene_entities_default m.
Proof. destruct m as [es ds]. intros [He Hd]. unfold writeSceneEntities. cbn in *. solve_loops. Qed.

Lemma encodes_mesh3d m : mesh3d_wf m -> encodes mesh3d_handler (writeMesh3D m) mesh3d_default m.
Proof.
  destruct m. unfold mesh3d_wf, writeMesh3D. intros. repeat match goal with H : _ /\ _ |- _ => destruct H end. cbn in *.
  solve_writes. cbn. by rewrite bool_roundtrip.
Qed.

Lemma appendAll_message_nil {A} f (w : A -> wop) l :
  field_ok f -> appendAll (fun a => message f (w a)) l [] = [] -> l = [].
Proof.
  intros Hf. destruct l as [|a l]; [done|]. rewrite (appendAll_cons (fun a => message f (w a))). intros H.
  exfalso. by apply (message_nonempty f (w a) _ Hf) in H.
Qed.

Lemma scene_written_nil m : writeSceneEntities m [] = [] -> m = scene_entities_default.
Proof.
  destruct m as [es ds]. unfold writeSceneEntities. cbn [ses_entities ses_deletions]. rewrite wseq_bytes by apply _.
  intros [Hd He]%app_eq_nil. apply appendAll_message_nil in Hd as ->; [|solve_field_ok].
  by apply appendAll_message_nil in He as ->; [|solve_field_ok].
Qed.

Lemma scene_written m :
  scene_entities_wf m -> fits (serializeSceneEntities m) -> serializeSceneEntities m <> [] ->
  deserializeSceneEntities (serializeSceneEntities m) = Ok m.
Proof.
  unfold deserializeSceneEntities, serializeSceneEntities. intros Hwf Hfit Hne.
  rewrite (loops_done _ _ scene_step _ _ m (loops_scene m Hwf)) by done. by destruct (writeSceneEntities m []).
Qed.

(** Scenes with all their primitives, metadata and deletions survive serialization, and so do
    meshes: decoding the written bytes yields every entity in order, colours included; the
    scene without entities and deletions is written as the empty buffer, which is rejected. *)
Theorem scene_codecs_roundtrip :
  (forall m, scene_entities_wf m -> fits (serializeSceneEntities m) ->
     deserializeSceneEntities (serializeSceneEntities m)
       = if eof (serializeSceneEntities m) then Err "SceneEntities wire: empty buffer" else Ok m) /\
  (forall m, serializeSceneEntities m = [] <-> m = scene_entities_default) /\
  (forall m, mesh3d_wf m -> fits (serializeMesh3D m) -> deserializeMesh3D (serializeMesh3D m) = Ok m).
Proof.
  split_and!; [intros m Hwf Hfit|intros m; split; [apply scene_written_nil|by intros ->]|intros m Hwf Hfit].
  - destruct (eof _) eqn:E; [by unfold deserializeSceneEntities; rewrite E|]. apply scene_written; [done..|].
    intros Hn. by rewrite Hn in E.
  - by_encodes encodes_mesh3d.
Qed.

Definition sample_scene : SceneEntities :=
  mkSceneEntities
    [mkSceneEntity (-7) (str "map") (str "e1") 0 true [mkKeyValuePair (str "k") (str "v")] []
       [mkCubePrimitive pose_default (mkVector3 double_one double_one double_one) (color 255 128 1 77)] [] []
       [mkLinePrimitive kLineLoop pose_default 5 true [mkPoint3 1 2 3; point3_default] color_default [color 1 2 3 4] [0; 1; 4000000000]]
       [] [] [mkModelPrimitive pose_default vector3_default color_default true (str "u") [] (str "glb")] []]
    [mkSceneEntityDeletion kAll 3 (str "old")].

Lemma sample_scene_wf : scene_entities_wf sample_scene.
Proof.
  assert (forall r g b a, in_u 8 r -> in_u 8 g -> in_u 8 b -> in_u 8 a -> color_wf (color r g b a)) as Hc
    by (intros r g b a; exists r, g, b, a; split_and!; done).
  pose proof color_default_wf.
  split; repeat (constructor; try done); unfold entity_wf, deletion_wf, cube_wf, line_wf, model_wf, pose_wf, vector3_wf,
    quaternion_wf, point3_wf; cbn;
    repeat match goal with |- _ /\ _ => split | |- Forall _ _ => constructor end; try done; try (by apply Hc); by_compute.
Qed.

Lemma scene_codecs_roundtrip_witness :
  scene_entities_wf sample_scene /\ deserializeSceneEntities (serializeSceneEntities sample_scene) = Ok sample_scene.
Proof.
  split; [exact sample_scene_wf|]. destruct scene_codecs_roundtrip as [Hs _].
  rewrite (Hs sample_scene sample_scene_wf ltac:(vm_compute; reflexivity)). vm_compute. reflexivity.
Defined.
