(* ===== verification/OverlayCodecs.v ===== *)
(** * OverlayCodecs: image annotations and plot markers

    [pj_base/src/builtin/]: [image_annotations_codec.cpp] and [plot_markers_codec.cpp], with the
    data of [pj_base/builtin/image_annotations.hpp] and [plot_markers.hpp].  Their decoders loop
    themselves ([FieldLoop]), but for the marker's.  Coordinates are bit patterns of doubles; the
    radius of a circle is computed with, as its message holds the diameter. *)

From Stdlib Require Import Floats.SpecFloat.
From S2P Require Import Prelude Doubles TimeMath ProtobufWire FieldLoop GeometryCodec ColorCodec MessageCodecs SensorCodecs SceneCodecs.

(** ** Image annotations *)

Inductive AnnotationTopology : Set := kPoints | kTopologyLineList | kTopologyLineStrip | kTopologyLineLoop.

Definition topologyToEnum (topology : AnnotationTopology) : Z :=
  match topology with kPoints => 1 | kTopologyLineLoop => 2 | kTopologyLineStrip => 3 | kTopologyLineList => 4 end.

Definition mapTopology (type : Z) : AnnotationTopology :=
  if type =? 1 then kPoints
  else if type =? 2 then kTopologyLineLoop
  else if type =? 3 then kTopologyLineStrip
  else if type =? 4 then kTopologyLineList
  else kPoints.

Record Point2 : Set := mkPoint2 { p2_x : Z; p2_y : Z }.

Definition point2_default : Point2 := mkPoint2 0 0.

Definition writePoint2 (p : Point2) : wop := doubleField 1 (p2_x p) ;> doubleField 2 (p2_y p).

Definition point2_step : field_step Point2 unit := fun tag p r =>
  if (tag_field tag =? 1) && wt_eqb (tag_type tag) kFixed64 then
    take_into tt readDouble (fun v m => mkPoint2 v (p2_y m)) p r
  else if (tag_field tag =? 2) && wt_eqb (tag_type tag) kFixed64 then
    take_into tt readDouble (fun v m => mkPoint2 (p2_x m) v) p r
  else Other.

Definition decodePoint2 : decoder Point2 := loop_decoder point2_step.

Definition green : ColorRGBA := color 0 255 0 255.
Definition no_fill : ColorRGBA := color 0 0 0 0.

(** The patterns of [1.0], [2.0] and [14.0]. *)
Definition bits_two : Z := double_to_bits d2.
Definition bits_14 : Z := double_to_bits (int_to_double 14).

(** *** Points *)

Record PointsAnnotation : Type := mkPointsAnnotation {
  pa_topology : AnnotationTopology; pa_points : list Point2; pa_thickness : Z; pa_color : ColorRGBA;
  pa_colors : list ColorRGBA; pa_fill_color : ColorRGBA }.

Definition points_annotation_default : PointsAnnotation := mkPointsAnnotation kPoints [] bits_two green [] no_fill.

Definition pa_add_points (l : list Point2) (m : PointsAnnotation) : PointsAnnotation :=
  mkPointsAnnotation (pa_topology m) (pa_points m ++ l) (pa_thickness m) (pa_color m) (pa_colors m) (pa_fill_color m).
#[export] Instance pa_add_points_adds : Adds pa_add_points.
Proof. solve_adds. Qed.

Definition pa_add_colors (l : list ColorRGBA) (m : PointsAnnotation) : PointsAnnotation :=
  mkPointsAnnotation (pa_topology m) (pa_points m) (pa_thickness m) (pa_color m) (pa_colors m ++ l) (pa_fill_color m).
#[export] Instance pa_add_colors_adds : Adds pa_add_colors.
Proof. solve_adds. Qed.

Definition writePointsAnnotation (m : PointsAnnotation) : wop :=
  varint 2 (topologyToEnum (pa_topology m))
  ;> appendAll (fun a => message 3 (writePoint2 a)) (pa_points m)
  ;> message 4 (writeColor (pa_color m))
  ;> appendAll (fun a => message 5 (writeColor a)) (pa_colors m)
  ;> message 6 (writeColor (pa_fill_color m))
  ;> doubleField 7 (pa_thickness m).

Definition points_annotation_step : field_step PointsAnnotation unit := fun tag m r =>
  if tag_field tag =? 2 then
    if negb (wt_eqb (tag_type tag) kVarint) then Other
    else take_into tt readVarint (fun v m => mkPointsAnnotation (mapTopology v) (pa_points m) (pa_thickness m)
           (pa_color m) (pa_colors m) (pa_fill_color m)) m r
  else if tag_field tag =? 3 then
    if negb (wt_eqb (tag_type tag) kLengthDelimited) then Other
    else take_nested tt tt decodePoint2 (fun _ => point2_default) (fun v => pa_add_points [v]) m r
  else if tag_field tag =? 4 then
    if wt_eqb (tag_type tag) kLengthDelimited then
      take_nested tt tt decodeAnnotationColor pa_color (fun v m => mkPointsAnnotation (pa_topology m) (pa_points m)
        (pa_thickness m) v (pa_colors m) (pa_fill_color m)) m r
    else Other
  else if tag_field tag =? 5 then
    if negb (wt_eqb (tag_type tag) kLengthDelimited) then Other
    else take_nested tt tt decodeAnnotationColor (fun _ => color_default) (fun v => pa_add_colors [v]) m r
  else if tag_field tag =? 6 then
    if wt_eqb (tag_type tag) kLengthDelimited then
      take_nested tt tt decodeAnnotationColor pa_fill_color (fun v m => mkPointsAnnotation (pa_topology m)
        (pa_points m) (pa_thickness m) (pa_color m) (pa_colors m) v) m r
    else Other
  else if tag_field tag =? 7 then
    if wt_eqb (tag_type tag) kFixed64 then
      take_into tt readDouble (fun v m => mkPointsAnnotation (pa_topology m) (pa_points m) v (pa_color m)
        (pa_colors m) (pa_fill_color m)) m r
    else Other
  else Other.

Definition decodePointsAnnotation : decoder PointsAnnotation := loop_decoder points_annotation_step.

(** *** Circles *)

Record CircleAnnotation : Type := mkCircleAnnotation {
  ca_center : Point2; ca_radius : Z; ca_thickness : Z; ca_color : ColorRGBA; ca_fill_color : ColorRGBA }.

Definition circle_default : CircleAnnotation := mkCircleAnnotation point2_default double_one bits_two green no_fill.

(** [circle.radius * 2.0] and [diameter * 0.5] *)
Definition diameter_of (radius : Z) : Z := double_to_bits (dmul (bits_to_double radius) d2).
Definition radius_of (diameter : Z) : Z := double_to_bits (dmul (bits_to_double diameter) d_half).

Definition writeCircleAnnotation (m : CircleAnnotation) : wop :=
  message 2 (writePoint2 (ca_center m))
  ;> doubleField 3 (diameter_of (ca_radius m))
  ;> doubleField 4 (ca_thickness m)
  ;> message 5 (writeColor (ca_fill_color m))
  ;> message 6 (writeColor (ca_color m)).

Definition circle_step : field_step CircleAnnotation unit := fun tag m r =>
  if tag_field tag =? 2 then
    if wt_eqb (tag_type tag) kLengthDelimited then
      take_nested tt tt decodePoint2 ca_center (fun v m => mkCircleAnnotation v (ca_radius m) (ca_thickness m)
        (ca_color m) (ca_fill_color m)) m r
    else Other
  else if tag_field tag =? 3 then
    if negb (wt_eqb (tag_type tag) kFixed64) then Other
    else take_into tt readDouble (fun v m => mkCircleAnnotation (ca_center m) (radius_of v) (ca_thickness m)
           (ca_color m) (ca_fill_color m)) m r
  else if tag_field tag =? 4 then
    if wt_eqb (tag_type tag) kFixed64 then
      take_into tt readDouble (fun v m => mkCircleAnnotation (ca_center m) (ca_radius m) v (ca_color m)
        (ca_fill_color m)) m r
    else Other
  else if tag_field tag =? 5 then
    if wt_eqb (tag_type tag) kLengthDelimited then
      take_nested tt tt decodeAnnotationColor ca_fill_color (fun v m => mkCircleAnnotation (ca_center m)
        (ca_radius m) (ca_thickness m) (ca_color m) v) m r
    else Other
  else if tag_field tag =? 6 then
    if wt_eqb (tag_type tag) kLengthDelimited then
      take_nested tt tt decodeAnnotationColor ca_color (fun v m => mkCircleAnnotation (ca_center m) (ca_radius m)
        (ca_thickness m) v (ca_fill_color m)) m r
    else Other
  else Other.

(** It resets everything but the center first. *)
Definition decodeCircleAnnotation : decoder CircleAnnotation := fun out =>
  loop_decoder circle_step (mkCircleAnnotation (ca_center out) double_one bits_two green no_fill).

(** *** Texts *)

Record TextAnnotation : Type := mkTextAnnotation {
  ta_position : Point2; ta_font_size : Z; ta_color : ColorRGBA; ta_text : bytes }.

Definition text_annotation_default : TextAnnotation := mkTextAnnotation point2_default bits_14 (color 255 255 255 255) [].

Definition writeTextAnnotation (m : TextAnnotation) : wop :=
  message 2 (writePoint2 (ta_position m))
  ;> wstring 3 (ta_text m)
  ;> doubleField 4 (ta_font_size m)
  ;> message 5 (writeColor (ta_color m)).

Definition text_annotation_step : field_step TextAnnotation unit := fun tag m r =>
  if tag_field tag =? 2 then
    if wt_eqb (tag_type tag) kLengthDelimited then
      take_nested tt tt decodePoint2 ta_position
        (fun v m => mkTextAnnotation v (ta_font_size m) (ta_color m) (ta_text m)) m r
    else Other
  else if tag_field tag =? 3 then
    if wt_eqb (tag_type tag) kLengthDelimited then
      take_into tt readString (fun v m => mkTextAnnotation (ta_position m) (ta_font_size m) (ta_color m) v) m r
    else Other
  else if tag_field tag =? 4 then
    if wt_eqb (tag_type tag) kFixed64 then
      take_into tt readDouble (fun v m => mkTextAnnotation (ta_position m) v (ta_color m) (ta_text m)) m r
    else Other
  else if tag_field tag =? 5 then
    if wt_eqb (tag_type tag) kLengthDelimited then
      take_nested tt tt decodeAnnotationColor ta_color
        (fun v m => mkTextAnnotation (ta_position m) (ta_font_size m) v (ta_text m)) m r
    else Other
  else Other.

Definition decodeTextAnnotation : decoder TextAnnotation := fun out =>
  loop_decoder text_annotation_step (mkTextAnnotation (ta_position out) bits_14 (color 255 255 255 255) (ta_text out)).

(** *** The batch *)

Record ImageAnnotations : Type := mkImageAnnotations {
  ia_timestamp : Z; ia_image_topic : bytes; ia_points : list PointsAnnotation; ia_circles : list CircleAnnotation;
  ia_texts : list TextAnnotation }.

Definition image_annotations_default : ImageAnnotations := mkImageAnnotations 0 [] [] [] [].

Definition ia_add_points (l : list PointsAnnotation) (m : ImageAnnotations) : ImageAnnotations :=
  mkImageAnnotations (ia_timestamp m) (ia_image_topic m) (ia_points m ++ l) (ia_circles m) (ia_texts m).
#[export] Instance ia_add_points_adds : Adds ia_add_points.
Proof. solve_adds. Qed.

Definition ia_add_circles (l : list CircleAnnotation) (m : ImageAnnotations) : ImageAnnotations :=
  mkImageAnnotations (ia_timestamp m) (ia_image_topic m) (ia_points m) (ia_circles m ++ l) (ia_texts m).
#[export] Instance ia_add_circles_adds : Adds ia_add_circles.
Proof. solve_adds. Qed.

Definition ia_add_texts (l : list TextAnnotation) (m : ImageAnnotations) : ImageAnnotations :=
  mkImageAnnotations (ia_timestamp m) (ia_image_topic m) (ia_points m) (ia_circles m) (ia_texts m ++ l).
#[export] Instance ia_add_texts_adds : Adds ia_add_texts.
Proof. solve_adds. Qed.

Definition writeImageAnnotations (m : ImageAnnotations) : wop :=
  appendAll (fun a => message 1 (writeCircleAnnotation a)) (ia_circles m)
  ;> appendAll (fun a => message 2 (writePointsAnnotation a)) (ia_points m)
  ;> appendAll (fun a => message 3 (writeTextAnnotation a)) (ia_texts m)
  ;> (if ia_timestamp m =? 0 then wskip else message 5 (writeTimestamp (ia_timestamp m)))
  ;> (if (length (ia_image_topic m) =? 0)%nat then wskip else wstring 6 (ia_image_topic m)).

Definition serializeImageAnnotations (m : ImageAnnotations) : bytes := writeImageAnnotations m [].

Definition annotations_step : field_step ImageAnnotations string := fun tag m r =>
  if negb (wt_eqb (tag_type tag) kLengthDelimited) then Other
  else if tag_field tag =? 6 then
    take_into "ImageAnnotations wire: image_topic decode failed"%string readString
      (fun v m => mkImageAnnotations (ia_timestamp m) v (ia_points m) (ia_circles m) (ia_texts m)) m r
  else
    match readMessage r with
    | (None, _) => Broke "ImageAnnotations wire: bad nested message length"%string
    | (Some nested, r') =>
      if tag_field tag =? 1 then
        let '(ok, circle, _) := decodeCircleAnnotation circle_default nested in
        if ok then Took (ia_add_circles [circle] m) r'
        else Broke "ImageAnnotations wire: CircleAnnotation decode failed"%string
      else if tag_field tag =? 2 then
        let '(ok, points, _) := decodePointsAnnotation points_annotation_default nested in
        if ok then Took (ia_add_points [points] m) r'
        else Broke "ImageAnnotations wire: PointsAnnotation decode failed"%string
      else if tag_field tag =? 3 then
        let '(ok, text, _) := decodeTextAnnotation text_annotation_default nested in
        if ok then Took (ia_add_texts [text] m) r'
        else Broke "ImageAnnotations wire: TextAnnotation decode failed"%string
      else if tag_field tag =? 5 then
        let '(ok, timestamp, _) := decodeTimestamp (ia_timestamp m) nested in
        if ok then Took (mkImageAnnotations timestamp (ia_image_topic m) (ia_points m) (ia_circles m) (ia_texts m)) r'
        else Broke "ImageAnnotations wire: Timestamp decode failed"%string
      else Took m r'
    end.

Definition deserializeImageAnnotations (data : bytes) : Expected ImageAnnotations :=
  if eof data then Err "ImageAnnotations wire: empty buffer"
  else
    to_expected (field_loop "ImageAnnotations wire: bad tag"%string "ImageAnnotations wire: skip failed"%string
      annotations_step image_annotations_default data).

(** ** Plot markers *)

Inductive MarkerKind : Set := kRegion | kEvent | kValueBand | kLabel.
Inductive MarkerStatus : Set := kNone | kPass | kFail.
Inductive MarkerSeverity : Set := kInfo | kWarning | kError | kCritical.

(** [static_cast<uint64_t>] of the enumerations *)
Definition kind_to_wire (k : MarkerKind) : Z := match k with kRegion => 0 | kEvent => 1 | kValueBand => 2 | kLabel => 3 end.
Definition status_to_wire (s : MarkerStatus) : Z := match s with kNone => 0 | kPass => 1 | kFail => 2 end.
Definition severity_to_wire (s : MarkerSeverity) : Z :=
  match s with kInfo => 0 | kWarning => 1 | kError => 2 | kCritical => 3 end.

Definition mapKind (v : Z) : MarkerKind :=
  if v =? 0 then kRegion else if v =? 1 then kEvent else if v =? 2 then kValueBand else if v =? 3 then kLabel else kRegion.
Definition mapStatus (v : Z) : MarkerStatus := if v =? 1 then kPass else if v =? 2 then kFail else kNone.
Definition mapSeverity (v : Z) : MarkerSeverity :=
  if v =? 1 then kWarning else if v =? 2 then kError else if v =? 3 then kCritical else kInfo.

Record MarkerProperty : Set := mkMarkerProperty { mp_key : bytes; mp_value : bytes }.

Definition property_default : MarkerProperty := mkMarkerProperty [] [].

Definition writeProperty (p : MarkerProperty) : wop := wstring 1 (mp_key p) ;> wstring 2 (mp_value p).

Definition property_step : field_step MarkerProperty unit := fun tag p r =>
  if (tag_field tag =? 1) && wt_eqb (tag_type tag) kLengthDelimited then
    take_into tt readString (fun v m => mkMarkerProperty v (mp_value m)) p r
  else if (tag_field tag =? 2) && wt_eqb (tag_type tag) kLengthDelimited then
    take_into tt readString (fun v m => mkMarkerProperty (mp_key m) v) p r
  else Other.

Definition decodeProperty : decoder MarkerProperty := loop_decoder property_step.

Definition property_wf (p : MarkerProperty) : Prop := True.

(** *** PlotMarker *)

Record PlotMarker : Type := mkPlotMarker {
  pm_kind : MarkerKind; pm_t_start : Z; pm_t_end : Z; pm_value_low : Z; pm_value_high : Z; pm_has_value :
  bool; pm_status : MarkerStatus; pm_severity : MarkerSeverity; pm_category : bytes; pm_label : bytes;
  pm_description : bytes; pm_color : ColorRGBA; pm_metadata : list MarkerProperty }.

Definition plot_marker_default : PlotMarker :=
  mkPlotMarker kRegion 0 0 0 0 false kNone kInfo [] [] [] (color 0 0 0 0) [].

Definition pm_add_metadata (l : list MarkerProperty) (m : PlotMarker) : PlotMarker :=
  mkPlotMarker (pm_kind m) (pm_t_start m) (pm_t_end m) (pm_value_low m) (pm_value_high m) (pm_has_value m)
  (pm_status m) (pm_severity m) (pm_category m) (pm_label m) (pm_description m) (pm_color m) (pm_metadata m ++
  l).
#[export] Instance pm_add_metadata_adds : Adds pm_add_metadata.
Proof. solve_adds. Qed.

Definition writeMarker (m : PlotMarker) : wop :=
  varint 1 (kind_to_wire (pm_kind m))
  ;> varint 2 (wrap 64 (pm_t_start m))
  ;> varint 3 (wrap 64 (pm_t_end m))
  ;> doubleField 4 (pm_value_low m)
  ;> doubleField 5 (pm_value_high m)
  ;> varint 6 (if (pm_has_value m) then 1 else 0)
  ;> varint 7 (status_to_wire (pm_status m))
  ;> varint 8 (severity_to_wire (pm_severity m))
  ;> wstring 9 (pm_category m)
  ;> wstring 10 (pm_label m)
  ;> wstring 11 (pm_description m)
  ;> message 12 (writeColor (pm_color m))
  ;> appendAll (fun a => message 13 (writeProperty a)) (pm_metadata m).

Definition plot_marker_handler : handler PlotMarker := fun tag m r =>
  if tag_field tag =? 1 then
    if wt_eqb (tag_type tag) kVarint then
      read_into readVarint (fun v m => mkPlotMarker (mapKind v) (pm_t_start m) (pm_t_end m) (pm_value_low m)
        (pm_value_high m) (pm_has_value m) (pm_status m) (pm_severity m) (pm_category m) (pm_label m)
        (pm_description m) (pm_color m) (pm_metadata m)) m r
    else (false, m, r)
  else if tag_field tag =? 2 then
    if wt_eqb (tag_type tag) kVarint then
      read_into readVarint (fun v m => mkPlotMarker (pm_kind m) (to_signed 64 v) (pm_t_end m) (pm_value_low
        m) (pm_value_high m) (pm_has_value m) (pm_status m) (pm_severity m) (pm_category m) (pm_label m)
        (pm_description m) (pm_color m) (pm_metadata m)) m r
    else (false, m, r)
  else if tag_field tag =? 3 then
    if wt_eqb (tag_type tag) kVarint then
      read_into readVarint (fun v m => mkPlotMarker (pm_kind m) (pm_t_start m) (to_signed 64 v)
        (pm_value_low m) (pm_value_high m) (pm_has_value m) (pm_status m) (pm_severity m) (pm_category m)
        (pm_label m) (pm_description m) (pm_color m) (pm_metadata m)) m r
    else (false, m, r)
  else if tag_field tag =? 4 then
    if wt_eqb (tag_type tag) kFixed64 then
      read_into readDouble (fun v m => mkPlotMarker (pm_kind m) (pm_t_start m) (pm_t_end m) v (pm_value_high
        m) (pm_has_value m) (pm_status m) (pm_severity m) (pm_category m) (pm_label m) (pm_description m)
        (pm_color m) (pm_metadata m)) m r
    else (false, m, r)
  else if tag_field tag =? 5 then
    if wt_eqb (tag_type tag) kFixed64 then
      read_into readDouble (fun v m => mkPlotMarker (pm_kind m) (pm_t_start m) (pm_t_end m) (pm_value_low m)
        v (pm_has_value m) (pm_status m) (pm_severity m) (pm_category m) (pm_label m) (pm_description m)
        (pm_color m) (pm_metadata m)) m r
    else (false, m, r)
  else if tag_field tag =? 6 then
    if wt_eqb (tag_type tag) kVarint then
      read_into readVarint (fun v m => mkPlotMarker (pm_kind m) (pm_t_start m) (pm_t_end m) (pm_value_low m)
        (pm_value_high m) (negb (v =? 0)) (pm_status m) (pm_severity m) (pm_category m) (pm_label m)
        (pm_description m) (pm_color m) (pm_metadata m)) m r
    else (false, m, r)
  else if tag_field tag =? 7 then
    if wt_eqb (tag_type tag) kVarint then
      read_into readVarint (fun v m => mkPlotMarker (pm_kind m) (pm_t_start m) (pm_t_end m) (pm_value_low m)
        (pm_value_high m) (pm_has_value m) (mapStatus v) (pm_severity m) (pm_category m) (pm_label m)
        (pm_description m) (pm_color m) (pm_metadata m)) m r
    else (false, m, r)
  else if tag_field tag =? 8 then
    if wt_eqb (tag_type tag) kVarint then
      read_into readVarint (fun v m => mkPlotMarker (pm_kind m) (pm_t_start m) (pm_t_end m) (pm_value_low m)
        (pm_value_high m) (pm_has_value m) (pm_status m) (mapSeverity v) (pm_category m) (pm_label m)
        (pm_description m) (pm_color m) (pm_metadata m)) m r
    else (false, m, r)
  else if tag_field tag =? 9 then
    if wt_eqb (tag_type tag) kLengthDelimited then
      read_into readString (fun v m => mkPlotMarker (pm_kind m) (pm_t_start m) (pm_t_end m) (pm_value_low m)
        (pm_value_high m) (pm_has_value m) (pm_status m) (pm_severity m) v (pm_label m) (pm_description m)
        (pm_color m) (pm_metadata m)) m r
    else (false, m, r)
  else if tag_field tag =? 10 then
    if wt_eqb (tag_type tag) kLengthDelimited then
      read_into readString (fun v m => mkPlotMarker (pm_kind m) (pm_t_start m) (pm_t_end m) (pm_value_low m)
        (pm_value_high m) (pm_has_value m) (pm_status m) (pm_severity m) (pm_category m) v (pm_description m)
        (pm_color m) (pm_metadata m)) m r
    else (false, m, r)
  else if tag_field tag =? 11 then
    if wt_eqb (tag_type tag) kLengthDelimited then
      read_into readString (fun v m => mkPlotMarker (pm_kind m) (pm_t_start m) (pm_t_end m) (pm_value_low m)
        (pm_value_high m) (pm_has_value m) (pm_status m) (pm_severity m) (pm_category m) (pm_label m) v
        (pm_color m) (pm_metadata m)) m r
    else (false, m, r)
  else if tag_field tag =? 12 then
    if wt_eqb (tag_type tag) kLengthDelimited then
      read_nested decodeMarkerColor pm_color (fun v m => mkPlotMarker (pm_kind m) (pm_t_start m) (pm_t_end
        m) (pm_value_low m) (pm_value_high m) (pm_has_value m) (pm_status m) (pm_severity m) (pm_category m)
        (pm_label m) (pm_description m) v (pm_metadata m)) m r
    else (false, m, r)
  else if tag_field tag =? 13 then
    if wt_eqb (tag_type tag) kLengthDelimited then
      read_push decodeProperty property_default (fun v => pm_add_metadata [v]) m r
    else (false, m, r)
  else (false, m, r).

Definition decodeMarker : decoder PlotMarker := parseFields plot_marker_handler.

Definition plot_marker_wf (m : PlotMarker) : Prop :=
  in_s 64 (pm_t_start m) /\ in_s 64 (pm_t_end m) /\ in_u 64 (pm_value_low m) /\ in_u 64 (pm_value_high m) /\
  color_wf (pm_color m) /\ Forall property_wf (pm_metadata m).

#[export] Instance plot_marker_consumes : Consumes plot_marker_handler.
Proof. unfold plot_marker_handler. solve_consumes. Qed.

Record PlotMarkers : Type := mkPlotMarkers { pms_markers : list PlotMarker }.

Definition pms_add_markers (l : list PlotMarker) (m : PlotMarkers) : PlotMarkers := mkPlotMarkers (pms_markers m ++ l).
#[export] Instance pms_add_markers_adds : Adds pms_add_markers.
Proof. solve_adds. Qed.

Definition writePlotMarkers (m : PlotMarkers) : wop := appendAll (fun a => message 1 (writeMarker a)) (pms_markers m).

Definition serializePlotMarkers (m : PlotMarkers) : bytes := writePlotMarkers m [].

Definition markers_step : field_step PlotMarkers string := fun tag m r =>
  if (tag_field tag =? 1) && wt_eqb (tag_type tag) kLengthDelimited then
    take_nested "PlotMarkers wire: bad nested message length"%string "PlotMarkers wire: PlotMarker decode failed"%string
      decodeMarker (fun _ => plot_marker_default) (fun v => pms_add_markers [v]) m r
  else Other.

(** The empty buffer is the empty set: the tombstone that clears the markers. *)
Definition deserializePlotMarkers (data : bytes) : Expected PlotMarkers :=
  if eof data then Ok (mkPlotMarkers [])
  else
    to_expected (field_loop "PlotMarkers wire: bad tag"%string "PlotMarkers wire: skip failed"%string markers_step
      (mkPlotMarkers []) data).

(** ** Round trips *)

Lemma topology_roundtrip t : mapTopology (topologyToEnum t) = t.
Proof. by destruct t. Qed.
Lemma kind_roundtrip k : mapKind (kind_to_wire k) = k.
Proof. by destruct k. Qed.
Lemma status_roundtrip s : mapStatus (status_to_wire s) = s.
Proof. by destruct s. Qed.
Lemma severity_roundtrip s : mapSeverity (severity_to_wire s) = s.
Proof. by destruct s. Qed.

Lemma topology_in_u64 t : in_u 64 (topologyToEnum t).
Proof. destruct t; unfold in_u; simpl; lia. Qed.
Lemma kind_in_u64 k : in_u 64 (kind_to_wire k).
Proof. destruct k; unfold in_u; simpl; lia. Qed.
Lemma status_in_u64 s : in_u 64 (status_to_wire s).
Proof. destruct s; unfold in_u; simpl; lia. Qed.
Lemma severity_in_u64 s : in_u 64 (severity_to_wire s).
Proof. destruct s; unfold in_u; simpl; lia. Qed.

#[export] Instance point2_step_consumes : StepConsumes point2_step.
Proof. unfold point2_step. solve_step_consumes. Qed.
#[export] Instance points_annotation_step_consumes : StepConsumes points_annotation_step.
Proof. unfold points_annotation_step. solve_step_consumes. Qed.
#[export] Instance circle_step_consumes : StepConsumes circle_step.
Proof. unfold circle_step. solve_step_consumes. Qed.
#[export] Instance text_annotation_step_consumes : StepConsumes text_annotation_step.
Proof. unfold text_annotation_step. solve_step_consumes. Qed.
#[export] Instance property_step_consumes : StepConsumes property_step.
Proof. unfold property_step. solve_step_consumes. Qed.
#[export] Instance markers_step_consumes : StepConsumes markers_step.
Proof. unfold markers_step. solve_step_consumes. Qed.
#[export] Instance annotations_step_consumes : StepConsumes annotations_step.
Proof.
  intros t s r s' r' E. unfold annotations_step, readMessage in E. pose proof (readBytes_suffix r).
  destruct (negb _); [discriminate E|].
  destruct (tag_field t =? 6); [eapply take_into_consumes; [|exact E]; apply readBytes_suffix|].
  destruct (readBytes r) as [[d|] r1]; [|discriminate E]. cbn [snd] in *.
  repeat lazymatch type of E with
    | (if ?b then _ else _) = _ => destruct b
    | match ?x with (_, _) => _ end = _ => destruct x as [[[|] ?] ?]
    | Broke _ = _ => discriminate E
    | Took _ _ = _ => injection E as _ <-; assumption
    end.
Qed.

Definition point2_wf (p : Point2) : Prop := in_u 64 (p2_x p) /\ in_u 64 (p2_y p).

Definition points_annotation_wf (m : PointsAnnotation) : Prop :=
  Forall point2_wf (pa_points m) /\ in_u 64 (pa_thickness m) /\ color_wf (pa_color m) /\ Forall color_wf (pa_colors m) /\
  color_wf (pa_fill_color m).

(** A radius other than a NaN that stays finite when doubled, unless it is infinite itself: zeros,
    subnormals and infinities included. *)
Definition radius_ok (bits : Z) : Prop :=
  in_u 64 bits /\
  match bits_to_double bits with
  | S754_finite _ _ e => e <= 970
  | S754_nan => False
  | S754_zero _ | S754_infinity _ => True
  end.

Definition circle_wf (m : CircleAnnotation) : Prop :=
  point2_wf (ca_center m) /\ radius_ok (ca_radius m) /\ in_u 64 (ca_thickness m) /\ color_wf (ca_color m) /\
  color_wf (ca_fill_color m).

Definition text_annotation_wf (m : TextAnnotation) : Prop :=
  point2_wf (ta_position m) /\ in_u 64 (ta_font_size m) /\ color_wf (ta_color m).

Lemma radius_roundtrip r : radius_ok r -> in_u 64 (diameter_of r) /\ radius_of (diameter_of r) = r.
Proof.
  intros [Hr H]. assert (is_nan (bits_to_double r) = false) as Hn by (by destruct (bits_to_double r)).
  pose proof (double_to_bits_inv r Hr Hn) as Hinv. unfold radius_of, diameter_of.
  destruct (bits_to_double r) as [[]|[]| |s p e] eqn:Hb; [subst r; by split; [by_compute|by vm_compute]..|done|].
  destruct (half_double s p e (bits_to_double_ok _ _ _ _ Hb) H) as (p' & e' & -> & Hf' & Hh).
  destruct (bits_to_double_inv s p' e' Hf') as [-> Hu]. split; [done|]. by rewrite Hh.
Qed.

(** A finite radius whose diameter overflows does not survive: 1e308 and 1.5e308 are both read
    back as infinity. *)
Example radius_overflow :
  map (fun r => radius_of (diameter_of r)) [0x7FE1CCF385EBC8A0; 0x7FEAB36D48E1ACF0] = [0x7FF0000000000000; 0x7FF0000000000000].
Proof. by vm_compute. Qed.

#[export] Instance point2_codec : Codec point2_wf writePoint2 decodePoint2.
Proof.
  apply codec_of_loops; [apply _|intros; unfold writePoint2; apply _|]. intros a0 [x y] [? ?]. unfold writePoint2. cbn in *.
  solve_loops.
Qed.

#[export] Instance points_annotation_codec :
  CodecFrom points_annotation_wf writePointsAnnotation decodePointsAnnotation points_annotation_default.
Proof.
  apply codec_from_loops; [apply _|intros; unfold writePointsAnnotation; apply _|].
  intros [t ps th c cs f] (? & ? & ? & ? & ?). pose proof (topology_in_u64 t). unfold writePointsAnnotation. cbn in *.
  solve_loops. cbn. by rewrite topology_roundtrip.
Qed.

Lemma loops_circle c m :
  circle_wf m ->
  loops tt tt circle_step (writeCircleAnnotation m) (mkCircleAnnotation c double_one bits_two green no_fill) m.
Proof.
  destruct m as [ce r t co f]. intros (? & Hr & ? & ? & ?). destruct (radius_roundtrip r Hr) as [? Hrr]. unfold writeCircleAnnotation.
  cbn [ca_center ca_radius ca_thickness ca_color ca_fill_color] in *. solve_loops. cbn. by rewrite Hrr.
Qed.

Lemma loops_text p t m :
  text_annotation_wf m ->
  loops tt tt text_annotation_step (writeTextAnnotation m) (mkTextAnnotation p bits_14 (color 255 255 255 255) t) m.
Proof. destruct m as [po fs c te]. intros (? & ? & ?). unfold writeTextAnnotation. cbn in *. solve_loops. Qed.

#[export] Instance circle_codec : Codec circle_wf writeCircleAnnotation decodeCircleAnnotation.
Proof.
  split; [intros; unfold writeCircleAnnotation; apply _|]. intros m0 m Hwf Hfit. unfold decodeCircleAnnotation, loop_decoder.
  by rewrite (loops_done tt tt circle_step _ _ m (loops_circle (ca_center m0) m Hwf)).
Qed.

#[export] Instance text_annotation_codec : Codec text_annotation_wf writeTextAnnotation decodeTextAnnotation.
Proof.
  split; [intros; unfold writeTextAnnotation; apply _|]. intros m0 m Hwf Hfit. unfold decodeTextAnnotation, loop_decoder.
  by rewrite (loops_done tt tt text_annotation_step _ _ m (loops_text (ta_position m0) (ta_text m0) m Hwf)).
Qed.

#[export] Instance property_codec : Codec property_wf writeProperty decodeProperty.
Proof.
  apply codec_of_loops; [apply _|intros; unfold writeProperty; apply _|]. intros a0 [k v] _. unfold writeProperty. cbn.
  solve_loops.
Qed.

#[export] Instance plot_marker_codec : CodecFrom plot_marker_wf writeMarker decodeMarker plot_marker_default.
Proof.
  apply codec_from_encodes; [intros; unfold writeMarker; apply _|]. intros [k ts te lo hi hv st sv ca la de co me] Hwf.
  unfold plot_marker_wf in Hwf. repeat match goal with H : _ /\ _ |- _ => destruct H end. cbn in *.
  pose proof (kind_in_u64 k). pose proof (status_in_u64 st). pose proof (severity_in_u64 sv).
  pose proof (wrap_range 64 ts ltac:(lia)). pose proof (wrap_range 64 te ltac:(lia)).
  unfold writeMarker. cbn. solve_writes. cbn.
  by rewrite bool_roundtrip, kind_roundtrip, status_roundtrip, severity_roundtrip, !to_signed_wrap by (done || lia).
Qed.

Definition image_annotations_wf (m : ImageAnnotations) : Prop :=
  in_s 64 (ia_timestamp m) /\ Forall points_annotation_wf (ia_points m) /\ Forall circle_wf (ia_circles m) /\
  Forall text_annotation_wf (ia_texts m).

Lemma loops_annotations m :
  image_annotations_wf m ->
  loops "ImageAnnotations wire: bad tag"%string "ImageAnnotations wire: skip failed"%string annotations_step
    (writeImageAnnotations m) image_annotations_default m.
Proof.
  destruct m as [t tp ps cs ts]. intros (? & ? & ? & ?). unfold writeImageAnnotations.
  cbn [ia_timestamp ia_image_topic ia_points ia_circles ia_texts] in *.
  do 3 (eapply loops_seq; [apply _|eapply loops_eq; [loops_write|cbn; reflexivity]|]).
  eapply loops_seq; [apply _| |].
  - instantiate (1 := mkImageAnnotations t [] ps cs ts). destruct (Z.eqb_spec t 0) as [->|]; [apply loops_skip|].
    eapply loops_eq; [eapply (loops_message _ _ annotations_step ia_timestamp
      (fun v m => mkImageAnnotations v (ia_image_topic m) (ia_points m) (ia_circles m) (ia_texts m)));
      [solve_field_ok|done|intros; eval_step; do 2 eexists; reflexivity]|reflexivity].
  - destruct tp as [|b tp]; [apply loops_skip|]. cbn [length Nat.eqb]. eapply loops_eq; [loops_write|reflexivity].
Qed.

Lemma loops_markers m :
  Forall plot_marker_wf (pms_markers m) ->
  loops "PlotMarkers wire: bad tag"%string "PlotMarkers wire: skip failed"%string markers_step (writePlotMarkers m)
    (mkPlotMarkers []) m.
Proof. destruct m as [ms]. intros Hm. unfold writePlotMarkers. cbn in *. solve_loops. Qed.

Lemma wbytes_not_nil f d : field_ok f -> wbytes f d [] <> [].
Proof. intros Hf. rewrite wbytes_bytes. by apply wtag_ne. Qed.

Lemma message_not_nil f w : field_ok f -> message f w [] <> [].
Proof. apply wbytes_not_nil. Qed.

Lemma annotations_written_nil m : writeImageAnnotations m [] = [] -> m = image_annotations_default.
Proof.
  destruct m as [t tp ps cs ts]. unfold writeImageAnnotations. cbn [ia_timestamp ia_image_topic ia_points ia_circles ia_texts].
  rewrite !wseq_bytes by apply _. intros [Hc [Hp [Ht [Hs Htp]%app_eq_nil]%app_eq_nil]%app_eq_nil]%app_eq_nil.
  apply appendAll_message_nil in Hc as ->, Hp as ->, Ht as ->; [|solve_field_ok..].
  destruct (t =? 0) eqn:E; [apply Z.eqb_eq in E as ->|by destruct (message_not_nil 5 _ ltac:(solve_field_ok) Hs)].
  destruct tp; [done|]. cbn [length Nat.eqb] in Htp. unfold wstring in Htp.
  by destruct (wbytes_not_nil 6 _ ltac:(solve_field_ok) Htp).
Qed.

Lemma annotations_written m :
  image_annotations_wf m -> fits (serializeImageAnnotations m) -> serializeImageAnnotations m <> [] ->
  deserializeImageAnnotations (serializeImageAnnotations m) = Ok m.
Proof.
  unfold deserializeImageAnnotations, serializeImageAnnotations. intros Hwf Hfit Hne.
  rewrite (loops_done _ _ annotations_step _ _ m (loops_annotations m Hwf)) by done. by destruct (writeImageAnnotations m []).
Qed.

Lemma markers_written_nil m : serializePlotMarkers m = [] -> m = mkPlotMarkers [].
Proof.
  destruct m as [ms]. unfold serializePlotMarkers, writePlotMarkers. cbn [pms_markers]. intros E.
  by apply appendAll_message_nil in E as ->; [|solve_field_ok].
Qed.

Lemma markers_written m :
  Forall plot_marker_wf (pms_markers m) -> fits (serializePlotMarkers m) -> serializePlotMarkers m <> [] ->
  deserializePlotMarkers (serializePlotMarkers m) = Ok m.
Proof.
  unfold deserializePlotMarkers, serializePlotMarkers. intros Hwf Hfit Hne.
  rewrite (loops_done _ _ markers_step _ _ m (loops_markers m Hwf)) by done. by destruct (writePlotMarkers m []).
Qed.

(** Image annotations and plot markers survive serialization: shapes, texts, colours (also those with
    alpha 0, which the decoders default differently), and the radius of a circle, which
    travels as a diameter, unless its double overflows.  No markers are written as the empty buffer, which
    decodes to no markers; no annotations are too, and are rejected. *)
Theorem overlay_codecs_roundtrip :
  (forall m, image_annotations_wf m -> fits (serializeImageAnnotations m) ->
     deserializeImageAnnotations (serializeImageAnnotations m)
       = if eof (serializeImageAnnotations m) then Err "ImageAnnotations wire: empty buffer" else Ok m) /\
  (forall m, serializeImageAnnotations m = [] <-> m = image_annotations_default) /\
  (forall m, Forall plot_marker_wf (pms_markers m) -> fits (serializePlotMarkers m) ->
     deserializePlotMarkers (serializePlotMarkers m) = Ok m).
Proof.
  split_and!; [intros m Hwf Hfit|intros m; split; [apply annotations_written_nil|by intros ->]|intros m Hwf Hfit].
  - destruct (eof _) eqn:E; [by unfold deserializeImageAnnotations; rewrite E|]. apply annotations_written; [done..|].
    intros Hn. by rewrite Hn in E.
  - destruct (decide (serializePlotMarkers m = [])) as [Hn|]; [|by apply markers_written].
    rewrite Hn. by apply markers_written_nil in Hn as ->.
Qed.

Definition sample_annotations : ImageAnnotations :=
  mkImageAnnotations (-1) (str "cam") [mkPointsAnnotation kTopologyLineLoop [mkPoint2 1 2] bits_two green [no_fill] no_fill]
    [mkCircleAnnotation point2_default (double_to_bits (ddiv d1 (int_to_double 3))) bits_two (color 1 2 3 4) no_fill] [].

Definition sample_markers : PlotMarkers :=
  mkPlotMarkers [mkPlotMarker kEvent (-5) 0 (double_to_bits d1) 0 true kFail kCritical (str "overspeed") [] [] (color 0 0 0 0)
                   [mkMarkerProperty (str "k") (str "v")]].

Lemma color_ok r g b a : in_u 8 r -> in_u 8 g -> in_u 8 b -> in_u 8 a -> color_wf (color r g b a).
Proof. intros. exists r, g, b, a. by split_and!. Qed.

Ltac check_fields :=
  repeat lazymatch goal with
  | |- in_u _ _ => by_compute
  | |- in_s _ _ => by_compute
  | |- color_wf green => apply color_ok
  | |- color_wf no_fill => apply color_ok
  | |- color_wf _ => apply color_ok
  | |- property_wf _ => exact I
  | |- Forall _ _ => constructor
  | |- _ /\ _ => split
  end.

Lemma sample_circle_radius : radius_ok (double_to_bits (ddiv d1 (int_to_double 3))).
Proof. split; [by_compute|]. vm_compute. discriminate. Qed.

Lemma sample_annotations_wf : image_annotations_wf sample_annotations.
Proof.
  unfold image_annotations_wf, sample_annotations. cbn [ia_timestamp ia_points ia_circles ia_texts]. check_fields;
    unfold points_annotation_wf, circle_wf, point2_wf;
    cbn [pa_points pa_thickness pa_color pa_colors pa_fill_color ca_center ca_radius ca_thickness ca_color ca_fill_color
      p2_x p2_y point2_default]; check_fields; try apply sample_circle_radius; unfold point2_wf; cbn [p2_x p2_y]; check_fields.
Qed.

Lemma sample_markers_wf : Forall plot_marker_wf (pms_markers sample_markers).
Proof.
  unfold sample_markers. cbn [pms_markers]. check_fields. unfold plot_marker_wf.
  cbn [pm_t_start pm_t_end pm_value_low pm_value_high pm_color pm_metadata]. check_fields.
Qed.

Lemma overlay_codecs_roundtrip_witness :
  deserializeImageAnnotations (serializeImageAnnotations sample_annotations) = Ok sample_annotations /\
  deserializePlotMarkers (serializePlotMarkers sample_markers) = Ok sample_markers.
Proof.
  destruct overlay_codecs_roundtrip as (Ha & _ & Hm). split.
  - rewrite (Ha sample_annotations sample_annotations_wf ltac:(vm_compute; reflexivity)). vm_compute. reflexivity.
  - exact (Hm sample_markers sample_markers_wf ltac:(vm_compute; reflexivity)).
Defined.
