(* ===== verification/Text.v ===== *)
(** * Text: strings and orders

    [std::string] and [std::string_view] as byte lists: searching, splitting and
    the lexicographic order; three-way comparisons that are total orders. *)

From Stdlib Require Export Strings.Ascii.
From stdpp Require Import sets.
From S2P Require Import Prelude.

(** A character literal of the source. *)
Definition ch (c : ascii) : byte := byte_of_ascii c.
Arguments ch c%_char_scope.

Definition byte_eqb (a b : byte) : bool := bool_decide (a = b).

(** [text.find(c)]: the index of the first occurrence. *)
Fixpoint find_char (c : byte) (text : bytes) : option nat :=
  match text with
  | [] => None
  | b :: text' => if byte_eqb b c then Some O else option_map S (find_char c text')
  end.

(** [text.rfind(c)]. *)
Fixpoint rfind_char (c : byte) (text : bytes) : option nat :=
  match text with
  | [] => None
  | b :: text' =>
    match rfind_char c text' with
    | Some i => Some (S i)
    | None => if byte_eqb b c then Some O else None
    end
  end.

Fixpoint starts_with (prefix text : bytes) : bool :=
  match prefix, text with
  | [], _ => true
  | a :: prefix', b :: text' => byte_eqb a b && starts_with prefix' text'
  | _ :: _, [] => false
  end.

(** [text.find(pattern)]. *)
Fixpoint find_sub (pattern text : bytes) : option nat :=
  if starts_with pattern text then Some O
  else match text with
       | [] => None
       | _ :: text' => option_map S (find_sub pattern text')
       end.

(** The pieces between the separators: a text without separators is one piece. *)
Fixpoint split_on (sep : byte) (text : bytes) : list bytes :=
  match text with
  | [] => [[]]
  | b :: text' =>
    if byte_eqb b sep then [] :: split_on sep text'
    else match split_on sep text' with
         | piece :: pieces => (b :: piece) :: pieces
         | [] => [[b]]
         end
  end.

(** The pieces with separators between them. *)
Fixpoint join_with (sep : byte) (pieces : list bytes) : bytes :=
  match pieces with
  | [] => []
  | [piece] => piece
  | piece :: pieces' => piece ++ sep :: join_with sep pieces'
  end.

Definition bytes_eqb (a b : bytes) : bool := bool_decide (a = b).

Definition is_lt (c : comparison) : bool := match c with Lt => true | _ => false end.

Definition isAsciiDigit (c : byte) : bool := (48 <=? b2z c) && (b2z c <=? 57).
Definition isAsciiLetter (c : byte) : bool :=
  ((65 <=? b2z c) && (b2z c <=? 90)) || ((97 <=? b2z c) && (b2z c <=? 122)).

(** ** Lemmas on searching and splitting *)

Lemma byte_eqb_eq a b : byte_eqb a b = true <-> a = b.
Proof. unfold byte_eqb. apply bool_decide_eq_true. Qed.

Lemma byte_eqb_neq a b : byte_eqb a b = false <-> a <> b.
Proof. unfold byte_eqb. apply bool_decide_eq_false. Qed.

Lemma byte_eqb_refl a : byte_eqb a a = true.
Proof. by apply byte_eqb_eq. Qed.

Lemma bytes_eqb_eq a b : bytes_eqb a b = true <-> a = b.
Proof. unfold bytes_eqb. apply bool_decide_eq_true. Qed.

Lemma bytes_eqb_neq a b : bytes_eqb a b = false <-> a <> b.
Proof. unfold bytes_eqb. apply bool_decide_eq_false. Qed.

Lemma bytes_eqb_refl a : bytes_eqb a a = true.
Proof. by apply bytes_eqb_eq. Qed.

Lemma find_char_some c text i :
  find_char c text = Some i <->
  exists tl, text = take i text ++ c :: tl /\ i = length (take i text) /\ c ∉ take i text.
Proof.
  revert i. induction text as [|b text IH]; intros i; cbn [find_char].
  - split; [done|]. intros (tl & H & _). by destruct i.
  - destruct (byte_eqb b c) eqn:E.
    + apply byte_eqb_eq in E as ->. split.
      * intros [= <-]. exists text. by split_and!; [..|apply not_elem_of_nil].
      * intros (tl & H & Hi & Hn). destruct i as [|i]; [done|]. cbn in Hn. set_unfold. naive_solver.
    + apply byte_eqb_neq in E. destruct i as [|i].
      * split; [by destruct (find_char c text)|]. intros (tl & H & _). cbn in H. congruence.
      * cbn [take app length]. split.
        -- intros H. destruct (find_char c text) as [j|] eqn:Ef; [|done]. injection H as ->.
           destruct (proj1 (IH i) eq_refl) as (tl & H1 & H2 & H3). exists tl.
           split_and!; [by rewrite <-H1|by f_equal|]. by apply not_elem_of_cons.
        -- intros (tl & H1 & H2 & H3). injection H1 as H1. injection H2 as H2.
           apply not_elem_of_cons in H3 as [_ H3].
           rewrite (proj2 (IH i)); [done|]. by exists tl.
Qed.

Lemma find_char_none c text : find_char c text = None <-> c ∉ text.
Proof.
  induction text as [|b text IH]; cbn [find_char].
  - split; [intros _; apply not_elem_of_nil|done].
  - destruct (byte_eqb b c) eqn:E.
    + apply byte_eqb_eq in E as ->. split; [done|]. intros H. exfalso. apply H. left.
    + apply byte_eqb_neq in E. rewrite not_elem_of_cons, <-IH.
      destruct (find_char c text); cbn; naive_solver.
Qed.

(** Searching a text that ends a piece at its first separator. *)
Lemma find_char_app c l tl : c ∉ l -> find_char c (l ++ c :: tl) = Some (length l).
Proof.
  induction l as [|b l IH]; cbn [find_char app length].
  - by rewrite byte_eqb_refl.
  - rewrite not_elem_of_cons. intros [Hb Hl]. rewrite (proj2 (byte_eqb_neq b c)) by done.
    by rewrite IH.
Qed.

Lemma split_on_nonempty sep text : split_on sep text <> [].
Proof. destruct text as [|b text]; [done|]. cbn. repeat case_match; done. Qed.

Lemma join_split sep text : join_with sep (split_on sep text) = text.
Proof.
  induction text as [|b text IH]; [done|]. cbn [split_on]. destruct (byte_eqb b sep) eqn:E.
  - apply byte_eqb_eq in E as ->. pose proof (split_on_nonempty sep text).
    cbn [join_with]. destruct (split_on sep text); [done|]. by rewrite IH.
  - pose proof (split_on_nonempty sep text). destruct (split_on sep text) as [|p ps]; [done|].
    cbn [join_with] in *. by destruct ps; rewrite <-IH.
Qed.

Lemma split_pieces sep text : Forall (fun p => sep ∉ p) (split_on sep text).
Proof.
  induction text as [|b text IH]; cbn [split_on]; [repeat constructor; apply not_elem_of_nil|].
  destruct (byte_eqb b sep) eqn:E; [constructor; [apply not_elem_of_nil|done]|].
  apply byte_eqb_neq in E. destruct (split_on sep text); [by repeat constructor; set_solver|].
  apply Forall_cons in IH as [? ?]. constructor; [set_solver|done].
Qed.

Lemma split_on_piece sep p : sep ∉ p -> split_on sep p = [p].
Proof.
  induction p as [|b p IH]; intros Hp; [done|]. apply not_elem_of_cons in Hp as [Hb Hp].
  cbn [split_on]. rewrite (proj2 (byte_eqb_neq b sep)) by done. by rewrite IH.
Qed.

Lemma split_on_app sep p tl : sep ∉ p -> split_on sep (p ++ sep :: tl) = p :: split_on sep tl.
Proof.
  induction p as [|b p IH]; intros Hp; cbn [split_on app]; [by rewrite byte_eqb_refl|].
  apply not_elem_of_cons in Hp as [Hb Hp]. rewrite (proj2 (byte_eqb_neq b sep)) by done.
  by rewrite IH.
Qed.

Lemma split_join sep ps : ps <> [] -> Forall (fun p => sep ∉ p) ps -> split_on sep (join_with sep ps) = ps.
Proof.
  intros Hne Hps. induction Hps as [|p ps Hp Hps IH]; [done|].
  destruct ps as [|q ps]; cbn [join_with]; [by apply split_on_piece|].
  rewrite split_on_app by done. f_equal. by apply IH.
Qed.

(** ** Three-way comparisons *)

(** [<=>] of a total preorder: [Eq] is an equivalence the order respects. *)
Class TotalCmp {A} (P : A -> Prop) (cmp : A -> A -> comparison) : Prop := {
  cmp_flip : forall x y, P x -> P y -> cmp y x = CompOpp (cmp x y);
  cmp_lt_trans : forall x y z, P x -> P y -> P z -> cmp x y = Lt -> cmp y z = Lt -> cmp x z = Lt;
  cmp_eq_l : forall x y z, P x -> P y -> P z -> cmp x y = Eq -> cmp x z = cmp y z
}.

(** A comparison that decides by [c1] and, if that is a tie, by [c2]. *)
Definition cmp_then (c1 c2 : comparison) : comparison :=
  match c1 with Eq => c2 | _ => c1 end.

#[export] Instance total_Z : TotalCmp (fun _ => True) Z.compare.
Proof.
  split; intros.
  - apply Z.compare_antisym.
  - rewrite Z.compare_lt_iff in *. lia.
  - rewrite Z.compare_eq_iff in *. by subst.
Qed.

Lemma total_key {A B} (P : A -> Prop) (Q : B -> Prop) (key : A -> B) cmp `{!TotalCmp Q cmp} :
  (forall x, P x -> Q (key x)) -> TotalCmp P (fun x y => cmp (key x) (key y)).
Proof.
  intros HP. split; intros.
  - apply cmp_flip; auto.
  - eapply (cmp_lt_trans (P:=Q) (key x) (key y)); eauto.
  - apply (cmp_eq_l (P:=Q)); auto.
Qed.

Lemma total_ext {A} (P : A -> Prop) c1 c2 :
  (forall x y, P x -> P y -> c1 x y = c2 x y) -> TotalCmp P c1 -> TotalCmp P c2.
Proof.
  intros He Ht. split; intros.
  - rewrite <-!He by done. by apply cmp_flip.
  - rewrite <-!He in * by done. by eapply (cmp_lt_trans (P:=P) x y z).
  - rewrite <-!He in * by done. by apply (cmp_eq_l (P:=P)).
Qed.

Lemma total_weaken {A} (P Q : A -> Prop) c : (forall x, P x -> Q x) -> TotalCmp Q c -> TotalCmp P c.
Proof.
  intros HPQ Ht. split; intros.
  - apply (cmp_flip (P:=Q)); auto.
  - eapply (cmp_lt_trans (P:=Q) x y z); auto.
  - apply (cmp_eq_l (P:=Q)); auto.
Qed.

Lemma total_then {A} (P : A -> Prop) c1 c2 :
  TotalCmp P c1 -> TotalCmp P c2 -> TotalCmp P (fun x y => cmp_then (c1 x y) (c2 x y)).
Proof.
  intros H1 H2. split.
  - intros x y Hx Hy. rewrite (cmp_flip (P:=P) (cmp:=c1) x y), (cmp_flip (P:=P) (cmp:=c2) x y) by done.
    by destruct (c1 x y).
  - intros x y z Hx Hy Hz. destruct (c1 x y) eqn:E1; cbn; [| |done].
    + rewrite (cmp_eq_l (P:=P) (cmp:=c1) x y z) by done.
      destruct (c1 y z); cbn; [|done..]. by apply (cmp_lt_trans (P:=P)).
    + intros _. destruct (c1 y z) eqn:E2; cbn; [|intros _|done].
      * intros _. assert (c1 x z = Lt) as ->; [|done].
        assert (c1 z y = Eq) as E3 by (by rewrite (cmp_flip (P:=P) y z), E2).
        rewrite (cmp_flip (P:=P) (cmp:=c1) z x), (cmp_eq_l (P:=P) (cmp:=c1) z y x),
          (cmp_flip (P:=P) (cmp:=c1) x y), E1 by done. done.
      * by rewrite (cmp_lt_trans (P:=P) x y z).
  - intros x y z Hx Hy Hz. destruct (c1 x y) eqn:E1; cbn; [|done..]. intros E2.
    rewrite (cmp_eq_l (P:=P) (cmp:=c1) x y z) by done.
    by rewrite (cmp_eq_l (P:=P) (cmp:=c2) x y z).
Qed.

(** Lexicographic comparison of lists; a proper prefix is less. *)
Fixpoint list_cmp {A} (cmp : A -> A -> comparison) (l k : list A) : comparison :=
  match l, k with
  | [], [] => Eq
  | [], _ :: _ => Lt
  | _ :: _, [] => Gt
  | a :: l', b :: k' => cmp_then (cmp a b) (list_cmp cmp l' k')
  end.

#[export] Instance total_list {A} (P : A -> Prop) cmp `{!TotalCmp P cmp} :
  TotalCmp (Forall P) (list_cmp cmp).
Proof.
  split.
  - induction x as [|a x IH]; intros [|b y] Hx Hy; try done. cbn.
    apply Forall_cons in Hx as [Ha Hx]. apply Forall_cons in Hy as [Hb Hy].
    rewrite (cmp_flip (P:=P) (cmp:=cmp) a b), (IH y) by done. by destruct (cmp a b).
  - induction x as [|a x IH]; intros [|b y] [|c z] Hx Hy Hz; try done. cbn.
    apply Forall_cons in Hx as [Ha Hx]. apply Forall_cons in Hy as [Hb Hy].
    apply Forall_cons in Hz as [Hc Hz]. destruct (cmp a b) eqn:E1; cbn; [| |done].
    + rewrite (cmp_eq_l (P:=P) (cmp:=cmp) a b c) by done. destruct (cmp b c); cbn; [|done..]. by apply IH.
    + intros _. destruct (cmp b c) eqn:E2; cbn; [|intros _|done].
      * intros _. assert (cmp a c = Lt) as ->; [|done].
        assert (cmp c b = Eq) as E3 by (by rewrite (cmp_flip (P:=P) (cmp:=cmp) b c), E2).
        rewrite (cmp_flip (P:=P) (cmp:=cmp) c a), (cmp_eq_l (P:=P) (cmp:=cmp) c b a), (cmp_flip (P:=P) (cmp:=cmp) a b), E1 by done.
        done.
      * by rewrite (cmp_lt_trans (P:=P) (cmp:=cmp) a b c).
  - induction x as [|a x IH]; intros [|b y] [|c z] Hx Hy Hz; try done. cbn.
    apply Forall_cons in Hx as [Ha Hx]. apply Forall_cons in Hy as [Hb Hy].
    apply Forall_cons in Hz as [Hc Hz]. destruct (cmp a b) eqn:E1; cbn; [|done..]. intros E2.
    rewrite (cmp_eq_l (P:=P) (cmp:=cmp) a b c) by done. destruct (cmp b c); cbn; [|done..]. by apply IH.
Qed.

(** A comparison that ties only equal elements. *)
Lemma list_cmp_eq {A} (cmp : A -> A -> comparison) (P : A -> Prop) l k :
  (forall a b, P a -> P b -> cmp a b = Eq <-> a = b) -> Forall P l -> Forall P k ->
  list_cmp cmp l k = Eq <-> l = k.
Proof.
  intros Hc Hl. revert k. induction Hl as [|a l Ha Hl IH]; intros [|b k] Hk; try done. cbn.
  apply Forall_cons in Hk as [Hb Hk]. specialize (Hc a b Ha Hb). specialize (IH k Hk).
  destruct (cmp a b); cbn; [|(split; [done|]; intros [= -> ->]; by destruct (proj2 Hc eq_refl))..].
  rewrite IH. split; [intros ->; f_equal; by apply Hc|by intros [= _ ->]].
Qed.

(** The order of [std::string_view]: bytes compare as unsigned characters. *)
Definition byte_cmp (a b : byte) : comparison := Z.compare (b2z a) (b2z b).
Definition string_cmp : bytes -> bytes -> comparison := list_cmp byte_cmp.

#[export] Instance total_byte : TotalCmp (fun _ => True) byte_cmp.
Proof. by apply (total_key (fun _ => True) (fun _ => True) b2z Z.compare). Qed.

#[export] Instance total_string : TotalCmp (fun _ => True) string_cmp.
Proof.
  apply (total_weaken _ (Forall (fun _ => True))); [intros x _; by apply Forall_true|].
  unfold string_cmp. apply _.
Qed.

Lemma string_cmp_eq a b : string_cmp a b = Eq <-> a = b.
Proof.
  apply (list_cmp_eq byte_cmp (fun _ => True)); [|by apply Forall_true..].
  intros x y _ _. unfold byte_cmp. rewrite Z.compare_eq_iff. split; [apply b2z_inj|by intros ->].
Qed.

(** A text without a separator, or cut at its first one. *)
Lemma find_char_view c text :
  (find_char c text = None /\ c ∉ text) \/
  exists l tl, find_char c text = Some (length l) /\ text = l ++ c :: tl /\ c ∉ l /\
    take (length l) text = l /\ drop (S (length l)) text = tl.
Proof.
  destruct (find_char c text) as [i|] eqn:E; [right|left; by rewrite <-find_char_none].
  apply find_char_some in E as (tl & Ht & Hi & Hn). set (l := take i text) in *.
  exists l, tl. rewrite <-Hi. split_and!; try done.
  rewrite Ht, Hi. rewrite cons_middle, app_assoc. apply drop_app_length'.
  rewrite length_app. cbn. lia.
Qed.

Lemma take_app_first {A} (l : list A) x tl : take (length l) (l ++ x :: tl) = l.
Proof. apply take_app_length. Qed.

Lemma drop_app_first {A} (l : list A) x tl : drop (S (length l)) (l ++ x :: tl) = tl.
Proof.
  rewrite cons_middle, app_assoc. apply drop_app_length'. rewrite length_app. cbn. lia.
Qed.

Lemma not_in_join c sep ps :
  c <> sep -> Forall (fun p => c ∉ p) ps -> c ∉ join_with sep ps.
Proof.
  intros Hc Hps. induction Hps as [|p ps Hp Hps IH]; [apply not_elem_of_nil|].
  destruct ps; cbn [join_with]; [done|]. rewrite not_elem_of_app, not_elem_of_cons. done.
Qed.

(** ** Prefixes and last occurrences *)

Lemma starts_with_self pat t : starts_with pat (pat ++ t) = true.
Proof. induction pat as [|b pat IH]; [done|]. cbn. by rewrite byte_eqb_refl. Qed.

Lemma starts_with_cut pat t : starts_with pat t = true -> t = pat ++ drop (length pat) t.
Proof.
  revert t. induction pat as [|b pat IH]; intros [|c t]; [done..|]. cbn. intros [->%byte_eqb_eq H]%andb_prop.
  f_equal. by apply IH.
Qed.

Lemma starts_with_long pat a x y : (length pat <= length a)%nat -> starts_with pat (a ++ x) = starts_with pat (a ++ y).
Proof.
  revert a. induction pat as [|b pat IH]; intros [|c a] H; cbn in H; [done..|lia|]. cbn. by rewrite (IH a) by lia.
Qed.

Lemma rfind_after c l tl : c ∉ tl -> rfind_char c (l ++ c :: tl) = Some (length l).
Proof.
  intros H. assert (rfind_char c tl = None) as Hn.
  { induction tl as [|b tl IH]; [done|]. apply not_elem_of_cons in H as [Hb Hc]. cbn. rewrite IH by done.
    by rewrite (proj2 (byte_eqb_neq b c)). }
  induction l as [|b l IH]; cbn [app rfind_char length]; [by rewrite Hn, byte_eqb_refl|]. by rewrite IH.
Qed.

Lemma rfind_found c t i : rfind_char c t = Some i -> t = take i t ++ c :: drop (S i) t /\ length (take i t) = i.
Proof.
  revert i. induction t as [|b t IH]; intros i; [done|]. cbn [rfind_char]. destruct (rfind_char c t) as [j|].
  - intros [= <-]. destruct (IH j eq_refl) as [E Hl]. cbn [take drop length app]. by rewrite <-E, Hl.
  - destruct (byte_eqb b c) eqn:E; [|done]. apply byte_eqb_eq in E as ->. by intros [= <-].
Qed.

Lemma rfind_missing c t : rfind_char c t = None -> c ∉ t.
Proof.
  induction t as [|b t IH]; [intros _; apply not_elem_of_nil|]. cbn. destruct (rfind_char c t); [done|].
  destruct (byte_eqb b c) eqn:E; [done|]. intros _. apply byte_eqb_neq in E. apply not_elem_of_cons. auto.
Qed.

Lemma starts_with_same p q t : starts_with (p ++ q) (p ++ t) = starts_with q t.
Proof. induction p as [|c p IH]; [done|]. cbn. by rewrite byte_eqb_refl. Qed.
