(* ===== verification/SemVer.v ===== *)
(** * SemVer: semantic versions

    [pj_base/src/semver.cpp]: parsing (SemVer 2.0 grammar, numbers of any
    length kept as digit strings) and precedence.  The scan for separators of
    [parseIdentifiers] is [split_on]; its checks run piece by piece in order. *)

From S2P Require Import Prelude Text.

Definition isNumeric (identifier : bytes) : bool :=
  forallb isAsciiDigit identifier && negb (bool_decide (identifier = [])).

Definition isValidIdentifier (identifier : bytes) : bool :=
  negb (bool_decide (identifier = [])) &&
  forallb (fun c => isAsciiDigit c || isAsciiLetter c || byte_eqb c (ch "-")) identifier.

(** The checks on one identifier, in the order of the loop. *)
Fixpoint check_identifiers (kind : string) (reject_numeric_leading_zero : bool)
    (pieces : list bytes) : Expected (list bytes) :=
  match pieces with
  | [] => Ok []
  | identifier :: pieces' =>
    if negb (isValidIdentifier identifier)
    then Err (kind +:+ " contains an invalid identifier")
    else if reject_numeric_leading_zero && (1 <? length identifier)%nat
            && bool_decide (head identifier = Some (ch "0")) && isNumeric identifier
    then Err (kind +:+ " numeric identifiers must not contain leading zeros")
    else let? identifiers := check_identifiers kind reject_numeric_leading_zero pieces' in
         Ok (identifier :: identifiers)
  end.

Definition parseIdentifiers (text : bytes) (kind : string) (reject_numeric_leading_zero : bool)
  : Expected (list bytes) :=
  if bool_decide (text = []) then Err (kind +:+ " identifiers must not be empty")
  else check_identifiers kind reject_numeric_leading_zero (split_on (ch ".") text).

Definition parseCore (text : bytes) : Expected (list bytes) :=
  let? components := parseIdentifiers text "core version" true in
  if negb (length components =? 3)%nat
  then Err "core version must contain exactly three numeric components"
  else if negb (forallb isNumeric components)
  then Err "core version components must be numeric"
  else Ok components.

Record SemVer : Set := mkSemVer {
  major : bytes; minor : bytes; patch : bytes; prerelease : list bytes }.

(** [text.substr(0, position)] and [text.substr(position + 1)]. *)
Definition before (position : option nat) (text : bytes) : bytes :=
  match position with Some i => take i text | None => text end.

Definition parse (text : bytes) : Expected SemVer :=
  if bool_decide (text = []) then Err "semantic version must not be empty"
  else
    let build_separator := find_char (ch "+") text in
    let version_and_prerelease := before build_separator text in
    let? _ :=
      match build_separator with
      | Some i => parseIdentifiers (drop (S i) text) "build metadata" false
      | None => Ok []
      end in
    let prerelease_separator := find_char (ch "-") version_and_prerelease in
    let? components := parseCore (before prerelease_separator version_and_prerelease) in
    let? pre :=
      match prerelease_separator with
      | Some i => parseIdentifiers (drop (S i) version_and_prerelease) "pre-release" true
      | None => Ok []
      end in
    match components with
    | [x; y; z] => Ok (mkSemVer x y z pre)
    | _ => Err ""
    end.

Definition isValid (text : bytes) : bool := has_value (parse text).

Definition compareNumeric (lhs rhs : bytes) : comparison :=
  if (length lhs <? length rhs)%nat then Lt
  else if (length rhs <? length lhs)%nat then Gt
  else string_cmp lhs rhs.

Definition compareLexical (lhs rhs : bytes) : comparison := string_cmp lhs rhs.

(** The loop over the common identifiers, then the number of identifiers. *)
Fixpoint compare_prerelease (lhs rhs : list bytes) : comparison :=
  match lhs, rhs with
  | [], [] => Eq
  | [], _ :: _ => Lt
  | _ :: _, [] => Gt
  | l :: lhs', r :: rhs' =>
    let lhs_numeric := isNumeric l in
    let rhs_numeric := isNumeric r in
    if negb (Bool.eqb lhs_numeric rhs_numeric) then (if lhs_numeric then Lt else Gt)
    else
      match (if lhs_numeric then compareNumeric l r else compareLexical l r) with
      | Eq => compare_prerelease lhs' rhs'
      | c => c
      end
  end.

Definition compare (a b : SemVer) : comparison :=
  match compareNumeric (major a) (major b) with
  | Eq =>
    match compareNumeric (minor a) (minor b) with
    | Eq =>
      match compareNumeric (patch a) (patch b) with
      | Eq =>
        match prerelease a, prerelease b with
        | [], [] => Eq
        | [], _ :: _ => Gt
        | _ :: _, [] => Lt
        | p, q => compare_prerelease p q
        end
      | c => c
      end
    | c => c
    end
  | c => c
  end.

(** ** The grammar *)

(** A version as its parts: identifiers of the core, the pre-release and the
    build metadata (absent when empty), printed with their separators. *)
Definition render (v : SemVer) (build : list bytes) : bytes :=
  join_with (ch ".") [major v; minor v; patch v]
  ++ (if bool_decide (prerelease v = []) then [] else ch "-" :: join_with (ch ".") (prerelease v))
  ++ (if bool_decide (build = []) then [] else ch "+" :: join_with (ch ".") build).

Definition no_leading_zero (identifier : bytes) : bool :=
  (length identifier <=? 1)%nat || negb (bool_decide (head identifier = Some (ch "0"))).

Definition core_ok (identifier : bytes) : bool :=
  isNumeric identifier && no_leading_zero identifier.

Definition prerelease_ok (identifier : bytes) : bool :=
  isValidIdentifier identifier && (negb (isNumeric identifier) || no_leading_zero identifier).

Definition semver_ok (v : SemVer) : bool :=
  core_ok (major v) && core_ok (minor v) && core_ok (patch v) && forallb prerelease_ok (prerelease v).

Definition build_ok (build : list bytes) : bool := forallb isValidIdentifier build.

(** ** Identifiers *)

Definition ident_ok (reject : bool) (p : bytes) : bool :=
  isValidIdentifier p &&
  negb (reject && (1 <? length p)%nat && bool_decide (head p = Some (ch "0")) && isNumeric p).

Lemma check_identifiers_ok kind reject ps l :
  check_identifiers kind reject ps = Ok l <-> l = ps /\ forallb (ident_ok reject) ps = true.
Proof.
  revert l. induction ps as [|p ps IH]; intros l; cbn [check_identifiers forallb].
  - split; [intros [= <-]; done|intros [-> _]; done].
  - unfold ident_ok at 1.
    destruct (isValidIdentifier p); cbn [negb andb]; [|by split; [|intros [_ ?]]].
    destruct (reject && _ && _ && _); cbn [negb andb]; [by split; [|intros [_ ?]]|].
    destruct (check_identifiers kind reject ps) as [k|e]; cbn [ebind].
    + destruct (IH k) as [H _]. destruct (H eq_refl) as [-> ->].
      split; [intros [= <-]; done|intros [-> _]; done].
    + split; [done|]. intros [-> Hf]. discriminate (proj2 (IH ps) (conj eq_refl Hf)).
Qed.

(** A valid identifier contains none of the separators. *)
Lemma valid_chars p c :
  isValidIdentifier p = true -> isAsciiDigit c = false -> isAsciiLetter c = false ->
  c <> ch "-" -> c ∉ p.
Proof.
  unfold isValidIdentifier. intros Hp Hd Hl Hm Hin. apply andb_true_iff in Hp as [_ Hp].
  rewrite forallb_forall in Hp. specialize (Hp c). rewrite <-list_elem_of_In in Hp.
  specialize (Hp Hin). rewrite Hd, Hl in Hp. by apply byte_eqb_eq in Hp.
Qed.

Lemma ident_no_dot reject ps :
  forallb (ident_ok reject) ps = true -> Forall (fun p => ch "." ∉ p) ps.
Proof.
  rewrite forallb_forall, Forall_forall. intros H p Hp. apply list_elem_of_In in Hp.
  specialize (H p Hp). apply andb_true_iff in H as [H _]. by apply (valid_chars p).
Qed.

Lemma ident_no_plus reject ps :
  forallb (ident_ok reject) ps = true -> ch "+" ∉ join_with (ch ".") ps.
Proof.
  intros H. apply not_in_join; [done|]. rewrite forallb_forall in H. rewrite Forall_forall.
  intros p Hp. apply list_elem_of_In in Hp. specialize (H p Hp).
  apply andb_true_iff in H as [H _]. by apply (valid_chars p).
Qed.

Lemma parseIdentifiers_ok text kind reject l :
  parseIdentifiers text kind reject = Ok l <->
  l <> [] /\ text = join_with (ch ".") l /\ forallb (ident_ok reject) l = true.
Proof.
  unfold parseIdentifiers. case_bool_decide as Ht.
  - split; [done|]. intros (Hl & Hj & Hf). subst text. destruct l as [|p l]; [done|].
    cbn [forallb] in Hf. apply andb_true_iff in Hf as [Hp _].
    assert (p <> []) by (intros ->; done). exfalso.
    destruct l; cbn [join_with] in Hj; by destruct p.
  - rewrite check_identifiers_ok. split.
    + intros [-> Hf]. split_and!; [apply split_on_nonempty|by rewrite join_split|done].
    + intros (Hl & -> & Hf). rewrite split_join by (done || by eapply ident_no_dot). done.
Qed.

Lemma numeric_valid p : isNumeric p = true -> isValidIdentifier p = true.
Proof.
  unfold isNumeric, isValidIdentifier. rewrite !andb_true_iff. intros [Hf Hne]. split; [done|].
  rewrite forallb_forall in *. intros c Hc. by rewrite (Hf c Hc).
Qed.

Lemma prerelease_ok_ident p : prerelease_ok p = ident_ok true p.
Proof.
  unfold prerelease_ok, ident_ok, no_leading_zero. f_equal. cbn [andb].
  rewrite Nat.leb_antisym. destruct (1 <? length p)%nat; cbn; [|by destruct (isNumeric p)].
  by destruct (bool_decide _), (isNumeric p).
Qed.

Lemma core_ok_ident p : core_ok p = isNumeric p && ident_ok true p.
Proof.
  unfold core_ok. destruct (isNumeric p) eqn:E; [|done]. cbn [andb].
  rewrite <-prerelease_ok_ident. unfold prerelease_ok. rewrite (numeric_valid p E), E. done.
Qed.

Lemma core_idents l : forallb core_ok l = true -> forallb (ident_ok true) l = true /\ forallb isNumeric l = true.
Proof.
  induction l as [|p l IH]; [done|]. cbn [forallb]. rewrite !andb_true_iff, core_ok_ident.
  rewrite andb_true_iff. tauto.
Qed.

Lemma idents_core l : forallb (ident_ok true) l = true -> forallb isNumeric l = true -> forallb core_ok l = true.
Proof.
  induction l as [|p l IH]; [done|]. cbn [forallb]. rewrite !andb_true_iff, core_ok_ident.
  rewrite andb_true_iff. tauto.
Qed.

Lemma parseCore_ok text l :
  parseCore text = Ok l <->
  length l = 3%nat /\ text = join_with (ch ".") l /\ forallb core_ok l = true.
Proof.
  unfold parseCore. split.
  - destruct (parseIdentifiers text "core version" true) as [k|e] eqn:E; [|done]. cbn [ebind].
    apply parseIdentifiers_ok in E as (Hk & Ht & Hf).
    destruct (length k =? 3)%nat eqn:El; [|done]. apply Nat.eqb_eq in El. cbn [negb].
    destruct (forallb isNumeric k) eqn:En; [|done]. cbn [negb]. intros [= <-].
    split_and!; [done..|]. by apply idents_core.
  - intros (Hl & Ht & Hc). destruct (core_idents l Hc) as [Hi Hn].
    rewrite (proj2 (parseIdentifiers_ok text "core version" true l)) by
      (split_and!; [by destruct l|done..]).
    cbn [ebind]. by rewrite Hl, Hn.
Qed.

(** The text before the build metadata. *)
Definition version_text (v : SemVer) : bytes :=
  join_with (ch ".") [major v; minor v; patch v]
  ++ (if bool_decide (prerelease v = []) then [] else ch "-" :: join_with (ch ".") (prerelease v)).

Lemma semver_ok_parts v :
  semver_ok v = true ->
  forallb core_ok [major v; minor v; patch v] = true /\
  forallb (ident_ok true) [major v; minor v; patch v] = true /\
  forallb (ident_ok true) (prerelease v) = true.
Proof.
  unfold semver_ok. rewrite !andb_true_iff. intros [[[Ha Hb] Hc] Hp].
  assert (forallb core_ok [major v; minor v; patch v] = true) as H
    by (cbn [forallb]; by rewrite Ha, Hb, Hc).
  split_and!; [done|by apply core_idents|].
  rewrite forallb_forall in *. intros p Hin. rewrite <-prerelease_ok_ident. auto.
Qed.

Lemma build_ok_ident b : build_ok b = forallb (ident_ok false) b.
Proof.
  unfold build_ok. induction b as [|p b IH]; [done|]. cbn [forallb]. rewrite IH.
  unfold ident_ok. cbn [andb negb]. by rewrite andb_true_r.
Qed.

Lemma core_no_dash l : forallb core_ok l = true -> ch "-" ∉ join_with (ch ".") l.
Proof.
  intros H. apply not_in_join; [done|]. rewrite Forall_forall. intros p Hp Hin.
  rewrite forallb_forall in H. apply list_elem_of_In in Hp. specialize (H p Hp).
  unfold core_ok, isNumeric in H. rewrite !andb_true_iff in H. destruct H as [[Hn _] _].
  rewrite forallb_forall in Hn. apply list_elem_of_In in Hin. by specialize (Hn _ Hin).
Qed.

Lemma version_no_plus v : semver_ok v = true -> ch "+" ∉ version_text v.
Proof.
  intros Hv. destruct (semver_ok_parts v Hv) as (_ & Hi & Hp). unfold version_text.
  apply not_elem_of_app. split; [by eapply ident_no_plus|].
  case_bool_decide; [apply not_elem_of_nil|]. apply not_elem_of_cons.
  split; [done|by eapply ident_no_plus].
Qed.

(** The second half of [parse], behind the build metadata. *)
Definition parse_version (text : bytes) : Expected SemVer :=
  let prerelease_separator := find_char (ch "-") text in
  let? components := parseCore (before prerelease_separator text) in
  let? pre :=
    match prerelease_separator with
    | Some i => parseIdentifiers (drop (S i) text) "pre-release" true
    | None => Ok []
    end in
  match components with
  | [x; y; z] => Ok (mkSemVer x y z pre)
  | _ => Err ""
  end.

Lemma parse_version_render v : semver_ok v = true -> parse_version (version_text v) = Ok v.
Proof.
  intros Hv. destruct (semver_ok_parts v Hv) as (Hc & Hi & Hp).
  assert (parseCore (join_with (ch ".") [major v; minor v; patch v]) = Ok [major v; minor v; patch v])
    as Hcore by (by apply parseCore_ok).
  pose proof (core_no_dash _ Hc) as Hd. unfold parse_version, version_text.
  destruct v as [x y z pre]. cbn [major minor patch prerelease] in *. case_bool_decide as Hpre.
  - subst pre. rewrite app_nil_r. rewrite (proj2 (find_char_none _ _)) by done.
    cbn [before]. by rewrite Hcore.
  - rewrite find_char_app by done. cbn [before]. rewrite take_app_first, drop_app_first, Hcore.
    cbn [ebind]. rewrite (proj2 (parseIdentifiers_ok _ _ _ pre)) by done. done.
Qed.

Lemma parse_version_ok text v :
  parse_version text = Ok v -> semver_ok v = true /\ text = version_text v.
Proof.
  unfold parse_version.
  assert (forall c (pre : list bytes),
    match c with [x; y; z] => Ok (mkSemVer x y z pre) | _ => Err "" end = Ok v ->
    c = [major v; minor v; patch v] /\ pre = prerelease v) as Hm.
  { intros [|x [|y [|z [|]]]] pre H; try done. by injection H as <-. }
  assert (forallb core_ok [major v; minor v; patch v] = true ->
    forallb (ident_ok true) (prerelease v) = true -> semver_ok v = true) as Hok.
  { cbn [forallb]. unfold semver_ok. rewrite !andb_true_iff. intros (? & ? & ? & _) Hp.
    split_and!; try done. rewrite forallb_forall in *. intros p Hin.
    rewrite prerelease_ok_ident. auto. }
  destruct (find_char_view (ch "-") text) as [[-> Hn]|(l & tl & -> & Ht & Hl & Htk & Hdr)];
    cbn [before]; rewrite ?Htk, ?Hdr.
  - destruct (parseCore text) as [c|e] eqn:Ec; [|done]. cbn [ebind]. intros H.
    destruct (Hm c [] H) as [-> Hpre]. apply parseCore_ok in Ec as (_ & Htx & Hc).
    split; [apply Hok; [done|by rewrite <-Hpre]|].
    unfold version_text. by rewrite <-Hpre, bool_decide_true, app_nil_r.
  - destruct (parseCore l) as [c|e] eqn:Ec; [|done]. cbn [ebind].
    destruct (parseIdentifiers tl "pre-release" true) as [pre|e] eqn:Ep; [|done]. cbn [ebind].
    intros H. destruct (Hm c pre H) as [-> ->]. apply parseCore_ok in Ec as (_ & Htx & Hc).
    apply parseIdentifiers_ok in Ep as (Hne & Htl & Hi). split; [by apply Hok|].
    unfold version_text. rewrite bool_decide_false by done. by rewrite Ht, <-Htx, <-Htl.
Qed.

Lemma parse_unfold text :
  parse text =
    if bool_decide (text = []) then Err "semantic version must not be empty"
    else
      let? _ :=
        match find_char (ch "+") text with
        | Some i => parseIdentifiers (drop (S i) text) "build metadata" false
        | None => Ok []
        end in
      parse_version (before (find_char (ch "+") text) text).
Proof. done. Qed.

(** The parser accepts exactly the texts of the SemVer 2.0 grammar and
    returns the parts they are printed from: three dot-separated numbers without
    leading zeros, then pre-release identifiers (numeric ones without leading
    zeros), then build metadata, which is checked and dropped. *)
Theorem parse_grammar text v :
  parse text = Ok v <->
  exists build, semver_ok v = true /\ build_ok build = true /\ text = render v build.
Proof.
  rewrite parse_unfold. split.
  - case_bool_decide as Hne; [done|].
    destruct (find_char_view (ch "+") text) as [[-> Hn]|(l & tl & -> & Ht & Hl & Htk & Hdr)];
      cbn [before]; rewrite ?Htk, ?Hdr.
    + cbn [ebind]. intros H. apply parse_version_ok in H as [Hv Htx]. exists []. split_and!; [done..|].
      unfold render. rewrite app_assoc. fold (version_text v).
      by rewrite bool_decide_true, app_nil_r.
    + destruct (parseIdentifiers tl "build metadata" false) as [b|e] eqn:Eb; [|done]. cbn [ebind].
      intros H. apply parse_version_ok in H as [Hv Htx].
      apply parseIdentifiers_ok in Eb as (Hb & Htl & Hi). exists b.
      split_and!; [done|by rewrite build_ok_ident|].
      unfold render. rewrite app_assoc. fold (version_text v).
      rewrite bool_decide_false by done. by rewrite Ht, Htx, Htl.
  - intros (b & Hv & Hb & ->). unfold render. rewrite app_assoc. fold (version_text v).
    assert (version_text v <> []) as Hvne.
    { destruct (semver_ok_parts v Hv) as (Hc & _). unfold version_text.
      destruct v as [x y z pre]. cbn [major join_with forallb] in *. intros [H _]%app_eq_nil.
      destruct x; [done|discriminate H]. }
    rewrite bool_decide_false by (intros [H _]%app_eq_nil; exact (Hvne H)).
    pose proof (version_no_plus v Hv) as Hp. case_bool_decide as Hbe.
    + rewrite app_nil_r, (proj2 (find_char_none _ _)) by done. cbn [ebind before].
      by apply parse_version_render.
    + rewrite find_char_app by done. cbn [before]. rewrite take_app_first, drop_app_first.
      rewrite (proj2 (parseIdentifiers_ok _ _ _ b)); [cbn [ebind]; by apply parse_version_render|].
      by rewrite <-build_ok_ident.
Qed.

Lemma parse_grammar_examples :
  map (fun t => isValid (str t))
    ["1.0.0"; "1.2.3-alpha.1+build.007"; "1.0.0--"; "01.0.0"; "1.0"; "1.0.0-01"; "1.0.0+"; "1.0.0-a..b"]%string
  = [true; true; true; false; false; false; false; false].
Proof. vm_compute. reflexivity. Qed.

(** ** Precedence *)

Definition length_cmp (a b : bytes) : comparison :=
  Z.compare (Z.of_nat (length a)) (Z.of_nat (length b)).

Lemma compareNumeric_then a b : compareNumeric a b = cmp_then (length_cmp a b) (string_cmp a b).
Proof.
  unfold compareNumeric, length_cmp. rewrite Nat2Z.inj_compare.
  destruct (Nat.compare_spec (length a) (length b)) as [H|H|H].
  - rewrite !(proj2 (Nat.ltb_ge _ _)) by lia. done.
  - by rewrite (proj2 (Nat.ltb_lt _ _)) by lia.
  - rewrite (proj2 (Nat.ltb_ge _ _)) by lia. by rewrite (proj2 (Nat.ltb_lt _ _)) by lia.
Qed.

#[export] Instance total_length : TotalCmp (fun _ => True) length_cmp.
Proof. by apply (total_key (fun _ => True) (fun _ => True) (fun a : bytes => Z.of_nat (length a)) Z.compare). Qed.

#[export] Instance total_numeric : TotalCmp (fun _ => True) compareNumeric.
Proof.
  eapply total_ext; [intros; symmetry; apply compareNumeric_then|].
  apply total_then; apply _.
Qed.

Definition ident_cmp (l r : bytes) : comparison :=
  if negb (Bool.eqb (isNumeric l) (isNumeric r)) then (if isNumeric l then Lt else Gt)
  else if isNumeric l then compareNumeric l r else compareLexical l r.

(** Numbers come first, by length; then the text decides. *)
Definition ident_rank (x : bytes) : Z := if isNumeric x then 0 else 1.
Definition ident_size (x : bytes) : Z := if isNumeric x then Z.of_nat (length x) else 0.

Lemma ident_cmp_then l r :
  ident_cmp l r = cmp_then (Z.compare (ident_rank l) (ident_rank r))
    (cmp_then (Z.compare (ident_size l) (ident_size r)) (string_cmp l r)).
Proof.
  unfold ident_cmp, ident_rank, ident_size. destruct (isNumeric l), (isNumeric r); cbn; try done.
  apply compareNumeric_then.
Qed.

#[export] Instance total_ident : TotalCmp (fun _ => True) ident_cmp.
Proof.
  eapply total_ext; [intros; symmetry; apply ident_cmp_then|].
  apply total_then; [by apply (total_key (fun _ => True) (fun _ => True) ident_rank Z.compare)|].
  apply total_then; [by apply (total_key (fun _ => True) (fun _ => True) ident_size Z.compare)|].
  apply _.
Qed.

Lemma compare_prerelease_list l r : compare_prerelease l r = list_cmp ident_cmp l r.
Proof.
  revert r. induction l as [|a l IH]; intros [|b r]; try done. cbn [compare_prerelease list_cmp].
  rewrite <-IH. unfold ident_cmp, cmp_then. destruct (negb _); [by destruct (isNumeric a)|].
  destruct (isNumeric a); by destruct (compareNumeric a b), (compareLexical a b).
Qed.

(** A release comes after its pre-releases. *)
Definition release_rank (l : list bytes) : Z := match l with [] => 1 | _ => 0 end.

Lemma compare_then a b :
  compare a b =
    cmp_then (compareNumeric (major a) (major b))
      (cmp_then (compareNumeric (minor a) (minor b))
        (cmp_then (compareNumeric (patch a) (patch b))
          (cmp_then (Z.compare (release_rank (prerelease a)) (release_rank (prerelease b)))
            (list_cmp ident_cmp (prerelease a) (prerelease b))))).
Proof.
  unfold compare. rewrite <-compare_prerelease_list.
  destruct (compareNumeric (major a) (major b)); cbn [cmp_then]; try done.
  destruct (compareNumeric (minor a) (minor b)); cbn [cmp_then]; try done.
  destruct (compareNumeric (patch a) (patch b)); cbn [cmp_then]; try done.
  by destruct (prerelease a), (prerelease b).
Qed.

#[export] Instance total_semver : TotalCmp (fun _ => True) compare.
Proof.
  eapply total_ext; [intros; symmetry; apply compare_then|].
  apply total_then; [by apply (total_key (fun _ => True) (fun _ => True) major compareNumeric)|].
  apply total_then; [by apply (total_key (fun _ => True) (fun _ => True) minor compareNumeric)|].
  apply total_then; [by apply (total_key (fun _ => True) (fun _ => True) patch compareNumeric)|].
  apply total_then.
  - by apply (total_key (fun _ => True) (fun _ => True) (fun v => release_rank (prerelease v)) Z.compare).
  - apply (total_key (fun _ => True) (Forall (fun _ => True)) prerelease (list_cmp ident_cmp)).
    intros x _. by apply Forall_true.
Qed.

Lemma cmp_then_eq c1 c2 : cmp_then c1 c2 = Eq <-> c1 = Eq /\ c2 = Eq.
Proof. destruct c1, c2; cbn; naive_solver. Qed.

Lemma numeric_cmp_eq a b : compareNumeric a b = Eq <-> a = b.
Proof.
  rewrite compareNumeric_then, cmp_then_eq, string_cmp_eq. split; [by intros [_ ?]|].
  intros ->. split; [|done]. apply Z.compare_refl.
Qed.

Lemma ident_cmp_eq a b : ident_cmp a b = Eq <-> a = b.
Proof.
  rewrite ident_cmp_then, !cmp_then_eq, string_cmp_eq. split; [by intros (_ & _ & ?)|].
  intros ->. by rewrite !Z.compare_refl.
Qed.

Lemma semver_cmp_eq a b : compare a b = Eq <-> a = b.
Proof.
  rewrite compare_then, !cmp_then_eq, !numeric_cmp_eq.
  rewrite (list_cmp_eq ident_cmp (fun _ => True)) by
    (intros; apply ident_cmp_eq || by apply Forall_true).
  destruct a, b; cbn. split; [by intros (-> & -> & -> & _ & ->)|].
  intros [= -> -> -> ->]. by rewrite Z.compare_refl.
Qed.

(** The value of a digit string. *)
Fixpoint dec_val (l : bytes) : Z :=
  match l with
  | [] => 0
  | c :: l' => (b2z c - 48) * 10 ^ Z.of_nat (length l') + dec_val l'
  end.

Lemma dec_val_range l :
  forallb isAsciiDigit l = true -> 0 <= dec_val l < 10 ^ Z.of_nat (length l).
Proof.
  induction l as [|c l IH]; [simpl; lia|]. cbn [forallb dec_val length].
  rewrite andb_true_iff. intros [Hc Hl]. specialize (IH Hl). unfold isAsciiDigit in Hc.
  rewrite Nat2Z.inj_succ, Z.pow_succ_r by lia. nia.
Qed.

Lemma string_cmp_dec a b :
  length a = length b -> forallb isAsciiDigit a = true -> forallb isAsciiDigit b = true ->
  string_cmp a b = Z.compare (dec_val a) (dec_val b).
Proof.
  revert b. induction a as [|c a IH]; intros [|d b] Hl Ha Hb; try done.
  cbn [forallb length] in *. apply andb_true_iff in Ha as [Hc Ha]. apply andb_true_iff in Hb as [Hd Hb].
  unfold string_cmp in *. cbn [list_cmp dec_val]. rewrite IH by (done || lia).
  pose proof (dec_val_range a Ha) as Ra. pose proof (dec_val_range b Hb) as Rb.
  injection Hl as Hl. rewrite Hl in *. set (p := 10 ^ Z.of_nat (length b)) in *.
  unfold byte_cmp. destruct (Z.compare_spec (b2z c) (b2z d)) as [Hcd|Hcd|Hcd]; cbn [cmp_then].
  - rewrite Hcd. destruct (Z.compare_spec (dec_val a) (dec_val b)); symmetry;
      [apply Z.compare_eq_iff|apply Z.compare_lt_iff|apply Z.compare_gt_iff]; lia.
  - symmetry. apply Z.compare_lt_iff. nia.
  - symmetry. apply Z.compare_gt_iff. nia.
Qed.

Lemma dec_val_lower l :
  forallb isAsciiDigit l = true -> (1 < length l)%nat -> no_leading_zero l = true ->
  10 ^ Z.of_nat (length l - 1) <= dec_val l.
Proof.
  intros Hd Hl Hn. destruct l as [|c l]; [cbn in Hl; lia|]. cbn [forallb] in Hd.
  apply andb_true_iff in Hd as [Hc Hd]. unfold no_leading_zero in Hn.
  rewrite (proj2 (Nat.leb_gt _ _)) in Hn by done. cbn [orb head] in Hn.
  apply negb_true_iff, bool_decide_eq_false in Hn.
  assert (b2z c <> 48) by (intros H; apply Hn; f_equal; apply b2z_inj; rewrite H; reflexivity).
  unfold isAsciiDigit in Hc. cbn [length dec_val]. rewrite Nat.sub_succ, Nat.sub_0_r.
  pose proof (dec_val_range l Hd). nia.
Qed.

Lemma dec_shorter a b :
  core_ok a = true -> core_ok b = true -> (length a < length b)%nat -> dec_val a < dec_val b.
Proof.
  unfold core_ok, isNumeric. rewrite !andb_true_iff. intros [[Ha Hna] _] [[Hb _] Hzb] Hlt.
  assert (1 <= length a)%nat. { destruct a; [done|cbn; lia]. }
  pose proof (dec_val_range a Ha). pose proof (dec_val_lower b Hb ltac:(lia) Hzb).
  assert (10 ^ Z.of_nat (length a) <= 10 ^ Z.of_nat (length b - 1)) by (apply Z.pow_le_mono_r; lia).
  lia.
Qed.

Lemma compareNumeric_value a b :
  core_ok a = true -> core_ok b = true -> compareNumeric a b = Z.compare (dec_val a) (dec_val b).
Proof.
  intros Ha Hb. unfold compareNumeric.
  destruct (length a <? length b)%nat eqn:E1.
  { apply Nat.ltb_lt in E1. symmetry. apply Z.compare_lt_iff. by apply dec_shorter. }
  destruct (length b <? length a)%nat eqn:E2.
  { apply Nat.ltb_lt in E2. symmetry. apply Z.compare_gt_iff. by apply dec_shorter. }
  apply Nat.ltb_ge in E1, E2. unfold core_ok, isNumeric in *. rewrite !andb_true_iff in *.
  apply string_cmp_dec; [lia|tauto..].
Qed.

(** Precedence is a total order: comparing both ways gives opposite answers,
    less is transitive, and two parsed versions tie exactly when all their
    compared parts are equal, so ties may be substituted.  The digit strings,
    which may exceed any machine integer, compare as the numbers they denote, and
    a release comes after all of its pre-releases. *)
Theorem precedence_total_order :
  TotalCmp (fun _ => True) compare /\
  (forall a b, compare a b = Eq <-> a = b) /\
  (forall a b, core_ok a = true -> core_ok b = true ->
     compareNumeric a b = Z.compare (dec_val a) (dec_val b)) /\
  (forall x y z p, p <> [] -> compare (mkSemVer x y z p) (mkSemVer x y z []) = Lt).
Proof.
  split_and!; [apply _|apply semver_cmp_eq|apply compareNumeric_value|].
  intros x y z p Hp. rewrite compare_then. cbn [major minor patch prerelease].
  rewrite !(proj2 (numeric_cmp_eq _ _)) by done. by destruct p.
Qed.
