(* ===== verification/Ingest.v ===== *)
(** * Ingest: the outcome ledger and the completion terminal

    [pj_base/src/source/outcome_ledger.cpp] and
    [pj_base/include/pj_base/sdk/ingest_completion.hpp], with the constants of
    [pj_base/data_source_protocol.h].  The ordered map of outcomes is a [gmap];
    the loop over it goes through its entries in some order, which the theorems
    show not to matter. *)

From stdpp Require Import gmap.
From S2P Require Import Prelude Text.

Inductive IngestOutcome : Set := kFailed | kCancelled | kCompleted.

(** [PJ_ingest_outcome_t]. *)
Definition outcome_code (o : IngestOutcome) : Z :=
  match o with kFailed => 0 | kCancelled => 1 | kCompleted => 2 end.

Definition FLAG_NONE : Z := 0.
Definition FLAG_ATTESTS_EMPTY_TOPICS : Z := Z.shiftl 1 0.
Definition FLAGS_V1_MASK : Z := FLAG_ATTESTS_EMPTY_TOPICS.

(** ** The ledger *)

Inductive TopicOutcome : Set := tPending | tOk | tEmptyOk | tFailed.

#[global] Instance topic_outcome_eq_dec : EqDecision TopicOutcome.
Proof. solve_decision. Defined.

Record IngestCompletion : Set := mkIngestCompletion { ic_outcome : IngestOutcome; ic_flags : Z }.

Notation ledger := (gmap bytes TopicOutcome).

(** [emplace]: a topic named twice is declared once. *)
Definition ledger_new (requested_topics : list bytes) : ledger :=
  foldl (fun m topic => match m !! topic with Some _ => m | None => <[topic := tPending]> m end)
    ∅ requested_topics.

Definition record (l : ledger) (topic : bytes) (topic_outcome : TopicOutcome) : bool * ledger :=
  match l !! topic with
  | None => (false, l)
  | Some _ => (true, <[topic := topic_outcome]> l)
  end.

Definition outcome (l : ledger) (topic : bytes) : TopicOutcome :=
  match l !! topic with None => tPending | Some o => o end.

Fixpoint completion_loop (flags : Z) (entries : list (bytes * TopicOutcome)) : IngestCompletion :=
  match entries with
  | [] => mkIngestCompletion kCompleted flags
  | (_, o) :: entries' =>
    match o with
    | tOk => completion_loop flags entries'
    | tEmptyOk => completion_loop (Z.lor flags FLAG_ATTESTS_EMPTY_TOPICS) entries'
    | _ => mkIngestCompletion kFailed FLAG_NONE
    end
  end.

Definition computeCompletion (l : ledger) (cancelled : bool) : IngestCompletion :=
  if cancelled then mkIngestCompletion kCancelled FLAG_NONE
  else completion_loop FLAG_NONE (map_to_list l).

(** ** Validation of a borrowed completion *)

(** [PJ_string_view_t] and [PJ_ingest_completion_t]; a pointer is an option. *)
Record string_view : Set := mkStringView { sv_data : option bytes; sv_size : Z }.

Record completion_c : Set := mkCompletionC {
  struct_size : Z; c_outcome : Z; c_flags : Z; requested_topics : option (list string_view);
  requested_topic_count : Z }.

Definition sizeof_completion : Z := 32.

Record IngestCompletionRecord : Set := mkCompletionRecord {
  r_outcome : IngestOutcome; r_flags : Z; r_topics : list bytes }.

Definition attestsEmptyTopics (r : IngestCompletionRecord) : bool :=
  negb (Z.land (r_flags r) FLAG_ATTESTS_EMPTY_TOPICS =? 0).

Definition kMaxIngestCompletionTopics : Z := 100000.
Definition kMaxIngestCompletionTopicNameBytes : Z := 4096.
Definition kMaxIngestCompletionTotalNameBytes : Z := Z.shiftl 4 20.

Definition outcome_of_code (code : Z) : option IngestOutcome :=
  if code =? 0 then Some kFailed
  else if code =? 1 then Some kCancelled
  else if code =? 2 then Some kCompleted
  else None.

(** The loop over the topic names. [seen] are the names copied so far. *)
Fixpoint copy_topics (total_name_bytes : Z) (seen : list bytes) (names : list string_view)
  : Expected (list bytes) :=
  match names with
  | [] => Ok seen
  | name :: names' =>
    match sv_data name with
    | None => Err "empty topic name in the requested set"
    | Some data =>
      if sv_size name =? 0 then Err "empty topic name in the requested set"
      else if sv_size name >? kMaxIngestCompletionTopicNameBytes
      then Err "topic name exceeds the structural byte bound"
      else
        let total := wrap 64 (total_name_bytes + sv_size name) in
        if total >? kMaxIngestCompletionTotalNameBytes
        then Err "requested topic set exceeds the structural byte bound"
        else
          let view := take (Z.to_nat (sv_size name)) data in
          if bool_decide (view ∈ seen)
          then Err ("duplicate topic name in the requested set: "
                    +:+ String.string_of_list_byte view)
          else copy_topics total (seen ++ [view]) names'
    end
  end.

Definition copyIngestCompletion (completion : option completion_c)
  : Expected IngestCompletionRecord :=
  match completion with
  | None => Err "completion is null"
  | Some c =>
    if struct_size c <? sizeof_completion
    then Err "completion struct_size is smaller than the v1 layout"
    else
      match outcome_of_code (c_outcome c) with
      | None => Err "unknown ingest outcome"
      | Some o =>
        if negb (Z.land (c_flags c) (wrap 64 (Z.lnot FLAGS_V1_MASK)) =? 0)
        then Err "unknown completion flags"
        else if negb (Z.land (c_flags c) FLAG_ATTESTS_EMPTY_TOPICS =? 0) && negb (c_outcome c =? 2)
        then Err "empty-topic attestation requires a COMPLETED outcome"
        else
          match requested_topics c with
          | None =>
            if negb (requested_topic_count c =? 0)
            then Err "null topic list with nonzero count"
            else Ok (mkCompletionRecord o (c_flags c) [])
          | Some names =>
            if requested_topic_count c >? kMaxIngestCompletionTopics
            then Err "requested topic count exceeds the structural bound"
            else
              let? topics :=
                copy_topics 0 [] (take (Z.to_nat (requested_topic_count c)) names) in
              Ok (mkCompletionRecord o (c_flags c) topics)
          end
      end
  end.

(** ** The ledger's verdict *)

(** The outcome recorded last for a topic. *)
Definition last_outcome (topic : bytes) (calls : list (bytes * TopicOutcome)) : TopicOutcome :=
  foldl (fun acc c => if decide (c.1 = topic) then c.2 else acc) tPending calls.

Definition record_all (l : ledger) (calls : list (bytes * TopicOutcome)) : ledger :=
  foldl (fun l c => (record l c.1 c.2).2) l calls.

Lemma ledger_new_lookup topics t :
  ledger_new topics !! t = if decide (t ∈ topics) then Some tPending else None.
Proof.
  unfold ledger_new.
  assert (forall m : ledger,
    (forall s o, m !! s = Some o -> o = tPending) ->
    foldl (fun m topic => match m !! topic with Some _ => m | None => <[topic := tPending]> m end)
      m topics !! t = if decide (t ∈ topics) then Some tPending else m !! t) as H.
  { induction topics as [|s topics IH]; intros m Hm; cbn [foldl].
    - rewrite decide_False by apply not_elem_of_nil. done.
    - rewrite IH.
      2: { intros s' o. destruct (m !! s) eqn:E; [apply Hm|]. rewrite lookup_insert_Some.
           intros [[_ <-]|[_ Hs]]; [done|by eapply Hm]. }
      destruct (decide (t ∈ topics)) as [Hin|Hin];
        [rewrite decide_True by (by right); done|].
      destruct (decide (s = t)) as [->|Hne].
      + rewrite (decide_True (P:=t ∈ t :: topics)) by left. destruct (m !! t) eqn:E.
        * rewrite E. f_equal. by eapply Hm.
        * apply lookup_insert_eq.
      + rewrite decide_False by (rewrite not_elem_of_cons; done).
        destruct (m !! s); [done|]. by apply lookup_insert_ne. }
  rewrite H; [|done]. by rewrite lookup_empty.
Qed.

Lemma record_all_lookup l calls t :
  record_all l calls !! t =
    match l !! t with
    | None => None
    | Some o => Some (foldl (fun acc c => if decide (c.1 = t) then c.2 else acc) o calls)
    end.
Proof.
  revert l. induction calls as [|[s o] calls IH]; intros l; cbn [record_all foldl];
    [by destruct (l !! t)|].
  unfold record_all in IH. rewrite IH. unfold record. cbn [fst snd].
  destruct (l !! s) as [o'|] eqn:Es; cbn [snd].
  - destruct (decide (s = t)) as [->|Hne]; [by rewrite lookup_insert_eq, Es|].
    by rewrite lookup_insert_ne.
  - destruct (decide (s = t)) as [->|Hne]; [by rewrite Es|done].
Qed.

Lemma ledger_lookup topics calls t :
  record_all (ledger_new topics) calls !! t =
    if decide (t ∈ topics) then Some (last_outcome t calls) else None.
Proof. rewrite record_all_lookup, ledger_new_lookup. by case_decide. Qed.

Definition is_ok (o : TopicOutcome) : bool := match o with tOk | tEmptyOk => true | _ => false end.
Definition is_empty_ok (o : TopicOutcome) : bool := match o with tEmptyOk => true | _ => false end.

Lemma completion_loop_spec flags entries :
  flags = 0 \/ flags = 1 ->
  completion_loop flags entries =
    if forallb (fun e => is_ok e.2) entries
    then mkIngestCompletion kCompleted
           (if existsb (fun e => is_empty_ok e.2) entries then 1 else flags)
    else mkIngestCompletion kFailed 0.
Proof.
  revert flags. induction entries as [|[t o] entries IH]; intros flags Hf; [done|].
  cbn [completion_loop forallb existsb snd]. destruct o; cbn [is_ok is_empty_ok andb orb]; try done.
  - by apply IH.
  - assert (Z.lor flags FLAG_ATTESTS_EMPTY_TOPICS = 1) as -> by (by destruct Hf as [-> | ->]).
    rewrite IH by auto. by destruct (existsb _ _).
Qed.

(** A property of all entries, and of some entry, by topic. *)
Lemma entries_forall topics calls (p : TopicOutcome -> bool) :
  forallb (fun e => p e.2) (map_to_list (record_all (ledger_new topics) calls))
    = forallb (fun t => p (last_outcome t calls)) topics.
Proof.
  apply eq_true_iff_eq. rewrite !forallb_forall. split; intros H.
  - intros t Ht%list_elem_of_In. apply (H (t, last_outcome t calls)). apply list_elem_of_In.
    apply elem_of_map_to_list. rewrite ledger_lookup. by rewrite decide_True.
  - intros [t o] Hin%list_elem_of_In. apply elem_of_map_to_list in Hin.
    rewrite ledger_lookup in Hin. case_decide as Ht; [|done]. injection Hin as <-.
    by apply H, list_elem_of_In.
Qed.

Lemma entries_exists topics calls (p : TopicOutcome -> bool) :
  existsb (fun e => p e.2) (map_to_list (record_all (ledger_new topics) calls))
    = existsb (fun t => p (last_outcome t calls)) topics.
Proof.
  pose proof (entries_forall topics calls (fun o => negb (p o))) as H.
  assert (forall A (q : A -> bool) l, existsb q l = negb (forallb (fun x => negb (q x)) l)) as Hd.
  { intros A q l. induction l as [|x l IH]; [done|]. cbn. rewrite IH. by destruct (q x). }
  by rewrite !Hd, H.
Qed.

(** The ledger's completion, for any declared topics and any recorded
    outcomes: cancellation overrides everything; otherwise the ingest is
    completed exactly when the outcome recorded last for every declared topic is
    a success, and attests empty topics exactly when one of those is an empty
    success; a topic never visited or failed makes it failed without flags.
    Records for undeclared topics are refused and change nothing. *)
Theorem ledger_verdict topics calls cancelled :
  let l := record_all (ledger_new topics) calls in
  computeCompletion l cancelled =
    (if cancelled then mkIngestCompletion kCancelled 0
     else if forallb (fun t => is_ok (last_outcome t calls)) topics
     then mkIngestCompletion kCompleted
            (if existsb (fun t => is_empty_ok (last_outcome t calls)) topics then 1 else 0)
     else mkIngestCompletion kFailed 0) /\
  (forall t, outcome l t = if decide (t ∈ topics) then last_outcome t calls else tPending) /\
  (forall t o, (record l t o).1 = bool_decide (t ∈ topics)) /\
  (forall t o, t ∉ topics -> record l t o = (false, l)).
Proof.
  cbv zeta. split_and!.
  - unfold computeCompletion. destruct cancelled; [done|].
    rewrite completion_loop_spec by (by left). by rewrite entries_forall, entries_exists.
  - intros t. unfold outcome. rewrite ledger_lookup. by case_decide.
  - intros t o. unfold record. rewrite ledger_lookup.
    case_decide; [by rewrite bool_decide_true|by rewrite bool_decide_false].
  - intros t o Ht. unfold record. rewrite ledger_lookup. by rewrite decide_False.
Qed.

(** ** The validator *)

Definition view_of (name : string_view) : bytes :=
  match sv_data name with Some data => take (Z.to_nat (sv_size name)) data | None => [] end.

Definition name_ok (name : string_view) : Prop :=
  sv_data name <> None /\ 0 < sv_size name <= kMaxIngestCompletionTopicNameBytes.

Definition total_bytes (names : list string_view) : Z :=
  foldr (fun n acc => sv_size n + acc) 0 names.

(** The bounds of the source in the form of one predicate. *)
Definition completion_valid (c : completion_c) (o : IngestOutcome) (names : list string_view) : Prop :=
  sizeof_completion <= struct_size c /\ outcome_code o = c_outcome c /\
  (c_flags c = 0 \/ c_flags c = 1 /\ o = kCompleted) /\
  match requested_topics c with
  | None => requested_topic_count c = 0 /\ names = []
  | Some l => requested_topic_count c <= kMaxIngestCompletionTopics /\
              names = take (Z.to_nat (requested_topic_count c)) l
  end /\
  Forall name_ok names /\ total_bytes names <= kMaxIngestCompletionTotalNameBytes /\
  NoDup (map view_of names).

(** The fields of the C struct at their widths; the list has the length it
    announces. *)
Definition completion_wf (c : completion_c) : Prop :=
  in_u 32 (struct_size c) /\ in_u 64 (c_flags c) /\ in_u 64 (requested_topic_count c) /\
  match requested_topics c with
  | Some l => Forall (fun n => in_u 64 (sv_size n)) l
  | None => True
  end.

Lemma outcome_of_code_spec code o : outcome_of_code code = Some o <-> outcome_code o = code.
Proof.
  unfold outcome_of_code. split.
  - repeat case_match; intros [= <-]; cbn; lia.
  - intros <-. by destruct o.
Qed.

(** The flag tests of the source, on a 64-bit flag word. *)
Lemma flags_check flags o :
  in_u 64 flags ->
  (Z.land flags (wrap 64 (Z.lnot FLAGS_V1_MASK)) =? 0) = true /\
  (negb (Z.land flags FLAG_ATTESTS_EMPTY_TOPICS =? 0) && negb (outcome_code o =? 2)) = false <->
  flags = 0 \/ flags = 1 /\ o = kCompleted.
Proof.
  unfold in_u. intros Hf.
  assert (Z.land flags (wrap 64 (Z.lnot FLAGS_V1_MASK)) = flags - flags mod 2) as ->.
  { change (wrap 64 (Z.lnot FLAGS_V1_MASK)) with (Z.ldiff (Z.ones 64) 1).
    rewrite Z.ldiff_land, Z.land_assoc, Z.land_ones by lia. rewrite Z.mod_small by lia.
    change (Z.lnot 1) with (Z.lnot (Z.ones 1)). rewrite <-Z.ldiff_land, Z.ldiff_ones_r by lia.
    rewrite Z.shiftr_div_pow2, Z.shiftl_mul_pow2 by lia. change (2 ^ 1) with 2.
    pose proof (Z.div_mod flags 2 ltac:(lia)). lia. }
  assert (Z.land flags FLAG_ATTESTS_EMPTY_TOPICS = flags mod 2) as ->.
  { change FLAG_ATTESTS_EMPTY_TOPICS with (Z.ones 1). by rewrite Z.land_ones. }
  pose proof (Z.mod_pos_bound flags 2 ltac:(lia)).
  pose proof (Z.div_mod flags 2 ltac:(lia)).
  assert (outcome_code o = 2 <-> o = kCompleted) as <- by (by destruct o).
  rewrite Z.eqb_eq, andb_false_iff, !negb_false_iff, !Z.eqb_eq. lia.
Qed.

Lemma copy_topics_ok total seen names topics :
  0 <= total -> Forall (fun n => in_u 64 (sv_size n)) names ->
  total <= kMaxIngestCompletionTotalNameBytes -> NoDup seen ->
  copy_topics total seen names = Ok topics <->
  topics = seen ++ map view_of names /\ Forall name_ok names /\
  total + total_bytes names <= kMaxIngestCompletionTotalNameBytes /\ NoDup (seen ++ map view_of names).
Proof.
  intros Ht Hw. revert total seen Ht. induction Hw as [|n names Hn Hw IH]; intros total seen Ht Hle Hnd;
    cbn [copy_topics map total_bytes foldr].
  - rewrite app_nil_r, Z.add_0_r. split; [intros [= <-]|by intros (-> & _)]. split_and!; done.
  - fold (total_bytes names). rewrite Forall_cons. unfold name_ok at 1. unfold in_u in Hn.
    change (2 ^ 64) with 18446744073709551616 in Hn.
    assert (0 <= total_bytes names) as Htb.
    { clear -Hw. induction Hw as [|m l Hm Hw IH]; cbn; [lia|]. unfold in_u in Hm.
      unfold total_bytes in IH. lia. }
    unfold kMaxIngestCompletionTotalNameBytes, kMaxIngestCompletionTopicNameBytes in *.
    change (Z.shiftl 4 20) with 4194304 in *.
    destruct (sv_data n) as [data|] eqn:Ed; [|split; [done|]; by intros (_ & [[? _] _] & _)].
    destruct (sv_size n =? 0) eqn:E0; [split; [done|]; intros (_ & [[_ ?] _] & _); lia|].
    destruct (sv_size n >? 4096) eqn:E1; [split; [done|]; intros (_ & [[_ ?] _] & _); lia|].
    rewrite wrap_small by (unfold in_u; change (2 ^ 64) with 18446744073709551616; lia).
    destruct (_ >? 4194304) eqn:E2; [split; [done|]; intros (_ & _ & ? & _); lia|].
    assert (take (Z.to_nat (sv_size n)) data = view_of n) as -> by (unfold view_of; by rewrite Ed).
    case_bool_decide as Hin.
    + split; [done|]. intros (_ & _ & _ & Hd). apply NoDup_app in Hd as (_ & Hd & _).
      exfalso. apply (Hd _ Hin). left.
    + assert (NoDup (seen ++ [view_of n])) as Hnd'.
      { apply NoDup_app. split_and!; [done| |apply NoDup_singleton].
        intros x Hx ->%list_elem_of_singleton. done. }
      rewrite IH by (done || lia).
      rewrite <-!app_assoc. cbn [app]. rewrite Z.add_assoc. split.
      * intros (? & ? & ? & ?). split_and!; try done; lia.
      * intros (? & [_ ?] & ? & ?). split_and!; done.
Qed.

(** The validator accepts exactly the completions within the structural
    bounds and copies them faithfully: a struct of at least the v1 size, a known
    outcome, no flag but the attestation and that only on a completed ingest, a
    topic list consistent with its count, at most 100000 distinct nonempty names
    of at most 4096 bytes, 4 MiB in total; everything else is refused, with the
    sums computed without overflow. *)
Theorem completion_validator c r :
  completion_wf c ->
  copyIngestCompletion (Some c) = Ok r <->
  exists names, completion_valid c (r_outcome r) names /\ r_flags r = c_flags c /\
    r_topics r = map view_of names.
Proof.
  intros (Hs & Hf & Hc & Hl). unfold copyIngestCompletion, completion_valid.
  destruct (struct_size c <? sizeof_completion) eqn:E0.
  { split; [done|]. intros (names & (? & _) & _). lia. }
  destruct (outcome_of_code (c_outcome c)) as [o|] eqn:Eo.
  2: { split; [done|]. intros (names & (_ & Ho & _) & _).
       apply outcome_of_code_spec in Ho. congruence. }
  apply outcome_of_code_spec in Eo. rewrite <-Eo in *.
  pose proof (flags_check (c_flags c) o Hf) as Hflags.
  assert (forall o', outcome_code o' = outcome_code o -> o' = o) as Hinj
    by (by intros [] ?; destruct o).
  destruct (Z.land (c_flags c) (wrap 64 _) =? 0) eqn:E1; cbn [negb].
  2: { split; [done|]. intros (names & (_ & Ho & Hfl & _) & _). apply Hinj in Ho. rewrite Ho in Hfl.
       apply Hflags in Hfl as [? _]. done. }
  destruct (negb _ && negb (outcome_code o =? 2)) eqn:E2.
  { split; [done|]. intros (names & (_ & Ho & Hfl & _) & _). apply Hinj in Ho. rewrite Ho in Hfl.
    apply Hflags in Hfl as [_ ?]. done. }
  assert (c_flags c = 0 \/ c_flags c = 1 /\ o = kCompleted) as Hfl by (by apply Hflags).
  clear Hflags E1 E2. destruct (requested_topics c) as [l|] eqn:El.
  - destruct (requested_topic_count c >? _) eqn:E3.
    { split; [done|]. intros (names & (_ & _ & _ & [? _] & _) & _). lia. }
    set (names := take _ l) in *.
    assert (Forall (fun n => in_u 64 (sv_size n)) names) as Hn by (by apply Forall_take).
    pose proof (copy_topics_ok 0 [] names) as Hcopy.
    destruct (copy_topics 0 [] names) as [topics|e] eqn:Ec; cbn [ebind].
    + destruct (proj1 (Hcopy topics ltac:(lia) Hn ltac:(done) (NoDup_nil_2)) eq_refl)
        as (-> & Hok & Htot & Hnd). cbn [app] in *.
      split.
      * intros [= <-]. exists names. cbn. split_and!; try done; lia.
      * intros (names' & (_ & Ho & _ & [_ ->] & _) & Hrf & Hrt). destruct r. cbn in *.
        apply Hinj in Ho. by subst.
    + split; [done|]. intros (names' & (_ & Ho & _ & [_ ->] & Hok & Htot & Hnd) & Hrf & Hrt).
      discriminate (proj2 (Hcopy (map view_of names) ltac:(lia) Hn ltac:(done) (NoDup_nil_2))
        (conj eq_refl (conj Hok (conj Htot Hnd)))).
  - destruct (requested_topic_count c =? 0) eqn:E3; cbn [negb].
    + split.
      * intros [= <-]. exists []. cbn. split_and!; try done; try lia; constructor.
      * intros (names & (_ & Ho & _ & [_ ->] & _) & Hrf & Hrt). destruct r. cbn in *.
        apply Hinj in Ho. by subst.
    + split; [done|]. intros (names & (_ & _ & _ & [? _] & _) & _). lia.
Qed.

(** A ledger over two topics, one of them empty, reported and validated. *)
Lemma completion_validator_witness :
  let topics := [str "/tf"; str "/imu"] in
  let done := computeCompletion
    (record_all (ledger_new topics) [(str "/imu", tEmptyOk); (str "/tf", tOk)]) false in
  let views := map (fun t => mkStringView (Some t) (Z.of_nat (length t))) topics in
  let c := mkCompletionC 32 (outcome_code (ic_outcome done)) (ic_flags done) (Some views) 2 in
  copyIngestCompletion (Some c) = Ok (mkCompletionRecord kCompleted 1 topics).
Proof.
  intros topics done views c. apply completion_validator.
  - unfold completion_wf. split_and!; by_compute.
  - exists views. split_and!; [|vm_compute; reflexivity|vm_compute; reflexivity].
    unfold completion_valid.
    split; [by_compute|]. split; [vm_compute; reflexivity|].
    split; [right; split; vm_compute; reflexivity|].
    split; [split; [by_compute|vm_compute; reflexivity]|].
    split; [|split; [by_compute|by_compute]].
    apply Forall_cons. split; [split; [discriminate|by_compute]|].
    apply Forall_cons. split; [split; [discriminate|by_compute]|constructor].
Defined.
