(* ===== verification/TypeTree.v ===== *)
(** * TypeTree: schema trees and their flattening, and names of series

    [pj_base/src/type_tree.cpp] and [type_tree.hpp].  The shared pointers of a
    tree own their nodes, so a tree is an inductive value; the children of a
    struct are never null, the element type of an array may be.
    At the end, names qualified by their dataset ([pj_base/include/pj_base/sdk/dataset_qualified_name.hpp]). *)

From stdpp Require Import gmap sets pretty.
From S2P Require Import Prelude Text Ingest.

Inductive PrimitiveType : Set :=
  | kFloat32 | kFloat64 | kInt8 | kInt16 | kInt32 | kInt64 | kUint8 | kUint16 | kUint32 | kUint64
  | kBool | kString | kUnspecified.

Inductive TypeKind : Set := kPrimitive | kStruct | kArray | kEnum.

Record EnumMapping : Type := mkEnumMapping {
  value_to_name : gmap Z bytes; name_to_value : gmap bytes Z }.

Inductive TypeTreeNode : Type :=
  | Node (name : bytes) (kind : TypeKind) (semantic_tags : gset bytes)
      (primitive_type : option PrimitiveType) (children : list TypeTreeNode)
      (element_type : option TypeTreeNode) (fixed_array_size : option N)
      (enum_mapping : option EnumMapping).

Definition node_name (n : TypeTreeNode) : bytes := let '(Node x _ _ _ _ _ _ _) := n in x.
Definition node_kind (n : TypeTreeNode) : TypeKind := let '(Node _ k _ _ _ _ _ _) := n in k.
Definition node_children (n : TypeTreeNode) : list TypeTreeNode :=
  let '(Node _ _ _ _ c _ _ _) := n in c.

Definition makePrimitive (name : bytes) (type : PrimitiveType) : TypeTreeNode :=
  Node name kPrimitive ∅ (Some type) [] None None None.
Definition makeStruct (name : bytes) (children : list TypeTreeNode) : TypeTreeNode :=
  Node name kStruct ∅ None children None None None.
Definition makeArray (name : bytes) (element_type : option TypeTreeNode) (fixed_size : option N)
  : TypeTreeNode := Node name kArray ∅ None [] element_type fixed_size None.
Definition makeEnum (name : bytes) (underlying_type : PrimitiveType) (mapping : EnumMapping)
  : TypeTreeNode := Node name kEnum ∅ (Some underlying_type) [] None None (Some mapping).

(** [std::to_string] of an unsigned integer. *)
Definition to_string (z : Z) : bytes := str (pretty (Z.to_N z)).

Definition join_path (prefix name : bytes) : bytes :=
  if bool_decide (prefix = []) then name else prefix ++ [ch "."] ++ name.

Definition index_path (path : bytes) (idx : nat) : bytes :=
  path ++ [ch "["] ++ to_string (Z.of_nat idx) ++ [ch "]"].

(** The paths a node appends to the output. *)
Fixpoint flattenImpl (node : TypeTreeNode) (prefix : bytes) : list bytes :=
  let '(Node name kind _ _ children element_type fixed_array_size _) := node in
  let current_path := join_path prefix name in
  match kind with
  | kStruct => flat_map (fun child => flattenImpl child current_path) children
  | kArray =>
    match element_type, fixed_array_size with
    | Some element, Some n =>
      flat_map (fun idx => flattenImpl element (index_path current_path idx)) (seq 0 (N.to_nat n))
    | _, _ => []
    end
  | _ => [current_path]
  end.

(** [count] is a [size_t]. *)
Fixpoint countLeafFieldsImpl (node : TypeTreeNode) : Z :=
  let '(Node name kind _ _ children element_type fixed_array_size _) := node in
  match kind with
  | kStruct => foldl (fun count child => wrap 64 (count + countLeafFieldsImpl child)) 0 children
  | kArray =>
    match element_type, fixed_array_size with
    | Some element, Some n => wrap 64 (Z.of_N n * countLeafFieldsImpl element)
    | _, _ => 0
    end
  | _ => 1
  end.

Definition flattenFieldPaths (root : TypeTreeNode) : list bytes :=
  match node_kind root with
  | kStruct => flat_map (fun child => flattenImpl child []) (node_children root)
  | _ => [node_name root]
  end.

Definition countLeafFields (root : TypeTreeNode) : Z := countLeafFieldsImpl root.

(** ** Induction on trees *)

Section NodeInd.
Context (P : TypeTreeNode -> Prop).
Context (Hnode : forall name kind tags prim children element fixed mapping,
  Forall P children -> (forall e, element = Some e -> P e) ->
  P (Node name kind tags prim children element fixed mapping)).

Fixpoint node_ind (n : TypeTreeNode) : P n :=
  match n with
  | Node name kind tags prim children element fixed mapping =>
    Hnode name kind tags prim children element fixed mapping
      ((fix go (l : list TypeTreeNode) : Forall P l :=
          match l with
          | [] => @List.Forall_nil _ P
          | c :: l' => @List.Forall_cons _ P c l' (node_ind c) (go l')
          end) children)
      (match element as e0 return (forall e, e0 = Some e -> P e) with
       | Some e0 => fun e Heq => eq_ind e0 P (node_ind e0) e (f_equal (fun o => default e0 o) Heq)
       | None => fun e Heq => match Heq with eq_refl => I end
       end)
  end.
End NodeInd.

(** ** The two functions agree *)

Lemma wrap_add_l w a b : wrap w (wrap w a + b) = wrap w (a + b).
Proof. apply Zplus_mod_idemp_l. Qed.

Lemma wrap_add w a b a' b' :
  wrap w a = wrap w a' -> wrap w b = wrap w b' -> wrap w (a + b) = wrap w (a' + b').
Proof. unfold wrap. intros Ha Hb. by rewrite Zplus_mod, Ha, Hb, <-Zplus_mod. Qed.

Lemma foldl_count (l : list TypeTreeNode) acc :
  foldl (fun count child => wrap 64 (count + countLeafFieldsImpl child)) (wrap 64 acc) l
    = wrap 64 (acc + foldr (fun child s => countLeafFieldsImpl child + s) 0 l).
Proof.
  revert acc. induction l as [|c l IH]; intros acc; cbn [foldl foldr]; [by rewrite Z.add_0_r|].
  rewrite wrap_add_l, IH. f_equal. lia.
Qed.

Lemma length_flat_map_seq {A} (f : nat -> list A) k s n :
  (forall i, length (f i) = k) -> length (flat_map f (seq s n)) = (n * k)%nat.
Proof.
  intros Hf. revert s. induction n as [|n IH]; intros s; [done|]. cbn [seq flat_map].
  by rewrite length_app, Hf, IH.
Qed.

(** The number of paths does not depend on the prefix. *)
Lemma flatten_length node :
  exists k, (forall prefix, length (flattenImpl node prefix) = k) /\
    countLeafFieldsImpl node = wrap 64 (Z.of_nat k).
Proof.
  induction node as [name kind tags prim children element fixed mapping Hc He] using node_ind.
  destruct kind; cbn [flattenImpl countLeafFieldsImpl]; try (by exists 1%nat).
  - assert (exists k, (forall prefix, length (flat_map (fun c => flattenImpl c prefix) children) = k) /\
      wrap 64 (foldr (fun child s => countLeafFieldsImpl child + s) 0 children) = wrap 64 (Z.of_nat k))
      as (k & Hk & Hw).
    { induction Hc as [|c cs (k & Hk & Hck) Hcs (k' & Hk' & Hw)]; [by exists 0%nat|].
      exists (k + k')%nat. cbn [flat_map foldr]. split; [intros; by rewrite length_app, Hk, Hk'|].
      rewrite Nat2Z.inj_add, Hck, wrap_add_l. by apply wrap_add. }
    exists k. split; [intros; apply Hk|]. change 0 with (wrap 64 0). by rewrite foldl_count.
  - destruct element as [e|]; [|by exists 0%nat]. destruct (He e eq_refl) as (k & Hk & Hw).
    destruct fixed as [n|]; [|by exists 0%nat]. exists (N.to_nat n * k)%nat. split.
    + intros prefix. apply length_flat_map_seq. intros i. apply Hk.
    + rewrite Hw, Nat2Z.inj_mul, N_nat_Z. unfold wrap. by rewrite Zmult_mod_idemp_r.
Qed.

Lemma flatten_children_length children prefix :
  wrap 64 (Z.of_nat (length (flat_map (fun c => flattenImpl c prefix) children)))
    = foldl (fun count child => wrap 64 (count + countLeafFieldsImpl child)) 0 children.
Proof.
  etransitivity; [|symmetry; apply (foldl_count children 0)]. rewrite Z.add_0_l.
  induction children as [|c cs IH]; [done|]. cbn [flat_map foldr].
  destruct (flatten_length c) as (k & Hk & ->). rewrite length_app, Hk, Nat2Z.inj_add.
  rewrite wrap_add_l. by apply wrap_add.
Qed.

(** ** Paths are distinct *)

(** Names that can be told apart in a path: nonempty, without separators, and
    distinct among the fields of a struct. *)
Definition name_ok (name : bytes) : Prop := name <> [] /\ ch "." ∉ name /\ ch "[" ∉ name.

Inductive tree_ok : TypeTreeNode -> Prop :=
  | tree_ok_node name kind tags prim children element fixed mapping :
      name_ok name ->
      Forall tree_ok children -> NoDup (map node_name children) ->
      (forall e, element = Some e -> tree_ok e) ->
      tree_ok (Node name kind tags prim children element fixed mapping).

(** What may follow a name in a path. *)
Definition path_tail (l : bytes) : Prop :=
  l = [] \/ exists tl, l = ch "." :: tl \/ l = ch "[" :: tl.

(** Two names followed by path tails are equal only if the names are. *)
Lemma name_tail_inj a b la lb :
  name_ok a -> name_ok b -> path_tail la -> path_tail lb -> a ++ la = b ++ lb -> a = b /\ la = lb.
Proof.
  intros (_ & Had & Hab) (_ & Hbd & Hbb) Ha Hb H.
  revert b Hbd Hbb H. induction a as [|c a IH]; intros [|d b] Hbd Hbb H; cbn [app] in H.
  - done.
  - exfalso. apply not_elem_of_cons in Hbd as [Hd _], Hbb as [Hd' _].
    destruct Ha as [->|(tl & [-> | ->])]; rewrite ?app_nil_l in H; congruence.
  - exfalso. apply not_elem_of_cons in Had as [Hd _], Hab as [Hd' _].
    destruct Hb as [->|(tl & [-> | ->])]; rewrite ?app_nil_l in H; congruence.
  - injection H as -> H. apply not_elem_of_cons in Had as [_ Had], Hab as [_ Hab].
    apply not_elem_of_cons in Hbd as [_ Hbd], Hbb as [_ Hbb].
    destruct (IH Had Hab b Hbd Hbb H) as [-> ->]. done.
Qed.

Lemma to_string_inj i j : to_string (Z.of_nat i) = to_string (Z.of_nat j) -> i = j.
Proof.
  unfold to_string, str. intros H.
  assert (forall s t, String.list_byte_of_string s = String.list_byte_of_string t -> s = t) as Hinj.
  { intros s t Hst. by rewrite <-(String.string_of_list_byte_of_string s), Hst,
      String.string_of_list_byte_of_string. }
  apply Hinj in H. apply (inj pretty) in H. lia.
Qed.

(** Decimal digits are not brackets. *)
Lemma pretty_digits (n : N) : ch "]" ∉ str (pretty n).
Proof.
  assert (forall m s, ch "]" ∉ str s -> ch "]" ∉ str (pretty_N_go m s)) as Hgo.
  { intros m. induction (N.lt_wf_0 m) as [m _ IH]. intros s Hs.
    destruct (decide (0 < m)%N) as [Hm|Hm].
    - rewrite pretty_N_go_step by done. apply IH; [apply N.div_lt; lia|].
      unfold str. cbn [String.list_byte_of_string]. apply not_elem_of_cons. split; [|done].
      pose proof (N.mod_lt m 10 ltac:(lia)) as Hlt. unfold pretty_N_char.
      destruct (m `mod` 10)%N as [|p]; [done|]. do 4 (try destruct p as [p|p|]; try done).
    - replace m with 0%N by lia. by rewrite pretty_N_go_0. }
  unfold pretty, pretty_N. case_decide; [by apply (bool_decide_eq_true_1 _); vm_compute|].
  apply Hgo. apply not_elem_of_nil.
Qed.

Lemma NoDup_flat_map {A B K} (f : A -> list B) (key : A -> K) l :
  NoDup (map key l) -> (forall x, x ∈ l -> NoDup (f x)) ->
  (forall x y q, x ∈ l -> y ∈ l -> q ∈ f x -> q ∈ f y -> key x = key y) ->
  NoDup (flat_map f l).
Proof.
  induction l as [|x l IH]; intros Hk Hf Hd; [constructor|]. cbn [flat_map map] in *.
  apply NoDup_cons in Hk as [Hx Hk]. apply NoDup_app. split_and!.
  - apply Hf. left.
  - intros q Hq Hin. apply list_elem_of_In, in_flat_map in Hin as (y & Hy & Hqy).
    apply list_elem_of_In in Hy, Hqy. apply Hx.
    rewrite (Hd x y q) by (done || (by left) || by right). apply list_elem_of_In, in_map.
    by apply list_elem_of_In.
  - apply IH; [done| |].
    + intros y Hy. apply Hf. by right.
    + intros y z q Hy Hz. apply Hd; by right.
Qed.

(** The front of a path below a prefix. *)
Definition path_front (prefix : bytes) : bytes :=
  if bool_decide (prefix = []) then [] else prefix ++ [ch "."].

Lemma join_path_front prefix name : join_path prefix name = path_front prefix ++ name.
Proof. unfold join_path, path_front. case_bool_decide; [done|]. by rewrite <-app_assoc. Qed.

Lemma path_front_ne prefix : prefix <> [] -> path_front prefix = prefix ++ [ch "."].
Proof. intros. unfold path_front. by rewrite bool_decide_false. Qed.

Lemma join_path_ne prefix name : name <> [] -> join_path prefix name <> [].
Proof.
  intros Hn. rewrite join_path_front. intros H. by apply app_eq_nil in H as [_ ?].
Qed.

Lemma flatten_shape node prefix q :
  tree_ok node -> q ∈ flattenImpl node prefix ->
  exists tl, q = join_path prefix (node_name node) ++ tl /\ path_tail tl.
Proof.
  intros Hok. revert prefix q.
  induction node as [name kind tags prim children element fixed mapping Hc He] using node_ind.
  intros prefix q. inversion Hok as [? ? ? ? ? ? ? ? Hname Hch Hnd Hel]; subst.
  assert (join_path prefix name <> []) as Hcur by (apply join_path_ne, Hname).
  assert (q ∈ [join_path prefix name] ->
    exists tl, q = join_path prefix name ++ tl /\ path_tail tl) as Hleaf.
  { intros ->%list_elem_of_singleton. exists []. rewrite app_nil_r. split; [done|by left]. }
  cbn [flattenImpl node_name]. destruct kind; try exact Hleaf.
  - intros Hq. apply list_elem_of_In, in_flat_map in Hq as (c & Hin & Hq).
    apply list_elem_of_In in Hin, Hq. rewrite Forall_forall in Hc, Hch.
    destruct (Hc c Hin (Hch c Hin) _ q Hq) as (tl & -> & _).
    rewrite join_path_front, (path_front_ne _ Hcur), <-!app_assoc. cbn [app].
    eexists. split; [done|]. right. eexists. by left.
  - destruct element as [e|], fixed as [n|]; try (by intros Hq%not_elem_of_nil).
    intros Hq. apply list_elem_of_In, in_flat_map in Hq as (i & Hin & Hq).
    apply list_elem_of_In in Hq. destruct (He e eq_refl (Hel e eq_refl) _ q Hq) as (tl & -> & _).
    rewrite join_path_front, path_front_ne.
    2: { unfold index_path. intros H. by apply app_eq_nil in H as [_ ?]. }
    unfold index_path. rewrite <-!app_assoc. cbn [app].
    eexists. split; [done|]. right. eexists. by right.
Qed.

Lemma index_path_inj path i j la lb :
  index_path path i ++ la = index_path path j ++ lb -> i = j.
Proof.
  unfold index_path. rewrite <-!app_assoc. intros H. apply app_inv_head in H. cbn [app] in H.
  injection H as H. assert (forall a b (x y : bytes), ch "]" ∉ a -> ch "]" ∉ b ->
    a ++ ch "]" :: x = b ++ ch "]" :: y -> a = b) as Hinj.
  { induction a as [|c a IH]; intros [|d b] x y Ha Hb Heq; cbn [app] in Heq.
    - done.
    - injection Heq as Hd _. exfalso. apply Hb. rewrite <-Hd. left.
    - injection Heq as Hd _. exfalso. apply Ha. rewrite Hd. left.
    - injection Heq as -> Heq. f_equal. apply not_elem_of_cons in Ha as [_ Ha], Hb as [_ Hb]. eauto. }
  apply Hinj in H; [|apply pretty_digits..]. by apply to_string_inj.
Qed.

Lemma siblings_distinct children prefix :
  Forall tree_ok children -> NoDup (map node_name children) ->
  (forall c, c ∈ children -> NoDup (flattenImpl c prefix)) ->
  NoDup (flat_map (fun c => flattenImpl c prefix) children).
Proof.
  intros Hch Hnd Hall. apply (NoDup_flat_map _ node_name); [done..|].
  intros x y q Hx Hy Hqx Hqy. rewrite Forall_forall in Hch.
  destruct (flatten_shape x prefix q (Hch x Hx) Hqx) as (tx & -> & Htx).
  destruct (flatten_shape y prefix _ (Hch y Hy) Hqy) as (ty & Heq & Hty).
  rewrite !join_path_front, <-!app_assoc in Heq. apply app_inv_head in Heq.
  assert (name_ok (node_name x) /\ name_ok (node_name y)) as [Hnx Hny].
  { pose proof (Hch x Hx) as Ox. pose proof (Hch y Hy) as Oy. by inversion Ox; inversion Oy. }
  by apply name_tail_inj in Heq as [? _].
Qed.

Lemma flatten_nodup node prefix : tree_ok node -> NoDup (flattenImpl node prefix).
Proof.
  intros Hok. revert prefix.
  induction node as [name kind tags prim children element fixed mapping Hc He] using node_ind.
  intros prefix. inversion Hok as [? ? ? ? ? ? ? ? Hname Hch Hnd Hel]; subst.
  cbn [flattenImpl]. destruct kind; try apply NoDup_singleton.
  - apply siblings_distinct; [done..|]. intros c Hin. rewrite Forall_forall in Hc, Hch. auto.
  - destruct element as [e|], fixed as [n|]; try constructor.
    apply (NoDup_flat_map _ id); [rewrite map_id; apply NoDup_ListNoDup, seq_NoDup|auto|].
    set (cur := join_path prefix name).
    assert (forall k, index_path cur k <> []) as Hne
      by (intros k H; unfold index_path in H; by apply app_eq_nil in H as [_ ?]).
    intros i j q _ _ Hi Hj. destruct (flatten_shape e _ q (Hel e eq_refl) Hi) as (ti & -> & _).
    destruct (flatten_shape e _ _ (Hel e eq_refl) Hj) as (tj & Heq & _).
    rewrite !join_path_front, (path_front_ne _ (Hne i)), (path_front_ne _ (Hne j)), <-!app_assoc in Heq.
    by apply index_path_inj in Heq.
Qed.

(** Flattening and counting agree: a struct has as many leaf paths as
    [countLeafFields] says (modulo the width of [size_t]), whatever the shape and
    nesting of its fields; a root that is not a struct is flattened to its name
    only, also when it is an array that counts as several leaves or as none. *)
Theorem flatten_count root :
  (node_kind root = kStruct ->
     countLeafFields root = wrap 64 (Z.of_nat (length (flattenFieldPaths root)))) /\
  (node_kind root <> kStruct -> flattenFieldPaths root = [node_name root]) /\
  (forall name element n, node_kind element = kPrimitive -> in_u 64 (Z.of_N n) ->
     countLeafFields (makeArray name (Some element) (Some n)) = Z.of_N n /\
     countLeafFields (makeArray name (Some element) None) = 0 /\
     length (flattenFieldPaths (makeArray name (Some element) (Some n))) = 1%nat).
Proof.
  destruct root as [name kind tags prim children element fixed mapping].
  unfold countLeafFields, flattenFieldPaths. cbn [node_kind node_name node_children]. split_and!.
  - intros ->. symmetry. apply flatten_children_length.
  - by destruct kind.
  - intros nm e n He Hn. split_and!; try done. cbn [makeArray countLeafFieldsImpl].
    destruct e as [? k ? ? ? ? ? ?]. cbn in He. subst k. cbn [countLeafFieldsImpl].
    by rewrite Z.mul_1_r, wrap_small.
Qed.

(** Every leaf of a schema gets a path of its own: when the names have no
    separators and the fields of each struct have distinct names, the flattened
    paths are pairwise different, across nested structs and array elements. *)
Theorem flatten_paths_distinct root :
  tree_ok root -> NoDup (flattenFieldPaths root).
Proof.
  intros Hok. destruct root as [name kind tags prim children element fixed mapping].
  inversion Hok; subst. unfold flattenFieldPaths. cbn [node_kind node_name node_children].
  destruct kind; try apply NoDup_singleton. apply siblings_distinct; [done..|].
  intros c Hc. apply flatten_nodup. rewrite Forall_forall in *. auto.
Qed.

Definition sample_tree : TypeTreeNode :=
  makeStruct (str "Msg")
    [makePrimitive (str "t") kFloat64;
     makeArray (str "p") (Some (makeStruct (str "v")
       [makePrimitive (str "x") kFloat64; makePrimitive (str "y") kFloat64])) (Some 2%N);
     makeArray (str "d") (Some (makePrimitive (str "e") kInt8)) None].

Lemma flatten_paths_distinct_witness :
  flattenFieldPaths sample_tree
    = map str ["t"; "p[0].v.x"; "p[0].v.y"; "p[1].v.x"; "p[1].v.y"]%string /\
  NoDup (flattenFieldPaths sample_tree).
Proof.
  split; [vm_compute; reflexivity|]. apply flatten_paths_distinct.
  assert (forall n, bool_decide (n <> [] /\ ch "." ∉ n /\ ch "[" ∉ n) = true -> name_ok n) as Hn
    by (intros n H; exact (bool_decide_eq_true_1 _ H)).
  unfold sample_tree, makeStruct, makePrimitive, makeArray.
  repeat match goal with
  | |- tree_ok _ => apply tree_ok_node
  | |- name_ok _ => apply Hn; vm_compute; reflexivity
  | |- Forall _ [] => constructor
  | |- Forall _ (_ :: _) => constructor
  | |- NoDup _ => apply (bool_decide_eq_true_1 _); vm_compute; reflexivity
  | |- forall e, None = Some e -> _ => intros e He; discriminate He
  | |- forall e, Some _ = Some e -> _ => intros e He; injection He as <-
  end.
Defined.

(** ** Names qualified by their dataset *)

Record DatasetQualifierSplit : Set := mkSplit {
  qualified : bool; dataset_source : bytes; bare : bytes }.

(** The [continue] conditions of the loop; [name.compare(0, n, src) != 0] is the
    comparison of the first [n] characters. *)
Definition source_skipped (name src : bytes) (best : nat) : bool :=
  bool_decide (src = []) || (length src <=? best)%nat || (length name <=? length src)%nat
  || negb (bool_decide (name !! length src = Some (ch ":")))
  || negb (bool_decide (take (length src) name = src)).

Fixpoint split_loop (name : bytes) (best : nat) (found : bytes) (sources : list bytes)
  : nat * bytes :=
  match sources with
  | [] => (best, found)
  | src :: sources' =>
    if source_skipped name src best then split_loop name best found sources'
    else split_loop name (length src) src sources'
  end.

Definition splitDatasetQualifier (name : bytes) (source_names : list bytes)
  : DatasetQualifierSplit :=
  let '(best, found) := split_loop name 0 [] source_names in
  let q := negb (best =? 0)%nat in
  mkSplit q found (if q then drop (S best) name else name).

Definition qualifiedSeriesName (dataset_source bare : bytes) : bytes :=
  dataset_source ++ [ch ":"] ++ bare.

(** ** Which sources qualify a name *)

(** The source is a nonempty prefix of the name, before a colon. *)
Definition matches (name src : bytes) : Prop :=
  src <> [] /\ exists tl, name = qualifiedSeriesName src tl.

Lemma source_skipped_spec name src best :
  source_skipped name src best = false <-> matches name src /\ (best < length src)%nat.
Proof.
  unfold source_skipped, matches, qualifiedSeriesName.
  rewrite !orb_false_iff, !negb_false_iff, !Nat.leb_gt.
  rewrite bool_decide_eq_false, !bool_decide_eq_true. split.
  - intros ((((Hne & Hb) & Hl) & Hc) & Ht). split; [|done]. split; [done|].
    exists (drop (S (length src)) name). rewrite <-Ht at 1. cbn [app].
    rewrite <-(take_drop_middle name _ _ Hc) at 1. done.
  - intros ((Hne & tl & ->) & Hb). split_and!; try done.
    + rewrite length_app. cbn. lia.
    + by rewrite lookup_app_r, Nat.sub_diag by lia.
    + apply take_app_length.
Qed.

Lemma matches_length name a b :
  matches name a -> matches name b -> length a = length b -> a = b.
Proof.
  intros (_ & ta & ->) (_ & tb & H) Hl. unfold qualifiedSeriesName in H.
  by apply app_inj_1 in H as [? _].
Qed.

(** The state of the loop: no source yet, or the longest match so far. *)
Definition loop_inv (name : bytes) (seen : list bytes) (best : nat) (found : bytes) : Prop :=
  best = length found /\
  (found = [] \/ matches name found /\ found ∈ seen) /\
  (forall src, src ∈ seen -> matches name src -> (length src <= best)%nat).

Lemma split_loop_inv name seen best found sources :
  loop_inv name seen best found ->
  loop_inv name (seen ++ sources) (split_loop name best found sources).1
    (split_loop name best found sources).2.
Proof.
  revert seen best found. induction sources as [|src sources IH]; intros seen best found Hinv;
    cbn [split_loop]; [by rewrite app_nil_r|].
  destruct Hinv as (Hb & Hf & Hmax).
  replace (seen ++ src :: sources) with ((seen ++ [src]) ++ sources) by (by rewrite <-app_assoc).
  destruct (source_skipped name src best) eqn:E; apply IH.
  - split_and!; [done| |].
    + destruct Hf as [|[? ?]]; [by left|right]. split; [done|]. apply elem_of_app. by left.
    + intros s [Hs|Hs%list_elem_of_singleton]%elem_of_app Hm; [by apply Hmax|]. subst s.
      destruct (decide (length src <= best)%nat) as [|Hgt]; [done|].
      assert (source_skipped name src best = false) by (apply source_skipped_spec; split; [done|lia]).
      congruence.
  - apply source_skipped_spec in E as [Hm Hgt]. split_and!; [done| |].
    + right. split; [done|]. apply elem_of_app. right. by apply list_elem_of_singleton.
    + intros s [Hs|Hs%list_elem_of_singleton]%elem_of_app Hms; [|by subst].
      specialize (Hmax s Hs Hms). lia.
Qed.

(** Splitting a name: it is qualified exactly when some known source is a
    nonempty prefix of it before a colon; then the source returned is the longest
    such one and composing it with the bare rest gives the name back, and
    otherwise the whole name is bare.  Conversely a composed name splits into its
    parts exactly when its source is the longest known source that matches. *)
Theorem split_longest_source name sources :
  let s := splitDatasetQualifier name sources in
  (qualified s = true <-> exists src, src ∈ sources /\ matches name src) /\
  (qualified s = true ->
     dataset_source s ∈ sources /\ dataset_source s <> [] /\
     name = qualifiedSeriesName (dataset_source s) (bare s) /\
     (forall src, src ∈ sources -> matches name src ->
        (length src <= length (dataset_source s))%nat)) /\
  (qualified s = false -> dataset_source s = [] /\ bare s = name) /\
  (forall d b, name = qualifiedSeriesName d b -> d ∈ sources -> d <> [] ->
     (s = mkSplit true d b <->
      forall src, src ∈ sources -> matches name src -> (length src <= length d)%nat)).
Proof.
  assert (loop_inv name [] 0 []) as H0.
  { split_and!; [done|by left|]. intros src Hs. by apply not_elem_of_nil in Hs. }
  pose proof (split_loop_inv name [] 0 [] sources H0) as Hinv. cbn [app] in Hinv.
  unfold splitDatasetQualifier. destruct (split_loop name 0 [] sources) as [best found].
  cbn [fst snd] in Hinv. destruct Hinv as (-> & Hf & Hmax). cbv zeta. cbn [qualified dataset_source bare].
  destruct found as [|c found].
  - cbn [length Nat.eqb negb]. split_and!; try done.
    + split; [done|]. intros (src & Hs & Hm). specialize (Hmax src Hs Hm). cbn in Hmax.
      destruct Hm as [Hne _]. destruct src; [done|cbn in Hmax; lia].
    + intros d b Hn Hd Hne. assert (matches name d) as Hm by (split; [done|by exists b]).
      specialize (Hmax d Hd Hm). destruct d; [done|cbn in Hmax; lia].
  - destruct Hf as [|[Hm Hin]]; [done|]. destruct Hm as (Hne & tl & Hn).
    set (f := c :: found) in *. assert ((length f =? 0)%nat = false) as -> by done. cbn [negb].
    assert (drop (S (length f)) name = tl) as Hdrop.
    { rewrite Hn. unfold qualifiedSeriesName. cbn [app]. apply drop_app_first. }
    rewrite Hdrop. split_and!; try done.
    + split; [|done]. intros _. exists f. split; [done|]. split; [done|by exists tl].
    + intros d b Hd Hin' Hned. assert (matches name d) as Hmd by (split; [done|by exists b]).
      assert (matches name f) as Hmf by (split; [done|by exists tl]). split.
      * intros [= Hfd _]. by subst d.
      * intros Hall. assert (f = d) as <-.
        { apply (matches_length name); [done..|]. specialize (Hall f Hin Hmf).
          specialize (Hmax d Hin' Hmd). lia. }
        rewrite Hn in Hd. apply app_inv_head in Hd. by injection Hd as ->.
Qed.

Lemma split_examples :
  splitDatasetQualifier (str "a:b:/t/f") [str "a"; str "a:b"; str "b"]
    = mkSplit true (str "a:b") (str "/t/f") /\
  splitDatasetQualifier (str "x:/t/f") [str "a"; str ""] = mkSplit false [] (str "x:/t/f").
Proof. split; vm_compute; reflexivity. Qed.
