(* ===== verification/ParserCore.v ===== *)
(** * ParserCore: the vocabulary of parser modules

    [pj_base/include/pj_base/parser_module/core.hpp]: [Status], [Expected],
    [ByteView], [Blob] and [BumpArena].

    The allocator is a parameter ([alloc], in which sizes it succeeds): the
    source checks every allocation.  Storage that was allocated and not yet
    written holds [None]; a view of it must not be read. *)

From Stdlib Require Import Sorting.Sorted.
From S2P Require Import Prelude.

Notation SIZE_MAX := 18446744073709551615.

(** ** Status and Expected *)

Inductive StatusCode : Set := kOk | kDecline | kError.

Record Status : Set := mkStatus { code : StatusCode; message : bytes }.

Definition kMessageCapacity : nat := 512.

(** The constructor keeps what fits the fixed buffer beside its terminator. *)
Definition Status_of (c : StatusCode) (msg : bytes) : Status :=
  let message_size :=
    if (length msg <? kMessageCapacity - 1)%nat then length msg else (kMessageCapacity - 1)%nat in
  mkStatus c (take message_size msg).

Definition status_ok : Status := mkStatus kOk [].
Definition status_decline (msg : bytes) : Status := Status_of kDecline msg.
Definition status_error (msg : bytes) : Status := Status_of kError msg.
Definition isOk (s : Status) : bool := match code s with kOk => true | _ => false end.
Definition isDecline (s : Status) : bool := match code s with kDecline => true | _ => false end.
Definition isError (s : Status) : bool := match code s with kError => true | _ => false end.

(** [pj::Expected<T>]: a value or a status. *)
Inductive PjExpected (A : Type) : Type :=
  | Value (a : A)
  | Failed (s : Status).
Arguments Value {A} a.
Arguments Failed {A} s.

Definition hasValue {A} (e : PjExpected A) : bool :=
  match e with Value _ => true | Failed _ => false end.

Definition expected_status {A} (e : PjExpected A) : Status :=
  match e with Value _ => status_ok | Failed s => s end.

(** [detail::copyMessage]: [destination] is the caller's buffer of [capacity]
    characters, [None] for a null pointer. *)
Definition copyMessage (destination : option bytes) (capacity : nat) (msg : bytes)
  : option bytes :=
  match destination with
  | None => None
  | Some dst =>
    if (capacity =? 0)%nat then Some dst
    else
      let len := if (length msg <? capacity - 1)%nat then length msg else (capacity - 1)%nat in
      Some (take len msg ++ [Byte.x00] ++ drop (S len) dst)
  end.

(** ** ByteView

    A pointer is the list of bytes from its address to the end of the storage
    it points into, [None] when it is null. *)

Record ByteView : Set := mkByteView { bv_data : option bytes; bv_size : Z }.

Definition byte_view_empty (v : ByteView) : bool := bv_size v =? 0.

Definition subview (v : ByteView) (offset len : Z) : PjExpected ByteView :=
  match bv_data v with
  | None =>
    if negb (bv_size v =? 0) then Failed (status_error (str "byte-view storage is null"))
    else if (offset >? bv_size v) || (len >? wrap 64 (bv_size v - offset))
    then Failed (status_error (str "byte-view range is outside its storage"))
    else Value (mkByteView None len)
  | Some data =>
    if (offset >? bv_size v) || (len >? wrap 64 (bv_size v - offset))
    then Failed (status_error (str "byte-view range is outside its storage"))
    else Value (mkByteView (Some (drop (Z.to_nat offset) data)) len)
  end.

(** The bytes a view shows, and the views that show only bytes they may read. *)
Definition view_bytes (v : ByteView) : bytes :=
  match bv_data v with Some data => take (Z.to_nat (bv_size v)) data | None => [] end.

Definition byte_view_wf (v : ByteView) : Prop :=
  in_u 64 (bv_size v) /\
  match bv_data v with
  | Some data => bv_size v <= Z.of_nat (length data)
  | None => bv_size v = 0
  end.

(** ** Blob *)

Definition cell := option byte.

Record Blob : Set := mkBlob { b_data : list cell; b_size : Z; b_capacity : Z }.

Definition blob_empty : Blob := mkBlob [] 0 0.

(** The doubling loop of [append] and of the arena. *)
Fixpoint grow_loop (fuel : nat) (next_capacity required : Z) : option Z :=
  match fuel with
  | O => None
  | S fuel' =>
    if next_capacity <? required then
      if next_capacity >? SIZE_MAX / 2 then Some required
      else grow_loop fuel' (wrap 64 (next_capacity * 2)) required
    else Some next_capacity
  end.

(** A positive [size_t] doubles at most 63 times below the overflow guard. *)
Definition grow_capacity (next_capacity required : Z) : option Z :=
  grow_loop 65 next_capacity required.

(** Overwriting cells from an index on: [memcpy] and [memset] into storage. *)
Definition write_cells (data : list cell) (at_ : Z) (new : list cell) : list cell :=
  take (Z.to_nat at_) data ++ new ++ drop (Z.to_nat at_ + length new) data.

(** The bytes from [used] to the next multiple of [alignment], as the arena and
    the CDR reader compute them. *)
Definition align_padding (used alignment : Z) : Z :=
  Z.land (wrap 64 (alignment - Z.land used (wrap 64 (alignment - 1)))) (wrap 64 (alignment - 1)).

(** [alignment == 0 || (alignment & (alignment - 1)) != 0]. *)
Definition bad_alignment (alignment : Z) : bool :=
  (alignment =? 0) || negb (Z.land alignment (wrap 64 (alignment - 1)) =? 0).

Section Storage.
Context (alloc : Z -> bool).

Definition blob_reserve (b : Blob) (size : Z) : Status * Blob :=
  if size <=? b_capacity b then (status_ok, b)
  else if negb (alloc size) then (status_error (str "parser-module allocation failed"), b)
  else
    let grown := replicate (Z.to_nat size) None in
    let grown := if negb (b_size b =? 0)
                 then write_cells grown 0 (take (Z.to_nat (b_size b)) (b_data b)) else grown in
    (status_ok, mkBlob grown (b_size b) size).

Definition blob_resize (b : Blob) (size : Z) : Status * Blob :=
  let '(reserved, b') := blob_reserve b size in
  if negb (isOk reserved) then (reserved, b')
  else
    let data := if size >? b_size b'
      then write_cells (b_data b') (b_size b')
             (replicate (Z.to_nat (size - b_size b')) (Some Byte.x00))
      else b_data b' in
    (status_ok, mkBlob data size (b_capacity b')).

(** [Blob::append]; the view does not show the blob's own storage, which the
    growth would free. *)
Definition blob_append (b : Blob) (v : ByteView) : Status * Blob :=
  if negb (bv_size v =? 0) && match bv_data v with None => true | _ => false end
  then (status_error (str "cannot append a null non-empty byte view"), b)
  else if bv_size v =? 0 then (status_ok, b)
  else if bv_size v >? wrap 64 (SIZE_MAX - b_size b)
  then (status_error (str "parser-module output size overflow"), b)
  else
    let required := wrap 64 (b_size b + bv_size v) in
    let '(reserved, b') :=
      if required >? b_capacity b then
        match grow_capacity (if b_capacity b =? 0 then 64 else b_capacity b) required with
        | Some next_capacity => blob_reserve b next_capacity
        | None => (status_error (str ""), b)
        end
      else (status_ok, b) in
    if negb (isOk reserved) then (reserved, b')
    else (status_ok, mkBlob (write_cells (b_data b') (b_size b') (map Some (view_bytes v)))
                       required (b_capacity b')).

Definition blob_push (b : Blob) (byte : byte) : Status * Blob :=
  let store b' := mkBlob (write_cells (b_data b') (b_size b') [Some byte])
                    (wrap 64 (b_size b' + 1)) (b_capacity b') in
  if b_size b =? b_capacity b then
    let next_capacity := if b_capacity b =? 0 then 64 else wrap 64 (b_capacity b * 2) in
    if next_capacity <? b_capacity b
    then (status_error (str "parser-module output size overflow"), b)
    else
      let '(reserved, b') := blob_reserve b next_capacity in
      if negb (isOk reserved) then (reserved, b') else (status_ok, store b')
  else (status_ok, store b).

Definition allocateBlob (size : Z) : PjExpected Blob :=
  let '(status, b) := blob_resize blob_empty size in
  if negb (isOk status) then Failed status else Value b.

(** ** BumpArena

    A pointer into the arena is its offset; [realloc] keeps the contents and
    the alignment of [malloc]. *)

Definition kMaxAlign : Z := 16.

Record BumpArena : Set := mkBumpArena { a_capacity : Z; a_used : Z }.

Definition arena_empty : BumpArena := mkBumpArena 0 0.

(** An allocation: [None] for the empty view, or offset and size. *)
Definition arena_view : Type := option (Z * Z).

Definition arena_allocate (a : BumpArena) (size alignment : Z) : PjExpected arena_view * BumpArena :=
  if bad_alignment alignment
  then (Failed (status_error (str "arena alignment must be a nonzero power of two")), a)
  else if alignment >? kMaxAlign
  then (Failed (status_error (str "arena alignment exceeds malloc alignment")), a)
  else if size =? 0 then (Value None, a)
  else
    let padding := align_padding (a_used a) alignment in
    if (padding >? wrap 64 (SIZE_MAX - a_used a))
       || (size >? wrap 64 (wrap 64 (SIZE_MAX - a_used a) - padding))
    then (Failed (status_error (str "arena allocation size overflow")), a)
    else
      let required := wrap 64 (wrap 64 (a_used a + padding) + size) in
      let finish capacity :=
        let used := wrap 64 (a_used a + padding) in
        (Value (Some (used, size)), mkBumpArena capacity (wrap 64 (used + size))) in
      if required >? a_capacity a then
        match grow_capacity (if a_capacity a =? 0 then 256 else a_capacity a) required with
        | Some next_capacity =>
          if negb (alloc next_capacity)
          then (Failed (status_error (str "arena allocation failed")), a)
          else finish next_capacity
        | None => (Failed (status_error (str "")), a)
        end
      else finish (a_capacity a).

Definition arena_reset (a : BumpArena) : BumpArena := mkBumpArena (a_capacity a) 0.

End Storage.

(** ** Alignment *)

Lemma bad_alignment_false alignment :
  in_u 64 alignment -> bad_alignment alignment = false ->
  exists k, 0 <= k < 64 /\ alignment = 2 ^ k.
Proof.
  unfold in_u, bad_alignment. intros Ha Hb. apply orb_false_iff in Hb as [Hz Hb].
  rewrite wrap_small in Hb by (unfold in_u; lia).
  assert (alignment = 2 ^ Z.log2 alignment) as Hp by (apply land_pred_pow2; lia).
  exists (Z.log2 alignment). split; [|done]. split; [apply Z.log2_nonneg|].
  apply Z.log2_lt_pow2; lia.
Qed.

Lemma align_padding_spec used k :
  0 <= used -> 0 <= k < 64 -> align_padding used (2 ^ k) = (- used) mod 2 ^ k.
Proof.
  intros Hu Hk. unfold align_padding.
  assert (0 < 2 ^ k) by (apply Z.pow_pos_nonneg; lia).
  assert (2 ^ k < 2 ^ 64) by (apply Z.pow_lt_mono_r; lia).
  pose proof (Z.mod_pos_bound used (2 ^ k) ltac:(lia)).
  rewrite (wrap_small 64 (2 ^ k - 1)) by (unfold in_u; lia). rewrite !land_low by lia.
  rewrite wrap_small by (unfold in_u; lia).
  rewrite <-(Z.mod_add (- used) 1) by lia.
  replace (- used + 1 * 2 ^ k) with (2 ^ k - used) by lia. by rewrite Zminus_mod_idemp_r.
Qed.

(** ** The growth loop *)

Lemma grow_loop_some fuel next required :
  0 < next <= SIZE_MAX -> 0 <= required <= SIZE_MAX -> SIZE_MAX < next * 2 ^ Z.of_nat fuel ->
  exists c, grow_loop (S fuel) next required = Some c /\ required <= c <= SIZE_MAX /\ next <= c.
Proof.
  revert next. induction fuel as [|fuel IH]; intros next Hn Hr Hf.
  - simpl in Hf. lia.
  - change (grow_loop (S (S fuel)) next required) with
      (if next <? required then
         if next >? SIZE_MAX / 2 then Some required
         else grow_loop (S fuel) (wrap 64 (next * 2)) required
       else Some next).
    destruct (next <? required) eqn:E1; [|exists next; split; [done|lia]].
    destruct (next >? SIZE_MAX / 2) eqn:E2; [exists required; split; [done|lia]|].
    change (SIZE_MAX / 2) with 9223372036854775807 in E2.
    rewrite wrap_small by (unfold in_u; change (2 ^ 64) with 18446744073709551616; lia).
    rewrite Nat2Z.inj_succ, Z.pow_succ_r in Hf by lia.
    destruct (IH (next * 2)) as (c & -> & ? & ?); [lia..|].
    exists c. split; [done|lia].
Qed.

Lemma grow_capacity_some next required :
  0 < next <= SIZE_MAX -> 0 <= required <= SIZE_MAX ->
  exists c, grow_capacity next required = Some c /\ required <= c <= SIZE_MAX /\ next <= c.
Proof.
  intros. apply grow_loop_some; [done..|]. change (2 ^ Z.of_nat 64) with 18446744073709551616. lia.
Qed.

(** ** Storage cells *)

Lemma length_write_cells data at_ new :
  (Z.to_nat at_ + length new <= length data)%nat -> length (write_cells data at_ new) = length data.
Proof. intros. unfold write_cells. rewrite !length_app, length_take, length_drop. lia. Qed.

Lemma take_write_cells data at_ new :
  (Z.to_nat at_ <= length data)%nat ->
  take (Z.to_nat at_ + length new) (write_cells data at_ new) = take (Z.to_nat at_) data ++ new.
Proof.
  intros. unfold write_cells. rewrite app_assoc. apply take_app_length'.
  rewrite length_app, length_take. lia.
Qed.

(** ** Blob contents *)

(** The blob owns [capacity] cells, the first [size] of which hold [l]. *)
Definition blob_holds (b : Blob) (l : bytes) : Prop :=
  b_size b = Z.of_nat (length l) /\ b_capacity b = Z.of_nat (length (b_data b)) /\
  (length l <= length (b_data b))%nat /\ b_capacity b <= SIZE_MAX /\
  take (length l) (b_data b) = map Some l.

Inductive blob_op : Set :=
  | OpReserve (size : Z)
  | OpResize (size : Z)
  | OpAppend (v : ByteView)
  | OpPush (c : byte).

Definition blob_run (alloc : Z -> bool) (b : Blob) (op : blob_op) : Status * Blob :=
  match op with
  | OpReserve size => blob_reserve alloc b size
  | OpResize size => blob_resize alloc b size
  | OpAppend v => blob_append alloc b v
  | OpPush c => blob_push alloc b c
  end.

Definition blob_op_wf (op : blob_op) : Prop :=
  match op with
  | OpReserve size | OpResize size => in_u 64 size
  | OpAppend v => byte_view_wf v
  | OpPush _ => True
  end.

(** What an operation does to the contents: truncation or zero padding, or the
    appended bytes. *)
Definition blob_spec (l : bytes) (op : blob_op) : bytes :=
  match op with
  | OpReserve _ => l
  | OpResize size =>
    take (Z.to_nat size) l ++ replicate (Z.to_nat size - length l) Byte.x00
  | OpAppend v => l ++ view_bytes v
  | OpPush c => l ++ [c]
  end.

Section BlobProofs.
Context (alloc : Z -> bool).

(** A reservation either fails and changes nothing, or keeps the contents. *)
Lemma blob_reserve_spec b l size :
  blob_holds b l -> in_u 64 size ->
  (alloc size = false /\ b_capacity b < size /\
   exists e, blob_reserve alloc b size = (status_error e, b)) \/
  (exists b', blob_reserve alloc b size = (status_ok, b') /\ blob_holds b' l /\
     size <= b_capacity b').
Proof.
  intros (Hs & Hc & Hle & Hmax & Ht) Hsz. unfold in_u in Hsz.
  change (2 ^ 64) with 18446744073709551616 in Hsz. unfold blob_reserve.
  destruct (size <=? b_capacity b) eqn:E1.
  { right. exists b. split; [done|]. split; [by split_and!|lia]. }
  apply Z.leb_gt in E1. destruct (alloc size) eqn:E2; cbn [negb]; [right|left; split_and!; [done|lia|by eexists]].
  eexists. split; [reflexivity|]. rewrite Hs, Nat2Z.id.
  assert (length (map Some l) = length l) as Hml by apply length_map.
  rewrite Ht. destruct (negb _) eqn:E3; unfold blob_holds; cbn [b_data b_size b_capacity].
  - assert (0 + length (map Some l) <= length (replicate (Z.to_nat size) (@None byte)))%nat
      as Hw by (rewrite length_replicate, Hml; lia).
    rewrite (length_write_cells _ 0 _ Hw), length_replicate. split_and!; try lia.
    rewrite <-Hml at 1. apply (take_write_cells _ 0 (map Some l)). simpl. lia.
  - apply negb_false_iff, Z.eqb_eq in E3. destruct l; [|cbn [length] in *; lia].
    rewrite length_replicate. split_and!; cbn [length]; try lia. done.
Qed.

(** Writing behind the contents extends them, when the capacity is there. *)
Lemma blob_holds_write b l new :
  blob_holds b l -> Z.of_nat (length l + length new) <= b_capacity b ->
  blob_holds (mkBlob (write_cells (b_data b) (b_size b) (map Some new))
    (Z.of_nat (length l + length new)) (b_capacity b)) (l ++ new).
Proof.
  intros (Hs & Hc & Hle & Hmax & Ht) Hfit. unfold blob_holds. cbn [b_data b_size b_capacity].
  assert (Z.to_nat (b_size b) = length l) as Hn by lia.
  assert (@length cell (map Some new) = length new) as Hml by apply length_map.
  rewrite length_write_cells by lia. rewrite length_app, map_app, <-Ht.
  split_and!; try lia. rewrite <-Hn, <-Hml. apply take_write_cells. lia.
Qed.

Lemma blob_holds_shrink b l n :
  blob_holds b l -> (n <= length l)%nat ->
  blob_holds (mkBlob (b_data b) (Z.of_nat n) (b_capacity b)) (take n l).
Proof.
  intros (Hs & Hc & Hle & Hmax & Ht) Hn. unfold blob_holds. cbn [b_data b_size b_capacity].
  rewrite length_take, Nat.min_l by done. split_and!; try lia.
  rewrite <-(firstn_map), <-Ht, take_take. f_equal. lia.
Qed.

Lemma view_bytes_length v : byte_view_wf v -> Z.of_nat (length (view_bytes v)) = bv_size v.
Proof.
  intros [Hr Hv]. unfold view_bytes, in_u in *. destruct (bv_data v); [|done].
  rewrite length_take. lia.
Qed.

Lemma blob_resize_refines b l size :
  blob_holds b l -> in_u 64 size ->
  (exists b', blob_resize alloc b size = (status_ok, b') /\
     blob_holds b' (blob_spec l (OpResize size))) \/
  (exists e, blob_resize alloc b size = (status_error e, b) /\
     ((exists n, alloc n = false) \/ 2 ^ 63 <= Z.of_nat (length (blob_spec l (OpResize size))))).
Proof.
  intros Hb Hwf. unfold blob_resize. cbn [blob_spec].
  destruct (blob_reserve_spec b l size Hb Hwf) as [(Ha & _ & e & Hr)|(b' & Hr & Hb' & Hcap)];
    rewrite Hr; [right; eexists; split; [done|left; by exists size]|left].
  cbn [isOk negb code status_ok]. eexists. split; [reflexivity|].
  pose proof Hb' as (Hs & Hc & Hle & Hmax & Ht). unfold in_u in Hwf.
  destruct (size >? b_size b') eqn:E.
  - rewrite Z.gtb_lt in E. rewrite take_ge by lia.
    pose proof (blob_holds_write b' l (replicate (Z.to_nat size - length l) Byte.x00) Hb') as Hw.
    assert (forall n, map Some (replicate n Byte.x00) = replicate n (Some Byte.x00)) as Hmr
      by (intros; apply fmap_replicate).
    rewrite length_replicate, Hmr in Hw.
    replace (Z.of_nat (length l + (Z.to_nat size - length l))) with size in Hw by lia.
    replace (Z.to_nat (size - b_size b')) with (Z.to_nat size - length l)%nat by lia. auto.
  - rewrite Z.gtb_ltb, Z.ltb_ge in E.
    pose proof (blob_holds_shrink b' l (Z.to_nat size) Hb' ltac:(lia)) as Hw.
    replace (Z.to_nat size - length l)%nat with O by lia. rewrite app_nil_r.
    by rewrite Z2Nat.id in Hw by lia.
Qed.

Lemma blob_append_refines b l v :
  blob_holds b l -> byte_view_wf v ->
  (exists b', blob_append alloc b v = (status_ok, b') /\
     blob_holds b' (blob_spec l (OpAppend v))) \/
  (exists e, blob_append alloc b v = (status_error e, b) /\
     ((exists n, alloc n = false) \/ 2 ^ 63 <= Z.of_nat (length (blob_spec l (OpAppend v))))).
Proof.
  intros Hb Hwf. pose proof Hb as (Hs & Hc & Hle & Hmax & Ht).
  pose proof (view_bytes_length v Hwf) as Hv. pose proof Hwf as [Hr Hn]. unfold in_u in Hr.
  change (2 ^ 64) with 18446744073709551616 in Hr. change (2 ^ 63) with 9223372036854775808.
  unfold blob_append. cbn [blob_spec].
  destruct (bv_size v =? 0) eqn:E0.
  { apply Z.eqb_eq in E0. cbn [negb andb]. left. exists b. split; [done|].
    destruct (view_bytes v); [by rewrite app_nil_r|cbn [length] in Hv; lia]. }
  apply Z.eqb_neq in E0. destruct (bv_data v) eqn:Ed; [|done]. cbn [negb andb].
  rewrite (wrap_small 64 (SIZE_MAX - _)) by (unfold in_u; simpl; lia).
  rewrite length_app. destruct (bv_size v >? _) eqn:E1.
  { rewrite Z.gtb_lt in E1. right. eexists. split; [done|]. right. lia. }
  rewrite Z.gtb_ltb, Z.ltb_ge in E1.
  rewrite wrap_small by (unfold in_u; simpl; lia).
  assert (forall b', blob_holds b' l -> b_size b + bv_size v <= b_capacity b' ->
    blob_holds (mkBlob (write_cells (b_data b') (b_size b') (map Some (view_bytes v)))
      (b_size b + bv_size v) (b_capacity b')) (l ++ view_bytes v)) as Hwrite.
  { intros b' Hb' Hcap. replace (b_size b + bv_size v)
      with (Z.of_nat (length l + length (view_bytes v))) by lia.
    apply blob_holds_write; [done|lia]. }
  destruct (_ >? b_capacity b) eqn:E2; [rewrite Z.gtb_lt in E2|rewrite Z.gtb_ltb, Z.ltb_ge in E2].
  - destruct (grow_capacity_some (if b_capacity b =? 0 then 64 else b_capacity b)
      (b_size b + bv_size v)) as (c & -> & Hcr & _); [destruct (b_capacity b =? 0) eqn:E3; lia|lia|].
    destruct (blob_reserve_spec b l c Hb ltac:(unfold in_u; simpl; lia))
      as [(Ha & _ & e & Hres)|(b' & Hres & Hb' & Hcap)]; rewrite Hres.
    + right. eexists. split; [done|left; by exists c].
    + left. eexists. split; [reflexivity|]. apply Hwrite; [done|lia].
  - left. eexists. split; [reflexivity|]. by apply Hwrite.
Qed.

Lemma blob_push_refines b l c :
  blob_holds b l ->
  (exists b', blob_push alloc b c = (status_ok, b') /\ blob_holds b' (l ++ [c])) \/
  (exists e, blob_push alloc b c = (status_error e, b) /\
     ((exists n, alloc n = false) \/ 2 ^ 63 <= Z.of_nat (length (l ++ [c])))).
Proof.
  intros Hb. pose proof Hb as (Hs & Hc & Hle & Hmax & Ht). unfold blob_push.
  change (2 ^ 63) with 9223372036854775808. rewrite length_app. cbn [length].
  assert (forall b', blob_holds b' l -> b_size b' < b_capacity b' ->
    blob_holds (mkBlob (write_cells (b_data b') (b_size b') [Some c])
      (wrap 64 (b_size b' + 1)) (b_capacity b')) (l ++ [c])) as Hstore.
  { intros b' Hb' Hcap. pose proof Hb' as (Hs' & _ & _ & Hm' & _).
    rewrite wrap_small by (unfold in_u; simpl; lia).
    replace (b_size b' + 1) with (Z.of_nat (length l + length [c])) by (cbn [length]; lia).
    apply (blob_holds_write b' l [c]); [done|cbn [length]; lia]. }
  destruct (b_size b =? b_capacity b) eqn:E0; [apply Z.eqb_eq in E0|apply Z.eqb_neq in E0].
  2: { left. eexists. split; [reflexivity|]. apply Hstore; [done|lia]. }
  destruct (b_capacity b =? 0) eqn:E1; [apply Z.eqb_eq in E1|apply Z.eqb_neq in E1].
  - destruct (64 <? b_capacity b) eqn:E2; [lia|].
    destruct (blob_reserve_spec b l 64 Hb ltac:(unfold in_u; simpl; lia))
      as [(Ha & _ & e & Hres)|(b' & Hres & Hb' & Hcap)]; rewrite Hres.
    + right. eexists. split; [done|left; by exists 64].
    + left. eexists. split; [reflexivity|]. apply Hstore; [done|].
      destruct Hb' as (Hs' & _). lia.
  - destruct (_ <? b_capacity b) eqn:E2.
    { right. eexists. split; [done|right]. apply Z.ltb_lt in E2.
      destruct (Z_lt_le_dec (b_capacity b) 9223372036854775808) as [Hlt|]; [|lia].
      rewrite wrap_small in E2 by (unfold in_u; simpl; lia). lia. }
    apply Z.ltb_ge in E2. assert (wrap 64 (b_capacity b * 2) <> b_capacity b).
    { destruct (Z_lt_le_dec (b_capacity b) 9223372036854775808) as [Hlt|].
      - rewrite wrap_small by (unfold in_u; simpl; lia). lia.
      - replace (b_capacity b * 2) with (b_capacity b * 2 - 18446744073709551616 + 1 * 2 ^ 64)
          by (simpl; lia). unfold wrap. rewrite Z.mod_add, Z.mod_small by (simpl; lia). lia. }
    pose proof (wrap_range 64 (b_capacity b * 2) ltac:(lia)) as Hr.
    destruct (blob_reserve_spec b l _ Hb Hr) as [(Ha & _ & e & Hres)|(b' & Hres & Hb' & Hcap)];
      rewrite Hres.
    + right. eexists. split; [done|left; by eexists].
    + left. eexists. split; [reflexivity|]. apply Hstore; [done|].
      destruct Hb' as (Hs' & _). lia.
Qed.

Lemma blob_step_refines b l op :
  blob_holds b l -> blob_op_wf op ->
  (exists b', blob_run alloc b op = (status_ok, b') /\ blob_holds b' (blob_spec l op)) \/
  (exists e, blob_run alloc b op = (status_error e, b) /\
     ((exists n, alloc n = false) \/ 2 ^ 63 <= Z.of_nat (length (blob_spec l op)))).
Proof.
  intros Hb Hwf. pose proof Hb as (Hs & Hc & Hle & Hmax & Ht).
  destruct op as [size|size|v|c]; cbn [blob_run blob_op_wf blob_spec] in *.
  - destruct (blob_reserve_spec b l size Hb Hwf) as [(Ha & _ & e & Hr)|(b' & Hr & Hb' & _)];
      rewrite Hr; [right; eexists; split; [done|left; by exists size]|left; by exists b'].
  - by apply blob_resize_refines.
  - by apply blob_append_refines.
  - by apply blob_push_refines.
Qed.
End BlobProofs.

(** A sequence of operations, each performed whether or not the ones before it
    succeeded: the operations that did, and the blob left. *)
Fixpoint blob_exec (alloc : Z -> bool) (b : Blob) (ops : list blob_op) : list blob_op * Blob :=
  match ops with
  | [] => ([], b)
  | op :: ops' =>
    let '(st, b') := blob_run alloc b op in
    let '(done, b'') := blob_exec alloc b' ops' in
    ((if isOk st then op :: done else done), b'')
  end.

Lemma blob_exec_refines alloc b l ops :
  blob_holds b l -> Forall blob_op_wf ops ->
  blob_holds (blob_exec alloc b ops).2 (foldl blob_spec l (blob_exec alloc b ops).1).
Proof.
  revert b l. induction ops as [|op ops IH]; intros b l Hb Hwf; [done|].
  apply Forall_cons in Hwf as [Hop Hops]. cbn [blob_exec].
  destruct (blob_step_refines alloc b l op Hb Hop) as [(b' & -> & Hb')|(e & -> & _)].
  - specialize (IH b' _ Hb' Hops). by destruct (blob_exec alloc b' ops).
  - specialize (IH b _ Hb Hops). by destruct (blob_exec alloc b ops).
Qed.

(** C13 A blob is a byte list, whatever allocations fail: after any operations
    its contents are those of the operations that reported success, in order; an
    operation that reports an error changes nothing, and it reports one only
    when an allocation failed or the result is half the address space. *)
Theorem blob_refines_list alloc b l ops op :
  blob_holds b l -> Forall blob_op_wf ops -> blob_op_wf op ->
  let '(done, b1) := blob_exec alloc b ops in
  let l1 := foldl blob_spec l done in
  blob_holds b1 l1 /\
  ((exists b2, blob_run alloc b1 op = (status_ok, b2) /\ blob_holds b2 (blob_spec l1 op)) \/
   (exists e, blob_run alloc b1 op = (status_error e, b1) /\
      ((exists n, alloc n = false) \/ 2 ^ 63 <= Z.of_nat (length (blob_spec l1 op))))).
Proof.
  intros Hb Hops Hop. pose proof (blob_exec_refines alloc b l ops Hb Hops) as H.
  destruct (blob_exec alloc b ops) as [done b1]. cbn [fst snd] in H. cbv zeta.
  split; [done|]. by apply blob_step_refines.
Qed.

(** With an allocator that refuses more than 100 bytes: the resize to 200 fails,
    the rest of the sequence goes through. *)
Lemma blob_refines_list_witness :
  let alloc n := n <=? 100 in
  let ops := [OpPush Byte.x01; OpResize 200; OpAppend (mkByteView (Some [Byte.x02; Byte.x03]) 2);
              OpResize 1; OpResize 3] in
  blob_holds (blob_exec alloc blob_empty ops).2 [Byte.x01; Byte.x00; Byte.x00].
Proof.
  intros alloc ops.
  assert (blob_holds blob_empty []) as Hb by (split_and!; vm_compute; congruence || reflexivity).
  assert (Forall blob_op_wf ops) as Hops.
  { unfold ops. repeat constructor; cbn; try (vm_compute; congruence). }
  pose proof (blob_refines_list alloc blob_empty [] ops (OpPush Byte.x00) Hb Hops I) as H.
  exact (proj1 H).
Defined.

(** A view never reaches outside its storage: a subview of a view that shows
    only readable bytes does so too, exactly when the range asked for lies in
    it, and shows that range of the view's bytes; any other range, with sums that
    would wrap around included, is an error. *)
Theorem subview_bytes v offset len :
  byte_view_wf v -> in_u 64 offset -> in_u 64 len ->
  match subview v offset len with
  | Value w =>
    offset + len <= bv_size v /\ byte_view_wf w /\ bv_size w = len /\
    view_bytes w = take (Z.to_nat len) (drop (Z.to_nat offset) (view_bytes v))
  | Failed e => bv_size v < offset + len /\ isError e = true
  end.
Proof.
  intros [Hr Hv] Ho Hl. unfold subview, byte_view_wf, view_bytes, in_u in *.
  change (2 ^ 64) with 18446744073709551616 in *.
  destruct (bv_data v) as [data|].
  - destruct (offset >? bv_size v) eqn:E1; bprop; cbn [orb]; [split; [lia|done]|].
    rewrite wrap_small by (unfold in_u; simpl; lia).
    destruct (_ <? len) eqn:E2; bprop; [split; [lia|done]|].
    cbn [bv_data bv_size]. rewrite length_drop. split_and!; try lia.
    rewrite skipn_firstn_comm, take_take. f_equal. lia.
  - rewrite Hv. cbn [Z.eqb negb]. destruct (offset >? 0) eqn:E1; bprop; cbn [orb];
      [split; [lia|done]|].
    rewrite wrap_small by (unfold in_u; simpl; lia).
    destruct (_ <? len) eqn:E2; bprop; [split; [lia|done]|].
    cbn [bv_data bv_size]. rewrite drop_nil, take_nil. split_and!; done || lia.
Qed.

Lemma subview_bytes_witness :
  let v := mkByteView (Some [Byte.x01; Byte.x02; Byte.x03; Byte.x04]) 3 in
  (exists w, subview v 1 2 = Value w /\ view_bytes w = [Byte.x02; Byte.x03]) /\
  hasValue (subview v 2 SIZE_MAX) = false.
Proof.
  intros v. assert (byte_view_wf v) as Hv by (split; [by_compute|vm_compute; congruence]).
  split.
  - pose proof (subview_bytes v 1 2 Hv ltac:(by_compute) ltac:(by_compute)) as H.
    destruct (subview v 1 2) as [w|e]; [|destruct H as [H _]; vm_compute in H; discriminate H].
    exists w. split; [reflexivity|]. exact (proj2 (proj2 (proj2 H))).
  - pose proof (subview_bytes v 2 SIZE_MAX Hv ltac:(by_compute) ltac:(by_compute)) as H.
    destruct (subview v 2 SIZE_MAX) as [w|e]; [|reflexivity].
    exfalso. destruct H as [H _]. vm_compute in H. exact (H eq_refl).
Defined.

(** ** The arena *)

Definition arena_inv (a : BumpArena) : Prop :=
  0 <= a_used a <= a_capacity a /\ a_capacity a <= SIZE_MAX.

(** A view that an allocation may return: aligned, at or behind the bytes in use
    before, ending at the bytes in use after, inside the storage. *)
Definition arena_fresh (a a' : BumpArena) (size alignment : Z) (v : arena_view) : Prop :=
  match v with
  | None => size = 0 /\ a' = a
  | Some (off, n) =>
    n = size /\ 0 < n /\ off mod alignment = 0 /\ a_used a <= off < a_used a + alignment /\
    off + n = a_used a' /\ a_used a' <= a_capacity a'
  end.

Lemma arena_allocate_spec alloc a size alignment :
  arena_inv a -> in_u 64 size -> in_u 64 alignment ->
  match arena_allocate alloc a size alignment with
  | (Value v, a') => arena_inv a' /\ arena_fresh a a' size alignment v
  | (Failed e, a') => a' = a /\ isError e = true
  end.
Proof.
  intros [Hu Hc] Hs Ha. unfold arena_allocate.
  destruct (bad_alignment alignment) eqn:E0; [done|].
  destruct (alignment >? kMaxAlign) eqn:E1; [done|]. unfold kMaxAlign in E1.
  destruct (bad_alignment_false _ Ha E0) as (k & Hk & ->).
  destruct (size =? 0) eqn:E2; [apply Z.eqb_eq in E2; done|].
  rewrite align_padding_spec by lia. bprop. unfold in_u in *.
  change (2 ^ 64) with 18446744073709551616 in *.
  assert (0 < 2 ^ k) by lia.
  pose proof (Z.mod_pos_bound (- a_used a) (2 ^ k) ltac:(done)) as Hp.
  set (p := (- a_used a) mod 2 ^ k) in *.
  assert ((a_used a + p) mod 2 ^ k = 0) as Hmod.
  { unfold p. rewrite Z.add_mod_idemp_r, Z.add_opp_diag_r by lia. apply Z.mod_0_l. lia. }
  rewrite (wrap_small 64 (SIZE_MAX - _)) by (unfold in_u; simpl; lia).
  destruct (_ <? p) eqn:E3; [done|]. bprop. cbn [orb].
  rewrite (wrap_small 64 (SIZE_MAX - _ - _)) by (unfold in_u; simpl; lia).
  destruct (_ <? size) eqn:E4; [done|]. bprop.
  rewrite (wrap_small 64 (a_used a + p)) by (unfold in_u; simpl; lia).
  rewrite (wrap_small 64 (a_used a + p + size)) by (unfold in_u; simpl; lia).
  destruct (_ <? a_used a + p + size) eqn:E5; bprop.
  - destruct (grow_capacity_some (if a_capacity a =? 0 then 256 else a_capacity a)
      (a_used a + p + size)) as (c & -> & Hcr & _); [destruct (a_capacity a =? 0) eqn:E6; lia|lia|].
    destruct (alloc c); [|done]. cbn [negb]. unfold arena_inv, arena_fresh. cbn.
    split_and!; done || lia.
  - unfold arena_inv, arena_fresh. cbn. split_and!; done || lia.
Qed.

(** The views of a sequence of allocations (size, alignment) without a reset. *)
Fixpoint arena_run (alloc : Z -> bool) (a : BumpArena) (reqs : list (Z * Z))
  : list (Z * Z) * BumpArena :=
  match reqs with
  | [] => ([], a)
  | (size, alignment) :: reqs' =>
    let '(v, a') := arena_allocate alloc a size alignment in
    let '(vs, a'') := arena_run alloc a' reqs' in
    (match v with Value (Some r) => r :: vs | _ => vs end, a'')
  end.

Definition range_before (r1 r2 : Z * Z) : Prop := r1.1 + r1.2 <= r2.1.

(** The arena hands out disjoint storage: after any sequence of allocations,
    those that failed included, the views returned lie in order without overlap
    between the bytes in use before and the bytes in use after, inside the
    capacity, each at a multiple of its alignment and of its size. *)
Theorem arena_views_disjoint alloc a reqs :
  arena_inv a -> Forall (fun r => in_u 64 r.1 /\ in_u 64 r.2) reqs ->
  let '(vs, a') := arena_run alloc a reqs in
  arena_inv a' /\ a_used a <= a_used a' /\
  StronglySorted range_before vs /\
  Forall (fun v => a_used a <= v.1 /\ 0 < v.2 /\ v.1 + v.2 <= a_used a' /\
                   exists alignment, (v.2, alignment) ∈ reqs /\ v.1 mod alignment = 0) vs.
Proof.
  revert a. induction reqs as [|[size al] reqs IH]; intros a Ha Hreqs; cbn [arena_run].
  { split_and!; [done|lia|constructor..]. }
  apply Forall_cons in Hreqs as [[Hs Hal] Hreqs]. cbn [fst snd] in Hs, Hal.
  pose proof (arena_allocate_spec alloc a size al Ha Hs Hal) as Hspec.
  destruct (arena_allocate alloc a size al) as [[v|e] a1].
  - destruct Hspec as [Ha1 Hf]. specialize (IH a1 Ha1 Hreqs).
    destruct (arena_run alloc a1 reqs) as [vs a2]. destruct IH as (Ha2 & Hu & Hsort & Hvs).
    assert (Forall (fun v => a_used a1 <= v.1 /\ 0 < v.2 /\ v.1 + v.2 <= a_used a2 /\
      exists alignment, (v.2, alignment) ∈ (size, al) :: reqs /\ v.1 mod alignment = 0) vs) as Hvs'.
    { eapply Forall_impl; [exact Hvs|]. intros r (? & ? & ? & k & Hk & ?).
      split_and!; try done. exists k. split; [by right|done]. }
    destruct v as [[off n]|]; cbn [arena_fresh] in Hf.
    + destruct Hf as (-> & Hpos & Hm & Hoff & Hend & Hcap).
      unfold in_u in Hs. destruct Ha as [Ha _].
      split_and!; [done|lia| |].
      * constructor; [done|]. eapply Forall_impl; [exact Hvs|]. intros r (? & _).
        unfold range_before. cbn [fst snd]. lia.
      * constructor; cbn [fst snd].
        { split_and!; try lia. exists al. split; [left|done]. }
        eapply Forall_impl; [exact Hvs'|]. intros r (? & ? & ? & ?). split_and!; done || lia.
    + destruct Hf as [_ ->]. done.
  - destruct Hspec as [-> _]. specialize (IH a Ha Hreqs).
    destruct (arena_run alloc a reqs) as [vs a2]. destruct IH as (Ha2 & Hu & Hsort & Hvs).
    split_and!; try done. eapply Forall_impl; [exact Hvs|].
    intros r (? & ? & ? & k & Hk & ?). split_and!; try done. exists k. split; [by right|done].
Qed.

Lemma arena_views_disjoint_witness :
  let alloc (n : Z) := n <=? 1000 in
  let reqs := [(3, 1); (8, 8); (5000, 8); (1, 32); (0, 4); (2, 2)] in
  (arena_run alloc arena_empty reqs).1 = [(0, 3); (8, 8); (16, 2)] /\
  StronglySorted range_before (arena_run alloc arena_empty reqs).1.
Proof.
  intros alloc reqs.
  assert (arena_inv arena_empty) as Ha by (split; cbn; lia).
  assert (Forall (fun r => in_u 64 r.1 /\ in_u 64 r.2) reqs) as Hr.
  { unfold reqs. repeat constructor; vm_compute; congruence. }
  pose proof (arena_views_disjoint alloc arena_empty reqs Ha Hr) as H.
  split; [vm_compute; reflexivity|].
  destruct (arena_run alloc arena_empty reqs) as [vs a']. exact (proj1 (proj2 (proj2 H))).
Defined.

(** ** Messages *)

(** Messages are cut, never overrun: a status keeps the first 511 characters,
    so its text and terminator fit the 512 character buffer, and the copy into a
    caller's buffer leaves a terminated prefix of the message that fits it and
    writes nothing behind the terminator or the buffer. *)
Theorem messages_fit msg c dst capacity :
  (0 < capacity <= length dst)%nat ->
  message (Status_of c msg) = take 511 msg /\
  (length (message (Status_of c msg)) < kMessageCapacity)%nat /\
  exists out, copyMessage (Some dst) capacity msg = Some out /\
    length out = length dst /\
    take (S (length (take (capacity - 1) msg))) out = take (capacity - 1) msg ++ [Byte.x00] /\
    drop (S (length (take (capacity - 1) msg))) out
      = drop (S (length (take (capacity - 1) msg))) dst.
Proof.
  intros Hc. unfold Status_of, kMessageCapacity. cbn [message].
  assert (forall n, take (if (length msg <? n)%nat then length msg else n) msg = take n msg) as Ht.
  { intros n. destruct (length msg <? n)%nat eqn:E; [|done].
    apply Nat.ltb_lt in E. by rewrite !take_ge by lia. }
  rewrite Ht. split; [done|]. split; [rewrite length_take; lia|].
  cbn [copyMessage]. destruct (capacity =? 0)%nat eqn:E0; [apply Nat.eqb_eq in E0; lia|].
  assert ((if (length msg <? capacity - 1)%nat then length msg else (capacity - 1)%nat)
    = length (take (capacity - 1) msg)) as Hlen.
  { rewrite length_take. destruct (_ <? _)%nat eqn:E;
      [apply Nat.ltb_lt in E|apply Nat.ltb_ge in E]; lia. }
  eexists. split; [reflexivity|]. rewrite Ht, Hlen. set (m := take (capacity - 1) msg) in *.
  assert (length m <= capacity - 1)%nat as Hm by (unfold m; rewrite length_take; lia).
  assert (length (m ++ [Byte.x00]) = S (length m)) as Hl by (rewrite length_app; cbn; lia).
  rewrite app_assoc. split_and!.
  - rewrite length_app, length_drop, Hl. lia.
  - rewrite <-Hl at 1. by rewrite take_app_length.
  - rewrite <-Hl at 1. by rewrite drop_app_length.
Qed.

Lemma messages_fit_witness :
  copyMessage (Some (str "........")) 4 (str "failed") = Some (str "fai" ++ [Byte.x00] ++ str "....").
Proof.
  destruct (messages_fit (str "failed") kError (str "........") 4 ltac:(cbn; lia))
    as (_ & _ & out & Hout & _ & Ht & Hd).
  rewrite Hout. f_equal. rewrite <-(take_drop (S (length (take (4 - 1) (str "failed")))) out), Ht, Hd.
  vm_compute. reflexivity.
Defined.
