(* ===== verification/CdrReader.v ===== *)
(** * CdrReader: the bounds-checked XCDR1 reader

    [pj_base/include/pj_base/parser_module/cdr_reader.hpp].  A reader method is
    a computation in [cdr]: it returns its result and the reader after the call,
    on failure too.  A payload view is the list of its bytes (a null view is the
    empty list; the constructor treats both alike).  A [float] or [double] is
    its bit pattern.  The planned traversal is in [CdrLocator]. *)

From Stdlib Require Import Sorting.Sorted.
From S2P Require Import Prelude ParserCore.

Record CdrReader : Set := mkCdrReader {
  payload : bytes; status : Status; little_endian : bool; data_origin : Z; position : Z;
  depth : Z }.

Definition kMaxTraversalDepth : Z := 64.

Definition cdr (A : Type) : Type := CdrReader -> PjExpected A * CdrReader.

Definition cret {A} (a : A) : cdr A := fun r => (Value a, r).

(** [if (!value) return value.status();] *)
Definition cbind {A B} (m : cdr A) (f : A -> cdr B) : cdr B := fun r =>
  match m r with
  | (Value a, r') => f a r'
  | (Failed s, r') => (Failed s, r')
  end.

Notation "'let^' x := m 'in' k" := (cbind m (fun x => k))
  (at level 10, x pattern, m at level 100, k at level 200) : pj_scope.

Definition set_status (r : CdrReader) (s : Status) : CdrReader :=
  mkCdrReader (payload r) s (little_endian r) (data_origin r) (position r) (depth r).
Definition set_position (r : CdrReader) (p : Z) : CdrReader :=
  mkCdrReader (payload r) (status r) (little_endian r) (data_origin r) p (depth r).
Definition set_depth (r : CdrReader) (d : Z) : CdrReader :=
  mkCdrReader (payload r) (status r) (little_endian r) (data_origin r) (position r) d.

Definition payload_size (r : CdrReader) : Z := Z.of_nat (length (payload r)).

Definition remaining (r : CdrReader) : Z :=
  if position r <=? payload_size r then payload_size r - position r else 0.

(** [fail] records the error, so that every later read reports it. *)
Definition fail (msg : bytes) (r : CdrReader) : Status * CdrReader :=
  (status_error msg, set_status r (status_error msg)).

Definition cfail {A} (msg : bytes) : cdr A := fun r =>
  let '(s, r') := fail msg r in (Failed s, r').

Definition initialize (data : bytes) : CdrReader :=
  let r := mkCdrReader data status_ok false 0 0 0 in
  match data with
  | b0 :: b1 :: _ :: _ :: _ =>
    let representation := wrap 16 (Z.lor (wrap 16 (Z.shiftl (b2z b0) 8)) (b2z b1)) in
    if negb (representation =? 0) && negb (representation =? 1)
    then set_status r
           (status_error (str "unsupported CDR representation; XCDR1 plain CDR is required"))
    else mkCdrReader data status_ok (representation =? 1) 4 4 0
  | _ => set_status r (status_error (str "truncated CDR encapsulation header"))
  end.

Definition align (alignment : Z) (r : CdrReader) : Status * CdrReader :=
  if negb (isOk (status r)) then (status r, r)
  else if bad_alignment alignment
  then fail (str "CDR alignment must be a nonzero power of two") r
  else
    let relative := wrap 64 (position r - data_origin r) in
    let padding := align_padding relative alignment in
    if padding >? remaining r then fail (str "truncated CDR alignment padding") r
    else (status_ok, set_position r (wrap 64 (position r + padding))).

(** The two byte loops of [readUnsigned]; the bytes are those at the position. *)
Fixpoint fold_le (index : nat) (value : Z) (data : bytes) : Z :=
  match data with
  | [] => value
  | b :: data' => fold_le (S index) (Z.lor value (Z.shiftl (b2z b) (Z.of_nat index * 8))) data'
  end.

Fixpoint fold_be (width value : Z) (data : bytes) : Z :=
  match data with
  | [] => value
  | b :: data' => fold_be width (wrap width (Z.lor (Z.shiftl value 8) (b2z b))) data'
  end.

(** [readUnsigned<UInt>] for [sizeof(UInt)] = [size]. *)
Definition readUnsigned (size : nat) : cdr Z := fun r =>
  let '(aligned, r1) := align (Z.of_nat size) r in
  if negb (isOk aligned) then (Failed aligned, r1)
  else if Z.of_nat size >? remaining r1 then cfail (str "truncated CDR primitive") r1
  else
    let data := take size (drop (Z.to_nat (position r1)) (payload r1)) in
    let value := if little_endian r1 then fold_le 0 0 data
                 else fold_be (8 * Z.of_nat size) 0 data in
    (Value value, set_position r1 (wrap 64 (position r1 + Z.of_nat size))).

Definition readSigned (size : nat) : cdr Z :=
  let^ bits := readUnsigned size in cret (to_signed (8 * Z.of_nat size) bits).

Definition readU8 : cdr Z := readUnsigned 1.
Definition readU16 : cdr Z := readUnsigned 2.
Definition readU32 : cdr Z := readUnsigned 4.
Definition readU64 : cdr Z := readUnsigned 8.
Definition readI8 : cdr Z := readSigned 1.
Definition readI16 : cdr Z := readSigned 2.
Definition readI32 : cdr Z := readSigned 4.
Definition readI64 : cdr Z := readSigned 8.
Definition readF32 : cdr Z := let^ bits := readU32 in cret bits.
Definition readF64 : cdr Z := let^ bits := readU64 in cret bits.

Definition readBool : cdr bool :=
  let^ value := readU8 in
  if value >? 1 then cfail (str "CDR bool is not 0 or 1") else cret (negb (value =? 0)).

Definition readString : cdr bytes :=
  let^ len := readU32 in
  fun r =>
    if len =? 0 then cfail (str "CDR string length does not include a terminator") r
    else if len >? remaining r
    then cfail (str "CDR string length exceeds the remaining payload") r
    else
      let chars := take (Z.to_nat len) (drop (Z.to_nat (position r)) (payload r)) in
      if negb (bool_decide (last chars = Some Byte.x00))
      then cfail (str "CDR string is not NUL terminated") r
      else (Value (take (Z.to_nat len - 1) chars), set_position r (wrap 64 (position r + len))).

Definition readSequenceLength (minimum_element_size : Z) : cdr Z :=
  let^ count := readU32 in
  fun r =>
    if minimum_element_size =? 0 then cfail (str "CDR sequence element size must be nonzero") r
    else if count >? remaining r / minimum_element_size
    then cfail (str "CDR sequence length exceeds the remaining payload") r
    else (Value count, r).

Definition readByteSequence : cdr bytes :=
  let^ count := readSequenceLength 1 in
  fun r =>
    (Value (take (Z.to_nat count) (drop (Z.to_nat (position r)) (payload r))),
     set_position r (wrap 64 (position r + count))).

(** The elements before a failure are already assigned. *)
Fixpoint readFixedArray {A} (read : cdr A) (output : list A) (r : CdrReader)
  : Status * list A * CdrReader :=
  match output with
  | [] => (status_ok, [], r)
  | old :: rest =>
    match read r with
    | (Failed s, r') => (s, old :: rest, r')
    | (Value v, r') =>
      let '(s, rest', r'') := readFixedArray read rest r' in (s, v :: rest', r'')
    end
  end.

Definition enterStruct (r : CdrReader) : Status * CdrReader :=
  if depth r =? kMaxTraversalDepth then fail (str "CDR traversal depth exceeds 64") r
  else (status_ok, set_depth r (wrap 64 (depth r + 1))).

Definition leaveStruct (r : CdrReader) : Status * CdrReader :=
  if depth r =? 0 then fail (str "CDR struct-depth underflow") r
  else (status_ok, set_depth r (wrap 64 (depth r - 1))).

(** ** Typed reads: [readPrimitive<T>], strings and byte sequences *)

Inductive cdr_type : Set :=
  | TBool | TI8 | TU8 | TI16 | TU16 | TI32 | TU32 | TI64 | TU64 | TF32 | TF64 | TString | TBytes.

Inductive cdr_value : Set :=
  | VBool (b : bool)
  | VNumber (z : Z)
  | VString (s : bytes)
  | VBytes (s : bytes).

Definition cmap {A B} (f : A -> B) (m : cdr A) : cdr B := let^ a := m in cret (f a).

Definition readPrimitive (t : cdr_type) : cdr cdr_value :=
  match t with
  | TBool => cmap VBool readBool
  | TI8 => cmap VNumber readI8
  | TU8 => cmap VNumber readU8
  | TI16 => cmap VNumber readI16
  | TU16 => cmap VNumber readU16
  | TI32 => cmap VNumber readI32
  | TU32 => cmap VNumber readU32
  | TI64 => cmap VNumber readI64
  | TU64 => cmap VNumber readU64
  | TF32 => cmap VNumber readF32
  | TF64 => cmap VNumber readF64
  | TString => cmap VString readString
  | TBytes => cmap VBytes readByteSequence
  end.

(** ** The byte loops *)

Lemma fold_le_val i v data :
  0 <= v < 2 ^ (8 * Z.of_nat i) ->
  fold_le i v data = v + le_val data * 2 ^ (8 * Z.of_nat i).
Proof.
  revert i v. induction data as [|b data IH]; intros i v Hv; cbn [fold_le le_val]; [lia|].
  pose proof (b2z_range b).
  assert (2 ^ (8 * Z.of_nat (S i)) = 2 ^ (8 * Z.of_nat i) * 256) as Hp.
  { replace (8 * Z.of_nat (S i)) with (8 * Z.of_nat i + 8) by lia. by rewrite Z.pow_add_r by lia. }
  replace (Z.of_nat i * 8) with (8 * Z.of_nat i) by lia.
  rewrite lor_shiftl_add by lia. rewrite IH by (rewrite Hp; nia). rewrite Hp. ring.
Qed.

(** Big-endian assembly: the last byte is the least significant. *)
Lemma le_val_snoc l b : le_val (l ++ [b]) = le_val l + b2z b * 2 ^ (8 * Z.of_nat (length l)).
Proof.
  induction l as [|a l IH]; cbn [le_val app length]; [simpl; lia|]. rewrite IH.
  replace (8 * Z.of_nat (S (length l))) with (8 + 8 * Z.of_nat (length l)) by lia.
  rewrite Z.pow_add_r by lia. change (2 ^ 8) with 256. ring.
Qed.

Lemma fold_be_val w v data :
  0 <= v -> (v + 1) * 2 ^ (8 * Z.of_nat (length data)) <= 2 ^ w ->
  fold_be w v data = v * 2 ^ (8 * Z.of_nat (length data)) + le_val (rev data).
Proof.
  revert v. induction data as [|b data IH]; intros v Hv Hw; cbn [fold_be length rev].
  - simpl. lia.
  - pose proof (b2z_range b). cbn [length] in Hw.
    replace (8 * Z.of_nat (S (length data))) with (8 + 8 * Z.of_nat (length data)) in * by lia.
    rewrite Z.pow_add_r in * by lia. change (2 ^ 8) with 256 in *.
    assert (0 < 2 ^ (8 * Z.of_nat (length data))) by (apply Z.pow_pos_nonneg; lia).
    assert (Z.lor (Z.shiftl v 8) (b2z b) = v * 256 + b2z b) as ->.
    { rewrite Z.lor_comm, lor_shiftl_add by (change (2 ^ 8) with 256; lia).
      change (2 ^ 8) with 256. lia. }
    rewrite wrap_small by (unfold in_u; nia). rewrite IH by nia.
    rewrite le_val_snoc, length_rev. ring.
Qed.

(** The value of the bytes of an unsigned primitive. *)
Definition uint_val (le : bool) (data : bytes) : Z :=
  if le then le_val data else le_val (rev data).

Lemma fold_uint (le : bool) data :
  (if le then fold_le 0 0 data else fold_be (8 * Z.of_nat (length data)) 0 data)
  = uint_val le data.
Proof.
  destruct le; cbn [uint_val].
  - rewrite fold_le_val by (simpl; lia). simpl. lia.
  - rewrite fold_be_val by lia. simpl. done.
Qed.

(** ** The reader invariant *)

Definition cdr_inv (r : CdrReader) : Prop :=
  0 <= data_origin r <= position r /\ position r <= payload_size r /\
  payload_size r < 2 ^ 64 /\ 0 <= depth r <= kMaxTraversalDepth.

Lemma initialize_inv data : Z.of_nat (length data) < 2 ^ 64 -> cdr_inv (initialize data).
Proof.
  intros Hl. destruct data as [|b0 [|b1 [|b2 [|b3 data]]]]; unfold initialize;
    try case_match; unfold cdr_inv, payload_size, set_status, kMaxTraversalDepth; cbn in *; lia.
Qed.

(** The least position from [p] on that is a multiple of [n] behind the header. *)
Definition aligned_from (origin p n : Z) : Z := p + (- (p - origin)) mod n.

Lemma align_spec r k :
  cdr_inv r -> status r = status_ok -> 0 <= k < 64 ->
  let p := aligned_from (data_origin r) (position r) (2 ^ k) in
  if bool_decide (p <= payload_size r)
  then align (2 ^ k) r = (status_ok, set_position r p)
  else exists e, align (2 ^ k) r = fail e r.
Proof.
  intros (Ho & Hp & Hs & _) Hst Hk. unfold align, aligned_from. rewrite Hst. cbn [isOk code negb status_ok].
  assert (0 < 2 ^ k) by (apply Z.pow_pos_nonneg; lia).
  assert (bad_alignment (2 ^ k) = false) as ->.
  { unfold bad_alignment. assert (2 ^ k < 2 ^ 64) by (apply Z.pow_lt_mono_r; lia).
    rewrite wrap_small by (unfold in_u; lia). rewrite land_low, Z.mod_same by lia.
    apply orb_false_iff. split; [lia|done]. }
  rewrite wrap_small by (unfold in_u; lia). rewrite align_padding_spec by lia.
  unfold remaining. rewrite (proj2 (Z.leb_le _ _)) by lia.
  pose proof (Z.mod_pos_bound (- (position r - data_origin r)) (2 ^ k) ltac:(lia)).
  cbv zeta. case_bool_decide.
  - destruct (_ >? _) eqn:E; bprop; [lia|]. by rewrite wrap_small by (unfold in_u; lia).
  - destruct (_ >? _) eqn:E; bprop; [by eexists|lia].
Qed.

(** A failure that the reader has recorded. *)
Definition failed_with (r r' : CdrReader) (e : bytes) : Prop :=
  status r' = status_error e /\ cdr_inv r' /\ payload r' = payload r /\
  little_endian r' = little_endian r /\ data_origin r' = data_origin r /\ position r <= position r'.

Definition uint_size (n : nat) : Prop := n = 1%nat \/ n = 2%nat \/ n = 4%nat \/ n = 8%nat.

Lemma uint_size_pow n : uint_size n -> exists k, 0 <= k <= 3 /\ Z.of_nat n = 2 ^ k.
Proof.
  unfold uint_size. intros [Hn | [Hn | [Hn | Hn]]]; subst;
    [exists 0|exists 1|exists 2|exists 3]; done.
Qed.

Lemma readUnsigned_spec r n :
  cdr_inv r -> status r = status_ok -> uint_size n ->
  let p := aligned_from (data_origin r) (position r) (Z.of_nat n) in
  if bool_decide (p + Z.of_nat n <= payload_size r)
  then readUnsigned n r =
         (Value (uint_val (little_endian r) (take n (drop (Z.to_nat p) (payload r)))),
          set_position r (p + Z.of_nat n))
  else exists e r', readUnsigned n r = (Failed (status_error e), r') /\ failed_with r r' e.
Proof.
  intros Hinv Hst Hn. destruct (uint_size_pow n Hn) as (k & Hk & Hnk). cbv zeta.
  pose proof (align_spec r k Hinv Hst ltac:(lia)) as Ha. cbv zeta in Ha.
  pose proof Hinv as ((Ho & Hop) & Hp & Hs & Hd). unfold readUnsigned. rewrite Hnk in *.
  assert (0 < 2 ^ k) by lia.
  pose proof (Z.mod_pos_bound (- (position r - data_origin r)) (2 ^ k) ltac:(lia)) as Hm.
  set (p := aligned_from _ _ _) in *. assert (position r <= p) by (unfold p, aligned_from; lia).
  destruct (decide (p + 2 ^ k <= payload_size r)) as [H1|H1];
    [rewrite bool_decide_true by done|rewrite bool_decide_false by done].
  - rewrite bool_decide_true in Ha by lia. rewrite Ha. cbn [isOk code status_ok negb].
    unfold remaining, payload_size in *. cbn [set_position position payload little_endian].
    rewrite (proj2 (Z.leb_le _ _)) by lia. destruct (_ >? _) eqn:E; bprop; [lia|].
    rewrite wrap_small by (unfold in_u; lia). rewrite <-fold_uint.
    assert (length (take n (drop (Z.to_nat p) (payload r))) = n) as ->
      by (rewrite length_take, length_drop; lia).
    by rewrite Hnk.
  - case_bool_decide as H2.
    + rewrite Ha. cbn [isOk code status_ok negb]. unfold remaining, payload_size in *.
      cbn [set_position position payload little_endian]. rewrite (proj2 (Z.leb_le _ _)) by lia.
      destruct (_ >? _) eqn:E; bprop; [|lia]. unfold cfail. cbn [fail].
      do 2 eexists. split; [reflexivity|]. unfold failed_with, cdr_inv, payload_size. cbn.
      split_and!; done || lia.
    + destruct Ha as (e & Ha). rewrite Ha. unfold fail. cbn [isOk code status_error Status_of negb].
      do 2 eexists. split; [reflexivity|]. unfold failed_with, cdr_inv, payload_size. cbn.
      split_and!; done || lia.
Qed.

(** ** Reads that stay inside the payload and remember their failure *)

(** The outcome of a call on a reader without an error: the position has moved
    forward inside the payload, and a failure is recorded. *)
Definition outcome_ok {A} (r : CdrReader) (res : PjExpected A * CdrReader) : Prop :=
  cdr_inv res.2 /\ payload res.2 = payload r /\ little_endian res.2 = little_endian r /\
  data_origin res.2 = data_origin r /\ position r <= position res.2 /\
  match res.1 with
  | Value _ => status res.2 = status_ok
  | Failed s => status res.2 = s /\ isOk s = false
  end.

Class Tame {A} (m : cdr A) : Prop :=
  tame : forall r, cdr_inv r -> status r = status_ok -> outcome_ok r (m r).

(** A call on a reader with an error reports that error and does nothing. *)
Class Sticky {A} (m : cdr A) : Prop :=
  sticky : forall r, isOk (status r) = false -> m r = (Failed (status r), r).

#[export] Instance tame_ret {A} (a : A) : Tame (cret a).
Proof. intros r Hi Hs. unfold outcome_ok, cret. cbn. split_and!; done || lia. Qed.

#[export] Instance tame_fail {A} e : Tame (@cfail A e).
Proof.
  intros r Hi Hs. unfold outcome_ok, cfail, fail. cbn.
  split_and!; try done; try lia; by destruct Hi as (? & ? & ? & ?).
Qed.

#[export] Instance tame_bind {A B} (m : cdr A) (f : A -> cdr B) `{!Tame m} `{!forall a, Tame (f a)} :
  Tame (cbind m f).
Proof.
  intros r Hi Hs. unfold cbind. pose proof (tame (m:=m) r Hi Hs) as Hm. unfold outcome_ok in *.
  destruct (m r) as [[a|s] r1]; cbn [fst snd] in *; [|done].
  destruct Hm as (Hi1 & Hpl & Hle & Ho & Hp & Hs1).
  pose proof (tame (m:=f a) r1 Hi1 Hs1) as Hf. unfold outcome_ok in Hf.
  destruct Hf as (? & -> & -> & -> & ? & ?). split_and!; done || lia.
Qed.

#[export] Instance sticky_bind {A B} (m : cdr A) (f : A -> cdr B) `{!Sticky m} : Sticky (cbind m f).
Proof. intros r Hs. unfold cbind. by rewrite (sticky r Hs). Qed.

Lemma tame_if {A} (b : bool) (m1 m2 : cdr A) : Tame m1 -> Tame m2 -> Tame (if b then m1 else m2).
Proof. by destruct b. Qed.

#[export] Hint Extern 2 (Tame (if _ then _ else _)) => apply tame_if : typeclass_instances.

Lemma tame_unsigned n : uint_size n -> Tame (readUnsigned n).
Proof.
  intros Hn r Hi Hs. pose proof (readUnsigned_spec r n Hi Hs Hn) as H. cbv zeta in H.
  pose proof Hi as ((Ho & Hop) & Hp & Hsz & Hd).
  assert (position r <= aligned_from (data_origin r) (position r) (Z.of_nat n)).
  { unfold aligned_from. pose proof (Z.mod_pos_bound (- (position r - data_origin r)) (Z.of_nat n)).
    unfold uint_size in Hn. lia. }
  unfold outcome_ok. case_bool_decide as Hb.
  - rewrite H. cbn [fst snd]. unfold cdr_inv, payload_size, uint_size in *. cbn.
    split_and!; done || lia.
  - destruct H as (e & r' & -> & Hst & Hi' & Hpl & Hle & Hor & Hpos). cbn [fst snd].
    split_and!; done.
Qed.

Lemma sticky_unsigned n : Sticky (readUnsigned n).
Proof. intros r Hs. unfold readUnsigned, align. rewrite Hs. cbn [negb]. by rewrite Hs. Qed.

#[export] Instance tame_u8 : Tame readU8.
Proof. apply tame_unsigned. unfold uint_size. lia. Qed.
#[export] Instance tame_u16 : Tame readU16.
Proof. apply tame_unsigned. unfold uint_size. lia. Qed.
#[export] Instance tame_u32 : Tame readU32.
Proof. apply tame_unsigned. unfold uint_size. lia. Qed.
#[export] Instance tame_u64 : Tame readU64.
Proof. apply tame_unsigned. unfold uint_size. lia. Qed.

(** The signed reads are the same bytes. *)
#[export] Hint Extern 1 (Tame readI8) => apply (tame_bind readU8) : typeclass_instances.
#[export] Hint Extern 1 (Tame readI16) => apply (tame_bind readU16) : typeclass_instances.
#[export] Hint Extern 1 (Tame readI32) => apply (tame_bind readU32) : typeclass_instances.
#[export] Hint Extern 1 (Tame readI64) => apply (tame_bind readU64) : typeclass_instances.

(** Taking [n] bytes at the position that are known to be there. *)
Lemma outcome_advance {A} r (v : A) n :
  cdr_inv r -> status r = status_ok -> 0 <= n <= remaining r ->
  outcome_ok r (Value v, set_position r (wrap 64 (position r + n))).
Proof.
  intros Hi Hs Hn. pose proof Hi as ((Ho & Hop) & Hp & Hsz & Hd). unfold remaining in Hn.
  rewrite (proj2 (Z.leb_le _ _)) in Hn by lia. rewrite wrap_small by (unfold in_u; lia).
  unfold outcome_ok, cdr_inv, payload_size in *. cbn. split_and!; done || lia.
Qed.

Lemma uint_val_range le data : in_u (8 * Z.of_nat (length data)) (uint_val le data).
Proof. destruct le; cbn [uint_val]; [|rewrite <-length_rev]; apply le_val_range. Qed.

(** An unsigned value that was read is not negative. *)
Lemma readUnsigned_nonneg n r v r' :
  cdr_inv r -> status r = status_ok -> uint_size n -> readUnsigned n r = (Value v, r') -> 0 <= v.
Proof.
  intros Hi Hs Hn Hr. pose proof (readUnsigned_spec r n Hi Hs Hn) as H. cbv zeta in H.
  case_bool_decide.
  - rewrite H in Hr. injection Hr as <- <-. pose proof (uint_val_range (little_endian r)
      (take n (drop (Z.to_nat (aligned_from (data_origin r) (position r) (Z.of_nat n))) (payload r)))).
    unfold in_u in *. lia.
  - destruct H as (e & r1 & H & _). congruence.
Qed.

(** A length prefix followed by a check of its own. *)
Lemma tame_u32_then {A} (f : Z -> cdr A) :
  (forall n r, 0 <= n -> cdr_inv r -> status r = status_ok -> outcome_ok r (f n r)) ->
  Tame (cbind readU32 f).
Proof.
  intros Hf r Hi Hs. pose proof (tame (m:=readU32) r Hi Hs) as H. unfold cbind.
  destruct (readU32 r) as [[n|s] r1] eqn:E; [|done]. unfold outcome_ok in *. cbn [fst snd] in *.
  destruct H as (Hi1 & Hpl & Hle & Ho & Hp & Hs1).
  pose proof (readUnsigned_nonneg 4 r n r1 Hi Hs ltac:(unfold uint_size; lia) E) as Hn.
  destruct (Hf n r1 Hn Hi1 Hs1) as (? & -> & -> & -> & ? & ?). split_and!; done || lia.
Qed.

(** The failing branches of a check. *)
Ltac split_checks :=
  cbv zeta;
  repeat match goal with
  | |- outcome_ok ?r (if ?b then cfail _ _ else _) =>
    let E := fresh "E" in destruct b eqn:E; [by apply tame_fail|]
  end.

#[export] Instance tame_bool : Tame readBool.
Proof. unfold readBool. apply _. Qed.

#[export] Instance tame_string : Tame readString.
Proof.
  apply tame_u32_then. intros n r Hn Hi Hs. split_checks.
  apply outcome_advance; [done..|bprop; lia].
Qed.

#[export] Instance tame_sequence_length m : Tame (readSequenceLength m).
Proof.
  apply tame_u32_then. intros n r Hn Hi Hs. split_checks.
  by apply tame_ret.
Qed.

#[export] Instance sticky_u32 : Sticky readU32 := sticky_unsigned 4.
#[export] Instance sticky_u8 : Sticky readU8 := sticky_unsigned 1.
#[export] Instance sticky_u16 : Sticky readU16 := sticky_unsigned 2.
#[export] Instance sticky_u64 : Sticky readU64 := sticky_unsigned 8.

Lemma sequence_length_bound m r n r' :
  cdr_inv r -> status r = status_ok -> 0 <= m -> readSequenceLength m r = (Value n, r') ->
  0 <= n /\ n * m <= remaining r' /\ outcome_ok r (Value n, r').
Proof.
  intros Hi Hs Hm Hr. pose proof (tame_sequence_length m r Hi Hs) as Ho. rewrite Hr in Ho.
  unfold readSequenceLength, cbind in Hr. destruct (readU32 r) as [[k|s] r1] eqn:E; [|done].
  pose proof (readUnsigned_nonneg 4 r k r1 Hi Hs ltac:(unfold uint_size; lia) E) as Hk.
  destruct (m =? 0) eqn:E0; [done|]. destruct (k >? _) eqn:E1; [done|]. injection Hr as <- <-.
  bprop. split; [done|]. split; [|done].
  pose proof (Z.mul_div_le (remaining r1) m ltac:(lia)). nia.
Qed.

#[export] Instance tame_byte_sequence : Tame readByteSequence.
Proof.
  intros r Hi Hs. unfold readByteSequence, cbind.
  pose proof (tame_sequence_length 1 r Hi Hs) as Hseq.
  destruct (readSequenceLength 1 r) as [[n|s] r1] eqn:E; [|done].
  destruct (sequence_length_bound 1 r n r1 Hi Hs ltac:(lia) E) as (Hn & Hrem & _).
  unfold outcome_ok in Hseq. cbn [fst snd] in Hseq.
  destruct Hseq as (Hi1 & Hpl & Hle & Ho & Hp & Hs1).
  pose proof (outcome_advance r1 (take (Z.to_nat n) (drop (Z.to_nat (position r1)) (payload r1))) n
    Hi1 Hs1 ltac:(lia)) as Ha.
  unfold outcome_ok in *. cbn [fst snd] in *. rewrite Hpl, Hle, Ho in Ha.
  destruct Ha as (? & ? & ? & ? & ? & ?). split_and!; done || lia.
Qed.

#[export] Instance tame_primitive t : Tame (readPrimitive t).
Proof. destruct t; unfold readPrimitive, cmap, readF32, readF64; apply _. Qed.

#[export] Instance sticky_primitive t : Sticky (readPrimitive t).
Proof. destruct t; apply _. Qed.

#[export] Instance sticky_sequence_length m : Sticky (readSequenceLength m).
Proof. apply _. Qed.

(** ** Sessions *)

(** The calls of a client, with the arguments that matter for their effect. *)
Inductive cdr_call : Set :=
  | CallRead (t : cdr_type)
  | CallSequenceLength (minimum_element_size : Z)
  | CallFixedArray (t : cdr_type) (count : nat)
  | CallAlign (alignment : Z)
  | CallEnter
  | CallLeave.

Definition cdr_run (c : cdr_call) (r : CdrReader) : Status * CdrReader :=
  match c with
  | CallRead t => let '(v, r') := readPrimitive t r in (expected_status v, r')
  | CallSequenceLength m => let '(v, r') := readSequenceLength m r in (expected_status v, r')
  | CallFixedArray t count =>
    let '(s, _, r') := readFixedArray (readPrimitive t) (replicate count (VNumber 0)) r in (s, r')
  | CallAlign a => align a r
  | CallEnter => enterStruct r
  | CallLeave => leaveStruct r
  end.

Definition cdr_call_wf (c : cdr_call) : Prop :=
  match c with
  | CallSequenceLength m => in_u 64 m
  | CallAlign a => in_u 64 a
  | CallFixedArray _ count => (0 < count)%nat
  | _ => True
  end.

(** [enterStruct] and [leaveStruct] only count. *)
Definition is_read (c : cdr_call) : bool :=
  match c with CallEnter | CallLeave => false | _ => true end.

Definition call_ok (r : CdrReader) (res : Status * CdrReader) : Prop :=
  cdr_inv res.2 /\ payload res.2 = payload r /\ position r <= position res.2 /\
  (isOk res.1 = false -> status res.2 = res.1).

Lemma outcome_call {A} r (res : PjExpected A * CdrReader) :
  outcome_ok r res -> call_ok r (let '(v, r') := res in (expected_status v, r')) /\
  (isOk (expected_status res.1) = true -> status res.2 = status_ok).
Proof.
  unfold outcome_ok, call_ok. destruct res as [[a|s] r']; cbn; intros (? & ? & ? & ? & ? & Hs);
    split_and!; try done; try (by intros; destruct Hs); destruct Hs as [_ Hs]; congruence.
Qed.

Lemma fixed_array_outcome (m : cdr cdr_value) `{!Tame m} out r :
  cdr_inv r -> status r = status_ok ->
  let '(s, out', r') := readFixedArray m out r in
  call_ok r (s, r') /\ (isOk s = true -> status r' = status_ok) /\ length out' = length out.
Proof.
  revert r. induction out as [|old out IH]; intros r Hi Hs; cbn [readFixedArray].
  { unfold call_ok. cbn. split_and!; done || lia. }
  pose proof (tame (m:=m) r Hi Hs) as Ho. destruct (m r) as [[v|s] r1]; unfold outcome_ok in Ho;
    cbn [fst snd] in Ho; destruct Ho as (Hi1 & Hpl & _ & _ & Hp & Hs1).
  - specialize (IH r1 Hi1 Hs1). destruct (readFixedArray m out r1) as [[s out'] r2].
    unfold call_ok in *. cbn [fst snd length] in *. destruct IH as ((? & -> & ? & ?) & ? & ->).
    split_and!; done || lia.
  - unfold call_ok. cbn [fst snd length]. destruct Hs1 as [Hs1 Hs2].
    split_and!; try done; congruence.
Qed.

Lemma cdr_run_ok c r :
  cdr_inv r -> status r = status_ok -> cdr_call_wf c ->
  call_ok r (cdr_run c r) /\ (isOk (cdr_run c r).1 = true -> status (cdr_run c r).2 = status_ok).
Proof.
  intros Hi Hs Hwf. destruct c as [t|m|t n|a| |]; cbn [cdr_run cdr_call_wf] in *.
  - pose proof (outcome_call r _ (tame_primitive t r Hi Hs)) as H.
    by destruct (readPrimitive t r).
  - pose proof (outcome_call r _ (tame_sequence_length m r Hi Hs)) as H.
    by destruct (readSequenceLength m r).
  - pose proof (fixed_array_outcome (readPrimitive t) (replicate n (VNumber 0)) r Hi Hs) as H.
    destruct (readFixedArray _ _ r) as [[s out] r']. cbn [fst snd] in *. tauto.
  - destruct (bad_alignment a) eqn:E.
    + unfold align. rewrite Hs, E. cbn [negb isOk code status_ok fail fst snd].
      unfold call_ok, cdr_inv, payload_size in *. cbn. split_and!; try done; lia.
    + destruct (bad_alignment_false _ Hwf E) as (k & Hk & ->).
      pose proof (align_spec r k Hi Hs Hk) as H. cbv zeta in H. case_bool_decide as Hb.
      * rewrite H. unfold call_ok, cdr_inv, payload_size in *. cbn.
        unfold aligned_from in *.
        pose proof (Z.mod_pos_bound (- (position r - data_origin r)) (2 ^ k)
          ltac:(apply Z.pow_pos_nonneg; lia)). split_and!; try done; lia.
      * destruct H as [e ->]. unfold call_ok, cdr_inv, payload_size in *. cbn. split_and!; try done; lia.
  - unfold enterStruct. destruct (_ =? _) eqn:E; unfold call_ok, cdr_inv, payload_size, kMaxTraversalDepth in *; cbn;
      [split_and!; try done; lia|].
    rewrite wrap_small by (unfold in_u; change (2 ^ 64) with 18446744073709551616; lia).
    split_and!; try done; lia.
  - unfold leaveStruct. destruct (_ =? _) eqn:E; unfold call_ok, cdr_inv, payload_size, kMaxTraversalDepth in *; cbn;
      [split_and!; try done; lia|].
    rewrite wrap_small by (unfold in_u; change (2 ^ 64) with 18446744073709551616; lia).
    split_and!; try done; lia.
Qed.

(** On a reader with an error, reads change nothing and no call clears it. *)
Lemma cdr_run_failed c r :
  cdr_inv r -> isOk (status r) = false -> cdr_call_wf c ->
  cdr_inv (cdr_run c r).2 /\ payload (cdr_run c r).2 = payload r /\
  isOk (status (cdr_run c r).2) = false /\
  (is_read c = true -> cdr_run c r = (status r, r)).
Proof.
  intros Hi Hs Hwf. destruct c as [t|m|t n|a| |]; cbn [cdr_run is_read cdr_call_wf] in *.
  - by rewrite (sticky (m:=readPrimitive t) r Hs).
  - by rewrite (sticky (m:=readSequenceLength m) r Hs).
  - destruct n; [lia|]. cbn [replicate readFixedArray]. by rewrite (sticky (m:=readPrimitive t) r Hs).
  - unfold align. by rewrite Hs.
  - unfold enterStruct. destruct (_ =? _) eqn:E; unfold cdr_inv, payload_size, kMaxTraversalDepth in *;
      cbn; [split_and!; try done; lia|].
    rewrite wrap_small by (unfold in_u; change (2 ^ 64) with 18446744073709551616; lia).
    split_and!; try done; lia.
  - unfold leaveStruct. destruct (_ =? _) eqn:E; unfold cdr_inv, payload_size, kMaxTraversalDepth in *;
      cbn; [split_and!; try done; lia|].
    rewrite wrap_small by (unfold in_u; change (2 ^ 64) with 18446744073709551616; lia).
    split_and!; try done; lia.
Qed.

(** The calls of a session with the statuses they returned. *)
Fixpoint cdr_session (r : CdrReader) (calls : list cdr_call) : list (cdr_call * Status) * CdrReader :=
  match calls with
  | [] => ([], r)
  | c :: calls' =>
    let '(s, r') := cdr_run c r in
    let '(results, r'') := cdr_session r' calls' in ((c, s) :: results, r'')
  end.

(** A reader without an error, or with one. *)
Definition session_inv (data : bytes) (r : CdrReader) : Prop :=
  cdr_inv r /\ payload r = data /\ (status r = status_ok \/ isOk (status r) = false).

Definition error_persists (a b : cdr_call * Status) : Prop :=
  isOk a.2 = false -> is_read b.1 = true -> isOk b.2 = false.

Lemma session_failed data r calls :
  session_inv data r -> isOk (status r) = false -> Forall cdr_call_wf calls ->
  Forall (fun res => is_read res.1 = true -> isOk res.2 = false) (cdr_session r calls).1.
Proof.
  revert r. induction calls as [|c calls IH]; intros r (Hi & Hpl & _) Hs Hwf; [constructor|].
  apply Forall_cons in Hwf as [Hc Hcs]. cbn [cdr_session].
  destruct (cdr_run_failed c r Hi Hs Hc) as (Hi' & Hpl' & Hs' & Hread).
  destruct (cdr_run c r) as [s r'] eqn:E. cbn [fst snd] in *.
  assert (session_inv data r') as Hr' by (unfold session_inv; rewrite Hpl'; auto).
  specialize (IH r' Hr' Hs' Hcs). destruct (cdr_session r' calls) as [res r''].
  constructor; [|done]. cbn [fst snd]. intros Hr. specialize (Hread Hr). congruence.
Qed.

Lemma session_ok data r calls :
  session_inv data r -> Forall cdr_call_wf calls ->
  session_inv data (cdr_session r calls).2 /\ StronglySorted error_persists (cdr_session r calls).1.
Proof.
  revert r. induction calls as [|c calls IH]; intros r Hr Hwf; [split; [done|constructor]|].
  apply Forall_cons in Hwf as [Hc Hcs]. cbn [cdr_session].
  assert (session_inv data (cdr_run c r).2 /\
    (isOk (cdr_run c r).1 = false -> isOk (status (cdr_run c r).2) = false)) as [Hr' Hfail].
  { destruct Hr as (Hi & Hpl & Hs). destruct Hs as [Hok|Hs].
    - destruct (cdr_run_ok c r Hi Hok Hc) as [(Hi' & Hpl' & _ & Hf) Hok'].
      unfold session_inv. rewrite Hpl'. destruct (isOk (cdr_run c r).1) eqn:E.
      + split; [|done]. split_and!; auto.
      + rewrite (Hf eq_refl), E. split; [|done]. split_and!; auto.
    - destruct (cdr_run_failed c r Hi Hs Hc) as (Hi' & Hpl' & Hs' & _).
      unfold session_inv. rewrite Hpl'. split; [|done]. split_and!; auto. }
  destruct (cdr_run c r) as [s r']. cbn [fst snd] in *.
  destruct (IH r' Hr' Hcs) as [Hfin Hsort].
  pose proof (session_failed data r' calls Hr') as Hall.
  destruct (cdr_session r' calls) as [res r'']. cbn [fst snd] in *.
  split; [done|]. constructor; [done|].
  destruct (isOk s) eqn:E.
  - apply Forall_true. intros x Hx. cbn in Hx. congruence.
  - eapply Forall_impl; [exact (Hall (Hfail eq_refl) Hcs)|]. intros x Hx _. exact Hx.
Qed.

Lemma session_initial data :
  Z.of_nat (length data) < 2 ^ 64 -> session_inv data (initialize data).
Proof.
  intros Hl. split; [by apply initialize_inv|]. unfold initialize.
  repeat case_match; split; (by left) || (by right) || done.
Qed.

(** Safety of the reader on any payload and any sequence of calls: the
    position never leaves the payload, the struct depth stays within 64, the
    payload is never replaced, and after a call has failed every later read
    fails, so that one check at the end of a sequence of reads is enough. *)
Theorem cdr_session_safe data calls :
  Z.of_nat (length data) < 2 ^ 64 -> Forall cdr_call_wf calls ->
  let '(results, r) := cdr_session (initialize data) calls in
  0 <= position r <= Z.of_nat (length data) /\ 0 <= depth r <= kMaxTraversalDepth /\
  payload r = data /\ StronglySorted error_persists results /\
  (isOk (status r) = false -> forall c, is_read c = true -> cdr_call_wf c ->
     cdr_run c r = (status r, r)).
Proof.
  intros Hl Hwf. pose proof (session_ok data _ calls (session_initial data Hl) Hwf) as [Hr Hs].
  destruct (cdr_session (initialize data) calls) as [res r]. cbn [fst snd] in *.
  destruct Hr as (Hi & Hpl & _). pose proof Hi as ((Ho & Hop) & Hp & _ & Hd).
  unfold payload_size in Hp. rewrite Hpl in Hp. split_and!; try done; try lia.
  intros Hf c Hc Hcwf. by apply (cdr_run_failed c r Hi Hf Hcwf).
Qed.

(** A truncated [int32] sequence: the length is refused, then every read. *)
Lemma cdr_session_safe_witness :
  let data := [Byte.x00; Byte.x01; Byte.x00; Byte.x00; Byte.xff; Byte.x00; Byte.x00; Byte.x00] in
  let calls := [CallSequenceLength 4; CallEnter; CallRead TU8; CallLeave; CallFixedArray TF64 3] in
  map (fun x => isOk x.2) (cdr_session (initialize data) calls).1 = [false; true; false; true; false] /\
  0 <= position (cdr_session (initialize data) calls).2 <= 8.
Proof.
  intros data calls. split; [vm_compute; reflexivity|].
  assert (Z.of_nat (length data) < 2 ^ 64) as Hl by (vm_compute; reflexivity).
  assert (Forall cdr_call_wf calls) as Hc.
  { unfold calls. repeat constructor; vm_compute; congruence. }
  pose proof (cdr_session_safe data calls Hl Hc) as H.
  destruct (cdr_session (initialize data) calls) as [res r]. exact (proj1 H).
Defined.

(** ** Plain CDR as a specification

    The encoding of a value at [pos] bytes behind the encapsulation header: each
    primitive at a multiple of its width, strings with a length that counts the
    terminator. *)

Definition cdr_pad (pos : Z) (n : nat) : bytes :=
  replicate (Z.to_nat ((- pos) mod Z.of_nat n)) Byte.x00.

Definition enc_uint (le : bool) (n : nat) (z : Z) : bytes :=
  if le then le_bytes n z else rev (le_bytes n z).

Definition enc_number (le : bool) (pos : Z) (n : nat) (z : Z) : bytes :=
  cdr_pad pos n ++ enc_uint le n z.

Definition cdr_width (t : cdr_type) : nat :=
  match t with
  | TBool | TI8 | TU8 => 1
  | TI16 | TU16 => 2
  | TI32 | TU32 | TF32 | TString | TBytes => 4
  | TI64 | TU64 | TF64 => 8
  end.

Definition cdr_enc (le : bool) (pos : Z) (t : cdr_type) (v : cdr_value) : bytes :=
  match v with
  | VBool b => enc_number le pos 1 (if b then 1 else 0)
  | VNumber z => enc_number le pos (cdr_width t) z
  | VString s => enc_number le pos 4 (Z.of_nat (length s) + 1) ++ s ++ [Byte.x00]
  | VBytes s => enc_number le pos 4 (Z.of_nat (length s)) ++ s
  end.

Definition cdr_value_ok (t : cdr_type) (v : cdr_value) : Prop :=
  match t, v with
  | TBool, VBool _ => True
  | (TI8 | TI16 | TI32 | TI64), VNumber z => in_s (8 * Z.of_nat (cdr_width t)) z
  | (TU8 | TU16 | TU32 | TU64 | TF32 | TF64), VNumber z => in_u (8 * Z.of_nat (cdr_width t)) z
  | TString, VString s => Z.of_nat (length s) + 1 < 2 ^ 32
  | TBytes, VBytes s => Z.of_nat (length s) < 2 ^ 32
  | _, _ => False
  end.

Fixpoint cdr_enc_all (le : bool) (pos : Z) (vs : list (cdr_type * cdr_value)) : bytes :=
  match vs with
  | [] => []
  | (t, v) :: vs' =>
    let e := cdr_enc le pos t v in e ++ cdr_enc_all le (pos + Z.of_nat (length e)) vs'
  end.

(** The encapsulation header of plain CDR. *)
Definition cdr_header (le : bool) : bytes :=
  [Byte.x00; if le then Byte.x01 else Byte.x00; Byte.x00; Byte.x00].

Fixpoint read_all (ts : list cdr_type) : cdr (list cdr_value) :=
  match ts with
  | [] => cret []
  | t :: ts' => let^ v := readPrimitive t in let^ vs := read_all ts' in cret (v :: vs)
  end.

Lemma uint_val_enc le n z : uint_val le (enc_uint le n z) = wrap (8 * Z.of_nat n) z.
Proof. destruct le; cbn [uint_val enc_uint]; rewrite ?rev_involutive; apply le_val_bytes. Qed.

Lemma length_enc_uint le n z : length (enc_uint le n z) = n.
Proof. destruct le; cbn [enc_uint]; rewrite ?length_rev; apply length_le_bytes. Qed.

(** The reader stands at the end of [pre], behind the header. *)
Definition reads_at (le : bool) (pre rest : bytes) (r : CdrReader) : Prop :=
  payload r = pre ++ rest /\ position r = Z.of_nat (length pre) /\ data_origin r = 4 /\
  little_endian r = le /\ status r = status_ok /\ cdr_inv r.

Definition pos_of (pre : bytes) : Z := Z.of_nat (length pre) - 4.

Lemma reads_at_forward le pre e rest r :
  reads_at le pre (e ++ rest) r ->
  reads_at le (pre ++ e) rest (set_position r (Z.of_nat (length (pre ++ e)))).
Proof.
  intros (Hpl & Hpos & Ho & Hle & Hs & ((? & ?) & ? & ? & ?)).
  unfold reads_at, cdr_inv, payload_size, set_position in *.
  cbn [payload position data_origin little_endian status depth] in *.
  rewrite Hpl, !length_app in *. rewrite <-app_assoc. split_and!; done || lia.
Qed.

Lemma readUnsigned_enc le pre n z rest r :
  uint_size n -> reads_at le pre (enc_number le (pos_of pre) n z ++ rest) r ->
  readUnsigned n r =
    (Value (wrap (8 * Z.of_nat n) z),
     set_position r (Z.of_nat (length (pre ++ enc_number le (pos_of pre) n z)))).
Proof.
  intros Hn (Hpl & Hpos & Ho & Hle & Hs & Hi).
  pose proof (readUnsigned_spec r n Hi Hs Hn) as H. cbv zeta in H.
  unfold enc_number, pos_of in *. set (k := (- (Z.of_nat (length pre) - 4)) mod Z.of_nat n) in *.
  assert (0 <= k) by (apply Z.mod_pos_bound; unfold uint_size in Hn; lia).
  assert (aligned_from (data_origin r) (position r) (Z.of_nat n) = Z.of_nat (length pre) + k) as Hal.
  { unfold aligned_from. rewrite Hpos, Ho. done. }
  assert (length (cdr_pad (Z.of_nat (length pre) - 4) n) = Z.to_nat k) as Hpad
    by apply length_replicate.
  rewrite Hal in H. rewrite bool_decide_true in H.
  2: { unfold payload_size. rewrite Hpl, !length_app, Hpad, length_enc_uint. lia. }
  rewrite H, !length_app, Hpad, length_enc_uint. f_equal; [|f_equal; lia]. do 2 f_equal.
  rewrite <-(uint_val_enc le n z), Hle, Hpl. f_equal.
  rewrite <-app_assoc, app_assoc.
  replace (Z.to_nat (Z.of_nat (length pre) + k))
    with (length (pre ++ cdr_pad (Z.of_nat (length pre) - 4) n))
    by (rewrite length_app, Hpad; lia).
  rewrite drop_app_length. rewrite <-(length_enc_uint le n z) at 1. by rewrite take_app_length.
Qed.

Lemma reads_at_uint_forward le pre n z rest r :
  reads_at le pre (enc_number le (pos_of pre) n z ++ rest) r ->
  let pre' := pre ++ enc_number le (pos_of pre) n z in
  reads_at le pre' rest (set_position r (Z.of_nat (length pre'))).
Proof. apply reads_at_forward. Qed.

Lemma readSigned_enc le pre n z rest r :
  uint_size n -> in_s (8 * Z.of_nat n) z ->
  reads_at le pre (enc_number le (pos_of pre) n z ++ rest) r ->
  readSigned n r =
    (Value z, set_position r (Z.of_nat (length (pre ++ enc_number le (pos_of pre) n z)))).
Proof.
  intros Hn Hz Hr. unfold readSigned, cbind. rewrite (readUnsigned_enc le pre n z rest r Hn Hr).
  unfold cret. by rewrite to_signed_wrap by (unfold uint_size in Hn; done || lia).
Qed.

(** A counted block of bytes behind its length. *)
Lemma block_at le pre data rest r :
  reads_at le pre (data ++ rest) r ->
  take (length data) (drop (Z.to_nat (position r)) (payload r)) = data /\
  Z.of_nat (length data) <= remaining r /\
  wrap 64 (position r + Z.of_nat (length data)) = Z.of_nat (length (pre ++ data)).
Proof.
  intros (Hpl & Hpos & Ho & Hle & Hs & ((? & ?) & Hp & Hsz & ?)).
  unfold remaining, payload_size in *. rewrite Hpl, Hpos, !length_app in *.
  rewrite Nat2Z.id, drop_app_length, take_app_length. split; [done|].
  rewrite (proj2 (Z.leb_le _ _)) by lia. split; [lia|].
  rewrite wrap_small by (unfold in_u; lia). lia.
Qed.

Lemma readString_enc le pre s rest r :
  Z.of_nat (length s) + 1 < 2 ^ 32 ->
  reads_at le pre (cdr_enc le (pos_of pre) TString (VString s) ++ rest) r ->
  readString r =
    (Value s,
     set_position r (Z.of_nat (length (pre ++ cdr_enc le (pos_of pre) TString (VString s))))).
Proof.
  intros Hs Hr. cbn [cdr_enc] in *. set (e := enc_number _ _ _ _) in *. rewrite <-app_assoc in Hr.
  unfold readString, cbind, readU32.
  rewrite (readUnsigned_enc le pre 4 _ ((s ++ [Byte.x00]) ++ rest) r ltac:(unfold uint_size; lia) Hr).
  rewrite wrap_small by (unfold in_u; simpl in *; lia).
  apply reads_at_forward in Hr. fold e. set (r1 := set_position r _) in *.
  destruct (block_at le (pre ++ e) (s ++ [Byte.x00]) rest r1 Hr) as (Htake & Hrem & Hend).
  assert (Z.of_nat (length (s ++ [Byte.x00])) = Z.of_nat (length s) + 1) as Hl
    by (rewrite length_app; cbn [length]; lia).
  rewrite Hl in *. replace (Z.to_nat (Z.of_nat (length s) + 1)) with (length (s ++ [Byte.x00])) by lia.
  rewrite Htake, Hend. destruct (_ =? 0) eqn:E0; [lia|]. destruct (_ >? _) eqn:E1; [lia|].
  rewrite last_snoc. cbn [negb]. rewrite bool_decide_true by done. cbn [negb].
  rewrite length_app. cbn [length]. rewrite Nat.add_sub, take_app_length. by rewrite <-app_assoc.
Qed.

Lemma readByteSequence_enc le pre s rest r :
  Z.of_nat (length s) < 2 ^ 32 ->
  reads_at le pre (cdr_enc le (pos_of pre) TBytes (VBytes s) ++ rest) r ->
  readByteSequence r =
    (Value s,
     set_position r (Z.of_nat (length (pre ++ cdr_enc le (pos_of pre) TBytes (VBytes s))))).
Proof.
  intros Hs Hr. cbn [cdr_enc] in *. set (e := enc_number _ _ _ _) in *. rewrite <-app_assoc in Hr.
  unfold readByteSequence, readSequenceLength, cbind, readU32.
  rewrite (readUnsigned_enc le pre 4 _ (s ++ rest) r ltac:(unfold uint_size; lia) Hr).
  rewrite wrap_small by (unfold in_u; simpl in *; lia).
  apply reads_at_forward in Hr. fold e. set (r1 := set_position r _) in *.
  destruct (block_at le (pre ++ e) s rest r1 Hr) as (Htake & Hrem & Hend).
  change (1 =? 0) with false. cbv iota. rewrite Z.div_1_r.
  destruct (_ >? _) eqn:E1; [lia|]. rewrite Nat2Z.id, Htake, Hend. by rewrite <-app_assoc.
Qed.

Lemma readPrimitive_enc le pre t v rest r :
  cdr_value_ok t v -> reads_at le pre (cdr_enc le (pos_of pre) t v ++ rest) r ->
  readPrimitive t r =
    (Value v, set_position r (Z.of_nat (length (pre ++ cdr_enc le (pos_of pre) t v)))).
Proof.
  intros Hv Hr. destruct t, v; try done; cbn [readPrimitive cdr_value_ok cdr_width cdr_enc] in *;
    unfold cmap, cbind, cret, readI8, readI16, readI32, readI64, readF32, readF64, readBool,
      readU8, readU16, readU32, readU64, cbind, cret;
    try (by erewrite readSigned_enc by (done || (unfold uint_size; lia)));
    try (by erewrite readUnsigned_enc by (exact Hr || (unfold uint_size; lia));
            rewrite wrap_small by done);
    try (by erewrite readString_enc by done); try (by erewrite readByteSequence_enc by done).
  erewrite readUnsigned_enc by (exact Hr || (unfold uint_size; lia)).
  by destruct b.
Qed.

(** C4 The reader inverts plain CDR: in both byte orders, the values of any list
    of typed fields laid out at their alignments behind the header (numbers of
    every width and sign, bit patterns of floats, strings, byte sequences) are
    read back in order, and the reader stops exactly behind them. *)
Theorem cdr_roundtrip le vs rest :
  Forall (fun tv => cdr_value_ok tv.1 tv.2) vs ->
  let data := cdr_header le ++ cdr_enc_all le 0 vs ++ rest in
  Z.of_nat (length data) < 2 ^ 64 ->
  let '(v, r) := read_all (map fst vs) (initialize data) in
  v = Value (map snd vs) /\ status r = status_ok /\
  position r = Z.of_nat (length (cdr_header le ++ cdr_enc_all le 0 vs)).
Proof.
  intros Hvs data Hl.
  assert (reads_at le (cdr_header le) (cdr_enc_all le (pos_of (cdr_header le)) vs ++ rest)
    (initialize data)) as Hr.
  { pose proof (initialize_inv data Hl) as Hi. unfold reads_at. by destruct le. }
  assert (pos_of (cdr_header le) = 0) as Hp by done. rewrite <-Hp in *. clear Hp.
  clearbody data. generalize dependent (initialize data). generalize dependent (cdr_header le).
  clear Hl. induction Hvs as [|[t v] vs Hv Hvs IH]; intros pre r Hr; cbn [map read_all cdr_enc_all fst snd].
  - unfold cret. destruct Hr as (? & ? & _ & _ & ? & _). by rewrite app_nil_r.
  - cbn [cdr_enc_all fst snd] in Hv, Hr. cbv zeta in Hr. set (e := cdr_enc le (pos_of pre) t v) in *.
    rewrite <-app_assoc in Hr. unfold cbind at 1.
    rewrite (readPrimitive_enc le pre t v _ r Hv Hr). fold e.
    apply reads_at_forward in Hr. set (r1 := set_position r _) in *.
    assert (pos_of (pre ++ e) = pos_of pre + Z.of_nat (length e)) as Hpe.
    { unfold pos_of. rewrite length_app. lia. }
    rewrite <-Hpe in *. specialize (IH (pre ++ e) r1 Hr).
    unfold cbind at 1. destruct (read_all (map fst vs) r1) as [v' r2].
    destruct IH as (-> & ? & ?). unfold cret. rewrite <-app_assoc in *. done.
Qed.

Lemma cdr_roundtrip_witness :
  let vs := [(TU8, VNumber 7); (TF64, VNumber 4607182418800017408); (TString, VString (str "ok"));
             (TI16, VNumber (-2)); (TBytes, VBytes (str "xyz"))] in
  (read_all (map fst vs) (initialize (cdr_header false ++ cdr_enc_all false 0 vs))).1
    = Value (map snd vs).
Proof.
  intros vs.
  assert (Forall (fun tv => cdr_value_ok tv.1 tv.2) vs) as Hv.
  { unfold vs. repeat constructor; vm_compute; congruence. }
  assert (Z.of_nat (length (cdr_header false ++ cdr_enc_all false 0 vs ++ [])) < 2 ^ 64) as Hl
    by (vm_compute; reflexivity).
  pose proof (cdr_roundtrip false vs [] Hv Hl) as H. rewrite app_nil_r in H.
  destruct (read_all (map fst vs) _) as [v r]. exact (proj1 H).
Defined.
