(* ===== verification/ProtoReader.v ===== *)
(** * ProtoReader: the parser modules' protobuf reader

    [pj_base/include/pj_base/parser_module/proto_reader.hpp].  A position in the
    message is the list of the bytes from it on; a failed call's position is
    never used again.  The nothrow allocations of a [FieldList] may fail
    ([alloc]); the vectors of the repeated reads do not run out of memory. *)

From S2P Require Import Prelude ParserCore.
From S2P Require ProtobufWire.

Definition kMaxRecursionDepth : Z := 64.

Inductive ProtoWireType : Set :=
  | pVarint | pFixed64 | pLengthDelimited | pStartGroup | pEndGroup | pFixed32.

Definition wire_type_of (wire_value : Z) : option ProtoWireType :=
  if wire_value =? 0 then Some pVarint
  else if wire_value =? 1 then Some pFixed64
  else if wire_value =? 2 then Some pLengthDelimited
  else if wire_value =? 3 then Some pStartGroup
  else if wire_value =? 4 then Some pEndGroup
  else if wire_value =? 5 then Some pFixed32
  else None.

Record Field : Set := mkField {
  f_number : Z; f_wire_type : ProtoWireType; f_integer : Z; f_bytes : bytes }.

Definition perr {A} (msg : string) : PjExpected A := Failed (status_error (str msg)).

Definition pbind {A B} (m : PjExpected A) (f : A -> PjExpected B) : PjExpected B :=
  match m with Value a => f a | Failed s => Failed s end.

Notation "'let+' x := m 'in' k" := (pbind m (fun x => k))
  (at level 10, x pattern, m at level 100, k at level 200) : pj_scope.

(** ** FieldList *)

Definition kMaximumFields : Z := 64 * 1024.

Record FieldList : Set := mkFieldList { fl_fields : list Field; fl_capacity : Z }.

Definition fl_empty : FieldList := mkFieldList [] 0.

Definition fl_back (l : FieldList) : option Field := last (fl_fields l).

Definition fl_push (alloc : Z -> bool) (l : FieldList) (field : Field) : PjExpected FieldList :=
  let size := Z.of_nat (length (fl_fields l)) in
  if size =? kMaximumFields
  then perr "protobuf field match count exceeds the configured limit"
  else if size =? fl_capacity l then
    let next_capacity := if fl_capacity l =? 0 then 8 else fl_capacity l * 2 in
    let bounded_capacity :=
      if next_capacity <? kMaximumFields then next_capacity else kMaximumFields in
    if negb (alloc bounded_capacity)
    then perr "allocation failed while collecting protobuf fields"
    else Value (mkFieldList (fl_fields l ++ [field]) bounded_capacity)
  else Value (mkFieldList (fl_fields l ++ [field]) (fl_capacity l)).

(** ** Wire-level reads *)

Fixpoint readVarint_from (fuel : nat) (byte_index : Z) (value : Z) (r : bytes)
  : PjExpected (Z * bytes) :=
  match fuel with
  | O => perr "protobuf varint exceeds ten bytes"
  | S fuel' =>
    match r with
    | [] => perr "truncated protobuf varint"
    | byte :: r' =>
      if (byte_index =? 9) && negb (Z.land (b2z byte) 254 =? 0)
      then perr "protobuf varint overflows uint64"
      else
        let value := Z.lor value (wrap 64 (Z.shiftl (Z.land (b2z byte) 127) (byte_index * 7))) in
        if Z.land (b2z byte) 128 =? 0 then Value (value, r')
        else readVarint_from fuel' (byte_index + 1) value r'
    end
  end.

Definition readVarint (r : bytes) : PjExpected (Z * bytes) := readVarint_from 10 0 0 r.

Fixpoint readLittleEndian_from (index : Z) (value : Z) (data : bytes) : Z :=
  match data with
  | [] => value
  | b :: data' =>
    readLittleEndian_from (index + 1) (Z.lor value (Z.shiftl (b2z b) (index * 8))) data'
  end.

Definition readLittleEndian (data : bytes) : Z := readLittleEndian_from 0 0 data.

Definition skipValue (r : bytes) (wire_type : ProtoWireType) : PjExpected bytes :=
  match wire_type with
  | pVarint => let+ v := readVarint r in Value (snd v)
  | pFixed64 | pFixed32 =>
    let width := match wire_type with pFixed64 => 8%nat | _ => 4%nat end in
    if (length r <? width)%nat then perr "truncated protobuf fixed field"
    else Value (drop width r)
  | pLengthDelimited =>
    match readVarint r with
    | Failed _ => perr "truncated protobuf length-delimited field"
    | Value (len, r') =>
      if len >? Z.of_nat (length r') then perr "truncated protobuf length-delimited field"
      else Value (drop (Z.to_nat len) r')
    end
  | _ => perr "invalid protobuf group field"
  end.

(** The key of a field, checked: its number and wire type. *)
Definition bad_number (n : Z) : bool := (n =? 0) || (n >? 536870911).

(** A group up to its end tag.  Fuel bounds the keys read, each of which takes a
    byte. *)
Fixpoint skipGroup (fuel : nat) (r : bytes) (group_number depth : Z) : PjExpected bytes :=
  match fuel with
  | O => perr ""
  | S fuel' =>
    if depth >? kMaxRecursionDepth then perr "protobuf recursion depth exceeds 64"
    else if bool_decide (r = []) then perr "truncated protobuf group"
    else
      let+ (key, r1) := readVarint r in
      let raw_field_number := Z.shiftr key 3 in
      match wire_type_of (Z.land key 7) with
      | Some wire_type =>
        if bad_number raw_field_number then perr "invalid protobuf field inside a group"
        else
          match wire_type with
          | pEndGroup =>
            if raw_field_number =? group_number then Value r1
            else perr "protobuf group end tag does not match"
          | pStartGroup =>
            let+ r2 := skipGroup fuel' r1 raw_field_number (depth + 1) in
            skipGroup fuel' r2 group_number depth
          | _ =>
            let+ r2 := skipValue r1 wire_type in skipGroup fuel' r2 group_number depth
          end
      | None => perr "invalid protobuf field inside a group"
      end
  end.

Definition nextField (r : bytes) (depth : Z) : PjExpected (Field * bytes) :=
  let+ (key, r1) := readVarint r in
  let raw_field_number := Z.shiftr key 3 in
  let field_number := wrap 32 raw_field_number in
  if bad_number raw_field_number then perr "protobuf field number is invalid"
  else
    match wire_type_of (Z.land key 7) with
    | None => perr "protobuf wire type is invalid"
    | Some pVarint =>
      let+ (value, r2) := readVarint r1 in Value (mkField field_number pVarint value [], r2)
    | Some pFixed64 =>
      if (length r1 <? 8)%nat then perr "truncated protobuf fixed64 field"
      else Value (mkField field_number pFixed64 (readLittleEndian (take 8 r1)) [], drop 8 r1)
    | Some pLengthDelimited =>
      let+ (len, r2) := readVarint r1 in
      if len >? Z.of_nat (length r2)
      then perr "protobuf length-delimited field exceeds the remaining input"
      else Value (mkField field_number pLengthDelimited 0 (take (Z.to_nat len) r2),
                  drop (Z.to_nat len) r2)
    | Some pStartGroup =>
      let+ r2 := skipGroup (S (length r1)) r1 field_number (depth + 1) in
      Value (mkField field_number pStartGroup 0 [], r2)
    | Some pEndGroup => perr "unexpected protobuf end-group tag"
    | Some pFixed32 =>
      if (length r1 <? 4)%nat then perr "truncated protobuf fixed32 field"
      else Value (mkField field_number pFixed32 (readLittleEndian (take 4 r1)) [], drop 4 r1)
    end.

(** ** Lookups *)

Record ProtoReader : Set := mkProtoReader { pr_message : bytes; pr_depth : Z }.

Section Lookups.
Context (alloc : Z -> bool).

Fixpoint matching_loop (fuel : nat) (r : bytes) (depth field_number : Z) (result : FieldList)
  : PjExpected FieldList :=
  match fuel with
  | O => perr ""
  | S fuel' =>
    if bool_decide (r = []) then Value result
    else
      let+ (field, r') := nextField r depth in
      let+ result := (if f_number field =? field_number then fl_push alloc result field
                      else Value result) in
      matching_loop fuel' r' depth field_number result
  end.

Definition matching (p : ProtoReader) (field_number : Z) : PjExpected FieldList :=
  if bad_number field_number then perr "protobuf field number is invalid"
  else matching_loop (S (length (pr_message p))) (pr_message p) (pr_depth p) field_number fl_empty.

Definition last_field (p : ProtoReader) (field_number : Z) : PjExpected Field :=
  let+ fields := matching p field_number in
  match fl_back fields with
  | None => perr "protobuf field is absent"
  | Some f => Value f
  end.

Definition pr_varint (p : ProtoReader) (field_number : Z) : PjExpected Z :=
  let+ field := last_field p field_number in
  match f_wire_type field with
  | pVarint => Value (f_integer field)
  | _ => perr "protobuf field is not a varint"
  end.

Definition zigzag_decode (value : Z) : Z :=
  let sign := wrap 64 (0 - Z.land value 1) in
  to_signed 64 (Z.lxor (Z.shiftr value 1) sign).

Definition pr_zigzag (p : ProtoReader) (field_number : Z) : PjExpected Z :=
  let+ value := pr_varint p field_number in Value (zigzag_decode value).

Definition pr_fixed32 (p : ProtoReader) (field_number : Z) : PjExpected Z :=
  let+ field := last_field p field_number in
  match f_wire_type field with
  | pFixed32 => Value (wrap 32 (f_integer field))
  | _ => perr "protobuf field is not fixed32"
  end.

Definition pr_fixed64 (p : ProtoReader) (field_number : Z) : PjExpected Z :=
  let+ field := last_field p field_number in
  match f_wire_type field with
  | pFixed64 => Value (f_integer field)
  | _ => perr "protobuf field is not fixed64"
  end.

Definition pr_bytes (p : ProtoReader) (field_number : Z) : PjExpected bytes :=
  let+ field := last_field p field_number in
  match f_wire_type field with
  | pLengthDelimited => Value (f_bytes field)
  | _ => perr "protobuf field is not length-delimited"
  end.

Definition submessage (p : ProtoReader) (field_number : Z) : PjExpected ProtoReader :=
  if pr_depth p =? kMaxRecursionDepth then perr "protobuf recursion depth exceeds 64"
  else
    let+ value := pr_bytes p field_number in
    Value (mkProtoReader value (wrap 64 (pr_depth p + 1))).

Fixpoint unpack_varints (fuel : nat) (r : bytes) (values : list Z) : PjExpected (list Z) :=
  match fuel with
  | O => perr ""
  | S fuel' =>
    if bool_decide (r = []) then Value values
    else let+ (value, r') := readVarint r in unpack_varints fuel' r' (values ++ [value])
  end.

Fixpoint collect_varints (fields : list Field) (values : list Z) : PjExpected (list Z) :=
  match fields with
  | [] => Value values
  | field :: fields' =>
    match f_wire_type field with
    | pVarint => collect_varints fields' (values ++ [f_integer field])
    | pLengthDelimited =>
      let+ values := unpack_varints (S (length (f_bytes field))) (f_bytes field) values in
      collect_varints fields' values
    | _ => perr "repeated protobuf integer uses an incompatible wire type"
    end
  end.

Definition repeatedVarints (p : ProtoReader) (field_number : Z) : PjExpected (list Z) :=
  let+ fields := matching p field_number in collect_varints (fl_fields fields) [].

Fixpoint unpack_fixed (fuel width : nat) (r : bytes) (values : list Z) : list Z :=
  match fuel with
  | O => values
  | S fuel' =>
    if bool_decide (r = []) then values
    else unpack_fixed fuel' width (drop width r)
           (values ++ [wrap (8 * Z.of_nat width) (readLittleEndian (take width r))])
  end.

Definition wire_eqb (a b : ProtoWireType) : bool :=
  match a, b with
  | pVarint, pVarint | pFixed64, pFixed64 | pLengthDelimited, pLengthDelimited
  | pStartGroup, pStartGroup | pEndGroup, pEndGroup | pFixed32, pFixed32 => true
  | _, _ => false
  end.

Fixpoint collect_fixed (unpacked_type : ProtoWireType) (width : nat) (fields : list Field)
    (values : list Z) : PjExpected (list Z) :=
  match fields with
  | [] => Value values
  | field :: fields' =>
    if wire_eqb (f_wire_type field) unpacked_type
    then collect_fixed unpacked_type width fields'
           (values ++ [wrap (8 * Z.of_nat width) (f_integer field)])
    else if negb (wire_eqb (f_wire_type field) pLengthDelimited)
            || negb (length (f_bytes field) mod width =? 0)%nat
    then perr "repeated protobuf fixed field uses an incompatible wire encoding"
    else collect_fixed unpacked_type width fields'
           (unpack_fixed (S (length (f_bytes field))) width (f_bytes field) values)
  end.

Definition repeatedFixed (p : ProtoReader) (field_number : Z) (unpacked_type : ProtoWireType)
    (width : nat) : PjExpected (list Z) :=
  let+ fields := matching p field_number in
  collect_fixed unpacked_type width (fl_fields fields) [].

Definition repeatedFixed32 (p : ProtoReader) (field_number : Z) : PjExpected (list Z) :=
  repeatedFixed p field_number pFixed32 4.
Definition repeatedFixed64 (p : ProtoReader) (field_number : Z) : PjExpected (list Z) :=
  repeatedFixed p field_number pFixed64 8.
End Lookups.

(** ** The two varint readers *)

Lemma varint_loops_agree n i shift value r :
  shift = 7 * i -> 0 <= i -> i + Z.of_nat n = 10 ->
  match readVarint_from n i value r with
  | Value (v, r') => ProtobufWire.readVarint_loop n shift value r = (Some v, r')
  | Failed _ => (ProtobufWire.readVarint_loop n shift value r).1 = None
  end.
Proof.
  revert i shift value r. induction n as [|n IH]; intros i shift value r Hs Hi Hn.
  { by destruct r. }
  destruct r as [|b r]; [done|]. cbn [readVarint_from ProtobufWire.readVarint_loop].
  pose proof (b2z_range b) as Hb.
  assert ((i =? 9) && negb (Z.land (b2z b) 254 =? 0)
    = (shift =? 63) && ((Z.land (b2z b) 127 >? 1) || negb (Z.land (b2z b) 128 =? 0))) as Hcheck.
  { assert ((i =? 9) = (shift =? 63)) as -> by lia. f_equal. clear.
    destruct b; vm_compute; reflexivity. }
  assert (i * 7 = shift) as -> by lia.
  destruct (shift =? 63) eqn:E; cbn [andb] in *.
  - destruct (_ >? 1) eqn:E1; cbn [orb] in *; rewrite Hcheck; [done|].
    destruct (Z.land (b2z b) 128 =? 0) eqn:E2; cbn [negb]; [done|].
    assert (n = 0%nat) as -> by lia. by destruct r.
  - rewrite Hcheck. destruct (Z.land (b2z b) 128 =? 0); [done|]. apply IH; lia.
Qed.

Lemma readVarint_agree r v r' :
  readVarint r = Value (v, r') <-> ProtobufWire.readVarint r = (Some v, r').
Proof.
  pose proof (varint_loops_agree 10 0 0 0 r eq_refl ltac:(lia) eq_refl) as H.
  unfold readVarint, ProtobufWire.readVarint in *.
  destruct (readVarint_from 10 0 0 r) as [[w r1]|s].
  - rewrite H. split; intros [= -> ->]; done.
  - split; [done|]. intros H1. by rewrite H1 in H.
Qed.
