(* ===== verification/ProtoMessages.v ===== *)
(** * ProtoMessages: messages of the builtin writer, read by parser modules

    The writer of [protobuf_wire.hpp] ([ProtobufWire]) and the reader of
    [proto_reader.hpp] ([ProtoReader]) are written independently; this file
    relates them, with groups (which the writer has no call for) spelled with
    the writer's tags. *)

From S2P Require Import Prelude ParserCore ProtobufWire ProtoReader.

(** A field of a message, or a group of fields. *)
Inductive item : Type :=
  | IValue (f : Z) (wv : wire_value)
  | IGroup (f : Z) (items : list item).

Fixpoint enc_item (it : item) : bytes :=
  match it with
  | IValue f wv => write_value f wv []
  | IGroup f items =>
    wtag f (kOtherWire 3) [] ++ flat_map enc_item items ++ wtag f (kOtherWire 4) []
  end.

Definition enc_items (items : list item) : bytes := flat_map enc_item items.

Fixpoint item_wf (it : item) : Prop :=
  match it with
  | IValue f wv => field_ok f /\ value_wf wv
  | IGroup f items => field_ok f /\ foldr (fun i P => item_wf i /\ P) True items
  end.

(** Nesting of groups. *)
Fixpoint item_depth (it : item) : Z :=
  match it with
  | IValue _ _ => 0
  | IGroup _ items => 1 + foldr (fun i d => Z.max (item_depth i) d) 0 items
  end.

Definition items_depth (items : list item) : Z := foldr (fun i d => Z.max (item_depth i) d) 0 items.

Fixpoint item_size (it : item) : nat :=
  match it with
  | IValue _ _ => 1
  | IGroup _ items => S (foldr (fun i n => item_size i + n)%nat 0%nat items)
  end.

Definition items_size (items : list item) : nat :=
  foldr (fun i n => item_size i + n)%nat 0%nat items.

(** What the reader reports for a field. *)
Definition field_of (it : item) : Field :=
  match it with
  | IValue f (WVarint v) => mkField f pVarint v []
  | IValue f (WFixed64 v) => mkField f pFixed64 v []
  | IValue f (WFixed32 v) => mkField f pFixed32 v []
  | IValue f (WBytes data) => mkField f pLengthDelimited 0 data
  | IGroup f _ => mkField f pStartGroup 0 []
  end.

Definition item_number (it : item) : Z :=
  match it with IValue f _ | IGroup f _ => f end.

(** ** Keys and values *)

Lemma key_read f t rest :
  field_ok f -> 0 <= wire_raw t < 8 ->
  ProtoReader.readVarint (wtag f t [] ++ rest) = Value (wire_raw t + f * 8, rest).
Proof.
  unfold field_ok. change (2 ^ 29) with 536870912. intros Hf Ht. apply readVarint_agree.
  unfold wtag. rewrite Z.lor_comm, lor_shiftl_add by (simpl; lia). change (2 ^ 3) with 8.
  apply readVarint_appendVarint. unfold in_u. change (2 ^ 64) with 18446744073709551616. lia.
Qed.

Lemma key_parts f raw :
  0 <= raw < 8 -> Z.shiftr (raw + f * 8) 3 = f /\ Z.land (raw + f * 8) 7 = raw.
Proof.
  intros Hr. rewrite Z.shiftr_div_pow2 by lia. change 7 with (Z.ones 3). rewrite Z.land_ones by lia.
  change (2 ^ 3) with 8. rewrite Z.div_add, Z.mod_add, Z.div_small, Z.mod_small by lia. lia.
Qed.

Lemma number_ok f : field_ok f -> bad_number f = false /\ wrap 32 f = f.
Proof.
  unfold field_ok, bad_number. change (2 ^ 29) with 536870912. intros Hf.
  split; [blia|]. rewrite wrap_small; [done|]. unfold in_u. change (2 ^ 32) with 4294967296. lia.
Qed.

Lemma little_endian_from i v data :
  0 <= i -> 0 <= v < 2 ^ (8 * i) ->
  readLittleEndian_from i v data = v + le_val data * 2 ^ (8 * i).
Proof.
  revert i v. induction data as [|b data IH]; intros i v Hi Hv; cbn [readLittleEndian_from le_val]; [lia|].
  pose proof (b2z_range b).
  assert (2 ^ (8 * (i + 1)) = 2 ^ (8 * i) * 256) as Hp.
  { replace (8 * (i + 1)) with (8 * i + 8) by lia. by rewrite Z.pow_add_r by lia. }
  replace (i * 8) with (8 * i) by lia. rewrite lor_shiftl_add by lia.
  rewrite IH by (try lia; rewrite Hp; nia). rewrite Hp. ring.
Qed.

Lemma little_endian_val data : readLittleEndian data = le_val data.
Proof. unfold readLittleEndian. rewrite little_endian_from by (simpl; lia). simpl. lia. Qed.

Lemma fixed_read n v rest :
  in_u (8 * Z.of_nat n) v ->
  take n (appendFixed_from 0 n v [] ++ rest) = le_bytes n v /\
  drop n (appendFixed_from 0 n v [] ++ rest) = rest /\
  (length (appendFixed_from 0 n v [] ++ rest) <? n)%nat = false /\
  readLittleEndian (le_bytes n v) = v.
Proof.
  intros Hv. rewrite appendFixed_bytes by (unfold in_u in Hv; lia).
  pose proof (length_le_bytes n v) as Hl. split_and!.
  - rewrite <-Hl at 1. apply take_app_length.
  - rewrite <-Hl at 1. apply drop_app_length.
  - apply Nat.ltb_ge. rewrite length_app, Hl. lia.
  - rewrite little_endian_val, le_val_bytes. by apply wrap_small.
Qed.

Lemma varint_read v rest :
  in_u 64 v -> ProtoReader.readVarint (appendVarint v [] ++ rest) = Value (v, rest).
Proof. intros Hv. apply readVarint_agree. by apply readVarint_appendVarint. Qed.

(** A value behind its key. *)
Lemma value_bytes f wv :
  write_value f wv [] =
    wtag f (value_type wv) [] ++
    match wv with
    | WVarint v => appendVarint v []
    | WFixed64 v => appendFixed_from 0 8 v []
    | WFixed32 v => appendFixed_from 0 4 v []
    | WBytes data => appendVarint (Z.of_nat (length data)) [] ++ data
    end.
Proof.
  destruct wv; cbn [write_value value_type]; unfold varint, fixed64, fixed32;
    rewrite ?wseq_bytes by apply _; try done.
  by rewrite wbytes_bytes.
Qed.

Lemma value_type_raw wv : 0 <= wire_raw (value_type wv) < 8.
Proof. destruct wv; cbn; lia. Qed.

Lemma block_read (data rest : bytes) :
  Z.of_nat (length data) >? Z.of_nat (length (data ++ rest)) = false /\
  take (Z.to_nat (Z.of_nat (length data))) (data ++ rest) = data /\
  drop (Z.to_nat (Z.of_nat (length data))) (data ++ rest) = rest.
Proof.
  rewrite Nat2Z.id, take_app_length, drop_app_length, length_app. split_and!; [blia|done..].
Qed.

Lemma next_value f wv rest d :
  field_ok f -> value_wf wv ->
  nextField (write_value f wv [] ++ rest) d = Value (field_of (IValue f wv), rest).
Proof.
  intros Hf Hwv. unfold nextField. rewrite value_bytes, <-app_assoc.
  rewrite key_read by (done || apply value_type_raw). cbn [pbind].
  destruct (key_parts f _ (value_type_raw wv)) as [-> ->]. destruct (number_ok f Hf) as [-> ->].
  destruct wv as [v|v|v|data]; cbn [value_type wire_raw field_of value_wf] in *.
  - change (wire_type_of 0) with (Some pVarint). cbv iota. by rewrite varint_read.
  - change (wire_type_of 1) with (Some pFixed64). cbv iota.
    destruct (fixed_read 8 v rest Hwv) as (-> & -> & -> & ->). done.
  - change (wire_type_of 5) with (Some pFixed32). cbv iota.
    destruct (fixed_read 4 v rest Hwv) as (-> & -> & -> & ->). done.
  - change (wire_type_of 2) with (Some pLengthDelimited). cbv iota.
    rewrite <-app_assoc, varint_read by (unfold in_u, fits in *; lia). cbn [pbind].
    destruct (block_read data rest) as (-> & -> & ->). done.
Qed.

(** ** Groups *)

Lemma item_size_pos it : (0 < item_size it)%nat.
Proof. destruct it; simpl; lia. Qed.

Lemma items_cons (P : item -> Prop) it items :
  foldr (fun i Q => P i /\ Q) True (it :: items) -> P it /\ foldr (fun i Q => P i /\ Q) True items.
Proof. done. Qed.

Definition items_wf (items : list item) : Prop := foldr (fun i P => item_wf i /\ P) True items.

Lemma items_depth_nonneg items : 0 <= items_depth items.
Proof. induction items as [|it items IH]; cbn; [lia|]. unfold items_depth in IH. lia. Qed.

Lemma skip_value f wv rest :
  value_wf wv ->
  let w := match wv with
           | WVarint _ => pVarint | WFixed64 _ => pFixed64
           | WFixed32 _ => pFixed32 | WBytes _ => pLengthDelimited end in
  wire_type_of (wire_raw (value_type wv)) = Some w /\
  exists payload,
    write_value f wv [] = wtag f (value_type wv) [] ++ payload /\
    skipValue (payload ++ rest) w = Value rest.
Proof.
  intros Hwv. pose proof (value_bytes f wv) as Hb.
  destruct wv as [v|v|v|data]; (split; [done|]); eexists; (split; [exact Hb|]);
    cbn [skipValue value_wf] in *.
  - by rewrite varint_read.
  - by destruct (fixed_read 8 v rest Hwv) as (_ & -> & -> & _).
  - by destruct (fixed_read 4 v rest Hwv) as (_ & -> & -> & _).
  - rewrite <-app_assoc, varint_read by (unfold in_u, fits in *; lia). cbn [pbind].
    by destruct (block_read data rest) as (-> & _ & ->).
Qed.

Lemma wtag_nonempty f t rest : field_ok f -> 0 <= wire_raw t < 8 -> wtag f t [] ++ rest <> [].
Proof. intros Hf Ht Hn. pose proof (key_read f t rest Hf Ht) as H. by rewrite Hn in H. Qed.

Lemma skip_items n : forall items g d rest fuel,
  (items_size items <= n)%nat -> items_wf items -> field_ok g ->
  d + items_depth items <= kMaxRecursionDepth ->
  (items_size items < fuel)%nat ->
  skipGroup fuel (enc_items items ++ wtag g (kOtherWire 4) [] ++ rest) g d = Value rest.
Proof.
  induction n as [n IH] using lt_wf_ind.
  intros items g d rest fuel Hn Hwf Hg Hd Hfuel.
  destruct fuel as [|fuel]; [lia|].
  pose proof (items_depth_nonneg items).
  cbn [skipGroup]. assert (d >? kMaxRecursionDepth = false) as -> by lia.
  destruct items as [|it items].
  - cbn [enc_items flat_map app]. rewrite bool_decide_false by (apply wtag_nonempty; [done|by (apply value_type_raw || (cbn; lia))]).
    rewrite key_read by (done || (cbn; lia)). cbn [pbind].
    destruct (key_parts g 4 ltac:(lia)) as [E1 E2]. cbn [wire_raw]. rewrite E1, E2.
    destruct (number_ok g Hg) as [-> _]. cbn. by rewrite Z.eqb_refl.
  - destruct (items_cons item_wf _ _ Hwf) as [Hit Hwf'].
    pose proof (item_size_pos it). pose proof (items_depth_nonneg items).
    unfold items_size in *; unfold items_depth in *; cbn [foldr] in *.
    destruct it as [f wv|f inner].
    + destruct Hit as [Hf Hwv].
      unfold enc_items. cbn [flat_map enc_item]. rewrite <-app_assoc.
      destruct (skip_value f wv (flat_map enc_item items ++ wtag g (kOtherWire 4) [] ++ rest) Hwv)
        as (Htype & payload & -> & Hskip).
      rewrite <-app_assoc. rewrite bool_decide_false by (apply wtag_nonempty; [done|by (apply value_type_raw || (cbn; lia))]).
      rewrite key_read by (done || apply value_type_raw). cbn [pbind].
      destruct (key_parts f _ (value_type_raw wv)) as [-> ->].
      destruct (number_ok f Hf) as [-> _]. rewrite Htype.
      cbn [item_size] in *.
      assert (skipGroup fuel (flat_map enc_item items ++ wtag g (kOtherWire 4) [] ++ rest) g d
        = Value rest) as Hrest.
      { eapply (IH (items_size items)); unfold items_size, items_depth; try done; lia. }
      destruct wv; rewrite Hskip; exact Hrest.
    + destruct Hit as [Hf Hinner].
      unfold enc_items. cbn [flat_map enc_item]. rewrite <-!app_assoc.
      rewrite bool_decide_false by (apply wtag_nonempty; [done|by (apply value_type_raw || (cbn; lia))]).
      rewrite key_read by (done || (cbn; lia)). cbn [pbind wire_raw].
      destruct (key_parts f 3 ltac:(lia)) as [-> ->]. destruct (number_ok f Hf) as [-> _].
      change (wire_type_of 3) with (Some pStartGroup). cbv iota.
      cbn [item_size item_depth] in *.
      rewrite (IH (items_size inner)); unfold items_size, items_depth in *; try done; try lia.
      cbn [pbind]. eapply (IH (items_size items)); unfold items_size, items_depth; try done; lia.
Qed.

Lemma enc_item_nonempty it : item_wf it -> enc_item it <> [].
Proof.
  destruct it as [f wv|f inner]; intros [Hf _]; cbn [enc_item].
  - rewrite value_bytes. apply wtag_nonempty; [done|apply value_type_raw].
  - apply wtag_nonempty; [done|cbn; lia].
Qed.

(** A group's items take fewer keys than bytes: the fuel of [nextField] is enough. *)
Lemma items_size_bound n : forall items,
  (items_size items <= n)%nat -> items_wf items ->
  (items_size items <= length (enc_items items))%nat.
Proof.
  induction n as [n IH] using lt_wf_ind. intros items Hn Hwf.
  destruct items as [|it items]; [done|]. destruct (items_cons item_wf _ _ Hwf) as [Hit Hwf'].
  pose proof (item_size_pos it). pose proof (enc_item_nonempty it Hit) as Hne.
  unfold items_size in *. cbn [foldr enc_items flat_map] in *. rewrite length_app.
  assert (items_size items <= length (flat_map enc_item items))%nat.
  { eapply (IH (items_size items)); unfold items_size; try done; lia. }
  assert (item_size it <= length (enc_item it))%nat; [|unfold items_size in *; lia].
  destruct it as [f wv|f inner].
  - cbn [item_size]. destruct (enc_item (IValue f wv)); [done|simpl; lia].
  - destruct Hit as [Hf Hinner]. cbn [enc_item item_size] in *. rewrite !length_app.
    assert (items_size inner <= length (flat_map enc_item inner))%nat.
    { eapply (IH (items_size inner)); unfold items_size; try done; lia. }
    pose proof (wtag_nonempty f (kOtherWire 3) [] Hf ltac:(cbn; lia)) as Ht.
    rewrite app_nil_r in Ht. destruct (wtag f (kOtherWire 3) []); [done|].
    unfold items_size in *. simpl. lia.
Qed.

Lemma next_item it rest d :
  item_wf it -> d + item_depth it <= kMaxRecursionDepth ->
  nextField (enc_item it ++ rest) d = Value (field_of it, rest).
Proof.
  destruct it as [f wv|f inner]; intros Hit Hd.
  { destruct Hit. by apply next_value. }
  destruct Hit as [Hf Hinner]. cbn [enc_item item_depth field_of] in *.
  rewrite <-!app_assoc. unfold nextField.
  rewrite key_read by (done || (cbn; lia)). cbn [pbind wire_raw].
  destruct (key_parts f 3 ltac:(lia)) as [-> ->]. destruct (number_ok f Hf) as [-> ->].
  change (wire_type_of 3) with (Some pStartGroup). cbv iota.
  rewrite (skip_items (items_size inner) inner f (d + 1) rest); try done.
  - unfold items_depth. lia.
  - pose proof (items_size_bound (items_size inner) inner ltac:(lia) Hinner).
    unfold enc_items in *. rewrite length_app. lia.
Qed.

(** ** Lookups *)

Definition items_with (n : Z) (items : list item) : list item :=
  List.filter (fun it => item_number it =? n) items.

Lemma field_of_number it : f_number (field_of it) = item_number it.
Proof. by destruct it as [f []|]. Qed.

(** The invariant of a [FieldList]: [push] writes below its capacity. *)
Definition fl_ok (l : FieldList) : Prop :=
  Z.of_nat (length (fl_fields l)) <= fl_capacity l <= kMaximumFields.

Lemma fl_push_spec alloc l field :
  fl_ok l -> (forall n, alloc n = true) ->
  if Z.of_nat (length (fl_fields l)) =? kMaximumFields
  then exists s, fl_push alloc l field = Failed s
  else exists l', fl_push alloc l field = Value l' /\ fl_ok l' /\
       fl_fields l' = fl_fields l ++ [field].
Proof.
  unfold fl_ok, fl_push, kMaximumFields. intros Hok Halloc.
  destruct (_ =? 64 * 1024) eqn:E; [by eexists|].
  destruct (_ =? fl_capacity l) eqn:E1.
  - rewrite Halloc. cbn [negb]. eexists; split; [done|]. cbn. rewrite length_app. cbn.
    split; [|done]. destruct (fl_capacity l =? 0) eqn:E2; [change (8 <? 64 * 1024) with true; cbv iota; bprop; lia|].
    destruct (_ <? 64 * 1024) eqn:E3; bprop; lia.
  - eexists; split; [done|]. cbn. rewrite length_app. cbn. split; [|done]. bprop; lia.
Qed.

Lemma matching_loop_items alloc items : forall d n l fuel,
  items_wf items -> d + items_depth items <= kMaxRecursionDepth ->
  (forall n, alloc n = true) -> fl_ok l -> (length items < fuel)%nat ->
  if Z.of_nat (length (fl_fields l) + length (items_with n items)) <=? kMaximumFields
  then exists l', matching_loop alloc fuel (enc_items items) d n l = Value l' /\
       fl_fields l' = fl_fields l ++ map field_of (items_with n items)
  else exists s, matching_loop alloc fuel (enc_items items) d n l = Failed s.
Proof.
  induction items as [|it items IH]; intros d n l fuel Hwf Hd Halloc Hl Hfuel;
    (destruct fuel as [|fuel]; [simpl in *; lia|]).
  - cbn [items_with List.filter length map enc_items flat_map matching_loop].
    rewrite bool_decide_true by done. unfold fl_ok in Hl.
    assert (Z.of_nat (length (fl_fields l) + 0) <=? kMaximumFields = true) as -> by blia.
    exists l. by rewrite app_nil_r.
  - destruct (items_cons item_wf _ _ Hwf) as [Hit Hwf'].
    pose proof (items_depth_nonneg items). unfold items_depth in *. cbn [foldr length] in *.
    cbn [enc_items flat_map matching_loop]. rewrite bool_decide_false.
    2: { intros Hn. apply app_eq_nil in Hn as [Hn _]. by apply (enc_item_nonempty it). }
    rewrite next_item by (done || lia). cbn [pbind]. rewrite field_of_number.
    cbn [items_with List.filter]. fold (items_with n items).
    destruct (item_number it =? n) eqn:E.
    + pose proof (fl_push_spec alloc l (field_of it) Hl Halloc) as Hpush.
      unfold fl_ok in Hl. destruct (_ =? kMaximumFields) eqn:E1.
      * destruct Hpush as [s ->]. cbn [pbind length].
        assert (_ <=? kMaximumFields = false) as -> by (bprop; lia). by eexists.
      * destruct Hpush as (l' & -> & Hl' & Hfields). cbn [pbind map].
        specialize (IH d n l' fuel Hwf' ltac:(lia) Halloc Hl' ltac:(lia)).
        rewrite Hfields, length_app in IH. cbn [length] in *.
        rewrite <-app_assoc in IH. cbn [app] in IH.
        by replace (length (fl_fields l) + S (length (items_with n items)))%nat
          with (length (fl_fields l) + 1 + length (items_with n items))%nat by lia.
    + cbn [pbind]. apply IH; done || lia.
Qed.

Lemma items_length items : items_wf items -> (length items <= length (enc_items items))%nat.
Proof.
  induction items as [|it items IH]; intros Hwf; [done|].
  destruct (items_cons item_wf _ _ Hwf) as [Hit Hwf']. specialize (IH Hwf').
  pose proof (enc_item_nonempty it Hit). unfold enc_items in *. cbn [flat_map length].
  rewrite length_app. destruct (enc_item it); [done|simpl; lia].
Qed.

(** ** Every read consumes a prefix of its input, and no loop runs out of fuel *)

(** The failure of a model that ran out of fuel; no error of the source has it. *)
Definition out_of_fuel {A} (m : PjExpected A) : Prop := m = perr "".

Definition shrinks {A} (r : bytes) (m : PjExpected (A * bytes)) : Prop :=
  match m with
  | Value (_, r') => exists pre, r = pre ++ r' /\ pre <> []
  | Failed _ => ~ out_of_fuel m
  end.

Lemma varint_from_shrinks n i value r : shrinks r (readVarint_from n i value r).
Proof.
  revert i value r. induction n as [|n IH]; intros i value r; [unfold shrinks; cbn; by intros [=]|].
  destruct r as [|b r]; cbn [readVarint_from]; [by intros [=]|].
  destruct (_ && _)%bool; [by intros [=]|].
  destruct (_ =? 0); [by exists [b]|].
  specialize (IH (i + 1) (Z.lor value (wrap 64 (Z.shiftl (Z.land (b2z b) 127) (i * 7)))) r).
  unfold shrinks in *. destruct (readVarint_from _ _ _ r) as [[v r']|s]; [|done].
  destruct IH as (pre & -> & _). by exists (b :: pre).
Qed.

Lemma varint_shrinks r : shrinks r (readVarint r).
Proof. apply varint_from_shrinks. Qed.

Lemma skipValue_shrinks r w :
  match skipValue r w with
  | Value r' => exists pre, r = pre ++ r'
  | Failed _ => ~ out_of_fuel (skipValue r w)
  end.
Proof.
  destruct w; cbn [skipValue]; try (by intros [=]).
  - pose proof (varint_shrinks r) as H. destruct (readVarint r) as [[v r']|s]; cbn in *.
    + destruct H as (pre & -> & _). by exists pre.
    + intros [=->]. by apply H.
  - destruct (_ <? _)%nat; [by intros [=]|]. exists (take 8 r). by rewrite take_drop.
  - pose proof (varint_shrinks r) as H. destruct (readVarint r) as [[v r']|s]; cbn in *; [|by intros [=]].
    destruct H as (pre & -> & _). destruct (_ >? _); [by intros [=]|].
    exists (pre ++ take (Z.to_nat v) r'). by rewrite <-app_assoc, take_drop.
  - destruct (_ <? _)%nat; [by intros [=]|]. exists (take 4 r). by rewrite take_drop.
Qed.

Lemma skipGroup_shrinks n : forall fuel r g d,
  (length r <= n)%nat -> (length r < fuel)%nat ->
  match skipGroup fuel r g d with
  | Value r' => exists pre, r = pre ++ r' /\ pre <> []
  | Failed _ => ~ out_of_fuel (skipGroup fuel r g d)
  end.
Proof.
  induction n as [n IH] using lt_wf_ind. intros fuel r g d Hn Hfuel.
  destruct fuel as [|fuel]; [lia|]. cbn [skipGroup].
  destruct (d >? _); [by intros [=]|]. case_bool_decide as Hr; [by intros [=]|].
  pose proof (varint_shrinks r) as H. destruct (readVarint r) as [[key r1]|s]; cbn [pbind];
    [|intros [=->]; by apply H].
  destruct H as (pre & -> & Hpre). rewrite length_app in *.
  assert (0 < length pre)%nat by (destruct pre; [done|simpl; lia]).
  assert (forall g d r2, (exists p, r1 = p ++ r2) ->
    match skipGroup fuel r2 g d with
    | Value r' => exists p, pre ++ r1 = p ++ r' /\ p <> []
    | Failed _ => ~ out_of_fuel (skipGroup fuel r2 g d)
    end) as Hrec.
  { intros g' d' r2 [p ->]. rewrite length_app in *.
    specialize (IH (length r2) ltac:(lia) fuel r2 g' d' ltac:(lia) ltac:(lia)).
    destruct (skipGroup fuel r2 g' d'); [|done]. destruct IH as (p' & -> & Hp').
    exists (pre ++ p ++ p'). rewrite <-!app_assoc. split; [done|].
    destruct pre; [simpl in *; lia|done]. }
  destruct (wire_type_of _) as [w|]; [|by intros [=]].
  destruct (bad_number _); [by intros [=]|].
  assert (forall m, m = skipValue r1 w ->
    match pbind m (fun r2 => skipGroup fuel r2 g d) with
    | Value r' => exists p, pre ++ r1 = p ++ r' /\ p <> []
    | Failed _ => ~ out_of_fuel (pbind m (fun r2 => skipGroup fuel r2 g d))
    end) as Hvalue.
  { intros m ->. pose proof (skipValue_shrinks r1 w) as Hs.
    destruct (skipValue r1 w) as [r2|s]; [by apply Hrec|done]. }
  destruct w; try (by apply Hvalue).
  - pose proof (Hrec (Z.shiftr key 3) (d + 1) r1 (ex_intro _ [] eq_refl)) as Hin.
    pose proof (IH (length r1) ltac:(lia) fuel r1 (Z.shiftr key 3) (d + 1) ltac:(lia) ltac:(lia)) as H1.
    destruct (skipGroup fuel r1 _ _) as [r2|s]; cbn [pbind]; [|done].
    destruct H1 as (p & -> & _). apply Hrec. by exists p.
  - destruct (_ =? g); [by exists pre|by intros [=]].
Qed.

(** The bytes of a field are a block of the input it was read from. *)
Definition slice_of (b r : bytes) : Prop := exists pre post, r = pre ++ b ++ post.

Lemma slice_nil r : slice_of [] r.
Proof. by exists [], r. Qed.

Lemma slice_app b p r : slice_of b r -> slice_of b (p ++ r).
Proof. intros (x & y & ->). exists (p ++ x), y. by rewrite <-app_assoc. Qed.

Lemma take_slice n r : slice_of (take n r) r.
Proof. exists [], (drop n r). by rewrite app_nil_l, take_drop. Qed.

Lemma skipGroup_enough r g d :
  match skipGroup (S (length r)) r g d with
  | Value r' => exists pre, r = pre ++ r' /\ pre <> []
  | Failed _ => ~ out_of_fuel (skipGroup (S (length r)) r g d)
  end.
Proof. apply (skipGroup_shrinks (length r)); lia. Qed.

Lemma nextField_sound r d :
  match nextField r d with
  | Value (field, r') =>
    slice_of (f_bytes field) r /\ exists pre, r = pre ++ r' /\ pre <> []
  | Failed _ => ~ out_of_fuel (nextField r d)
  end.
Proof.
  unfold nextField. pose proof (varint_shrinks r) as H.
  destruct (readVarint r) as [[key r1]|s]; cbn [pbind]; [|intros [=->]; by apply H].
  destruct H as (pre & -> & Hpre). destruct (bad_number _); [by intros [=]|].
  assert (forall b r2, slice_of b r1 -> (exists p, r1 = p ++ r2) ->
    slice_of b (pre ++ r1) /\ exists p, pre ++ r1 = p ++ r2 /\ p <> []) as Hdone.
  { intros b r2 Hb [p Hp]. split; [by apply slice_app|]. exists (pre ++ p).
    rewrite Hp, <-app_assoc. split; [done|]. by destruct pre. }
  assert (forall n, exists p, r1 = p ++ drop n r1) as Hdrop.
  { intros n. exists (take n r1). by rewrite take_drop. }
  destruct (wire_type_of _) as [[]|]; try (by intros [=]).
  - pose proof (varint_shrinks r1) as H1.
    destruct (readVarint r1) as [[v r2]|s]; cbn [pbind]; [|intros [=->]; by apply H1].
    destruct H1 as (p & -> & _). apply Hdone; [apply slice_nil|by exists p].
  - destruct (_ <? _)%nat; [by intros [=]|]. apply Hdone; [apply slice_nil|apply Hdrop].
  - pose proof (varint_shrinks r1) as H1.
    destruct (readVarint r1) as [[v r2]|s]; cbn [pbind]; [|intros [=->]; by apply H1].
    destruct H1 as (p & Hp & _). destruct (_ >? _); [by intros [=]|]. apply Hdone.
    + rewrite Hp. apply slice_app, take_slice.
    + exists (p ++ take (Z.to_nat v) r2). by rewrite <-app_assoc, take_drop.
  - pose proof (skipGroup_enough r1 (wrap 32 (Z.shiftr key 3)) (d + 1)) as H1.
    destruct (skipGroup _ r1 _ _) as [r2|s]; cbn [pbind]; [|intros [=->]; by apply H1].
    destruct H1 as (p & Hp & _). apply Hdone; [apply slice_nil|by exists p].
  - destruct (_ <? _)%nat; [by intros [=]|]. apply Hdone; [apply slice_nil|apply Hdrop].
Qed.

Lemma fl_push_fields alloc l field :
  fl_ok l ->
  match fl_push alloc l field with
  | Value l' => fl_ok l' /\ fl_fields l' = fl_fields l ++ [field]
  | Failed _ => ~ out_of_fuel (fl_push alloc l field)
  end.
Proof.
  unfold fl_ok, fl_push, kMaximumFields. intros Hl.
  destruct (_ =? 64 * 1024) eqn:E; [by intros [=]|].
  destruct (_ =? fl_capacity l) eqn:E1; [destruct (alloc _); cbn [negb]; [|by intros [=]]|];
    cbn; rewrite length_app; cbn; (split; [|done]).
  - destruct (fl_capacity l =? 0) eqn:E2.
    + change (8 <? 64 * 1024) with true; cbv iota; bprop; lia.
    + destruct (_ <? 64 * 1024) eqn:E3; bprop; lia.
  - bprop; lia.
Qed.

Lemma matching_loop_sound alloc message fuel : forall r d n l,
  (length r < fuel)%nat -> (exists p, message = p ++ r) -> fl_ok l ->
  Forall (fun field => slice_of (f_bytes field) message /\ f_number field = n) (fl_fields l) ->
  match matching_loop alloc fuel r d n l with
  | Value l' => fl_ok l' /\
    Forall (fun field => slice_of (f_bytes field) message /\ f_number field = n) (fl_fields l')
  | Failed _ => ~ out_of_fuel (matching_loop alloc fuel r d n l)
  end.
Proof.
  induction fuel as [|fuel IH]; intros r d n l Hfuel [p0 Hm] Hl Hall; [lia|].
  cbn [matching_loop]. destruct (bool_decide (r = [])); [done|].
  pose proof (nextField_sound r d) as H.
  destruct (nextField r d) as [[field r']|s]; cbn [pbind]; [|intros [=->]; by apply H].
  destruct H as (Hslice & pre & Hr & Hpre).
  assert (length r' < fuel)%nat as Hfuel'.
  { rewrite Hr, length_app in Hfuel. destruct pre; [done|simpl in *; lia]. }
  assert (exists p, message = p ++ r') as Hm'.
  { exists (p0 ++ pre). by rewrite <-app_assoc, <-Hr. }
  destruct (f_number field =? n) eqn:E; cbn [pbind]; [|by apply IH].
  pose proof (fl_push_fields alloc l field Hl) as Hpush.
  destruct (fl_push alloc l field) as [l'|s]; cbn [pbind]; [|intros [=->]; by apply Hpush].
  destruct Hpush as [Hl' Hfields]. apply IH; try done. rewrite Hfields.
  apply Forall_app. split; [done|]. constructor; [|done]. split; [|by apply Z.eqb_eq].
  rewrite Hm. by apply slice_app.
Qed.

(** ** ZigZag *)

Definition zigzag_encode (v : Z) : Z := if v >=? 0 then 2 * v else - 2 * v - 1.

Lemma zigzag_decode_spec u :
  in_u 64 u -> zigzag_decode u = if u mod 2 =? 0 then u / 2 else - (u / 2) - 1.
Proof.
  intros Hu. unfold zigzag_decode. assert (Z.land u 1 = u mod 2) as -> by exact (Z.land_ones u 1 ltac:(lia)).
  rewrite Z.shiftr_div_pow2 by lia. change (2 ^ 1) with 2.
  pose proof (Z.mod_pos_bound u 2 ltac:(lia)). unfold in_u in Hu.
  assert (in_s 64 (u / 2)) as Hs.
  { unfold in_s. change (2 ^ (64 - 1)) with 9223372036854775808.
    change (2 ^ 64) with 18446744073709551616 in Hu. pose proof (Z.div_mod u 2). lia. }
  destruct (u mod 2 =? 0) eqn:E.
  - apply Z.eqb_eq in E. rewrite E. change (wrap 64 (0 - 0)) with 0. rewrite Z.lxor_0_r.
    rewrite <-(to_signed_wrap 64 (u / 2)) at 2 by (done || lia).
    rewrite wrap_small; [done|]. unfold in_u, in_s in *. change (2 ^ 64) with (2 * 2 ^ 63) in *.
    change (2 ^ (64 - 1)) with (2 ^ 63) in *. split; [apply Z.div_pos; lia|lia].
  - assert (u mod 2 = 1) as -> by lia. change (wrap 64 (0 - 1)) with (Z.ones 64).
    assert (Z.lxor (u / 2) (Z.ones 64) = wrap 64 (- (u / 2) - 1)) as ->.
    { replace (- (u / 2) - 1) with (Z.lnot (u / 2)) by (unfold Z.lnot; lia).
      unfold wrap. rewrite <-Z.land_ones by lia. apply Z.bits_inj'. intros i Hi.
      rewrite Z.lxor_spec, Z.land_spec, Z.lnot_spec by done.
      destruct (Z.lt_ge_cases i 64).
      - rewrite Z.ones_spec_low by lia. by rewrite andb_true_r, xorb_true_r.
      - rewrite Z.ones_spec_high by lia. rewrite andb_false_r, xorb_false_r.
        destruct (Z.eq_dec (u / 2) 0) as [->|]; [apply Z.bits_0|].
        apply Z.bits_above_log2; [apply Z.div_pos; lia|].
        apply Z.log2_lt_pow2; [pose proof (Z.div_pos u 2); lia|].
        unfold in_s in Hs. apply Z.lt_le_trans with (2 ^ 63); [apply Hs|].
        apply Z.pow_le_mono_r; lia. }
    apply to_signed_wrap; [lia|]. unfold in_s in *. lia.
Qed.

Lemma zigzag_encode_range v : in_s 64 v -> in_u 64 (zigzag_encode v).
Proof.
  unfold in_s, in_u, zigzag_encode. change (2 ^ (64 - 1)) with 9223372036854775808.
  change (2 ^ 64) with 18446744073709551616. intros Hv. destruct (v >=? 0) eqn:E; bprop; lia.
Qed.

Lemma zigzag_decode_encode v : in_s 64 v -> zigzag_decode (zigzag_encode v) = v.
Proof.
  intros Hv. rewrite zigzag_decode_spec by (by apply zigzag_encode_range). unfold zigzag_encode.
  destruct (v >=? 0) eqn:E; bprop.
  - assert ((2 * v) mod 2 = 0) as -> by (rewrite Z.mul_comm; apply Z.mod_mul; lia).
    cbn [Z.eqb]. rewrite Z.mul_comm. apply Z.div_mul. lia.
  - replace (-2 * v - 1) with (1 + (- v - 1) * 2) by lia.
    rewrite Z.mod_add, Z.div_add by lia. change (1 mod 2 =? 0) with false. cbv iota.
    change (1 / 2) with 0. lia.
Qed.

(** ** Repeated numbers, packed or not *)

(** The two encodings of (some of) the values of a repeated integer field. *)
Inductive chunk : Type :=
  | CSingle (v : Z)
  | CPacked (values : list Z).

Definition packed_bytes (values : list Z) : bytes := flat_map (fun v => appendVarint v []) values.

Definition chunk_value (c : chunk) : wire_value :=
  match c with CSingle v => WVarint v | CPacked vs => WBytes (packed_bytes vs) end.

Definition chunk_values (c : chunk) : list Z :=
  match c with CSingle v => [v] | CPacked vs => vs end.

Lemma appendVarint_ne v : in_u 64 v -> appendVarint v [] <> [].
Proof. intros Hv Hn. pose proof (varint_read v [] Hv) as H. by rewrite Hn in H. Qed.

Lemma unpack_packed values : forall fuel acc,
  Forall (in_u 64) values -> (length values < fuel)%nat ->
  unpack_varints fuel (packed_bytes values) acc = Value (acc ++ values).
Proof.
  induction values as [|v values IH]; intros fuel acc Hall Hfuel;
    (destruct fuel as [|fuel]; [simpl in *; lia|]); cbn [unpack_varints].
  { rewrite bool_decide_true by done. by rewrite app_nil_r. }
  apply Forall_cons in Hall as [Hv Hall]. cbn [packed_bytes flat_map].
  rewrite bool_decide_false by (intros Hn; apply app_eq_nil in Hn as [Hn _]; by apply (appendVarint_ne v)).
  rewrite varint_read by done. cbn [pbind length] in *. fold (packed_bytes values).
  rewrite IH by (done || lia). by rewrite <-app_assoc.
Qed.

Lemma packed_length values :
  Forall (in_u 64) values -> (length values <= length (packed_bytes values))%nat.
Proof.
  induction 1 as [|v values Hv Hall IH]; [done|]. cbn [packed_bytes flat_map length].
  rewrite length_app. pose proof (appendVarint_ne v Hv). fold (packed_bytes values).
  destruct (appendVarint v []); [done|simpl; lia].
Qed.

Lemma collect_chunks n chunks acc :
  Forall (fun c => Forall (in_u 64) (chunk_values c)) chunks ->
  collect_varints (map (fun c => field_of (IValue n (chunk_value c))) chunks) acc =
  Value (acc ++ concat (map chunk_values chunks)).
Proof.
  intros Hall. revert acc. induction Hall as [|c chunks Hc Hall IH]; intros acc.
  { cbn. by rewrite app_nil_r. }
  cbn [map collect_varints concat]. destruct c as [v|vs];
    cbn [field_of chunk_value f_wire_type f_integer f_bytes chunk_values] in *.
  - rewrite IH, <-app_assoc. done.
  - rewrite unpack_packed by (try done; pose proof (packed_length vs Hc); lia).
    cbn [pbind]. by rewrite IH, <-app_assoc.
Qed.

(** * Properties *)

Lemma matching_items alloc items d n :
  items_wf items -> d + items_depth items <= kMaxRecursionDepth ->
  (forall size, alloc size = true) -> field_ok n ->
  Z.of_nat (length (items_with n items)) <= kMaximumFields ->
  exists l, matching alloc (mkProtoReader (enc_items items) d) n = Value l /\
    fl_fields l = map field_of (items_with n items).
Proof.
  intros Hwf Hd Halloc Hn Hcount. unfold matching. destruct (number_ok n Hn) as [-> _].
  cbn [pr_message pr_depth].
  assert (fl_ok fl_empty) as Hempty by (unfold fl_ok, fl_empty, kMaximumFields; cbn; lia).
  pose proof (items_length items Hwf).
  pose proof (matching_loop_items alloc items d n fl_empty (S (length (enc_items items))) Hwf Hd
    Halloc Hempty ltac:(lia)) as H1.
  cbn [fl_empty fl_fields length Nat.add app] in H1.
  rewrite (proj2 (Z.leb_le _ _) Hcount) in H1. exact H1.
Qed.

(** C3 The parser modules' protobuf reader understands what the builtin codecs'
    writer writes: over any sequence of well-formed fields and (nested) groups
    whose groups stay within the recursion limit, [matching] reports exactly
    the fields with the given number, in order, with their values; a scalar
    lookup sees the last of them, and none is "protobuf field is absent". *)
Theorem reader_reads_written alloc items d n :
  items_wf items -> d + items_depth items <= kMaxRecursionDepth ->
  (forall size, alloc size = true) -> field_ok n ->
  Z.of_nat (length (items_with n items)) <= kMaximumFields ->
  let p := mkProtoReader (enc_items items) d in
  (exists l, matching alloc p n = Value l /\ fl_fields l = map field_of (items_with n items)) /\
  last_field alloc p n =
    match last (items_with n items) with
    | Some it => Value (field_of it)
    | None => perr "protobuf field is absent"
    end.
Proof.
  intros Hwf Hd Halloc Hn Hcount p.
  destruct (matching_items alloc items d n Hwf Hd Halloc Hn Hcount) as (l & Hl & Hfields).
  split; [by exists l|]. unfold last_field, p, fl_back. rewrite Hl. cbn [pbind].
  rewrite Hfields. rewrite fmap_last. by destruct (last (items_with n items)).
Qed.

Definition sample_items : list item :=
  [IValue 1 (WVarint 300); IGroup 2 [IValue 1 (WVarint 7); IGroup 3 []];
   IValue 4 (WBytes (str "pj")); IValue 1 (WVarint 5)].

Lemma sample_items_wf : items_wf sample_items.
Proof. cbn. unfold field_ok, in_u, fits. repeat split; vm_compute; done. Qed.

Example reader_reads_written_witness :
  last_field (fun _ => true) (mkProtoReader (enc_items sample_items) 62) 1
  = Value (mkField 1 pVarint 5 []).
Proof.
  exact (proj2 (reader_reads_written (fun _ => true) sample_items 62 1 sample_items_wf
    ltac:(vm_compute; discriminate) ltac:(done) ltac:(vm_compute; done)
    ltac:(vm_compute; discriminate))).
Defined.

(** On any message whatever, at any depth and with allocations failing at
    will, a lookup terminates (its loops and the group skipper need no more
    steps than there are bytes), reports only fields with the number asked for,
    whose bytes are a block of the message, and its list never outgrows the
    array it allocated nor the limit of 65536 fields. *)
Theorem lookup_safe alloc p n :
  match matching alloc p n with
  | Value l =>
    Z.of_nat (length (fl_fields l)) <= fl_capacity l <= kMaximumFields /\
    Forall (fun field => slice_of (f_bytes field) (pr_message p) /\ f_number field = n)
      (fl_fields l)
  | Failed _ => ~ out_of_fuel (matching alloc p n)
  end.
Proof.
  unfold matching. destruct (bad_number n); [by intros [=]|].
  apply matching_loop_sound; [lia|by exists []| |constructor].
  unfold fl_ok, fl_empty, kMaximumFields. cbn. lia.
Qed.

(** The two varint decoders of the SDK, [ProtoReader::readVarint] (a bounded
    loop over byte indices) and the builtin codecs' [Reader::readVarint] (a loop
    over shifts), accept the same encodings, with the same value and remainder. *)
Theorem varint_readers_agree r v r' :
  ProtoReader.readVarint r = Value (v, r') <-> ProtobufWire.readVarint r = (Some v, r').
Proof. apply readVarint_agree. Qed.

(** ZigZag: [zigzag] decodes every pattern to the signed integer it stands
    for (an even [u] is [u / 2], an odd one [-(u / 2) - 1]), which inverts the
    encoding of every [int64_t]. *)
Theorem zigzag_roundtrip u v :
  in_u 64 u -> in_s 64 v ->
  zigzag_decode u = (if u mod 2 =? 0 then u / 2 else - (u / 2) - 1) /\
  in_u 64 (zigzag_encode v) /\ zigzag_decode (zigzag_encode v) = v.
Proof.
  intros Hu Hv. split; [by apply zigzag_decode_spec|].
  split; [by apply zigzag_encode_range|by apply zigzag_decode_encode].
Qed.

Example zigzag_roundtrip_witness :
  zigzag_decode 3 = -2 /\ zigzag_decode (zigzag_encode INT64_MIN) = INT64_MIN.
Proof.
  destruct (zigzag_roundtrip 3 INT64_MIN) as (H & _ & H1);
    [unfold in_u; split; done|unfold in_s; split; done|split; [exact H|exact H1]].
Defined.

(** [repeatedVarints] accepts every mixture of packed and unpacked encodings of
    a repeated integer field, between other fields, and returns the values in
    the order written. *)
Theorem repeated_varints_any_packing alloc items d n chunks :
  items_wf items -> d + items_depth items <= kMaxRecursionDepth ->
  (forall size, alloc size = true) -> field_ok n ->
  Z.of_nat (length (items_with n items)) <= kMaximumFields ->
  items_with n items = map (fun c => IValue n (chunk_value c)) chunks ->
  Forall (fun c => Forall (in_u 64) (chunk_values c)) chunks ->
  repeatedVarints alloc (mkProtoReader (enc_items items) d) n
  = Value (concat (map chunk_values chunks)).
Proof.
  intros Hwf Hd Halloc Hn Hcount Hchunks Hall.
  destruct (matching_items alloc items d n Hwf Hd Halloc Hn Hcount) as (l & Hl & Hfields).
  unfold repeatedVarints. rewrite Hl. cbn [pbind]. rewrite Hfields, Hchunks, List.map_map.
  by rewrite collect_chunks.
Qed.

Definition sample_repeated : list item :=
  [IValue 5 (chunk_value (CSingle 300)); IValue 4 (WVarint 1);
   IValue 5 (chunk_value (CPacked [1; UINT64_MAX]))].

Lemma sample_repeated_wf : items_wf sample_repeated.
Proof.
  cbn [items_wf foldr item_wf sample_repeated value_wf chunk_value].
  unfold field_ok, in_u, fits. repeat split; vm_compute; done.
Qed.

Lemma sample_chunks_ok :
  Forall (fun c => Forall (in_u 64) (chunk_values c)) [CSingle 300; CPacked [1; UINT64_MAX]].
Proof. repeat constructor; vm_compute; done. Qed.

Example repeated_varints_any_packing_witness :
  repeatedVarints (fun _ => true) (mkProtoReader (enc_items sample_repeated) 0) 5
  = Value [300; 1; UINT64_MAX].
Proof.
  apply (repeated_varints_any_packing (fun _ => true) sample_repeated 0 5
    [CSingle 300; CPacked [1; UINT64_MAX]]).
  - exact sample_repeated_wf.
  - vm_compute; discriminate.
  - intros _. reflexivity.
  - vm_compute. done.
  - vm_compute. discriminate.
  - reflexivity.
  - exact sample_chunks_ok.
Defined.
