(* ===== verification/ProtoSchema.v ===== *)
(** * ProtoSchema: the message types of a [FileDescriptorSet]

    The decoding half of [ProtoFieldLocator]
    ([pj_base/include/pj_base/parser_module/proto_field_locator.hpp]) over the
    reader of [ProtoReader.v].  A locator whose decoding failed answers every
    call with its status, so a failed decoding keeps no messages.  The strings
    and vectors of the locator do not run out of memory; the reader's field lists
    may ([alloc]). *)

From Stdlib Require Import Sorting.Sorted.
From stdpp Require Import sorting.
From S2P Require Import Prelude Text ParserCore ProtoReader ProtoMessages.

Record ProtoSchemaField : Set := mkSchemaField {
  sf_name : bytes; sf_number : Z; sf_type : Z; sf_type_name : bytes; sf_repeated : bool }.

Record ProtoSchemaMessage : Set := mkSchemaMessage {
  full_name : bytes; sm_fields : list ProtoSchemaField; top_level : bool }.

#[export] Instance schema_field_eq_dec : EqDecision ProtoSchemaField.
Proof. solve_decision. Defined.
#[export] Instance schema_message_eq_dec : EqDecision ProtoSchemaMessage.
Proof. solve_decision. Defined.

Definition normalizeProtoTypeName (name : bytes) : bytes :=
  match name with
  | c :: rest => if byte_eqb c (ch ".") then rest else name
  | [] => []
  end.

(** [ProtoReader(bytes)]. *)
Definition proto_reader (message : bytes) : ProtoReader := mkProtoReader message 0.

Definition is_bytes (field : Field) : bool := wire_eqb (f_wire_type field) pLengthDelimited.

(** The elements of a vector, each handled until one fails. *)
Fixpoint each {A St} (f : St -> A -> PjExpected St) (st : St) (l : list A) : PjExpected St :=
  match l with
  | [] => Value st
  | a :: l' => let+ st := f st a in each f st l'
  end.

(** [std::sort] leaves no element before a smaller one. *)
Definition name_not_after (lhs rhs : ProtoSchemaField) : Prop :=
  is_lt (string_cmp (sf_name rhs) (sf_name lhs)) = false.
Definition number_not_after (lhs rhs : ProtoSchemaField) : Prop :=
  (sf_number rhs <? sf_number lhs) = false.

#[export] Instance name_not_after_dec : RelDecision name_not_after.
Proof. intros x y. unfold name_not_after. apply _. Defined.
#[export] Instance number_not_after_dec : RelDecision number_not_after.
Proof. intros x y. unfold number_not_after. apply _. Defined.

(** Two neighbours are equal. *)
Fixpoint repeats {A} (eqb : A -> A -> bool) (l : list A) : bool :=
  match l with
  | a :: ((b :: _) as l') => eqb a b || repeats eqb l'
  | _ => false
  end.

Definition same_name (a b : ProtoSchemaField) : bool := bytes_eqb (sf_name a) (sf_name b).
Definition same_number (a b : ProtoSchemaField) : bool := sf_number a =? sf_number b.

Definition order_fields (decoded : list ProtoSchemaField) : PjExpected (list ProtoSchemaField) :=
  let by_name := merge_sort name_not_after decoded in
  if repeats same_name by_name
  then perr "DescriptorProto contains a duplicate field name or number"
  else
    let by_number := merge_sort number_not_after by_name in
    if repeats same_number by_number
    then perr "DescriptorProto contains a duplicate field name or number"
    else Value by_number.

(** [parent + "." + name]. *)
Definition qualified (parent name : bytes) : bytes :=
  if bool_decide (parent = []) then name else parent ++ str "." ++ name.

Definition has_message (name : bytes) (messages : list ProtoSchemaMessage) : bool :=
  existsb (fun existing => bytes_eqb (full_name existing) name) messages.

Section Decode.
Context (alloc : Z -> bool).

Definition parseField (data : bytes) : PjExpected ProtoSchemaField :=
  let field := proto_reader data in
  match last_field alloc field 1, pr_varint alloc field 3, pr_varint alloc field 4,
    pr_varint alloc field 5 with
  | Value name, Value number, Value label, Value type =>
    if negb (is_bytes name) || bool_decide (f_bytes name = [])
    then perr "FieldDescriptorProto is missing a required field"
    else if (number =? 0) || (number >? 536870911) || (label =? 0) || (label >? 3)
         || (type =? 0) || (type >? 18) || (type =? 10)
    then perr "FieldDescriptorProto uses an unsupported field number, label, or type"
    else
      let result type_name :=
        Value (mkSchemaField (f_bytes name) (wrap 32 number) (wrap 32 type) type_name (label =? 3)) in
      if wrap 32 type =? 11 then
        match last_field alloc field 6 with
        | Value type_name =>
          if negb (is_bytes type_name) then perr "message FieldDescriptorProto is missing type_name"
          else result (normalizeProtoTypeName (f_bytes type_name))
        | Failed _ => perr "message FieldDescriptorProto is missing type_name"
        end
      else result []
  | _, _, _, _ => perr "FieldDescriptorProto is missing a required field"
  end.

Definition parse_field_entry (decoded : list ProtoSchemaField) (field : Field)
  : PjExpected (list ProtoSchemaField) :=
  if negb (is_bytes field) then perr "DescriptorProto field entry is not a message"
  else let+ f := parseField (f_bytes field) in Value (decoded ++ [f]).

(** The message is appended before its nested messages.  Fuel bounds the nesting;
    [parseMessage_fuel] shows that it is never what ends the recursion. *)
Fixpoint parseMessage (fuel : nat) (messages : list ProtoSchemaMessage) (data parent : bytes)
    (top : bool) (depth : Z) : PjExpected (list ProtoSchemaMessage) :=
  match fuel with
  | O => perr ""
  | S fuel' =>
    if depth >? kMaxRecursionDepth then perr "protobuf descriptor nesting depth exceeds 64"
    else
      let message := proto_reader data in
      match last_field alloc message 1 with
      | Failed _ => perr "DescriptorProto is missing its name"
      | Value name_field =>
        if negb (is_bytes name_field) || bool_decide (f_bytes name_field = [])
        then perr "DescriptorProto is missing its name"
        else
          let name := qualified parent (f_bytes name_field) in
          if has_message name messages
          then perr "FileDescriptorSet contains a duplicate message name"
          else
            let+ fields := matching alloc message 2 in
            let+ decoded := each parse_field_entry [] (fl_fields fields) in
            let+ ordered := order_fields decoded in
            let+ nested := matching alloc message 3 in
            each (fun messages declaration =>
                    if negb (is_bytes declaration)
                    then perr "DescriptorProto nested_type is not a message"
                    else parseMessage fuel' messages (f_bytes declaration) name false (depth + 1))
              (messages ++ [mkSchemaMessage name ordered top]) (fl_fields nested)
      end
  end.

(** Nesting depths 1 to 64, and the call that reports the 65th. *)
Definition message_fuel : nat := 65.

Definition parse_declaration (package : bytes) (messages : list ProtoSchemaMessage)
    (declaration : Field) : PjExpected (list ProtoSchemaMessage) :=
  if negb (is_bytes declaration) then perr "FileDescriptorProto message_type is not a message"
  else parseMessage message_fuel messages (f_bytes declaration) package true 1.

Definition file_package (packages : FieldList) : PjExpected bytes :=
  match fl_back packages with
  | None => Value []
  | Some field =>
    if negb (is_bytes field) then perr "FileDescriptorProto package is not a string"
    else Value (f_bytes field)
  end.

Definition parseFile (messages : list ProtoSchemaMessage) (data : bytes)
  : PjExpected (list ProtoSchemaMessage) :=
  let file := proto_reader data in
  let+ packages := matching alloc file 2 in
  let+ package := file_package packages in
  let+ declarations := matching alloc file 4 in
  each (parse_declaration package) messages (fl_fields declarations).

Definition parse_file_entry (messages : list ProtoSchemaMessage) (file_field : Field)
  : PjExpected (list ProtoSchemaMessage) :=
  if negb (is_bytes file_field) then perr "FileDescriptorSet file entry is not a message"
  else parseFile messages (f_bytes file_field).

(** The index of the first message a test accepts. *)
Fixpoint find_index (test : ProtoSchemaMessage -> bool) (messages : list ProtoSchemaMessage)
  : option nat :=
  match messages with
  | [] => None
  | m :: messages' => if test m then Some O else option_map S (find_index test messages')
  end.

Definition findMessage (messages : list ProtoSchemaMessage) (name : bytes) : PjExpected nat :=
  match find_index (fun m => bytes_eqb (full_name m) name) messages with
  | Some index => Value index
  | None => perr "protobuf message type is absent from FileDescriptorSet"
  end.

(** The index of the last top-level message, and how many there are. *)
Fixpoint scan_roots (messages : list ProtoSchemaMessage) (index root_index root_count : nat)
  : nat * nat :=
  match messages with
  | [] => (root_index, root_count)
  | m :: messages' =>
    if top_level m then scan_roots messages' (S index) index (S root_count)
    else scan_roots messages' (S index) root_index root_count
  end.

Definition select_root (messages : list ProtoSchemaMessage) (root_type : bytes) : PjExpected nat :=
  if bool_decide (root_type = []) then
    let '(root_index, root_count) := scan_roots messages 0 0 0 in
    if negb (root_count =? 1)%nat
    then perr "protobuf root type is required when FileDescriptorSet has multiple top-level messages"
    else Value root_index
  else findMessage messages (normalizeProtoTypeName root_type).

Record ProtoFieldLocator : Set := mkLocator {
  messages_ : list ProtoSchemaMessage; root_index_ : nat; status_ : Status }.

Definition parse (descriptor_set : ByteView) (root_type : bytes)
  : PjExpected (list ProtoSchemaMessage * nat) :=
  if bool_decide (bv_data descriptor_set = None) || (bv_size descriptor_set =? 0)
  then perr "FileDescriptorSet is empty"
  else
    let+ files := matching alloc (proto_reader (view_bytes descriptor_set)) 1 in
    if bool_decide (fl_fields files = []) then perr "FileDescriptorSet contains no files"
    else
      let+ messages := each parse_file_entry [] (fl_fields files) in
      let+ root := select_root messages root_type in
      Value (messages, root).

(** The constructor. *)
Definition new_locator (descriptor_set : ByteView) (root_type : bytes) : ProtoFieldLocator :=
  match parse descriptor_set root_type with
  | Value (messages, root) => mkLocator messages root status_ok
  | Failed s => mkLocator [] 0 s
  end.
End Decode.

(** ** Sorting and neighbours *)

Lemma repeats_nodup {A K} (le : A -> A -> Prop) (key : A -> K) (eqb : A -> A -> bool) l :
  (forall a b, eqb a b = false -> key a <> key b) ->
  (forall a b c, le a b -> le b c -> key a = key c -> key a = key b) ->
  StronglySorted le l -> repeats eqb l = false -> NoDup (map key l).
Proof.
  intros Heq Hanti. induction l as [|a l IH]; intros Hs Hr; [constructor|].
  apply StronglySorted_inv in Hs as [Hs Ha]. cbn [map]. constructor.
  - intros Hin%list_elem_of_In%in_map_iff. destruct Hin as (c & Hk & Hin).
    destruct l as [|b l]; [done|]. cbn [repeats] in Hr. apply orb_false_iff in Hr as [Hab _].
    apply Heq in Hab. destruct Hin as [->|Hin]; [by rewrite Hk in Hab|].
    apply StronglySorted_inv in Hs as [_ Hb]. rewrite List.Forall_forall in Ha, Hb.
    apply Hab. apply (Hanti a b c); [apply Ha; by left|by apply Hb|done].
  - apply IH; [done|]. destruct l; [done|]. cbn [repeats] in Hr. by apply orb_false_iff in Hr as [_ Hr].
Qed.

Lemma names_nodup l :
  StronglySorted name_not_after l -> repeats same_name l = false -> NoDup (map sf_name l).
Proof.
  apply repeats_nodup.
  - intros a b H. by apply bytes_eqb_neq.
  - unfold name_not_after. intros a b c Hab Hbc Hac. rewrite <-Hac in Hbc.
    rewrite (cmp_flip (P:=fun _ => True) (sf_name a) (sf_name b)) in Hab by done.
    destruct (string_cmp (sf_name a) (sf_name b)) eqn:E; [by apply string_cmp_eq|done..].
Qed.

Lemma numbers_nodup l :
  StronglySorted number_not_after l -> repeats same_number l = false -> NoDup (map sf_number l).
Proof.
  apply repeats_nodup.
  - intros a b H. by apply Z.eqb_neq.
  - unfold number_not_after. intros a b c Hab Hbc Hac. bprop. lia.
Qed.

Lemma strictly_increasing l :
  StronglySorted number_not_after l -> NoDup (map sf_number l) -> StronglySorted Z.lt (map sf_number l).
Proof.
  induction 1 as [|f l Hs IH Hf]; intros Hn; [constructor|]. cbn in *.
  apply NoDup_cons in Hn as [Hf1 Hn]. constructor; [by apply IH|].
  apply List.Forall_forall. intros n (g & <- & Hg)%in_map_iff. rewrite List.Forall_forall in Hf.
  specialize (Hf g Hg). unfold number_not_after in Hf. bprop.
  assert (sf_number f <> sf_number g); [|lia]. intros E. apply Hf1. rewrite E.
  apply list_elem_of_In, in_map_iff. by exists g.
Qed.

#[export] Instance name_total : Total name_not_after.
Proof.
  intros x y. unfold name_not_after.
  rewrite (cmp_flip (P:=fun _ => True) (sf_name x) (sf_name y)) by done.
  destruct (string_cmp (sf_name x) (sf_name y)); cbn; auto.
Qed.
#[export] Instance number_total : Total number_not_after.
Proof. intros x y. unfold number_not_after. rewrite !Z.ltb_ge. lia. Qed.
#[export] Instance name_trans : Transitive name_not_after.
Proof.
  intros x y z. unfold name_not_after.
  set (a := sf_name x). set (b := sf_name y). set (c := sf_name z). intros Hab Hbc.
  destruct (string_cmp c a) eqn:E; try done.
  destruct (string_cmp b a) eqn:E1; try done.
  - apply string_cmp_eq in E1. subst b. by rewrite E1, E in Hbc.
  - assert (string_cmp a b = Lt) as E2
      by (by rewrite (cmp_flip (P:=fun _ => True) b a), E1 by done).
    by rewrite (cmp_lt_trans (P:=fun _ => True) c a b I I I E E2) in Hbc.
Qed.
#[export] Instance number_trans : Transitive number_not_after.
Proof. intros x y z. unfold number_not_after. rewrite !Z.ltb_ge. lia. Qed.

(** What [order_fields] returns. *)
Lemma order_fields_value l ordered :
  order_fields l = Value ordered ->
  ordered ≡ₚ l /\ NoDup (map sf_name ordered) /\ StronglySorted Z.lt (map sf_number ordered).
Proof.
  unfold order_fields. destruct (repeats same_name _) eqn:E1; [done|].
  destruct (repeats same_number _) eqn:E2; [done|]. intros [= <-].
  assert (merge_sort number_not_after (merge_sort name_not_after l) ≡ₚ merge_sort name_not_after l)
    as Hp by apply merge_sort_Permutation.
  split_and!.
  - rewrite Hp. apply merge_sort_Permutation.
  - change (NoDup (sf_name <$> merge_sort number_not_after (merge_sort name_not_after l))).
    rewrite Hp. apply names_nodup; [|done]. apply (StronglySorted_merge_sort _).
  - pose proof (StronglySorted_merge_sort number_not_after (merge_sort name_not_after l)) as Hs.
    apply strictly_increasing; [done|]. by apply numbers_nodup.
Qed.

(** ** Failures

    A failure is an error with a message: the models that run out of fuel have
    none. *)
Definition fails {A} (m : PjExpected A) : Prop :=
  match m with Value _ => True | Failed s => isError s = true /\ ParserCore.message s <> [] end.

Definition errs {A} (m : PjExpected A) : Prop :=
  match m with Value _ => True | Failed s => isError s = true end.

Lemma errs_bind {A B} (m : PjExpected A) (f : A -> PjExpected B) :
  errs m -> (forall a, m = Value a -> errs (f a)) -> errs (pbind m f).
Proof. destruct m as [a|s]; cbn; [|done]. intros _ H. by apply H. Qed.

Lemma errs_perr {A} msg : errs (@perr A msg).
Proof. done. Qed.

Create HintDb proto discriminated.
#[export] Hint Resolve errs_perr : proto.

Lemma varint_from_errs n i value r : errs (readVarint_from n i value r).
Proof.
  revert i value r. induction n as [|n IH]; intros i value [|b r]; cbn [readVarint_from]; try done.
  destruct (_ && _)%bool; [done|]. destruct (_ =? 0); [done|apply IH].
Qed.

Lemma varint_errs r : errs (readVarint r).
Proof. apply varint_from_errs. Qed.
#[export] Hint Resolve varint_errs : proto.

Lemma skipValue_errs r w : errs (skipValue r w).
Proof.
  destruct w; cbn [skipValue]; try done.
  - apply errs_bind; [apply varint_errs|done].
  - by destruct (_ <? _)%nat.
  - destruct (readVarint r) as [[]|]; [|done]. by destruct (_ >? _).
  - by destruct (_ <? _)%nat.
Qed.

Lemma skipGroup_errs fuel : forall r g d, errs (skipGroup fuel r g d).
Proof.
  induction fuel as [|fuel IH]; intros r g d; [done|]. cbn [skipGroup].
  destruct (d >? _); [done|]. destruct (bool_decide (r = [])); [done|].
  apply errs_bind; [apply varint_errs|]. intros [key r1] _.
  destruct (wire_type_of _) as [w|]; [|done]. destruct (bad_number _); [done|].
  assert (errs (pbind (skipValue r1 w) (fun r2 => skipGroup fuel r2 g d))) as Hv
    by (apply errs_bind; [apply skipValue_errs|intros; apply IH]).
  destruct w; try exact Hv; [|by destruct (_ =? _)].
  apply errs_bind; [apply IH|intros; apply IH].
Qed.

Lemma nextField_errs r d : errs (nextField r d).
Proof.
  unfold nextField. apply errs_bind; [apply varint_errs|]. intros [key r1] _.
  destruct (bad_number _); [done|]. destruct (wire_type_of _) as [[]|]; try done.
  - apply errs_bind; [apply varint_errs|by intros []].
  - by destruct (_ <? _)%nat.
  - apply errs_bind; [apply varint_errs|]. intros [len r2] _. by destruct (_ >? _).
  - apply errs_bind; [apply skipGroup_errs|done].
  - by destruct (_ <? _)%nat.
Qed.

Lemma matching_errs alloc p n : errs (matching alloc p n).
Proof.
  unfold matching. destruct (bad_number n); [done|].
  enough (forall fuel r d l, errs (matching_loop alloc fuel r d n l)) as H by apply H.
  induction fuel as [|fuel IH]; intros r d l; [done|]. cbn [matching_loop].
  destruct (bool_decide (r = [])); [done|]. apply errs_bind; [apply nextField_errs|].
  intros [field r'] _. apply errs_bind; [|intros; apply IH].
  destruct (_ =? n); [|done]. unfold fl_push. destruct (_ =? kMaximumFields); [done|].
  destruct (_ =? fl_capacity l); [|done]. by destruct (alloc _).
Qed.

Lemma fails_of {A} (m : PjExpected A) : errs m -> ~ out_of_fuel m -> fails m.
Proof.
  destruct m as [|[c msg]]; cbn; [done|]. unfold isError, out_of_fuel. cbn.
  destruct c; try done. intros _ H. split; [done|]. intros ->. by apply H.
Qed.

Lemma fails_bind {A B} (m : PjExpected A) (f : A -> PjExpected B) :
  fails m -> (forall a, m = Value a -> fails (f a)) -> fails (pbind m f).
Proof. destruct m as [a|s]; cbn; [|done]. intros _ H. by apply H. Qed.

Lemma matching_fails alloc p n : fails (matching alloc p n).
Proof.
  apply fails_of; [apply matching_errs|]. unfold matching. destruct (bad_number n); [by intros [=]|].
  assert (fl_ok fl_empty) as H0 by (unfold fl_ok, fl_empty, kMaximumFields; cbn; lia).
  pose proof (matching_loop_sound alloc (pr_message p) (S (length (pr_message p))) (pr_message p)
    (pr_depth p) n fl_empty ltac:(lia) (ex_intro _ [] eq_refl) H0 (List.Forall_nil _)) as H.
  by destruct (matching_loop _ _ _ _ _ _); [intros [=]|].
Qed.

Lemma last_fails alloc p n : fails (last_field alloc p n).
Proof.
  apply fails_bind; [apply matching_fails|]. intros l _. by destruct (fl_back l).
Qed.

Lemma order_fails l : fails (order_fields l).
Proof. unfold order_fields. destruct (repeats same_name _); [done|]. by destruct (repeats same_number _). Qed.

(** ** The invariant of a decoded schema *)

Definition field_valid (f : ProtoSchemaField) : Prop :=
  sf_name f <> [] /\ 1 <= sf_number f <= 536870911 /\ 1 <= sf_type f <= 18 /\ sf_type f <> 10 /\
  (sf_type f = 11 \/ sf_type_name f = []).

Definition message_valid (m : ProtoSchemaMessage) : Prop :=
  Forall field_valid (sm_fields m) /\ NoDup (map sf_name (sm_fields m)) /\
  StronglySorted Z.lt (map sf_number (sm_fields m)).

Definition schema_ok (messages : list ProtoSchemaMessage) : Prop :=
  NoDup (map full_name messages) /\ Forall message_valid messages.

Lemma each_spec {A St} (f : St -> A -> PjExpected St) (P : St -> Prop) st l :
  (forall st a, P st -> fails (f st a) /\ (forall st', f st a = Value st' -> P st')) ->
  P st -> fails (each f st l) /\ (forall st', each f st l = Value st' -> P st').
Proof.
  intros Hf. revert st. induction l as [|a l IH]; intros st Hst; cbn [each].
  { split; [done|]. by intros st' [= <-]. }
  destruct (Hf st a Hst) as [H1 H2]. destruct (f st a) as [st1|s]; cbn [pbind]; [|done].
  apply IH. by apply H2.
Qed.

Lemma varint_from_nonneg n i value r v r' :
  0 <= value -> readVarint_from n i value r = Value (v, r') -> 0 <= v.
Proof.
  revert i value r. induction n as [|n IH]; intros i value [|b r] Hv; cbn [readVarint_from]; try done.
  destruct (_ && _)%bool; [done|].
  assert (0 <= Z.lor value (wrap 64 (Z.shiftl (Z.land (b2z b) 127) (i * 7)))) as H.
  { apply Z.lor_nonneg. split; [done|]. apply wrap_range. lia. }
  destruct (_ =? 0); [by intros [= <- <-]|by apply IH].
Qed.

Lemma little_endian_nonneg i v data : 0 <= v -> 0 <= readLittleEndian_from i v data.
Proof.
  revert i v. induction data as [|b data IH]; intros i v Hv; cbn [readLittleEndian_from]; [done|].
  apply IH. apply Z.lor_nonneg. split; [done|]. apply Z.shiftl_nonneg. apply b2z_range.
Qed.

Lemma nextField_nonneg r d field r' : nextField r d = Value (field, r') -> 0 <= f_integer field.
Proof.
  unfold nextField. destruct (readVarint r) as [[key r1]|]; cbn [pbind]; [|done].
  destruct (bad_number _); [done|]. destruct (wire_type_of _) as [[]|]; try done.
  - destruct (readVarint r1) as [[v r2]|] eqn:E; [|done]. cbn. intros [= <- <-].
    by apply (varint_from_nonneg 10 0 0 r1 v r2).
  - destruct (_ <? _)%nat; [done|]. intros [= <- <-]. by apply little_endian_nonneg.
  - destruct (readVarint r1) as [[v r2]|]; [|done]. cbn. destruct (_ >? _); [done|]. by intros [= <- <-].
  - destruct (skipGroup _ _ _ _); [|done]. by intros [= <- <-].
  - destruct (_ <? _)%nat; [done|]. intros [= <- <-]. by apply little_endian_nonneg.
Qed.

Lemma matching_nonneg alloc p n l :
  matching alloc p n = Value l -> Forall (fun f => 0 <= f_integer f) (fl_fields l).
Proof.
  unfold matching. destruct (bad_number n); [done|].
  enough (forall fuel r d l0, Forall (fun f => 0 <= f_integer f) (fl_fields l0) ->
    matching_loop alloc fuel r d n l0 = Value l -> Forall (fun f => 0 <= f_integer f) (fl_fields l))
    as H by (apply H; constructor).
  induction fuel as [|fuel IH]; intros r d l0 H0; [done|]. cbn [matching_loop].
  destruct (bool_decide (r = [])); [by intros [= <-]|].
  destruct (nextField r d) as [[field r']|] eqn:E; cbn [pbind]; [|done]. apply nextField_nonneg in E.
  destruct (_ =? n); cbn [pbind]; [|by apply IH].
  destruct (fl_push alloc l0 field) as [l1|] eqn:E1; cbn [pbind]; [|done]. apply IH.
  revert E1. unfold fl_push. destruct (_ =? kMaximumFields); [done|].
  destruct (_ =? fl_capacity l0); [destruct (negb _); [done|]|]; intros [= <-];
    (apply Forall_app; split; [exact H0|by constructor]).
Qed.

Lemma pr_varint_nonneg alloc p n v : pr_varint alloc p n = Value v -> 0 <= v.
Proof.
  unfold pr_varint, last_field. destruct (matching alloc p n) as [l|] eqn:E; cbn [pbind]; [|done].
  apply matching_nonneg in E. destruct (fl_back l) as [f|] eqn:Ef; cbn [pbind]; [|done].
  destruct (f_wire_type f); try done. intros [= <-].
  apply last_Some in Ef as [l' Ef]. rewrite Ef in E. apply Forall_app in E as [_ E].
  by apply Forall_cons in E as [E _].
Qed.

Lemma parseField_spec alloc data :
  fails (parseField alloc data) /\ (forall f, parseField alloc data = Value f -> field_valid f).
Proof.
  unfold parseField. destruct (last_field _ _ 1) as [name|]; [|done].
  destruct (pr_varint _ _ 3) as [number|] eqn:En; [|done].
  destruct (pr_varint _ _ 4) as [label|]; [|done].
  destruct (pr_varint _ _ 5) as [type|] eqn:Et; [|done].
  apply pr_varint_nonneg in En, Et.
  destruct (negb (is_bytes name) || _) eqn:E1; [done|].
  destruct (_ || (type =? 10)) eqn:E2; [done|].
  apply orb_false_iff in E1 as [_ E1]. apply bool_decide_eq_false in E1.
  repeat match goal with H : (_ || _)%bool = false |- _ => apply orb_false_iff in H as [? ?] end.
  bprop. rewrite !wrap_small by (unfold in_u; change (2 ^ 32) with 4294967296; lia).
  destruct (type =? 11) eqn:E3; bprop.
  - destruct (last_field _ _ 6) as [type_name|]; [|done]. destruct (negb (is_bytes type_name)); [done|].
    split; [done|]. intros f [= <-]. unfold field_valid. cbn. split_and!; try done; lia || auto.
  - split; [done|]. intros f [= <-]. unfold field_valid. cbn. split_and!; try done; lia || auto.
Qed.

Lemma has_message_false name messages :
  has_message name messages = false -> name ∉ map full_name messages.
Proof.
  intros H (m & <- & Hin)%list_elem_of_In%in_map_iff.
  apply not_true_iff_false in H. apply H. apply existsb_exists. exists m.
  split; [done|]. apply bytes_eqb_refl.
Qed.

Lemma schema_ok_push messages m :
  schema_ok messages -> message_valid m -> full_name m ∉ map full_name messages ->
  schema_ok (messages ++ [m]).
Proof.
  intros [Hn Hv] Hm Hnew. split.
  - rewrite map_app. apply NoDup_app. split_and!; [done| |apply NoDup_singleton].
    intros x Hx ->%list_elem_of_singleton. done.
  - apply Forall_app. split; [done|by constructor].
Qed.

Lemma fields_spec alloc fields :
  let decoded := each (parse_field_entry alloc) [] fields in
  fails decoded /\ (forall l, decoded = Value l -> Forall field_valid l).
Proof.
  apply (each_spec _ (Forall field_valid)); [|constructor]. intros l f Hl. unfold parse_field_entry.
  destruct (negb (is_bytes f)); [done|]. destruct (parseField_spec alloc (f_bytes f)) as [H1 H2].
  destruct (parseField alloc (f_bytes f)) as [g|]; cbn [pbind]; [|done]. split; [done|].
  intros l' [= <-]. apply Forall_app. split; [done|]. constructor; [by apply H2|done].
Qed.

Lemma parseMessage_spec alloc fuel : forall messages data parent top depth,
  (0 < fuel)%nat -> 66 <= Z.of_nat fuel + depth -> schema_ok messages ->
  let m := parseMessage alloc fuel messages data parent top depth in
  fails m /\ (forall messages', m = Value messages' -> schema_ok messages').
Proof.
  induction fuel as [|fuel IH]; intros messages data parent top depth Hf0 Hd Hok; [lia|].
  cbn [parseMessage]. destruct (depth >? kMaxRecursionDepth) eqn:Ed; [done|]. unfold kMaxRecursionDepth in Ed.
  destruct (last_field _ _ 1) as [name|]; [|done].
  destruct (negb (is_bytes name) || _); [done|]. destruct (has_message _ messages) eqn:Eh; [done|].
  pose proof (matching_fails alloc (proto_reader data) 2) as Hf.
  destruct (matching _ _ 2) as [fields|]; cbn [pbind]; [|done].
  destruct (fields_spec alloc (fl_fields fields)) as [H1 H2].
  destruct (each (parse_field_entry alloc) _ _) as [decoded|]; cbn [pbind]; [|done].
  pose proof (order_fails decoded) as H3.
  destruct (order_fields decoded) as [ordered|] eqn:Eo; cbn [pbind]; [|done].
  apply order_fields_value in Eo as (Hp & Hnames & Hnums).
  pose proof (matching_fails alloc (proto_reader data) 3) as H4.
  destruct (matching _ _ 3) as [nested|]; cbn [pbind]; [|done].
  apply (each_spec _ schema_ok).
  - intros st declaration Hst. destruct (negb (is_bytes declaration)); [done|]. apply IH; [blia|lia|done].
  - apply schema_ok_push; [done| |by apply has_message_false]. split_and!; [|done..].
    cbn. rewrite Hp. by apply H2.
Qed.

Lemma parseFile_spec alloc messages data :
  schema_ok messages ->
  fails (parseFile alloc messages data) /\
  (forall messages', parseFile alloc messages data = Value messages' -> schema_ok messages').
Proof.
  intros Hok. unfold parseFile. pose proof (matching_fails alloc (proto_reader data) 2) as H1.
  destruct (matching _ _ 2) as [packages|]; cbn [pbind]; [|done].
  assert (fails (file_package packages)) as H2.
  { unfold file_package. destruct (fl_back packages) as [f|]; [|done]. by destruct (negb (is_bytes f)). }
  destruct (file_package packages) as [package|]; cbn [pbind]; [|done].
  pose proof (matching_fails alloc (proto_reader data) 4) as H3.
  destruct (matching _ _ 4) as [declarations|]; cbn [pbind]; [|done].
  apply (each_spec _ schema_ok); [|done]. intros st declaration Hst. unfold parse_declaration.
  destruct (negb (is_bytes declaration)); [done|]. refine (parseMessage_spec alloc message_fuel _ _ _ _ _ _ _ Hst); unfold message_fuel; lia.
Qed.

(** ** The root message *)

Lemma find_index_some test messages index :
  find_index test messages = Some index ->
  exists m, messages !! index = Some m /\ test m = true /\
    forall j m', (j < index)%nat -> messages !! j = Some m' -> test m' = false.
Proof.
  revert index. induction messages as [|m messages IH]; intros index; cbn [find_index]; [done|].
  destruct (test m) eqn:E.
  - intros [= <-]. exists m. split_and!; [done..|]. intros j m' Hj. lia.
  - destruct (find_index test messages) as [i|]; [|done]. intros [= <-].
    destruct (IH i eq_refl) as (m1 & Hm & Ht & Hfirst). exists m1. split_and!; [done..|].
    intros [|j] m' Hj Hm'; [by injection Hm' as <-|]. apply (Hfirst j); [lia|done].
Qed.

Lemma find_index_none test messages :
  find_index test messages = None -> Forall (fun m => test m = false) messages.
Proof.
  induction messages as [|m messages IH]; cbn [find_index]; [constructor|].
  destruct (test m) eqn:E; [done|]. destruct (find_index test messages); [done|]. intros _.
  constructor; [done|by apply IH].
Qed.

(** In a schema without duplicates [findMessage] is the inverse of [full_name]. *)
Lemma findMessage_spec messages name index :
  schema_ok messages ->
  findMessage messages name = Value index <->
  exists m, messages !! index = Some m /\ full_name m = name.
Proof.
  intros [Hn _]. unfold findMessage. destruct (find_index _ messages) as [i|] eqn:E.
  - apply find_index_some in E as (m & Hm & Ht & _). apply bytes_eqb_eq in Ht. split.
    + intros [= <-]. by exists m.
    + intros (m' & Hm' & Hname). f_equal. apply (NoDup_lookup _ _ _ name Hn);
        apply list_lookup_fmap_Some; [by exists m|by exists m'].
  - apply find_index_none in E. split; [done|]. intros (m & Hm & Hname).
    apply (Forall_lookup_1 _ _ _ _ E) in Hm. by rewrite Hname, bytes_eqb_refl in Hm.
Qed.

Lemma findMessage_fails messages name : fails (findMessage messages name).
Proof. unfold findMessage. by destruct (find_index _ messages). Qed.

Definition roots (messages : list ProtoSchemaMessage) : list ProtoSchemaMessage :=
  List.filter top_level messages.

Lemma scan_roots_spec messages : forall index root count,
  (scan_roots messages index root count).2 = (count + length (roots messages))%nat /\
  match last (roots messages) with
  | None => (scan_roots messages index root count).1 = root
  | Some m => exists i, (scan_roots messages index root count).1 = (index + i)%nat /\ messages !! i = Some m
  end.
Proof.
  induction messages as [|m messages IH]; intros index root count; cbn [scan_roots roots List.filter].
  { cbn. split; [lia|done]. }
  fold (roots messages). destruct (top_level m) eqn:E.
  - destruct (IH (S index) index (S count)) as [H1 H2]. split; [rewrite H1; cbn; lia|].
    rewrite last_cons. destruct (last (roots messages)) as [m'|].
    + destruct H2 as (i & -> & Hi). exists (S i). split; [lia|done].
    + exists 0%nat. rewrite H2. split; [lia|done].
  - destruct (IH (S index) root count) as [H1 H2]. split; [done|].
    destruct (last (roots messages)) as [m'|]; [|done]. destruct H2 as (i & -> & Hi). exists (S i).
    split; [lia|done].
Qed.

Lemma select_root_spec messages root_type :
  schema_ok messages ->
  fails (select_root messages root_type) /\
  forall index, select_root messages root_type = Value index ->
    exists m, messages !! index = Some m /\
      (root_type = [] -> roots messages = [m]) /\
      (root_type <> [] -> full_name m = normalizeProtoTypeName root_type).
Proof.
  intros Hok. unfold select_root. case_bool_decide as Hr.
  - pose proof (scan_roots_spec messages 0 0 0) as [H1 H2].
    destruct (scan_roots messages 0 0 0) as [root count]. cbn [fst snd] in *. subst count.
    destruct (negb _) eqn:E; [done|]. split; [done|]. intros index [= <-]. bprop.
    destruct (roots messages) as [|m [|m' l]]; [done| |done]. cbn [last] in H2.
    destruct H2 as (i & -> & Hi). exists m. by split_and!.
  - split; [apply findMessage_fails|]. intros index Hf.
    apply (findMessage_spec messages _ _ Hok) in Hf as (m & Hm & Hname). exists m. by split_and!.
Qed.

Lemma parse_spec alloc descriptor_set root_type :
  fails (parse alloc descriptor_set root_type) /\
  forall messages root, parse alloc descriptor_set root_type = Value (messages, root) ->
    schema_ok messages /\
    exists m, messages !! root = Some m /\
      (root_type = [] -> roots messages = [m]) /\
      (root_type <> [] -> full_name m = normalizeProtoTypeName root_type).
Proof.
  unfold parse. destruct (_ || _); [done|].
  pose proof (matching_fails alloc (proto_reader (view_bytes descriptor_set)) 1) as H1.
  destruct (matching _ _ 1) as [files|]; cbn [pbind]; [|done]. destruct (bool_decide _); [done|].
  destruct (each_spec (parse_file_entry alloc) schema_ok [] (fl_fields files)) as [H2 H3].
  { intros st f Hst. unfold parse_file_entry. destruct (negb (is_bytes f)); [done|]. by apply parseFile_spec. }
  { split; constructor. }
  destruct (each _ _ _) as [messages|]; cbn [pbind]; [|done]. specialize (H3 _ eq_refl).
  destruct (select_root_spec messages root_type H3) as [H4 H5].
  destruct (select_root messages root_type) as [root|]; cbn [pbind]; [|done]. split; [done|].
  intros messages' root' [= <- <-]. split; [done|by apply H5].
Qed.
