(* ===== verification/ProtoLocator.v ===== *)
(** * ProtoLocator: field paths compiled against a schema and read in a message

    The compiling half of [ProtoFieldLocator] and [ProtoTraversalPlan]
    ([pj_base/include/pj_base/parser_module/proto_field_locator.hpp]).  The
    result of an operation that indexes [messages_] out of bounds is [Undef]. *)

From Stdlib Require Import Sorting.Sorted.
From S2P Require Import Prelude Text ParserCore ProtobufWire ProtoReader ProtoMessages ProtoSchema.

Record ProtoRequestedField : Set := mkRequested { rf_path : bytes; rf_numbers : list Z }.

(** [ProtoTraversalPlan]: [requested_]. *)
Notation ProtoTraversalPlan := (list ProtoRequestedField).

Definition plan_size (plan : ProtoTraversalPlan) : nat := length plan.

(** The selected field of a message. *)
Definition select_field (fields : list ProtoSchemaField) (component : bytes)
  : option ProtoSchemaField :=
  find (fun field => bytes_eqb (sf_name field) component) fields.

(** The loop of [compilePath] from a position on.  Every round but the last moves past
    a dot, so the rounds are at most the characters and one. *)
Fixpoint compile_from (fuel : nat) (messages : list ProtoSchemaMessage) (path : bytes)
    (message_index position : nat) (numbers : list Z) : exec (PjExpected (list Z)) :=
  match fuel with
  | O => Val (perr "")
  | S fuel' =>
    if negb (position <? length path)%nat then Val (perr "protobuf field path is malformed")
    else
      let dot := find_char (ch ".") (drop position path) in
      let component :=
        match dot with None => drop position path | Some d => take d (drop position path) end in
      if bool_decide (component = [])
      then Val (perr "protobuf field path contains an empty component")
      else
        match messages !! message_index with
        | None => Undef
        | Some message =>
          match select_field (sm_fields message) component with
          | None => Val (perr "protobuf field path is absent from FileDescriptorSet")
          | Some selected =>
            let numbers := numbers ++ [sf_number selected] in
            match dot with
            | None => Val (Value numbers)
            | Some d =>
              if negb (sf_type selected =? 11) || sf_repeated selected
              then Val (perr "protobuf field path may descend only through singular message fields")
              else
                match findMessage messages (sf_type_name selected) with
                | Failed s => Val (Failed s)
                | Value nested =>
                  if (Z.of_nat (length numbers) >=? kMaxRecursionDepth)
                  then Val (perr "protobuf field path depth exceeds 64")
                  else compile_from fuel' messages path nested (position + d + 1) numbers
                end
            end
          end
        end
  end.

Definition compilePath (locator : ProtoFieldLocator) (path : bytes)
  : exec (PjExpected ProtoRequestedField) :=
  if bool_decide (path = []) then Val (perr "protobuf field path is empty")
  else
    let! numbers := compile_from (S (length path)) (messages_ locator) path (root_index_ locator) 0 [] in
    Val (let+ numbers := numbers in Value (mkRequested path numbers)).

Fixpoint locate_paths (locator : ProtoFieldLocator) (paths : list bytes) (plan : ProtoTraversalPlan)
  : exec (PjExpected ProtoTraversalPlan) :=
  match paths with
  | [] => Val (Value plan)
  | path :: paths' =>
    let! request := compilePath locator path in
    match request with
    | Failed s => Val (Failed s)
    | Value request =>
      if existsb (fun existing => bytes_eqb (rf_path existing) (rf_path request)) plan
      then Val (perr "duplicate protobuf field path requested")
      else locate_paths locator paths' (plan ++ [request])
    end
  end.

(** [ProtoFieldLocator::locate]. *)
Definition locate (locator : ProtoFieldLocator) (paths : list bytes)
  : exec (PjExpected ProtoTraversalPlan) :=
  if negb (isOk (status_ locator)) then Val (Failed (status_ locator))
  else
    let! plan := locate_paths locator paths [] in
    Val (let+ plan := plan in
         if bool_decide (plan = []) then perr "at least one protobuf field path is required"
         else Value plan).

(** [ProtoTraversalPlan::field]. *)
Fixpoint field_from (plan : ProtoTraversalPlan) (path : bytes) (index : nat) : PjExpected nat :=
  match plan with
  | [] => perr "field path is not present in the protobuf traversal plan"
  | requested :: plan' =>
    if bytes_eqb (rf_path requested) path then Value index else field_from plan' path (S index)
  end.

Definition field (plan : ProtoTraversalPlan) (path : bytes) : PjExpected nat := field_from plan path 0.

Definition numberPath (plan : ProtoTraversalPlan) (field_id : nat) : PjExpected (list Z) :=
  match plan !! field_id with
  | None => perr "protobuf field id is outside the traversal plan"
  | Some requested => Value (rf_numbers requested)
  end.

Section Locate.
Context (alloc : Z -> bool).

Fixpoint locate_numbers (current : ProtoReader) (numbers : list Z) : PjExpected Field :=
  match numbers with
  | [] => perr "protobuf field path is empty"
  | number :: numbers' =>
    let+ found := last_field alloc current number in
    if bool_decide (numbers' = []) then Value found
    else if negb (is_bytes found) then perr "protobuf field-path intermediate is not a message"
    else locate_numbers (proto_reader (f_bytes found)) numbers'
  end.

(** [ProtoTraversalPlan::locate]. *)
Definition plan_locate (plan : ProtoTraversalPlan) (reader : ProtoReader) (field_id : nat)
  : PjExpected Field :=
  match plan !! field_id with
  | None => perr "protobuf field id is outside the traversal plan"
  | Some requested =>
    if (Z.of_nat (length (rf_numbers requested)) >? kMaxRecursionDepth)
    then perr "protobuf field path depth exceeds 64"
    else locate_numbers reader (rf_numbers requested)
  end.
End Locate.

(** ** The paths of a schema *)

(** [path_to messages m components numbers]: the components name a field of [m],
    reached through singular message fields, and the numbers lead to it. *)
Inductive path_to (messages : list ProtoSchemaMessage)
  : ProtoSchemaMessage -> list bytes -> list Z -> Prop :=
  | path_field m f :
    f ∈ sm_fields m -> path_to messages m [sf_name f] [sf_number f]
  | path_nested m f m' components numbers :
    f ∈ sm_fields m -> sf_type f = 11 -> sf_repeated f = false ->
    m' ∈ messages -> full_name m' = sf_type_name f ->
    path_to messages m' components numbers ->
    path_to messages m (sf_name f :: components) (sf_number f :: numbers).

Lemma number_path_nonempty messages m components numbers :
  path_to messages m components numbers -> components <> [] /\ numbers <> [].
Proof. by destruct 1. Qed.

Lemma select_field_spec m component f :
  message_valid m ->
  select_field (sm_fields m) component = Some f <-> f ∈ sm_fields m /\ sf_name f = component.
Proof.
  intros (_ & Hn & _). unfold select_field. induction (sm_fields m) as [|g l IH]; cbn [find].
  { split; [done|]. by intros [?%elem_of_nil _]. }
  cbn [map] in Hn. apply NoDup_cons in Hn as [Hg Hn]. rewrite elem_of_cons.
  destruct (bytes_eqb (sf_name g) component) eqn:E.
  - apply bytes_eqb_eq in E. split; [intros [= <-]; auto|]. intros [[->|Hin] Hname]; [done|].
    exfalso. apply Hg. rewrite E, <-Hname. by apply (list_elem_of_fmap_2 sf_name).
  - rewrite (IH Hn). apply bytes_eqb_neq in E. naive_solver.
Qed.

Lemma path_one messages m component numbers :
  message_valid m ->
  path_to messages m [component] numbers <->
  exists f, select_field (sm_fields m) component = Some f /\ numbers = [sf_number f].
Proof.
  intros Hm. split.
  - inversion 1 as [m0 f Hf|m0 f m' cs ns Hf Ht Hr Hm' Hn Hp]; subst.
    + exists f. split; [by apply select_field_spec|done].
    + by apply number_path_nonempty in Hp as [? _].
  - intros (f & [Hf <-]%select_field_spec & ->); [|done]. by apply path_field.
Qed.

Lemma path_more messages m component rest numbers :
  message_valid m -> rest <> [] ->
  path_to messages m (component :: rest) numbers <->
  exists f m' ks, select_field (sm_fields m) component = Some f /\ sf_type f = 11 /\
    sf_repeated f = false /\ m' ∈ messages /\ full_name m' = sf_type_name f /\
    path_to messages m' rest ks /\ numbers = sf_number f :: ks.
Proof.
  intros Hm Hrest. split.
  - inversion 1 as [m0 f Hf|m0 f m' cs ns Hf Ht Hr Hm' Hn Hp]; subst; [done|].
    exists f, m', ns. split_and!; try done. by apply select_field_spec.
  - intros (f & m' & ks & [Hf <-]%select_field_spec & Ht & Hr & Hm' & Hn & Hp & ->); [|done].
    by apply path_nested with m'.
Qed.

Lemma path_no_empty messages m cs numbers : Forall message_valid messages -> message_valid m ->
  path_to messages m ([] :: cs) numbers -> False.
Proof.
  intros Hms Hm Hp. assert (exists f, f ∈ sm_fields m /\ sf_name f = []) as (f & Hf & Hn).
  { inversion Hp; subst; eauto. }
  destruct Hm as [Hm _]. rewrite Forall_forall in Hm. by destruct (Hm f Hf).
Qed.

Definition compiled (messages : list ProtoSchemaMessage) (m : ProtoSchemaMessage) (rest : bytes)
    (pre : list Z) (r : PjExpected (list Z)) : Prop :=
  fails r /\
  forall ns, r = Value ns <->
    exists ks, ns = pre ++ ks /\ path_to messages m (split_on (ch ".") rest) ks /\
      Z.of_nat (length ns) <= kMaxRecursionDepth.

Lemma compiled_failed {messages m rest pre} s :
  isError s = true -> ParserCore.message s <> [] ->
  (forall ks, path_to messages m (split_on (ch ".") rest) ks ->
     Z.of_nat (length (pre ++ ks)) <= kMaxRecursionDepth -> False) ->
  compiled messages m rest pre (Failed s).
Proof.
  intros H1 H2 H. split; [done|]. intros ns. split; [done|]. intros (ks & -> & Hp & Hl).
  exfalso. by apply (H ks).
Qed.

(** The last component of a path. *)
Lemma compiled_leaf messages m rest pre :
  Forall message_valid messages -> message_valid m -> ch "." ∉ rest ->
  Z.of_nat (length pre) < kMaxRecursionDepth ->
  compiled messages m rest pre
    (if bool_decide (rest = []) then perr "protobuf field path contains an empty component"
     else match select_field (sm_fields m) rest with
          | None => perr "protobuf field path is absent from FileDescriptorSet"
          | Some selected => Value (pre ++ [sf_number selected])
          end).
Proof.
  intros Hvalid Hmv Hno Hpre. pose proof (split_on_piece _ _ Hno) as Hsplit.
  case_bool_decide as Hempty.
  { apply compiled_failed; [done..|]. intros ks Hp _.
    rewrite Hsplit, Hempty in Hp. by apply (path_no_empty messages m [] ks). }
  destruct (select_field (sm_fields m) rest) as [f|] eqn:Ef.
  - split; [done|]. intros ns. rewrite Hsplit. split.
    + intros [= <-]. exists [sf_number f]. split_and!; [done| |rewrite length_app; cbn; lia].
      apply path_one; [done|]. by exists f.
    + intros (ks & -> & Hp & _). apply path_one in Hp as (g & Hg & ->); [|done].
      rewrite Ef in Hg. by injection Hg as ->.
  - apply compiled_failed; [done..|]. intros ks Hp _. rewrite Hsplit in Hp.
    apply path_one in Hp as (g & Hg & _); [|done]. by rewrite Ef in Hg.
Qed.

(** A component before a dot: what its paths look like, and how compiling goes on. *)
Lemma path_dot messages m rest l tl ns :
  message_valid m -> rest = l ++ ch "." :: tl -> ch "." ∉ l ->
  path_to messages m (split_on (ch ".") rest) ns <->
  exists f m' ks, select_field (sm_fields m) l = Some f /\ sf_type f = 11 /\
    sf_repeated f = false /\ m' ∈ messages /\ full_name m' = sf_type_name f /\
    path_to messages m' (split_on (ch ".") tl) ks /\ ns = sf_number f :: ks.
Proof.
  intros Hm -> Hno. rewrite split_on_app by done. by apply path_more; [|apply split_on_nonempty].
Qed.

Lemma compiled_descend messages m rest l tl pre f j m' r :
  schema_ok messages -> message_valid m -> rest = l ++ ch "." :: tl -> ch "." ∉ l ->
  select_field (sm_fields m) l = Some f -> sf_type f = 11 -> sf_repeated f = false ->
  messages !! j = Some m' -> full_name m' = sf_type_name f ->
  compiled messages m' tl (pre ++ [sf_number f]) r -> compiled messages m rest pre r.
Proof.
  intros Hok Hm Hrest Hno Hf Ht Hrep Hj Hname [Hfr Hr].
  pose proof (findMessage_spec messages (sf_type_name f)) as Hfind.
  split; [done|]. intros ns. rewrite Hr. split.
  - intros (ks & -> & Hp & Hl). exists (sf_number f :: ks). rewrite <-app_assoc in *.
    split_and!; [done| |done]. apply (path_dot messages m rest l tl); [done..|]. exists f, m', ks.
    split_and!; try done. by eapply list_elem_of_lookup_2.
  - intros (ks & -> & Hp & Hl). apply (path_dot messages m rest l tl) in Hp; [|done..].
    destruct Hp as (g & m2 & ks' & Hg & _ & _ & Hin & Hname2 & Hp & ->).
    rewrite Hf in Hg. injection Hg as <-. exists ks'. rewrite <-app_assoc. split_and!; [done| |done].
    apply list_elem_of_lookup_1 in Hin as [i Hi].
    assert (findMessage messages (sf_type_name f) = Value j) as Ej by (apply Hfind; eauto).
    assert (findMessage messages (sf_type_name f) = Value i) as Ei by (apply Hfind; eauto).
    rewrite Ej in Ei. injection Ei as <-. rewrite Hj in Hi. by injection Hi as <-.
Qed.

Lemma compile_spec messages path : schema_ok messages -> forall fuel index m position pre,
  messages !! index = Some m -> (position <= length path)%nat ->
  (length path - position < fuel)%nat -> Z.of_nat (length pre) < kMaxRecursionDepth ->
  exists r, compile_from fuel messages path index position pre = Val r /\
    compiled messages m (drop position path) pre r.
Proof.
  intros Hok. pose proof Hok as [_ Hvalid].
  induction fuel as [|fuel IH]; intros index m position pre Hm Hpos Hfuel Hpre; [lia|].
  pose proof (Forall_lookup_1 _ _ _ _ Hvalid Hm) as Hmv.
  cbn [compile_from]. set (rest := drop position path).
  destruct (negb (position <? length path)%nat) eqn:E1.
  { eexists. split; [done|]. apply compiled_failed; [done..|]. intros ks Hp _.
    assert (rest = []) as Hnil by (apply drop_ge; blia). rewrite Hnil in Hp. cbn in Hp.
    by apply (path_no_empty messages m [] ks). }
  destruct (find_char_view (ch ".") rest) as [[-> Hno]|(l & tl & -> & Hrest & Hno & -> & Htl)].
  { pose proof (compiled_leaf messages m rest pre Hvalid Hmv Hno Hpre) as H.
    destruct (bool_decide (rest = [])); [by eexists|]. rewrite Hm.
    destruct (select_field (sm_fields m) rest); by eexists. }
  case_bool_decide as Hempty.
  { eexists. split; [done|]. apply compiled_failed; [done..|]. intros ks Hp _.
    rewrite Hrest, split_on_app, Hempty in Hp by done. by eapply path_no_empty. }
  rewrite Hm. pose proof (fun ns => proj1 (path_dot messages m rest l tl ns Hmv Hrest Hno)) as Hpath.
  destruct (select_field (sm_fields m) l) as [f|] eqn:Ef.
  2: { eexists. split; [done|]. apply compiled_failed; [done..|]. by intros ks (f & m' & ks' & Hf & _)%Hpath. }
  destruct (negb (sf_type f =? 11) || sf_repeated f) eqn:Et.
  { eexists. split; [done|]. apply compiled_failed; [done..|].
    intros ks (g & m' & ks' & [= ->] & Ht & Hr & _)%Hpath _. by rewrite Ht, Hr in Et. }
  pose proof (findMessage_spec messages (sf_type_name f)) as Hfind.
  pose proof (findMessage_fails messages (sf_type_name f)) as Hfail.
  destruct (findMessage messages (sf_type_name f)) as [j|s] eqn:Ej.
  2: { eexists. split; [done|]. destruct Hfail. apply compiled_failed; [done..|].
    intros ks (g & m' & ks' & [= ->] & _ & _ & Hin & Hname & _)%Hpath _.
    apply list_elem_of_lookup_1 in Hin as [i Hi].
    assert (Failed s = Value i) as [=] by (apply Hfind; eauto). }
  destruct (proj1 (Hfind j Hok) eq_refl) as (m' & Hm' & Hname).
  destruct (_ >=? _) eqn:Eg.
  { eexists. split; [done|]. apply compiled_failed; [done..|].
    intros ks (g & m2 & ks' & [= ->] & _ & _ & _ & _ & Hp & ->)%Hpath Hl.
    rewrite length_app in *. apply number_path_nonempty in Hp as [_ Hk]. destruct ks'; [done|]. cbn in *. blia. }
  assert (length path = position + length l + S (length tl))%nat as Hlen.
  { rewrite <-(take_drop position path). fold rest. rewrite Hrest, !length_app, length_take. cbn. lia. }
  destruct (IH j m' (position + length l + 1)%nat (pre ++ [sf_number f]) Hm' ltac:(lia) ltac:(lia)
    ltac:(blia)) as (r & -> & Hr).
  exists r. split; [done|]. apply orb_false_iff in Et as [Et Erep]. bprop.
  apply (compiled_descend messages m rest l tl pre f j m'); try done.
  replace tl with (drop (position + length l + 1) path); [done|].
  rewrite <-Htl. unfold rest. rewrite drop_drop. f_equal. lia.
Qed.

(** ** Locators *)

Definition locator_ok (locator : ProtoFieldLocator) : Prop :=
  status_ locator = status_ok /\ schema_ok (messages_ locator) /\
  (root_index_ locator < length (messages_ locator))%nat.

Lemma number_path_compiled locator path :
  locator_ok locator ->
  exists root r, messages_ locator !! root_index_ locator = Some root /\
    compilePath locator path = Val r /\ fails r /\
    forall req, r = Value req <->
      rf_path req = path /\ path_to (messages_ locator) root (split_on (ch ".") path) (rf_numbers req) /\
      Z.of_nat (length (rf_numbers req)) <= kMaxRecursionDepth.
Proof.
  intros (_ & Hok & Hroot). apply lookup_lt_is_Some_2 in Hroot as [root Hroot]. exists root.
  unfold compilePath. case_bool_decide as He.
  - eexists. split_and!; [done..|]. intros req. split; [done|]. intros (_ & Hp & _). subst path.
    pose proof Hok as [_ Hv]. exfalso. eapply path_no_empty; [exact Hv| |exact Hp].
    by apply (Forall_lookup_1 _ _ _ _ Hv Hroot).
  - destruct (compile_spec _ path Hok (S (length path)) _ root 0 [] Hroot ltac:(lia) ltac:(lia)
      ltac:(by unfold kMaxRecursionDepth)) as (r & -> & Hf & Hr).
    cbn [xbind]. eexists. split_and!; [done..| |].
    + apply fails_bind; [done|done].
    + intros req. rewrite drop_0 in Hr. destruct r as [ns|s]; cbn [pbind].
      * destruct (proj1 (Hr ns) eq_refl) as (ks & -> & Hp & Hl). cbn [app] in *. split.
        -- by intros [= <-].
        -- destruct req as [p ns]. cbn. intros (-> & Hp' & Hl').
           assert (Value ks = Value ns) as [= <-] by (apply Hr; by exists ns). done.
      * split; [done|]. intros (_ & Hp & Hl).
        assert (Failed s = Value (rf_numbers req)) as [=] by (apply Hr; by exists (rf_numbers req)).
Qed.

(** A request of the plan, resolved. *)
Definition resolved (locator : ProtoFieldLocator) (root : ProtoSchemaMessage)
    (req : ProtoRequestedField) : Prop :=
  path_to (messages_ locator) root (split_on (ch ".") (rf_path req)) (rf_numbers req) /\
  Z.of_nat (length (rf_numbers req)) <= kMaxRecursionDepth.

Lemma request_known path (plan : ProtoTraversalPlan) :
  existsb (fun existing => bytes_eqb (rf_path existing) path) plan = true <-> path ∈ map rf_path plan.
Proof.
  rewrite existsb_exists, list_elem_of_In, in_map_iff.
  split; intros (req & H1 & H2); exists req; [apply bytes_eqb_eq in H2|]; (split; [done..|]);
    [done|by apply bytes_eqb_eq].
Qed.

Lemma locate_paths_spec locator root paths : forall plan,
  locator_ok locator -> messages_ locator !! root_index_ locator = Some root ->
  exists r, locate_paths locator paths plan = Val r /\ fails r /\
    forall plan', r = Value plan' <->
      exists new, plan' = plan ++ new /\ map rf_path new = paths /\ NoDup paths /\
        (forall p, p ∈ paths -> p ∉ map rf_path plan) /\ Forall (resolved locator root) new.
Proof.
  induction paths as [|path paths IH]; intros plan Hok Hroot; cbn [locate_paths].
  { eexists. split_and!; [done..|]. intros plan'. split.
    - intros [= <-]. exists []. rewrite app_nil_r. split_and!; [done..|constructor| |constructor].
      by intros p ?%elem_of_nil.
    - intros (new & -> & Hnew & _). apply map_eq_nil in Hnew as ->. by rewrite app_nil_r. }
  destruct (number_path_compiled locator path Hok) as (root' & r & Hroot' & -> & Hf & Hr).
  rewrite Hroot in Hroot'. injection Hroot' as <-. cbn [xbind].
  destruct r as [req|s].
  2: { eexists. split_and!; [done..|]. intros plan'. split; [done|].
    intros ([|req new] & _ & Hnew & _ & _ & Hres); [done|]. injection Hnew as Hp _.
    apply Forall_cons in Hres as [[Hres Hl] _].
    assert (Failed s = Value req) as [=]. { apply Hr. rewrite <-Hp. done. } }
  destruct (proj1 (Hr req) eq_refl) as (Hp & Hpath & Hl).
  pose proof (request_known (rf_path req) plan) as Hk. destruct (existsb _ plan).
  { eexists. split_and!; [done..|]. intros plan'. split; [done|]. intros (new & _ & _ & _ & Hno & _).
    exfalso. apply (Hno path); [apply elem_of_cons; auto|]. rewrite <-Hp. by apply Hk. }
  assert (path ∉ map rf_path plan) as Hnew by (rewrite <-Hp; by intros ?%Hk).
  destruct (IH (plan ++ [req]) Hok Hroot) as (r & -> & Hf' & Hr'). exists r. split_and!; [done..|].
  intros plan'. rewrite Hr'. split.
  - intros (new & -> & <- & Hnd & Hno & Hres). exists (req :: new). rewrite <-app_assoc.
    split_and!; [done|cbn; by rewrite Hp| | |].
    + apply NoDup_cons. split; [|done]. intros Hin. apply (Hno path Hin).
      rewrite map_app. apply elem_of_app. right. cbn. apply elem_of_cons. by left.
    + intros p [->|Hin]%elem_of_cons Hin'; [done|]. apply (Hno p Hin). rewrite map_app.
      apply elem_of_app. by left.
    + constructor; [|done]. split; [by rewrite Hp|done].
  - intros ([|req' new] & -> & Hm & Hnd & Hno & Hres); [done|]. injection Hm as Hp' Hm.
    apply Forall_cons in Hres as [[Hreq Hl'] Hres]. apply NoDup_cons in Hnd as [Hin Hnd].
    assert (Value req = Value req') as [= <-] by (apply Hr; by rewrite <-Hp').
    exists new. rewrite <-app_assoc. split_and!; [done..| |done].
    intros p Hpin. rewrite map_app. intros [Hin'|Hin']%elem_of_app.
    + apply (Hno p); [apply elem_of_cons; by right|done].
    + apply list_elem_of_singleton in Hin'. by subst p; rewrite Hp' in Hpin.
Qed.

(** ** Messages *)

(** Nothing in the reader's way: groups within the limit, matches within the list's. *)
Definition readable (items : list item) : Prop :=
  items_wf items /\ items_depth items <= kMaxRecursionDepth /\
  forall n, Z.of_nat (length (items_with n items)) <= kMaximumFields.

(** [found_at items numbers it]: the last field with each number, down through the
    messages, ends at the field [it]. *)
Inductive found_at : list item -> list Z -> item -> Prop :=
  | found_last items n it :
    readable items -> field_ok n -> last (items_with n items) = Some it -> found_at items [n] it
  | found_inside items n inner ns it :
    readable items -> field_ok n ->
    last (items_with n items) = Some (IValue n (WBytes (enc_items inner))) ->
    found_at inner ns it -> found_at items (n :: ns) it.

Lemma last_items alloc items n it :
  (forall size, alloc size = true) -> readable items -> field_ok n ->
  last (items_with n items) = Some it ->
  last_field alloc (proto_reader (enc_items items)) n = Value (field_of it).
Proof.
  intros Ha (Hwf & Hd & Hc) Hn Hl.
  destruct (matching_items alloc items 0 n Hwf Hd Ha Hn (Hc n)) as (l & Hm & Hf).
  unfold last_field, proto_reader, fl_back. rewrite Hm. cbn [pbind]. rewrite Hf, fmap_last, Hl. done.
Qed.

Lemma locate_found alloc items ns it :
  (forall size, alloc size = true) -> found_at items ns it ->
  locate_numbers alloc (proto_reader (enc_items items)) ns = Value (field_of it).
Proof.
  intros Ha. induction 1 as [items n it Hr Hn Hl|items n inner ns it Hr Hn Hl Hf IH]; cbn [locate_numbers].
  - by rewrite (last_items alloc items n it).
  - rewrite (last_items alloc items n _ Ha Hr Hn Hl). cbn [pbind].
    rewrite bool_decide_false by (by destruct Hf). done.
Qed.

Lemma path_to_functional messages m components n1 n2 :
  schema_ok messages -> m ∈ messages ->
  path_to messages m components n1 -> path_to messages m components n2 -> n1 = n2.
Proof.
  intros Hok Hm Hp. revert Hm n2. pose proof Hok as [_ Hv]. rewrite Forall_forall in Hv.
  induction Hp as [m f Hf|m f m' cs ns Hf Ht Hr Hm' Hname Hp IH]; intros Hm n2 Hp2.
  - apply path_one in Hp2 as (g & Hg & ->); [|by apply Hv].
    rewrite (proj2 (select_field_spec m (sf_name f) f (Hv m Hm)) (conj Hf eq_refl)) in Hg.
    by injection Hg as <-.
  - apply path_more in Hp2 as (g & m2 & ks & Hg & _ & _ & Hm2 & Hname2 & Hp2 & ->);
      [|by apply Hv|by destruct (number_path_nonempty _ _ _ _ Hp)].
    rewrite (proj2 (select_field_spec m (sf_name f) f (Hv m Hm)) (conj Hf eq_refl)) in Hg.
    injection Hg as <-. assert (m' = m2) as <-; [|f_equal; by apply IH].
    apply list_elem_of_lookup_1 in Hm' as [i Hi]. apply list_elem_of_lookup_1 in Hm2 as [j Hj].
    assert (findMessage messages (sf_type_name f) = Value i) as Ei by (apply findMessage_spec; eauto).
    assert (findMessage messages (sf_type_name f) = Value j) as Ej by (apply findMessage_spec; eauto).
    rewrite Ei in Ej. injection Ej as <-. rewrite Hi in Hj. by injection Hj.
Qed.

Lemma locate_spec locator root paths :
  locator_ok locator -> messages_ locator !! root_index_ locator = Some root ->
  exists r, locate locator paths = Val r /\ fails r /\
    forall plan, r = Value plan <->
      paths <> [] /\ NoDup paths /\ map rf_path plan = paths /\ Forall (resolved locator root) plan.
Proof.
  intros Hok Hroot. unfold locate. destruct Hok as (Hs & Hok') eqn:E. rewrite Hs. cbn [isOk code status_ok negb].
  destruct (locate_paths_spec locator root paths [] (conj Hs Hok') Hroot) as (r & -> & Hf & Hr).
  cbn [xbind]. eexists. split_and!; [done| |].
  - apply fails_bind; [done|]. intros plan _. by case_bool_decide.
  - intros plan. destruct r as [plan'|s]; cbn [pbind].
    + destruct (proj1 (Hr plan') eq_refl) as (new & -> & Hm & Hnd & _ & Hres). cbn [app] in *.
      case_bool_decide as He; (split; [intros [=]|]).
      * intros (Hne & _ & Hm2 & _). subst new. by rewrite <-Hm in Hne.
      * subst new. split_and!; try done. intros ->. by apply map_eq_nil in Hm.
      * intros (Hne & _ & Hm2 & Hres2). f_equal.
        assert (Value new = Value plan) as [= <-]; [|done]. apply Hr. exists plan. split_and!; try done.
        by intros p _ ?%elem_of_nil.
    + split; [done|]. intros (Hne & Hnd & Hm & Hres).
      assert (Failed s = Value plan) as [=]. apply Hr. exists plan. split_and!; try done.
      by intros p _ ?%elem_of_nil.
Qed.

(** Paths that each resolve make a plan. *)
Lemma plan_of locator root paths :
  Forall (fun p => exists ns, resolved locator root (mkRequested p ns)) paths ->
  exists plan, map rf_path plan = paths /\ Forall (resolved locator root) plan.
Proof.
  induction 1 as [|p ps [ns Hp] _ (plan & <- & Hplan)]; [by exists []|].
  exists (mkRequested p ns :: plan). split; [done|by constructor].
Qed.

(** [field] is the position of a path in the plan. *)
Lemma field_from_spec plan path : forall index,
  NoDup (map rf_path plan) ->
  match field_from plan path index with
  | Value i => exists k req, i = (index + k)%nat /\ plan !! k = Some req /\ rf_path req = path
  | Failed _ => path ∉ map rf_path plan
  end.
Proof.
  induction plan as [|req plan IH]; intros index Hnd; cbn [field_from]; [apply not_elem_of_nil|].
  cbn [map] in Hnd. apply NoDup_cons in Hnd as [Hin Hnd].
  destruct (bytes_eqb (rf_path req) path) eqn:E.
  - apply bytes_eqb_eq in E. exists 0%nat, req. split_and!; [lia|done..].
  - apply bytes_eqb_neq in E. specialize (IH (S index) Hnd).
    destruct (field_from plan path (S index)).
    + destruct IH as (k & req' & -> & Hk & Hp). exists (S k), req'. split_and!; [lia|done..].
    + cbn [map]. rewrite elem_of_cons. naive_solver.
Qed.

Lemma field_at (plan : ProtoTraversalPlan) path i :
  NoDup (map rf_path plan) -> map rf_path plan !! i = Some path -> field plan path = Value i.
Proof.
  intros Hnd Hi. unfold field. pose proof (field_from_spec plan path 0 Hnd) as H.
  destruct (field_from plan path 0) as [j|s].
  - destruct H as (k & req & -> & Hk & Hp). f_equal. apply (NoDup_lookup _ _ _ path Hnd); [|done].
    apply list_lookup_fmap_Some. by exists req.
  - exfalso. apply H. by eapply list_elem_of_lookup_2.
Qed.

Lemma new_locator_cases alloc descriptor_set root_type :
  let locator := new_locator alloc descriptor_set root_type in
  match parse alloc descriptor_set root_type with
  | Value _ => locator_ok locator /\ exists m, messages_ locator !! root_index_ locator = Some m /\
      (root_type = [] -> roots (messages_ locator) = [m]) /\
      (root_type <> [] -> full_name m = normalizeProtoTypeName root_type)
  | Failed s => status_ locator = s /\ isError s = true /\ ParserCore.message s <> []
  end.
Proof.
  cbn zeta. unfold new_locator. destruct (parse_spec alloc descriptor_set root_type) as [Hf Hok].
  destruct (parse alloc descriptor_set root_type) as [[messages root]|s]; cbn; [|done].
  destruct (Hok messages root eq_refl) as (Hs & m & Hm & Hroot). split; [|by exists m].
  split_and!; [done..|]. cbn. by apply lookup_lt_Some in Hm.
Qed.

(** * Properties *)

(** C17 Whatever the bytes of a [FileDescriptorSet], the root type and the
    allocator, decoding ends: either with an error that has a message (no
    recursion is cut short by the model), or with a schema whose message names are
    distinct and in each of whose messages the field names are distinct and
    nonempty, the numbers strictly ascending and within protobuf's range and the
    types known; the root is then the message asked for, or the only top-level
    one. *)
Theorem locator_schema alloc descriptor_set root_type :
  let locator := new_locator alloc descriptor_set root_type in
  if isOk (status_ locator) then
    locator_ok locator /\
    exists m, messages_ locator !! root_index_ locator = Some m /\
      (root_type = [] -> roots (messages_ locator) = [m]) /\
      (root_type <> [] -> full_name m = normalizeProtoTypeName root_type)
  else isError (status_ locator) = true /\ ParserCore.message (status_ locator) <> [].
Proof.
  pose proof (new_locator_cases alloc descriptor_set root_type) as H. cbn zeta in *.
  destruct (parse _ _ _) as [p|s].
  - destruct H as [Hok Hroot]. pose proof Hok as [Hs _]. rewrite Hs. done.
  - destruct H as (-> & He & Hm). by destruct s as [[] msg].
Qed.

(** [locate] compiles exactly the paths of the schema: on a decoded locator it
    ends without indexing out of bounds, and returns a plan just when there is at
    least one path, no path twice, and each path names a field reached from the
    root through singular message fields, at most 64 deep; the plan then holds
    the paths in order, each with the numbers that lead to its field, and
    [field] and [numberPath] answer for each.  Otherwise it returns an error. *)
Theorem locate_exact locator root paths :
  locator_ok locator -> messages_ locator !! root_index_ locator = Some root ->
  exists r, locate locator paths = Val r /\
    match r with
    | Failed s => isError s = true /\
      ~ (paths <> [] /\ NoDup paths /\ Forall (fun p => exists ns, resolved locator root (mkRequested p ns)) paths)
    | Value plan => paths <> [] /\ NoDup paths /\ map rf_path plan = paths /\
      Forall (resolved locator root) plan /\
      (forall i p, paths !! i = Some p -> exists req, plan !! i = Some req /\
         field plan p = Value i /\ numberPath plan i = Value (rf_numbers req))
    end.
Proof.
  intros Hok Hroot. destruct (locate_spec locator root paths Hok Hroot) as (r & Hl & Hf & Hr).
  exists r. split; [done|]. destruct r as [plan|s].
  - destruct (proj1 (Hr plan) eq_refl) as (Hne & Hnd & Hm & Hres). split_and!; try done.
    intros i p Hi. rewrite <-Hm in Hi. pose proof (field_at plan p i ltac:(by rewrite Hm) Hi) as Hfield.
    apply list_lookup_fmap_Some in Hi as (req & -> & Hreq). exists req. split_and!; [done..|].
    unfold numberPath. by rewrite Hreq.
  - destruct Hf as [He _]. split; [done|]. intros (Hne & Hnd & Hall).
    destruct (plan_of locator root paths Hall) as (plan & Hm & Hp).
    assert (Failed s = Value plan) as [=]. by apply Hr.
Qed.

Definition sample_messages : list ProtoSchemaMessage :=
  [mkSchemaMessage (str "p.Outer")
     [mkSchemaField (str "inner") 1 11 (str "p.Inner") false; mkSchemaField (str "x") 2 3 [] true] true;
   mkSchemaMessage (str "p.Inner") [mkSchemaField (str "v") 5 1 [] false] false].

Lemma sample_messages_ok : schema_ok sample_messages.
Proof.
  split; [by_compute|].
  repeat (apply Forall_cons; split); [split_and!..|constructor]; try by_compute.
  all: repeat (apply Forall_cons; split); try apply Forall_nil_2; unfold field_valid; cbn;
    split_and!; (done || lia || auto).
  all: repeat constructor.
Qed.

Example locate_exact_witness :
  exists r, locate (mkLocator sample_messages 0 status_ok) [str "inner.v"; str "x"] = Val r /\ hasValue r = true.
Proof.
  destruct (locate_exact (mkLocator sample_messages 0 status_ok)
    (mkSchemaMessage (str "p.Outer")
     [mkSchemaField (str "inner") 1 11 (str "p.Inner") false; mkSchemaField (str "x") 2 3 [] true] true)
    [str "inner.v"; str "x"]) as (r & Hr & _).
  - split; [reflexivity|]. split; [exact sample_messages_ok|]. cbn. lia.
  - reflexivity.
  - exists r. split; [exact Hr|].
    assert (Val (Value [mkRequested (str "inner.v") [1; 5]; mkRequested (str "x") [2]]) = Val r) as [= <-]
      by (rewrite <-Hr; vm_compute; reflexivity).
    reflexivity.
Defined.
