(* ===== verification/ProtoDescriptor.v ===== *)
(** * ProtoDescriptor: schemas written as [FileDescriptorSet]s and read back

    A [FileDescriptorSet] with the declarations a schema comes from, spelled with
    the tags of [descriptor.proto] that [proto_field_locator.hpp] reads, decodes
    to that schema; its paths compile, and find the fields of messages. *)

From Stdlib Require Import Sorting.Sorted.
From stdpp Require Import sorting.
From S2P Require Import Prelude Text ParserCore ProtobufWire ProtoReader ProtoMessages ProtoSchema ProtoLocator.

(** ** Declarations *)

Inductive declaration : Type :=
  | Declare_ (name : bytes) (fields : list ProtoSchemaField) (nested : list declaration).

Record file_declaration : Type := mkFile { fd_package : bytes; fd_messages : list declaration }.

Definition field_items (f : ProtoSchemaField) : list item :=
  [IValue 1 (WBytes (sf_name f)); IValue 3 (WVarint (sf_number f));
   IValue 4 (WVarint (if sf_repeated f then 3 else 1)); IValue 5 (WVarint (sf_type f))] ++
  (if sf_type f =? 11 then [IValue 6 (WBytes (str "." ++ sf_type_name f))] else []).

Definition block (n : Z) (items : list item) : item := IValue n (WBytes (enc_items items)).

Fixpoint declaration_items (d : declaration) : list item :=
  match d with
  | Declare_ name fields nested =>
    IValue 1 (WBytes name) :: map (fun f => block 2 (field_items f)) fields ++
    map (fun d' => block 3 (declaration_items d')) nested
  end.

Definition file_items (f : file_declaration) : list item :=
  IValue 2 (WBytes (fd_package f)) :: map (fun d => block 4 (declaration_items d)) (fd_messages f).

Definition set_items (files : list file_declaration) : list item :=
  map (fun f => block 1 (file_items f)) files.

(** The messages of a declaration, outer ones first. *)
Fixpoint flatten (parent : bytes) (top : bool) (d : declaration) : list ProtoSchemaMessage :=
  match d with
  | Declare_ name fields nested =>
    mkSchemaMessage (qualified parent name) (merge_sort number_not_after fields) top ::
    flat_map (flatten (qualified parent name) false) nested
  end.

Definition flatten_files (files : list file_declaration) : list ProtoSchemaMessage :=
  flat_map (fun f => flat_map (flatten (fd_package f) true) (fd_messages f)) files.

(** Every block of the encoding fits a length, and no list of the reader overflows. *)
Definition encodable (items : list item) : Prop := items_wf items /\ Z.of_nat (length items) <= kMaximumFields.

(** A declaration [levels] deep at most. *)
Fixpoint declaration_ok (levels : nat) (d : declaration) : Prop :=
  match levels, d with
  | O, _ => False
  | S levels', Declare_ name fields nested =>
    name <> [] /\ encodable (declaration_items d) /\ Forall (fun f => encodable (field_items f)) fields /\
    Forall field_valid fields /\ NoDup (map sf_name fields) /\ NoDup (map sf_number fields) /\
    Forall (declaration_ok levels') nested
  end.

Definition files_ok (files : list file_declaration) : Prop :=
  encodable (set_items files) /\
  Forall (fun f => encodable (file_items f) /\ Forall (declaration_ok 64) (fd_messages f)) files /\
  NoDup (map full_name (flatten_files files)).

(** ** Reading blocks back *)

Lemma items_with_app n a b : items_with n (a ++ b) = items_with n a ++ items_with n b.
Proof. unfold items_with. apply List.filter_app. Qed.

Lemma items_with_blocks {A} n m (f : A -> list item) l :
  items_with n (map (fun a => block m (f a)) l) = if m =? n then map (fun a => block m (f a)) l else [].
Proof.
  unfold items_with, block. induction l as [|a l IH]; cbn; [by destruct (m =? n)|]. rewrite IH.
  by destruct (m =? n).
Qed.

Lemma items_with_length n items : (length (items_with n items) <= length items)%nat.
Proof. apply List.filter_length_le. Qed.

Section Read.
Context (alloc : Z -> bool) (Halloc : forall size, alloc size = true).

Lemma read_matching items n :
  encodable items -> items_depth items <= 0 -> field_ok n ->
  exists l, matching alloc (proto_reader (enc_items items)) n = Value l /\
    fl_fields l = map field_of (items_with n items).
Proof.
  intros [Hwf Hl] Hd Hn. apply matching_items; try done; unfold kMaxRecursionDepth; [lia|].
  pose proof (items_with_length n items). lia.
Qed.

Lemma read_last_item items n :
  encodable items -> items_depth items <= 0 -> field_ok n ->
  last_field alloc (proto_reader (enc_items items)) n =
    match last (items_with n items) with
    | Some it => Value (field_of it)
    | None => perr "protobuf field is absent"
    end.
Proof.
  intros He Hd Hn. destruct (read_matching items n He Hd Hn) as (l & Hm & Hf).
  unfold last_field, fl_back. rewrite Hm. cbn [pbind]. rewrite Hf, fmap_last.
  by destruct (last (items_with n items)).
Qed.

(** A list of blocks is handled block by block. *)
Lemma each_blocks {A St} (handle : St -> Field -> PjExpected St) n (f : A -> list item)
    (next : St -> A -> St) (ok : St -> list A -> Prop) l st :
  (forall st a l, ok st (a :: l) ->
     handle st (mkField n pLengthDelimited 0 (enc_items (f a))) = Value (next st a) /\ ok (next st a) l) ->
  ok st l ->
  each handle st (map field_of (map (fun a => block n (f a)) l)) = Value (foldl next st l).
Proof.
  intros Hstep. revert st. induction l as [|a l IH]; intros st Hok; [done|].
  cbn [map each foldl]. destruct (Hstep st a l Hok) as [H1 H2]. unfold block at 1. cbn [field_of].
  rewrite H1. cbn [pbind]. by apply IH.
Qed.

(** The only field with a number. *)
Lemma read_one items n it :
  encodable items -> items_depth items <= 0 -> field_ok n -> items_with n items = [it] ->
  last_field alloc (proto_reader (enc_items items)) n = Value (field_of it).
Proof. intros He Hd Hn H. by rewrite read_last_item, H. Qed.

Lemma read_number items n v :
  encodable items -> items_depth items <= 0 -> field_ok n ->
  items_with n items = [IValue n (WVarint v)] ->
  pr_varint alloc (proto_reader (enc_items items)) n = Value v.
Proof. intros He Hd Hn H. unfold pr_varint. by rewrite (read_one items n _ He Hd Hn H). Qed.

Lemma small_number n : (1 <=? n) && (n <=? 6) = true -> field_ok n.
Proof. unfold field_ok. change (2 ^ 29) with 536870912. intros H. bprop. lia. Qed.

Lemma normalize_dotted name : normalizeProtoTypeName (str "." ++ name) = name.
Proof. done. Qed.

Lemma wrap_range_small v : 1 <= v <= 536870911 -> wrap 32 v = v.
Proof. intros. apply wrap_small. unfold in_u. change (2 ^ 32) with 4294967296. lia. Qed.

Lemma parseField_items f :
  field_valid f -> encodable (field_items f) ->
  parseField alloc (enc_items (field_items f)) = Value f.
Proof.
  intros (Hname & Hnum & Htype & H10 & Hty) He.
  assert (items_depth (field_items f) <= 0) as Hd by (unfold field_items; by destruct (_ =? 11)).
  unfold parseField.
  rewrite (read_one _ 1 (IValue 1 (WBytes (sf_name f))) He Hd (small_number 1 eq_refl))
    by (unfold field_items; by destruct (sf_type f =? 11)).
  rewrite (read_number _ 3 (sf_number f) He Hd (small_number 3 eq_refl))
    by (unfold field_items; by destruct (sf_type f =? 11)).
  rewrite (read_number _ 4 (if sf_repeated f then 3 else 1) He Hd (small_number 4 eq_refl))
    by (unfold field_items; by destruct (sf_type f =? 11)).
  rewrite (read_number _ 5 (sf_type f) He Hd (small_number 5 eq_refl))
    by (unfold field_items; by destruct (sf_type f =? 11)).
  cbn [field_of f_bytes is_bytes f_wire_type wire_eqb negb orb].
  rewrite bool_decide_false by done. rewrite !wrap_range_small by lia.
  assert ((_ || (sf_type f =? 10)) = false) as ->
    by (destruct (sf_repeated f); rewrite !orb_false_iff; split_and!; blia).
  assert (((if sf_repeated f then 3 else 1) =? 3) = sf_repeated f) as -> by (by destruct (sf_repeated f)).
  destruct (sf_type f =? 11) eqn:E.
  - rewrite (read_one _ 6 (IValue 6 (WBytes (str "." ++ sf_type_name f))) He Hd (small_number 6 eq_refl))
      by (unfold field_items; by rewrite E).
    cbn [field_of f_bytes is_bytes f_wire_type wire_eqb negb]. rewrite normalize_dotted. by destruct f.
  - destruct Hty as [Hty|Hty]; [blia|]. rewrite <-Hty. by destruct f.
Qed.

Lemma fields_items fields pre :
  Forall field_valid fields -> Forall (fun f => encodable (field_items f)) fields ->
  each (parse_field_entry alloc) pre (map field_of (map (fun f => block 2 (field_items f)) fields))
  = Value (pre ++ fields).
Proof.
  intros Hv He.
  rewrite (each_blocks _ 2 field_items (fun st f => st ++ [f])
    (fun _ l => Forall field_valid l /\ Forall (fun f => encodable (field_items f)) l)).
  - f_equal. clear. revert pre. induction fields as [|f l IH]; intros pre; cbn; [by rewrite app_nil_r|].
    rewrite IH, <-app_assoc. done.
  - intros st f l [[H1 H2]%Forall_cons [H3 H4]%Forall_cons]. split; [|done].
    unfold parse_field_entry. cbn [is_bytes f_wire_type f_bytes wire_eqb negb].
    by rewrite parseField_items.
  - done.
Qed.

(** ** Ordering fields *)

Lemma no_repeats {A K} (key : A -> K) (eqb : A -> A -> bool) l :
  (forall a b, eqb a b = true -> key a = key b) -> NoDup (map key l) -> repeats eqb l = false.
Proof.
  intros He. induction l as [|a l IH]; [done|]. cbn [map]. intros [Ha Hl]%NoDup_cons.
  cbn [repeats]. destruct l as [|b l]; [done|]. rewrite (IH Hl), orb_false_r.
  apply not_true_iff_false. intros E%He. apply Ha. rewrite E. apply elem_of_cons. by left.
Qed.

(** Numbers order fields: the sort by name leaves no trace. *)
Lemma order_distinct fields :
  NoDup (map sf_name fields) -> NoDup (map sf_number fields) ->
  order_fields fields = Value (merge_sort number_not_after fields).
Proof.
  intros Hn Hm. unfold order_fields.
  assert (merge_sort name_not_after fields ≡ₚ fields) as Hp by apply merge_sort_Permutation.
  assert (merge_sort number_not_after (merge_sort name_not_after fields) ≡ₚ fields) as Hp2
    by (rewrite merge_sort_Permutation; apply merge_sort_Permutation).
  rewrite (no_repeats sf_name).
  2: { intros a b. apply bytes_eqb_eq. }
  2: { change (NoDup (sf_name <$> merge_sort name_not_after fields)). by rewrite Hp. }
  rewrite (no_repeats sf_number).
  2: { intros a b. apply Z.eqb_eq. }
  2: { change (NoDup (sf_number <$> merge_sort number_not_after (merge_sort name_not_after fields))). by rewrite Hp2. }
  f_equal. apply (StronglySorted_unique_strong number_not_after).
  - intros x y Hx Hy H1 H2. rewrite Hp2 in Hx. rewrite merge_sort_Permutation in Hy.
    apply Z.ltb_ge in H1, H2. assert (sf_number x = sf_number y) as Hxy by lia.
    apply list_elem_of_lookup_1 in Hx as [i Hx]. apply list_elem_of_lookup_1 in Hy as [j Hy].
    assert (i = j) as <-; [|rewrite Hx in Hy; by injection Hy].
    apply (NoDup_lookup (sf_number <$> fields) i j (sf_number x) Hm);
      apply list_lookup_fmap_Some; eauto.
  - apply (StronglySorted_merge_sort number_not_after).
  - apply (StronglySorted_merge_sort number_not_after).
  - rewrite Hp2. symmetry. apply merge_sort_Permutation.
Qed.

(** ** Declarations read back *)

Lemma blocks_depth {A} n (f : A -> list item) l : items_depth (map (fun a => block n (f a)) l) <= 0.
Proof. unfold items_depth. induction l as [|a l IH]; cbn in *; lia. Qed.

Lemma items_depth_app a b : items_depth (a ++ b) = Z.max (items_depth a) (items_depth b).
Proof.
  pose proof (items_depth_nonneg b). unfold items_depth in *.
  induction a as [|i a IH]; cbn; [lia|]. rewrite IH. lia.
Qed.

Definition names (messages : list ProtoSchemaMessage) : list bytes := map full_name messages.

Lemma names_prefix a b : NoDup (names (a ++ b)) -> NoDup (names a).
Proof. unfold names. rewrite map_app. by intros [? _]%NoDup_app. Qed.

Lemma foldl_append {A B} (g : A -> list B) l st : foldl (fun st a => st ++ g a) st l = st ++ flat_map g l.
Proof.
  revert st. induction l as [|a l IH]; intros st; cbn; [by rewrite app_nil_r|]. by rewrite IH, <-app_assoc.
Qed.

Lemma has_message_new name messages : name ∉ names messages -> has_message name messages = false.
Proof.
  intros Hn. apply not_true_iff_false. intros (m & Hin & Heq%bytes_eqb_eq)%existsb_exists.
  apply Hn. rewrite <-Heq. apply list_elem_of_In, in_map_iff. by exists m.
Qed.

Lemma declaration_parts name fields nested :
  let items := declaration_items (Declare_ name fields nested) in
  items_depth items <= 0 /\ items_with 1 items = [IValue 1 (WBytes name)] /\
  items_with 2 items = map (fun f => block 2 (field_items f)) fields /\
  items_with 3 items = map (fun d => block 3 (declaration_items d)) nested.
Proof.
  intros items.
  assert (items = [IValue 1 (WBytes name)] ++ map (fun f => block 2 (field_items f)) fields ++
    map (fun d => block 3 (declaration_items d)) nested) as -> by done.
  rewrite !items_depth_app, !items_with_app, !items_with_blocks. split_and!.
  2: done.
  - pose proof (blocks_depth 2 field_items fields). pose proof (blocks_depth 3 declaration_items nested).
    change (items_depth [IValue 1 (WBytes name)]) with 0. lia.
  - cbn. by rewrite app_nil_r.
  - done.
Qed.

(** The messages of a declaration are appended, in the order of [flatten]. *)
Lemma parseMessage_items levels : forall fuel d messages parent top depth,
  (levels < fuel)%nat -> depth + Z.of_nat levels <= 65 -> declaration_ok levels d ->
  NoDup (names (messages ++ flatten parent top d)) ->
  parseMessage alloc fuel messages (enc_items (declaration_items d)) parent top depth
  = Value (messages ++ flatten parent top d).
Proof.
  induction levels as [|levels IH]; intros fuel d messages parent top depth Hfuel Hdepth Hd Hnd; [done|].
  destruct fuel as [|fuel]; [lia|]. destruct d as [name fields nested].
  destruct Hd as (Hname & He & Hef & Hvf & Hn1 & Hn2 & Hnested).
  destruct (declaration_parts name fields nested) as (Hdep & H1 & H2 & H3).
  set (items := declaration_items (Declare_ name fields nested)) in *.
  cbn [parseMessage]. assert (depth >? kMaxRecursionDepth = false) as -> by (unfold kMaxRecursionDepth; blia).
  rewrite (read_one _ 1 (IValue 1 (WBytes name)) He Hdep (small_number 1 eq_refl) H1).
  cbn [field_of is_bytes f_wire_type f_bytes wire_eqb negb orb].
  rewrite bool_decide_false by done.
  set (full := qualified parent name) in *.
  assert (full ∉ names messages) as Hnew.
  { unfold names in Hnd. rewrite map_app in Hnd. apply NoDup_app in Hnd as (_ & Hdis & _).
    intros Hin. apply (Hdis full Hin). cbn. apply elem_of_cons. by left. }
  rewrite has_message_new by done.
  destruct (read_matching items 2 He Hdep (small_number 2 eq_refl)) as (l2 & -> & Hl2). cbn [pbind].
  rewrite Hl2, H2, fields_items by done. cbn [pbind app]. rewrite order_distinct by done. cbn [pbind].
  destruct (read_matching items 3 He Hdep (small_number 3 eq_refl)) as (l3 & -> & Hl3). cbn [pbind].
  rewrite Hl3, H3, (each_blocks _ 3 declaration_items (fun st d => st ++ flatten full false d)
    (fun st l => Forall (declaration_ok levels) l /\ NoDup (names (st ++ flat_map (flatten full false) l)))).
  - cbn [flatten]. fold full. by rewrite foldl_append, <-app_assoc.
  - intros st d l [[Hd Hl]%Forall_cons Hst]. cbn [flat_map] in Hst. rewrite app_assoc in Hst.
    cbn [is_bytes f_wire_type f_bytes wire_eqb negb]. split; [|done].
    apply IH; [lia|lia|done|]. by apply names_prefix in Hst.
  - split; [done|]. cbn [flatten] in Hnd. fold full in Hnd. by rewrite <-app_assoc.
Qed.

Lemma file_parts f :
  items_depth (file_items f) <= 0 /\ items_with 2 (file_items f) = [IValue 2 (WBytes (fd_package f))] /\
  items_with 4 (file_items f) = map (fun d => block 4 (declaration_items d)) (fd_messages f).
Proof.
  change (file_items f) with ([IValue 2 (WBytes (fd_package f))] ++
    map (fun d => block 4 (declaration_items d)) (fd_messages f)). split_and!.
  - rewrite items_depth_app. pose proof (blocks_depth 4 declaration_items (fd_messages f)).
    change (items_depth [IValue 2 (WBytes (fd_package f))]) with 0. lia.
  - by rewrite items_with_app, items_with_blocks.
  - by rewrite items_with_app, items_with_blocks.
Qed.

Lemma parseFile_items f messages :
  encodable (file_items f) -> Forall (declaration_ok 64) (fd_messages f) ->
  NoDup (names (messages ++ flat_map (flatten (fd_package f) true) (fd_messages f))) ->
  parseFile alloc messages (enc_items (file_items f))
  = Value (messages ++ flat_map (flatten (fd_package f) true) (fd_messages f)).
Proof.
  intros He Hd Hnd. destruct (file_parts f) as (Hdep & H2 & H4). unfold parseFile.
  destruct (read_matching _ 2 He Hdep (small_number 2 eq_refl)) as (l2 & -> & Hl2). cbn [pbind].
  assert (file_package l2 = Value (fd_package f)) as -> by (unfold file_package, fl_back; by rewrite Hl2, H2).
  cbn [pbind].
  destruct (read_matching _ 4 He Hdep (small_number 4 eq_refl)) as (l4 & -> & Hl4). cbn [pbind].
  rewrite Hl4, H4, (each_blocks _ 4 declaration_items (fun st d => st ++ flatten (fd_package f) true d)
    (fun st l => Forall (declaration_ok 64) l /\ NoDup (names (st ++ flat_map (flatten (fd_package f) true) l)))).
  - by rewrite foldl_append.
  - intros st d l [[H Hl]%Forall_cons Hst]. cbn [flat_map] in Hst. rewrite app_assoc in Hst. split; [|done].
    apply (parseMessage_items 64); [unfold message_fuel; lia|lia|done|by apply names_prefix in Hst].
  - done.
Qed.

Lemma parse_items files data :
  files <> [] -> files_ok files -> bv_data data <> None -> bv_size data <> 0 ->
  view_bytes data = enc_items (set_items files) ->
  forall root_type, parse alloc data root_type =
    pbind (select_root (flatten_files files) root_type) (fun root => Value (flatten_files files, root)).
Proof.
  intros Hne (He & Hfiles & Hnd) Hdata Hsize Hview root_type. unfold parse.
  rewrite bool_decide_false by done. assert (bv_size data =? 0 = false) as -> by blia. cbn [orb].
  rewrite Hview.
  destruct (read_matching (set_items files) 1 He (blocks_depth 1 file_items files) (small_number 1 eq_refl))
    as (l & -> & Hl). cbn [pbind].
  unfold set_items in Hl. rewrite items_with_blocks in Hl. cbn [Z.eqb Pos.eqb] in Hl.
  rewrite bool_decide_false by (rewrite Hl; by destruct files). rewrite Hl.
  rewrite (each_blocks _ 1 file_items
    (fun st f => st ++ flat_map (flatten (fd_package f) true) (fd_messages f))
    (fun st l => Forall (fun f => encodable (file_items f) /\ Forall (declaration_ok 64) (fd_messages f)) l /\
       NoDup (names (st ++ flatten_files l)))).
  - cbn [pbind]. by rewrite foldl_append.
  - intros st f fs [[[H1 H2] Hfs]%Forall_cons Hst]. unfold flatten_files in Hst. cbn [flat_map] in Hst.
    rewrite app_assoc in Hst. split; [|done]. unfold parse_file_entry.
    cbn [is_bytes f_wire_type f_bytes wire_eqb negb].
    by rewrite parseFile_items by (done || by apply names_prefix in Hst).
  - done.
Qed.
End Read.

(** The view of a descriptor set's encoding. *)
Definition descriptor_set (files : list file_declaration) : ByteView :=
  let data := enc_items (set_items files) in mkByteView (Some data) (Z.of_nat (length data)).

Lemma descriptor_set_view files :
  files <> [] -> files_ok files ->
  bv_size (descriptor_set files) <> 0 /\ view_bytes (descriptor_set files) = enc_items (set_items files).
Proof.
  intros Hne [[Hwf _] _]. unfold descriptor_set, view_bytes. cbn [bv_size bv_data]. rewrite Nat2Z.id, firstn_all.
  split; [|done]. intros Hlen.
  assert (enc_items (set_items files) = []) as Hnil by (apply length_zero_iff_nil; lia).
  destruct files as [|f fs]; [done|]. apply app_eq_nil in Hnil as [Hnil _].
  revert Hnil. by apply enc_item_nonempty, (items_cons item_wf _ (set_items fs)).
Qed.

Lemma new_locator_items alloc files root_type root :
  (forall size, alloc size = true) -> files <> [] -> files_ok files ->
  select_root (flatten_files files) root_type = Value root ->
  let locator := mkLocator (flatten_files files) root status_ok in
  new_locator alloc (descriptor_set files) root_type = locator /\ locator_ok locator.
Proof.
  intros Ha Hne Hfiles Hroot locator. destruct (descriptor_set_view files Hne Hfiles) as [Hsize Hview].
  pose proof (parse_items alloc Ha files (descriptor_set files) Hne Hfiles ltac:(done) Hsize Hview root_type)
    as Hparse.
  rewrite Hroot in Hparse. cbn [pbind] in Hparse.
  pose proof (new_locator_cases alloc (descriptor_set files) root_type) as Hcases.
  rewrite Hparse in Hcases. cbn zeta in Hcases. destruct Hcases as [Hok _].
  assert (new_locator alloc (descriptor_set files) root_type = locator) as H
    by (unfold new_locator; by rewrite Hparse).
  by rewrite H in Hok.
Qed.

(** * Properties *)

(** C22 From a schema's bytes to a message's fields: a locator built on the
    descriptor set of some declarations (nested at most 64 deep, with distinct
    names and numbers) keeps exactly their messages; every list of distinct paths of the
    root compiles; and in any encoded message, each planned path is located at
    the last field with its last number, in the messages the numbers before it lead
    to. *)
Theorem fields_found alloc files root_type root m paths items :
  (forall size, alloc size = true) -> files <> [] -> files_ok files ->
  select_root (flatten_files files) root_type = Value root -> flatten_files files !! root = Some m ->
  paths <> [] -> NoDup paths ->
  let locator := mkLocator (flatten_files files) root status_ok in
  Forall (fun p => exists ns, resolved locator m (mkRequested p ns)) paths ->
  new_locator alloc (descriptor_set files) root_type = locator /\
  exists plan, locate locator paths = Val (Value plan) /\
    forall i p ns it, paths !! i = Some p -> path_to (flatten_files files) m (split_on (ch ".") p) ns ->
      found_at items ns it ->
      field plan p = Value i /\
      plan_locate alloc plan (proto_reader (enc_items items)) i = Value (field_of it).
Proof.
  intros Ha Hne Hfiles Hroot Hm Hpaths Hnd locator Hall.
  destruct (new_locator_items alloc files root_type root Ha Hne Hfiles Hroot) as [-> Hok]. split; [done|].
  destruct (locate_spec locator m paths Hok Hm) as (r & Hl & _ & Hr).
  destruct (plan_of locator m paths Hall) as (plan & Hmap & Hp).
  assert (r = Value plan) as -> by (by apply Hr).
  exists plan. split; [done|]. intros i p ns it Hi Hpath Hfound.
  rewrite <-Hmap in Hi. split; [apply field_at; [by rewrite Hmap|done]|].
  apply list_lookup_fmap_Some in Hi as (req & -> & Hreq). unfold plan_locate. rewrite Hreq.
  destruct (Forall_lookup_1 _ _ _ _ Hp Hreq) as [Hpath' Hdepth]. destruct Hok as (_ & Hschema & _).
  assert (rf_numbers req = ns) as Hns.
  { eapply path_to_functional; [exact Hschema| |exact Hpath'|exact Hpath]. by eapply list_elem_of_lookup_2. }
  rewrite Hns in Hdepth |- *. assert (Z.of_nat (length ns) >? kMaxRecursionDepth = false) as -> by blia.
  by apply locate_found.
Qed.

Definition sample_files : list file_declaration :=
  [mkFile (str "p") [Declare_ (str "Outer")
     [mkSchemaField (str "x") 2 3 [] true; mkSchemaField (str "inner") 1 11 (str "p.Inner") false] [];
   Declare_ (str "Inner") [mkSchemaField (str "v") 5 1 [] false] []]].

Lemma encodable_by items :
  forallb (fun it => match it with
    | IValue f (WBytes data) => (0 <? f) && (f <? 2 ^ 29) && (Z.of_nat (length data) <? 2 ^ 64)
    | IValue f (WVarint v) => (0 <? f) && (f <? 2 ^ 29) && (0 <=? v) && (v <? 2 ^ 64)
    | _ => false end) items && (Z.of_nat (length items) <=? kMaximumFields) = true ->
  encodable items.
Proof.
  intros [H Hl]%andb_prop. apply Z.leb_le in Hl. split; [|done]. clear Hl. induction items as [|it items IH]; [done|].
  cbn [forallb] in H. apply andb_prop in H as [Hit H]. split; [|by apply IH].
  destruct it as [f [v|v|v|data]|]; try done; cbn; unfold field_ok, in_u, fits; bprop; lia.
Qed.

Lemma sample_files_ok : files_ok sample_files.
Proof.
  assert (forall f, sf_type f <> 10 -> 1 <= sf_type f <= 18 -> 1 <= sf_number f <= 536870911 ->
    sf_name f <> [] -> (sf_type f = 11 \/ sf_type_name f = []) -> field_valid f) as Hv by done.
  split_and!; [apply encodable_by; vm_compute; reflexivity| |by_compute].
  apply Forall_cons. split; [|constructor]. split; [apply encodable_by; vm_compute; reflexivity|].
  repeat (apply Forall_cons; split); try apply Forall_nil_2; cbn [declaration_ok];
    split_and!; try done; try (apply encodable_by; vm_compute; reflexivity); try by_compute.
  all: repeat (apply Forall_cons; split); try apply Forall_nil_2;
    try (apply encodable_by; vm_compute; reflexivity); apply Hv; cbn; (lia || done || auto).
Qed.

Definition sample_message : list item :=
  [IValue 1 (WBytes (enc_items [IValue 5 (WFixed64 3); IValue 5 (WFixed64 7)])); IValue 2 (WVarint 4)].

Lemma sample_readable items :
  encodable items -> items_depth items <= 0 -> readable items.
Proof.
  intros [Hwf Hl] Hd. split_and!; [done|unfold kMaxRecursionDepth; lia|].
  intros n. pose proof (items_with_length n items). lia.
Qed.

Lemma sample_message_found : found_at sample_message [1; 5] (IValue 5 (WFixed64 7)).
Proof.
  apply (found_inside _ _ [IValue 5 (WFixed64 3); IValue 5 (WFixed64 7)]).
  - apply sample_readable; [|vm_compute; discriminate]. apply encodable_by. vm_compute. reflexivity.
  - by apply small_number.
  - reflexivity.
  - apply found_last; [|by apply small_number|reflexivity].
    apply sample_readable; [|vm_compute; discriminate].
    split; [cbn; unfold field_ok, in_u; lia|vm_compute; discriminate].
Qed.

Example fields_found_witness :
  let locator := mkLocator (flatten_files sample_files) 0 status_ok in
  exists plan, locate locator [str "x"; str "inner.v"] = Val (Value plan) /\
    plan_locate (fun _ => true) plan (proto_reader (enc_items sample_message)) 1 = Value (mkField 5 pFixed64 7 []).
Proof.
  assert (path_to (flatten_files sample_files) (mkSchemaMessage (str "p.Outer")
      [mkSchemaField (str "inner") 1 11 (str "p.Inner") false; mkSchemaField (str "x") 2 3 [] true] true)
      (split_on (ch ".") (str "inner.v")) [1; 5]) as Hpath.
  { apply (path_nested _ _ (mkSchemaField (str "inner") 1 11 (str "p.Inner") false)
      (mkSchemaMessage (str "p.Inner") [mkSchemaField (str "v") 5 1 [] false] true) [str "v"] [5]).
    1-5: by_compute.
    apply (path_field _ _ (mkSchemaField (str "v") 5 1 [] false)). by_compute. }
  destruct (fields_found (fun _ => true) sample_files (str ".p.Outer") 0
    (mkSchemaMessage (str "p.Outer")
      [mkSchemaField (str "inner") 1 11 (str "p.Inner") false; mkSchemaField (str "x") 2 3 [] true] true)
    [str "x"; str "inner.v"] sample_message) as (_ & plan & Hplan & Hfound).
  - reflexivity.
  - discriminate.
  - exact sample_files_ok.
  - vm_compute. reflexivity.
  - vm_compute. reflexivity.
  - discriminate.
  - by_compute.
  - apply Forall_cons. split; [|apply Forall_cons; split; [|constructor]].
    + exists [2]. split; [|vm_compute; discriminate].
      apply (path_field _ _ (mkSchemaField (str "x") 2 3 [] true)). by_compute.
    + exists [1; 5]. split; [exact Hpath|vm_compute; discriminate].
  - exists plan. split; [exact Hplan|].
    apply (Hfound 1%nat (str "inner.v") [1; 5] (IValue 5 (WFixed64 7))); [reflexivity|exact Hpath|].
    exact sample_message_found.
Defined.
