(* ===== verification/CdrSchema.v ===== *)
(** * CdrSchema: the compiler of ROS 2 message schemas

    [CdrFieldLocator] of
    [pj_base/include/pj_base/parser_module/cdr_field_locator.hpp]: a bundle of
    [.msg] texts is parsed to structs, the nested types are resolved and the
    schema graph is checked; [locate] compiles field paths to a
    [CdrTraversalPlan].  [string_view] arithmetic is on byte lists; vectors do not
    run out of memory.  A failed compilation's structs are never used ([locate]
    reports the status first), so it has none here. *)

From S2P Require Import Prelude Text ParserCore.

Inductive CdrValueKind : Set :=
  | kBool | kI8 | kU8 | kI16 | kU16 | kI32 | kU32 | kI64 | kU64 | kF32 | kF64 | kString | kStruct.

Inductive CdrContainerKind : Set := kScalar | kFixedArray | kSequence.

(** [CdrReader::CachedKind]. *)
Inductive CachedKind : Set :=
  | cUnknown | cBool | cI8 | cU8 | cI16 | cU16 | cI32 | cU32 | cI64 | cU64 | cF32 | cF64
  | cString | cBytes.

#[export] Instance value_kind_eq_dec : EqDecision CdrValueKind.
Proof. solve_decision. Defined.
#[export] Instance container_kind_eq_dec : EqDecision CdrContainerKind.
Proof. solve_decision. Defined.
#[export] Instance cached_kind_eq_dec : EqDecision CachedKind.
Proof. solve_decision. Defined.

(** An unresolved [nested_index] is the largest [size_t]; here [None]. *)
Record CdrSchemaType : Set := mkSchemaType {
  st_kind : CdrValueKind; st_container : CdrContainerKind; fixed_count : Z;
  maximum_container_count : Z; maximum_string_length : Z; nested_name : bytes;
  nested_index : option nat }.

Record CdrSchemaField : Set := mkSchemaField { sf_name : bytes; sf_type : CdrSchemaType }.
Record CdrSchemaStruct : Set := mkSchemaStruct { ss_name : bytes; ss_fields : list CdrSchemaField }.

Record CdrRequestedField : Set := mkRequestedField {
  rf_path : bytes; rf_steps : list nat; rf_cached_kind : CachedKind }.

Record CdrTraversalPlan : Set := mkTraversalPlan {
  structs : list CdrSchemaStruct; requested : list CdrRequestedField }.

Definition serr {A} (msg : string) : PjExpected A := Failed (status_error (str msg)).

Definition vbind {A B} (m : PjExpected A) (f : A -> PjExpected B) : PjExpected B :=
  match m with Value a => f a | Failed s => Failed s end.

Notation "'let*' x := m 'in' k" := (vbind m (fun x => k))
  (at level 10, x pattern, m at level 100, k at level 200) : pj_scope.

(** ** Spellings *)

(** [std::isspace] in the C locale. *)
Definition isspace (c : byte) : bool := (b2z c =? 32) || ((9 <=? b2z c) && (b2z c <=? 13)).

Fixpoint trim_front (text : bytes) : bytes :=
  match text with
  | c :: text' => if isspace c then trim_front text' else text
  | [] => []
  end.

Definition trim_back (text : bytes) : bytes := rev (trim_front (rev text)).

Definition trim (text : bytes) : bytes := trim_back (trim_front text).

Definition normalizeRosType (name : bytes) : bytes :=
  match find_sub (str "/msg/") name with
  | None => name
  | Some msg => take msg name ++ str "/" ++ drop (msg + 5) name
  end.

Fixpoint parseDecimal_loop (value : Z) (text : bytes) : PjExpected Z :=
  match text with
  | [] => Value value
  | character :: text' =>
    if negb (isAsciiDigit character) then serr "array extent is not a decimal integer"
    else
      let digit := b2z character - 48 in
      if value >? (SIZE_MAX - digit) / 10
      then serr "array extent overflows the host size type"
      else parseDecimal_loop (value * 10 + digit) text'
  end.

Definition parseDecimal (text : bytes) : PjExpected Z :=
  if bool_decide (text = []) then serr "array extent is empty" else parseDecimal_loop 0 text.

(** [!count || *count == 0]. *)
Definition positive (count : PjExpected Z) : option Z :=
  match count with Value n => if n =? 0 then None else Some n | Failed _ => None end.

(** The extent of a type spelling: container, fixed count, maximum count. *)
Definition parse_extent (spelling : bytes) (bracket : nat)
  : PjExpected (CdrContainerKind * Z * Z) :=
  if negb (bool_decide (last spelling = Some (ch "]")))
     || match find_char (ch "[") (drop (S bracket) spelling) with Some _ => true | None => false end
  then serr "unsupported ROS 2 array spelling"
  else
    let extent := take (length spelling - bracket - 2) (drop (S bracket) spelling) in
    if bool_decide (extent = []) then Value (kSequence, 0, 0)
    else if bytes_eqb (take 2 extent) (str "<=") then
      match positive (parseDecimal (drop 2 extent)) with
      | Some count => Value (kSequence, 0, count)
      | None => serr "ROS 2 bounded sequences require a positive maximum"
      end
    else
      match positive (parseDecimal extent) with
      | Some count => Value (kFixedArray, count, 0)
      | None => serr "ROS 2 fixed arrays require a positive extent"
      end.

Definition base_kind (base : bytes) : CdrValueKind :=
  if bytes_eqb base (str "bool") then kBool
  else if bytes_eqb base (str "int8") then kI8
  else if bytes_eqb base (str "uint8") || bytes_eqb base (str "byte")
          || bytes_eqb base (str "char") then kU8
  else if bytes_eqb base (str "int16") then kI16
  else if bytes_eqb base (str "uint16") then kU16
  else if bytes_eqb base (str "int32") then kI32
  else if bytes_eqb base (str "uint32") then kU32
  else if bytes_eqb base (str "int64") then kI64
  else if bytes_eqb base (str "uint64") then kU64
  else if bytes_eqb base (str "float32") then kF32
  else if bytes_eqb base (str "float64") then kF64
  else if bytes_eqb base (str "string") then kString
  else kStruct.

Definition parseCdrType (spelling : bytes) : PjExpected CdrSchemaType :=
  let bracket := find_char (ch "[") spelling in
  let base := match bracket with None => spelling | Some i => take i spelling end in
  let* (container, count, maximum) :=
    match bracket with
    | None => Value (kScalar, 0, 0)
    | Some i => parse_extent spelling i
    end in
  if bytes_eqb base (str "wstring") || bytes_eqb (take 9 base) (str "wstring<=")
  then serr "wide ROS 2 strings are not supported by CdrFieldLocator"
  else
    let* (base, maximum_length) :=
      if bytes_eqb (take 8 base) (str "string<=") then
        match positive (parseDecimal (drop 8 base)) with
        | Some n => Value (str "string", n)
        | None => serr "bounded ROS 2 strings require a positive maximum"
        end
      else Value (base, 0) in
    let kind := base_kind base in
    Value (mkSchemaType kind container count maximum maximum_length
             (if bool_decide (kind = kStruct) then normalizeRosType base else []) None).

Definition cachedKind (type : CdrSchemaType) : CachedKind :=
  match st_container type with
  | kSequence | kFixedArray => if bool_decide (st_kind type = kU8) then cBytes else cUnknown
  | kScalar =>
    match st_kind type with
    | kBool => cBool | kI8 => cI8 | kU8 => cU8 | kI16 => cI16 | kU16 => cU16
    | kI32 => cI32 | kU32 => cU32 | kI64 => cI64 | kU64 => cU64
    | kF32 => cF32 | kF64 => cF64 | kString => cString
    | kStruct => cUnknown
    end
  end.

(** ** The bundle *)

(** [text.find_first_of(...)]. *)
Fixpoint find_first (f : byte -> bool) (text : bytes) : option nat :=
  match text with
  | [] => None
  | c :: text' => if f c then Some O else option_map S (find_first f text')
  end.

Definition up_to (i : option nat) (text : bytes) : bytes :=
  match i with None => text | Some i => take i text end.

Definition is_blank (c : byte) : bool := byte_eqb c (ch " ") || (b2z c =? 9).

(** A line without its carriage return, its comment and the space around it. *)
Definition clean_line (line : bytes) : bytes :=
  let line := match last line with
              | Some c => if b2z c =? 13 then take (length line - 1) line else line
              | None => line
              end in
  trim (up_to (find_char (ch "#") line) line).

Definition add_field (f : CdrSchemaField) (s : CdrSchemaStruct) : CdrSchemaStruct :=
  mkSchemaStruct (ss_name s) (ss_fields s ++ [f]).

(** The structs read so far and the one that fields belong to. *)
Definition bundle : Type := list CdrSchemaStruct * nat.

Definition parse_msg (line : bytes) (b : bundle) : PjExpected bundle :=
  let '(structs_, current) := b in
  let name := normalizeRosType (trim (drop 4 line)) in
  if bool_decide (name = []) then serr "ROS 2 schema bundle contains an empty MSG name"
  else
    match structs_ with
    | [mkSchemaStruct [] []] => Value ([mkSchemaStruct name []], 0%nat)
    | _ =>
      if existsb (fun s => bytes_eqb (normalizeRosType (ss_name s)) name) structs_
      then serr "ROS 2 schema bundle contains a duplicate MSG name"
      else Value (structs_ ++ [mkSchemaStruct name []], length structs_)
    end.

Definition parse_field (line : bytes) (b : bundle) : PjExpected bundle :=
  let '(structs_, current) := b in
  match find_first is_blank line with
  | None => serr "malformed ROS 2 field declaration"
  | Some split =>
    let type_spelling := take split line in
    let remainder := trim (drop (S split) line) in
    let field_name :=
      up_to (find_first (fun c => is_blank c || byte_eqb c (ch "=")) remainder) remainder in
    if bool_decide (field_name = []) then serr "ROS 2 field declaration has no name"
    else if match find_char (ch "=") remainder with Some _ => true | None => false end
    then Value b
    else
      let* type := parseCdrType type_spelling in
      if match structs_ !! current with
         | Some s => existsb (fun f => bytes_eqb (sf_name f) field_name) (ss_fields s)
         | None => false
         end
      then serr "ROS 2 schema type contains a duplicate field name"
      else Value (alter (add_field (mkSchemaField field_name type)) current structs_, current)
  end.

Definition parse_line (line : bytes) (b : bundle) : PjExpected bundle :=
  let line := clean_line line in
  if bool_decide (line = []) || starts_with (str "===") line then Value b
  else if starts_with (str "---") line
  then serr "ROS 2 service/action schemas are not supported by CdrFieldLocator"
  else if starts_with (str "MSG:") line then parse_msg line b
  else parse_field line b.

Fixpoint parse_lines (lines : list bytes) (b : bundle) : PjExpected bundle :=
  match lines with
  | [] => Value b
  | line :: lines' => let* b := parse_line line b in parse_lines lines' b
  end.

(** The text stage of [parse]: the struct of every message, types unresolved. *)
Definition parse_text (schema : bytes) : PjExpected (list CdrSchemaStruct) :=
  if bool_decide (schema = []) then serr "ROS 2 .msg schema bundle is empty"
  else
    let* (structs_, _) := parse_lines (split_on (ch "010") schema) ([mkSchemaStruct [] []], 0%nat) in
    match structs_ with
    | mkSchemaStruct _ (_ :: _) :: _ => Value structs_
    | _ => serr "ROS 2 .msg root type has no fields"
    end.

(** ** Resolution and validation *)

Definition short_name (normalized : bytes) : bytes :=
  match rfind_char (ch "/") normalized with
  | None => normalized
  | Some slash => drop (S slash) normalized
  end.

Definition names_struct (name : bytes) (s : CdrSchemaStruct) : bool :=
  let normalized := normalizeRosType (ss_name s) in
  bytes_eqb normalized name || bytes_eqb (short_name normalized) name.

Fixpoint findStruct_loop (name : bytes) (index : nat) (found : option nat)
    (structs_ : list CdrSchemaStruct) : PjExpected (option nat) :=
  match structs_ with
  | [] => Value found
  | s :: structs' =>
    if names_struct name s then
      match found with
      | Some _ => serr "ROS 2 nested type name is ambiguous in the schema bundle"
      | None => findStruct_loop name (S index) (Some index) structs'
      end
    else findStruct_loop name (S index) found structs'
  end.

Definition findStruct (structs_ : list CdrSchemaStruct) (name : bytes) : PjExpected nat :=
  let* found := findStruct_loop name 0 None structs_ in
  match found with
  | None => serr "ROS 2 nested type is missing from the concatenated schema bundle"
  | Some match_ => Value match_
  end.

Definition resolve_type (structs_ : list CdrSchemaStruct) (t : CdrSchemaType)
  : PjExpected CdrSchemaType :=
  match st_kind t with
  | kStruct =>
    let* nested := findStruct structs_ (nested_name t) in
    Value (mkSchemaType kStruct (st_container t) (fixed_count t) (maximum_container_count t)
             (maximum_string_length t) (nested_name t) (Some nested))
  | _ => Value t
  end.

Fixpoint resolve_fields (structs_ : list CdrSchemaStruct) (fields : list CdrSchemaField)
  : PjExpected (list CdrSchemaField) :=
  match fields with
  | [] => Value []
  | f :: fields' =>
    let* t := resolve_type structs_ (sf_type f) in
    let* fields'' := resolve_fields structs_ fields' in
    Value (mkSchemaField (sf_name f) t :: fields'')
  end.

(** Resolution changes no name, so looking names up in the structs being resolved
    is looking them up in [structs_]. *)
Fixpoint resolve_structs (structs_ todo : list CdrSchemaStruct) : PjExpected (list CdrSchemaStruct) :=
  match todo with
  | [] => Value []
  | s :: todo' =>
    let* fields := resolve_fields structs_ (ss_fields s) in
    let* rest := resolve_structs structs_ todo' in
    Value (mkSchemaStruct (ss_name s) fields :: rest)
  end.

Definition kMaxTraversalDepth : nat := 64.

(** The struct a field's type nests. *)
Definition nested_of (t : CdrSchemaType) : option nat :=
  match st_kind t with kStruct => nested_index t | _ => None end.

(** [visit_state]: 0 new, 1 being visited, 2 done.  [Undef] stands for an access
    outside [structs_] or [visit_state] and for a call deeper than the fuel. *)
Definition visitor : Type := list nat -> exec (PjExpected (list nat)).

(** The nested types of a struct, in order. *)
Fixpoint visit_fields (visit : nat -> visitor) (fields : list CdrSchemaField) : visitor :=
  fun visit_state =>
  match fields with
  | [] => Val (Value visit_state)
  | f :: fields' =>
    match st_kind (sf_type f) with
    | kStruct =>
      match nested_index (sf_type f) with
      | Some nested =>
        let! r := visit nested visit_state in
        match r with
        | Value visit_state => visit_fields visit fields' visit_state
        | Failed e => Val (Failed e)
        end
      | None => Undef
      end
    | _ => visit_fields visit fields' visit_state
    end
  end.

Fixpoint validateSchemaGraph (fuel : nat) (structs_ : list CdrSchemaStruct) (depth : nat)
    (struct_index : nat) : visitor := fun visit_state =>
  match fuel with
  | O => Undef
  | S fuel' =>
    if (kMaxTraversalDepth <=? depth)%nat then Val (serr "ROS 2 schema nesting depth exceeds 64")
    else
      match visit_state !! struct_index, structs_ !! struct_index with
      | Some 1%nat, _ => Val (serr "ROS 2 schema contains a cyclic nested type")
      | Some 2%nat, _ => Val (Value visit_state)
      | Some _, Some s =>
        let! r := visit_fields (validateSchemaGraph fuel' structs_ (S depth)) (ss_fields s)
                    (<[struct_index := 1%nat]> visit_state) in
        Val (let* visit_state := r in Value (<[struct_index := 2%nat]> visit_state))
      | _, _ => Undef
      end
  end.

(** A call is never deeper than [kMaxTraversalDepth]. *)
Definition validate_fuel : nat := S kMaxTraversalDepth.

Fixpoint validate_all (structs_ : list CdrSchemaStruct) (indices : list nat) : visitor :=
  fun visit_state =>
  match indices with
  | [] => Val (Value visit_state)
  | index :: indices' =>
    let! r := validateSchemaGraph validate_fuel structs_ 0 index visit_state in
    match r with
    | Value visit_state => validate_all structs_ indices' visit_state
    | Failed e => Val (Failed e)
    end
  end.

(** [CdrFieldLocator::parse]; a locator is the structs it compiled, or its status. *)
Definition parse_schema (schema : bytes) : exec (PjExpected (list CdrSchemaStruct)) :=
  match (let* parsed := parse_text schema in resolve_structs parsed parsed) with
  | Failed e => Val (Failed e)
  | Value structs_ =>
    let! r := validate_all structs_ (seq 0 (length structs_)) (replicate (length structs_) 0%nat) in
    Val (let* _ := r in Value structs_)
  end.

(** ** Paths *)

Fixpoint find_field (component : bytes) (fields : list CdrSchemaField) : option nat :=
  match fields with
  | [] => None
  | f :: fields' =>
    if bytes_eqb (sf_name f) component then Some O
    else option_map S (find_field component fields')
  end.

(** [while (position < path.size())] over the components of the path, the last of
    which ends at [npos]; a path that ends with a dot leaves the loop. *)
Fixpoint compile_components (structs_ : list CdrSchemaStruct) (path : bytes)
    (components : list bytes) (struct_index : nat) (steps : list nat)
  : exec (PjExpected CdrRequestedField) :=
  match components with
  | [] => Val (serr "CDR field path is malformed")
  | component :: rest =>
    if bool_decide (component = []) then
      Val (match rest, steps with
           | [], _ :: _ => serr "CDR field path is malformed"
           | _, _ => serr "CDR field path contains an empty component"
           end)
    else
      match structs_ !! struct_index with
      | None => Undef
      | Some s =>
        match find_field component (ss_fields s) with
        | None => Val (serr "CDR field path is absent from the ROS 2 schema")
        | Some field_index =>
          match ss_fields s !! field_index with
          | None => Undef
          | Some f =>
            let steps := steps ++ [field_index] in
            let type := sf_type f in
            match rest with
            | [] =>
              Val (if bool_decide (cachedKind type = cUnknown)
                   then serr "requested CDR terminal field has an unsupported type"
                   else Value (mkRequestedField path steps (cachedKind type)))
            | _ :: _ =>
              if negb (bool_decide (st_kind type = kStruct))
                 || negb (bool_decide (st_container type = kScalar))
              then Val (serr "CDR field path may descend only through scalar nested structs")
              else if (kMaxTraversalDepth <=? length steps)%nat
              then Val (serr "CDR field path depth exceeds 64")
              else
                match nested_index type with
                | None => Undef
                | Some nested => compile_components structs_ path rest nested steps
                end
            end
          end
        end
      end
  end.

Definition compilePath (structs_ : list CdrSchemaStruct) (path : bytes)
  : exec (PjExpected CdrRequestedField) :=
  if bool_decide (path = []) then Val (serr "CDR field path is empty")
  else compile_components structs_ path (split_on (ch ".") path) 0 [].

Fixpoint locate_loop (structs_ : list CdrSchemaStruct) (paths : list bytes)
    (requested_ : list CdrRequestedField) : exec (PjExpected CdrTraversalPlan) :=
  match paths with
  | [] =>
    Val (if bool_decide (requested_ = []) then serr "at least one CDR field path is required"
         else Value (mkTraversalPlan structs_ requested_))
  | path :: paths' =>
    let! r := compilePath structs_ path in
    match r with
    | Failed e => Val (Failed e)
    | Value request =>
      if existsb (fun existing => bytes_eqb (rf_path existing) (rf_path request)) requested_
      then Val (serr "duplicate CDR field path requested")
      else locate_loop structs_ paths' (requested_ ++ [request])
    end
  end.

Definition locate (structs_ : PjExpected (list CdrSchemaStruct)) (paths : list bytes)
  : exec (PjExpected CdrTraversalPlan) :=
  match structs_ with
  | Failed e => Val (Failed e)
  | Value structs_ => locate_loop structs_ paths []
  end.

(** [CdrTraversalPlan::field]. *)
Fixpoint plan_field_from (index : nat) (path : bytes) (requested_ : list CdrRequestedField)
  : PjExpected nat :=
  match requested_ with
  | [] => serr "field path is not present in the CDR traversal plan"
  | r :: requested' =>
    if bytes_eqb (rf_path r) path then Value index else plan_field_from (S index) path requested'
  end.

Definition plan_field (plan : CdrTraversalPlan) (path : bytes) : PjExpected nat :=
  plan_field_from 0 path (requested plan).

(** ** Schemas that are fit for traversal *)

(** [nests structs_ j i]: a field of struct [i] has struct [j] as its type. *)
Definition nests (structs_ : list CdrSchemaStruct) (j i : nat) : Prop :=
  exists s f, structs_ !! i = Some s /\ f ∈ ss_fields s /\ nested_of (sf_type f) = Some j.

(** Every struct type is resolved, to a struct of the bundle. *)
Definition resolved (structs_ : list CdrSchemaStruct) : Prop :=
  forall i s f, structs_ !! i = Some s -> f ∈ ss_fields s -> st_kind (sf_type f) = kStruct ->
  exists j, nested_index (sf_type f) = Some j /\ (j < length structs_)%nat.

Lemma nested_of_struct t : st_kind t = kStruct -> nested_of t = nested_index t.
Proof. unfold nested_of. by intros ->. Qed.

(** What the depth-first search keeps true: finished structs are well-founded. *)
Definition finished_ok (structs_ : list CdrSchemaStruct) (vs : list nat) : Prop :=
  length vs = length structs_ /\
  forall i, vs !! i = Some 2%nat -> Acc (nests structs_) i.

Definition extends (vs vs' : list nat) : Prop :=
  forall i, vs !! i = Some 2%nat -> vs' !! i = Some 2%nat.

(** The outcome of a visit from [vs] that has to finish the structs [todo]. *)
Definition visit_result (structs_ : list CdrSchemaStruct) (vs : list nat) (todo : nat -> Prop)
    (r : exec (PjExpected (list nat))) : Prop :=
  match r with
  | Val (Value vs') => finished_ok structs_ vs' /\ extends vs vs' /\
                       forall j, todo j -> vs' !! j = Some 2%nat
  | Val (Failed _) => True
  | Undef => False
  end.

Lemma visit_fields_result structs_ visit fields vs :
  (forall f, f ∈ fields -> st_kind (sf_type f) = kStruct ->
    exists j, nested_index (sf_type f) = Some j /\ (j < length structs_)%nat) ->
  (forall j vs, (j < length structs_)%nat -> finished_ok structs_ vs ->
    visit_result structs_ vs (eq j) (visit j vs)) ->
  finished_ok structs_ vs ->
  visit_result structs_ vs
    (fun j => exists f, f ∈ fields /\ nested_of (sf_type f) = Some j) (visit_fields visit fields vs).
Proof.
  intros Hres Hvisit. revert vs. induction fields as [|f fields IH]; intros vs Hok.
  { cbn. split_and!; [done|by intros i|]. intros j (f & Hf & _). by apply elem_of_nil in Hf. }
  specialize (IH (fun f Hf => Hres f (list_elem_of_further _ _ _ Hf))).
  cbn [visit_fields]. destruct (decide (st_kind (sf_type f) = kStruct)) as [Hk|Hk].
  - destruct (Hres f (list_elem_of_here _ _) Hk) as (j & Hj & Hlt). rewrite Hk, Hj.
    pose proof (Hvisit j vs Hlt Hok) as H1. unfold visit_result in H1.
    destruct (visit j vs) as [[vs1|e]|]; cbn [xbind]; [|done..].
    destruct H1 as (Hok1 & Hext1 & Hj1). specialize (IH vs1 Hok1). unfold visit_result in *.
    destruct (visit_fields visit fields vs1) as [[vs2|e]|]; [|done..].
    destruct IH as (Hok2 & Hext2 & Hall). split_and!; [done|by intros i Hi; apply Hext2, Hext1|].
    intros k (g & Hg & Hnest). apply elem_of_cons in Hg as [->|Hg]; [|apply Hall; by exists g].
    rewrite nested_of_struct in Hnest by done. assert (k = j) as -> by congruence.
    by apply Hext2, Hj1.
  - assert (visit_fields visit (f :: fields) vs = visit_fields visit fields vs) as Heq.
    { cbn [visit_fields]. by destruct (st_kind (sf_type f)). }
    cbn [visit_fields] in Heq. rewrite Heq. specialize (IH vs Hok). unfold visit_result in *.
    destruct (visit_fields visit fields vs) as [[vs2|e]|]; [|done..].
    destruct IH as (Hok2 & Hext2 & Hall). split_and!; [done..|].
    intros k (g & Hg & Hnest). apply elem_of_cons in Hg as [->|Hg]; [|apply Hall; by exists g].
    unfold nested_of in Hnest. by destruct (st_kind (sf_type f)).
Qed.

Lemma finished_ok_gray structs_ vs i :
  finished_ok structs_ vs -> finished_ok structs_ (<[i := 1%nat]> vs).
Proof.
  intros [Hl Hok]. split; [by rewrite length_insert|]. intros k Hk.
  apply list_lookup_insert_Some in Hk as [(_ & ? & _)|[_ Hk]]; [done|by apply Hok].
Qed.

Lemma validate_result structs_ fuel : forall depth i vs,
  resolved structs_ -> (depth + fuel = validate_fuel)%nat -> (depth <= kMaxTraversalDepth)%nat ->
  (i < length structs_)%nat -> finished_ok structs_ vs ->
  visit_result structs_ vs (eq i) (validateSchemaGraph fuel structs_ depth i vs).
Proof.
  induction fuel as [|fuel IH]; intros depth i vs Hres Hfuel Hdepth Hi Hok;
    [unfold validate_fuel in *; lia|].
  cbn [validateSchemaGraph]. destruct (kMaxTraversalDepth <=? depth)%nat eqn:Ed; [done|].
  apply Nat.leb_gt in Ed.
  destruct (lookup_lt_is_Some_2 structs_ i Hi) as [s Hs].
  destruct (lookup_lt_is_Some_2 vs i ltac:(destruct Hok; lia)) as [state Hstate].
  rewrite Hstate, Hs.
  assert (visit_result structs_ vs (eq i)
    (let! r := visit_fields (validateSchemaGraph fuel structs_ (S depth)) (ss_fields s)
                    (<[i := 1%nat]> vs) in
     Val (let* vs' := r in Value (<[i := 2%nat]> vs'))) \/ state = 2%nat) as Hvisit.
  { destruct (decide (state = 2%nat)); [by right|left].
    pose proof (visit_fields_result structs_ (validateSchemaGraph fuel structs_ (S depth))
      (ss_fields s) (<[i := 1%nat]> vs)) as H.
    specialize (H (fun f Hf Hk => Hres i s f Hs Hf Hk)).
    specialize (H (fun j vs' Hj Hok' => IH (S depth) j vs' Hres ltac:(lia) ltac:(lia) Hj Hok')).
    specialize (H (finished_ok_gray _ _ i Hok)). unfold visit_result in *.
    destruct (visit_fields _ _ _) as [[vs'|e]|]; cbn; [|done..].
    destruct H as ([Hl' Hok'] & Hext & Hall).
    assert (vs !! i = Some 2%nat -> False) as Hnot by congruence.
    split_and!.
    - split; [by rewrite length_insert|]. intros k Hk.
      apply list_lookup_insert_Some in Hk as [(-> & _ & _)|[_ Hk]]; [|by apply Hok'].
      constructor. intros j (s' & f & Hs' & Hf & Hnest). assert (s' = s) as -> by congruence.
      apply Hok', Hall. by exists f.
    - intros k Hk. destruct (decide (k = i)) as [->|]; [done|].
      rewrite list_lookup_insert_ne by done. apply Hext. by rewrite list_lookup_insert_ne.
    - intros k <-. apply list_lookup_insert_eq. lia. }
  destruct state as [|[|[|state]]]; [by destruct Hvisit|done| |by destruct Hvisit].
  cbn. split_and!; [done|by intros k|]. by intros k <-.
Qed.

Lemma validate_all_result structs_ indices vs :
  resolved structs_ -> (forall i, i ∈ indices -> (i < length structs_)%nat) ->
  finished_ok structs_ vs ->
  visit_result structs_ vs (fun j => j ∈ indices) (validate_all structs_ indices vs).
Proof.
  intros Hres. revert vs. induction indices as [|i indices IH]; intros vs Hin Hok.
  { cbn. split_and!; [done|by intros k|]. intros j Hj. by apply elem_of_nil in Hj. }
  cbn [validate_all].
  pose proof (validate_result structs_ validate_fuel 0 i vs Hres eq_refl ltac:(lia)
    (Hin i (list_elem_of_here _ _)) Hok) as H. unfold visit_result in H.
  destruct (validateSchemaGraph _ _ _ _ _) as [[vs1|e]|]; cbn [xbind]; [|done..].
  destruct H as (Hok1 & Hext1 & Hi).
  specialize (IH vs1 (fun k Hk => Hin k (list_elem_of_further _ _ _ Hk)) Hok1).
  unfold visit_result in *. destruct (validate_all structs_ indices vs1) as [[vs2|e]|]; [|done..].
  destruct IH as (Hok2 & Hext2 & Hall). split_and!; [done|by intros k Hk; apply Hext2, Hext1|].
  intros j Hj. apply elem_of_cons in Hj as [->|Hj]; [by apply Hext2, Hi|by apply Hall].
Qed.

Lemma finished_ok_new structs_ : finished_ok structs_ (replicate (length structs_) 0%nat).
Proof.
  split; [by rewrite length_replicate|]. intros i Hi. by apply lookup_replicate in Hi as [? _].
Qed.

Lemma seq_below n i : i ∈ seq 0 n <-> (i < n)%nat.
Proof. rewrite elem_of_seq. lia. Qed.

(** Validation of a resolved schema accepts only well-founded nestings. *)
Lemma validate_sound structs_ :
  resolved structs_ ->
  match validate_all structs_ (seq 0 (length structs_)) (replicate (length structs_) 0%nat) with
  | Val (Value _) => well_founded (nests structs_)
  | Val (Failed _) => True
  | Undef => False
  end.
Proof.
  intros Hres.
  pose proof (validate_all_result structs_ (seq 0 (length structs_)) _ Hres
    (fun i => proj1 (seq_below _ i)) (finished_ok_new structs_)) as H.
  unfold visit_result in H. destruct (validate_all _ _ _) as [[vs|e]|]; [|done..].
  destruct H as ([Hl Hok] & _ & Hall). intros i.
  destruct (decide (i < length structs_)%nat) as [Hi|Hi].
  - apply Hok, Hall. by apply seq_below.
  - constructor. intros j (s & f & Hs & _). apply lookup_lt_Some in Hs. lia.
Qed.

(** *** Every nesting that is shallow enough is accepted *)

Section Shallow.
Context (structs_ : list CdrSchemaStruct) (rank : nat -> nat).
Context (Hres : resolved structs_).
Context (Hrank : forall i j, nests structs_ j i -> (rank j < rank i)%nat).

(** Only ancestors, which rank higher, are being visited. *)
Definition gray_above (i : nat) (vs : list nat) : Prop :=
  length vs = length structs_ /\
  forall k, vs !! k = Some 1%nat -> (rank i <= rank k)%nat /\ k <> i.

Definition same_gray (vs vs' : list nat) : Prop :=
  length vs = length vs' /\ forall k, vs' !! k = Some 1%nat -> vs !! k = Some 1%nat.

Lemma visit_fields_accepts visit fields vs :
  (forall f, f ∈ fields -> st_kind (sf_type f) = kStruct ->
    exists j, nested_index (sf_type f) = Some j /\ (j < length structs_)%nat /\
      (forall vs', same_gray vs vs' -> exists vs'', visit j vs' = Val (Value vs'') /\ same_gray vs' vs'')) ->
  exists vs', visit_fields visit fields vs = Val (Value vs') /\ same_gray vs vs'.
Proof.
  intros Hvisit.
  assert (forall vs0, same_gray vs vs0 ->
    exists vs', visit_fields visit fields vs0 = Val (Value vs') /\ same_gray vs0 vs') as Hgen.
  { induction fields as [|f fields IH]; intros vs0 Hgray.
    { exists vs0. done. }
    specialize (IH (fun f Hf => Hvisit f (list_elem_of_further _ _ _ Hf))).
    cbn [visit_fields]. destruct (decide (st_kind (sf_type f) = kStruct)) as [Hk|Hk].
    - destruct (Hvisit f (list_elem_of_here _ _) Hk) as (j & Hj & _ & Hv). rewrite Hk, Hj.
      destruct (Hv vs0 Hgray) as (vs1 & -> & Hg1 & Hg1'). cbn [xbind]. destruct Hgray as [Hg Hg'].
      destruct (IH vs1) as (vs2 & -> & Hl2 & Hg2).
      { split; [congruence|]. intros k Hk1. apply Hg', Hg1', Hk1. }
      exists vs2. split; [done|]. split; [congruence|]. intros k Hk2. apply Hg1', Hg2, Hk2.
    - destruct (IH vs0 Hgray) as (vs1 & Hvs1 & Hgray1). exists vs1. split; [|done].
      by destruct (st_kind (sf_type f)). }
  by apply Hgen.
Qed.

Lemma validate_accepts fuel : forall depth i vs,
  (depth + fuel = validate_fuel)%nat -> (depth + rank i < kMaxTraversalDepth)%nat ->
  (i < length structs_)%nat -> gray_above i vs ->
  exists vs', validateSchemaGraph fuel structs_ depth i vs = Val (Value vs') /\ same_gray vs vs'.
Proof.
  induction fuel as [|fuel IH]; intros depth i vs Hfuel Hdepth Hi [Hl Hgray];
    [unfold validate_fuel in *; lia|].
  cbn [validateSchemaGraph].
  rewrite (proj2 (Nat.leb_gt kMaxTraversalDepth depth)) by lia.
  destruct (lookup_lt_is_Some_2 structs_ i Hi) as [s Hs].
  destruct (lookup_lt_is_Some_2 vs i ltac:(lia)) as [state Hstate]. rewrite Hstate, Hs.
  assert (exists vs', (let! r := visit_fields (validateSchemaGraph fuel structs_ (S depth)) (ss_fields s)
                    (<[i := 1%nat]> vs) in
     Val (let* vs' := r in Value (<[i := 2%nat]> vs'))) = Val (Value vs') /\ same_gray vs vs') as Hvisit.
  { destruct (visit_fields_accepts (validateSchemaGraph fuel structs_ (S depth)) (ss_fields s)
      (<[i := 1%nat]> vs)) as (vs' & -> & Hl' & Hg').
    - intros f Hf Hk. destruct (Hres i s f Hs Hf Hk) as (j & Hj & Hlt). exists j.
      split_and!; [done..|]. intros vs' [Hl' Hg']. rewrite length_insert in Hl'.
      assert (rank j < rank i)%nat as Hr.
      { apply Hrank. exists s, f. rewrite nested_of_struct by done. done. }
      apply IH; [lia|lia|done|]. split; [lia|]. intros k Hk1.
      apply Hg', list_lookup_insert_Some in Hk1 as [(-> & _ & _)|[Hne Hk1]].
      + split; [lia|]. intros ->. lia.
      + apply Hgray in Hk1 as [Hge _]. split; [lia|]. intros ->. lia.
    - rewrite length_insert in Hl'. exists (<[i := 2%nat]> vs'). cbn. split; [done|].
      split; [by rewrite length_insert|]. intros k Hk.
      apply list_lookup_insert_Some in Hk as [(_ & ? & _)|[Hne Hk]]; [done|].
      apply Hg', list_lookup_insert_Some in Hk as [(-> & _)|[_ Hk]]; done. }
  destruct state as [|[|[|state]]]; [done| | |done].
  - exfalso. by apply Hgray in Hstate as [_ ?].
  - exists vs. split; [done|]. done.
Qed.

Lemma validate_all_accepts indices vs :
  (forall i, i ∈ indices -> (i < length structs_)%nat) ->
  (forall i, (i < length structs_)%nat -> (rank i < kMaxTraversalDepth)%nat) ->
  length vs = length structs_ -> (forall k, vs !! k <> Some 1%nat) ->
  exists vs', validate_all structs_ indices vs = Val (Value vs').
Proof.
  intros Hin Hshallow. revert vs. induction indices as [|i indices IH]; intros vs Hl Hgray.
  { by exists vs. }
  cbn [validate_all].
  destruct (validate_accepts validate_fuel 0 i vs) as (vs1 & -> & Hl1 & Hg1);
    [done|by apply Hshallow, Hin; left|by apply Hin; left|split; [done|]|].
  { intros k Hk. by apply Hgray in Hk. }
  cbn [xbind]. apply IH; [|congruence|].
  - intros j Hj. apply Hin. by right.
  - intros k Hk. by apply (Hgray k), Hg1.
Qed.
End Shallow.

(** ** Resolution *)

Lemma findStruct_loop_spec name structs_ : forall index found j,
  findStruct_loop name index found structs_ = Value (Some j) ->
  match found with
  | Some f => j = f /\ forall k s, structs_ !! k = Some s -> names_struct name s = false
  | None => (index <= j)%nat /\
      forall k s, structs_ !! k = Some s -> (names_struct name s = true <-> (index + k = j)%nat)
  end /\ (found = None -> (j < index + length structs_)%nat).
Proof.
  induction structs_ as [|s structs_ IH]; intros index found j; cbn [findStruct_loop].
  { intros [= ->]. done. }
  destruct (names_struct name s) eqn:E.
  - destruct found as [f|]; [done|]. intros H. apply IH in H as [[-> Hno] _].
    cbn [length]. split; [|lia]. split; [lia|]. intros [|k] s' Hs'; cbn in Hs'.
    + injection Hs' as <-. rewrite E. split; [lia|done].
    + rewrite (Hno k s' Hs'). split; [done|lia].
  - intros H. apply IH in H as [H Hlt]. destruct found as [f|].
    + destruct H as [-> Hno]. split; [|done]. split; [done|].
      intros [|k] s' Hs'; cbn in Hs'; [by injection Hs' as <-|by apply (Hno k)].
    + destruct H as [Hle Hk]. specialize (Hlt eq_refl). cbn [length]. split; [|lia]. split; [lia|].
      intros [|k] s' Hs'; cbn in Hs'.
      * injection Hs' as <-. rewrite E. split; [done|lia].
      * rewrite (Hk k s' Hs'). lia.
Qed.

(** The struct a type name stands for is the only one with that (short) name. *)
Definition stands_for (structs_ : list CdrSchemaStruct) (name : bytes) (j : nat) : Prop :=
  (j < length structs_)%nat /\
  forall k s, structs_ !! k = Some s -> (names_struct name s = true <-> k = j).

Lemma findStruct_spec structs_ name j :
  findStruct structs_ name = Value j -> stands_for structs_ name j.
Proof.
  unfold findStruct. destruct (findStruct_loop name 0 None structs_) as [[k|]|e] eqn:E; cbn;
    [|done..]. intros [= ->]. apply findStruct_loop_spec in E as [[_ Hk] Hlt].
  split; [by apply Hlt|]. exact Hk.
Qed.

(** The type [t] with its nested index set, as [resolve_type] returns it. *)
Definition resolved_type (structs_ : list CdrSchemaStruct) (t t' : CdrSchemaType) : Prop :=
  st_kind t' = st_kind t /\ st_container t' = st_container t /\ fixed_count t' = fixed_count t /\
  maximum_container_count t' = maximum_container_count t /\
  maximum_string_length t' = maximum_string_length t /\ nested_name t' = nested_name t /\
  (st_kind t = kStruct -> exists j, nested_index t' = Some j /\ stands_for structs_ (nested_name t) j) /\
  (st_kind t <> kStruct -> nested_index t' = nested_index t).

Lemma resolve_type_spec structs_ t t' : resolve_type structs_ t = Value t' -> resolved_type structs_ t t'.
Proof.
  unfold resolve_type. intros H.
  destruct (decide (st_kind t = kStruct)) as [Hk|Hk].
  - rewrite Hk in H. destruct (findStruct structs_ (nested_name t)) as [j|e] eqn:E; [|done].
    injection H as <-. apply findStruct_spec in E. split_and!; try done. intros _. by exists j.
  - assert (t' = t) as -> by (destruct (st_kind t); congruence). by split_and!.
Qed.

Definition resolved_field (structs_ : list CdrSchemaStruct) (f f' : CdrSchemaField) : Prop :=
  sf_name f' = sf_name f /\ resolved_type structs_ (sf_type f) (sf_type f').

Definition resolved_struct (structs_ : list CdrSchemaStruct) (s s' : CdrSchemaStruct) : Prop :=
  ss_name s' = ss_name s /\ Forall2 (resolved_field structs_) (ss_fields s) (ss_fields s').

Lemma resolve_fields_spec structs_ fields fields' :
  resolve_fields structs_ fields = Value fields' -> Forall2 (resolved_field structs_) fields fields'.
Proof.
  revert fields'. induction fields as [|f fields IH]; intros fields'; cbn [resolve_fields].
  { intros [= <-]. constructor. }
  destruct (resolve_type structs_ (sf_type f)) as [t|] eqn:E; cbn; [|done].
  destruct (resolve_fields structs_ fields) as [rest|]; cbn; [|done]. intros [= <-].
  constructor; [|by apply IH]. split; [done|]. by apply resolve_type_spec.
Qed.

Lemma resolve_structs_spec structs_ todo done_ :
  resolve_structs structs_ todo = Value done_ -> Forall2 (resolved_struct structs_) todo done_.
Proof.
  revert done_. induction todo as [|s todo IH]; intros done_; cbn [resolve_structs].
  { intros [= <-]. constructor. }
  destruct (resolve_fields structs_ (ss_fields s)) as [fields|] eqn:E; cbn; [|done].
  destruct (resolve_structs structs_ todo) as [rest|]; cbn; [|done]. intros [= <-].
  constructor; [|by apply IH]. split; [done|]. by apply resolve_fields_spec.
Qed.

Lemma resolved_of_resolve structs_ structs' :
  Forall2 (resolved_struct structs_) structs_ structs' -> resolved structs'.
Proof.
  intros H i s' f' Hs' Hf' Hk. pose proof (Forall2_length _ _ _ H) as Hl.
  destruct (Forall2_lookup_r _ _ _ i s' H Hs') as (s & Hs & _ & Hfields).
  apply list_elem_of_lookup in Hf' as [n Hf'].
  destruct (Forall2_lookup_r _ _ _ n f' Hfields Hf') as (f & Hf & _ & Ht).
  destruct Ht as (Hkind & _ & _ & _ & _ & _ & Hnest & _).
  destruct Hnest as (j & Hj & Hlt & _); [congruence|]. exists j. split; [done|lia].
Qed.

(** ** Invariants of the text stage *)

Definition names_distinct (structs_ : list CdrSchemaStruct) : Prop :=
  Forall (fun s => NoDup (map sf_name (ss_fields s))) structs_.

(** Every type has the counts its container needs. *)
Definition counts_ok (t : CdrSchemaType) : Prop :=
  (st_container t = kFixedArray -> 0 < fixed_count t <= SIZE_MAX) /\
  0 <= maximum_container_count t <= SIZE_MAX /\ 0 <= maximum_string_length t <= SIZE_MAX.

Definition types_ok (structs_ : list CdrSchemaStruct) : Prop :=
  Forall (fun s => Forall (fun f => counts_ok (sf_type f)) (ss_fields s)) structs_.

Lemma parseDecimal_loop_range text : forall value n,
  0 <= value <= SIZE_MAX -> parseDecimal_loop value text = Value n -> 0 <= n <= SIZE_MAX.
Proof.
  induction text as [|c text IH]; intros value n Hv; cbn [parseDecimal_loop]; [by intros [= <-]|].
  destruct (isAsciiDigit c) eqn:E; cbn [negb]; [|done].
  destruct (_ >? _) eqn:E1; [done|]. apply IH. unfold isAsciiDigit in E.
  apply andb_true_iff in E as [E2 E3]. bprop.
  pose proof (Z.mul_div_le (SIZE_MAX - (b2z c - 48)) 10 ltac:(lia)). nia.
Qed.

Lemma positive_range text n : positive (parseDecimal text) = Some n -> 0 < n <= SIZE_MAX.
Proof.
  unfold parseDecimal. case_bool_decide; [done|].
  destruct (parseDecimal_loop 0 text) as [m|] eqn:E; cbn; [|done].
  apply parseDecimal_loop_range in E; [|lia].
  destruct (m =? 0) eqn:E1; [done|]. intros [= <-]. lia.
Qed.

Lemma parseCdrType_counts spelling t :
  parseCdrType spelling = Value t -> counts_ok t /\ nested_index t = None.
Proof.
  unfold parseCdrType. intros H.
  assert (forall r, (match find_char (ch "[") spelling with
    | None => Value (kScalar, 0, 0) | Some i => parse_extent spelling i end) = Value r ->
    (r.1.1 = kFixedArray -> 0 < r.1.2 <= SIZE_MAX) /\ 0 <= r.2 <= SIZE_MAX) as Hextent.
  { clear H. intros r Hr. destruct (find_char (ch "[") spelling) as [i|].
    - unfold parse_extent in Hr. destruct (_ || _)%bool; [done|].
      case_bool_decide; [injection Hr as <-; cbn; split; [done|lia]|].
      destruct (bytes_eqb _ _).
      + destruct (positive _) as [n|] eqn:En; [|done]. injection Hr as <-.
        apply positive_range in En. cbn. split; [done|lia].
      + destruct (positive _) as [n|] eqn:En; [|done]. injection Hr as <-.
        apply positive_range in En. cbn. split; [done|lia].
    - injection Hr as <-. cbn. split; [done|lia]. }
  destruct (match find_char (ch "[") spelling with None => _ | Some i => _ end)
    as [[[container count] maximum]|e]; [|done].
  destruct (Hextent _ eq_refl) as [H1 H2]. cbn [vbind fst snd] in *.
  destruct (_ || _)%bool; [done|].
  destruct (bytes_eqb (take 8 _) _).
  - destruct (positive _) as [n|] eqn:En; [|done]. cbn [vbind] in H. injection H as <-.
    apply positive_range in En. cbn. unfold counts_ok. cbn. split_and!; done || lia.
  - cbn [vbind] in H. injection H as <-. unfold counts_ok. cbn.
    split_and!; done || lia.
Qed.

Definition bundle_ok (b : bundle) : Prop :=
  names_distinct b.1 /\ types_ok b.1.

Lemma existsb_name name fields :
  existsb (fun f => bytes_eqb (sf_name f) name) fields = false -> name ∉ map sf_name fields.
Proof.
  intros H Hin. apply list_elem_of_In, in_map_iff in Hin as (f & Hf & Hin).
  assert (existsb (fun f => bytes_eqb (sf_name f) name) fields = true) as H1; [|congruence].
  apply existsb_exists. exists f. split; [done|]. by apply bytes_eqb_eq.
Qed.

Lemma alter_forall {A} (P : A -> Prop) (f : A -> A) i l :
  Forall P l -> (forall x, l !! i = Some x -> P x -> P (f x)) -> Forall P (alter f i l).
Proof.
  intros Hl Hf. apply Forall_lookup. intros k x Hk. rewrite Forall_lookup in Hl.
  destruct (decide (k = i)) as [->|Hne].
  - rewrite list_lookup_alter_eq in Hk. destruct (l !! i) as [y|] eqn:E; [|done].
    cbn in Hk. injection Hk as <-. apply Hf; [done|]. by apply (Hl i).
  - rewrite list_lookup_alter_ne in Hk by done. by apply (Hl k).
Qed.

Lemma new_struct_ok structs_ name :
  bundle_ok (structs_, 0%nat) -> forall n, bundle_ok (structs_ ++ [mkSchemaStruct name []], n).
Proof.
  intros [Hd Ht] n. split; apply Forall_app; (split; [done|]); constructor; cbn; constructor.
Qed.

Lemma parse_msg_ok line b b' : bundle_ok b -> parse_msg line b = Value b' -> bundle_ok b'.
Proof.
  destruct b as [structs_ current]. intros [Hd Ht]. unfold parse_msg.
  assert (bundle_ok (structs_, 0%nat)) as Hok by done.
  case_bool_decide; [done|].
  destruct structs_ as [|[[|] [|]] [|]];
    try (destruct (existsb _ _); [done|]; intros Heq; injection Heq as <-;
         exact (new_struct_ok _ _ Hok _)).
  intros [= <-]. apply (new_struct_ok []). by repeat constructor.
Qed.

Lemma parse_field_ok line b b' : bundle_ok b -> parse_field line b = Value b' -> bundle_ok b'.
Proof.
  destruct b as [structs_ current]. intros [Hd Ht]. unfold parse_field.
  destruct (find_first is_blank line) as [split|]; [|done]. cbv zeta.
  set (name := up_to _ _). case_bool_decide; [done|].
  destruct (match find_char _ _ with Some _ => true | None => false end); [by intros [= <-]|].
  destruct (parseCdrType _) as [type|] eqn:Etype; cbn [vbind]; [|done].
  apply parseCdrType_counts in Etype as [Hcounts _].
  destruct (match structs_ !! current with Some s => _ | None => false end) eqn:E; [done|].
  intros [= <-]. split; apply alter_forall; try done; intros s Hs Hok; cbn [add_field ss_fields].
  - rewrite Hs in E. rewrite map_app. apply NoDup_app. split_and!; [done| |by apply NoDup_singleton].
    intros x Hx Hx1. cbn in Hx1. apply list_elem_of_singleton in Hx1 as ->. by apply (existsb_name _ _ E).
  - apply Forall_app. split; [done|]. by apply Forall_singleton.
Qed.

Lemma parse_line_ok line b b' : bundle_ok b -> parse_line line b = Value b' -> bundle_ok b'.
Proof.
  intros Hb. unfold parse_line. destruct (_ || _)%bool; [by intros [= <-]|].
  destruct (starts_with (str "---") _); [done|].
  destruct (starts_with (str "MSG:") _); [by apply parse_msg_ok|by apply parse_field_ok].
Qed.

Lemma parse_lines_ok lines b b' : bundle_ok b -> parse_lines lines b = Value b' -> bundle_ok b'.
Proof.
  revert b. induction lines as [|line lines IH]; intros b Hb; cbn [parse_lines]; [by intros [= <-]|].
  destruct (parse_line line b) as [b1|] eqn:E; cbn; [|done]. apply IH. by eapply parse_line_ok.
Qed.

Lemma parse_text_ok schema structs_ :
  parse_text schema = Value structs_ ->
  names_distinct structs_ /\ types_ok structs_ /\
  exists root, structs_ !! 0%nat = Some root /\ ss_fields root <> [].
Proof.
  unfold parse_text. case_bool_decide; [done|].
  destruct (parse_lines _ _) as [[parsed current]|] eqn:E; cbn; [|done].
  apply parse_lines_ok in E as [Hd Ht].
  2: { split; repeat constructor. }
  destruct parsed as [|[name [|f fields]] parsed]; [done..|]. intros [= <-].
  split_and!; [done..|]. by exists (mkSchemaStruct name (f :: fields)).
Qed.

Lemma resolved_struct_names structs_ a b :
  Forall2 (resolved_struct structs_) a b -> names_distinct a -> names_distinct b.
Proof.
  intros H Hd. induction H as [|s s' a b [_ Hs] H IH]; [done|].
  apply Forall_cons in Hd as [Hs0 Hd]. constructor; [|by apply IH].
  assert (map sf_name (ss_fields s') = map sf_name (ss_fields s)) as ->; [|done].
  induction Hs as [|f f' l l' [Hf _] Hs IHs]; [done|]. cbn. rewrite Hf. f_equal.
  clear -Hs. induction Hs as [|f f' l l' [Hf _] Hs IHs]; [done|]. cbn. by rewrite Hf, IHs.
Qed.

Lemma resolved_struct_types structs_ a b :
  Forall2 (resolved_struct structs_) a b -> types_ok a -> types_ok b.
Proof.
  intros H Ht. induction H as [|s s' a b [_ Hs] H IH]; [done|].
  apply Forall_cons in Ht as [Hs0 Ht]. constructor; [|by apply IH].
  clear -Hs Hs0. induction Hs as [|f f' l l' [_ Hf] Hs IHs]; [constructor|].
  apply Forall_cons in Hs0 as [Hf0 Hs0]. constructor; [|by apply IHs].
  destruct Hf as (_ & Hc & Hfc & Hmc & Hms & _). unfold counts_ok in *.
  by rewrite Hc, Hfc, Hmc, Hms.
Qed.

(** What the compiler of schemas promises to the traversals. *)
Record schema_ok (structs_ : list CdrSchemaStruct) : Prop := {
  ok_root : exists root, structs_ !! 0%nat = Some root /\ ss_fields root <> [];
  ok_names : names_distinct structs_;
  ok_types : types_ok structs_;
  ok_resolved : resolved structs_;
  ok_wf : well_founded (nests structs_);
}.

Lemma parse_schema_ok schema structs_ :
  parse_schema schema = Val (Value structs_) -> schema_ok structs_.
Proof.
  unfold parse_schema. destruct (parse_text schema) as [parsed|] eqn:E; cbn; [|done].
  destruct (resolve_structs parsed parsed) as [structs'|] eqn:Er; [|done].
  apply parse_text_ok in E as (Hd & Ht & root & Hroot & Hne).
  apply resolve_structs_spec in Er. pose proof (resolved_of_resolve _ _ Er) as Hres.
  pose proof (validate_sound structs' Hres) as Hv.
  destruct (validate_all _ _ _) as [[vs|e]|]; cbn; [|done..]. intros [= <-].
  split; [|by eapply resolved_struct_names|by eapply resolved_struct_types|done|done].
  destruct (Forall2_lookup_l _ _ _ 0%nat root Er Hroot) as (root' & Hroot' & _ & Hf).
  exists root'. split; [done|]. intros Hn. rewrite Hn in Hf. by inversion Hf.
Qed.

(** ** Paths *)

(** The components [names], from struct [i] on, lead over the fields [steps] to a
    field of type [t], through scalar nested structs only. *)
Inductive path_to (structs_ : list CdrSchemaStruct)
  : nat -> list bytes -> list nat -> CdrSchemaType -> Prop :=
  | path_last i s k f :
    structs_ !! i = Some s -> ss_fields s !! k = Some f -> sf_name f <> [] ->
    path_to structs_ i [sf_name f] [k] (sf_type f)
  | path_nest i s k f j names steps t :
    structs_ !! i = Some s -> ss_fields s !! k = Some f -> sf_name f <> [] ->
    st_kind (sf_type f) = kStruct -> st_container (sf_type f) = kScalar ->
    nested_index (sf_type f) = Some j -> path_to structs_ j names steps t ->
    path_to structs_ i (sf_name f :: names) (k :: steps) t.

Lemma path_to_nonempty structs_ i names steps t :
  path_to structs_ i names steps t -> names <> [] /\ steps <> [].
Proof. by destruct 1. Qed.

Lemma find_field_some component fields k :
  find_field component fields = Some k ->
  exists f, fields !! k = Some f /\ sf_name f = component.
Proof.
  revert k. induction fields as [|f fields IH]; intros k; cbn [find_field]; [done|].
  destruct (bytes_eqb _ _) eqn:E.
  - intros [= <-]. exists f. split; [done|]. by apply bytes_eqb_eq.
  - destruct (find_field component fields) as [j|]; [|done]. intros [= <-]. by apply IH.
Qed.

(** With distinct names the search finds the field itself. *)
Lemma find_field_unique fields k f :
  NoDup (map sf_name fields) -> fields !! k = Some f -> find_field (sf_name f) fields = Some k.
Proof.
  revert k. induction fields as [|g fields IH]; intros k Hd; [done|]. cbn [map] in Hd.
  apply NoDup_cons in Hd as [Hg Hd]. cbn [find_field]. destruct k as [|k]; cbn.
  - intros [= ->]. by rewrite (proj2 (bytes_eqb_eq _ _)).
  - intros Hk. destruct (bytes_eqb (sf_name g) (sf_name f)) eqn:E.
    + exfalso. apply bytes_eqb_eq in E. apply Hg. rewrite E. apply list_elem_of_lookup. exists k.
      change (map sf_name fields) with (sf_name <$> fields). rewrite list_lookup_fmap.
      change (lookup k fields) with (fields !! k) in *. by rewrite Hk.
    + by rewrite (IH k Hd Hk).
Qed.

(** What [compile_components] returns at struct [i] after the steps [before]. *)
Definition compiled (structs_ : list CdrSchemaStruct) (path : bytes) (names : list bytes)
    (i : nat) (before : list nat) (r : exec (PjExpected CdrRequestedField)) : Prop :=
  let reaches steps t :=
    path_to structs_ i names steps t /\ cachedKind t <> cUnknown /\
    (length before + length steps <= kMaxTraversalDepth)%nat in
  match r with
  | Val (Value req) =>
    exists steps t, reaches steps t /\ req = mkRequestedField path (before ++ steps) (cachedKind t)
  | Val (Failed _) => forall steps t, ~ reaches steps t
  | Undef => False
  end.

Lemma compile_components_spec structs_ path names : forall i before,
  schema_ok structs_ -> (i < length structs_)%nat -> (length before < kMaxTraversalDepth)%nat ->
  compiled structs_ path names i before (compile_components structs_ path names i before).
Proof.
  intros i before Hok. pose proof (ok_names _ Hok) as Hnames. pose proof (ok_resolved _ Hok) as Hres.
  revert i before. induction names as [|c names IH]; intros i before Hi Hlen; cbn [compile_components].
  { intros steps t [Hp _]. by apply path_to_nonempty in Hp as [? _]. }
  case_bool_decide as Hc.
  { subst c. assert (forall steps t, ~ path_to structs_ i ([] :: names) steps t) as Hno.
    { intros steps t Hp. inversion Hp; congruence. }
    unfold compiled. intros. destruct names, before; intros steps t [Hp _]; by apply (Hno steps t). }
  destruct (lookup_lt_is_Some_2 structs_ i Hi) as [s Hs]. rewrite Hs.
  pose proof (proj1 (Forall_lookup _ _) Hnames i s Hs) as Hd. cbn in Hd.
  assert (forall k f, ss_fields s !! k = Some f -> sf_name f = c ->
    find_field c (ss_fields s) = Some k) as Huniq.
  { intros k f Hf <-. by apply find_field_unique. }
  destruct (find_field c (ss_fields s)) as [k|] eqn:Ek.
  2: { intros steps t (Hp & _). inversion Hp as [? s' k f Hs' Hf|? s' k f ? ? ? ? Hs' Hf];
         subst; assert (s' = s) as -> by congruence; by pose proof (Huniq k f Hf eq_refl). }
  destruct (find_field_some _ _ _ Ek) as (f & Hf & Hname). rewrite Hf.
  assert (forall k' f', ss_fields s !! k' = Some f' -> sf_name f' = c -> k' = k /\ f' = f) as Hsame.
  { intros k' f' Hf' Hn. pose proof (Huniq k' f' Hf' Hn). split; congruence. }
  destruct names as [|c2 names].
  - case_bool_decide as Hkind.
    + intros steps t (Hp & Ht & _). inversion Hp as [? s' k' f' Hs' Hf'|]; subst.
      * assert (s' = s) as -> by congruence. destruct (Hsame k' f' Hf' ltac:(done)) as [-> ->]. done.
      * match goal with H : path_to _ _ [] _ _ |- _ => by apply path_to_nonempty in H as [? _] end.
    + exists [k], (sf_type f). split; [|done]. subst c. cbn [length]. split_and!; [|done|lia].
      by eapply path_last.
  - set (rest := c2 :: names) in *.
    assert (forall steps t, path_to structs_ i (c :: rest) steps t ->
      exists j steps', st_kind (sf_type f) = kStruct /\ st_container (sf_type f) = kScalar /\
        nested_index (sf_type f) = Some j /\ path_to structs_ j rest steps' t /\ steps = k :: steps')
      as Hinv.
    { intros steps t Hp. inversion Hp as [|? s' k' f' j ? steps' ? Hs' Hf' ? ? ? ? Hp']; subst.
      assert (s' = s) as -> by congruence. destruct (Hsame k' f' Hf' ltac:(done)) as [-> ->].
      by exists j, steps'. }
    destruct (negb _ || negb _)%bool eqn:E.
    { intros steps t (Hp & _). apply Hinv in Hp as (j & steps' & Hk & Hcont & _).
      apply orb_true_iff in E as [E|E]; apply negb_true_iff, bool_decide_eq_false in E; done. }
    apply orb_false_iff in E as [E1 E2].
    apply negb_false_iff, bool_decide_eq_true in E1. apply negb_false_iff, bool_decide_eq_true in E2.
    destruct (kMaxTraversalDepth <=? length (before ++ [k]))%nat eqn:Ed.
    { apply Nat.leb_le in Ed. rewrite length_app in Ed. cbn in Ed.
      intros steps t (Hp & _ & Hl). apply Hinv in Hp as (j & steps' & _ & _ & _ & Hp & ->).
      apply path_to_nonempty in Hp as [_ Hne]. destruct steps'; [done|]. cbn in Hl. lia. }
    apply Nat.leb_gt in Ed.
    destruct (Hres i s f Hs (list_elem_of_lookup_2 _ _ _ Hf) E1) as (j & Hj & Hlt). rewrite Hj.
    specialize (IH j (before ++ [k]) Hlt Ed). unfold compiled in *.
    rewrite length_app in *. cbn [length] in *.
    destruct (compile_components structs_ path rest j (before ++ [k])) as [[req|e]|]; [| |done].
    + destruct IH as (steps & t & (Hp & Ht & Hl) & ->). exists (k :: steps), t.
      rewrite <-app_assoc. cbn [length]. split; [|done]. split_and!; [|done|lia]. subst c.
      by eapply path_nest.
    + intros steps t (Hp & Ht & Hl). apply Hinv in Hp as (j' & steps' & _ & _ & Hj' & Hp & ->).
      assert (j' = j) as -> by congruence. cbn in Hl. apply (IH steps' t). split_and!; [done..|lia].
Qed.

(** ** Properties of compilation *)

(** C40 Compiling a schema always returns (the graph search stays inside its
    vectors and its depth inside the fuel), and a schema it accepts is fit for
    traversal: the root has fields, names are distinct in each struct, the
    extents are positive, every struct type is resolved to the one struct its
    name stands for, and the nesting of structs is well-founded, so no message
    layout is infinite. *)
Theorem accepted_schema_sound schema :
  match parse_schema schema with
  | Val (Value structs_) =>
    schema_ok structs_ /\
    exists parsed, parse_text schema = Value parsed /\
      Forall2 (resolved_struct parsed) parsed structs_
  | Val (Failed _) => True
  | Undef => False
  end.
Proof.
  destruct (parse_schema schema) as [[structs_|e]|] eqn:E; [|done|].
  - split; [by eapply parse_schema_ok|]. unfold parse_schema in E.
    destruct (parse_text schema) as [parsed|] eqn:Ep; cbn in E; [|done]. exists parsed.
    split; [done|]. destruct (resolve_structs parsed parsed) as [structs'|] eqn:Er; [|done].
    destruct (validate_all _ _ _) as [[vs|e]|]; cbn in E; [|done..]. injection E as <-.
    by apply resolve_structs_spec.
  - unfold parse_schema in E. destruct (parse_text schema) as [parsed|] eqn:Ep; cbn in E; [|done].
    destruct (resolve_structs parsed parsed) as [structs'|] eqn:Er; [|done].
    apply resolve_structs_spec, resolved_of_resolve in Er.
    pose proof (validate_sound structs' Er) as H. by destruct (validate_all _ _ _).
Qed.

(** The validator rejects no schema it could traverse: when the types resolve
    and the nesting has a rank below the depth limit (no cycle, no chain of more
    than 64 structs), compilation succeeds. *)
Theorem shallow_schema_accepted schema parsed structs_ rank :
  parse_text schema = Value parsed -> resolve_structs parsed parsed = Value structs_ ->
  (forall i j, nests structs_ j i -> (rank j < rank i)%nat) ->
  (forall i, (i < length structs_)%nat -> (rank i < kMaxTraversalDepth)%nat) ->
  parse_schema schema = Val (Value structs_).
Proof.
  intros Hp Hr Hrank Hshallow. unfold parse_schema. rewrite Hp. cbn [vbind]. rewrite Hr.
  apply resolve_structs_spec, resolved_of_resolve in Hr.
  destruct (validate_all_accepts structs_ rank Hr Hrank (seq 0 (length structs_))
    (replicate (length structs_) 0%nat)) as (vs & ->); [|done|by rewrite length_replicate| |done].
  - intros i. apply seq_below.
  - intros k Hk. by apply lookup_replicate in Hk as [? _].
Qed.

(** Paths compile to the fields they name.  Over an accepted schema,
    [compilePath] succeeds exactly on the dotted paths of at most 64 components
    that lead, through scalar nested structs, to a field the reader can cache;
    the steps are the indices of those fields, and no access leaves the schema. *)
Theorem compilePath_spec structs_ path :
  schema_ok structs_ ->
  let reaches steps t :=
    path_to structs_ 0 (split_on (ch ".") path) steps t /\ cachedKind t <> cUnknown /\
    (length steps <= kMaxTraversalDepth)%nat in
  match compilePath structs_ path with
  | Val (Value req) =>
    exists steps t, reaches steps t /\ req = mkRequestedField path steps (cachedKind t)
  | Val (Failed _) => forall steps t, ~ reaches steps t
  | Undef => False
  end.
Proof.
  intros Hok reaches. unfold compilePath. case_bool_decide as Hp.
  - subst path. intros steps t (Hpath & _). inversion Hpath; subst; congruence.
  - destruct (ok_root _ Hok) as (root & Hroot & _). apply lookup_lt_Some in Hroot.
    exact (compile_components_spec structs_ path _ 0 [] Hok Hroot ltac:(unfold kMaxTraversalDepth; cbn; lia)).
Qed.

(** ** A sample schema *)

Definition sample_schema : bytes := str "# two messages
geometry_msgs/Point point
string<=8 frame  # bounded
uint8[] data
int32 LIMIT=3
===
MSG: geometry_msgs/msg/Point
float64 x
uint16[2] y
".

Definition sample_parsed : list CdrSchemaStruct :=
  match parse_text sample_schema with Value s => s | Failed _ => [] end.

Definition sample_structs : list CdrSchemaStruct :=
  match resolve_structs sample_parsed sample_parsed with Value s => s | Failed _ => [] end.

Example sample_compiles : parse_schema sample_schema = Val (Value sample_structs).
Proof. vm_compute. reflexivity. Qed.

Lemma sample_ok : schema_ok sample_structs.
Proof. exact (parse_schema_ok sample_schema _ sample_compiles). Qed.

Example sample_fields :
  map (fun s => (ss_name s, map (fun f => (sf_name f, cachedKind (sf_type f))) (ss_fields s))) sample_structs =
  [([], [(str "point", cUnknown); (str "frame", cString); (str "data", cBytes)]);
   (str "geometry_msgs/Point", [(str "x", cF64); (str "y", cUnknown)])].
Proof. vm_compute. reflexivity. Qed.

Lemma sample_rank i j : nests sample_structs j i -> (1 - j < 1 - i)%nat.
Proof.
  intros (s & f & Hs & Hf & Hn). destruct i as [|[|i]]; vm_compute in Hs; [| |done]; injection Hs as <-;
    apply list_elem_of_In in Hf; cbn in Hf;
    repeat (destruct Hf as [<-|Hf]; [cbn in Hn; try done; injection Hn as <-; lia|]); done.
Qed.

Example shallow_schema_accepted_witness : parse_schema sample_schema = Val (Value sample_structs).
Proof.
  apply (shallow_schema_accepted sample_schema sample_parsed sample_structs (fun i => (1 - i)%nat)).
  - vm_compute. reflexivity.
  - vm_compute. reflexivity.
  - exact sample_rank.
  - intros i _. unfold kMaxTraversalDepth. lia.
Defined.

Example compilePath_spec_witness :
  exists steps t, (path_to sample_structs 0 (split_on (ch ".") (str "point.x")) steps t /\
    cachedKind t <> cUnknown /\ (length steps <= kMaxTraversalDepth)%nat) /\
    mkRequestedField (str "point.x") [0; 0]%nat cF64
    = mkRequestedField (str "point.x") steps (cachedKind t).
Proof.
  pose proof (compilePath_spec sample_structs (str "point.x") sample_ok) as H.
  assert (compilePath sample_structs (str "point.x")
    = Val (Value (mkRequestedField (str "point.x") [0; 0]%nat cF64))) as E by (vm_compute; reflexivity).
  cbv zeta in H. rewrite E in H. exact H.
Defined.
