(* ===== verification/CdrLocator.v ===== *)
(** * CdrLocator: planned access to the fields of a CDR message

    [CdrTraversalPlan] and the planned half of [CdrReader]
    ([pj_base/include/pj_base/parser_module/cdr_field_locator.hpp]).  The first
    planned access traverses the message once and caches where each requested
    field lies; the accessors read from the cache.

    A computation of [pm] runs on the reader with its cache; it is [Undef] when the
    source would index a vector or the payload out of bounds, or when a traversal
    were to nest deeper than the fuel. *)

From S2P Require Import Prelude ParserCore CdrReader.
From S2P Require Import CdrSchema.

(** [CdrReader::CachedField]. *)
Record CachedField : Set := mkCachedField {
  cf_kind : CachedKind; cf_offset : Z; cf_size : Z; located : bool }.

Definition no_field : CachedField := mkCachedField cUnknown 0 0 false.

(** A planned reader: [plan_] is an argument of the operations that use it. *)
Record Planned : Set := mkPlanned {
  reader : CdrReader; cached_fields : list CachedField; traversal_count : Z }.

Definition pm (A : Type) : Type := Planned -> exec (PjExpected A * Planned).

Definition pret {A} (a : A) : pm A := fun p => Val (Value a, p).

(** [if (!result.isOk()) return result;] *)
Definition pmbind {A B} (m : pm A) (f : A -> pm B) : pm B := fun p =>
  match m p with
  | Val (Value a, p') => f a p'
  | Val (Failed s, p') => Val (Failed s, p')
  | Undef => Undef
  end.

Notation "'let%' x := m 'in' k" := (pmbind m (fun x => k))
  (at level 10, x pattern, m at level 100, k at level 200) : pj_scope.

Definition with_reader (r : CdrReader) (p : Planned) : Planned :=
  mkPlanned r (cached_fields p) (traversal_count p).

Definition pfail {A} (msg : bytes) : pm A := fun p =>
  let '(s, r) := fail msg (reader p) in Val (Failed s, with_reader r p).

Definition pundef {A} : pm A := fun _ => Undef.

(** A read of the reader. *)
Definition plift {A} (m : cdr A) : pm A := fun p =>
  let '(v, r) := m (reader p) in Val (v, with_reader r p).

Definition palign (alignment : Z) : pm unit := fun p =>
  let '(s, r) := align alignment (reader p) in
  Val (if isOk s then Value tt else Failed s, with_reader r p).

Definition get_position : pm Z := fun p => Val (Value (position (reader p)), p).
Definition get_remaining : pm Z := fun p => Val (Value (remaining (reader p)), p).

(** [reader.position_ += n]. *)
Definition advance (n : Z) : pm unit := fun p =>
  Val (Value tt, with_reader (set_position (reader p) (wrap 64 (position (reader p) + n))) p).

(** [reader.payload_.data[i]]. *)
Definition payload_at (i : Z) : pm Z := fun p =>
  match payload (reader p) !! Z.to_nat i with
  | Some b => Val (Value (b2z b), p)
  | None => Undef
  end.

(** [if (requested_id != max) reader.cached_fields_[requested_id] = ...]. *)
Definition cache (requested_id : option nat) (kind : CachedKind) (offset size : Z) : pm unit :=
  fun p =>
  match requested_id with
  | None => Val (Value tt, p)
  | Some id =>
    if (id <? length (cached_fields p))%nat
    then Val (Value tt, mkPlanned (reader p)
                (<[id := mkCachedField kind offset size true]> (cached_fields p))
                (traversal_count p))
    else Undef
  end.

Definition primitiveSize (kind : CdrValueKind) : Z :=
  match kind with
  | kBool | kI8 | kU8 => 1
  | kI16 | kU16 => 2
  | kI32 | kU32 | kF32 => 4
  | kI64 | kU64 | kF64 => 8
  | _ => 1
  end.

Section Plan.
Context (structs_ : list CdrSchemaStruct) (requested_ : list CdrRequestedField).

(** ** The least size of a value *)

(** The sum over the fields of a struct; [minimum] is the call for a field's type. *)
Fixpoint minimum_fields (minimum : CdrSchemaType -> exec (PjExpected Z)) (total : Z)
    (fields : list CdrSchemaField) : exec (PjExpected Z) :=
  match fields with
  | [] => Val (Value total)
  | field :: fields' =>
    let! m := minimum (sf_type field) in
    match m with
    | Failed s => Val (Failed s)
    | Value minimum_ =>
      let overflow := Val (serr "CDR schema minimum size overflows the host size type") in
      let add field_minimum :=
        if field_minimum >? SIZE_MAX - total then overflow
        else minimum_fields minimum (total + field_minimum) fields' in
      match st_container (sf_type field) with
      | kSequence => add 4
      | kFixedArray =>
        if fixed_count (sf_type field) =? 0 then Undef
        else if minimum_ >? SIZE_MAX / fixed_count (sf_type field) then overflow
        else add (minimum_ * fixed_count (sf_type field))
      | kScalar => add minimum_
      end
    end
  end.

Fixpoint minimumSize (fuel : nat) (depth : nat) (type : CdrSchemaType) : exec (PjExpected Z) :=
  match st_kind type with
  | kString => Val (Value 5)
  | kStruct =>
    match fuel with
    | O => Undef
    | S fuel' =>
      if (kMaxTraversalDepth <=? depth)%nat
      then Val (serr "CDR schema nesting depth exceeds 64")
      else
        match nested_index type with
        | None => Undef
        | Some nested =>
          match structs_ !! nested with
          | None => Undef
          | Some s => minimum_fields (minimumSize fuel' (S depth)) 0 (ss_fields s)
          end
        end
    end
  | kind => Val (Value (primitiveSize kind))
  end.

(** Calls nest at most [kMaxTraversalDepth] + 1 deep. *)
Definition walk_fuel : nat := S kMaxTraversalDepth.

(** [auto minimum = minimumSize(type, 0); if (!minimum) reader.fail(...)]. *)
Definition pminimum (type : CdrSchemaType) : pm Z := fun p =>
  match minimumSize walk_fuel 0 type with
  | Undef => Undef
  | Val (Value m) => Val (Value m, p)
  | Val (Failed s) => pfail (message s) p
  end.

(** ** The traversal *)

(** The requests at a path: the one that ends there, and whether one goes on. *)
Fixpoint match_requests (index : nat) (path : list nat) (requests : list CdrRequestedField)
    (requested_id : option nat) (has_descendant : bool) : option nat * bool :=
  match requests with
  | [] => (requested_id, has_descendant)
  | request :: requests' =>
    let prefix_matches := bool_decide (take (length path) (rf_steps request) = path) in
    if (length (rf_steps request) <? length path)%nat || negb prefix_matches
    then match_requests (S index) path requests' requested_id has_descendant
    else if (length (rf_steps request) =? length path)%nat
    then match_requests (S index) path requests' (Some index) has_descendant
    else match_requests (S index) path requests' requested_id true
  end.

(** [walkStruct(reader, struct_index, depth, path)]; the entries of [path] up to
    [depth] are the list here. *)
Definition struct_walker : Type := nat -> list nat -> pm unit.

(** The part of [walkValue] for a scalar [type]. *)
Definition walk_scalar (walk : struct_walker) (type : CdrSchemaType) (path : list nat)
    (requested_id : option nat) : pm unit :=
  match st_kind type with
  | kStruct =>
    match nested_index type with
    | None => pundef
    | Some nested => walk nested path
    end
  | kString =>
    let% len := plift readU32 in
    let% left_ := get_remaining in
    if (len =? 0) || (len >? left_) then pfail (str "invalid CDR string length")
    else if negb (maximum_string_length type =? 0)
            && (wrap 32 (len - 1) >? maximum_string_length type)
    then pfail (str "CDR bounded-string length exceeds its schema maximum")
    else
      let% offset := get_position in
      let% terminator := payload_at (wrap 64 (offset + len - 1)) in
      if negb (terminator =? 0) then pfail (str "CDR string is not NUL terminated")
      else
        let% _ := advance len in
        cache requested_id cString offset (wrap 32 (len - 1))
  | kind =>
    let width := primitiveSize kind in
    let% _ := palign width in
    let% left_ := get_remaining in
    if width >? left_ then pfail (str "truncated CDR primitive while locating fields")
    else
      let% offset := get_position in
      let% bad_bool :=
        if bool_decide (kind = kBool) then let% first := payload_at offset in pret (first >? 1)
        else pret false in
      if bad_bool then pfail (str "CDR bool is not 0 or 1")
      else
        let% _ := advance width in
        cache requested_id (cachedKind type) offset width
  end.

(** [for (index = 0; index < count; ++index)] over the elements of an array. *)
Fixpoint walk_elements (walk : struct_walker) (msg : string) (element : CdrSchemaType)
    (path : list nat) (count : nat) : pm unit :=
  match count with
  | O => pret tt
  | S count' =>
    let% before := get_position in
    let% _ := walk_scalar walk element path None in
    let% after := get_position in
    if after <=? before then pfail (str msg)
    else walk_elements walk msg element path count'
  end.

(** [element = type; element.container = kScalar]. *)
Definition element_of (type : CdrSchemaType) : CdrSchemaType :=
  mkSchemaType (st_kind type) kScalar (fixed_count type) (maximum_container_count type)
    (maximum_string_length type) (nested_name type) (nested_index type).

Definition walk_sequence (walk : struct_walker) (type : CdrSchemaType) (path : list nat)
    (requested_id : option nat) : pm unit :=
  let% count := plift readU32 in
  if negb (maximum_container_count type =? 0) && (count >? maximum_container_count type)
  then pfail (str "CDR bounded-sequence length exceeds its schema maximum")
  else if bool_decide (st_kind type = kU8) then
    let% left_ := get_remaining in
    if count >? left_
    then pfail (str "CDR byte-sequence length exceeds the remaining payload")
    else
      let% offset := get_position in
      let% _ := advance count in
      cache requested_id cBytes offset count
  else
    let% minimum := pminimum type in
    let% left_ := get_remaining in
    if negb (count =? 0) && (minimum =? 0)
    then pfail (str "CDR sequence element has zero serialized minimum size")
    else if negb (minimum =? 0) && (count >? left_ / minimum)
    then pfail (str "CDR sequence length exceeds the remaining payload")
    else walk_elements walk "CDR sequence element did not consume input" (element_of type) path
           (Z.to_nat count).

Definition walk_fixed_array (walk : struct_walker) (type : CdrSchemaType) (path : list nat)
    (requested_id : option nat) : pm unit :=
  if bool_decide (st_kind type = kU8) then
    let% left_ := get_remaining in
    if fixed_count type >? left_ then pfail (str "truncated CDR fixed byte array")
    else
      let% offset := get_position in
      let% _ := advance (fixed_count type) in
      cache requested_id cBytes offset (fixed_count type)
  else
    let% minimum := pminimum (element_of type) in
    if negb (fixed_count type =? 0) && (minimum =? 0)
    then pfail (str "CDR fixed-array element has zero serialized minimum size")
    else walk_elements walk "CDR fixed-array element did not consume input" (element_of type) path
           (Z.to_nat (fixed_count type)).

Definition walkValue (walk : struct_walker) (type : CdrSchemaType) (path : list nat)
    (requested_id : option nat) (has_descendant : bool) : pm unit :=
  if has_descendant
     && (negb (bool_decide (st_kind type = kStruct))
         || negb (bool_decide (st_container type = kScalar)))
  then pfail (str "CDR field path descends through a non-scalar nested struct")
  else
    match st_container type with
    | kSequence => walk_sequence walk type path requested_id
    | kFixedArray => walk_fixed_array walk type path requested_id
    | kScalar => walk_scalar walk type path requested_id
    end.

(** The fields of a struct at [path], from [field_index] on. *)
Fixpoint walk_fields (walk : struct_walker) (path : list nat) (field_index : nat)
    (fields : list CdrSchemaField) : pm unit :=
  match fields with
  | [] => pret tt
  | field :: fields' =>
    let path' := path ++ [field_index] in
    let '(requested_id, has_descendant) := match_requests 0 path' requested_ None false in
    let% _ := walkValue walk (sf_type field) path' requested_id has_descendant in
    walk_fields walk path (S field_index) fields'
  end.

(** The depth is the length of [path]. *)
Fixpoint walkStruct (fuel : nat) (struct_index : nat) (path : list nat) : pm unit :=
  match fuel with
  | O => pundef
  | S fuel' =>
    if (kMaxTraversalDepth <=? length path)%nat then pfail (str "CDR traversal depth exceeds 64")
    else
      match structs_ !! struct_index with
      | None => pundef
      | Some structure => walk_fields (walkStruct fuel') path 0 (ss_fields structure)
      end
  end.

Definition locateAll : pm unit := fun p =>
  if negb (isOk (status (reader p))) then Val (Failed (status (reader p)), p)
  else
    (let% _ := walkStruct walk_fuel 0 [] in
     fun p =>
       if forallb located (cached_fields p) then Val (Value tt, p)
       else pfail (str "requested CDR field was not reached during traversal") p) p.
End Plan.

(** ** The planned reader *)

(** [CdrReader(payload, plan)]. *)
Definition planned_reader (plan : CdrTraversalPlan) (data : bytes) : Planned :=
  let r := initialize data in
  mkPlanned r (if isOk (status r) then replicate (length (requested plan)) no_field else []) 0.

Section Access.
Context (plan : CdrTraversalPlan).

(** A reader made without a plan fails in [ensurePlannedFields]. *)
Definition ensurePlannedFields : pm unit := fun p =>
  if negb (isOk (status (reader p))) then Val (Failed (status (reader p)), p)
  else
    let ended p' :=
      Val (if isOk (status (reader p')) then Value tt else Failed (status (reader p')), p') in
    if traversal_count p =? 0 then
      let start := mkPlanned (set_depth (set_position (reader p) (data_origin (reader p))) 0)
                     (cached_fields p) 1 in
      let! (r, p') := locateAll (structs plan) (requested plan) start in
      let s := match r with Value _ => status_ok | Failed s => s end in
      ended (with_reader (set_status (reader p') s) p')
    else ended p.

Definition cached (field : nat) (expected : CachedKind) : pm CachedField :=
  let% _ := ensurePlannedFields in
  fun p =>
    match cached_fields p !! field with
    | None => pfail (str "CDR field id is outside the traversal plan") p
    | Some value =>
      if negb (located value) || negb (bool_decide (cf_kind value = expected))
      then pfail (str "CDR field accessor does not match the planned field type") p
      else Val (Value value, p)
    end.

(** The [n] bytes of the payload at [offset]. *)
Definition payload_block (offset n : Z) : pm bytes := fun p =>
  if offset + n >? payload_size (reader p) then Undef
  else Val (Value (take (Z.to_nat n) (drop (Z.to_nat offset) (payload (reader p)))), p).

Definition cachedUnsigned (field : nat) (kind : CachedKind) (width : nat) : pm Z :=
  let% value := cached field kind in
  let% data := payload_block (cf_offset value) (Z.of_nat width) in
  fun p =>
    Val (Value (if little_endian (reader p) then fold_le 0 0 data
                else fold_be 64 0 data), p).

(** [cachedBits]: the unsigned bits of the width reinterpreted. *)
Definition cachedBits (field : nat) (kind : CachedKind) (width : nat) : pm Z :=
  let% value := cachedUnsigned field kind width in
  pret (to_signed (8 * Z.of_nat width) value).

Definition p_boolean (field : nat) : pm bool :=
  let% value := cachedUnsigned field cBool 1 in
  if value >? 1 then pfail (str "CDR bool is not 0 or 1") else pret (negb (value =? 0)).

Definition p_i8 (field : nat) : pm Z := cachedBits field cI8 1.
Definition p_u8 (field : nat) : pm Z :=
  let% value := cachedUnsigned field cU8 1 in pret (wrap 8 value).
Definition p_i16 (field : nat) : pm Z := cachedBits field cI16 2.
Definition p_u16 (field : nat) : pm Z :=
  let% value := cachedUnsigned field cU16 2 in pret (wrap 16 value).
Definition p_i32 (field : nat) : pm Z := cachedBits field cI32 4.
Definition p_u32 (field : nat) : pm Z :=
  let% value := cachedUnsigned field cU32 4 in pret (wrap 32 value).
Definition p_i64 (field : nat) : pm Z := cachedBits field cI64 8.
Definition p_u64 (field : nat) : pm Z := cachedUnsigned field cU64 8.

(** A [float] or [double] is its bit pattern. *)
Definition p_f32 (field : nat) : pm Z :=
  let% value := cachedUnsigned field cF32 4 in pret (wrap 32 value).
Definition p_f64 (field : nat) : pm Z :=
  let% value := cachedUnsigned field cF64 8 in pret (wrap 64 value).

Definition p_string (field : nat) : pm bytes :=
  let% value := cached field cString in payload_block (cf_offset value) (cf_size value).

Definition p_bytes (field : nat) : pm bytes :=
  let% value := cached field cBytes in payload_block (cf_offset value) (cf_size value).

Definition p_spanRef (field : nat) : pm (Z * Z) :=
  let% value := cached field cBytes in pret (cf_offset value, cf_size value).
End Access.
