(* ===== verification/CdrTraversal.v ===== *)
(** * CdrTraversal: the traversal of a CDR message is safe and finds its fields

    Theorems about [CdrLocator]: no access leaves the payload or a vector, the
    cached spans lie in the payload, and a planned access returns what reading
    the message from its start returns. *)

From S2P Require Import Prelude Text ParserCore CdrReader.
From S2P Require Import CdrSchema CdrLocator.

(** ** Leaves: the values the reader can cache *)

Definition kind_width (kind : CachedKind) : option Z :=
  match kind with
  | cBool | cI8 | cU8 => Some 1
  | cI16 | cU16 => Some 2
  | cI32 | cU32 | cF32 => Some 4
  | cI64 | cU64 | cF64 => Some 8
  | _ => None
  end.

(** An entry that shows a block of the payload, of the width its kind has. *)
Definition entry_ok (r : CdrReader) (cf : CachedField) : Prop :=
  located cf = true ->
  0 <= cf_offset cf /\ 0 <= cf_size cf /\ cf_offset cf + cf_size cf <= payload_size r /\
  forall w, kind_width (cf_kind cf) = Some w -> cf_size cf = w.

(** The span of a leaf, as a read of the plain reader. *)
Definition leaf_span (t : CdrSchemaType) : cdr CachedField :=
  let found kind offset size r :=
    (Value (mkCachedField kind offset size true), set_position r (wrap 64 (offset + size))) in
  match st_container t with
  | kSequence =>
    let^ count := readU32 in fun r =>
      if negb (maximum_container_count t =? 0) && (count >? maximum_container_count t)
      then cfail (str "CDR bounded-sequence length exceeds its schema maximum") r
      else if count >? remaining r
      then cfail (str "CDR byte-sequence length exceeds the remaining payload") r
      else found cBytes (position r) count r
  | kFixedArray => fun r =>
      if fixed_count t >? remaining r then cfail (str "truncated CDR fixed byte array") r
      else found cBytes (position r) (fixed_count t) r
  | kScalar =>
    match st_kind t with
    | kString =>
      let^ len := readU32 in fun r =>
        if (len =? 0) || (len >? remaining r) then cfail (str "invalid CDR string length") r
        else if negb (maximum_string_length t =? 0) && (len - 1 >? maximum_string_length t)
        then cfail (str "CDR bounded-string length exceeds its schema maximum") r
        else if negb (bool_decide (payload r !! Z.to_nat (position r + len - 1) = Some Byte.x00))
        then cfail (str "CDR string is not NUL terminated") r
        else (Value (mkCachedField cString (position r) (len - 1) true),
              set_position r (wrap 64 (position r + len)))
    | kind => fun r =>
      match align (primitiveSize kind) r with
      | (s, r1) =>
        if negb (isOk s) then (Failed s, r1)
        else if primitiveSize kind >? remaining r1
        then cfail (str "truncated CDR primitive while locating fields") r1
        else if bool_decide (kind = kBool)
                && negb (bool_decide (payload r1 !! Z.to_nat (position r1) = Some Byte.x00))
                && negb (bool_decide (payload r1 !! Z.to_nat (position r1) = Some Byte.x01))
        then cfail (str "CDR bool is not 0 or 1") r1
        else found (cachedKind t) (position r1) (primitiveSize kind) r1
      end
    end
  end.

Definition leaf (t : CdrSchemaType) : Prop := cachedKind t <> cUnknown.

(** The counts of a type fit their machine types. *)
Definition counted (t : CdrSchemaType) : Prop := counts_ok t.

Lemma remaining_bounds r :
  cdr_inv r -> remaining r = payload_size r - position r /\ 0 <= remaining r /\
  position r + remaining r < 2 ^ 64.
Proof.
  intros ((? & ?) & ? & ? & ?). unfold remaining. rewrite (proj2 (Z.leb_le _ _)) by lia. lia.
Qed.

(** The outcome of a leaf: the reader has moved forward inside the payload over a
    valid entry of the leaf's kind, or has recorded its failure. *)
Definition span_outcome (t : CdrSchemaType) (r : CdrReader) (res : PjExpected CachedField * CdrReader)
  : Prop :=
  outcome_ok r res /\
  match res.1 with
  | Value cf => located cf = true /\ cf_kind cf = cachedKind t /\ entry_ok r cf /\
                position r <= cf_offset cf /\ cf_offset cf + cf_size cf <= position res.2
  | Failed _ => True
  end.

Lemma span_failed {t r} (res : PjExpected CachedField * CdrReader) s :
  outcome_ok r res -> res.1 = Failed s -> span_outcome t r res.
Proof. intros H E. split; [done|]. by rewrite E. Qed.

(** Advancing over [n] bytes that are there, with an entry in them. *)
Lemma span_found t r r1 kind offset size n :
  cdr_inv r1 -> status r1 = status_ok -> payload r1 = payload r ->
  little_endian r1 = little_endian r -> data_origin r1 = data_origin r ->
  0 <= position r <= position r1 -> 0 <= n <= remaining r1 -> offset = position r1 -> 0 <= size <= n ->
  kind = cachedKind t -> (forall w, kind_width kind = Some w -> size = w) ->
  span_outcome t r (Value (mkCachedField kind offset size true),
                    set_position r1 (wrap 64 (position r1 + n))).
Proof.
  intros Hi Hs Hpl Hle Ho Hpos Hn -> Hsize -> Hw.
  destruct (remaining_bounds r1 Hi) as (Hrem & ? & ?).
  destruct (outcome_advance r1 (mkCachedField (cachedKind t) (position r1) size true) n Hi Hs Hn)
    as (H1 & H2 & H3 & H4 & H5 & H6).
  cbn [fst snd] in *. rewrite wrap_small in * by (unfold in_u; lia).
  unfold span_outcome, outcome_ok, entry_ok, payload_size in *. cbn [fst snd] in *. cbn in *.
  rewrite Hpl in *. split_and!; done || lia || (intros _; split_and!; done || lia).
Qed.

(** A 32-bit read, when it returns. *)
Lemma readU32_result r :
  cdr_inv r -> status r = status_ok ->
  let '(res, r1) := readU32 r in
  outcome_ok r (res, r1) /\ match res with Value n => in_u 32 n | Failed _ => True end.
Proof.
  intros Hi Hs. pose proof (tame (m:=readU32) r Hi Hs) as Ht.
  pose proof (readUnsigned_spec r 4 Hi Hs ltac:(unfold uint_size; lia)) as H. cbv zeta in H.
  unfold readU32 in *. destruct (readUnsigned 4 r) as [[n|s] r1]; [|done]. split; [done|].
  case_bool_decide as Hb; [|destruct H as (e & r' & H & _); congruence].
  injection H as -> ->.
  pose proof (uint_val_range (little_endian r)
    (take 4 (drop (Z.to_nat (aligned_from (data_origin r) (position r) (Z.of_nat 4))) (payload r)))) as Hr.
  destruct Hi as ((Ho & Hop) & Hp & Hsz & Hd).
  pose proof (Z.mod_pos_bound (- (position r - data_origin r)) (Z.of_nat 4) ltac:(lia)) as Hmod.
  rewrite length_take, length_drop in Hr. unfold payload_size, aligned_from in *.
  replace (8 * Z.of_nat _) with 32 in Hr by lia. exact Hr.
Qed.

Lemma outcome_trans {A B} r r1 (res1 : PjExpected A) (res : PjExpected B * CdrReader) a :
  outcome_ok r (res1, r1) -> res1 = Value a -> outcome_ok r1 res -> outcome_ok r res.
Proof.
  unfold outcome_ok. cbn. intros (? & ? & ? & ? & ? & H) -> (? & -> & -> & -> & ? & ?).
  split_and!; done || lia || congruence.
Qed.

Lemma align_result r k :
  cdr_inv r -> status r = status_ok -> 0 <= k <= 3 ->
  let '(s, r1) := align (2 ^ k) r in
  outcome_ok r (if isOk s then Value tt else Failed s, r1) /\
  (isOk s = true -> s = status_ok).
Proof.
  intros Hi Hs Hk. pose proof (align_spec r k Hi Hs ltac:(lia)) as H. cbv zeta in H.
  pose proof Hi as ((Ho & Hop) & Hp & Hsz & Hd).
  assert (0 < 2 ^ k) by lia.
  assert (position r <= aligned_from (data_origin r) (position r) (2 ^ k)).
  { unfold aligned_from. pose proof (Z.mod_pos_bound (- (position r - data_origin r)) (2 ^ k)). lia. }
  case_bool_decide as Hb.
  - rewrite H. split; [|done]. unfold outcome_ok, cdr_inv, payload_size in *. cbn.
    split_and!; done || lia.
  - destruct H as (e & ->). split; [|done]. unfold outcome_ok, cdr_inv, payload_size, fail in *. cbn.
    split_and!; done || lia.
Qed.

Lemma primitiveSize_pow kind : exists k, 0 <= k <= 3 /\ primitiveSize kind = 2 ^ k.
Proof. destruct kind; (by exists 0) || (by exists 1) || (by exists 2) || (by exists 3). Qed.

Lemma primitive_width t w :
  st_container t = kScalar -> st_kind t <> kString -> st_kind t <> kStruct ->
  kind_width (cachedKind t) = Some w -> primitiveSize (st_kind t) = w.
Proof. unfold cachedKind. intros ->. destruct (st_kind t); cbn; congruence. Qed.

(** The failing branches of the checks of a leaf. *)
Ltac span_checks :=
  cbv beta zeta;
  repeat match goal with
  | |- span_outcome _ ?r (if ?b then cfail _ _ else _) =>
    let E := fresh "E" in destruct b eqn:E;
    [eapply span_failed; [by apply tame_fail|reflexivity]|]
  end.

(** A leaf behind a length prefix. *)
Lemma span_after_u32 t r (f : Z -> cdr CachedField) :
  cdr_inv r -> status r = status_ok ->
  (forall n r1, in_u 32 n -> cdr_inv r1 -> status r1 = status_ok -> span_outcome t r1 (f n r1)) ->
  span_outcome t r (cbind readU32 f r).
Proof.
  intros Hi Hs Hf. pose proof (readU32_result r Hi Hs) as H. unfold cbind.
  destruct (readU32 r) as [[n|s] r1]; destruct H as [Ho Hn].
  - pose proof Ho as (Hi1 & Hpl & _ & _ & Hpos & Hs1). cbn in *.
    destruct (Hf n r1 Hn Hi1 Hs1) as [Hf1 Hf2]. split; [by eapply outcome_trans|].
    destruct ((f n r1).1) as [cf|]; [|done]. destruct Hf2 as (? & ? & He & ? & ?).
    unfold entry_ok, payload_size in *. rewrite Hpl in He. split_and!; done || lia.
  - eapply span_failed; [|reflexivity]. done.
Qed.

Lemma leaf_span_outcome t r :
  leaf t -> counted t -> cdr_inv r -> status r = status_ok -> span_outcome t r (leaf_span t r).
Proof.
  intros Hleaf Hcounts Hi Hs. unfold leaf_span, leaf in *.
  destruct (st_container t) eqn:Ec.
  - destruct (decide (st_kind t = kString)) as [Ek|Ek].
    + rewrite Ek. apply span_after_u32; [done..|]. intros n r1 Hn Hi1 Hs1. span_checks.
      destruct (remaining_bounds r1 Hi1) as (? & ? & ?).
      pose proof Hi1 as ((? & ?) & ? & ?). unfold in_u in Hn. bprop.
      apply (span_found t r1 r1 _ _ _ n); try done; try lia.
      all: unfold cachedKind; rewrite Ec, Ek; done.
    + assert (st_kind t <> kStruct) as Ek'.
      { intros Ek'. apply Hleaf. unfold cachedKind. by rewrite Ec, Ek'. }
      destruct (primitiveSize_pow (st_kind t)) as (k & Hk & Hw).
      assert (span_outcome t r (match align (primitiveSize (st_kind t)) r with
        | (s, r1) =>
          if negb (isOk s) then (Failed s, r1)
          else if primitiveSize (st_kind t) >? remaining r1
          then cfail (str "truncated CDR primitive while locating fields") r1
          else if bool_decide (st_kind t = kBool)
                && negb (bool_decide (payload r1 !! Z.to_nat (position r1) = Some Byte.x00))
                && negb (bool_decide (payload r1 !! Z.to_nat (position r1) = Some Byte.x01))
          then cfail (str "CDR bool is not 0 or 1") r1
          else (Value (mkCachedField (cachedKind t) (position r1) (primitiveSize (st_kind t)) true),
                set_position r1 (wrap 64 (position r1 + primitiveSize (st_kind t))))
        end)) as H; [|by destruct (st_kind t)].
      rewrite Hw. pose proof (align_result r k Hi Hs Hk) as Ha.
      destruct (align (2 ^ k) r) as [s r1]. destruct Ha as [Ha Hsok].
      destruct (isOk s) eqn:Es; cbn [negb]; [|by eapply span_failed; [exact Ha|]].
      assert (forall e, span_outcome t r (cfail e r1)) as Hfail.
      { intros e. eapply span_failed; [|reflexivity]. eapply outcome_trans; [done|done|].
        destruct Ha as (? & _ & _ & _ & _ & ?). by apply tame_fail. }
      destruct (_ >? _) eqn:E1; [apply Hfail|]. destruct (_ && _)%bool; [apply Hfail|].
      destruct Ha as (Hi1 & Hpl & Hle & Ho & Hpos & Hs1). cbn in *.
      pose proof Hi as ((? & ?) & ? & ?). bprop. assert (0 < 2 ^ k) by lia.
      apply (span_found t r r1); try done; try lia.
      intros w Hkw. apply primitive_width in Hkw; [congruence|done..].
  - assert (st_kind t = kU8) as Ek.
    { unfold cachedKind in Hleaf. rewrite Ec in Hleaf. by case_bool_decide. }
    cbv beta. destruct (_ >? _) eqn:E; [eapply span_failed; [by apply tame_fail|reflexivity]|].
    destruct Hcounts as [Hc _]. specialize (Hc Ec). bprop.
    pose proof Hi as ((? & ?) & ? & ?).
    apply (span_found t r r _ _ _ (fixed_count t)); try done; try lia.
    all: unfold cachedKind; rewrite Ec, Ek; done.
  - assert (st_kind t = kU8) as Ek.
    { unfold cachedKind in Hleaf. rewrite Ec in Hleaf. by case_bool_decide. }
    apply span_after_u32; [done..|]. intros n r1 Hn Hi1 Hs1. span_checks.
    pose proof Hi1 as ((? & ?) & ? & ?). unfold in_u in Hn. bprop.
    apply (span_found t r1 r1 _ _ _ n); try done; try lia.
    all: unfold cachedKind; rewrite Ec, Ek; done.
Qed.

(** ** The traversal visits a leaf by taking its span *)

Definition cache_entry (requested_id : option nat) (cf : CachedField) : pm unit :=
  cache requested_id (cf_kind cf) (cf_offset cf) (cf_size cf).

Definition leaf_step (t : CdrSchemaType) (requested_id : option nat) : pm unit := fun p =>
  match leaf_span t (reader p) with
  | (Value cf, r) => cache_entry requested_id cf (with_reader r p)
  | (Failed s, r) => Val (Failed s, with_reader r p)
  end.

Lemma pmbind_lift {A B} (m : cdr A) (f : A -> pm B) p :
  pmbind (plift m) f p =
  match m (reader p) with
  | (Value a, r) => f a (with_reader r p)
  | (Failed s, r) => Val (Failed s, with_reader r p)
  end.
Proof. unfold pmbind, plift. by destruct (m (reader p)) as [[a|s] r]. Qed.

Lemma pfail_reader {A} msg p :
  @pfail A msg p = Val (Failed (status_error msg), with_reader (set_status (reader p) (status_error msg)) p).
Proof. done. Qed.

Lemma payload_inside r i :
  0 <= i < payload_size r -> exists b, payload r !! Z.to_nat i = Some b.
Proof. intros Hi. apply lookup_lt_is_Some_2. unfold payload_size in Hi. lia. Qed.

Lemma byte_zero b : (b2z b =? 0) = bool_decide (Some b = Some Byte.x00).
Proof.
  destruct (b2z b =? 0) eqn:E; symmetry; [apply bool_decide_eq_true|apply bool_decide_eq_false].
  - apply Z.eqb_eq in E. f_equal. by apply b2z_inj.
  - intros [= ->]. done.
Qed.

Lemma byte_bool b :
  (b2z b >? 1) = negb (bool_decide (Some b = Some Byte.x00)) && negb (bool_decide (Some b = Some Byte.x01)).
Proof.
  pose proof (b2z_range b). rewrite <-byte_zero.
  destruct (decide (b = Byte.x01)) as [->|Hne]; [done|].
  rewrite (bool_decide_false (Some b = Some Byte.x01)) by congruence.
  assert (b2z b <> 1) by (intros Hb; apply Hne; by apply b2z_inj).
  destruct (b2z b =? 0) eqn:E; cbn; bprop; lia.
Qed.

Lemma string_step walk t path requested_id p :
  st_kind t = kString -> st_container t = kScalar -> counted t ->
  cdr_inv (reader p) -> status (reader p) = status_ok ->
  walk_scalar walk t path requested_id p = leaf_step t requested_id p.
Proof.
  intros Hk Hc Hcounts Hi Hs. unfold walk_scalar, leaf_step, leaf_span. rewrite Hk, Hc.
  rewrite pmbind_lift. unfold cbind. pose proof (readU32_result (reader p) Hi Hs) as H.
  destruct (readU32 (reader p)) as [[n|s] r1]; [|done]. destruct H as [(Hi1 & _) Hn]. cbn in Hi1.
  destruct (remaining_bounds r1 Hi1) as (Hrem & ? & ?). pose proof Hi1 as ((? & ?) & ? & ?).
  unfold in_u in Hn. cbn [pmbind get_remaining with_reader reader].
  unfold pmbind at 1. cbn [get_remaining with_reader reader].
  destruct ((n =? 0) || (n >? remaining r1)) eqn:E; [done|].
  apply orb_false_iff in E as [E1 E2]. bprop.
  rewrite (wrap_small 32) by (unfold in_u; lia).
  destruct (negb _ && _) eqn:E3; [done|].
  unfold pmbind. cbn [get_position payload_at with_reader reader].
  rewrite wrap_small by (unfold in_u; lia).
  destruct (payload_inside r1 (position r1 + n - 1)) as [b Hb]; [lia|].
  cbn [payload_at with_reader reader]. unfold payload_at. cbn [with_reader reader]. rewrite Hb, byte_zero.
  destruct (bool_decide (Some b = Some Byte.x00)); done.
Qed.

Lemma pmbind_align {B} n (f : unit -> pm B) p :
  pmbind (palign n) f p =
  let '(s, r) := align n (reader p) in
  if isOk s then f tt (with_reader r p) else Val (Failed s, with_reader r p).
Proof. unfold pmbind, palign. destruct (align n (reader p)) as [s r]. by destruct (isOk s). Qed.

Lemma primitive_step walk t path requested_id p :
  st_container t = kScalar -> st_kind t <> kString -> st_kind t <> kStruct ->
  cdr_inv (reader p) -> status (reader p) = status_ok ->
  walk_scalar walk t path requested_id p = leaf_step t requested_id p.
Proof.
  intros Hc Hk Hk' Hi Hs.
  destruct (primitiveSize_pow (st_kind t)) as (k & Hk3 & Hw).
  assert ((let% _ := palign (primitiveSize (st_kind t)) in
    let% left_ := get_remaining in
    if primitiveSize (st_kind t) >? left_ then pfail (str "truncated CDR primitive while locating fields")
    else
      let% offset := get_position in
      let% bad_bool :=
        if bool_decide (st_kind t = kBool) then let% first := payload_at offset in pret (first >? 1)
        else pret false in
      if bad_bool then pfail (str "CDR bool is not 0 or 1")
      else
        let% _ := advance (primitiveSize (st_kind t)) in
        cache requested_id (cachedKind t) offset (primitiveSize (st_kind t))) p
    = leaf_step t requested_id p) as H.
  2: { rewrite <-H. unfold walk_scalar. by destruct (st_kind t). }
  assert (forall r, leaf_span t r =
      match align (primitiveSize (st_kind t)) r with
      | (s, r1) =>
        if negb (isOk s) then (Failed s, r1)
        else if primitiveSize (st_kind t) >? remaining r1
        then cfail (str "truncated CDR primitive while locating fields") r1
        else if bool_decide (st_kind t = kBool)
              && negb (bool_decide (payload r1 !! Z.to_nat (position r1) = Some Byte.x00))
              && negb (bool_decide (payload r1 !! Z.to_nat (position r1) = Some Byte.x01))
        then cfail (str "CDR bool is not 0 or 1") r1
        else (Value (mkCachedField (cachedKind t) (position r1) (primitiveSize (st_kind t)) true),
              set_position r1 (wrap 64 (position r1 + primitiveSize (st_kind t))))
      end) as Hspan by (intros r; unfold leaf_span; rewrite Hc; by destruct (st_kind t)).
  unfold leaf_step. rewrite Hspan, pmbind_align, Hw.
  pose proof (align_result (reader p) k Hi Hs Hk3) as Ha.
  destruct (align (2 ^ k) (reader p)) as [s r1]. destruct Ha as [Ha _].
  destruct (isOk s) eqn:Es; cbn [negb]; [|done]. destruct Ha as (Hi1 & _). cbn in Hi1.
  destruct (remaining_bounds r1 Hi1) as (Hrem & ? & ?). pose proof Hi1 as ((? & ?) & ? & ?).
  unfold pmbind. cbn [get_remaining get_position with_reader reader].
  destruct (_ >? _) eqn:E1; [done|]. bprop. assert (0 < 2 ^ k) by lia.
  case_bool_decide as Hb; [|done].
  destruct (payload_inside r1 (position r1)) as [b Hbyte]; [lia|].
  unfold payload_at. cbn [with_reader reader]. rewrite Hbyte, byte_bool.
  cbn [pret andb]. by destruct (negb _ && negb _).
Qed.

Lemma leaf_walk structs_ walk t path requested_id p :
  leaf t -> counted t -> cdr_inv (reader p) -> status (reader p) = status_ok ->
  walkValue structs_ walk t path requested_id false p = leaf_step t requested_id p.
Proof.
  intros Hleaf Hcounts Hi Hs. unfold walkValue, leaf in *. cbn [andb].
  destruct (st_container t) eqn:Ec.
  - destruct (decide (st_kind t = kString)) as [Ek|Ek]; [by apply string_step|].
    apply primitive_step; try done. intros Ek'. apply Hleaf. unfold cachedKind. by rewrite Ec, Ek'.
  - assert (st_kind t = kU8) as Ek.
    { unfold cachedKind in Hleaf. rewrite Ec in Hleaf. by case_bool_decide. }
    unfold walk_fixed_array, leaf_step, leaf_span. rewrite Ec, bool_decide_true by done.
    unfold pmbind. cbn [get_remaining get_position].
    destruct (_ >? _) eqn:E; done.
  - assert (st_kind t = kU8) as Ek.
    { unfold cachedKind in Hleaf. rewrite Ec in Hleaf. by case_bool_decide. }
    unfold walk_sequence, leaf_step, leaf_span. rewrite Ec, bool_decide_true by done.
    rewrite pmbind_lift. unfold cbind. destruct (readU32 (reader p)) as [[n|s] r1]; [|done].
    destruct (negb _ && _); [done|].
    unfold pmbind. cbn [get_remaining get_position with_reader reader].
    destruct (_ >? _) eqn:E; done.
Qed.

(** ** Safety of the traversal *)

Definition step_ok (p p' : Planned) : Prop :=
  cdr_inv (reader p') /\ payload (reader p') = payload (reader p) /\
  little_endian (reader p') = little_endian (reader p) /\
  data_origin (reader p') = data_origin (reader p) /\
  position (reader p) <= position (reader p') /\
  length (cached_fields p') = length (cached_fields p) /\
  (Forall (entry_ok (reader p)) (cached_fields p) ->
   Forall (entry_ok (reader p')) (cached_fields p')) /\
  traversal_count p' = traversal_count p.

Definition psafe {A} (p : Planned) (o : exec (PjExpected A * Planned)) : Prop :=
  match o with
  | Val (Value _, p') => step_ok p p' /\ status (reader p') = status_ok
  | Val (Failed s, p') => step_ok p p' /\ status (reader p') = s /\ isOk s = false
  | Undef => False
  end.

(** A computation that is safe on a reader without an error and a cache of [n]
    fields. *)
Class PSafe (n : nat) {A} (m : pm A) : Prop :=
  psafe_run : forall p, cdr_inv (reader p) -> status (reader p) = status_ok ->
    length (cached_fields p) = n -> psafe p (m p).

Lemma step_refl p : cdr_inv (reader p) -> step_ok p p.
Proof. intros Hi. unfold step_ok. split_and!; done || lia. Qed.

Lemma step_trans p q r : step_ok p q -> step_ok q r -> step_ok p r.
Proof.
  intros (? & H1 & H2 & H3 & ? & H4 & H5 & H6) (? & ? & ? & ? & ? & ? & ? & ?).
  unfold step_ok. rewrite <-H1, <-H2, <-H3, <-H4, <-H6. split_and!; auto; lia.
Qed.

Lemma psafe_trans {A} p q (o : exec (PjExpected A * Planned)) :
  step_ok p q -> psafe q o -> psafe p o.
Proof.
  intros Hpq. unfold psafe. destruct o as [[[a|s] p']|]; [| |done].
  - intros [H ?]. split; [|done]. by eapply step_trans.
  - intros [H ?]. split; [|done]. by eapply step_trans.
Qed.

Lemma entry_payload r r' cf : payload r' = payload r -> entry_ok r cf -> entry_ok r' cf.
Proof. unfold entry_ok, payload_size. by intros ->. Qed.

(** A step of the reader alone. *)
Lemma reader_step {A} p (res : PjExpected A * CdrReader) :
  outcome_ok (reader p) res -> step_ok p (with_reader res.2 p).
Proof.
  intros (? & Hpl & ? & ? & ? & _). unfold step_ok, with_reader. cbn. split_and!; try done.
  intros Hall. eapply Forall_impl; [exact Hall|]. intros cf. by apply entry_payload.
Qed.

#[export] Instance psafe_ret n {A} (a : A) : PSafe n (pret a).
Proof. intros p Hi Hs _. cbn. by split; [apply step_refl|]. Qed.

#[export] Instance psafe_bind n {A B} (m : pm A) (f : A -> pm B)
  `{!PSafe n m} `{!forall a, PSafe n (f a)} : PSafe n (pmbind m f).
Proof.
  intros p Hi Hs Hl. pose proof (psafe_run (m:=m) p Hi Hs Hl) as Hm. unfold pmbind, psafe in Hm |- *.
  destruct (m p) as [[[a|s] q]|]; [|done..]. destruct Hm as [Hpq Hsq].
  pose proof Hpq as (? & _ & _ & _ & _ & ? & _).
  apply (psafe_trans p q); [done|]. apply (psafe_run (n:=n)); congruence.
Qed.

#[export] Instance psafe_lift n {A} (m : cdr A) `{!Tame m} : PSafe n (plift m).
Proof.
  intros p Hi Hs _. pose proof (tame (m:=m) (reader p) Hi Hs) as H. unfold plift.
  pose proof (reader_step p _ H) as Hp. destruct (m (reader p)) as [[a|s] r]; cbn in *; (split; [done|]);
    by destruct H as (_ & _ & _ & _ & _ & ?).
Qed.

#[export] Instance psafe_fail n {A} e : PSafe n (@pfail A e).
Proof. exact (psafe_lift n (cfail e)). Qed.

#[export] Instance psafe_position n : PSafe n get_position.
Proof. intros p Hi Hs _. cbn. by split; [apply step_refl|]. Qed.

#[export] Instance psafe_remaining n : PSafe n get_remaining.
Proof. intros p Hi Hs _. cbn. by split; [apply step_refl|]. Qed.

Lemma psafe_if n {A} (b : bool) (m1 m2 : pm A) : PSafe n m1 -> PSafe n m2 -> PSafe n (if b then m1 else m2).
Proof. by destruct b. Qed.

#[export] Hint Extern 2 (PSafe _ (if _ then _ else _)) => apply psafe_if : typeclass_instances.

(** Caching a valid entry. *)
Lemma cache_safe p id cf :
  cdr_inv (reader p) -> status (reader p) = status_ok -> entry_ok (reader p) cf -> located cf = true ->
  match id with Some i => (i < length (cached_fields p))%nat | None => True end ->
  psafe p (cache_entry id cf p).
Proof.
  intros Hi Hs He Hl Hid. unfold cache_entry, cache. destruct id as [i|].
  - rewrite (proj2 (Nat.ltb_lt _ _)) by done. cbn. split; [|done]. unfold step_ok. cbn.
    rewrite length_insert. split_and!; try done || lia. intros Hall.
    apply Forall_insert; [done|]. by destruct cf as [? ? ? []].
  - cbn. by split; [apply step_refl|].
Qed.

Lemma leaf_step_safe n t id :
  leaf t -> counted t -> match id with Some i => (i < n)%nat | None => True end ->
  PSafe n (leaf_step t id).
Proof.
  intros Hleaf Hc Hid p Hi Hs Hl. unfold leaf_step.
  pose proof (leaf_span_outcome t (reader p) Hleaf Hc Hi Hs) as [Ho Hspan].
  pose proof (reader_step p _ Ho) as Hstep.
  destruct (leaf_span t (reader p)) as [[cf|s] r]; cbn [fst snd] in *.
  - destruct Hspan as (Hloc & _ & He & _). destruct Ho as (Hi1 & Hpl & _ & _ & _ & Hs1). cbn in *.
    apply (psafe_trans p (with_reader r p)); [done|]. apply cache_safe; try done.
    + by eapply entry_payload.
    + subst n. exact Hid.
  - destruct Ho as (_ & _ & _ & _ & _ & Hs1). cbn in *. by split.
Qed.

(** A type whose counts are machine words and whose struct is in the schema. *)
Definition type_fits (structs_ : list CdrSchemaStruct) (t : CdrSchemaType) : Prop :=
  counts_ok t /\
  (st_kind t = kStruct -> exists j, nested_index t = Some j /\ (j < length structs_)%nat).

Definition structs_fit (structs_ : list CdrSchemaStruct) : Prop :=
  forall i s f, structs_ !! i = Some s -> f ∈ ss_fields s -> type_fits structs_ (sf_type f).

Lemma schema_fits structs_ : schema_ok structs_ -> structs_fit structs_.
Proof.
  intros Hok i s f Hs Hf. split; [|by apply (ok_resolved _ Hok i s f)].
  pose proof (ok_types _ Hok) as Ht. unfold types_ok in Ht. rewrite Forall_lookup in Ht.
  specialize (Ht i s Hs). cbn in Ht. rewrite Forall_forall in Ht. by apply Ht.
Qed.

(** A machine size, or an error. *)
Definition size_result (o : exec (PjExpected Z)) : Prop :=
  match o with Val (Value m) => 0 <= m <= SIZE_MAX | Val (Failed _) => True | Undef => False end.

Lemma minimum_fields_safe minimum total fields :
  (forall f, f ∈ fields -> counts_ok (sf_type f) /\ size_result (minimum (sf_type f))) ->
  0 <= total <= SIZE_MAX -> size_result (minimum_fields minimum total fields).
Proof.
  revert total. induction fields as [|f fields IH]; intros total Hf Ht; [done|].
  cbn [minimum_fields]. destruct (Hf f (list_elem_of_here _ _)) as [Hc Hm].
  specialize (IH) with (1 := fun g Hg => Hf g (list_elem_of_further _ _ _ Hg)).
  destruct (minimum (sf_type f)) as [[m|e]|]; cbn [xbind]; [|done..]. cbn in Hm.
  assert (forall x, 0 <= x -> size_result (if x >? SIZE_MAX - total
    then Val (serr "CDR schema minimum size overflows the host size type")
    else minimum_fields minimum (total + x) fields)) as Hadd.
  { intros x Hx. destruct (_ >? _) eqn:E; [done|]. bprop. apply IH. lia. }
  destruct (st_container (sf_type f)) eqn:Ec; [apply Hadd; lia| |apply Hadd; lia].
  destruct Hc as [Hc _]. specialize (Hc Ec).
  destruct (_ =? 0) eqn:E0; [lia|]. destruct (_ >? _) eqn:E1; [done|]. apply Hadd. nia.
Qed.

Lemma minimumSize_safe structs_ fuel : forall depth t,
  structs_fit structs_ -> type_fits structs_ t -> (depth + fuel = walk_fuel)%nat ->
  (depth <= kMaxTraversalDepth)%nat -> size_result (minimumSize structs_ fuel depth t).
Proof.
  induction fuel as [|fuel IH]; intros depth t Hfit [Hc Hres] Hfuel Hdepth;
    [unfold walk_fuel in *; lia|].
  destruct (decide (st_kind t = kStruct)) as [Ek|Ek].
  - cbn [minimumSize]. rewrite Ek. destruct (kMaxTraversalDepth <=? depth)%nat eqn:E; [done|].
    apply Nat.leb_gt in E. destruct (Hres Ek) as (j & Hj & Hlt). rewrite Hj.
    destruct (lookup_lt_is_Some_2 structs_ j Hlt) as [s Hs]. rewrite Hs.
    apply minimum_fields_safe; [|lia]. intros f Hf. pose proof (Hfit j s f Hs Hf) as Ht.
    split; [apply Ht|]. apply IH; done || lia.
  - cbn [minimumSize]. destruct (st_kind t); try done; cbn; lia.
Qed.

Lemma pminimum_safe n structs_ t :
  structs_fit structs_ -> type_fits structs_ t -> PSafe n (pminimum structs_ t).
Proof.
  intros Hfit Ht p Hi Hs Hl. unfold pminimum.
  pose proof (minimumSize_safe structs_ walk_fuel 0 t Hfit Ht eq_refl ltac:(lia)) as H.
  destruct (minimumSize _ _ _ _) as [[m|e]|]; [| |done].
  - cbn. by split; [apply step_refl|].
  - by apply (psafe_fail n).
Qed.

Lemma psafe_ext n {A} (m1 m2 : pm A) :
  (forall p, cdr_inv (reader p) -> status (reader p) = status_ok -> m1 p = m2 p) ->
  PSafe n m2 -> PSafe n m1.
Proof. intros He H2 p Hi Hs Hl. rewrite He by done. by apply H2. Qed.

Definition id_ok (n : nat) (id : option nat) : Prop :=
  match id with Some i => (i < n)%nat | None => True end.

Lemma scalar_leaf t : st_container t = kScalar -> st_kind t <> kStruct -> leaf t.
Proof. unfold leaf, cachedKind. intros ->. by destruct (st_kind t). Qed.

(** A scalar that is not a struct is a leaf; for it [walk_scalar] takes its span. *)
Lemma scalar_walk walk t path id p :
  st_container t = kScalar -> st_kind t <> kStruct -> counts_ok t ->
  cdr_inv (reader p) -> status (reader p) = status_ok ->
  walk_scalar walk t path id p = leaf_step t id p.
Proof.
  intros Hc Hk Hcounts Hi Hs. destruct (decide (st_kind t = kString)) as [Ek|Ek].
  - by apply string_step.
  - by apply primitive_step.
Qed.

Section Walks.
Context (structs_ : list CdrSchemaStruct) (n : nat) (walk : struct_walker).
Context (Hfit : structs_fit structs_).
(** The walker of nested structs, at one path. *)
Context (path : list nat) (Hwalk : forall j, (j < length structs_)%nat -> PSafe n (walk j path)).

Lemma walk_scalar_safe t id :
  st_container t = kScalar -> type_fits structs_ t -> id_ok n id -> PSafe n (walk_scalar walk t path id).
Proof.
  intros Hc [Hcounts Hres] Hid. destruct (decide (st_kind t = kStruct)) as [Ek|Ek].
  - unfold walk_scalar. rewrite Ek. destruct (Hres Ek) as (j & -> & Hlt). by apply Hwalk.
  - apply (psafe_ext n _ (leaf_step t id)); [intros p; by apply scalar_walk|].
    apply leaf_step_safe; [by apply scalar_leaf|done|done].
Qed.

Lemma element_fits t : type_fits structs_ t -> type_fits structs_ (element_of t).
Proof.
  intros [(H1 & H2 & H3) Hres]. split; [|done]. split; [done|]. by split.
Qed.

Lemma walk_elements_safe msg element count :
  st_container element = kScalar -> type_fits structs_ element ->
  PSafe n (walk_elements walk msg element path count).
Proof.
  intros Hc Hfits. induction count as [|count IH]; cbn [walk_elements]; [apply _|].
  pose proof (walk_scalar_safe element None Hc Hfits I). apply _.
Qed.

Lemma walkValue_safe t id has_descendant :
  type_fits structs_ t -> id_ok n id -> PSafe n (walkValue structs_ walk t path id has_descendant).
Proof.
  intros Hfits Hid. unfold walkValue. apply psafe_if; [apply _|].
  destruct (st_container t) eqn:Ec.
  - by apply walk_scalar_safe.
  - destruct (decide (st_kind t = kU8)) as [Ek|Ek].
    + apply (psafe_ext n _ (leaf_step t id)).
      * intros p Hi Hs. destruct Hfits. rewrite <-(leaf_walk structs_ walk t path id p); try done.
        -- unfold walkValue. by rewrite Ec.
        -- unfold leaf, cachedKind. rewrite Ec. by rewrite bool_decide_true.
      * destruct Hfits. apply leaf_step_safe; [|done..].
        unfold leaf, cachedKind. rewrite Ec. by rewrite bool_decide_true.
    + unfold walk_fixed_array. rewrite bool_decide_false by done.
      pose proof (pminimum_safe n structs_ (element_of t) Hfit (element_fits t Hfits)).
      pose proof (walk_elements_safe "CDR fixed-array element did not consume input" (element_of t)
        (Z.to_nat (fixed_count t)) eq_refl (element_fits t Hfits)). apply _.
  - destruct (decide (st_kind t = kU8)) as [Ek|Ek].
    + apply (psafe_ext n _ (leaf_step t id)).
      * intros p Hi Hs. destruct Hfits. rewrite <-(leaf_walk structs_ walk t path id p); try done.
        -- unfold walkValue. by rewrite Ec.
        -- unfold leaf, cachedKind. rewrite Ec. by rewrite bool_decide_true.
      * destruct Hfits. apply leaf_step_safe; [|done..].
        unfold leaf, cachedKind. rewrite Ec. by rewrite bool_decide_true.
    + unfold walk_sequence. rewrite bool_decide_false by done.
      pose proof (pminimum_safe n structs_ t Hfit Hfits).
      pose proof (fun count => walk_elements_safe "CDR sequence element did not consume input"
        (element_of t) (Z.to_nat count) eq_refl (element_fits t Hfits)). apply _.
Qed.
End Walks.

Lemma match_requests_bound index path requests id has_descendant :
  id_ok index id ->
  id_ok (index + length requests) (match_requests index path requests id has_descendant).1.
Proof.
  revert index id has_descendant. induction requests as [|r requests IH]; intros index id hd Hid;
    cbn [match_requests length].
  { by rewrite Nat.add_0_r. }
  assert (forall id', id_ok (S index) id' -> forall hd',
    id_ok (index + S (length requests)) (match_requests (S index) path requests id' hd').1) as H.
  { intros id' Hid' hd'. replace (index + S (length requests))%nat with (S index + length requests)%nat by lia.
    by apply IH. }
  assert (id_ok (S index) id) by (destruct id; cbn in *; [lia|done]).
  destruct (_ || _)%bool; [by apply H|]. destruct (_ =? _)%nat; apply H; cbn; [lia|done].
Qed.

Lemma walk_fields_safe structs_ requested_ walk path fields : forall k,
  structs_fit structs_ ->
  (forall f, f ∈ fields -> type_fits structs_ (sf_type f)) ->
  (forall i j, (j < length structs_)%nat -> PSafe (length requested_) (walk j (path ++ [i]))) ->
  PSafe (length requested_) (walk_fields structs_ requested_ walk path k fields).
Proof.
  induction fields as [|f fields IH]; intros k Hfit Hf Hwalk; cbn [walk_fields]; [apply _|].
  pose proof (match_requests_bound 0 (path ++ [k]) requested_ None false I) as Hid.
  destruct (match_requests _ _ _ _ _) as [id hd]. cbn in Hid.
  pose proof (walkValue_safe structs_ (length requested_) walk Hfit (path ++ [k]) (Hwalk k)
    (sf_type f) id hd (Hf f (list_elem_of_here _ _)) Hid).
  pose proof (IH (S k) Hfit (fun g Hg => Hf g (list_elem_of_further _ _ _ Hg)) Hwalk). apply _.
Qed.

Lemma walkStruct_safe structs_ requested_ fuel : forall i path,
  structs_fit structs_ -> (length path + fuel = walk_fuel)%nat ->
  (length path <= kMaxTraversalDepth)%nat -> (i < length structs_)%nat ->
  PSafe (length requested_) (walkStruct structs_ requested_ fuel i path).
Proof.
  induction fuel as [|fuel IH]; intros i path Hfit Hfuel Hdepth Hi; [unfold walk_fuel in *; lia|].
  cbn [walkStruct]. destruct (kMaxTraversalDepth <=? length path)%nat eqn:E; [apply _|].
  apply Nat.leb_gt in E. destruct (lookup_lt_is_Some_2 structs_ i Hi) as [s Hs]. rewrite Hs.
  apply walk_fields_safe; [done|intros f Hf; by apply (Hfit i s f)|].
  intros k j Hj. apply IH; rewrite ?length_app; cbn; done || lia.
Qed.

Lemma locateAll_safe structs_ requested_ :
  schema_ok structs_ -> PSafe (length requested_) (locateAll structs_ requested_).
Proof.
  intros Hok p Hi Hs Hl. unfold locateAll. rewrite Hs. cbn [isOk code status_ok negb].
  destruct (ok_root _ Hok) as (root & Hroot & _). apply lookup_lt_Some in Hroot.
  pose proof (walkStruct_safe structs_ requested_ walk_fuel 0 [] (schema_fits _ Hok) eq_refl
    ltac:(cbn; lia) Hroot).
  refine (psafe_run (m := pmbind _ _) p Hi Hs Hl).
  apply psafe_bind; [done|]. intros [] q Hiq Hsq Hlq.
  destruct (forallb located (cached_fields q)); [|by apply (psafe_fail (length requested_))].
  cbn. by split; [apply step_refl|].
Qed.

(** ** Sessions of planned accesses *)

Definition pmap {A B} (f : A -> B) (m : pm A) : pm B := let% a := m in pret (f a).

(** The accessor of a kind. *)
Definition planned_read (plan : CdrTraversalPlan) (kind : CachedKind) (field : nat) : pm cdr_value :=
  match kind with
  | cUnknown => pfail (str "")
  | cBool => pmap VBool (p_boolean plan field)
  | cI8 => pmap VNumber (p_i8 plan field)
  | cU8 => pmap VNumber (p_u8 plan field)
  | cI16 => pmap VNumber (p_i16 plan field)
  | cU16 => pmap VNumber (p_u16 plan field)
  | cI32 => pmap VNumber (p_i32 plan field)
  | cU32 => pmap VNumber (p_u32 plan field)
  | cI64 => pmap VNumber (p_i64 plan field)
  | cU64 => pmap VNumber (p_u64 plan field)
  | cF32 => pmap VNumber (p_f32 plan field)
  | cF64 => pmap VNumber (p_f64 plan field)
  | cString => pmap VString (p_string plan field)
  | cBytes => pmap VBytes (p_bytes plan field)
  end.

(** Any sequence of accesses; a failed one does not end the session. *)
Fixpoint access_session (plan : CdrTraversalPlan) (calls : list (CachedKind * nat)) (p : Planned)
  : exec (list (PjExpected cdr_value) * Planned) :=
  match calls with
  | [] => Val ([], p)
  | (kind, field) :: calls' =>
    let! (v, p1) := planned_read plan kind field p in
    let! (vs, p2) := access_session plan calls' p1 in Val (v :: vs, p2)
  end.

Definition session_inv (plan : CdrTraversalPlan) (data : bytes) (p : Planned) : Prop :=
  cdr_inv (reader p) /\ payload (reader p) = data /\
  Forall (entry_ok (reader p)) (cached_fields p) /\ 0 <= traversal_count p <= 1 /\
  (isOk (status (reader p)) = true ->
   status (reader p) = status_ok /\ length (cached_fields p) = length (requested plan)).

(** The result [v] with the state after it: a failure is recorded. *)
Definition access_ok {A} (plan : CdrTraversalPlan) (data : bytes) (post : A -> Planned -> Prop)
    (o : exec (PjExpected A * Planned)) : Prop :=
  match o with
  | Val (Value a, p) => session_inv plan data p /\ status (reader p) = status_ok /\ post a p
  | Val (Failed _, p) => session_inv plan data p /\ isOk (status (reader p)) = false
  | Undef => False
  end.

Lemma planned_reader_inv plan data :
  Z.of_nat (length data) < 2 ^ 64 -> session_inv plan data (planned_reader plan data).
Proof.
  intros Hl. unfold planned_reader, session_inv. cbn [reader cached_fields traversal_count].
  split_and!; [by apply initialize_inv| | |lia|lia|].
  - unfold initialize. destruct data as [|b0 [|b1 [|b2 [|b3 data]]]]; try done. cbv zeta.
    by destruct (_ && _).
  - destruct (isOk _); [|constructor]. apply Forall_replicate. by intros ?.
  - intros Hs. rewrite Hs, length_replicate. split; [|done]. revert Hs. unfold initialize.
    destruct data as [|b0 [|b1 [|b2 [|b3 data]]]]; try done. cbv zeta. by destruct (_ && _).
Qed.

Lemma access_bind {A B} plan data (m : pm A) (f : A -> pm B) p post post' :
  access_ok plan data post (m p) ->
  (forall a q, session_inv plan data q -> status (reader q) = status_ok -> post a q ->
    access_ok plan data post' (f a q)) ->
  access_ok plan data post' (pmbind m f p).
Proof.
  intros Hm Hf. unfold access_ok, pmbind in Hm |- *. destruct (m p) as [[[a|s] q]|]; [|done..].
  destruct Hm as (? & ? & ?). by apply Hf.
Qed.

Lemma access_fail {A} plan data (post : A -> Planned -> Prop) e p :
  session_inv plan data p -> access_ok plan data post (pfail e p).
Proof.
  intros (Hi & Hpl & Hall & Hc & Hs). cbn. split; [|done]. unfold session_inv. cbn.
  split; [exact Hi|]. split; [done|]. split; [exact Hall|]. by split.
Qed.

Lemma access_ret {A} plan data (post : A -> Planned -> Prop) a p :
  session_inv plan data p -> status (reader p) = status_ok -> post a p ->
  access_ok plan data post (pret a p).
Proof. done. Qed.

Lemma inv_with_status plan data q s :
  cdr_inv (reader q) -> payload (reader q) = data ->
  Forall (entry_ok (reader q)) (cached_fields q) -> 0 <= traversal_count q <= 1 ->
  (isOk s = true -> s = status_ok /\ length (cached_fields q) = length (requested plan)) ->
  session_inv plan data (with_reader (set_status (reader q) s) q).
Proof. intros Hi Hpl Hall Hc Hs. split; [exact Hi|]. split; [exact Hpl|]. by split; [exact Hall|]. Qed.

Lemma ensure_ok plan data p :
  schema_ok (structs plan) -> session_inv plan data p ->
  access_ok plan data (fun _ _ => True) (ensurePlannedFields plan p).
Proof.
  intros Hok Hinv. pose proof Hinv as (Hi & Hpl & Hall & Hcount & Hst). unfold ensurePlannedFields.
  destruct (isOk (status (reader p))) eqn:Es; cbn [negb]; [|done].
  destruct (Hst eq_refl) as [Hs Hl]. destruct (traversal_count p =? 0) eqn:Ec.
  2: { cbn. by rewrite Hs. }
  set (start := mkPlanned _ _ _).
  assert (cdr_inv (reader start)) as Hi0.
  { destruct Hi as ((? & ?) & ? & ? & ?). unfold cdr_inv, payload_size, kMaxTraversalDepth in *.
    cbn. lia. }
  pose proof (locateAll_safe (structs plan) (requested plan) Hok start Hi0 Hs Hl) as H.
  unfold psafe in H.
  assert (forall q s, step_ok start q ->
    (isOk s = true -> s = status_ok) ->
    session_inv plan data (with_reader (set_status (reader q) s) q)) as Hafter.
  { intros q s (Hiq & Hplq & _ & _ & _ & Hlq & Hallq & Hcq) Hsq. cbn in *.
    apply inv_with_status; try done; try congruence.
    - apply Hallq. eapply Forall_impl; [exact Hall|]. intros cf. by apply entry_payload.
    - lia.
    - intros Hok'. split; [by apply Hsq|congruence]. }
  destruct (locateAll _ _ start) as [[[[]|s] q]|]; cbn [xbind]; [| |done].
  - destruct H as [Hstep Hsq]. split; [by apply Hafter|done].
  - destruct H as (Hstep & Hsq & Hf). cbn [reader with_reader status set_status]. rewrite Hf.
    split; [apply Hafter; [done|congruence]|done].
Qed.

Lemma cached_ok plan data field kind p :
  schema_ok (structs plan) -> session_inv plan data p ->
  access_ok plan data (fun cf q => located cf = true /\ cf_kind cf = kind /\ entry_ok (reader q) cf)
    (cached plan field kind p).
Proof.
  intros Hok Hinv. eapply access_bind; [by apply ensure_ok|]. intros [] q Hq Hs _.
  destruct (cached_fields q !! field) as [cf|] eqn:E; [|by apply access_fail].
  destruct (located cf) eqn:El; cbn [negb orb]; [|by apply access_fail].
  case_bool_decide as Hk; cbn [negb]; [|by apply access_fail].
  cbn. split_and!; try done. destruct Hq as (_ & _ & Hall & _). rewrite Forall_lookup in Hall.
  by apply (Hall field).
Qed.

Lemma block_ok plan data offset n q :
  session_inv plan data q -> status (reader q) = status_ok -> 0 <= offset -> 0 <= n ->
  offset + n <= payload_size (reader q) ->
  access_ok plan data
    (fun block _ => Z.of_nat (length block) = n /\
                    block = take (Z.to_nat n) (drop (Z.to_nat offset) data))
    (payload_block offset n q).
Proof.
  intros Hq Hs Ho Hn Hle. unfold payload_block. destruct (_ >? _) eqn:E; bprop; [lia|]. cbn.
  pose proof Hq as (_ & Hpl & _). unfold payload_size in Hle. rewrite Hpl in *. split_and!; try done.
  rewrite length_take, length_drop. lia.
Qed.

Lemma cachedUnsigned_ok plan data field kind width p :
  schema_ok (structs plan) -> session_inv plan data p -> kind_width kind = Some (Z.of_nat width) ->
  access_ok plan data (fun _ _ => True) (cachedUnsigned plan field kind width p).
Proof.
  intros Hok Hinv Hw. eapply access_bind; [by apply cached_ok|].
  intros cf q Hq Hs (Hl & Hk & He). subst kind. destruct (He Hl) as (? & ? & ? & Hsize).
  rewrite (Hsize _ Hw) in *. eapply access_bind; [by apply block_ok|]. intros block r Hr Hsr _.
  cbn. by split_and!.
Qed.

Lemma planned_read_ok plan data kind field p :
  schema_ok (structs plan) -> session_inv plan data p ->
  access_ok plan data (fun _ _ => True) (planned_read plan kind field p).
Proof.
  intros Hok Hinv.
  assert (forall A B (f : A -> B) (m : pm A), access_ok plan data (fun _ _ => True) (m p) ->
    access_ok plan data (fun _ _ => True) (pmap f m p)) as Hmap.
  { intros A B f m Hm. eapply access_bind; [exact Hm|]. intros a q Hq Hs _. by apply access_ret. }
  assert (forall k w, kind_width k = Some (Z.of_nat w) ->
    access_ok plan data (fun _ _ => True) (cachedUnsigned plan field k w p)) as Hu
    by (intros; by apply cachedUnsigned_ok).
  assert (forall k w (f : Z -> Z), kind_width k = Some (Z.of_nat w) ->
    access_ok plan data (fun _ _ => True) ((let% v := cachedUnsigned plan field k w in pret (f v)) p))
    as Hn by (intros k w f Hw; by apply (Hmap _ _ f), Hu).
  assert (forall k, access_ok plan data (fun _ _ => True)
    ((let% v := cached plan field k in payload_block (cf_offset v) (cf_size v)) p)) as Hblock.
  { intros k. eapply access_bind; [by apply cached_ok|].
    intros cf q Hq Hs (Hl & _ & He). destruct (He Hl) as (? & ? & ? & _).
    pose proof (block_ok plan data (cf_offset cf) (cf_size cf) q Hq Hs) as Hb.
    unfold access_ok in *. destruct (payload_block _ _ q) as [[[b|s] r]|]; [|by apply Hb..].
    destruct Hb as (? & ? & _); done. }
  destruct kind; cbn [planned_read]; try (apply Hmap; by apply Hu || by apply Hn || by apply Hblock).
  - by apply access_fail.
  - apply Hmap. eapply access_bind; [by apply Hu|]. intros v q Hq Hs _.
    destruct (v >? 1); [by apply access_fail|by apply access_ret].
Qed.

(** An access to a reader with an error fails. *)
Lemma planned_read_sticky plan kind field p :
  isOk (status (reader p)) = false ->
  exists s q, planned_read plan kind field p = Val (Failed s, q) /\ isOk (status (reader q)) = false.
Proof.
  intros Hs.
  assert (forall k, cached plan field k p = Val (Failed (status (reader p)), p)) as Hc.
  { intros k. unfold cached, pmbind, ensurePlannedFields. by rewrite Hs. }
  destruct kind; cbn [planned_read]; [by do 2 eexists|..];
    exists (status (reader p)), p; (split; [|done]);
    unfold pmap, p_boolean, p_i8, p_u8, p_i16, p_u16, p_i32, p_u32, p_i64, p_u64, p_f32, p_f64,
      p_string, p_bytes, cachedBits, cachedUnsigned, pmbind; by rewrite Hc.
Qed.

(** C6 Planned access is memory safe: over a plan of an accepted schema and any
    message whatever, no sequence of accesses reads outside the message or a
    vector, the message is traversed at most once, every cached span lies in the
    message, and once an access has failed the reader keeps reporting an error. *)
Theorem planned_access_safe plan data calls :
  schema_ok (structs plan) -> Z.of_nat (length data) < 2 ^ 64 ->
  match access_session plan calls (planned_reader plan data) with
  | Val (results, p) =>
    length results = length calls /\ payload (reader p) = data /\ traversal_count p <= 1 /\
    Forall (entry_ok (reader p)) (cached_fields p) /\
    forall s, Failed s ∈ results -> isOk (status (reader p)) = false
  | Undef => False
  end.
Proof.
  intros Hok Hl.
  assert (forall p, session_inv plan data p ->
    match access_session plan calls p with
    | Val (results, q) => length results = length calls /\ session_inv plan data q /\
        (isOk (status (reader p)) = false -> isOk (status (reader q)) = false) /\
        (forall s, Failed s ∈ results -> isOk (status (reader q)) = false)
    | Undef => False
    end) as Hgen.
  2: { pose proof (Hgen _ (planned_reader_inv plan data Hl)) as H.
       destruct (access_session _ _ _) as [[results q]|]; [|done].
       destruct H as (? & (? & ? & ? & ? & _) & _ & ?). split_and!; done || lia. }
  clear Hl. induction calls as [|[kind field] calls IH]; intros p Hp; cbn [access_session].
  { split_and!; try done. intros s Hs. by apply elem_of_nil in Hs. }
  pose proof (planned_read_ok plan data kind field p Hok Hp) as H.
  pose proof (planned_read_sticky plan kind field p) as Hsticky.
  unfold access_ok in H. destruct (planned_read plan kind field p) as [[v q]|]; cbn [xbind]; [|done].
  assert (session_inv plan data q /\ (isOk (status (reader p)) = false -> isOk (status (reader q)) = false)
    /\ forall s, v = Failed s -> isOk (status (reader q)) = false) as (Hq & Hkeep & Hv).
  { destruct v as [a|s]; (split; [by destruct H|]).
    - split; [|done]. intros Hs. destruct (Hsticky Hs) as (s & q' & Heq & _). done.
    - by destruct H. }
  specialize (IH q Hq). destruct (access_session plan calls q) as [[vs r]|]; cbn [xbind]; [|done].
  destruct IH as (Hlen & Hr & Hkeep' & Hvs). cbn [length]. split_and!; [congruence|done|by auto|].
  intros s Hin. apply elem_of_cons in Hin as [Hin|Hin]; [|by apply (Hvs s)].
  apply Hkeep', (Hv s). done.
Qed.

(** ** A sample message *)

Definition sample_paths : list bytes := [str "point.x"; str "frame"; str "data"].

Definition sample_plan : CdrTraversalPlan :=
  match locate (Value sample_structs) sample_paths with
  | Val (Value plan) => plan
  | _ => mkTraversalPlan sample_structs []
  end.

(** Little endian: [x], [y], the string "ab" and two bytes of data. *)
Definition sample_message : bytes :=
  map z2b [0; 1; 0; 0;  1; 2; 3; 4; 5; 6; 7; 8;  9; 0; 10; 0;  3; 0; 0; 0; 97; 98; 0;
           0;  2; 0; 0; 0; 42; 43].

Definition sample_calls : list (CachedKind * nat) :=
  [(cF64, 0%nat); (cString, 1%nat); (cBytes, 2%nat); (cU8, 7%nat); (cF64, 0%nat)].

Example sample_session :
  match access_session sample_plan sample_calls (planned_reader sample_plan sample_message) with
  | Val (results, _) =>
    results = [Value (VNumber 578437695752307201); Value (VString (str "ab"));
               Value (VBytes [z2b 42; z2b 43]);
               Failed (status_error (str "CDR field id is outside the traversal plan"));
               Failed (status_error (str "CDR field id is outside the traversal plan"))]
  | Undef => False
  end.
Proof. vm_compute. reflexivity. Qed.

Example planned_access_safe_witness :
  match access_session sample_plan sample_calls (planned_reader sample_plan sample_message) with
  | Val (results, p) =>
    length results = length sample_calls /\ payload (reader p) = sample_message /\
    traversal_count p <= 1 /\ Forall (entry_ok (reader p)) (cached_fields p) /\
    forall s, Failed s ∈ results -> isOk (status (reader p)) = false
  | Undef => False
  end.
Proof. exact (planned_access_safe sample_plan sample_message sample_calls sample_ok eq_refl). Defined.
