(* ===== verification/CdrPlanned.v ===== *)
(** * CdrPlanned: planned access is sequential access

    Requests do not influence the traversal; the entry cached for a request is the
    span of its field, found by walking over everything before it; and the
    accessor returns what the plain reader returns there. *)

From S2P Require Import Prelude Text ParserCore CdrReader.
From S2P Require Import CdrSchema CdrLocator CdrTraversal.

(** ** Two traversals of the same message *)

(** The same result and the same reader; the caches may differ. *)
Definition agree {A} (n : nat) (o1 o2 : exec (PjExpected A * Planned)) : Prop :=
  match o1, o2 with
  | Val (v1, p1), Val (v2, p2) => v1 = v2 /\ reader p1 = reader p2 /\ length (cached_fields p1) = n
  | Undef, Undef => True
  | _, _ => False
  end.

Class Agree (n : nat) {A} (m1 m2 : pm A) : Prop :=
  agree_run : forall p q, reader p = reader q -> length (cached_fields p) = n -> agree n (m1 p) (m2 q).

#[export] Instance agree_ret n {A} (a : A) : Agree n (pret a) (pret a).
Proof. by intros p q Hr Hl. Qed.

#[export] Instance agree_bind n {A B} (m1 m2 : pm A) (f1 f2 : A -> pm B)
  `{!Agree n m1 m2} `{!forall a, Agree n (f1 a) (f2 a)} : Agree n (pmbind m1 f1) (pmbind m2 f2).
Proof.
  intros p q Hr Hl. pose proof (agree_run (m1:=m1) (m2:=m2) p q Hr Hl) as Hm.
  unfold agree, pmbind in Hm |- *.
  destruct (m1 p) as [[v1 p1]|], (m2 q) as [[v2 p2]|]; [|done..].
  destruct Hm as (-> & Hr1 & Hl1). destruct v2 as [a|s]; [|done].
  by apply (agree_run (m1:=f1 a) (m2:=f2 a) p1 p2).
Qed.

#[export] Instance agree_lift n {A} (m : cdr A) : Agree n (plift m) (plift m).
Proof. intros p q Hr Hl. unfold plift. rewrite Hr. by destruct (m (reader q)). Qed.

#[export] Instance agree_fail n {A} e : Agree n (@pfail A e) (@pfail A e).
Proof. exact (agree_lift n (cfail e)). Qed.

#[export] Instance agree_undef n {A} : Agree n (@pundef A) (@pundef A).
Proof. by intros p q Hr Hl. Qed.

#[export] Instance agree_position n : Agree n get_position get_position.
Proof. intros p q Hr Hl. unfold get_position. by rewrite Hr. Qed.

#[export] Instance agree_remaining n : Agree n get_remaining get_remaining.
Proof. intros p q Hr Hl. unfold get_remaining. by rewrite Hr. Qed.

#[export] Instance agree_advance n k : Agree n (advance k) (advance k).
Proof. intros p q Hr Hl. unfold advance. by rewrite Hr. Qed.

#[export] Instance agree_align n k : Agree n (palign k) (palign k).
Proof. intros p q Hr Hl. unfold palign. rewrite Hr. by destruct (align k (reader q)). Qed.

#[export] Instance agree_payload n i : Agree n (payload_at i) (payload_at i).
Proof. intros p q Hr Hl. unfold payload_at. rewrite Hr. by destruct (_ !! _). Qed.

#[export] Instance agree_minimum n structs_ t : Agree n (pminimum structs_ t) (pminimum structs_ t).
Proof.
  intros p q Hr Hl. unfold pminimum. destruct (minimumSize _ _ _ _) as [[m|s]|]; [done| |done].
  by apply (agree_fail n).
Qed.

Lemma agree_cache n id kind offset size :
  id_ok n id -> Agree n (cache id kind offset size) (cache None kind offset size).
Proof.
  intros Hid p q Hr Hl. unfold cache. destruct id as [i|]; [|done].
  rewrite (proj2 (Nat.ltb_lt _ _)) by (cbn in Hid; lia). cbn. by rewrite length_insert.
Qed.

Lemma agree_if n {A} (b : bool) (m1 m2 k1 k2 : pm A) :
  Agree n m1 k1 -> Agree n m2 k2 -> Agree n (if b then m1 else m2) (if b then k1 else k2).
Proof. by destruct b. Qed.

#[export] Hint Extern 2 (Agree _ (if _ then _ else _) _) => apply agree_if : typeclass_instances.

Section WalksAgree.
Context (structs_ : list CdrSchemaStruct) (n : nat) (walk1 walk2 : struct_walker) (path : list nat).

(** The nested walkers agree on the struct of the type. *)
Definition nested_agree (t : CdrSchemaType) : Prop :=
  forall j, st_kind t = kStruct -> nested_index t = Some j -> Agree n (walk1 j path) (walk2 j path).

Lemma scalar_agree t id :
  nested_agree t -> id_ok n id -> Agree n (walk_scalar walk1 t path id) (walk_scalar walk2 t path None).
Proof.
  intros Hn Hid. pose proof (fun k o s => agree_cache n id k o s Hid). unfold walk_scalar.
  destruct (st_kind t) eqn:Ek; try apply _.
  destruct (nested_index t) as [j|] eqn:Ej; [by apply Hn|apply _].
Qed.

Lemma elements_agree msg t count :
  nested_agree t -> Agree n (walk_elements walk1 msg t path count) (walk_elements walk2 msg t path count).
Proof.
  intros Hn. induction count as [|count IH]; cbn [walk_elements]; [apply _|].
  pose proof (scalar_agree t None Hn I). apply _.
Qed.

Lemma value_agree t id hd :
  nested_agree t -> id_ok n id ->
  (hd = true -> st_kind t = kStruct /\ st_container t = kScalar) ->
  Agree n (walkValue structs_ walk1 t path id hd) (walkValue structs_ walk2 t path None false).
Proof.
  intros Hn Hid Hhd. unfold walkValue.
  assert (hd && (negb (bool_decide (st_kind t = kStruct)) || negb (bool_decide (st_container t = kScalar)))
    = false) as ->.
  { destruct hd; [|done]. destruct (Hhd eq_refl) as [-> ->]. done. }
  cbn [andb]. pose proof (fun k o s => agree_cache n id k o s Hid).
  assert (nested_agree (element_of t)) as He by exact Hn.
  destruct (st_container t).
  - by apply scalar_agree.
  - unfold walk_fixed_array.
    pose proof (elements_agree "CDR fixed-array element did not consume input" (element_of t)
      (Z.to_nat (fixed_count t)) He). apply _.
  - unfold walk_sequence.
    pose proof (fun count => elements_agree "CDR sequence element did not consume input" (element_of t)
      (Z.to_nat count) He). apply _.
Qed.
End WalksAgree.

(** ** What a traversal leaves alone *)

(** Every cache entry in [S] is kept. *)
Class Keeps (S : nat -> Prop) {A} (m : pm A) : Prop :=
  keeps_run : forall p v q, m p = Val (v, q) -> forall x, S x -> cached_fields q !! x = cached_fields p !! x.

#[export] Instance keeps_ret S {A} (a : A) : Keeps S (pret a).
Proof. by intros p v q [= <- <-]. Qed.

#[export] Instance keeps_bind S {A B} (m : pm A) (f : A -> pm B)
  `{!Keeps S m} `{!forall a, Keeps S (f a)} : Keeps S (pmbind m f).
Proof.
  intros p v q. unfold pmbind. destruct (m p) as [[[a|s] p1]|] eqn:E; [| |done].
  - intros Hf x Hx. rewrite (keeps_run (m:=f a) p1 v q Hf x Hx). by eapply (keeps_run (m:=m)).
  - intros [= <- <-]. by eapply (keeps_run (m:=m)).
Qed.

#[export] Instance keeps_lift S {A} (m : cdr A) : Keeps S (plift m).
Proof. intros p v q. unfold plift. destruct (m (reader p)). by intros [= <- <-]. Qed.

#[export] Instance keeps_fail S {A} e : Keeps S (@pfail A e).
Proof. exact (keeps_lift S (cfail e)). Qed.

#[export] Instance keeps_undef S {A} : Keeps S (@pundef A).
Proof. done. Qed.

#[export] Instance keeps_position S : Keeps S get_position.
Proof. by intros p v q [= <- <-]. Qed.

#[export] Instance keeps_remaining S : Keeps S get_remaining.
Proof. by intros p v q [= <- <-]. Qed.

#[export] Instance keeps_advance S k : Keeps S (advance k).
Proof. by intros p v q [= <- <-]. Qed.

#[export] Instance keeps_align S k : Keeps S (palign k).
Proof. intros p v q. unfold palign. destruct (align k (reader p)). by intros [= <- <-]. Qed.

#[export] Instance keeps_payload S i : Keeps S (payload_at i).
Proof. intros p v q. unfold payload_at. destruct (_ !! _); [|done]. by intros [= <- <-]. Qed.

#[export] Instance keeps_minimum S structs_ t : Keeps S (pminimum structs_ t).
Proof.
  intros p v q. unfold pminimum. destruct (minimumSize _ _ _ _) as [[m|s]|]; [| |done].
  - by intros [= <- <-].
  - by apply (keeps_fail S).
Qed.

Lemma keeps_cache (S : nat -> Prop) id kind offset size :
  match id with Some i => ~ S i | None => True end -> Keeps S (cache id kind offset size).
Proof.
  intros Hid p v q. unfold cache. destruct id as [i|]; [|by intros [= <- <-]].
  destruct (_ <? _)%nat; [|done]. intros [= <- <-] x Hx. cbn.
  apply list_lookup_insert_ne. by intros <-.
Qed.

Lemma keeps_if S {A} (b : bool) (m1 m2 : pm A) : Keeps S m1 -> Keeps S m2 -> Keeps S (if b then m1 else m2).
Proof. by destruct b. Qed.

#[export] Hint Extern 2 (Keeps _ (if _ then _ else _)) => apply keeps_if : typeclass_instances.

Section WalksKeep.
Context (structs_ : list CdrSchemaStruct) (S : nat -> Prop) (walk : struct_walker) (path : list nat).

Context (Hwalk : forall j, Keeps S (walk j path)).

Lemma scalar_keeps t id :
  match id with Some i => ~ S i | None => True end -> Keeps S (walk_scalar walk t path id).
Proof.
  intros Hid. pose proof (fun k o s => keeps_cache S id k o s Hid). unfold walk_scalar.
  destruct (st_kind t) eqn:Ek; try apply _. destruct (nested_index t) as [j|]; [apply Hwalk|apply _].
Qed.

Lemma elements_keeps msg t count : Keeps S (walk_elements walk msg t path count).
Proof.
  induction count as [|count IH]; cbn [walk_elements]; [apply _|].
  pose proof (scalar_keeps t None I). apply _.
Qed.

Lemma value_keeps t id hd :
  match id with Some i => ~ S i | None => True end ->
  Keeps S (walkValue structs_ walk t path id hd).
Proof.
  intros Hid. unfold walkValue. pose proof (fun k o s => keeps_cache S id k o s Hid).
  apply keeps_if; [apply _|]. destruct (st_container t).
  - by apply scalar_keeps.
  - unfold walk_fixed_array. pose proof (elements_keeps "CDR fixed-array element did not consume input"
      (element_of t) (Z.to_nat (fixed_count t))). apply _.
  - unfold walk_sequence. pose proof (fun count => elements_keeps
      "CDR sequence element did not consume input" (element_of t) (Z.to_nat count)). apply _.
Qed.
End WalksKeep.

(** ** Requests and paths *)

Section Requests.
Context (structs_ : list CdrSchemaStruct) (requested_ : list CdrRequestedField).

(** [steps] is a requested path. *)
Definition requests_path (x : nat) (steps : list nat) : Prop :=
  exists req, requested_ !! x = Some req /\ rf_steps req = steps.

(** The requests below [path] lead from struct [i] to leaves. *)
Definition requests_at (i : nat) (path : list nat) : Prop :=
  forall x rest, requests_path x (path ++ rest) -> rest <> [] ->
  exists names t, path_to structs_ i names rest t /\ leaf t.

(** The requests whose path does not start with [path]. *)
Definition elsewhere (path : list nat) (x : nat) : Prop :=
  forall rest, ~ requests_path x (path ++ rest).

Lemma take_prefix {A} (l path : list A) :
  take (length path) l = path <-> exists rest, l = path ++ rest.
Proof.
  split.
  - intros H. exists (drop (length path) l). rewrite <-H at 1. by rewrite take_drop.
  - intros [rest ->]. apply take_app_length.
Qed.

(** The request [match_requests] returns ends at the path, and [has_descendant] is
    set only by a request that goes on. *)
Lemma match_requests_sound path : forall requests index id hd,
  let '(id', hd') := match_requests index path requests id hd in
  (forall x, id' = Some x -> id = Some x \/
     exists k req, x = (index + k)%nat /\ requests !! k = Some req /\ rf_steps req = path) /\
  (hd' = true -> hd = true \/
     exists k req rest, requests !! k = Some req /\ rf_steps req = path ++ rest /\ rest <> []) /\
  ((id <> None \/ exists k req, requests !! k = Some req /\ rf_steps req = path) -> id' <> None).
Proof.
  induction requests as [|r requests IH]; intros index id hd; cbn [match_requests].
  { split_and!; [by left|by left|]. intros [?|(k & req & Hk & _)]; done. }
  assert (forall id' hd', (forall x, id' = Some x -> id = Some x \/ (x = index /\ rf_steps r = path)) ->
    (hd' = true -> hd = true \/ exists rest, rf_steps r = path ++ rest /\ rest <> []) ->
    ((id <> None \/ rf_steps r = path) -> id' <> None) ->
    let '(id'', hd'') := match_requests (S index) path requests id' hd' in
    (forall x, id'' = Some x -> id = Some x \/
      exists k req, x = (index + k)%nat /\ (r :: requests) !! k = Some req /\ rf_steps req = path) /\
    (hd'' = true -> hd = true \/
      exists k req rest, (r :: requests) !! k = Some req /\ rf_steps req = path ++ rest /\ rest <> []) /\
    ((id <> None \/ exists k req, (r :: requests) !! k = Some req /\ rf_steps req = path) -> id'' <> None))
    as Hgo.
  { intros id' hd' Hid Hhd Hne. specialize (IH (S index) id' hd').
    destruct (match_requests (S index) path requests id' hd') as [id'' hd''].
    destruct IH as (H1 & H2 & H3). split_and!.
    - intros x Hx. destruct (H1 x Hx) as [Hx'|(k & req & -> & Hk & Hreq)].
      + destruct (Hid x Hx') as [?|[-> Hr]]; [by left|right]. exists 0%nat, r. split_and!; done || lia.
      + right. exists (S k), req. split_and!; done || lia.
    - intros Hx. destruct (H2 Hx) as [Hx'|(k & req & rest & Hk & Hreq & Hrest)].
      + destruct (Hhd Hx') as [?|(rest & Hr & Hrest)]; [by left|right]. by exists 0%nat, r, rest.
      + right. by exists (S k), req, rest.
    - intros [Hid0|([|k] & req & Hk & Hreq)]; apply H3.
      + left. apply Hne. by left.
      + left. apply Hne. right. cbn in Hk. congruence.
      + right. by exists k, req. }
  destruct (_ || _)%bool eqn:E.
  { apply Hgo; [by left|by left|]. intros [?|Hr]; [done|]. exfalso.
    apply orb_true_iff in E as [E|E]; [apply Nat.ltb_lt in E; rewrite Hr in E; lia|].
    apply negb_true_iff, bool_decide_eq_false in E. apply E. rewrite Hr. apply firstn_all. }
  apply orb_false_iff in E as [_ E]. apply negb_false_iff, bool_decide_eq_true, take_prefix in E as [rest Hr].
  rewrite Hr, length_app. destruct (_ =? _)%nat eqn:El.
  - apply Nat.eqb_eq in El. destruct rest; [|cbn in El; lia]. rewrite app_nil_r in Hr.
    apply Hgo; [intros x [= <-]; by right|by left|done].
  - apply Nat.eqb_neq in El. apply Hgo; [by left| |].
    + intros _. right. exists rest. split; [done|]. intros ->. cbn in El. lia.
    + intros [?|Hr']; [done|]. exfalso. apply El. rewrite Hr' in Hr.
      rewrite <-(app_nil_r path) in Hr at 1. apply app_inv_head in Hr as <-. cbn. lia.
Qed.

Lemma match_requests_spec path id hd :
  match_requests 0 path requested_ None false = (id, hd) ->
  (forall x, id = Some x -> requests_path x path) /\
  (hd = true -> exists x rest, requests_path x (path ++ rest) /\ rest <> []) /\
  ((exists x, requests_path x path) -> id <> None).
Proof.
  intros H. pose proof (match_requests_sound path requested_ 0 None false) as H1. rewrite H in H1.
  destruct H1 as (H1 & H2 & H3). split_and!.
  - intros x Hx. destruct (H1 x Hx) as [?|(k & req & -> & Hk & Hr)]; [done|]. by exists req.
  - intros Hx. destruct (H2 Hx) as [?|(k & req & rest & Hk & Hr & Hrest)]; [done|].
    exists k, rest. split; [by exists req|done].
  - intros (x & req & Hx & Hr). apply H3. right. by exists x, req.
Qed.

Lemma requests_at_field i path s k f :
  requests_at i path -> structs_ !! i = Some s -> ss_fields s !! k = Some f ->
  forall x rest, requests_path x ((path ++ [k]) ++ rest) ->
  (rest = [] /\ leaf (sf_type f)) \/
  (rest <> [] /\ st_kind (sf_type f) = kStruct /\ st_container (sf_type f) = kScalar /\
   exists j names t, nested_index (sf_type f) = Some j /\ path_to structs_ j names rest t /\ leaf t).
Proof.
  intros Hat Hs Hf x rest Hx. rewrite <-app_assoc in Hx. cbn in Hx.
  destruct (Hat x (k :: rest) Hx ltac:(done)) as (names & t & Hp & Hleaf).
  inversion Hp as [? s' k' f' Hs' Hf'|? s' k' f' j names' ? ? Hs' Hf' ? Hk Hc Hj Hp']; subst.
  - left. by assert (f' = f) as -> by congruence.
  - right. assert (f' = f) as -> by congruence. split_and!; try done.
    + by apply path_to_nonempty in Hp' as [_ ?].
    + by exists j, names', t.
Qed.

(** The requests stay well placed in the struct of a field. *)
Lemma requests_at_nested i path s k f j :
  requests_at i path -> structs_ !! i = Some s -> ss_fields s !! k = Some f ->
  nested_index (sf_type f) = Some j -> requests_at j (path ++ [k]).
Proof.
  intros Hat Hs Hf Hj x rest Hx Hrest.
  destruct (requests_at_field i path s k f Hat Hs Hf x rest Hx) as [[-> _]|(_ & _ & _ & j' & H)]; [done|].
  destruct H as (names & t & Hj' & Hp & Hleaf). assert (j' = j) as -> by congruence. by exists names, t.
Qed.

(** ** Requests do not influence the traversal *)

Lemma fields_agree walk1 walk2 i s path fields : forall k,
  requests_at i path -> structs_ !! i = Some s ->
  (forall m f, fields !! m = Some f -> ss_fields s !! (k + m)%nat = Some f) ->
  (forall k' f j, ss_fields s !! k' = Some f -> nested_index (sf_type f) = Some j ->
    Agree (length requested_) (walk1 j (path ++ [k'])) (walk2 j (path ++ [k']))) ->
  Agree (length requested_) (walk_fields structs_ requested_ walk1 path k fields)
    (walk_fields structs_ [] walk2 path k fields).
Proof.
  induction fields as [|f fields IH]; intros k Hat Hs Hd Hwalk; cbn [walk_fields]; [apply _|].
  assert (ss_fields s !! k = Some f) as Hf.
  { rewrite <-(Nat.add_0_r k). by apply Hd. }
  assert (forall m g, fields !! m = Some g -> ss_fields s !! (S k + m)%nat = Some g) as Hd'.
  { intros m g Hg. replace (S k + m)%nat with (k + S m)%nat by lia. by apply Hd. }
  pose proof (match_requests_bound 0 (path ++ [k]) requested_ None false I) as Hid.
  destruct (match_requests 0 (path ++ [k]) requested_ None false) as [id hd] eqn:Em. cbn in Hid.
  apply match_requests_spec in Em as (_ & Hhd & _).
  assert (Agree (length requested_) (walkValue structs_ walk1 (sf_type f) (path ++ [k]) id hd)
    (walkValue structs_ walk2 (sf_type f) (path ++ [k]) None false)) as Hv.
  { apply value_agree; [|done|].
    - intros j _ Hj. by apply (Hwalk k f).
    - intros Hhd'. destruct (Hhd Hhd') as (x & rest & Hx & Hrest).
      destruct (requests_at_field i path s k f Hat Hs Hf x rest Hx) as [[-> _]|(_ & ? & ? & _)]; done. }
  cbn [match_requests]. pose proof (IH (S k) Hat Hs Hd' Hwalk). apply _.
Qed.

Lemma struct_agree fuel : forall i path,
  requests_at i path ->
  Agree (length requested_) (walkStruct structs_ requested_ fuel i path) (walkStruct structs_ [] fuel i path).
Proof.
  induction fuel as [|fuel IH]; intros i path Hat; cbn [walkStruct]; [apply _|].
  destruct (_ <=? _)%nat; [apply _|]. destruct (structs_ !! i) as [s|] eqn:Hs; [|apply _].
  apply (fields_agree _ _ i s); [done..|]. intros k f j Hf Hj. apply IH.
  by apply (requests_at_nested i path s k f j).
Qed.

(** ** Requests elsewhere are left alone *)

Lemma fields_keep (S_ : nat -> Prop) walk path fields : forall k,
  (forall x, S_ x -> forall k', (k <= k')%nat -> elsewhere (path ++ [k']) x) ->
  (forall j k', (k <= k')%nat -> Keeps S_ (walk j (path ++ [k']))) ->
  Keeps S_ (walk_fields structs_ requested_ walk path k fields).
Proof.
  induction fields as [|f fields IH]; intros k HS Hwalk; cbn [walk_fields]; [apply _|].
  destruct (match_requests 0 (path ++ [k]) requested_ None false) as [id hd] eqn:Em.
  apply match_requests_spec in Em as (Hid & _).
  assert (Keeps S_ (walkValue structs_ walk (sf_type f) (path ++ [k]) id hd)).
  { apply value_keeps; [intros j; by apply Hwalk|]. destruct id as [x|]; [|done]. intros Hx.
    apply (HS x Hx k ltac:(lia) []). rewrite app_nil_r. by apply Hid. }
  assert (Keeps S_ (walk_fields structs_ requested_ walk path (S k) fields)).
  { apply IH; intros; [apply HS|apply Hwalk]; done || lia. }
  apply _.
Qed.

Lemma elsewhere_app path rest x : elsewhere path x -> elsewhere (path ++ rest) x.
Proof. intros He rest' Hx. rewrite <-app_assoc in Hx. by apply He in Hx. Qed.

Lemma struct_keeps fuel : forall i path (S_ : nat -> Prop),
  (forall x, S_ x -> elsewhere path x) -> Keeps S_ (walkStruct structs_ requested_ fuel i path).
Proof.
  induction fuel as [|fuel IH]; intros i path S_ HS; cbn [walkStruct]; [apply _|].
  destruct (_ <=? _)%nat; [apply _|]. destruct (structs_ !! i) as [s|]; [|apply _].
  apply fields_keep.
  - intros x Hx k' _. by apply elsewhere_app, HS.
  - intros j k' _. apply IH. intros x Hx. by apply elsewhere_app, HS.
Qed.
End Requests.

(** ** Where a field is: the sequential specification *)

(** Walk, without any request, over everything before the field at [steps]; the
    result is the field's type, the reader stands at the field. *)
Fixpoint seek (structs_ : list CdrSchemaStruct) (fuel i : nat) (path steps : list nat)
  : pm CdrSchemaType :=
  match fuel, structs_ !! i, steps with
  | S fuel', Some s, k :: rest =>
    let% _ := walk_fields structs_ [] (walkStruct structs_ [] fuel') path 0 (take k (ss_fields s)) in
    match ss_fields s !! k with
    | None => pundef
    | Some f =>
      match rest, nested_index (sf_type f) with
      | [], _ => pret (sf_type f)
      | _ :: _, Some j => seek structs_ fuel' j (path ++ [k]) rest
      | _, None => pundef
      end
    end
  | _, _, _ => pundef
  end.

Lemma walk_fields_app structs_ reqs walk path a b : forall k p,
  walk_fields structs_ reqs walk path k (a ++ b) p =
  pmbind (walk_fields structs_ reqs walk path k a)
    (fun _ => walk_fields structs_ reqs walk path (k + length a) b) p.
Proof.
  induction a as [|f a IH]; intros k p; cbn [app walk_fields length].
  { unfold pmbind, pret. by rewrite Nat.add_0_r. }
  destruct (match_requests _ _ _ _ _) as [id hd]. unfold pmbind in *.
  destruct (walkValue _ _ _ _ _ _ _) as [[[u|e] q]|]; [|done..].
  rewrite IH. by rewrite Nat.add_succ_r.
Qed.

Lemma seek_agree n structs_ fuel : forall i path steps,
  Agree n (seek structs_ fuel i path steps) (seek structs_ fuel i path steps).
Proof.
  induction fuel as [|fuel IH]; intros i path steps; cbn [seek]; [apply _|].
  destruct (structs_ !! i) as [s|]; [|apply _]. destruct steps as [|k rest]; [apply _|].
  assert (forall fuel' i path, Agree n (walkStruct structs_ [] fuel' i path) (walkStruct structs_ [] fuel' i path))
    as Hs.
  { clear IH i path s k rest. intros fuel' i path p q Hr Hl. revert p q Hr Hl.
    change (Agree n (walkStruct structs_ [] fuel' i path) (walkStruct structs_ [] fuel' i path)).
    revert i path. induction fuel' as [|fuel' IH]; intros i path; cbn [walkStruct]; [apply _|].
    destruct (_ <=? _)%nat; [apply _|]. destruct (structs_ !! i) as [s|]; [|apply _].
    generalize 0%nat as k. induction (ss_fields s) as [|f fields IHf]; intros k; cbn [walk_fields];
      [apply _|]. cbn [match_requests].
    pose proof (value_agree structs_ n (walkStruct structs_ [] fuel') (walkStruct structs_ [] fuel')
      (path ++ [k]) (sf_type f) None false ltac:(intros j _ _; apply IH) I ltac:(done)).
    pose proof (IHf (S k)). apply _. }
  assert (forall fields k', Agree n
    (walk_fields structs_ [] (walkStruct structs_ [] fuel) path k' fields)
    (walk_fields structs_ [] (walkStruct structs_ [] fuel) path k' fields)) as Hf.
  { induction fields as [|f fields IHf]; intros k'; cbn [walk_fields]; [apply _|].
    cbn [match_requests].
    pose proof (value_agree structs_ n (walkStruct structs_ [] fuel) (walkStruct structs_ [] fuel)
      (path ++ [k']) (sf_type f) None false ltac:(intros j _ _; apply Hs) I ltac:(done)).
    pose proof (IHf (S k')). apply _. }
  pose proof (Hf (take k (ss_fields s)) 0%nat).
  apply agree_bind; [done|]. intros _. destruct (ss_fields s !! k) as [f|]; [|apply _].
  destruct rest as [|k2 rest]; [apply _|]. destruct (nested_index (sf_type f)); [apply IH|apply _].
Qed.

Lemma fields_split structs_ reqs walk path fields k f p p' :
  walk_fields structs_ reqs walk path 0 fields p = Val (Value tt, p') -> fields !! k = Some f ->
  exists q0 q1,
    walk_fields structs_ reqs walk path 0 (take k fields) p = Val (Value tt, q0) /\
    (let '(id, hd) := match_requests 0 (path ++ [k]) reqs None false in
     walkValue structs_ walk (sf_type f) (path ++ [k]) id hd q0) = Val (Value tt, q1) /\
    walk_fields structs_ reqs walk path (S k) (drop (S k) fields) q1 = Val (Value tt, p').
Proof.
  intros Hw Hf. pose proof (lookup_lt_Some _ _ _ Hf) as Hk.
  rewrite <-(take_drop_middle fields k f Hf), walk_fields_app in Hw. unfold pmbind in Hw at 1.
  destruct (walk_fields structs_ reqs walk path 0 (take k fields) p) as [[[[]|e] q0]|]; [|done..].
  exists q0. cbn [Nat.add] in Hw. rewrite length_take, Nat.min_l in Hw by lia.
  cbn [walk_fields] in Hw. destruct (match_requests _ _ _ _ _) as [id hd]. unfold pmbind in Hw.
  destruct (walkValue _ _ _ _ _ _ _) as [[[[]|e] q1]|]; [|done..]. by exists q1.
Qed.

Section Location.
Context (structs_ : list CdrSchemaStruct) (reqs : list CdrRequestedField).
Context (Hfit : structs_fit structs_).
Context (Hdistinct : forall x y steps, requests_path reqs x steps -> requests_path reqs y steps -> x = y).

(** The entry of request [x] is the span of a leaf [t] at the reader [q]. *)
Definition same_message (p q : Planned) : Prop :=
  payload (reader q) = payload (reader p) /\ little_endian (reader q) = little_endian (reader p).

Definition entry_at (t : CdrSchemaType) (p q p' : Planned) (x : nat) : Prop :=
  leaf t /\ counts_ok t /\ cdr_inv (reader q) /\ status (reader q) = status_ok /\ same_message p q /\
  exists cf r, leaf_span t (reader q) = (Value cf, r) /\ cached_fields p' !! x = Some cf.

Lemma leaf_step_caches t x p p' :
  leaf t -> counts_ok t -> cdr_inv (reader p) -> status (reader p) = status_ok ->
  leaf_step t (Some x) p = Val (Value tt, p') ->
  exists cf r, leaf_span t (reader p) = (Value cf, r) /\ cached_fields p' !! x = Some cf.
Proof.
  intros Hleaf Hc Hi Hs. unfold leaf_step.
  destruct (leaf_span_outcome t (reader p) Hleaf Hc Hi Hs) as [_ Hspan].
  destruct (leaf_span t (reader p)) as [[cf|s] r]; [|done]. destruct Hspan as (Hl & _).
  unfold cache_entry, cache. cbn [with_reader cached_fields reader].
  destruct (x <? length (cached_fields p))%nat eqn:E; [|done]. apply Nat.ltb_lt in E.
  intros [= <-]. exists cf, r. split; [done|]. cbn. rewrite list_lookup_insert_eq by done.
  by destruct cf as [? ? ? []].
Qed.

Lemma agree_value {A} n (m1 m2 : pm A) `{!Agree n m1 m2} p q a p' :
  reader p = reader q -> length (cached_fields p) = n -> m1 p = Val (Value a, p') ->
  exists q', m2 q = Val (Value a, q') /\ reader q' = reader p'.
Proof.
  intros Hr Hl Hm. pose proof (agree_run (m1:=m1) (m2:=m2) p q Hr Hl) as Ha. rewrite Hm in Ha.
  unfold agree in Ha. destruct (m2 q) as [[v q']|]; [|done]. destruct Ha as (<- & Hr' & _). by exists q'.
Qed.

Lemma safe_value {A} n (m : pm A) `{!PSafe n m} p a p' :
  cdr_inv (reader p) -> status (reader p) = status_ok -> length (cached_fields p) = n ->
  m p = Val (Value a, p') ->
  cdr_inv (reader p') /\ status (reader p') = status_ok /\ length (cached_fields p') = n /\
  same_message p p'.
Proof.
  intros Hi Hs Hl Hm. pose proof (psafe_run (m:=m) p Hi Hs Hl) as Hp. rewrite Hm in Hp.
  destruct Hp as [(? & ? & ? & _ & _ & ? & _) ?]. unfold same_message. split_and!; done || congruence.
Qed.

(** A traversal of struct [i] around its field [f] number [k]: the fields before it
    lead from [p] to [q0] (and, without requests, to [q]), its value to [q1]. *)
Record around (fuel i : nat) (path : list nat) (k : nat) (p p' : Planned)
    (s : CdrSchemaStruct) (f : CdrSchemaField) (q0 q1 q : Planned) : Prop := {
  ar_struct : structs_ !! i = Some s;
  ar_field : ss_fields s !! k = Some f;
  ar_fits : type_fits structs_ (sf_type f);
  ar_inv : cdr_inv (reader q0) /\ status (reader q0) = status_ok /\
           length (cached_fields q0) = length reqs /\ same_message p q0;
  ar_before : walk_fields structs_ [] (walkStruct structs_ [] fuel) path 0 (take k (ss_fields s)) p
              = Val (Value tt, q);
  ar_reader : reader q = reader q0;
  ar_value : (let '(id, hd) := match_requests 0 (path ++ [k]) reqs None false in
              walkValue structs_ (walkStruct structs_ reqs fuel) (sf_type f) (path ++ [k]) id hd q0)
             = Val (Value tt, q1);
  ar_rest : forall x rest, requests_path reqs x (path ++ k :: rest) ->
            cached_fields p' !! x = cached_fields q1 !! x;
}.

(** A request through field [k] is not touched by the fields behind it. *)
Lemma behind_field fuel path k x rest fields :
  requests_path reqs x (path ++ k :: rest) ->
  Keeps (fun y => y = x) (walk_fields structs_ reqs (walkStruct structs_ reqs fuel) path (S k) fields).
Proof.
  intros (req & Hreq & Hx).
  assert (forall k', (S k <= k')%nat -> elsewhere reqs (path ++ [k']) x) as Helse.
  { intros k' Hk' rest' (req' & Hreq' & Hy). assert (req' = req) as -> by congruence.
    rewrite Hx, <-app_assoc in Hy. apply app_inv_head in Hy. injection Hy as Hy _. lia. }
  apply fields_keep.
  - intros y -> k' Hk'. by apply Helse.
  - intros j k' Hk'. apply struct_keeps. intros y ->. by apply Helse.
Qed.

Lemma walk_around fuel i path k f p p' s :
  requests_at structs_ reqs i path -> (length path + S fuel = walk_fuel)%nat ->
  structs_ !! i = Some s -> ss_fields s !! k = Some f ->
  cdr_inv (reader p) -> status (reader p) = status_ok -> length (cached_fields p) = length reqs ->
  walkStruct structs_ reqs (S fuel) i path p = Val (Value tt, p') ->
  exists q0 q1 q, around fuel i path k p p' s f q0 q1 q.
Proof.
  intros Hat Hfuel Hst Hf Hinv Hs Hl Hw.
  cbn [walkStruct] in Hw. destruct (CdrSchema.kMaxTraversalDepth <=? length path)%nat eqn:Ed; [done|].
  apply Nat.leb_gt in Ed. rewrite Hst in Hw.
  destruct (fields_split _ _ _ _ _ _ _ _ _ Hw Hf) as (q0 & q1 & Hw0 & Hv & Hw1).
  assert (PSafe (length reqs)
    (walk_fields structs_ reqs (walkStruct structs_ reqs fuel) path 0 (take k (ss_fields s)))).
  { apply walk_fields_safe; [done| |].
    - intros g Hg. apply (Hfit i s g Hst). by eapply elem_of_take in Hg as (? & Hg & _);
        apply list_elem_of_lookup_2 in Hg.
    - intros k' j Hj. apply walkStruct_safe; rewrite ?length_app; cbn; done || lia. }
  assert (Agree (length reqs)
    (walk_fields structs_ reqs (walkStruct structs_ reqs fuel) path 0 (take k (ss_fields s)))
    (walk_fields structs_ [] (walkStruct structs_ [] fuel) path 0 (take k (ss_fields s)))).
  { apply (fields_agree _ _ _ _ i s); [done..| |].
    - intros m g Hg. by apply lookup_take_Some in Hg as [Hg _].
    - intros k' g j Hg Hj. apply struct_agree. by apply (requests_at_nested _ _ i path s k' g j). }
  destruct (agree_value (length reqs) _ _ p p tt q0 eq_refl Hl Hw0) as (q & Hq & Hrq).
  exists q0, q1, q. split; try done.
  - by apply (Hfit i s f Hst), (list_elem_of_lookup_2 _ k).
  - by eapply safe_value.
  - intros x rest Hx. pose proof (behind_field fuel path k x rest (drop (S k) (ss_fields s)) Hx).
    by apply (keeps_run (S := fun y => y = x) q1 (Value tt) p' Hw1 x).
Qed.

(** The request for the field itself. *)
Lemma location_here fuel i path k x p p' s f q0 q1 q :
  requests_at structs_ reqs i path -> around fuel i path k p p' s f q0 q1 q ->
  requests_path reqs x (path ++ [k]) -> leaf (sf_type f) -> entry_at (sf_type f) p q p' x.
Proof.
  intros Hat Har Hx Hleaf.
  destruct Har as [Hst Hf [Hcounts _] (Hinv0 & Hs0 & Hl0 & Hm0) _ Hrq Hv Hrest].
  specialize (Hrest x [] Hx).
  destruct (match_requests 0 (path ++ [k]) reqs None false) as [id hd] eqn:Em.
  apply match_requests_spec in Em as (Hid & Hhd & Hne).
  assert (hd = false) as ->.
  { destruct hd; [|done]. destruct (Hhd eq_refl) as (y & rest & Hy & Hne').
    destruct (requests_at_field structs_ reqs i path s k f Hat Hst Hf y rest Hy)
      as [[-> _]|(_ & Hk & Hc & _)]; [done|].
    unfold leaf, cachedKind in Hleaf. by rewrite Hc, Hk in Hleaf. }
  assert (id = Some x) as ->.
  { destruct id as [y|]; [|destruct Hne; [by exists x|done]]. f_equal.
    by apply (Hdistinct y x (path ++ [k])); [apply Hid|]. }
  rewrite leaf_walk in Hv by done.
  destruct (leaf_step_caches _ x _ _ Hleaf Hcounts Hinv0 Hs0 Hv) as (cf & r & Hcf & Hcached).
  unfold entry_at, same_message in *. rewrite Hrq. split_and!; try done; try apply Hm0.
  exists cf, r. by rewrite Hrest.
Qed.

(** A request below the field: the struct it nests was traversed from [q0] to [q1]. *)
Lemma nested_walk fuel i path k p p' s f q0 q1 q j :
  around fuel i path k p p' s f q0 q1 q ->
  st_kind (sf_type f) = kStruct -> st_container (sf_type f) = kScalar ->
  nested_index (sf_type f) = Some j ->
  walkStruct structs_ reqs fuel j (path ++ [k]) q0 = Val (Value tt, q1) /\ (j < length structs_)%nat.
Proof.
  intros Har Hkind Hcont Hj. pose proof (ar_value _ _ _ _ _ _ _ _ _ _ _ Har) as Hv.
  destruct (match_requests _ _ _ _ _) as [id hd]. unfold walkValue in Hv. rewrite Hkind, Hcont in Hv.
  rewrite !bool_decide_true in Hv by done. cbn [negb orb] in Hv. rewrite andb_false_r in Hv.
  unfold walk_scalar in Hv. rewrite Hkind, Hj in Hv. split; [done|].
  destruct (ar_fits _ _ _ _ _ _ _ _ _ _ _ Har) as [_ Hnest].
  destruct (Hnest Hkind) as (j' & Hj' & Hlt). congruence.
Qed.

Lemma location fuel : forall i path k rest x p p',
  requests_at structs_ reqs i path -> (length path + fuel = walk_fuel)%nat ->
  cdr_inv (reader p) -> status (reader p) = status_ok -> length (cached_fields p) = length reqs ->
  walkStruct structs_ reqs fuel i path p = Val (Value tt, p') ->
  requests_path reqs x (path ++ k :: rest) ->
  exists t q names, seek structs_ fuel i path (k :: rest) p = Val (Value t, q) /\
    path_to structs_ i names (k :: rest) t /\ entry_at t p q p' x.
Proof.
  induction fuel as [|fuel IH]; intros i path k rest x p p' Hat Hfuel Hinv Hs Hl Hw Hx; [done|].
  destruct (Hat x (k :: rest) Hx ltac:(done)) as (names & t & Hpath & _).
  assert (exists s f, structs_ !! i = Some s /\ ss_fields s !! k = Some f /\ sf_name f <> [])
    as (s & f & Hst & Hf & Hname) by (inversion Hpath; simplify_eq; eauto).
  destruct (walk_around fuel i path k f p p' s Hat Hfuel Hst Hf Hinv Hs Hl Hw) as (q0 & q1 & q & Har).
  assert (path ++ k :: rest = (path ++ [k]) ++ rest) as Hpk by (by rewrite <-app_assoc).
  pose proof (requests_at_field structs_ reqs i path s k f Hat Hst Hf x rest) as Hfield.
  rewrite <-Hpk in Hfield. cbn [seek]. rewrite Hst, Hf. unfold pmbind at 1.
  rewrite (ar_before _ _ _ _ _ _ _ _ _ _ _ Har).
  destruct (Hfield Hx) as [[-> Hleaff]|(Hrest & Hkind & Hcont & j & names' & t' & Hj & _)].
  - exists (sf_type f), q, [sf_name f]. split_and!; [done|by eapply path_last|by eapply location_here].
  - destruct rest as [|k2 rest]; [done|]. rewrite Hj.
    destruct (nested_walk _ _ _ _ _ _ _ _ _ _ _ j Har Hkind Hcont Hj) as [Hw' Hlt].
    pose proof (ar_rest _ _ _ _ _ _ _ _ _ _ _ Har x (k2 :: rest) Hx) as Hlast.
    destruct (ar_inv _ _ _ _ _ _ _ _ _ _ _ Har) as (Hinv0 & Hs0 & Hl0 & Hm0).
    destruct (IH j (path ++ [k]) k2 rest x q0 q1) as (t2 & q2 & names2 & Hseek & Hpath2 & Hentry);
      [by apply (requests_at_nested _ _ i path s k f j)|rewrite length_app; cbn; lia|done..|by rewrite <-Hpk|].
    destruct (agree_value (length reqs) (seek structs_ fuel j (path ++ [k]) (k2 :: rest))
      (seek structs_ fuel j (path ++ [k]) (k2 :: rest)) (Agree0:=seek_agree _ _ _ _ _ _)
      q0 q t2 q2 ltac:(by rewrite (ar_reader _ _ _ _ _ _ _ _ _ _ _ Har)) Hl0 Hseek) as (q2' & Hseek' & Hr2).
    exists t2, q2', (sf_name f :: names2). split_and!; [done|by eapply path_nest|].
    destruct Hentry as (? & ? & ? & ? & [Hpl2 Hle2] & cf & r & Hcf & Hcached), Hm0 as [Hpl0 Hle0].
    unfold entry_at, same_message. rewrite Hr2, Hpl2, Hle2. split_and!; try done.
    exists cf, r. by rewrite Hlast.
Qed.
End Location.

(** ** Plans *)

Lemma path_to_unique structs_ i names1 names2 steps t1 t2 :
  path_to structs_ i names1 steps t1 -> path_to structs_ i names2 steps t2 ->
  names1 = names2 /\ t1 = t2.
Proof.
  intros H1. revert names2 t2.
  induction H1 as [i s k f Hs Hf Hn|i s k f j names steps t Hs Hf Hn Hk Hc Hj Hp IH];
    intros names2 t2 H2; inversion H2; simplify_eq; try done.
  - match goal with H : path_to _ _ _ [] _ |- _ => by apply path_to_nonempty in H as [_ ?] end.
  - by apply path_to_nonempty in Hp as [_ ?].
  - destruct (IH _ _ ltac:(eassumption)) as [-> ->]. done.
Qed.

(** What [locate] has checked of a request. *)
Definition request_ok (structs_ : list CdrSchemaStruct) (req : CdrRequestedField) : Prop :=
  exists t, path_to structs_ 0 (split_on (ch ".") (rf_path req)) (rf_steps req) t /\
    leaf t /\ rf_cached_kind req = cachedKind t /\ (length (rf_steps req) <= CdrSchema.kMaxTraversalDepth)%nat.

Lemma locate_loop_ok structs_ paths : forall reqs plan,
  schema_ok structs_ -> Forall (request_ok structs_) reqs -> NoDup (map rf_path reqs) ->
  locate_loop structs_ paths reqs = Val (Value plan) ->
  structs plan = structs_ /\ Forall (request_ok structs_) (requested plan) /\
  NoDup (map rf_path (requested plan)).
Proof.
  intros reqs plan Hok. revert reqs. induction paths as [|path paths IH]; intros reqs Hreqs Hd;
    cbn [locate_loop].
  { case_bool_decide; [done|]. by intros [= <-]. }
  pose proof (compilePath_spec structs_ path Hok) as Hc. cbv zeta in Hc.
  destruct (compilePath structs_ path) as [[req|e]|]; cbn [xbind]; [|done..].
  destruct (existsb _ reqs) eqn:E; [done|]. apply IH.
  - apply Forall_app. split; [done|]. apply Forall_singleton.
    destruct Hc as (steps & t & (Hp & Ht & Hl) & ->). by exists t.
  - rewrite map_app. apply NoDup_app. split_and!; [done| |by apply NoDup_singleton].
    intros p Hp Hp1. cbn in Hp1. apply list_elem_of_singleton in Hp1 as ->.
    apply list_elem_of_In, in_map_iff in Hp as (r & Hr & Hin).
    assert (existsb (fun existing => bytes_eqb (rf_path existing) (rf_path req)) reqs = true) as H1;
      [|congruence].
    apply existsb_exists. exists r. split; [done|]. by apply bytes_eqb_eq.
Qed.

Lemma locate_ok structs_ paths plan :
  schema_ok structs_ -> locate (Value structs_) paths = Val (Value plan) ->
  structs plan = structs_ /\ Forall (request_ok structs_) (requested plan) /\
  NoDup (map rf_path (requested plan)).
Proof. intros Hok. apply locate_loop_ok; [done|constructor|constructor]. Qed.

Lemma requests_distinct structs_ reqs :
  Forall (request_ok structs_) reqs -> NoDup (map rf_path reqs) ->
  forall x y steps, requests_path reqs x steps -> requests_path reqs y steps -> x = y.
Proof.
  intros Hok Hd x y steps (rx & Hx & Hsx) (ry & Hy & Hsy).
  rewrite Forall_lookup in Hok. destruct (Hok x rx Hx) as (tx & Hpx & _), (Hok y ry Hy) as (ty & Hpy & _).
  rewrite Hsx in Hpx. rewrite Hsy in Hpy. destruct (path_to_unique _ _ _ _ _ _ _ Hpx Hpy) as [Hn _].
  assert (rf_path rx = rf_path ry) as Hp by (by rewrite <-(join_split (ch ".") (rf_path rx)), Hn, join_split).
  apply (NoDup_lookup (map rf_path reqs) x y (rf_path rx)); [done|..].
  - change (map rf_path reqs) with (rf_path <$> reqs). rewrite list_lookup_fmap. by rewrite Hx.
  - change (map rf_path reqs) with (rf_path <$> reqs). rewrite list_lookup_fmap. rewrite Hy. cbn.
    by rewrite Hp.
Qed.

Lemma requests_at_root structs_ reqs :
  Forall (request_ok structs_) reqs -> requests_at structs_ reqs 0 [].
Proof.
  intros Hok x rest (req & Hx & Hr) _. cbn in Hr. subst rest. rewrite Forall_lookup in Hok.
  destruct (Hok x req Hx) as (t & Hp & Hl & _). by eexists _, t.
Qed.

(** ** The plain read of a leaf *)

Definition prim_of (kind : CdrValueKind) : cdr_type :=
  match kind with
  | kBool => TBool | kI8 => TI8 | kU8 => TU8 | kI16 => TI16 | kU16 => TU16 | kI32 => TI32
  | kU32 => TU32 | kI64 => TI64 | kU64 => TU64 | kF32 => TF32 | kF64 => TF64 | kString => TString
  | kStruct => TU8
  end.

(** Reading the value of a leaf with the plain reader's own methods: a fixed array
    of bytes is [readFixedArray] with [readU8]. *)
Definition plain_read (t : CdrSchemaType) : cdr cdr_value :=
  match st_container t with
  | kScalar => readPrimitive (prim_of (st_kind t))
  | kSequence => readPrimitive TBytes
  | kFixedArray => fun r =>
    let '(s, values, r') := readFixedArray readU8 (replicate (Z.to_nat (fixed_count t)) 0) r in
    (if isOk s then Value (VBytes (map z2b values)) else Failed s, r')
  end.

(** The value an entry stands for. *)
Definition entry_value (le : bool) (data : bytes) (cf : CachedField) : option cdr_value :=
  let block := take (Z.to_nat (cf_size cf)) (drop (Z.to_nat (cf_offset cf)) data) in
  let u := uint_val le block in
  match cf_kind cf with
  | cUnknown => None
  | cBool => if u >? 1 then None else Some (VBool (negb (u =? 0)))
  | cI8 | cI16 | cI32 | cI64 => Some (VNumber (to_signed (8 * cf_size cf) u))
  | cU8 | cU16 | cU32 | cU64 | cF32 | cF64 => Some (VNumber u)
  | cString => Some (VString block)
  | cBytes => Some (VBytes block)
  end.

(** The leaf's span and the plain read of the same leaf. *)
Lemma readUnsigned_leaf (n : nat) r :
  uint_size n -> cdr_inv r -> status r = status_ok ->
  match align (Z.of_nat n) r with
  | (s, r1) =>
    if negb (isOk s) then exists r', readUnsigned n r = (Failed s, r')
    else if Z.of_nat n >? remaining r1 then exists s' r', readUnsigned n r = (Failed s', r')
    else readUnsigned n r =
      (Value (uint_val (little_endian r) (take n (drop (Z.to_nat (position r1)) (payload r)))),
       set_position r1 (wrap 64 (position r1 + Z.of_nat n)))
  end.
Proof.
  intros Hn Hi Hs. destruct (uint_size_pow n Hn) as (k & Hk & Hnk). unfold readUnsigned. rewrite Hnk.
  pose proof (align_result r k Hi Hs Hk) as Ha. destruct (align (2 ^ k) r) as [s r1].
  destruct Ha as [Ha _]. destruct (isOk s) eqn:Es; cbn [negb]; [|by eexists].
  destruct Ha as (Hi1 & Hpl & Hle & _ & _ & _). cbn in *.
  destruct (_ >? _) eqn:E; [by do 2 eexists|]. bprop.
  destruct (remaining_bounds r1 Hi1) as (Hrem & _ & _). pose proof Hi1 as ((? & ?) & ? & ?).
  rewrite <-Hnk in *. rewrite Hle, Hpl.
  set (block := take n (drop (Z.to_nat (position r1)) (payload r))).
  assert (length block = n) as Hl.
  { unfold block. rewrite length_take, length_drop. unfold payload_size in *. rewrite Hpl in *. lia. }
  rewrite <-(fold_uint (little_endian r) block), Hl. done.
Qed.

(** A scalar leaf's span, taken apart. *)
Lemma primitive_span t r cf r' :
  st_container t = kScalar -> st_kind t <> kString -> st_kind t <> kStruct ->
  cdr_inv r -> status r = status_ok -> leaf_span t r = (Value cf, r') ->
  let w := primitiveSize (st_kind t) in
  let u := uint_val (little_endian r) (take (Z.to_nat w) (drop (Z.to_nat (cf_offset cf)) (payload r))) in
  cf_kind cf = cachedKind t /\ cf_size cf = w /\
  (exists r2, readUnsigned (Z.to_nat w) r = (Value u, r2)) /\ (st_kind t = kBool -> u <= 1).
Proof.
  intros Hc Hk Hk' Hi Hs Hspan. cbv zeta.
  destruct (primitiveSize_pow (st_kind t)) as (k & Hk3 & Hw).
  assert (uint_size (Z.to_nat (primitiveSize (st_kind t)))) as Hu.
  { unfold uint_size. destruct (st_kind t); cbn; lia. }
  assert (leaf_span t r =
      match align (primitiveSize (st_kind t)) r with
      | (s, r1) =>
        if negb (isOk s) then (Failed s, r1)
        else if primitiveSize (st_kind t) >? remaining r1
        then cfail (str "truncated CDR primitive while locating fields") r1
        else if bool_decide (st_kind t = kBool)
              && negb (bool_decide (payload r1 !! Z.to_nat (position r1) = Some Byte.x00))
              && negb (bool_decide (payload r1 !! Z.to_nat (position r1) = Some Byte.x01))
        then cfail (str "CDR bool is not 0 or 1") r1
        else (Value (mkCachedField (cachedKind t) (position r1) (primitiveSize (st_kind t)) true),
              set_position r1 (wrap 64 (position r1 + primitiveSize (st_kind t))))
      end) as Heq by (unfold leaf_span; rewrite Hc; by destruct (st_kind t)).
  rewrite Heq in Hspan. clear Heq.
  pose proof (readUnsigned_leaf _ r Hu Hi Hs) as Hread.
  assert (0 < 2 ^ k) by lia. rewrite Z2Nat.id in Hread by lia.
  rewrite Hw in *. pose proof (align_result r k Hi Hs Hk3) as Ha.
  destruct (align (2 ^ k) r) as [s r1]. destruct Ha as [Ha _].
  destruct (isOk s) eqn:Es; cbn [negb] in *; [|done]. destruct Ha as (Hi1 & Hpl & _). cbn in Hi1, Hpl.
  destruct (_ >? _) eqn:E; [done|]. destruct (_ && _) eqn:Eb; [done|].
  injection Hspan as <- _. cbn [cf_kind cf_size cf_offset]. split_and!; [done|done|by eexists|].
  intros Hbool. rewrite bool_decide_true in Eb by done. cbn [andb] in Eb.
  bprop. destruct (remaining_bounds r1 Hi1) as (Hrem & _ & _). pose proof Hi1 as ((? & ?) & ? & ?).
  assert (2 ^ k = 1) as Hone by (rewrite <-Hw, Hbool; done). rewrite Hone in *.
  destruct (payload_inside r1 (position r1)) as [b Hb]; [lia|].
  rewrite Hpl in *. rewrite Hb in Eb. change (Z.to_nat 1) with 1%nat.
  rewrite (drop_S _ _ _ Hb). change (take 1 (b :: drop (S (Z.to_nat (position r1))) (payload r))) with [b].
  pose proof (byte_bool b) as Hbb.
  assert (uint_val (little_endian r) [b] = b2z b) as -> by (destruct (little_endian r); cbn; lia).
  destruct (b2z b >? 1) eqn:E1; [|bprop; lia].
  symmetry in Hbb. apply andb_true_iff in Hbb as [Hb1 Hb2]. destruct Eb as [Eb|Eb]; congruence.
Qed.

Lemma plain_primitive t r cf r' :
  st_container t = kScalar -> st_kind t <> kString -> st_kind t <> kStruct ->
  cdr_inv r -> status r = status_ok -> leaf_span t r = (Value cf, r') ->
  exists v r2, plain_read t r = (Value v, r2) /\
    entry_value (little_endian r) (payload r) cf = Some v.
Proof.
  intros Hc Hk Hk' Hi Hs Hspan.
  destruct (primitive_span t r cf r' Hc Hk Hk' Hi Hs Hspan) as (Hkind & Hsize & (r2 & Hread) & Hbool).
  unfold plain_read, entry_value. rewrite Hc, Hkind, Hsize. unfold cachedKind. rewrite Hc.
  set (u := uint_val _ _) in *. clearbody u.
  destruct (st_kind t) eqn:Ek; try done; cbn [prim_of readPrimitive primitiveSize] in *;
    unfold cmap, cbind, cret, readI8, readI16, readI32, readI64, readF32, readF64, readSigned, readBool,
      readU8, readU16, readU32, readU64, cbind, cret;
    try (change (Z.to_nat 1) with 1%nat in * ); try (change (Z.to_nat 2) with 2%nat in * );
    try (change (Z.to_nat 4) with 4%nat in * ); try (change (Z.to_nat 8) with 8%nat in * );
    rewrite Hread; try (by do 2 eexists).
  specialize (Hbool eq_refl). destruct (u >? 1) eqn:E; [bprop; lia|]. by do 2 eexists.
Qed.

Lemma last_take_drop (data : bytes) p n b :
  (0 < n)%nat -> (p + n <= length data)%nat ->
  last (take n (drop p data)) = Some b <-> data !! (p + n - 1)%nat = Some b.
Proof.
  intros Hn Hl. rewrite last_lookup, length_take, length_drop, Nat.min_l by lia.
  rewrite lookup_take_lt by lia. rewrite lookup_drop.
  by replace (p + Nat.pred n)%nat with (p + n - 1)%nat by lia.
Qed.

Lemma plain_string t r cf r' :
  st_container t = kScalar -> st_kind t = kString ->
  cdr_inv r -> status r = status_ok -> leaf_span t r = (Value cf, r') ->
  exists v r2, plain_read t r = (Value v, r2) /\
    entry_value (little_endian r) (payload r) cf = Some v.
Proof.
  intros Hc Hk Hi Hs. unfold leaf_span, plain_read. rewrite Hc, Hk. cbn [prim_of readPrimitive].
  unfold cmap, readString, cbind. pose proof (readU32_result r Hi Hs) as H.
  destruct (readU32 r) as [[n|s] r1]; [|done]. destruct H as [(Hi1 & Hpl & _) Hn]. cbn in Hi1, Hpl.
  destruct (remaining_bounds r1 Hi1) as (Hrem & ? & ?). pose proof Hi1 as ((? & ?) & ? & ?).
  destruct (n =? 0) eqn:E0; [done|]. destruct (n >? remaining r1) eqn:E1; [done|]. cbn [orb].
  destruct (_ && _); [done|]. bprop. unfold in_u in Hn. unfold payload_size in *.
  case_bool_decide as Hb; cbn [negb]; [|done]. intros [= <- <-].
  rewrite bool_decide_true.
  2: { apply last_take_drop; [lia|lia|]. rewrite <-Hb. f_equal. lia. }
  cbn [negb]. unfold cret. do 2 eexists. split; [reflexivity|].
  unfold entry_value. cbn [cf_kind cf_size cf_offset]. rewrite Hpl. rewrite take_take. do 3 f_equal. lia.
Qed.

Lemma readU8_byte r :
  cdr_inv r -> status r = status_ok -> 1 <= remaining r ->
  exists b, payload r !! Z.to_nat (position r) = Some b /\
    readU8 r = (Value (b2z b), set_position r (position r + 1)) /\
    cdr_inv (set_position r (position r + 1)).
Proof.
  intros Hi Hs Hrem. destruct (remaining_bounds r Hi) as (Hr & _ & Hb). pose proof Hi as ((? & ?) & ? & ? & ?).
  destruct (payload_inside r (position r)) as [b Hbyte]; [lia|]. exists b. split; [done|].
  pose proof (readUnsigned_spec r 1 Hi Hs ltac:(unfold uint_size; lia)) as Hu. cbv zeta in Hu.
  assert (aligned_from (data_origin r) (position r) (Z.of_nat 1) = position r) as Ha.
  { unfold aligned_from. change (Z.of_nat 1) with 1. rewrite Z.mod_1_r. lia. }
  rewrite Ha in Hu. rewrite bool_decide_true in Hu by lia. unfold readU8. rewrite Hu.
  rewrite (drop_S _ _ _ Hbyte). split.
  - change (take 1 (b :: drop (S (Z.to_nat (position r))) (payload r))) with [b].
    assert (uint_val (little_endian r) [b] = b2z b) as -> by (destruct (little_endian r); cbn; lia).
    done.
  - unfold cdr_inv, payload_size in *. cbn. lia.
Qed.

Lemma read_byte_array n : forall r,
  cdr_inv r -> status r = status_ok -> Z.of_nat n <= remaining r ->
  exists r', readFixedArray readU8 (replicate n 0) r =
    (status_ok, map b2z (take n (drop (Z.to_nat (position r)) (payload r))), r').
Proof.
  induction n as [|n IH]; intros r Hi Hs Hn; [by eexists|]. cbn [replicate readFixedArray].
  destruct (readU8_byte r Hi Hs ltac:(lia)) as (b & Hb & -> & Hi1).
  destruct (remaining_bounds r Hi) as (Hrem & _ & _).
  pose proof Hi as ((? & ?) & ? & ?).
  destruct (IH (set_position r (position r + 1)) Hi1 Hs) as (r' & Hr').
  { destruct (remaining_bounds _ Hi1) as (-> & _ & _). unfold payload_size in *. cbn. lia. }
  rewrite Hr'. exists r'. cbn [set_position payload position] in *. rewrite (drop_S _ _ _ Hb).
  cbn [firstn map]. do 3 f_equal. by replace (Z.to_nat (position r + 1)) with (S (Z.to_nat (position r))) by lia.
Qed.

Lemma plain_of_span t r cf r' :
  leaf t -> counts_ok t -> cdr_inv r -> status r = status_ok -> leaf_span t r = (Value cf, r') ->
  exists v r2, plain_read t r = (Value v, r2) /\
    entry_value (little_endian r) (payload r) cf = Some v.
Proof.
  intros Hleaf Hcounts Hi Hs Hspan. destruct (st_container t) eqn:Ec.
  - destruct (decide (st_kind t = kString)) as [Ek|Ek]; [by eapply plain_string|].
    eapply plain_primitive; try done. intros Ek'. apply Hleaf. unfold cachedKind. by rewrite Ec, Ek'.
  - revert Hspan. unfold leaf_span, plain_read. rewrite Ec.
    destruct (_ >? _) eqn:E; [done|]. intros [= <- <-]. bprop.
    destruct Hcounts as [Hc _]. specialize (Hc Ec).
    destruct (read_byte_array (Z.to_nat (fixed_count t)) r Hi Hs ltac:(lia)) as (r2 & ->).
    cbn [isOk code status_ok]. do 2 eexists. split; [reflexivity|].
    unfold entry_value. cbn [cf_kind cf_size cf_offset]. do 2 f_equal.
    rewrite List.map_map. symmetry. etrans; [|apply List.map_id]. apply List.map_ext. apply z2b_b2z.
  - revert Hspan. unfold leaf_span, plain_read. rewrite Ec. cbn [readPrimitive].
    unfold cmap, readByteSequence, readSequenceLength, cbind.
    pose proof (readU32_result r Hi Hs) as H.
    destruct (readU32 r) as [[n|s] r1]; [|done]. destruct H as [(Hi1 & Hpl & _) Hn]. cbn in Hi1, Hpl.
    destruct (_ && _); [done|]. destruct (n >? remaining r1) eqn:E; [done|]. intros [= <- <-].
    change (1 =? 0) with false. cbv iota. rewrite Z.div_1_r, E. unfold cret.
    do 2 eexists. split; [reflexivity|]. unfold entry_value. cbn [cf_kind cf_size cf_offset].
    by rewrite Hpl.
Qed.

(** ** The accessors *)

Section Accessors.
Context (plan : CdrTraversalPlan) (p : Planned) (x : nat) (cf : CachedField).
Context (Hinv : cdr_inv (reader p)) (Hs : status (reader p) = status_ok) (Hcount : traversal_count p = 1).
Context (Hx : cached_fields p !! x = Some cf) (Hl : located cf = true) (He : entry_ok (reader p) cf).

Lemma cached_hit : cached plan x (cf_kind cf) p = Val (Value cf, p).
Proof using Hcount Hl Hs Hx.
  unfold cached, pmbind, ensurePlannedFields. rewrite Hs, Hcount. cbn [isOk code status_ok negb Z.eqb].
  cbn. rewrite ?Hs. cbn. rewrite Hx, Hl. by rewrite bool_decide_true.
Qed.

Lemma block_hit :
  payload_block (cf_offset cf) (cf_size cf) p =
  Val (Value (take (Z.to_nat (cf_size cf)) (drop (Z.to_nat (cf_offset cf)) (payload (reader p)))), p).
Proof using He Hl.
  destruct (He Hl) as (? & ? & Hle & _). unfold payload_block. destruct (_ >? _) eqn:E; [bprop; lia|done].
Qed.

Lemma cachedUnsigned_hit w :
  kind_width (cf_kind cf) = Some (Z.of_nat w) -> (w <= 8)%nat ->
  cachedUnsigned plan x (cf_kind cf) w p =
  Val (Value (uint_val (little_endian (reader p))
    (take (Z.to_nat (cf_size cf)) (drop (Z.to_nat (cf_offset cf)) (payload (reader p))))), p).
Proof using He Hcount Hl Hs Hx.
  intros Hw H8. destruct (He Hl) as (? & ? & Hle & Hsize). specialize (Hsize _ Hw).
  unfold cachedUnsigned. unfold pmbind at 1. rewrite cached_hit. unfold pmbind. rewrite <-Hsize, block_hit.
  set (block := take _ _).
  assert (length block = w) as Hlen.
  { unfold block. rewrite length_take, length_drop. unfold payload_size in *. lia. }
  assert (fold_be 64 0 block = le_val (rev block)) as Hbe.
  { rewrite fold_be_val; [cbn; lia|lia|]. rewrite Hlen. cbn [Z.add]. rewrite Z.mul_1_l.
    apply Z.pow_le_mono_r; lia. }
  rewrite Hbe. rewrite fold_le_val by (simpl; lia).
  destruct (little_endian (reader p)); cbn [uint_val]; [|done]. simpl. by rewrite Z.mul_1_r.
Qed.

Lemma planned_value v :
  entry_value (little_endian (reader p)) (payload (reader p)) cf = Some v ->
  planned_read plan (cf_kind cf) x p = Val (Value v, p).
Proof using He Hcount Hl Hs Hx.
  destruct (He Hl) as (Ho & Hsz & Hle & Hsize).
  pose proof cachedUnsigned_hit as Hu. pose proof cached_hit as Hc. pose proof block_hit as Hb.
  assert (forall w, kind_width (cf_kind cf) = Some (Z.of_nat w) ->
    in_u (8 * Z.of_nat w) (uint_val (little_endian (reader p))
      (take (Z.to_nat (cf_size cf)) (drop (Z.to_nat (cf_offset cf)) (payload (reader p)))))) as Hrange.
  { intros w Hw. specialize (Hsize _ Hw).
    pose proof (uint_val_range (little_endian (reader p))
      (take (Z.to_nat (cf_size cf)) (drop (Z.to_nat (cf_offset cf)) (payload (reader p))))) as Hr.
    rewrite length_take, length_drop in Hr. unfold payload_size in *.
    replace (_ `min` _)%nat with w in Hr by lia. exact Hr. }
  unfold entry_value. destruct (cf_kind cf) eqn:Ek; cbn [planned_read kind_width] in *;
    unfold pmap, p_boolean, p_i8, p_u8, p_i16, p_u16, p_i32, p_u32, p_i64, p_u64, p_f32, p_f64,
      p_string, p_bytes, cachedBits, pmbind;
    try (rewrite Hc, Hb; by intros [= <-]); try done.
  all: first [rewrite (Hu 1%nat) by (done || lia)|rewrite (Hu 2%nat) by (done || lia)
             |rewrite (Hu 4%nat) by (done || lia)|rewrite (Hu 8%nat) by (done || lia)].
  all: try (rewrite (Hsize _ eq_refl); by intros [= <-]).
  all: try (rewrite wrap_small; [by intros [= <-]|]).
  all: try (apply (Hrange 1%nat); done); try (apply (Hrange 2%nat); done);
    try (apply (Hrange 4%nat); done); try (apply (Hrange 8%nat); done).
  destruct (_ >? 1); [done|]. by intros [= <-].
Qed.
End Accessors.

(** ** The first access *)

Lemma set_same_status r : set_status r (status r) = r.
Proof. by destruct r. Qed.

Lemma initialize_start data :
  status (initialize data) = status_ok ->
  set_depth (set_position (initialize data) (data_origin (initialize data))) 0 = initialize data.
Proof.
  unfold initialize. destruct data as [|b0 [|b1 [|b2 [|b3 data]]]]; try done. cbv zeta.
  by destruct (_ && _).
Qed.

Lemma planned_reader_ok plan data :
  isOk (status (reader (planned_reader plan data))) = true ->
  status (initialize data) = status_ok /\
  planned_reader plan data = mkPlanned (initialize data) (replicate (length (requested plan)) no_field) 0.
Proof.
  unfold planned_reader. cbn [reader]. intros Hs. rewrite Hs. split; [|done]. revert Hs.
  unfold initialize. destruct data as [|b0 [|b1 [|b2 [|b3 data]]]]; try done. cbv zeta.
  by destruct (_ && _).
Qed.

Lemma initialize_inv_start plan data :
  Z.of_nat (length data) < 2 ^ 64 ->
  cdr_inv (reader (mkPlanned (initialize data) (replicate (length (requested plan)) no_field) 1)).
Proof. apply initialize_inv. Qed.

(** The state in which the message is traversed. *)
Definition traversal_start (plan : CdrTraversalPlan) (data : bytes) : Planned :=
  mkPlanned (initialize data) (replicate (length (requested plan)) no_field) 1.

Lemma first_traversal plan data p1 :
  schema_ok (structs plan) -> Z.of_nat (length data) < 2 ^ 64 ->
  ensurePlannedFields plan (planned_reader plan data) = Val (Value tt, p1) ->
  status (initialize data) = status_ok /\
  exists q, walkStruct (structs plan) (requested plan) walk_fuel 0 [] (traversal_start plan data)
      = Val (Value tt, q) /\
    forallb located (cached_fields q) = true /\ p1 = with_reader (set_status (reader q) status_ok) q.
Proof.
  intros Hok Hlen. unfold ensurePlannedFields. intros H.
  destruct (isOk (status (reader (planned_reader plan data)))) eqn:Es; cbn [negb] in H; [|done].
  destruct (planned_reader_ok plan data Es) as [Hs Heq]. split; [done|]. rewrite Heq in H.
  cbn [reader traversal_count cached_fields] in H. change (0 =? 0) with true in H. cbv iota in H.
  rewrite initialize_start in H by done. fold (traversal_start plan data) in H.
  pose proof (locateAll_safe (structs plan) (requested plan) Hok (traversal_start plan data)
    (initialize_inv data Hlen) Hs (length_replicate _ _)) as Hsafe.
  destruct (locateAll (structs plan) (requested plan) (traversal_start plan data))
    as [[[[]|e] q]|] eqn:El; cbn [xbind] in H; [| |done].
  - cbn in H. injection H as <-. unfold locateAll in El. cbn [traversal_start reader] in El.
    rewrite Hs in El. cbn [isOk code status_ok negb] in El. fold (traversal_start plan data) in El.
    unfold pmbind in El.
    destruct (walkStruct _ _ _ _ _ (traversal_start plan data)) as [[[[]|e] q']|]; [|done..].
    exists q'. split; [done|]. destruct (forallb located (cached_fields q')); [|done].
    by injection El as <-.
  - destruct Hsafe as (_ & _ & Hf). cbn in H. by rewrite Hf in H.
Qed.

(** C2 Planned access is sequential access.  When the one traversal of a message
    succeeds, the accessor of every requested field returns exactly the value
    that the plain reader returns after walking over everything that precedes the
    field: the plan, the cache and the other requests make no difference. *)
Theorem planned_is_sequential structs_ paths plan data p1 x req :
  schema_ok structs_ -> locate (Value structs_) paths = Val (Value plan) ->
  Z.of_nat (length data) < 2 ^ 64 ->
  ensurePlannedFields plan (planned_reader plan data) = Val (Value tt, p1) ->
  requested plan !! x = Some req ->
  exists t q v r,
    path_to structs_ 0 (split_on (ch ".") (rf_path req)) (rf_steps req) t /\
    seek structs_ walk_fuel 0 [] (rf_steps req) (planned_reader plan data) = Val (Value t, q) /\
    plain_read t (reader q) = (Value v, r) /\
    planned_read plan (rf_cached_kind req) x p1 = Val (Value v, p1).
Proof.
  intros Hok Hplan Hlen Hensure Hx.
  destruct (locate_ok structs_ paths plan Hok Hplan) as (Hst & Hreqs & Hdistinct). subst structs_.
  destruct (first_traversal plan data p1 Hok Hlen Hensure) as (Hs & q & Hwalk & _ & Hp1).
  assert (request_ok (structs plan) req) as (t & Hpath & Hleaf & Hkind & _).
  { rewrite Forall_lookup in Hreqs. by apply (Hreqs x). }
  destruct (rf_steps req) as [|k rest] eqn:Hsteps; [by apply path_to_nonempty in Hpath as [_ ?]|].
  destruct (ok_root _ Hok) as (root & Hroot & _). apply lookup_lt_Some in Hroot.
  set (start := traversal_start plan data) in *.
  assert (length (cached_fields start) = length (requested plan)) as Hlc by apply length_replicate.
  destruct (location (structs plan) (requested plan) (schema_fits _ Hok)
    (requests_distinct _ _ Hreqs Hdistinct) walk_fuel 0 [] k rest x start q) as
    (t' & q1 & names & Hseek & Hpath' & Hleaf' & Hcounts & Hinv1 & Hs1 & [Hpl1 Hle1] & cf & r' & Hspan & Hcf);
    [by apply requests_at_root|done|by apply initialize_inv|done|done|done|by exists req|].
  assert (t' = t) as -> by (by eapply path_to_unique).
  destruct (plain_of_span t (reader q1) cf r' Hleaf Hcounts Hinv1 Hs1 Hspan) as (v & r2 & Hplain & Hv).
  destruct (agree_value (length (requested plan)) (seek (structs plan) walk_fuel 0 [] (k :: rest))
    (seek (structs plan) walk_fuel 0 [] (k :: rest)) (Agree0 := seek_agree _ _ _ _ _ _)
    start (planned_reader plan data) t q1 eq_refl Hlc Hseek) as (q2 & Hseek2 & Hr2).
  exists t, q2, v, r2. rewrite Hr2. split_and!; [done..|].
  pose proof (walkStruct_safe (structs plan) (requested plan) walk_fuel 0 [] (schema_fits _ Hok) eq_refl
    ltac:(cbn; lia) Hroot start (initialize_inv data Hlen) Hs Hlc) as Hsafe.
  rewrite Hwalk in Hsafe. destruct Hsafe as [(Hiq & Hplq & Hleq & _ & _ & _ & Hallq & Hcountq) Hsq].
  assert (Forall (entry_ok (reader q)) (cached_fields q)) as Hentries.
  { apply Hallq. apply Forall_replicate. by intros ?. }
  destruct (leaf_span_outcome t (reader q1) Hleaf Hcounts Hinv1 Hs1) as [_ Hout].
  rewrite Hspan in Hout. destruct Hout as (Hlocated & Hcfk & _).
  subst p1. rewrite Hkind, <-Hcfk.
  apply planned_value; try done.
  - cbn. rewrite Forall_lookup in Hentries. by apply (Hentries x).
  - cbn. by rewrite Hleq, Hplq, <-Hle1, <-Hpl1.
Qed.

Definition sample_traversed : Planned :=
  match ensurePlannedFields sample_plan (planned_reader sample_plan sample_message) with
  | Val (_, p) => p
  | Undef => planned_reader sample_plan sample_message
  end.

Example planned_is_sequential_witness :
  exists t q v r,
    path_to sample_structs 0 (split_on (ch ".") (str "frame")) [1%nat] t /\
    seek sample_structs walk_fuel 0 [] [1%nat] (planned_reader sample_plan sample_message)
      = Val (Value t, q) /\
    plain_read t (reader q) = (Value v, r) /\
    planned_read sample_plan cString 1 sample_traversed = Val (Value v, sample_traversed).
Proof.
  apply (planned_is_sequential sample_structs sample_paths sample_plan sample_message sample_traversed 1
    (mkRequestedField (str "frame") [1%nat] cString) sample_ok); [|reflexivity|..];
    vm_compute; reflexivity.
Defined.
