(* ===== verification/CdrMinimum.v ===== *)
(** * CdrMinimum: the least size of a value is a lower bound

    [CdrTraversalPlan::minimumSize] guards the element counts of sequences before
    any element is read.  It never rejects a sequence whose elements are there:
    walking a value takes at least its minimum size. *)

From S2P Require Import Prelude Text ParserCore CdrReader.
From S2P Require Import CdrSchema CdrLocator CdrTraversal.

Lemma readU32_advances r n r1 :
  cdr_inv r -> status r = status_ok -> readU32 r = (Value n, r1) -> position r + 4 <= position r1.
Proof.
  intros Hi Hs Hr. pose proof (readUnsigned_spec r 4 Hi Hs ltac:(unfold uint_size; lia)) as H.
  cbv zeta in H. unfold readU32 in Hr. case_bool_decide as Hb.
  - rewrite Hr in H. injection H as _ ->. cbn. unfold aligned_from.
    pose proof (Z.mod_pos_bound (- (position r - data_origin r)) (Z.of_nat 4) ltac:(lia)). lia.
  - destruct H as (e & r' & H & _). congruence.
Qed.

(** The least size of a leaf. *)
Definition leaf_minimum (t : CdrSchemaType) : Z :=
  match st_container t with
  | kSequence => 4
  | kFixedArray => fixed_count t
  | kScalar => match st_kind t with kString => 5 | kind => primitiveSize kind end
  end.

Lemma leaf_span_advances t r cf r' :
  leaf t -> counts_ok t -> cdr_inv r -> status r = status_ok -> leaf_span t r = (Value cf, r') ->
  position r + leaf_minimum t <= position r'.
Proof.
  intros Hleaf Hc Hi Hs Hspan.
  destruct (leaf_span_outcome t r Hleaf Hc Hi Hs) as [_ Hout]. rewrite Hspan in Hout.
  destruct Hout as (Hl & Hk & He & Hpos & Hend). destruct (He Hl) as (Ho & Hsz & Hle & Hw).
  cbn [snd] in Hend. unfold leaf_minimum. unfold leaf_span in Hspan.
  destruct (st_container t) eqn:Ec.
  - destruct (decide (st_kind t = kString)) as [Ek|Ek].
    + rewrite Ek in *. unfold cbind in Hspan. pose proof (readU32_result r Hi Hs) as H.
      destruct (readU32 r) as [[n|s] r1] eqn:E; [|done]. apply readU32_advances in E; [|done..].
      destruct H as [(Hi1 & _) Hn]. cbn in Hi1. destruct (remaining_bounds r1 Hi1) as (? & ? & ?).
      destruct (_ || _) eqn:E1; [done|]. apply orb_false_iff in E1 as [E1 E2].
      destruct (_ && _); [done|]. destruct (negb _); [done|]. injection Hspan as <- <-. bprop.
      unfold in_u in Hn. cbn in *. pose proof Hi1 as ((? & ?) & ? & ?).
      rewrite wrap_small in * by (unfold in_u; lia). lia.
    + assert (st_kind t <> kStruct) as Ek'.
      { intros Ek'. apply Hleaf. unfold cachedKind. by rewrite Ec, Ek'. }
      assert (cf_size cf = primitiveSize (st_kind t)) as Hsize.
      { apply Hw. rewrite Hk. unfold cachedKind. rewrite Ec. by destruct (st_kind t). }
      destruct (st_kind t); try done; lia.
  - destruct (_ >? _); [done|]. injection Hspan as <- _. cbn in *. lia.
  - unfold cbind in Hspan. pose proof (readU32_result r Hi Hs) as H.
    destruct (readU32 r) as [[n|s] r1] eqn:E; [|done]. apply readU32_advances in E; [|done..].
    destruct (_ && _); [done|]. destruct (_ >? _); [done|]. injection Hspan as <- _. cbn in *. lia.
Qed.

(** ** Computations that take at least [k] bytes when they succeed *)

Definition ready (n : nat) (p : Planned) : Prop :=
  cdr_inv (reader p) /\ status (reader p) = status_ok /\ length (cached_fields p) = n.

Class Takes (n : nat) (k : Z) {A} (m : pm A) : Prop :=
  takes_run : forall p a p', ready n p -> m p = Val (Value a, p') ->
    position (reader p) + k <= position (reader p').

Lemma ready_after n {A} (m : pm A) `{!PSafe n m} p a p' :
  ready n p -> m p = Val (Value a, p') -> ready n p' /\ position (reader p) <= position (reader p').
Proof.
  intros (Hi & Hs & Hl) Hm. pose proof (psafe_run (m:=m) p Hi Hs Hl) as Hp. rewrite Hm in Hp.
  destruct Hp as [(? & _ & _ & _ & ? & ? & _) ?]. unfold ready. split_and!; done || congruence.
Qed.

Lemma takes_safe n {A} (m : pm A) `{!PSafe n m} : Takes n 0 m.
Proof. intros p a p' Hp Hm. destruct (ready_after n m p a p' Hp Hm). lia. Qed.

Lemma takes_bind n k1 k2 {A B} (m : pm A) (f : A -> pm B) :
  PSafe n m -> Takes n k1 m -> (forall a, Takes n k2 (f a)) -> Takes n (k1 + k2) (pmbind m f).
Proof.
  intros Hsafe Hm Hf p b p' Hp. unfold pmbind. destruct (m p) as [[[a|s] q]|] eqn:E; [|done..].
  intros H. destruct (ready_after n m p a q Hp E) as [Hq _]. specialize (Hm p a q Hp E).
  specialize (Hf a q b p' Hq H). lia.
Qed.

Lemma takes_weaken n k k' {A} (m : pm A) : k' <= k -> Takes n k m -> Takes n k' m.
Proof. intros Hk Hm p a p' Hp H. specialize (Hm p a p' Hp H). lia. Qed.

Lemma takes_if_fail n k {A} (b : bool) e (m : pm A) : Takes n k m -> Takes n k (if b then pfail e else m).
Proof. intros Hm. destruct b; [|done]. by intros p a p' _ [= ]. Qed.

Lemma takes_readU32 n : Takes n 4 (plift readU32).
Proof.
  intros p a p' (Hi & Hs & _). unfold plift. destruct (readU32 (reader p)) as [v r] eqn:E.
  intros [= -> <-]. by apply readU32_advances in E.
Qed.

Lemma leaf_step_takes n t id :
  leaf t -> counts_ok t -> Takes n (leaf_minimum t) (leaf_step t id).
Proof.
  intros Hleaf Hc p [] p' (Hi & Hs & _). unfold leaf_step.
  destruct (leaf_span t (reader p)) as [[cf|s] r] eqn:E; [|done].
  apply leaf_span_advances in E; [|done..]. unfold cache_entry, cache. destruct id as [i|].
  - destruct (_ <? _)%nat; [|done]. by intros [= <-].
  - by intros [= <-].
Qed.

Section Minimum.
Context (structs_ : list CdrSchemaStruct) (reqs : list CdrRequestedField).
Context (Hfit : structs_fit structs_).

Notation n := (length reqs).
Notation walker fuel := (walkStruct structs_ reqs fuel).

(** The walker of nested structs below [path]. *)
Definition walks_below (fuel : nat) (path : list nat) : Prop :=
  (length path + fuel = walk_fuel)%nat /\ (length path <= CdrSchema.kMaxTraversalDepth)%nat.

Lemma walker_safe fuel path j :
  walks_below fuel path -> (j < length structs_)%nat -> PSafe n (walker fuel j path).
Proof. intros [? ?] Hj. by apply walkStruct_safe. Qed.

(** What a minimum says of a type: walking a scalar of it takes that much. *)
Definition minimum_holds (t : CdrSchemaType) (m : Z) : Prop :=
  forall fuel path id, walks_below fuel path -> id_ok n id ->
  Takes n m (walk_scalar (walker fuel) (element_of t) path id).

Lemma elements_take t m fuel path msg count :
  type_fits structs_ t -> minimum_holds t m -> walks_below fuel path ->
  Takes n (Z.of_nat count * m) (walk_elements (walker fuel) msg (element_of t) path count).
Proof.
  intros Hfits Hm Hpath. induction count as [|count IH]; cbn [walk_elements].
  { replace (Z.of_nat 0 * m) with 0 by lia. apply takes_safe. apply _. }
  assert (PSafe n (walk_scalar (walker fuel) (element_of t) path None)).
  { apply (walk_scalar_safe structs_); [|done|by apply element_fits|done].
    intros j Hj. by apply walker_safe. }
  replace (Z.of_nat (S count) * m) with (0 + (m + (0 + Z.of_nat count * m))) by lia.
  apply takes_bind; [apply _|apply takes_safe, _|]. intros before.
  apply takes_bind; [done|by apply Hm|]. intros [].
  apply takes_bind; [apply _|apply takes_safe, _|]. intros after. by apply takes_if_fail.
Qed.

(** The minimum of a field of a struct, by its container. *)
Definition field_minimum (t : CdrSchemaType) (m : Z) : Z :=
  match st_container t with
  | kSequence => 4
  | kFixedArray => m * fixed_count t
  | kScalar => m
  end.

Lemma scalar_element t : st_container t = kScalar -> element_of t = t.
Proof. destruct t; cbn. by intros ->. Qed.

Lemma value_takes t m fuel path id hd :
  type_fits structs_ t -> minimum_holds t m -> (st_kind t = kU8 -> m = 1) -> walks_below fuel path ->
  id_ok n id -> Takes n (field_minimum t m) (walkValue structs_ (walker fuel) t path id hd).
Proof.
  intros Hfits Hm Hu8 Hpath Hid. pose proof Hfits as [Hc _]. unfold walkValue. apply takes_if_fail.
  unfold field_minimum. destruct (st_container t) eqn:Ec.
  - rewrite <-(scalar_element t Ec). by apply Hm.
  - destruct (decide (st_kind t = kU8)) as [Ek|Ek].
    + assert (leaf t) as Hleaf by (unfold leaf, cachedKind; rewrite Ec; by rewrite bool_decide_true).
      rewrite (Hu8 Ek), Z.mul_1_l. intros p a p' Hp Hw.
      assert (leaf_step t id p = Val (Value a, p')) as Hstep.
      { rewrite <-Hw, <-(leaf_walk structs_ (walker fuel) t path id p); try done; try apply Hp.
        unfold walkValue. by rewrite Ec. }
      pose proof (leaf_step_takes n t id Hleaf Hc p a p' Hp Hstep) as H. unfold leaf_minimum in H.
      by rewrite Ec in H.
    + unfold walk_fixed_array. rewrite bool_decide_false by done.
      replace (m * fixed_count t) with (0 + (m * fixed_count t)) by lia.
      pose proof (pminimum_safe n structs_ (element_of t) Hfit (element_fits _ t Hfits)).
      apply takes_bind; [done|by apply takes_safe|]. intros m'. apply takes_if_fail.
      destruct Hc as [Hc _]. specialize (Hc Ec).
      replace (m * fixed_count t) with (Z.of_nat (Z.to_nat (fixed_count t)) * m) by lia.
      by apply elements_take.
  - assert (forall f : Z -> pm unit, (forall c, PSafe n (f c)) -> Takes n 4 (pmbind (plift readU32) f)) as Hseq.
    { intros f Hf. apply (takes_weaken n (4 + 0)); [lia|].
      apply takes_bind; [apply _|apply takes_readU32|]. intros c. apply takes_safe, _. }
    destruct (decide (st_kind t = kU8)) as [Ek|Ek].
    + assert (leaf t) as Hleaf by (unfold leaf, cachedKind; rewrite Ec; by rewrite bool_decide_true).
      intros p a p' Hp Hw.
      assert (leaf_step t id p = Val (Value a, p')) as Hstep.
      { rewrite <-Hw, <-(leaf_walk structs_ (walker fuel) t path id p); try done; try apply Hp.
        unfold walkValue. by rewrite Ec. }
      pose proof (leaf_step_takes n t id Hleaf Hc p a p' Hp Hstep) as H. unfold leaf_minimum in H.
      by rewrite Ec in H.
    + unfold walk_sequence. rewrite bool_decide_false by done. apply Hseq. intros count.
      pose proof (pminimum_safe n structs_ t Hfit Hfits).
      pose proof (walk_elements_safe structs_ n (walker fuel) path
        (fun j Hj => walker_safe fuel path j Hpath Hj) "CDR sequence element did not consume input"
        (element_of t) (Z.to_nat count) eq_refl (element_fits _ t Hfits)). apply _.
Qed.

Lemma primitive_minimum t fuel depth m :
  st_kind t <> kStruct -> minimumSize structs_ fuel depth t = Val (Value m) ->
  m = leaf_minimum (element_of t).
Proof.
  intros Hk. unfold leaf_minimum. cbn. destruct fuel; cbn [minimumSize];
    destruct (st_kind t); try done; by intros [= <-].
Qed.

Lemma primitive_holds t fuel depth m :
  type_fits structs_ t -> st_kind t <> kStruct -> minimumSize structs_ fuel depth t = Val (Value m) ->
  minimum_holds t m.
Proof.
  intros Hfits Hk Hm wfuel path id _ _ p [] p' Hp Hw.
  destruct (element_fits structs_ t Hfits) as [Hc _].
  rewrite (primitive_minimum t fuel depth m Hk Hm). destruct Hp as (Hi & Hs & Hl).
  rewrite scalar_walk in Hw by done.
  apply (leaf_step_takes n (element_of t) id) with (a := tt); [by apply scalar_leaf|done|by split_and!|done].
Qed.

Lemma fields_take minimum fuel path fields : forall total m k,
  (forall f, f ∈ fields -> type_fits structs_ (sf_type f)) ->
  (forall f m', f ∈ fields -> minimum (sf_type f) = Val (Value m') ->
    minimum_holds (sf_type f) m' /\ (st_kind (sf_type f) = kU8 -> m' = 1)) ->
  (forall k', walks_below fuel (path ++ [k'])) ->
  minimum_fields minimum total fields = Val (Value m) ->
  Takes n (m - total) (walk_fields structs_ reqs (walker fuel) path k fields).
Proof.
  induction fields as [|f fields IH]; intros total m k Hfits Hmin Hpath; cbn [minimum_fields walk_fields].
  { intros [= <-]. replace (total - total) with 0 by lia. apply takes_safe, _. }
  pose proof (Hmin f) as Hf. specialize (IH) with (1 := fun g Hg => Hfits g (list_elem_of_further _ _ _ Hg))
    (2 := fun g m' Hg => Hmin g m' (list_elem_of_further _ _ _ Hg)) (3 := Hpath).
  destruct (minimum (sf_type f)) as [[mf|e]|]; cbn [xbind]; [|done..].
  destruct (Hf mf (list_elem_of_here _ _) eq_refl) as [Hholds Hu8].
  pose proof (match_requests_bound 0 (path ++ [k]) reqs None false I) as Hid.
  destruct (match_requests _ _ _ _ _) as [id hd]. cbn in Hid.
  pose proof (Hfits f (list_elem_of_here _ _)) as Hff.
  pose proof (value_takes (sf_type f) mf fuel (path ++ [k]) id hd Hff Hholds Hu8 (Hpath k) Hid) as Hv.
  assert (PSafe n (walkValue structs_ (walker fuel) (sf_type f) (path ++ [k]) id hd)).
  { apply (walkValue_safe structs_ n (walker fuel) Hfit (path ++ [k])); [|done..].
    intros j Hj. by apply walker_safe. }
  assert (forall x, x = field_minimum (sf_type f) mf ->
    (if x >? SIZE_MAX - total then Val (serr "CDR schema minimum size overflows the host size type")
     else minimum_fields minimum (total + x) fields) = Val (Value m) ->
    Takes n (m - total) (let% _ := walkValue structs_ (walker fuel) (sf_type f) (path ++ [k]) id hd in
      walk_fields structs_ reqs (walker fuel) path (S k) fields)) as Hadd.
  { intros x -> Hx. destruct (_ >? _); [done|].
    replace (m - total) with (field_minimum (sf_type f) mf + (m - (total + field_minimum (sf_type f) mf)))
      by lia. apply takes_bind; [done|done|]. intros _. by apply IH. }
  unfold field_minimum in Hadd. destruct (st_container (sf_type f)).
  - by apply Hadd.
  - destruct (_ =? 0); [done|]. destruct (mf >? _); [done|]. by apply Hadd.
  - by apply Hadd.
Qed.

Lemma minimum_sound mfuel : forall depth t m,
  type_fits structs_ t -> minimumSize structs_ mfuel depth t = Val (Value m) -> minimum_holds t m.
Proof.
  induction mfuel as [|mfuel IH]; intros depth t m Hfits Hm fuel path id Hpath Hid.
  all: destruct (decide (st_kind t = kStruct)) as [Ek|Ek].
  all: try by apply (primitive_holds t _ depth m Hfits Ek Hm).
  { cbn [minimumSize] in Hm. by rewrite Ek in Hm. }
  cbn [minimumSize] in Hm. rewrite Ek in Hm. destruct (_ <=? _)%nat; [done|].
  destruct (nested_index t) as [j|] eqn:Ej; [|done]. destruct (structs_ !! j) as [s|] eqn:Hs; [|done].
  unfold walk_scalar. cbn [element_of st_kind nested_index]. rewrite Ek, Ej.
  destruct fuel as [|fuel]; [by intros p a p' _|]. cbn [walkStruct].
  destruct (CdrSchema.kMaxTraversalDepth <=? length path)%nat eqn:Ed; [by intros p a p' _|].
  apply Nat.leb_gt in Ed. rewrite Hs. replace m with (m - 0) by lia.
  eapply (fields_take _ fuel path); [| | |exact Hm].
  - intros f Hf. by apply (Hfit j s f).
  - intros f m' Hf Hm'. pose proof (Hfit j s f Hs Hf). split; [by eapply IH|].
    intros Eu. apply primitive_minimum in Hm'; [|by rewrite Eu]. unfold leaf_minimum in Hm'.
    cbn in Hm'. by rewrite Eu in Hm'.
  - intros k'. destruct Hpath as [Hp _]. split; rewrite length_app; cbn in *; lia.
Qed.
End Minimum.

(** The guard on element counts is sound.  Walking [count] elements of a type
    takes at least [count] times its minimum size, so [walkValue]'s check of the
    count against the remaining bytes never rejects a sequence whose elements the
    message holds. *)
Theorem sequence_guard_sound structs_ reqs fuel t path msg count m p p' :
  schema_ok structs_ -> type_fits structs_ t ->
  (length path + fuel = walk_fuel)%nat -> (length path <= CdrSchema.kMaxTraversalDepth)%nat ->
  cdr_inv (reader p) -> status (reader p) = status_ok -> length (cached_fields p) = length reqs ->
  minimumSize structs_ walk_fuel 0 t = Val (Value m) ->
  walk_elements (walkStruct structs_ reqs fuel) msg (element_of t) path count p = Val (Value tt, p') ->
  Z.of_nat count * m <= position (reader p') - position (reader p) /\
  (m <> 0 -> (Z.of_nat count >? remaining (reader p) / m) = false).
Proof.
  intros Hok Hfits Hfuel Hdepth Hi Hs Hl Hm Hwalk.
  pose proof (schema_fits structs_ Hok) as Hfit.
  assert (ready (length reqs) p) as Hp by (by split_and!).
  pose proof (elements_take structs_ reqs Hfit t m fuel path msg count Hfits
    (minimum_sound structs_ reqs Hfit _ _ t m Hfits Hm) ltac:(by split) p tt p' Hp Hwalk) as Htakes.
  split; [lia|]. intros Hne.
  pose proof (minimumSize_safe structs_ walk_fuel 0 t Hfit Hfits eq_refl ltac:(lia)) as Hsize.
  rewrite Hm in Hsize. cbn in Hsize.
  assert (PSafe (length reqs) (walk_elements (walkStruct structs_ reqs fuel) msg (element_of t) path count)).
  { apply (walk_elements_safe structs_); [|done|by apply element_fits].
    intros j Hj. by apply walkStruct_safe. }
  destruct (ready_after _ _ p tt p' Hp Hwalk) as [(Hi' & _ & _) _].
  pose proof (psafe_run p Hi Hs Hl) as Hstep. rewrite Hwalk in Hstep.
  destruct Hstep as [(_ & Hpl & _) _]. destruct (remaining_bounds _ Hi) as (-> & _ & _).
  destruct Hi' as (_ & Hpos & _). unfold payload_size in *. rewrite Hpl in Hpos.
  destruct (_ >? _) eqn:E; [|done]. bprop.
  assert (Z.of_nat count <= (Z.of_nat (length (payload (reader p))) - position (reader p)) / m); [|lia].
  apply Z.div_le_lower_bound; lia.
Qed.

(** Two structs of the sample schema's [geometry_msgs/Point], 12 bytes or more each. *)
Definition sample_element : CdrSchemaType :=
  mkSchemaType kStruct kSequence 0 0 0 (str "geometry_msgs/Point") (Some 1%nat).

Definition sample_elements_message : bytes :=
  map z2b [0; 1; 0; 0;  1; 2; 3; 4; 5; 6; 7; 8;  9; 0; 10; 0;  0; 0; 0; 0;
           1; 2; 3; 4; 5; 6; 7; 8;  9; 0; 10; 0].

Definition sample_start : Planned := mkPlanned (initialize sample_elements_message) [] 0.

Definition sample_end : Planned :=
  match walk_elements (walkStruct sample_structs [] 64) "" (element_of sample_element) [0%nat] 2
          sample_start with
  | Val (_, p) => p
  | Undef => sample_start
  end.

Example sequence_guard_sound_witness :
  2 * 12 <= position (reader sample_end) - position (reader sample_start) /\
  (12 <> 0 -> (2 >? remaining (reader sample_start) / 12) = false).
Proof.
  apply (sequence_guard_sound sample_structs [] 64 sample_element [0%nat] "" 2 12 sample_start sample_end
    sample_ok).
  - split; [split; [done|split; split; vm_compute; discriminate]|]. intros _. exists 1%nat.
    split; [reflexivity|vm_compute; lia].
  - reflexivity.
  - vm_compute. lia.
  - apply initialize_inv. reflexivity.
  - vm_compute. reflexivity.
  - reflexivity.
  - vm_compute. reflexivity.
  - vm_compute. reflexivity.
Defined.
