(* ===== verification/ClaimCatalog.v ===== *)
(** * ClaimCatalog: parser route claims and their admission

    [pj_plugins/src/parser_claim_catalog.cpp] (with [sdk::name] and
    [sdk::parseBuiltinObjectType] of [pj_base/builtin/builtin_object.hpp] and the
    constants of [pj_base/parser_route_claims_protocol.h]): normalization and
    validation of claims, the claims synthesized for a parser plugin, and the
    catalog.  The decoder of manifests is in [ClaimManifest].

    A [std::set] of digests, encodings or identities is the list of its elements;
    only membership is asked.  The diagnostics handed to a sink are kept, without
    their time stamps, in the order of the calls. *)

From S2P Require Import Prelude Text.

Definition text_of (b : bytes) : string := String.string_of_list_byte b.

(** ** Object types

    An [enum class : uint16_t] holds any 16-bit value. *)
Definition builtin_names : list (Z * bytes) :=
  [(0, str "kNone"); (1, str "kImage"); (3, str "kPointCloud"); (4, str "kDepthImage");
   (5, str "kImageAnnotations"); (6, str "kFrameTransforms"); (7, str "kOccupancyGrid");
   (8, str "kCompressedPointCloud"); (9, str "kMesh3D"); (10, str "kVideoFrame");
   (11, str "kSceneEntities"); (13, str "kRobotDescription"); (14, str "kCameraInfo");
   (15, str "kOccupancyGridUpdate"); (16, str "kLog"); (17, str "kPosesInFrame");
   (18, str "kVoxelGrid"); (19, str "kPlotMarkers"); (20, str "kGridMap")].

Definition builtin_name (type : Z) : bytes :=
  match List.find (fun e => e.1 =? type) builtin_names with
  | Some e => e.2
  | None => str "kNone"
  end.

Definition parseBuiltinObjectType (s : bytes) : option Z :=
  option_map fst (List.find (fun e => bytes_eqb e.2 s) builtin_names).

Definition isKnownObjectType (object_type : Z) : bool :=
  if object_type =? 0 then false
  else bool_decide (parseBuiltinObjectType (builtin_name object_type) = Some object_type).

(** ** Claims *)

Inductive ParserClaimProvenance : Set := kFolderDrop | kMarketplace | kBundled.

#[export] Instance provenance_eq_dec : EqDecision ParserClaimProvenance.
Proof. solve_decision. Defined.

(** The enumerators' values, which order the provenances. *)
Definition provenance_rank (p : ParserClaimProvenance) : Z :=
  match p with kFolderDrop => 0 | kMarketplace => 1 | kBundled => 2 end.

Record ParserClaim : Set := mkClaim {
  encoding : bytes; type_name : bytes; route_flags : Z; object_type : option Z;
  schema_digests : list bytes; provider_id : bytes; claim_id : bytes; priority : Z;
  provenance : ParserClaimProvenance }.

Record ParserClaimEntry : Set := mkEntry { claim : ParserClaim; provider_generation : Z }.

Definition ROUTE_FLAG_SCALAR : Z := 1.
Definition ROUTE_FLAG_OBJECT : Z := 2.

(** [ROUTE_MATCH_EXACT], [ROUTE_STATUS_CLAIMED] and [ROUTE_STATUS_DECLINED]. *)
Definition ROUTE_MATCH_EXACT : Z := 0.
Definition ROUTE_STATUS_CLAIMED : Z := 0.
Definition ROUTE_STATUS_DECLINED : Z := 1.

Definition kRegisteredEncodings : list bytes :=
  [str "bson"; str "cbor"; str "data_tamer"; str "json"; str "msgpack"; str "omgidl"; str "protobuf";
   str "ros1"; str "ros1msg"; str "ros2"; str "ros2msg"].

Definition isRegisteredParserEncoding (e : bytes) : bool :=
  existsb (fun registered => bytes_eqb registered e) kRegisteredEncodings.

Definition isIdentifierStart (c : byte) : bool := isAsciiLetter c || byte_eqb c (ch "_").
Definition isIdentifierContinuation (c : byte) : bool := isIdentifierStart c || isAsciiDigit c.

Definition protobuf_component (component : bytes) : bool :=
  match component with
  | [] => false
  | c :: rest => isIdentifierStart c && forallb isIdentifierContinuation rest
  end.

(** The loop over the components; an empty name never enters it, and a name that
    ends with a dot leaves it. *)
Definition isProtobufFullName (name : bytes) : bool :=
  forallb protobuf_component (split_on (ch ".") name).

Definition isHexDigit (c : byte) : bool :=
  isAsciiDigit c || ((97 <=? b2z c) && (b2z c <=? 102)) || ((65 <=? b2z c) && (b2z c <=? 70)).

Definition isSchemaDigest (digest : bytes) : bool :=
  starts_with (str "sha256:") digest && (length digest =? 7 + 64)%nat && forallb isHexDigit (drop 7 digest).

Definition ros2msg_error {A} : Expected A := Err "ros2msg type_name must be pkg/Type or pkg/msg/Type".

Definition normalize_ros2msg (name : bytes) : Expected bytes :=
  match find_char (ch "/") name with
  | None => ros2msg_error
  | Some first =>
    if (first =? 0)%nat || (first + 1 =? length name)%nat then ros2msg_error
    else
      let rest := drop (S first) name in
      match find_char (ch "/") rest with
      | None => Ok (take first name ++ str "/msg/" ++ rest)
      | Some second =>
        if negb (bytes_eqb (take second rest) (str "msg")) || (second + 1 =? length rest)%nat
           || match find_char (ch "/") (drop (S second) rest) with Some _ => true | None => false end
        then ros2msg_error
        else Ok name
      end
  end.

Definition normalize_protobuf (name : bytes) : Expected bytes :=
  let name := match name with c :: rest => if byte_eqb c (ch ".") then rest else name | [] => [] end in
  if isProtobufFullName name then Ok name
  else Err "protobuf type_name must be a full dotted message name".

Definition normalizeParserTypeName (e name : bytes) : Expected bytes :=
  if negb (isRegisteredParserEncoding e)
  then Err ("cannot normalize type name for unknown encoding: " +:+ text_of e)
  else if bool_decide (name = []) then Err "parser claim type_name must not be empty"
  else if bytes_eqb name (str "*") then Ok name
  else if bytes_eqb e (str "ros2msg") then normalize_ros2msg name
  else if bytes_eqb e (str "protobuf") then normalize_protobuf name
  else Ok name.

Definition claimIdentity (c : ParserClaim) : string :=
  text_of (provider_id c) +:+ "/" +:+ text_of (claim_id c).

Definition set_type_name (c : ParserClaim) (t : bytes) : ParserClaim :=
  mkClaim (encoding c) t (route_flags c) (object_type c) (schema_digests c) (provider_id c) (claim_id c)
    (priority c) (provenance c).

Definition set_provenance (c : ParserClaim) (p : ParserClaimProvenance) : ParserClaim :=
  mkClaim (encoding c) (type_name c) (route_flags c) (object_type c) (schema_digests c) (provider_id c)
    (claim_id c) (priority c) p.

Definition has_route (flag : Z) (c : ParserClaim) : bool := negb (Z.land (route_flags c) flag =? 0).

Definition normalizeAndValidateClaim (c : ParserClaim) : Expected ParserClaim :=
  if bool_decide (provider_id c = []) then Err "parser claim provider_id must not be empty"
  else if bool_decide (claim_id c = []) then Err "parser claim claim_id must not be empty"
  else if (priority c <? -1000) || (priority c >? 1000)
  then Err ("parser claim priority is outside the admitted range [-1000,1000]: " +:+ claimIdentity c)
  else if negb (isRegisteredParserEncoding (encoding c))
  then Err ("parser claim uses unknown encoding: " +:+ text_of (encoding c))
  else
    let? normalized_type := normalizeParserTypeName (encoding c) (type_name c) in
    let c := set_type_name c normalized_type in
    let kKnownRouteFlags := Z.lor ROUTE_FLAG_SCALAR ROUTE_FLAG_OBJECT in
    if (route_flags c =? 0) || negb (Z.land (route_flags c) (Z.lnot kKnownRouteFlags) =? 0)
    then Err "parser claim route_flags must contain only scalar and/or object"
    else
      let has_object_route := has_route ROUTE_FLAG_OBJECT c in
      let has_object_type := match object_type c with Some _ => true | None => false end in
      if bytes_eqb (type_name c) (str "*") && has_object_route
      then Err "parser claim wildcard type_name cannot claim the object route"
      else if negb (Bool.eqb has_object_route has_object_type)
      then Err (if has_object_route then "parser claim object route requires object_type"
                else "parser claim object_type is forbidden without the object route")
      else if match object_type c with Some t => negb (isKnownObjectType t) | None => false end
      then Err "parser claim uses unknown object_type"
      else if negb (forallb isSchemaDigest (schema_digests c))
      then Err "parser claim schema_digest must use sha256:<64-hex>"
      else Ok c.

Definition identity (c : ParserClaim) : bytes * bytes := (provider_id c, claim_id c).

(** ** Claims of a parser plugin *)

Record RouteClassification : Set := mkClassification {
  rc_route_flags : Z; rc_match : Z; rc_status : Z; rc_object_type : Z }.

Record ParserPluginExactClaim : Set := mkExact {
  ex_encoding : bytes; ex_type_name : bytes; classification : RouteClassification;
  ex_schema_digests : list bytes }.

Definition duplicate_error {A} (c : ParserClaim) : Expected A :=
  Err ("duplicate parser claim identity: " +:+ claimIdentity c).

(** The wildcard claims of the manifest's encodings. *)
Fixpoint wildcard_claims (provider : bytes) (p : ParserClaimProvenance) (encodings : list bytes)
    (seen : list bytes) (claims : list ParserClaim) : Expected (list ParserClaim) :=
  match encodings with
  | [] => Ok claims
  | e :: encodings' =>
    let? validated := normalizeAndValidateClaim
      (mkClaim e (str "*") ROUTE_FLAG_SCALAR None [] provider (str "wildcard:" ++ e) 0 p) in
    if existsb (fun s => bytes_eqb s e) seen
       || existsb (fun c => bool_decide (identity c = identity validated)) claims
    then duplicate_error validated
    else wildcard_claims provider p encodings' (e :: seen) (claims ++ [validated])
  end.

(** One classified route: no claim when the plugin declined it. *)
Definition exact_claim (provider : bytes) (p : ParserClaimProvenance) (manifest_encodings : list bytes)
    (exact : ParserPluginExactClaim) : Expected (option ParserClaim) :=
  let k := classification exact in
  if negb (existsb (fun e => bytes_eqb e (ex_encoding exact)) manifest_encodings)
  then Err ("parser exact claim encoding is absent from its manifest: " +:+ text_of (ex_encoding exact))
  else if negb (rc_match k =? ROUTE_MATCH_EXACT)
  then Err "parser route classification reported a non-exact match"
  else if rc_status k =? ROUTE_STATUS_DECLINED then
    if negb (rc_route_flags k =? 0) || negb (rc_object_type k =? 0)
    then Err "declined parser route classification contains claimed route data"
    else Ok None
  else if negb (rc_status k =? ROUTE_STATUS_CLAIMED)
  then Err "parser route classification has an invalid status"
  else if bytes_eqb (ex_type_name exact) (str "*")
  then Err "parser route classification extension cannot report wildcard claims"
  else
    let has_object := negb (Z.land (rc_route_flags k) ROUTE_FLAG_OBJECT =? 0) in
    if negb has_object && negb (rc_object_type k =? 0)
    then Err "parser route classification has object_type without an object route"
    else
      let? normalized_type := normalizeParserTypeName (ex_encoding exact) (ex_type_name exact) in
      let? validated := normalizeAndValidateClaim
        (mkClaim (ex_encoding exact) normalized_type (rc_route_flags k)
           (if has_object then Some (rc_object_type k) else None) (ex_schema_digests exact) provider
           (str "handler:" ++ ex_encoding exact ++ str ":" ++ normalized_type) 0 p) in
      Ok (Some validated).

Fixpoint exact_claims_loop (provider : bytes) (p : ParserClaimProvenance) (manifest_encodings : list bytes)
    (exact_claims : list ParserPluginExactClaim) (claims : list ParserClaim) : Expected (list ParserClaim) :=
  match exact_claims with
  | [] => Ok claims
  | exact :: exact_claims' =>
    let? validated := exact_claim provider p manifest_encodings exact in
    match validated with
    | None => exact_claims_loop provider p manifest_encodings exact_claims' claims
    | Some c =>
      if existsb (fun c' => bool_decide (identity c' = identity c)) claims then duplicate_error c
      else exact_claims_loop provider p manifest_encodings exact_claims' (claims ++ [c])
    end
  end.

Definition synthesizeParserPluginClaims (provider : bytes) (manifest_encodings : list bytes)
    (exact_claims : list ParserPluginExactClaim) (p : ParserClaimProvenance) : Expected (list ParserClaim) :=
  if bool_decide (provider = []) then Err "parser plugin provider id must not be empty"
  else
    let? claims := wildcard_claims provider p manifest_encodings [] [] in
    exact_claims_loop provider p manifest_encodings exact_claims claims.

(** ** The catalog *)

Inductive DiagnosticLevel : Set := kInfo | kWarning | kError.

Record Diagnostic : Set := mkDiagnostic { d_level : DiagnosticLevel; d_id : bytes; d_message : string }.

(** [sink_] tells whether a sink is installed, [sent] what it was handed. *)
Record ParserClaimCatalog : Set := mkCatalog {
  claims : list ParserClaimEntry; generation : Z; sink_ : bool; sent : list Diagnostic }.

Definition catalog_new (sink : bool) : ParserClaimCatalog := mkCatalog [] 0 sink [].

Definition report (level : DiagnosticLevel) (id : bytes) (message : string) (k : ParserClaimCatalog)
  : ParserClaimCatalog :=
  if sink_ k then mkCatalog (claims k) (generation k) true (sent k ++ [mkDiagnostic level id message])
  else k.

Definition setDiagnosticSink (sink : bool) (k : ParserClaimCatalog) : ParserClaimCatalog :=
  mkCatalog (claims k) (generation k) sink (sent k).

(** The validation loop of [admitClaims]; an error comes with the id it is reported
    under. *)
Fixpoint admit_loop (present : list ParserClaimEntry) (p : ParserClaimProvenance) (batch : list ParserClaim)
    (validated_claims : list ParserClaim) : list ParserClaim + bytes * string :=
  match batch with
  | [] => inl validated_claims
  | c :: batch' =>
    match normalizeAndValidateClaim (set_provenance c p) with
    | Err error => inr ([], error)
    | Ok validated =>
      if existsb (fun c' => bool_decide (identity c' = identity validated)) validated_claims
         || existsb (fun e => bool_decide (identity (claim e) = identity validated)) present
      then inr (provider_id validated, "duplicate parser claim identity: " +:+ claimIdentity validated)
      else admit_loop present p batch' (validated_claims ++ [validated])
    end
  end.

Definition admitClaims (batch : list ParserClaim) (p : ParserClaimProvenance) (provider_generation : Z)
    (k : ParserClaimCatalog) : Expected unit * ParserClaimCatalog :=
  match admit_loop (claims k) p batch [] with
  | inr (id, error) => (Err error, report kError id error k)
  | inl validated_claims =>
    (Ok tt,
     mkCatalog (claims k ++ map (fun c => mkEntry c provider_generation) validated_claims)
       (if bool_decide (validated_claims = []) then generation k else wrap 64 (generation k + 1))
       (sink_ k) (sent k))
  end.

Definition admitParserPlugin (provider : bytes) (manifest_encodings : list bytes)
    (exact_claims : list ParserPluginExactClaim) (p : ParserClaimProvenance) (provider_generation : Z)
    (k : ParserClaimCatalog) : Expected unit * ParserClaimCatalog :=
  match synthesizeParserPluginClaims provider manifest_encodings exact_claims p with
  | Err error => (Err error, report kError provider error k)
  | Ok batch => admitClaims batch p provider_generation k
  end.

Definition removeProvider (provider : bytes) (k : ParserClaimCatalog) : bool * ParserClaimCatalog :=
  let kept := List.filter (fun e => negb (bytes_eqb (provider_id (claim e)) provider)) (claims k) in
  if (length kept =? length (claims k))%nat then (false, k)
  else (true, mkCatalog kept (wrap 64 (generation k + 1)) (sink_ k) (sent k)).

Definition clear (k : ParserClaimCatalog) : ParserClaimCatalog :=
  if bool_decide (claims k = []) then k
  else mkCatalog [] (wrap 64 (generation k + 1)) (sink_ k) (sent k).

(** The operations as data, for histories of a catalog. *)
Inductive CatalogOp : Set :=
  | OpAdmit (batch : list ParserClaim) (p : ParserClaimProvenance) (g : Z)
  | OpPlugin (provider : bytes) (encodings : list bytes) (exact : list ParserPluginExactClaim)
      (p : ParserClaimProvenance) (g : Z)
  | OpRemove (provider : bytes)
  | OpClear
  | OpSink (sink : bool).

Definition catalog_step (op : CatalogOp) (k : ParserClaimCatalog) : ParserClaimCatalog :=
  match op with
  | OpAdmit batch p g => snd (admitClaims batch p g k)
  | OpPlugin provider encodings exact p g => snd (admitParserPlugin provider encodings exact p g k)
  | OpRemove provider => snd (removeProvider provider k)
  | OpClear => clear k
  | OpSink sink => setDiagnosticSink sink k
  end.

Definition catalog_run (ops : list CatalogOp) (k : ParserClaimCatalog) : ParserClaimCatalog :=
  fold_left (fun k op => catalog_step op k) ops k.

(** A claim is valid when the validation accepts it and changes nothing. *)
Definition valid_claim (c : ParserClaim) : Prop := normalizeAndValidateClaim c = Ok c.

Definition identities (es : list ParserClaimEntry) : list (bytes * bytes) := map (fun e => identity (claim e)) es.

Definition catalog_ok (k : ParserClaimCatalog) : Prop :=
  Forall (fun e => valid_claim (claim e)) (claims k) /\ NoDup (identities (claims k)) /\
  in_u 64 (generation k).

(** ** Normalization *)

Lemma Ok_inj {A} (a b : A) : Ok a = Ok b -> a = b.
Proof. by intros [= ->]. Qed.

Lemma normalize_ros2msg_idem name name' : normalize_ros2msg name = Ok name' -> normalize_ros2msg name' = Ok name'.
Proof.
  unfold normalize_ros2msg at 1. intros H.
  destruct (find_char_view (ch "/") name) as [[E _]|(pkg & rest & E & -> & Hpkg & Htk & Hdr)];
    rewrite E in H; [done|]. rewrite Hdr, Htk in H.
  destruct ((length pkg =? 0)%nat || _) eqn:Eg in H; [done|].
  destruct (find_char_view (ch "/") rest) as [[E2 Hr]|(l2 & tl2 & E2 & -> & Hl2 & Htk2 & Hdr2)]; rewrite E2 in H.
  - apply Ok_inj in H as <-.
    change (pkg ++ _) with (pkg ++ ch "/" :: (str "msg" ++ ch "/" :: rest)).
    unfold normalize_ros2msg. rewrite find_char_app by done. cbv zeta. rewrite drop_app_first.
    rewrite find_char_app by (by_compute). rewrite !take_app_first, drop_app_first.
    rewrite (proj2 (find_char_none _ _)) by done.
    apply orb_false_elim in Eg as [E0 E1]. apply Nat.eqb_neq in E0, E1. rewrite length_app in *. cbn [length app str] in *.
    rewrite (proj2 (Nat.eqb_neq _ _)) by done. rewrite (proj2 (Nat.eqb_neq _ _)) by (cbn; lia).
    rewrite (proj2 (Nat.eqb_neq _ _)) by (cbn; destruct rest; cbn in *; lia). done.
  - destruct (negb _ || _ || _) eqn:E3 in H; [done|]. apply Ok_inj in H as <-. unfold normalize_ros2msg.
    by rewrite E, Hdr, Eg, E2, E3.
Qed.

Lemma normalize_protobuf_idem name name' :
  normalize_protobuf name = Ok name' -> normalize_protobuf name' = Ok name'.
Proof.
  unfold normalize_protobuf at 1. set (n := match name with [] => _ | _ => _ end). cbv zeta.
  destruct (isProtobufFullName n) eqn:E; [|done]. intros [= <-]. clearbody n. unfold normalize_protobuf.
  destruct n as [|c n]; [done|]. destruct (byte_eqb c (ch ".")) eqn:Ec; [|by rewrite E].
  apply byte_eqb_eq in Ec as ->. unfold isProtobufFullName in E. cbn [split_on] in E.
  rewrite byte_eqb_refl in E. cbn in E. done.
Qed.

(** A normalized type name is its own normalization. *)
Lemma normalize_type_idem e name name' :
  normalizeParserTypeName e name = Ok name' -> normalizeParserTypeName e name' = Ok name'.
Proof.
  unfold normalizeParserTypeName at 1. intros H.
  destruct (negb (isRegisteredParserEncoding e)) eqn:Ee; [done|].
  destruct (bool_decide (name = [])) eqn:En; [done|].
  destruct (bytes_eqb name (str "*")) eqn:Es.
  { injection H as <-. unfold normalizeParserTypeName. by rewrite Ee, En, Es. }
  unfold normalizeParserTypeName. rewrite Ee.
  destruct (bytes_eqb e (str "ros2msg")) eqn:E1; [|destruct (bytes_eqb e (str "protobuf")) eqn:E2].
  - apply normalize_ros2msg_idem in H. rewrite bool_decide_eq_false_2 by (by intros ->).
    by destruct (bytes_eqb name' _).
  - apply normalize_protobuf_idem in H. rewrite bool_decide_eq_false_2 by (by intros ->).
    by destruct (bytes_eqb name' _).
  - injection H as <-. by rewrite En, Es.
Qed.

Lemma set_type_name_same c : set_type_name c (type_name c) = c.
Proof. by destruct c. Qed.

(** What validation returns: the claim with its type name normalized. *)
Lemma validate_shape c c' :
  normalizeAndValidateClaim c = Ok c' ->
  exists t, normalizeParserTypeName (encoding c) (type_name c) = Ok t /\ c' = set_type_name c t.
Proof.
  unfold normalizeAndValidateClaim. intros H. repeat (destruct (bool_decide _) in H; [done|]).
  repeat (match type of H with (if ?b then Err _ else _) = _ => destruct b; [done|] end).
  destruct (normalizeParserTypeName _ _) as [t|]; [|done]. cbn [ebind] in H. exists t. split; [done|].
  repeat (match type of H with (if ?b then Err _ else _) = _ => destruct b; [done|] end). congruence.
Qed.

Lemma validate_idem c c' : normalizeAndValidateClaim c = Ok c' -> valid_claim c'.
Proof.
  intros H. destruct (validate_shape c c' H) as (t & Ht & ->). revert H.
  unfold valid_claim, normalizeAndValidateClaim. rewrite Ht.
  replace (encoding (set_type_name c t)) with (encoding c) by done.
  replace (type_name (set_type_name c t)) with t by done.
  rewrite (normalize_type_idem _ _ _ Ht). done.
Qed.

Lemma validate_identity c c' : normalizeAndValidateClaim c = Ok c' -> identity c' = identity c.
Proof. intros H. by destruct (validate_shape c c' H) as (t & _ & ->). Qed.

(** Validation does not look at the provenance. *)
Lemma validate_set_provenance c p :
  normalizeAndValidateClaim (set_provenance c p)
  = (let? c' := normalizeAndValidateClaim c in Ok (set_provenance c' p)).
Proof.
  unfold normalizeAndValidateClaim. destruct c as [enc ty fl ot ds pr cl prio pv].
  cbn [set_provenance provider_id claim_id priority encoding type_name route_flags].
  repeat (match goal with |- (if ?b then _ else _) = _ => destruct b; [done|] end).
  destruct (normalizeParserTypeName _ _) as [t|]; [|done]. cbn [ebind]. unfold has_route, set_type_name, set_provenance.
  cbn [route_flags type_name object_type schema_digests encoding provider_id claim_id priority provenance].
  repeat (match goal with |- (if ?b then _ else _) = _ => destruct b; [done|] end). done.
Qed.

Lemma valid_set_provenance c p : valid_claim c -> valid_claim (set_provenance c p).
Proof. unfold valid_claim. intros H. by rewrite validate_set_provenance, H. Qed.

(** ** Admission *)

Lemma existsb_false {A} (f : A -> bool) l : existsb f l = false <-> Forall (fun x => f x = false) l.
Proof.
  induction l as [|x l IH]; cbn; [done|]. rewrite orb_false_iff, Forall_cons, IH. done.
Qed.

Lemma fresh_claims c l :
  existsb (fun c' => bool_decide (identity c' = identity c)) l = false <-> identity c ∉ map identity l.
Proof.
  rewrite existsb_false, Forall_forall, list_elem_of_fmap. setoid_rewrite bool_decide_eq_false.
  split; [intros H (y & Hy & Hin); by apply (H y)|intros H y Hin He; apply H; eauto].
Qed.

Lemma fresh_entries c es :
  existsb (fun e => bool_decide (identity (claim e) = identity c)) es = false <-> identity c ∉ identities es.
Proof.
  unfold identities. rewrite existsb_false, Forall_forall, list_elem_of_fmap.
  setoid_rewrite bool_decide_eq_false.
  split; [intros H (y & Hy & Hin); by apply (H y)|intros H y Hin He; apply H; eauto].
Qed.

Definition new_to (present : list ParserClaimEntry) (cs : list ParserClaim) : Prop :=
  Forall valid_claim cs /\ NoDup (map identity cs) /\ Forall (fun c => identity c ∉ identities present) cs.

Lemma new_to_nil present : new_to present [].
Proof. split_and!; constructor. Qed.

Lemma new_to_snoc present cs c :
  new_to present cs -> valid_claim c -> identity c ∉ map identity cs -> identity c ∉ identities present ->
  new_to present (cs ++ [c]).
Proof.
  intros (Hv & Hn & Hf) Hc Hc1 Hc2. unfold new_to. rewrite !Forall_app, map_app, NoDup_app. cbn.
  split_and!; auto.
  - intros i Hi Hin. apply list_elem_of_singleton in Hin as ->. done.
  - apply NoDup_singleton.
Qed.

(** The loop accepts exactly batches of new, valid claims. *)
Lemma admit_loop_new present p batch acc r :
  new_to present acc -> admit_loop present p batch acc = inl r -> new_to present r.
Proof.
  revert acc. induction batch as [|c batch IH]; intros acc Ha; cbn [admit_loop]; [by intros [= <-]|].
  destruct (normalizeAndValidateClaim _) as [v|] eqn:Ev; [|done].
  destruct (_ || _) eqn:Ed; [done|]. apply orb_false_elim in Ed as [E1%fresh_claims E2%fresh_entries].
  apply IH. apply new_to_snoc; eauto using validate_idem.
Qed.

Lemma admit_loop_valid present p batch acc :
  new_to present (acc ++ batch) -> Forall (fun c => provenance c = p) batch ->
  admit_loop present p batch acc = inl (acc ++ batch).
Proof.
  revert acc. induction batch as [|c batch IH]; intros acc Ha Hp; cbn [admit_loop]; [by rewrite app_nil_r|].
  apply Forall_cons in Hp as [Hc Hp].
  assert (set_provenance c p = c) as -> by (by destruct c; cbn in *; subst).
  pose proof Ha as (Hv & Hn & Hf). rewrite Forall_app, Forall_cons in Hv, Hf.
  rewrite map_app, NoDup_app in Hn. cbn in Hn. destruct Hn as (_ & Hn & _).
  unfold valid_claim in Hv. destruct Hv as (_ & -> & _).
  rewrite (proj2 (fresh_claims c acc)), (proj2 (fresh_entries c present)).
  - cbn [orb]. rewrite IH, <-app_assoc; [done|by rewrite <-app_assoc|done].
  - by destruct Hf as (_ & ? & _).
  - intros Hin. apply (Hn _ Hin). left.
Qed.

Lemma generation_changes g : wrap 64 (g + 1) <> g.
Proof.
  intros H. pose proof (wrap_range 64 (g + 1) ltac:(lia)) as Hr. rewrite H in Hr.
  unfold wrap, in_u in *. destruct (Z.eq_dec (g + 1) (2 ^ 64)) as [E|E].
  - rewrite E, Z.mod_same in H by lia. lia.
  - rewrite Z.mod_small in H by lia. lia.
Qed.

Lemma length_filter_eq {A} (f : A -> bool) l : length (List.filter f l) = length l -> List.filter f l = l.
Proof.
  induction l as [|x l IH]; cbn; [done|]. destruct (f x); cbn; [intros [= H]; by rewrite IH|].
  intros H. pose proof (List.filter_length_le f l). lia.
Qed.

Lemma identities_app es es' : identities (es ++ es') = identities es ++ identities es'.
Proof. apply map_app. Qed.

Lemma identities_new cs g : identities (map (fun c => mkEntry c g) cs) = map identity cs.
Proof. unfold identities. by rewrite List.map_map. Qed.

Lemma catalog_ok_append k cs g n s d :
  catalog_ok k -> new_to (claims k) cs -> in_u 64 n ->
  catalog_ok (mkCatalog (claims k ++ map (fun c => mkEntry c g) cs) n s d).
Proof.
  intros (Hv & Hn & _) (Hv' & Hn' & Hf) Hg. unfold catalog_ok.
  cbn [claims generation]. rewrite Forall_app, identities_app, identities_new, NoDup_app.
  split_and!; auto.
  - by apply Forall_map.
  - intros i Hi (c & -> & Hc)%list_elem_of_fmap. rewrite Forall_forall in Hf. by apply (Hf c).
Qed.

(** An admission: all or nothing. *)
Lemma admit_cases batch p g k :
  (exists e k', admitClaims batch p g k = (Err e, k') /\ claims k' = claims k /\ generation k' = generation k) \/
  (exists cs k', admitClaims batch p g k = (Ok tt, k') /\ admit_loop (claims k) p batch [] = inl cs /\
    new_to (claims k) cs /\ claims k' = claims k ++ map (fun c => mkEntry c g) cs /\
    generation k' = (if bool_decide (cs = []) then generation k else wrap 64 (generation k + 1))).
Proof.
  unfold admitClaims. destruct (admit_loop _ _ _ _) as [cs|[id e]] eqn:El.
  - right. eexists cs, _. split_and!; try done. eapply admit_loop_new; [|done].
    apply new_to_nil.
  - left. unfold report. by destruct (sink_ k); eexists _, _.
Qed.

(** What every operation does to the claims and the generation. *)
Lemma step_cases op k :
  (claims (catalog_step op k) = claims k /\ generation (catalog_step op k) = generation k) \/
  (claims (catalog_step op k) <> claims k /\ generation (catalog_step op k) = wrap 64 (generation k + 1) /\
   ((exists cs g, claims (catalog_step op k) = claims k ++ map (fun c => mkEntry c g) cs /\ new_to (claims k) cs) \/
    (exists keep, claims (catalog_step op k) = List.filter keep (claims k)))).
Proof.
  assert (forall batch p g, let k' := snd (admitClaims batch p g k) in
    (claims k' = claims k /\ generation k' = generation k) \/
    (claims k' <> claims k /\ generation k' = wrap 64 (generation k + 1) /\
     ((exists cs g, claims k' = claims k ++ map (fun c => mkEntry c g) cs /\ new_to (claims k) cs) \/
      (exists keep, claims k' = List.filter keep (claims k))))) as Hadmit.
  { intros batch p g. destruct (admit_cases batch p g k) as [(e & k' & -> & H)|(cs & k' & -> & _ & Hn & Hc & Hg)];
      cbn; [by left|]. rewrite Hc, Hg. case_bool_decide as E; [subst cs; left; by rewrite app_nil_r|right].
    split_and!; [|done|by left; exists cs, g].
    intros He. apply E. apply (f_equal length) in He. rewrite length_app, length_map in He.
    destruct cs; [done|cbn in He; lia]. }
  destruct op as [batch p g|provider encs exact p g|provider| |sink]; cbn [catalog_step]; [apply Hadmit| | | |by left].
  - unfold admitParserPlugin. destruct (synthesizeParserPluginClaims _ _ _ _); [apply Hadmit|].
    left. unfold report. by destruct (sink_ k).
  - unfold removeProvider. destruct (_ =? _)%nat eqn:E; [by left|right]. cbn. apply Nat.eqb_neq in E.
    split_and!; [intros He; by rewrite He in E|done|right; eauto].
  - unfold clear. case_bool_decide as E; [by left|right]. cbn. split_and!; [congruence|done|right].
    exists (fun _ => false). clear. by induction (claims k).
Qed.

Lemma identities_filter_NoDup f es : NoDup (identities es) -> NoDup (identities (List.filter f es)).
Proof.
  induction es as [|e es IH]; [done|]. cbn. intros [Hn Hd]%NoDup_cons.
  destruct (f e); [|auto]. cbn. apply NoDup_cons. split; [|auto].
  intros (e' & He & Hin)%list_elem_of_fmap. apply Hn. apply list_elem_of_fmap. exists e'.
  apply list_elem_of_In, filter_In in Hin as [Hin _]. split; [done|by apply list_elem_of_In].
Qed.

Lemma catalog_ok_step op k : catalog_ok k -> catalog_ok (catalog_step op k).
Proof.
  intros Hk. pose proof Hk as (Hv & Hn & Hg).
  destruct (step_cases op k) as [[Hc Hgen]|(_ & Hgen & [(cs & g & Hc & Hnew)|(keep & Hc)])].
  - unfold catalog_ok. by rewrite Hc, Hgen.
  - pose proof (catalog_ok_append k cs g (wrap 64 (generation k + 1)) false [] Hk Hnew ltac:(by apply wrap_range)) as H.
    unfold catalog_ok in *. by rewrite Hc, Hgen.
  - unfold catalog_ok. rewrite Hc, Hgen. split_and!.
    + apply Forall_forall. intros e He. apply list_elem_of_In, filter_In in He as [He _].
      rewrite Forall_forall in Hv. by apply Hv, list_elem_of_In.
    + by apply identities_filter_NoDup.
    + by apply wrap_range.
Qed.

Lemma catalog_ok_new sink : catalog_ok (catalog_new sink).
Proof. split_and!; [constructor..|done]. Qed.

Lemma catalog_ok_run ops k : catalog_ok k -> catalog_ok (catalog_run ops k).
Proof.
  unfold catalog_run. revert k. induction ops as [|op ops IH]; intros k Hk; cbn; [done|].
  by apply IH, catalog_ok_step.
Qed.

(** ** Claims of a plugin *)

Definition plugin_claims (provider : bytes) (p : ParserClaimProvenance) (cs : list ParserClaim) : Prop :=
  new_to [] cs /\ Forall (fun c => provider_id c = provider /\ provenance c = p) cs.

Lemma plugin_claims_snoc provider p cs c :
  plugin_claims provider p cs -> valid_claim c -> provider_id c = provider -> provenance c = p ->
  existsb (fun c' => bool_decide (identity c' = identity c)) cs = false -> plugin_claims provider p (cs ++ [c]).
Proof.
  intros [Hn Hf] Hv Hp Hq Hd%fresh_claims. split; [|rewrite Forall_app; by repeat constructor].
  apply new_to_snoc; [done..|apply not_elem_of_nil].
Qed.

Lemma wildcard_claims_ok provider p encs seen acc r :
  plugin_claims provider p acc -> wildcard_claims provider p encs seen acc = Ok r -> plugin_claims provider p r.
Proof.
  revert seen acc. induction encs as [|e encs IH]; intros seen acc Ha; cbn [wildcard_claims]; [by intros [= <-]|].
  destruct (normalizeAndValidateClaim _) as [v|] eqn:Ev; [|done]. cbn [ebind].
  destruct (existsb (fun s => bytes_eqb s e) seen); [done|]. cbn [orb]. destruct (existsb _ acc) eqn:Ed; [done|].
  apply IH. destruct (validate_shape _ _ Ev) as (t & _ & Hv).
  apply plugin_claims_snoc; eauto using validate_idem; by rewrite Hv.
Qed.

Lemma exact_claim_ok provider p encs exact c :
  exact_claim provider p encs exact = Ok (Some c) -> valid_claim c /\ provider_id c = provider /\ provenance c = p.
Proof.
  unfold exact_claim.
  repeat (match goal with |- (if ?b then _ else _) = _ -> _ => destruct b; [done|] end).
  destruct (rc_status _ =? ROUTE_STATUS_DECLINED); [by destruct (_ || _)|].
  repeat (match goal with |- (if ?b then _ else _) = _ -> _ => destruct b; [done|] end).
  destruct (normalizeParserTypeName _ _); [|done]. cbn [ebind].
  destruct (normalizeAndValidateClaim _) as [v|] eqn:Ev; [|done]. cbn [ebind]. intros [= <-].
  destruct (validate_shape _ _ Ev) as (t & _ & Hv). split; [by eapply validate_idem|by rewrite Hv].
Qed.

Lemma exact_claims_ok provider p encs exact acc r :
  plugin_claims provider p acc -> exact_claims_loop provider p encs exact acc = Ok r -> plugin_claims provider p r.
Proof.
  revert acc. induction exact as [|x exact IH]; intros acc Ha; cbn [exact_claims_loop]; [by intros [= <-]|].
  destruct (exact_claim provider p encs x) as [[c|]|] eqn:Ex; cbn [ebind]; [|by apply IH|done].
  destruct (existsb _ acc) eqn:Ed; [done|]. apply exact_claim_ok in Ex as (? & ? & ?).
  apply IH. by apply plugin_claims_snoc.
Qed.

Lemma synthesize_ok provider encs exact p r :
  synthesizeParserPluginClaims provider encs exact p = Ok r -> plugin_claims provider p r.
Proof.
  unfold synthesizeParserPluginClaims. case_bool_decide; [done|].
  destruct (wildcard_claims _ _ _ _ _) as [ws|] eqn:Ew; [|done]. cbn [ebind].
  apply exact_claims_ok. eapply wildcard_claims_ok; [|done].
  split; [apply new_to_nil|constructor].
Qed.

Definition without (provider : bytes) (es : list ParserClaimEntry) : list ParserClaimEntry :=
  List.filter (fun e => negb (bytes_eqb (provider_id (claim e)) provider)) es.

Lemma removeProvider_claims provider k : claims (snd (removeProvider provider k)) = without provider (claims k).
Proof.
  unfold removeProvider, without. destruct (_ =? _)%nat eqn:E; [|done]. cbn.
  apply Nat.eqb_eq in E. by rewrite length_filter_eq.
Qed.

Lemma without_identity provider es c : provider_id c = provider -> identity c ∉ identities (without provider es).
Proof.
  intros Hc (e & He & Hin)%list_elem_of_fmap. apply list_elem_of_In, filter_In in Hin as [_ Hb].
  unfold identity in He. injection He as He _. rewrite <-He, Hc, bytes_eqb_refl in Hb. done.
Qed.

(** The claims of a provider are admitted after it was removed. *)
Lemma readmission provider p cs g k :
  catalog_ok k -> plugin_claims provider p cs ->
  let '(r, k') := admitClaims cs p g (snd (removeProvider provider k)) in
  r = Ok tt /\ catalog_ok k' /\ claims k' = without provider (claims k) ++ map (fun c => mkEntry c g) cs.
Proof.
  intros Hk [(Hv & Hn & _) Hp]. set (k1 := snd (removeProvider provider k)).
  assert (claims k1 = without provider (claims k)) as Hc1 by apply removeProvider_claims.
  assert (admit_loop (claims k1) p cs [] = inl cs) as Hl.
  { apply (admit_loop_valid (claims k1) p cs []); [|eapply Forall_impl; [apply Hp|by intros ? []]].
    split_and!; [done..|]. eapply Forall_impl; [apply Hp|]. intros c [Hc _]. rewrite Hc1.
    by apply without_identity. }
  pose proof (catalog_ok_step (OpAdmit cs p g) k1 (catalog_ok_step (OpRemove provider) k Hk)) as Hok.
  cbn [catalog_step] in Hok. unfold admitClaims in *. rewrite Hl in *. cbn [snd claims] in *.
  rewrite Hc1 in Hok |- *. by split_and!.
Qed.

(** ** Properties *)

(** C32 Whatever sequence of admissions, plugin admissions, removals and clears a
    catalog went through, its claims are valid and normalized, no identity occurs
    twice, and the generation counter moves exactly when the claims change: a
    failed admission leaves both alone, so a cache keyed by the generation is never
    stale by one operation. *)
Theorem catalog_invariant ops sink op :
  let k := catalog_run ops (catalog_new sink) in
  catalog_ok k /\
  (generation (catalog_step op k) = generation k <-> claims (catalog_step op k) = claims k).
Proof.
  intros k. pose proof (catalog_ok_run ops _ (catalog_ok_new sink)) as Hk. split; [done|].
  destruct (step_cases op k) as [[-> ->]|(Hc & -> & _)]; [done|].
  split; [intros H; by destruct (generation_changes (generation k))|done].
Qed.

(** Reloading a plugin always works: when its claims can be synthesized, they
    are admitted after its provider was removed, whatever the catalog holds; the
    catalog then has the other providers' claims, unchanged and in order, followed
    by the plugin's claims, each valid, of that provider, provenance and generation. *)
Theorem plugin_reload provider encs exact p g k cs :
  catalog_ok k -> synthesizeParserPluginClaims provider encs exact p = Ok cs ->
  let '(r, k') := admitParserPlugin provider encs exact p g (snd (removeProvider provider k)) in
  r = Ok tt /\ catalog_ok k' /\
  claims k' = without provider (claims k) ++ map (fun c => mkEntry c g) cs /\
  Forall (fun c => valid_claim c /\ provider_id c = provider /\ provenance c = p) cs.
Proof.
  intros Hk Hs. pose proof (synthesize_ok _ _ _ _ _ Hs) as Hc. pose proof (readmission provider p cs g k Hk Hc) as H.
  unfold admitParserPlugin. rewrite Hs. destruct (admitClaims _ _ _ _) as [r k']. destruct H as (Hr & Hok & Hcl).
  split_and!; [done..|]. destruct Hc as [(Hv & _) Hp]. apply Forall_and. by split.
Qed.

Definition demo_exact : list ParserPluginExactClaim :=
  [mkExact (str "ros2msg") (str "sensor_msgs/Image") (mkClassification 3 0 0 1) []].

Definition demo_encodings : list bytes := [str "ros2msg"; str "json"].

Definition demo_catalog : ParserClaimCatalog :=
  snd (admitParserPlugin (str "img") demo_encodings demo_exact kBundled 7 (catalog_new true)).

Definition demo_claims : list ParserClaim :=
  match synthesizeParserPluginClaims (str "img") demo_encodings demo_exact kBundled with
  | Ok cs => cs
  | Err _ => []
  end.

Lemma plugin_reload_witness :
  length (claims demo_catalog) = 3%nat /\
  let '(r, k') := admitParserPlugin (str "img") demo_encodings demo_exact kBundled 8
                    (snd (removeProvider (str "img") demo_catalog)) in
  r = Ok tt /\ catalog_ok k' /\
  claims k' = without (str "img") (claims demo_catalog) ++ map (fun c => mkEntry c 8) demo_claims /\
  Forall (fun c => valid_claim c /\ provider_id c = str "img" /\ provenance c = kBundled) demo_claims.
Proof.
  split; [by vm_compute|]. apply plugin_reload; [|vm_compute; reflexivity].
  apply (catalog_ok_step (OpPlugin (str "img") demo_encodings demo_exact kBundled 7)), catalog_ok_new.
Defined.
