(* ===== verification/BuiltinCodec.v ===== *)
(** * BuiltinCodec: objects by their type tag

    [pj_base/src/builtin/builtin_object_codec.cpp] and the object of
    [pj_base/builtin/builtin_object.hpp]: a tag and a value.  A value is reached through
    [get<T>], which checks the tag, so an object is one of its alternatives; sharing between
    copies is not observable here. *)

From stdpp Require Import pretty.
From S2P Require Import Prelude Doubles TimeMath ProtobufWire FieldLoop GeometryCodec ColorCodec MessageCodecs SensorCodecs PointCodecs SceneCodecs OverlayCodecs ClaimCatalog.

Inductive BuiltinObject : Type :=
  | NoObject
  | OImage (m : Image)
  | OPointCloud (m : PointCloud)
  | ODepthImage (m : DepthImage)
  | OImageAnnotations (m : ImageAnnotations)
  | OFrameTransforms (m : list FrameTransform)
  | OOccupancyGrid (m : OccupancyGrid)
  | OCompressedPointCloud (m : CompressedPointCloud)
  | OMesh3D (m : Mesh3D)
  | OVideoFrame (m : VideoFrame)
  | OSceneEntities (m : SceneEntities)
  | ORobotDescription (m : RobotDescription)
  | OCameraInfo (m : CameraInfo)
  | OOccupancyGridUpdate (m : OccupancyGridUpdate)
  | OLog (m : Log)
  | OPosesInFrame (m : PosesInFrame)
  | OVoxelGrid (m : VoxelGrid)
  | OPlotMarkers (m : PlotMarkers)
  | OGridMap (m : GridMap).

(** [BuiltinObjectTraits] and [typeOf] *)
Definition typeOf (object : BuiltinObject) : Z :=
  match object with
  | NoObject => 0
  | OImage _ => 1
  | OPointCloud _ => 3
  | ODepthImage _ => 4
  | OImageAnnotations _ => 5
  | OFrameTransforms _ => 6
  | OOccupancyGrid _ => 7
  | OCompressedPointCloud _ => 8
  | OMesh3D _ => 9
  | OVideoFrame _ => 10
  | OSceneEntities _ => 11
  | ORobotDescription _ => 13
  | OCameraInfo _ => 14
  | OOccupancyGridUpdate _ => 15
  | OLog _ => 16
  | OPosesInFrame _ => 17
  | OVoxelGrid _ => 18
  | OPlotMarkers _ => 19
  | OGridMap _ => 20
  end.

Definition serializeBuiltinObject (object : BuiltinObject) : Expected bytes :=
  match object with
  | NoObject => Err "cannot serialize builtin object with type kNone"
  | OImage m => Ok (serializeImage m)
  | OPointCloud m => Ok (serializePointCloud m)
  | ODepthImage m => Ok (serializeDepthImage m)
  | OImageAnnotations m => Ok (serializeImageAnnotations m)
  | OFrameTransforms m => Ok (serializeFrameTransforms m)
  | OOccupancyGrid m => Ok (serializeOccupancyGrid m)
  | OCompressedPointCloud m => Ok (serializeCompressedPointCloud m)
  | OMesh3D m => Ok (serializeMesh3D m)
  | OVideoFrame m => Ok (serializeVideoFrame m)
  | OSceneEntities m => Ok (serializeSceneEntities m)
  | ORobotDescription m => Ok (serializeRobotDescription m)
  | OCameraInfo m => Ok (serializeCameraInfo m)
  | OOccupancyGridUpdate m => Ok (serializeOccupancyGridUpdate m)
  | OLog m => Ok (serializeLog m)
  | OPosesInFrame m => Ok (serializePosesInFrame m)
  | OVoxelGrid m => Ok (serializeVoxelGrid m)
  | OPlotMarkers m => Ok (serializePlotMarkers m)
  | OGridMap m => Ok (serializeGridMap m)
  end.

(** [deserializeAs]: the empty buffer is the default message, also for the codecs that reject it. *)
Definition deserializeAs {T} (wrap : T -> BuiltinObject) (default : T) (deserialize : bytes -> Expected T) (data : bytes)
  : Expected BuiltinObject :=
  if eof data then Ok (wrap default)
  else match deserialize data with Ok m => Ok (wrap m) | Err e => Err e end.

Definition deserializeBuiltinObject (type : Z) (data : bytes) : Expected BuiltinObject :=
  if type =? 0 then Err "cannot deserialize builtin object with type kNone"
  else if type =? 1 then deserializeAs OImage image_default deserializeImage data
  else if type =? 3 then deserializeAs OPointCloud point_cloud_default deserializePointCloud data
  else if type =? 4 then deserializeAs ODepthImage depth_image_default deserializeDepthImage data
  else if type =? 5 then deserializeAs OImageAnnotations image_annotations_default deserializeImageAnnotations data
  else if type =? 6 then deserializeAs OFrameTransforms [] deserializeFrameTransforms data
  else if type =? 7 then deserializeAs OOccupancyGrid occupancy_grid_default deserializeOccupancyGrid data
  else if type =? 8 then deserializeAs OCompressedPointCloud compressed_point_cloud_default deserializeCompressedPointCloud data
  else if type =? 9 then deserializeAs OMesh3D mesh3d_default deserializeMesh3D data
  else if type =? 10 then deserializeAs OVideoFrame video_frame_default deserializeVideoFrame data
  else if type =? 11 then deserializeAs OSceneEntities scene_entities_default deserializeSceneEntities data
  else if type =? 13 then deserializeAs ORobotDescription robot_description_default deserializeRobotDescription data
  else if type =? 14 then deserializeAs OCameraInfo camera_info_default deserializeCameraInfo data
  else if type =? 15 then deserializeAs OOccupancyGridUpdate occupancy_grid_update_default deserializeOccupancyGridUpdate data
  else if type =? 16 then deserializeAs OLog log_default deserializeLog data
  else if type =? 17 then deserializeAs OPosesInFrame poses_in_frame_default deserializePosesInFrame data
  else if type =? 18 then deserializeAs OVoxelGrid voxel_grid_default deserializeVoxelGrid data
  else if type =? 19 then deserializeAs OPlotMarkers (mkPlotMarkers []) deserializePlotMarkers data
  else if type =? 20 then deserializeAs OGridMap grid_map_default deserializeGridMap data
  else Err ("cannot deserialize unknown builtin object type: " +:+ pretty type).

(** ** Round trips of the alternatives *)

(** What the dispatcher needs of a codec: the bytes decode to the value again, or they are empty and
    the value is the default. *)
Class RoundTrips {T} (wf : T -> Prop) (serialize : T -> bytes) (deserialize : bytes -> Expected T) (default : T) : Prop :=
  round_trips m : wf m -> fits (serialize m) ->
    (serialize m = [] /\ m = default) \/ (serialize m <> [] /\ deserialize (serialize m) = Ok m).

Lemma round_trips_nonempty {T} (wf : T -> Prop) serialize deserialize default :
  (forall m, serialize m <> []) -> (forall m, wf m -> fits (serialize m) -> deserialize (serialize m) = Ok m) ->
  RoundTrips wf serialize deserialize default.
Proof. intros Hn Hr m Hwf Hfit. right. auto. Qed.

Ltac by_fields H :=
  apply round_trips_nonempty;
  [intros m; apply write_nonempty; [apply _|solve_field_ok]|intros m Hwf Hfit; by_encodes H].

#[export] Instance image_round_trips : RoundTrips image_wf serializeImage deserializeImage image_default.
Proof.
  intros m Hwf Hfit. right. assert (serializeImage m <> []) as Hn.
  { destruct m as [? ? ? ? ? ? [?|] [?|] ? ?]; apply write_nonempty; try apply _; solve_field_ok. }
  split; [done|]. apply deserialize_encodes; [by apply encodes_image|done|exact Hn].
Qed.
#[export] Instance point_cloud_round_trips : RoundTrips point_cloud_wf serializePointCloud deserializePointCloud point_cloud_default.
Proof. by_fields encodes_point_cloud. Qed.
#[export] Instance depth_image_round_trips : RoundTrips depth_image_wf serializeDepthImage deserializeDepthImage depth_image_default.
Proof. by_fields encodes_depth_image. Qed.
#[export] Instance image_annotations_round_trips : RoundTrips image_annotations_wf serializeImageAnnotations deserializeImageAnnotations image_annotations_default.
Proof.
  intros m Hwf Hfit. destruct (decide (serializeImageAnnotations m = [])) as [Hn|Hn].
  - left. split; [done|]. by apply annotations_written_nil.
  - right. split; [done|]. by apply annotations_written.
Qed.
#[export] Instance frame_transforms_round_trips : RoundTrips (Forall frame_transform_wf) serializeFrameTransforms deserializeFrameTransforms [].
Proof.
  intros m Hwf Hfit. by apply frame_transforms_written.
Qed.
#[export] Instance occupancy_grid_round_trips : RoundTrips occupancy_grid_wf serializeOccupancyGrid deserializeOccupancyGrid occupancy_grid_default.
Proof. by_fields encodes_occupancy_grid. Qed.
#[export] Instance compressed_point_cloud_round_trips : RoundTrips (fun m => in_s 64 (cpc_timestamp_ns m)) serializeCompressedPointCloud deserializeCompressedPointCloud compressed_point_cloud_default.
Proof. by_fields encodes_compressed_point_cloud. Qed.
#[export] Instance mesh3d_round_trips : RoundTrips mesh3d_wf serializeMesh3D deserializeMesh3D mesh3d_default.
Proof. by_fields encodes_mesh3d. Qed.
#[export] Instance video_frame_round_trips : RoundTrips (fun m => in_s 64 (vf_timestamp_ns m)) serializeVideoFrame deserializeVideoFrame video_frame_default.
Proof. by_fields encodes_video_frame. Qed.
#[export] Instance scene_entities_round_trips : RoundTrips scene_entities_wf serializeSceneEntities deserializeSceneEntities scene_entities_default.
Proof.
  intros m Hwf Hfit. destruct (decide (serializeSceneEntities m = [])) as [Hn|Hn].
  - left. split; [done|]. by apply scene_written_nil.
  - right. split; [done|]. by apply scene_written.
Qed.
#[export] Instance robot_description_round_trips : RoundTrips (fun m => in_s 64 (rd_timestamp_ns m)) serializeRobotDescription deserializeRobotDescription robot_description_default.
Proof. by_fields encodes_robot_description. Qed.
#[export] Instance camera_info_round_trips : RoundTrips camera_info_wf serializeCameraInfo deserializeCameraInfo camera_info_default.
Proof. by_fields encodes_camera_info. Qed.
#[export] Instance occupancy_grid_update_round_trips : RoundTrips occupancy_grid_update_wf serializeOccupancyGridUpdate deserializeOccupancyGridUpdate occupancy_grid_update_default.
Proof. by_fields encodes_occupancy_grid_update. Qed.
#[export] Instance log_round_trips : RoundTrips (fun m => in_s 64 (log_timestamp_ns m)) serializeLog deserializeLog log_default.
Proof. by_fields encodes_log. Qed.
#[export] Instance poses_in_frame_round_trips : RoundTrips poses_in_frame_wf serializePosesInFrame deserializePosesInFrame poses_in_frame_default.
Proof. by_fields encodes_poses_in_frame. Qed.
#[export] Instance voxel_grid_round_trips : RoundTrips voxel_grid_wf serializeVoxelGrid deserializeVoxelGrid voxel_grid_default.
Proof. by_fields encodes_voxel_grid. Qed.
#[export] Instance plot_markers_round_trips : RoundTrips (fun m => Forall plot_marker_wf (pms_markers m)) serializePlotMarkers deserializePlotMarkers (mkPlotMarkers []).
Proof.
  intros m Hwf Hfit. destruct (decide (serializePlotMarkers m = [])) as [Hn|Hn].
  - left. split; [done|]. by apply markers_written_nil.
  - right. split; [done|]. by apply markers_written.
Qed.
#[export] Instance grid_map_round_trips : RoundTrips (fun m => grid_map_wf m /\ validateLayout m (negb (length (gm_data m) =? 0)%nat) = Ok tt) serializeGridMap deserializeGridMap grid_map_default.
Proof.
  apply round_trips_nonempty; [intros m; apply write_nonempty; [apply _|solve_field_ok]|]. intros m [Hwf Hl] Hfit.
  unfold deserializeGridMap. rewrite deserialize_grid_map_written by done. cbn [ebind]. by rewrite Hl.
Qed.

(** A value at the width of its C++ types; a grid map has a layout its decoder accepts. *)
Definition object_wf (object : BuiltinObject) : Prop :=
  match object with
  | NoObject => False
  | OImage m => image_wf m
  | OPointCloud m => point_cloud_wf m
  | ODepthImage m => depth_image_wf m
  | OImageAnnotations m => image_annotations_wf m
  | OFrameTransforms m => Forall frame_transform_wf m
  | OOccupancyGrid m => occupancy_grid_wf m
  | OCompressedPointCloud m => in_s 64 (cpc_timestamp_ns m)
  | OMesh3D m => mesh3d_wf m
  | OVideoFrame m => in_s 64 (vf_timestamp_ns m)
  | OSceneEntities m => scene_entities_wf m
  | ORobotDescription m => in_s 64 (rd_timestamp_ns m)
  | OCameraInfo m => camera_info_wf m
  | OOccupancyGridUpdate m => occupancy_grid_update_wf m
  | OLog m => in_s 64 (log_timestamp_ns m)
  | OPosesInFrame m => poses_in_frame_wf m
  | OVoxelGrid m => voxel_grid_wf m
  | OPlotMarkers m => Forall plot_marker_wf (pms_markers m)
  | OGridMap m => grid_map_wf m /\ validateLayout m (negb (length (gm_data m) =? 0)%nat) = Ok tt
  end.

(** ** Dispatch *)

Lemma deserializeAs_written {T} (wf : T -> Prop) serialize deserialize default `{Hr : !RoundTrips wf serialize deserialize default}
    wrap m :
  wf m -> fits (serialize m) -> deserializeAs wrap default deserialize (serialize m) = Ok (wrap m).
Proof.
  intros Hwf Hfit. unfold deserializeAs. destruct (round_trips m Hwf Hfit) as [[-> ->]|[Hn ->]]; [done|].
  by destruct (serialize m).
Qed.

Lemma deserializeAs_tag {T} (wrap : T -> BuiltinObject) tag default deserialize data o :
  (forall m, typeOf (wrap m) = tag) -> deserializeAs wrap default deserialize data = Ok o -> typeOf o = tag.
Proof. unfold deserializeAs. intros Ht H. repeat case_match; by simplify_eq. Qed.

Lemma deserializeAs_empty {T} (wrap : T -> BuiltinObject) default deserialize :
  deserializeAs wrap default deserialize [] = Ok (wrap default).
Proof. done. Qed.

(** The tags with a codec, in the order of the dispatcher. *)
Lemma deserialize_cases type data :
  isKnownObjectType type = true \/
  deserializeBuiltinObject type data = Err (if type =? 0 then "cannot deserialize builtin object with type kNone"
    else "cannot deserialize unknown builtin object type: " +:+ pretty type).
Proof.
  unfold deserializeBuiltinObject. destruct (Z.eqb_spec type 0) as [->|]; [by right|].
  repeat match goal with |- context [if type =? ?k then _ else _] => destruct (Z.eqb_spec type k) as [->|]; [left; by vm_compute|] end.
  by right.
Qed.

Ltac known_tag H type k :=
  destruct (Z.eqb_spec type k) as [->|];
    [first [eapply deserializeAs_tag in H; [exact H|done] | discriminate H]|].

Lemma deserialize_type type data o : deserializeBuiltinObject type data = Ok o -> typeOf o = type.
Proof.
  intros H. unfold deserializeBuiltinObject in H.
  do 20 match type of H with context [if type =? ?k then _ else _] => known_tag H type k | _ => idtac end. done.
Qed.

(** C31 Type tags are respected: an object decoded under a tag carries that tag; the tags that can be
    decoded are exactly the ones the claim catalog knows, and for each of them the empty
    buffer decodes; serialization fails on the empty object only. *)
Theorem builtin_tags_respected :
  (forall type data o, deserializeBuiltinObject type data = Ok o -> typeOf o = type) /\
  (forall type, isKnownObjectType type = true <-> exists data o, deserializeBuiltinObject type data = Ok o) /\
  (forall type, isKnownObjectType type = true -> exists o, deserializeBuiltinObject type [] = Ok o) /\
  (forall o, (exists e, serializeBuiltinObject o = Err e) <-> o = NoObject).
Proof.
  assert (forall type, isKnownObjectType type = true -> exists o, deserializeBuiltinObject type [] = Ok o) as Hk.
  { intros type H. unfold deserializeBuiltinObject. destruct (Z.eqb_spec type 0) as [->|]; [by vm_compute in H|].
    repeat match goal with |- context [if type =? ?k then _ else _] => destruct (Z.eqb_spec type k) as [->|]; [by eexists|] end.
    exfalso. unfold isKnownObjectType, builtin_name, builtin_names in H. cbn [List.find fst] in H.
    repeat match type of H with context [?k =? type] => rewrite (proj2 (Z.eqb_neq k type)) in H by congruence end.
    cbn in H. destruct (type =? 0); [done|]. by apply bool_decide_eq_true_1 in H as [= <-]. }
  split_and!.
  - exact deserialize_type.
  - intros type. split; [intros (o & Ho)%Hk; by exists [], o|]. intros (data & o & H).
    destruct (deserialize_cases type data) as [|E]; [done|]. by rewrite E in H.
  - exact Hk.
  - intros o. split; [intros [e H]; by destruct o|intros ->; by eexists].
Qed.

Lemma builtin_tags_respected_witness :
  deserializeBuiltinObject 19 [] = Ok (OPlotMarkers (mkPlotMarkers [])) /\ typeOf (OPlotMarkers (mkPlotMarkers [])) = 19.
Proof.
  assert (deserializeBuiltinObject 19 [] = Ok (OPlotMarkers (mkPlotMarkers []))) as H by (vm_compute; reflexivity).
  split; [exact H|]. destruct builtin_tags_respected as [Ht _]. exact (Ht 19 [] _ H).
Defined.

Lemma written_decodes (o : BuiltinObject) (data : bytes) :
  object_wf o -> serializeBuiltinObject o = Ok data -> fits data ->
  deserializeBuiltinObject (typeOf o) data = Ok o.
Proof.
  intros Hwf Hs Hfit. destruct o as [|m|m|m|m|m|m|m|m|m|m|m|m|m|m|m|m|m|m]; cbn [object_wf serializeBuiltinObject typeOf] in *;
    [done|..]; injection Hs as <-;
    unfold deserializeBuiltinObject; cbn [Z.eqb Pos.eqb]; (eapply deserializeAs_written; [apply _|exact Hwf|exact Hfit]).
Qed.

(** C1 The builtin objects survive the type-tagged store: what is serialized from a well-formed object decodes,
    under the object's own tag, to the same object, for all eighteen alternatives, the messages
    whose encoding is the empty buffer included; so no two well-formed objects of a tag have the same bytes.
    Well-formed ([object_wf]): numbers, colours and enumerators are values of their C++ types, the radius of a circle is no NaN
    and, when finite, stays finite doubled (the wire has diameters: see [radius_overflow]), and a grid map passes the layout
    check of the decoder.  The bytes are fewer than 2^64. *)
Theorem builtin_object_roundtrip (o : BuiltinObject) (data : bytes) :
  object_wf o -> serializeBuiltinObject o = Ok data -> fits data ->
  deserializeBuiltinObject (typeOf o) data = Ok o /\
  forall o', object_wf o' -> typeOf o' = typeOf o -> serializeBuiltinObject o' = Ok data -> o' = o.
Proof.
  intros Hwf Hs Hfit. pose proof (written_decodes o data Hwf Hs Hfit) as Hd. split; [exact Hd|].
  intros o' Hwf' Ht Hs'. pose proof (written_decodes o' data Hwf' Hs' Hfit) as Hd'.
  rewrite Ht, Hd in Hd'. by injection Hd' as ->.
Qed.

Definition sample_objects : list BuiltinObject :=
  [OSceneEntities sample_scene; OSceneEntities scene_entities_default; OImageAnnotations sample_annotations;
   OPlotMarkers sample_markers; OPlotMarkers (mkPlotMarkers []); OFrameTransforms []; OLog (mkLog (-1) kFatal (str "out") [])].

Lemma sample_objects_wf : Forall object_wf sample_objects.
Proof.
  constructor; [apply sample_scene_wf|]. constructor; [split; constructor|]. constructor; [apply sample_annotations_wf|].
  constructor; [apply sample_markers_wf|]. constructor; [constructor|]. constructor; [constructor|]. constructor; [|constructor].
  cbn [object_wf]. by_compute.
Qed.

Lemma builtin_object_roundtrip_witness :
  Forall (fun o => match serializeBuiltinObject o with
    | Ok data => deserializeBuiltinObject (typeOf o) data = Ok o | Err _ => False end) sample_objects.
Proof.
  pose proof sample_objects_wf as Hwf. unfold sample_objects in *.
  repeat match goal with H : Forall object_wf (_ :: _) |- _ => inversion H; clear H; subst end.
  repeat (constructor; [cbn [serializeBuiltinObject]; refine (proj1 (builtin_object_roundtrip _ _ _ _ _)); [assumption|reflexivity|vm_compute; reflexivity]|]).
  constructor.
Defined.
