(* ===== verification/RouteResolver.v ===== *)
(** * RouteResolver: the parser of a route

    [pj_plugins/src/parser_route_resolver.cpp]: the policy order of the claims that
    match a route, probing in that order with a cache per route, pins, ambiguity
    reports and the invalidation hooks.

    The probe and the provider configuration are callbacks of the host.  They are
    parameters that thread a state [W] of the host, so that a theorem can say which
    calls were made; a call returns a value or throws ([Some what] for a
    [std::exception], [None] for anything else).  An opaque lease is a value of [L].
    Diagnostics carry no time stamp. *)

From stdpp Require Import sorting pretty sets.
From S2P Require Import Prelude Text ClaimCatalog.

Inductive ParserRoute : Set := kScalar | kObject.

Definition route_value (r : ParserRoute) : Z := match r with kScalar => 1 | kObject => 2 end.

Definition routeFlag (r : ParserRoute) : Z :=
  match r with kScalar => ROUTE_FLAG_SCALAR | kObject => ROUTE_FLAG_OBJECT end.

Record ParserRoutePins : Set := mkPins { scalar_provider : option bytes; object_provider : option bytes }.

Definition forRoute (pins : ParserRoutePins) (r : ParserRoute) : option bytes :=
  match r with kScalar => scalar_provider pins | kObject => object_provider pins end.

Record ParserRouteRequest : Set := mkRequest {
  rq_encoding : bytes; rq_type_name : bytes; rq_schema_digest : bytes; rq_route : ParserRoute }.

(** [ParserRouteCandidate] has the fields of [ParserClaimEntry]. *)
Definition ParserRouteCandidate : Set := ParserClaimEntry.

(** ** Policy order *)

Definition is_exact (c : ParserClaim) : bool := negb (bytes_eqb (type_name c) (str "*")).

Definition hasSamePolicyRank (lhs rhs : ParserClaim) : bool :=
  Bool.eqb (bytes_eqb (type_name lhs) (str "*")) (bytes_eqb (type_name rhs) (str "*"))
  && bool_decide (provenance lhs = provenance rhs) && (priority lhs =? priority rhs).

(** [operator<=>] of [ParserClaimIdentity], and of the tied members. *)
Definition identity_cmp (a b : bytes * bytes) : comparison :=
  cmp_then (string_cmp a.1 b.1) (string_cmp a.2 b.2).



(** The comparator handed to [std::sort]. *)
Definition ranks_before (lhs rhs : ParserRouteCandidate) : bool :=
  let l := claim lhs in
  let r := claim rhs in
  let lhs_exact := is_exact l in
  let rhs_exact := is_exact r in
  if negb (Bool.eqb lhs_exact rhs_exact) then lhs_exact
  else if negb (bool_decide (provenance l = provenance r))
  then provenance_rank (provenance l) >? provenance_rank (provenance r)
  else if negb (priority l =? priority r) then priority l >? priority r
  else is_lt (identity_cmp (identity l) (identity r)).

(** [std::sort] leaves no element before a smaller one. *)
Definition not_after (lhs rhs : ParserRouteCandidate) : Prop := ranks_before rhs lhs = false.

#[export] Instance not_after_dec : RelDecision not_after.
Proof. intros x y. unfold not_after. apply _. Defined.

Definition matches_request (rq : ParserRouteRequest) (normalized_type : bytes) (pin : option bytes)
    (e : ParserClaimEntry) : bool :=
  let c := claim e in
  bytes_eqb (encoding c) (rq_encoding rq) && has_route (routeFlag (rq_route rq)) c
  && (bytes_eqb (type_name c) (str "*") || bytes_eqb (type_name c) normalized_type)
  && (bool_decide (schema_digests c = []) || existsb (bytes_eqb (rq_schema_digest rq)) (schema_digests c))
  && match pin with Some p => bytes_eqb (provider_id c) p | None => true end.

Definition orderedCandidates (rq : ParserRouteRequest) (k : ParserClaimCatalog) (pins : ParserRoutePins)
  : Expected (list ParserRouteCandidate) :=
  if negb (isRegisteredParserEncoding (rq_encoding rq))
  then Err ("route request uses unknown encoding: " +:+ text_of (rq_encoding rq))
  else
    let? normalized_type := normalizeParserTypeName (rq_encoding rq) (rq_type_name rq) in
    Ok (merge_sort not_after
          (List.filter (matches_request rq normalized_type (forRoute pins (rq_route rq))) (claims k))).

(** ** Resolution *)

(** [ParserProbeOutcome]: any [uint8_t]. *)
Notation kAccept := 0.
Notation kDecline := 1.
Notation kProbeError := 2.

Inductive ParserSelectionTraceKind : Set :=
  | kCandidate | kCacheHit | kTraceAccept | kTraceDecline | kTraceError | kAmbiguityTieBreak | kTraceSelected
  | kTracePinnedUnavailable | kExhausted.

Record TraceEntry : Set := mkTrace { t_kind : ParserSelectionTraceKind; t_claim : bytes * bytes; t_detail : string }.

Inductive ParserRouteResolutionStatus : Set :=
  | kSelected | kNoCandidates | kNoProviderAccepted | kPinnedProviderUnavailable | kPinnedProviderRejected.

Record ParserProviderConfig : Set := mkConfig { json : bytes; config_digest : bytes }.

(** Of a callback: a value, or an exception. *)
Inductive CallResult (A : Type) : Type :=
  | Returned (a : A)
  | Threw (what : option string).
Arguments Returned {A} a.
Arguments Threw {A} what.

Record ParserProbeRequest : Set := mkProbe {
  p_claim : ParserClaim; p_generation : Z; p_config : ParserProviderConfig }.

Definition outcomeDetail (diagnostic fallback : string) : string :=
  if bool_decide (diagnostic = EmptyString) then fallback else diagnostic.

(** The members of a [CacheEntry] a lookup compares. *)
Record CacheKey : Set := mkKey {
  k_provider : bytes; k_claim : bytes; k_generation : Z; k_encoding : bytes; k_type : bytes;
  k_schema_digest : bytes; k_config_digest : bytes }.

#[export] Instance CacheKey_eq_dec : EqDecision CacheKey.
Proof. solve_decision. Defined.

Definition cache_key (rq : ParserRouteRequest) (normalized_type : bytes) (e : ParserRouteCandidate)
    (config : ParserProviderConfig) : CacheKey :=
  mkKey (provider_id (claim e)) (claim_id (claim e)) (provider_generation e) (rq_encoding rq) normalized_type
    (rq_schema_digest rq) (config_digest config).

Section Resolver.
Context {L W : Type}.

Record ParserProbeDecision : Type := mkDecision {
  outcome : Z; diagnostic : string; retained_instance : option L }.

Record ParserRouteResolution : Type := mkResolution {
  status : ParserRouteResolutionStatus; winner : option (bytes * bytes); winning_claim : option ParserClaim;
  res_instance : option L; ordered_candidates : list (bytes * bytes); trace : list TraceEntry }.

Record CacheEntry : Type := mkCacheEntry { key : CacheKey; decision : ParserProbeDecision }.

Record ParserRouteResolver : Type := mkResolver {
  scalar_probe_cache_ : list CacheEntry; object_probe_cache_ : list CacheEntry;
  reported_ambiguities_ : list bytes; r_sink : bool; r_sent : list Diagnostic }.

Definition resolver_new (sink : bool) : ParserRouteResolver := mkResolver [] [] [] sink [].

Definition report (level : DiagnosticLevel) (id : bytes) (message : string) (s : ParserRouteResolver)
  : ParserRouteResolver :=
  if r_sink s
  then mkResolver (scalar_probe_cache_ s) (object_probe_cache_ s) (reported_ambiguities_ s) true
         (r_sent s ++ [mkDiagnostic level id message])
  else s.

Definition setDiagnosticSink (sink : bool) (s : ParserRouteResolver) : ParserRouteResolver :=
  mkResolver (scalar_probe_cache_ s) (object_probe_cache_ s) (reported_ambiguities_ s) sink (r_sent s).

Definition route_cache (r : ParserRoute) (s : ParserRouteResolver) : list CacheEntry :=
  match r with kScalar => scalar_probe_cache_ s | kObject => object_probe_cache_ s end.

Definition push_cache (r : ParserRoute) (e : CacheEntry) (s : ParserRouteResolver) : ParserRouteResolver :=
  match r with
  | kScalar => mkResolver (scalar_probe_cache_ s ++ [e]) (object_probe_cache_ s) (reported_ambiguities_ s)
                 (r_sink s) (r_sent s)
  | kObject => mkResolver (scalar_probe_cache_ s) (object_probe_cache_ s ++ [e]) (reported_ambiguities_ s)
                 (r_sink s) (r_sent s)
  end.

Definition push_ambiguity (key : bytes) (s : ParserRouteResolver) : ParserRouteResolver :=
  mkResolver (scalar_probe_cache_ s) (object_probe_cache_ s) (reported_ambiguities_ s ++ [key])
    (r_sink s) (r_sent s).

Definition clearAllCachedState (s : ParserRouteResolver) : ParserRouteResolver :=
  mkResolver [] [] [] (r_sink s) (r_sent s).

Definition invalidateCatalog : ParserRouteResolver -> ParserRouteResolver := clearAllCachedState.
Definition invalidatePins : ParserRouteResolver -> ParserRouteResolver := clearAllCachedState.

Definition invalidateProviderConfig (provider : bytes) (s : ParserRouteResolver) : ParserRouteResolver :=
  let keep := List.filter (fun e => negb (bytes_eqb (k_provider (key e)) provider)) in
  mkResolver (keep (scalar_probe_cache_ s)) (keep (object_probe_cache_ s)) (reported_ambiguities_ s)
    (r_sink s) (r_sent s).

Definition probeCacheSize (s : ParserRouteResolver) : nat :=
  (length (scalar_probe_cache_ s) + length (object_probe_cache_ s))%nat.

Definition probe_error (message : string) : ParserProbeDecision := mkDecision kProbeError message None.

(** What the cache keeps of a probe call. *)
Definition sanitize (r : CallResult ParserProbeDecision) : ParserProbeDecision :=
  match r with
  | Threw (Some what) => probe_error ("probe callback threw: " +:+ what)
  | Threw None => probe_error "probe callback threw an unknown exception"
  | Returned d =>
    if outcome d =? kAccept then d
    else if (outcome d =? kDecline) || (outcome d =? kProbeError)
    then mkDecision (outcome d) (diagnostic d) None
    else probe_error "probe callback returned an invalid outcome"
  end.

Variable provider_config : option (bytes -> W -> CallResult ParserProviderConfig * W).
Variable probe : ParserProbeRequest -> W -> CallResult ParserProbeDecision * W.

Definition lookup_config (provider : bytes) (w : W) : CallResult ParserProviderConfig * W :=
  match provider_config with
  | Some lookup => lookup provider w
  | None => (Returned (mkConfig [] []), w)
  end.

Definition config_error (provider : bytes) (what : option string) : string :=
  "provider config lookup failed for provider " +:+ text_of provider
  +:+ match what with Some w => ": " +:+ w | None => "" end.

Definition cache_find (key' : CacheKey) (cache : list CacheEntry) : option CacheEntry :=
  List.find (fun e => bool_decide (key e = key')) cache.

(** The decision on one candidate: the cache's, or a probe that fills the cache. *)
Definition decide_candidate (rq : ParserRouteRequest) (normalized_type : bytes) (e : ParserRouteCandidate)
    (config : ParserProviderConfig) (s : ParserRouteResolver) (w : W)
  : ParserProbeDecision * bool * ParserRouteResolver * W :=
  let key := cache_key rq normalized_type e config in
  match cache_find key (route_cache (rq_route rq) s) with
  | Some hit => (decision hit, true, s, w)
  | None =>
    let '(r, w) := probe (mkProbe (claim e) (provider_generation e) config) w in
    (sanitize r, false, push_cache (rq_route rq) (mkCacheEntry key (sanitize r)) s, w)
  end.

Fixpoint join_details (details : list string) : string :=
  match details with
  | [] => ""
  | [d] => d
  | d :: details' => d +:+ "; " +:+ join_details details'
  end.

Definition report_declines (declined : list string) (s : ParserRouteResolver) : ParserRouteResolver :=
  if bool_decide (declined = []) then s
  else report kInfo []
         ("parser probe declined for " +:+ pretty (N.of_nat (length declined)) +:+ " candidate(s): "
          +:+ join_details declined) s.

Definition slash (i : bytes * bytes) : string := text_of i.1 +:+ "/" +:+ text_of i.2.

Definition newline : bytes := [Byte.x0a].

Definition ambiguity_key (rq : ParserRouteRequest) (normalized_type : bytes) (i : bytes * bytes) : bytes :=
  rq_encoding rq ++ newline ++ normalized_type ++ newline ++ rq_schema_digest rq ++ newline
  ++ str (pretty (Z.to_N (route_value (rq_route rq)))) ++ newline ++ i.1 ++ newline ++ i.2.

(** The report of an equal-ranked candidate the winner's identity was preferred to. *)
Definition tie_break (rq : ParserRouteRequest) (normalized_type : bytes) (candidates : list ParserRouteCandidate)
    (e : ParserRouteCandidate) (s : ParserRouteResolver) : list TraceEntry * ParserRouteResolver :=
  let i := identity (claim e) in
  if existsb (fun other => is_lt (identity_cmp i (identity (claim other)))
                           && hasSamePolicyRank (claim e) (claim other)) candidates
  then
    let akey := ambiguity_key rq normalized_type i in
    if existsb (bytes_eqb akey) (reported_ambiguities_ s) then ([], s)
    else
      let detail := "stable claim identity selected " +:+ slash i +:+ " over an equal-ranked candidate" in
      ([mkTrace kAmbiguityTieBreak i detail],
       report kWarning i.1 ("ambiguous parser claims: " +:+ detail) (push_ambiguity akey s))
  else ([], s).

Definition finish_selected (rq : ParserRouteRequest) (normalized_type : bytes)
    (candidates : list ParserRouteCandidate) (e : ParserRouteCandidate) (d : ParserProbeDecision)
    (trace : list TraceEntry) (declined : list string) (s : ParserRouteResolver)
  : ParserRouteResolution * ParserRouteResolver :=
  let i := identity (claim e) in
  let '(tied, s) := tie_break rq normalized_type candidates e (report_declines declined s) in
  (mkResolution kSelected (Some i) (Some (claim e)) (retained_instance d)
     (map (fun c => identity (claim c)) candidates)
     (trace ++ [mkTrace kTraceAccept i "provider accepted during probe"] ++ tied
        ++ [mkTrace kTraceSelected i "route provider selected"]), s).

Definition finish_exhausted (pin : option bytes) (candidates : list ParserRouteCandidate)
    (trace : list TraceEntry) (declined : list string) (s : ParserRouteResolver)
  : ParserRouteResolution * ParserRouteResolver :=
  let s := report_declines declined s in
  (mkResolution (match pin with Some _ => kPinnedProviderRejected | None => kNoProviderAccepted end) None None None
     (map (fun c => identity (claim c)) candidates)
     (trace ++ [mkTrace kExhausted (match pin with Some p => p | None => [] end, [])
        (match pin with
         | Some _ => "pinned provider declined or failed; fallback is disabled"
         | None => "all matching providers declined or failed"
         end)]),
   match pin with
   | Some p => report kError p "pinned parser provider declined or failed; route remains unbound" s
   | None => s
   end).

(** The probing loop. *)
Fixpoint resolve_loop (rq : ParserRouteRequest) (normalized_type : bytes) (pin : option bytes)
    (candidates remaining : list ParserRouteCandidate) (trace : list TraceEntry) (declined : list string)
    (s : ParserRouteResolver) (w : W) : Expected ParserRouteResolution * ParserRouteResolver * W :=
  match remaining with
  | [] => let '(r, s) := finish_exhausted pin candidates trace declined s in (Ok r, s, w)
  | e :: remaining' =>
    match lookup_config (provider_id (claim e)) w with
    | (Threw what, w) => (Err (config_error (provider_id (claim e)) what), s, w)
    | (Returned config, w) =>
      let i := identity (claim e) in
      let '(d, hit, s, w) := decide_candidate rq normalized_type e config s w in
      let trace := if hit then trace ++ [mkTrace kCacheHit i "probe result reused"] else trace in
      if outcome d =? kDecline then
        let detail := outcomeDetail (diagnostic d) "provider declined during probe" in
        resolve_loop rq normalized_type pin candidates remaining' (trace ++ [mkTrace kTraceDecline i detail])
          (if hit then declined else declined ++ [slash i +:+ ": " +:+ detail]) s w
      else if outcome d =? kProbeError then
        let detail := outcomeDetail (diagnostic d) "provider probe failed" in
        resolve_loop rq normalized_type pin candidates remaining' (trace ++ [mkTrace kTraceError i detail])
          declined (if hit then s else report kError i.1 ("parser probe error: " +:+ detail) s) w
      else
        let '(r, s) := finish_selected rq normalized_type candidates e d trace declined s in
        (Ok r, s, w)
    end
  end.

Definition candidate_trace (e : ParserRouteCandidate) : TraceEntry :=
  mkTrace kCandidate (identity (claim e))
    (if bytes_eqb (type_name (claim e)) (str "*") then "wildcard candidate" else "exact candidate").

Definition finish_empty (rq : ParserRouteRequest) (normalized_type : bytes) (pin : option bytes)
    (s : ParserRouteResolver) : ParserRouteResolution * ParserRouteResolver :=
  match pin with
  | Some p =>
    (mkResolution kPinnedProviderUnavailable None None None []
       [mkTrace kTracePinnedUnavailable (p, []) "pinned provider has no matching admitted claim"],
     report kError p ("pinned parser provider is unavailable for " +:+ text_of (rq_encoding rq) +:+ ":"
                      +:+ text_of normalized_type) s)
  | None =>
    (mkResolution kNoCandidates None None None [] [mkTrace kExhausted ([], []) "no matching admitted claims"], s)
  end.

(** [resolve] once the probe callback is known not to be empty. *)
Definition resolve_with (rq : ParserRouteRequest) (k : ParserClaimCatalog) (pins : ParserRoutePins)
    (s : ParserRouteResolver) (w : W) : Expected ParserRouteResolution * ParserRouteResolver * W :=
  match normalizeParserTypeName (rq_encoding rq) (rq_type_name rq) with
  | Err error => (Err error, s, w)
  | Ok normalized_type =>
    match orderedCandidates rq k pins with
    | Err error => (Err error, s, w)
    | Ok candidates =>
      let pin := forRoute pins (rq_route rq) in
      if bool_decide (candidates = []) then
        let '(r, s) := finish_empty rq normalized_type pin s in (Ok r, s, w)
      else resolve_loop rq normalized_type pin candidates candidates (map candidate_trace candidates) [] s w
    end
  end.

End Resolver.

Definition resolve {L W}
    (rq : ParserRouteRequest) (k : ParserClaimCatalog) (pins : ParserRoutePins)
    (provider_config : option (bytes -> W -> CallResult ParserProviderConfig * W))
    (probe : option (ParserProbeRequest -> W -> CallResult (@ParserProbeDecision L) * W))
    (s : @ParserRouteResolver L) (w : W)
  : Expected (@ParserRouteResolution L) * @ParserRouteResolver L * W :=
  match probe with
  | None => (Err "parser probe callback is empty", s, w)
  | Some probe => resolve_with provider_config probe rq k pins s w
  end.

Arguments ParserProbeDecision : clear implicits.
Arguments ParserRouteResolution : clear implicits.
Arguments CacheEntry : clear implicits.
Arguments ParserRouteResolver : clear implicits.

(** ** The order is total *)

(** The comparator as a chain of comparisons, from the most significant criterion. *)
Definition policy_cmp (x y : ParserRouteCandidate) : comparison :=
  let key f := Z.compare (f (claim x)) (f (claim y)) in
  cmp_then (key (fun c => if is_exact c then 0 else 1))
    (cmp_then (key (fun c => - provenance_rank (provenance c)))
       (cmp_then (key (fun c => - priority c))
          (identity_cmp (identity (claim x)) (identity (claim y))))).

#[export] Instance total_identity : TotalCmp (fun _ => True) identity_cmp.
Proof.
  apply (total_then (fun _ : bytes * bytes => True) (fun a b => string_cmp a.1 b.1) (fun a b => string_cmp a.2 b.2));
    [apply (total_key _ (fun _ => True) fst string_cmp)|apply (total_key _ (fun _ => True) snd string_cmp)]; done.
Qed.

Lemma total_claim_key (f : ParserClaim -> Z) :
  TotalCmp (fun _ : ParserRouteCandidate => True) (fun x y => Z.compare (f (claim x)) (f (claim y))).
Proof. by apply (total_key _ (fun _ => True) (fun e => f (claim e)) Z.compare). Qed.

#[export] Instance total_policy : TotalCmp (fun _ => True) policy_cmp.
Proof.
  unfold policy_cmp.
  apply total_then; [apply (total_claim_key (fun c => if is_exact c then 0 else 1))|].
  apply total_then; [apply (total_claim_key (fun c => - provenance_rank (provenance c)))|].
  apply total_then; [apply (total_claim_key (fun c => - priority c))|].
  by apply (total_key _ (fun _ => True) (fun e : ParserRouteCandidate => identity (claim e)) identity_cmp).
Qed.

Lemma gtb_compare_opp a b : (a >? b) = is_lt (- a ?= - b).
Proof. rewrite Z.compare_opp, Z.gtb_ltb. unfold Z.ltb. by destruct (b ?= a). Qed.

Lemma ranks_before_cmp x y : ranks_before x y = is_lt (policy_cmp x y).
Proof.
  unfold ranks_before, policy_cmp.
  destruct (is_exact (claim x)), (is_exact (claim y)); try done; cbn [Bool.eqb negb Z.compare cmp_then].
  all: case_bool_decide as Ep; cbn [negb];
    [rewrite Ep, Z.compare_refl; cbn [cmp_then]|by destruct (provenance (claim x)), (provenance (claim y))].
  all: destruct (Z.eqb_spec (priority (claim x)) (priority (claim y))) as [Eq|Eq]; cbn [negb];
    [by rewrite Eq, Z.compare_refl|].
  all: rewrite gtb_compare_opp; destruct (- priority (claim x) ?= _) eqn:E; try done;
    apply Z.compare_eq in E; lia.
Qed.

Lemma not_after_cmp x y : not_after x y <-> policy_cmp x y <> Gt.
Proof.
  unfold not_after. rewrite ranks_before_cmp, (cmp_flip (P:=fun _ => True) (cmp:=policy_cmp) x y) by done.
  by destruct (policy_cmp x y).
Qed.

#[export] Instance not_after_total : Total not_after.
Proof.
  intros x y. rewrite !not_after_cmp, (cmp_flip (P:=fun _ => True) (cmp:=policy_cmp) x y) by done.
  destruct (policy_cmp x y); auto.
Qed.

#[export] Instance not_after_trans : Transitive not_after.
Proof.
  intros x y z. rewrite !not_after_cmp. intros H1 H2 H3.
  assert (policy_cmp z x = Lt) as H4 by (by rewrite (cmp_flip (P:=fun _ => True) (cmp:=policy_cmp) x z), H3).
  destruct (policy_cmp x y) eqn:E1; [| |done].
  - rewrite <-(cmp_eq_l (P:=fun _ => True) (cmp:=policy_cmp) x y z) in H2 by done. done.
  - by rewrite (cmp_flip (P:=fun _ => True) (cmp:=policy_cmp) z y),
      (cmp_lt_trans (P:=fun _ => True) (cmp:=policy_cmp) z x y) in H2.
Qed.

(** Candidates that tie have the same identity. *)
Lemma policy_cmp_eq x y : policy_cmp x y = Eq -> identity (claim x) = identity (claim y).
Proof.
  unfold policy_cmp. repeat (destruct (_ ?= _); cbn [cmp_then]; [|done..]).
  unfold identity_cmp. destruct (string_cmp _ _) eqn:E1; cbn [cmp_then]; [|done..].
  intros E2. apply string_cmp_eq in E1, E2. destruct (identity (claim x)), (identity (claim y)). cbn in *. congruence.
Qed.

Lemma not_after_antisym x y : not_after x y -> not_after y x -> identity (claim x) = identity (claim y).
Proof.
  rewrite !not_after_cmp. rewrite (cmp_flip (P:=fun _ => True) (cmp:=policy_cmp) x y) by done.
  intros H1 H2. apply policy_cmp_eq. by destruct (policy_cmp x y).
Qed.

Lemma candidates_sort rq k pins cs :
  orderedCandidates rq k pins = Ok cs ->
  exists t, normalizeParserTypeName (rq_encoding rq) (rq_type_name rq) = Ok t /\
    cs = merge_sort not_after (List.filter (matches_request rq t (forRoute pins (rq_route rq))) (claims k)).
Proof.
  unfold orderedCandidates. destruct (negb _); [done|].
  destruct (normalizeParserTypeName _ _) as [t|]; [|done]. cbn [ebind]. intros [= <-]. by exists t.
Qed.

Lemma filter_perm {A} (f : A -> bool) l k : l ≡ₚ k -> List.filter f l ≡ₚ List.filter f k.
Proof.
  induction 1 as [|x l k H IH|x y l|l k m H1 IH1 H2 IH2]; cbn; repeat case_match; eauto using Permutation.
Qed.

(** Entries of one catalog that tie in the order are the same entry. *)
Lemma entry_by_identity es x y :
  NoDup (identities es) -> x ∈ es -> y ∈ es -> identity (claim x) = identity (claim y) -> x = y.
Proof.
  intros Hn Hx Hy He. apply list_elem_of_lookup in Hx as [i Hi]. apply list_elem_of_lookup in Hy as [j Hj].
  assert (i = j) as ->; [|congruence].
  apply (NoDup_lookup (identities es) i j (identity (claim x))); [done| |];
    unfold identities; rewrite list_lookup_fmap; [by rewrite Hi|by rewrite Hj, He].
Qed.

Lemma NoDup_of_identities es : NoDup (identities es) -> NoDup es.
Proof. apply NoDup_fmap_1. Qed.

Lemma filter_elem {A} (f : A -> bool) l x : x ∈ List.filter f l <-> x ∈ l /\ f x = true.
Proof. by rewrite !list_elem_of_In, filter_In. Qed.

Lemma strictly_sorted es :
  NoDup (identities es) -> StronglySorted not_after es -> StronglySorted (fun x y => ranks_before x y = true) es.
Proof.
  induction es as [|e es IH]; intros Hn Hs; [constructor|].
  apply StronglySorted_cons in Hs as [Hf Hs]. cbn in Hn. apply NoDup_cons in Hn as [Hi Hn].
  apply StronglySorted_cons. split; [|by apply IH]. rewrite Forall_forall in Hf |- *. intros y Hy.
  destruct (ranks_before e y) eqn:E; [done|]. exfalso. apply Hi.
  rewrite (not_after_antisym e y (Hf y Hy) E). apply (list_elem_of_fmap_2 (fun e => identity (claim e))). done.
Qed.

Lemma identities_perm l k : l ≡ₚ k -> identities l ≡ₚ identities k.
Proof. intros H. unfold identities. by apply fmap_Permutation. Qed.

(** The sort depends on the set of entries only. *)
Lemma sort_unique l k : NoDup (identities l) -> l ≡ₚ k -> merge_sort not_after l = merge_sort not_after k.
Proof.
  intros Hn Hp. apply (StronglySorted_unique_strong not_after).
  - intros x y Hx Hy H1 H2. rewrite merge_sort_Permutation in Hx. rewrite merge_sort_Permutation, <-Hp in Hy.
    by apply (entry_by_identity l); [..|apply not_after_antisym].
  - by apply (StronglySorted_merge_sort not_after).
  - by apply (StronglySorted_merge_sort not_after).
  - by rewrite !merge_sort_Permutation.
Qed.

(** The candidates of a route are exactly the catalog's matching claims, each
    once, strictly ordered by policy: exact types before wildcards, then provenance,
    then priority, then identity.  The order does not depend on the order in which
    the claims were admitted. *)
Theorem candidates_order rq k pins cs :
  catalog_ok k -> orderedCandidates rq k pins = Ok cs ->
  (exists t, normalizeParserTypeName (rq_encoding rq) (rq_type_name rq) = Ok t /\
     cs ≡ₚ List.filter (matches_request rq t (forRoute pins (rq_route rq))) (claims k)) /\
  StronglySorted (fun x y => ranks_before x y = true) cs /\
  (forall k', claims k' ≡ₚ claims k -> orderedCandidates rq k' pins = Ok cs).
Proof.
  intros (_ & Hn & _) Hc. pose proof (candidates_sort _ _ _ _ Hc) as (t & Ht & Hcs).
  set (m := matches_request rq t (forRoute pins (rq_route rq))) in *.
  pose proof (identities_filter_NoDup m _ Hn) as Hnf.
  assert (cs ≡ₚ List.filter m (claims k)) as Hperm by (rewrite Hcs; apply merge_sort_Permutation).
  split_and!; [by exists t|..].
  - apply strictly_sorted; [by rewrite (identities_perm _ _ Hperm)|].
    rewrite Hcs. by apply (StronglySorted_merge_sort not_after).
  - intros k' Hk'. revert Hc. unfold orderedCandidates. destruct (negb _); [done|]. rewrite Ht. cbn [ebind].
    fold m. intros [= <-]. f_equal. symmetry. apply sort_unique; [done|]. symmetry. by apply filter_perm.
Qed.

(** ** What the pieces do to the caches *)

Section Resolution.
Context {L W : Type}.
Implicit Types s : ParserRouteResolver L.

Lemma cache_report rt l i m s : route_cache rt (report l i m s) = route_cache rt s.
Proof. unfold report. destruct (r_sink s); [|done]. by destruct rt. Qed.

Lemma cache_report_declines rt ds s : route_cache rt (report_declines ds s) = route_cache rt s.
Proof. unfold report_declines. case_bool_decide; [done|apply cache_report]. Qed.

Lemma cache_tie_break rt rq t cs e s : route_cache rt (tie_break rq t cs e s).2 = route_cache rt s.
Proof.
  unfold tie_break. repeat (match goal with |- context [if ?b then _ else _] => destruct b end); try done.
  cbn [snd]. rewrite cache_report. by destruct rt.
Qed.

Lemma cache_push rt e s : route_cache rt (push_cache rt e s) = route_cache rt s ++ [e].
Proof. by destruct rt. Qed.

Lemma cache_push_other rt rt' e s : rt <> rt' -> route_cache rt (push_cache rt' e s) = route_cache rt s.
Proof. by destruct rt, rt'. Qed.

(** A selection, with the reports it makes left aside. *)
Lemma finish_selected_spec rq t cs e d tr ds s :
  let '(r, s') := finish_selected (L:=L) rq t cs e d tr ds s in
  status r = kSelected /\ winner r = Some (identity (claim e)) /\ winning_claim r = Some (claim e) /\
  res_instance r = retained_instance d /\ ordered_candidates r = map (fun c => identity (claim c)) cs /\
  forall rt, route_cache rt s' = route_cache rt s.
Proof.
  unfold finish_selected. pose proof (fun rt => cache_tie_break rt rq t cs e (report_declines ds s)) as Hc.
  destruct (tie_break _ _ _ _ _) as [tied s']. cbn. split_and!; try done. intros rt. cbn [snd] in Hc.
  by rewrite Hc, cache_report_declines.
Qed.

Definition exhausted_status (pin : option bytes) : ParserRouteResolutionStatus :=
  match pin with Some _ => kPinnedProviderRejected | None => kNoProviderAccepted end.

Lemma finish_exhausted_spec pin cs tr ds s :
  let '(r, s') := finish_exhausted (L:=L) pin cs tr ds s in
  status r = exhausted_status pin /\ winner r = None /\ winning_claim r = None /\ res_instance r = None /\
  ordered_candidates r = map (fun c => identity (claim c)) cs /\
  forall rt, route_cache rt s' = route_cache rt s.
Proof.
  unfold finish_exhausted. destruct pin; cbn; split_and!; try done; intros rt;
    by rewrite ?cache_report, cache_report_declines.
Qed.

(** ** Any callbacks *)

Section Callbacks.
Context (provider_config : option (bytes -> W -> CallResult ParserProviderConfig * W)).
Context (probe : ParserProbeRequest -> W -> CallResult (ParserProbeDecision L) * W).

(** The result without its trace. *)
Definition loop_result (pin : option bytes) (remaining : list ParserRouteCandidate) (r : ParserRouteResolution L)
  : Prop :=
  (exists e, e ∈ remaining /\ status r = kSelected /\ winner r = Some (identity (claim e)) /\
     winning_claim r = Some (claim e)) \/
  (status r = exhausted_status pin /\ winner r = None /\ winning_claim r = None /\ res_instance r = None).

Lemma loop_result_cons pin e es r : loop_result pin es r -> loop_result pin (e :: es) r.
Proof. intros [(x & Hx & H)|H]; [left; exists x; split; [by right|done]|by right]. Qed.

Lemma loop_cases rq t pin cs es tr ds s w r s' w' :
  resolve_loop provider_config probe rq t pin cs es tr ds s w = (Ok r, s', w') -> loop_result pin es r.
Proof.
  revert tr ds s w. induction es as [|e es IH]; intros tr ds s w; cbn [resolve_loop].
  - pose proof (finish_exhausted_spec pin cs tr ds s) as H. destruct (finish_exhausted _ _ _ _ _) as [r0 s0].
    intros [= <- _ _]. right. tauto.
  - destruct (lookup_config _ _ _) as [[config|what] w1]; [|done].
    destruct (decide_candidate _ _ _ _ _ _ _) as [[[d hit] s1] w2].
    destruct (outcome d =? _); [intros H; eapply loop_result_cons, IH, H|].
    destruct (outcome d =? _); [intros H; eapply loop_result_cons, IH, H|].
    match goal with |- context [finish_selected rq t cs e d ?tr' ds s1] =>
      pose proof (finish_selected_spec rq t cs e d tr' ds s1) as H end.
    destruct (finish_selected _ _ _ _ _ _ _ _) as [r0 s0]. intros [= <- _ _]. left. exists e.
    split; [by left|tauto].
Qed.
End Callbacks.

(** Whatever the callbacks do, throw or answer, a route is only ever bound to an
    admitted claim that matches the request: a valid claim of the catalog, of the
    requested encoding and route, and of the pinned provider when the route is
    pinned.  A resolution that selects nothing says whether a pin was the reason and
    keeps no instance. *)
Theorem resolve_admissible provider_config probe rq k pins s (w : W) r s' w' :
  catalog_ok k -> resolve (L:=L) rq k pins provider_config probe s w = (Ok r, s', w') ->
  match winner r with
  | Some i =>
    status r = kSelected /\
    exists e, e ∈ claims k /\ valid_claim (claim e) /\ i = identity (claim e) /\ winning_claim r = Some (claim e) /\
      encoding (claim e) = rq_encoding rq /\ has_route (routeFlag (rq_route rq)) (claim e) = true /\
      (forall p, forRoute pins (rq_route rq) = Some p -> i.1 = p)
  | None =>
    winning_claim r = None /\ res_instance r = None /\
    status r ∈ match forRoute pins (rq_route rq) with
               | Some _ => [kPinnedProviderUnavailable; kPinnedProviderRejected]
               | None => [kNoCandidates; kNoProviderAccepted]
               end
  end.
Proof.
  intros (Hv & _ & _). unfold resolve. destruct probe as [probe|]; [|done]. unfold resolve_with.
  destruct (normalizeParserTypeName _ _) as [t|] eqn:Et; [|done].
  destruct (orderedCandidates rq k pins) as [cs|] eqn:Ec; [|done].
  apply candidates_sort in Ec as (t' & Ht & Hcs). assert (t' = t) as -> by congruence.
  set (pin := forRoute pins (rq_route rq)) in *. case_bool_decide as Ene.
  - unfold finish_empty. destruct pin; intros [= <- _ _]; cbn; split_and!; try done; set_solver.
  - intros Hl. apply loop_cases in Hl as [(e & He & Hs & -> & Hw)|(Hs & -> & Hw & Hi)].
    + split; [done|]. exists e. rewrite Hcs, merge_sort_Permutation, filter_elem in He. destruct He as [He Hm].
      rewrite Forall_forall in Hv. unfold matches_request in Hm. rewrite !andb_true_iff in Hm. destruct Hm as [[[[Hm1 Hm2] _] _] Hm3].
      apply bytes_eqb_eq in Hm1. split_and!; try done; [by apply Hv|]. intros p Hp. rewrite Hp in Hm3.
      by apply bytes_eqb_eq in Hm3.
    + split_and!; [done..|]. rewrite Hs. destruct pin; cbn; set_solver.
Qed.

(** ** A probe that is a function of what the cache compares *)

Lemma cache_find_key key' (cache : list (CacheEntry L)) en : cache_find key' cache = Some en -> key en = key' /\ en ∈ cache.
Proof.
  intros H. apply List.find_some in H as [Hin Hk]. apply bool_decide_eq_true in Hk.
  split; [done|by apply list_elem_of_In].
Qed.

Section Deterministic.
Context (provider_config : option (bytes -> W -> CallResult ParserProviderConfig * W)).
Context (probe : ParserProbeRequest -> W -> CallResult (ParserProbeDecision L) * W).
Context (rq : ParserRouteRequest) (t : bytes).
Context (configs : bytes -> ParserProviderConfig) (decide_key : CacheKey -> CallResult (ParserProbeDecision L)).
Hypothesis Hconfig : forall p w, (lookup_config provider_config p w).1 = Returned (configs p).
Hypothesis Hprobe : forall e w,
  (probe (mkProbe (claim e) (provider_generation e) (configs (provider_id (claim e)))) w).1
  = decide_key (cache_key rq t e (configs (provider_id (claim e)))).

Definition verdict (e : ParserRouteCandidate) : ParserProbeDecision L :=
  sanitize (decide_key (cache_key rq t e (configs (provider_id (claim e))))).

Definition cache_true (cache : list (CacheEntry L)) : Prop :=
  Forall (fun en => decision en = sanitize (decide_key (key en))) cache.

Lemma decide_candidate_true e s w :
  cache_true (route_cache (rq_route rq) s) ->
  let '(d, _, s', _) := decide_candidate probe rq t e (configs (provider_id (claim e))) s w in
  d = verdict e /\ cache_true (route_cache (rq_route rq) s').
Proof.
  intros Hc. unfold decide_candidate. destruct (cache_find _ _) as [en|] eqn:Ef.
  - apply cache_find_key in Ef as [Hk Hin]. split; [|done]. unfold cache_true in Hc.
    rewrite Forall_forall in Hc. by rewrite (Hc en Hin), Hk.
  - pose proof (Hprobe e w) as Hp. destruct (probe _ _) as [r w']. cbn in Hp. subst r. split; [done|].
    rewrite cache_push. apply Forall_app. split; [done|]. by constructor.
Qed.

Lemma sanitize_outcome (r : CallResult (ParserProbeDecision L)) :
  outcome (sanitize r) = kAccept \/ outcome (sanitize r) = kDecline \/ outcome (sanitize r) = kProbeError.
Proof.
  destruct r as [d|[what|]]; cbn; auto. destruct (Z.eqb_spec (outcome d) 0); [auto|].
  destruct (Z.eqb_spec (outcome d) 1), (Z.eqb_spec (outcome d) 2); cbn; auto.
Qed.

(** The first candidate that is accepted wins. *)
Definition answer (e : ParserRouteCandidate) : CallResult (ParserProbeDecision L) :=
  decide_key (cache_key rq t e (configs (provider_id (claim e)))).

Definition accepted (e : ParserRouteCandidate) : bool :=
  match answer e with Returned d => outcome d =? kAccept | Threw _ => false end.

Definition answer_instance (e : ParserRouteCandidate) : option L :=
  match answer e with Returned d => retained_instance d | Threw _ => None end.

Lemma verdict_accepted e :
  accepted e = (outcome (verdict e) =? kAccept) /\
  (accepted e = true -> retained_instance (verdict e) = answer_instance e).
Proof.
  unfold accepted, answer_instance, verdict, answer. destruct (decide_key _) as [d|[what|]]; [|done..].
  cbn [sanitize]. destruct (outcome d =? kAccept) eqn:E; [by rewrite E|].
  destruct ((outcome d =? kDecline) || (outcome d =? kProbeError)); cbn; [by rewrite E|done].
Qed.

Definition loop_spec (pin : option bytes) (cs remaining : list ParserRouteCandidate) (r : ParserRouteResolution L)
  : Prop :=
  ordered_candidates r = map (fun c => identity (claim c)) cs /\
  match List.find accepted remaining with
  | Some e =>
    status r = kSelected /\ winner r = Some (identity (claim e)) /\ winning_claim r = Some (claim e) /\
    res_instance r = answer_instance e
  | None => status r = exhausted_status pin /\ winner r = None /\ winning_claim r = None /\ res_instance r = None
  end.

Lemma loop_deterministic pin cs es tr ds s w :
  cache_true (route_cache (rq_route rq) s) ->
  exists r s' w', resolve_loop provider_config probe rq t pin cs es tr ds s w = (Ok r, s', w') /\
    loop_spec pin cs es r /\ cache_true (route_cache (rq_route rq) s').
Proof.
  revert tr ds s w. induction es as [|e es IH]; intros tr ds s w Hc; cbn [resolve_loop].
  - pose proof (finish_exhausted_spec pin cs tr ds s) as H. destruct (finish_exhausted _ _ _ _ _) as [r s'].
    destruct H as (? & ? & ? & ? & ? & Hs). exists r, s', w. unfold loop_spec. rewrite Hs. done.
  - pose proof (Hconfig (provider_id (claim e)) w) as Hcfg. destruct (lookup_config _ _ w) as [c w1].
    cbn in Hcfg. subst c. pose proof (decide_candidate_true e s w1 Hc) as Hd.
    destruct (decide_candidate _ _ _ _ _ _ _) as [[[d hit] s1] w2]. destruct Hd as [-> Hc1].
    unfold loop_spec. cbn [List.find]. destruct (verdict_accepted e) as [Hacc Hinst].
    destruct (sanitize_outcome (decide_key (cache_key rq t e (configs (provider_id (claim e)))))) as [E|[E|E]];
      fold (verdict e) in E; rewrite E in Hacc; rewrite E; rewrite Hacc; cbn [Z.eqb]; cbv iota.
    + rewrite <-(Hinst Hacc). match goal with |- context [finish_selected rq t cs e ?d ?tr' ds s1] =>
        pose proof (finish_selected_spec rq t cs e d tr' ds s1) as H end.
      destruct (finish_selected _ _ _ _ _ _ _ _) as [r s']. destruct H as (? & ? & ? & ? & ? & Hs).
      exists r, s', w2. rewrite Hs. done.
    + by apply IH.
    + apply IH. destruct hit; [done|]. by rewrite cache_report.
Qed.
End Deterministic.
End Resolution.

(** ** Any caches and any callbacks *)

Section Answers.
Context {L W : Type}.
Context (provider_config : option (bytes -> W -> CallResult ParserProviderConfig * W)).
Context (probe : ParserProbeRequest -> W -> CallResult (ParserProbeDecision L) * W).
Context (rq : ParserRouteRequest) (t : bytes).

(** What an answer of a probe decides: an acceptance as it is; anything else keeps no
    instance, and counts as an error unless it is a decline. *)
Definition decides (r : CallResult (ParserProbeDecision L)) (d : ParserProbeDecision L) : Prop :=
  match r with
  | Returned a =>
    if outcome a =? kAccept then d = a
    else retained_instance d = None /\ outcome d = if outcome a =? kDecline then kDecline else kProbeError
  | Threw _ => retained_instance d = None /\ outcome d = kProbeError
  end.

Definition rejects (d : ParserProbeDecision L) : Prop := outcome d = kDecline \/ outcome d = kProbeError.

(** Asked in the cache [c] and the host's state [w], the candidate [e] is decided by [d]: by the
    entry the cache has for it under its present configuration, and the probe is not called; or,
    without such an entry, by the answer of its probe, and the decision is cached. *)
Definition answered (c : list (CacheEntry L)) (w : W) (e : ParserRouteCandidate) (d : ParserProbeDecision L)
    (c' : list (CacheEntry L)) (w' : W) : Prop :=
  exists config w1,
    lookup_config provider_config (provider_id (claim e)) w = (Returned config, w1) /\
    let key := cache_key rq t e config in
    match cache_find key c with
    | Some en => d = decision en /\ c' = c /\ w' = w1
    | None =>
      exists r, probe (mkProbe (claim e) (provider_generation e) config) w1 = (r, w') /\ decides r d /\
        c' = c ++ [mkCacheEntry key d]
    end.

(** Candidates asked one after the other, each rejected. *)
Inductive passed : list ParserRouteCandidate -> list (CacheEntry L) -> W -> list (CacheEntry L) -> W -> Prop :=
  | passed_nil c w : passed [] c w c w
  | passed_cons e es c w d c1 w1 c' w' :
      answered c w e d c1 w1 -> rejects d -> passed es c1 w1 c' w' -> passed (e :: es) c w c' w'.

(** The result of asking the candidates [es] of [cs]. *)
Definition resolved (pin : option bytes) (cs es : list ParserRouteCandidate) (c : list (CacheEntry L)) (w : W)
    (res : Expected (ParserRouteResolution L)) (c' : list (CacheEntry L)) (w' : W) : Prop :=
  match res with
  | Ok r =>
    ordered_candidates r = map (fun c => identity (claim c)) cs /\
    ((exists before e after d c1 w1, es = before ++ e :: after /\
        passed before c w c1 w1 /\ answered c1 w1 e d c' w' /\ ~ rejects d /\
        status r = kSelected /\ winner r = Some (identity (claim e)) /\ winning_claim r = Some (claim e) /\
        res_instance r = retained_instance d) \/
     (passed es c w c' w' /\
        status r = exhausted_status pin /\ winner r = None /\ winning_claim r = None /\ res_instance r = None))
  | Err message =>
    exists before e after what w1, es = before ++ e :: after /\ passed before c w c' w1 /\
      lookup_config provider_config (provider_id (claim e)) w1 = (Threw what, w') /\
      message = config_error (provider_id (claim e)) what
  end.

Lemma decides_sanitize r : decides r (sanitize r).
Proof.
  destruct r as [a|[what|]]; cbn; [|done..]. destruct (outcome a =? kAccept) eqn:E0; [done|].
  destruct (outcome a =? kDecline) eqn:E1; cbn; [by bprop|]. destruct (outcome a =? kProbeError) eqn:E2; cbn; [by bprop|done].
Qed.

Lemma decide_answered e config s w w1 :
  lookup_config provider_config (provider_id (claim e)) w = (Returned config, w1) ->
  let '(d, _, s', w') := decide_candidate probe rq t e config s w1 in
  answered (route_cache (rq_route rq) s) w e d (route_cache (rq_route rq) s') w'.
Proof.
  intros Hl. unfold decide_candidate. destruct (cache_find _ _) as [en|] eqn:E.
  - exists config, w1. cbn zeta. by rewrite E.
  - destruct (probe _ w1) as [r w'] eqn:Ep. exists config, w1. cbn zeta. rewrite E, cache_push. split; [done|].
    exists r. split_and!; [done|apply decides_sanitize|done].
Qed.

(** One more rejected candidate in front. *)
Lemma resolved_cons pin cs e es c w d c1 w1 res c' w' :
  answered c w e d c1 w1 -> rejects d -> resolved pin cs es c1 w1 res c' w' -> resolved pin cs (e :: es) c w res c' w'.
Proof.
  intros Ha Hd. destruct res as [r|m]; cbn [resolved].
  - intros (Ho & [(before & x & after & dx & c2 & w2 & -> & Hp & H)|(Hp & H)]); (split; [done|]); [left|right].
    + exists (e :: before), x, after, dx, c2, w2. split; [done|]. split; [by eapply passed_cons|done].
    + split; [by eapply passed_cons|done].
  - intros (before & x & after & what & w2 & -> & Hp & H). exists (e :: before), x, after, what, w2.
    split; [done|]. split; [by eapply passed_cons|done].
Qed.

Lemma loop_resolved pin cs es : forall tr ds s w,
  let '(res, s', w') := resolve_loop provider_config probe rq t pin cs es tr ds s w in
  resolved pin cs es (route_cache (rq_route rq) s) w res (route_cache (rq_route rq) s') w'.
Proof.
  induction es as [|e es IH]; intros tr ds s w; cbn [resolve_loop].
  - pose proof (finish_exhausted_spec pin cs tr ds s) as H. destruct (finish_exhausted _ _ _ _ _) as [r s'].
    destruct H as (? & ? & ? & ? & ? & Hs). rewrite Hs. split; [done|]. right. split; [constructor|done].
  - destruct (lookup_config _ _ w) as [[config|what] w1] eqn:El.
    2:{ exists [], e, es, what, w. split_and!; [done|constructor|done..]. }
    pose proof (decide_answered e config s w w1 El) as Ha.
    destruct (decide_candidate _ _ _ _ _ _ _) as [[[d hit] s1] w2].
    destruct (outcome d =? kDecline) eqn:E1; [|destruct (outcome d =? kProbeError) eqn:E2]; bprop.
    + match goal with |- context [resolve_loop _ _ _ _ _ _ _ ?tr' ?ds' ?s' _] => specialize (IH tr' ds' s' w2) end.
      destruct (resolve_loop _ _ _ _ _ _ _ _ _ _ _) as [[res s'] w']. eapply resolved_cons; [exact Ha|by left|done].
    + match goal with |- context [resolve_loop _ _ _ _ _ _ _ ?tr' ?ds' ?s' _] => specialize (IH tr' ds' s' w2) end.
      destruct (resolve_loop _ _ _ _ _ _ _ _ _ _ _) as [[res s'] w']. eapply resolved_cons; [exact Ha|by right|].
      destruct hit; [done|]. by rewrite cache_report in IH.
    + match goal with |- context [finish_selected rq t cs e d ?tr' ds s1] =>
        pose proof (finish_selected_spec rq t cs e d tr' ds s1) as H end.
      destruct (finish_selected _ _ _ _ _ _ _ _) as [r s']. destruct H as (? & ? & ? & ? & ? & Hs). rewrite Hs.
      split; [done|]. left. exists [], e, es, d, (route_cache (rq_route rq) s), w.
      split_and!; try done; [constructor|by intros [?|?]].
Qed.
End Answers.

(** C18 The winner of a route is the first candidate in policy order that is not rejected, whatever
    the caches hold and whatever the host's callbacks do.  Each candidate in turn is decided by the
    entry the route's cache has for it under its present configuration, and then its probe is not
    called, or else by its probe, whose answer is cached: an acceptance selects the candidate with
    the probe's instance; a decline, an error, an exception and an invalid outcome go on to the next.
    If all are rejected, nothing is selected, and the status tells whether a pin was the reason; the
    resolution fails only where the configuration of a candidate throws, after its
    predecessors were rejected.  A stale entry is therefore believed.  For a host whose configurations
    never throw and whose configurations and probes are functions of what the cache compares,
    and a cache that holds answers of that host (an empty one does, and resolutions keep it so), the
    caching is invisible: the winner is the first candidate whose probe accepts. *)
Theorem resolve_first_accepted {L W} provider_config probe rq k pins (s : ParserRouteResolver L) (w : W) t cs :
  orderedCandidates rq k pins = Ok cs -> cs <> [] ->
  normalizeParserTypeName (rq_encoding rq) (rq_type_name rq) = Ok t ->
  let '(res, s', w') := resolve rq k pins provider_config (Some probe) s w in
  resolved provider_config probe rq t (forRoute pins (rq_route rq)) cs cs (route_cache (rq_route rq) s) w res
    (route_cache (rq_route rq) s') w' /\
  forall configs decide_key,
    (forall p w, (lookup_config provider_config p w).1 = Returned (configs p)) ->
    (forall e w, (probe (mkProbe (claim e) (provider_generation e) (configs (provider_id (claim e)))) w).1
                 = decide_key (cache_key rq t e (configs (provider_id (claim e))))) ->
    cache_true decide_key (route_cache (rq_route rq) s) ->
    cache_true decide_key (route_cache (rq_route rq) s') /\
    exists r, res = Ok r /\ loop_spec rq t configs decide_key (forRoute pins (rq_route rq)) cs cs r.
Proof.
  intros Hcs Hne Ht. unfold resolve, resolve_with. rewrite Ht, Hcs. rewrite bool_decide_eq_false_2 by done.
  pose proof (loop_resolved provider_config probe rq t (forRoute pins (rq_route rq)) cs cs (map candidate_trace cs) [] s w) as H.
  destruct (resolve_loop _ _ _ _ _ _ _ _ _ _ _) as [[res s'] w'] eqn:E. split; [exact H|].
  intros configs decide_key Hconfig Hprobe Hc.
  destruct (loop_deterministic provider_config probe rq t configs decide_key Hconfig Hprobe
    (forRoute pins (rq_route rq)) cs cs (map candidate_trace cs) [] s w Hc) as (r & s2 & w2 & E2 & Hl & Hc2).
  rewrite E in E2. injection E2 as -> -> ->. split; [done|]. by exists r.
Qed.

(** ** Nothing is probed twice *)

Section Settled.
Context {L W : Type}.
Implicit Types s : ParserRouteResolver L.
Context (provider_config : option (bytes -> W -> CallResult ParserProviderConfig * W)).
Context (probe : ParserProbeRequest -> W -> CallResult (ParserProbeDecision L) * W).
Context (rq : ParserRouteRequest) (t : bytes) (configs : bytes -> ParserProviderConfig).
Hypothesis Hconfig : forall p w, lookup_config provider_config p w = (Returned (configs p), w).

Definition cached_entry s key' : option (CacheEntry L) := cache_find key' (route_cache (rq_route rq) s).

(** What a cache knows is kept. *)
Definition settled s s' : Prop := forall key' en, cached_entry s key' = Some en -> cached_entry s' key' = Some en.

#[local] Instance settled_preorder : PreOrder settled.
Proof. split; [intros s key' en|intros s1 s2 s3 H1 H2 key' en H]; auto. Qed.

Lemma settled_eq s s' : route_cache (rq_route rq) s' = route_cache (rq_route rq) s -> settled s s'.
Proof. intros H key' en. unfold cached_entry. by rewrite H. Qed.

Lemma cache_find_app key' (c1 c2 : list (CacheEntry L)) :
  cache_find key' (c1 ++ c2) = match cache_find key' c1 with Some en => Some en | None => cache_find key' c2 end.
Proof. unfold cache_find. induction c1 as [|en c1 IH]; cbn; [done|]. by case_bool_decide. Qed.

Lemma decide_settles e config s w d hit s1 w1 :
  decide_candidate probe rq t e config s w = (d, hit, s1, w1) ->
  settled s s1 /\ exists en, cached_entry s1 (cache_key rq t e config) = Some en /\ decision en = d.
Proof.
  unfold decide_candidate. fold (cached_entry s (cache_key rq t e config)).
  destruct (cached_entry s _) as [en|] eqn:E.
  - intros [= <- _ <- _]. split; [done|]. by exists en.
  - destruct (probe _ w) as [r w']. intros [= <- _ <- _]. split.
    + intros key' en H. unfold cached_entry in *. by rewrite cache_push, cache_find_app, H.
    + exists (mkCacheEntry (cache_key rq t e config) (sanitize r)). split; [|done].
      unfold cached_entry in *. rewrite cache_push, cache_find_app, E. cbn. by rewrite bool_decide_eq_true_2.
Qed.

Lemma decide_cached e config s w en :
  cached_entry s (cache_key rq t e config) = Some en ->
  decide_candidate probe rq t e config s w = (decision en, true, s, w).
Proof. intros H. unfold decide_candidate. fold (cached_entry s (cache_key rq t e config)). by rewrite H. Qed.

(** Two resolutions that agree on all but their traces. *)
Definition same_outcome (r r2 : ParserRouteResolution L) : Prop :=
  status r2 = status r /\ winner r2 = winner r /\ winning_claim r2 = winning_claim r /\
  res_instance r2 = res_instance r /\ ordered_candidates r2 = ordered_candidates r.

Lemma loop_settles pin cs es tr ds s w r s' w' :
  resolve_loop provider_config probe rq t pin cs es tr ds s w = (Ok r, s', w') ->
  settled s s' /\
  forall s2 tr2 ds2 w2, settled s' s2 ->
    exists r2 s2', resolve_loop provider_config probe rq t pin cs es tr2 ds2 s2 w2 = (Ok r2, s2', w2) /\
      same_outcome r r2 /\ route_cache (rq_route rq) s2' = route_cache (rq_route rq) s2.
Proof.
  revert tr ds s w. induction es as [|e es IH]; intros tr ds s w; cbn [resolve_loop].
  - pose proof (finish_exhausted_spec pin cs tr ds s) as H. destruct (finish_exhausted pin cs tr ds s) as [r0 s0].
    intros [= -> -> _]. split; [apply settled_eq, H|]. intros s2 tr2 ds2 w2 _.
    pose proof (finish_exhausted_spec pin cs tr2 ds2 s2) as H2. destruct (finish_exhausted pin cs tr2 ds2 s2) as [r2 s2'].
    exists r2, s2'. split; [done|]. unfold same_outcome. destruct_and! H. destruct_and! H2. split_and!; congruence.
  - rewrite Hconfig. destruct (decide_candidate _ _ _ e _ s w) as [[[d hit] s1] w1] eqn:Ed.
    apply decide_settles in Ed as (Hs1 & en & Hen & Hd). intros Hloop.
    assert (settled s1 s' /\ forall s2 tr2 ds2 w2, settled s' s2 ->
      exists r2 s2', resolve_loop provider_config probe rq t pin cs (e :: es) tr2 ds2 s2 w2 = (Ok r2, s2', w2) /\
        same_outcome r r2 /\ route_cache (rq_route rq) s2' = route_cache (rq_route rq) s2) as [Hs Hr];
      [|split; [by transitivity s1|intros s2 tr2 ds2 w2; apply Hr]].
    assert (forall s2 w2, settled s' s2 -> settled s1 s' ->
      decide_candidate probe rq t e (configs (provider_id (claim e))) s2 w2 = (d, true, s2, w2)) as Hhit.
    { intros s2 w2 H2 H1. rewrite (decide_cached _ _ _ _ en) by auto. by rewrite Hd. }
    destruct (outcome d =? kDecline) eqn:E1; [|destruct (outcome d =? kProbeError) eqn:E2].
    + apply IH in Hloop as [Hs Hr]. split; [done|]. intros s2 tr2 ds2 w2 H2. cbn [resolve_loop].
      rewrite Hconfig, Hhit, E1 by done. by apply Hr.
    + apply IH in Hloop as [Hs Hr].
      assert (settled s1 s') as Hs' by (etransitivity; [apply settled_eq|exact Hs]; destruct hit; [done|apply cache_report]).
      split; [done|]. intros s2 tr2 ds2 w2 H2. cbn [resolve_loop]. rewrite Hconfig, Hhit, E1, E2 by done. by apply Hr.
    + match type of Hloop with context [finish_selected rq t cs e d ?tr' ds s1] =>
        pose proof (finish_selected_spec rq t cs e d tr' ds s1) as H end.
      destruct (finish_selected _ _ _ _ _ _ _ _) as [r0 s0]. injection Hloop as -> -> _.
      assert (settled s1 s') as Hs' by apply settled_eq, H. split; [done|]. intros s2 tr2 ds2 w2 H2.
      cbn [resolve_loop]. rewrite Hconfig, Hhit, E1, E2 by done.
      match goal with |- context [finish_selected rq t cs e d ?tr' ds2 s2] =>
        pose proof (finish_selected_spec rq t cs e d tr' ds2 s2) as H3 end.
      destruct (finish_selected _ _ _ _ _ _ _ _) as [r2 s2']. exists r2, s2'. split; [done|].
      unfold same_outcome. destruct_and! H. destruct_and! H3. split_and!; congruence.
Qed.
End Settled.

(** Nothing is probed twice: repeating a resolution in a later state of the host,
    with stable configurations and no invalidation between, gives the same outcome
    without calling the probe (the state of the host does not move) and leaves the
    cache as it is.  The probe itself may be arbitrary. *)
Theorem resolve_idempotent {L W} provider_config probe rq k pins (s : ParserRouteResolver L) (w : W)
    configs r s' w' w2 :
  (forall p w, lookup_config provider_config p w = (Returned (configs p), w)) ->
  resolve rq k pins provider_config (Some probe) s w = (Ok r, s', w') ->
  exists r2 s2, resolve rq k pins provider_config (Some probe) s' w2 = (Ok r2, s2, w2) /\
    same_outcome r r2 /\ route_cache (rq_route rq) s2 = route_cache (rq_route rq) s'.
Proof.
  intros Hconfig. unfold resolve, resolve_with. destruct (normalizeParserTypeName _ _) as [t|]; [|done].
  destruct (orderedCandidates rq k pins) as [cs|]; [|done]. case_bool_decide.
  - unfold finish_empty. destruct (forRoute pins (rq_route rq)); intros [= <- <- <-]; eexists _, _;
      split_and!; try done; apply cache_report.
  - intros Hl. apply (loop_settles _ _ _ _ configs Hconfig) in Hl as [_ Hr]. apply Hr. by intros key' en.
Qed.

(** ** Witnesses: two providers claim an image type; the exact claim is probed first *)

Definition demo_routes : ParserClaimCatalog :=
  catalog_run
    [OpPlugin (str "wild") demo_encodings [] kFolderDrop 1; OpPlugin (str "img") demo_encodings demo_exact kBundled 7]
    (catalog_new false).

Definition demo_request : ParserRouteRequest :=
  mkRequest (str "ros2msg") (str "sensor_msgs/Image") (str "") kScalar.

Definition demo_candidates : list ParserRouteCandidate :=
  match orderedCandidates demo_request demo_routes (mkPins None None) with Ok cs => cs | Err _ => [] end.

Lemma demo_routes_ok : catalog_ok demo_routes.
Proof. apply catalog_ok_run, catalog_ok_new. Qed.

Lemma candidates_order_witness :
  length demo_candidates = 3%nat /\
  StronglySorted (fun x y => ranks_before x y = true) demo_candidates.
Proof.
  split; [by vm_compute|].
  apply (candidates_order demo_request demo_routes (mkPins None None)); [apply demo_routes_ok|vm_compute; reflexivity].
Defined.

(** The bundled exact claim declines and its wildcard throws; the state counts calls. *)
Definition demo_decide (key' : CacheKey) : CallResult (ParserProbeDecision nat) :=
  if bytes_eqb (k_provider key') (str "wild") then Returned (mkDecision kAccept "" (Some 5%nat))
  else if bytes_eqb (k_claim key') (str "wildcard:ros2msg") then Threw (Some "boom"%string)
  else Returned (mkDecision kDecline "" None).

Definition demo_probe (p : ParserProbeRequest) (calls : nat) : CallResult (ParserProbeDecision nat) * nat :=
  (demo_decide (cache_key demo_request (str "sensor_msgs/msg/Image") (mkEntry (p_claim p) (p_generation p))
     (p_config p)), S calls).

Definition demo_resolve (s : ParserRouteResolver nat) (calls : nat) :=
  resolve demo_request demo_routes (mkPins None None) None (Some demo_probe) s calls.

Definition demo_result : ParserRouteResolution nat * ParserRouteResolver nat :=
  match demo_resolve (resolver_new true) 0 with
  | (Ok r, s, _) => (r, s)
  | (Err _, s, _) => (mkResolution kNoCandidates None None None [] [], s)
  end.

Lemma resolve_admissible_witness :
  winner (demo_result.1) = Some (str "wild", str "wildcard:ros2msg") /\
  match winner (demo_result.1) with
  | Some i =>
    status (demo_result.1) = kSelected /\
    exists e, e ∈ claims demo_routes /\ valid_claim (claim e) /\ i = identity (claim e) /\
      winning_claim (demo_result.1) = Some (claim e) /\
      encoding (claim e) = rq_encoding demo_request /\
      has_route (routeFlag (rq_route demo_request)) (claim e) = true /\
      (forall p, forRoute (mkPins None None) (rq_route demo_request) = Some p -> i.1 = p)
  | None =>
    winning_claim (demo_result.1) = None /\ res_instance (demo_result.1) = None /\
    status (demo_result.1) ∈ match forRoute (mkPins None None) (rq_route demo_request) with
               | Some _ => [kPinnedProviderUnavailable; kPinnedProviderRejected]
               | None => [kNoCandidates; kNoProviderAccepted]
               end
  end.
Proof.
  split; [by vm_compute|].
  apply (resolve_admissible None (Some demo_probe) demo_request demo_routes (mkPins None None)
           (resolver_new true) 0%nat (demo_result.1) (demo_result.2) 3%nat);
    [apply demo_routes_ok|vm_compute; reflexivity].
Defined.

(** The second cache holds an acceptance of the exact claim that its probe no longer gives. *)
Definition stale_resolver : ParserRouteResolver nat :=
  match demo_candidates with
  | e :: _ => push_cache kScalar (mkCacheEntry (cache_key demo_request (str "sensor_msgs/msg/Image") e (mkConfig [] []))
                (mkDecision kAccept "" (Some 9%nat))) (resolver_new true)
  | [] => resolver_new true
  end.

Lemma resolve_first_accepted_witness :
  (cache_true demo_decide (route_cache kScalar (demo_result.2)) /\
   exists r, (demo_resolve (resolver_new true) 0).1.1 = Ok r /\
     loop_spec demo_request (str "sensor_msgs/msg/Image") (fun _ => mkConfig [] []) demo_decide None
       demo_candidates demo_candidates r) /\
  (let '(res, s', w') := demo_resolve stale_resolver 0 in
   w' = 0%nat /\ match res with Ok r => winner r = option_map (fun e => identity (claim e)) (head demo_candidates) | _ => False end /\
   resolved None demo_probe demo_request (str "sensor_msgs/msg/Image") None demo_candidates demo_candidates
     (route_cache kScalar stale_resolver) 0%nat res (route_cache kScalar s') w').
Proof.
  split.
  - pose proof (resolve_first_accepted None demo_probe demo_request demo_routes (mkPins None None) (resolver_new true) 0%nat
      (str "sensor_msgs/msg/Image") demo_candidates ltac:(vm_compute; reflexivity) ltac:(by vm_compute)
      ltac:(vm_compute; reflexivity)) as H.
    unfold demo_result. change (resolve _ _ _ _ _ _ _) with (demo_resolve (resolver_new true) 0) in H.
    destruct (demo_resolve (resolver_new true) 0) as [[res s'] w'] eqn:E. destruct H as [_ H].
    destruct (H (fun _ => mkConfig [] []) demo_decide) as (Hc & r & -> & Hl); [done|by intros [c g] w|constructor|].
    split; [done|]. by exists r.
  - pose proof (resolve_first_accepted None demo_probe demo_request demo_routes (mkPins None None) stale_resolver 0%nat
      (str "sensor_msgs/msg/Image") demo_candidates ltac:(vm_compute; reflexivity) ltac:(by vm_compute)
      ltac:(vm_compute; reflexivity)) as H.
    change (resolve _ _ _ _ _ _ _) with (demo_resolve stale_resolver 0) in H.
    destruct (demo_resolve stale_resolver 0) as [[res s'] w'] eqn:E. vm_compute in E. injection E as <- <- <-.
    split_and!; [done|by vm_compute|exact (proj1 H)].
Defined.

Lemma resolve_idempotent_witness :
  exists r2 s2, demo_resolve (demo_result.2) 100 = (Ok r2, s2, 100%nat) /\
    same_outcome (demo_result.1) r2 /\ route_cache kScalar s2 = route_cache kScalar (demo_result.2).
Proof.
  apply (resolve_idempotent None demo_probe demo_request demo_routes (mkPins None None) (resolver_new true) 0%nat
           (fun _ => mkConfig [] []) (demo_result.1) (demo_result.2) 3%nat); [done|vm_compute; reflexivity].
Defined.
