(* ===== verification/Json.v ===== *)
(** * Json: JSON documents as [nlohmann::json] holds them

    The values the dialog protocol, the manifests and the plugin catalog work with:
    the kinds of numbers a [nlohmann::json] distinguishes, objects as ordered maps,
    element access, the conversions of [get<T>] and [value], and the text.

    The parser and the printer are third-party code: the class [JsonText] states what
    the SDK relies on.  [dump] fails (throws) on text that is not UTF-8; the text of a
    document parses to the document as the wire carries it: a non-negative integer
    comes back unsigned, a number that is not finite comes back as null. *)

From Stdlib Require Import Floats.SpecFloat.
From stdpp Require Import countable sets pretty.
From S2P Require Import Prelude Doubles Text.

(** ** Documents *)

(** [number_integer], [number_unsigned] and [number_float] are different kinds. *)
Inductive json : Type :=
  | JNull
  | JBool (b : bool)
  | JInt (z : Z)
  | JUInt (z : Z)
  | JFloat (f : double)
  | JString (s : bytes)
  | JArray (l : list json)
  | JObject (fields : list (bytes * json)).

Notation members := (list (bytes * json)).

(** [object.find(key)] *)
Fixpoint obj_find (key : bytes) (fs : members) : option json :=
  match fs with
  | [] => None
  | (k, v) :: fs' => if bytes_eqb k key then Some v else obj_find key fs'
  end.

(** [object[key] = value] in a map ordered by key. *)
Fixpoint obj_set (key : bytes) (v : json) (fs : members) : members :=
  match fs with
  | [] => [(key, v)]
  | (k, w) :: fs' =>
    match string_cmp key k with
    | Lt => (key, v) :: (k, w) :: fs'
    | Eq => (k, v) :: fs'
    | Gt => (k, w) :: obj_set key v fs'
    end
  end.

(** [object.erase(key)] *)
Definition obj_erase (key : bytes) (fs : members) : members :=
  List.filter (fun e => negb (bytes_eqb e.1 key)) fs.

(** [find] on any value: [end()] unless it is an object that has the key. *)
Definition jfind (key : bytes) (j : json) : option json :=
  match j with JObject fs => obj_find key fs | _ => None end.

(** [j[key] = v]: null becomes an object; any other kind throws. *)
Definition index_set (key : bytes) (v : json) (j : json) : option json :=
  match j with
  | JNull => Some (JObject [(key, v)])
  | JObject fs => Some (JObject (obj_set key v fs))
  | _ => None
  end.

(** [j.erase(key)] throws on anything but an object. *)
Definition jerase (key : bytes) (j : json) : option json :=
  match j with JObject fs => Some (JObject (obj_erase key fs)) | _ => None end.

(** The object of an initializer list of pairs. *)
Definition jobject (pairs : members) : json := JObject (foldl (fun fs e => obj_set e.1 e.2 fs) [] pairs).

Definition jstrings (l : list bytes) : json := JArray (map JString l).
Definition jints (l : list Z) : json := JArray (map JInt l).

(** ** Conversions *)

Definition is_number_integer (j : json) : bool :=
  match j with JInt _ | JUInt _ => true | _ => false end.

(** [get<int>()] of an integer number: reduced to 32 bits. *)
Definition get_int (j : json) : Z :=
  match j with JInt z | JUInt z => to_signed 32 z | _ => 0 end.

(** [get<double>()] of a number. *)
Definition get_double (j : json) : option double :=
  match j with JInt z | JUInt z => Some (int_to_double z) | JFloat f => Some f | _ => None end.

Definition get_string (j : json) : option bytes := match j with JString s => Some s | _ => None end.
Definition get_bool (j : json) : option bool := match j with JBool b => Some b | _ => None end.

(** Results of accessors that let a [type_error] of the library out. *)
Inductive thrown (A : Type) : Type :=
  | Got (a : A)
  | Throws
  | Undefined.
Arguments Got {A} a.
Arguments Throws {A}.
Arguments Undefined {A}.

Definition tbind {A B} (m : thrown A) (f : A -> thrown B) : thrown B :=
  match m with Got a => f a | Throws => Throws | Undefined => Undefined end.

Notation "'lett' x := m 'in' k" := (tbind m (fun x => k))
  (at level 10, x pattern, m at level 100, k at level 200) : pj_scope.

(** [j.value(key, default)]: throws unless [j] is an object and the member, if it is
    there, converts. *)
Definition jvalue {A} (convert : json -> thrown A) (key : bytes) (default : A) (j : json) : thrown A :=
  match j with
  | JObject fs => match obj_find key fs with Some v => convert v | None => Got default end
  | _ => Throws
  end.

Definition of_option {A} (o : option A) : thrown A := match o with Some a => Got a | None => Throws end.

Definition to_str (j : json) : thrown bytes := of_option (get_string j).
Definition to_bool (j : json) : thrown bool := of_option (get_bool j).
Definition to_double (j : json) : thrown double := of_option (get_double j).

(** [int] is not one of the library's own number types: a boolean converts too. *)
Definition to_int (j : json) : thrown Z :=
  match j with
  | JInt z | JUInt z => Got (to_signed 32 z)
  | JBool b => Got (if b then 1 else 0)
  | JFloat f => match double_to_int f with Val z => Got z | Undef => Undefined end
  | _ => Throws
  end.

(** ** Well-formed documents and the wire *)

Fixpoint keys_ascending (keys : list bytes) : bool :=
  match keys with
  | k1 :: (k2 :: _) as rest => is_lt (string_cmp k1 k2) && keys_ascending rest
  | _ => true
  end.

(** What a [nlohmann::json] can hold: map keys ascend, numbers have their width. *)
Fixpoint wf (j : json) : bool :=
  match j with
  | JInt z => bool_decide (in_s 64 z)
  | JUInt z => bool_decide (in_u 64 z)
  | JFloat f => double_ok f
  | JArray l => forallb wf l
  | JObject fs => keys_ascending (map fst fs) && forallb (fun e => wf e.2) fs
  | _ => true
  end.

(** A document after it was printed and parsed. *)
Fixpoint wire (j : json) : json :=
  match j with
  | JInt z => if z >=? 0 then JUInt z else JInt z
  | JFloat f => if is_finite f then JFloat f else JNull
  | JArray l => JArray (map wire l)
  | JObject fs => JObject (map (fun e => (e.1, wire e.2)) fs)
  | _ => j
  end.

Class JsonText : Type := {
  dump : json -> option bytes;
  parse : bytes -> option json;
  parse_dump : forall j text, wf j = true -> dump j = Some text -> parse text = Some (wire j)
}.

(** ** Induction and element access *)

Section Induction.
Context (P : json -> Prop).
Context (Hnull : P JNull) (Hbool : forall b, P (JBool b)) (Hint : forall z, P (JInt z)) (Huint : forall z, P (JUInt z)).
Context (Hfloat : forall f, P (JFloat f)) (Hstring : forall s, P (JString s)).
Context (Harray : forall l, Forall P l -> P (JArray l)).
Context (Hobject : forall fs : members, Forall (fun e => P e.2) fs -> P (JObject fs)).

Fixpoint json_nested_ind (j : json) : P j :=
  match j with
  | JNull => Hnull
  | JBool b => Hbool b
  | JInt z => Hint z
  | JUInt z => Huint z
  | JFloat f => Hfloat f
  | JString s => Hstring s
  | JArray l =>
    Harray l ((fix go l : Forall P l :=
      match l with [] => Forall_nil_2 P | x :: l' => Forall_cons_2 P x l' (json_nested_ind x) (go l') end) l)
  | JObject fs =>
    Hobject fs ((fix go (fs : members) : Forall (fun e => P e.2) fs :=
      match fs with
      | [] => Forall_nil_2 _
      | e :: fs' => Forall_cons_2 (fun e => P e.2) e fs' (json_nested_ind e.2) (go fs')
      end) fs)
  end.
End Induction.

Lemma string_cmp_refl k : string_cmp k k = Eq.
Proof. by apply string_cmp_eq. Qed.

Lemma obj_find_set_eq key v fs : obj_find key (obj_set key v fs) = Some v.
Proof.
  induction fs as [|[k w] fs IH]; cbn; [by rewrite bytes_eqb_refl|].
  destruct (string_cmp key k) eqn:E; cbn.
  - apply string_cmp_eq in E as ->. by rewrite bytes_eqb_refl.
  - by rewrite bytes_eqb_refl.
  - rewrite (proj2 (bytes_eqb_neq k key)); [done|]. intros ->. by rewrite string_cmp_refl in E.
Qed.

Lemma obj_find_set_ne key key' v fs : key <> key' -> obj_find key' (obj_set key v fs) = obj_find key' fs.
Proof.
  intros Hne. induction fs as [|[k w] fs IH]; cbn; [by rewrite (proj2 (bytes_eqb_neq key key'))|].
  destruct (string_cmp key k) eqn:E; cbn; [|by rewrite (proj2 (bytes_eqb_neq key key'))|by rewrite IH].
  apply string_cmp_eq in E as ->. by rewrite (proj2 (bytes_eqb_neq k key')).
Qed.

Lemma obj_find_erase_eq key fs : obj_find key (obj_erase key fs) = None.
Proof.
  induction fs as [|[k w] fs IH]; cbn; [done|]. destruct (bytes_eqb k key) eqn:E; cbn; [done|]. by rewrite E.
Qed.

Lemma obj_find_erase_ne key key' fs : key <> key' -> obj_find key' (obj_erase key fs) = obj_find key' fs.
Proof.
  intros Hne. unfold obj_erase. induction fs as [|[k w] fs IH]; cbn; [done|].
  destruct (bytes_eqb k key) eqn:E; cbn; [|by rewrite IH].
  apply bytes_eqb_eq in E as ->. by rewrite IH, (proj2 (bytes_eqb_neq key key')).
Qed.

Lemma obj_find_wire key fs :
  obj_find key (map (fun e => (e.1, wire e.2)) fs) = option_map wire (obj_find key fs).
Proof. induction fs as [|[k w] fs IH]; cbn; [done|]. by destruct (bytes_eqb k key). Qed.

Lemma jfind_wire key j : jfind key (wire j) = option_map wire (jfind key j).
Proof.
  destruct j as [| |z| |f| | |]; try done; cbn [wire].
  - by destruct (z >=? 0).
  - by destruct (is_finite f).
  - apply obj_find_wire.
Qed.

(** ** Well-formedness *)

Lemma keys_ascending_cons k ks :
  keys_ascending (k :: ks) = true <->
  keys_ascending ks = true /\ Forall (fun k' => string_cmp k k' = Lt) ks.
Proof.
  revert k. induction ks as [|k' ks IH]; intros k; [cbn; split; [by intros _|done]|].
  change (keys_ascending (k :: k' :: ks)) with (is_lt (string_cmp k k') && keys_ascending (k' :: ks)).
  rewrite andb_true_iff, Forall_cons. split.
  - intros [H1 H2]. split; [done|]. assert (string_cmp k k' = Lt) as Hlt by (by destruct (string_cmp k k')).
    split; [done|]. apply IH in H2 as [_ Hf]. eapply Forall_impl; [exact Hf|]. intros x Hx. cbn in Hx.
    by apply (cmp_lt_trans (P:=fun _ => True) (cmp:=string_cmp) k k' x).
  - intros [H1 [H2 _]]. by rewrite H2.
Qed.

Lemma obj_set_keys key v fs k : k ∈ map fst (obj_set key v fs) -> k = key \/ k ∈ map fst fs.
Proof.
  induction fs as [|[k' w] fs IH]; cbn; [set_solver|]. destruct (string_cmp key k') eqn:E; cbn; set_solver.
Qed.

Lemma wf_object fs :
  wf (JObject fs) = true <-> keys_ascending (map fst fs) = true /\ Forall (fun e : bytes * json => wf e.2 = true) fs.
Proof.
  cbn [wf]. rewrite andb_true_iff, forallb_forall, Forall_forall. setoid_rewrite list_elem_of_In. done.
Qed.

Lemma wf_obj_set key v fs :
  wf v = true -> wf (JObject fs) = true -> wf (JObject (obj_set key v fs)) = true.
Proof.
  rewrite !wf_object. intros Hv [Hk Hf]. induction fs as [|[k w] fs IH]; [by repeat constructor|].
  apply keys_ascending_cons in Hk as [Hk Hlt]. apply Forall_cons in Hf as [Hw Hf].
  specialize (IH Hk Hf) as [IHk IHf]. cbn [obj_set]. destruct (string_cmp key k) eqn:E.
  - split; [apply keys_ascending_cons; by split|by constructor].
  - split; [|by repeat constructor]. apply keys_ascending_cons. split; [by apply keys_ascending_cons|].
    constructor; [done|]. eapply Forall_impl; [exact Hlt|]. intros x Hx. cbn in Hx.
    by apply (cmp_lt_trans (P:=fun _ => True) (cmp:=string_cmp) key k x).
  - split; [|by constructor]. cbn [map fst]. apply keys_ascending_cons. split; [done|].
    apply Forall_forall. intros x [->|Hx]%obj_set_keys.
    + by rewrite (cmp_flip (P:=fun _ => True) (cmp:=string_cmp) key k), E.
    + rewrite Forall_forall in Hlt. by apply Hlt.
Qed.

Lemma wf_obj_erase key fs : wf (JObject fs) = true -> wf (JObject (obj_erase key fs)) = true.
Proof.
  rewrite !wf_object. intros [Hk Hf]. unfold obj_erase. induction fs as [|[k w] fs IH]; [done|].
  apply keys_ascending_cons in Hk as [Hk Hlt]. apply Forall_cons in Hf as [Hw Hf].
  specialize (IH Hk Hf) as [IHk IHf]. cbn. destruct (negb _); [|done]. split; [|by constructor].
  apply keys_ascending_cons. split; [done|]. apply Forall_forall. intros x (e & -> & He)%list_elem_of_fmap.
  apply list_elem_of_In, filter_In in He as [He _]. rewrite Forall_forall in Hlt. apply Hlt.
  by apply list_elem_of_fmap_2, list_elem_of_In.
Qed.

Lemma wf_obj_find key fs v : wf (JObject fs) = true -> obj_find key fs = Some v -> wf v = true.
Proof.
  rewrite wf_object. intros [_ Hf]. induction Hf as [|[k w] fs Hw Hf IH]; [done|]. cbn.
  destruct (bytes_eqb k key); [by intros [= <-]|done].
Qed.

Lemma wf_index_set key v j j' : wf v = true -> wf j = true -> index_set key v j = Some j' -> wf j' = true.
Proof.
  intros Hv Hj. destruct j; try done; cbn [index_set]; intros [= <-]; [|by apply wf_obj_set].
  cbn. by rewrite Hv.
Qed.

Lemma wf_jobject pairs : Forall (fun e => wf e.2 = true) pairs -> wf (jobject pairs) = true.
Proof.
  unfold jobject. assert (wf (JObject []) = true) as H by done. revert H. generalize (@nil (bytes * json)) as acc.
  induction pairs as [|e pairs IH]; intros acc H; cbn; [done|]. intros [He Hf]%Forall_cons.
  apply IH; [by apply wf_obj_set|done].
Qed.

Lemma wf_array l : wf (JArray l) = true <-> Forall (fun j => wf j = true) l.
Proof. cbn. rewrite forallb_forall, Forall_forall. by setoid_rewrite list_elem_of_In. Qed.

Lemma wf_strings l : wf (jstrings l) = true.
Proof. apply wf_array, Forall_map, Forall_true. done. Qed.

Lemma in_s_64 z : in_s 32 z -> in_s 64 z.
Proof. unfold in_s. cbn. lia. Qed.

Lemma wf_int z : in_s 32 z -> wf (JInt z) = true.
Proof. intros. cbn. by apply bool_decide_eq_true, in_s_64. Qed.

Lemma wf_ints l : Forall (in_s 32) l -> wf (jints l) = true.
Proof. intros H. apply wf_array, Forall_map. eapply Forall_impl; [exact H|]. apply wf_int. Qed.

(** ** Members of objects *)

Lemma obj_find_both k fs gs : obj_find k (fs ++ gs) = match obj_find k fs with Some v => Some v | None => obj_find k gs end.
Proof. induction fs as [|[a v] fs IH]; [done|]. cbn. by destruct (bytes_eqb a k). Qed.

Lemma obj_find_absent k fs : k ∉ map fst fs -> obj_find k fs = None.
Proof.
  induction fs as [|[a v] fs IH]; [done|]. cbn. rewrite not_elem_of_cons. intros [H1 H2].
  rewrite (proj2 (bytes_eqb_neq a k)) by done. by apply IH.
Qed.

Lemma obj_find_in k v fs : obj_find k fs = Some v -> (k, v) ∈ fs.
Proof.
  induction fs as [|[a w] fs IH]; [done|]. cbn. destruct (bytes_eqb a k) eqn:E; [apply bytes_eqb_eq in E as ->|].
  - intros [= ->]. left.
  - intros H. right. by apply IH.
Qed.

Lemma foldl_set_find k pairs fs :
  NoDup (map fst pairs) ->
  obj_find k (foldl (fun fs e => obj_set e.1 e.2 fs) fs pairs) = match obj_find k pairs with Some v => Some v | None => obj_find k fs end.
Proof.
  revert fs. induction pairs as [|[a v] pairs IH]; intros fs Hn; [done|]. cbn [map fst] in Hn. apply NoDup_cons in Hn as [Ha Hn].
  cbn [foldl fst snd obj_find]. rewrite IH by done. destruct (bytes_eqb a k) eqn:E.
  - apply bytes_eqb_eq in E as ->. by rewrite obj_find_absent, obj_find_set_eq.
  - apply bytes_eqb_neq in E. destruct (obj_find k pairs); [done|]. by rewrite obj_find_set_ne.
Qed.

(** An object literal holds its pairs. *)
Lemma jobject_find k pairs : NoDup (map fst pairs) -> jfind k (jobject pairs) = obj_find k pairs.
Proof. intros H. cbn [jfind jobject]. rewrite foldl_set_find by done. by destruct (obj_find k pairs). Qed.

Lemma obj_set_in key v fs e : e ∈ obj_set key v fs -> e = (key, v) \/ e ∈ fs.
Proof.
  induction fs as [|[k w] fs IH]; cbn [obj_set]; [set_solver|]. destruct (string_cmp key k) eqn:E.
  - apply string_cmp_eq in E as ->. rewrite !elem_of_cons. tauto.
  - rewrite !elem_of_cons. tauto.
  - rewrite !elem_of_cons. tauto.
Qed.

(** In a document that is a map, what is listed is what is found. *)
Lemma wf_found fs k v : wf (JObject fs) = true -> (k, v) ∈ fs -> obj_find k fs = Some v.
Proof.
  rewrite wf_object. intros [Hk _]. induction fs as [|[a w] fs IH]; [by intros ?%elem_of_nil|].
  apply keys_ascending_cons in Hk as [Hk Hlt]. rewrite elem_of_cons. cbn [obj_find]. intros [[= -> ->]|Hin].
  - by rewrite bytes_eqb_refl.
  - destruct (bytes_eqb a k) eqn:E; [|by apply IH]. apply bytes_eqb_eq in E as ->. rewrite Forall_forall in Hlt.
    assert (string_cmp k k = Lt) as C by (apply Hlt, list_elem_of_fmap; by exists (k, v)). by rewrite string_cmp_refl in C.
Qed.

Lemma obj_find_hd k v fs : obj_find k ((k, v) :: fs) = Some v.
Proof. cbn. by rewrite bytes_eqb_refl. Qed.

Lemma obj_find_tl k a v fs : a <> k -> obj_find k ((a, v) :: fs) = obj_find k fs.
Proof. intros H. cbn. by rewrite (proj2 (bytes_eqb_neq a k)). Qed.

Ltac find_member :=
  rewrite jobject_find by by_compute; repeat first [rewrite obj_find_hd | rewrite obj_find_tl by by_compute];
  change (obj_find ?k []) with (@None json).

(** ** Loops over elements *)

(** A loop that appends what each element gives and returns at the first error. *)
Fixpoint each_entry {A B} (f : A -> Expected B) (l : list A) : Expected (list B) :=
  match l with
  | [] => Ok []
  | x :: l' => let? y := f x in let? ys := each_entry f l' in Ok (y :: ys)
  end.

Lemma each_entry_sound {A B} (f : A -> Expected B) l ys : each_entry f l = Ok ys -> Forall2 (fun x y => f x = Ok y) l ys.
Proof.
  revert ys. induction l as [|x l IH]; intros ys; cbn; [by intros [= <-]; constructor|].
  destruct (f x) as [y|] eqn:E; [|done]. cbn. destruct (each_entry f l) as [ys'|]; [|done]. intros [= <-]. constructor; [done|by apply IH].
Qed.

Lemma each_entry_back {A B} (f : A -> Expected B) (g : B -> A) ys :
  Forall (fun y => f (g y) = Ok y) ys -> each_entry f (map g ys) = Ok ys.
Proof. induction 1 as [|y ys Hy _ IH]; [done|]. cbn. by rewrite Hy, IH. Qed.

(** ** Decimal integers: [std::to_string] and [parseNumber] *)

(** [std::to_string] of a signed integer. *)
Definition int_text (z : Z) : bytes := str (pretty z).

Fixpoint digits_value (acc : Z) (text : bytes) : option Z :=
  match text with
  | [] => Some acc
  | c :: text' => if isAsciiDigit c then digits_value (acc * 10 + (b2z c - 48)) text' else None
  end.

(** [parseNumber] of a [w]-bit signed type: [std::from_chars] in base 10 over the whole
    text; a leading minus sign is the only one, and a value out of range is an error. *)
Definition parseNumber (w : Z) (text : bytes) : option Z :=
  let number :=
    match text with
    | [] => None
    | c :: rest =>
      if byte_eqb c (ch "-")
      then match rest with [] => None | _ => option_map Z.opp (digits_value 0 rest) end
      else digits_value 0 text
    end in
  match number with
  | Some z => if bool_decide (in_s w z) then Some z else None
  | None => None
  end.

Lemma digit_char n : (n < 10)%N -> let c := byte_of_ascii (pretty_N_char n) in isAsciiDigit c = true /\ b2z c = 48 + Z.of_N n.
Proof.
  intros H. assert (In n [0; 1; 2; 3; 4; 5; 6; 7; 8; 9]%N) as Hin.
  { destruct n as [|p]; [by left|]. do 4 (destruct p as [p|p|]; try (cbn; tauto); try lia). }
  cbn in Hin. repeat (destruct Hin as [<-|Hin]; [by split|]). done.
Qed.

Lemma str_cons c s : str (String c s) = byte_of_ascii c :: str s.
Proof. done. Qed.

Lemma digits_pretty_go n s : (0 < n)%N -> digits_value 0 (str (pretty_N_go n s)) = digits_value (Z.of_N n) (str s).
Proof.
  assert (forall n s, digits_value 0 (str (pretty_N_go n s)) = digits_value (Z.of_N n) (str s)) as H; [|by intros; apply H].
  clear. intros n. induction (N.lt_wf_0 n) as [n _ IH]. intros s. destruct (decide (0 < n)%N) as [Hn|Hn].
  - rewrite pretty_N_go_step by done. rewrite IH by (by apply N.div_lt).
    pose proof (digit_char (n `mod` 10) ltac:(apply N.mod_lt; lia)) as [Hd Hv].
    rewrite str_cons. cbn [digits_value]. cbv zeta in *. rewrite Hd, Hv. f_equal. pose proof (N.div_mod n 10 ltac:(lia)). lia.
  - assert (n = 0%N) as -> by lia. by rewrite pretty_N_go_0.
Qed.

Lemma digits_pretty (n : N) : digits_value 0 (str (pretty n)) = Some (Z.of_N n).
Proof.
  unfold pretty, pretty_N. case_decide as E; [by subst|]. rewrite digits_pretty_go by lia. done.
Qed.

Lemma pretty_go_head n s : s <> EmptyString \/ (0 < n)%N ->
  (forall c s', s = String c s' -> isAsciiDigit (byte_of_ascii c) = true) ->
  exists c s', pretty_N_go n s = String c s' /\ isAsciiDigit (byte_of_ascii c) = true.
Proof.
  revert s. induction (N.lt_wf_0 n) as [n _ IH]. intros s Hne Hs. destruct (decide (0 < n)%N) as [Hn|Hn].
  - rewrite pretty_N_go_step by done. apply IH; [by apply N.div_lt|by left|].
    intros c s' [= <- <-]. apply digit_char, N.mod_lt. lia.
  - assert (n = 0%N) as -> by lia. rewrite pretty_N_go_0. destruct s as [|c s']; [naive_solver lia|]. eauto.
Qed.

Lemma pretty_head (n : N) : exists c s', pretty n = String c s' /\ isAsciiDigit (byte_of_ascii c) = true.
Proof.
  unfold pretty, pretty_N. case_decide; [by exists "0"%char, ""%string|].
  apply pretty_go_head; [right; lia|done].
Qed.

Lemma digits_value_digits acc t v : digits_value acc t = Some v -> forallb isAsciiDigit t = true.
Proof.
  revert acc. induction t as [|c t IH]; intros acc; [done|]. cbn [digits_value forallb].
  destruct (isAsciiDigit c); [|done]. apply IH.
Qed.

Lemma pretty_digits_only (n : N) : forallb isAsciiDigit (str (pretty n)) = true /\ str (pretty n) <> [].
Proof.
  split; [by eapply (digits_value_digits 0), digits_pretty|].
  by destruct (pretty_head n) as (c & s & -> & _).
Qed.

(** A printed integer parses back. *)
Lemma parseNumber_text w z : in_s w z -> parseNumber w (int_text z) = Some z.
Proof.
  intros Hz. unfold int_text.
  assert (forall n : N, in_s w (Z.of_N n) -> parseNumber w (str (pretty n)) = Some (Z.of_N n)) as Hpos.
  { intros n Hn. unfold parseNumber. destruct (pretty_head n) as (c & s' & E & Hc).
    pose proof (digits_pretty n) as Hd. rewrite E, str_cons in *.
    destruct (byte_eqb (byte_of_ascii c) (ch "-")) eqn:Em.
    - apply byte_eqb_eq in Em. by rewrite Em in Hc.
    - rewrite Hd. by rewrite bool_decide_eq_true_2. }
  destruct z as [|p|p].
  - apply (Hpos 0%N Hz).
  - apply (Hpos (Npos p) Hz).
  - change (pretty (Z.neg p)) with (String "-" (pretty (Npos p))). unfold parseNumber. rewrite str_cons. cbv iota beta. rewrite byte_eqb_refl, digits_pretty.
    destruct (pretty_head (Npos p)) as (c & s' & E & _). rewrite E, str_cons. cbn [option_map].
    by rewrite bool_decide_eq_true_2.
Qed.

(** ** A concrete [JsonText]

    Documents written as the bits of stdpp's code for finite trees: an instance that
    shows the laws of the class can hold, not the text JSON prescribes. *)
Module TreeText.

Notation leaf := (Z + list Z)%type.
Definition zleaf (z : Z) : gen_tree leaf := GenLeaf (inl z).
Definition bleaf (s : bytes) : gen_tree leaf := GenLeaf (inr (map b2z s)).

Definition tree_of_double (f : double) : gen_tree leaf :=
  match f with
  | S754_zero s => GenNode 0 [zleaf (if s then 1 else 0)]
  | S754_infinity s => GenNode 1 [zleaf (if s then 1 else 0)]
  | S754_nan => GenNode 2 []
  | S754_finite s m e => GenNode 3 [zleaf (if s then 1 else 0); zleaf (Zpos m); zleaf e]
  end.

Definition double_of_tree (t : gen_tree leaf) : double :=
  match t with
  | GenNode 0 [GenLeaf (inl s)] => S754_zero (s =? 1)
  | GenNode 1 [GenLeaf (inl s)] => S754_infinity (s =? 1)
  | GenNode 3 [GenLeaf (inl s); GenLeaf (inl (Zpos m)); GenLeaf (inl e)] => S754_finite (s =? 1) m e
  | _ => S754_nan
  end.

Fixpoint to_tree (j : json) : gen_tree leaf :=
  match j with
  | JNull => GenNode 0 []
  | JBool b => GenNode 1 [zleaf (if b then 1 else 0)]
  | JInt z => GenNode 2 [zleaf z]
  | JUInt z => GenNode 3 [zleaf z]
  | JFloat f => GenNode 4 [tree_of_double f]
  | JString s => GenNode 5 [bleaf s]
  | JArray l => GenNode 6 (map to_tree l)
  | JObject fs => GenNode 7 (map (fun e => GenNode 8 [bleaf e.1; to_tree e.2]) fs)
  end.

Fixpoint of_tree (t : gen_tree leaf) : json :=
  match t with
  | GenNode 1 [GenLeaf (inl b)] => JBool (b =? 1)
  | GenNode 2 [GenLeaf (inl z)] => JInt z
  | GenNode 3 [GenLeaf (inl z)] => JUInt z
  | GenNode 4 [f] => JFloat (double_of_tree f)
  | GenNode 5 [GenLeaf (inr s)] => JString (map z2b s)
  | GenNode 6 l => JArray (map of_tree l)
  | GenNode 7 l =>
    JObject (map (fun e => match e with GenNode 8 [GenLeaf (inr k); v] => (map z2b k, of_tree v) | _ => ([], JNull) end) l)
  | _ => JNull
  end.

Lemma bytes_back s : map z2b (map b2z s) = s.
Proof. rewrite List.map_map. induction s as [|b s IH]; cbn; [done|]. by rewrite z2b_b2z, IH. Qed.

Lemma double_back f : double_of_tree (tree_of_double f) = f.
Proof. by destruct f as [[]|[]| |[] m e]. Qed.

Lemma tree_back j : of_tree (to_tree j) = j.
Proof.
  induction j as [|[]| | | | |l IH|fs IH] using json_nested_ind; try done; cbn.
  - by rewrite double_back.
  - by rewrite bytes_back.
  - f_equal. rewrite List.map_map. induction IH as [|x l Hx Hl IH]; cbn; [done|]. by rewrite Hx, IH.
  - f_equal. rewrite List.map_map. induction IH as [|[k v] fs Hx Hl IH]; cbn in *; [done|].
    by rewrite Hx, IH, bytes_back.
Qed.

Fixpoint bits_text (p : positive) : bytes :=
  match p with xH => [] | xO p => z2b 0 :: bits_text p | xI p => z2b 1 :: bits_text p end.

Fixpoint text_bits (t : bytes) : positive :=
  match t with [] => xH | b :: t => if b2z b =? 0 then xO (text_bits t) else xI (text_bits t) end.

Lemma bits_back p : text_bits (bits_text p) = p.
Proof. induction p as [p IH|p IH|]; cbn; [..|done]; rewrite IH; by rewrite b2z_z2b_small by lia. Qed.

Definition tree_text : JsonText.
Proof.
  refine {| dump j := Some (bits_text (encode (to_tree (wire j))));
            parse t := option_map of_tree (decode (text_bits t)) |}.
  intros j text _ [= <-]. by rewrite bits_back, decode_encode; cbn; rewrite tree_back.
Defined.

End TreeText.
