(* ===== verification/WidgetData.v ===== *)
(** * WidgetData: the dialog description a plugin writes

    [pj_plugins/sdk/widget_data.hpp], [tree_types.hpp], [file_picker_types.hpp]: the
    builder of the document [get_widget_data()] returns, one definition per setter.
    A builder is the members of its root object; a setter that makes the JSON library
    throw (a widget whose name is a dialog-level command with a scalar value) is
    [None].  Rendering numbers as display text ([TableItem(T v)]) is not modelled: an
    item carries its text. *)

From stdpp Require Import pretty.
From S2P Require Import Prelude Text Doubles Json.

(** ** Vocabulary *)

(** [NumericValue]: the signed and unsigned alternatives by width; a [float] is the
    double of its value. *)
Inductive NumericValue : Type :=
  | VFloat (f : double)
  | VDouble (f : double)
  | VInt (w : Z) (z : Z)
  | VUInt (w : Z) (z : Z).

Record ChartPoint : Type := mkPoint { pt_x : double; pt_y : double }.

Record TableItem : Type := mkItem { ti_text : bytes; ti_value : option NumericValue }.

Record ChartSeries : Type := mkSeries {
  cs_label : bytes; cs_points : list ChartPoint; cs_color : bytes; cs_dashed : bool }.

Record SceneTopic : Type := mkSceneTopic { st_topic : bytes; st_dataset : bytes }.
Record SceneView : Type := mkSceneView { sv_kind : bytes; sv_topics : list SceneTopic }.

Record ChartMarker : Type := mkMarker {
  cm_kind : bytes; cm_x0 : double; cm_x1 : double; cm_y0 : double; cm_y1 : double; cm_has_value : bool;
  cm_color : bytes; cm_label : bytes }.

Record TableCellUpdate : Type := mkCellUpdate { cu_row : Z; cu_col : Z; cu_item : TableItem }.

Record TimelineMark : Type := mkMark { tm_id : Z; tm_region : bool; tm_start : Z; tm_end : Z }.

Record RangeSliderMarker : Type := mkRangeMarker { rm_start : Z; rm_end : Z; rm_label : bytes }.

Inductive TreeCheckState : Type := TcNone | TcUnchecked | TcPartiallyChecked | TcChecked.

Definition treeCheckStateWireValue (state : TreeCheckState) : bytes :=
  match state with
  | TcNone => str "none"
  | TcUnchecked => str "unchecked"
  | TcPartiallyChecked => str "partially_checked"
  | TcChecked => str "checked"
  end.

Definition treeCheckStateFromWireValue (value : bytes) : option TreeCheckState :=
  if bytes_eqb value (str "none") then Some TcNone
  else if bytes_eqb value (str "unchecked") then Some TcUnchecked
  else if bytes_eqb value (str "partially_checked") then Some TcPartiallyChecked
  else if bytes_eqb value (str "checked") then Some TcChecked
  else None.

Record TreeCell : Type := mkTreeCell {
  tc_text : bytes; tc_sort_value : option NumericValue; tc_tooltip : bytes; tc_icon : bytes }.

Record TreeItem : Type := mkTreeItem {
  tr_id : bytes; tr_parent_id : bytes; tr_cells : list TreeCell; tr_enabled : bool; tr_selectable : bool;
  tr_check_state : TreeCheckState; tr_may_have_children : bool }.

Inductive FilePickerMode : Type := OpenFile | OpenFiles | SaveFile | SelectDirectory.

Definition filePickerModeWireValue (mode : FilePickerMode) : bytes :=
  match mode with
  | OpenFile => str "open_file"
  | OpenFiles => str "open_files"
  | SaveFile => str "save_file"
  | SelectDirectory => str "select_directory"
  end.

Definition filePickerModeFromWireValue (value : bytes) : option FilePickerMode :=
  if bytes_eqb value (str "open_file") then Some OpenFile
  else if bytes_eqb value (str "open_files") then Some OpenFiles
  else if bytes_eqb value (str "save_file") then Some SaveFile
  else if bytes_eqb value (str "select_directory") then Some SelectDirectory
  else None.

Record FilePickerFilter : Type := mkFilter { ff_id : bytes; ff_label : bytes; ff_patterns : list bytes }.

Record FilePickerOptions : Type := mkPicker {
  fp_mode : FilePickerMode; fp_title : bytes; fp_accept_label : bytes; fp_initial_directory : bytes;
  fp_suggested_name : bytes; fp_default_suffix : bytes; fp_filters : list FilePickerFilter;
  fp_initially_selected_filter_id : bytes; fp_confirm_overwrite : bool }.

(** ** The document *)

(** [data_], always an object. *)
Notation data := members.

(** [json(v)] of the active alternative. *)
Definition json_of_numeric (v : NumericValue) : json :=
  match v with VFloat f | VDouble f => JFloat f | VInt _ z => JInt z | VUInt _ z => JUInt z end.

(** The members an optional or a non-empty field adds. *)
Definition when (b : bool) (key : bytes) (v : json) : members := if b then [(key, v)] else [].
Definition nonempty (s : bytes) : bool := negb (bool_decide (s = [])).

Definition chartMarkerToJson (m : ChartMarker) : json :=
  jobject ([(str "kind", JString (cm_kind m)); (str "x0", JFloat (cm_x0 m)); (str "x1", JFloat (cm_x1 m));
            (str "y0", JFloat (cm_y0 m)); (str "y1", JFloat (cm_y1 m)); (str "has_value", JBool (cm_has_value m))]
           ++ when (nonempty (cm_color m)) (str "color") (JString (cm_color m))
           ++ when (nonempty (cm_label m)) (str "label") (JString (cm_label m))).

Definition chartMarkersToJson (marks : list ChartMarker) : json := JArray (map chartMarkerToJson marks).

Definition timelineMarkToJson (m : TimelineMark) : json :=
  jobject [(str "id", JInt (tm_id m)); (str "region", JBool (tm_region m)); (str "start", JInt (tm_start m));
           (str "end", JInt (tm_end m))].

Definition timelineMarksToJson (marks : list TimelineMark) : json := JArray (map timelineMarkToJson marks).

(** [entry(name)] created when missing, then changed by [f]. *)
Definition with_entry (name : bytes) (f : json -> option json) (d : data) : option data :=
  let e := match obj_find name d with Some e => e | None => JObject [] end in
  match f e with Some e' => Some (obj_set name e' d) | None => None end.

(** [entry(name)[key] = v] *)
Definition put (name key : bytes) (v : json) : data -> option data := with_entry name (index_set key v).

Definition obind {A B} (m : option A) (f : A -> option B) : option B :=
  match m with Some a => f a | None => None end.

Notation "'let*' x := m 'in' k" := (obind m (fun x => k))
  (at level 10, x pattern, m at level 100, k at level 200) : pj_scope.

(** Assignments to one entry, in order. *)
Fixpoint puts (pairs : members) (e : json) : option json :=
  match pairs with
  | [] => Some e
  | (k, v) :: pairs' => let* e := index_set k v e in puts pairs' e
  end.

(** [auto& member = e[key]], changed by [f]; a missing member is null. *)
Definition index_update (key : bytes) (f : json -> json) (e : json) : option json :=
  index_set key (f (match jfind key e with Some v => v | None => JNull end)) e.

Definition is_object (j : json) : bool := match j with JObject _ => true | _ => false end.

(** *** Strings, numbers and lists *)

Definition setText (name text : bytes) : data -> option data := put name (str "text") (JString text).
Definition setPlaceholder (name text : bytes) : data -> option data := put name (str "placeholder") (JString text).
Definition setReadOnly (name : bytes) (b : bool) : data -> option data := put name (str "read_only") (JBool b).
Definition setCurrentIndex (name : bytes) (i : Z) : data -> option data := put name (str "current_index") (JInt i).
Definition setItems (name : bytes) (items : list bytes) : data -> option data := put name (str "items") (jstrings items).
Definition setChecked (name : bytes) (b : bool) : data -> option data := put name (str "checked") (JBool b).
Definition setValue_int (name : bytes) (v : Z) : data -> option data := put name (str "value") (JInt v).
Definition setValue_double (name : bytes) (v : double) : data -> option data := put name (str "value") (JFloat v).
Definition setRange (name : bytes) (min max : Z) : data -> option data :=
  with_entry name (puts [(str "min", JInt min); (str "max", JInt max)]).
Definition setListItems (name : bytes) (items : list bytes) : data -> option data :=
  put name (str "list_items") (jstrings items).
Definition setSelectedItems (name : bytes) (items : list bytes) : data -> option data :=
  put name (str "selected_items") (jstrings items).
Definition setListItemColors (name : bytes) (colors : list bytes) : data -> option data :=
  put name (str "list_item_colors") (jstrings colors).
Definition setListItemsDeletable (name : bytes) (b : bool) : data -> option data :=
  put name (str "list_deletable") (JBool b).
Definition setListItemsDisabled (name : bytes) (items : list bytes) : data -> option data :=
  put name (str "list_disabled_items") (jstrings items).
Definition setListSelectionMode (name : bytes) (multi : bool) : data -> option data :=
  put name (str "list_multi_select") (JBool multi).
Definition setListPlaceholder (name text : bytes) : data -> option data :=
  put name (str "list_placeholder") (JString text).
Definition setTableHeaders (name : bytes) (headers : list bytes) : data -> option data :=
  put name (str "headers") (jstrings headers).

(** *** Tables *)

Definition text_rows (rows : list (list bytes)) : json := JArray (map jstrings rows).

Definition setTableRows (name : bytes) (rows : list (list bytes)) : data -> option data :=
  with_entry name (fun e =>
    let* e := index_set (str "rows") (text_rows rows) e in jerase (str "column_values") e).

(** The cell of column [c], or nothing for a short row. *)
Definition cell_value (c : nat) (row : list TableItem) : option NumericValue :=
  match row !! c with Some item => ti_value item | None => None end.

Definition is_set {A} (o : option A) : bool := match o with Some _ => true | None => false end.

Definition column_keys (rows : list (list TableItem)) (c : nat) : json :=
  JArray (map (fun row => match cell_value c row with Some v => json_of_numeric v | None => JNull end) rows).

Definition max_cols (rows : list (list TableItem)) : nat :=
  foldl (fun m row => if (m <? length row)%nat then length row else m) 0%nat rows.

(** [encodeTypedRows]: the display text and the sparse map of key columns. *)
Definition encodeTypedRows (rows : list (list TableItem)) : json * members :=
  (text_rows (map (map ti_text) rows),
   foldl (fun columns c =>
            if existsb (fun row => is_set (cell_value c row)) rows
            then obj_set (int_text (Z.of_nat c)) (column_keys rows c) columns
            else columns) [] (seq 0 (max_cols rows))).

(** Text rows under one key; keys under another, dropped when there are none. *)
Definition put_typed_rows (rows_key values_key : bytes) (rows : list (list TableItem)) (e : json) : option json :=
  let '(text, columns) := encodeTypedRows rows in
  let* e := index_set rows_key text e in
  if bool_decide (columns = []) then jerase values_key e else index_set values_key (JObject columns) e.

Definition setTableRows_typed (name : bytes) (rows : list (list TableItem)) : data -> option data :=
  with_entry name (put_typed_rows (str "rows") (str "column_values") rows).

Definition setTableSortIndicator (name : bytes) (column : Z) (ascending : bool) : data -> option data :=
  put name (str "sort_indicator") (jobject [(str "col", JInt column); (str "asc", JBool ascending)]).
Definition setSelectedRows (name : bytes) (rows : list Z) : data -> option data := put name (str "selected_rows") (jints rows).
Definition setDisabledRows (name : bytes) (rows : list Z) : data -> option data := put name (str "disabled_rows") (jints rows).
Definition setVisibleRows (name : bytes) (rows : list Z) : data -> option data := put name (str "visible_rows") (jints rows).
Definition clearVisibleRows (name : bytes) : data -> option data := put name (str "visible_rows") JNull.

(** [if (!j.is_object()) j = object(); j[key] = v] *)
Definition into_object (key : bytes) (v : json) (j : json) : json :=
  match j with JObject fs => JObject (obj_set key v fs) | _ => JObject [(key, v)] end.

Definition setRowColor (name : bytes) (row : Z) (color_hex : bytes) : data -> option data :=
  with_entry name (index_update (str "row_colors") (into_object (int_text row) (JString color_hex))).

Definition cell_key (row col : Z) : bytes := int_text row ++ ch "," :: int_text col.

Definition setCellTooltip (name : bytes) (row col : Z) (tooltip : bytes) : data -> option data :=
  with_entry name (index_update (str "cell_tooltips") (into_object (cell_key row col) (JString tooltip))).

(** [tableDeltaEntry]: the delta of this sequence number.  [delta["seq"]] is only ever
    written here, as an unsigned number. *)
Definition fresh_delta (seq : Z) (delta : json) : json :=
  match jfind (str "seq") delta with
  | Some (JUInt s) => if s =? seq then delta else JObject [(str "seq", JUInt seq)]
  | _ => JObject [(str "seq", JUInt seq)]
  end.

Definition with_delta (name : bytes) (seq : Z) (f : json -> option json) : data -> option data :=
  with_entry name (fun e =>
    let delta := fresh_delta seq (match jfind (str "table_delta") e with Some v => v | None => JNull end) in
    let* delta := f delta in index_set (str "table_delta") delta e).

Definition appendTableRows (name : bytes) (seq : Z) (rows : list (list bytes)) : data -> option data :=
  with_delta name seq (fun delta =>
    let* delta := index_set (str "append") (text_rows rows) delta in jerase (str "append_values") delta).

Definition appendTableRows_typed (name : bytes) (seq : Z) (rows : list (list TableItem)) : data -> option data :=
  with_delta name seq (put_typed_rows (str "append") (str "append_values") rows).

Definition cell_update_json (u : TableCellUpdate) : json :=
  JArray ([JInt (cu_row u); JInt (cu_col u); JString (ti_text (cu_item u))]
          ++ match ti_value (cu_item u) with Some v => [json_of_numeric v] | None => [] end).

Definition updateTableCells (name : bytes) (seq : Z) (cells : list TableCellUpdate) : data -> option data :=
  with_delta name seq (index_set (str "update_cells") (JArray (map cell_update_json cells))).

Definition removeTableRows (name : bytes) (seq : Z) (rows : list Z) : data -> option data :=
  with_delta name seq (index_set (str "remove_rows") (jints rows)).

Definition setTableRadioColumn (name : bytes) (column checked_row : Z) : data -> option data :=
  with_entry name (puts [(str "radio_column", JInt column); (str "radio_checked_row", JInt checked_row)]).

(** *** Trees *)

Definition setTreeHeaders (name : bytes) (headers : list bytes) : data -> option data :=
  put name (str "tree_headers") (jstrings headers).

Definition tree_cell_json (cell : TreeCell) : json :=
  jobject ([(str "text", JString (tc_text cell))]
           ++ match tc_sort_value cell with Some v => [(str "sort_value", json_of_numeric v)] | None => [] end
           ++ when (nonempty (tc_tooltip cell)) (str "tooltip") (JString (tc_tooltip cell))
           ++ when (nonempty (tc_icon cell)) (str "icon") (JString (tc_icon cell))).

Definition tree_item_json (item : TreeItem) : json :=
  jobject [(str "id", JString (tr_id item)); (str "parent_id", JString (tr_parent_id item));
           (str "cells", JArray (map tree_cell_json (tr_cells item))); (str "enabled", JBool (tr_enabled item));
           (str "selectable", JBool (tr_selectable item));
           (str "check_state", JString (treeCheckStateWireValue (tr_check_state item)));
           (str "may_have_children", JBool (tr_may_have_children item))].

Definition setTreeItems (name : bytes) (items : list TreeItem) : data -> option data :=
  put name (str "tree_items") (JArray (map tree_item_json items)).
Definition setTreeSelectedIds (name : bytes) (ids : list bytes) : data -> option data :=
  put name (str "tree_selected_ids") (jstrings ids).
Definition setTreeExpandedIds (name : bytes) (ids : list bytes) : data -> option data :=
  put name (str "tree_expanded_ids") (jstrings ids).
Definition setTreeVisibleIds (name : bytes) (ids : list bytes) : data -> option data :=
  put name (str "tree_visible_ids") (jstrings ids).
Definition clearTreeVisibleIds (name : bytes) : data -> option data := put name (str "tree_visible_ids") JNull.
Definition setTreeSelectionMode (name : bytes) (multi : bool) : data -> option data :=
  put name (str "tree_multi_selection") (JBool multi).

(** *** Charts and scenes *)

Definition series_json (s : ChartSeries) : json :=
  jobject ([(str "label", JString (cs_label s));
            (str "points", JArray (map (fun p => JArray [JFloat (pt_x p); JFloat (pt_y p)]) (cs_points s)))]
           ++ when (nonempty (cs_color s)) (str "color") (JString (cs_color s))
           ++ when (cs_dashed s) (str "dashed") (JBool true)).

Definition setChartSeries (name : bytes) (series : list ChartSeries) : data -> option data :=
  put name (str "chart_series") (JArray (map series_json series)).
Definition setChartMarkers (name : bytes) (markers : list ChartMarker) : data -> option data :=
  put name (str "chart_markers") (chartMarkersToJson markers).
Definition clearChart (name : bytes) : data -> option data :=
  with_entry name (puts [(str "chart_series", JArray []); (str "chart_markers", JArray [])]).
Definition setChartZoomEnabled (name : bytes) (b : bool) : data -> option data :=
  put name (str "chart_zoom_enabled") (JBool b).
Definition setChartAutoZoom (name : bytes) (b : bool) : data -> option data := put name (str "chart_auto_zoom") (JBool b).
Definition setChartPlaceholder (name text : bytes) : data -> option data :=
  put name (str "chart_placeholder") (JString text).

Definition scene_topic_json (t : SceneTopic) : json :=
  jobject [(str "topic", JString (st_topic t)); (str "dataset", JString (st_dataset t))].

Definition setSceneView (name : bytes) (view : SceneView) : data -> option data :=
  put name (str "scene_view")
    (jobject [(str "kind", JString (sv_kind view)); (str "topics", JArray (map scene_topic_json (sv_topics view)))]).
Definition clearSceneView (name : bytes) : data -> option data := put name (str "scene_view") JNull.

(** *** Text editors, labels and buttons *)

Definition setPlainText (name text : bytes) : data -> option data := put name (str "plain_text") (JString text).
Definition setCodeContent (name code : bytes) : data -> option data := put name (str "code_content") (JString code).
Definition setCodeLanguage (name lang : bytes) : data -> option data := put name (str "code_language") (JString lang).
Definition setCodeCursor (name : bytes) (cursor : Z) : data -> option data := put name (str "code_cursor") (JInt cursor).
Definition setCodeCaretTracking (name : bytes) (b : bool) : data -> option data :=
  put name (str "code_caret_tracking") (JBool b).
Definition setLabel (name text : bytes) : data -> option data := put name (str "label") (JString text).
Definition setButtonText (name text : bytes) : data -> option data := put name (str "button_text") (JString text).
Definition setButtonIcon (name svg_data : bytes) : data -> option data :=
  put name (str "button_icon_svg") (JString svg_data).
Definition setButtonIconNamed (name icon_id : bytes) : data -> option data :=
  put name (str "button_icon_name") (JString icon_id).
Definition setShortcut (name key_sequence : bytes) : data -> option data := put name (str "shortcut") (JString key_sequence).

(** *** File pickers *)

Definition setFilePicker (name button_text filter title : bytes) : data -> option data :=
  with_entry name (puts [(str "button_text", JString button_text); (str "action", JString (str "file_picker"));
                         (str "filter", JString filter); (str "title", JString title)]).

Definition filter_json (f : FilePickerFilter) : json :=
  jobject [(str "id", JString (ff_id f)); (str "label", JString (ff_label f)); (str "patterns", jstrings (ff_patterns f))].

(** The Qt filter string of older hosts. *)
Definition legacy_filter (filters : list FilePickerFilter) : bytes :=
  foldl (fun acc f =>
           (if nonempty acc then acc ++ str ";;" else acc)
           ++ ff_label f ++ str " (" ++ join_with (ch " ") (ff_patterns f) ++ [ch ")"]) [] filters.

Definition picker_json (o : FilePickerOptions) : json :=
  jobject [(str "mode", JString (filePickerModeWireValue (fp_mode o))); (str "title", JString (fp_title o));
           (str "accept_label", JString (fp_accept_label o));
           (str "initial_directory", JString (fp_initial_directory o));
           (str "suggested_name", JString (fp_suggested_name o));
           (str "default_suffix", JString (fp_default_suffix o));
           (str "filters", JArray (map filter_json (fp_filters o)));
           (str "initially_selected_filter_id", JString (fp_initially_selected_filter_id o));
           (str "confirm_overwrite", JBool (fp_confirm_overwrite o))].

Definition setFilePicker_options (name button_text : bytes) (o : FilePickerOptions) : data -> option data :=
  with_entry name (fun e =>
    let* e := puts [(str "button_text", JString button_text); (str "file_picker", picker_json o);
                    (str "title", JString (fp_title o))] e in
    match fp_mode o with
    | OpenFile | OpenFiles =>
      let* e := puts [(str "action", JString (str "file_picker"));
                      (str "filter", JString (legacy_filter (fp_filters o)))] e in
      jerase (str "default_suffix") e
    | SaveFile =>
      puts [(str "action", JString (str "save_file_picker")); (str "filter", JString (legacy_filter (fp_filters o)));
            (str "default_suffix", JString (fp_default_suffix o))] e
    | SelectDirectory =>
      let* e := puts [(str "action", JString (str "folder_picker"))] e in
      let* e := jerase (str "filter") e in
      jerase (str "default_suffix") e
    end).

Definition setSaveFilePicker (name button_text filter title default_suffix : bytes) : data -> option data :=
  with_entry name (puts [(str "button_text", JString button_text); (str "action", JString (str "save_file_picker"));
                         (str "filter", JString filter); (str "title", JString title);
                         (str "default_suffix", JString default_suffix)]).

Definition setFolderPicker (name button_text title : bytes) : data -> option data :=
  with_entry name (puts [(str "button_text", JString button_text); (str "action", JString (str "folder_picker"));
                         (str "title", JString title)]).

(** *** Dates, sliders and timelines *)

Definition setDateTime (name iso8601 : bytes) : data -> option data := put name (str "datetime") (JString iso8601).
Definition setDateTimeRange (name min_iso max_iso : bytes) : data -> option data :=
  with_entry name (puts [(str "datetime_min", JString min_iso); (str "datetime_max", JString max_iso)]).
Definition setRangeSliderBounds (name : bytes) (min max : Z) : data -> option data :=
  with_entry name (puts [(str "range_min", JInt min); (str "range_max", JInt max)]).
Definition setRangeSliderValues (name : bytes) (lower upper : Z) : data -> option data :=
  with_entry name (puts [(str "range_lower", JInt lower); (str "range_upper", JInt upper)]).
Definition setRangeSliderTimeSpan (name : bytes) (min_ns max_ns : Z) : data -> option data :=
  with_entry name (puts [(str "range_time_min_ns", JString (int_text min_ns));
                         (str "range_time_max_ns", JString (int_text max_ns))]).
Definition setMarkerTimelineBounds (name : bytes) (min max : Z) : data -> option data :=
  with_entry name (puts [(str "marker_timeline_min", JInt min); (str "marker_timeline_max", JInt max)]).
Definition setMarkerTimelineMarks (name : bytes) (marks : list TimelineMark) : data -> option data :=
  put name (str "marker_timeline_marks") (timelineMarksToJson marks).
Definition setMarkerTimelineTimeSpan (name : bytes) (min_ns max_ns : Z) : data -> option data :=
  with_entry name (puts [(str "marker_timeline_time_min_ns", JString (int_text min_ns));
                         (str "marker_timeline_time_max_ns", JString (int_text max_ns))]).

Definition range_marker_json (m : RangeSliderMarker) : json :=
  jobject [(str "start", JInt (rm_start m)); (str "end", JInt (rm_end m)); (str "label", JString (rm_label m))].

Definition setRangeSliderMarkers (name : bytes) (markers : list RangeSliderMarker) : data -> option data :=
  put name (str "range_markers") (JArray (map range_marker_json markers)).

(** *** Any widget *)

Definition setFieldValid (name : bytes) (ok : bool) (tooltip : bytes) : data -> option data :=
  with_entry name (puts [(str "valid", JBool ok); (str "valid_tooltip", JString tooltip)]).
Definition setDateRangePlaceholder (name earliest_iso latest_iso : bytes) : data -> option data :=
  with_entry name (puts [(str "date_range_earliest", JString earliest_iso);
                         (str "date_range_latest", JString latest_iso)]).
Definition setOkEnabled (name : bytes) (b : bool) : data -> option data := put name (str "ok_enabled") (JBool b).
Definition setOkEnabled_default (b : bool) : data -> option data := setOkEnabled (str "buttonBox") b.
Definition setTabIndex (name : bytes) (i : Z) : data -> option data := put name (str "tab_index") (JInt i).
Definition setStackedPage (name page : bytes) : data -> option data := put name (str "stacked_page") (JString page).
Definition setStackedIndex (name : bytes) (i : Z) : data -> option data := put name (str "stacked_index") (JInt i).
Definition setEnabled (name : bytes) (b : bool) : data -> option data := put name (str "enabled") (JBool b).
Definition setVisible (name : bytes) (b : bool) : data -> option data := put name (str "visible") (JBool b).
Definition setDropTarget (name : bytes) (b : bool) : data -> option data := put name (str "drop_target") (JBool b).

(** *** Dialog-level commands *)

Definition requestAccept (d : data) : option data := Some (obj_set (str "__request_accept") (JBool true) d).
Definition requestSubDialog (ui_xml : bytes) (d : data) : option data :=
  Some (obj_set (str "__request_sub_dialog") (jobject [(str "ui", JString ui_xml)]) d).
Definition requestSubPanel (ui_xml : bytes) (d : data) : option data :=
  Some (obj_set (str "__request_sub_panel") (jobject [(str "ui", JString ui_xml)]) d).
Definition closeSubPanel (d : data) : option data := Some (obj_set (str "__request_sub_panel_close") (JBool true) d).
Definition requestClose (reason : bytes) (d : data) : option data :=
  Some (obj_set (str "__request_close") (JString reason) d).

Definition toJson `{JsonText} (d : data) : option bytes := dump (JObject d).
Definition clear (d : data) : data := [].
