(* ===== verification/WidgetDataView.v ===== *)
(** * WidgetDataView: the dialog description a host reads

    [pj_plugins/host/widget_data_view.hpp]: one definition per accessor, over any
    parsed document.  [None] is [std::nullopt]; an accessor that lets a [type_error] of
    the JSON library out has its result in [thrown].  Tree snapshots are in
    [TreeItems]. *)

From Stdlib Require Import Floats.SpecFloat.
From stdpp Require Import sorting pretty.
From S2P Require Import Prelude Text Doubles Json WidgetData.

(** The constructor: text that does not parse is an empty object. *)
Definition view `{JsonText} (text : bytes) : json :=
  match parse text with Some j => j | None => JObject [] end.

(** ** Element access *)

Definition widget (v : json) (name : bytes) : option members :=
  match jfind name v with Some (JObject fs) => Some fs | _ => None end.

Definition field (v : json) (name key : bytes) : option json := let* w := widget v name in obj_find key w.

Definition getString (v : json) (name key : bytes) : option bytes := let* j := field v name key in get_string j.
Definition getBool (v : json) (name key : bytes) : option bool := let* j := field v name key in get_bool j.

Definition decodeInt (j : json) : option Z :=
  match j with
  | JUInt z => if z >? 2147483647 then None else Some z
  | JInt z => if (z <? -2147483648) || (z >? 2147483647) then None else Some z
  | _ => None
  end.

Definition getInt (v : json) (name key : bytes) : option Z := let* j := field v name key in decodeInt j.
Definition getDouble (v : json) (name key : bytes) : option double := let* j := field v name key in get_double j.

Definition get_array (j : json) : option (list json) := match j with JArray l => Some l | _ => None end.

(** Elements of another type are left out. *)
Definition getStringArray (v : json) (name key : bytes) : option (list bytes) :=
  let* j := field v name key in
  let* l := get_array j in
  Some (omap get_string l).

(** Every element must be a string. *)
Definition decodeStrictStringArray (j : json) : option (list bytes) :=
  let* l := get_array j in mapM get_string l.

Definition getStrictStringArray (v : json) (name key : bytes) : option (list bytes) :=
  let* j := field v name key in decodeStrictStringArray j.

(** The loops over row lists: numbers that are not integers are left out. *)
Definition get_int_array (v : json) (name key : bytes) : option (list Z) :=
  let* j := field v name key in
  let* l := get_array j in
  Some (map get_int (List.filter is_number_integer l)).

Definition numericFromJson (j : json) : option NumericValue :=
  match j with
  | JUInt z => Some (VUInt 64 z)
  | JInt z => Some (VInt 64 z)
  | JFloat f => Some (VDouble f)
  | _ => None
  end.

(** ** Accessors of one field *)

Definition text v name := getString v name (str "text").
Definition placeholder v name := getString v name (str "placeholder").
Definition readOnly v name := getBool v name (str "read_only").
Definition currentIndex v name := getInt v name (str "current_index").
Definition items v name := getStringArray v name (str "items").
Definition checked v name := getBool v name (str "checked").
Definition valueInt v name := getInt v name (str "value").
Definition valueDouble v name := getDouble v name (str "value").
Definition rangeMin v name := getInt v name (str "min").
Definition rangeMax v name := getInt v name (str "max").
Definition listItems v name := getStringArray v name (str "list_items").
Definition selectedItems v name := getStringArray v name (str "selected_items").
Definition listDeletable v name := getBool v name (str "list_deletable").
Definition listPlaceholder v name := getString v name (str "list_placeholder").
Definition listItemColors v name := getStringArray v name (str "list_item_colors").
Definition listDisabledItems v name := getStringArray v name (str "list_disabled_items").
Definition listMultiSelect v name := getBool v name (str "list_multi_select").
Definition treeHeaders v name := getStrictStringArray v name (str "tree_headers").
Definition treeSelectedIds v name := getStrictStringArray v name (str "tree_selected_ids").
Definition treeExpandedIds v name := getStrictStringArray v name (str "tree_expanded_ids").
Definition treeMultiSelection v name := getBool v name (str "tree_multi_selection").
Definition tableHeaders v name := getStringArray v name (str "headers").
Definition tableRadioColumn v name := getInt v name (str "radio_column").
Definition tableRadioCheckedRow v name := getInt v name (str "radio_checked_row").
Definition selectedRows v name := get_int_array v name (str "selected_rows").
Definition disabledRows v name := get_int_array v name (str "disabled_rows").
Definition visibleRows v name := get_int_array v name (str "visible_rows").
Definition chartZoomEnabled v name := getBool v name (str "chart_zoom_enabled").
Definition chartAutoZoom v name := getBool v name (str "chart_auto_zoom").
Definition chartPlaceholder v name := getString v name (str "chart_placeholder").
Definition plainText v name := getString v name (str "plain_text").
Definition codeContent v name := getString v name (str "code_content").
Definition codeLanguage v name := getString v name (str "code_language").
Definition codeCursor v name := getInt v name (str "code_cursor").
Definition codeCaretTracking v name := getBool v name (str "code_caret_tracking").
Definition label v name := getString v name (str "label").
Definition buttonText v name := getString v name (str "button_text").
Definition buttonIconSvg v name := getString v name (str "button_icon_svg").
Definition buttonIconName v name := getString v name (str "button_icon_name").
Definition shortcut v name := getString v name (str "shortcut").
Definition saveFilePickerDefaultSuffix v name := getString v name (str "default_suffix").
Definition filePickerFilter v name := getString v name (str "filter").
Definition filePickerTitle v name := getString v name (str "title").
Definition folderPickerTitle v name := getString v name (str "title").
Definition rangeSliderMin v name := getInt v name (str "range_min").
Definition rangeSliderMax v name := getInt v name (str "range_max").
Definition rangeSliderLower v name := getInt v name (str "range_lower").
Definition rangeSliderUpper v name := getInt v name (str "range_upper").
Definition dateRangeEarliest v name := getString v name (str "date_range_earliest").
Definition dateRangeLatest v name := getString v name (str "date_range_latest").
Definition markerTimelineMin v name := getInt v name (str "marker_timeline_min").
Definition markerTimelineMax v name := getInt v name (str "marker_timeline_max").
Definition fieldValid v name := getBool v name (str "valid").
Definition fieldValidTooltip v name := getString v name (str "valid_tooltip").
Definition okEnabled v name := getBool v name (str "ok_enabled").
Definition tabIndex v name := getInt v name (str "tab_index").
Definition stackedPage v name := getString v name (str "stacked_page").
Definition stackedIndex v name := getInt v name (str "stacked_index").
Definition isDropTarget v name := default false (getBool v name (str "drop_target")).
Definition dateTime v name := getString v name (str "datetime").
Definition enabled v name := getBool v name (str "enabled").
Definition visible v name := getBool v name (str "visible").

Definition dateTimeRange (v : json) (name : bytes) : option (bytes * bytes) :=
  let mn := getString v name (str "datetime_min") in
  let mx := getString v name (str "datetime_max") in
  match mn, mx with
  | None, None => None
  | _, _ => Some (default [] mn, default [] mx)
  end.

(** The time windows: nanoseconds as text. *)
Definition time_span (v : json) (name min_key max_key : bytes) : option (Z * Z) :=
  let* mn := getString v name min_key in
  let* mx := getString v name max_key in
  let* min_ns := parseNumber 64 mn in
  let* max_ns := parseNumber 64 mx in
  Some (min_ns, max_ns).

Definition rangeSliderTimeSpan v name := time_span v name (str "range_time_min_ns") (str "range_time_max_ns").
Definition markerTimelineTimeSpan v name :=
  time_span v name (str "marker_timeline_time_min_ns") (str "marker_timeline_time_max_ns").

(** ** Trees: the visibility filter *)

Inductive TreeVisibilityUpdate : Type := Filter (ids : list bytes) | Reset.

Definition treeVisibilityUpdate (v : json) (name : bytes) : option TreeVisibilityUpdate :=
  let* j := field v name (str "tree_visible_ids") in
  match j with
  | JNull => Some Reset
  | _ => let* ids := decodeStrictStringArray j in Some (Filter ids)
  end.

(** ** Tables *)

(** A cell that is not a string keeps its place. *)
Definition tableRows (v : json) (name : bytes) : option (list (list bytes)) :=
  let* j := field v name (str "rows") in
  let* rows := get_array j in
  mapM (fun row => let* cells := get_array row in Some (map (fun c => default [] (get_string c)) cells)) rows.

(** [result.emplace(col, decoded)] keeps the first entry of a column. *)
Definition emplace {A} (key : Z) (v : A) (m : list (Z * A)) : list (Z * A) :=
  if existsb (fun e => e.1 =? key) m then m else m ++ [(key, v)].

(** The [std::map] of a [column_values] object, in the order its members are read. *)
Definition tableColumnValues (v : json) (name : bytes) : list (Z * list (option NumericValue)) :=
  let row_count := match field v name (str "rows") with Some (JArray rows) => length rows | _ => 0%nat end in
  match field v name (str "column_values") with
  | Some (JObject columns) =>
    foldl (fun result e =>
             match parseNumber 32 e.1, e.2 with
             | Some col, JArray values =>
               if (col <? 0) || negb (length values =? row_count)%nat then result
               else emplace col (map numericFromJson values) result
             | _, _ => result
             end) [] columns
  | _ => []
  end.

Definition tableSortIndicator (v : json) (name : bytes) : option (Z * bool) :=
  let* it := field v name (str "sort_indicator") in
  let* col := jfind (str "col") it in
  let* asc := jfind (str "asc") it in
  if is_number_integer col then let* b := get_bool asc in Some (get_int col, b) else None.

Record CellUpdate : Type := mkCellUpdateView { up_row : Z; up_col : Z; up_text : bytes; up_value : option NumericValue }.

Record TableDeltaView : Type := mkDelta {
  dv_seq : Z; dv_append : list (list bytes); dv_append_values : list (Z * list (option NumericValue));
  dv_update_cells : list CellUpdate; dv_remove_rows : list Z }.

Definition tableDeltaSeq (v : json) (name : bytes) : option Z :=
  let* it := field v name (str "table_delta") in
  match jfind (str "seq") it with Some (JUInt seq) => Some seq | _ => None end.

(** A key of the delta: null is no key, anything but a number is malformed. *)
Definition delta_value (j : json) : option (option NumericValue) :=
  match j with
  | JNull => Some None
  | _ => let* num := numericFromJson j in Some (Some num)
  end.

Definition delta_append (delta : json) : option (list (list bytes)) :=
  match jfind (str "append") delta with
  | None => Some []
  | Some j => let* rows := get_array j in mapM decodeStrictStringArray rows
  end.

Fixpoint delta_columns (row_count : nat) (columns : members) (result : list (Z * list (option NumericValue)))
  : option (list (Z * list (option NumericValue))) :=
  match columns with
  | [] => Some result
  | (key, j) :: columns' =>
    let* col := parseNumber 32 key in
    let* values := get_array j in
    if (col <? 0) || negb (length values =? row_count)%nat then None
    else
      let* decoded := mapM delta_value values in
      delta_columns row_count columns' (emplace col decoded result)
  end.

Definition delta_append_values (row_count : nat) (delta : json)
  : option (list (Z * list (option NumericValue))) :=
  match jfind (str "append_values") delta with
  | None => Some []
  | Some (JObject columns) => delta_columns row_count columns []
  | Some _ => None
  end.

Definition delta_cell (j : json) : option CellUpdate :=
  match j with
  | JArray (row :: col :: JString text :: rest) =>
    if negb (is_number_integer row) || negb (is_number_integer col) || (get_int row <? 0) || (get_int col <? 0)
    then None
    else
      match rest with
      | [] => Some (mkCellUpdateView (get_int row) (get_int col) text None)
      | [key] => let* value := delta_value key in Some (mkCellUpdateView (get_int row) (get_int col) text value)
      | _ => None
      end
  | _ => None
  end.

Definition delta_update_cells (delta : json) : option (list CellUpdate) :=
  match jfind (str "update_cells") delta with
  | None => Some []
  | Some j => let* cells := get_array j in mapM delta_cell cells
  end.

Definition delta_row (j : json) : option Z :=
  if is_number_integer j && (0 <=? get_int j) then Some (get_int j) else None.

(** [std::unique]: of equal neighbours, the first. *)
Fixpoint unique (l : list Z) : list Z :=
  match l with
  | x :: (y :: _) as rest => if x =? y then unique rest else x :: unique rest
  | _ => l
  end.

(** Descending and without repetition, so that removing in this order shifts nothing. *)
Definition normalize_rows (rows : list Z) : list Z := unique (merge_sort Z.ge rows).

Definition delta_remove_rows (delta : json) : option (list Z) :=
  match jfind (str "remove_rows") delta with
  | None => Some []
  | Some j =>
    let* rows := get_array j in
    let* rows := mapM delta_row rows in
    Some (normalize_rows rows)
  end.

(** One malformed operation rejects the whole delta. *)
Definition tableDelta (v : json) (name : bytes) : option TableDeltaView :=
  let* seq := tableDeltaSeq v name in
  let* delta := field v name (str "table_delta") in
  let* append := delta_append delta in
  let* append_values := delta_append_values (length append) delta in
  let* update_cells := delta_update_cells delta in
  let* remove_rows := delta_remove_rows delta in
  Some (mkDelta seq append append_values update_cells remove_rows).

(** The pairs of a [row_colors] object whose key is a row and whose value is text. *)
Definition rowColors (v : json) (name : bytes) : option (list (Z * bytes)) :=
  match field v name (str "row_colors") with
  | Some (JObject colors) =>
    Some (omap (fun e => match parseNumber 32 e.1, e.2 with
                         | Some row, JString color => Some (row, color)
                         | _, _ => None
                         end) colors)
  | _ => None
  end.

Definition cellTooltips (v : json) (name : bytes) : option (list (Z * Z * bytes)) :=
  match field v name (str "cell_tooltips") with
  | Some (JObject tooltips) =>
    Some (omap (fun e => match find_char (ch ",") e.1 with
                         | None => None
                         | Some comma =>
                           match parseNumber 32 (take comma e.1), parseNumber 32 (drop (S comma) e.1), e.2 with
                           | Some row, Some col, JString tooltip => Some (row, col, tooltip)
                           | _, _, _ => None
                           end
                         end) tooltips)
  | _ => None
  end.

(** ** Charts and scenes *)

Record ChartSeriesView : Type := mkSeriesView {
  csv_label : bytes; csv_points : list (double * double); csv_color : bytes; csv_dashed : bool }.

(** Points that are not pairs of numbers are left out. *)
Definition chart_point (j : json) : option (double * double) :=
  match j with
  | JArray [x; y] => let* x := get_double x in let* y := get_double y in Some (x, y)
  | _ => None
  end.

(** A member of the expected type, or the default. *)
Definition member_or {A} (convert : json -> option A) (default : A) (key : bytes) (j : json) : A :=
  match jfind key j with
  | Some m => match convert m with Some a => a | None => default end
  | None => default
  end.

Definition chart_series_view (j : json) : option ChartSeriesView :=
  if is_object j then
    Some (mkSeriesView (member_or get_string [] (str "label") j)
            (omap chart_point (member_or get_array [] (str "points") j))
            (member_or get_string [] (str "color") j) (member_or get_bool false (str "dashed") j))
  else None.

Definition chartSeries (v : json) (name : bytes) : option (list ChartSeriesView) :=
  let* j := field v name (str "chart_series") in
  let* l := get_array j in
  Some (omap chart_series_view l).

(** The members of a marker: a wrong type throws. *)
Definition chart_marker_view (j : json) : thrown ChartMarker :=
  lett kind := jvalue to_str (str "kind") [] j in
  lett x0 := jvalue to_double (str "x0") (S754_zero false) j in
  lett x1 := jvalue to_double (str "x1") (S754_zero false) j in
  lett y0 := jvalue to_double (str "y0") (S754_zero false) j in
  lett y1 := jvalue to_double (str "y1") (S754_zero false) j in
  lett has_value := jvalue to_bool (str "has_value") false j in
  lett color := jvalue to_str (str "color") [] j in
  lett label := jvalue to_str (str "label") [] j in
  Got (mkMarker kind x0 x1 y0 y1 has_value color label).

Fixpoint mapT {A B} (f : A -> thrown B) (l : list A) : thrown (list B) :=
  match l with
  | [] => Got []
  | x :: l' => lett y := f x in lett ys := mapT f l' in Got (y :: ys)
  end.

Definition chartMarkersFromJson (j : json) : thrown (list ChartMarker) :=
  match j with JArray l => mapT chart_marker_view l | _ => Got [] end.

(** [ChartMarkerView] has the fields of [ChartMarker]; elements that are not objects
    are left out. *)
Definition chartMarkers (v : json) (name : bytes) : thrown (option (list ChartMarker)) :=
  match field v name (str "chart_markers") with
  | Some (JArray l) => lett ms := mapT chart_marker_view (List.filter is_object l) in Got (Some ms)
  | _ => Got None
  end.

Definition timeline_mark_view (j : json) : thrown TimelineMark :=
  lett id := jvalue to_int (str "id") 0 j in
  lett region := jvalue to_bool (str "region") true j in
  lett start := jvalue to_int (str "start") 0 j in
  lett end_ := jvalue to_int (str "end") 0 j in
  Got (mkMark id region start end_).

Definition timelineMarksFromJson (j : json) : thrown (list TimelineMark) :=
  match j with JArray l => mapT timeline_mark_view l | _ => Got [] end.

Definition markerTimelineMarks (v : json) (name : bytes) : thrown (option (list TimelineMark)) :=
  match field v name (str "marker_timeline_marks") with
  | Some (JArray l) => lett ms := timelineMarksFromJson (JArray l) in Got (Some ms)
  | _ => Got None
  end.

Definition range_marker_view (j : json) : option RangeSliderMarker :=
  match jfind (str "start") j with
  | Some s =>
    if is_number_integer s then
      Some (mkRangeMarker (get_int s)
              (match jfind (str "end") j with
               | Some e => if is_number_integer e then get_int e else get_int s
               | None => get_int s
               end)
              (member_or get_string [] (str "label") j))
    else None
  | None => None
  end.

Definition rangeSliderMarkers (v : json) (name : bytes) : option (list RangeSliderMarker) :=
  let* j := field v name (str "range_markers") in
  let* l := get_array j in
  Some (omap range_marker_view (List.filter is_object l)).

Definition scene_topic_view (j : json) : Expected SceneTopic :=
  match jfind (str "topic") j with
  | Some (JString topic) =>
    if bool_decide (topic = []) then Err "scene_view topic entries need a non-empty string topic"
    else
      match jfind (str "dataset") j with
      | None => Ok (mkSceneTopic topic [])
      | Some (JString dataset) => Ok (mkSceneTopic topic dataset)
      | Some _ => Err "scene_view topic dataset must be a string"
      end
  | _ => Err "scene_view topic entries need a non-empty string topic"
  end.

Fixpoint mapE {A B} (f : A -> Expected B) (l : list A) : Expected (list B) :=
  match l with
  | [] => Ok []
  | x :: l' => let? y := f x in let? ys := mapE f l' in Ok (y :: ys)
  end.

(** [None]: the key is absent; an empty kind: the key is null. *)
Definition sceneView (v : json) (name : bytes) : option (Expected SceneView) :=
  match field v name (str "scene_view") with
  | None => None
  | Some JNull => Some (Ok (mkSceneView [] []))
  | Some j =>
    Some (match jfind (str "kind") j with
          | Some (JString kind) =>
            if bool_decide (kind = []) then Err "scene_view must be an object with a non-empty string kind"
            else
              match jfind (str "topics") j with
              | None => Ok (mkSceneView kind [])
              | Some (JArray l) => let? topics := mapE scene_topic_view l in Ok (mkSceneView kind topics)
              | Some _ => Err "scene_view topics must be an array"
              end
          | _ => Err "scene_view must be an object with a non-empty string kind"
          end)
  end.

(** ** File pickers *)

Definition isStructuredFilePicker (v : json) (name : bytes) : bool :=
  is_set (field v name (str "file_picker")).

Definition has_action (v : json) (name action : bytes) : bool :=
  match field v name (str "action") with Some (JString a) => bytes_eqb a action | _ => false end.

Definition isFilePicker v name := has_action v name (str "file_picker").
Definition isSaveFilePicker v name := has_action v name (str "save_file_picker").
Definition isFolderPicker v name := has_action v name (str "folder_picker").

(** [decodeRequiredString] *)
Definition decodeRequiredString (key : bytes) (j : json) : option bytes := let* m := jfind key j in get_string m.

Definition require {A} (o : option A) (error : string) : Expected A := match o with Some a => Ok a | None => Err error end.

Definition brackets (prefix : string) (index : nat) : string := prefix +:+ "[" +:+ pretty (N.of_nat index) +:+ "]".

(** A [std::string] inside a message. *)
Definition shown (b : bytes) : string := String.string_of_list_byte b.

Fixpoint picker_patterns (prefix : string) (index : nat) (l : list json) : Expected (list bytes) :=
  match l with
  | [] => Ok []
  | p :: l' =>
    match p with
    | JString ((_ :: _) as pattern) => let? rest := picker_patterns prefix (S index) l' in Ok (pattern :: rest)
    | _ => Err (brackets (prefix +:+ ".patterns") index +:+ " must be a non-empty string")
    end
  end.

Definition picker_filter (prefix : string) (seen : list bytes) (j : json) : Expected FilePickerFilter :=
  if negb (is_object j) then Err (prefix +:+ " must be an object")
  else
    match decodeRequiredString (str "id") j, decodeRequiredString (str "label") j with
    | Some id, Some label =>
      if bool_decide (id = []) then Err (prefix +:+ ".id must not be empty")
      else if existsb (bytes_eqb id) seen
      then Err ("file_picker.filters contains duplicate id '" +:+ shown id +:+ "'")
      else
        match jfind (str "patterns") j with
        | Some (JArray ((_ :: _) as patterns)) =>
          let? patterns := picker_patterns prefix 0 patterns in Ok (mkFilter id label patterns)
        | _ => Err (prefix +:+ ".patterns must be a non-empty array")
        end
    | _, _ => Err (prefix +:+ ".id and .label must be strings")
    end.

Fixpoint picker_filters (index : nat) (seen : list bytes) (l : list json) : Expected (list FilePickerFilter) :=
  match l with
  | [] => Ok []
  | j :: l' =>
    let? f := picker_filter (brackets "file_picker.filters" index) seen j in
    let? rest := picker_filters (S index) (ff_id f :: seen) l' in
    Ok (f :: rest)
  end.

Definition picker_options (j : json) : Expected FilePickerOptions :=
  if negb (is_object j) then Err "file_picker must be an object"
  else
    let? mode_text := require (decodeRequiredString (str "mode") j) "file_picker.mode must be a string" in
    let? mode := require (filePickerModeFromWireValue mode_text)
                   ("file_picker.mode has invalid value '" +:+ shown mode_text +:+ "'") in
    let req key := require (decodeRequiredString key j) "file_picker string fields must all be present and strings" in
    let? title := req (str "title") in
    let? accept_label := req (str "accept_label") in
    let? initial_directory := req (str "initial_directory") in
    let? suggested_name := req (str "suggested_name") in
    let? default_suffix := req (str "default_suffix") in
    let? selected := req (str "initially_selected_filter_id") in
    let? overwrite := require (let* m := jfind (str "confirm_overwrite") j in get_bool m)
                        "file_picker.confirm_overwrite must be a boolean" in
    let? encoded := require (let* m := jfind (str "filters") j in get_array m)
                      "file_picker.filters must be an array" in
    let? filters := picker_filters 0 [] encoded in
    if nonempty selected && negb (existsb (fun f => bytes_eqb (ff_id f) selected) filters)
    then Err ("file_picker.initially_selected_filter_id references missing filter '" +:+ shown selected +:+ "'")
    else Ok (mkPicker mode title accept_label initial_directory suggested_name default_suffix filters selected overwrite).

(** The options, or the diagnostic left in [validation_error]; [None] without the key. *)
Definition filePickerOptions (v : json) (name : bytes) : option (Expected FilePickerOptions) :=
  let* j := field v name (str "file_picker") in Some (picker_options j).

(** ** The whole document *)

Definition command_flag (v : json) (key : bytes) : bool := match jfind key v with Some (JBool b) => b | _ => false end.

Definition command_ui (v : json) (key : bytes) : option bytes :=
  let* it := jfind key v in let* ui := jfind (str "ui") it in get_string ui.

Definition requestAccept (v : json) : bool := command_flag v (str "__request_accept").
Definition subDialogUi (v : json) : option bytes := command_ui v (str "__request_sub_dialog").
Definition subPanelUi (v : json) : option bytes := command_ui v (str "__request_sub_panel").
Definition subPanelClose (v : json) : bool := command_flag v (str "__request_sub_panel_close").
Definition requestClose (v : json) : option bytes :=
  let* it := jfind (str "__request_close") v in get_string it.

Definition members_of (v : json) : members := match v with JObject fs => fs | _ => [] end.

Definition dropTargets (v : json) : list bytes :=
  map fst (List.filter (fun e => match jfind (str "drop_target") e.2 with Some (JBool b) => b | _ => false end)
             (members_of v)).

Definition widgetNames (v : json) : list bytes := map fst (members_of v).
Definition hasWidget (v : json) (name : bytes) : bool := is_set (widget v name).
