(* ===== verification/TreeItems.v ===== *)
(** * TreeItems: validated tree snapshots

    [WidgetDataView::treeItems] of [pj_plugins/host/widget_data_view.hpp]: decoding of
    the flat snapshot, the check that parents exist, and the colour walk that rejects
    parent cycles.

    The walk is a loop with fuel: every step colours an uncoloured item, so the number
    of items is enough.  [Undef] stands for running out of fuel and for
    [id_indexes.at] on an id that is not there; the component's theorem excludes both. *)

From stdpp Require Import pretty sets.
From S2P Require Import Prelude Text Doubles Json WidgetData WidgetDataView.

(** [decodeOptionalBool]: the default when absent, nothing on a wrong type. *)
Definition decodeOptionalBool (key : bytes) (default : bool) (j : json) : option bool :=
  match jfind key j with None => Some default | Some m => get_bool m end.

Definition optional_string (key : bytes) (error : string) (j : json) : Expected bytes :=
  match jfind key j with
  | None => Ok []
  | Some (JString s) => Ok s
  | Some _ => Err error
  end.

Definition tree_cell (prefix : string) (j : json) : Expected TreeCell :=
  if negb (is_object j) then Err (prefix +:+ " must be an object")
  else
    let? text := require (decodeRequiredString (str "text") j) (prefix +:+ ".text must be a string") in
    let? sort_value :=
      match jfind (str "sort_value") j with
      | None | Some JNull => Ok None
      | Some m =>
        match numericFromJson m with
        | Some n => Ok (Some n)
        | None => Err (prefix +:+ ".sort_value must be a number or null")
        end
      end in
    let? tooltip := optional_string (str "tooltip") (prefix +:+ ".tooltip must be a string") j in
    let? icon := optional_string (str "icon") (prefix +:+ ".icon must be a string") j in
    Ok (mkTreeCell text sort_value tooltip icon).

Fixpoint tree_cells (prefix : string) (index : nat) (l : list json) : Expected (list TreeCell) :=
  match l with
  | [] => Ok []
  | j :: l' =>
    let? cell := tree_cell (brackets (prefix +:+ ".cells") index) j in
    let? rest := tree_cells prefix (S index) l' in
    Ok (cell :: rest)
  end.

(** One encoded item; [seen] are the ids before it. *)
Definition tree_item (prefix : string) (seen : list bytes) (j : json) : Expected TreeItem :=
  if negb (is_object j) then Err (prefix +:+ " must be an object")
  else
    let? id := require (decodeRequiredString (str "id") j) (prefix +:+ ".id must be a string") in
    if bool_decide (id = []) then Err (prefix +:+ ".id must not be empty")
    else if existsb (bytes_eqb id) seen
    then Err ("tree_items contains duplicate id '" +:+ shown id +:+ "'")
    else
      let? parent_id := require (decodeRequiredString (str "parent_id") j) (prefix +:+ ".parent_id must be a string") in
      if bytes_eqb parent_id id
      then Err ("tree item '" +:+ shown id +:+ "' must not be its own parent")
      else
        let? encoded := require (let* m := jfind (str "cells") j in get_array m) (prefix +:+ ".cells must be an array") in
        let? cells := tree_cells prefix 0 encoded in
        let? enabled := require (decodeOptionalBool (str "enabled") true j) (prefix +:+ ".enabled must be a boolean") in
        let? selectable :=
          require (decodeOptionalBool (str "selectable") true j) (prefix +:+ ".selectable must be a boolean") in
        let? may_have_children :=
          require (decodeOptionalBool (str "may_have_children") false j)
            (prefix +:+ ".may_have_children must be a boolean") in
        let? state :=
          match jfind (str "check_state") j with
          | None => Ok TcNone
          | Some (JString s) =>
            require (treeCheckStateFromWireValue s) (prefix +:+ ".check_state has invalid value '" +:+ shown s +:+ "'")
          | Some _ => Err (prefix +:+ ".check_state must be a string")
          end in
        Ok (mkTreeItem id parent_id cells enabled selectable state may_have_children).

Fixpoint tree_item_list (index : nat) (seen : list bytes) (l : list json) : Expected (list TreeItem) :=
  match l with
  | [] => Ok []
  | j :: l' =>
    let? item := tree_item (brackets "tree_items" index) seen j in
    let? rest := tree_item_list (S index) (tr_id item :: seen) l' in
    Ok (item :: rest)
  end.

(** [id_indexes]: the position of an id. *)
Fixpoint index_of (id : bytes) (items : list TreeItem) : option nat :=
  match items with
  | [] => None
  | item :: items' => if bytes_eqb (tr_id item) id then Some 0%nat else option_map S (index_of id items')
  end.

Definition is_root (item : TreeItem) : bool := bool_decide (tr_parent_id item = []).

Definition missing_parent (items : list TreeItem) (item : TreeItem) : bool :=
  negb (is_root item) && negb (is_set (index_of (tr_parent_id item) items)).

(** The inner loop of the walk: the colours, the path and the item it stops at. *)
Fixpoint climb (fuel : nat) (items : list TreeItem) (visit_state : list Z) (path : list nat) (current : nat)
  : exec (list Z * list nat * nat) :=
  match fuel, items !! current, visit_state !! current with
  | S fuel', Some item, Some state =>
    if negb (state =? 0) then Val (visit_state, path, current)
    else
      let visit_state := <[current := 1]> visit_state in
      let path := path ++ [current] in
      if is_root item then Val (visit_state, path, current)
      else
        match index_of (tr_parent_id item) items with
        | Some parent => climb fuel' items visit_state path parent
        | None => Undef
        end
  | _, _, _ => Undef
  end.

(** [for (index : path) visit_state[index] = 2] *)
Definition settle (path : list nat) (visit_state : list Z) : list Z :=
  foldl (fun colours index => <[index := 2]> colours) visit_state path.

(** One start of the outer loop: the new colours, or the id of an item on a cycle. *)
Definition walk_from (items : list TreeItem) (visit_state : list Z) (start : nat) : exec (list Z + bytes) :=
  match visit_state !! start with
  | Some state =>
    if state =? 2 then Val (inl visit_state)
    else
      let! (visit_state, path, current) := climb (S (length items)) items visit_state [] start in
      match items !! current, visit_state !! current with
      | Some item, Some state =>
        if (state =? 1) && negb (is_root item) then Val (inr (tr_id item))
        else Val (inl (settle path visit_state))
      | _, _ => Undef
      end
  | None => Undef
  end.

Fixpoint walk_all (items : list TreeItem) (visit_state : list Z) (starts : list nat) : exec (option bytes) :=
  match starts with
  | [] => Val None
  | start :: starts' =>
    let! r := walk_from items visit_state start in
    match r with
    | inr id => Val (Some id)
    | inl visit_state => walk_all items visit_state starts'
    end
  end.

Definition find_cycle (items : list TreeItem) : exec (option bytes) :=
  walk_all items (replicate (length items) 0) (seq 0 (length items)).

Definition tree_snapshot (j : json) : exec (Expected (list TreeItem)) :=
  match j with
  | JArray l =>
    match tree_item_list 0 [] l with
    | Err error => Val (Err error)
    | Ok items =>
      match List.find (missing_parent items) items with
      | Some item =>
        Val (Err ("tree item '" +:+ shown (tr_id item) +:+ "' references missing parent '"
                  +:+ shown (tr_parent_id item) +:+ "'"))
      | None =>
        let! cycle := find_cycle items in
        Val (match cycle with
             | Some id => Err ("tree_items contains a parent cycle involving '" +:+ shown id +:+ "'")
             | None => Ok items
             end)
      end
    end
  | _ => Val (Err "tree_items must be an array")
  end.

(** The snapshot or its diagnostic; [None] when the widget or the key is absent. *)
Definition treeItems (v : json) (name : bytes) : option (exec (Expected (list TreeItem))) :=
  let* j := field v name (str "tree_items") in Some (tree_snapshot j).

(** ** Forests *)

(** The item is [n] steps below a root of the snapshot. *)
Inductive depth (items : list TreeItem) : nat -> nat -> Prop :=
  | depth_root i item : items !! i = Some item -> tr_parent_id item = [] -> depth items 0 i
  | depth_step n i item p :
      items !! i = Some item -> tr_parent_id item <> [] -> index_of (tr_parent_id item) items = Some p ->
      depth items n p -> depth items (S n) i.

Definition forest (items : list TreeItem) : Prop :=
  NoDup (map tr_id items) /\ Forall (fun item => tr_id item <> []) items /\
  forall i, (i < length items)%nat -> exists n, depth items n i.

(** ** The walk *)

Section Walk.
Context (items : list TreeItem).

Definition rooted (i : nat) : Prop := exists n, depth items n i.

Lemma depth_unique n m i : depth items n i -> depth items m i -> n = m.
Proof.
  intros Hn. revert m. induction Hn as [i item Hi Hr|n i item p Hi Hr Hp Hd IH]; intros m Hm.
  - inversion Hm; subst; [done|]. congruence.
  - inversion Hm; subst; [congruence|]. f_equal. apply IH. by simplify_eq.
Qed.

(** A path of items, each the child of the next one; the last is the child of [current]. *)
Inductive chain : list nat -> nat -> Prop :=
  | chain_nil current : chain [] current
  | chain_snoc path i item current :
      chain path i -> items !! i = Some item -> tr_parent_id item <> [] ->
      index_of (tr_parent_id item) items = Some current -> chain (path ++ [i]) current.

Lemma chain_depth path current n : chain path current -> depth items n current ->
  forall k i, path !! k = Some i -> depth items (n + (length path - k)) i.
Proof.
  intros Hc. revert n. induction Hc as [|path j item current Hc IH Hj Hr Hp]; intros n Hn k i Hk; [done|].
  assert (depth items (S n) j) as Hd by (by eapply depth_step).
  rewrite length_app. cbn. apply lookup_app_Some in Hk as [Hk|[Hk1 Hk2]].
  - replace (n + (length path + 1 - k))%nat with (S n + (length path - k))%nat; [by apply IH|].
    apply lookup_lt_Some in Hk. lia.
  - assert (k = length path) as -> by (apply lookup_lt_Some in Hk2; cbn in Hk2; lia).
    rewrite Nat.sub_diag in Hk2. injection Hk2 as <-. replace (n + _)%nat with (S n) by lia. done.
Qed.

Lemma chain_rooted path current : chain path current -> rooted current -> Forall rooted path.
Proof.
  intros Hc [n Hn]. apply Forall_forall. intros i [k Hk]%list_elem_of_lookup.
  eexists. by eapply chain_depth.
Qed.

(** A path that comes back to itself does not reach a root. *)
Lemma chain_cycle path current : chain path current -> current ∈ path -> ~ rooted current.
Proof.
  intros Hc [k Hk]%list_elem_of_lookup [n Hn].
  pose proof (chain_depth _ _ _ Hc Hn _ _ Hk) as Hd. pose proof (depth_unique _ _ _ Hn Hd).
  apply lookup_lt_Some in Hk. lia.
Qed.

Lemma chain_member path current i : chain path current -> i ∈ path ->
  exists item, items !! i = Some item /\ tr_parent_id item <> [].
Proof.
  induction 1 as [|path j item current Hc IH Hj Hr Hp]; [by intros ?%not_elem_of_nil|].
  intros [Hi|Hi%list_elem_of_singleton]%elem_of_app; [by apply IH|]. subst. by exists item.
Qed.

Lemma index_of_lt id l i : index_of id l = Some i -> (i < length l)%nat.
Proof.
  revert i. induction l as [|item l IH]; intros i; cbn; [done|]. destruct (bytes_eqb _ _); [intros [= <-]; lia|].
  destruct (index_of id l) as [k|]; [|done]. intros [= <-]. specialize (IH k eq_refl). lia.
Qed.

Fixpoint zeros (colours : list Z) : nat :=
  match colours with [] => 0%nat | c :: colours' => if c =? 0 then S (zeros colours') else zeros colours' end.

Lemma zeros_insert colours i : colours !! i = Some 0 -> zeros colours = S (zeros (<[i := 1]> colours)).
Proof.
  revert i. induction colours as [|c colours IH]; intros [|i] Hi; try done.
  - by injection Hi as ->.
  - cbn [lookup list_lookup] in Hi. change (<[S i:=1]> (c :: colours)) with (c :: <[i:=1]> colours).
    cbn [zeros]. rewrite (IH i Hi). by destruct (c =? 0).
Qed.

Lemma zeros_le colours : (zeros colours <= length colours)%nat.
Proof. induction colours as [|c colours IH]; cbn; [done|]. destruct (c =? 0); lia. Qed.

(** While climbing: grey items are the path, black items are known to be rooted. *)
Definition climbing (colours : list Z) (path : list nat) : Prop :=
  length colours = length items /\
  forall i c, colours !! i = Some c -> (c = 0 \/ c = 1 \/ c = 2) /\ (c = 1 <-> i ∈ path) /\ (c = 2 -> rooted i).

Context (Hparents : forall item, item ∈ items -> tr_parent_id item <> [] ->
  exists p, index_of (tr_parent_id item) items = Some p).

Lemma climbing_step colours path current :
  climbing colours path -> colours !! current = Some 0 -> climbing (<[current := 1]> colours) (path ++ [current]).
Proof.
  intros [Hl Hc] H0. split; [by rewrite length_insert|]. intros i c Hi.
  destruct (decide (i = current)) as [->|Hne].
  - rewrite list_lookup_insert_eq in Hi by (by apply lookup_lt_Some in H0). injection Hi as <-.
    split_and!; [auto|split; [intros _; set_solver|done]|done].
  - rewrite list_lookup_insert_ne in Hi by done. destruct (Hc i c Hi) as (H1 & H2 & H3).
    split_and!; [done| |done]. rewrite H2. set_solver.
Qed.

Lemma climb_spec fuel colours path current :
  (zeros colours < fuel)%nat -> climbing colours path -> chain path current -> (current < length items)%nat ->
  exists colours' path' current' item' state',
    climb fuel items colours path current = Val (colours', path', current') /\ climbing colours' path' /\
    items !! current' = Some item' /\ colours' !! current' = Some state' /\
    (forall i, colours !! i = Some 2 -> colours' !! i = Some 2) /\
    (forall i, i ∈ path -> i ∈ path') /\ (colours !! current = Some 0 -> current ∈ path') /\
    ((is_root item' = true /\ state' = 1 /\ exists q, path' = q ++ [current'] /\ chain q current') \/
     (chain path' current' /\ state' <> 0)).
Proof.
  revert colours path current. induction fuel as [|fuel IH]; intros colours path current Hz Hcl Hch Hcur; [lia|].
  pose proof (proj1 Hcl) as Hlen.
  destruct (lookup_lt_is_Some_2 items current Hcur) as [item Hitem].
  destruct (lookup_lt_is_Some_2 colours current ltac:(lia)) as [state Hstate].
  cbn [climb]. rewrite Hitem, Hstate. destruct (Z.eqb_spec state 0) as [->|Hs]; cbn [negb].
  - pose proof (climbing_step _ _ _ Hcl Hstate) as Hcl'. pose proof (zeros_insert _ _ Hstate) as Hz'.
    assert (forall i, colours !! i = Some 2 -> <[current := 1]> colours !! i = Some 2) as Hkeep.
    { intros i Hi. rewrite list_lookup_insert_ne; [done|]. intros <-. congruence. }
    destruct (is_root item) eqn:Er.
    + eexists _, _, _, item, 1. split; [done|]. split; [done|]. split; [done|].
      split; [apply list_lookup_insert_eq; lia|]. split; [done|]. split; [set_solver|]. split; [set_solver|].
      left. split_and!; [done..|]. by exists path.
    + unfold is_root in Er. apply bool_decide_eq_false in Er.
      destruct (Hparents item ltac:(by eapply list_elem_of_lookup_2) Er) as [p Hp]. rewrite Hp.
      destruct (IH (<[current := 1]> colours) (path ++ [current]) p) as (c' & p' & i' & it' & s' & Hv & H1 & H2 & H3 & H4 & H5 & H6 & H7);
        [lia|done|by eapply chain_snoc|by eapply index_of_lt|].
      exists c', p', i', it', s'. split_and!; try done; [by intros; apply H4, Hkeep|set_solver|set_solver].
  - eexists _, _, _, item, state. split; [done|]. split_and!; try done; [by intros [=]|]. by right.
Qed.

Lemma settle_lookup path colours i :
  Forall (fun j => (j < length colours)%nat) path ->
  settle path colours !! i = if decide (i ∈ path) then Some 2 else colours !! i.
Proof.
  unfold settle. revert colours. induction path as [|j path IH]; intros colours Hp; cbn; [by case_decide; [set_solver|]|].
  apply Forall_cons in Hp as [Hj Hp]. rewrite IH by (by rewrite length_insert).
  destruct (decide (i ∈ path)), (decide (i ∈ j :: path)); try done; [set_solver| |].
  - assert (i = j) as -> by set_solver. by apply list_lookup_insert_eq.
  - apply list_lookup_insert_ne. set_solver.
Qed.

Lemma length_settle path colours : length (settle path colours) = length colours.
Proof. unfold settle. revert colours. induction path as [|j path IH]; intros; cbn; [done|]. by rewrite IH, length_insert. Qed.

(** Between two starts no item is grey. *)
Lemma walk_from_spec colours start :
  climbing colours [] -> (start < length items)%nat ->
  exists r, walk_from items colours start = Val r /\
    match r with
    | inl colours' => climbing colours' [] /\ rooted start
    | inr _ => exists i, (i < length items)%nat /\ ~ rooted i
    end.
Proof.
  intros Hcl Hstart. pose proof (proj1 Hcl) as Hlen.
  destruct (lookup_lt_is_Some_2 colours start ltac:(lia)) as [state Hstate].
  unfold walk_from. rewrite Hstate. destruct (proj2 Hcl _ _ Hstate) as (Hv & Hg & Hb).
  destruct (Z.eqb_spec state 2) as [->|Hne]; [exists (inl colours); split; [done|]; auto|].
  assert (state = 0) as -> by (destruct Hv as [->|[->| ->]]; [done|set_solver|done]).
  destruct (climb_spec (S (length items)) colours [] start) as
    (c' & p' & i' & it' & s' & -> & Hcl' & Hit & Hst & Hk & _ & Hin & Hcase);
    [pose proof (zeros_le colours); lia|done|constructor|done|].
  cbn [xbind]. rewrite Hit, Hst. specialize (Hin Hstate).
  assert (Forall rooted p' -> climbing (settle p' c') [] /\ rooted start) as Hdone.
  { intros Hall. split; [|by rewrite Forall_forall in Hall; apply Hall]. destruct Hcl' as [Hl' Hc'].
    assert (Forall (fun j => (j < length c')%nat) p') as Hlt.
    { apply Forall_forall. intros j Hj. rewrite Forall_forall in Hall. destruct (Hall j Hj) as [n Hn].
      rewrite Hl'. inversion Hn; subst; by eapply lookup_lt_Some. }
    split; [by rewrite length_settle|]. intros j c Hj. rewrite settle_lookup in Hj by done. case_decide as Hjp.
    - injection Hj as <-. split_and!; [auto|split; [done|by intros ?%not_elem_of_nil]|].
      intros _. rewrite Forall_forall in Hall. by apply Hall.
    - destruct (Hc' j c Hj) as (H1 & H2 & H3). split_and!; [done| |done]. rewrite H2. set_solver. }
  destruct Hcase as [(Hr & -> & q & -> & Hq)|[Hch Hs]].
  - rewrite Hr. cbn. exists (inl (settle (q ++ [i']) c')). split; [done|]. apply Hdone.
    assert (rooted i') as Hri by (exists 0%nat; eapply depth_root; [done|]; unfold is_root in Hr; by apply bool_decide_eq_true in Hr).
    apply Forall_app. split; [by eapply chain_rooted|by constructor].
  - destruct (proj2 Hcl' _ _ Hst) as (Hv' & Hg' & Hb'). destruct Hv' as [->|[->| ->]]; [done| |].
    + assert (i' ∈ p') as Hi by (by apply Hg'). destruct (chain_member _ _ _ Hch Hi) as (it & Hit2 & Hnr).
      assert (it = it') as -> by congruence. unfold is_root. rewrite bool_decide_eq_false_2 by done. cbn.
      exists (inr (tr_id it')). split; [done|]. exists i'. split; [by eapply lookup_lt_Some|by eapply chain_cycle].
    + cbn. exists (inl (settle p' c')). split; [done|]. apply Hdone. apply (chain_rooted _ _ Hch). by apply Hb'.
Qed.

Lemma walk_all_spec colours starts :
  climbing colours [] -> Forall (fun s => (s < length items)%nat) starts ->
  exists r, walk_all items colours starts = Val r /\
    match r with
    | None => Forall rooted starts
    | Some _ => exists i, (i < length items)%nat /\ ~ rooted i
    end.
Proof.
  intros Hcl Hs. revert colours Hcl. induction Hs as [|s starts Hs Hss IH]; intros colours Hcl; cbn [walk_all]; [by exists None|].
  destruct (walk_from_spec colours s Hcl Hs) as ([colours'|id] & -> & H); cbn [xbind]; [|by exists (Some id)].
  destruct H as [Hcl' Hr]. destruct (IH colours' Hcl') as (r & -> & Hr'). exists r. split; [done|].
  destruct r; [done|by constructor].
Qed.

(** The walk returns, and finds nothing exactly when every item has a root above it. *)
Lemma find_cycle_spec :
  exists r, find_cycle items = Val r /\ (r = None <-> forall i, (i < length items)%nat -> rooted i).
Proof.
  unfold find_cycle. destruct (walk_all_spec (replicate (length items) 0) (seq 0 (length items))) as (r & -> & Hr).
  - split; [apply length_replicate|]. intros i c [-> _]%lookup_replicate. split_and!; [auto| |done].
    split; [done|by intros ?%not_elem_of_nil].
  - apply Forall_forall. intros i Hi%elem_of_seq. lia.
  - exists r. split; [done|]. destruct r as [id|].
    + split; [done|]. intros H. destruct Hr as (i & Hi & Hn). by destruct (Hn (H i Hi)).
    + split; [|done]. intros _ i Hi. rewrite Forall_forall in Hr. apply Hr, elem_of_seq. lia.
Qed.
End Walk.

(** ** Accepted snapshots *)

Lemma require_ok {A} (o : option A) e a : require o e = Ok a -> o = Some a.
Proof. destruct o; cbn; [by intros [= ->]|done]. Qed.

Lemma ebind_ok {A B} (m : Expected A) (f : A -> Expected B) b :
  ebind m f = Ok b -> exists a, m = Ok a /\ f a = Ok b.
Proof. destruct m; cbn; [eauto|done]. Qed.

Lemma existsb_bytes id seen : existsb (bytes_eqb id) seen = true <-> id ∈ seen.
Proof.
  rewrite existsb_exists. setoid_rewrite bytes_eqb_eq. setoid_rewrite <-list_elem_of_In. naive_solver.
Qed.

Lemma tree_item_id prefix seen j item : tree_item prefix seen j = Ok item -> tr_id item <> [] /\ tr_id item ∉ seen.
Proof.
  unfold tree_item. destruct (negb _); [done|].
  intros (id & _ & H)%ebind_ok. case_bool_decide as Hid; [done|].
  destruct (existsb _ seen) eqn:Es; [done|]. apply ebind_ok in H as (parent & _ & H).
  destruct (bytes_eqb parent id); [done|].
  do 6 (apply ebind_ok in H as (? & _ & H)). injection H as <-. cbn. split; [done|].
  intros Hin. apply existsb_bytes in Hin. congruence.
Qed.

Lemma tree_item_list_ids index seen l items :
  tree_item_list index seen l = Ok items ->
  NoDup (map tr_id items) /\ Forall (fun item => tr_id item <> [] /\ tr_id item ∉ seen) items.
Proof.
  revert index seen items. induction l as [|j l IH]; intros index seen items; cbn [tree_item_list].
  - intros [= <-]. split; constructor.
  - intros (item & Hi & (rest & Hr & [= <-])%ebind_ok)%ebind_ok.
    apply tree_item_id in Hi as [Hne Hns]. apply IH in Hr as [Hd Hf]. split.
    + cbn. apply NoDup_cons. split; [|done]. intros (x & Hx & Hin)%list_elem_of_fmap.
      rewrite Forall_forall in Hf. destruct (Hf x Hin) as [_ H]. apply H. rewrite <-Hx. left.
    + constructor; [done|]. eapply Forall_impl; [exact Hf|]. intros x [H1 H2]. split; [done|set_solver].
Qed.

Lemma index_of_in id items : id ∈ map tr_id items -> exists p, index_of id items = Some p.
Proof.
  induction items as [|item items IH]; cbn; [by intros ?%not_elem_of_nil|].
  destruct (bytes_eqb (tr_id item) id) eqn:E; [eauto|].
  intros [->|H]%elem_of_cons; [by rewrite bytes_eqb_refl in E|]. destruct (IH H) as [p ->]. cbn. eauto.
Qed.

Lemma forest_parents items : forest items -> List.find (missing_parent items) items = None.
Proof.
  intros (_ & _ & Hd). destruct (List.find _ items) as [item|] eqn:E; [|done].
  apply List.find_some in E as [Hin Hm]. apply list_elem_of_In, list_elem_of_lookup in Hin as [i Hi].
  destruct (Hd i ltac:(by eapply lookup_lt_Some)) as [n Hn]. unfold missing_parent, is_root in Hm.
  inversion Hn; subst; simplify_eq.
  - by rewrite bool_decide_eq_true_2 in Hm.
  - rewrite H1 in Hm. by rewrite andb_false_r in Hm.
Qed.

Lemma no_missing_parents items :
  List.find (missing_parent items) items = None ->
  forall item, item ∈ items -> tr_parent_id item <> [] -> exists p, index_of (tr_parent_id item) items = Some p.
Proof.
  intros Hf item Hin Hne. apply list_elem_of_In in Hin.
  pose proof (List.find_none _ _ Hf item Hin) as H. unfold missing_parent, is_root in H.
  rewrite bool_decide_eq_false_2 in H by done. destruct (index_of _ items); [eauto|done].
Qed.

(** Decoding a snapshot always returns, and accepts exactly the decoded forests. *)
Lemma snapshot_cases j :
  exists r, tree_snapshot j = Val r /\
    forall items, r = Ok items <-> exists l, j = JArray l /\ tree_item_list 0 [] l = Ok items /\ forest items.
Proof.
  unfold tree_snapshot.
  destruct j as [| | | | | |l|]; try (eexists; split; [done|]; intros items; split; [done|by intros (? & ? & _)]).
  destruct (tree_item_list 0 [] l) as [items|e] eqn:El;
    [|eexists; split; [done|]; intros items; split; [done|]; intros (? & [= <-] & H & _); congruence].
  destruct (List.find _ items) as [item|] eqn:Ef.
  { eexists. split; [done|]. intros items'. split; [done|]. intros (? & [= <-] & [= <-]%(eq_trans (eq_sym El)) & Hfor).
    by rewrite forest_parents in Ef. }
  destruct (find_cycle_spec items (no_missing_parents _ Ef)) as (r & -> & Hr). cbn [xbind].
  eexists. split; [done|]. intros items'. apply tree_item_list_ids in El as Hids. destruct Hids as [Hnd Hids].
  assert (Forall (fun item => tr_id item <> []) items) as Hne by (eapply Forall_impl; [exact Hids|]; by intros x []).
  destruct r as [id|].
  - split; [done|]. intros (? & [= <-] & [= <-]%(eq_trans (eq_sym El)) & Hfor). destruct Hfor as (_ & _ & Hd).
    by pose proof (proj2 Hr Hd).
  - split.
    + intros [= <-]. exists l. split; [done|]. split; [done|]. split_and!; [done..|by apply Hr].
    + intros (? & [= <-] & [= <-]%(eq_trans (eq_sym El)) & _). done.
Qed.
