(* ===== verification/WidgetDocument.v ===== *)
(** * WidgetDocument: histories of a dialog description

    The setters of [WidgetData] as data, what each of them may change, the
    well-formedness of every document they build, and the accessors of single fields
    over the text of such a document. *)

From stdpp Require Import sets.
From S2P Require Import Prelude Text Doubles Json WidgetData WidgetDataView.

(** ** Channels: the setters of one field and the accessors that read it *)

Inductive string_channel : Type :=
  | CText | CPlaceholder | CListPlaceholder | CChartPlaceholder | CPlainText | CCodeContent | CCodeLanguage | CLabel
  | CButtonText | CButtonIcon | CButtonIconNamed | CShortcut | CDateTime | CStackedPage.

Inductive bool_channel : Type :=
  | CReadOnly | CChecked | CListDeletable | CListMultiSelect | CTreeMultiSelection | CChartZoom | CChartAutoZoom
  | CCodeCaretTracking | COkEnabled | CEnabled | CVisible.

Inductive int_channel : Type := CCurrentIndex | CValueInt | CCodeCursor | CTabIndex | CStackedIndex.

Inductive strings_channel : Type :=
  | CItems | CListItems | CSelectedItems | CListItemColors | CListDisabled | CTableHeaders
  | CTreeHeaders | CTreeSelected | CTreeExpanded.

Inductive ints_channel : Type := CSelectedRows | CDisabledRows | CVisibleRows.

(** Pairs of integer fields, written together. *)
Inductive pair_channel : Type := CRange | CSliderBounds | CSliderValues | CTimelineBounds | CRadioColumn.

Inductive span_channel : Type := CSliderSpan | CTimelineSpan.

Definition set_string (c : string_channel) : bytes -> bytes -> data -> option data :=
  match c with
  | CText => setText | CPlaceholder => setPlaceholder | CListPlaceholder => setListPlaceholder
  | CChartPlaceholder => setChartPlaceholder | CPlainText => setPlainText | CCodeContent => setCodeContent
  | CCodeLanguage => setCodeLanguage | CLabel => setLabel | CButtonText => setButtonText
  | CButtonIcon => setButtonIcon | CButtonIconNamed => setButtonIconNamed | CShortcut => setShortcut
  | CDateTime => setDateTime | CStackedPage => setStackedPage
  end.

Definition read_string (c : string_channel) : json -> bytes -> option bytes :=
  match c with
  | CText => text | CPlaceholder => placeholder | CListPlaceholder => listPlaceholder
  | CChartPlaceholder => chartPlaceholder | CPlainText => plainText | CCodeContent => codeContent
  | CCodeLanguage => codeLanguage | CLabel => label | CButtonText => buttonText
  | CButtonIcon => buttonIconSvg | CButtonIconNamed => buttonIconName | CShortcut => shortcut
  | CDateTime => dateTime | CStackedPage => stackedPage
  end.

Definition set_bool (c : bool_channel) : bytes -> bool -> data -> option data :=
  match c with
  | CReadOnly => setReadOnly | CChecked => setChecked | CListDeletable => setListItemsDeletable
  | CListMultiSelect => setListSelectionMode | CTreeMultiSelection => setTreeSelectionMode
  | CChartZoom => setChartZoomEnabled | CChartAutoZoom => setChartAutoZoom
  | CCodeCaretTracking => setCodeCaretTracking | COkEnabled => setOkEnabled | CEnabled => setEnabled
  | CVisible => setVisible
  end.

Definition read_bool (c : bool_channel) : json -> bytes -> option bool :=
  match c with
  | CReadOnly => readOnly | CChecked => checked | CListDeletable => listDeletable
  | CListMultiSelect => listMultiSelect | CTreeMultiSelection => treeMultiSelection
  | CChartZoom => chartZoomEnabled | CChartAutoZoom => chartAutoZoom
  | CCodeCaretTracking => codeCaretTracking | COkEnabled => okEnabled | CEnabled => enabled
  | CVisible => visible
  end.

Definition set_int (c : int_channel) : bytes -> Z -> data -> option data :=
  match c with
  | CCurrentIndex => setCurrentIndex | CValueInt => setValue_int | CCodeCursor => setCodeCursor
  | CTabIndex => setTabIndex | CStackedIndex => setStackedIndex
  end.

Definition read_int (c : int_channel) : json -> bytes -> option Z :=
  match c with
  | CCurrentIndex => currentIndex | CValueInt => valueInt | CCodeCursor => codeCursor
  | CTabIndex => tabIndex | CStackedIndex => stackedIndex
  end.

Definition set_strings (c : strings_channel) : bytes -> list bytes -> data -> option data :=
  match c with
  | CItems => setItems | CListItems => setListItems | CSelectedItems => setSelectedItems
  | CListItemColors => setListItemColors | CListDisabled => setListItemsDisabled | CTableHeaders => setTableHeaders
  | CTreeHeaders => setTreeHeaders | CTreeSelected => setTreeSelectedIds | CTreeExpanded => setTreeExpandedIds
  end.

Definition read_strings (c : strings_channel) : json -> bytes -> option (list bytes) :=
  match c with
  | CItems => items | CListItems => listItems | CSelectedItems => selectedItems
  | CListItemColors => listItemColors | CListDisabled => listDisabledItems | CTableHeaders => tableHeaders
  | CTreeHeaders => treeHeaders | CTreeSelected => treeSelectedIds | CTreeExpanded => treeExpandedIds
  end.

Definition set_ints (c : ints_channel) : bytes -> list Z -> data -> option data :=
  match c with CSelectedRows => setSelectedRows | CDisabledRows => setDisabledRows | CVisibleRows => setVisibleRows end.

Definition read_ints (c : ints_channel) : json -> bytes -> option (list Z) :=
  match c with CSelectedRows => selectedRows | CDisabledRows => disabledRows | CVisibleRows => visibleRows end.

Definition set_pair (c : pair_channel) : bytes -> Z -> Z -> data -> option data :=
  match c with
  | CRange => setRange | CSliderBounds => setRangeSliderBounds | CSliderValues => setRangeSliderValues
  | CTimelineBounds => setMarkerTimelineBounds | CRadioColumn => setTableRadioColumn
  end.

Definition read_pair (c : pair_channel) (v : json) (name : bytes) : option Z * option Z :=
  match c with
  | CRange => (rangeMin v name, rangeMax v name)
  | CSliderBounds => (rangeSliderMin v name, rangeSliderMax v name)
  | CSliderValues => (rangeSliderLower v name, rangeSliderUpper v name)
  | CTimelineBounds => (markerTimelineMin v name, markerTimelineMax v name)
  | CRadioColumn => (tableRadioColumn v name, tableRadioCheckedRow v name)
  end.

Definition set_span (c : span_channel) : bytes -> Z -> Z -> data -> option data :=
  match c with CSliderSpan => setRangeSliderTimeSpan | CTimelineSpan => setMarkerTimelineTimeSpan end.

Definition read_span (c : span_channel) : json -> bytes -> option (Z * Z) :=
  match c with CSliderSpan => rangeSliderTimeSpan | CTimelineSpan => markerTimelineTimeSpan end.

(** ** Histories *)

Inductive WidgetOp : Type :=
  | OpString (c : string_channel) (name s : bytes)
  | OpBool (c : bool_channel) (name : bytes) (b : bool)
  | OpInt (c : int_channel) (name : bytes) (z : Z)
  | OpStrings (c : strings_channel) (name : bytes) (l : list bytes)
  | OpInts (c : ints_channel) (name : bytes) (l : list Z)
  | OpPair (c : pair_channel) (name : bytes) (a b : Z)
  | OpSpan (c : span_channel) (name : bytes) (a b : Z)
  | OpDouble (name : bytes) (f : double)
  | OpDropTarget (name : bytes) (b : bool)
  | OpDateTimeRange (name a b : bytes)
  | OpDateRange (name a b : bytes)
  | OpFieldValid (name : bytes) (ok : bool) (tooltip : bytes)
  | OpRows (name : bytes) (rows : list (list bytes))
  | OpTypedRows (name : bytes) (rows : list (list TableItem))
  | OpSortIndicator (name : bytes) (column : Z) (ascending : bool)
  | OpClearVisibleRows (name : bytes)
  | OpRowColor (name : bytes) (row : Z) (color : bytes)
  | OpCellTooltip (name : bytes) (row col : Z) (tooltip : bytes)
  | OpAppend (name : bytes) (seq : Z) (rows : list (list bytes))
  | OpAppendTyped (name : bytes) (seq : Z) (rows : list (list TableItem))
  | OpUpdateCells (name : bytes) (seq : Z) (cells : list TableCellUpdate)
  | OpRemoveRows (name : bytes) (seq : Z) (rows : list Z)
  | OpTreeItems (name : bytes) (l : list TreeItem)
  | OpTreeVisible (name : bytes) (ids : option (list bytes))
  | OpChartSeries (name : bytes) (l : list ChartSeries)
  | OpChartMarkers (name : bytes) (l : list ChartMarker)
  | OpClearChart (name : bytes)
  | OpSceneView (name : bytes) (view : option SceneView)
  | OpFilePicker (name button filter title : bytes)
  | OpFilePickerOptions (name button : bytes) (o : FilePickerOptions)
  | OpSaveFilePicker (name button filter title suffix : bytes)
  | OpFolderPicker (name button title : bytes)
  | OpTimelineMarks (name : bytes) (l : list TimelineMark)
  | OpRangeMarkers (name : bytes) (l : list RangeSliderMarker)
  | OpRequestAccept | OpSubDialog (ui : bytes) | OpSubPanel (ui : bytes) | OpCloseSubPanel | OpClose (reason : bytes)
  | OpClear.

Definition apply_op (op : WidgetOp) : data -> option data :=
  match op with
  | OpString c name s => set_string c name s
  | OpBool c name b => set_bool c name b
  | OpInt c name z => set_int c name z
  | OpStrings c name l => set_strings c name l
  | OpInts c name l => set_ints c name l
  | OpPair c name a b => set_pair c name a b
  | OpSpan c name a b => set_span c name a b
  | OpDouble name f => setValue_double name f
  | OpDropTarget name b => setDropTarget name b
  | OpDateTimeRange name a b => setDateTimeRange name a b
  | OpDateRange name a b => setDateRangePlaceholder name a b
  | OpFieldValid name ok tooltip => setFieldValid name ok tooltip
  | OpRows name rows => setTableRows name rows
  | OpTypedRows name rows => setTableRows_typed name rows
  | OpSortIndicator name column ascending => setTableSortIndicator name column ascending
  | OpClearVisibleRows name => clearVisibleRows name
  | OpRowColor name row color => setRowColor name row color
  | OpCellTooltip name row col tooltip => setCellTooltip name row col tooltip
  | OpAppend name seq rows => appendTableRows name seq rows
  | OpAppendTyped name seq rows => appendTableRows_typed name seq rows
  | OpUpdateCells name seq cells => updateTableCells name seq cells
  | OpRemoveRows name seq rows => removeTableRows name seq rows
  | OpTreeItems name l => setTreeItems name l
  | OpTreeVisible name (Some ids) => setTreeVisibleIds name ids
  | OpTreeVisible name None => clearTreeVisibleIds name
  | OpChartSeries name l => setChartSeries name l
  | OpChartMarkers name l => setChartMarkers name l
  | OpClearChart name => clearChart name
  | OpSceneView name (Some view) => setSceneView name view
  | OpSceneView name None => clearSceneView name
  | OpFilePicker name button filter title => setFilePicker name button filter title
  | OpFilePickerOptions name button o => setFilePicker_options name button o
  | OpSaveFilePicker name button filter title suffix => setSaveFilePicker name button filter title suffix
  | OpFolderPicker name button title => setFolderPicker name button title
  | OpTimelineMarks name l => setMarkerTimelineMarks name l
  | OpRangeMarkers name l => setRangeSliderMarkers name l
  | OpRequestAccept => WidgetData.requestAccept
  | OpSubDialog ui => requestSubDialog ui
  | OpSubPanel ui => requestSubPanel ui
  | OpCloseSubPanel => closeSubPanel
  | OpClose reason => WidgetData.requestClose reason
  | OpClear => fun d => Some (clear d)
  end.

Fixpoint run_ops (ops : list WidgetOp) (d : data) : option data :=
  match ops with [] => Some d | op :: ops' => let* d := apply_op op d in run_ops ops' d end.

(** The field of a channel. *)
Definition string_key (c : string_channel) : bytes :=
  match c with
  | CText => str "text" | CPlaceholder => str "placeholder" | CListPlaceholder => str "list_placeholder"
  | CChartPlaceholder => str "chart_placeholder" | CPlainText => str "plain_text" | CCodeContent => str "code_content"
  | CCodeLanguage => str "code_language" | CLabel => str "label" | CButtonText => str "button_text"
  | CButtonIcon => str "button_icon_svg" | CButtonIconNamed => str "button_icon_name" | CShortcut => str "shortcut"
  | CDateTime => str "datetime" | CStackedPage => str "stacked_page"
  end.

Definition bool_key (c : bool_channel) : bytes :=
  match c with
  | CReadOnly => str "read_only" | CChecked => str "checked" | CListDeletable => str "list_deletable"
  | CListMultiSelect => str "list_multi_select" | CTreeMultiSelection => str "tree_multi_selection"
  | CChartZoom => str "chart_zoom_enabled" | CChartAutoZoom => str "chart_auto_zoom"
  | CCodeCaretTracking => str "code_caret_tracking" | COkEnabled => str "ok_enabled" | CEnabled => str "enabled"
  | CVisible => str "visible"
  end.

Definition int_key (c : int_channel) : bytes :=
  match c with
  | CCurrentIndex => str "current_index" | CValueInt => str "value" | CCodeCursor => str "code_cursor"
  | CTabIndex => str "tab_index" | CStackedIndex => str "stacked_index"
  end.

Definition strings_key (c : strings_channel) : bytes :=
  match c with
  | CItems => str "items" | CListItems => str "list_items" | CSelectedItems => str "selected_items"
  | CListItemColors => str "list_item_colors" | CListDisabled => str "list_disabled_items"
  | CTableHeaders => str "headers" | CTreeHeaders => str "tree_headers" | CTreeSelected => str "tree_selected_ids"
  | CTreeExpanded => str "tree_expanded_ids"
  end.

Definition ints_key (c : ints_channel) : bytes :=
  match c with
  | CSelectedRows => str "selected_rows" | CDisabledRows => str "disabled_rows" | CVisibleRows => str "visible_rows"
  end.

Definition pair_keys (c : pair_channel) : bytes * bytes :=
  match c with
  | CRange => (str "min", str "max") | CSliderBounds => (str "range_min", str "range_max")
  | CSliderValues => (str "range_lower", str "range_upper")
  | CTimelineBounds => (str "marker_timeline_min", str "marker_timeline_max")
  | CRadioColumn => (str "radio_column", str "radio_checked_row")
  end.

Definition span_keys (c : span_channel) : bytes * bytes :=
  match c with
  | CSliderSpan => (str "range_time_min_ns", str "range_time_max_ns")
  | CTimelineSpan => (str "marker_timeline_time_min_ns", str "marker_timeline_time_max_ns")
  end.

(** The widget a setter changes and the fields of it that may change. *)
Definition op_fields (op : WidgetOp) : option (bytes * list bytes) :=
  match op with
  | OpString c name _ => Some (name, [string_key c])
  | OpBool c name _ => Some (name, [bool_key c])
  | OpInt c name _ => Some (name, [int_key c])
  | OpStrings c name _ => Some (name, [strings_key c])
  | OpInts c name _ => Some (name, [ints_key c])
  | OpPair c name _ _ => Some (name, [(pair_keys c).1; (pair_keys c).2])
  | OpSpan c name _ _ => Some (name, [(span_keys c).1; (span_keys c).2])
  | OpDouble name _ => Some (name, [str "value"])
  | OpDropTarget name _ => Some (name, [str "drop_target"])
  | OpDateTimeRange name _ _ => Some (name, [str "datetime_min"; str "datetime_max"])
  | OpDateRange name _ _ => Some (name, [str "date_range_earliest"; str "date_range_latest"])
  | OpFieldValid name _ _ => Some (name, [str "valid"; str "valid_tooltip"])
  | OpRows name _ | OpTypedRows name _ => Some (name, [str "rows"; str "column_values"])
  | OpSortIndicator name _ _ => Some (name, [str "sort_indicator"])
  | OpClearVisibleRows name => Some (name, [str "visible_rows"])
  | OpRowColor name _ _ => Some (name, [str "row_colors"])
  | OpCellTooltip name _ _ _ => Some (name, [str "cell_tooltips"])
  | OpAppend name _ _ | OpAppendTyped name _ _ | OpUpdateCells name _ _ | OpRemoveRows name _ _ =>
    Some (name, [str "table_delta"])
  | OpTreeItems name _ => Some (name, [str "tree_items"])
  | OpTreeVisible name _ => Some (name, [str "tree_visible_ids"])
  | OpChartSeries name _ => Some (name, [str "chart_series"])
  | OpChartMarkers name _ => Some (name, [str "chart_markers"])
  | OpClearChart name => Some (name, [str "chart_series"; str "chart_markers"])
  | OpSceneView name _ => Some (name, [str "scene_view"])
  | OpFilePicker name _ _ _ => Some (name, [str "button_text"; str "action"; str "filter"; str "title"])
  | OpFilePickerOptions name _ _ =>
    Some (name, [str "button_text"; str "file_picker"; str "title"; str "action"; str "filter"; str "default_suffix"])
  | OpSaveFilePicker name _ _ _ _ =>
    Some (name, [str "button_text"; str "action"; str "filter"; str "title"; str "default_suffix"])
  | OpFolderPicker name _ _ => Some (name, [str "button_text"; str "action"; str "title"])
  | OpTimelineMarks name _ => Some (name, [str "marker_timeline_marks"])
  | OpRangeMarkers name _ => Some (name, [str "range_markers"])
  | _ => None
  end.

(** The name of a dialog-level command. *)
Definition op_command (op : WidgetOp) : option bytes :=
  match op with
  | OpRequestAccept => Some (str "__request_accept")
  | OpSubDialog _ => Some (str "__request_sub_dialog")
  | OpSubPanel _ => Some (str "__request_sub_panel")
  | OpCloseSubPanel => Some (str "__request_sub_panel_close")
  | OpClose _ => Some (str "__request_close")
  | _ => None
  end.

Definition touches (op : WidgetOp) (name key : bytes) : bool :=
  match op_fields op, op_command op with
  | Some (n, ks), _ => bytes_eqb n name && existsb (bytes_eqb key) ks
  | None, Some n => bytes_eqb n name
  | None, None => true
  end.

(** ** Frames

    What an assignment to an entry leaves alone, as a class that resolution derives
    from the way a setter is composed. *)

Class ChangesOnly (ks : list bytes) (f : json -> option json) : Prop :=
  changes_only : forall e e' k, f e = Some e' -> k ∉ ks -> jfind k e' = jfind k e.

Lemma obind_some {A B} (m : option A) (f : A -> option B) b :
  obind m f = Some b -> exists a, m = Some a /\ f a = Some b.
Proof. destruct m; cbn; [eauto|done]. Qed.

Lemma index_set_find key v e e' k :
  index_set key v e = Some e' -> jfind k e' = if decide (k = key) then Some v else jfind k e.
Proof.
  destruct e; try done; cbn [index_set]; intros [= <-]; cbn [jfind].
  - cbn. case_decide as Hd; [subst; by rewrite bytes_eqb_refl|].
    by rewrite (proj2 (bytes_eqb_neq key k)) by done.
  - case_decide as Hd; [subst; apply obj_find_set_eq|by apply obj_find_set_ne].
Qed.

Lemma jerase_find key e e' k :
  jerase key e = Some e' -> jfind k e' = if decide (k = key) then None else jfind k e.
Proof.
  destruct e; try done; cbn [jerase]; intros [= <-]; cbn [jfind].
  case_decide as Hd; [subst; apply obj_find_erase_eq|by apply obj_find_erase_ne].
Qed.

#[export] Instance index_set_changes key v : ChangesOnly [key] (index_set key v).
Proof.
  intros e e' k H Hk. rewrite (index_set_find _ _ _ _ k H). case_decide; [|done].
  subst. by destruct Hk; left.
Qed.

#[export] Instance jerase_changes key : ChangesOnly [key] (jerase key).
Proof.
  intros e e' k H Hk. rewrite (jerase_find _ _ _ k H). case_decide; [|done]. subst. by destruct Hk; left.
Qed.

#[export] Instance obind_changes ks1 ks2 f g :
  ChangesOnly ks1 f -> ChangesOnly ks2 g -> ChangesOnly (ks1 ++ ks2) (fun e => let* e := f e in g e).
Proof.
  intros Hf Hg e e' k (e1 & H1 & H2)%obind_some Hk. apply not_elem_of_app in Hk as [Hk1 Hk2].
  by rewrite (changes_only _ _ _ H2 Hk2), (changes_only _ _ _ H1 Hk1).
Qed.

#[export] Instance puts_changes pairs : ChangesOnly (map fst pairs) (puts pairs).
Proof.
  induction pairs as [|[key v] pairs IH]; [by intros e e' k [= <-]|].
  intros e e' k (e1 & H1 & H2)%obind_some Hk. apply not_elem_of_cons in Hk as [Hk1 Hk2].
  rewrite (IH _ _ _ H2 Hk2). apply (index_set_changes _ _ _ _ _ H1). by apply not_elem_of_cons; split; [|apply not_elem_of_nil].
Qed.

Lemma puts_changes_keys pairs ks : ks = map fst pairs -> ChangesOnly ks (puts pairs).
Proof. intros ->. apply _. Qed.

#[export] Instance index_update_changes key f : ChangesOnly [key] (index_update key f).
Proof. intros e e' k H Hk. exact (index_set_changes _ _ _ _ _ H Hk). Qed.

Lemma changes_weaken ks ks' f : (forall k, k ∈ ks -> k ∈ ks') -> ChangesOnly ks f -> ChangesOnly ks' f.
Proof. intros Hs Hf e e' k H Hk. eapply Hf; [done|]. auto. Qed.

Lemma field_find v name key : field v name key = match jfind name v with Some e => jfind key e | None => None end.
Proof. unfold field, widget. by destruct (jfind name v) as [[]|]. Qed.

(** The field of a document after an assignment to one of its entries. *)
Lemma with_entry_frame name f ks d d' n k :
  ChangesOnly ks f -> with_entry name f d = Some d' -> (n = name -> k ∉ ks) ->
  field (JObject d') n k = field (JObject d) n k.
Proof.
  intros Hf H Hk. unfold with_entry in H. set (e := match obj_find name d with Some e => e | None => _ end) in H.
  destruct (f e) as [e'|] eqn:E; [|done]. injection H as <-. rewrite !field_find. cbn [jfind].
  destruct (decide (n = name)) as [->|Hn]; [|by rewrite obj_find_set_ne by done].
  rewrite obj_find_set_eq. rewrite (changes_only _ _ _ E (Hk eq_refl)). unfold e.
  by destruct (obj_find name d).
Qed.

(** The field an assignment writes. *)
Lemma with_entry_field name f d d' :
  with_entry name f d = Some d' ->
  exists e e', f e = Some e' /\ (forall k, field (JObject d') name k = jfind k e') /\
    (forall k, jfind k e = field (JObject d) name k) /\ e = match obj_find name d with Some e => e | None => JObject [] end.
Proof.
  unfold with_entry. set (e := match obj_find name d with Some e => e | None => _ end).
  destruct (f e) as [e'|] eqn:E; [|done]. intros [= <-]. exists e, e'. split; [done|].
  split_and!; [| |done]; intros k'; rewrite field_find; [cbn [jfind]; by rewrite obj_find_set_eq|]. cbn [jfind]. unfold e. by destruct (obj_find name d).
Qed.

Lemma put_field name key v d d' : put name key v d = Some d' -> field (JObject d') name key = Some v.
Proof.
  intros (e & e' & He & Hk & _)%with_entry_field. rewrite Hk, (index_set_find _ _ _ _ _ He).
  by rewrite decide_True.
Qed.

#[export] Instance put_typed_rows_changes rk vk rows : ChangesOnly [rk; vk] (put_typed_rows rk vk rows).
Proof.
  unfold put_typed_rows. destruct (encodeTypedRows rows) as [text columns].
  apply (obind_changes [rk] [vk]); [apply _|]. case_bool_decide; apply _.
Qed.

Lemma with_delta_frame name seq f d d' n k :
  with_delta name seq f d = Some d' -> (n = name -> k ∉ [str "table_delta"]) ->
  field (JObject d') n k = field (JObject d) n k.
Proof.
  apply with_entry_frame. intros e e' k' (delta & _ & H)%obind_some Hk'. exact (index_set_changes _ _ _ _ _ H Hk').
Qed.

Lemma command_field key v d n k : n <> key -> field (JObject (obj_set key v d)) n k = field (JObject d) n k.
Proof. intros Hn. rewrite !field_find. cbn [jfind]. by rewrite obj_find_set_ne by done. Qed.

Lemma apply_frame op d d' n k :
  apply_op op d = Some d' -> touches op n k = false -> field (JObject d') n k = field (JObject d) n k.
Proof.
  intros H Ht. unfold touches in Ht.
  destruct (op_fields op) as [[name ks]|] eqn:Ef.
  - assert (n = name -> k ∉ ks) as Hk.
    { intros -> Hin. rewrite bytes_eqb_refl in Ht. cbn in Ht. enough (existsb (bytes_eqb k) ks = true) by congruence.
      apply existsb_exists. exists k. split; [by apply list_elem_of_In|apply bytes_eqb_refl]. }
    clear Ht.
    destruct op; cbn [op_fields] in Ef; try done; injection Ef as -> <-; cbn [apply_op] in H;
      try (destruct c; cbn [set_string set_bool set_int set_strings set_ints set_pair set_span] in H); repeat match goal with H : match ?o with Some _ => _ | None => _ end _ = _ |- _ => destruct o end;
      try (eapply with_delta_frame; [exact H|exact Hk]);
      (eapply with_entry_frame; [|exact H|exact Hk]); try (refine (puts_changes_keys _ _ _); reflexivity); try apply _.
    (* rows and pickers *)
    + apply (obind_changes [_] [_]); apply _.
    + intros e e' k' (e1 & H1 & H2)%obind_some Hk'.
      assert (jfind k' e1 = jfind k' e) as <- by (apply (puts_changes _ _ _ _ H1); cbn; set_solver).
      destruct (fp_mode o); revert H2.
      1,2: intros (e2 & H2 & H3)%obind_some; rewrite (jerase_changes _ _ _ _ H3) by (cbn in Hk'; set_solver);
        apply (puts_changes _ _ _ _ H2); cbn; set_solver.
      * intros H2. apply (puts_changes _ _ _ _ H2); cbn; set_solver.
      * intros (e2 & H2 & (e3 & H3 & H4)%obind_some)%obind_some.
        rewrite (jerase_changes _ _ _ _ H4) by (cbn in Hk'; set_solver).
        rewrite (jerase_changes _ _ _ _ H3) by (cbn in Hk'; set_solver).
        apply (puts_changes _ _ _ _ H2); cbn; set_solver.
  - destruct op; cbn in Ef, Ht; try done; cbn [apply_op] in H; injection H as <-;
      apply command_field; intros ->; by rewrite bytes_eqb_refl in Ht.
Qed.

(** ** Well-formedness *)

Class KeepsWf (f : json -> option json) : Prop :=
  keeps_wf : forall e e', f e = Some e' -> wf e = true -> wf e' = true.

Definition wf_data (d : data) : Prop := wf (JObject d) = true.

Lemma index_set_wf key v : wf v = true -> KeepsWf (index_set key v).
Proof. intros Hv e e' H He. exact (wf_index_set _ _ _ _ Hv He H). Qed.

#[export] Instance jerase_wf key : KeepsWf (jerase key).
Proof. intros e e' H He. destruct e; try done. injection H as <-. by apply wf_obj_erase. Qed.

Lemma obind_wf f g : KeepsWf f -> KeepsWf g -> KeepsWf (fun e => let* e := f e in g e).
Proof. intros Hf Hg e e' (e1 & H1 & H2)%obind_some He. exact (Hg _ _ H2 (Hf _ _ H1 He)). Qed.

Lemma puts_wf pairs : Forall (fun p => wf p.2 = true) pairs -> KeepsWf (puts pairs).
Proof.
  induction 1 as [|[k v] pairs Hv Hp IH]; [by intros e e' [= <-]|].
  apply (obind_wf (index_set k v) (puts pairs)); [by apply index_set_wf|done].
Qed.

Lemma jfind_wf key j v : wf j = true -> jfind key j = Some v -> wf v = true.
Proof. destruct j; try done. apply wf_obj_find. Qed.

Lemma with_entry_wf name f d d' : KeepsWf f -> with_entry name f d = Some d' -> wf_data d -> wf_data d'.
Proof.
  intros Hf H Hd. unfold with_entry in H. destruct (f _) as [e'|] eqn:E; [|done]. injection H as <-.
  apply wf_obj_set; [|done]. eapply Hf; [exact E|].
  destruct (obj_find name d) eqn:En; [by eapply wf_obj_find|done].
Qed.

Lemma put_wf name key v d d' : wf v = true -> put name key v d = Some d' -> wf_data d -> wf_data d'.
Proof. intros Hv. apply with_entry_wf, index_set_wf, Hv. Qed.

Lemma fresh_delta_wf seq delta : in_u 64 seq -> wf delta = true -> wf (fresh_delta seq delta) = true.
Proof.
  intros Hs Hd. assert (wf (JObject [(str "seq", JUInt seq)]) = true) as Hf by (cbn; by rewrite bool_decide_eq_true_2).
  unfold fresh_delta. destruct (jfind _ delta) as [[]|]; try done. by destruct (_ =? _).
Qed.

Lemma with_delta_wf name seq f d d' :
  in_u 64 seq -> KeepsWf f -> with_delta name seq f d = Some d' -> wf_data d -> wf_data d'.
Proof.
  intros Hs Hf. apply with_entry_wf. intros e e' (delta & H1 & H2)%obind_some He.
  eapply index_set_wf; [|exact H2|done]. eapply Hf; [exact H1|]. apply fresh_delta_wf; [done|].
  destruct (jfind _ e) eqn:E; [by eapply jfind_wf|done].
Qed.

(** *** Arguments in range *)

Definition numeric_ok (v : NumericValue) : bool :=
  match v with
  | VFloat f | VDouble f => double_ok f
  | VInt w z => bool_decide (w ∈ [8; 16; 32; 64] /\ in_s w z)
  | VUInt w z => bool_decide (w ∈ [8; 16; 32; 64] /\ in_u w z)
  end.

Definition optional_ok (v : option NumericValue) : bool := match v with Some v => numeric_ok v | None => true end.
Definition item_ok (i : TableItem) : bool := optional_ok (ti_value i).
Definition int_ok (z : Z) : bool := bool_decide (in_s 32 z).

Definition marker_ok (m : ChartMarker) : bool :=
  double_ok (cm_x0 m) && double_ok (cm_x1 m) && double_ok (cm_y0 m) && double_ok (cm_y1 m).

Definition op_ok (op : WidgetOp) : bool :=
  match op with
  | OpInt _ _ z => int_ok z
  | OpInts _ _ l => forallb int_ok l
  | OpPair _ _ a b => int_ok a && int_ok b
  | OpSpan _ _ a b => bool_decide (in_s 64 a) && bool_decide (in_s 64 b)
  | OpDouble _ f => double_ok f
  | OpTypedRows _ rows => forallb (forallb item_ok) rows
  | OpSortIndicator _ column _ => int_ok column
  | OpRowColor _ row _ => int_ok row
  | OpCellTooltip _ row col _ => int_ok row && int_ok col
  | OpAppend _ seq _ => bool_decide (in_u 64 seq)
  | OpAppendTyped _ seq rows => bool_decide (in_u 64 seq) && forallb (forallb item_ok) rows
  | OpUpdateCells _ seq cells =>
    bool_decide (in_u 64 seq) && forallb (fun u => int_ok (cu_row u) && int_ok (cu_col u) && item_ok (cu_item u)) cells
  | OpRemoveRows _ seq rows => bool_decide (in_u 64 seq) && forallb int_ok rows
  | OpTreeItems _ l => forallb (fun i => forallb (fun c => optional_ok (tc_sort_value c)) (tr_cells i)) l
  | OpChartSeries _ l => forallb (fun s => forallb (fun p => double_ok (pt_x p) && double_ok (pt_y p)) (cs_points s)) l
  | OpChartMarkers _ l => forallb marker_ok l
  | OpTimelineMarks _ l => forallb (fun m => int_ok (tm_id m) && int_ok (tm_start m) && int_ok (tm_end m)) l
  | OpRangeMarkers _ l => forallb (fun m => int_ok (rm_start m) && int_ok (rm_end m)) l
  | _ => true
  end.

Lemma numeric_wf v : numeric_ok v = true -> wf (json_of_numeric v) = true.
Proof.
  destruct v as [f|f|w z|w z]; cbn; try done; rewrite !bool_decide_eq_true; intros [Hw Hz];
    assert (w = 8 \/ w = 16 \/ w = 32 \/ w = 64) as Hc by (set_unfold in Hw; tauto);
    unfold in_s, in_u in *; destruct Hc as [->|[->|[->| ->]]]; cbn in *; lia.
Qed.

Lemma int_wf z : int_ok z = true -> wf (JInt z) = true.
Proof. intros H%bool_decide_eq_true. by apply wf_int. Qed.

Lemma array_map_wf {A} (f : A -> json) (ok : A -> bool) l :
  (forall x, ok x = true -> wf (f x) = true) -> forallb ok l = true -> wf (JArray (map f l)) = true.
Proof.
  intros Hf Hl. apply wf_array, Forall_map. rewrite forallb_forall in Hl. apply Forall_forall.
  intros x Hx. apply Hf, Hl. by apply list_elem_of_In.
Qed.

Lemma array_map_wf_all {A} (f : A -> json) l : (forall x, wf (f x) = true) -> wf (JArray (map f l)) = true.
Proof. intros Hf. apply (array_map_wf f (fun _ => true)); [auto|]. by apply forallb_forall. Qed.

Lemma text_rows_wf rows : wf (text_rows rows) = true.
Proof. apply array_map_wf_all, wf_strings. Qed.

Lemma when_wf b key v : wf v = true -> Forall (fun e : bytes * json => wf e.2 = true) (when b key v).
Proof. unfold when. destruct b; by repeat constructor. Qed.

Lemma cell_value_ok c row v : forallb item_ok row = true -> cell_value c row = Some v -> numeric_ok v = true.
Proof.
  intros H. unfold cell_value. destruct (row !! c) as [item|] eqn:E; [|done]. intros Hv.
  rewrite forallb_forall in H. specialize (H item ltac:(apply list_elem_of_In; by eapply list_elem_of_lookup_2)).
  unfold item_ok in H. by rewrite Hv in H.
Qed.

Lemma columns_wf rows cs acc :
  forallb (forallb item_ok) rows = true -> wf (JObject acc) = true ->
  wf (JObject (foldl (fun columns c =>
            if existsb (fun row => is_set (cell_value c row)) rows
            then obj_set (int_text (Z.of_nat c)) (column_keys rows c) columns
            else columns) acc cs)) = true.
Proof.
  intros Hr. revert acc. induction cs as [|c cs IH]; intros acc Ha; cbn [foldl]; [done|]. apply IH.
  destruct (existsb _ rows); [|done]. apply wf_obj_set; [|done].
  apply (array_map_wf _ (forallb item_ok)); [|done]. intros row Hrow.
  destruct (cell_value c row) as [v|] eqn:E; [|done]. by eapply numeric_wf, cell_value_ok.
Qed.

Lemma put_typed_rows_wf rk vk rows : forallb (forallb item_ok) rows = true -> KeepsWf (put_typed_rows rk vk rows).
Proof.
  intros Hr. unfold put_typed_rows, encodeTypedRows. cbv beta iota zeta.
  apply obind_wf; [apply index_set_wf, text_rows_wf|].
  case_bool_decide; [apply _|]. apply index_set_wf. by apply columns_wf.
Qed.

Lemma into_object_wf key v j : wf v = true -> wf j = true -> wf (into_object key v j) = true.
Proof. intros Hv Hj. destruct j; cbn [into_object]; try (cbn; by rewrite Hv). by apply wf_obj_set. Qed.

Lemma index_update_wf key f : (forall j, wf j = true -> wf (f j) = true) -> KeepsWf (index_update key f).
Proof.
  intros Hf e e' H He. unfold index_update in H. eapply index_set_wf; [|exact H|done]. apply Hf.
  destruct (jfind key e) eqn:E; [by eapply jfind_wf|done].
Qed.

(** Objects of initializer lists: every member is well-formed. *)
Ltac wf_members :=
  lazymatch goal with
  | |- Forall _ [] => constructor
  | |- Forall _ (_ :: _) => constructor; [cbn [snd]|wf_members]
  | |- Forall _ (_ ++ _) => apply Forall_app; split; [wf_members|wf_members]
  | |- Forall _ (when _ _ _) => apply when_wf
  | |- _ => idtac
  end.

Lemma marker_wf m : marker_ok m = true -> wf (chartMarkerToJson m) = true.
Proof. unfold marker_ok. rewrite !andb_true_iff. intros [[[? ?] ?] ?]. apply wf_jobject. wf_members; done. Qed.

Lemma tree_cell_wf c : optional_ok (tc_sort_value c) = true -> wf (tree_cell_json c) = true.
Proof.
  intros H. apply wf_jobject. wf_members; try done.
  destruct (tc_sort_value c); [|constructor]. constructor; [by apply numeric_wf|constructor].
Qed.

Lemma tree_item_wf i :
  forallb (fun c => optional_ok (tc_sort_value c)) (tr_cells i) = true -> wf (tree_item_json i) = true.
Proof.
  intros H. apply wf_jobject. wf_members; try done. by eapply array_map_wf; [apply tree_cell_wf|].
Qed.

Lemma series_wf s :
  forallb (fun p => double_ok (pt_x p) && double_ok (pt_y p)) (cs_points s) = true -> wf (series_json s) = true.
Proof.
  intros H. apply wf_jobject. wf_members; try done. eapply array_map_wf; [|exact H].
  intros p [H1 H2]%andb_prop. cbn. by rewrite H1, H2.
Qed.

Lemma picker_wf o : wf (picker_json o) = true.
Proof.
  apply wf_jobject. wf_members; try done. apply array_map_wf_all. intros f. apply wf_jobject.
  wf_members; try done. apply wf_strings.
Qed.

Lemma scene_wf view :
  wf (jobject [(str "kind", JString (sv_kind view)); (str "topics", JArray (map scene_topic_json (sv_topics view)))]) = true.
Proof.
  apply wf_jobject. wf_members; try done. apply array_map_wf_all. intros t. apply wf_jobject. by wf_members.
Qed.

(** An assignment of fields whose values are well-formed. *)
Lemma with_puts_wf name pairs d d' :
  Forall (fun p => wf p.2 = true) pairs -> with_entry name (puts pairs) d = Some d' -> wf_data d -> wf_data d'.
Proof. intros Hp. by apply with_entry_wf, puts_wf. Qed.

Lemma picker_options_wf name button o d d' :
  setFilePicker_options name button o d = Some d' -> wf_data d -> wf_data d'.
Proof.
  apply with_entry_wf. intros e e' (e1 & H1 & H2)%obind_some He.
  assert (wf e1 = true) as He1.
  { refine (puts_wf _ _ _ _ H1 He). wf_members; try done. apply picker_wf. }
  assert (forall pairs e2, Forall (fun p : bytes * json => wf p.2 = true) pairs -> puts pairs e1 = Some e2 -> wf e2 = true) as Hp
    by (intros pairs e2 Hf H; exact (puts_wf _ Hf _ _ H He1)).
  destruct (fp_mode o).
  1,2: apply obind_some in H2 as (e2 & H2 & H3); apply Hp in H2; [|by wf_members]; by eapply jerase_wf.
  - apply Hp in H2; [done|by wf_members].
  - apply obind_some in H2 as (e2 & H2 & H3). apply obind_some in H3 as (e3 & H3 & H4).
    apply Hp in H2; [|by wf_members]. eapply jerase_wf; [exact H4|]. by eapply jerase_wf.
Qed.

Lemma command_wf key v d d' : wf v = true -> Some (obj_set key v d) = Some d' -> wf_data d -> wf_data d'.
Proof. intros Hv [= <-]. by apply wf_obj_set. Qed.

Lemma op_wf op d d' : op_ok op = true -> apply_op op d = Some d' -> wf_data d -> wf_data d'.
Proof.
  intros Hok H Hd. destruct op; cbn [op_ok apply_op] in *; rewrite ?andb_true_iff in Hok; destruct_and? Hok;
    try (destruct c; cbn [set_string set_bool set_int set_strings set_ints set_pair set_span] in H);
    repeat match goal with o : option _ |- _ => destruct o end;
    try solve [eapply put_wf; [|exact H|exact Hd]; first
      [done|apply wf_strings|by apply int_wf|apply wf_jobject; wf_members; by (done || apply int_wf)
      |apply wf_ints, Forall_forall; intros z Hz%list_elem_of_In; rewrite forallb_forall in Hok;
         by specialize (Hok z Hz); apply bool_decide_eq_true in Hok
      |by eapply array_map_wf; [|exact Hok]; (apply tree_item_wf || apply series_wf || apply marker_wf)
      |apply scene_wf]];
    try solve [eapply with_puts_wf; [|exact H|exact Hd]; wf_members; (done || by apply int_wf)];
    try solve [eapply command_wf; [|exact H|exact Hd]; done].
  - (* setTableRows *) eapply with_entry_wf; [|exact H|exact Hd].
    apply obind_wf; [apply index_set_wf, text_rows_wf|apply _].
  - (* setTableRows_typed *) eapply with_entry_wf; [|exact H|exact Hd]. by apply put_typed_rows_wf.
  - (* setRowColor *) eapply with_entry_wf; [|exact H|exact Hd]. apply index_update_wf. intros j. by apply into_object_wf.
  - (* setCellTooltip *) eapply with_entry_wf; [|exact H|exact Hd]. apply index_update_wf. intros j. by apply into_object_wf.
  - (* appendTableRows *) apply bool_decide_eq_true in Hok. eapply with_delta_wf; [exact Hok| |exact H|exact Hd].
    apply obind_wf; [apply index_set_wf, text_rows_wf|apply _].
  - (* appendTableRows_typed *) eapply with_delta_wf; [by eapply bool_decide_eq_true_1| |exact H|exact Hd].
    by apply put_typed_rows_wf.
  - (* updateTableCells *) eapply with_delta_wf; [by eapply bool_decide_eq_true_1| |exact H|exact Hd].
    apply index_set_wf. eapply array_map_wf; [|eassumption]. intros u Hu. rewrite !andb_true_iff in Hu.
    destruct Hu as [[Hr Hc] Hi]. apply wf_array. wf_members; [by apply int_wf..|done|].
    unfold item_ok in Hi. destruct (ti_value _); [|constructor]. constructor; [by apply numeric_wf|constructor].
  - (* removeTableRows *) eapply with_delta_wf; [by eapply bool_decide_eq_true_1| |exact H|exact Hd].
    apply index_set_wf. by eapply (array_map_wf JInt); [apply int_wf|].
  - by eapply picker_options_wf.
  - (* setMarkerTimelineMarks *) eapply put_wf; [|exact H|exact Hd]. eapply array_map_wf; [|exact Hok].
    intros m Hm. rewrite !andb_true_iff in Hm. destruct Hm as [[? ?] ?]. apply wf_jobject.
    wf_members; (done || by apply int_wf).
  - (* setRangeSliderMarkers *) eapply put_wf; [|exact H|exact Hd]. eapply array_map_wf; [|exact Hok].
    intros m Hm. rewrite !andb_true_iff in Hm. destruct Hm as [? ?]. apply wf_jobject.
    wf_members; (done || by apply int_wf).
  - by injection H as <-.
Qed.

Lemma run_wf ops d d' : forallb op_ok ops = true -> run_ops ops d = Some d' -> wf_data d -> wf_data d'.
Proof.
  revert d. induction ops as [|op ops IH]; intros d; cbn; [by intros _ [= <-]|].
  intros [Ho Hos]%andb_prop (d1 & H1 & H2)%obind_some Hd. eapply IH; [done..|]. by eapply op_wf.
Qed.

Lemma run_frame ops d d' n k :
  run_ops ops d = Some d' -> forallb (fun op => negb (touches op n k)) ops = true ->
  field (JObject d') n k = field (JObject d) n k.
Proof.
  revert d. induction ops as [|op ops IH]; intros d; cbn; [by intros [= <-]|].
  intros (d1 & H1 & H2)%obind_some [Ht Hts]%andb_prop. rewrite (IH _ H2 Hts).
  apply (apply_frame _ _ _ _ _ H1). by apply negb_true_iff.
Qed.

(** ** Reading the text of a document *)

Lemma field_wire v name key : field (wire v) name key = option_map wire (field v name key).
Proof.
  rewrite !field_find, jfind_wire. destruct (jfind name v); cbn; [apply jfind_wire|done].
Qed.

Lemma view_dump `{JsonText} d text : wf_data d -> toJson d = Some text -> view text = wire (JObject d).
Proof. intros Hd Ht. unfold view. by rewrite (parse_dump _ _ Hd Ht). Qed.

Lemma view_field `{JsonText} d text name key :
  wf_data d -> toJson d = Some text -> field (view text) name key = option_map wire (field (JObject d) name key).
Proof. intros Hd Ht. rewrite (view_dump d) by done. apply field_wire. Qed.

Lemma wire_strings l : wire (jstrings l) = jstrings l.
Proof. unfold jstrings. cbn. f_equal. rewrite List.map_map. by apply map_ext. Qed.

Lemma omap_strings l : omap get_string (map JString l) = l.
Proof. induction l as [|s l IH]; cbn; [done|]. by rewrite IH. Qed.

Lemma mapM_map {A B C} (f : B -> option C) (g : A -> B) (h : A -> C) l :
  (forall x, x ∈ l -> f (g x) = Some (h x)) -> mapM f (map g l) = Some (map h l).
Proof.
  induction l as [|x l IH]; intros Hl; cbn; [done|]. rewrite Hl by left. cbn.
  rewrite IH; [done|]. intros y Hy. apply Hl. by right.
Qed.

Lemma strict_strings l : decodeStrictStringArray (jstrings l) = Some l.
Proof. unfold decodeStrictStringArray. cbn. rewrite (mapM_map _ _ id); [by rewrite list_fmap_id|done]. Qed.

(** An [int] comes back from the wire, signed or not. *)
Lemma decode_int z : in_s 32 z -> decodeInt (wire (JInt z)) = Some z.
Proof.
  unfold in_s. cbn. intros Hz. destruct (z >=? 0) eqn:E; cbn.
  - rewrite Z.gtb_ltb, (proj2 (Z.ltb_ge _ _)); [done|lia].
  - rewrite (proj2 (Z.ltb_ge _ _)), Z.gtb_ltb, (proj2 (Z.ltb_ge _ _)); [done|lia..].
Qed.
