(* ===== verification/WidgetRoundtrip.v ===== *)
(** * WidgetRoundtrip: what a plugin writes is what the host reads

    The setters that replace their fields, each with what it leaves in them; the
    theorem that the accessors give it back from the text of any document written so,
    whatever was written before and elsewhere; totality of the setters; the batch
    operations of a table delta. *)

From Stdlib Require Import Floats.SpecFloat.
From stdpp Require Import sets sorting pretty.
From S2P Require Import Prelude Text Doubles Json WidgetData WidgetDataView TreeItems WidgetDocument.

(** ** What an operation leaves in its fields *)

Definition op_writes (op : WidgetOp) : list (bytes * option json) :=
  match op with
  | OpString c _ s => [(string_key c, Some (JString s))]
  | OpBool c _ b => [(bool_key c, Some (JBool b))]
  | OpInt c _ z => [(int_key c, Some (JInt z))]
  | OpStrings c _ l => [(strings_key c, Some (jstrings l))]
  | OpInts c _ l => [(ints_key c, Some (jints l))]
  | OpPair c _ a b => [((pair_keys c).1, Some (JInt a)); ((pair_keys c).2, Some (JInt b))]
  | OpSpan c _ a b => [((span_keys c).1, Some (JString (int_text a))); ((span_keys c).2, Some (JString (int_text b)))]
  | OpDouble _ f => [(str "value", Some (JFloat f))]
  | OpDropTarget _ b => [(str "drop_target", Some (JBool b))]
  | OpDateTimeRange _ a b => [(str "datetime_min", Some (JString a)); (str "datetime_max", Some (JString b))]
  | OpDateRange _ a b => [(str "date_range_earliest", Some (JString a)); (str "date_range_latest", Some (JString b))]
  | OpFieldValid _ ok tooltip => [(str "valid", Some (JBool ok)); (str "valid_tooltip", Some (JString tooltip))]
  | OpRows _ rows => [(str "rows", Some (text_rows rows)); (str "column_values", None)]
  | OpTypedRows _ rows =>
    [(str "rows", Some (encodeTypedRows rows).1);
     (str "column_values",
      let columns := (encodeTypedRows rows).2 in if bool_decide (columns = []) then None else Some (JObject columns))]
  | OpSortIndicator _ column ascending =>
    [(str "sort_indicator", Some (jobject [(str "col", JInt column); (str "asc", JBool ascending)]))]
  | OpClearVisibleRows _ => [(str "visible_rows", Some JNull)]
  | OpTreeItems _ l => [(str "tree_items", Some (JArray (map tree_item_json l)))]
  | OpTreeVisible _ (Some ids) => [(str "tree_visible_ids", Some (jstrings ids))]
  | OpTreeVisible _ None => [(str "tree_visible_ids", Some JNull)]
  | OpChartSeries _ l => [(str "chart_series", Some (JArray (map series_json l)))]
  | OpChartMarkers _ l => [(str "chart_markers", Some (chartMarkersToJson l))]
  | OpClearChart _ => [(str "chart_series", Some (JArray [])); (str "chart_markers", Some (JArray []))]
  | OpSceneView _ (Some view) =>
    [(str "scene_view",
      Some (jobject [(str "kind", JString (sv_kind view)); (str "topics", JArray (map scene_topic_json (sv_topics view)))]))]
  | OpSceneView _ None => [(str "scene_view", Some JNull)]
  | OpFilePicker _ button filter title =>
    [(str "button_text", Some (JString button)); (str "action", Some (JString (str "file_picker")));
     (str "filter", Some (JString filter)); (str "title", Some (JString title))]
  | OpFilePickerOptions _ button o =>
    [(str "button_text", Some (JString button)); (str "file_picker", Some (picker_json o));
     (str "title", Some (JString (fp_title o)));
     (str "action", Some (JString (match fp_mode o with
                                   | OpenFile | OpenFiles => str "file_picker"
                                   | SaveFile => str "save_file_picker"
                                   | SelectDirectory => str "folder_picker"
                                   end)));
     (str "filter", match fp_mode o with
                    | SelectDirectory => None
                    | _ => Some (JString (legacy_filter (fp_filters o)))
                    end);
     (str "default_suffix", match fp_mode o with SaveFile => Some (JString (fp_default_suffix o)) | _ => None end)]
  | OpSaveFilePicker _ button filter title suffix =>
    [(str "button_text", Some (JString button)); (str "action", Some (JString (str "save_file_picker")));
     (str "filter", Some (JString filter)); (str "title", Some (JString title));
     (str "default_suffix", Some (JString suffix))]
  | OpFolderPicker _ button title =>
    [(str "button_text", Some (JString button)); (str "action", Some (JString (str "folder_picker")));
     (str "title", Some (JString title))]
  | OpTimelineMarks _ l => [(str "marker_timeline_marks", Some (timelineMarksToJson l))]
  | OpRangeMarkers _ l => [(str "range_markers", Some (JArray (map range_marker_json l)))]
  | _ => []
  end.

(** The fields of widget [name] hold these values. *)
Definition holds (v : json) (name : bytes) (writes : list (bytes * option json)) : Prop :=
  Forall (fun w => field v name w.1 = w.2) writes.

Lemma puts_find pairs e e' :
  NoDup (map fst pairs) -> puts pairs e = Some e' -> Forall (fun p : bytes * json => jfind p.1 e' = Some p.2) pairs.
Proof.
  revert e. induction pairs as [|[k v] pairs IH]; intros e Hn H; [constructor|].
  cbn in Hn. apply NoDup_cons in Hn as [Hk Hn]. apply obind_some in H as (e1 & H1 & H2).
  constructor; [|by eapply IH]. cbn. rewrite (puts_changes _ _ _ _ H2 Hk), (index_set_find _ _ _ _ _ H1).
  by rewrite decide_True.
Qed.

Lemma with_puts_holds name pairs d d' writes :
  with_entry name (puts pairs) d = Some d' -> bool_decide (NoDup (map fst pairs)) = true ->
  writes = map (fun p => (p.1, Some p.2)) pairs -> holds (JObject d') name writes.
Proof.
  intros (e & e' & He & Hf & _)%with_entry_field Hn%bool_decide_eq_true ->.
  apply puts_find in He; [|done]. unfold holds. rewrite Forall_map. eapply Forall_impl; [exact He|].
  intros p Hp. cbn. by rewrite Hf.
Qed.

Lemma put_holds name key v d d' : put name key v d = Some d' -> holds (JObject d') name [(key, Some v)].
Proof. intros H. constructor; [|constructor]. by eapply put_field. Qed.

Lemma typed_rows_find rk vk rows e e' :
  rk <> vk -> put_typed_rows rk vk rows e = Some e' ->
  jfind rk e' = Some (encodeTypedRows rows).1 /\
  jfind vk e' = (let columns := (encodeTypedRows rows).2 in
                 if bool_decide (columns = []) then None else Some (JObject columns)).
Proof.
  unfold put_typed_rows. destruct (encodeTypedRows rows) as [text columns]. cbn [fst snd].
  intros Hne (e1 & H1 & H2)%obind_some. pose proof (index_set_find _ _ _ _ rk H1) as Hr. rewrite decide_True in Hr by done.
  case_bool_decide.
  - rewrite !(jerase_find _ _ _ _ H2). by rewrite decide_False, decide_True.
  - rewrite !(index_set_find _ _ _ _ _ H2). by rewrite decide_False, decide_True.
Qed.

(** After assignments, the assigned fields and the others. *)
Lemma puts_cases pairs e e' :
  puts pairs e = Some e' -> bool_decide (NoDup (map fst pairs)) = true ->
  Forall (fun p : bytes * json => jfind p.1 e' = Some p.2) pairs /\
  (forall k, bool_decide (k ∉ map fst pairs) = true -> jfind k e' = jfind k e).
Proof.
  intros H Hn%bool_decide_eq_true. split; [by eapply puts_find|].
  intros k Hk%bool_decide_eq_true. by apply (puts_changes _ _ _ _ H).
Qed.

Ltac split_fields H := rewrite ?Forall_cons in H; cbn [fst snd] in H; destruct_and? H.

Lemma picker_holds name button o d d' :
  setFilePicker_options name button o d = Some d' -> holds (JObject d') name (op_writes (OpFilePickerOptions name button o)).
Proof.
  unfold setFilePicker_options. intros (e & e' & (e1 & Ha & Hb)%obind_some & Hf & _)%with_entry_field.
  destruct (puts_cases _ _ _ Ha ltac:(vm_compute; reflexivity)) as [Hp _]. split_fields Hp.
  assert (forall ws, Forall (fun w : bytes * option json => jfind w.1 e' = w.2) ws -> holds (JObject d') name ws) as Hh.
  { intros ws Hw. eapply Forall_impl; [exact Hw|]. intros w Hw'. by rewrite Hf. }
  apply Hh. clear Hf Hh Ha. cbn [op_writes]. destruct (fp_mode o).
  1,2: apply obind_some in Hb as (e2 & He & Hc);
    destruct (puts_cases _ _ _ He ltac:(vm_compute; reflexivity)) as [Hin Hout]; split_fields Hin;
    repeat constructor; cbn [fst snd]; rewrite (jerase_find _ _ _ _ Hc); [rewrite decide_False by by_compute..|by rewrite decide_True];
    first [assumption|rewrite Hout by (vm_compute; reflexivity); assumption].
  - destruct (puts_cases _ _ _ Hb ltac:(vm_compute; reflexivity)) as [Hin Hout]; split_fields Hin.
    repeat constructor; cbn [fst snd]; first [assumption|rewrite Hout by (vm_compute; reflexivity); assumption].
  - apply obind_some in Hb as (e2 & He & (e3 & Hc & Hd)%obind_some).
    destruct (puts_cases _ _ _ He ltac:(vm_compute; reflexivity)) as [Hin Hout]; split_fields Hin.
    repeat constructor; cbn [fst snd]; rewrite (jerase_find _ _ _ _ Hd), (jerase_find _ _ _ _ Hc);
      [rewrite !decide_False by by_compute..|by rewrite decide_False, decide_True by by_compute|by rewrite decide_True];
      first [assumption|rewrite Hout by (vm_compute; reflexivity); assumption].
Qed.

Lemma apply_holds op d d' name ks :
  op_fields op = Some (name, ks) -> apply_op op d = Some d' -> holds (JObject d') name (op_writes op).
Proof.
  intros Ef H. destruct op; cbn [op_fields] in Ef; try done; injection Ef as -> <-; cbn [apply_op] in H;
    try (by constructor);
    try (destruct c; cbn [set_string set_bool set_int set_strings set_ints set_pair set_span] in H);
    repeat match goal with o : option _ |- _ => destruct o end;
    try (eapply put_holds; exact H);
    try (eapply with_puts_holds; [exact H|by_compute|reflexivity]).
  - unfold setTableRows in H. apply with_entry_field in H as (e & e' & (e1 & H1 & H2)%obind_some & Hf & _).
    repeat constructor; cbn [fst snd]; rewrite Hf, (jerase_find _ _ _ _ H2).
    + rewrite decide_False by by_compute. by rewrite (index_set_find _ _ _ _ _ H1), decide_True.
    + by rewrite decide_True.
  - unfold setTableRows_typed in H. apply with_entry_field in H as (e & e' & H1 & Hf & _).
    apply typed_rows_find in H1 as [Ha Hb]; [|by_compute].
    repeat constructor; cbn [fst snd]; by rewrite Hf.
  - by eapply picker_holds.
Qed.

(** ** Reading objects of known members *)

Lemma obj_find_app key fs k v :
  key <> k -> obj_find key (fs ++ [(k, v)]) = obj_find key fs.
Proof.
  intros Hne. induction fs as [|[k' w] fs IH]; cbn; [by rewrite (proj2 (bytes_eqb_neq k key))|]. by rewrite IH.
Qed.

Lemma jobject_find_acc key pairs acc :
  NoDup (map fst pairs) ->
  obj_find key (foldl (fun fs e => obj_set e.1 e.2 fs) acc pairs)
  = match obj_find key pairs with Some v => Some v | None => obj_find key acc end.
Proof.
  revert acc. induction pairs as [|[k v] pairs IH]; intros acc Hn; [done|].
  cbn in Hn. apply NoDup_cons in Hn as [Hk Hn]. cbn [foldl]. rewrite IH by done. cbn [obj_find fst snd].
  destruct (bytes_eqb k key) eqn:E.
  - apply bytes_eqb_eq in E as ->. rewrite obj_find_set_eq.
    replace (obj_find key pairs) with (@None json); [done|]. clear -Hk.
    induction pairs as [|[k w] pairs IH]; [done|]. cbn in *. apply not_elem_of_cons in Hk as [Hne Hk].
    rewrite (proj2 (bytes_eqb_neq k key)); [auto|by intros ->].
  - apply bytes_eqb_neq in E. by rewrite obj_find_set_ne by done.
Qed.

Lemma jfind_jobject key pairs :
  bool_decide (NoDup (map fst pairs)) = true -> jfind key (jobject pairs) = obj_find key pairs.
Proof.
  intros H%bool_decide_eq_true. unfold jobject. cbn [jfind]. rewrite jobject_find_acc by done.
  by destruct (obj_find key pairs).
Qed.

Lemma obj_find_hit key k v fs : bytes_eqb k key = true -> obj_find key ((k, v) :: fs) = Some v.
Proof. cbn. by intros ->. Qed.

Lemma obj_find_miss key k v fs : bytes_eqb k key = false -> obj_find key ((k, v) :: fs) = obj_find key fs.
Proof. cbn. by intros ->. Qed.

Lemma is_object_wire j : is_object (wire j) = is_object j.
Proof. destruct j as [| |z| |f| | |]; try done; cbn; [by destruct (z >=? 0)|by destruct (is_finite f)]. Qed.

Lemma jvalue_find {A} (convert : json -> thrown A) key d j :
  is_object j = true -> jvalue convert key d j = match jfind key j with Some v => convert v | None => Got d end.
Proof. by destruct j. Qed.

Lemma jvalue_wire {A} (convert : json -> thrown A) key d pairs :
  jvalue convert key d (wire (jobject pairs))
  = match option_map wire (jfind key (jobject pairs)) with Some v => convert v | None => Got d end.
Proof. rewrite jvalue_find by done. by rewrite jfind_wire. Qed.

(** Look up constant keys in an object built from pairs. *)
Ltac jkey :=
  rewrite ?jvalue_wire, ?jfind_wire;
  rewrite ?jfind_jobject by (vm_compute; reflexivity);
  repeat first [rewrite obj_find_hit by (vm_compute; reflexivity)
               |rewrite obj_find_miss by (vm_compute; reflexivity)
               |rewrite (eq_refl : forall k, obj_find k [] = None)];
  cbn [option_map].

Lemma get_int_wire z : in_s 32 z -> is_number_integer (wire (JInt z)) = true /\ get_int (wire (JInt z)) = z.
Proof.
  intros Hz. assert (to_signed 32 z = z) as He.
  { rewrite <-(to_signed_wrap 32 z) at 2 by (done || lia). unfold to_signed. by rewrite wrap_wrap by lia. }
  cbn. by destruct (z >=? 0).
Qed.

Lemma to_int_wire z : in_s 32 z -> to_int (wire (JInt z)) = Got z.
Proof.
  intros Hz. destruct (get_int_wire z Hz) as [_ H]. revert H. cbn. by destruct (z >=? 0); cbn; intros ->.
Qed.

Lemma wire_float f : is_finite f = true -> wire (JFloat f) = JFloat f.
Proof. cbn. by intros ->. Qed.

Lemma omap_map {A B C} (f : B -> option C) (g : A -> B) (h : A -> C) l :
  (forall x, x ∈ l -> f (g x) = Some (h x)) -> omap f (map g l) = map h l.
Proof.
  induction l as [|x l IH]; intros Hl; cbn; [done|]. rewrite Hl by left. f_equal. apply IH. intros y Hy.
  apply Hl. by right.
Qed.

Lemma filter_map_all {A B} (p : B -> bool) (g : A -> B) l :
  (forall x, x ∈ l -> p (g x) = true) -> List.filter p (map g l) = map g l.
Proof.
  induction l as [|x l IH]; intros Hl; cbn; [done|]. rewrite Hl by left. f_equal. apply IH. intros y Hy.
  apply Hl. by right.
Qed.

Lemma mapT_map {A B C} (f : B -> thrown C) (g : A -> B) (h : A -> C) l :
  (forall x, x ∈ l -> f (g x) = Got (h x)) -> mapT f (map g l) = Got (map h l).
Proof.
  induction l as [|x l IH]; intros Hl; cbn; [done|]. rewrite Hl by left. cbn. rewrite IH; [done|].
  intros y Hy. apply Hl. by right.
Qed.

Lemma mapE_map {A B C} (f : B -> Expected C) (g : A -> B) (h : A -> C) l :
  (forall x, x ∈ l -> f (g x) = Ok (h x)) -> mapE f (map g l) = Ok (map h l).
Proof.
  induction l as [|x l IH]; intros Hl; cbn; [done|]. rewrite Hl by left. cbn. rewrite IH; [done|].
  intros y Hy. apply Hl. by right.
Qed.

Lemma map_id_in {A} (f : A -> A) l : (forall x, f x = x) -> map f l = l.
Proof. intros Hf. induction l as [|x l IH]; cbn; [done|]. by rewrite Hf, IH. Qed.

Lemma wire_array_map {A} (g : A -> json) l : wire (JArray (map g l)) = JArray (map (fun x => wire (g x)) l).
Proof. cbn. by rewrite List.map_map. Qed.

(** ** Numbers *)

(** A sort key on the host: the widest type that holds the number; none for a number
    that is not finite. *)
Definition widen (v : NumericValue) : option NumericValue :=
  match v with
  | VFloat f | VDouble f => if is_finite f then Some (VDouble f) else None
  | VInt _ z => Some (if z >=? 0 then VUInt 64 z else VInt 64 z)
  | VUInt _ z => Some (VUInt 64 z)
  end.

Lemma numeric_wire v : numericFromJson (wire (json_of_numeric v)) = widen v.
Proof. destruct v as [f|f|w z|w z]; cbn; try done; [by destruct (is_finite f)..|by destruct (z >=? 0)]. Qed.

(** A key is null on the wire exactly when it has no widened value. *)
Lemma delta_value_wire v : delta_value (wire (json_of_numeric v)) = Some (widen v).
Proof. destruct v as [f|f|w z|w z]; cbn; try done; [by destruct (is_finite f)..|by destruct (z >=? 0)]. Qed.

(** ** Charts, scenes, timelines *)

Definition marker_finite (m : ChartMarker) : bool :=
  is_finite (cm_x0 m) && is_finite (cm_x1 m) && is_finite (cm_y0 m) && is_finite (cm_y1 m).

Lemma marker_read m :
  chart_marker_view (wire (chartMarkerToJson m)) = if marker_finite m then Got m else Throws.
Proof.
  unfold chart_marker_view, chartMarkerToJson, marker_finite, when, nonempty. destruct m as [kind x0 x1 y0 y1 hv color lab].
  cbn [cm_kind cm_x0 cm_x1 cm_y0 cm_y1 cm_has_value cm_color cm_label].
  assert (forall f, to_double (wire (JFloat f)) = if is_finite f then Got f else Throws) as Hd
    by (intros f; cbn; by destruct (is_finite f)).
  destruct (decide (color = [])) as [->|Hc]; [rewrite (bool_decide_eq_true_2 ([] = [])) by done|rewrite (bool_decide_eq_false_2 (color = [])) by done];
  (destruct (decide (lab = [])) as [->|Hl]; [rewrite (bool_decide_eq_true_2 ([] = [])) by done|rewrite (bool_decide_eq_false_2 (lab = [])) by done]);
  cbn [negb app]; jkey; rewrite !Hd;
  destruct (is_finite x0), (is_finite x1), (is_finite y0), (is_finite y1); done.
Qed.

Lemma markers_read ms :
  mapT chart_marker_view (map (fun m => wire (chartMarkerToJson m)) ms)
  = if forallb marker_finite ms then Got ms else Throws.
Proof.
  induction ms as [|m ms IH]; [done|]. cbn [map mapT forallb]. rewrite marker_read, IH.
  by destruct (marker_finite m), (forallb marker_finite ms).
Qed.

Lemma marker_objects ms :
  List.filter is_object (map (fun m => wire (chartMarkerToJson m)) ms) = map (fun m => wire (chartMarkerToJson m)) ms.
Proof. by apply filter_map_all. Qed.

(** What the host sees of a series: points that are not finite are left out. *)
Definition series_seen (s : ChartSeries) : ChartSeriesView :=
  mkSeriesView (cs_label s)
    (omap (fun p => if is_finite (pt_x p) && is_finite (pt_y p) then Some (pt_x p, pt_y p) else None) (cs_points s))
    (cs_color s) (cs_dashed s).

Lemma points_read ps :
  omap chart_point (map (fun p => wire (JArray [JFloat (pt_x p); JFloat (pt_y p)])) ps)
  = omap (fun p => if is_finite (pt_x p) && is_finite (pt_y p) then Some (pt_x p, pt_y p) else None) ps.
Proof.
  induction ps as [|p ps IH]; [done|]. cbn [map omap list_omap]. rewrite IH. cbn [wire map].
  by destruct (is_finite (pt_x p)), (is_finite (pt_y p)).
Qed.

Lemma series_read s : chart_series_view (wire (series_json s)) = Some (series_seen s).
Proof.
  unfold chart_series_view, series_seen, series_json, when, nonempty, member_or. rewrite is_object_wire.
  destruct s as [lab ps color dashed]. cbn [cs_label cs_points cs_color cs_dashed]. cbn [is_object jobject].
  destruct (decide (color = [])) as [->|Hc]; [rewrite (bool_decide_eq_true_2 ([] = [])) by done|rewrite (bool_decide_eq_false_2 (color = [])) by done];
  destruct dashed; cbn [negb app]; jkey; rewrite wire_array_map; cbn [get_array get_string get_bool]; rewrite points_read; done.
Qed.

Definition mark_ok (m : TimelineMark) : bool := int_ok (tm_id m) && int_ok (tm_start m) && int_ok (tm_end m).

Lemma timeline_read m : mark_ok m = true -> timeline_mark_view (wire (timelineMarkToJson m)) = Got m.
Proof.
  unfold mark_ok, int_ok. rewrite !andb_true_iff, !bool_decide_eq_true. intros [[H1 H2] H3].
  unfold timeline_mark_view, timelineMarkToJson. jkey. rewrite !to_int_wire by done. by destruct m.
Qed.

Definition range_ok (m : RangeSliderMarker) : bool := int_ok (rm_start m) && int_ok (rm_end m).

Lemma range_read m : range_ok m = true -> range_marker_view (wire (range_marker_json m)) = Some m.
Proof.
  unfold range_ok, int_ok. rewrite !andb_true_iff, !bool_decide_eq_true. intros [H1 H2].
  unfold range_marker_view, range_marker_json, member_or. jkey.
  destruct (get_int_wire _ H1) as [-> ->], (get_int_wire _ H2) as [-> ->]. by destruct m.
Qed.

Definition scene_ok (v : SceneView) : bool :=
  nonempty (sv_kind v) && forallb (fun t => nonempty (st_topic t)) (sv_topics v).

Lemma scene_topic_read t : nonempty (st_topic t) = true -> scene_topic_view (wire (scene_topic_json t)) = Ok t.
Proof.
  intros H. unfold scene_topic_view, scene_topic_json. jkey. cbn [wire]. unfold nonempty in H.
  apply negb_true_iff in H. rewrite H. by destruct t.
Qed.

Definition scene_json (v : SceneView) : json :=
  jobject [(str "kind", JString (sv_kind v)); (str "topics", JArray (map scene_topic_json (sv_topics v)))].

Lemma scene_read v name s : scene_ok s = true -> field v name (str "scene_view") = Some (wire (scene_json s)) ->
  sceneView v name = Some (Ok s).
Proof.
  intros [Hk Ht]%andb_prop Hf. unfold sceneView. rewrite Hf. unfold scene_json.
  change (wire (jobject ?p)) with (JObject (map (fun e => (e.1, wire e.2)) (foldl (fun fs e => obj_set e.1 e.2 fs) [] p))).
  change (JObject (map (fun e => (e.1, wire e.2)) (foldl (fun fs e => obj_set e.1 e.2 fs) [] ?p))) with (wire (jobject p)).
  jkey. cbn [wire]. unfold nonempty in Hk. apply negb_true_iff in Hk. rewrite Hk.
  rewrite List.map_map. rewrite (mapE_map _ _ id); [cbn; rewrite map_id; by destruct s|].
  intros t Hin. apply scene_topic_read. rewrite forallb_forall in Ht. by apply Ht, list_elem_of_In.
Qed.

(** ** Trees *)

Definition cell_seen (c : TreeCell) : TreeCell :=
  mkTreeCell (tc_text c) (match tc_sort_value c with Some v => widen v | None => None end) (tc_tooltip c) (tc_icon c).

Definition item_seen (i : TreeItem) : TreeItem :=
  mkTreeItem (tr_id i) (tr_parent_id i) (map cell_seen (tr_cells i)) (tr_enabled i) (tr_selectable i)
    (tr_check_state i) (tr_may_have_children i).

Lemma sort_value_read v prefix :
  match Some (wire (json_of_numeric v)) with
  | None | Some JNull => Ok None
  | Some m => match numericFromJson m with Some n => Ok (Some n) | None => Err prefix end
  end = Ok (widen v).
Proof. destruct v as [f|f|w z|w z]; cbn; try done; [by destruct (is_finite f)..|by destruct (z >=? 0)]. Qed.

Lemma tree_cell_read prefix c : tree_cell prefix (wire (tree_cell_json c)) = Ok (cell_seen c).
Proof.
  unfold tree_cell, cell_seen, tree_cell_json, when, nonempty, decodeRequiredString, optional_string.
  rewrite is_object_wire. destruct c as [txt sv tip icon]. cbn [tc_text tc_sort_value tc_tooltip tc_icon].
  cbn [is_object jobject negb].
  destruct (decide (tip = [])) as [->|Ht]; [rewrite (bool_decide_eq_true_2 ([] = [])) by done|rewrite (bool_decide_eq_false_2 (tip = [])) by done];
  (destruct (decide (icon = [])) as [->|Hi]; [rewrite (bool_decide_eq_true_2 ([] = [])) by done|rewrite (bool_decide_eq_false_2 (icon = [])) by done]);
  destruct sv as [v|]; cbn [negb app]; jkey; rewrite ?sort_value_read; done.
Qed.

Lemma tree_cells_read prefix index cells :
  tree_cells prefix index (map (fun c => wire (tree_cell_json c)) cells) = Ok (map cell_seen cells).
Proof.
  revert index. induction cells as [|c cells IH]; intros index; [done|]. cbn [map tree_cells].
  by rewrite tree_cell_read, IH.
Qed.

Lemma check_state_read s : treeCheckStateFromWireValue (treeCheckStateWireValue s) = Some s.
Proof. by destruct s. Qed.

Lemma tree_item_read prefix seen i :
  tr_id i <> [] -> tr_id i ∉ seen -> tr_parent_id i <> tr_id i ->
  tree_item prefix seen (wire (tree_item_json i)) = Ok (item_seen i).
Proof.
  intros Hid Hs Hp. unfold tree_item, tree_item_json, decodeRequiredString, decodeOptionalBool.
  rewrite is_object_wire. cbn [is_object jobject negb]. jkey. rewrite wire_array_map. cbn [obind wire get_string get_bool get_array require ebind].
  rewrite bool_decide_eq_false_2 by done.
  destruct (existsb _ seen) eqn:E; [by apply existsb_bytes in E|].
  rewrite (proj2 (bytes_eqb_neq _ _)) by done. rewrite tree_cells_read, check_state_read. done.
Qed.

Lemma tree_items_read index seen l :
  NoDup (map tr_id l) -> Forall (fun i => tr_id i <> [] /\ tr_id i ∉ seen /\ tr_parent_id i <> tr_id i) l ->
  tree_item_list index seen (map (fun i => wire (tree_item_json i)) l) = Ok (map item_seen l).
Proof.
  revert index seen. induction l as [|i l IH]; intros index seen Hn Hf; [done|]. cbn [map tree_item_list] in *.
  apply NoDup_cons in Hn as [Hi Hn]. apply Forall_cons in Hf as [(H1 & H2 & H3) Hf].
  rewrite tree_item_read by done. cbn [ebind tr_id item_seen]. rewrite IH; [done|done|].
  rewrite Forall_forall in Hf |- *. intros j Hj. destruct (Hf j Hj) as (H4 & H5 & H6). split_and!; try done.
  apply not_elem_of_cons. split; [|done]. intros He. apply Hi. rewrite <-He. by apply list_elem_of_fmap_2.
Qed.

Lemma depth_not_self items n i item :
  depth items n i -> items !! i = Some item -> NoDup (map tr_id items) -> tr_id item <> [] ->
  tr_parent_id item <> tr_id item.
Proof.
  intros Hd Hi Hn Hne He. inversion Hd as [j x Hj Hr|m j x p Hj Hr Hp Hd']; subst; simplify_eq; [congruence|].
  assert (p = i) as ->; [|by pose proof (depth_unique _ _ _ _ Hd Hd'); lia].
  rewrite He in Hp. clear -Hp Hi Hn. revert i p Hi Hp. induction items as [|x items IH]; intros i p Hi Hp; [done|].
  cbn in Hp, Hn. apply NoDup_cons in Hn as [Hx Hn]. destruct i as [|i].
  - injection Hi as ->. rewrite bytes_eqb_refl in Hp. congruence.
  - cbn in Hi. rewrite (proj2 (bytes_eqb_neq _ _)) in Hp.
    + destruct (index_of _ items) as [q|] eqn:E; [|done]. injection Hp as <-. f_equal. by eapply IH.
    + intros Hx'. apply Hx. rewrite Hx'. apply list_elem_of_fmap_2. by eapply list_elem_of_lookup_2.
Qed.

Lemma forest_seen items : forest items -> forest (map item_seen items).
Proof.
  intros (Hn & Hne & Hd). unfold forest. rewrite List.map_map, length_map. cbn [tr_id item_seen].
  split_and!; [done|by rewrite Forall_map|]. intros i Hi. destruct (Hd i Hi) as [n H]. exists n.
  assert (forall id, index_of id (map item_seen items) = index_of id items) as Hidx.
  { intros id. clear. induction items as [|x items IH]; cbn; [done|]. by rewrite IH. }
  clear -H Hidx. induction H as [i item Hi Hr|n i item p Hi Hr Hp Hd IH].
  - eapply (depth_root _ _ (item_seen item)); [|done]. rewrite list_lookup_fmap. by rewrite Hi.
  - eapply (depth_step _ _ _ (item_seen item)); [by rewrite list_lookup_fmap, Hi|done|by rewrite Hidx|done].
Qed.

Lemma tree_read items : forest items ->
  tree_snapshot (wire (JArray (map tree_item_json items))) = Val (Ok (map item_seen items)).
Proof.
  intros Hf. rewrite wire_array_map. destruct (snapshot_cases (JArray (map (fun i => wire (tree_item_json i)) items))) as (r & -> & Hr).
  f_equal. apply Hr. eexists. split; [done|]. split; [|by apply forest_seen].
  destruct Hf as (Hn & Hne & Hd). apply tree_items_read; [done|].
  apply Forall_forall. intros item Hin. rewrite Forall_forall in Hne. split; [by apply Hne|]. split; [apply not_elem_of_nil|].
  apply list_elem_of_lookup in Hin as [i Hi]. destruct (Hd i ltac:(by eapply lookup_lt_Some)) as [n Hdi].
  eapply depth_not_self; eauto. apply Hne. by eapply list_elem_of_lookup_2.
Qed.

(** ** File pickers *)

Definition filter_ok (f : FilePickerFilter) : Prop :=
  ff_id f <> [] /\ ff_patterns f <> [] /\ Forall (fun p => p <> []) (ff_patterns f).

Definition picker_ok (o : FilePickerOptions) : Prop :=
  NoDup (map ff_id (fp_filters o)) /\ Forall filter_ok (fp_filters o) /\
  (fp_initially_selected_filter_id o = [] \/ fp_initially_selected_filter_id o ∈ map ff_id (fp_filters o)).

Lemma patterns_read prefix index ps :
  Forall (fun p => p <> []) ps -> picker_patterns prefix index (map JString ps) = Ok ps.
Proof.
  intros H. revert index. induction H as [|p ps Hp Hps IH]; intros index; [done|]. cbn [map picker_patterns].
  rewrite IH. by destruct p.
Qed.

Lemma filter_read prefix seen f :
  filter_ok f -> ff_id f ∉ seen -> picker_filter prefix seen (wire (filter_json f)) = Ok f.
Proof.
  intros (Hid & Hne & Hps) Hs. unfold picker_filter, filter_json, decodeRequiredString. rewrite is_object_wire.
  cbn [is_object jobject negb]. jkey. rewrite wire_strings. cbn [obind wire get_string].
  rewrite bool_decide_eq_false_2 by done. destruct (existsb _ seen) eqn:E; [by apply existsb_bytes in E|].
  pose proof (patterns_read prefix 0 _ Hps) as Hp. destruct f as [id lab [|p ps]]; [done|].
  cbn [ff_id ff_label ff_patterns] in *. unfold jstrings. cbn [map] in *. by rewrite Hp.
Qed.

Lemma filters_read index seen fs :
  NoDup (map ff_id fs) -> Forall (fun f => filter_ok f /\ ff_id f ∉ seen) fs ->
  picker_filters index seen (map (fun f => wire (filter_json f)) fs) = Ok fs.
Proof.
  revert index seen. induction fs as [|f fs IH]; intros index seen Hn Hf; [done|]. cbn [map picker_filters] in *.
  apply NoDup_cons in Hn as [Hi Hn]. apply Forall_cons in Hf as [[H1 H2] Hf].
  rewrite filter_read by done. cbn [ebind]. rewrite IH; [done|done|].
  rewrite Forall_forall in Hf |- *. intros g Hg. destruct (Hf g Hg) as (H3 & H4). split; [done|].
  apply not_elem_of_cons. split; [|done]. intros He. apply Hi. rewrite <-He. by apply list_elem_of_fmap_2.
Qed.

Lemma mode_read m : filePickerModeFromWireValue (filePickerModeWireValue m) = Some m.
Proof. by destruct m. Qed.

Lemma selected_ok sel fs :
  nonempty sel && negb (existsb (fun f => bytes_eqb (ff_id f) sel) fs) = false <-> sel = [] \/ sel ∈ map ff_id fs.
Proof.
  unfold nonempty. rewrite andb_false_iff, !negb_false_iff, bool_decide_eq_true, existsb_exists, list_elem_of_fmap.
  setoid_rewrite bytes_eqb_eq. setoid_rewrite <-list_elem_of_In. naive_solver.
Qed.

Lemma picker_read o : picker_ok o -> picker_options (wire (picker_json o)) = Ok o.
Proof.
  intros (Hn & Hf & Hs). unfold picker_options, picker_json, decodeRequiredString. rewrite is_object_wire.
  cbn [is_object jobject negb]. cbv zeta. jkey. rewrite wire_array_map.
  cbn [obind wire get_string get_bool get_array require ebind]. rewrite mode_read. cbn [require ebind].
  rewrite filters_read; [|done|eapply Forall_impl; [exact Hf|]; intros f Hok; split; [done|apply not_elem_of_nil]].
  cbn [ebind]. apply selected_ok in Hs. rewrite Hs. by destruct o.
Qed.

(** Every accepted request is valid. *)
Lemma patterns_sound prefix index l ps :
  picker_patterns prefix index l = Ok ps -> Forall (fun p => p <> []) ps /\ length ps = length l.
Proof.
  revert index ps. induction l as [|j l IH]; intros index ps; cbn [picker_patterns]; [by intros [= <-]|].
  destruct j as [| | | | |[|c p]| |]; try done. intros (rest & Hr & [= <-])%ebind_ok.
  apply IH in Hr as [Hf Hl]. cbn. split; [by constructor|by rewrite Hl].
Qed.

Lemma filter_sound prefix seen j f : picker_filter prefix seen j = Ok f -> filter_ok f /\ ff_id f ∉ seen.
Proof.
  unfold picker_filter. destruct (negb _); [done|].
  destruct (decodeRequiredString _ j) as [id|]; [|done]. destruct (decodeRequiredString _ j) as [lab|]; [|done].
  case_bool_decide as Hid; [done|]. destruct (existsb _ seen) eqn:Es; [done|].
  destruct (jfind _ j) as [[| | | | | |[|p l]|]|]; try done.
  intros (ps & Hp & [= <-])%ebind_ok. apply patterns_sound in Hp as [Hf Hl]. split.
  - split; [done|]. split; [by destruct ps|done].
  - cbn. intros Hin. apply existsb_bytes in Hin. congruence.
Qed.

Lemma filters_sound index seen l fs :
  picker_filters index seen l = Ok fs ->
  NoDup (map ff_id fs) /\ Forall (fun f => filter_ok f /\ ff_id f ∉ seen) fs.
Proof.
  revert index seen fs. induction l as [|j l IH]; intros index seen fs; cbn [picker_filters].
  - intros [= <-]. split; constructor.
  - intros (f & Hf & (rest & Hr & [= <-])%ebind_ok)%ebind_ok. apply filter_sound in Hf. apply IH in Hr as [Hn Hall].
    split.
    + cbn. apply NoDup_cons. split; [|done]. intros (g & Hg & Hin)%list_elem_of_fmap. rewrite Forall_forall in Hall.
      destruct (Hall g Hin) as [_ H]. apply H. rewrite <-Hg. left.
    + constructor; [done|]. eapply Forall_impl; [exact Hall|]. intros g [H1 H2]. split; [done|set_solver].
Qed.

Lemma picker_sound j o : picker_options j = Ok o -> picker_ok o.
Proof.
  unfold picker_options. destruct (negb _); [done|]. cbv zeta.
  intros (? & _ & (? & _ & (? & _ & (? & _ & (? & _ & (? & _ & (? & _ & (sel & _ & (? & _ & (? & _ & (fs & Hf & H)%ebind_ok)%ebind_ok)%ebind_ok)%ebind_ok)%ebind_ok)%ebind_ok)%ebind_ok)%ebind_ok)%ebind_ok)%ebind_ok)%ebind_ok.
  apply filters_sound in Hf as [Hn Hall]. destruct (nonempty sel && _) eqn:Es; [done|]. injection H as <-.
  apply selected_ok in Es. split; [done|]. split; [|done]. eapply Forall_impl; [exact Hall|]. by intros f [].
Qed.

(** ** Tables with sort keys *)

Lemma int_text_inj i j : int_text i = int_text j -> i = j.
Proof.
  unfold int_text, str. intros H. apply (f_equal String.string_of_list_byte) in H.
  rewrite !String.string_of_list_byte_of_string in H. by apply (inj pretty) in H.
Qed.

Lemma obj_set_new key v fs e : key ∉ map fst fs -> e ∈ obj_set key v fs <-> e = (key, v) \/ e ∈ fs.
Proof.
  induction fs as [|[k w] fs IH]; cbn [obj_set map fst]; [set_solver|]. intros [Hne Hk]%not_elem_of_cons.
  destruct (string_cmp key k) eqn:E; [by apply string_cmp_eq in E|set_solver|].
  rewrite !elem_of_cons, IH by done. tauto.
Qed.

Definition has_keys (rows : list (list TableItem)) (c : nat) : bool := existsb (fun row => is_set (cell_value c row)) rows.

Definition add_column (rows : list (list TableItem)) (columns : members) (c : nat) : members :=
  if has_keys rows c then obj_set (int_text (Z.of_nat c)) (column_keys rows c) columns else columns.

Lemma columns_elem rows cs acc e :
  NoDup cs -> (forall c, c ∈ cs -> int_text (Z.of_nat c) ∉ map fst acc) ->
  e ∈ foldl (add_column rows) acc cs <->
  e ∈ acc \/ exists c, c ∈ cs /\ has_keys rows c = true /\ e = (int_text (Z.of_nat c), column_keys rows c).
Proof.
  revert acc. induction cs as [|c cs IH]; intros acc Hn Ha; cbn [foldl]; [set_solver|].
  apply NoDup_cons in Hn as [Hc Hn]. rewrite IH; [|done|].
  - setoid_rewrite elem_of_cons. unfold add_column. destruct (has_keys rows c) eqn:Ek.
    + rewrite obj_set_new by (apply Ha; left). split; [intros [[->|?]|(c' & ? & ?)]; eauto 6|].
      intros [?|(c' & [->|?] & ? & ->)]; eauto 6.
    + split; [intros [?|(c' & ? & ?)]; eauto 6|]. intros [?|(c' & [->|?] & ? & ->)]; [auto|congruence|eauto 6].
  - intros c' Hc'. unfold add_column. destruct (has_keys rows c); [|apply Ha; by right].
    intros [Hk|Hk]%obj_set_keys; [|by apply (Ha c'); [right|]].
    apply int_text_inj in Hk. assert (c' = c) by lia. by subst.
Qed.

Lemma max_cols_spec rows row : row ∈ rows -> (length row <= max_cols rows)%nat.
Proof.
  unfold max_cols. assert (forall acc, (acc <= foldl (fun m row => if (m <? length row)%nat then length row else m) acc rows)%nat /\
    (row ∈ rows -> length row <= foldl (fun m row => if (m <? length row)%nat then length row else m) acc rows)%nat) as H; [|apply H].
  induction rows as [|r rows IH]; intros acc; cbn [foldl]; [split; [lia|by intros ?%not_elem_of_nil]|].
  destruct (IH (if (acc <? length r)%nat then length r else acc)) as [H1 H2].
  destruct (Nat.ltb_spec acc (length r)); (split; [lia|]); intros [->|Hin]%elem_of_cons; try lia; by apply H2.
Qed.

Lemma has_keys_bound rows c : has_keys rows c = true -> c ∈ seq 0 (max_cols rows).
Proof.
  unfold has_keys. rewrite existsb_exists. intros (row & Hin%list_elem_of_In & Hs). apply elem_of_seq.
  unfold cell_value in Hs. destruct (row !! c) eqn:E; [|done]. apply lookup_lt_Some in E.
  pose proof (max_cols_spec rows row Hin). lia.
Qed.

(** The members of the key map: one per column with a key. *)
Lemma encoded_columns rows e :
  e ∈ (encodeTypedRows rows).2 <->
  exists c, has_keys rows c = true /\ e = (int_text (Z.of_nat c), column_keys rows c).
Proof.
  unfold encodeTypedRows. cbn [snd]. change (foldl _ [] (seq 0 (max_cols rows))) with (foldl (add_column rows) [] (seq 0 (max_cols rows))).
  rewrite columns_elem; [|apply NoDup_seq|by intros c _ ?%not_elem_of_nil]. split.
  - intros [?%not_elem_of_nil|(c & _ & H)]; [done|by exists c].
  - intros (c & H & He). right. exists c. split; [by apply has_keys_bound|done].
Qed.

Lemma wf_keys fs : wf (JObject fs) = true -> NoDup (map fst fs).
Proof.
  intros [Hk _]%wf_object. induction (map fst fs) as [|k ks IH]; [constructor|].
  apply keys_ascending_cons in Hk as [Hk Hlt]. apply NoDup_cons. split; [|by apply IH].
  intros Hin. rewrite Forall_forall in Hlt. specialize (Hlt k Hin). by rewrite string_cmp_refl in Hlt.
Qed.

Lemma encoded_keys rows : forallb (forallb item_ok) rows = true -> NoDup (map fst (encodeTypedRows rows).2).
Proof. intros Hr. by apply wf_keys, columns_wf. Qed.

(** Inserting columns of distinct numbers is appending them. *)
Lemma emplace_fold {A B} (f : A -> option (Z * B)) l acc :
  NoDup (map fst (acc ++ omap f l)) ->
  foldl (fun r e => match f e with Some (c, v) => emplace c v r | None => r end) acc l = acc ++ omap f l.
Proof.
  revert acc. induction l as [|x l IH]; intros acc Hn; cbn [foldl]; [by rewrite app_nil_r|].
  cbn [omap list_omap] in *. destruct (f x) as [[c v]|]; [|by apply IH].
  assert (emplace c v acc = acc ++ [(c, v)]) as ->.
  { unfold emplace. destruct (existsb _ acc) eqn:E; [|done]. exfalso.
    apply existsb_exists in E as ([c' w] & Hin%list_elem_of_In & He%Z.eqb_eq). cbn in He. subst c'.
    rewrite map_app in Hn. cbn in Hn. apply NoDup_app in Hn as (_ & Hd & _). apply (Hd c); [|left].
    by apply (list_elem_of_fmap_2 fst _ (c, w)). }
  rewrite IH, <-app_assoc; [done|]. by rewrite <-app_assoc.
Qed.
