(* ===== verification/WidgetProtocol.v ===== *)
(** * WidgetProtocol: the contract of the dialog description

    [reads_back]: what the host's accessors return for each setter; the theorem that
    they do so on the text of any history of setters; the maps of row colours and cell
    tooltips that accumulate; totality of the setters; what the host rejects.  The deltas
    of tables are in [TableBatch]. *)

From Stdlib Require Import Floats.SpecFloat.
From stdpp Require Import sets sorting gmap pretty.
From S2P Require Import Prelude Text Doubles Json WidgetData WidgetDataView TreeItems WidgetDocument WidgetRoundtrip.

(** ** What the host reads *)

(** The sort keys the host sees in column [c]. *)
Definition column_seen (rows : list (list TableItem)) (c : nat) : list (option NumericValue) :=
  map (fun row => match cell_value c row with Some v => widen v | None => None end) rows.

(** A [std::map] of the columns that have a key: every column once. *)
Definition columns_of (rows : list (list TableItem)) (columns : list (Z * list (option NumericValue))) : Prop :=
  NoDup (map fst columns) /\
  forall p, p ∈ columns <-> exists c, has_keys rows c = true /\ p = (Z.of_nat c, column_seen rows c).

(** The mode the older accessors recognise. *)
Definition picker_actions (o : FilePickerOptions) : bool * bool * bool :=
  match fp_mode o with
  | OpenFile | OpenFiles => (true, false, false)
  | SaveFile => (false, true, false)
  | SelectDirectory => (false, false, true)
  end.

Definition reads_back (op : WidgetOp) (v : json) : Prop :=
  match op with
  | OpString c n s => read_string c v n = Some s
  | OpBool c n b => read_bool c v n = Some b
  | OpInt c n z => read_int c v n = Some z
  | OpStrings c n l => read_strings c v n = Some l
  | OpInts c n l => read_ints c v n = Some l
  | OpPair c n a b => read_pair c v n = (Some a, Some b)
  | OpSpan c n a b => read_span c v n = Some (a, b)
  | OpDouble n f => valueDouble v n = if is_finite f then Some f else None
  | OpDropTarget n b => isDropTarget v n = b
  | OpDateTimeRange n a b => dateTimeRange v n = Some (a, b)
  | OpDateRange n a b => dateRangeEarliest v n = Some a /\ dateRangeLatest v n = Some b
  | OpFieldValid n ok tooltip => fieldValid v n = Some ok /\ fieldValidTooltip v n = Some tooltip
  | OpRows n rows => tableRows v n = Some rows /\ tableColumnValues v n = []
  | OpTypedRows n rows =>
    tableRows v n = Some (map (map ti_text) rows) /\
    (Z.of_nat (max_cols rows) <= 2 ^ 31 -> columns_of rows (tableColumnValues v n))
  | OpSortIndicator n column ascending => tableSortIndicator v n = Some (column, ascending)
  | OpClearVisibleRows n => visibleRows v n = None
  | OpTreeItems n l => forest l -> treeItems v n = Some (Val (Ok (map item_seen l)))
  | OpTreeVisible n (Some ids) => treeVisibilityUpdate v n = Some (Filter ids)
  | OpTreeVisible n None => treeVisibilityUpdate v n = Some Reset
  | OpChartSeries n l => chartSeries v n = Some (map series_seen l)
  | OpChartMarkers n l => chartMarkers v n = if forallb marker_finite l then Got (Some l) else Throws
  | OpClearChart n => chartSeries v n = Some [] /\ chartMarkers v n = Got (Some [])
  | OpSceneView n (Some view) => scene_ok view = true -> sceneView v n = Some (Ok view)
  | OpSceneView n None => sceneView v n = Some (Ok (mkSceneView [] []))
  | OpFilePicker n button filter title =>
    buttonText v n = Some button /\ isFilePicker v n = true /\ filePickerFilter v n = Some filter /\
    filePickerTitle v n = Some title
  | OpFilePickerOptions n button o =>
    buttonText v n = Some button /\ isStructuredFilePicker v n = true /\
    (picker_ok o -> filePickerOptions v n = Some (Ok o)) /\
    filePickerTitle v n = Some (fp_title o) /\
    (isFilePicker v n, isSaveFilePicker v n, isFolderPicker v n) = picker_actions o /\
    filePickerFilter v n =
      match fp_mode o with SelectDirectory => None | _ => Some (legacy_filter (fp_filters o)) end /\
    saveFilePickerDefaultSuffix v n = match fp_mode o with SaveFile => Some (fp_default_suffix o) | _ => None end
  | OpSaveFilePicker n button filter title suffix =>
    buttonText v n = Some button /\ isSaveFilePicker v n = true /\ filePickerFilter v n = Some filter /\
    filePickerTitle v n = Some title /\ saveFilePickerDefaultSuffix v n = Some suffix
  | OpFolderPicker n button title =>
    buttonText v n = Some button /\ isFolderPicker v n = true /\ folderPickerTitle v n = Some title
  | OpTimelineMarks n l => markerTimelineMarks v n = Got (Some l)
  | OpRangeMarkers n l => rangeSliderMarkers v n = Some l
  (* what accumulates and the dialog's commands: see [replaces] *)
  | _ => True
  end.

(** ** Tables *)

Lemma text_rows_read rows :
  wire (text_rows rows) = JArray (map jstrings rows).
Proof. unfold text_rows. rewrite wire_array_map. f_equal. apply map_ext. intros. apply wire_strings. Qed.

Lemma table_rows_read v name rows :
  field v name (str "rows") = Some (wire (text_rows rows)) -> tableRows v name = Some rows.
Proof.
  intros Hf. unfold tableRows. rewrite Hf, text_rows_read. cbn [obind get_array].
  rewrite (mapM_map _ _ id); [by rewrite list_fmap_id|]. intros row _. cbn. rewrite List.map_map. cbn.
  by rewrite map_id_in.
Qed.

Lemma keys_seen rows c :
  map numericFromJson (map (fun row => wire (match cell_value c row with Some v => json_of_numeric v | None => JNull end)) rows)
  = column_seen rows c.
Proof.
  unfold column_seen. rewrite List.map_map. apply map_ext. intros row.
  destruct (cell_value c row); [apply numeric_wire|done].
Qed.

Lemma keys_seen_strict rows c :
  mapM delta_value (map (fun row => wire (match cell_value c row with Some v => json_of_numeric v | None => JNull end)) rows)
  = Some (column_seen rows c).
Proof.
  apply mapM_map. intros row _. destruct (cell_value c row); [apply delta_value_wire|done].
Qed.

(** Decoding the columns of the key map one by one, with distinct numbers. *)
Lemma columns_decode rows (f : bytes * json -> option (Z * list (option NumericValue))) :
  Z.of_nat (max_cols rows) <= 2 ^ 31 -> NoDup (map fst (encodeTypedRows rows).2) ->
  (forall c, in_s 32 (Z.of_nat c) -> f (int_text (Z.of_nat c), wire (column_keys rows c)) = Some (Z.of_nat c, column_seen rows c)) ->
  columns_of rows (omap f (map (fun e => (e.1, wire e.2)) (encodeTypedRows rows).2)).
Proof.
  intros Hmax Hn Hf.
  assert (forall c, has_keys rows c = true -> in_s 32 (Z.of_nat c)) as Hin.
  { intros c Hc%has_keys_bound%elem_of_seq. unfold in_s. lia. }
  assert (forall e, e ∈ (encodeTypedRows rows).2 ->
    exists c, e.1 = int_text (Z.of_nat c) /\ has_keys rows c = true /\ f (e.1, wire e.2) = Some (Z.of_nat c, column_seen rows c)) as He.
  { intros e (c & Hc & ->)%encoded_columns. exists c. split_and!; [done..|]. by apply Hf, Hin. }
  split.
  - assert (forall l, (forall e, e ∈ l -> e ∈ (encodeTypedRows rows).2) ->
      map int_text (map fst (omap f (map (fun e => (e.1, wire e.2)) l))) = map fst l) as Hm.
    { induction l as [|e l IH]; intros Hl; [done|]. cbn [map omap list_omap].
      destruct (He e ltac:(apply Hl; left)) as (c & Hk & _ & ->). cbn [map fst]. rewrite IH, Hk; [done|].
      intros e' ?. apply Hl. by right. }
    apply (NoDup_fmap_1 int_text). change (int_text <$> ?l) with (map int_text l). by rewrite Hm.
  - intros p. rewrite list_elem_of_omap. split.
    + intros (e' & (e & -> & Hl)%list_elem_of_fmap & Hp). destruct (He e Hl) as (c & _ & Hc & E).
      exists c. split; [done|]. cbn in Hp. by simplify_eq.
    + intros (c & Hc & ->). exists (int_text (Z.of_nat c), wire (column_keys rows c)). split; [|by apply Hf, Hin].
      apply list_elem_of_fmap. exists (int_text (Z.of_nat c), column_keys rows c). split; [done|].
      apply encoded_columns. by exists c.
Qed.

Lemma no_columns rows : (encodeTypedRows rows).2 = [] -> columns_of rows [].
Proof.
  intros He. split; [constructor|]. intros p. split; [by intros ?%not_elem_of_nil|].
  intros (c & Hc & _). exfalso. assert ((int_text (Z.of_nat c), column_keys rows c) ∈ (encodeTypedRows rows).2) as H
    by (apply encoded_columns; by exists c).
  rewrite He in H. by apply not_elem_of_nil in H.
Qed.

Definition column_step (row_count : nat) (e : bytes * json) : option (Z * list (option NumericValue)) :=
  match parseNumber 32 e.1, e.2 with
  | Some col, JArray values =>
    if (col <? 0) || negb (length values =? row_count)%nat then None else Some (col, map numericFromJson values)
  | _, _ => None
  end.

Lemma column_step_read rows c :
  in_s 32 (Z.of_nat c) ->
  column_step (length rows) (int_text (Z.of_nat c), wire (column_keys rows c)) = Some (Z.of_nat c, column_seen rows c).
Proof.
  intros Hc. unfold column_step, column_keys. cbn [fst snd]. rewrite parseNumber_text, wire_array_map by done.
  rewrite (proj2 (Z.ltb_ge _ _)) by lia. rewrite length_map, Nat.eqb_refl. cbn. by rewrite keys_seen.
Qed.

Lemma foldl_same {A B} (f g : A -> B -> A) l a : (forall a b, f a b = g a b) -> foldl f a l = foldl g a l.
Proof. intros Hfg. revert a. induction l as [|x l IH]; intros a; cbn; [done|]. by rewrite Hfg, IH. Qed.

Lemma column_values_read v name rows :
  forallb (forallb item_ok) rows = true -> Z.of_nat (max_cols rows) <= 2 ^ 31 ->
  field v name (str "rows") = Some (wire (encodeTypedRows rows).1) ->
  field v name (str "column_values")
  = option_map wire (let columns := (encodeTypedRows rows).2 in
                     if bool_decide (columns = []) then None else Some (JObject columns)) ->
  columns_of rows (tableColumnValues v name).
Proof.
  intros Hok Hmax Hr Hc. unfold tableColumnValues. rewrite Hr, Hc. cbn [encodeTypedRows fst].
  rewrite text_rows_read. cbv zeta. rewrite !length_map. case_bool_decide as He; [by apply no_columns|].
  cbn [option_map wire].
  pose proof (columns_decode rows (column_step (length rows)) Hmax (encoded_keys _ Hok) (column_step_read rows)) as Hd.
  rewrite <-(app_nil_l (omap _ _)) in Hd. rewrite <-emplace_fold in Hd by (by destruct Hd).
  erewrite foldl_same; [exact Hd|]. intros r e. cbv beta. unfold column_step. destruct (parseNumber 32 e.1); [|done]. destruct e.2; try done.
  by destruct (_ || _).
Qed.

(** ** Every setter *)

Lemma int_field v name key z :
  in_s 32 z -> field v name key = Some (wire (JInt z)) -> getInt v name key = Some z.
Proof. intros Hz Hf. unfold getInt. rewrite Hf. by apply decode_int. Qed.

Lemma strings_field v name key l :
  field v name key = Some (wire (jstrings l)) ->
  getStringArray v name key = Some l /\ getStrictStringArray v name key = Some l.
Proof.
  unfold getStringArray, getStrictStringArray. rewrite wire_strings. intros ->. cbn [obind].
  rewrite strict_strings. cbn. by rewrite omap_strings.
Qed.

Lemma ints_field v name key l :
  forallb int_ok l = true -> field v name key = Some (wire (jints l)) -> get_int_array v name key = Some l.
Proof.
  intros Hl Hf. unfold get_int_array. rewrite Hf. unfold jints. rewrite wire_array_map. cbn [obind get_array].
  rewrite forallb_forall in Hl.
  assert (forall z, z ∈ l -> is_number_integer (wire (JInt z)) = true /\ get_int (wire (JInt z)) = z) as Hz.
  { intros z Hz%list_elem_of_In. apply get_int_wire. specialize (Hl z Hz). by apply bool_decide_eq_true in Hl. }
  rewrite filter_map_all by (intros z ?; by apply Hz). f_equal. clear Hl Hf. induction l as [|z l IH]; [done|]. cbn [map].
  rewrite IH by (intros; apply Hz; by right). f_equal. by apply Hz; left.
Qed.

Lemma span_fields v name k1 k2 a b :
  in_s 64 a -> in_s 64 b -> field v name k1 = Some (wire (JString (int_text a))) ->
  field v name k2 = Some (wire (JString (int_text b))) -> time_span v name k1 k2 = Some (a, b).
Proof.
  intros Ha Hb H1 H2. unfold time_span, getString. rewrite H1, H2. cbn. by rewrite !parseNumber_text.
Qed.

(** The fields of the parsed text. *)
Lemma holds_wire d name writes :
  holds (JObject d) name writes ->
  Forall (fun w => field (wire (JObject d)) name w.1 = option_map wire w.2) writes.
Proof. intros H. eapply Forall_impl; [exact H|]. intros w Hw. cbv beta in Hw. by rewrite field_wire, Hw. Qed.

#[export] Hint Unfold getString getBool text placeholder listPlaceholder chartPlaceholder plainText codeContent codeLanguage
  label buttonText buttonIconSvg buttonIconName shortcut dateTime stackedPage readOnly checked listDeletable listMultiSelect
  treeMultiSelection chartZoomEnabled chartAutoZoom codeCaretTracking okEnabled enabled visible isDropTarget dateTimeRange
  dateRangeEarliest dateRangeLatest fieldValid fieldValidTooltip visibleRows get_int_array treeVisibilityUpdate sceneView
  isFilePicker isSaveFilePicker isFolderPicker has_action filePickerFilter filePickerTitle folderPickerTitle
  saveFilePickerDefaultSuffix isStructuredFilePicker filePickerOptions : accessors.

(** Unfold the accessors and read the fields of the context. *)
Ltac use_fields := repeat match goal with H : field ?v ?n ?k = _ |- context [field ?v ?n ?k] => rewrite H end.

Ltac see_fields := autounfold with accessors; use_fields.

Ltac read_fields :=
  cbn [read_string read_bool string_key bool_key] in *; autounfold with accessors;
  repeat match goal with H : field ?v ?n ?k = _ |- context [field ?v ?n ?k] => rewrite H end;
  repeat split.

Lemma picker_fields v n button o :
  Forall (fun w : bytes * option json => field v n w.1 = option_map wire w.2)
    (op_writes (OpFilePickerOptions n button o)) ->
  reads_back (OpFilePickerOptions n button o) v.
Proof.
  cbn [op_writes reads_back]. intros H. rewrite ?Forall_cons in H. cbn [fst snd option_map] in H. destruct_and? H.
  unfold picker_actions. split_and!; [by read_fields|by read_fields| |by read_fields|..].
  - intros Ho. see_fields. cbn [obind]. by rewrite picker_read.
  - see_fields. by destruct (fp_mode o).
  - see_fields. by destruct (fp_mode o).
  - see_fields. by destruct (fp_mode o).
Qed.

Lemma holds_reads op name ks d :
  op_fields op = Some (name, ks) -> op_ok op = true -> holds (JObject d) name (op_writes op) ->
  reads_back op (wire (JObject d)).
Proof.
  intros Ef Hok H%holds_wire. revert H. generalize (wire (JObject d)). intros v H.
  destruct op; cbn [op_fields] in Ef; try done; injection Ef as -> <-; cbn [op_writes op_ok reads_back] in *;
    rewrite ?andb_true_iff in Hok; repeat match goal with o : option _ |- _ => destruct o end;
    rewrite ?Forall_cons in H; cbn [fst snd option_map] in H; destruct_and? H; destruct_and? Hok.
  - destruct c; read_fields.
  - destruct c; read_fields.
  - apply bool_decide_eq_true in Hok. destruct c; by apply int_field.
  - apply strings_field in H0 as [Ha Hb]. by destruct c.
  - destruct c; by apply ints_field.
  - apply bool_decide_eq_true in H1, H3. destruct c; cbn [read_pair]; f_equal; by apply int_field.
  - apply bool_decide_eq_true in H1, H3. by destruct c; apply span_fields.
  - unfold valueDouble, getDouble. use_fields. cbn. by destruct (is_finite f).
  - read_fields.
  - read_fields.
  - read_fields.
  - read_fields.
  - split; [by apply table_rows_read|]. unfold tableColumnValues. by use_fields.
  - split; [by apply table_rows_read|]. intros Hm. by apply column_values_read.
  - apply bool_decide_eq_true in Hok. unfold tableSortIndicator. use_fields. cbn [obind]. jkey. cbn [obind].
    by destruct (get_int_wire _ Hok) as [-> ->].
  - read_fields.
  - intros Hf. unfold treeItems. use_fields. cbn [obind]. by rewrite tree_read.
  - unfold treeVisibilityUpdate. use_fields. rewrite wire_strings. cbn [obind jstrings]. by rewrite strict_strings.
  - read_fields.
  - unfold chartSeries. use_fields. rewrite wire_array_map. cbn [obind get_array]. f_equal. apply omap_map. intros s _. apply series_read.
  - unfold chartMarkers. use_fields. unfold chartMarkersToJson. rewrite wire_array_map. rewrite marker_objects, markers_read.
    by destruct (forallb marker_finite l).
  - unfold chartSeries, chartMarkers. by use_fields.
  - intros Hs. by apply scene_read.
  - read_fields.
  - read_fields.
  - apply picker_fields. cbn [op_writes]. rewrite ?Forall_cons. cbn [fst snd option_map]. by split_and!.
  - read_fields.
  - read_fields.
  - unfold markerTimelineMarks. use_fields. unfold timelineMarksToJson, timelineMarksFromJson. rewrite wire_array_map.
    rewrite (mapT_map _ _ id); [by rewrite map_id|]. intros m Hm%list_elem_of_In. apply timeline_read.
    rewrite forallb_forall in Hok. by apply Hok.
  - unfold rangeSliderMarkers. use_fields. rewrite wire_array_map. cbn [obind get_array].
    rewrite filter_map_all by done. f_equal. rewrite (omap_map _ _ id); [by rewrite map_id|].
    intros m Hm%list_elem_of_In. apply range_read. rewrite forallb_forall in Hok. by apply Hok.
Qed.

(** ** Totality *)

(** Assignments that never throw on an object. *)
Class Total (f : json -> option json) : Prop :=
  total : forall fs, exists fs', f (JObject fs) = Some (JObject fs').

#[export] Instance index_set_total key v : Total (index_set key v).
Proof. intros fs. by eexists. Qed.

#[export] Instance jerase_total key : Total (jerase key).
Proof. intros fs. by eexists. Qed.

#[export] Instance obind_total f g : Total f -> Total g -> Total (fun e => let* e := f e in g e).
Proof. intros Hf Hg fs. destruct (Hf fs) as [fs1 ->]. apply Hg. Qed.

#[export] Instance puts_total pairs : Total (puts pairs).
Proof.
  induction pairs as [|[k v] pairs IH]; [intros fs; by eexists|]. apply (obind_total (index_set k v) (puts pairs)); apply _.
Qed.

#[export] Instance index_update_total key f : Total (index_update key f).
Proof. intros fs. by eexists. Qed.

#[export] Instance put_typed_rows_total rk vk rows : Total (put_typed_rows rk vk rows).
Proof.
  unfold put_typed_rows. destruct (encodeTypedRows rows). apply obind_total; [apply _|].
  case_bool_decide; apply _.
Qed.

#[export] Instance picker_total (o : FilePickerOptions) pairs open save folder :
  Total open -> Total save -> Total folder ->
  Total (fun e => let* e := puts pairs e in
                  match fp_mode o with OpenFile | OpenFiles => open e | SaveFile => save e | SelectDirectory => folder e end).
Proof. intros ? ? ?. apply (obind_total (puts pairs)); [apply _|]. by destruct (fp_mode o). Qed.

(** The members of the root a scalar command occupies. *)
Definition scalar_commands : list bytes :=
  [str "__request_accept"; str "__request_sub_panel_close"; str "__request_close"].

Definition objects (d : data) : Prop :=
  forall k v, obj_find k d = Some v -> k ∉ scalar_commands -> is_object v = true.

Lemma obj_set_objects k v d : (k ∉ scalar_commands -> is_object v = true) -> objects d -> objects (obj_set k v d).
Proof.
  intros Hv Hd k' v' Hf Hk. destruct (decide (k = k')) as [->|Hne].
  - rewrite obj_find_set_eq in Hf. injection Hf as <-. auto.
  - rewrite obj_find_set_ne in Hf by done. by eapply Hd.
Qed.

Lemma with_entry_total name f d :
  Total f -> name ∉ scalar_commands -> objects d -> exists d', with_entry name f d = Some d' /\ objects d'.
Proof.
  intros Hf Hn Hd. unfold with_entry.
  assert (exists fs, match obj_find name d with Some e => e | None => JObject [] end = JObject fs) as [fs ->].
  { destruct (obj_find name d) as [e|] eqn:E; [|by eexists]. specialize (Hd _ _ E Hn). destruct e; try done. by eexists. }
  destruct (Hf fs) as [fs' ->]. eexists. split; [done|]. by apply obj_set_objects.
Qed.

Lemma with_delta_total name seq f d :
  Total f -> name ∉ scalar_commands -> objects d -> exists d', with_delta name seq f d = Some d' /\ objects d'.
Proof.
  intros Hf. apply with_entry_total. intros fs.
  assert (exists ds, fresh_delta seq (match jfind (str "table_delta") (JObject fs) with Some v => v | None => JNull end)
            = JObject ds) as [ds E].
  { unfold fresh_delta. destruct (jfind _ (JObject fs)) as [[| | | | | | |ds]|]; try (by eexists).
    destruct (jfind _ (JObject ds)) as [[]|]; try (by eexists). destruct (_ =? _); by eexists. }
  destruct (Hf ds) as [ds' Hds]. exists (obj_set (str "table_delta") (JObject ds') fs). cbv zeta.
  rewrite E, Hds. done.
Qed.

(** The widget a setter names is not a scalar command. *)
Definition names_widget (op : WidgetOp) : bool :=
  match op_fields op with Some (name, _) => bool_decide (name ∉ scalar_commands) | None => true end.

Lemma op_total op d : names_widget op = true -> objects d -> exists d', apply_op op d = Some d' /\ objects d'.
Proof.
  unfold names_widget. intros Hn Hd. destruct (op_fields op) as [[name ks]|] eqn:Ef.
  - apply bool_decide_eq_true in Hn.
    destruct op; cbn [op_fields] in Ef; try done; injection Ef as -> _; cbn [apply_op];
      try (destruct c; cbn [set_string set_bool set_int set_strings set_ints set_pair set_span]);
      repeat match goal with o : option _ |- _ => destruct o end;
      try (apply with_delta_total; [apply _|done..]); (apply with_entry_total; [apply _|done..]).
  - destruct op; try done; cbn [apply_op]; (eexists; split; [reflexivity|]); try by apply obj_set_objects.
    + apply obj_set_objects; [|done]. intros []. by_compute.
    + apply obj_set_objects; [|done]. intros []. by_compute.
    + apply obj_set_objects; [|done]. intros []. by_compute.
    + by intros k v.
Qed.

Lemma run_total ops d : forallb names_widget ops = true -> objects d -> exists d', run_ops ops d = Some d' /\ objects d'.
Proof.
  revert d. induction ops as [|op ops IH]; intros d; cbn [forallb run_ops]; [by eexists|].
  intros [Hn Hns]%andb_prop Hd. destruct (op_total op d Hn Hd) as (d1 & -> & H1). by apply IH.
Qed.

Lemma run_app ops1 ops2 d : run_ops (ops1 ++ ops2) d = let* d1 := run_ops ops1 d in run_ops ops2 d1.
Proof. revert d. induction ops1 as [|op ops1 IH]; intros d; cbn; [done|]. destruct (apply_op op d); [apply IH|done]. Qed.

Lemma no_objects : objects [].
Proof. by intros k v. Qed.

(** Assignments that throw on a scalar. *)
Class Fails (f : json -> option json) : Prop :=
  fails : forall v, is_object v = false -> v <> JNull -> f v = None.

#[export] Instance index_set_fails key v : Fails (index_set key v).
Proof. by intros []. Qed.

#[export] Instance obind_fails f g : Fails f -> Fails (fun e => let* e := f e in g e).
Proof. intros Hf v Hv Hn. by rewrite (Hf v Hv Hn). Qed.

#[export] Instance puts_fails p pairs : Fails (puts (p :: pairs)).
Proof. destruct p as [k v]. apply (obind_fails (index_set k v) (puts pairs)). apply _. Qed.

#[export] Instance index_update_fails key f : Fails (index_update key f).
Proof. by intros []. Qed.

#[export] Instance put_typed_rows_fails rk vk rows : Fails (put_typed_rows rk vk rows).
Proof. unfold put_typed_rows. destruct (encodeTypedRows rows). apply _. Qed.

Lemma with_entry_fails name f v d :
  Fails f -> is_object v = false -> v <> JNull -> with_entry name f (obj_set name v d) = None.
Proof. intros Hf Hv Hn. unfold with_entry. by rewrite obj_find_set_eq, (Hf v Hv Hn). Qed.

Lemma with_delta_fails name seq f v d :
  is_object v = false -> v <> JNull -> with_delta name seq f (obj_set name v d) = None.
Proof.
  apply with_entry_fails. intros w Hw Hn. cbv zeta. destruct (f _) as [delta|]; [|done]. by apply index_set_fails.
Qed.

Lemma scalar_command op name d :
  op_command op = Some name -> name ∈ scalar_commands ->
  exists v, apply_op op d = Some (obj_set name v d) /\ is_object v = false /\ v <> JNull.
Proof.
  intros Hc Hs. apply (bool_decide_eq_true_2 _) in Hs.
  destruct op; cbn [op_command] in Hc; try done; apply (f_equal (default [])) in Hc; cbn [default from_option id] in Hc;
    subst name; try (vm_compute in Hs; discriminate Hs); (eexists; split; [reflexivity|done]).
Qed.

(** The setters of a widget named like a scalar command that was given. *)
Lemma setter_fails op name ks v d :
  op_fields op = Some (name, ks) -> is_object v = false -> v <> JNull -> apply_op op (obj_set name v d) = None.
Proof.
  intros Ef Hv Hn. destruct op; cbn [op_fields] in Ef; try done; injection Ef as -> _; cbn [apply_op];
    try (destruct c; cbn [set_string set_bool set_int set_strings set_ints set_pair set_span]);
    repeat match goal with o : option _ |- _ => destruct o end;
    first [by apply with_delta_fails|apply with_entry_fails; [apply _|done..]].
Qed.

(** The setters are total and keep the document well-typed: with arguments in the
    range of their C++ types, and widgets not named like a scalar dialog command, no
    setter of a history throws; the document is one JSON text can carry (members in
    order and unique, integers in range, doubles valid), and every member of its root
    that is not a scalar command is an object.  A widget named like a scalar command
    that was just given makes every setter throw. *)
Theorem setters_total_typed ops :
  forallb op_ok ops = true ->
  (forallb names_widget ops = true -> exists d, run_ops ops [] = Some d /\ wf_data d /\ objects d) /\
  (forall command op name ks, op_command command = Some name -> name ∈ scalar_commands ->
     op_fields op = Some (name, ks) -> run_ops (ops ++ [command; op]) [] = None).
Proof.
  intros Hok. split.
  - intros Hn. destruct (run_total ops [] Hn no_objects) as (d & Hrun & Hd). exists d. split_and!; [done| |done].
    by eapply run_wf.
  - intros command op name ks Hc Hs Hf. rewrite run_app. destruct (run_ops ops []) as [d|]; [|done]. cbn [obind run_ops].
    destruct (scalar_command _ _ d Hc Hs) as (v & -> & Hv & Hnull). cbn [obind]. by rewrite (setter_fails op name ks).
Qed.

Definition panel_history : list WidgetOp :=
  [OpString CLabel (str "title") (str "Select topics"); OpInts CSelectedRows (str "table") [0; 2];
   OpDouble (str "gain") (int_to_double 3); OpRequestAccept;
   OpTypedRows (str "table") [[mkItem (str "imu") (Some (VUInt 32 12))]; [mkItem (str "gps") None; mkItem (str "3 Hz") (Some (VDouble (int_to_double 3)))]];
   OpRowColor (str "table") 1 (str "#ff0000")].

Lemma setters_total_typed_witness :
  (exists d, run_ops panel_history [] = Some d /\ wf_data d /\ objects d) /\
  run_ops (panel_history ++ [OpRequestAccept; OpString CText (str "__request_accept") []]) [] = None.
Proof.
  pose proof (setters_total_typed panel_history ltac:(by_compute)) as [H1 H2]. split.
  - apply H1. by_compute.
  - refine (H2 OpRequestAccept (OpString CText (str "__request_accept") []) _ _ eq_refl _ eq_refl). by_compute.
Defined.

(** ** Round trip *)

Lemma forallb_app_inv {A} (p : A -> bool) l1 x l2 :
  forallb p (l1 ++ x :: l2) = true -> forallb p l1 = true /\ p x = true /\ forallb p l2 = true.
Proof. rewrite forallb_app. cbn. rewrite !andb_true_iff. tauto. Qed.

Lemma op_writes_keys op name ks w : op_fields op = Some (name, ks) -> w ∈ op_writes op -> w.1 ∈ ks.
Proof.
  intros Ef Hw. destruct op; cbn [op_fields] in Ef; try done; injection Ef as _ <-; cbn [op_writes] in Hw;
    repeat match goal with o : option _ |- _ => destruct o end; cbn [op_writes] in Hw;
    repeat (apply elem_of_cons in Hw as [->|Hw]; [repeat first [left; reflexivity|right]|]);
    by apply not_elem_of_nil in Hw.
Qed.

(** ** What accumulates: colours of rows, tooltips of cells *)

(** What is read of a map: its entries, each once; nothing before the first. *)
Definition reads_map {K} `{Countable K} (m : gmap K bytes) (seen : option (list (K * bytes))) : Prop :=
  match seen with
  | None => m = ∅
  | Some l => m <> ∅ /\ NoDup (map fst l) /\ forall k v, (k, v) ∈ l <-> m !! k = Some v
  end.

Section Accumulated.
Context {K} `{Countable K} (key : bytes) (key_text : K -> bytes) (key_ok : K -> Prop).
Context (assign : WidgetOp -> option (bytes * K * bytes)).
Context (decode : bytes * json -> option (K * bytes)).
Hypothesis Hassign : forall op n k v d, assign op = Some (n, k, v) ->
  apply_op op d = with_entry n (index_update key (into_object (key_text k) (JString v))) d.
Hypothesis Hother : forall op n ks, assign op = None -> op_fields op = Some (n, ks) -> key ∉ ks.
Hypothesis Hcommand : forall op n d d', op_command op = Some n -> apply_op op d = Some d' -> field (JObject d') n key = None.
Hypothesis Hok : forall op n k v, assign op = Some (n, k, v) -> op_ok op = true -> key_ok k.
Hypothesis Hdecode : forall k v, key_ok k -> decode (key_text k, JString v) = Some (k, v).

(** The entries of the widget [name] after one more setter: a key is set, or all are gone
    with the widget. *)
Definition record_entry (name : bytes) (m : gmap K bytes) (op : WidgetOp) : gmap K bytes :=
  match assign op with
  | Some (n, k, v) => if bytes_eqb n name then <[k := v]> m else m
  | None => if touches op name key then ∅ else m
  end.

Definition recorded_entries (name : bytes) (ops : list WidgetOp) : gmap K bytes := foldl (record_entry name) ∅ ops.

Definition entries_stored (m : gmap K bytes) (f : option json) : Prop :=
  (forall k v, m !! k = Some v -> key_ok k) /\
  match f with
  | None => m = ∅
  | Some (JObject fs) =>
    m <> ∅ /\ forall t v, obj_find t fs = Some v <-> exists k c, m !! k = Some c /\ t = key_text k /\ v = JString c
  | Some _ => False
  end.

Lemma key_text_inj k k' : key_ok k -> key_ok k' -> key_text k = key_text k' -> k = k'.
Proof. intros Hk Hk' E. pose proof (Hdecode k [] Hk) as H1. rewrite E, Hdecode in H1 by done. by injection H1. Qed.

Lemma stored_empty : entries_stored ∅ None.
Proof. split; [|done]. intros k v. by rewrite lookup_empty. Qed.

Lemma stored_insert m f k c :
  key_ok k -> entries_stored m f ->
  entries_stored (<[k := c]> m) (Some (into_object (key_text k) (JString c) (match f with Some v => v | None => JNull end))).
Proof.
  intros Hk [Hm Hf]. assert (forall k' v, <[k := c]> m !! k' = Some v -> key_ok k') as Hm'.
  { intros k' v. rewrite lookup_insert_Some. intros [[<- _]|[_ E]]; [done|by eapply Hm]. }
  split; [done|]. destruct f as [[| | | | | | |fs]|]; try done; cbn [into_object].
  - destruct Hf as [_ Hf]. split; [apply insert_non_empty|]. intros t v.
    destruct (decide (key_text k = t)) as [<-|Hne].
    + rewrite obj_find_set_eq. split; [intros [= <-]; exists k, c; by rewrite lookup_insert_eq|].
      intros (k' & c' & E & Ht & ->). rewrite (key_text_inj k k') in E; [|done|by eapply Hm'|done].
      rewrite lookup_insert_eq in E. by injection E as ->.
    + rewrite obj_find_set_ne, Hf by done. split; intros (k' & c' & E & -> & ->); exists k', c'; (split; [|done]);
        (rewrite lookup_insert_ne in * by congruence); done.
  - subst m. split; [apply insert_non_empty|]. intros t v. cbn [obj_find]. destruct (bytes_eqb (key_text k) t) eqn:E.
    + apply bytes_eqb_eq in E as <-. split; [intros [= <-]; exists k, c; by rewrite lookup_insert_eq|].
      intros (k' & c' & [[_ <-]|[_ ?%lookup_empty_Some]]%lookup_insert_Some & _ & ->); done.
    + apply bytes_eqb_neq in E. split; [done|].
      by intros (k' & c' & [[<- _]|[_ ?%lookup_empty_Some]]%lookup_insert_Some & -> & _).
Qed.

Lemma stored_step name m op d d' :
  op_ok op = true -> apply_op op d = Some d' -> entries_stored m (field (JObject d) name key) ->
  entries_stored (record_entry name m op) (field (JObject d') name key).
Proof.
  intros Hop Ha Hs. unfold record_entry. destruct (assign op) as [[[n k] v]|] eqn:E.
  - pose proof Ha as Ha'. rewrite (Hassign _ _ _ _ d E) in Ha'. destruct (bytes_eqb n name) eqn:En.
    + apply bytes_eqb_eq in En as ->. apply with_entry_field in Ha' as (e & e' & He & Hf' & Hf & _).
      unfold index_update in He. rewrite Hf', (index_set_find _ _ _ _ _ He), decide_True by done. rewrite Hf.
      apply stored_insert; [by eapply Hok|done].
    + apply bytes_eqb_neq in En. by rewrite (with_entry_frame _ _ [key] _ _ _ _ _ Ha').
  - destruct (touches op name key) eqn:Et; [|by rewrite (apply_frame _ _ _ _ _ Ha Et)].
    assert (field (JObject d') name key = None) as ->; [|apply stored_empty].
    unfold touches in Et. destruct (op_fields op) as [[n ks]|] eqn:Ef.
    + apply andb_prop in Et as [_ Et]. apply existsb_exists in Et as (k & Hk%list_elem_of_In & ->%bytes_eqb_eq).
      exfalso. by apply (Hother op n ks E Ef).
    + destruct (op_command op) as [n|] eqn:Ec.
      * apply bytes_eqb_eq in Et as ->. by eapply Hcommand.
      * destruct op; try done. cbn [apply_op] in Ha. injection Ha as <-. done.
Qed.

Lemma stored_run name ops : forall m d d',
  forallb op_ok ops = true -> run_ops ops d = Some d' -> entries_stored m (field (JObject d) name key) ->
  entries_stored (foldl (record_entry name) m ops) (field (JObject d') name key).
Proof.
  induction ops as [|op ops IH]; intros m d d'; cbn [forallb run_ops foldl]; [by intros _ [= <-]|].
  intros [Ho Hos]%andb_prop (d1 & H1 & H2)%obind_some Hs. eapply IH; [done..|]. by eapply stored_step.
Qed.

Lemma stored_read m fs :
  wf (JObject fs) = true -> entries_stored m (Some (JObject fs)) ->
  reads_map m (Some (omap decode (map (fun e => (e.1, wire e.2)) fs))).
Proof.
  intros Hwf (Hm & Hne & Hf).
  assert (forall e, e ∈ fs -> exists k c, m !! k = Some c /\ e = (key_text k, JString c) /\
            decode (e.1, wire e.2) = Some (k, c)) as He.
  { intros [t v] Hin. apply (wf_found _ _ _ Hwf), Hf in Hin as (k & c & E & -> & ->). exists k, c.
    split_and!; [done..|]. by apply Hdecode; eapply Hm. }
  split; [done|]. split.
  - assert (forall l, (forall e, e ∈ l -> e ∈ fs) ->
      map key_text (map fst (omap decode (map (fun e => (e.1, wire e.2)) l))) = map fst l) as Hl.
    { induction l as [|e l IH]; intros Hl; [done|]. cbn [map omap list_omap].
      destruct (He e ltac:(apply Hl; left)) as (k & c & _ & Ee & ->). cbn [map fst]. rewrite IH; [by rewrite Ee|].
      intros e' ?. apply Hl. by right. }
    apply (NoDup_fmap_1 key_text). change (key_text <$> ?l) with (map key_text l). rewrite Hl by done. by apply wf_keys.
  - intros k v. rewrite list_elem_of_omap. split.
    + intros (e' & (e & -> & Hin)%list_elem_of_fmap & Hd). destruct (He e Hin) as (k' & c' & E & _ & Hd').
      rewrite Hd' in Hd. by injection Hd as -> ->.
    + intros E. exists (key_text k, JString v). split; [|by apply Hdecode; eapply Hm].
      apply list_elem_of_fmap. exists (key_text k, JString v). split; [done|]. apply obj_find_in, Hf. by exists k, v.
Qed.

(** What the host reads of a history. *)
Lemma accumulated_read name ops d :
  forallb op_ok ops = true -> run_ops ops [] = Some d ->
  match field (wire (JObject d)) name key with
  | None => recorded_entries name ops = ∅
  | Some (JObject fs) => reads_map (recorded_entries name ops) (Some (omap decode fs))
  | Some _ => False
  end.
Proof.
  intros Ho Hr. pose proof (stored_run name ops ∅ [] d Ho Hr stored_empty) as Hs. fold (recorded_entries name ops) in Hs.
  assert (wf_data d) as Hwf by (by eapply run_wf). rewrite field_wire.
  destruct (field (JObject d) name key) as [v|] eqn:Ef; cbn [option_map]; [|apply Hs].
  destruct v as [| | | | | | |fs]; try (by destruct Hs). cbn [wire]. apply stored_read; [|done].
  rewrite field_find in Ef. destruct (jfind name (JObject d)) as [e|] eqn:Ee; [|done].
  exact (jfind_wf _ _ _ (jfind_wf _ _ _ Hwf Ee) Ef).
Qed.
End Accumulated.

Definition assign_color (op : WidgetOp) : option (bytes * Z * bytes) :=
  match op with OpRowColor name row color => Some (name, row, color) | _ => None end.

Definition assign_tooltip (op : WidgetOp) : option (bytes * (Z * Z) * bytes) :=
  match op with OpCellTooltip name row col tooltip => Some (name, (row, col), tooltip) | _ => None end.

(** The colours of the rows, and the tooltips of the cells, that a history has set last. *)
Definition row_colors (name : bytes) (ops : list WidgetOp) : gmap Z bytes :=
  recorded_entries (str "row_colors") assign_color name ops.

Definition cell_tooltips (name : bytes) (ops : list WidgetOp) : gmap (Z * Z) bytes :=
  recorded_entries (str "cell_tooltips") assign_tooltip name ops.

(** No other setter writes the field of the goal. *)
Ltac no_such_field :=
  let op := fresh in intros op; intros; destruct op; try done;
  lazymatch goal with H : op_fields _ = Some _ |- _ => cbn [op_fields] in H; injection H as _ <- end;
  repeat match goal with c : string_channel |- _ => destruct c | c : bool_channel |- _ => destruct c
    | c : int_channel |- _ => destruct c | c : strings_channel |- _ => destruct c | c : ints_channel |- _ => destruct c
    | c : pair_channel |- _ => destruct c | c : span_channel |- _ => destruct c end; by_compute.

Lemma command_fields key op n d d' :
  key <> str "ui" -> op_command op = Some n -> apply_op op d = Some d' -> field (JObject d') n key = None.
Proof.
  intros Hk Hc Ha. assert (bytes_eqb (str "ui") key = false) as E by (by apply bytes_eqb_neq, not_eq_sym).
  destruct op; try done; cbn [op_command] in Hc; injection Hc as <-; cbn [apply_op] in Ha; injection Ha as <-;
    rewrite field_find; cbn [jfind]; rewrite obj_find_set_eq; cbn [jfind jobject foldl obj_set obj_find fst snd]; by rewrite ?E.
Qed.

Lemma colors_read name ops d :
  forallb op_ok ops = true -> run_ops ops [] = Some d ->
  reads_map (row_colors name ops) (rowColors (wire (JObject d)) name).
Proof.
  intros Ho Hr. unfold rowColors.
  set (decode := fun e : bytes * json => match parseNumber 32 e.1, e.2 with Some row, JString color => Some (row, color) | _, _ => None end).
  pose proof (accumulated_read (str "row_colors") int_text (in_s 32) assign_color decode) as Hacc.
  specialize (Hacc ltac:(intros []; try done; by intros ???? [= <- <- <-])).
  specialize (Hacc ltac:(no_such_field)). specialize (Hacc ltac:(intros op n d0 d1; by apply command_fields)).
  specialize (Hacc ltac:(intros []; try done; intros ??? [= <- <- <-] E; by apply bool_decide_eq_true in E)).
  specialize (Hacc ltac:(intros k v Hk; unfold decode; cbn [fst snd]; by rewrite parseNumber_text)).
  specialize (Hacc name ops d Ho Hr). fold (row_colors name ops) in Hacc.
  destruct (field _ name _) as [[]|]; done.
Qed.

Definition cell_in_range (c : Z * Z) : Prop := in_s 32 c.1 /\ in_s 32 c.2.

Lemma comma_found row col : find_char (ch ",") (cell_key row col) = Some (length (int_text row)).
Proof.
  unfold cell_key. apply find_char_some. rewrite take_app_length. exists (int_text col). split_and!; [done..|].
  unfold int_text. assert (forall n : N, ch "," ∉ str (pretty n)) as Hn.
  { intros n Hin%list_elem_of_In. pose proof (proj1 (pretty_digits_only n)) as Hd. rewrite forallb_forall in Hd. by specialize (Hd _ Hin). }
  destruct row as [|p|p]; [apply (Hn 0%N)|apply (Hn (Npos p))|].
  change (pretty (Z.neg p)) with (String "-" (pretty (Npos p))). rewrite str_cons. apply not_elem_of_cons.
  split; [by_compute|apply Hn].
Qed.

Lemma tooltips_read name ops d :
  forallb op_ok ops = true -> run_ops ops [] = Some d ->
  reads_map (cell_tooltips name ops) (cellTooltips (wire (JObject d)) name).
Proof.
  intros Ho Hr. unfold cellTooltips. lazymatch goal with |- context [omap ?f _] => set (decode := f) end.
  pose proof (accumulated_read (str "cell_tooltips") (fun c => cell_key c.1 c.2) cell_in_range assign_tooltip decode) as Hacc.
  specialize (Hacc ltac:(intros []; try done; by intros ???? [= <- <- <-])).
  specialize (Hacc ltac:(no_such_field)). specialize (Hacc ltac:(intros op n d0 d1; by apply command_fields)).
  specialize (Hacc ltac:(intros []; try done; intros ??? [= <- <- <-] [E1%bool_decide_eq_true E2%bool_decide_eq_true]%andb_prop; done)).
  specialize (Hacc ltac:(intros [row col] v [H1 H2]; unfold decode; cbn [fst snd] in *; rewrite comma_found;
    unfold cell_key; rewrite take_app_length, drop_app_ge, Nat.sub_succ_l, Nat.sub_diag by lia; cbn [drop]; by rewrite ?drop_0, !parseNumber_text)).
  specialize (Hacc name ops d Ho Hr). fold (cell_tooltips name ops) in Hacc.
  destruct (field _ name _) as [[]|]; done.
Qed.

(** Setters that add to their field, and dialog commands. *)
Definition replaces (op : WidgetOp) : bool :=
  match op with
  | OpRowColor _ _ _ | OpCellTooltip _ _ _ _ | OpAppend _ _ _ | OpAppendTyped _ _ _ | OpUpdateCells _ _ _ | OpRemoveRows _ _ _
  | OpRequestAccept | OpSubDialog _ | OpSubPanel _ | OpCloseSubPanel | OpClose _ | OpClear => false
  | _ => true
  end.

(** C37 What a plugin sets is what the host shows, in any history of setters with arguments in the range of their C++
    types, from the text of the document.  Of a setter that replaces its fields, and that no later setter of the
    history touches, the host's accessors give back the arguments, whatever was set before it, elsewhere or in other fields
    of the widget ([reads_back]): strings, booleans, integers, lists, tables with their sort keys per column (up to
    2^31 columns), sort indicators, file pickers, sliders and timelines as they are; trees that are forests,
    with what a tree item shows; scenes and structured pickers that their decoders accept; a double that is not finite is
    absent, charts lose their non-finite points, and chart markers with a non-finite coordinate make the accessor throw.  Of the
    setters that accumulate, the host sees exactly the colours last set for each row and the tooltips last set for each cell since
    the widget was last cleared.  (The deltas of a table are the subject of [table_delta_refines].) *)
Theorem widget_roundtrip `{JsonText} ops d text :
  forallb op_ok ops = true -> run_ops ops [] = Some d -> toJson d = Some text ->
  (forall before op after name ks,
     ops = before ++ op :: after -> replaces op = true -> op_fields op = Some (name, ks) ->
     forallb (fun k => forallb (fun later => negb (touches later name k)) after) ks = true ->
     reads_back op (view text)) /\
  (forall name, reads_map (row_colors name ops) (rowColors (view text) name)) /\
  (forall name, reads_map (cell_tooltips name ops) (cellTooltips (view text) name)).
Proof.
  intros Hok Hrun Ht. rewrite (view_dump d) by (done || by eapply run_wf). split_and!.
  2:{ intros name. by apply colors_read. } 2:{ intros name. by apply tooltips_read. }
  intros before op after name ks -> _ Ef Hafter.
  apply forallb_app_inv in Hok as (_ & Hop & _). rewrite run_app in Hrun.
  apply obind_some in Hrun as (d1 & _ & (d2 & Ho & Ha)%obind_some).
  eapply holds_reads; [done..|]. apply (apply_holds _ _ _ _ _ Ef) in Ho.
  unfold holds in *. rewrite Forall_forall in Ho |- *. intros w Hw. rewrite <-(Ho w Hw). eapply run_frame; [done|].
  rewrite forallb_forall in Hafter. apply Hafter, list_elem_of_In. by eapply op_writes_keys.
Qed.

Definition topics : list TreeItem :=
  [mkTreeItem (str "imu") (str "root") [mkTreeCell (str "IMU") (Some (VInt 32 (-3))) [] (str "sensor")] true true TcChecked false;
   mkTreeItem (str "root") [] [] true false TcPartiallyChecked true].

Definition tree_history : list WidgetOp := [OpTreeItems (str "tree") []; OpClear].
Definition tree_later : list WidgetOp := [OpStrings CTreeExpanded (str "tree") [str "root"]; OpTreeItems (str "other") []].

Lemma topics_forest : forest topics.
Proof.
  unfold forest. split_and!; [apply (bool_decide_eq_true_1 _); vm_compute; reflexivity|repeat constructor; done|].
  intros [|[|i]] Hi; [| |cbn in Hi; lia].
  - exists 1%nat. eapply (depth_step _ _ _ _ 1%nat); [done|done|reflexivity|]. by eapply depth_root.
  - exists 0%nat. by eapply depth_root.
Qed.

Definition color_history : list WidgetOp :=
  [OpRowColor (str "table") 7 (str "#000000"); OpClear; OpRowColor (str "table") 2 (str "#00ff00");
   OpCellTooltip (str "table") 1 (-1) (str "tip"); OpRowColor (str "table") 2 (str "#ff0000"); OpRowColor (str "other") 3 (str "#0000ff")].

Lemma widget_roundtrip_witness :
  (exists d text, run_ops (tree_history ++ OpTreeItems (str "tree") topics :: tree_later) [] = Some d /\
     @toJson TreeText.tree_text d = Some text /\
     treeItems (@view TreeText.tree_text text) (str "tree") = Some (Val (Ok (map item_seen topics)))) /\
  (exists d text, run_ops color_history [] = Some d /\ @toJson TreeText.tree_text d = Some text /\
     row_colors (str "table") color_history = {[2 := str "#ff0000"]} /\
     reads_map (row_colors (str "table") color_history) (rowColors (@view TreeText.tree_text text) (str "table")) /\
     reads_map (cell_tooltips (str "table") color_history) (cellTooltips (@view TreeText.tree_text text) (str "table"))).
Proof.
  split.
  - eexists _, _. split; [vm_compute; reflexivity|]. split; [vm_compute; reflexivity|].
    refine (proj1 (@widget_roundtrip TreeText.tree_text (tree_history ++ OpTreeItems (str "tree") topics :: tree_later) _ _ _ eq_refl eq_refl)
              tree_history (OpTreeItems (str "tree") topics) tree_later (str "tree") [str "tree_items"] eq_refl eq_refl eq_refl _ topics_forest);
      by_compute.
  - eexists _, _. split; [vm_compute; reflexivity|]. split; [vm_compute; reflexivity|]. split; [by_compute|].
    destruct (@widget_roundtrip TreeText.tree_text color_history _ _ ltac:(by_compute) eq_refl eq_refl) as (_ & Hc & Ht). exact (conj (Hc _) (Ht _)).
Defined.

(** ** What the host rejects *)

(** The decoder of tree snapshots returns on every document, and accepts exactly the
    lists whose items decode one by one (ids non-empty and new, no item its own
    parent) and form a forest: every item reaches a root in finitely many steps, so
    dangling parents and parent cycles of any length are reported; and a file picker
    request is accepted only with distinct filter ids, non-empty patterns and a
    selected filter that exists. *)
Theorem host_accepts_valid v name :
  match field v name (str "tree_items") with
  | None => treeItems v name = None
  | Some l => exists decoded, treeItems v name = Some (Val decoded) /\
      forall items, decoded = Ok items <->
        exists encoded, l = JArray encoded /\ tree_item_list 0 [] encoded = Ok items /\ forest items
  end /\
  (forall o, filePickerOptions v name = Some (Ok o) -> picker_ok o).
Proof.
  split.
  - unfold treeItems. destruct (field _ _ _) as [j|]; [|done]. cbn [obind].
    destruct (snapshot_cases j) as (decoded & -> & Hd). by exists decoded.
  - unfold filePickerOptions. intros o (j & _ & [= Ho])%obind_some. by eapply picker_sound.
Qed.

Definition picker_document : json :=
  JObject [(str "open", JObject [(str "file_picker",
    picker_json (mkPicker OpenFiles (str "Open") [] [] [] [] [mkFilter (str "csv") (str "CSV") [str "*.csv"]] (str "csv") false))])].

Lemma host_accepts_valid_witness :
  exists o, filePickerOptions picker_document (str "open") = Some (Ok o) /\ picker_ok o.
Proof.
  eexists. split; [vm_compute; reflexivity|].
  apply (proj2 (host_accepts_valid picker_document (str "open"))). vm_compute. reflexivity.
Defined.
