(* ===== verification/TableBatch.v ===== *)
(** * TableBatch: the row operations of a table, batched by sequence number

    Setters with the same sequence number share one batch; another number starts a new
    one.  [Batch] is that contract without any document; [stored] relates it to the
    [table_delta] object the setters maintain, and the theorem of the file says that
    the host reads the batch from the text, or nothing when a row is negative. *)

From Stdlib Require Import Floats.SpecFloat.
From stdpp Require Import sets sorting.
From S2P Require Import Prelude Text Doubles Json WidgetData WidgetDataView TreeItems WidgetDocument WidgetRoundtrip WidgetProtocol.

(** ** The contract *)

Record Batch : Type := mkBatch {
  b_seq : Z; b_append : option (list (list TableItem)); b_update : option (list TableCellUpdate);
  b_remove : option (list Z) }.

Definition batch_for (seq : Z) (b : option Batch) : Batch :=
  match b with
  | Some b => if b_seq b =? seq then b else mkBatch seq None None None
  | None => mkBatch seq None None None
  end.

Definition text_item (s : bytes) : TableItem := mkItem s None.

Definition with_append (rows : list (list TableItem)) (b : Batch) : Batch :=
  mkBatch (b_seq b) (Some rows) (b_update b) (b_remove b).
Definition with_update (cells : list TableCellUpdate) (b : Batch) : Batch :=
  mkBatch (b_seq b) (b_append b) (Some cells) (b_remove b).
Definition with_remove (rows : list Z) (b : Batch) : Batch :=
  mkBatch (b_seq b) (b_append b) (b_update b) (Some rows).

(** What a setter does to the batch of widget [name]. *)
Definition batch_step (name : bytes) (op : WidgetOp) (b : option Batch) : option Batch :=
  match op with
  | OpAppend n seq rows =>
    if bytes_eqb n name then Some (with_append (map (map text_item) rows) (batch_for seq b)) else b
  | OpAppendTyped n seq rows => if bytes_eqb n name then Some (with_append rows (batch_for seq b)) else b
  | OpUpdateCells n seq cells => if bytes_eqb n name then Some (with_update cells (batch_for seq b)) else b
  | OpRemoveRows n seq rows => if bytes_eqb n name then Some (with_remove rows (batch_for seq b)) else b
  | OpClear => None
  | _ => b
  end.

Definition batch_of (name : bytes) (ops : list WidgetOp) : option Batch :=
  foldl (fun b op => batch_step name op b) None ops.

Definition update_seen (u : TableCellUpdate) : CellUpdate :=
  mkCellUpdateView (cu_row u) (cu_col u) (ti_text (cu_item u))
    (match ti_value (cu_item u) with Some v => widen v | None => None end).

Definition cell_in_table (u : TableCellUpdate) : bool := (0 <=? cu_row u) && (0 <=? cu_col u).

Definition rows_of (b : Batch) : list (list TableItem) := default [] (b_append b).

(** What the host may see of a batch: all of it, or nothing. *)
Definition host_sees (b : option Batch) (r : option TableDeltaView) : Prop :=
  match b with
  | None => r = None
  | Some b =>
    if forallb cell_in_table (default [] (b_update b)) && forallb (fun r => 0 <=? r) (default [] (b_remove b))
    then exists columns, columns_of (rows_of b) columns /\
           r = Some (mkDelta (b_seq b) (map (map ti_text) (rows_of b)) columns
                       (map update_seen (default [] (b_update b))) (normalize_rows (default [] (b_remove b))))
    else r = None
  end.

(** ** The stored object *)

Definition optional_columns (rows : list (list TableItem)) : option json :=
  let columns := (encodeTypedRows rows).2 in if bool_decide (columns = []) then None else Some (JObject columns).

Definition cells_ok (cells : list TableCellUpdate) : bool :=
  forallb (fun u => int_ok (cu_row u) && int_ok (cu_col u) && item_ok (cu_item u)) cells.

Definition batch_ok (b : Batch) : bool :=
  forallb (forallb item_ok) (rows_of b) && cells_ok (default [] (b_update b))
  && forallb int_ok (default [] (b_remove b)).

Record delta_of (b : Batch) (delta : json) : Prop := {
  d_ok : batch_ok b = true;
  d_seq : jfind (str "seq") delta = Some (JUInt (b_seq b));
  d_append : jfind (str "append") delta = option_map (fun rows => (encodeTypedRows rows).1) (b_append b);
  d_values : jfind (str "append_values") delta = match b_append b with Some rows => optional_columns rows | None => None end;
  d_update : jfind (str "update_cells") delta = option_map (fun cells => JArray (map cell_update_json cells)) (b_update b);
  d_remove : jfind (str "remove_rows") delta = option_map jints (b_remove b) }.

Definition stored (b : option Batch) (field : option json) : Prop :=
  match b, field with
  | None, None => True
  | Some b, Some delta => delta_of b delta
  | _, _ => False
  end.

Lemma fresh_delta_of seq b field :
  stored b field ->
  delta_of (batch_for seq b) (fresh_delta seq (match field with Some v => v | None => JNull end)).
Proof.
  intros Hs. assert (delta_of (mkBatch seq None None None) (JObject [(str "seq", JUInt seq)])) as Hnew by (by split).
  destruct b as [b|], field as [delta|]; try done. cbn in Hs.
  unfold fresh_delta, batch_for. rewrite (d_seq _ _ Hs). destruct (Z.eqb_spec (b_seq b) seq); [done|done].
Qed.

Lemma index_set_delta key v delta delta' k :
  index_set key v delta = Some delta' -> bytes_eqb k key = false -> jfind k delta' = jfind k delta.
Proof.
  intros H Hk%bytes_eqb_neq. rewrite (index_set_find _ _ _ _ _ H). by rewrite decide_False.
Qed.

Lemma typed_delta_of rows b delta delta' :
  forallb (forallb item_ok) rows = true ->
  delta_of b delta -> put_typed_rows (str "append") (str "append_values") rows delta = Some delta' ->
  delta_of (with_append rows b) delta'.
Proof.
  intros Hr [Hok H1 H2 H3 H4 H5] H. pose proof H as Hf. apply typed_rows_find in Hf as [Ha Hv]; [|by_compute].
  assert (forall k, bool_decide (k ∉ [str "append"; str "append_values"]) = true -> jfind k delta' = jfind k delta) as Hk.
  { intros k Hk%bool_decide_eq_true. by apply (put_typed_rows_changes _ _ _ _ _ _ H). }
  split; cbn [b_append b_update b_remove b_seq with_append]; try done; try (rewrite Hk by (vm_compute; reflexivity); done).
  unfold batch_ok in *. rewrite !andb_true_iff in Hok |- *. destruct Hok as [[_ ?] ?]. by repeat split.
Qed.

Lemma no_text_columns rows : (encodeTypedRows (map (map text_item) rows)).2 = [].
Proof.
  destruct (encodeTypedRows _).2 as [|e l] eqn:E; [done|].
  assert (e ∈ (encodeTypedRows (map (map text_item) rows)).2) as (c & Hc & _)%encoded_columns by (rewrite E; left).
  apply existsb_exists in Hc as (row & (r & <- & _)%in_map_iff & Hv). unfold cell_value in Hv.
  change (map text_item r) with (text_item <$> r) in Hv. rewrite list_lookup_fmap in Hv. by destruct (r !! c).
Qed.

Lemma text_typed_rows rows : (encodeTypedRows (map (map text_item) rows)).1 = text_rows rows.
Proof.
  unfold encodeTypedRows. cbn [fst]. f_equal. rewrite List.map_map. rewrite map_id_in; [done|].
  intros row. rewrite List.map_map. by apply map_id_in.
Qed.

Lemma text_items_ok rows : forallb (forallb item_ok) (map (map text_item) rows) = true.
Proof.
  apply forallb_forall. intros row (r & <- & _)%in_map_iff. apply forallb_forall. by intros i (s & <- & _)%in_map_iff.
Qed.

(** Plain rows are typed rows without keys. *)
Lemma text_delta_of rows b delta delta' :
  delta_of b delta ->
  (let* delta := index_set (str "append") (text_rows rows) delta in jerase (str "append_values") delta) = Some delta' ->
  delta_of (with_append (map (map text_item) rows) b) delta'.
Proof.
  intros Hd H. apply (typed_delta_of _ _ delta); [apply text_items_ok|done|]. unfold put_typed_rows.
  rewrite (surjective_pairing (encodeTypedRows _)), no_text_columns, text_typed_rows. exact H.
Qed.

Lemma update_delta_of cells b delta delta' :
  cells_ok cells = true -> delta_of b delta ->
  index_set (str "update_cells") (JArray (map cell_update_json cells)) delta = Some delta' ->
  delta_of (with_update cells b) delta'.
Proof.
  intros Hc [Hok H1 H2 H3 H4 H5] H. pose proof (fun k => index_set_delta _ _ _ _ k H) as Hk.
  split; cbn [b_append b_update b_remove b_seq with_update]; try (rewrite Hk by (vm_compute; reflexivity); done).
  - unfold batch_ok in *. rewrite !andb_true_iff in Hok |- *. destruct Hok as [[? _] ?]. by repeat split.
  - rewrite (index_set_find _ _ _ _ _ H). by rewrite decide_True.
Qed.

Lemma remove_delta_of rows b delta delta' :
  forallb int_ok rows = true -> delta_of b delta ->
  index_set (str "remove_rows") (jints rows) delta = Some delta' ->
  delta_of (with_remove rows b) delta'.
Proof.
  intros Hc [Hok H1 H2 H3 H4 H5] H. pose proof (fun k => index_set_delta _ _ _ _ k H) as Hk.
  split; cbn [b_append b_update b_remove b_seq with_remove]; try (rewrite Hk by (vm_compute; reflexivity); done).
  - unfold batch_ok in *. rewrite !andb_true_iff in Hok |- *. destruct Hok as [[? ?] _]. by repeat split.
  - rewrite (index_set_find _ _ _ _ _ H). by rewrite decide_True.
Qed.

Lemma with_delta_stored name seq f g b d d' :
  (forall delta delta', delta_of (batch_for seq b) delta -> f delta = Some delta' -> delta_of g delta') ->
  with_delta name seq f d = Some d' -> stored b (field (JObject d) name (str "table_delta")) ->
  stored (Some g) (field (JObject d') name (str "table_delta")).
Proof.
  intros Hf H Hs. unfold with_delta in H. apply with_entry_field in H as (e & e' & (delta & H1 & H2)%obind_some & Hk & He & _).
  rewrite Hk, (index_set_find _ _ _ _ _ H2), decide_True by done. cbn.
  eapply Hf; [|exact H1]. rewrite He. by apply fresh_delta_of.
Qed.

(** The setters that may change the delta of widget [name]. *)
Lemma touches_delta op name :
  touches op name (str "table_delta") = true -> op_command op <> Some name ->
  match op with
  | OpAppend n _ _ | OpAppendTyped n _ _ | OpUpdateCells n _ _ | OpRemoveRows n _ _ => n = name
  | OpClear => True
  | _ => False
  end.
Proof.
  intros Ht Hn. unfold touches in Ht. destruct (op_fields op) as [[n ks]|] eqn:Ef.
  - apply andb_prop in Ht as [Hname%bytes_eqb_eq Hk].
    destruct op; cbn [op_fields] in Ef; try done; injection Ef as -> <-; try done; exfalso;
      try (destruct c); vm_compute in Hk; discriminate Hk.
  - destruct op; cbn [op_fields op_command] in *; try done; apply bytes_eqb_eq in Ht; congruence.
Qed.

Lemma batch_step_stored name op b d d' :
  op_ok op = true -> op_command op <> Some name -> apply_op op d = Some d' ->
  stored b (field (JObject d) name (str "table_delta")) ->
  stored (batch_step name op b) (field (JObject d') name (str "table_delta")).
Proof.
  intros Hok Hn H Hs. destruct (touches op name (str "table_delta")) eqn:Et.
  - apply touches_delta in Et; [|done].
    destruct op; try done; subst; cbn [op_ok apply_op batch_step] in *; rewrite ?bytes_eqb_refl;
      try (eapply with_delta_stored; [|exact H|exact Hs]; intros delta delta' Hd Hf).
    + by eapply text_delta_of.
    + apply andb_prop in Hok as [_ Hok]. by eapply typed_delta_of.
    + apply andb_prop in Hok as [_ Hok]. by eapply update_delta_of.
    + apply andb_prop in Hok as [_ Hok]. by eapply remove_delta_of.
    + by injection H as <-.
  - rewrite (apply_frame _ _ _ _ _ H Et). unfold touches in Et.
    destruct op; cbn [batch_step op_fields] in *; try done; cbn in Et; rewrite andb_true_r in Et; by rewrite Et.
Qed.

(** ** Reading it back *)

Lemma mapM_guard {A B C} (f : B -> option C) (g : A -> B) (ok : A -> bool) (h : A -> C) l :
  (forall x, x ∈ l -> f (g x) = if ok x then Some (h x) else None) ->
  mapM f (map g l) = if forallb ok l then Some (map h l) else None.
Proof.
  induction l as [|x l IH]; intros Hl; [done|]. cbn [map forallb mapM]. rewrite Hl by left. destruct (ok x); [|done].
  cbn [andb]. change (f <$> []) with (@nil (option C)).
  rewrite IH by (intros y ?; apply Hl; by right). by destruct (forallb ok l).
Qed.

Definition delta_step (row_count : nat) (e : bytes * json) : option (Z * list (option NumericValue)) :=
  match parseNumber 32 e.1, e.2 with
  | Some col, JArray values =>
    if (col <? 0) || negb (length values =? row_count)%nat then None
    else option_map (pair col) (mapM delta_value values)
  | _, _ => None
  end.

Lemma delta_columns_fold row_count columns acc :
  Forall (fun e => is_Some (delta_step row_count e)) columns ->
  delta_columns row_count columns acc
  = Some (foldl (fun r e => match delta_step row_count e with Some (c, v) => emplace c v r | None => r end) acc columns).
Proof.
  intros H. revert acc. induction H as [|[k j] columns [[c v] He] Hc IH]; intros acc; [done|].
  cbn [delta_columns foldl]. rewrite He. unfold delta_step in He. cbn [fst snd] in He.
  destruct (parseNumber 32 k) as [col|]; [|done]. destruct j; try done. cbn [obind get_array].
  destruct (_ || _); [done|]. destruct (mapM delta_value l); [|done]. cbn [option_map obind] in *.
  simplify_eq. apply IH.
Qed.

Lemma delta_step_read rows c :
  in_s 32 (Z.of_nat c) ->
  delta_step (length rows) (int_text (Z.of_nat c), wire (column_keys rows c)) = Some (Z.of_nat c, column_seen rows c).
Proof.
  intros Hc. unfold delta_step, column_keys. cbn [fst snd]. rewrite parseNumber_text, wire_array_map by done.
  rewrite (proj2 (Z.ltb_ge _ _)) by lia. rewrite length_map, Nat.eqb_refl. cbn [orb negb].
  by rewrite keys_seen_strict.
Qed.

Lemma delta_values_read delta rows :
  forallb (forallb item_ok) rows = true -> Z.of_nat (max_cols rows) <= 2 ^ 31 ->
  jfind (str "append_values") delta = option_map wire (optional_columns rows) ->
  exists columns, columns_of rows columns /\ delta_append_values (length rows) delta = Some columns.
Proof.
  intros Hok Hmax Hj. unfold delta_append_values. rewrite Hj. unfold optional_columns. cbv zeta.
  case_bool_decide as He; [exists []; split; [by apply no_columns|done]|]. cbn [option_map wire].
  pose proof (columns_decode rows (delta_step (length rows)) Hmax (encoded_keys _ Hok) (delta_step_read rows)) as Hd.
  eexists. split; [exact Hd|]. rewrite delta_columns_fold.
  - rewrite emplace_fold; [done|]. by destruct Hd.
  - apply Forall_map, Forall_forall. intros e (c & Hc & ->)%encoded_columns. cbn [fst snd].
    rewrite delta_step_read; [done|]. apply has_keys_bound, elem_of_seq in Hc. unfold in_s. lia.
Qed.

Lemma delta_append_read delta rows :
  jfind (str "append") delta = option_map (fun rows => wire (encodeTypedRows rows).1) rows ->
  delta_append delta = Some (map (map ti_text) (default [] rows)).
Proof.
  intros Hj. unfold delta_append. rewrite Hj. destruct rows as [rows|]; [|done]. cbn [option_map default from_option id].
  unfold encodeTypedRows. cbn [fst]. rewrite text_rows_read. cbn [obind get_array].
  rewrite (mapM_map _ _ id); [by rewrite list_fmap_id|]. intros row _. apply strict_strings.
Qed.

Lemma cell_read u :
  int_ok (cu_row u) && int_ok (cu_col u) && item_ok (cu_item u) = true ->
  delta_cell (wire (cell_update_json u)) = if cell_in_table u then Some (update_seen u) else None.
Proof.
  rewrite !andb_true_iff. intros [[Hr%bool_decide_eq_true Hc%bool_decide_eq_true] _].
  destruct (get_int_wire _ Hr) as [Hr1 Hr2], (get_int_wire _ Hc) as [Hc1 Hc2].
  unfold cell_update_json, update_seen, cell_in_table. cbn [wire]. rewrite map_app. cbn [map app delta_cell].
  change (wire (JString (ti_text (cu_item u)))) with (JString (ti_text (cu_item u))). cbn [delta_cell]. rewrite Hr1, Hr2, Hc1, Hc2. cbn [negb orb].
  rewrite !Z.leb_antisym. destruct (cu_row u <? 0), (cu_col u <? 0); try done.
  cbn [orb andb negb]. destruct (ti_value _) as [v|]; [|done]. cbn [map]. by rewrite delta_value_wire.
Qed.

Lemma row_read z : int_ok z = true -> delta_row (wire (JInt z)) = if 0 <=? z then Some z else None.
Proof.
  intros Hz%bool_decide_eq_true. unfold delta_row. destruct (get_int_wire _ Hz) as [-> ->]. by destruct (0 <=? z).
Qed.

Lemma delta_cells_read delta cells :
  cells_ok (default [] cells) = true ->
  jfind (str "update_cells") delta = option_map (fun cells => wire (JArray (map cell_update_json cells))) cells ->
  delta_update_cells delta
  = if forallb cell_in_table (default [] cells) then Some (map update_seen (default [] cells)) else None.
Proof.
  intros Hok Hj. unfold delta_update_cells. rewrite Hj. destruct cells as [cells|]; [|done]. cbn [option_map default from_option id] in *.
  rewrite wire_array_map. cbn [obind get_array]. apply mapM_guard. intros u Hu%list_elem_of_In. apply cell_read.
  unfold cells_ok in Hok. rewrite forallb_forall in Hok. by apply Hok.
Qed.

Lemma delta_rows_read delta rows :
  forallb int_ok (default [] rows) = true ->
  jfind (str "remove_rows") delta = option_map (fun rows => wire (jints rows)) rows ->
  delta_remove_rows delta
  = if forallb (fun r => 0 <=? r) (default [] rows) then Some (normalize_rows (default [] rows)) else None.
Proof.
  intros Hok Hj. unfold delta_remove_rows. rewrite Hj. destruct rows as [rows|]; [|done]. cbn [option_map default from_option id] in *.
  unfold jints. rewrite wire_array_map. cbn [obind get_array].
  rewrite (mapM_guard _ _ (fun r => 0 <=? r) id).
  - rewrite map_id. by destruct (forallb (fun r => 0 <=? r) rows).
  - intros r Hr%list_elem_of_In. apply row_read. rewrite forallb_forall in Hok. by apply Hok.
Qed.

Lemma batch_read b d name :
  (forall c, b = Some c -> Z.of_nat (max_cols (rows_of c)) <= 2 ^ 31) ->
  stored b (field (JObject d) name (str "table_delta")) -> host_sees b (tableDelta (wire (JObject d)) name).
Proof.
  intros Hmax Hs. unfold tableDelta, tableDeltaSeq. rewrite field_wire. destruct (field _ _ _) as [delta|], b as [b|]; try done.
  cbn [option_map obind]. destruct Hs as [Hok H1 H2 H3 H4 H5]. specialize (Hmax b eq_refl).
  unfold batch_ok in Hok. rewrite !andb_true_iff in Hok. destruct Hok as [[Hr Hc] Hd].
  assert (forall k, jfind k (wire delta) = option_map wire (jfind k delta)) as Hw by (intros; apply jfind_wire).
  rewrite Hw, H1. cbn [option_map wire obind].
  rewrite (delta_append_read _ (b_append b)) by (rewrite Hw, H2; by destruct (b_append b)).
  cbn [obind]. rewrite length_map.
  assert (exists columns, columns_of (rows_of b) columns /\
    delta_append_values (length (default [] (b_append b))) (wire delta) = Some columns) as (columns & Hcols & ->).
  { apply (delta_values_read (wire delta) (rows_of b) Hr Hmax). rewrite Hw, H3. unfold rows_of. by destruct (b_append b). }
  cbn [obind host_sees].
  rewrite (delta_cells_read _ (b_update b)) by (done || (rewrite Hw, H4; by destruct (b_update b))).
  destruct (forallb cell_in_table _); [|done]. cbn [obind andb].
  rewrite (delta_rows_read _ (b_remove b)) by (done || (rewrite Hw, H5; by destruct (b_remove b))).
  destruct (forallb (fun r => 0 <=? r) (default [] (b_remove b))); [|done]. cbn [obind]. by exists columns.
Qed.

Lemma run_stored name ops b d d' :
  forallb op_ok ops = true -> Forall (fun op => op_command op <> Some name) ops -> run_ops ops d = Some d' ->
  stored b (field (JObject d) name (str "table_delta")) ->
  stored (foldl (fun b op => batch_step name op b) b ops) (field (JObject d') name (str "table_delta")).
Proof.
  revert b d. induction ops as [|op ops IH]; intros b d; cbn [forallb run_ops foldl]; [by intros _ _ [= <-]|].
  intros [Ho Hos]%andb_prop [Hn Hns]%Forall_cons (d1 & H1 & H2)%obind_some Hs.
  eapply IH; [done..|]. by eapply batch_step_stored.
Qed.

(** ** The order of removal *)

Lemma unique_cons a b l : unique (a :: b :: l) = if a =? b then unique (b :: l) else a :: unique (b :: l).
Proof. done. Qed.

Lemma unique_elem l x : x ∈ unique l <-> x ∈ l.
Proof.
  induction l as [|a [|b l] IH]; [done..|]. rewrite unique_cons. destruct (Z.eqb_spec a b) as [->|Hab].
  - rewrite IH, !(elem_of_cons _ _ b). tauto.
  - rewrite elem_of_cons, IH. by rewrite (elem_of_cons (b :: l)).
Qed.

Lemma unique_strict l : StronglySorted Z.ge l -> StronglySorted Z.gt (unique l).
Proof.
  induction l as [|a [|b l] IH]; intros Hs; [constructor|by repeat constructor|]. rewrite unique_cons.
  apply StronglySorted_inv in Hs as [Hs Hf]. destruct (Z.eqb_spec a b) as [->|Hab]; [by apply IH|].
  constructor; [by apply IH|]. apply Forall_forall. intros x Hx. rewrite unique_elem in Hx.
  apply StronglySorted_inv in Hs as [_ Hb]. apply Forall_cons in Hf as [Hge _].
  apply elem_of_cons in Hx as [->|Hx]; [lia|]. rewrite Forall_forall in Hb. specialize (Hb x Hx). lia.
Qed.

Lemma normalize_elem rows r : r ∈ normalize_rows rows <-> r ∈ rows.
Proof. unfold normalize_rows. by rewrite unique_elem, merge_sort_Permutation. Qed.

Lemma normalize_strict rows : StronglySorted Z.gt (normalize_rows rows).
Proof. apply unique_strict, StronglySorted_merge_sort; [intros x y z; lia|intros x y; lia]. Qed.

(** ** The contract holds *)

(** C38 For any history of setters, the [table_delta] the host reads from the text of
    the document is the batch of the widget: the operations of the last sequence number
    combined (each operation the last one given), appended rows with their sort keys
    per column, updated cells, and the removed rows strictly descending, so that
    removing them in that order shifts none of the others; a batch with a negative row
    or column is not read at all. *)
Theorem table_delta_refines `{JsonText} name ops d text :
  forallb op_ok ops = true -> Forall (fun op => op_command op <> Some name) ops ->
  (forall b, batch_of name ops = Some b -> Z.of_nat (max_cols (rows_of b)) <= 2 ^ 31) ->
  run_ops ops [] = Some d -> toJson d = Some text ->
  host_sees (batch_of name ops) (tableDelta (view text) name) /\
  (forall delta, tableDelta (view text) name = Some delta ->
     StronglySorted Z.gt (dv_remove_rows delta) /\
     forall r, r ∈ dv_remove_rows delta <-> exists b, batch_of name ops = Some b /\ r ∈ default [] (b_remove b)).
Proof.
  intros Hok Hn Hmax Hrun Ht. rewrite (view_dump d) by (done || by eapply run_wf).
  assert (host_sees (batch_of name ops) (tableDelta (wire (JObject d)) name)) as Hs.
  { apply batch_read; [done|]. by eapply run_stored. }
  split; [done|]. intros delta E. rewrite E in Hs. destruct (batch_of name ops) as [b|]; [|done]. cbn [host_sees] in Hs.
  destruct (_ && _); [|done]. destruct Hs as (columns & _ & [= ->]). cbn [dv_remove_rows].
  split; [apply normalize_strict|]. intros r. rewrite normalize_elem. naive_solver.
Qed.

Definition delta_history : list WidgetOp :=
  [OpRemoveRows (str "log") 3 [9];
   OpAppend (str "log") 4 [[str "a"; str "b"]];
   OpAppendTyped (str "log") 4 [[mkItem (str "x") (Some (VUInt 8 7)); mkItem (str "y") None]];
   OpString CLabel (str "log") (str "title");
   OpUpdateCells (str "log") 4 [mkCellUpdate 0 1 (mkItem (str "z") (Some (VInt 32 (-5))))];
   OpRemoveRows (str "log") 4 [2; 7; 2; 5]].

Lemma table_delta_refines_witness :
  exists d text, run_ops delta_history [] = Some d /\ @toJson TreeText.tree_text d = Some text /\
    host_sees (batch_of (str "log") delta_history) (tableDelta (@view TreeText.tree_text text) (str "log")) /\
    option_map dv_remove_rows (tableDelta (@view TreeText.tree_text text) (str "log")) = Some [7; 5; 2].
Proof.
  eexists _, _. split; [vm_compute; reflexivity|]. split; [vm_compute; reflexivity|]. split; [|vm_compute; reflexivity].
  refine (proj1 (@table_delta_refines TreeText.tree_text (str "log") delta_history _ _ _ _ _ eq_refl eq_refl)).
  - vm_compute. reflexivity.
  - repeat constructor; done.
  - intros b Hb. vm_compute in Hb. injection Hb as <-. by_compute.
Defined.
