(* ===== verification/WidgetEvents.v ===== *)
(** * WidgetEvents: what the user does, from the host to the plugin

    [pj_plugins/sdk/widget_event.hpp] (the accessors of an event document),
    [pj_plugins/host/widget_event_builder.hpp] (the documents a host sends) and the
    dispatch of [pj_plugins/sdk/dialog_plugin_typed.hpp] (which virtual method an
    event reaches).  A virtual method is a value of [Callback]; the default bodies
    that forward to another method are [forwarded]. *)

From Stdlib Require Import Floats.SpecFloat.
From stdpp Require Import sets.
From S2P Require Import Prelude Text Doubles Json WidgetData.
From S2P Require Import WidgetDataView.

(** ** File picker outcomes *)

Inductive FilePickerStatus : Type := PickSelected | PickCancelled | PickUnsupported | PickError.

Definition filePickerStatusWireValue (status : FilePickerStatus) : bytes :=
  match status with
  | PickSelected => str "selected"
  | PickCancelled => str "cancelled"
  | PickUnsupported => str "unsupported"
  | PickError => str "error"
  end.

Definition filePickerStatusFromWireValue (value : bytes) : option FilePickerStatus :=
  if bytes_eqb value (str "selected") then Some PickSelected
  else if bytes_eqb value (str "cancelled") then Some PickCancelled
  else if bytes_eqb value (str "unsupported") then Some PickUnsupported
  else if bytes_eqb value (str "error") then Some PickError
  else None.

Record FilePickerResult : Type := mkPickerResult {
  pr_status : FilePickerStatus; pr_mode : FilePickerMode; pr_paths : list bytes; pr_display_names : list bytes;
  pr_selected_filter_id : bytes; pr_error : bytes }.

Definition is_selected (status : FilePickerStatus) : bool := match status with PickSelected => true | _ => false end.

Definition is_directory (mode : FilePickerMode) : bool := match mode with SelectDirectory => true | _ => false end.

(** The key and path of the older event a valid selection also carries.  Every value of
    [FilePickerMode] has a wire spelling. *)
Definition filePickerLegacySelection (result : FilePickerResult) : option (bytes * bytes) :=
  if negb (is_selected (pr_status result)) then None
  else
    match pr_paths result with
    | [] => None
    | front :: _ =>
      if existsb (fun path => bool_decide (path = [])) (pr_paths result) then None
      else Some (if is_directory (pr_mode result) then str "folder_selected" else str "file_selected", front)
    end.

Record SceneViewError : Type := mkSceneError { se_kind : bytes; se_topic : bytes; se_dataset : bytes; se_reason : bytes }.

(** ** The accessors of an event

    The constructor is [view]: text that does not parse is an empty object. *)

Definition event_string (key : bytes) (j : json) : option bytes := let* m := jfind key j in get_string m.
Definition event_int (key : bytes) (j : json) : option Z := let* m := jfind key j in decodeInt m.
Definition event_bool (key : bytes) (j : json) : option bool := let* m := jfind key j in get_bool m.

Definition has (key : bytes) (j : json) : bool := is_set (jfind key j).

(** [raw().size()] *)
Definition size (j : json) : nat :=
  match j with JNull => 0 | JArray l => length l | JObject fs => length fs | _ => 1 end.

Definition text (j : json) : option bytes := event_string (str "text") j.
Definition currentIndex (j : json) : option Z := event_int (str "current_index") j.
Definition currentText (j : json) : option bytes := event_string (str "current_text") j.
Definition checked (j : json) : option bool := event_bool (str "checked") j.
Definition valueInt (j : json) : option Z := event_int (str "value") j.
Definition valueDouble (j : json) : option double := let* m := jfind (str "value") j in get_double m.

Definition selectedItems (j : json) : option (list bytes) :=
  let* m := jfind (str "selected_items") j in let* l := get_array m in Some (omap get_string l).

Definition clicked (j : json) : bool := match jfind (str "clicked") j with Some (JBool b) => b | _ => false end.
Definition fileSelected (j : json) : option bytes := event_string (str "file_selected") j.
Definition folderSelected (j : json) : option bytes := event_string (str "folder_selected") j.

(** A member that must be a string when it is there. *)
Definition string_or_empty (key : bytes) (j : json) : option bytes :=
  match jfind key j with None => Some [] | Some m => get_string m end.

Definition sceneViewError (j : json) : option SceneViewError :=
  let* m := jfind (str "scene_view_error") j in
  if negb (is_object m) then None
  else
    let* kind := string_or_empty (str "kind") m in
    let* topic := string_or_empty (str "topic") m in
    let* dataset := string_or_empty (str "dataset") m in
    let* reason := string_or_empty (str "reason") m in
    if bool_decide (reason = []) then None else Some (mkSceneError kind topic dataset reason).

Definition filePickerResult (j : json) : option FilePickerResult :=
  let* m := jfind (str "file_picker_result") j in
  if negb (is_object m) then None
  else
    let* status := (let* s := jfind (str "status") m in let* s := get_string s in filePickerStatusFromWireValue s) in
    let* mode := (let* s := jfind (str "mode") m in let* s := get_string s in filePickerModeFromWireValue s) in
    let* paths := (let* p := jfind (str "paths") m in decodeStrictStringArray p) in
    if existsb (fun path => bool_decide (path = [])) paths || (is_selected status && bool_decide (paths = []))
    then None
    else
      let* display_names :=
        match jfind (str "display_names") m with None => Some [] | Some d => decodeStrictStringArray d end in
      let* selected_filter_id := string_or_empty (str "selected_filter_id") m in
      let* error := string_or_empty (str "error") m in
      Some (mkPickerResult status mode paths display_names selected_filter_id error).

Definition tabIndex (j : json) : option Z := event_int (str "tab_index") j.
Definition stackedIndex (j : json) : option Z := event_int (str "stacked_index") j.
Definition stackedPage (j : json) : option bytes := event_string (str "stacked_page") j.

Definition nonempty_string (m : json) : option bytes :=
  let* s := get_string m in if bool_decide (s = []) then None else Some s.

Definition treeSelectionChanged (j : json) : option (list bytes) :=
  let* m := jfind (str "tree_selection_changed") j in let* l := get_array m in mapM nonempty_string l.

(** The column or row of an item: an [int] that is not negative. *)
Definition decode_index (m : json) : option Z := let* z := decodeInt m in if z <? 0 then None else Some z.

Definition treeItemActivated (j : json) : option (bytes * Z) :=
  let* m := jfind (str "tree_item_activated") j in
  let* id := (let* m := jfind (str "id") m in nonempty_string m) in
  let* column := (let* m := jfind (str "column") m in decode_index m) in
  Some (id, column).

Definition treeExpansionChanged (j : json) : option (bytes * bool) :=
  let* m := jfind (str "tree_expansion_changed") j in
  let* id := (let* m := jfind (str "id") m in nonempty_string m) in
  let* expanded := (let* m := jfind (str "expanded") m in get_bool m) in
  Some (id, expanded).

Definition treeCheckStateChanged (j : json) : option (bytes * TreeCheckState) :=
  let* m := jfind (str "tree_check_state_changed") j in
  let* id := (let* m := jfind (str "id") m in nonempty_string m) in
  let* state := (let* m := jfind (str "state") m in let* s := get_string m in treeCheckStateFromWireValue s) in
  Some (id, state).

Definition itemDoubleClickedIndex (j : json) : option Z := event_int (str "item_double_clicked_index") j.
Definition itemDeleteRequestedIndex (j : json) : option Z := event_int (str "item_delete_index") j.

Definition itemContextAction (j : json) : option (Z * bytes) :=
  let* m := jfind (str "item_context_action") j in
  let* action := (let* m := jfind (str "action") m in nonempty_string m) in
  let* index := (let* m := jfind (str "index") m in decode_index m) in
  Some (index, action).

Definition headerSection (j : json) : option Z := event_int (str "header_section") j.
Definition tableRadioRow (j : json) : option Z := event_int (str "table_radio_row") j.
Definition codeChanged (j : json) : option bytes := event_string (str "code_changed") j.

(** [get<int>] of any integer. *)
Definition loose_int (key : bytes) (j : json) : option Z :=
  let* m := jfind key j in if is_number_integer m then Some (get_int m) else None.

Definition codeCursor (j : json) : option Z := loose_int (str "code_cursor") j.

Definition itemsDropped (j : json) : option (list bytes) :=
  let* m := jfind (str "items_dropped") j in let* l := get_array m in Some (omap get_string l).

Definition data_source (m : json) : Z := match m with JUInt z => if z <=? 4294967295 then z else 0 | _ => 0 end.

Definition itemsDroppedDataSources (j : json) : list Z :=
  match jfind (str "items_dropped_data_sources") j with Some (JArray l) => map data_source l | _ => [] end.

Definition dateRangeChanged (j : json) : option (bytes * bytes) :=
  let* from := event_string (str "date_from_iso") j in
  let* to := event_string (str "date_to_iso") j in
  Some (from, to).

Definition dateTimeChanged (j : json) : option bytes := event_string (str "datetime_iso") j.

Definition rangeChanged (j : json) : option (Z * Z) :=
  let* lower := loose_int (str "range_lower") j in
  let* upper := loose_int (str "range_upper") j in
  Some (lower, upper).

Definition markerTimelineChanged (j : json) : thrown (option (list TimelineMark)) :=
  match jfind (str "marker_timeline_marks") j with
  | Some (JArray l) => lett marks := timelineMarksFromJson (JArray l) in Got (Some marks)
  | _ => Got None
  end.

Definition chartViewChanged (j : json) : option (double * double * double * double) :=
  let* x_min := (let* m := jfind (str "chart_x_min") j in get_double m) in
  let* x_max := (let* m := jfind (str "chart_x_max") j in get_double m) in
  let* y_min := (let* m := jfind (str "chart_y_min") j in get_double m) in
  let* y_max := (let* m := jfind (str "chart_y_max") j in get_double m) in
  Some (x_min, x_max, y_min, y_max).

(** ** The documents a host builds *)

Section Builder.
Context `{JsonText}.

(** [json j; j[k] = v; ... ; return j.dump();] *)
Definition event_text (pairs : members) : option bytes := let* j := puts pairs JNull in dump j.

Definition textChanged (text : bytes) := event_text [(str "text", JString text)].
Definition indexChanged (index : Z) := event_text [(str "current_index", JInt index)].
Definition indexChanged_text (index : Z) (current_text : bytes) :=
  event_text [(str "current_index", JInt index); (str "current_text", JString current_text)].
Definition toggled (checked : bool) := event_text [(str "checked", JBool checked)].
Definition valueChanged_int (value : Z) := event_text [(str "value", JInt value)].
Definition valueChanged_double (value : double) := event_text [(str "value", JFloat value)].
Definition selectionChanged (selected : list bytes) := event_text [(str "selected_items", jstrings selected)].
Definition build_clicked := event_text [(str "clicked", JBool true)].
Definition build_fileSelected (path : bytes) := event_text [(str "file_selected", JString path)].
Definition build_folderSelected (path : bytes) := event_text [(str "folder_selected", JString path)].

Definition picker_result_json (result : FilePickerResult) : json :=
  jobject [(str "status", JString (filePickerStatusWireValue (pr_status result)));
           (str "mode", JString (filePickerModeWireValue (pr_mode result)));
           (str "paths", jstrings (pr_paths result)); (str "display_names", jstrings (pr_display_names result));
           (str "selected_filter_id", JString (pr_selected_filter_id result)); (str "error", JString (pr_error result))].

Definition build_filePickerResult (result : FilePickerResult) :=
  event_text ((str "file_picker_result", picker_result_json result)
              :: match filePickerLegacySelection result with
                 | Some (key, path) => [(key, JString path)]
                 | None => []
                 end).

Definition scene_error_json (error : SceneViewError) : json :=
  jobject [(str "kind", JString (se_kind error)); (str "topic", JString (se_topic error));
           (str "dataset", JString (se_dataset error)); (str "reason", JString (se_reason error))].

Definition build_sceneViewError (error : SceneViewError) := event_text [(str "scene_view_error", scene_error_json error)].
Definition tabChanged (index : Z) := event_text [(str "tab_index", JInt index)].
Definition stackedPageChanged (index : Z) (page_object_name : bytes) :=
  event_text [(str "stacked_index", JInt index); (str "stacked_page", JString page_object_name)].
Definition build_treeSelectionChanged (ids : list bytes) := event_text [(str "tree_selection_changed", jstrings ids)].
Definition build_treeItemActivated (id : bytes) (column : Z) :=
  event_text [(str "tree_item_activated", jobject [(str "id", JString id); (str "column", JInt column)])].
Definition build_treeExpansionChanged (id : bytes) (expanded : bool) :=
  event_text [(str "tree_expansion_changed", jobject [(str "id", JString id); (str "expanded", JBool expanded)])].
Definition build_treeCheckStateChanged (id : bytes) (state : TreeCheckState) :=
  event_text [(str "tree_check_state_changed",
               jobject [(str "id", JString id); (str "state", JString (treeCheckStateWireValue state))])].
Definition itemDoubleClicked (index : Z) := event_text [(str "item_double_clicked_index", JInt index)].
Definition itemDeleteRequested (index : Z) := event_text [(str "item_delete_index", JInt index)].
Definition build_itemContextAction (index : Z) (action_id : bytes) :=
  event_text [(str "item_context_action", jobject [(str "index", JInt index); (str "action", JString action_id)])].
Definition headerClicked (section : Z) := event_text [(str "header_section", JInt section)].
Definition tableRadioSelected (row : Z) := event_text [(str "table_radio_row", JInt row)].
Definition build_codeChanged (code : bytes) (cursor : Z) :=
  event_text ((str "code_changed", JString code)
              :: if cursor >=? 0 then [(str "code_cursor", JInt cursor)] else []).
Definition build_itemsDropped (labels : list bytes) := event_text [(str "items_dropped", jstrings labels)].
Definition itemsDropped_sources (labels : list bytes) (data_source_ids : list Z) :=
  event_text [(str "items_dropped", jstrings labels);
              (str "items_dropped_data_sources", JArray (map JUInt data_source_ids))].
Definition build_dateRangeChanged (from_iso to_iso : bytes) :=
  event_text [(str "date_from_iso", JString from_iso); (str "date_to_iso", JString to_iso)].
Definition build_dateTimeChanged (iso8601 : bytes) := event_text [(str "datetime_iso", JString iso8601)].
Definition build_rangeChanged (lower upper : Z) :=
  event_text [(str "range_lower", JInt lower); (str "range_upper", JInt upper)].
Definition build_markerTimelineChanged (marks : list TimelineMark) :=
  event_text [(str "marker_timeline_marks", timelineMarksToJson marks)].
Definition build_chartViewChanged (x_min x_max y_min y_max : double) :=
  event_text [(str "chart_x_min", JFloat x_min); (str "chart_x_max", JFloat x_max);
              (str "chart_y_min", JFloat y_min); (str "chart_y_max", JFloat y_max)].

End Builder.

(** ** The virtual methods *)

Record DroppedItem : Type := mkDropped { di_name : bytes; di_data_source_id : Z }.

Inductive Callback : Type :=
  | onTextChanged (text : bytes)
  | onIndexChanged (index : Z)
  | onToggled (checked : bool)
  | onValueChanged_int (value : Z)
  | onValueChanged_double (value : double)
  | onSelectionChanged (selected : list bytes)
  | onClicked
  | onFileSelected (path : bytes)
  | onFolderSelected (path : bytes)
  | onTabChanged (index : Z)
  | onItemDoubleClicked (index : Z)
  | onItemDeleteRequested (index : Z)
  | onItemContextAction (index : Z) (action_id : bytes)
  | onHeaderClicked (section : Z)
  | onTableRadioSelected (row : Z)
  | onCodeChanged (code : bytes)
  | onCodeChangedWithCursor (code : bytes) (cursor : Z)
  | onItemsDropped (items : list bytes)
  | onDroppedItems (items : list DroppedItem)
  | onChartViewChanged (x_min x_max y_min y_max : double)
  | onRangeChanged (lower upper : Z)
  | onMarkerTimelineChanged (marks : list TimelineMark)
  | onDateRangeChanged (from_iso to_iso : bytes)
  | onDateTimeChanged (iso8601 : bytes)
  | onStackedPageChanged (index : Z) (page_object_name : bytes)
  | onTreeSelectionChanged (ids : list bytes)
  | onTreeItemActivated (id : bytes) (column : Z)
  | onTreeExpansionChanged (id : bytes) (expanded : bool)
  | onTreeCheckStateChanged (id : bytes) (state : TreeCheckState)
  | onFilePickerResult (result : FilePickerResult)
  | onSceneViewError (error : SceneViewError).

(** The default bodies that forward; the others return false. *)
Definition forwarded (cb : Callback) : option Callback :=
  match cb with
  | onCodeChangedWithCursor code _ => Some (onCodeChanged code)
  | onDroppedItems items => Some (onItemsDropped (map di_name items))
  | onFilePickerResult result =>
    match is_selected (pr_status result), pr_paths result with
    | true, front :: _ =>
      Some (if is_directory (pr_mode result) then onFolderSelected front else onFileSelected front)
    | _, _ => None
    end
  | _ => None
  end.

(** A plugin: the methods it overrides, over its own state. *)
Definition Plugin (S : Type) : Type := Callback -> option (S -> bool * S).

Definition call {S} (plugin : Plugin S) (cb : Callback) (s : S) : bool * S :=
  match plugin cb with
  | Some body => body s
  | None =>
    match forwarded cb with
    | Some cb' => match plugin cb' with Some body => body s | None => (false, s) end
    | None => (false, s)
    end
  end.

(** ** Dispatch *)

(** The structured picker result, with the key of the older event checked against it. *)
Definition dispatch_picker (j : json) : option Callback :=
  let* result := filePickerResult j in
  let has_file := has (str "file_selected") j in
  let has_folder := has (str "folder_selected") j in
  if is_selected (pr_status result) then
    let* (key, path) := filePickerLegacySelection result in
    if has_file && has_folder then None
    else if has_file || has_folder then
      let expects_folder := bytes_eqb key (str "folder_selected") in
      if negb (Bool.eqb has_folder expects_folder) then None
      else
        let* compatibility_path := (if expects_folder then folderSelected j else fileSelected j) in
        if bytes_eqb compatibility_path path then Some (onFilePickerResult result) else None
    else Some (onFilePickerResult result)
  else if has_file || has_folder then None
  else Some (onFilePickerResult result).

Definition count (b : bool) : nat := if b then 1 else 0.

(** The tree channels: exactly one, alone in the document; [None] when there is none. *)
Definition dispatch_tree (j : json) : option (option Callback) :=
  let has_tree_selection := has (str "tree_selection_changed") j in
  let has_tree_activation := has (str "tree_item_activated") j in
  let has_tree_expansion := has (str "tree_expansion_changed") j in
  let has_tree_check_state := has (str "tree_check_state_changed") j in
  let tree_channel_count :=
    (count has_tree_selection + count has_tree_activation + count has_tree_expansion + count has_tree_check_state)%nat in
  if (tree_channel_count =? 0)%nat then None
  else Some (
    if negb (tree_channel_count =? 1)%nat || negb (size j =? 1)%nat then None
    else if has_tree_selection then let* ids := treeSelectionChanged j in Some (onTreeSelectionChanged ids)
    else if has_tree_activation then
      let* (id, column) := treeItemActivated j in Some (onTreeItemActivated id column)
    else if has_tree_expansion then
      let* (id, expanded) := treeExpansionChanged j in Some (onTreeExpansionChanged id expanded)
    else let* (id, state) := treeCheckStateChanged j in Some (onTreeCheckStateChanged id state)).

Definition dispatch_stacked (j : json) : option Callback :=
  let* index := stackedIndex j in
  let* page := stackedPage j in
  if (index <? 0) || bool_decide (page = []) then None else Some (onStackedPageChanged index page).

(** The items with their data sources; a short list is filled with 0. *)
Definition dropped (names : list bytes) (data_sources : list Z) : list DroppedItem :=
  imap (fun index name => mkDropped name (match data_sources !! index with Some z => z | None => 0 end)) names.

(** The first accessor that answers. *)
Fixpoint first_of {A} (l : list (thrown (option A))) : thrown (option A) :=
  match l with
  | [] => Got None
  | m :: l' =>
    match m with
    | Got (Some a) => Got (Some a)
    | Got None => first_of l'
    | Throws => Throws
    | Undefined => Undefined
    end
  end.

Definition when_got {A B} (o : option A) (f : A -> B) : thrown (option B) := Got (option_map f o).

Definition legacy_channels (j : json) : list (thrown (option Callback)) :=
  [when_got (itemContextAction j) (fun v => onItemContextAction v.1 v.2);
   when_got (chartViewChanged j) (fun '(x_min, x_max, y_min, y_max) => onChartViewChanged x_min x_max y_min y_max);
   when_got (rangeChanged j) (fun v => onRangeChanged v.1 v.2);
   (lett marks := markerTimelineChanged j in when_got marks onMarkerTimelineChanged);
   when_got (dateRangeChanged j) (fun v => onDateRangeChanged v.1 v.2);
   when_got (dateTimeChanged j) onDateTimeChanged;
   when_got (itemsDropped j) (fun v => onDroppedItems (dropped v (itemsDroppedDataSources j)));
   when_got (codeChanged j) (fun v => onCodeChangedWithCursor v (default (-1) (codeCursor j)));
   when_got (text j) onTextChanged;
   when_got (currentIndex j) onIndexChanged;
   when_got (checked j) onToggled;
   when_got (fileSelected j) onFileSelected;
   when_got (folderSelected j) onFolderSelected;
   Got (if clicked j then Some onClicked else None);
   when_got (selectedItems j) onSelectionChanged;
   when_got (tabIndex j) onTabChanged;
   when_got (itemDoubleClickedIndex j) onItemDoubleClicked;
   when_got (itemDeleteRequestedIndex j) onItemDeleteRequested;
   when_got (headerSection j) onHeaderClicked;
   when_got (tableRadioRow j) onTableRadioSelected;
   when_got (valueInt j) onValueChanged_int;
   when_got (valueDouble j) onValueChanged_double].

(** The method an event reaches; [None] returns false. *)
Definition dispatch (j : json) : thrown (option Callback) :=
  if has (str "file_picker_result") j then Got (dispatch_picker j)
  else if has (str "scene_view_error") j then Got (option_map onSceneViewError (sceneViewError j))
  else
    match dispatch_tree j with
    | Some cb => Got cb
    | None =>
      if has (str "stacked_index") j || has (str "stacked_page") j then Got (dispatch_stacked j)
      else first_of (legacy_channels j)
    end.

(** [DialogPluginTyped::onWidgetEvent] *)
Definition onWidgetEvent `{JsonText} {S} (plugin : Plugin S) (event_json : bytes) (s : S) : thrown (bool * S) :=
  lett cb := dispatch (view event_json) in
  Got (match cb with Some cb => call plugin cb s | None => (false, s) end).
