(* ===== verification/EventRoundtrip.v ===== *)
(** * EventRoundtrip: every event reaches its method

    The theorem that a document the host builds is dispatched to the method of the
    event with the arguments it was built from - or to none when the event is one the
    dispatch rejects - and that the keys with validated payloads fail closed. *)

From Stdlib Require Import Floats.SpecFloat.
From stdpp Require Import sets.
From S2P Require Import Prelude Text Doubles Json WidgetData WidgetDataView WidgetDocument WidgetRoundtrip WidgetEvents.

(** ** Events *)

Inductive Event : Type :=
  | EvText (text : bytes)
  | EvIndex (index : Z)
  | EvIndexText (index : Z) (current_text : bytes)
  | EvToggled (checked : bool)
  | EvInt (value : Z)
  | EvDouble (value : double)
  | EvSelection (selected : list bytes)
  | EvClicked
  | EvFile (path : bytes)
  | EvFolder (path : bytes)
  | EvPicker (result : FilePickerResult)
  | EvSceneError (error : SceneViewError)
  | EvTab (index : Z)
  | EvStacked (index : Z) (page : bytes)
  | EvTreeSelection (ids : list bytes)
  | EvTreeActivated (id : bytes) (column : Z)
  | EvTreeExpansion (id : bytes) (expanded : bool)
  | EvTreeCheck (id : bytes) (state : TreeCheckState)
  | EvDoubleClicked (index : Z)
  | EvDelete (index : Z)
  | EvContext (index : Z) (action : bytes)
  | EvHeader (section : Z)
  | EvRadio (row : Z)
  | EvCode (code : bytes) (cursor : Z)
  | EvDropped (labels : list bytes)
  | EvDroppedSources (labels : list bytes) (ids : list Z)
  | EvDateRange (from to : bytes)
  | EvDateTime (iso : bytes)
  | EvRange (lower upper : Z)
  | EvMarks (marks : list TimelineMark)
  | EvView (x_min x_max y_min y_max : double).

Definition send `{JsonText} (e : Event) : option bytes :=
  match e with
  | EvText s => textChanged s
  | EvIndex i => indexChanged i
  | EvIndexText i s => indexChanged_text i s
  | EvToggled b => toggled b
  | EvInt z => valueChanged_int z
  | EvDouble f => valueChanged_double f
  | EvSelection l => selectionChanged l
  | EvClicked => build_clicked
  | EvFile p => build_fileSelected p
  | EvFolder p => build_folderSelected p
  | EvPicker r => build_filePickerResult r
  | EvSceneError err => build_sceneViewError err
  | EvTab i => tabChanged i
  | EvStacked i p => stackedPageChanged i p
  | EvTreeSelection ids => build_treeSelectionChanged ids
  | EvTreeActivated id c => build_treeItemActivated id c
  | EvTreeExpansion id b => build_treeExpansionChanged id b
  | EvTreeCheck id s => build_treeCheckStateChanged id s
  | EvDoubleClicked i => itemDoubleClicked i
  | EvDelete i => itemDeleteRequested i
  | EvContext i a => build_itemContextAction i a
  | EvHeader c => headerClicked c
  | EvRadio r => tableRadioSelected r
  | EvCode code cursor => build_codeChanged code cursor
  | EvDropped l => build_itemsDropped l
  | EvDroppedSources l ids => itemsDropped_sources l ids
  | EvDateRange a b => build_dateRangeChanged a b
  | EvDateTime a => build_dateTimeChanged a
  | EvRange a b => build_rangeChanged a b
  | EvMarks l => build_markerTimelineChanged l
  | EvView a b c d => build_chartViewChanged a b c d
  end.

(** Arguments in the range of their C++ types. *)
Definition event_ok (e : Event) : bool :=
  match e with
  | EvIndex i | EvIndexText i _ | EvInt i | EvTab i | EvStacked i _ | EvTreeActivated _ i | EvDoubleClicked i
  | EvDelete i | EvContext i _ | EvHeader i | EvRadio i | EvCode _ i => int_ok i
  | EvRange a b => int_ok a && int_ok b
  | EvDouble f => double_ok f
  | EvView a b c d => double_ok a && double_ok b && double_ok c && double_ok d
  | EvMarks l => forallb mark_ok l
  | EvDroppedSources _ ids => forallb (fun z => bool_decide (in_u 32 z)) ids
  | _ => true
  end.

Definition some_if {A} (b : bool) (a : A) : option A := if b then Some a else None.

Definition picker_result_ok (r : FilePickerResult) : bool :=
  forallb nonempty (pr_paths r) && negb (is_selected (pr_status r) && bool_decide (pr_paths r = [])).

(** The method an event should reach. *)
Definition expected (e : Event) : option Callback :=
  match e with
  | EvText s => Some (onTextChanged s)
  | EvIndex i | EvIndexText i _ => Some (onIndexChanged i)
  | EvToggled b => Some (onToggled b)
  | EvInt z => Some (onValueChanged_int z)
  | EvDouble f => some_if (is_finite f) (onValueChanged_double f)
  | EvSelection l => Some (onSelectionChanged l)
  | EvClicked => Some onClicked
  | EvFile p => Some (onFileSelected p)
  | EvFolder p => Some (onFolderSelected p)
  | EvPicker r => some_if (picker_result_ok r) (onFilePickerResult r)
  | EvSceneError err => some_if (nonempty (se_reason err)) (onSceneViewError err)
  | EvTab i => Some (onTabChanged i)
  | EvStacked i p => some_if ((0 <=? i) && nonempty p) (onStackedPageChanged i p)
  | EvTreeSelection ids => some_if (forallb nonempty ids) (onTreeSelectionChanged ids)
  | EvTreeActivated id c => some_if (nonempty id && (0 <=? c)) (onTreeItemActivated id c)
  | EvTreeExpansion id b => some_if (nonempty id) (onTreeExpansionChanged id b)
  | EvTreeCheck id s => some_if (nonempty id) (onTreeCheckStateChanged id s)
  | EvDoubleClicked i => Some (onItemDoubleClicked i)
  | EvDelete i => Some (onItemDeleteRequested i)
  | EvContext i a => some_if (nonempty a && (0 <=? i)) (onItemContextAction i a)
  | EvHeader c => Some (onHeaderClicked c)
  | EvRadio r => Some (onTableRadioSelected r)
  | EvCode code cursor => Some (onCodeChangedWithCursor code (if cursor >=? 0 then cursor else -1))
  | EvDropped l => Some (onDroppedItems (map (fun n => mkDropped n 0) l))
  | EvDroppedSources l ids => Some (onDroppedItems (dropped l ids))
  | EvDateRange a b => Some (onDateRangeChanged a b)
  | EvDateTime a => Some (onDateTimeChanged a)
  | EvRange a b => Some (onRangeChanged a b)
  | EvMarks l => Some (onMarkerTimelineChanged l)
  | EvView a b c d =>
    some_if (is_finite a && is_finite b && is_finite c && is_finite d) (onChartViewChanged a b c d)
  end.

(** ** Documents of known members *)

Lemma puts_object pairs fs : puts pairs (JObject fs) = Some (JObject (foldl (fun fs e => obj_set e.1 e.2 fs) fs pairs)).
Proof. revert fs. induction pairs as [|[k v] pairs IH]; intros fs; [done|]. cbn [puts index_set obind]. by rewrite IH. Qed.

Lemma event_text_spec `{JsonText} p pairs : event_text (p :: pairs) = dump (jobject (p :: pairs)).
Proof. destruct p as [k v]. unfold event_text. cbn [puts index_set obind]. by rewrite puts_object. Qed.

Lemma event_view `{JsonText} p pairs text :
  Forall (fun e => wf e.2 = true) (p :: pairs) -> event_text (p :: pairs) = Some text ->
  view text = wire (jobject (p :: pairs)).
Proof.
  rewrite event_text_spec. intros Hw Ht. unfold view. by rewrite (parse_dump _ _ (wf_jobject _ Hw) Ht).
Qed.

Definition absent (key : bytes) (pairs : members) : bool := negb (existsb (bytes_eqb key) (map fst pairs)).

Lemma absent_find key pairs :
  bool_decide (NoDup (map fst pairs)) = true -> absent key pairs = true -> jfind key (wire (jobject pairs)) = None.
Proof.
  intros Hn Ha. rewrite jfind_wire, jfind_jobject by done. clear Hn. unfold absent in Ha.
  induction pairs as [|[k v] pairs IH]; [done|]. cbn in *. rewrite negb_orb in Ha. apply andb_prop in Ha as [Hk Ha].
  assert (bytes_eqb k key = false) as -> by (apply bytes_eqb_neq; intros ->; by rewrite bytes_eqb_refl in Hk).
  by apply IH.
Qed.

(** ** The order of the channels *)

Definition claims : list bytes :=
  [str "file_picker_result"; str "scene_view_error"; str "tree_selection_changed"; str "tree_item_activated";
   str "tree_expansion_changed"; str "tree_check_state_changed"; str "stacked_index"; str "stacked_page"].

(** A key each of the older channels needs. *)
Definition channel_keys : list bytes :=
  [str "item_context_action"; str "chart_x_min"; str "range_lower"; str "marker_timeline_marks"; str "date_from_iso";
   str "datetime_iso"; str "items_dropped"; str "code_changed"; str "text"; str "current_index"; str "checked";
   str "file_selected"; str "folder_selected"; str "clicked"; str "selected_items"; str "tab_index";
   str "item_double_clicked_index"; str "item_delete_index"; str "header_section"; str "table_radio_row"; str "value";
   str "value"].

Lemma channels_need j :
  Forall2 (fun key channel => jfind key j = None -> channel = Got None) channel_keys (legacy_channels j).
Proof.
  unfold channel_keys, legacy_channels.
  repeat (apply Forall2_cons; split;
    [intros H; unfold itemContextAction, chartViewChanged, rangeChanged, loose_int, markerTimelineChanged, dateRangeChanged,
       dateTimeChanged, itemsDropped, codeChanged, text, currentIndex, checked, fileSelected, folderSelected, clicked,
       selectedItems, tabIndex, itemDoubleClickedIndex, itemDeleteRequestedIndex, headerSection, tableRadioRow, valueInt,
       valueDouble, event_string, event_int, event_bool; by rewrite H|]).
  constructor.
Qed.

Lemma first_of_drop {A} n (l : list (thrown (option A))) :
  Forall (fun m => m = Got None) (take n l) -> first_of l = first_of (drop n l).
Proof.
  revert n. induction l as [|m l IH]; intros [|n] H; try done. cbn [take drop] in *.
  apply Forall_cons in H as [-> H]. cbn [first_of]. by apply IH.
Qed.

Lemma unclaimed j : Forall (fun key => jfind key j = None) claims -> dispatch j = first_of (legacy_channels j).
Proof.
  unfold claims. rewrite !Forall_cons. intros (H1 & H2 & H3 & H4 & H5 & H6 & H7 & H8 & _).
  unfold dispatch, dispatch_tree, has. by rewrite H1, H2, H3, H4, H5, H6, H7, H8.
Qed.

(** A document without the claiming keys and the keys of the first [n] channels. *)
Lemma legacy_from n pairs :
  bool_decide (NoDup (map fst pairs)) && forallb (fun key => absent key pairs) (claims ++ take n channel_keys) = true ->
  dispatch (wire (jobject pairs)) = first_of (drop n (legacy_channels (wire (jobject pairs)))).
Proof.
  intros [Hn Ha]%andb_prop. rewrite forallb_app in Ha. apply andb_prop in Ha as [Hc Hk].
  rewrite forallb_forall in Hc, Hk. rewrite unclaimed.
  - apply first_of_drop. pose proof (channels_need (wire (jobject pairs))) as H.
    apply (Forall2_take _ _ _ n) in H. apply Forall_forall. intros m [i Hi]%list_elem_of_lookup.
    destruct (Forall2_lookup_r _ _ _ _ _ H Hi) as (key & Hkey & Hneed). apply Hneed, absent_find; [done|].
    apply Hk, list_elem_of_In. by eapply list_elem_of_lookup_2.
  - apply Forall_forall. intros key Hkey%list_elem_of_In. apply absent_find; [done|]. by apply Hc.
Qed.

(** ** The document of an event *)

Definition event_pairs (e : Event) : members :=
  match e with
  | EvText s => [(str "text", JString s)]
  | EvIndex i => [(str "current_index", JInt i)]
  | EvIndexText i s => [(str "current_index", JInt i); (str "current_text", JString s)]
  | EvToggled b => [(str "checked", JBool b)]
  | EvInt z => [(str "value", JInt z)]
  | EvDouble f => [(str "value", JFloat f)]
  | EvSelection l => [(str "selected_items", jstrings l)]
  | EvClicked => [(str "clicked", JBool true)]
  | EvFile p => [(str "file_selected", JString p)]
  | EvFolder p => [(str "folder_selected", JString p)]
  | EvPicker r =>
    (str "file_picker_result", picker_result_json r)
    :: match filePickerLegacySelection r with Some (key, path) => [(key, JString path)] | None => [] end
  | EvSceneError err => [(str "scene_view_error", scene_error_json err)]
  | EvTab i => [(str "tab_index", JInt i)]
  | EvStacked i p => [(str "stacked_index", JInt i); (str "stacked_page", JString p)]
  | EvTreeSelection ids => [(str "tree_selection_changed", jstrings ids)]
  | EvTreeActivated id c => [(str "tree_item_activated", jobject [(str "id", JString id); (str "column", JInt c)])]
  | EvTreeExpansion id b => [(str "tree_expansion_changed", jobject [(str "id", JString id); (str "expanded", JBool b)])]
  | EvTreeCheck id s =>
    [(str "tree_check_state_changed", jobject [(str "id", JString id); (str "state", JString (treeCheckStateWireValue s))])]
  | EvDoubleClicked i => [(str "item_double_clicked_index", JInt i)]
  | EvDelete i => [(str "item_delete_index", JInt i)]
  | EvContext i a => [(str "item_context_action", jobject [(str "index", JInt i); (str "action", JString a)])]
  | EvHeader c => [(str "header_section", JInt c)]
  | EvRadio r => [(str "table_radio_row", JInt r)]
  | EvCode code cursor => (str "code_changed", JString code) :: if cursor >=? 0 then [(str "code_cursor", JInt cursor)] else []
  | EvDropped l => [(str "items_dropped", jstrings l)]
  | EvDroppedSources l ids => [(str "items_dropped", jstrings l); (str "items_dropped_data_sources", JArray (map JUInt ids))]
  | EvDateRange a b => [(str "date_from_iso", JString a); (str "date_to_iso", JString b)]
  | EvDateTime a => [(str "datetime_iso", JString a)]
  | EvRange a b => [(str "range_lower", JInt a); (str "range_upper", JInt b)]
  | EvMarks l => [(str "marker_timeline_marks", timelineMarksToJson l)]
  | EvView a b c d =>
    [(str "chart_x_min", JFloat a); (str "chart_x_max", JFloat b); (str "chart_y_min", JFloat c); (str "chart_y_max", JFloat d)]
  end.

Lemma send_pairs `{JsonText} e : send e = event_text (event_pairs e).
Proof. by destruct e. Qed.

Lemma event_pairs_wf e : event_ok e = true -> Forall (fun p => wf p.2 = true) (event_pairs e).
Proof.
  intros H. destruct e; cbn [event_ok event_pairs] in *; rewrite ?andb_true_iff in H; destruct_and? H;
    repeat match goal with |- Forall _ (_ :: _) => apply Forall_cons; split; cbn [snd] end;
    try done; try (by apply int_wf); try apply wf_strings; try (apply wf_jobject; wf_members; (done || by apply int_wf)).
  - apply wf_jobject. wf_members; (done || apply wf_strings).
  - destruct (filePickerLegacySelection result) as [[key path]|]; by repeat constructor.
  - destruct (cursor >=? 0); repeat constructor. by apply int_wf.
  - apply (array_map_wf JUInt (fun z => bool_decide (in_u 32 z))); [|done]. intros z Hz%bool_decide_eq_true.
    cbn. apply bool_decide_eq_true. unfold in_u in *. lia.
  - eapply array_map_wf; [|exact H]. intros m Hm. unfold mark_ok in Hm. rewrite !andb_true_iff in Hm.
    destruct Hm as [[? ?] ?]. apply wf_jobject. wf_members; (done || by apply int_wf).
Qed.

Lemma obj_find_nil key : obj_find key [] = None.
Proof. done. Qed.

Lemma int_member z : int_ok z = true -> decodeInt (wire (JInt z)) = Some z.
Proof. intros Hz%bool_decide_eq_true. by apply decode_int. Qed.

Lemma index_member z : int_ok z = true -> decode_index (wire (JInt z)) = some_if (0 <=? z) z.
Proof.
  intros Hz. unfold decode_index. rewrite int_member by done. cbn [obind]. rewrite Z.leb_antisym. by destruct (z <? 0).
Qed.

Lemma loose_member z : int_ok z = true -> is_number_integer (wire (JInt z)) = true /\ get_int (wire (JInt z)) = z.
Proof. intros Hz%bool_decide_eq_true. by apply get_int_wire. Qed.

Lemma nonempty_member s : nonempty_string (wire (JString s)) = some_if (nonempty s) s.
Proof. unfold nonempty_string, nonempty. cbn. by case_bool_decide. Qed.

Lemma strings_member l : obind (get_array (wire (jstrings l))) (fun l => Some (omap get_string l)) = Some l.
Proof. rewrite wire_strings. cbn. by rewrite omap_strings. Qed.

Lemma ids_member l : obind (get_array (wire (jstrings l))) (mapM nonempty_string) = some_if (forallb nonempty l) l.
Proof.
  rewrite wire_strings. cbn [obind get_array jstrings].
  induction l as [|s l IH]; [done|]. cbn [map forallb mapM].
  change (nonempty_string (JString s)) with (nonempty_string (wire (JString s))). rewrite nonempty_member.
  destruct (nonempty s); [|done]. cbn [some_if andb mbind option_bind].
  revert IH. destruct (mapM nonempty_string (map JString l)) as [l'|], (forallb nonempty l); try done. by intros [= ->].
Qed.

Lemma double_member f : get_double (wire (JFloat f)) = some_if (is_finite f) f.
Proof. cbn. by destruct (is_finite f). Qed.

Lemma float_not_int f : decodeInt (wire (JFloat f)) = None.
Proof. cbn. by destruct (is_finite f). Qed.

Lemma sources_member l :
  forallb (fun z => bool_decide (in_u 32 z)) l = true ->
  match Some (wire (JArray (map JUInt l))) with Some (JArray l) => map data_source l | _ => [] end = l.
Proof.
  intros Hl. rewrite wire_array_map. induction l as [|z l IH]; [done|]. cbn [map forallb] in *.
  apply andb_prop in Hl as [Hz%bool_decide_eq_true Hl]. f_equal; [|by apply IH]. cbn. unfold in_u in Hz.
  rewrite (proj2 (Z.leb_le z 4294967295)) by lia. done.
Qed.

Lemma marks_member l :
  forallb mark_ok l = true ->
  match Some (wire (timelineMarksToJson l)) with
  | Some (JArray l) => lett marks := timelineMarksFromJson (JArray l) in Got (Some marks)
  | _ => Got None
  end = Got (Some l).
Proof.
  intros Hl. unfold timelineMarksToJson, timelineMarksFromJson. rewrite wire_array_map.
  rewrite (mapT_map _ _ id); [by rewrite map_id|]. intros m Hm%list_elem_of_In. apply timeline_read.
  rewrite forallb_forall in Hl. by apply Hl.
Qed.

Lemma string_member s : get_string (wire (JString s)) = Some s.
Proof. done. Qed.

Lemma bool_member b : get_bool (wire (JBool b)) = Some b.
Proof. done. Qed.

Lemma first_of_head {A} (m : thrown (option A)) l a : m = Got (Some a) -> first_of (m :: l) = Got (Some a).
Proof. by intros ->. Qed.

Lemma first_of_skip {A} (m : thrown (option A)) l : m = Got None -> first_of (m :: l) = first_of l.
Proof. by intros ->. Qed.

Lemma rest_absent n pairs :
  bool_decide (NoDup (map fst pairs)) && forallb (fun key => absent key pairs) (drop n channel_keys) = true ->
  first_of (drop n (legacy_channels (wire (jobject pairs)))) = Got None.
Proof.
  intros [Hn Hk]%andb_prop. rewrite forallb_forall in Hk.
  pose proof (channels_need (wire (jobject pairs))) as H. apply (Forall2_drop _ _ _ n) in H.
  assert (Forall (fun m => m = Got None) (drop n (legacy_channels (wire (jobject pairs))))) as Hall.
  { apply Forall_forall. intros m [i Hi]%list_elem_of_lookup.
    destruct (Forall2_lookup_r _ _ _ _ _ H Hi) as (key & Hkey & Hneed). apply Hneed, absent_find; [done|].
    apply Hk, list_elem_of_In. by eapply list_elem_of_lookup_2. }
  clear H Hk. induction Hall as [|m l -> Hl IH]; [done|]. exact IH.
Qed.

(** Read a member of the document. *)
Ltac look :=
  rewrite ?jvalue_wire, ?jfind_wire;
  rewrite ?jfind_jobject by (vm_compute; reflexivity);
  repeat first [rewrite obj_find_hit by (vm_compute; reflexivity)
               |rewrite obj_find_miss by (vm_compute; reflexivity)
               |rewrite obj_find_nil];
  cbn [option_map obind].

(** Skip the channels before the [n]th and unfold its accessor. *)
Ltac from_channel n :=
  cbn [event_pairs expected]; rewrite (legacy_from n) by (vm_compute; reflexivity);
  match goal with |- context [drop n (legacy_channels ?j)] => set (doc := j) end;
  cbn [drop legacy_channels].

Ltac accessor :=
  match goal with doc := _ |- _ => subst doc end;
  unfold text, currentIndex, checked, fileSelected, folderSelected, clicked, selectedItems, tabIndex,
    itemDoubleClickedIndex, itemDeleteRequestedIndex, headerSection, tableRadioRow, valueInt, valueDouble, dateTimeChanged,
    dateRangeChanged, rangeChanged, codeChanged, codeCursor, itemsDropped, itemsDroppedDataSources,
    itemContextAction, chartViewChanged, markerTimelineChanged, event_string, event_int, event_bool, loose_int;
  look; rewrite ?string_member, ?bool_member.

Ltac channel n := from_channel n; apply first_of_head; accessor.

Lemma dropped_unknown l : dropped l [] = map (fun n => mkDropped n 0) l.
Proof.
  unfold dropped. rewrite (imap_ext _ (fun _ n => mkDropped n 0)); [apply imap_const|]. by intros i n _.
Qed.

(** The events of the older channels.  Without numbers and lists they compute. *)
Lemma legacy_events e :
  event_ok e = true ->
  match e with
  | EvPicker _ | EvSceneError _ | EvStacked _ _ | EvTreeSelection _ | EvTreeActivated _ _ | EvTreeExpansion _ _
  | EvTreeCheck _ _ => False
  | _ => True
  end ->
  dispatch (wire (jobject (event_pairs e))) = Got (expected e).
Proof.
  intros Hok Hl. destruct e; try done; cbn [event_ok] in Hok; rewrite ?andb_true_iff in Hok; destruct_and? Hok.
  - channel 9%nat. by rewrite int_member.
  - channel 9%nat. by rewrite int_member.
  - channel 20%nat. by rewrite int_member.
  - from_channel 20%nat. rewrite first_of_skip by (accessor; by rewrite float_not_int).
    accessor. rewrite double_member. by destruct (is_finite value).
  - channel 14%nat. by rewrite strings_member.
  - channel 15%nat. by rewrite int_member.
  - channel 16%nat. by rewrite int_member.
  - channel 17%nat. by rewrite int_member.
  - from_channel 0%nat. assert (itemContextAction doc = some_if (nonempty action && (0 <=? index)) (index, action)) as E.
    { accessor. look. rewrite nonempty_member. destruct (nonempty action); cbn [obind some_if andb]; [|done].
      look. rewrite index_member by done. by destruct (0 <=? index). }
    rewrite E. destruct (_ && _); [done|]. rewrite first_of_skip by done. apply (rest_absent 1). by vm_compute.
  - channel 18%nat. by rewrite int_member.
  - channel 19%nat. by rewrite int_member.
  - cbn [event_pairs]. destruct (cursor >=? 0) eqn:E.
    + channel 7%nat. destruct (loose_member _ Hok) as [-> ->]. cbn. by rewrite E.
    + channel 7%nat. cbn. by rewrite E.
  - channel 6%nat. rewrite strings_member. unfold when_got. cbn [option_map]. by rewrite dropped_unknown.
  - channel 6%nat. rewrite strings_member, sources_member by done. done.
  - channel 2%nat. destruct (loose_member lower) as [-> ->]; [done|]. cbn [obind]. look. by destruct (loose_member upper) as [-> ->].
  - channel 3%nat. by rewrite marks_member.
  - from_channel 1%nat.
    assert (chartViewChanged doc = some_if (is_finite x_min && is_finite x_max && is_finite y_min && is_finite y_max) (x_min, x_max, y_min, y_max)) as E.
    { accessor. rewrite !double_member. by destruct (is_finite x_min), (is_finite x_max), (is_finite y_min), (is_finite y_max). }
    rewrite E. destruct (_ && _); [done|]. rewrite first_of_skip by done. apply (rest_absent 2). by vm_compute.
Qed.

(** *** Validated payloads *)

Lemma status_read s : filePickerStatusFromWireValue (filePickerStatusWireValue s) = Some s.
Proof. by destruct s. Qed.

Lemma existsb_empty l : existsb (fun path : bytes => bool_decide (path = [])) l = negb (forallb nonempty l).
Proof. induction l as [|s l IH]; [done|]. cbn [existsb forallb]. unfold nonempty at 1. rewrite IH. by case_bool_decide. Qed.

Lemma picker_result_read key rest r :
  bool_decide (NoDup (map fst ((str "file_picker_result", picker_result_json r) :: rest))) = true ->
  key = str "file_picker_result" ->
  filePickerResult (wire (jobject ((key, picker_result_json r) :: rest))) = some_if (picker_result_ok r) r.
Proof.
  intros Hn ->. unfold filePickerResult. rewrite jfind_wire, jfind_jobject, obj_find_hit by (done || by vm_compute).
  cbn [option_map obind]. rewrite is_object_wire. unfold picker_result_json, string_or_empty. cbn [is_object jobject negb]. look.
  rewrite !string_member. cbn [obind]. rewrite status_read, mode_read, !wire_strings, !strict_strings. cbn [obind].
  unfold picker_result_ok. rewrite existsb_empty.
  destruct (forallb nonempty (pr_paths r)), (is_selected (pr_status r) && bool_decide (pr_paths r = [])); cbn [orb negb andb some_if obind]; try done.
  by destruct r.
Qed.

Lemma scene_error_read err :
  sceneViewError (wire (jobject [(str "scene_view_error", scene_error_json err)])) = some_if (nonempty (se_reason err)) err.
Proof.
  unfold sceneViewError. look. rewrite is_object_wire. unfold scene_error_json, string_or_empty. cbn [is_object jobject negb]. look.
  rewrite !string_member. cbn [obind]. unfold nonempty. case_bool_decide; [done|]. by destruct err.
Qed.

(** The older key of a picker result: present exactly for a valid selection, and the
    path the dispatch compares it with. *)
Lemma legacy_selection_ok r :
  picker_result_ok r = true ->
  filePickerLegacySelection r =
    if is_selected (pr_status r) then
      match pr_paths r with
      | [] => None
      | front :: _ => Some (if is_directory (pr_mode r) then str "folder_selected" else str "file_selected", front)
      end
    else None.
Proof.
  unfold picker_result_ok, filePickerLegacySelection. intros [Hn _]%andb_prop.
  destruct (is_selected _); [|done]. cbn [negb]. destruct (pr_paths r) as [|p ps] eqn:E; [done|].
  by rewrite existsb_empty, Hn.
Qed.

Lemma legacy_selection_bad r : picker_result_ok r = false -> filePickerLegacySelection r = None.
Proof.
  unfold picker_result_ok, filePickerLegacySelection. destruct (is_selected _); [|done].
  cbn [negb]. destruct (pr_paths r) as [|p ps] eqn:E; [done|]. rewrite existsb_empty.
  rewrite andb_false_iff. intros [->|H]; [done|]. by rewrite bool_decide_eq_false_2 in H.
Qed.

Lemma dispatch_picker_sent r :
  dispatch_picker (wire (jobject (event_pairs (EvPicker r)))) = some_if (picker_result_ok r) (onFilePickerResult r).
Proof.
  cbn [event_pairs]. unfold dispatch_picker. destruct (picker_result_ok r) eqn:Eok.
  - rewrite legacy_selection_ok by done. destruct (is_selected (pr_status r)) eqn:Es; [|].
    + destruct (pr_paths r) as [|p ps] eqn:Ep.
      { exfalso. unfold picker_result_ok in Eok. rewrite Es, Ep in Eok. by vm_compute in Eok. }
      destruct (is_directory (pr_mode r)) eqn:Ed;
        (rewrite picker_result_read by (done || by vm_compute); rewrite Eok; cbn [some_if obind]; rewrite Es;
         rewrite legacy_selection_ok, Es, Ep, Ed by done; cbn [obind]; unfold has, folderSelected, fileSelected, event_string;
         look; cbn [is_set andb orb]; rewrite ?string_member; cbn [obind]).
      * change (bytes_eqb (str "folder_selected") (str "folder_selected")) with true. cbn [Bool.eqb negb]. cbn [obind].
        by rewrite bytes_eqb_refl.
      * change (bytes_eqb (str "file_selected") (str "folder_selected")) with false. cbn [Bool.eqb negb]. cbn [obind].
        by rewrite bytes_eqb_refl.
    + rewrite picker_result_read by (done || by vm_compute). rewrite Eok. cbn [some_if obind]. rewrite Es.
      unfold has. look. done.
  - rewrite legacy_selection_bad by done. rewrite picker_result_read by (done || by vm_compute). by rewrite Eok.
Qed.

(** Every event the host builds is dispatched as it should be. *)
Lemma dispatch_sent e :
  event_ok e = true -> dispatch (wire (jobject (event_pairs e))) = Got (expected e).
Proof.
  intros Hok. destruct e; try (by apply legacy_events).
  - unfold dispatch. rewrite dispatch_picker_sent. cbn [event_pairs]. unfold has. rewrite jfind_wire.
    destruct (filePickerLegacySelection result) as [[key path]|] eqn:E.
    + assert (key = str "folder_selected" \/ key = str "file_selected") as Hk.
      { unfold filePickerLegacySelection in E. destruct (is_selected _); [|done]. cbn [negb] in E.
        destruct (pr_paths result); [done|]. destruct (existsb _ _); [done|]. destruct (is_directory _); naive_solver. }
      destruct Hk as [->| ->]; by look.
    + by look.
  - unfold dispatch. cbn [event_pairs expected]. rewrite scene_error_read. unfold has. look. cbn [is_set].
    by destruct (nonempty _).
  - cbn [event_ok event_pairs expected] in *. unfold dispatch, dispatch_tree, has, dispatch_stacked, stackedIndex, stackedPage, event_int, event_string.
    look. cbn [is_set count Nat.add Nat.eqb orb]. rewrite int_member, string_member by done. cbn [obind].
    rewrite Z.leb_antisym. unfold nonempty. destruct (index <? 0); [done|]. by case_bool_decide.
  - cbn [event_pairs expected]. unfold dispatch, dispatch_tree, has, treeSelectionChanged.
    look. cbn [is_set count Nat.add Nat.eqb orb negb]. rewrite ids_member. by destruct (forallb nonempty ids).
  - cbn [event_ok event_pairs expected] in *. unfold dispatch, dispatch_tree, has, treeItemActivated.
    look. cbn [is_set count Nat.add Nat.eqb orb negb]. look. rewrite nonempty_member, index_member by done. 
    destruct (nonempty id), (0 <=? column); done.
  - cbn [event_pairs expected]. unfold dispatch, dispatch_tree, has, treeExpansionChanged.
    look. cbn [is_set count Nat.add Nat.eqb orb negb]. look. rewrite nonempty_member. by destruct (nonempty id).
  - cbn [event_pairs expected]. unfold dispatch, dispatch_tree, has, treeCheckStateChanged.
    look. cbn [is_set count Nat.add Nat.eqb orb negb]. look. rewrite nonempty_member, string_member. cbn [obind].
    rewrite check_state_read. by destruct (nonempty id).
Qed.

(** ** Round trip *)

(** C39 An event reaches the plugin as it was made: the document the host builds for an
    event, read and dispatched by the plugin, calls the virtual method of that event
    with its arguments (the default bodies forwarding to the older methods), for every
    event with arguments in range; events with an invalid payload - a negative row or
    column, an empty id, page, path or reason, a number that is not finite - reach no
    method. *)
Theorem event_reaches_method `{JsonText} {S} (plugin : Plugin S) e text s :
  event_ok e = true -> send e = Some text ->
  onWidgetEvent plugin text s = Got (match expected e with Some cb => call plugin cb s | None => (false, s) end).
Proof.
  intros Hok Hs. rewrite send_pairs in Hs. pose proof (event_pairs_wf e Hok) as Hw. pose proof (dispatch_sent e Hok) as Hd.
  unfold onWidgetEvent. destruct (event_pairs e) as [|p pairs] eqn:E; [by destruct e|].
  rewrite (event_view _ _ _ Hw Hs), Hd. by destruct (expected e).
Qed.

(** A plugin that keeps the paths it was given, one older method overridden. *)
Definition path_plugin : Plugin (list bytes) := fun cb =>
  match cb with
  | onFileSelected path => Some (fun s => (true, s ++ [path]))
  | _ => None
  end.

Definition picked : FilePickerResult :=
  mkPickerResult PickSelected OpenFiles [str "/tmp/a.mcap"; str "/tmp/b.mcap"] [] (str "mcap") [].

Lemma event_reaches_method_witness :
  exists text, @send TreeText.tree_text (EvPicker picked) = Some text /\
    @onWidgetEvent TreeText.tree_text _ path_plugin text [] = Got (true, [str "/tmp/a.mcap"]).
Proof.
  eexists. split; [vm_compute; reflexivity|].
  exact (@event_reaches_method TreeText.tree_text _ path_plugin (EvPicker picked) _ [] eq_refl eq_refl).
Defined.

(** ** Failing closed *)

Definition unclaimed_by (keys : list bytes) (j : json) : bool := forallb (fun key => negb (has key j)) keys.

(** What holds of a document that reached a method. *)
Definition justified (j : json) (cb : Callback) : Prop :=
  match cb with
  | onFilePickerResult r =>
    filePickerResult j = Some r /\
    (forall path, fileSelected j = Some path ->
       is_selected (pr_status r) = true /\ is_directory (pr_mode r) = false /\ head (pr_paths r) = Some path) /\
    (forall path, folderSelected j = Some path ->
       is_selected (pr_status r) = true /\ is_directory (pr_mode r) = true /\ head (pr_paths r) = Some path)
  | onSceneViewError error => sceneViewError j = Some error /\ nonempty (se_reason error) = true
  | onTreeSelectionChanged ids => size j = 1%nat /\ Forall (fun id => id <> []) ids
  | onTreeItemActivated id column => size j = 1%nat /\ id <> [] /\ 0 <= column
  | onTreeExpansionChanged id _ | onTreeCheckStateChanged id _ => size j = 1%nat /\ id <> []
  | onStackedPageChanged index page => 0 <= index /\ page <> [] /\ unclaimed_by (take 6 claims) j = true
  | _ => unclaimed_by claims j = true
  end.

Lemma has_file path j : fileSelected j = Some path -> has (str "file_selected") j = true.
Proof. unfold fileSelected, event_string, has. by destruct (jfind _ j). Qed.

Lemma has_folder path j : folderSelected j = Some path -> has (str "folder_selected") j = true.
Proof. unfold folderSelected, event_string, has. by destruct (jfind _ j). Qed.

Lemma picker_justified j cb : dispatch_picker j = Some cb -> justified j cb.
Proof.
  intros (r & Hr & H)%obind_some. destruct (is_selected (pr_status r)) eqn:Es.
  - apply obind_some in H as ([key path] & Hl & H).
    assert (key = (if is_directory (pr_mode r) then str "folder_selected" else str "file_selected") /\ head (pr_paths r) = Some path) as [-> Hp].
    { unfold filePickerLegacySelection in Hl. rewrite Es in Hl. cbn [negb] in Hl. destruct (pr_paths r); [done|].
      destruct (existsb _ _); [done|]. apply (inj Some) in Hl. apply pair_eq in Hl as [-> ->]. done. }
    destruct (has (str "file_selected") j) eqn:Hfile, (has (str "folder_selected") j) eqn:Hfolder; cbn [andb orb] in H; try done.
    + destruct (is_directory (pr_mode r)) eqn:Ed; [done|].
      change (bytes_eqb (str "file_selected") (str "folder_selected")) with false in H. apply obind_some in H as (p & Hcp & H).
      destruct (bytes_eqb p path) eqn:Ep; [|done]. apply bytes_eqb_eq in Ep as ->. injection H as <-. cbn [justified].
      split; [done|]. split; intros q Hq; [by rewrite Hcp in Hq; simplify_eq|]. apply has_folder in Hq. congruence.
    + destruct (is_directory (pr_mode r)) eqn:Ed; [|done].
      change (bytes_eqb (str "folder_selected") (str "folder_selected")) with true in H. apply obind_some in H as (p & Hcp & H).
      destruct (bytes_eqb p path) eqn:Ep; [|done]. apply bytes_eqb_eq in Ep as ->. injection H as <-. cbn [justified].
      split; [done|]. split; intros q Hq; [apply has_file in Hq; congruence|]. by rewrite Hcp in Hq; simplify_eq.
    + injection H as <-. split; [done|]. split; intros q Hq; [apply has_file in Hq|apply has_folder in Hq]; congruence.
  - cbv zeta in H. destruct (_ || _) eqn:E; [done|]. apply orb_false_iff in E as [E1 E2]. injection H as <-. split; [done|].
    split; intros q Hq; [apply has_file in Hq|apply has_folder in Hq]; congruence.
Qed.

Lemma nonempty_string_ok m s : nonempty_string m = Some s -> s <> [].
Proof. unfold nonempty_string. destruct (get_string m); [|done]. cbn. case_bool_decide; [done|]. by intros [= <-]. Qed.

Lemma decode_index_ok m z : decode_index m = Some z -> 0 <= z.
Proof. unfold decode_index. destruct (decodeInt m); [|done]. cbn. destruct (Z.ltb_spec z0 0); [done|]. by intros [= <-]. Qed.

Lemma tree_justified j cb : dispatch_tree j = Some (Some cb) -> justified j cb.
Proof.
  unfold dispatch_tree. cbv zeta. destruct (_ =? 0)%nat; [done|]. intros [= H]. destruct (_ || _) eqn:E; [done|].
  apply orb_false_iff in E as [_ E]. apply negb_false_iff, Nat.eqb_eq in E.
  destruct (has (str "tree_selection_changed") j); [|destruct (has (str "tree_item_activated") j); [|destruct (has (str "tree_expansion_changed") j)]].
  - apply obind_some in H as (ids & H & [= <-]). split; [done|]. unfold treeSelectionChanged in H.
    apply obind_some in H as (m & _ & (l & _ & H)%obind_some). apply mapM_Some in H.
    apply Forall_forall. intros id [i Hi]%list_elem_of_lookup. destruct (Forall2_lookup_r _ _ _ _ _ H Hi) as (x & _ & Hx).
    by eapply nonempty_string_ok.
  - apply obind_some in H as ([id c] & H & [= <-]). unfold treeItemActivated in H.
    apply obind_some in H as (m & _ & (i & (? & _ & Hi)%obind_some & (k & (? & _ & Hk)%obind_some & [= -> ->])%obind_some)%obind_some).
    split; [done|]. split; [by eapply nonempty_string_ok|by eapply decode_index_ok].
  - apply obind_some in H as ([id b] & H & [= <-]). unfold treeExpansionChanged in H.
    apply obind_some in H as (m & _ & (i & (? & _ & Hi)%obind_some & (k & _ & [= -> ->])%obind_some)%obind_some).
    split; [done|]. by eapply nonempty_string_ok.
  - apply obind_some in H as ([id b] & H & [= <-]). unfold treeCheckStateChanged in H.
    apply obind_some in H as (m & _ & (i & (? & _ & Hi)%obind_some & (k & _ & [= -> ->])%obind_some)%obind_some).
    split; [done|]. by eapply nonempty_string_ok.
Qed.

Lemma no_tree j : dispatch_tree j = None -> Forall (fun key => has key j = false)
  [str "tree_selection_changed"; str "tree_item_activated"; str "tree_expansion_changed"; str "tree_check_state_changed"].
Proof.
  unfold dispatch_tree. destruct (_ =? 0)%nat eqn:E; [|done]. intros _. apply Nat.eqb_eq in E.
  rewrite !Forall_cons. destruct (has _ j), (has _ j), (has _ j), (has _ j); cbn in E; try lia. by repeat split.
Qed.

Lemma first_of_elem {A} (l : list (thrown (option A))) a : first_of l = Got (Some a) -> Got (Some a) ∈ l.
Proof.
  induction l as [|[[b|]| |] l IH]; cbn; try done; [intros [= ->]; left|]. intros H. right. by apply IH.
Qed.

(** The older channels reach the older methods only. *)
Definition legacy_method (cb : Callback) : bool :=
  match cb with
  | onFilePickerResult _ | onSceneViewError _ | onTreeSelectionChanged _ | onTreeItemActivated _ _
  | onTreeExpansionChanged _ _ | onTreeCheckStateChanged _ _ | onStackedPageChanged _ _ => false
  | _ => true
  end.

Lemma legacy_justified j cb : first_of (legacy_channels j) = Got (Some cb) -> legacy_method cb = true.
Proof.
  intros H%first_of_elem. unfold legacy_channels in H.
  repeat (apply elem_of_cons in H as [H|H]; [
    unfold when_got in H;
    repeat match type of H with
      | context [option_map _ ?o] => destruct o as [x|]; cbn [option_map] in H; try done; repeat destruct x as [x ?]
      | context [tbind ?m _] => destruct m; cbn [tbind] in H; try done
      | context [if ?b then _ else _] => destruct b; try done
      end; by injection H as ->|]).
  by apply not_elem_of_nil in H.
Qed.

(** The dispatch fails closed: a document with a structured picker result reaches the
    structured method with a validated result only, and an older file or folder key
    beside it must name the first path of a selection of that mode; a tree event must
    be alone in its document, with non-empty ids and a column that is not negative; a
    scene error needs its reason, a page its name and index; and the older methods are
    reached only by documents without any of those keys. *)
Theorem dispatch_fails_closed j cb : dispatch j = Got (Some cb) -> justified j cb.
Proof.
  unfold dispatch. destruct (has (str "file_picker_result") j) eqn:H1; [intros [= H]; by apply picker_justified|].
  destruct (has (str "scene_view_error") j) eqn:H2.
  { destruct (sceneViewError j) as [error|] eqn:E; [|done]. intros [= <-]. split; [done|]. unfold sceneViewError in E.
    apply obind_some in E as (m & _ & E). destruct (negb _); [done|].
    repeat (apply obind_some in E as (? & _ & E)). case_bool_decide as Hr; [done|]. injection E as <-.
    unfold nonempty. by rewrite bool_decide_eq_false_2. }
  destruct (dispatch_tree j) as [o|] eqn:Ht; [intros [= ->]; by apply tree_justified|].
  apply no_tree in Ht. rewrite !Forall_cons in Ht. destruct Ht as (H3 & H4 & H5 & H6 & _).
  destruct (has (str "stacked_index") j) eqn:H7, (has (str "stacked_page") j) eqn:H8; cbn [orb].
  1-3: intros [= H]; apply obind_some in H as (i & _ & (p & _ & H)%obind_some);
    destruct ((i <? 0) || bool_decide (p = [])) eqn:E; [done|]; injection H as <-;
    apply orb_false_iff in E as [E1%Z.ltb_ge E2%bool_decide_eq_false];
    (split; [done|]); (split; [done|]); unfold unclaimed_by; cbn [take claims forallb]; by rewrite H1, H2, H3, H4, H5, H6.
  intros H%legacy_justified.
  assert (unclaimed_by claims j = true) as Hc
    by (unfold unclaimed_by; cbn [claims forallb]; by rewrite H1, H2, H3, H4, H5, H6, H7, H8).
  by destruct cb.
Qed.

Definition activation : json :=
  JObject [(str "tree_item_activated", JObject [(str "column", JUInt 2); (str "id", JString (str "imu"))])].

Lemma dispatch_fails_closed_witness : justified activation (onTreeItemActivated (str "imu") 2).
Proof. apply dispatch_fails_closed. vm_compute. reflexivity. Defined.
