(* ===== verification/ProviderJob.v ===== *)
(** * ProviderJob: one import on its own thread

    [src/pj_base/src/source/provider_job.cpp]: the job state, the worker, its watchdog,
    the cancel hook and the three slots a host may call from any thread.  A step is one
    critical section, one atomic operation or one callback; an interleaving is a list
    of [Action]s, so a reachable state is one that some list of actions leads to.

    Not modelled: exceptions of hooks and callbacks that the code contains with
    [catch (...)] and forgets (the step that runs them ends the same way), time (a
    timeout may come at any moment), and calls the interface forbids: using a job
    before [start] returned or after [destroy], joining or destroying it from its own
    threads, and a [JobControl] used by several threads or after the body. *)

From stdpp Require Import list.
From S2P Require Import Prelude.

(** ** The state *)

(** [PJ_descriptor_import_outcome_t] *)
Inductive Outcome : Type := FAILED | CANCELLED | SUCCEEDED_EAGER_ONLY | SUCCEEDED_PROMOTED.

(** Hooks, expiry functions and data sets are opaque. *)
Inductive Event : Type :=
  | EBody                       (** the body starts *)
  | EDataset (dataset : Z)      (** [on_dataset] *)
  | EHook (hook : nat)          (** a cancel hook runs *)
  | EExpire                     (** [on_expire] runs *)
  | ETerminal (outcome : Outcome). (** [on_terminal] *)

(** Where the worker is. *)
Inductive WorkerPc : Type :=
  | WGate                       (** [start_gate.acquire()] *)
  | WCheck                      (** [if (isCancelled())] *)
  | WBody                       (** inside the body *)
  | WArm                        (** the body, joining the old watchdog in [armWatchdog] *)
  | WDisarm (result : Outcome)  (** [disarmHook], its critical section *)
  | WWaitHook (result : Outcome) (** [hook_cv.wait] *)
  | WStop (result : Outcome)    (** [stopWatchdog], its critical section *)
  | WJoinDog (result : Outcome) (** [watchdog.join()] *)
  | WTerminal (result : Outcome) (** [fireTerminal] *)
  | WDone.

Inductive DogPc : Type := DogNone | DogWaiting | DogExpiring | DogDone.

(** Where a call from the host is. *)
Inductive CallKind : Type := Cancel | Join | Destroy.

Inductive CallPc : Type :=
  | CStore                      (** [cancelled.store(true)] *)
  | CTake                       (** the critical section of [requestCancel] *)
  | CRun (hook : nat)           (** [hook()] *)
  | CClear                      (** [hook_running = false] *)
  | JEnter                      (** the critical section of [jobJoin] *)
  | JWait                       (** [join_cv.wait] *)
  | JWorker                     (** [worker.join()] *)
  | JSet                        (** [joined = true] *)
  | JDelete                     (** [delete] *)
  | Returned.

Record Call : Type := mkCall { kind : CallKind; pc : CallPc }.

(** What [hook_mu], [watchdog_mu] and [join_mu] guard. *)
Record HookBox : Type := mkHooks { cancel_hook : option nat; hook_fired : bool; hook_running : bool }.
Record Watchdog : Type := mkDog { dog_pc : DogPc; watchdog_stop : bool }.
Record JoinBox : Type := mkJoin { join_in_progress : bool; joined : bool }.

Record JobState : Type := mkJob {
  on_dataset : bool;            (** the callback is there *)
  worker : WorkerPc; gate : bool; out_job : bool; cancelled : bool; dataset_notified : bool; terminal_fired : bool;
  hooks : HookBox; watchdog : Watchdog; joins : JoinBox;
  registering : option nat;     (** a hook that [onCancel] runs on its own thread *)
  calls : list Call; deleted : bool; trace : list Event }.

Definition set_worker w s := mkJob (on_dataset s) w (gate s) (out_job s) (cancelled s) (dataset_notified s)
  (terminal_fired s) (hooks s) (watchdog s) (joins s) (registering s) (calls s) (deleted s) (trace s).
Definition set_gate b s := mkJob (on_dataset s) (worker s) b (out_job s) (cancelled s) (dataset_notified s)
  (terminal_fired s) (hooks s) (watchdog s) (joins s) (registering s) (calls s) (deleted s) (trace s).
Definition set_out_job b s := mkJob (on_dataset s) (worker s) (gate s) b (cancelled s) (dataset_notified s)
  (terminal_fired s) (hooks s) (watchdog s) (joins s) (registering s) (calls s) (deleted s) (trace s).
Definition set_cancelled b s := mkJob (on_dataset s) (worker s) (gate s) (out_job s) b (dataset_notified s)
  (terminal_fired s) (hooks s) (watchdog s) (joins s) (registering s) (calls s) (deleted s) (trace s).
Definition set_notified b s := mkJob (on_dataset s) (worker s) (gate s) (out_job s) (cancelled s) b
  (terminal_fired s) (hooks s) (watchdog s) (joins s) (registering s) (calls s) (deleted s) (trace s).
Definition set_fired b s := mkJob (on_dataset s) (worker s) (gate s) (out_job s) (cancelled s) (dataset_notified s)
  b (hooks s) (watchdog s) (joins s) (registering s) (calls s) (deleted s) (trace s).
Definition set_hooks h s := mkJob (on_dataset s) (worker s) (gate s) (out_job s) (cancelled s) (dataset_notified s)
  (terminal_fired s) h (watchdog s) (joins s) (registering s) (calls s) (deleted s) (trace s).
Definition set_watchdog d s := mkJob (on_dataset s) (worker s) (gate s) (out_job s) (cancelled s) (dataset_notified s)
  (terminal_fired s) (hooks s) d (joins s) (registering s) (calls s) (deleted s) (trace s).
Definition set_joins j s := mkJob (on_dataset s) (worker s) (gate s) (out_job s) (cancelled s) (dataset_notified s)
  (terminal_fired s) (hooks s) (watchdog s) j (registering s) (calls s) (deleted s) (trace s).
Definition set_registering r s := mkJob (on_dataset s) (worker s) (gate s) (out_job s) (cancelled s) (dataset_notified s)
  (terminal_fired s) (hooks s) (watchdog s) (joins s) r (calls s) (deleted s) (trace s).
Definition set_calls c s := mkJob (on_dataset s) (worker s) (gate s) (out_job s) (cancelled s) (dataset_notified s)
  (terminal_fired s) (hooks s) (watchdog s) (joins s) (registering s) c (deleted s) (trace s).
Definition set_deleted b s := mkJob (on_dataset s) (worker s) (gate s) (out_job s) (cancelled s) (dataset_notified s)
  (terminal_fired s) (hooks s) (watchdog s) (joins s) (registering s) (calls s) b (trace s).
Definition emit e s := mkJob (on_dataset s) (worker s) (gate s) (out_job s) (cancelled s) (dataset_notified s)
  (terminal_fired s) (hooks s) (watchdog s) (joins s) (registering s) (calls s) (deleted s) (trace s ++ [e]).

(** ** Starting *)

(** [fieldCovered] *)
Definition fieldCovered (struct_size offset size : Z) : bool := struct_size >=? offset + size.

(** What [startJob] reads of the callback struct: its declared size, and whether each
    pointer is set. *)
Record Callbacks : Type := mkCallbacks { struct_size : Z; cb_on_dataset : bool; cb_on_terminal : bool }.

(** [offsetof] and [sizeof] in [PJ_descriptor_import_callbacks_v1_t]: a size and flags
    of 4 bytes, then [on_dataset] and [on_terminal]. *)
Definition ON_DATASET_OFFSET : Z := 8.
Definition ON_TERMINAL_OFFSET : Z := 16.
Definition POINTER_SIZE : Z := 8.

Inductive StartError : Type := NullOutJob | NoBody | NoTerminal | NoThread.

(** The job [startJob] leaves after the thread was spawned and before [out_job]. *)
Definition spawned (has_dataset : bool) : JobState :=
  mkJob has_dataset WGate false false false false false (mkHooks None false false) (mkDog DogNone false)
    (mkJoin false false) None [] false [].

Definition startJob (out_job_given body_given : bool) (callbacks : option Callbacks) (thread_starts : bool)
  : StartError + JobState :=
  if negb out_job_given then inl NullOutJob
  else if negb body_given then inl NoBody
  else
    match callbacks with
    | None => inl NoTerminal
    | Some c =>
      if negb (fieldCovered (struct_size c) ON_TERMINAL_OFFSET POINTER_SIZE) || negb (cb_on_terminal c)
      then inl NoTerminal
      else if negb thread_starts then inl NoThread
      else inr (spawned (fieldCovered (struct_size c) ON_DATASET_OFFSET POINTER_SIZE && cb_on_dataset c))
    end.

(** ** Critical sections *)

(** [requestCancel], under [hook_mu]: the hook to run, if it is still there. *)
Definition take_hook (h : HookBox) : option nat * HookBox :=
  match hook_fired h, cancel_hook h with
  | false, Some hook => (Some hook, mkHooks None true true)
  | _, _ => (None, h)
  end.

(** [disarmHook], under [hook_mu]. *)
Definition disarm (h : HookBox) : HookBox := mkHooks None true (hook_running h).

(** [JobControl::onCancel], under [hook_mu]: whether the hook runs now. *)
Definition register (is_cancelled : bool) (hook : nat) (h : HookBox) : bool * HookBox :=
  if negb is_cancelled then (false, mkHooks (Some hook) (hook_fired h) (hook_running h))
  else if hook_fired h then (false, h)
  else (true, mkHooks (cancel_hook h) true (hook_running h)).

Definition dog_joinable (d : Watchdog) : bool := match dog_pc d with DogNone | DogDone => true | _ => false end.

(** ** Steps *)

Inductive BodyAction : Type :=
  | BRegister (hook : nat)      (** [onCancel] *)
  | BRunRegistered              (** ... which runs the hook outside the lock *)
  | BNotify (dataset : Z)       (** [notifyDataset] *)
  | BArm                        (** [armWatchdog], stopping the old watchdog *)
  | BReturn (result : Outcome)
  | BThrow.

Inductive Action : Type :=
  | APopulate                   (** [startJob] fills [out_job] ... *)
  | ARelease                    (** ... and releases the gate *)
  | AWorker                     (** the worker, outside the body *)
  | ABody (a : BodyAction)
  | ADog (expires : bool)       (** the watchdog: its wait ends, or [on_expire] *)
  | ACall (k : CallKind)        (** the host calls a slot *)
  | AStep (i : nat).            (** the [i]th call goes on *)

Definition worker_step (s : JobState) : option JobState :=
  match worker s with
  | WGate => if gate s then Some (set_worker WCheck s) else None
  | WCheck => Some (if cancelled s then set_worker (WDisarm CANCELLED) s else emit EBody (set_worker WBody s))
  | WBody => None
  | WArm =>
    if dog_joinable (watchdog s) then Some (set_worker WBody (set_watchdog (mkDog DogWaiting false) s)) else None
  | WDisarm r => Some (set_worker (WWaitHook r) (set_hooks (disarm (hooks s)) s))
  | WWaitHook r => if hook_running (hooks s) then None else Some (set_worker (WStop r) s)
  | WStop r => Some (set_worker (WJoinDog r) (set_watchdog (mkDog (dog_pc (watchdog s)) true) s))
  | WJoinDog r => if dog_joinable (watchdog s) then Some (set_worker (WTerminal r) s) else None
  | WTerminal r =>
    let s' := set_worker WDone s in
    Some (if terminal_fired s then s' else emit (ETerminal r) (set_fired true s'))
  | WDone => None
  end.

Definition body_step (a : BodyAction) (s : JobState) : option JobState :=
  match worker s with
  | WBody =>
    match a with
    | BRegister hook =>
      match registering s with
      | Some _ => None
      | None =>
        let '(now, h) := register (cancelled s) hook (hooks s) in
        Some (set_registering (if now then Some hook else None) (set_hooks h s))
      end
    | BRunRegistered =>
      match registering s with
      | Some hook => Some (emit (EHook hook) (set_registering None s))
      | None => None
      end
    | BNotify dataset =>
      Some (if dataset_notified s then s
            else if on_dataset s then emit (EDataset dataset) (set_notified true s)
            else set_notified true s)
    | BArm => Some (set_worker WArm (set_watchdog (mkDog (dog_pc (watchdog s)) true) s))
    | BReturn r => match registering s with None => Some (set_worker (WDisarm r) s) | Some _ => None end
    | BThrow => match registering s with None => Some (set_worker (WDisarm FAILED) s) | Some _ => None end
    end
  | _ => None
  end.

(** [wait_for] ends with the flag, or on a timeout that did not see the flag. *)
Definition dog_step (expires : bool) (s : JobState) : option JobState :=
  let d := watchdog s in
  match dog_pc d with
  | DogWaiting =>
    if watchdog_stop d then Some (set_watchdog (mkDog DogDone true) s)
    else if expires then Some (set_watchdog (mkDog DogExpiring false) s)
    else None
  | DogExpiring => Some (emit EExpire (set_watchdog (mkDog DogDone (watchdog_stop d)) s))
  | _ => None
  end.

(** What a call does after its cancel part, and after its join part. *)
Definition after_cancel (k : CallKind) : CallPc := match k with Destroy => JEnter | _ => Returned end.
Definition after_join (k : CallKind) : CallPc := match k with Destroy => JDelete | _ => Returned end.
Definition entry (k : CallKind) : CallPc := match k with Join => JEnter | _ => CStore end.

Definition worker_joinable (s : JobState) : bool := match worker s with WDone => true | _ => false end.

(** One step of a call: its next program counter and the rest of the state. *)
Definition call_step (c : Call) (s : JobState) : option (CallPc * JobState) :=
  match pc c with
  | CStore => Some (CTake, set_cancelled true s)
  | CTake =>
    let '(hook, h) := take_hook (hooks s) in
    Some (match hook with Some hook => CRun hook | None => after_cancel (kind c) end, set_hooks h s)
  | CRun hook => Some (CClear, emit (EHook hook) s)
  | CClear =>
    Some (after_cancel (kind c), set_hooks (mkHooks (cancel_hook (hooks s)) (hook_fired (hooks s)) false) s)
  | JEnter =>
    let j := joins s in
    if joined j then Some (after_join (kind c), s)
    else if join_in_progress j then Some (JWait, s)
    else Some (JWorker, set_joins (mkJoin true (joined j)) s)
  | JWait => if joined (joins s) then Some (after_join (kind c), s) else None
  | JWorker => if worker_joinable s then Some (JSet, s) else None
  | JSet => Some (after_join (kind c), set_joins (mkJoin (join_in_progress (joins s)) true) s)
  | JDelete => Some (Returned, set_deleted true s)
  | Returned => None
  end.

Definition returned (c : Call) : bool := match pc c with Returned => true | _ => false end.
Definition destroys (c : Call) : bool := match kind c with Destroy => true | _ => false end.

(** The host calls after [start] returned; a call of [destroy] is its last, made when
    the others have returned. *)
Definition may_call (k : CallKind) (s : JobState) : bool :=
  gate s && negb (existsb destroys (calls s)) && match k with Destroy => forallb returned (calls s) | _ => true end.

Definition exec (a : Action) (s : JobState) : option JobState :=
  match a with
  | APopulate => if out_job s then None else Some (set_out_job true s)
  | ARelease => if out_job s && negb (gate s) then Some (set_gate true s) else None
  | AWorker => worker_step s
  | ABody a => body_step a s
  | ADog expires => dog_step expires s
  | ACall k => if may_call k s then Some (set_calls (calls s ++ [mkCall k (entry k)]) s) else None
  | AStep i =>
    match calls s !! i with
    | Some c =>
      match call_step c s with
      | Some (pc', s') => Some (set_calls (<[i := mkCall (kind c) pc']> (calls s')) s')
      | None => None
      end
    | None => None
    end
  end.

Fixpoint run (actions : list Action) (s : JobState) : option JobState :=
  match actions with
  | [] => Some s
  | a :: actions' => match exec a s with Some s' => run actions' s' | None => None end
  end.

(** What can happen to a job that was started. *)
Inductive reachable : JobState -> Prop :=
  | reach_start has_dataset : reachable (spawned has_dataset)
  | reach_step a s s' : reachable s -> exec a s = Some s' -> reachable s'.

(** ** [SettlementLatch] *)

Record Latch : Type := mkLatch { settled_ : bool; ok_ : bool; detail_ : list Z }.

Definition new_latch : Latch := mkLatch false false [].

Definition settle (ok : bool) (detail : list Z) (l : Latch) : Latch :=
  if settled_ l then l else mkLatch true ok detail.

(** [SettlementLatch::wait]: the latch and the answer of [cancelled] at each round of the
    loop; [None] while it still waits. *)
Fixpoint wait (rounds : list (Latch * bool)) : option bool :=
  match rounds with
  | [] => None
  | (l, cancelled) :: rounds' => if settled_ l then Some true else if cancelled then Some false else wait rounds'
  end.
