(* ===== verification/ProviderJobProofs.v ===== *)
(** * ProviderJobProofs: exactly one terminal, last, and no deadlock

    The invariant of [ProviderJob], by induction over the interleavings, and a measure
    that every step of a thread decreases. *)

From stdpp Require Import list.
From S2P Require Import Prelude ProviderJob.

(** ** Counting *)

Definition bit (b : bool) : nat := if b then 1 else 0.

Fixpoint tally (p : Call -> bool) (l : list Call) : nat :=
  match l with [] => 0 | c :: l' => bit (p c) + tally p l' end.

Lemma tally_app p l1 l2 : tally p (l1 ++ l2) = (tally p l1 + tally p l2)%nat.
Proof. induction l1 as [|c l1 IH]; cbn; lia. Qed.

Lemma tally_insert p l i c c' :
  l !! i = Some c -> (tally p (<[i := c']> l) + bit (p c) = tally p l + bit (p c'))%nat.
Proof.
  revert i. induction l as [|d l IH]; intros [|i] H; try done; [cbn in *; simplify_eq; lia|].
  change (<[S i := c']> (d :: l)) with (d :: <[i := c']> l). cbn [tally]. specialize (IH i H). lia.
Qed.

Lemma tally_same p l i c c' : l !! i = Some c -> p c = p c' -> tally p (<[i := c']> l) = tally p l.
Proof. intros H E. pose proof (tally_insert p l i c c' H). rewrite E in *. lia. Qed.

Lemma tally_pos p l : (0 < tally p l)%nat -> exists i c, l !! i = Some c /\ p c = true.
Proof.
  induction l as [|d l IH]; cbn; [lia|]. destruct (p d) eqn:E; [by exists 0%nat, d|].
  intros H. destruct (IH H) as (i & c & Hi & Hc). by exists (S i), c.
Qed.

Lemma tally_lookup p l i c : l !! i = Some c -> (bit (p c) <= tally p l)%nat.
Proof.
  revert i. induction l as [|d l IH]; intros [|i] H; try done; cbn [tally]; [injection H as ->; lia|].
  specialize (IH i H). lia.
Qed.

Fixpoint occurs (p : Event -> bool) (l : list Event) : nat :=
  match l with [] => 0 | e :: l' => bit (p e) + occurs p l' end.

Lemma occurs_app p l1 l2 : occurs p (l1 ++ l2) = (occurs p l1 + occurs p l2)%nat.
Proof. induction l1 as [|e l1 IH]; cbn; lia. Qed.

Definition is_hook (e : Event) : bool := match e with EHook _ => true | _ => false end.
Definition is_body (e : Event) : bool := match e with EBody => true | _ => false end.
Definition is_dataset (e : Event) : bool := match e with EDataset _ => true | _ => false end.
Definition is_terminal (e : Event) : bool := match e with ETerminal _ => true | _ => false end.

(** ** The invariant *)

Definition at_run (c : Call) : bool := match pc c with CRun _ => true | _ => false end.
Definition at_hook (c : Call) : bool := match pc c with CRun _ | CClear => true | _ => false end.
Definition at_join (c : Call) : bool := match pc c with JWorker | JSet => true | _ => false end.
Definition at_set (c : Call) : bool := match pc c with JSet => true | _ => false end.
Definition at_wait (c : Call) : bool := match pc c with JWait => true | _ => false end.
Definition at_delete (c : Call) : bool := match pc c with JDelete => true | _ => false end.
Definition pending (c : Call) : bool := negb (returned c).
(** A part that the kind of the call does not have. *)
Definition odd (c : Call) : bool :=
  match pc c, kind c with
  | (CStore | CTake | CRun _ | CClear), Join => true
  | (JEnter | JWait | JWorker | JSet), Cancel => true
  | JDelete, (Cancel | Join) => true
  | _, _ => false
  end.
Definition gone (c : Call) : bool := destroys c && returned c.

Definition other (c : Call) : bool := pending c && negb (destroys c).

Definition join_back (c : Call) : bool := match kind c, pc c with Join, Returned => true | _, _ => false end.

(** Events start with the body, or are the terminal of a job cancelled before it ran. *)
Definition opens (t : list Event) : bool :=
  match t with [] => true | EBody :: _ => true | [ETerminal CANCELLED] => true | _ => false end.

Lemma opens_snoc t e : opens t = true -> t <> [] -> occurs is_terminal t = 0%nat -> opens (t ++ [e]) = true.
Proof. by destruct t as [|[] [|]]. Qed.

Lemma snoc_not_nil {A} (l : list A) (x : A) (P : Prop) : l ++ [x] = [] -> P.
Proof. by destruct l. Qed.

(** The progress of the worker. *)
Definition stage (w : WorkerPc) : nat :=
  match w with
  | WGate => 9 | WCheck => 8 | WArm => 7 | WBody => 6 | WDisarm _ => 5 | WWaitHook _ => 4 | WStop _ => 3
  | WJoinDog _ => 2 | WTerminal _ => 1 | WDone => 0
  end.

Definition in_body (w : WorkerPc) : bool := match w with WBody | WArm => true | _ => false end.

(** On its way to a terminal [CANCELLED]. *)
Definition doomed (w : WorkerPc) : bool :=
  match w with
  | WDisarm CANCELLED | WWaitHook CANCELLED | WStop CANCELLED | WJoinDog CANCELLED | WTerminal CANCELLED => true
  | _ => false
  end.

Definition reg (s : JobState) : nat := match registering s with Some _ => 1 | None => 0 end.

Record inv (s : JobState) : Prop := {
  i_gate : gate s = false -> worker s = WGate /\ trace s = [] /\ calls s = [];
  i_out : gate s = true -> out_job s = true;
  i_fresh : (8 <= stage (worker s))%nat ->
    trace s = [] /\ dataset_notified s = false /\ dog_pc (watchdog s) = DogNone /\ cancel_hook (hooks s) = None /\
    hook_fired (hooks s) = false;
  i_terminal : terminal_fired s = (stage (worker s) =? 0)%nat;
  i_count : occurs is_terminal (trace s) = bit (terminal_fired s);
  i_last : terminal_fired s = true -> exists t r, trace s = t ++ [ETerminal r];
  i_dataset : occurs is_dataset (trace s) = bit (dataset_notified s && on_dataset s);
  i_hooks : (occurs is_hook (trace s) + tally at_run (calls s) + reg s <= bit (hook_fired (hooks s)))%nat;
  i_running : tally at_hook (calls s) = bit (hook_running (hooks s));
  i_unfired : hook_fired (hooks s) = false -> hook_running (hooks s) = false;
  i_disarmed : (stage (worker s) <= 4)%nat -> hook_fired (hooks s) = true;
  i_waited : (stage (worker s) <= 3)%nat -> hook_running (hooks s) = false;
  i_reg : registering s <> None -> in_body (worker s) = true;
  i_stop : stage (worker s) = 2%nat \/ worker s = WArm -> watchdog_stop (watchdog s) = true;
  i_dog : (stage (worker s) <= 1)%nat -> dog_joinable (watchdog s) = true;
  i_join : tally at_join (calls s) = bit (join_in_progress (joins s) && negb (joined (joins s)));
  i_joined : joined (joins s) = true -> join_in_progress (joins s) = true /\ stage (worker s) = 0%nat;
  i_set : (0 < tally at_set (calls s))%nat -> stage (worker s) = 0%nat;
  i_wait : (0 < tally at_wait (calls s))%nat -> join_in_progress (joins s) = true;
  i_delete : (0 < tally at_delete (calls s))%nat -> joined (joins s) = true;
  i_odd : tally odd (calls s) = 0%nat;
  i_destroy : (0 < tally destroys (calls s))%nat ->
    tally other (calls s) = 0%nat /\ tally destroys (calls s) = 1%nat;
  i_deleted : deleted s = (0 <? tally gone (calls s))%nat;
  i_gone : deleted s = true -> joined (joins s) = true;
  i_back : (0 < tally join_back (calls s))%nat -> joined (joins s) = true;
  i_body : (occurs is_body (trace s) <= 1)%nat;
  i_head : opens (trace s) = true;
  i_ran : (stage (worker s) <= 7)%nat -> trace s = [] -> doomed (worker s) = true;
  i_quiet : trace s = [] ->
    dataset_notified s = false /\ dog_pc (watchdog s) = DogNone /\ cancel_hook (hooks s) = None /\ tally at_run (calls s) = 0%nat /\ in_body (worker s) = false
}.

Lemma inv_spawned b : inv (spawned b).
Proof. split; cbn; try done; try lia; auto. all: try (intros [?|?]; done). Qed.

Ltac unfold_setters :=
  cbn [set_worker set_gate set_out_job set_cancelled set_notified set_fired set_hooks set_watchdog set_joins
    set_registering set_calls set_deleted emit on_dataset worker gate out_job cancelled dataset_notified terminal_fired hooks
    watchdog joins registering calls deleted trace reg stage in_body doomed app cancel_hook hook_fired hook_running dog_pc watchdog_stop
    join_in_progress joined disarm] in *.

Ltac spend :=
  repeat match goal with
    | H : ?P -> _ |- _ => match type of P with Prop => specialize (H ltac:(solve [assumption | reflexivity | lia])) end
    | H : _ /\ _ |- _ => destruct H
    end.

Ltac clause :=
  intros; unfold reg in *; unfold_setters; cbn [Nat.eqb] in *; rewrite ?occurs_app in *; cbn [occurs is_terminal is_hook is_dataset is_body bit negb andb orb] in *;
  try match goal with E : _ ++ [_] = [] |- _ => exact (snoc_not_nil _ _ _ E) end;
  try solve [auto | lia | congruence | intuition (auto; congruence || lia) | spend; auto; intuition (auto; congruence || lia)].

Ltac open_state s :=
  destruct s as [od w g oj ca dn tf [ch hf hr] [dp ws] [jp jd] rg cs dl tr].

Lemma worker_step_inv s s' : inv s -> worker_step s = Some s' -> inv s'.
Proof.
  intros Hi H. open_state s. destruct Hi. unfold worker_step in H. unfold_setters.
  destruct w; unfold_setters; try discriminate H.
  - destruct g; [|discriminate H]. injection H as <-. split; clause.
  - destruct i_fresh0 as (-> & -> & -> & -> & ->); [lia|]. destruct ca; injection H as <-; (split; clause).
  - destruct (dog_joinable _) eqn:E; [|discriminate H]. injection H as <-. split; clause.
  - injection H as <-. destruct hf; (split; clause).
  - destruct hr; [discriminate H|]. injection H as <-. split; clause.
  - injection H as <-. split; clause.
  - destruct (dog_joinable _) eqn:E; [|discriminate H]. injection H as <-. split; clause.
  - rewrite i_terminal0 in *. cbn [Nat.eqb] in *. injection H as <-. split; clause; eauto.
    destruct tr; [destruct result; clause | by apply opens_snoc].
Qed.

Lemma body_step_inv a s s' : inv s -> body_step a s = Some s' -> inv s'.
Proof.
  intros Hi H. open_state s. destruct Hi. unfold body_step in H. unfold_setters.
  destruct w; try discriminate H. unfold_setters.
  assert (Ht : tr <> []) by (intros ->; clause).
  assert (Hs : forall e, opens (tr ++ [e]) = true) by (intros e; apply opens_snoc; [done..|by rewrite i_count0, i_terminal0]).
  destruct a; unfold_setters.
  - destruct rg; [discriminate H|]. unfold register in H. unfold_setters.
    destruct ca, hf; injection H as <-; (split; clause).
  - destruct rg; [|discriminate H]. injection H as <-. split; clause.
  - destruct dn; [injection H as <-; split; clause|]. destruct od; injection H as <-; (split; clause).
  - injection H as <-. split; clause.
  - destruct rg; [discriminate H|]. injection H as <-. split; clause.
  - destruct rg; [discriminate H|]. injection H as <-. split; clause.
Qed.

Lemma alive s : inv s -> stage (worker s) <> 0%nat -> terminal_fired s = false /\ occurs is_terminal (trace s) = 0%nat.
Proof. intros [] Hw. rewrite i_count0, i_terminal0. by apply Nat.eqb_neq in Hw as ->. Qed.

Lemma alive_dog s : inv s -> dog_joinable (watchdog s) = false -> (2 <= stage (worker s))%nat /\ trace s <> [].
Proof.
  intros [] Hd. split.
  - destruct (decide (stage (worker s) <= 1)%nat) as [Hw|]; [|lia]. by rewrite i_dog0 in Hd.
  - intros Ht. apply i_quiet0 in Ht as (_ & Ht & _). unfold dog_joinable in Hd. by rewrite Ht in Hd.
Qed.

Lemma dog_step_inv b s s' : inv s -> dog_step b s = Some s' -> inv s'.
Proof.
  intros Hi H. open_state s. pose proof (alive_dog _ Hi) as Hd. pose proof (alive _ Hi) as Ha. destruct Hi.
  unfold dog_step in H. unfold_setters.
  destruct dp; unfold_setters; try discriminate H; destruct Hd as [Hw Ht]; try reflexivity;
    destruct Ha as [-> Ha]; try lia.
  - destruct ws; [injection H as <-; split; clause|]. destruct b; [|discriminate H]. injection H as <-. split; clause.
  - injection H as <-. split; clause. by apply opens_snoc.
Qed.

(** How a step of a call from [c] to [c'] moves the counts. *)
Ltac count_calls Hc c' :=
  let one p :=
    first
      [ pose proof (tally_same p _ _ _ c' Hc eq_refl)
      | pose proof (tally_insert p _ _ _ c' Hc); pose proof (tally_lookup p _ _ _ Hc) ] in
  one at_run; one at_hook; one at_join; one at_set; one at_wait; one at_delete; one odd; one destroys;
  one pending; one other; one gone; one join_back;
  cbn [bit at_run at_hook at_join at_set at_wait at_delete odd destroys pending other gone join_back returned pc kind
    andb negb] in *.

Ltac same_counts :=
  unfold_setters; repeat match goal with E : tally ?p (<[_ := _]> _) = tally ?p _ |- _ => rewrite ?E; clear E end.

Ltac goes_to Hc c' := count_calls Hc c'; split; same_counts; clause.
(** The call at [Hc] has ended a part of its work and goes on with what [pcs] says for its kind. *)
Ltac goes_on k Hc pcs :=
  destruct k; cbn [pcs]; lazymatch goal with |- context [<[_ := ?c']> _] => goes_to Hc c' end.

Lemma call_step_inv i c p s s' :
  inv s -> calls s !! i = Some c -> call_step c s = Some (p, s') ->
  inv (set_calls (<[i := mkCall (kind c) p]> (calls s')) s').
Proof.
  intros Hi Hc H. open_state s. pose proof (alive _ Hi) as Ha. destruct Hi, c as [k q].
  unfold call_step in H. unfold_setters.
  assert (Hg : g = true) by (destruct g; [done|]; destruct (i_gate0 eq_refl) as (_ & _ & ->); done).
  destruct q; cbn [pc kind] in *; try discriminate H.
  - injection H as <- <-. unfold_setters. goes_to Hc (mkCall k CTake).
  - unfold take_hook in H. unfold_setters. destruct hf, ch as [hook|]; injection H as <- <-; unfold_setters.
    1,2,4: goes_on k Hc after_cancel.
    rewrite (i_unfired0 eq_refl) in *. goes_to Hc (mkCall k (CRun hook)).
  - injection H as <- <-. unfold_setters.
    pose proof (tally_lookup at_hook _ _ _ Hc) as Hh. pose proof (tally_lookup at_run _ _ _ Hc) as Hr. cbn in Hh, Hr.
    destruct hr; [|cbn in i_running0; lia].
    assert (Hw : (4 <= stage w)%nat) by (destruct (decide (stage w <= 3)%nat) as [Hw|]; [by apply i_waited0 in Hw|lia]).
    destruct Ha as [-> Ha]; [lia|]. assert (Ht : tr <> []) by (intros ->; clause).
    pose proof (opens_snoc tr (EHook hook) i_head0 Ht Ha).
    goes_to Hc (mkCall k CClear).
  - injection H as <- <-. unfold_setters. pose proof (tally_lookup at_hook _ _ _ Hc) as Hh. cbn in Hh.
    destruct hr; [|cbn in i_running0; lia]. goes_on k Hc after_cancel.
  - destruct jd; [|destruct jp]; injection H as <- <-; unfold_setters.
    + goes_on k Hc after_join.
    + goes_to Hc (mkCall k JWait).
    + goes_to Hc (mkCall k JWorker).
  - destruct jd; [|discriminate H]. injection H as <- <-. unfold_setters. goes_on k Hc after_join.
  - destruct w; try discriminate H. injection H as <- <-. unfold_setters. goes_to Hc (mkCall k JSet).
  - injection H as <- <-. unfold_setters. pose proof (tally_lookup at_join _ _ _ Hc) as Hh. cbn in Hh.
    destruct jp, jd; cbn in i_join0; try lia. goes_on k Hc after_join.
  - injection H as <- <-. unfold_setters. pose proof (tally_lookup odd _ _ _ Hc) as Ho.
    destruct k; [cbn in Ho; lia..|]. goes_to Hc (mkCall Destroy Returned).
    symmetry. apply Nat.ltb_lt. lia.
Qed.

Lemma tally_none p l : existsb p l = false -> tally p l = 0%nat.
Proof. induction l as [|c l IH]; cbn; [done|]. destruct (p c); [done|]. intros H. by rewrite IH. Qed.

Lemma tally_other l : forallb returned l = true -> tally other l = 0%nat.
Proof.
  induction l as [|c l IH]; cbn; [done|]. unfold other at 1, pending. destruct (returned c); [|done]. intros H. by rewrite IH.
Qed.

Lemma call_inv k s : inv s -> may_call k s = true -> inv (set_calls (calls s ++ [mkCall k (entry k)]) s).
Proof.
  intros Hi H. open_state s. destruct Hi. unfold may_call in H. unfold_setters.
  apply andb_true_iff in H as [[-> Hd]%andb_true_iff Ho]. apply negb_true_iff, tally_none in Hd.
  assert (Hk : k = Destroy -> tally other cs = 0%nat) by (intros ->; by apply tally_other).
  split; unfold_setters; rewrite ?tally_app; destruct k; cbn [tally entry at_run at_hook at_join at_set at_wait at_delete
    odd destroys pending other gone join_back returned pc kind bit andb negb] in *; rewrite ?Nat.add_0_r; clause.
Qed.

Lemma exec_inv a s s' : inv s -> exec a s = Some s' -> inv s'.
Proof.
  intros Hi H. destruct a as [| | |a|b|k|i]; cbn [exec] in H.
  - open_state s. destruct Hi. unfold_setters. destruct oj; [discriminate H|]. injection H as <-. split; clause.
  - open_state s. destruct Hi. unfold_setters. destruct oj, g; try discriminate H. injection H as <-. split; clause.
  - by eapply worker_step_inv.
  - by eapply body_step_inv.
  - by eapply dog_step_inv.
  - destruct (may_call k s) eqn:E; [|discriminate H]. injection H as <-. by apply call_inv.
  - destruct (calls s !! i) as [c|] eqn:Hc; [|discriminate H]. destruct (call_step c s) as [[p t]|] eqn:E; [|discriminate H].
    injection H as <-. by eapply call_step_inv.
Qed.

Lemma reachable_inv s : reachable s -> inv s.
Proof. induction 1; [apply inv_spawned|by eapply exec_inv]. Qed.
