(* ===== verification/ProviderJobContract.v ===== *)
(** * ProviderJobContract: what the interface of a job promises

    [pj_base/sdk/source/provider_job.hpp] states the contract; these are its
    clauses, for every interleaving of the host, the worker and the watchdog. *)

From stdpp Require Import list.
From S2P Require Import Prelude ProviderJob ProviderJobProofs.

(** ** The terminal *)

Lemma occurs_none p l e : occurs p l = 0%nat -> e ∈ l -> p e = false.
Proof.
  induction l as [|d l IH]; intros H He; [by apply not_elem_of_nil in He|]. cbn in H.
  apply elem_of_cons in He as [->|He]; [|apply IH; [lia|done]]. destruct (p d); [cbn in H; lia|done].
Qed.

Lemma terminal_last s r : inv s -> ETerminal r ∈ trace s -> last (trace s) = Some (ETerminal r).
Proof.
  intros Hi He. pose proof (i_count s Hi) as Hc. destruct (terminal_fired s) eqn:Ef.
  - destruct (i_last s Hi Ef) as (t & r' & Et). rewrite Et in *. rewrite last_snoc.
    rewrite occurs_app in Hc. cbn in Hc. apply elem_of_app in He as [He|He].
    + apply (occurs_none is_terminal) in He; [done|lia].
    + by apply list_elem_of_singleton in He as [= ->].
  - by apply (occurs_none is_terminal) in He.
Qed.

Lemma skipped_body s : inv s -> trace s <> [] -> EBody ∉ trace s -> trace s = [ETerminal CANCELLED].
Proof.
  intros Hi Ht Hb. pose proof (i_head s Hi). destruct (trace s) as [|e t]; [done|]. destruct e; try done; [by destruct Hb; left|].
  by destruct outcome, t.
Qed.

(** C23 Whatever the host, the worker and its watchdog do in whatever order: no callback, hook or
    body runs before the job was handed out and the start gate was opened; the body starts at most once;
    [on_dataset] runs at most once and a cancel hook at most once; [on_terminal] runs at most once,
    and nothing (no body, hook, expiry or data set) comes after it; a job whose body never
    started has nothing to say but one terminal, cancelled. *)
Theorem job_contract (s : JobState) :
  reachable s ->
  (trace s <> [] -> out_job s = true /\ gate s = true) /\
  (occurs is_body (trace s) <= 1)%nat /\ (occurs is_dataset (trace s) <= 1)%nat /\ (occurs is_hook (trace s) <= 1)%nat /\
  (occurs is_terminal (trace s) <= 1)%nat /\
  (forall r, ETerminal r ∈ trace s -> last (trace s) = Some (ETerminal r)) /\
  (trace s <> [] -> EBody ∉ trace s -> trace s = [ETerminal CANCELLED]).
Proof.
  intros Hi%reachable_inv. split_and!.
  - intros Ht. destruct (gate s) eqn:Eg; [split; [by apply (i_out s Hi)|done]|]. by destruct (i_gate s Hi Eg) as (_ & ? & _).
  - apply Hi.
  - rewrite (i_dataset s Hi). by destruct (_ && _); cbn; lia.
  - pose proof (i_hooks s Hi). destruct (hook_fired _); cbn in *; lia.
  - rewrite (i_count s Hi). destruct (terminal_fired s); cbn; lia.
  - intros r. by apply terminal_last.
  - by apply skipped_body.
Qed.

(** ** Joining and destroying *)

Lemma tally_zero p l : tally p l = 0%nat -> forallb (fun c => negb (p c)) l = true.
Proof. induction l as [|c l IH]; cbn; [done|]. destruct (p c); cbn; [lia|]. exact IH. Qed.

Lemma tally_found p l i c : l !! i = Some c -> p c = true -> (0 < tally p l)%nat.
Proof. intros H Hp. pose proof (tally_lookup p l i c H). rewrite Hp in *. cbn in *. lia. Qed.

Lemma worker_done s : stage (worker s) = 0%nat -> worker s = WDone.
Proof. by destruct (worker s). Qed.

Lemma joined_terminal s : inv s -> joined (joins s) = true -> worker s = WDone /\ exists r, last (trace s) = Some (ETerminal r).
Proof.
  intros Hi Hj. destruct (i_joined s Hi Hj) as [_ Hw]. split; [by apply worker_done|].
  pose proof (i_terminal s Hi) as Ht. rewrite Hw in Ht. destruct (i_last s Hi Ht) as (t & r & ->).
  exists r. apply last_snoc.
Qed.

(** With a job destroyed, the calls are over. *)
Lemma deleted_calls s : inv s -> deleted s = true -> forallb returned (calls s) = true /\ existsb destroys (calls s) = true.
Proof.
  intros Hi Hd. pose proof (i_deleted s Hi) as Hg. rewrite Hd in Hg. symmetry in Hg. apply Nat.ltb_lt in Hg.
  destruct (tally_pos _ _ Hg) as (i & c & Hc & Hp). unfold gone in Hp. apply andb_true_iff in Hp as [Hp Hr].
  destruct (i_destroy s Hi) as [Ho H1]; [by eapply tally_found|].
  split; [|apply existsb_exists; exists c; split; [apply list_elem_of_In; by eapply list_elem_of_lookup_2|done]].
  apply forallb_forall. intros c' [j Hc']%list_elem_of_In%list_elem_of_lookup.
  destruct (returned c') eqn:E; [done|]. exfalso. destruct (destroys c') eqn:E'.
  - assert (i <> j) by (intros ->; congruence).
    assert (2 <= tally destroys (calls s))%nat; [|lia].
    pose proof (tally_insert destroys (calls s) i c (mkCall Cancel Returned) Hc) as Hi'. rewrite Hp in Hi'. cbn in Hi'.
    assert (0 < tally destroys (<[i:=mkCall Cancel Returned]> (calls s)))%nat; [|lia].
    eapply tally_found; [by rewrite list_lookup_insert_ne|done].
  - assert (0 < tally other (calls s))%nat; [|lia]. eapply tally_found; [done|]. unfold other, pending. by rewrite E, E'.
Qed.

(** C25 [join] and [destroy] keep their promise: a call of [join] that returned did so after [on_terminal] ran
    and the worker was over; and once the job is freed, [on_terminal] has run, every call has
    returned, and no thread of the job and no call can take any further step, so nothing can
    touch the freed state. *)
Theorem freed_is_quiet (s : JobState) :
  reachable s ->
  (forall c, c ∈ calls s -> kind c = Join -> returned c = true ->
     worker s = WDone /\ exists r, last (trace s) = Some (ETerminal r)) /\
  (deleted s = true ->
     (exists r, last (trace s) = Some (ETerminal r)) /\ forallb returned (calls s) = true /\ forall a, exec a s = None).
Proof.
  intros Hi%reachable_inv. split.
  - intros c [i Hc]%list_elem_of_lookup Hk Hr. apply (joined_terminal s Hi), (i_back s Hi). eapply tally_found; [done|].
    unfold join_back. rewrite Hk. unfold returned in Hr. by destruct (pc c).
  - intros Hd. destruct (joined_terminal s Hi (i_gone s Hi Hd)) as [Hw Ht]. destruct (deleted_calls s Hi Hd) as [Hr Hx].
    split_and!; [done..|]. pose proof (i_dog s Hi) as Hj. rewrite Hw in Hj. specialize (Hj ltac:(cbn; lia)).
    destruct (gate s) eqn:Eg; [|by destruct (i_gate s Hi Eg) as [Hg _]; rewrite Hg in Hw].
    pose proof (i_out s Hi Eg) as Ho.
    intros [| | |a|b|k|i]; cbn [exec]; unfold worker_step, body_step, dog_step, may_call; rewrite ?Ho, ?Hw, ?Eg, ?Hx; try done.
    + unfold dog_joinable in Hj. by destruct (dog_pc _).
    + destruct (calls s !! i) as [c|] eqn:Hc; [|done]. rewrite forallb_forall in Hr.
      specialize (Hr c ltac:(apply list_elem_of_In; by eapply list_elem_of_lookup_2)).
      unfold call_step. unfold returned in Hr. by destruct (pc c).
Qed.

(** ** Termination *)

(** The steps of the job's own threads and of the calls in flight. *)
Definition internal (a : Action) : bool := match a with AWorker | ADog _ | AStep _ => true | _ => false end.

Definition call_work (c : Call) : nat :=
  match pc c with
  | CStore => 9 | CTake => 8 | CRun _ => 7 | CClear => 6 | JEnter => 5 | JWorker => 4 | JSet => 3 | JWait => 2
  | JDelete => 1 | Returned => 0
  end.

Definition dog_work (d : DogPc) : nat := match d with DogWaiting => 2 | DogExpiring => 1 | _ => 0 end.

(** The work that is left, the body apart. *)
Definition work (s : JobState) : nat :=
  (3 * stage (worker s) + dog_work (dog_pc (watchdog s)) + sum_list_with call_work (calls s))%nat.

Lemma work_insert i c c' l :
  l !! i = Some c ->
  (sum_list_with call_work (<[i := c']> l) + call_work c = sum_list_with call_work l + call_work c')%nat.
Proof.
  revert i. induction l as [|d l IH]; intros [|i] H; try done; [cbn in *; simplify_eq; lia|].
  change (<[S i := c']> (d :: l)) with (d :: <[i := c']> l). cbn [sum_list_with]. specialize (IH i H). lia.
Qed.

Lemma call_work_down c s p s' :
  call_step c s = Some (p, s') ->
  (call_work (mkCall (kind c) p) < call_work c)%nat /\ worker s' = worker s /\ watchdog s' = watchdog s /\ calls s' = calls s.
Proof.
  destruct c as [k q], s. unfold call_step. cbn. intros H. destruct q; try discriminate H; repeat case_match; simplify_eq; cbn;
    repeat split; destruct k; cbn; lia.
Qed.

Lemma internal_decreases a s s' : internal a = true -> exec a s = Some s' -> (work s' < work s)%nat.
Proof.
  intros Ha H. destruct a as [| | |a|b|k|i]; try discriminate Ha; cbn [exec] in H; unfold work.
  - destruct s as [od w g oj ca dn tf h [d st] j rg cs dl tr]. unfold worker_step in H. cbn in H.
    destruct w; repeat case_match; simplify_eq; cbn; lia.
  - destruct s as [od w g oj ca dn tf h [d st] j rg cs dl tr]. unfold dog_step in H. cbn in H.
    destruct d; repeat case_match; simplify_eq; cbn; lia.
  - destruct (calls s !! i) as [c|] eqn:Hc; [|discriminate H]. destruct (call_step c s) as [[p t]|] eqn:E; [|discriminate H].
    injection H as <-. apply call_work_down in E as (Hp & Hw & Hd & Hcs). cbn. rewrite Hw, Hd, Hcs.
    pose proof (work_insert i c (mkCall (kind c) p) (calls s) Hc). lia.
Qed.

(** No thread can move. *)
Definition stuck (s : JobState) : Prop := forall a, internal a = true -> exec a s = None.

Lemma stuck_call s i c : stuck s -> calls s !! i = Some c -> call_step c s = None.
Proof.
  intros H Hc. specialize (H (AStep i) eq_refl). cbn in H. rewrite Hc in H. by destruct (call_step c s) as [[]|].
Qed.

Lemma stuck_dog s : stuck s -> dog_joinable (watchdog s) = true.
Proof.
  intros H. specialize (H (ADog true) eq_refl). cbn in H. unfold dog_step in H. unfold dog_joinable.
  destruct (dog_pc _); try done. by destruct (watchdog_stop _).
Qed.

Lemma stuck_worker s : inv s -> gate s = true -> stuck s -> worker s = WBody \/ worker s = WDone.
Proof.
  intros Hi Hg H. pose proof (stuck_dog s H) as Hd. pose proof (H AWorker eq_refl) as Hw. cbn in Hw. unfold worker_step in Hw.
  destruct (worker s) eqn:E; try discriminate Hw; auto; rewrite ?Hg, ?Hd in Hw; try discriminate Hw.
  destruct (hook_running (hooks s)) eqn:Er; [|discriminate Hw]. pose proof (i_running s Hi) as Hr. rewrite Er in Hr.
  destruct (tally_pos at_hook (calls s)) as (i & c & Hc & Hh); [rewrite Hr; cbn; lia|].
  pose proof (stuck_call s i c H Hc) as Hs. unfold call_step in Hs. unfold at_hook in Hh. by destruct (pc c).
Qed.

Lemma stuck_returned s : inv s -> worker s = WDone -> stuck s -> forallb returned (calls s) = true.
Proof.
  intros Hi Hw H. apply forallb_forall. intros c [i Hc]%list_elem_of_In%list_elem_of_lookup.
  pose proof (stuck_call s i c H Hc) as Hs. unfold call_step, returned, worker_joinable in *. rewrite Hw in Hs.
  destruct (pc c) eqn:E; try done; [by destruct (take_hook _) | by repeat case_match |].
  destruct (joined (joins s)) eqn:Ej; [discriminate Hs|].
  pose proof (i_wait s Hi ltac:(eapply tally_found; [done|by unfold at_wait; rewrite E])) as Hp.
  pose proof (i_join s Hi) as Hn. rewrite Hp, Ej in Hn.
  destruct (tally_pos at_join (calls s)) as (i' & c' & Hc' & Hh); [rewrite Hn; cbn; lia|].
  pose proof (stuck_call s i' c' H Hc') as Hs'. unfold call_step, worker_joinable in Hs'. rewrite Hw in Hs'.
  unfold at_join in Hh. by destruct (pc c').
Qed.

Lemma run_reachable acts s s' : reachable s -> run acts s = Some s' -> reachable s'.
Proof.
  revert s. induction acts as [|a acts IH]; intros s Hr H; cbn in H; [by injection H as <-|].
  destruct (exec a s) as [t|] eqn:E; [|discriminate H]. eapply IH; [by eapply reach_step|done].
Qed.

Lemma gate_stays a s s' : exec a s = Some s' -> gate s = true -> gate s' = true.
Proof.
  intros H Hg. destruct a as [| | |a|b|k|i]; cbn [exec] in H; unfold worker_step, body_step, dog_step, may_call, call_step in H;
    repeat case_match; simplify_eq; done.
Qed.

Lemma body_is_over a s s' : internal a = true -> exec a s = Some s' -> (stage (worker s) <= 5)%nat -> (stage (worker s') <= 5)%nat.
Proof.
  intros Ha H Hw. destruct a as [| | |a|b|k|i]; try discriminate Ha; cbn [exec] in H; unfold worker_step, dog_step in H.
  - destruct (worker s) eqn:E; cbn in Hw; try lia; repeat case_match; simplify_eq; cbn; lia.
  - repeat case_match; simplify_eq; done.
  - destruct (calls s !! i) as [c|]; [|discriminate H]. destruct (call_step c s) as [[p t]|] eqn:E; [|discriminate H].
    apply call_work_down in E as (_ & Hw' & _). injection H as <-. cbn. by rewrite Hw'.
Qed.

Lemma run_work acts s s' :
  gate s = true -> forallb internal acts = true -> run acts s = Some s' ->
  (length acts + work s' <= work s)%nat /\ gate s' = true /\
  ((stage (worker s) <= 5)%nat -> (stage (worker s') <= 5)%nat).
Proof.
  revert s. induction acts as [|a acts IH]; intros s Hg Ha H; cbn in H; [injection H as <-; cbn; auto with lia|].
  cbn in Ha. apply andb_true_iff in Ha as [Ha Has]. destruct (exec a s) as [t|] eqn:E; [|discriminate H].
  pose proof (internal_decreases a s t Ha E). destruct (IH t (gate_stays a s t E Hg) Has H) as (Hl & Hg' & Hs).
  cbn [length]. split_and!; [lia|done|]. intros Hw. by eapply Hs, body_is_over.
Qed.

(** C24 No deadlock and no endless waiting: with the gate open, the worker, the watchdog and the calls
    in flight can only take a bounded number of steps by themselves, in any order; where none of
    them can move, the worker is inside the provider's body, or it is over, [on_terminal] has run and
    every [cancel], [join] and [destroy] has returned.  Once the body has returned, only the
    second is left: every schedule of the threads that runs until nothing moves delivers the terminal
    and lets every call return. *)
Theorem job_finishes (s s' : JobState) (acts : list Action) :
  reachable s -> gate s = true -> forallb internal acts = true -> run acts s = Some s' ->
  (length acts <= work s)%nat /\
  (stuck s' ->
     (worker s' = WBody /\ (5 < stage (worker s))%nat) \/
     (worker s' = WDone /\ (exists r, last (trace s') = Some (ETerminal r)) /\ forallb returned (calls s') = true)).
Proof.
  intros Hr Hg Ha H. destruct (run_work acts s s' Hg Ha H) as (Hl & Hg' & Hs). split; [lia|]. intros Hst.
  pose proof (reachable_inv _ (run_reachable _ _ _ Hr H)) as Hi. destruct (stuck_worker s' Hi Hg' Hst) as [Hw|Hw].
  - left. split; [done|]. destruct (decide (stage (worker s) <= 5)%nat) as [Hb|]; [|lia].
    specialize (Hs Hb). rewrite Hw in Hs. cbn in Hs. lia.
  - right. split_and!; [done| |by apply stuck_returned]. pose proof (i_terminal s' Hi) as Ht. rewrite Hw in Ht.
    destruct (i_last s' Hi Ht) as (t & r & ->). exists r. apply last_snoc.
Qed.

(** ** A run

    The body registers a hook, arms a watchdog and publishes a data set; a cancel runs the
    hook while the body returns; then the host destroys the job. *)

Definition until_return : list Action :=
  [APopulate; ARelease; AWorker; AWorker; ABody (BRegister 7); ABody BArm; AWorker; ABody (BNotify 42); ACall Cancel;
   AStep 0; AStep 0; ABody (BReturn CANCELLED)].

Definition threads : list Action := [AWorker; AStep 0; AStep 0; AWorker; AWorker; ADog false; AWorker; AWorker].

Definition destruction : list Action := [ACall Destroy; AStep 1; AStep 1; AStep 1; AStep 1; AStep 1; AStep 1].

Definition after (acts : list Action) : JobState := default (spawned true) (run acts (spawned true)).

Lemma after_reachable acts : reachable (after acts).
Proof.
  unfold after. destruct (run acts (spawned true)) eqn:E; [|apply reach_start]. eapply run_reachable; [apply reach_start|exact E].
Qed.

Example run_trace :
  trace (after (until_return ++ threads ++ destruction)) = [EBody; EDataset 42; EHook 7; ETerminal CANCELLED] /\
  deleted (after (until_return ++ threads ++ destruction)) = true.
Proof. by vm_compute. Qed.

Lemma job_contract_witness :
  reachable (after (until_return ++ threads)) /\
  (occurs is_terminal (trace (after (until_return ++ threads))) <= 1)%nat.
Proof.
  split; [apply after_reachable|]. destruct (job_contract (after (until_return ++ threads))) as (_ & _ & _ & _ & Ht & _).
  - apply after_reachable.
  - exact Ht.
Defined.

Lemma freed_is_quiet_witness :
  deleted (after (until_return ++ threads ++ destruction)) = true /\
  forall a, exec a (after (until_return ++ threads ++ destruction)) = None.
Proof.
  assert (Hd : deleted (after (until_return ++ threads ++ destruction)) = true) by (vm_compute; reflexivity).
  split; [exact Hd|]. destruct (freed_is_quiet (after (until_return ++ threads ++ destruction))) as [_ Hf].
  - apply after_reachable.
  - destruct (Hf Hd) as (_ & _ & Hx). exact Hx.
Defined.

Lemma job_finishes_witness :
  run threads (after until_return) = Some (after (until_return ++ threads)) /\ length threads = 8%nat /\
  (length threads <= work (after until_return))%nat.
Proof.
  assert (Hr : run threads (after until_return) = Some (after (until_return ++ threads))) by (vm_compute; reflexivity).
  split; [exact Hr|]. split; [reflexivity|].
  destruct (job_finishes (after until_return) (after (until_return ++ threads)) threads) as [Hl _].
  - apply after_reachable.
  - vm_compute. reflexivity.
  - vm_compute. reflexivity.
  - exact Hr.
  - exact Hl.
Defined.

(** ** Starting and settling *)

(** [startJob] makes a job only with a body and an [on_terminal] that the struct's declared size covers. *)
Lemma startJob_spec out body cb ok s :
  startJob out body cb ok = inr s ->
  out = true /\ body = true /\ ok = true /\
  exists c, cb = Some c /\ 24 <= struct_size c /\ cb_on_terminal c = true /\ s = spawned (cb_on_dataset c).
Proof.
  unfold startJob, fieldCovered, ON_TERMINAL_OFFSET, ON_DATASET_OFFSET, POINTER_SIZE. intros H.
  destruct out, body, cb as [[sz d t]|], ok; cbn in H; try discriminate H; repeat case_match; simplify_eq.
  cbn. apply orb_false_iff in H0 as [H0%negb_false_iff H1%negb_false_iff]. apply Z.geb_le in H0. subst. split_and!; try done.
  eexists. split_and!; try done. f_equal. unfold fieldCovered. rewrite (proj2 (Z.geb_le sz _)); [done|lia].
Qed.

Lemma settle_first ok1 d1 l : settled_ l = false -> forall later,
  foldl (fun l p => settle p.1 p.2 l) (settle ok1 d1 l) later = mkLatch true ok1 d1.
Proof. intros Hl. unfold settle at 2. rewrite Hl. intros later. by induction later as [|p later IH]. Qed.

(** A settled latch is reported as such even where the job was cancelled too. *)
Lemma wait_settled l cancelled rounds : settled_ l = true -> wait ((l, cancelled) :: rounds) = Some true.
Proof. intros H. cbn. by rewrite H. Qed.
