(* ===== verification/ImportJob.v ===== *)
(** * ImportJob: the host's side of a descriptor import

    [src/pj_base/include/pj_base/sdk/descriptor_import.hpp]: the structs that cross between a host and
    a provider of another version, [DescriptorImportProviderView], and the handle [JoinableJob]
    whose callbacks come in on the provider's threads.  [ProviderJob.v] is a provider; here it is
    the environment, which calls back from any number of threads at any time and promises
    only what [descriptor_import_protocol.h] says: no callback is running or comes once [destroy]
    returned, or once [start_import] returned false.  At the end, [SourcePromotionHostView] of the same file:
    the promotion of an import to a file source.

    A [PJ_string_view_t] is the bytes it shows.  Not modelled: the moves of a handle (they transfer
    the state), [cancel] and [join] (they touch nothing of the handle), exceptions of the closures,
    which the thunks contain. *)

From stdpp Require Import list relations.
From S2P Require Import Prelude Text ProviderJob.

(** ** Structs that grow *)

Definition PJ_DESCRIPTOR_IMPORT_START_FLAGS_V1_MASK : Z := 0.

Record DescriptorImportStartRequest : Set := mkStartRequest {
  descriptor_json : bytes; flags : Z; max_transfer_bytes : Z }.

(** [PJ_descriptor_import_start_request_v1_t]: a size and a reserved word of 4 bytes, a view, two words. *)
Record raw_start_request : Set := mkRawStart {
  rs_struct_size : Z; rs_descriptor_json : bytes; rs_flags : Z; rs_max_transfer_bytes : Z }.

Definition sizeof_start_request : Z := 40.

Definition readDescriptorImportStartRequest (request : option raw_start_request)
  : Expected DescriptorImportStartRequest :=
  match request with
  | None => Err "null start request"
  | Some r =>
    let covered := fieldCovered (rs_struct_size r) in
    let out_flags := if covered 24 8 then rs_flags r else 0 in
    if negb (Z.land out_flags (Z.lnot PJ_DESCRIPTOR_IMPORT_START_FLAGS_V1_MASK) =? 0)
    then Err "unknown start_import flag bits (fail closed)"
    else
      Ok (mkStartRequest (if covered 8 16 then rs_descriptor_json r else []) out_flags
            (if covered 32 8 then rs_max_transfer_bytes r else 0))
  end.

(** The request [startImport] sends. *)
Definition raw_request (request : DescriptorImportStartRequest) : raw_start_request :=
  mkRawStart sizeof_start_request (descriptor_json request) (flags request) (max_transfer_bytes request).

Inductive DescriptorTrust : Set := kRefused | kNeedsConfirmation | kTrusted.

Record DescriptorQueryResult : Set := mkQueryResult {
  trust : DescriptorTrust; is_materialized : bool; source_identity : bytes; local_path_utf8 : bytes;
  query_message : bytes; estimated_bytes : Z }.

(** [PJ_descriptor_query_result_v1_t] *)
Record raw_query_result : Set := mkRawQuery {
  rq_struct_size : Z; rq_trust : Z; rq_is_materialized : Z; rq_source_identity : bytes;
  rq_local_path_utf8 : bytes; rq_message : bytes; rq_estimated_bytes : Z }.

Definition sizeof_query_result : Z := 72.

Definition trust_code (t : DescriptorTrust) : Z :=
  match t with kRefused => 0 | kNeedsConfirmation => 1 | kTrusted => 2 end.

Definition writeDescriptorQueryResult (out_result : option raw_query_result) (result : DescriptorQueryResult)
  : option raw_query_result :=
  match out_result with
  | None => None
  | Some o =>
    let covered := fieldCovered (rq_struct_size o) in
    Some (mkRawQuery (rq_struct_size o)
      (if covered 8 4 then trust_code (trust result) else rq_trust o)
      (if covered 12 4 then (if is_materialized result then 1 else 0) else rq_is_materialized o)
      (if covered 16 16 then source_identity result else rq_source_identity o)
      (if covered 32 16 then local_path_utf8 result else rq_local_path_utf8 o)
      (if covered 48 16 then query_message result else rq_message o)
      (if covered 64 8 then estimated_bytes result else rq_estimated_bytes o))
  end.

(** [PJ_error_t]: its two texts, up to their NUL. *)
Record PjError : Set := mkPjError { err_domain : string; err_message : string }.

Definition errorToString (err : PjError) : string :=
  let out := if String.eqb (err_domain err) "" then "" else (err_domain err +:+ ": ")%string in
  let out := (out +:+ err_message err)%string in
  if String.eqb out "" then "unspecified error" else out.

(** What the provider's [query_descriptor] does: fill the struct, or fail. *)
Definition query_slot : Type := bytes -> raw_query_result -> PjError + raw_query_result.

(** [PJ_descriptor_import_provider_v1_t], as far as [valid] and [queryDescriptor] look. *)
Record ProviderExtension : Type := mkExtension {
  ext_struct_size : Z; query_descriptor : option query_slot; has_start_import : bool }.

Definition ext_valid (ext : option ProviderExtension) : bool :=
  match ext with
  | Some e =>
    (ext_struct_size e >=? 16 + 8) && match query_descriptor e with Some _ => true | None => false end &&
    has_start_import e
  | None => false
  end.

Definition raw_query_empty : raw_query_result := mkRawQuery sizeof_query_result 0 0 [] [] [] 0.

(** Unknown values are refused. *)
Definition trust_of (code : Z) : DescriptorTrust :=
  if code =? 1 then kNeedsConfirmation else if code =? 2 then kTrusted else kRefused.

Definition queryDescriptor (ext : option ProviderExtension) (json : bytes) : Expected DescriptorQueryResult :=
  match ext with
  | Some (mkExtension _ (Some query) _) =>
    if negb (ext_valid ext) then Err "descriptor import provider extension is not available"
    else
      match query json raw_query_empty with
      | inl err => Err (errorToString err)
      | inr raw =>
        Ok (mkQueryResult (trust_of (rq_trust raw)) (negb (rq_is_materialized raw =? 0)) (rq_source_identity raw)
              (rq_local_path_utf8 raw) (rq_message raw) (rq_estimated_bytes raw))
      end
  | _ => Err "descriptor import provider extension is not available"
  end.

(** ** Callbacks *)

(** [mapOutcome]: unknown values are failures. *)
Definition mapOutcome (outcome : Z) : Outcome :=
  if outcome =? 1 then CANCELLED
  else if outcome =? 2 then SUCCEEDED_EAGER_ONLY
  else if outcome =? 3 then SUCCEEDED_PROMOTED
  else FAILED.

(** A call of a thunk by the provider. *)
Inductive ThunkCall : Set := OnDataset (dataset : Z) | OnTerminal (outcome : Z) (message : bytes).

(** A call of a closure of the host. *)
Inductive Invocation : Set := IDataset (dataset : Z) | ITerminal (outcome : Outcome) (message : bytes).

(** The closures of [CallbackContext] may be empty. *)
Record Closures : Set := mkClosures { has_on_dataset : bool; has_on_terminal : bool }.

Definition invoke (c : Closures) (call : ThunkCall) : list Invocation :=
  match call with
  | OnDataset d => if has_on_dataset c then [IDataset d] else []
  | OnTerminal o m => if has_on_terminal c then [ITerminal (mapOutcome o) m] else []
  end.

Definition kDisabledBit : Z := 2147483648.

(** Where a thread is in a thunk: before its [fetch_add], backing out, before the closure, after it,
    returned. *)
Inductive ThunkPc : Set := TEnter | TBack | TCall | TLeave | TDone.

(** A thunk's next atomic operation on [dispatch_state], or its call of the closure. *)
Definition thunk_step (c : Closures) (call : ThunkCall) (pc : ThunkPc) (dispatch_state : Z)
  : option (ThunkPc * Z * list Invocation) :=
  match pc with
  | TEnter =>
    let disabled := negb (Z.land dispatch_state kDisabledBit =? 0) in
    Some (if disabled then TBack else TCall, wrap 32 (dispatch_state + 1), [])
  | TBack => Some (TDone, wrap 32 (dispatch_state - 1), [])
  | TCall => Some (TLeave, dispatch_state, invoke c call)
  | TLeave => Some (TDone, wrap 32 (dispatch_state - 1), [])
  | TDone => None
  end.

(** ** The handle *)

(** [PJ_joinable_job_vtable_t]: its size, and which slots are set. *)
Record JobVtable : Set := mkVtable { vt_struct_size : Z; vt_cancel : bool; vt_join : bool; vt_destroy : bool }.

Definition hasSlot (vt : JobVtable) (offset size : Z) : bool := fieldCovered (vt_struct_size vt) offset size.
Definition hasCancel (vt : JobVtable) : bool := hasSlot vt 8 8 && vt_cancel vt.
Definition hasJoin (vt : JobVtable) : bool := hasSlot vt 16 8 && vt_join vt.
Definition hasDestroy (vt : JobVtable) : bool := hasSlot vt 24 8 && vt_destroy vt.

Inductive Memory : Set := Alive | Freed | Leaked.

(** Where the host is.  An [ending] is the error [startImport] is about to return, or none when a
    handle is being reset. *)
Definition ending : Set := option string.

Inductive OwnerPc : Set :=
  | OStarting                         (** inside [start_import] *)
  | OHeld (vt : JobVtable)            (** a [JoinableJob] *)
  | ODestroying (e : ending)          (** inside the provider's [destroy] *)
  | OFetchOr (e : ending)             (** [quiesce], its [fetch_or] *)
  | OWaiting (e : ending)             (** [quiesce], its loop *)
  | OReturned (e : ending).

(** [startImport] after [start_import] returned true. *)
Definition judge_job (vtable : option JobVtable) : OwnerPc :=
  let ok (has : JobVtable -> bool) := match vtable with Some vt => has vt | None => false end in
  let destroy_ok := ok hasDestroy in let cancel_ok := ok hasCancel in let join_ok := ok hasJoin in
  match vtable with
  | Some vt =>
    if destroy_ok && cancel_ok && join_ok then OHeld vt
    else if destroy_ok then
      let missing := if negb cancel_ok && negb join_ok then "cancel and join"
                     else if negb cancel_ok then "cancel" else "join" in
      ODestroying (Some ("descriptor import provider returned a job missing a usable " +:+ missing +:+
                         " slot (violates ABI contract)")%string)
    else OFetchOr (Some
      "descriptor import provider returned true from start_import with an unusable job (violates ABI contract)"%string)
  | None => OFetchOr (Some
      "descriptor import provider returned true from start_import with an unusable job (violates ABI contract)"%string)
  end.

(** [JoinableJob::reset] of a valid handle. *)
Definition reset (vt : JobVtable) : OwnerPc := if hasDestroy vt then ODestroying None else OFetchOr None.

(** [quiesce] *)
Definition quiesce_or (dispatch_state : Z) : Z := Z.lor dispatch_state kDisabledBit.
Definition quiesce_done (dispatch_state : Z) : bool := Z.land dispatch_state (wrap 32 (Z.lnot kDisabledBit)) =? 0.

Record import : Set := mkImport {
  closures : Closures; dispatch_state : Z; threads : list (ThunkCall * ThunkPc); context : Memory;
  silent : bool;                      (** the provider promised that no callback comes any more *)
  owner : OwnerPc; invoked : list Invocation }.

Definition import_start (c : Closures) : import := mkImport c 0 [] Alive false OStarting [].

Definition in_thunk (t : ThunkCall * ThunkPc) : bool :=
  match t.2 with TBack | TCall | TLeave => true | _ => false end.

Definition in_flight (s : import) : Z := Z.of_nat (length (List.filter in_thunk (threads s))).

(** What the provider promises when it is silent: it calls no thunk. *)
Definition all_done (s : import) : Prop := Forall (fun t => t.2 = TDone) (threads s).

Definition set_owner (o : OwnerPc) (s : import) : import :=
  mkImport (closures s) (dispatch_state s) (threads s) (context s) (silent s) o (invoked s).

(** The provider let the job go and the context is freed. *)
Definition released (e : ending) (s : import) : import :=
  mkImport (closures s) (dispatch_state s) (threads s) Freed true (OReturned e) (invoked s).

Inductive step : import -> import -> Prop :=
  (** the provider calls back, on a thread of its own *)
  | step_call s call :
    silent s = false ->
    step s (mkImport (closures s) (dispatch_state s) (threads s ++ [(call, TEnter)]) (context s) false (owner s) (invoked s))
  (** a thunk goes on; fewer than 2^31 threads are in one at a time *)
  | step_thunk s i call pc pc' d l :
    threads s !! i = Some (call, pc) -> thunk_step (closures s) call pc (dispatch_state s) = Some (pc', d, l) ->
    (pc = TEnter -> in_flight s + 1 < kDisabledBit) ->
    step s (mkImport (closures s) d (<[i := (call, pc')]> (threads s)) (context s) (silent s) (owner s) (invoked s ++ l))
  (** [start_import] returns *)
  | step_refused s err :
    owner s = OStarting -> all_done s -> step s (released (Some (errorToString err)) s)
  | step_started s vtable : owner s = OStarting -> step s (set_owner (judge_job vtable) s)
  | step_reset s vt : owner s = OHeld vt -> step s (set_owner (reset vt) s)
  (** the provider's [destroy] returns *)
  | step_destroyed s e : owner s = ODestroying e -> all_done s -> step s (released e s)
  | step_fetch_or s e :
    owner s = OFetchOr e ->
    step s (mkImport (closures s) (quiesce_or (dispatch_state s)) (threads s) (context s) (silent s) (OWaiting e) (invoked s))
  | step_waited s e :
    owner s = OWaiting e -> quiesce_done (dispatch_state s) = true ->
    step s (mkImport (closures s) (dispatch_state s) (threads s) Leaked (silent s) (OReturned e) (invoked s)).

Inductive reachable (c : Closures) : import -> Prop :=
  | reachable_start : reachable c (import_start c)
  | reachable_step s s' : reachable c s -> step s s' -> reachable c s'.

Definition returned (s : import) : Prop := exists e, owner s = OReturned e.

(** ** The dispatch word *)

Lemma bit_clear n : 0 <= n < kDisabledBit -> Z.land n kDisabledBit = 0.
Proof.
  intros Hn. apply Z.bits_inj'. intros k Hk. rewrite Z.land_spec, Z.bits_0. change kDisabledBit with (2 ^ 31) in *.
  rewrite Z.pow2_bits_eqb by lia. destruct (31 =? k) eqn:E; [|by rewrite andb_false_r].
  apply Z.eqb_eq in E as <-. rewrite andb_true_r. destruct (decide (n = 0)) as [->|]; [done|].
  apply Z.bits_above_log2; [lia|]. apply Z.log2_lt_pow2; lia.
Qed.

Lemma bit_or n : 0 <= n < kDisabledBit -> Z.lor n kDisabledBit = kDisabledBit + n.
Proof.
  intros Hn. pose proof (Z.add_lor_land n kDisabledBit) as H. rewrite bit_clear in H by done. lia.
Qed.

Lemma bit_set n : 0 <= n < kDisabledBit -> Z.land (kDisabledBit + n) kDisabledBit = kDisabledBit.
Proof.
  intros Hn. rewrite <-bit_or by done. rewrite Z.land_lor_distr_l, bit_clear by done. done.
Qed.

Lemma bit_count b n :
  0 <= n < kDisabledBit -> quiesce_done ((if b : bool then kDisabledBit else 0) + n) = (n =? 0).
Proof.
  intros Hn. unfold quiesce_done. change (wrap 32 (Z.lnot kDisabledBit)) with (Z.ones 31).
  rewrite Z.land_ones by lia. f_equal. change kDisabledBit with (2 ^ 31) in *. destruct b.
  - rewrite Z.add_comm. rewrite <-(Z.mul_1_l (2 ^ 31)) at 1. rewrite Z_mod_plus_full. by apply Z.mod_small.
  - by apply Z.mod_small.
Qed.

(** ** Threads in thunks *)

Definition thunk_count (l : list (ThunkCall * ThunkPc)) : Z := Z.of_nat (length (List.filter in_thunk l)).

Lemma thunk_count_insert l i t t' :
  l !! i = Some t ->
  thunk_count (<[i := t']> l) = thunk_count l - Z.b2z (in_thunk t) + Z.b2z (in_thunk t').
Proof.
  unfold thunk_count. revert i. induction l as [|x l IH]; intros [|i]; [done|done|intros [= ->]|intros Hi].
  - change (<[0%nat := t']> (t :: l)) with (t' :: l). cbn [List.filter].
    destruct (in_thunk t), (in_thunk t'); cbn [length Z.b2z]; lia.
  - specialize (IH i Hi). change (<[S i := t']> (x :: l)) with (x :: <[i := t']> l). cbn [List.filter].
    destruct (in_thunk x); cbn [length]; lia.
Qed.

Lemma thunk_count_snoc l c : thunk_count (l ++ [(c, TEnter)]) = thunk_count l.
Proof. unfold thunk_count. by rewrite List.filter_app, app_nil_r. Qed.

Lemma thunk_count_zero l : thunk_count l = 0 -> Forall (fun t => in_thunk t = false) l.
Proof.
  unfold thunk_count. induction l as [|t l IH]; cbn; [constructor|]. destruct (in_thunk t) eqn:E; cbn [length]; [lia|].
  intros H. constructor; [done|]. by apply IH.
Qed.

Lemma thunk_count_nonneg l : 0 <= thunk_count l.
Proof. unfold thunk_count. lia. Qed.

(** ** The invariant *)

Definition disabled (s : import) : bool :=
  match owner s, context s with OWaiting _, _ => true | OReturned _, Leaked => true | _, _ => false end.

Definition no_pc (pc : ThunkPc) (s : import) : Prop := Forall (fun t => t.2 <> pc) (threads s).

Record inv (s : import) : Prop := mkInv {
  word : dispatch_state s = (if disabled s then kDisabledBit else 0) + thunk_count (threads s);
  bound : thunk_count (threads s) < kDisabledBit;
  none_backs_out : disabled s = false -> no_pc TBack s;
  memory : match owner s with OReturned _ => context s <> Alive | _ => context s = Alive end;
  freed : context s = Freed -> all_done s /\ silent s = true;
  leaked : context s = Leaked -> no_pc TCall s /\ no_pc TLeave s }.

Lemma inv_start c : inv (import_start c).
Proof. constructor; try done. intros _. constructor. Qed.

(** What a step of a thunk keeps of the other threads. *)
Lemma no_pc_insert pc s i call pc' :
  no_pc pc s -> pc' <> pc -> Forall (fun t => t.2 <> pc) (<[i := (call, pc')]> (threads s)).
Proof. intros H Hne. by apply Forall_insert. Qed.

Lemma no_pc_at pc s i call : no_pc pc s -> threads s !! i = Some (call, pc) -> False.
Proof. intros H Hi. unfold no_pc in H. rewrite Forall_lookup in H. by apply (H i _ Hi). Qed.

Lemma done_at s i call pc : all_done s -> threads s !! i = Some (call, pc) -> pc = TDone.
Proof. intros H Hi. unfold all_done in H. rewrite Forall_lookup in H. exact (H i _ Hi). Qed.

Lemma thunk_bit s : inv s -> Z.land (dispatch_state s) kDisabledBit = if disabled s then kDisabledBit else 0.
Proof.
  intros I. rewrite (word _ I). pose proof (bound _ I). pose proof (thunk_count_nonneg (threads s)).
  destruct (disabled s); [by apply bit_set|by apply bit_clear].
Qed.

Lemma wrap_word (b : bool) n : 0 <= n < kDisabledBit -> wrap 32 ((if b then kDisabledBit else 0) + n) = (if b then kDisabledBit else 0) + n.
Proof. intros H. apply wrap_small. unfold in_u, kDisabledBit in *. destruct b; lia. Qed.

Lemma inv_moved s i call pc pc' l :
  inv s -> threads s !! i = Some (call, pc) -> pc <> TDone ->
  thunk_count (<[i := (call, pc')]> (threads s)) < kDisabledBit ->
  (disabled s = false -> pc' <> TBack) -> (context s = Leaked -> pc' <> TCall /\ pc' <> TLeave) ->
  inv (mkImport (closures s)
         ((if disabled s then kDisabledBit else 0) + thunk_count (<[i := (call, pc')]> (threads s)))
         (<[i := (call, pc')]> (threads s)) (context s) (silent s) (owner s) (invoked s ++ l)).
Proof.
  intros [Hw Hb Hback Hmem Hfreed Hleaked] Hi Hnd Hlim Hne1 Hne2.
  assert (context s <> Freed) as Hnf.
  { intros E. destruct (Hfreed E) as [Hall _]. by apply Hnd, (done_at s i call). }
  constructor; cbn [threads dispatch_state owner context silent]; try done.
  - intros Hd. apply no_pc_insert; [by apply Hback|by apply Hne1].
  - intros Hl. destruct (Hleaked Hl), (Hne2 Hl). split; by apply no_pc_insert.
Qed.

Lemma inv_thunk s i call pc pc' d l :
  inv s -> threads s !! i = Some (call, pc) -> thunk_step (closures s) call pc (dispatch_state s) = Some (pc', d, l) ->
  (pc = TEnter -> in_flight s + 1 < kDisabledBit) ->
  inv (mkImport (closures s) d (<[i := (call, pc')]> (threads s)) (context s) (silent s) (owner s) (invoked s ++ l)).
Proof.
  intros I Hi Hstep Hlim. pose proof (thunk_count_insert _ i _ (call, pc') Hi) as Hcount.
  pose proof (thunk_bit s I) as Hbit. pose proof (bound _ I) as Hb.
  pose proof (thunk_count_nonneg (<[i := (call, pc')]> (threads s))) as Hnn.
  change (in_flight s) with (thunk_count (threads s)) in Hlim.
  assert (d = (if disabled s then kDisabledBit else 0) + thunk_count (<[i := (call, pc')]> (threads s)) /\
    thunk_count (<[i := (call, pc')]> (threads s)) < kDisabledBit /\ pc <> TDone /\
    (disabled s = false -> pc' <> TBack) /\ (context s = Leaked -> pc' <> TCall /\ pc' <> TLeave))
    as (-> & Hlt & Hnd & H1 & H2); [|by apply inv_moved with pc].
  assert (thunk_count (<[i := (call, pc')]> (threads s)) < kDisabledBit) as Hlt.
  { assert (Z.b2z (in_thunk (call, pc')) <= 1) as H1 by (by destruct (in_thunk (call, pc'))).
    assert (Z.b2z (in_thunk (call, pc)) = match pc with TEnter | TDone => 0 | _ => 1 end) as H2 by (by destruct pc).
    rewrite H2 in Hcount. destruct pc; [specialize (Hlim eq_refl); lia|lia..|done]. }
  rewrite <-(wrap_word (disabled s)) by done.
  assert (context s = Leaked -> disabled s = true) as Hld.
  { intros E. pose proof (memory _ I) as Hm. unfold disabled. destruct (owner s); rewrite ?E in *; done. }
  destruct pc; [| | | |done]; cbn [thunk_step] in Hstep; injection Hstep as Hpc Hd Hl; rewrite <-Hd, (word _ I).
  - rewrite Hbit in Hpc. specialize (Hlim eq_refl). subst pc'.
    destruct (disabled s); cbn in Hcount |- *; (split; [f_equal; lia|]); (split; [lia|]); split_and!; try done.
    intros E. by specialize (Hld E).
  - subst pc'. cbn in Hcount. split_and!; try done. f_equal. lia.
  - subst pc'. cbn in Hcount. split_and!; try done.
    + rewrite wrap_word by done. lia.
    + intros E. destruct (leaked _ I E) as [Hc _]. by destruct (no_pc_at TCall s i call Hc Hi).
  - subst pc'. cbn in Hcount. split_and!; try done. f_equal. lia.
Qed.

Lemma inv_same_word s o :
  inv s -> disabled (set_owner o s) = disabled s ->
  match o with OReturned _ => context s <> Alive | _ => context s = Alive end -> inv (set_owner o s).
Proof. intros [] Hd Hm. constructor; cbn [set_owner threads dispatch_state owner context silent]; rewrite ?Hd; done. Qed.

Lemma inv_released e s : inv s -> disabled s = false -> all_done s -> inv (released e s).
Proof.
  intros [Hw Hb Hback _ _ _] Hd Hall. constructor; cbn [released threads dispatch_state owner context silent]; try done.
  - by rewrite Hd in Hw.
  - intros _. by apply Hback.
Qed.

Lemma judge_open vtable :
  match judge_job vtable with OReturned _ | OWaiting _ => False | _ => True end.
Proof. destruct vtable as [vt|]; [|done]. cbn. by destruct (hasDestroy vt), (hasCancel vt), (hasJoin vt). Qed.

(** No thunk is in a closure once the count is zero. *)
Lemma quiet_count s pc : thunk_count (threads s) = 0 -> pc = TBack \/ pc = TCall \/ pc = TLeave -> no_pc pc s.
Proof.
  intros H0%thunk_count_zero Hpc. eapply Forall_impl; [exact H0|]. intros [c q] H E. cbn in E. subst q.
  by destruct Hpc as [->|[->| ->]].
Qed.

Lemma inv_fetch_or s e :
  inv s -> owner s = OFetchOr e ->
  inv (mkImport (closures s) (quiesce_or (dispatch_state s)) (threads s) (context s) (silent s) (OWaiting e) (invoked s)).
Proof.
  intros [Hw Hb Hback Hmem Hfreed Hleaked] Ho. pose proof (thunk_count_nonneg (threads s)).
  rewrite Ho in Hmem. unfold disabled in Hw. rewrite Ho in Hw.
  constructor; cbn [disabled threads dispatch_state owner context silent]; try done.
  unfold quiesce_or. rewrite Hw. cbn [disabled owner context]. by apply bit_or.
Qed.

Lemma inv_waited s e :
  inv s -> owner s = OWaiting e -> quiesce_done (dispatch_state s) = true ->
  inv (mkImport (closures s) (dispatch_state s) (threads s) Leaked (silent s) (OReturned e) (invoked s)).
Proof.
  intros I Ho Hq. pose proof (thunk_count_nonneg (threads s)). destruct I as [Hw Hb Hback Hmem Hfreed Hleaked].
  rewrite Hw, bit_count in Hq by done. apply Z.eqb_eq in Hq. unfold disabled in Hw. rewrite Ho in Hw.
  constructor; cbn [threads dispatch_state owner context silent]; try done.
  intros _. split; apply quiet_count; auto.
Qed.

Lemma inv_step s s' : inv s -> step s s' -> inv s'.
Proof.
  intros I H. pose proof (memory _ I) as Hmem.
  destruct H as [s call Hs|s i call pc pc' d l Hi Ht Hlim|s err Ho Hall|s vtable Ho|s vt Ho|s e Ho Hall|s e Ho|s e Ho Hq];
    try rewrite Ho in Hmem.
  - destruct I as [Hw Hb Hback _ Hfreed Hleaked]. constructor; cbn [threads dispatch_state owner context silent].
    + by rewrite thunk_count_snoc.
    + by rewrite thunk_count_snoc.
    + intros Hd. apply Forall_app. split; [by apply Hback|by constructor].
    + done.
    + intros E. destruct (Hfreed E) as [_ H]. by rewrite H in Hs.
    + intros E. destruct (Hleaked E). split; (apply Forall_app; split; [done|by constructor]).
  - by eapply inv_thunk.
  - apply inv_released; [done| |done]. unfold disabled. by rewrite Ho.
  - pose proof (judge_open vtable). apply inv_same_word; [done|..].
    + unfold disabled. cbn. rewrite Ho. by destruct (judge_job vtable).
    + by destruct (judge_job vtable).
  - apply inv_same_word; [done|..].
    + unfold disabled, reset. cbn. rewrite Ho. by destruct (hasDestroy vt).
    + unfold reset. by destruct (hasDestroy vt).
  - apply inv_released; [done| |done]. unfold disabled. by rewrite Ho.
  - by apply inv_fetch_or.
  - by apply inv_waited.
Qed.

Lemma inv_reachable c s : reachable c s -> inv s.
Proof. induction 1 as [|s s' _ IH Hs]; [apply inv_start|by eapply inv_step]. Qed.

(** ** After the return *)

Lemma returned_step s s' : inv s -> returned s -> step s s' -> invoked s' = invoked s /\ returned s'.
Proof.
  intros I [e He] H.
  assert (forall i call, threads s !! i = Some (call, TCall) -> False) as Hno.
  { intros i call Hi. pose proof (memory _ I) as Hm. rewrite He in Hm. destruct (context s) eqn:Ec; [done| |].
    - destruct (freed _ I Ec) as [Hall _]. by pose proof (done_at s i call TCall Hall Hi).
    - destruct (leaked _ I Ec) as [Hc _]. exact (no_pc_at TCall s i call Hc Hi). }
  destruct H as [s call Hs|s i call pc pc' d l Hi Ht Hlim|s err Ho Hall|s vtable Ho|s vt Ho|s e' Ho Hall|s e' Ho|s e' Ho Hq];
    try (by rewrite Ho in He); (split; [|by exists e]); [done|]. cbn [invoked].
  destruct pc; [| |by destruct (Hno i call)| |done]; cbn [thunk_step] in Ht; injection Ht as _ _ <-; apply app_nil_r.
Qed.

Lemma returned_steps s s' : inv s -> returned s -> rtc step s s' -> invoked s' = invoked s /\ returned s' /\ inv s'.
Proof.
  intros I Hr H. revert I Hr. induction H as [s|s1 s2 s3 H12 _ IH]; intros I Hr; [done|].
  destruct (returned_step _ _ I Hr H12) as [E Hr2]. destruct (IH (inv_step _ _ I H12) Hr2) as (E3 & ? & ?).
  split_and!; congruence || done.
Qed.

(** ** Delivery *)

(** The closure calls of the thunks that are past them. *)
Definition delivered (c : Closures) (l : list (ThunkCall * ThunkPc)) : list Invocation :=
  flat_map (fun t => match t.2 with TLeave | TDone => invoke c t.1 | _ => [] end) l.

Lemma delivered_insert c l i call pc pc' :
  l !! i = Some (call, pc) ->
  delivered c (<[i := (call, pc')]> l) ++ delivered c [(call, pc)] ≡ₚ delivered c l ++ delivered c [(call, pc')].
Proof.
  intros Hi. rewrite <-(take_drop_middle l i _ Hi) at 2. rewrite insert_take_drop by by eapply lookup_lt_Some.
  unfold delivered. rewrite !flat_map_app. cbn [flat_map]. rewrite !app_nil_r. solve_Permutation.
Qed.

Definition accounted (s : import) : Prop :=
  disabled s = false -> invoked s ≡ₚ delivered (closures s) (threads s).

Lemma accounted_step s s' : inv s -> accounted s -> step s s' -> accounted s'.
Proof.
  intros I A H Hd. destruct H as [s call Hs|s i call pc pc' d l Hi Ht Hlim|s err Ho Hall|s vtable Ho|s vt Ho|s e Ho Hall|s e Ho|s e Ho Hq].
  - cbn [invoked closures threads]. unfold delivered. rewrite flat_map_app. cbn. rewrite app_nil_r. by apply A.
  - assert (disabled s = false) as Hds by exact Hd. cbn [invoked closures threads] in *.
    apply (Permutation_app_inv_r (delivered (closures s) [(call, pc)])).
    rewrite delivered_insert by done. rewrite (A Hds). rewrite <-app_assoc. apply Permutation_app_head.
    destruct pc; [| | | |done]; cbn [thunk_step] in Ht; injection Ht as <- _ <-.
    + by destruct (negb _).
    + by destruct (no_pc_at TBack s i call (none_backs_out _ I Hds) Hi).
    + done.
    + done.
  - apply A. unfold disabled. by rewrite Ho.
  - apply A. unfold disabled. by rewrite Ho.
  - apply A. unfold disabled. by rewrite Ho.
  - apply A. unfold disabled. by rewrite Ho.
  - done.
  - done.
Qed.

Lemma accounted_reachable c s : reachable c s -> accounted s /\ closures s = c.
Proof.
  induction 1 as [|s s' Hr [IH Hc] Hs]; [by split; [intros _|]|]. split; [eapply accounted_step; [by eapply inv_reachable|done..]|].
  by destruct Hs.
Qed.

(** * Properties *)

(** C26 When [startImport] returned an error, or a handle was reset, no closure is called
    ever again, whatever the provider's threads do, and the context they get is either never
    freed, or freed when no thread is in a thunk and none comes; so nothing that the
    closures captured is touched after the return. *)
Theorem import_returns_quiet c s s' :
  reachable c s -> returned s -> rtc step s s' ->
  invoked s' = invoked s /\ context s' <> Alive /\
  (context s' = Freed -> silent s' = true /\ forall i call pc, threads s' !! i = Some (call, pc) -> pc = TDone) /\
  (forall i call, threads s' !! i <> Some (call, TCall)).
Proof.
  intros Hr Hret Hs. pose proof (inv_reachable _ _ Hr) as I.
  destruct (returned_steps _ _ I Hret Hs) as (E & [e He] & I'). pose proof (memory _ I') as Hm. rewrite He in Hm.
  split_and!; [done|done| |].
  - intros Hf. destruct (freed _ I' Hf) as [Hall Hq]. split; [done|]. intros i call pc. by apply done_at.
  - intros i call Hi. destruct (context s') eqn:Ec; [done| |].
    + destruct (freed _ I' Ec) as [Hall _]. by pose proof (done_at _ _ _ _ Hall Hi).
    + destruct (leaked _ I' Ec) as [Hc _]. exact (no_pc_at TCall _ i call Hc Hi).
Qed.

(** No callback is lost or doubled: while nothing was quiesced, which a job with the three slots never
    is, the closure calls are exactly those of the thunks that are past them, each once, with
    unknown outcomes as failures; the context is alive until the return; and [quiesce] waits for thunks
    in flight only. *)
Theorem callbacks_delivered c s :
  reachable c s ->
  (disabled s = false -> invoked s ≡ₚ delivered c (threads s)) /\
  ((forall e, owner s <> OReturned e) -> context s = Alive) /\
  (forall vt, owner s = OHeld vt -> disabled s = false) /\
  (forall e, owner s = OWaiting e -> thunk_count (threads s) = 0 -> exists s', step s s' /\ owner s' = OReturned e).
Proof.
  intros Hr. destruct (accounted_reachable _ _ Hr) as [A <-]. pose proof (inv_reachable _ _ Hr) as I.
  split_and!; [exact A| | |].
  - intros Hn. pose proof (memory _ I) as Hm. destruct (owner s) eqn:Eo; try done. by destruct (Hn e).
  - intros vt Ho. unfold disabled. by rewrite Ho.
  - intros e Ho H0. eexists. split; [apply (step_waited s e Ho)|done].
    rewrite (word _ I), bit_count, H0 by (rewrite H0; done). done.
Qed.

Lemma fieldCovered_within size o n : o + n <= size -> fieldCovered size o n = true.
Proof. intros H. apply Z.geb_le. lia. Qed.

(** The structs cross: a provider reads the request the host sends, and fails closed on flags
    it does not know; the host reads the answer a provider writes; a trust level that is unknown
    is a refusal. *)
Lemma import_structs_cross request answer size json :
  size >= 24 ->
  readDescriptorImportStartRequest (Some (raw_request request)) =
    (if flags request =? 0 then Ok request else Err "unknown start_import flag bits (fail closed)") /\
  queryDescriptor (Some (mkExtension size (Some (fun json raw =>
      inr (default raw (writeDescriptorQueryResult (Some raw) (answer json))))) true)) json = Ok (answer json) /\
  (forall query raw, query json raw_query_empty = inr raw -> rq_trust raw <> 1 -> rq_trust raw <> 2 ->
     exists r, queryDescriptor (Some (mkExtension size (Some query) true)) json = Ok r /\ trust r = kRefused).
Proof.
  intros Hsize. assert (size >=? 24 = true) as Hv by blia. split_and!.
  - unfold readDescriptorImportStartRequest, raw_request. cbn [rs_struct_size rs_flags rs_descriptor_json rs_max_transfer_bytes].
    rewrite !fieldCovered_within by (unfold sizeof_start_request; lia). cbn. rewrite Z.land_m1_r.
    destruct request as [j f m]. cbn. by destruct (f =? 0).
  - cbn [queryDescriptor ext_valid ext_struct_size query_descriptor has_start_import]. change (16 + 8) with 24. rewrite Hv. cbn [negb andb].
    unfold writeDescriptorQueryResult, raw_query_empty.
    cbn [rq_struct_size rq_trust rq_is_materialized rq_source_identity rq_local_path_utf8 rq_message rq_estimated_bytes].
    rewrite !fieldCovered_within by (unfold sizeof_query_result; lia). cbn. destruct (answer json) as [t m i p q b]. by destruct t, m.
  - intros query raw Hq H1 H2. cbn [queryDescriptor ext_valid ext_struct_size query_descriptor has_start_import]. change (16 + 8) with 24. rewrite Hv, Hq. cbn.
    eexists. split; [done|]. cbn. unfold trust_of.
    rewrite (proj2 (Z.eqb_neq _ _) H1). by rewrite (proj2 (Z.eqb_neq _ _) H2).
Qed.

(** ** Runs *)

(** A job without a [destroy] slot: one callback gets through, one backs out, and the host returns
    with the context leaked. *)
Definition both_closures : Closures := mkClosures true true.
Definition bad_vtable : JobVtable := mkVtable 32 true true false.

Ltac advance H tac :=
  lazymatch type of H with
  | reachable _ ?s =>
    let H' := fresh in
    eassert (step s _) as H' by (tac; first [reflexivity|discriminate|by intros _]);
    apply (reachable_step _ _ _ H) in H'; clear H; rename H' into H; cbn in H
  end.

Lemma violator_run :
  exists s, reachable both_closures s /\ returned s /\ invoked s = [IDataset 7] /\
    threads s = [(OnDataset 7, TDone); (OnTerminal 9 [], TEnter)] /\ context s = Leaked.
Proof.
  pose proof (reachable_start both_closures) as H.
  advance H ltac:(eapply (step_call _ (OnDataset 7))).
  advance H ltac:(eapply (step_call _ (OnTerminal 9 []))).
  advance H ltac:(eapply (step_thunk _ 0)).
  advance H ltac:(eapply (step_started _ (Some bad_vtable))).
  advance H ltac:(eapply (step_thunk _ 0)).
  advance H ltac:(eapply (step_fetch_or _ _)).
  advance H ltac:(eapply (step_thunk _ 0)).
  advance H ltac:(eapply (step_waited _ _)).
  eexists. split; [exact H|]. split; [by eexists|]. split_and!; reflexivity.
Qed.

Example import_returns_quiet_witness :
  exists s, returned s /\ context s <> Alive /\ invoked s = [IDataset 7].
Proof.
  destruct violator_run as (s & Hr & Hret & Hi & _). exists s. split; [exact Hret|].
  destruct (import_returns_quiet both_closures s s Hr Hret ltac:(constructor)) as (_ & Hc & _). by split.
Defined.

Example callbacks_delivered_witness : invoked (import_start both_closures) ≡ₚ [].
Proof.
  destruct (callbacks_delivered both_closures _ (reachable_start both_closures)) as [H _]. exact (H eq_refl).
Defined.

(** ** The promotion of an import to a file source

    [src/pj_base/include/pj_base/sdk/descriptor_import.hpp], [SourcePromotionHostView]: the request a
    plugin sends to its host, and the closure for the result, which lives on the heap and is given
    away to the host before the call.  The host may run it on a thread of its own, also before the call
    returns; it promises to run it once when it accepts and never when it refuses. *)

Record SourcePromotionRequest : Set := mkPromotionRequest {
  dataset : Z; sp_source_identity : bytes; sp_local_path_utf8 : bytes; loader_plugin_id : bytes;
  loader_config_json : bytes; sp_descriptor_json : bytes }.

(** [PJ_source_promotion_request_v1_t], of 88 bytes: its size, padded, and the members of the request. *)
Record raw_promotion_request : Set := mkRawPromotion { rp_struct_size : Z; rp_request : SourcePromotionRequest }.

(** [PJ_source_promotion_host_t]: whether its [ctx] is set, and the table's size and slot. *)
Record PromotionHost : Set := mkPromotionHost { ph_ctx : bool; ph_vtable : option (Z * bool) }.

Definition promotion_valid (host : PromotionHost) : bool :=
  ph_ctx host && match ph_vtable host with Some (struct_size, slot) => (struct_size >=? 8 + 8) && slot | None => false end.

(** The closure on the heap; [Corrupt] is the memory after a use or a free of what was freed. *)
Inductive Closure : Set := ClosureOwned | ClosureFreed | Corrupt.

Definition use (c : Closure) : Closure := match c with ClosureOwned => ClosureOwned | _ => Corrupt end.
Definition free (c : Closure) : Closure := match c with ClosureOwned => ClosureFreed | _ => Corrupt end.

(** A call of [resultThunk]: before it, before the closure's call, before the end that frees. *)
Inductive ResultPc : Set := RCall (ok : bool) (message : bytes) | RFree | RDone.

(** [promoteToFileSource]: before the host's slot, within it, returned. *)
Inductive PromotePc : Set := PEnter | PInSlot | PReturned (r : Expected unit).

Record promotion : Set := mkPromotion {
  closure : Closure; fn_set : bool;          (** whether the closure holds a function *)
  result_threads : list ResultPc;            (** the host's calls of [resultThunk] *)
  promoter : PromotePc; sent : list raw_promotion_request; results : list (bool * bytes) }.

Definition promotion_start (fn_set : bool) : promotion := mkPromotion ClosureOwned fn_set [] PEnter [] [].

Inductive promotion_step (host : PromotionHost) (request : SourcePromotionRequest) : promotion -> promotion -> Prop :=
  (** the service is missing: the closure, which is still the caller's argument, goes with it *)
  | promote_invalid p :
    promoter p = PEnter -> promotion_valid host = false ->
    promotion_step host request p (mkPromotion (free (closure p)) (fn_set p) (result_threads p)
      (PReturned (Err "source promotion host service is not available")) (sent p) (results p))
  | promote_call p :
    promoter p = PEnter -> promotion_valid host = true ->
    promotion_step host request p (mkPromotion (closure p) (fn_set p) (result_threads p) PInSlot
      (sent p ++ [mkRawPromotion 88 request]) (results p))
  (** the slot refuses: ownership is reclaimed *)
  | promote_rejected p err :
    promoter p = PInSlot -> result_threads p = [] ->
    promotion_step host request p (mkPromotion (free (closure p)) (fn_set p) (result_threads p)
      (PReturned (Err (errorToString err))) (sent p) (results p))
  | promote_accepted p :
    promoter p = PInSlot ->
    promotion_step host request p (mkPromotion (closure p) (fn_set p) (result_threads p) (PReturned (Ok tt)) (sent p) (results p))
  (** the host runs the callback: once, of a request it did not refuse *)
  | result_called p ok message :
    result_threads p = [] -> promoter p = PInSlot \/ promoter p = PReturned (Ok tt) ->
    promotion_step host request p (mkPromotion (closure p) (fn_set p) [RCall ok message] (promoter p) (sent p) (results p))
  | result_invoked p i ok message :
    result_threads p !! i = Some (RCall ok message) ->
    promotion_step host request p (mkPromotion (use (closure p)) (fn_set p) (<[i := RFree]> (result_threads p)) (promoter p)
      (sent p) (results p ++ if fn_set p then [(ok, message)] else []))
  | result_freed p i :
    result_threads p !! i = Some RFree ->
    promotion_step host request p (mkPromotion (free (closure p)) (fn_set p) (<[i := RDone]> (result_threads p)) (promoter p)
      (sent p) (results p)).

Inductive promotion_reachable (host : PromotionHost) (request : SourcePromotionRequest) (fn : bool) : promotion -> Prop :=
  | promotion_initial : promotion_reachable host request fn (promotion_start fn)
  | promotion_next p p' :
    promotion_reachable host request fn p -> promotion_step host request p p' -> promotion_reachable host request fn p'.

(** ** The invariant *)

Definition refused (p : promotion) : bool := match promoter p with PReturned (Err _) => true | _ => false end.

(** What the host's calls and the promoter's place say of the closure and the results. *)
Definition consistent (p : promotion) : Prop :=
  match result_threads p with
  | [] => closure p = (if refused p then ClosureFreed else ClosureOwned) /\ results p = []
  | [RCall _ _] => closure p = ClosureOwned /\ results p = [] /\ refused p = false /\ promoter p <> PEnter
  | [pc] => closure p = (match pc with RDone => ClosureFreed | _ => ClosureOwned end) /\
            length (results p) = (if fn_set p then 1 else 0)%nat /\ refused p = false /\ promoter p <> PEnter
  | _ => False
  end.

Lemma single_lookup {A} (x y : A) (l : list A) i :
  match l with [_] => True | _ => False end -> l !! i = Some x -> l = [x] /\ <[i := y]> l = [y].
Proof. destruct l as [|z [|]]; [done| |done]. destruct i as [|[|i]]; intros _ [= ->]. done. Qed.

Lemma consistent_step host request p p' : consistent p -> promotion_step host request p p' -> consistent p'.
Proof.
  intros C H. unfold consistent in *. destruct H as [p Hp _|p Hp _|p err Hp Ht|p Hp|p ok m Ht Hp|p i ok m Hi|p i Hi];
    cbn [result_threads closure results promoter fn_set].
  - destruct (result_threads p) as [|[| |] [|]]; try tauto. destruct C as [-> ->]. unfold refused. by rewrite Hp.
  - destruct (result_threads p) as [|[| |] [|]]; try tauto. destruct C as [-> ->]. unfold refused. by rewrite Hp.
  - rewrite Ht in *. destruct C as [-> ->]. unfold refused. by rewrite Hp.
  - unfold refused in *. rewrite Hp in C. destruct (result_threads p) as [|[| |] [|]]; cbn [promoter]; naive_solver.
  - rewrite Ht in C. destruct C as [-> ->]. unfold refused. cbn [promoter]. destruct Hp as [-> | ->]; by split_and!.
  - assert (match result_threads p with [_] => True | _ => False end) as H1
      by (destruct (result_threads p) as [|[| |] [|]]; done).
    destruct (single_lookup _ RFree _ i H1 Hi) as [E ->].
    rewrite E in C. destruct C as (-> & -> & Hr & Hp). split_and!; [done|by destruct (fn_set p)|exact Hr|exact Hp].
  - assert (match result_threads p with [_] => True | _ => False end) as H1
      by (destruct (result_threads p) as [|[| |] [|]]; done).
    destruct (single_lookup _ RDone _ i H1 Hi) as [E ->].
    rewrite E in C. destruct C as (-> & Hl & Hr & Hp). by split_and!.
Qed.

Lemma consistent_reachable host request fn p :
  promotion_reachable host request fn p -> consistent p /\ fn_set p = fn.
Proof.
  induction 1 as [|p p' _ [IH Hf] Hs]; [done|]. split; [by eapply consistent_step|]. by destruct Hs.
Qed.

(** The closure is freed exactly once and never used after, in whatever order the host runs it: it
    is there while a result can come, its function runs once for an accepted request and never for a
    refused one, and when nothing can move any more nothing is leaked. *)
Lemma promotion_closure host request fn p :
  promotion_reachable host request fn p ->
  closure p <> Corrupt /\ (length (results p) <= 1)%nat /\
  (refused p = true -> closure p = ClosureFreed /\ results p = [] /\ forall p', ~ promotion_step host request p p') /\
  (promoter p = PReturned (Ok tt) ->
   (exists p', promotion_step host request p p') \/
   (closure p = ClosureFreed /\ length (results p) = if fn then 1 else 0)%nat).
Proof.
  intros Hreach. destruct (consistent_reachable _ _ _ _ Hreach) as [C <-]. unfold consistent in C. split_and!.
  - destruct (result_threads p) as [|[| |] [|]]; try tauto; destruct C as [-> _]; try done. by destruct (refused p).
  - destruct (result_threads p) as [|[| |] [|]]; try tauto.
    + destruct C as [_ ->]. cbn. lia.
    + destruct C as (_ & -> & _). cbn. lia.
    + destruct C as (_ & -> & _). destruct (fn_set p); lia.
    + destruct C as (_ & -> & _). destruct (fn_set p); lia.
  - intros Hr. destruct (result_threads p) as [|[| |] [|]] eqn:Et; try tauto; try (rewrite Hr in C; naive_solver).
    rewrite Hr in C. destruct C as [-> ->]. split_and!; [done..|]. intros p' Hs. unfold refused in Hr.
    destruct Hs as [p Hp _|p Hp _|p err Hp Ht|p Hp|p ok m Ht Hp|p i ok m Hi|p i Hi];
      try (by rewrite Hp in Hr); try (by rewrite Et in Hi). by destruct Hp as [Hp|Hp]; rewrite Hp in Hr.
  - intros Hp. destruct (result_threads p) as [|[ok m| |] [|]] eqn:Et; try (by destruct C).
    + left. eexists. apply (result_called _ _ p false []); auto.
    + left. eexists. apply (result_invoked _ _ p 0 ok m). by rewrite Et.
    + left. eexists. apply (result_freed _ _ p 0). by rewrite Et.
    + right. destruct C as (-> & -> & _). done.
Qed.
