(* ===== verification/EvaluationReport.v ===== *)
(** * EvaluationReport: the report of an evaluation

    [src/pj_plugins/include/pj_plugins/sdk/evaluation_report.hpp]: the report that [poll_evaluation] returns, read by
    every client in one way.  The JSON parser is a parameter: a function from texts to the documents of
    [Json.v].  A [std::map] is a [gmap]; [emplace] leaves a key that is there. *)

From stdpp Require Import base list gmap.
From S2P Require Import Prelude Text Json TimeMath ClaimCatalog.

Inductive EvaluationStop : Set :=
  | StopComplete | StopBudgetTime | StopBudgetEvaluations | StopBudgetBytes | StopBudgetReport | StopCancelled | StopError.

Inductive EvaluationOutputStatus : Set := StatusOk | StatusUnavailable | StatusEmpty | StatusError.

#[export] Instance stop_eq_dec : EqDecision EvaluationStop.
Proof. solve_decision. Defined.

Record EvaluationOutput : Type := mkOutput { out_status : EvaluationOutputStatus; out_value : json; out_summary : json; out_reason : bytes }.

Record EvaluationBundle : Type := mkBundle {
  requested_ns : Z; stamp_ns : Z; inputs : gmap bytes Z; outputs : gmap bytes EvaluationOutput }.

Record EvaluationGap : Set := mkGap { from_ns : Z; to_ns : Z }.

(** [DataProcessorOutput] of [plugin_data_api.hpp]. *)
Record DataProcessorOutput : Set := mkProcessorOutput { dpo_name : bytes; dpo_type : bytes }.

Record EvaluationReport : Type := mkReport {
  candidates : Z; evaluated : Z; stopped : EvaluationStop; rep_error : bytes; gaps : list EvaluationGap;
  bundles : list EvaluationBundle; inferred_outputs : list DataProcessorOutput }.

(** [reportInt64] of a value, and of a member. *)
Definition reportInt64 (value : json) : option Z :=
  match value with
  | JUInt z => toSignedTicks z
  | JInt z => Some z
  | _ => None
  end.

Definition reportInt64_at (object : json) (key : bytes) : option Z :=
  match jfind key object with Some value => reportInt64 value | None => None end.

Definition reportString (object : json) (key : bytes) : option bytes :=
  match jfind key object with Some (JString s) => Some s | _ => None end.

Definition reportEnum {E} (names : list (bytes * E)) (text : option bytes) : option E :=
  match text with
  | Some t => option_map snd (List.find (fun e => bytes_eqb e.1 t) names)
  | None => None
  end.

Definition isReportOutputType (type : bytes) : bool :=
  bytes_eqb type (str "number") || bytes_eqb type (str "string") || bytes_eqb type (str "unknown") ||
  (if parseBuiltinObjectType type then true else false).

Definition kStops : list (bytes * EvaluationStop) :=
  [(str "complete", StopComplete); (str "budget_time", StopBudgetTime); (str "budget_evaluations", StopBudgetEvaluations);
   (str "budget_bytes", StopBudgetBytes); (str "budget_report", StopBudgetReport); (str "cancelled", StopCancelled);
   (str "error", StopError)].

Definition kStatuses : list (bytes * EvaluationOutputStatus) :=
  [(str "ok", StatusOk); (str "unavailable", StatusUnavailable); (str "empty", StatusEmpty); (str "error", StatusError)].

Definition emplace {A} (key : bytes) (value : A) (m : gmap bytes A) : gmap bytes A :=
  match m !! key with Some _ => m | None => <[key := value]> m end.

Definition read_gap (gap : json) : Expected EvaluationGap :=
  match reportInt64_at gap (str "from_ns"), reportInt64_at gap (str "to_ns") with
  | Some from, Some to => Ok (mkGap from to)
  | _, _ => Err "coverage.gaps entries need int64 from_ns and to_ns"
  end.

(** The loop over the inputs of a bundle. *)
Fixpoint read_inputs (requested : Z) (items : members) (inputs : gmap bytes Z) (newest : option Z)
  : Expected (gmap bytes Z * option Z) :=
  match items with
  | [] => Ok (inputs, newest)
  | (key, value) :: items' =>
    match reportInt64 value with
    | None => Err ("bundle input '" +:+ text_of key +:+ "' must be an int64 timestamp")
    | Some resolved =>
      if resolved >? requested then Err ("bundle input '" +:+ text_of key +:+ "' resolves after requested_ns")
      else read_inputs requested items' (emplace key resolved inputs)
             (Some (match newest with Some n => Z.max n resolved | None => resolved end))
    end
  end.

(** The body of the loop over the outputs of a bundle. *)
Definition read_output (key : bytes) (fields : json) : Expected EvaluationOutput :=
  let status := reportString fields (str "status") in
  match reportEnum kStatuses status with
  | None => Err ("output '" +:+ text_of key +:+ "' has unknown status '" +:+ text_of (default [] status) +:+ "'")
  | Some parsed =>
    let? value := match jfind (str "value") fields with
                  | None => Ok JNull
                  | Some ((JInt _ | JUInt _ | JFloat _ | JString _) as value) => Ok value
                  | Some _ => Err ("output '" +:+ text_of key +:+ "' value must be a number or a string")
                  end in
    let? summary := match jfind (str "summary") fields with
                    | None => Ok JNull
                    | Some (JObject fs) => Ok (JObject fs)
                    | Some _ => Err ("output '" +:+ text_of key +:+ "' summary must be an object")
                    end in
    let? reason := match jfind (str "reason") fields with
                   | None => Ok []
                   | Some (JString s) => Ok s
                   | Some _ => Err ("output '" +:+ text_of key +:+ "' reason must be a string")
                   end in
    Ok (mkOutput parsed value summary reason)
  end.

Fixpoint read_outputs (items : members) (outputs : gmap bytes EvaluationOutput) : Expected (gmap bytes EvaluationOutput) :=
  match items with
  | [] => Ok outputs
  | (key, fields) :: items' => let? output := read_output key fields in read_outputs items' (emplace key output outputs)
  end.

Definition read_bundle (entry : json) : Expected EvaluationBundle :=
  match reportInt64_at entry (str "requested_ns"), jfind (str "inputs") entry, jfind (str "outputs") entry with
  | Some requested, Some (JObject ins), Some (JObject outs) =>
    let? read := read_inputs requested ins ∅ None in
    let '(inputs, newest) := read in
    let stamp := match newest with Some n => n | None => requested end in
    let? outputs := read_outputs outs ∅ in
    Ok (mkBundle requested stamp inputs outputs)
  | _, _, _ => Err "a bundle needs an int64 requested_ns, an inputs object and an outputs object"
  end.

Definition read_inferred (entry : json) : Expected DataProcessorOutput :=
  match reportString entry (str "name"), reportString entry (str "type") with
  | Some name, Some type =>
    if negb (isReportOutputType type)
    then Err ("report output '" +:+ text_of name +:+ "' has unknown type '" +:+ text_of type +:+ "'")
    else Ok (mkProcessorOutput name type)
  | _, _ => Err "report outputs entries need a string name and type"
  end.

Definition error_text (error : option json) : Expected bytes :=
  match error with
  | None => Ok []
  | Some (JString s) => Ok s
  | Some _ => Err "coverage.error must be a string"
  end.

Definition inferred_list (inferred : option json) : Expected (list DataProcessorOutput) :=
  match inferred with
  | None => Ok []
  | Some (JArray os) => each_entry read_inferred os
  | Some _ => Err "report outputs must be an array"
  end.

(** [parseEvaluationReport] from the parsed document on. *)
Definition read_report (doc : json) : Expected EvaluationReport :=
  match jfind (str "coverage") doc, jfind (str "bundles") doc with
  | Some (JObject cs as coverage), Some (JArray entries) =>
    match jfind (str "candidates") coverage, jfind (str "evaluated") coverage with
    | Some (JUInt candidates), Some (JUInt evaluated) =>
      if evaluated >? candidates then Err "coverage.evaluated exceeds coverage.candidates"
      else
        let stopped := reportString coverage (str "stopped") in
        match reportEnum kStops stopped with
        | None => Err ("unknown coverage.stopped '" +:+ text_of (default [] stopped) +:+ "'")
        | Some stop =>
          let error := jfind (str "error") coverage in
          if xorb (if error then true else false) (bool_decide (stop = StopError))
          then Err "coverage.error must be present exactly when coverage.stopped is 'error'"
          else
            let? error := error_text error in
            match jfind (str "gaps") coverage with
            | Some (JArray gs) =>
              let? gaps := each_entry read_gap gs in
              let? bundles := each_entry read_bundle entries in
              if negb (Z.of_nat (length bundles) =? evaluated) then Err "coverage.evaluated must equal the number of bundles"
              else
                let? inferred := inferred_list (jfind (str "outputs") doc) in
                Ok (mkReport candidates evaluated stop error gaps bundles inferred)
            | _ => Err "coverage.gaps must be an array"
            end
        end
    | _, _ => Err "coverage.candidates and coverage.evaluated must be unsigned integers"
    end
  | _, _ => Err "evaluation report needs a coverage object and a bundles array"
  end.

Definition parseEvaluationReport (parse_json : bytes -> option json) (text : bytes) : Expected EvaluationReport :=
  if find_char (z2b 0) text then Err "evaluation report contains a NUL byte"
  else
    match parse_json text with
    | Some (JObject fs) => read_report (JObject fs)
    | _ => Err "evaluation report is not a JSON object"
    end.

(** ** Reports that are valid, and their documents *)

Definition newest_of (inputs : gmap bytes Z) (requested stamp : Z) : Prop :=
  (inputs = ∅ /\ stamp = requested) \/
  ((exists k, inputs !! k = Some stamp) /\ forall k t, inputs !! k = Some t -> t <= stamp).

Definition value_ok (v : json) : Prop := match v with JNull | JInt _ | JUInt _ | JFloat _ | JString _ => True | _ => False end.
Definition summary_ok (v : json) : Prop := match v with JNull | JObject _ => True | _ => False end.
Definition output_ok (o : EvaluationOutput) : Prop := value_ok (out_value o) /\ summary_ok (out_summary o).

Definition bundle_ok (b : EvaluationBundle) : Prop :=
  in_s 64 (requested_ns b) /\ map_Forall (fun _ t => in_s 64 t /\ t <= requested_ns b) (inputs b) /\
  newest_of (inputs b) (requested_ns b) (stamp_ns b) /\ map_Forall (fun _ o => output_ok o) (outputs b).

Definition report_ok (r : EvaluationReport) : Prop :=
  evaluated r = Z.of_nat (length (bundles r)) /\ evaluated r <= candidates r /\
  (stopped r <> StopError -> rep_error r = []) /\
  Forall (fun g => in_s 64 (from_ns g) /\ in_s 64 (to_ns g)) (gaps r) /\ Forall bundle_ok (bundles r) /\
  Forall (fun o => isReportOutputType (dpo_type o) = true) (inferred_outputs r).

(** An integer as a JSON text carries it. *)
Definition jint (z : Z) : json := if z <? 0 then JInt z else JUInt z.

Definition jmap {A} (f : A -> json) (m : gmap bytes A) : json := JObject (map_fold (fun k v fs => obj_set k (f v) fs) [] m).

Definition stop_text (s : EvaluationStop) : bytes :=
  match s with
  | StopComplete => str "complete" | StopBudgetTime => str "budget_time" | StopBudgetEvaluations => str "budget_evaluations"
  | StopBudgetBytes => str "budget_bytes" | StopBudgetReport => str "budget_report" | StopCancelled => str "cancelled"
  | StopError => str "error"
  end.

Definition status_text (s : EvaluationOutputStatus) : bytes :=
  match s with StatusOk => str "ok" | StatusUnavailable => str "unavailable" | StatusEmpty => str "empty" | StatusError => str "error" end.

Definition output_json (o : EvaluationOutput) : json :=
  jobject ([(str "status", JString (status_text (out_status o)))] ++
           match out_value o with JNull => [] | v => [(str "value", v)] end ++
           match out_summary o with JNull => [] | v => [(str "summary", v)] end ++
           [(str "reason", JString (out_reason o))]).

Definition bundle_json (b : EvaluationBundle) : json :=
  jobject [(str "requested_ns", jint (requested_ns b)); (str "inputs", jmap jint (inputs b)); (str "outputs", jmap output_json (outputs b))].

Definition gap_json (g : EvaluationGap) : json := jobject [(str "from_ns", jint (from_ns g)); (str "to_ns", jint (to_ns g))].

Definition inferred_json (o : DataProcessorOutput) : json :=
  jobject [(str "name", JString (dpo_name o)); (str "type", JString (dpo_type o))].

(** The document of a report; [extra] are members this version does not know. *)
Definition report_json (extra : members) (r : EvaluationReport) : json :=
  jobject ([(str "coverage", jobject ([(str "candidates", JUInt (candidates r)); (str "evaluated", JUInt (evaluated r));
               (str "stopped", JString (stop_text (stopped r)))] ++
              (if decide (stopped r = StopError) then [(str "error", JString (rep_error r))] else []) ++
              [(str "gaps", JArray (map gap_json (gaps r)))]));
            (str "bundles", JArray (map bundle_json (bundles r)));
            (str "outputs", JArray (map inferred_json (inferred_outputs r)))] ++ extra).

(** ** Finding members *)

Lemma jmap_find {A} (f : A -> json) m k : jfind k (jmap f m) = f <$> m !! k.
Proof.
  cbn [jfind jmap]. revert k. apply (map_fold_weak_ind (fun fs m => forall k, obj_find k fs = f <$> m !! k)); [intros k; by rewrite lookup_empty|].
  intros i x m' fs _ IH k. destruct (decide (i = k)) as [->|Hne].
  - by rewrite obj_find_set_eq, lookup_insert_eq.
  - by rewrite obj_find_set_ne, lookup_insert_ne.
Qed.

Lemma jmap_entries {A} (f : A -> json) m fs :
  jmap f m = JObject fs -> Forall (fun e => exists x, m !! e.1 = Some x /\ e.2 = f x) fs.
Proof.
  intros [= <-]. apply (map_fold_weak_ind (fun fs m => Forall (fun e => exists x, m !! e.1 = Some x /\ e.2 = f x) fs)); [constructor|].
  intros i x m' fs Hi IH. apply Forall_forall. intros e [->|He]%obj_set_in.
  - exists x. by rewrite lookup_insert_eq.
  - rewrite Forall_forall in IH. destruct (IH e He) as (y & Hy & E). exists y. rewrite lookup_insert_ne; [done|]. intros ->. congruence.
Qed.

(** ** The loops *)

Lemma lookup_emplace {A} k k' (v : A) m :
  emplace k v m !! k' = match m !! k' with Some x => Some x | None => if decide (k = k') then Some v else None end.
Proof.
  unfold emplace. destruct (m !! k) as [x|] eqn:E.
  - destruct (m !! k') eqn:E'; [done|]. case_decide; [congruence|done].
  - destruct (decide (k = k')) as [->|Hne].
    + by rewrite lookup_insert_eq, E.
    + rewrite lookup_insert_ne by done. by destruct (m !! k').
Qed.

Lemma read_inputs_sound req fs : forall m0 n0 m n,
  read_inputs req fs m0 n0 = Ok (m, n) ->
  (forall k, m !! k = match m0 !! k with
                      | Some x => Some x
                      | None => match obj_find k fs with Some v => reportInt64 v | None => None end
                      end) /\
  (forall e, e ∈ fs -> exists t x, reportInt64 e.2 = Some t /\ t <= req /\ n = Some x /\ t <= x) /\
  (forall y, n0 = Some y -> exists x, n = Some x /\ y <= x) /\
  (forall x, n = Some x -> n0 = Some x \/ exists e, e ∈ fs /\ reportInt64 e.2 = Some x).
Proof.
  induction fs as [|[a v] fs IH]; intros m0 n0 m n; cbn [read_inputs].
  - intros [= <- <-]. split_and!; [intros k; by destruct (m0 !! k)|by intros e ?%elem_of_nil|intros y ->; by exists y|auto].
  - destruct (reportInt64 v) as [t|] eqn:Et; [|done]. destruct (t >? req) eqn:Er; [done|]. intros H.
    apply IH in H as (H1 & H2 & H3 & H4). split_and!.
    + intros k. rewrite H1, lookup_emplace. cbn [obj_find]. destruct (m0 !! k); [done|]. case_decide as Ek.
      * subst. by rewrite bytes_eqb_refl.
      * by rewrite (proj2 (bytes_eqb_neq a k)).
    + intros e [->|He]%elem_of_cons; [|by apply H2]. destruct (H3 _ eq_refl) as (x & Hx & Hle). exists t, x.
      split_and!; [done|blia|done|]. destruct n0; lia.
    + intros y ->. destruct (H3 _ eq_refl) as (x & Hx & Hle). exists x. split; [done|lia].
    + intros x Hx. destruct (H4 x Hx) as [Hn|(e & He & Hv)].
      * injection Hn as Hn. destruct n0 as [y|].
        -- destruct (Z.max_spec y t) as [[_ Hm]|[_ Hm]]; rewrite Hm in Hn; subst x; [|by left].
           right. exists (a, v). split; [left|done].
        -- subst x. right. exists (a, v). split; [left|done].
      * right. exists e. split; [by right|done].
Qed.

Lemma read_inputs_complete req fs : forall m0 n0,
  Forall (fun e => exists t, reportInt64 e.2 = Some t /\ t <= req) fs -> exists m n, read_inputs req fs m0 n0 = Ok (m, n).
Proof.
  induction fs as [|[a v] fs IH]; intros m0 n0 H; cbn [read_inputs]; [eauto|].
  apply Forall_cons in H as [(t & Ht & Hle) H]. cbn [snd] in Ht. rewrite Ht.
  assert (t >? req = false) as -> by blia. by apply IH.
Qed.

Lemma read_outputs_sound fs : forall m0 m,
  read_outputs fs m0 = Ok m ->
  forall k, match m0 !! k with
            | Some x => m !! k = Some x
            | None => match obj_find k fs with
                      | Some v => exists o, read_output k v = Ok o /\ m !! k = Some o
                      | None => m !! k = None
                      end
            end.
Proof.
  induction fs as [|[a v] fs IH]; intros m0 m; cbn [read_outputs].
  - intros [= <-] k. by destruct (m0 !! k) eqn:E.
  - destruct (read_output a v) as [o|] eqn:Eo; [|done]. cbn [ebind]. intros H k. specialize (IH _ _ H k).
    rewrite lookup_emplace in IH. cbn [obj_find]. destruct (m0 !! k); [done|]. case_decide as Ek.
    + subst. rewrite bytes_eqb_refl. eauto.
    + by rewrite (proj2 (bytes_eqb_neq a k)).
Qed.

Lemma read_outputs_complete fs : forall m0,
  Forall (fun e => exists o, read_output e.1 e.2 = Ok o) fs -> exists m, read_outputs fs m0 = Ok m.
Proof.
  induction fs as [|[a v] fs IH]; intros m0 H; cbn [read_outputs]; [eauto|].
  apply Forall_cons in H as [(o & Ho) H]. cbn [fst snd] in Ho. rewrite Ho. by apply IH.
Qed.

(** ** Bundles *)

Lemma reportInt64_range v t : wf v = true -> reportInt64 v = Some t -> in_s 64 t.
Proof.
  destruct v; try done; cbn [reportInt64 wf].
  - by intros H%bool_decide_eq_true [= <-].
  - intros H%bool_decide_eq_true. unfold toSignedTicks. destruct (z >? INT64_MAX) eqn:E; [done|]. intros [= <-].
    apply in_s64_iff. unfold in_u in H. blia.
Qed.

Lemma reportInt64_jint z : in_s 64 z -> reportInt64 (jint z) = Some z.
Proof.
  rewrite in_s64_iff. intros H. unfold jint. destruct (z <? 0) eqn:E; [done|]. cbn. unfold toSignedTicks.
  assert (z >? INT64_MAX = false) as -> by blia. done.
Qed.

Lemma wf_jfind k j v : wf j = true -> jfind k j = Some v -> wf v = true.
Proof. destruct j; try done. apply wf_obj_find. Qed.

Lemma newest_unique ins req s1 s2 : newest_of ins req s1 -> newest_of ins req s2 -> s1 = s2.
Proof.
  intros [[E ->]|[(k1 & H1) M1]] [[E' ->]|[(k2 & H2) M2]]; [done|by rewrite E, lookup_empty in H2|by rewrite E', lookup_empty in H1|].
  pose proof (M1 _ _ H2). pose proof (M2 _ _ H1). lia.
Qed.

(** The stamp that is read is the newest input; keys are listed once. *)
Lemma read_newest req fs m n :
  (forall k v, (k, v) ∈ fs -> obj_find k fs = Some v) -> read_inputs req fs ∅ None = Ok (m, n) ->
  newest_of m req (match n with Some x => x | None => req end) /\
  map_Forall (fun k t => t <= req /\ exists v, (k, v) ∈ fs /\ reportInt64 v = Some t) m.
Proof.
  intros Hwf H. apply read_inputs_sound in H as (Hm & He & _ & Hn).
  assert (forall k t, m !! k = Some t -> exists v, obj_find k fs = Some v /\ reportInt64 v = Some t) as Hback.
  { intros k t Hk. rewrite Hm, lookup_empty in Hk. destruct (obj_find k fs); [eauto|done]. }
  assert (forall k t, m !! k = Some t -> exists x, n = Some x /\ t <= x /\ t <= req) as Hle.
  { intros k t Hk. destruct (Hback k t Hk) as (v & Hv & Ht). apply obj_find_in in Hv.
    destruct (He _ Hv) as (t' & x & Ht' & Hr & Hx & Hxle). cbn [snd] in Ht'. exists x. split; [done|]. split; congruence || (replace t with t' by congruence; done). }
  split; [|intros k t Hk; destruct (Hle k t Hk) as (_ & _ & _ & ?); split; [done|];
    destruct (Hback k t Hk) as (v & Hv & Ht); exists v; split; [by apply obj_find_in|done]]. destruct n as [x|].
  - right. split; [|intros k t Hk; destruct (Hle k t Hk) as (y & [= <-] & ? & _); done].
    destruct (Hn x eq_refl) as [?|([k v] & Hin & Hv)]; [done|]. exists k. rewrite Hm, lookup_empty. by rewrite (Hwf _ _ Hin).
  - left. split; [|done]. apply map_empty. intros k. destruct (m !! k) as [t|] eqn:Ek; [|done].
    by destruct (Hle k t Ek) as (x & ? & _).
Qed.

Lemma read_output_ok k v o : read_output k v = Ok o -> output_ok o.
Proof.
  unfold read_output. destruct (reportEnum _ _); [|done]. intros H.
  destruct (jfind (str "value") v) as [[]|]; cbn [ebind] in H; try done;
    destruct (jfind (str "summary") v) as [[]|]; cbn [ebind] in H; try done;
    destruct (jfind (str "reason") v) as [[]|]; cbn [ebind] in H; try done; by injection H as <-.
Qed.

Lemma read_bundle_ok entry b : wf entry = true -> read_bundle entry = Ok b -> bundle_ok b.
Proof.
  intros Hwf. unfold read_bundle, reportInt64_at. destruct (jfind (str "requested_ns") entry) as [rv|] eqn:Er; [|done].
  destruct (reportInt64 rv) as [req|] eqn:Eq; [|done]. destruct (jfind (str "inputs") entry) as [[| | | | | | |ins]|] eqn:Ei; try done.
  destruct (jfind (str "outputs") entry) as [[| | | | | | |outs]|] eqn:Eo; try done.
  destruct (read_inputs req ins ∅ None) as [[m n]|] eqn:Em; [|done]. cbn [ebind].
  destruct (read_outputs outs ∅) as [om|] eqn:Eom; [|done]. cbn [ebind]. intros [= <-].
  pose proof (wf_jfind _ _ _ Hwf Ei) as Hwi. destruct (read_newest req ins m n (fun k v => wf_found ins k v Hwi) Em) as [Hn Hle].
  unfold bundle_ok. cbn [requested_ns inputs stamp_ns outputs]. split_and!; [| |done|].
  - exact (reportInt64_range rv req (wf_jfind _ _ _ Hwf Er) Eq).
  - intros k t Hk. destruct (Hle k t Hk) as (Ht & v & Hv & Hr). split; [|done].
    exact (reportInt64_range v t (wf_obj_find _ _ _ Hwi (wf_found _ _ _ Hwi Hv)) Hr).
  - intros k o Hk. pose proof (read_outputs_sound _ _ _ Eom k) as Hs. rewrite lookup_empty in Hs.
    destruct (obj_find k outs); [|congruence]. destruct Hs as (o' & Ho & Hk'). assert (o = o') as -> by congruence. by eapply read_output_ok.
Qed.

(** ** Reading back *)

Lemma status_back s : reportEnum kStatuses (Some (status_text s)) = Some s.
Proof. by destruct s. Qed.

Lemma stop_back s : reportEnum kStops (Some (stop_text s)) = Some s.
Proof. by destruct s. Qed.

Lemma read_output_back k o : output_ok o -> read_output k (output_json o) = Ok o.
Proof.
  destruct o as [s v m r]. intros [Hv Hm]. cbn [out_value out_summary] in *. unfold read_output, reportString, output_json.
  cbn [out_status out_value out_summary out_reason].
  destruct v; try done; destruct m; try done; cbn [app]; repeat find_member; rewrite status_back; reflexivity.
Qed.

Lemma jmap_object {A} (f : A -> json) m : exists fs, jmap f m = JObject fs.
Proof. by eexists. Qed.

Lemma jmap_found {A} (f : A -> json) m fs k v : jmap f m = JObject fs -> (k, v) ∈ fs -> obj_find k fs = Some v.
Proof.
  intros E Hin. pose proof (jmap_entries f m fs E) as H. rewrite Forall_forall in H. destruct (H _ Hin) as (x & Hx & Hv).
  cbn [fst snd] in *. pose proof (jmap_find f m k) as Hf. rewrite E in Hf. cbn [jfind] in Hf. rewrite Hf, Hx. by rewrite Hv.
Qed.

Lemma read_bundle_back b : bundle_ok b -> read_bundle (bundle_json b) = Ok b.
Proof.
  destruct b as [req stamp ins outs]. intros (Hreq & Hins & Hst & Houts). cbn [requested_ns inputs stamp_ns outputs] in *.
  unfold read_bundle, reportInt64_at, bundle_json. cbn [requested_ns inputs outputs]. repeat find_member.
  rewrite reportInt64_jint by done.
  destruct (jmap_object jint ins) as [fi Ei]. destruct (jmap_object output_json outs) as [fo Eo]. rewrite Ei, Eo.
  destruct (read_inputs_complete req fi ∅ None) as (m & n & Em).
  { eapply Forall_impl; [apply (jmap_entries _ _ _ Ei)|]. intros e (t & Ht & E). exists t. rewrite E.
    destruct (Hins _ _ Ht) as [H1 H2]. split; [by apply reportInt64_jint|done]. }
  rewrite Em. cbn [ebind]. assert (m = ins) as ->.
  { apply map_eq. intros k. destruct (read_inputs_sound _ _ _ _ _ _ Em) as [Hm _]. rewrite Hm, lookup_empty.
    pose proof (jmap_find jint ins k) as Hf. rewrite Ei in Hf. cbn [jfind] in Hf. rewrite Hf.
    destruct (ins !! k) as [t|] eqn:Ek; [|done]. cbn. apply reportInt64_jint. by destruct (Hins _ _ Ek). }
  destruct (read_newest req fi ins n (fun k v => jmap_found jint ins fi k v Ei) Em) as [Hn _].
  rewrite (newest_unique _ _ _ _ Hn Hst). destruct (read_outputs_complete fo ∅) as (om & Eom).
  { eapply Forall_impl; [apply (jmap_entries _ _ _ Eo)|]. intros e (o & Ho & E). exists o. rewrite E.
    by apply read_output_back, (Houts e.1). }
  rewrite Eom. cbn [ebind]. assert (om = outs) as ->; [|done].
  apply map_eq. intros k. pose proof (read_outputs_sound _ _ _ Eom k) as Hs. rewrite lookup_empty in Hs.
  pose proof (jmap_find output_json outs k) as Hf. rewrite Eo in Hf. cbn [jfind] in Hf. rewrite Hf in Hs.
  destruct (outs !! k) as [o|] eqn:Ek; cbn [fmap option_fmap option_map] in Hs; [|done].
  destruct Hs as (o' & Ho' & ->). rewrite read_output_back in Ho' by (by apply (Houts k)). by injection Ho' as ->.
Qed.

Lemma read_gap_back g : in_s 64 (from_ns g) /\ in_s 64 (to_ns g) -> read_gap (gap_json g) = Ok g.
Proof.
  destruct g as [f t]. intros [Hf Ht]. cbn [from_ns to_ns] in *. unfold read_gap, reportInt64_at, gap_json. cbn [from_ns to_ns].
  repeat find_member. by rewrite !reportInt64_jint.
Qed.

Lemma read_inferred_back o : isReportOutputType (dpo_type o) = true -> read_inferred (inferred_json o) = Ok o.
Proof.
  destruct o as [n t]. cbn [dpo_type]. intros Ht. unfold read_inferred, reportString, inferred_json. cbn [dpo_name dpo_type].
  repeat find_member. by rewrite Ht.
Qed.

Lemma wf_array_entries k j l : wf j = true -> jfind k j = Some (JArray l) -> Forall (fun e => wf e = true) l.
Proof. intros Hj Hk. apply wf_array. by eapply wf_jfind. Qed.

Lemma Forall2_right {A B} (P : A -> Prop) (R : A -> B -> Prop) (Q : B -> Prop) l k :
  Forall2 R l k -> Forall P l -> (forall x y, P x -> R x y -> Q y) -> Forall Q k.
Proof. intros H HP Hi. induction H as [|x y l k Hxy _ IH]; [done|]. apply Forall_cons in HP as [? ?]. constructor; eauto. Qed.

Lemma read_report_ok doc r : wf doc = true -> read_report doc = Ok r -> report_ok r.
Proof.
  intros Hwf. unfold read_report. destruct (jfind (str "coverage") doc) as [cov|] eqn:Ec; [|done]. destruct cov as [| | | | | | |cs]; try done.
  destruct (jfind (str "bundles") doc) as [[| | | | | |entries|]|] eqn:Eb; try done. pose proof (wf_jfind _ _ _ Hwf Ec) as Hwc.
  set (coverage := JObject cs) in *.
  destruct (jfind (str "candidates") coverage) as [[| | |cand| | | |]|]; try done.
  destruct (jfind (str "evaluated") coverage) as [[| | |ev| | | |]|]; try done.
  destruct (ev >? cand) eqn:Eev; [done|]. destruct (reportEnum kStops _) as [stop|]; [|done]. cbv zeta.
  destruct (xorb _ _) eqn:Ex; [done|].
  destruct (error_text _) as [err|] eqn:Eerr; [|done]. cbn [ebind].
  destruct (jfind (str "gaps") coverage) as [[| | | | | |gs|]|] eqn:Eg; try done.
  destruct (each_entry read_gap gs) as [gl|] eqn:Egs; [|done]. cbn [ebind].
  destruct (each_entry read_bundle entries) as [bs|] eqn:Ebs; [|done]. cbn [ebind].
  destruct (Z.of_nat (length bs) =? ev) eqn:El; [|done]. cbn [negb].
  destruct (inferred_list _) as [inf|] eqn:Einf; [|done]. cbn [ebind].
  intros [= <-]. unfold report_ok. cbn [evaluated candidates bundles stopped rep_error gaps inferred_outputs]. split_and!.
  - blia.
  - blia.
  - intros Hs. rewrite bool_decide_eq_false_2 in Ex by done. destruct (jfind (str "error") coverage); [done|]. by injection Eerr as <-.
  - eapply (Forall2_right (fun e => wf e = true) _ _ _ _ (each_entry_sound _ _ _ Egs)); [exact (wf_array_entries _ _ _ Hwc Eg)|].
    intros e g He. cbn. unfold read_gap, reportInt64_at. destruct (jfind (str "from_ns") e) as [fv|] eqn:Ef; [|done].
    destruct (reportInt64 fv) as [f|] eqn:Efv; [|done]. destruct (jfind (str "to_ns") e) as [tv|] eqn:Et; [|done].
    destruct (reportInt64 tv) as [t|] eqn:Etv; [|done]. intros [= <-]. cbn [from_ns to_ns].
    split; [exact (reportInt64_range fv f (wf_jfind _ _ _ He Ef) Efv)|exact (reportInt64_range tv t (wf_jfind _ _ _ He Et) Etv)].
  - eapply (Forall2_right (fun e => wf e = true) _ _ _ _ (each_entry_sound _ _ _ Ebs)); [exact (wf_array_entries _ _ _ Hwf Eb)|].
    intros e b. apply read_bundle_ok.
  - destruct (jfind (str "outputs") doc) as [[| | | | | |os|]|]; try done; [|by injection Einf as <-].
    eapply (Forall2_right (fun _ => True) _ _ _ _ (each_entry_sound _ _ _ Einf)); [by apply Forall_forall|].
    intros e o _. unfold read_inferred. destruct (reportString e (str "name")), (reportString e (str "type")) as [t|]; try done.
    destruct (isReportOutputType t) eqn:E; [|done]. by intros [= <-].
Qed.

(** The keys a report has at its root. *)
Definition root_keys : list bytes := [str "coverage"; str "bundles"; str "outputs"].

Lemma report_find extra r :
  NoDup (root_keys ++ map fst extra) -> exists c,
  report_json extra r = jobject (((str "coverage"), c) :: (str "bundles", JArray (map bundle_json (bundles r))) ::
    (str "outputs", JArray (map inferred_json (inferred_outputs r))) :: extra) /\
  (exists cs, c = JObject cs) /\
  jfind (str "candidates") c = Some (JUInt (candidates r)) /\ jfind (str "evaluated") c = Some (JUInt (evaluated r)) /\
  jfind (str "stopped") c = Some (JString (stop_text (stopped r))) /\
  jfind (str "error") c = (if decide (stopped r = StopError) then Some (JString (rep_error r)) else None) /\
  jfind (str "gaps") c = Some (JArray (map gap_json (gaps r))).
Proof.
  intros Hn. eexists. split; [reflexivity|]. split; [by eexists|].
  destruct (decide (stopped r = StopError)); cbn [app]; split_and!; find_member; reflexivity.
Qed.

Lemma read_report_back extra r :
  report_ok r -> NoDup (root_keys ++ map fst extra) -> read_report (report_json extra r) = Ok r.
Proof.
  intros (He & Hc & Herr & Hg & Hb & Hi) Hn. destruct (report_find extra r Hn) as (c & -> & (cs & Ecs) & F1 & F2 & F3 & F4 & F5).
  unfold read_report.
  assert (forall k, jfind k (jobject ((str "coverage", c) :: (str "bundles", JArray (map bundle_json (bundles r))) ::
    (str "outputs", JArray (map inferred_json (inferred_outputs r))) :: extra)) =
    obj_find k ((str "coverage", c) :: (str "bundles", JArray (map bundle_json (bundles r))) ::
    (str "outputs", JArray (map inferred_json (inferred_outputs r))) :: extra)) as Hf by (intros k; by apply jobject_find).
  rewrite !Hf. clear Hf. repeat first [rewrite obj_find_hd | rewrite obj_find_tl by by_compute].
  rewrite Ecs in *. rewrite F1, F2, F4, F5. unfold reportString. rewrite F3, stop_back.
  assert (evaluated r >? candidates r = false) as -> by blia. cbv zeta.
  rewrite (each_entry_back read_gap gap_json) by (eapply Forall_impl; [exact Hg|apply read_gap_back]).
  rewrite (each_entry_back read_bundle bundle_json) by (eapply Forall_impl; [exact Hb|apply read_bundle_back]).
  cbn [ebind inferred_list error_text].
  rewrite (each_entry_back read_inferred inferred_json) by (eapply Forall_impl; [exact Hi|apply read_inferred_back]).
  cbn [ebind]. rewrite <-He, Z.eqb_refl. destruct r as [cand ev stop err gs bs inf]. cbn [stopped rep_error] in *.
  case_decide as Es.
  - subst stop. by rewrite bool_decide_eq_true_2.
  - rewrite bool_decide_eq_false_2 by done. cbn [xorb ebind]. by rewrite (Herr Es).
Qed.

(** * Properties *)

Section Reader.
(** The library's parser: a document is a map of numbers of their width. *)
Context (parse_json : bytes -> option json) (parse_wf : forall text doc, parse_json text = Some doc -> wf doc = true).

(** C30 The reader accepts valid reports only: as many bundles as were evaluated, no more than there were candidates, no
    input after the requested instant, the stamp the newest input, 64-bit times, known types, an error exactly when
    the evaluation ended with one; and it reads every valid report back from its document, whatever further members
    that has. *)
Theorem report_exact text extra r :
  (parseEvaluationReport parse_json text = Ok r -> report_ok r) /\
  (report_ok r -> NoDup (root_keys ++ map fst extra) -> z2b 0 ∉ text -> parse_json text = Some (report_json extra r) ->
   parseEvaluationReport parse_json text = Ok r).
Proof.
  unfold parseEvaluationReport. split.
  - destruct (find_char _ text); [done|]. destruct (parse_json text) as [[| | | | | | |fs]|] eqn:E; try done.
    apply read_report_ok. by apply (parse_wf text).
  - intros Hr Hn H0 E. rewrite (proj2 (find_char_none _ _) H0), E. pose proof (read_report_back extra r Hr Hn) as H.
    unfold report_json, jobject in *. exact H.
Qed.

End Reader.

(** ** Runs *)

Definition sample_bundle : EvaluationBundle :=
  mkBundle 10 7 {[ str "a" := 5; str "b" := 7 ]} {[ str "speed" := mkOutput StatusOk (JUInt 3) JNull [] ]}.

Definition sample_report : EvaluationReport :=
  mkReport 4 1 StopError (str "boom") [mkGap (-5) 3] [sample_bundle] [mkProcessorOutput (str "speed") (str "number")].

Lemma sample_report_ok : report_ok sample_report.
Proof.
  unfold report_ok. cbn [evaluated candidates stopped rep_error gaps bundles inferred_outputs sample_report].
  split_and!; [done|lia|done| | |by_compute].
  - repeat constructor; by_compute.
  - constructor; [|done]. unfold bundle_ok, sample_bundle. cbn [requested_ns stamp_ns inputs outputs]. split_and!.
    + by_compute.
    + by_compute.
    + right. split; [exists (str "b"); vm_compute; reflexivity|].
      assert (map_Forall (fun _ t => t <= 7) ({[ str "a" := 5; str "b" := 7 ]} : gmap bytes Z)) as H by by_compute. exact H.
    + by apply map_Forall_singleton.
Qed.

Definition sample_parser (_ : bytes) : option json := Some (report_json [(str "version", JUInt 2)] sample_report).

Lemma sample_wf text doc : sample_parser text = Some doc -> wf doc = true.
Proof.
  intros E. apply (f_equal (fun o => match o with Some j => wf j | None => true end)) in E. cbn [sample_parser] in E.
  rewrite <-E. vm_compute. reflexivity.
Qed.

Example report_exact_witness : parseEvaluationReport sample_parser (str "{}") = Ok sample_report.
Proof.
  apply (report_exact sample_parser sample_wf (str "{}") [(str "version", JUInt 2)] sample_report).
  - exact sample_report_ok.
  - by_compute.
  - by_compute.
  - reflexivity.
Defined.
