(* ===== verification/ClaimManifest.v ===== *)
(** * ClaimManifest: the manifest of a parser module

    [decodeParserModuleManifest] and [ParserClaimCatalog::ingestModuleManifest] of
    [pj_plugins/src/parser_claim_catalog.cpp]: from the JSON text a module embeds to the claims in the host's
    catalog ([ClaimCatalog]).  The JSON parser is a parameter: a function from texts to the documents of [Json.v], or the text
    of its exception. *)

From stdpp Require Import base list pretty.
From S2P Require Import Prelude Text SemVer Json ClaimCatalog.

Record ParserModuleManifest : Set := mkManifest {
  mm_id : bytes; mm_name : bytes; mm_version : bytes; mm_claims : list ParserClaim }.

Definition PJ_PARSER_MODULE_ABI_VERSION : Z := 1.

Definition requiredString (object : json) (key : bytes) (context : string) : Expected bytes :=
  match jfind key object with
  | Some (JString ((_ :: _) as s)) => Ok s
  | _ => Err (context +:+ " missing required non-empty string key: " +:+ text_of key)
  end.

Definition priority_range {A} : Expected A := Err "parser module manifest claim priority does not fit int32".

Definition requiredPriority (object : json) (claim_index : nat) : Expected Z :=
  match jfind (str "priority") object with
  | Some (JUInt value) => if value >? 2147483647 then priority_range else Ok value
  | Some (JInt value) => if (value <? -2147483648) || (value >? 2147483647) then priority_range else Ok value
  | _ => Err ("parser module manifest claim " +:+ pretty claim_index +:+ " missing integer priority")
  end.

(** The loop over the names of the routes. *)
Fixpoint route_flags_loop (claim_index : nat) (routes : list json) (flags : Z) : Expected Z :=
  match routes with
  | [] => Ok flags
  | JString name :: routes' =>
    if bytes_eqb name (str "scalar") then route_flags_loop claim_index routes' (Z.lor flags ROUTE_FLAG_SCALAR)
    else if bytes_eqb name (str "object") then route_flags_loop claim_index routes' (Z.lor flags ROUTE_FLAG_OBJECT)
    else Err ("parser module manifest claim uses unknown route: " +:+ text_of name)
  | _ => Err ("parser module manifest claim " +:+ pretty claim_index +:+ " routes must contain strings")
  end.

Definition readRouteFlags (claim : json) (claim_index : nat) : Expected Z :=
  match jfind (str "routes") claim with
  | Some (JArray ((_ :: _) as routes)) => route_flags_loop claim_index routes 0
  | _ => Err ("parser module manifest claim " +:+ pretty claim_index +:+ " requires a non-empty routes array")
  end.

(** [insert] in a [std::set<std::string>], the list of its elements in order. *)
Fixpoint set_insert (x : bytes) (s : list bytes) : list bytes :=
  match s with
  | [] => [x]
  | y :: s' => match string_cmp x y with Lt => x :: y :: s' | Eq => y :: s' | Gt => y :: set_insert x s' end
  end.

Fixpoint digests_loop (claim_index : nat) (values : list json) (digests : list bytes) : Expected (list bytes) :=
  match values with
  | [] => Ok digests
  | JString value :: values' => digests_loop claim_index values' (set_insert value digests)
  | _ => Err ("parser module manifest claim " +:+ pretty claim_index +:+ " schema_digests must contain strings")
  end.

Definition readSchemaDigests (claim : json) (claim_index : nat) : Expected (list bytes) :=
  match jfind (str "schema_digests") claim with
  | None => Ok []
  | Some (JArray values) => digests_loop claim_index values []
  | Some _ => Err ("parser module manifest claim " +:+ pretty claim_index +:+ " schema_digests must be an array")
  end.

Definition readObjectType (claim : json) : Expected (option Z) :=
  match jfind (str "object_type") claim with
  | None => Ok None
  | Some (JString name) =>
    match parseBuiltinObjectType name with
    | Some t =>
      if t =? 0 then Err ("parser module manifest claim uses unknown object_type: " +:+ text_of name) else Ok (Some t)
    | None => Err ("parser module manifest claim uses unknown object_type: " +:+ text_of name)
    end
  | Some _ => Err "parser module manifest claim object_type must be a string"
  end.

Definition is_object (j : json) : bool := match j with JObject _ => true | _ => false end.
Definition jcontains (key : bytes) (j : json) : bool := match jfind key j with Some _ => true | None => false end.

(** The body of the loop over the claims, up to the test of the identity. *)
Definition decode_claim (provider : bytes) (p : ParserClaimProvenance) (index : nat) (claim_json : json)
  : Expected ParserClaim :=
  if negb (is_object claim_json) then Err ("parser module manifest claim " +:+ pretty index +:+ " must be an object")
  else if jcontains (str "provenance") claim_json
  then Err "parser module manifest claim must not declare host-owned provenance"
  else
    let? claim_id := requiredString claim_json (str "claim_id") "parser module manifest claim" in
    let? encoding := requiredString claim_json (str "encoding") "parser module manifest claim" in
    let? type_name := requiredString claim_json (str "type_name") "parser module manifest claim" in
    let? route_flags := readRouteFlags claim_json index in
    let? priority := requiredPriority claim_json index in
    let? schema_digests := readSchemaDigests claim_json index in
    let? object_type := readObjectType claim_json in
    normalizeAndValidateClaim
      (mkClaim encoding type_name route_flags object_type schema_digests provider claim_id priority p).

Fixpoint decode_claims (provider : bytes) (p : ParserClaimProvenance) (index : nat) (claims_json : list json)
    (claims : list ParserClaim) : Expected (list ParserClaim) :=
  match claims_json with
  | [] => Ok claims
  | claim_json :: claims_json' =>
    let? validated := decode_claim provider p index claim_json in
    if existsb (fun c => bool_decide (identity c = identity validated)) claims then duplicate_error validated
    else decode_claims provider p (S index) claims_json' (claims ++ [validated])
  end.

Definition check_abi (abi : option json) : Expected unit :=
  match abi with
  | Some (JUInt v) =>
    if v =? PJ_PARSER_MODULE_ABI_VERSION then Ok tt
    else Err ("parser module manifest module_abi does not match host ABI " +:+ pretty PJ_PARSER_MODULE_ABI_VERSION)
  | Some (JInt _) =>
    Err ("parser module manifest module_abi does not match host ABI " +:+ pretty PJ_PARSER_MODULE_ABI_VERSION)
  | _ => Err "parser module manifest missing integer module_abi"
  end.

Definition check_version (version : bytes) : Expected unit :=
  match SemVer.parse version with
  | Ok _ => Ok tt
  | Err error => Err ("parser module manifest version is not valid SemVer: " +:+ error)
  end.

(** [decodeParserModuleManifest] from the parsed document on. *)
Definition decode_document (json : json) (p : ParserClaimProvenance) : Expected ParserModuleManifest :=
  if negb (is_object json) then Err "parser module manifest must be a JSON object"
  else if jcontains (str "provenance") json then Err "parser module manifest must not declare host-owned provenance"
  else
    let? _ := check_abi (jfind (str "module_abi") json) in
    let? id := requiredString json (str "id") "parser module manifest" in
    let? name := requiredString json (str "name") "parser module manifest" in
    let? version := requiredString json (str "version") "parser module manifest" in
    let? _ := check_version version in
    match jfind (str "claims") json with
    | Some (JArray claims_json) =>
      let? claims := decode_claims id p 0 claims_json [] in
      Ok (mkManifest id name version claims)
    | _ => Err "parser module manifest requires a claims array"
    end.

Section Manifest.
Context (parse_json : bytes -> json + string).

Definition decodeParserModuleManifest (manifest_json : bytes) (p : ParserClaimProvenance) : Expected ParserModuleManifest :=
  if bool_decide (manifest_json = []) then Err "parser module manifest is empty"
  else
    match parse_json manifest_json with
    | inr what => Err ("parser module manifest is invalid JSON: " +:+ what)
    | inl json => decode_document json p
    end.

Definition ingestModuleManifest (manifest_json : bytes) (p : ParserClaimProvenance) (provider_generation : Z)
    (k : ParserClaimCatalog) : Expected ParserModuleManifest * ParserClaimCatalog :=
  match decodeParserModuleManifest manifest_json p with
  | Err error => (Err error, report kError [] error k)
  | Ok manifest =>
    let '(admission, k) := admitClaims (mm_claims manifest) p provider_generation k in
    match admission with Err error => (Err error, k) | Ok _ => (Ok manifest, k) end
  end.

End Manifest.

(** ** Manifests that are valid, and their documents *)

Definition manifest_ok (p : ParserClaimProvenance) (m : ParserModuleManifest) : Prop :=
  mm_id m <> [] /\ mm_name m <> [] /\ SemVer.isValid (mm_version m) = true /\
  plugin_claims (mm_id m) p (mm_claims m) /\
  Forall (fun c => keys_ascending (schema_digests c) = true) (mm_claims m).

Definition routes_json (flags : Z) : json :=
  jstrings ((if Z.land flags ROUTE_FLAG_SCALAR =? 0 then [] else [str "scalar"]) ++
            (if Z.land flags ROUTE_FLAG_OBJECT =? 0 then [] else [str "object"])).

Definition claim_json (c : ParserClaim) : json :=
  jobject ([(str "claim_id", JString (claim_id c)); (str "encoding", JString (encoding c));
            (str "type_name", JString (type_name c)); (str "routes", routes_json (route_flags c));
            (str "priority", wire (JInt (priority c))); (str "schema_digests", jstrings (schema_digests c))] ++
           match object_type c with Some t => [(str "object_type", JString (builtin_name t))] | None => [] end).

(** The document of a manifest; [extra] are members the decoder does not know. *)
Definition manifest_json (extra : members) (m : ParserModuleManifest) : json :=
  jobject ([(str "module_abi", JUInt PJ_PARSER_MODULE_ABI_VERSION); (str "id", JString (mm_id m));
            (str "name", JString (mm_name m)); (str "version", JString (mm_version m));
            (str "claims", JArray (map claim_json (mm_claims m)))] ++ extra).

(** ** Sets of digests *)

Lemma set_insert_in x s y : y ∈ set_insert x s <-> y = x \/ y ∈ s.
Proof.
  induction s as [|z s IH]; cbn [set_insert]; [rewrite elem_of_cons; done|].
  destruct (string_cmp x z) eqn:E; rewrite !elem_of_cons; [apply string_cmp_eq in E as ->|..]; tauto.
Qed.

Lemma set_insert_ascending x s : keys_ascending s = true -> keys_ascending (set_insert x s) = true.
Proof.
  induction s as [|z s IH]; [done|]. intros H. pose proof H as [Hs Hz]%keys_ascending_cons. cbn [set_insert].
  destruct (string_cmp x z) eqn:E; [done| |].
  - apply keys_ascending_cons. split; [done|]. constructor; [done|]. eapply Forall_impl; [exact Hz|].
    intros y Hy. cbn in Hy. by apply (cmp_lt_trans (P:=fun _ => True) (cmp:=string_cmp) x z y).
  - apply keys_ascending_cons. split; [by apply IH|]. apply Forall_forall. intros y [->|Hy]%set_insert_in.
    + by rewrite (cmp_flip (P:=fun _ => True) (cmp:=string_cmp) x z), E.
    + rewrite Forall_forall in Hz. by apply Hz.
Qed.

Lemma set_insert_last x s : Forall (fun y => string_cmp y x = Lt) s -> set_insert x s = s ++ [x].
Proof.
  induction 1 as [|y s Hy _ IH]; [done|]. cbn [set_insert app].
  by rewrite (cmp_flip (P:=fun _ => True) (cmp:=string_cmp) y x), Hy, IH.
Qed.

Lemma digests_loop_ascending i values acc ds :
  keys_ascending acc = true -> digests_loop i values acc = Ok ds -> keys_ascending ds = true.
Proof.
  revert acc. induction values as [|[| | | | |s| |] values IH]; intros acc Ha; cbn [digests_loop]; try done; [by intros [= <-]|].
  by apply IH, set_insert_ascending.
Qed.

Lemma digests_loop_back i ds acc :
  keys_ascending (acc ++ ds) = true -> digests_loop i (map JString ds) acc = Ok (acc ++ ds).
Proof.
  revert acc. induction ds as [|d ds IH]; intros acc Ha; cbn [map digests_loop]; [by rewrite app_nil_r|].
  assert (forall l, keys_ascending (l ++ d :: ds) = true -> Forall (fun y => string_cmp y d = Lt) l) as Hlt.
  { induction l as [|y l IHl]; [constructor|]. cbn [app]. intros [Hl Hy]%keys_ascending_cons. constructor; [|by apply IHl].
    rewrite Forall_app, Forall_cons in Hy. tauto. }
  rewrite set_insert_last, IH by (rewrite <-?app_assoc; auto). by rewrite <-app_assoc.
Qed.

(** ** Claims *)

Lemma valid_flags c : valid_claim c -> route_flags c = 1 \/ route_flags c = 2 \/ route_flags c = 3.
Proof.
  unfold valid_claim, normalizeAndValidateClaim. intros H. repeat (destruct (bool_decide _) in H; [done|]).
  repeat (match type of H with (if ?b then Err _ else _) = _ => destruct b; [done|] end).
  destruct (normalizeParserTypeName _ _) as [t|]; [|done]. cbn [ebind] in H.
  destruct (_ || _) eqn:E in H; [done|]. clear H. apply orb_false_elim in E as [E1 E2]. cbn [route_flags set_type_name] in *.
  apply negb_false_iff, Z.eqb_eq in E2. apply Z.eqb_neq in E1.
  change (Z.lor ROUTE_FLAG_SCALAR ROUTE_FLAG_OBJECT) with 3 in E2.
  pose proof (Z.lor_ldiff_and (route_flags c) 3) as Hf. rewrite Z.ldiff_land, E2, Z.lor_0_l in Hf.
  change 3 with (Z.ones 2) in Hf. rewrite Z.land_ones in Hf by lia. pose proof (Z.mod_pos_bound (route_flags c) (2 ^ 2)). lia.
Qed.

Lemma registered_nonempty e : isRegisteredParserEncoding e = true -> e <> [].
Proof. intros H ->. by vm_compute in H. Qed.

Lemma normalize_nonempty e name name' : normalizeParserTypeName e name = Ok name' -> name' <> [].
Proof.
  intros H%normalize_type_idem ->. unfold normalizeParserTypeName in H. destruct (negb _) in H; [done|].
  by rewrite bool_decide_eq_true_2 in H.
Qed.

(** What the decoder checks of a claim, validation checks too. *)
Lemma valid_facts c :
  valid_claim c ->
  claim_id c <> [] /\ encoding c <> [] /\ type_name c <> [] /\ -1000 <= priority c <= 1000 /\
  (forall t, object_type c = Some t -> parseBuiltinObjectType (builtin_name t) = Some t /\ t <> 0).
Proof.
  unfold valid_claim, normalizeAndValidateClaim. intros H.
  destruct (bool_decide _) in H; [done|]. destruct (bool_decide _) eqn:E1 in H; [done|].
  destruct (_ || _) eqn:E2 in H; [done|]. destruct (negb _) eqn:E3 in H; [done|].
  destruct (normalizeParserTypeName _ _) as [t|] eqn:E4 in H; [|done]. cbn [ebind] in H.
  repeat (match type of H with (if ?b then Err _ else _) = _ => destruct b eqn:?; [done|] end).
  assert (set_type_name c t = c) as Ht by congruence. rewrite Ht in *.
  apply bool_decide_eq_false in E1. apply negb_false_iff, registered_nonempty in E3.
  apply normalize_nonempty in E4. split; [done|]. split; [done|]. split; [by rewrite <-Ht|].
  split; [blia|]. intros u Hu. rewrite Hu in *. match goal with H : negb (isKnownObjectType u) = false |- _ => apply negb_false_iff in H; rename H into Hk end.
  unfold isKnownObjectType in Hk. destruct (u =? 0) eqn:E; [done|]. apply Z.eqb_neq in E. by apply bool_decide_eq_true in Hk.
Qed.

Lemma decode_claim_ok provider p i j c :
  decode_claim provider p i j = Ok c ->
  valid_claim c /\ provider_id c = provider /\ provenance c = p /\ keys_ascending (schema_digests c) = true.
Proof.
  unfold decode_claim. destruct (negb _); [done|]. destruct (jcontains _ _); [done|].
  destruct (requiredString _ _ _) as [cl|]; [|done]. cbn [ebind].
  destruct (requiredString _ _ _) as [en|]; [|done]. cbn [ebind].
  destruct (requiredString _ _ _) as [ty|]; [|done]. cbn [ebind].
  destruct (readRouteFlags _ _) as [fl|]; [|done]. cbn [ebind]. destruct (requiredPriority _ _) as [pr|]; [|done]. cbn [ebind].
  destruct (readSchemaDigests _ _) as [ds|] eqn:Ed; [|done]. cbn [ebind]. destruct (readObjectType _) as [ot|]; [|done]. cbn [ebind].
  intros H. destruct (validate_shape _ _ H) as (t & _ & Hc). split; [by eapply validate_idem|]. rewrite Hc. split_and!; [done..|].
  cbn [schema_digests set_type_name]. unfold readSchemaDigests in Ed.
  destruct (jfind _ _) as [[| | | | | |l|]|]; try done; [by eapply digests_loop_ascending, Ed|by injection Ed as <-].
Qed.

Lemma requiredString_some j k context s : jfind k j = Some (JString s) -> s <> [] -> requiredString j k context = Ok s.
Proof. unfold requiredString. intros -> Hs. by destruct s. Qed.

Lemma claim_json_find c :
  let j := claim_json c in
  jfind (str "provenance") j = None /\ jfind (str "claim_id") j = Some (JString (claim_id c)) /\
  jfind (str "encoding") j = Some (JString (encoding c)) /\ jfind (str "type_name") j = Some (JString (type_name c)) /\
  jfind (str "routes") j = Some (routes_json (route_flags c)) /\ jfind (str "priority") j = Some (wire (JInt (priority c))) /\
  jfind (str "schema_digests") j = Some (jstrings (schema_digests c)) /\
  jfind (str "object_type") j = option_map (fun t => JString (builtin_name t)) (object_type c).
Proof.
  cbv zeta. unfold claim_json. destruct (object_type c); cbn [app option_map]; split_and!; find_member; reflexivity.
Qed.

(** A valid claim is read back from its document. *)
Lemma decode_claim_back i c :
  valid_claim c -> keys_ascending (schema_digests c) = true ->
  decode_claim (provider_id c) (provenance c) i (claim_json c) = Ok c.
Proof.
  intros Hv Hd. destruct (valid_facts c Hv) as (H1 & H2 & H3 & H4 & H5).
  destruct (claim_json_find c) as (F0 & F1 & F2 & F3 & F4 & F5 & F6 & F7).
  unfold decode_claim, jcontains. assert (is_object (claim_json c) = true) as -> by (unfold claim_json; by destruct (object_type c)).
  rewrite F0. cbn [negb].
  rewrite (requiredString_some _ _ _ _ F1 H1), (requiredString_some _ _ _ _ F2 H2), (requiredString_some _ _ _ _ F3 H3). cbn [ebind].
  assert (readRouteFlags (claim_json c) i = Ok (route_flags c)) as ->.
  { unfold readRouteFlags. rewrite F4. destruct (valid_flags c Hv) as [-> |[-> | ->]]; by vm_compute. }
  assert (requiredPriority (claim_json c) i = Ok (priority c)) as ->.
  { unfold requiredPriority. rewrite F5. cbn [wire]. destruct (priority c >=? 0) eqn:E.
    - by assert (priority c >? 2147483647 = false) as -> by blia.
    - assert ((priority c <? -2147483648) || (priority c >? 2147483647) = false) as -> by blia. done. }
  assert (readSchemaDigests (claim_json c) i = Ok (schema_digests c)) as ->.
  { unfold readSchemaDigests. rewrite F6. by apply (digests_loop_back i (schema_digests c) []). }
  assert (readObjectType (claim_json c) = Ok (object_type c)) as ->.
  { unfold readObjectType. rewrite F7. destruct (object_type c) as [t|]; [|done]. cbn [option_map].
    destruct (H5 t eq_refl) as [-> Hn]. by apply Z.eqb_neq in Hn as ->. }
  cbn [ebind]. replace (mkClaim _ _ _ _ _ _ _ _ _) with c by (by destruct c). done.
Qed.

Lemma decode_claims_ok provider p i js acc cs :
  plugin_claims provider p acc -> Forall (fun c => keys_ascending (schema_digests c) = true) acc ->
  decode_claims provider p i js acc = Ok cs ->
  plugin_claims provider p cs /\ Forall (fun c => keys_ascending (schema_digests c) = true) cs.
Proof.
  revert i acc. induction js as [|j js IH]; intros i acc Ha Hd; cbn [decode_claims]; [by intros [= <-]|].
  destruct (decode_claim _ _ _ _) as [c|] eqn:Ec; [|done]. cbn [ebind]. destruct (existsb _ _) eqn:Ee; [done|].
  apply decode_claim_ok in Ec as (Hv & Hp & Hq & Hk).
  apply IH; [by apply plugin_claims_snoc|by apply Forall_app_2; [|constructor]].
Qed.

Lemma decode_claims_back provider p i cs acc :
  plugin_claims provider p (acc ++ cs) -> Forall (fun c => keys_ascending (schema_digests c) = true) cs ->
  decode_claims provider p i (map claim_json cs) acc = Ok (acc ++ cs).
Proof.
  revert i acc. induction cs as [|c cs IH]; intros i acc Ha Hd; cbn [map decode_claims]; [by rewrite app_nil_r|].
  apply Forall_cons in Hd as [Hc Hd]. pose proof Ha as [(Hv & Hn & _) Hf].
  rewrite Forall_app, Forall_cons in Hv, Hf. destruct Hv as (_ & Hvc & _). destruct Hf as (_ & [<- <-] & _).
  rewrite decode_claim_back by done. cbn [ebind]. rewrite map_app, NoDup_app in Hn. destruct Hn as (_ & Hn & _).
  rewrite (proj2 (fresh_claims c acc)) by (intros Hin; apply (Hn _ Hin); left).
  rewrite IH, <-app_assoc; [done|by rewrite <-app_assoc|done].
Qed.

Lemma plugin_claims_nil provider p : plugin_claims provider p [].
Proof. split; [apply new_to_nil|constructor]. Qed.

(** ** Documents *)

Lemma requiredString_ok j k context s : requiredString j k context = Ok s -> s <> [].
Proof.
  unfold requiredString. destruct (jfind k j) as [[| | | | |t| |]|]; try done. destruct t; [done|]. by intros [= <-].
Qed.

Lemma check_version_ok v u : check_version v = Ok u <-> SemVer.isValid v = true.
Proof. unfold check_version, SemVer.isValid. destruct u. by destruct (SemVer.parse v). Qed.

Lemma decode_document_ok j p m : decode_document j p = Ok m -> manifest_ok p m.
Proof.
  unfold decode_document. destruct (negb _); [done|]. destruct (jcontains _ _); [done|].
  destruct (check_abi _); [|done]. cbn [ebind].
  destruct (requiredString _ (str "id") _) as [id|] eqn:Ei; [|done]. cbn [ebind].
  destruct (requiredString _ (str "name") _) as [name|] eqn:En; [|done]. cbn [ebind].
  destruct (requiredString _ (str "version") _) as [version|]; [|done]. cbn [ebind].
  destruct (check_version version) as [[]|] eqn:Ev; [|done]. cbn [ebind].
  destruct (jfind (str "claims") _) as [[| | | | | |js|]|]; try done.
  destruct (decode_claims _ _ _ _ _) as [cs|] eqn:Ec; [|done]. cbn [ebind]. intros [= <-].
  apply requiredString_ok in Ei, En. apply check_version_ok in Ev.
  apply decode_claims_ok in Ec as [Hc Hd]; [|apply plugin_claims_nil|constructor]. done.
Qed.

(** The keys of a manifest, and the one it must not have. *)
Definition manifest_keys : list bytes :=
  [str "provenance"; str "module_abi"; str "id"; str "name"; str "version"; str "claims"].

Lemma decode_document_back extra p m :
  manifest_ok p m -> NoDup (manifest_keys ++ map fst extra) -> decode_document (manifest_json extra m) p = Ok m.
Proof.
  intros (Hi & Hn & Hv & Hc & Hd) Hk. unfold decode_document, manifest_json, jcontains. cbn [app].
  apply NoDup_cons in Hk as [Hp Hk].
  match goal with |- context [jobject ?l] => set (pairs := l) end.
  assert (forall k, jfind k (jobject pairs) = obj_find k pairs) as Hf by (intros k; by apply jobject_find).
  assert (is_object (jobject pairs) = true) as -> by done.
  assert (jfind (str "provenance") (jobject pairs) = None) as ->.
  { rewrite Hf. apply obj_find_absent. exact Hp. }
  cbn [negb]. subst pairs. rewrite !Hf. unfold requiredString. rewrite !Hf.
  repeat first [rewrite obj_find_hd | rewrite obj_find_tl by by_compute]. cbn [check_abi ebind].
  destruct m as [id name version cs]. cbn [mm_id mm_name mm_version mm_claims] in *.
  destruct version as [|v version]; [done|]. destruct id as [|? id]; [done|]. destruct name as [|? name]; [done|].
  rewrite Z.eqb_refl. cbn [ebind]. rewrite (proj2 (check_version_ok _ tt)) by done. cbn [ebind].
  by rewrite (decode_claims_back _ p 0 cs []).
Qed.

(** * Properties *)

Section Ingestion.
Context (parse_json : bytes -> json + string).

Lemma decode_sound text p m : decodeParserModuleManifest parse_json text p = Ok m -> manifest_ok p m.
Proof.
  unfold decodeParserModuleManifest. case_bool_decide; [done|]. destruct (parse_json text) as [j|]; [|done].
  apply decode_document_ok.
Qed.

(** C33 A manifest that decodes is valid: named, of a semantic version, its claims normalized and valid, each of this provider
    and of the provenance the host gave, no two of one identity.  Every valid manifest is read back from its
    document, whatever further members that has.  And a manifest that decodes is always ingested once its provider was
    removed, whatever the catalog holds: the other claims stay, in order, and the manifest's follow. *)
Theorem manifest_ingested text extra p m g k :
  (decodeParserModuleManifest parse_json text p = Ok m -> manifest_ok p m) /\
  (manifest_ok p m -> NoDup (manifest_keys ++ map fst extra) -> text <> [] -> parse_json text = inl (manifest_json extra m) ->
   decodeParserModuleManifest parse_json text p = Ok m) /\
  (catalog_ok k -> decodeParserModuleManifest parse_json text p = Ok m ->
   let '(r, k') := ingestModuleManifest parse_json text p g (snd (removeProvider (mm_id m) k)) in
   r = Ok m /\ catalog_ok k' /\
   claims k' = without (mm_id m) (claims k) ++ map (fun c => mkEntry c g) (mm_claims m)).
Proof.
  split_and!; [apply decode_sound| |].
  - intros Hm Hk Ht Ep. unfold decodeParserModuleManifest. rewrite bool_decide_eq_false_2, Ep by done.
    by apply decode_document_back.
  - intros Hk Hd. pose proof (decode_sound _ _ _ Hd) as (_ & _ & _ & Hc & _).
    pose proof (readmission (mm_id m) p (mm_claims m) g k Hk Hc) as H. unfold ingestModuleManifest. rewrite Hd.
    destruct (admitClaims _ _ _ _) as [r k']. by destruct H as (-> & H1 & H2).
Qed.

(** A manifest that does not decode leaves the catalog's claims alone and is reported. *)
Theorem manifest_refused text p g k error :
  decodeParserModuleManifest parse_json text p = Err error ->
  ingestModuleManifest parse_json text p g k = (Err error, report kError [] error k).
Proof. unfold ingestModuleManifest. by intros ->. Qed.

End Ingestion.

(** ** Runs *)

Definition sample_claims : list ParserClaim :=
  [mkClaim (str "ros2msg") (str "sensor_msgs/msg/Image") 3 (Some 1) [str "sha256:" ++ repeat (ch "a") 64] (str "vision") (str "image") (-5) kBundled;
   mkClaim (str "json") (str "*") 1 None [] (str "vision") (str "any") 0 kBundled].

Definition sample_manifest : ParserModuleManifest := mkManifest (str "vision") (str "Vision") (str "1.2.0") sample_claims.

Definition sample_manifest_parser (text : bytes) : json + string :=
  if bytes_eqb text (str "{}") then inl (manifest_json [(str "license", JString (str "MIT"))] sample_manifest)
  else inr "unexpected end of input"%string.

Example sample_decodes : decodeParserModuleManifest sample_manifest_parser (str "{}") kBundled = Ok sample_manifest.
Proof. vm_compute. reflexivity. Qed.

(** A claim may name its type as the encoding abbreviates it: the catalog's name is normalized. *)
Example abbreviated_type :
  decode_claim (str "vision") kBundled 0
    (JObject [(str "claim_id", JString (str "image")); (str "encoding", JString (str "ros2msg")); (str "priority", JUInt 7);
              (str "routes", JArray [JString (str "scalar")]); (str "type_name", JString (str "sensor_msgs/Image"))])
  = Ok (mkClaim (str "ros2msg") (str "sensor_msgs/msg/Image") 1 None [] (str "vision") (str "image") 7 kBundled).
Proof. vm_compute. reflexivity. Qed.

Example refused_manifests :
  map (fun j => decode_document j kBundled)
    [JArray []; JObject [(str "provenance", JNull)]; JObject [(str "module_abi", JUInt 2)]; JObject [(str "module_abi", JInt (-1))];
     JObject [(str "id", JString []); (str "module_abi", JUInt 1)];
     manifest_json [] (mkManifest (str "a") (str "b") (str "1.0") []);
     manifest_json [] (mkManifest (str "a") (str "b") (str "1.0.0") (sample_claims ++ sample_claims))]
  = [Err "parser module manifest must be a JSON object"; Err "parser module manifest must not declare host-owned provenance";
     Err "parser module manifest module_abi does not match host ABI 1"; Err "parser module manifest module_abi does not match host ABI 1";
     Err "parser module manifest missing required non-empty string key: id";
     Err "parser module manifest version is not valid SemVer: core version must contain exactly three numeric components";
     Err "duplicate parser claim identity: a/image"].
Proof. vm_compute. reflexivity. Qed.

Lemma manifest_ingested_witness :
  decodeParserModuleManifest sample_manifest_parser (str "{}") kBundled = Ok sample_manifest /\
  let '(r, k') := ingestModuleManifest sample_manifest_parser (str "{}") kBundled 4
                    (snd (removeProvider (str "vision") demo_catalog)) in
  r = Ok sample_manifest /\ catalog_ok k' /\
  claims k' = without (str "vision") (claims demo_catalog) ++ map (fun c => mkEntry c 4) sample_claims.
Proof.
  destruct (manifest_ingested sample_manifest_parser (str "{}") [(str "license", JString (str "MIT"))] kBundled
              sample_manifest 4 demo_catalog) as (_ & Hback & Hin).
  split.
  - apply Hback; [apply (decode_sound _ _ _ _ sample_decodes)|by_compute|done|reflexivity].
  - apply Hin; [|exact sample_decodes].
    apply (catalog_ok_step (OpPlugin (str "img") demo_encodings demo_exact kBundled 7)), catalog_ok_new.
Defined.
