(* ===== verification/PluginCatalog.v ===== *)
(** * PluginCatalog: descriptors of plugins

    [decodeManifest] of [pj_plugins/src/plugin_catalog.cpp] and the data of [host/plugin_catalog.hpp]: the manifest a
    plugin embeds, as the descriptor the host lists.  The JSON parser is a parameter, a function from texts to the documents
    of [Json.v] or the text of its exception; the printer too: it throws ([None]) on a text that is not UTF-8, and [decodeManifest]
    does not catch that. *)

From stdpp Require Import base list.
From S2P Require Import Prelude Text SemVer Json ClaimCatalog ClaimManifest.

Inductive PluginFamily : Set := kUnknown | kDataSource | kMessageParser | kToolbox | kDialog | kWidget.

#[export] Instance family_eq_dec : EqDecision PluginFamily.
Proof. solve_decision. Defined.

Definition toString (family : PluginFamily) : string :=
  match family with
  | kDataSource => "data_source" | kMessageParser => "message_parser" | kToolbox => "toolbox"
  | kDialog => "dialog" | kWidget => "widget" | kUnknown => "unknown"
  end.

Record WidgetTypeDescriptor : Set := mkWidgetType {
  wt_type : bytes; wt_name : bytes; wt_icon : bytes; wt_settings_json : bytes }.

Record PluginDescriptor : Set := mkPlugin {
  dso_path : bytes; abi_major : Z; family : PluginFamily; pd_id : bytes; pd_name : bytes; pd_version : bytes;
  min_plotjuggler_version : bytes; description : bytes; category : bytes; pd_encoding : list bytes;
  file_extensions : list bytes; pd_capabilities : list bytes; min_sdk_required : bytes; suggested_sdk_version : bytes;
  badge : bytes; pd_widgets : list WidgetTypeDescriptor; qt_modules : list bytes }.

Definition hasCapability (d : PluginDescriptor) (tag : bytes) : bool :=
  existsb (fun c => bytes_eqb c tag) (pd_capabilities d).

Definition PJ_ABI_VERSION : Z := 5.

(** ** Members of a manifest *)

Definition read_string_element (key : bytes) (value : json) : Expected bytes :=
  match value with
  | JString s => Ok s
  | _ => Err ("plugin embedded manifest key contains a non-string value: " +:+ text_of key)
  end.

Definition readStringArray (j : json) (key : bytes) : Expected (list bytes) :=
  match jfind key j with
  | None => Ok []
  | Some (JArray values) => each_entry (read_string_element key) values
  | Some _ => Err ("plugin embedded manifest key must be an array of strings: " +:+ text_of key)
  end.

Definition readString (j : json) (key : bytes) (required : bool) : Expected bytes :=
  match jfind key j with
  | Some (JString s) =>
    if required && bool_decide (s = [])
    then Err ("plugin embedded manifest missing required string key: " +:+ text_of key) else Ok s
  | Some _ =>
    if required then Err ("plugin embedded manifest missing required string key: " +:+ text_of key)
    else Err ("plugin embedded manifest key must be a string: " +:+ text_of key)
  | None =>
    if required then Err ("plugin embedded manifest missing required string key: " +:+ text_of key) else Ok []
  end.

Section Decoder.
Context (parse_json : bytes -> json + string) (dump_json : json -> option bytes).

(** The settings of a widget type, as text. *)
Definition read_settings (type : bytes) (entry : json) : thrown (Expected bytes) :=
  match jfind (str "settings") entry with
  | None => Got (Ok (str "[]"))
  | Some (JArray values) =>
    match dump_json (JArray values) with Some text => Got (Ok text) | None => Throws end
  | Some _ => Got (Err ("plugin embedded manifest widget settings must be an array: " +:+ text_of type))
  end.

(** One entry of [widgets]; [seen] are the types before it. *)
Definition read_widget (seen : list bytes) (entry : json) : thrown (Expected WidgetTypeDescriptor) :=
  if negb (is_object entry) then Got (Err "plugin embedded manifest widgets entries must be objects")
  else
    match readString entry (str "type") true, readString entry (str "name") true, readString entry (str "icon") false with
    | Err error, _, _ | Ok _, Err error, _ | Ok _, Ok _, Err error => Got (Err error)
    | Ok type, Ok name, Ok icon =>
      if find_char (ch "/") type
      then Got (Err ("plugin embedded manifest widget type must not contain '/': " +:+ text_of type))
      else if existsb (fun t => bytes_eqb t type) seen
      then Got (Err ("plugin embedded manifest declares widget type twice: " +:+ text_of type))
      else
        lett settings := read_settings type entry in
        Got (let? s := settings in Ok (mkWidgetType type name icon s))
    end.

Fixpoint read_widgets (entries : list json) (widgets : list WidgetTypeDescriptor)
  : thrown (Expected (list WidgetTypeDescriptor)) :=
  match entries with
  | [] => Got (Ok widgets)
  | entry :: entries' =>
    lett read := read_widget (map wt_type widgets) entry in
    match read with
    | Err error => Got (Err error)
    | Ok widget => read_widgets entries' (widgets ++ [widget])
    end
  end.

Definition readWidgetTypes (j : json) : thrown (Expected (list WidgetTypeDescriptor)) :=
  match jfind (str "widgets") j with
  | Some (JArray ((_ :: _) as entries)) => read_widgets entries []
  | _ => Got (Err "plugin embedded manifest missing required widgets array")
  end.

Definition quote : string := String (Ascii.ascii_of_nat 34) EmptyString.

(** [min_sdk_required] is empty or a semantic version. *)
Definition check_min_sdk (text : bytes) : Expected unit :=
  if bool_decide (text = []) then Ok tt
  else
    match SemVer.parse text with
    | Ok _ => Ok tt
    | Err error =>
      Err ("plugin embedded manifest key min_sdk_required has invalid semantic version value " +:+ quote
           +:+ text_of text +:+ quote +:+ ": " +:+ error)
    end.

(** The members of a manifest of any family but the widgets. *)
Definition read_plugin (source_path : bytes) (fam : PluginFamily) (j : json) : Expected PluginDescriptor :=
  let? id := readString j (str "id") true in
  let? name := readString j (str "name") true in
  let? version := readString j (str "version") true in
  let? description := readString j (str "description") false in
  let? category := readString j (str "category") false in
  let? min_plotjuggler := readString j (str "min_plotjuggler_version") false in
  let? suggested_sdk := readString j (str "suggested_sdk_version") false in
  let? badge := readString j (str "badge") false in
  let? min_sdk := readString j (str "min_sdk_required") false in
  let? _ := check_min_sdk min_sdk in
  let? extensions := readStringArray j (str "file_extensions") in
  let? capabilities := readStringArray j (str "capabilities") in
  let? encoding := readStringArray j (str "encoding") in
  if bool_decide (fam = kMessageParser) && bool_decide (encoding = [])
  then Err "plugin embedded manifest missing required encoding array"
  else
    Ok (mkPlugin source_path PJ_ABI_VERSION fam id name version min_plotjuggler description category encoding extensions
          capabilities min_sdk suggested_sdk badge [] []).

Definition set_widgets (d : PluginDescriptor) (ws : list WidgetTypeDescriptor) (qt : list bytes) : PluginDescriptor :=
  mkPlugin (dso_path d) (abi_major d) (family d) (pd_id d) (pd_name d) (pd_version d) (min_plotjuggler_version d)
    (description d) (category d) (pd_encoding d) (file_extensions d) (pd_capabilities d) (min_sdk_required d)
    (suggested_sdk_version d) (badge d) ws qt.

(** [decodeManifest] from the parsed document on. *)
Definition decode_plugin (source_path : bytes) (fam : PluginFamily) (j : json) : thrown (Expected PluginDescriptor) :=
  if negb (is_object j) then Got (Err "plugin embedded manifest must be a JSON object")
  else
    match read_plugin source_path fam j with
    | Err error => Got (Err error)
    | Ok d =>
      if bool_decide (fam = kWidget) then
        match readStringArray j (str "qt_modules") with
        | Err error => Got (Err error)
        | Ok qt =>
          lett widgets := readWidgetTypes j in
          Got (let? ws := widgets in Ok (set_widgets d ws qt))
        end
      else Got (Ok d)
    end.

Definition decodeManifest (source_path : bytes) (fam : PluginFamily) (manifest_json : bytes)
  : thrown (Expected PluginDescriptor) :=
  if bool_decide (manifest_json = []) then Got (Err "plugin embedded manifest is empty")
  else
    match parse_json manifest_json with
    | inr what => Got (Err ("plugin embedded manifest is invalid JSON: " +:+ what))
    | inl j => decode_plugin source_path fam j
    end.

End Decoder.

(** ** Descriptors that are valid, and their documents *)

Section Valid.
Context (dump_json : json -> option bytes).

(** The text of a declaration of settings. *)
Definition settings_text (settings : option (list json)) : option bytes :=
  match settings with Some values => dump_json (JArray values) | None => Some (str "[]") end.

Definition widget_ok (w : WidgetTypeDescriptor) : Prop :=
  wt_type w <> [] /\ ch "/" ∉ wt_type w /\ wt_name w <> [] /\
  exists settings, settings_text settings = Some (wt_settings_json w).

Definition descriptor_ok (d : PluginDescriptor) : Prop :=
  abi_major d = PJ_ABI_VERSION /\ pd_id d <> [] /\ pd_name d <> [] /\ pd_version d <> [] /\
  (min_sdk_required d = [] \/ SemVer.isValid (min_sdk_required d) = true) /\
  (family d = kMessageParser -> pd_encoding d <> []) /\
  if bool_decide (family d = kWidget)
  then pd_widgets d <> [] /\ NoDup (map wt_type (pd_widgets d)) /\ Forall widget_ok (pd_widgets d)
  else pd_widgets d = [] /\ qt_modules d = [].

End Valid.

Definition widget_json (settings : WidgetTypeDescriptor -> option (list json)) (w : WidgetTypeDescriptor) : json :=
  jobject ([(str "type", JString (wt_type w)); (str "name", JString (wt_name w)); (str "icon", JString (wt_icon w))] ++
           match settings w with Some values => [(str "settings", JArray values)] | None => [] end).

(** The document of a descriptor; [extra] are members the decoder does not know. *)
Definition plugin_json (settings : WidgetTypeDescriptor -> option (list json)) (extra : members) (d : PluginDescriptor) : json :=
  jobject ([(str "id", JString (pd_id d)); (str "name", JString (pd_name d)); (str "version", JString (pd_version d));
            (str "description", JString (description d)); (str "category", JString (category d));
            (str "min_plotjuggler_version", JString (min_plotjuggler_version d));
            (str "suggested_sdk_version", JString (suggested_sdk_version d)); (str "badge", JString (badge d));
            (str "min_sdk_required", JString (min_sdk_required d)); (str "file_extensions", jstrings (file_extensions d));
            (str "capabilities", jstrings (pd_capabilities d)); (str "encoding", jstrings (pd_encoding d));
            (str "qt_modules", jstrings (qt_modules d));
            (str "widgets", JArray (map (widget_json settings) (pd_widgets d)))] ++ extra).

(** ** Members *)

Lemma readString_ok j k s : readString j k true = Ok s -> s <> [].
Proof.
  unfold readString. destruct (jfind k j) as [[| | | | |t| |]|]; try done. cbn [andb]. case_bool_decide; [done|]. by intros [= <-].
Qed.

Lemma readString_some j k s required :
  jfind k j = Some (JString s) -> (required = true -> s <> []) -> readString j k required = Ok s.
Proof.
  unfold readString. intros -> Hs. destruct required; [|done]. by rewrite bool_decide_eq_false_2 by auto.
Qed.

Lemma readStringArray_some j k l : jfind k j = Some (jstrings l) -> readStringArray j k = Ok l.
Proof. unfold readStringArray, jstrings. intros ->. apply each_entry_back. by apply Forall_true. Qed.

Lemma check_min_sdk_ok text u : check_min_sdk text = Ok u <-> text = [] \/ SemVer.isValid text = true.
Proof.
  unfold check_min_sdk, SemVer.isValid. destruct u. case_bool_decide; [tauto|].
  destruct (SemVer.parse text); cbn [has_value]; naive_solver.
Qed.

(** ** Soundness *)

Section Sound.
Context (parse_json : bytes -> json + string) (dump_json : json -> option bytes).

Lemma read_settings_ok type entry text :
  read_settings dump_json type entry = Got (Ok text) -> exists settings, settings_text dump_json settings = Some text.
Proof.
  unfold read_settings. destruct (jfind _ _) as [[| | | | | |values|]|]; try done.
  - destruct (dump_json (JArray values)) as [t|] eqn:E; [|done]. intros [= <-]. by exists (Some values).
  - intros [= <-]. by exists None.
Qed.

Lemma read_widget_ok seen entry w :
  read_widget dump_json seen entry = Got (Ok w) -> widget_ok dump_json w /\ wt_type w ∉ seen.
Proof.
  unfold read_widget. destruct (negb _); [done|].
  destruct (readString entry (str "type") true) as [type|] eqn:Et; [|done].
  destruct (readString entry (str "name") true) as [name|] eqn:En; [|done].
  destruct (readString entry (str "icon") false) as [icon|]; [|done].
  destruct (find_char _ type) eqn:Es; [done|]. destruct (existsb _ seen) eqn:Ed; [done|].
  destruct (read_settings _ _ _) as [[text|]| |] eqn:Ex; try done. cbn [tbind ebind]. intros [= <-].
  apply readString_ok in Et, En. apply find_char_none in Es. apply read_settings_ok in Ex.
  unfold widget_ok. cbn [wt_type wt_name wt_settings_json]. split; [done|]. intros Hin.
  apply existsb_false in Ed. rewrite Forall_forall in Ed. specialize (Ed type Hin). by rewrite bytes_eqb_refl in Ed.
Qed.

Lemma read_widgets_ok entries acc ws :
  NoDup (map wt_type acc) -> Forall (widget_ok dump_json) acc -> read_widgets dump_json entries acc = Got (Ok ws) ->
  NoDup (map wt_type ws) /\ Forall (widget_ok dump_json) ws /\ length ws = (length acc + length entries)%nat.
Proof.
  revert acc. induction entries as [|e entries IH]; intros acc Hn Hf; cbn [read_widgets length].
  { intros [= <-]. rewrite Nat.add_0_r. done. }
  destruct (read_widget _ _ e) as [[w|]| |] eqn:E; try done. cbn [tbind]. apply read_widget_ok in E as [Hw Hs]. intros H.
  apply IH in H as (H1 & H2 & H3).
  - rewrite length_app in H3. cbn in H3. split_and!; [done..|lia].
  - rewrite map_app. apply NoDup_app. split_and!; [done| |apply NoDup_singleton].
    intros x Hx ->%list_elem_of_singleton. done.
  - apply Forall_app_2; [done|by constructor].
Qed.

Lemma read_plugin_ok path fam j d :
  read_plugin path fam j = Ok d ->
  dso_path d = path /\ family d = fam /\ pd_widgets d = [] /\ qt_modules d = [] /\ abi_major d = PJ_ABI_VERSION /\
  pd_id d <> [] /\ pd_name d <> [] /\ pd_version d <> [] /\
  (min_sdk_required d = [] \/ SemVer.isValid (min_sdk_required d) = true) /\ (fam = kMessageParser -> pd_encoding d <> []).
Proof.
  unfold read_plugin.
  destruct (readString j (str "id") true) as [id|] eqn:E1; [|done]. destruct (readString j (str "name") true) as [name|] eqn:E2; [|done].
  destruct (readString j (str "version") true) as [version|] eqn:E3; [|done]. cbn [ebind].
  destruct (readString j (str "description") _); [|done]. destruct (readString j (str "category") _); [|done].
  destruct (readString j (str "min_plotjuggler_version") _); [|done]. destruct (readString j (str "suggested_sdk_version") _); [|done].
  destruct (readString j (str "badge") _); [|done]. destruct (readString j (str "min_sdk_required") _) as [sdk|]; [|done]. cbn [ebind].
  destruct (check_min_sdk sdk) as [u|] eqn:E4; [|done]. cbn [ebind].
  destruct (readStringArray j (str "file_extensions")); [|done]. destruct (readStringArray j (str "capabilities")); [|done].
  destruct (readStringArray j (str "encoding")) as [enc|]; [|done]. cbn [ebind].
  destruct (_ && _) eqn:E5; [done|]. intros [= <-]. apply readString_ok in E1, E2, E3. apply check_min_sdk_ok in E4.
  cbn. split_and!; try done. intros -> ->. by rewrite !bool_decide_eq_true_2 in E5.
Qed.

Lemma decode_plugin_ok path fam j d :
  decode_plugin dump_json path fam j = Got (Ok d) -> descriptor_ok dump_json d /\ dso_path d = path /\ family d = fam.
Proof.
  unfold decode_plugin, descriptor_ok. destruct (negb _); [done|].
  destruct (read_plugin path fam j) as [d0|] eqn:E; [|done]. apply read_plugin_ok in E as (E1 & E2 & E3 & E4 & E5 & E6 & E7 & E8 & E9 & E10).
  case_bool_decide as Ef.
  - destruct (readStringArray _ _) as [qt|]; [|done]. unfold readWidgetTypes.
    destruct (jfind _ _) as [[| | | | | |[|e es]|]|]; try done.
    destruct (read_widgets _ _ _) as [[ws|]| |] eqn:Ew; try done. cbn [tbind ebind]. intros [= <-]. cbn.
    apply read_widgets_ok in Ew as (W1 & W2 & W3); [|constructor..]. rewrite E2, bool_decide_eq_true_2 by done.
    split_and!; try done. destruct ws; [done|]. by intros [=].
  - intros [= <-]. rewrite bool_decide_eq_false_2 by congruence. rewrite E2. by split_and!.
Qed.

End Sound.

(** ** Reading back *)

Section Back.
Context (parse_json : bytes -> json + string) (dump_json : json -> option bytes).
Context (settings : WidgetTypeDescriptor -> option (list json)).

Definition settings_of (w : WidgetTypeDescriptor) : Prop := settings_text dump_json (settings w) = Some (wt_settings_json w).

Lemma read_widget_back seen w :
  widget_ok dump_json w -> settings_of w -> wt_type w ∉ seen ->
  read_widget dump_json seen (widget_json settings w) = Got (Ok w).
Proof.
  intros (H1 & H2 & H3 & _) Hs Hn. unfold read_widget, settings_of in *.
  assert (is_object (widget_json settings w) = true) as -> by done. cbn [negb].
  assert (jfind (str "type") (widget_json settings w) = Some (JString (wt_type w)) /\
          jfind (str "name") (widget_json settings w) = Some (JString (wt_name w)) /\
          jfind (str "icon") (widget_json settings w) = Some (JString (wt_icon w)) /\
          jfind (str "settings") (widget_json settings w) = option_map JArray (settings w)) as (F1 & F2 & F3 & F4).
  { unfold widget_json. destruct (settings w); cbn [app option_map]; split_and!; find_member; reflexivity. }
  rewrite (readString_some _ _ _ true F1), (readString_some _ _ _ true F2), (readString_some _ _ _ false F3) by done.
  rewrite (proj2 (find_char_none _ _) H2).
  assert (existsb (fun t => bytes_eqb t (wt_type w)) seen = false) as ->.
  { apply existsb_false, Forall_forall. intros t Ht. apply bytes_eqb_neq. by intros ->. }
  unfold read_settings. rewrite F4. destruct w as [type name icon text]. cbn [wt_settings_json] in Hs.
  destruct (settings _); cbn [option_map settings_text] in *.
  - by rewrite Hs.
  - injection Hs as <-. reflexivity.
Qed.

Lemma read_widgets_back ws acc :
  NoDup (map wt_type (acc ++ ws)) -> Forall (widget_ok dump_json) ws -> Forall settings_of ws ->
  read_widgets dump_json (map (widget_json settings) ws) acc = Got (Ok (acc ++ ws)).
Proof.
  revert acc. induction ws as [|w ws IH]; intros acc Hn Hf Hs; cbn [map read_widgets]; [by rewrite app_nil_r|].
  apply Forall_cons in Hf as [Hw Hf]. apply Forall_cons in Hs as [Hsw Hs].
  rewrite read_widget_back; [|done..|].
  - cbn [tbind]. rewrite IH, <-app_assoc; [done|by rewrite <-app_assoc|done..].
  - rewrite map_app, NoDup_app in Hn. destruct Hn as (_ & Hn & _). intros Hin. apply (Hn _ Hin). left.
Qed.

Definition plugin_keys : list bytes :=
  [str "id"; str "name"; str "version"; str "description"; str "category"; str "min_plotjuggler_version";
   str "suggested_sdk_version"; str "badge"; str "min_sdk_required"; str "file_extensions"; str "capabilities";
   str "encoding"; str "qt_modules"; str "widgets"].

Lemma decode_plugin_back extra d :
  descriptor_ok dump_json d -> Forall settings_of (pd_widgets d) -> NoDup (plugin_keys ++ map fst extra) ->
  decode_plugin dump_json (dso_path d) (family d) (plugin_json settings extra d) = Got (Ok d).
Proof.
  intros (Ha & Hi & Hn & Hv & Hm & He & Hw) Hs Hk. unfold decode_plugin.
  assert (is_object (plugin_json settings extra d) = true) as -> by done. cbn [negb].
  assert (forall k v, obj_find k ([(str "id", JString (pd_id d)); (str "name", JString (pd_name d)); (str "version", JString (pd_version d));
            (str "description", JString (description d)); (str "category", JString (category d));
            (str "min_plotjuggler_version", JString (min_plotjuggler_version d));
            (str "suggested_sdk_version", JString (suggested_sdk_version d)); (str "badge", JString (badge d));
            (str "min_sdk_required", JString (min_sdk_required d)); (str "file_extensions", jstrings (file_extensions d));
            (str "capabilities", jstrings (pd_capabilities d)); (str "encoding", jstrings (pd_encoding d));
            (str "qt_modules", jstrings (qt_modules d));
            (str "widgets", JArray (map (widget_json settings) (pd_widgets d)))] ++ extra) = Some v ->
          jfind k (plugin_json settings extra d) = Some v) as F
    by (intros k v; unfold plugin_json; by rewrite jobject_find).
  assert (forall k s required, jfind k (plugin_json settings extra d) = Some (JString s) -> (required = true -> s <> []) ->
          readString (plugin_json settings extra d) k required = Ok s) as R by (intros; by apply readString_some).
  assert (forall k l, jfind k (plugin_json settings extra d) = Some (jstrings l) ->
          readStringArray (plugin_json settings extra d) k = Ok l) as RA by (intros; by apply readStringArray_some).
  unfold read_plugin.
  repeat (erewrite R; [|apply F; reflexivity|first [done|intros _; assumption]]; cbn [ebind]).
  rewrite (proj2 (check_min_sdk_ok _ tt)) by done. cbn [ebind].
  repeat (erewrite RA; [|apply F; reflexivity]; cbn [ebind]).
  assert (bool_decide (family d = kMessageParser) && bool_decide (pd_encoding d = []) = false) as ->.
  { rewrite andb_false_iff, !bool_decide_eq_false. destruct (decide (family d = kMessageParser)); auto. }
  destruct (bool_decide (family d = kWidget)).
  - unfold readWidgetTypes. erewrite F by reflexivity.
    destruct Hw as (W1 & W2 & W3). pose proof (read_widgets_back (pd_widgets d) [] W2 W3 Hs) as Hb.
    destruct (pd_widgets d) as [|w ws] eqn:Ew; [done|]. cbn [map] in *. rewrite Hb. cbn [tbind ebind app].
    rewrite <-Ew. rewrite <-Ha. by destruct d.
  - destruct Hw as [W1 W2]. rewrite <-Ha. destruct d. cbn in *. by subst.
Qed.

End Back.

(** * Properties *)

Section Manifest.
Context (parse_json : bytes -> json + string) (dump_json : json -> option bytes).

(** What the parser returns can be printed again: it accepts texts in UTF-8 only, and [utf8] goes from a document to its
    members and elements. *)
Context (utf8 : json -> Prop).
Context (parse_utf8 : forall text j, parse_json text = inl j -> utf8 j).
Context (utf8_member : forall k v j, utf8 j -> jfind k j = Some v -> utf8 v).
Context (utf8_element : forall x l, utf8 (JArray l) -> x ∈ l -> utf8 x).
Context (utf8_dump : forall j, utf8 j -> dump_json j <> None).

Lemma read_widget_returns seen entry : utf8 entry -> exists r, read_widget dump_json seen entry = Got r.
Proof.
  intros Hu. unfold read_widget. destruct (negb _); [by eexists|].
  destruct (readString entry (str "type") true), (readString entry (str "name") true), (readString entry (str "icon") false); try by eexists.
  destruct (find_char _ _); [by eexists|]. destruct (existsb _ _); [by eexists|]. unfold read_settings.
  destruct (jfind (str "settings") entry) as [v|] eqn:E; [|by eexists].
  destruct v; try by eexists. pose proof (utf8_dump _ (utf8_member _ _ _ Hu E)) as Hd.
  destruct (dump_json (JArray l)); [by eexists|done].
Qed.

Lemma read_widgets_returns entries acc :
  Forall utf8 entries -> exists r, read_widgets dump_json entries acc = Got r.
Proof.
  intros H. revert acc. induction H as [|e entries He _ IH]; intros acc; cbn [read_widgets]; [by eexists|].
  destruct (read_widget_returns (map wt_type acc) e He) as [[w|error] ->]; cbn [tbind]; [apply IH|by eexists].
Qed.

Lemma decode_returns path fam text : exists r, decodeManifest parse_json dump_json path fam text = Got r.
Proof.
  unfold decodeManifest. case_bool_decide; [by eexists|]. destruct (parse_json text) as [j|] eqn:Ep; [|by eexists].
  apply parse_utf8 in Ep. unfold decode_plugin. destruct (negb _); [by eexists|]. destruct (read_plugin _ _ _); [|by eexists].
  case_bool_decide; [|by eexists]. destruct (readStringArray _ _); [|by eexists]. unfold readWidgetTypes.
  destruct (jfind (str "widgets") j) as [v|] eqn:E; [|by eexists]. apply utf8_member in E; [|done].
  destruct v as [| | | | | |[|e es]|]; try by eexists.
  destruct (read_widgets_returns (e :: es) []) as [r ->]; [|by eexists].
  apply Forall_forall. intros x Hx. by apply (utf8_element x (e :: es)).
Qed.

(** C35 A manifest always gives a descriptor or an error, whatever its text.  The descriptors are valid: named, of a version,
    with encodings if it is a parser, with widget types of distinct names that fit a panel's id if it has widgets, and only
    then.  Every valid descriptor is read back from its document, whatever further members that has. *)
Theorem descriptor_exact path fam text settings extra d :
  (exists r, decodeManifest parse_json dump_json path fam text = Got r) /\
  (decodeManifest parse_json dump_json path fam text = Got (Ok d) ->
   descriptor_ok dump_json d /\ dso_path d = path /\ family d = fam) /\
  (descriptor_ok dump_json d -> Forall (settings_of dump_json settings) (pd_widgets d) ->
   NoDup (plugin_keys ++ map fst extra) -> text <> [] -> parse_json text = inl (plugin_json settings extra d) ->
   decodeManifest parse_json dump_json (dso_path d) (family d) text = Got (Ok d)).
Proof.
  split; [apply decode_returns|]. split; unfold decodeManifest.
  - case_bool_decide; [done|]. destruct (parse_json text); [|done]. apply decode_plugin_ok.
  - intros Hd Hs Hk Ht ->. rewrite bool_decide_eq_false_2 by done. by apply decode_plugin_back.
Qed.

End Manifest.

(** ** Runs *)

Definition sample_settings (w : WidgetTypeDescriptor) : option (list json) :=
  if bytes_eqb (wt_type w) (str "gauge") then Some [] else None.

Definition sample_plugin : PluginDescriptor :=
  mkPlugin (str "/p/w.so") PJ_ABI_VERSION kWidget (str "acme") (str "Acme") (str "1.0") [] (str "Gauges") [] [] []
    [str "future_tag"] (str "0.39.0") [] (str "AI")
    [mkWidgetType (str "gauge") (str "Gauge") [] (str "[]"); mkWidgetType (str "dial") (str "Dial") (str "<svg/>") (str "[]")]
    [str "Svg"].

Definition sample_plugin_json : json := plugin_json sample_settings [(str "license", JString (str "MIT"))] sample_plugin.
Definition plugin_parser (text : bytes) : json + string :=
  if bytes_eqb text (str "{}") then inl sample_plugin_json else inr "syntax error"%string.

(** A printer that knows one text. *)
Definition plugin_printer (_ : json) : option bytes := Some (str "[]").

Example capabilities_declared :
  (hasCapability sample_plugin (str "future_tag"), hasCapability sample_plugin (str "custom_topics_editor")) = (true, false).
Proof. reflexivity. Qed.

Example twice_declared :
  decode_plugin plugin_printer [] kWidget
    (plugin_json (fun _ => None) [] (set_widgets sample_plugin (pd_widgets sample_plugin ++ pd_widgets sample_plugin) []))
  = Got (Err "plugin embedded manifest declares widget type twice: gauge").
Proof. vm_compute. reflexivity. Qed.

Lemma descriptor_exact_witness :
  decodeManifest plugin_parser plugin_printer (str "/p/w.so") kWidget (str "{}") = Got (Ok sample_plugin).
Proof.
  apply (descriptor_exact plugin_parser plugin_printer (fun _ => True) (fun _ _ _ => I) (fun _ _ _ _ _ => I)
           (fun _ _ _ _ => I) (fun _ _ H => ltac:(discriminate H)) [] kUnknown (str "{}") sample_settings
           [(str "license", JString (str "MIT"))] sample_plugin).
  - unfold descriptor_ok. split_and!; try done; [right; vm_compute; reflexivity|]. cbn.
    split_and!; [done|by_compute|]. repeat constructor; try by_compute; by exists None.
  - by repeat constructor.
  - by_compute.
  - done.
  - reflexivity.
Defined.
