(* ===== verification/PluginLoader.v ===== *)
(** * PluginLoader: admission of plugin libraries

    The host's side of loading plugins: [pj_plugins/src/detail/library_loader.hpp] (symbols and where they come from),
    [detail/vtable_validation.cpp], the probes, [inspectPluginDso] and [scanPluginDsos] of [plugin_catalog.cpp], and the three
    library classes ([data_source_library.cpp], [message_parser_library.cpp], [toolbox_library.cpp]), on POSIX; at the end, the load of native
    parser modules ([native_parser_module.cpp]).

    The system is a parameter ([System]): the file system's answers and the dynamic linker's.  A plugin is what its vtable
    holds: the header's numbers, which pointers are set, and the text of its manifest.  Shared ownership of the native handle is
    that of the C++ library; when [dlclose] runs is not modelled. *)

From stdpp Require Import base list pretty sorting.
From S2P Require Import Prelude Text Json ClaimCatalog ClaimManifest PluginCatalog.

(** ** Paths

    A path is its text; [/] separates names. *)

Definition filename (p : bytes) : bytes :=
  match rfind_char (ch "/") p with Some i => drop (S i) p | None => p end.

(** [path.extension()]: from the last dot of the name on, unless the name starts with that dot or is [..]. *)
Definition extension (p : bytes) : bytes :=
  let name := filename p in
  if bytes_eqb name (str "..") then []
  else match rfind_char (ch ".") name with Some (S i) => drop (S i) name | _ => [] end.

Definition kDsoSuffix : bytes := str ".so".

Definition hasDsoSuffix (p : bytes) : bool := bytes_eqb (extension p) kDsoSuffix.

Definition rooted (p : bytes) : bool := starts_with (str "/") p.

(** The loop of [lexically_normal] over the names of a path; [stack] holds the names kept, the last one first. *)
Fixpoint normal_names (root : bool) (names stack : list bytes) : list bytes :=
  match names with
  | [] => stack
  | name :: names' =>
    if bool_decide (name = []) || bytes_eqb name (str ".") then normal_names root names' stack
    else if bytes_eqb name (str "..") then
      match stack with
      | top :: rest =>
        if bytes_eqb top (str "..") then normal_names root names' (name :: stack) else normal_names root names' rest
      | [] => normal_names root names' (if root then [] else [name])
      end
    else normal_names root names' (name :: stack)
  end.

Definition lexically_normal (p : bytes) : bytes :=
  if bool_decide (p = []) then []
  else
    let names := split_on (ch "/") p in
    let stack := normal_names (rooted p) names [] in
    let final := List.last names [] in
    let slash := (bool_decide (final = []) || bytes_eqb final (str ".") || bytes_eqb final (str "..")) &&
                 match stack with top :: _ => negb (bytes_eqb top (str "..")) | [] => false end in
    let text := (if rooted p then str "/" else []) ++ join_with (ch "/") (rev stack) ++ (if slash then str "/" else []) in
    if bool_decide (text = []) then str "." else text.

(** The names [path.begin()] to [path.end()] passes after the root directory; a path that ends in a separator has an
    empty last name. *)
Definition path_names (p : bytes) : list bytes :=
  let names := List.filter (fun n => negb (bool_decide (n = []))) (split_on (ch "/") p) in
  match names with
  | [] => []
  | _ => names ++ (if bool_decide (List.last (split_on (ch "/") p) [] = []) then [[]] else [])
  end.

(** [path::compare]: an absolute path is after a relative one, then the names decide. *)
Definition path_cmp (a b : bytes) : comparison :=
  cmp_then (Z.compare (if rooted a then 1 else 0) (if rooted b then 1 else 0))
    (list_cmp string_cmp (path_names a) (path_names b)).

(** ** The system and what a plugin exports *)

(** A family's table; [slot] tells whether the pointer of that name is set.  [created] and [instance_manifest] are what
    a dialog's [create] and [get_manifest] answer. *)
Record Vtable : Type := mkVtable {
  protocol_version : Z; struct_size : Z; slot : string -> bool; manifest_text : bytes;
  created : bool; instance_manifest : option bytes }.

(** One entry that the recursive iteration passes: whether it is a regular file (or the text of the error), and whether going
    on from it failed. *)
Record Visit : Type := mkVisit { v_path : bytes; v_regular : bool + string; v_increment : option string }.

(** Addresses and handles are numbers, null is [None]. *)
Record System : Type := mkSystem {
  absolute : bytes -> bytes + string;
  weakly_canonical : bytes -> option bytes;
  equivalent : bytes -> bytes -> bool + string;
  dlopen : bytes -> Z + option string;
  dlsym : Z -> string -> option Z + string;
  dladdr : Z -> option bytes;
  word_at : Z -> Z;
  vtable_from : Z -> option Vtable;
  exists_path : bytes -> bool;
  is_directory : bytes -> bool;
  visits : bytes -> list Visit + string }.

Record LibraryPathIdentity : Set := mkIdentity { load_path : bytes; resolved_path : bytes }.

(** ** Families *)

(** Name in messages, name of the getter, version of the protocol, size and name of the baseline. *)
Definition family_name (f : PluginFamily) : string :=
  match f with
  | kDataSource => "DataSource" | kMessageParser => "MessageParser" | kToolbox => "Toolbox" | kDialog => "Dialog"
  | kWidget => "Widget" | kUnknown => ""
  end.

Definition getter (f : PluginFamily) : string :=
  match f with
  | kDataSource => "PJ_get_data_source_vtable" | kMessageParser => "PJ_get_message_parser_vtable"
  | kToolbox => "PJ_get_toolbox_vtable" | kDialog => "PJ_get_dialog_vtable" | kWidget => "PJ_get_widget_vtable"
  | kUnknown => ""
  end.

Definition expected_protocol (f : PluginFamily) : Z := match f with kWidget => 1 | _ => 4 end.
Definition baseline (f : PluginFamily) : string := match f with kWidget => "v1.0" | _ => "v4.0" end.

(** [offsetof] of the last baseline slot, past it: two 32-bit numbers and pointers of eight bytes. *)
Definition min_vtable_size (f : PluginFamily) : Z :=
  match f with
  | kDataSource => 128 | kMessageParser => 80 | kToolbox => 88 | kDialog => 96 | kWidget => 96 | kUnknown => 0
  end.

Definition dataSource_slots : list string :=
  ["create"; "destroy"; "manifest_json"; "capabilities"; "bind"; "save_config"; "load_config"; "start"; "stop"; "pause";
   "resume"; "poll"; "current_state"; "get_dialog"; "get_plugin_extension"]%string.
Definition messageParser_slots : list string :=
  ["create"; "destroy"; "manifest_json"; "bind"; "bind_schema"; "save_config"; "load_config"; "parse";
   "get_plugin_extension"]%string.
Definition toolbox_slots : list string :=
  ["create"; "destroy"; "manifest_json"; "capabilities"; "bind"; "save_config"; "load_config"; "get_dialog";
   "on_data_changed"; "get_plugin_extension"]%string.
Definition dialog_slots : list string :=
  ["create"; "destroy"; "get_manifest"; "get_ui_content"; "get_widget_data"; "on_widget_event"; "on_tick"; "on_accepted";
   "on_rejected"; "save_config"; "load_config"]%string.
Definition widget_slots : list string :=
  ["create"; "destroy"; "manifest_json"; "build_info"; "bind"; "inputs"; "create_qwidget"; "on_update"; "save_config";
   "load_config"; "get_plugin_extension"]%string.

Definition required_slots (f : PluginFamily) : list string :=
  match f with
  | kDataSource => dataSource_slots | kMessageParser => messageParser_slots | kToolbox => toolbox_slots
  | kDialog => dialog_slots | kWidget => widget_slots | kUnknown => []
  end.

Fixpoint validateSlots (family : string) (slots : list string) (vt : Vtable) : Expected unit :=
  match slots with
  | [] => Ok tt
  | name :: slots' =>
    if slot vt name then validateSlots family slots' vt
    else Err (family +:+ " vtable missing required slot: " +:+ name)
  end.

Definition validateRequiredSlots (f : PluginFamily) (vt : Vtable) : Expected unit :=
  validateSlots (family_name f) (required_slots f) vt.

(** The checks every reader of a table makes, in this order; [null_error] when there is none. *)
Definition admit_vtable (f : PluginFamily) (null_error : string) (vt : option Vtable) : Expected Vtable :=
  match vt with
  | None => Err null_error
  | Some vt =>
    if negb (protocol_version vt =? expected_protocol f) then Err (family_name f +:+ " protocol version mismatch")
    else if struct_size vt <? min_vtable_size f
    then Err (family_name f +:+ " vtable smaller than " +:+ baseline f +:+ " baseline")
    else let? _ := validateRequiredSlots f vt in Ok vt
  end.

(** [PJ_HAS_TAIL_SLOT] of a dialog's [manifest_json], the pointer at 96. *)
Definition has_static_manifest (vt : Vtable) : bool := (104 <=? struct_size vt) && slot vt "manifest_json".

Record ManifestCandidate : Set := mkCandidate { mc_family : PluginFamily; mc_manifest_json : bytes }.

(** ** Symbols *)

Section Loader.
Context (sys : System) (parse_json : bytes -> json + string) (dump_json : json -> option bytes).

Definition normalizedAbsoluteLibraryPath (path : bytes) : Expected bytes :=
  match absolute sys path with
  | inr what => Err ("cannot make library path absolute '" +:+ text_of path +:+ "': " +:+ what)
  | inl p => Ok (lexically_normal p)
  end.

Definition recordLibraryPathIdentity (path : bytes) : Expected LibraryPathIdentity :=
  let? load := normalizedAbsoluteLibraryPath path in
  Ok (mkIdentity load (default [] (weakly_canonical sys load))).

Definition loadLibraryHandle (path : bytes) : Expected (Z * LibraryPathIdentity) :=
  let? identity := recordLibraryPathIdentity path in
  match dlopen sys (load_path identity) with
  | inl handle => Ok (handle, identity)
  | inr error => Err (default ""%string error)
  end.

(** The object that defines a symbol, with the symbol's address. *)
Definition symbolOwner (symbol : option Z) : Expected (Z * bytes) :=
  match symbol with
  | Some address =>
    match dladdr sys address with
    | Some ((_ :: _) as file) => Ok (address, file)
    | _ => Err "dladdr failed to identify the defining object"
    end
  | None => Err "dladdr failed to identify the defining object"
  end.

(** The address, once it is known to be the candidate's own. *)
Definition verifySymbolProvenance (symbol : option Z) (name : string) (candidate : LibraryPathIdentity) : Expected Z :=
  match symbolOwner symbol with
  | Err error =>
    Err ("cannot prove provenance for symbol '" +:+ name +:+ "' in candidate '" +:+ text_of (load_path candidate) +:+ "': "
         +:+ error)
  | Ok (address, owner) =>
    if bytes_eqb owner (load_path candidate) ||
       (negb (bool_decide (resolved_path candidate = [])) && bytes_eqb owner (resolved_path candidate))
    then Ok address
    else
      match equivalent sys owner (load_path candidate) with
      | inr what =>
        Err ("cannot prove provenance for symbol '" +:+ name +:+ "': defining object '" +:+ text_of owner +:+
             "', candidate '" +:+ text_of (load_path candidate) +:+ "': " +:+ what)
      | inl false =>
        Err ("symbol '" +:+ name +:+ "' resolved from dependency '" +:+ text_of owner +:+ "', not candidate '" +:+
             text_of (load_path candidate) +:+ "'")
      | inl true => Ok address
      end
  end.

Definition resolveSymbol (handle : option Z) (name : string) (candidate : LibraryPathIdentity) : Expected Z :=
  match handle with
  | None => Err "library not loaded"
  | Some h =>
    match dlsym sys h name with
    | inr error => Err error
    | inl symbol => verifySymbolProvenance symbol name candidate
    end
  end.

Definition checkPluginAbiVersion (handle : option Z) (candidate : LibraryPathIdentity) : Expected unit :=
  match resolveSymbol handle "pj_plugin_abi_version" candidate with
  | Err error => Err ("plugin missing pj_plugin_abi_version symbol: " +:+ error)
  | Ok address =>
    if word_at sys address =? PJ_ABI_VERSION then Ok tt
    else
      Err ("plugin pj_plugin_abi_version mismatch (expected " +:+ pretty PJ_ABI_VERSION +:+ ", got " +:+
           pretty (word_at sys address) +:+ ")")
  end.

(** The table a getter returns, admitted. *)
Definition fetch_vtable (handle : option Z) (origin : LibraryPathIdentity) (f : PluginFamily) : Expected Vtable :=
  let? entry := resolveSymbol handle (getter f) origin in
  admit_vtable f (getter f +:+ " returned null") (vtable_from sys entry).

(** ** Inspection *)

Definition probeDirectVtable (handle : option Z) (origin : LibraryPathIdentity) (f : PluginFamily)
  : Expected ManifestCandidate :=
  let? vt := fetch_vtable handle origin f in
  Ok (mkCandidate f (if slot vt "manifest_json" then manifest_text vt else [])).

Definition tryDataSource handle origin := probeDirectVtable handle origin kDataSource.
Definition tryMessageParser handle origin := probeDirectVtable handle origin kMessageParser.
Definition tryToolbox handle origin := probeDirectVtable handle origin kToolbox.
Definition tryWidget handle origin := probeDirectVtable handle origin kWidget.

(** A dialog without the static manifest is created to ask it, and destroyed. *)
Definition tryDialog (handle : option Z) (origin : LibraryPathIdentity) : Expected ManifestCandidate :=
  let? vt := fetch_vtable handle origin kDialog in
  if has_static_manifest vt then Ok (mkCandidate kDialog (manifest_text vt))
  else if negb (created vt) then Err "PJ_dialog_vtable_t::create returned null"
  else Ok (mkCandidate kDialog (default [] (instance_manifest vt))).

(** The probes, in order; the errors of those before are joined. *)
Fixpoint first_candidate (probes : list (string * Expected ManifestCandidate)) (errors : string) : Expected ManifestCandidate :=
  match probes with
  | [] => Err ("no supported plugin vtable found" +:+ errors)
  | (name, Ok candidate) :: _ => Ok candidate
  | (name, Err error) :: probes' => first_candidate probes' (errors +:+ "; " +:+ name +:+ ": " +:+ error)
  end.

Definition findEmbeddedManifest (handle : option Z) (origin : LibraryPathIdentity) : Expected ManifestCandidate :=
  first_candidate
    [("data_source", tryDataSource handle origin); ("message_parser", tryMessageParser handle origin);
     ("toolbox", tryToolbox handle origin); ("dialog", tryDialog handle origin); ("widget", tryWidget handle origin)]%string "".

Definition with_path {A} (path : bytes) (e : Expected A) : Expected A :=
  match e with Err error => Err (text_of path +:+ ": " +:+ error) | Ok a => Ok a end.

(** [inspectPluginDso(handle, dso_path)] *)
Definition inspectHandle (handle : option Z) (path : bytes) : thrown (Expected PluginDescriptor) :=
  if negb (hasDsoSuffix path) then Got (Err ("not a platform plugin DSO: " +:+ text_of path))
  else
    match handle with
    | None => Got (with_path path (Err "library not loaded"))
    | Some _ =>
      match
        (let? identity := recordLibraryPathIdentity path in
         let? _ := checkPluginAbiVersion handle identity in
         findEmbeddedManifest handle identity)
      with
      | Err error => Got (with_path path (Err error))
      | Ok candidate =>
        lett descriptor := decodeManifest parse_json dump_json path (mc_family candidate) (mc_manifest_json candidate) in
        Got (with_path path descriptor)
      end
    end.

Definition inspectPluginDso (path : bytes) : thrown (Expected PluginDescriptor) :=
  if negb (hasDsoSuffix path) then Got (Err ("not a platform plugin DSO: " +:+ text_of path))
  else
    match loadLibraryHandle path with
    | Err error => Got (with_path path (Err error))
    | Ok (handle, identity) => inspectHandle (Some handle) (load_path identity)
    end.

(** [exportedPluginFamilies]: the getters a library defines itself. *)
Definition nativeSymbolPresent (handle : Z) (name : string) : bool :=
  match dlsym sys handle name with inl (Some _) => true | _ => false end.

Fixpoint exported_loop (handle : Z) (identity : LibraryPathIdentity) (todo families : list PluginFamily)
  : Expected (list PluginFamily) :=
  match todo with
  | [] => Ok families
  | f :: todo' =>
    if negb (nativeSymbolPresent handle (getter f)) then exported_loop handle identity todo' families
    else
      let? _ := resolveSymbol (Some handle) (getter f) identity in
      exported_loop handle identity todo' (families ++ [f])
  end.

Definition exportedPluginFamilies (handle : option Z) (path : bytes) : Expected (list PluginFamily) :=
  match handle with
  | None => Err "library not loaded"
  | Some h =>
    let? identity := recordLibraryPathIdentity path in
    exported_loop h identity [kDataSource; kMessageParser; kToolbox; kDialog; kWidget] []
  end.

(** ** Libraries *)

(** A native handle, or the anchor that stands for a plugin linked into the host. *)
Inductive Owner : Set := NativeHandle (h : Z) | StaticAnchor.

(** The three classes have the same members. *)
Record Library : Type := mkLibrary {
  handle_ : option Owner; vtable_ : option Vtable; static_dialog_vtable_ : option Vtable; path_ : bytes;
  resolved_path_ : bytes }.

Definition new_library : Library := mkLibrary None None None [] [].

Definition valid_library (l : Library) : bool :=
  match handle_ l, vtable_ l with Some _, Some _ => true | _, _ => false end.

Definition load_with_identity (f : PluginFamily) (handle : option Z) (recorded : LibraryPathIdentity) : Expected Library :=
  match handle with
  | None => Err "library not loaded"
  | Some h =>
    let? _ := checkPluginAbiVersion handle recorded in
    let? vtable := fetch_vtable handle recorded f in
    Ok (mkLibrary (Some (NativeHandle h)) (Some vtable) None (load_path recorded) (resolved_path recorded))
  end.

Definition load_library (f : PluginFamily) (path : bytes) : Expected Library :=
  let? loaded := loadLibraryHandle path in
  let '(h, recorded) := loaded in
  load_with_identity f (Some h) recorded.

Definition load_from_handle (f : PluginFamily) (handle : option Z) (origin : bytes) : Expected Library :=
  let? recorded := recordLibraryPathIdentity origin in
  load_with_identity f handle recorded.

Definition load_static (f : PluginFamily) (vtable dialog_vtable : option Vtable) : Expected Library :=
  let? vt := admit_vtable f ("static " +:+ family_name f +:+ " vtable is null") vtable in
  match dialog_vtable with
  | None => Ok (mkLibrary (Some StaticAnchor) (Some vt) None (str "static://") [])
  | Some _ =>
    let? dialog := admit_vtable kDialog "" dialog_vtable in
    Ok (mkLibrary (Some StaticAnchor) (Some vt) (Some dialog) (str "static://") [])
  end.

(** [Undef]: looking a symbol up in the anchor. *)
Definition resolve_dialog_vtable (f : PluginFamily) (l : Library) : exec (Expected Vtable) :=
  match static_dialog_vtable_ l with
  | Some vt => Val (Ok vt)
  | None =>
    if bytes_eqb (path_ l) (str "static://")
    then Val (Err ("static " +:+ family_name f +:+ " has no registered dialog vtable"))
    else
      match handle_ l with
      | Some StaticAnchor => Undef
      | Some (NativeHandle h) => Val (fetch_vtable (Some h) (mkIdentity (path_ l) (resolved_path_ l)) kDialog)
      | None => Val (fetch_vtable None (mkIdentity (path_ l) (resolved_path_ l)) kDialog)
      end
  end.

Definition reset_library (l : Library) : Library :=
  match handle_ l with Some _ => new_library | None => l end.

(** Moving: the new library and what is left of the other; [path] and [resolved] are what the moved strings hold. *)
Definition move_library (path resolved : bytes) (other : Library) : Library * Library :=
  (other, mkLibrary None None None path resolved).

Definition move_assign (path resolved : bytes) (l other : Library) : Library * Library :=
  let l := reset_library l in
  (mkLibrary (handle_ other) (vtable_ other) (static_dialog_vtable_ other) (path_ other) (resolved_path_ other),
   mkLibrary None None None path resolved).

Definition MessageParserLibrary_loadFromHandleWithIdentity := load_with_identity kMessageParser.
Definition MessageParserLibrary_load := load_library kMessageParser.
Definition MessageParserLibrary_loadFromHandle := load_from_handle kMessageParser.
Definition MessageParserLibrary_loadStatic := load_static kMessageParser.
Definition MessageParserLibrary_resolveDialogVtable := resolve_dialog_vtable kMessageParser.
Definition ToolboxLibrary_loadFromHandleWithIdentity := load_with_identity kToolbox.
Definition ToolboxLibrary_load := load_library kToolbox.
Definition ToolboxLibrary_loadFromHandle := load_from_handle kToolbox.
Definition ToolboxLibrary_loadStatic := load_static kToolbox.
Definition ToolboxLibrary_resolveDialogVtable := resolve_dialog_vtable kToolbox.

(** [DialogLibrary]: a dialog on its own. *)
Record DialogLibrary : Type := mkDialogLibrary { dl_handle : option Owner; dl_vtable : option Vtable; dl_path : bytes }.

Definition no_dialog_library : DialogLibrary := mkDialogLibrary None None [].

Definition dialog_load_from_handle (handle : option Z) (origin : bytes) : Expected DialogLibrary :=
  match handle with
  | None => Err "library not loaded"
  | Some h =>
    let? recorded := recordLibraryPathIdentity origin in
    let? _ := checkPluginAbiVersion handle recorded in
    let? vtable := fetch_vtable handle recorded kDialog in
    Ok (mkDialogLibrary (Some (NativeHandle h)) (Some vtable) (load_path recorded))
  end.

Definition dialog_load (path : bytes) : Expected DialogLibrary :=
  let? loaded := loadLibraryHandle path in
  let '(h, recorded) := loaded in
  dialog_load_from_handle (Some h) (load_path recorded).

Definition dialog_library_valid (l : DialogLibrary) : bool :=
  match dl_handle l, dl_vtable l with Some _, Some _ => true | _, _ => false end.

Definition dialog_library_reset (l : DialogLibrary) : DialogLibrary :=
  match dl_handle l with Some _ => no_dialog_library | None => l end.

Definition dialog_library_move (path : bytes) (other : DialogLibrary) : DialogLibrary * DialogLibrary :=
  (other, mkDialogLibrary None None path).

Definition dialog_library_assign (path : bytes) (l other : DialogLibrary) : DialogLibrary * DialogLibrary :=
  let l := dialog_library_reset l in
  (mkDialogLibrary (dl_handle other) (dl_vtable other) (dl_path other), mkDialogLibrary None None path).

(** ** Scanning a directory *)

Record PluginDiagnostic : Set := mkPluginDiagnostic { pg_path : bytes; pg_message : string }.
Record PluginScanResult : Set := mkScan { plugins : list PluginDescriptor; diagnostics : list PluginDiagnostic }.

(** What one entry adds to the result, before going on from it. *)
Definition scan_entry (v : Visit) : thrown (list PluginDescriptor * list PluginDiagnostic) :=
  match v_regular v with
  | inr what => Got ([], [mkPluginDiagnostic (v_path v) ("stat failed: " +:+ what)])
  | inl is_file =>
    if is_file && hasDsoSuffix (v_path v) then
      lett descriptor := inspectPluginDso (v_path v) in
      Got (match descriptor with
           | Ok d => ([d], [])
           | Err error => ([], [mkPluginDiagnostic (v_path v) error])
           end)
    else Got ([], [])
  end.

Definition increment_diagnostic (v : Visit) : list PluginDiagnostic :=
  match v_increment v with
  | Some what => [mkPluginDiagnostic (v_path v) ("directory iteration failed: " +:+ what)]
  | None => []
  end.

Fixpoint scan_loop (vs : list Visit) (r : PluginScanResult) : thrown PluginScanResult :=
  match vs with
  | [] => Got r
  | v :: vs' =>
    lett added := scan_entry v in
    scan_loop vs' (mkScan (plugins r ++ added.1) (diagnostics r ++ added.2 ++ increment_diagnostic v))
  end.

Definition plugin_le (a b : PluginDescriptor) : Prop := path_cmp (dso_path a) (dso_path b) <> Gt.
Definition diagnostic_le (a b : PluginDiagnostic) : Prop := path_cmp (pg_path a) (pg_path b) <> Gt.

#[export] Instance plugin_le_dec : RelDecision plugin_le.
Proof. intros a b. unfold plugin_le. apply _. Defined.
#[export] Instance diagnostic_le_dec : RelDecision diagnostic_le.
Proof. intros a b. unfold diagnostic_le. apply _. Defined.

(** [std::sort] is some sort: entries of one path may come in any order. *)
Definition scanPluginDsos (directory : bytes) : thrown (Expected PluginScanResult) :=
  if negb (exists_path sys directory) then Got (Err ("plugin directory not found: " +:+ text_of directory))
  else if negb (is_directory sys directory) then Got (Err ("plugin path is not a directory: " +:+ text_of directory))
  else
    match visits sys directory with
    | inr what => Got (Ok (mkScan [] [mkPluginDiagnostic directory ("directory iteration failed: " +:+ what)]))
    | inl vs =>
      lett r := scan_loop vs (mkScan [] []) in
      Got (Ok (mkScan (merge_sort plugin_le (plugins r)) (merge_sort diagnostic_le (diagnostics r))))
    end.

End Loader.

(** The required slots fill the baseline, two 32-bit numbers before them: a table of the least size has them all. *)
Example baseline_covers_slots :
  map (fun f => min_vtable_size f) [kDataSource; kMessageParser; kToolbox; kDialog; kWidget]
  = map (fun f => 8 + 8 * Z.of_nat (length (required_slots f))) [kDataSource; kMessageParser; kToolbox; kDialog; kWidget].
Proof. reflexivity. Qed.

Example extensions :
  map (fun p => hasDsoSuffix (str p)) ["/a/b.so"; "b.so"; "/a.so/b"; "/a/.so"; "/a/b.so.1"; "/a/.."; "x..so"]%string
  = [true; true; false; false; false; false; true].
Proof. vm_compute. reflexivity. Qed.

Example normal_paths :
  map (fun p => text_of (lexically_normal (str p))) ["/a/./b//c"; "/a/../../b"; "/a/b/.."; "a/.."; "../x/"; "/"; "./"; "a/."]%string
  = ["/a/b/c"; "/b"; "/a/"; "."; "../x/"; "/"; "."; "a/"]%string.
Proof. vm_compute. reflexivity. Qed.

(** ** Tables that are admitted *)

Definition vtable_ok (f : PluginFamily) (vt : Vtable) : Prop :=
  protocol_version vt = expected_protocol f /\ min_vtable_size f <= struct_size vt /\
  Forall (fun name => slot vt name = true) (required_slots f).

Lemma validateSlots_ok family slots vt :
  validateSlots family slots vt = Ok tt <-> Forall (fun name => slot vt name = true) slots.
Proof.
  induction slots as [|name slots IH]; cbn [validateSlots]; [by split|]. rewrite Forall_cons.
  destruct (slot vt name); [rewrite IH|]; split; try done; by intros [??].
Qed.

Lemma admit_vtable_ok f error vt vt' : admit_vtable f error vt = Ok vt' <-> vt = Some vt' /\ vtable_ok f vt'.
Proof.
  unfold admit_vtable, vtable_ok, validateRequiredSlots. destruct vt as [vt|]; [|by split; [|intros []]].
  destruct (protocol_version vt =? _) eqn:E1; cbn [negb]; [|split; [done|]; intros ([= ->] & H & _); blia].
  destruct (struct_size vt <? _) eqn:E2; [split; [done|]; intros ([= ->] & _ & H & _); blia|].
  pose proof (validateSlots_ok (family_name f) (required_slots f) vt) as Hs.
  destruct (validateSlots _ _ vt) as [[]|]; cbn [ebind].
  - split; [intros [= <-]|by intros ([= ->] & _)]. split_and!; [done|blia|blia|by apply Hs].
  - split; [done|]. intros ([= ->] & _ & _ & H). apply Hs in H. done.
Qed.

Section Proofs.
Context (sys : System) (parse_json : bytes -> json + string) (dump_json : json -> option bytes).

Lemma fetch_vtable_ok handle origin f vt :
  fetch_vtable sys handle origin f = Ok vt ->
  vtable_ok f vt /\ exists entry, resolveSymbol sys handle (getter f) origin = Ok entry /\ vtable_from sys entry = Some vt.
Proof.
  unfold fetch_vtable. destruct (resolveSymbol _ _ _ _) as [entry|]; [|done]. cbn [ebind].
  intros [H1 H2]%admit_vtable_ok. split; [done|]. by exists entry.
Qed.

(** Whatever resolves is not null and is the candidate's own. *)
Definition own_symbol (origin : LibraryPathIdentity) (address : Z) : Prop :=
  exists owner, dladdr sys address = Some owner /\ owner <> [] /\
  (owner = load_path origin \/ owner = resolved_path origin \/ equivalent sys owner (load_path origin) = inl true).

Lemma resolveSymbol_ok handle name origin address :
  resolveSymbol sys handle name origin = Ok address ->
  exists h, handle = Some h /\ dlsym sys h name = inl (Some address) /\ own_symbol origin address.
Proof.
  unfold resolveSymbol. destruct handle as [h|]; [|done]. destruct (dlsym sys h name) as [[a|]|] eqn:Es; [|done..].
  unfold verifySymbolProvenance, symbolOwner. destruct (dladdr sys a) as [[|c owner]|] eqn:Eo; try done.
  intros H. exists h. split; [done|]. destruct (_ || _) eqn:Eb.
  - injection H as <-. split; [done|]. exists (c :: owner). split; [done|]. split; [done|].
    apply orb_true_iff in Eb as [E|E]; [left; by apply bytes_eqb_eq|right; left].
    apply andb_true_iff in E as [_ E]. by apply bytes_eqb_eq.
  - destruct (equivalent _ _ _) as [[]|] eqn:Ee; try done. injection H as <-. split; [done|].
    exists (c :: owner). by split_and!; auto.
Qed.

(** ** The catalog and the loaders agree *)

Definition direct (f : PluginFamily) : Prop := f = kDataSource \/ f = kMessageParser \/ f = kToolbox.

(** The families that are probed before. *)
Definition earlier (f : PluginFamily) : list PluginFamily :=
  match f with kMessageParser => [kDataSource] | kToolbox => [kDataSource; kMessageParser] | _ => [] end.

(** What a library that loads holds. *)
Definition loaded_from (f : PluginFamily) (h : Z) (identity : LibraryPathIdentity) (l : Library) : Prop :=
  checkPluginAbiVersion sys (Some h) identity = Ok tt /\
  exists vt, fetch_vtable sys (Some h) identity f = Ok vt /\
  l = mkLibrary (Some (NativeHandle h)) (Some vt) None (load_path identity) (resolved_path identity).

Lemma load_from_handle_ok f handle path l :
  load_from_handle sys f handle path = Ok l <->
  exists h identity, handle = Some h /\ recordLibraryPathIdentity sys path = Ok identity /\ loaded_from f h identity l.
Proof.
  unfold load_from_handle, load_with_identity, loaded_from. split.
  - destruct (recordLibraryPathIdentity _ _) as [identity|]; [|done]. cbn [ebind]. destruct handle as [h|]; [|done].
    destruct (checkPluginAbiVersion _ _ _) as [[]|] eqn:Ea; [|done]. cbn [ebind].
    destruct (fetch_vtable _ _ _ _) as [vt|] eqn:Ef; [|done]. cbn [ebind]. intros [= <-].
    exists h, identity. split_and!; [done..|]. exists vt. done.
  - intros (h & identity & -> & -> & Ha & vt & Hf & ->). cbn [ebind]. rewrite Ha. cbn [ebind]. by rewrite Hf.
Qed.

Lemma probe_direct handle origin f vt :
  "manifest_json"%string ∈ required_slots f -> fetch_vtable sys handle origin f = Ok vt ->
  probeDirectVtable sys handle origin f = Ok (mkCandidate f (manifest_text vt)).
Proof.
  intros Hin Hf. unfold probeDirectVtable. rewrite Hf. cbn [ebind]. apply fetch_vtable_ok in Hf as [(_ & _ & Hs) _].
  rewrite Forall_forall in Hs. by rewrite (Hs _ Hin).
Qed.

Lemma probe_fails handle origin f error :
  fetch_vtable sys handle origin f = Err error -> probeDirectVtable sys handle origin f = Err error.
Proof. unfold probeDirectVtable. by intros ->. Qed.

Lemma manifest_required f : direct f -> "manifest_json"%string ∈ required_slots f.
Proof. intros [-> |[-> | ->]]; by_compute. Qed.

(** The candidate is that of the first family whose table is admitted. *)
Lemma candidate_direct handle origin f vt :
  direct f -> fetch_vtable sys handle origin f = Ok vt ->
  (forall g, g ∈ earlier f -> has_value (fetch_vtable sys handle origin g) = false) ->
  findEmbeddedManifest sys handle origin = Ok (mkCandidate f (manifest_text vt)).
Proof.
  intros Hd Hf He. pose proof (probe_direct _ _ _ _ (manifest_required f Hd) Hf) as Hp.
  assert (forall g, g ∈ earlier f -> exists error, probeDirectVtable sys handle origin g = Err error) as Hq.
  { intros g Hg%He. destruct (fetch_vtable sys handle origin g) as [|error] eqn:E; [done|]. exists error. by apply probe_fails. }
  unfold findEmbeddedManifest, tryDataSource, tryMessageParser, tryToolbox. destruct Hd as [-> |[-> | ->]].
  - by rewrite Hp.
  - destruct (Hq kDataSource) as [e ->]; [by left|]. cbn [first_candidate]. by rewrite Hp.
  - destruct (Hq kDataSource) as [e ->]; [by left|]. destruct (Hq kMessageParser) as [e' ->]; [right; left|].
    cbn [first_candidate]. by rewrite Hp.
Qed.

Lemma candidate_family handle origin c :
  findEmbeddedManifest sys handle origin = Ok c -> direct (mc_family c) ->
  exists vt, fetch_vtable sys handle origin (mc_family c) = Ok vt /\ mc_manifest_json c = manifest_text vt /\
  forall g, g ∈ earlier (mc_family c) -> has_value (fetch_vtable sys handle origin g) = false.
Proof.
  unfold findEmbeddedManifest. intros H Hd.
  assert (forall g, direct g -> match probeDirectVtable sys handle origin g with
    | Ok c => mc_family c = g /\ exists vt, fetch_vtable sys handle origin g = Ok vt /\ mc_manifest_json c = manifest_text vt
    | Err _ => has_value (fetch_vtable sys handle origin g) = false end) as Hp.
  { intros g Hg. destruct (fetch_vtable sys handle origin g) as [vt|error] eqn:Ef; [|by rewrite (probe_fails _ _ _ _ Ef)].
    rewrite (probe_direct _ _ _ _ (manifest_required g Hg) Ef). by eauto. }
  pose proof (Hp kDataSource (or_introl eq_refl)) as P1. pose proof (Hp kMessageParser (or_intror (or_introl eq_refl))) as P2.
  pose proof (Hp kToolbox (or_intror (or_intror eq_refl))) as P3. clear Hp.
  unfold tryDataSource, tryMessageParser, tryToolbox, tryWidget in H.
  destruct (probeDirectVtable sys handle origin kDataSource) as [c1|]; cbn [first_candidate] in H.
  { injection H as <-. destruct P1 as (E & vt & ? & ?). rewrite E. exists vt. split_and!; [done..|]. by intros g ?%elem_of_nil. }
  destruct (probeDirectVtable sys handle origin kMessageParser) as [c2|]; cbn [first_candidate] in H.
  { injection H as <-. destruct P2 as (E & vt & ? & ?). rewrite E. exists vt. split_and!; [done..|].
    by intros g ->%list_elem_of_singleton. }
  destruct (probeDirectVtable sys handle origin kToolbox) as [c3|]; cbn [first_candidate] in H.
  { injection H as <-. destruct P3 as (E & vt & ? & ?). rewrite E. exists vt. split_and!; [done..|].
    intros g [-> | ->%list_elem_of_singleton]%elem_of_cons; done. }
  exfalso. destruct (tryDialog sys handle origin) as [c4|] eqn:E4; cbn [first_candidate] in H.
  - injection H as <-. unfold tryDialog in E4. destruct (fetch_vtable _ _ _ _); [|done]. cbn [ebind] in E4.
    destruct (has_static_manifest _); [|destruct (negb _); [done|]]; injection E4 as <-; by destruct Hd as [|[]].
  - destruct (probeDirectVtable sys handle origin kWidget) as [c5|] eqn:E5; cbn [first_candidate] in H; [|done].
    injection H as <-. unfold probeDirectVtable in E5. destruct (fetch_vtable _ _ _ _); [|done]. cbn [ebind] in E5.
    injection E5 as <-. by destruct Hd as [|[]].
Qed.

Lemma decoded_family path fam text d :
  decodeManifest parse_json dump_json path fam text = Got (Ok d) -> family d = fam.
Proof.
  unfold decodeManifest. case_bool_decide; [done|]. destruct (parse_json text); [|done]. intros Hok%decode_plugin_ok. tauto.
Qed.

(** What was inspected of a handle. *)
Lemma inspectHandle_ok handle path d :
  inspectHandle sys parse_json dump_json handle path = Got (Ok d) <->
  hasDsoSuffix path = true /\ exists h identity c,
  handle = Some h /\ recordLibraryPathIdentity sys path = Ok identity /\
  checkPluginAbiVersion sys (Some h) identity = Ok tt /\ findEmbeddedManifest sys (Some h) identity = Ok c /\
  decodeManifest parse_json dump_json path (mc_family c) (mc_manifest_json c) = Got (Ok d).
Proof.
  unfold inspectHandle. destruct (hasDsoSuffix path); cbn [negb]; [|by split; [|intros []]]. split.
  - destruct handle as [h|]; [|done]. destruct (recordLibraryPathIdentity _ _) as [identity|] eqn:Ei; [|done]. cbn [ebind].
    destruct (checkPluginAbiVersion _ _ _) as [[]|] eqn:Ea; [|done]. cbn [ebind].
    destruct (findEmbeddedManifest _ _ _) as [c|] eqn:Ec; [|done]. cbn [tbind].
    destruct (decodeManifest _ _ _ _ _) as [[d'|]| |] eqn:Ed; try done. intros [= <-]. split; [done|].
    by exists h, identity, c.
  - intros (_ & h & identity & c & -> & -> & Ha & Hc & Hd). cbn [ebind]. rewrite Ha. cbn [ebind]. by rewrite Hc, Hd.
Qed.

(** ** Dialogs *)

(** The manifest the catalog reads of an admitted dialog table, if any: the static one, or that of an instance. *)
Definition dialog_manifest (vt : Vtable) : option bytes :=
  if has_static_manifest vt then Some (manifest_text vt)
  else if created vt then Some (default [] (instance_manifest vt)) else None.

Lemma probe_family handle origin g c : probeDirectVtable sys handle origin g = Ok c -> mc_family c = g.
Proof. unfold probeDirectVtable. destruct (fetch_vtable _ _ _ _); [|done]. by intros [= <-]. Qed.

Lemma probe_fetch handle origin g : has_value (probeDirectVtable sys handle origin g) = has_value (fetch_vtable sys handle origin g).
Proof. unfold probeDirectVtable. by destruct (fetch_vtable _ _ _ _). Qed.

(** Without a direct family the dialog and the widget are left. *)
Lemma candidate_indirect handle origin :
  (forall g, direct g -> has_value (fetch_vtable sys handle origin g) = false) ->
  exists errors, findEmbeddedManifest sys handle origin
    = first_candidate [("dialog", tryDialog sys handle origin); ("widget", tryWidget sys handle origin)]%string errors.
Proof.
  intros Hno. unfold findEmbeddedManifest, tryDataSource, tryMessageParser, tryToolbox.
  pose proof (Hno kDataSource ltac:(by left)) as H1. pose proof (Hno kMessageParser ltac:(by right; left)) as H2.
  pose proof (Hno kToolbox ltac:(by right; right)) as H3. rewrite <-!probe_fetch in H1, H2, H3.
  destruct (probeDirectVtable sys handle origin kDataSource); [done|]. destruct (probeDirectVtable sys handle origin kMessageParser); [done|].
  destruct (probeDirectVtable sys handle origin kToolbox); [done|]. cbn [first_candidate]. by eexists.
Qed.

Lemma candidate_not_direct handle origin c :
  findEmbeddedManifest sys handle origin = Ok c -> ~ direct (mc_family c) ->
  forall g, direct g -> has_value (fetch_vtable sys handle origin g) = false.
Proof.
  unfold findEmbeddedManifest, tryDataSource, tryMessageParser, tryToolbox. intros H Hd g Hg. rewrite <-probe_fetch.
  pose proof (probe_family handle origin kDataSource) as F1. pose proof (probe_family handle origin kMessageParser) as F2.
  pose proof (probe_family handle origin kToolbox) as F3.
  destruct (probeDirectVtable sys handle origin kDataSource) as [c1|] eqn:E1; cbn [first_candidate] in H.
  { injection H as <-. exfalso. apply Hd. left. by apply F1. }
  destruct (probeDirectVtable sys handle origin kMessageParser) as [c1|] eqn:E2; cbn [first_candidate] in H.
  { injection H as <-. exfalso. apply Hd. right. left. by apply F2. }
  destruct (probeDirectVtable sys handle origin kToolbox) as [c1|] eqn:E3; cbn [first_candidate] in H.
  { injection H as <-. exfalso. apply Hd. right. right. by apply F3. }
  destruct Hg as [-> |[-> | ->]]; by rewrite ?E1, ?E2, ?E3.
Qed.

(** The candidate of a dialog. *)
Lemma candidate_dialog handle origin m :
  findEmbeddedManifest sys handle origin = Ok (mkCandidate kDialog m) <->
  (exists vt, fetch_vtable sys handle origin kDialog = Ok vt /\ dialog_manifest vt = Some m) /\
  (forall g, direct g -> has_value (fetch_vtable sys handle origin g) = false).
Proof.
  split.
  - intros H. assert (forall g, direct g -> has_value (fetch_vtable sys handle origin g) = false) as Hno
      by (apply (candidate_not_direct _ _ _ H); by intros [|[|]]).
    split; [|done]. destruct (candidate_indirect _ _ Hno) as [errors E]. rewrite E in H. clear E.
    assert (forall errors', first_candidate [("widget", tryWidget sys handle origin)]%string errors' <> Ok (mkCandidate kDialog m)) as Hw.
    { intros errors'. pose proof (probe_family handle origin kWidget) as Fw. unfold tryWidget.
      destruct (probeDirectVtable sys handle origin kWidget) as [c|]; [|done]. cbn. intros [= ->]. by specialize (Fw _ eq_refl). }
    cbn [first_candidate] in H. unfold tryDialog in H. unfold dialog_manifest.
    destruct (fetch_vtable sys handle origin kDialog) as [vt|]; cbn [ebind] in H; [|by apply Hw in H].
    exists vt. split; [done|]. destruct (has_static_manifest vt); [by injection H as ->|].
    destruct (created vt); cbn [negb] in H; [by injection H as ->|by apply Hw in H].
  - intros [(vt & Hf & Hm) Hno]. destruct (candidate_indirect _ _ Hno) as [errors ->].
    unfold tryDialog. rewrite Hf. cbn [ebind]. unfold dialog_manifest in Hm.
    destruct (has_static_manifest vt); [by injection Hm as ->|]. by destruct (created vt); [injection Hm as ->|].
Qed.

Lemma dialog_load_ok handle path l :
  dialog_load_from_handle sys handle path = Ok l <->
  exists h identity vt, handle = Some h /\ recordLibraryPathIdentity sys path = Ok identity /\
    checkPluginAbiVersion sys (Some h) identity = Ok tt /\ fetch_vtable sys (Some h) identity kDialog = Ok vt /\
    l = mkDialogLibrary (Some (NativeHandle h)) (Some vt) (load_path identity).
Proof.
  unfold dialog_load_from_handle. split.
  - destruct handle as [h|]; [|done]. destruct (recordLibraryPathIdentity _ _) as [identity|]; [|done]. cbn [ebind].
    destruct (checkPluginAbiVersion _ _ _) as [[]|] eqn:Ea; [|done]. cbn [ebind].
    destruct (fetch_vtable _ _ _ _) as [vt|] eqn:Ef; [|done]. cbn [ebind]. intros [= <-]. by exists h, identity, vt.
  - intros (h & identity & vt & -> & -> & Ha & Hf & ->). cbn [ebind]. rewrite Ha. cbn [ebind]. by rewrite Hf.
Qed.

(** A library whose identity and ABI are accepted loads as a family exactly when its table does. *)
Lemma load_fails h identity path g :
  recordLibraryPathIdentity sys path = Ok identity -> checkPluginAbiVersion sys (Some h) identity = Ok tt ->
  has_value (load_from_handle sys g (Some h) path) = has_value (fetch_vtable sys (Some h) identity g).
Proof.
  intros Hi Ha. unfold load_from_handle, load_with_identity. rewrite Hi. cbn [ebind]. rewrite Ha. cbn [ebind].
  by destruct (fetch_vtable _ _ _ _).
Qed.

(** What the catalog lists as a dialog. *)
Lemma dialog_listed handle path d :
  inspectHandle sys parse_json dump_json handle path = Got (Ok d) /\ family d = kDialog <->
  hasDsoSuffix path = true /\ exists l vt m,
    dialog_load_from_handle sys handle path = Ok l /\ dl_vtable l = Some vt /\ dialog_manifest vt = Some m /\
    decodeManifest parse_json dump_json path kDialog m = Got (Ok d) /\
    (forall g, direct g -> has_value (load_from_handle sys g handle path) = false).
Proof.
  rewrite inspectHandle_ok. split.
  - intros [(Hs & h & identity & [f m] & -> & Hi & Ha & Hc & Hd) Hfam]. cbn [mc_family mc_manifest_json] in Hd.
    pose proof (decoded_family _ _ _ _ Hd) as E. rewrite Hfam in E. subst f.
    apply candidate_dialog in Hc as [(vt & Hf & Hm) Hno]. split; [done|]. eexists _, vt, m.
    split; [apply dialog_load_ok; by exists h, identity, vt|]. split_and!; [done..|].
    intros g Hg. rewrite (load_fails h identity path g Hi Ha). by apply Hno.
  - intros (Hs & l & vt & m & Hl & Hv & Hm & Hd & Hno). split; [|by eapply decoded_family].
    apply dialog_load_ok in Hl as (h & identity & vt' & -> & Hi & Ha & Hf & ->). injection Hv as ->.
    split; [done|]. exists h, identity, (mkCandidate kDialog m). split_and!; [done..| |done].
    apply candidate_dialog. split; [by exists vt|]. intros g Hg. rewrite <-(load_fails h identity path g Hi Ha). by apply Hno.
Qed.

(** C34 The catalog lists a library as a data source, parser or toolbox exactly when the loader of that family accepts it, no
    family before it does, and its manifest decodes; what is listed is that manifest.  And such a loader accepts only a library whose getter
    and version word are its own, of the host's ABI, with a table of the protocol's version that reaches past the
    baseline and has every required slot.  A library is listed as a dialog exactly when the dialog loader accepts it, no data
    source, parser or toolbox loader does, and its static manifest, or else the manifest of an instance that was created, decodes: a dialog
    without a static manifest whose creation fails loads but is not listed.  (Widgets are not compared: their loader checks a
    build information besides, which the catalog does not.) *)
Theorem catalog_agrees_with_loaders handle path d :
  (inspectHandle sys parse_json dump_json handle path = Got (Ok d) /\ family d = kDialog <->
   hasDsoSuffix path = true /\ exists l vt m,
   dialog_load_from_handle sys handle path = Ok l /\ dl_vtable l = Some vt /\ dialog_manifest vt = Some m /\
   decodeManifest parse_json dump_json path kDialog m = Got (Ok d) /\
   (forall g, direct g -> has_value (load_from_handle sys g handle path) = false)) /\
  forall f, direct f ->
  (inspectHandle sys parse_json dump_json handle path = Got (Ok d) /\ family d = f <->
   hasDsoSuffix path = true /\ exists l vt,
   load_from_handle sys f handle path = Ok l /\ vtable_ l = Some vt /\
   decodeManifest parse_json dump_json path f (manifest_text vt) = Got (Ok d) /\
   (forall g, g ∈ earlier f -> has_value (load_from_handle sys g handle path) = false)) /\
  (forall l, load_from_handle sys f handle path = Ok l ->
   valid_library l = true /\ exists h identity vt entry word,
   vtable_ l = Some vt /\ vtable_ok f vt /\ path_ l = load_path identity /\
   dlsym sys h (getter f) = inl (Some entry) /\ own_symbol identity entry /\ vtable_from sys entry = Some vt /\
   dlsym sys h "pj_plugin_abi_version" = inl (Some word) /\ own_symbol identity word /\ word_at sys word = PJ_ABI_VERSION).
Proof.
  split; [apply dialog_listed|]. intros f Hf. split; [rewrite inspectHandle_ok; split|].
  - intros [(Hs & h & identity & c & -> & Hi & Ha & Hc & Hd) Hfam]. pose proof (decoded_family _ _ _ _ Hd) as E.
    rewrite Hfam in E. rewrite E in Hf. apply candidate_family in Hc as (vt & Hv & Hm & He); [|done].
    rewrite <-E, Hm in *. split; [done|]. eexists _, vt. split.
    { apply load_from_handle_ok. exists h, identity. repeat (split; [done|]). by exists vt. }
    split_and!; [done..|]. intros g Hg%He. destruct (load_from_handle sys g (Some h) path) as [l|] eqn:El; [|done].
    apply load_from_handle_ok in El as (h' & identity' & [= <-] & Hi' & _ & vt' & Hv' & _).
    rewrite Hi in Hi'. injection Hi' as <-. by rewrite Hv' in Hg.
  - intros (Hs & l & vt & Hl & Hv & Hd & He). split; [|by eapply decoded_family].
    apply load_from_handle_ok in Hl as (h & identity & -> & Hi & Ha & vt' & Hv' & ->). injection Hv as ->.
    split; [done|]. exists h, identity, (mkCandidate f (manifest_text vt)). split_and!; [done..| |done].
    apply candidate_direct; [done..|]. intros g Hg%He. destruct (fetch_vtable sys (Some h) identity g) as [vt'|] eqn:Eg; [|done].
    exfalso. assert (load_from_handle sys g (Some h) path = Ok (mkLibrary (Some (NativeHandle h)) (Some vt') None
      (load_path identity) (resolved_path identity))) as El.
    { apply load_from_handle_ok. exists h, identity. repeat (split; [done|]). by exists vt'. }
    by rewrite El in Hg.
  - intros l (h & identity & -> & Hi & Ha & vt & Hv & ->)%load_from_handle_ok. split; [done|].
    apply fetch_vtable_ok in Hv as (Hok & entry & Hr & Hvt). apply resolveSymbol_ok in Hr as (h' & [= <-] & Hs & Ho).
    unfold checkPluginAbiVersion in Ha. destruct (resolveSymbol _ _ _ _) as [word|] eqn:Ew; [|done].
    apply resolveSymbol_ok in Ew as (h' & [= <-] & Hs' & Ho'). destruct (_ =? _) eqn:E; [|done].
    exists h, identity, vt, entry, word. split_and!; try done. blia.
Qed.

(** ** The scan *)

Lemma path_cmp_total : TotalCmp (fun _ => True) path_cmp.
Proof.
  unfold path_cmp. apply total_then.
  - by apply (total_key (fun _ => True) (fun _ => True) (fun p => if rooted p then 1 else 0) Z.compare).
  - apply (total_key (fun _ => True) (Forall (fun _ => True)) path_names (list_cmp string_cmp)). intros. by apply Forall_true.
Qed.

Lemma path_cmp_gt a b : path_cmp a b = Gt -> path_cmp b a <> Gt.
Proof. intros H. rewrite (cmp_flip (P:=fun _ => True) (TotalCmp:=path_cmp_total) a b), H by done. done. Qed.

#[local] Instance plugin_le_total : Total plugin_le.
Proof.
  intros a b. unfold plugin_le. destruct (path_cmp (dso_path a) (dso_path b)) eqn:E; [by left..|]. right. by apply path_cmp_gt.
Qed.

#[local] Instance diagnostic_le_total : Total diagnostic_le.
Proof.
  intros a b. unfold diagnostic_le. destruct (path_cmp (pg_path a) (pg_path b)) eqn:E; [by left..|]. right. by apply path_cmp_gt.
Qed.

(** The files the scan inspects. *)
Definition is_candidate (v : Visit) : bool :=
  match v_regular v with inl is_file => is_file && hasDsoSuffix (v_path v) | inr _ => false end.

Definition plugin_of (v : Visit) : list PluginDescriptor :=
  if is_candidate v
  then match inspectPluginDso sys parse_json dump_json (v_path v) with Got (Ok d) => [d] | _ => [] end else [].

Definition diagnostics_of (v : Visit) : list PluginDiagnostic :=
  match v_regular v with inr what => [mkPluginDiagnostic (v_path v) ("stat failed: " +:+ what)] | inl _ => [] end ++
  (if is_candidate v
   then match inspectPluginDso sys parse_json dump_json (v_path v) with
        | Got (Err error) => [mkPluginDiagnostic (v_path v) error] | _ => [] end else []) ++
  increment_diagnostic v.

(** A dialog that its loader accepts has a complete table. *)
Theorem dialog_loaded handle path l :
  dialog_load_from_handle sys handle path = Ok l ->
  dialog_library_valid l = true /\ exists vt, dl_vtable l = Some vt /\ vtable_ok kDialog vt.
Proof.
  unfold dialog_load_from_handle. destruct handle as [h|]; [|done].
  destruct (recordLibraryPathIdentity _ _) as [identity|]; [|done]. cbn [ebind].
  destruct (checkPluginAbiVersion _ _ _); [|done]. cbn [ebind].
  destruct (fetch_vtable _ _ _ _) as [vt|] eqn:Ef; [|done]. cbn [ebind]. intros [= <-]. split; [done|].
  exists vt. split; [done|]. by apply fetch_vtable_ok in Ef as [? _].
Qed.

Section Scan.
Context (decodes : forall path fam text, exists r, decodeManifest parse_json dump_json path fam text = Got r).

Lemma inspect_returns path : exists r, inspectPluginDso sys parse_json dump_json path = Got r.
Proof.
  unfold inspectPluginDso. destruct (negb _); [by eexists|]. destruct (loadLibraryHandle _ _) as [[h identity]|]; [|by eexists].
  unfold inspectHandle. destruct (negb _); [by eexists|].
  destruct (let? _ := _ in _) as [c|]; [|by eexists].
  destruct (decodes (load_path identity) (mc_family c) (mc_manifest_json c)) as [r ->]. by eexists.
Qed.

Lemma scan_loop_result vs r :
  scan_loop sys parse_json dump_json vs r
  = Got (mkScan (plugins r ++ flat_map plugin_of vs) (diagnostics r ++ flat_map diagnostics_of vs)).
Proof.
  revert r. induction vs as [|v vs IH]; intros [ps ds]; cbn [scan_loop flat_map plugins diagnostics]; [by rewrite !app_nil_r|].
  assert (scan_entry sys parse_json dump_json v =
    Got (plugin_of v, match v_regular v with inr what => [mkPluginDiagnostic (v_path v) ("stat failed: " +:+ what)] | inl _ => [] end ++
      (if is_candidate v then match inspectPluginDso sys parse_json dump_json (v_path v) with
        | Got (Err error) => [mkPluginDiagnostic (v_path v) error] | _ => [] end else []))) as ->.
  { unfold scan_entry, plugin_of, is_candidate. destruct (v_regular v) as [b|]; [|done]. destruct (b && _); [|done].
    destruct (inspect_returns (v_path v)) as [[d|error] ->]; done. }
  cbn [tbind fst snd]. rewrite IH. cbn [plugins diagnostics]. unfold diagnostics_of. by rewrite <-!app_assoc.
Qed.

(** A scan of a directory that can be read always gives a result, in the order of the paths.  Every candidate is accounted for: its
    descriptor is listed or the reason why not is, and an entry that cannot be read does not hide the others. *)
Theorem scan_accounts directory vs :
  exists_path sys directory = true -> is_directory sys directory = true -> visits sys directory = inl vs ->
  exists r, scanPluginDsos sys parse_json dump_json directory = Got (Ok r) /\
  Sorted plugin_le (plugins r) /\ Sorted diagnostic_le (diagnostics r) /\
  plugins r ≡ₚ flat_map plugin_of vs /\ diagnostics r ≡ₚ flat_map diagnostics_of vs /\
  forall v, v ∈ vs -> is_candidate v = true ->
    (exists d, d ∈ plugins r /\ inspectPluginDso sys parse_json dump_json (v_path v) = Got (Ok d)) \/
    (exists error, mkPluginDiagnostic (v_path v) error ∈ diagnostics r).
Proof.
  intros He Hd Hv. unfold scanPluginDsos. rewrite He, Hd, Hv, scan_loop_result. cbn [negb tbind plugins diagnostics app].
  eexists. split; [done|]. cbn [plugins diagnostics].
  split; [apply (Sorted_merge_sort plugin_le)|]. split; [apply (Sorted_merge_sort diagnostic_le)|].
  split; [apply merge_sort_Permutation|]. split; [apply merge_sort_Permutation|].
  intros v Hin Hc. destruct (inspect_returns (v_path v)) as [[d|error] Hr].
  - left. exists d. split; [|done]. rewrite merge_sort_Permutation, list_elem_of_In, in_flat_map. exists v.
    split; [by apply list_elem_of_In|]. unfold plugin_of. rewrite Hc, Hr. by left.
  - right. exists error. rewrite merge_sort_Permutation, list_elem_of_In, in_flat_map. exists v.
    split; [by apply list_elem_of_In|]. unfold diagnostics_of. rewrite Hc, Hr. apply in_app_iff. right. by left.
Qed.

End Scan.
End Proofs.

(** A library never looks a symbol up in the anchor of a static plugin, wherever it was moved. *)
Definition library_ok (l : Library) : Prop :=
  match handle_ l with Some StaticAnchor => path_ l = str "static://" | _ => True end.

Lemma loads_ok sys f handle path vtable dialog l :
  load_from_handle sys f handle path = Ok l \/ load_static f vtable dialog = Ok l -> library_ok l /\ valid_library l = true.
Proof.
  intros [(h & identity & _ & _ & _ & vt & _ & ->)%load_from_handle_ok|H]; [done|]. unfold load_static in H.
  destruct (admit_vtable f _ vtable) as [vt|]; [|done]. cbn [ebind] in H.
  destruct dialog as [dv|]; [|by injection H as <-]. destruct (admit_vtable kDialog _ _) as [d|]; [|done].
  by injection H as <-.
Qed.

Lemma moves_ok p q l other :
  library_ok l -> library_ok other ->
  library_ok (move_library p q other).1 /\ library_ok (move_library p q other).2 /\
  library_ok (move_assign p q l other).1 /\ library_ok (move_assign p q l other).2 /\ library_ok (reset_library l).
Proof. intros Hl Ho. unfold reset_library. destruct (handle_ l) eqn:E; by split_and!. Qed.

Theorem dialog_lookup_defined sys f l : library_ok l -> resolve_dialog_vtable sys f l <> Undef.
Proof.
  unfold library_ok, resolve_dialog_vtable. intros H. destruct (static_dialog_vtable_ l); [done|].
  destruct (bytes_eqb _ _) eqn:E; [done|]. destruct (handle_ l) as [[|]|]; try done.
  rewrite H in E. by rewrite bytes_eqb_refl in E.
Qed.

(** ** Runs *)

(** A directory with a toolbox, a dialog of the first protocol and a text; the toolbox also exports a parser's getter, which a
    library it links defines. *)
Definition demo_table (f : PluginFamily) (size : Z) (absent manifest : string) : Vtable :=
  mkVtable (expected_protocol f) size (fun name => negb (String.eqb name absent)) (str manifest) true (Some (str manifest)).

Definition demo_system : System := {|
  absolute p := inl (if rooted p then p else str "/cwd/" ++ p);
  weakly_canonical _ := None;
  equivalent a b := inl false;
  dlopen p := if bytes_eqb p (str "/p/t.so") then inl 1 else if bytes_eqb p (str "/p/d.so") then inl 2 else inr (Some "no such file"%string);
  dlsym h name :=
    if String.eqb name "pj_plugin_abi_version" then inl (Some (10 * h))
    else if (h =? 1) && String.eqb name "PJ_get_toolbox_vtable" then inl (Some 11)
    else if (h =? 1) && String.eqb name "PJ_get_message_parser_vtable" then inl (Some 31)
    else if (h =? 2) && String.eqb name "PJ_get_dialog_vtable" then inl (Some 21)
    else inr "undefined symbol"%string;
  dladdr a := Some (if a <? 20 then str "/p/t.so" else if a <? 30 then str "/p/d.so" else str "/lib/dep.so");
  word_at _ := 5;
  vtable_from a := if a =? 11 then Some (demo_table kToolbox 88 "" "toolbox") else if a =? 21 then Some (demo_table kDialog 96 "" "dialog") else None;
  exists_path _ := true;
  is_directory _ := true;
  visits _ := inl [mkVisit (str "/p/t.so") (inl true) None; mkVisit (str "/p/d.so") (inl true) (Some "denied"%string);
                   mkVisit (str "/p/x.txt") (inl true) None; mkVisit (str "/p/a.so") (inl true) None] |}.

Definition demo_json (name : string) : json :=
  JObject [(str "id", JString (str name)); (str "name", JString (str name)); (str "version", JString (str "1"))].

Definition demo_parser (text : bytes) : json + string := inl (demo_json (text_of text)).

Definition demo_plugin (path : string) (f : PluginFamily) (name : string) : PluginDescriptor :=
  mkPlugin (str path) 5 f (str name) (str name) (str "1") [] [] [] [] [] [] [] [] [] [] [].

Example demo_scan :
  scanPluginDsos demo_system demo_parser (fun _ => None) (str "/p")
  = Got (Ok (mkScan [demo_plugin "/p/d.so" kDialog "dialog"; demo_plugin "/p/t.so" kToolbox "toolbox"]
                    [mkPluginDiagnostic (str "/p/a.so") "/p/a.so: no such file"; mkPluginDiagnostic (str "/p/d.so") "directory iteration failed: denied"])).
Proof. vm_compute. reflexivity. Qed.

Example demo_families :
  exportedPluginFamilies demo_system (Some 2) (str "/p/d.so") = Ok [kDialog] /\
  exportedPluginFamilies demo_system (Some 1) (str "/p/t.so")
  = Err "symbol 'PJ_get_message_parser_vtable' resolved from dependency '/lib/dep.so', not candidate '/p/t.so'".
Proof. split; vm_compute; reflexivity. Qed.

Example missing_slot :
  load_static kDataSource (Some (demo_table kDataSource 128 "poll" "")) None = Err "DataSource vtable missing required slot: poll".
Proof. reflexivity. Qed.

Lemma catalog_agrees_with_loaders_witness :
  exists l vt, load_from_handle demo_system kToolbox (Some 1) (str "/p/t.so") = Ok l /\ vtable_ l = Some vt /\
  decodeManifest demo_parser (fun _ => None) (str "/p/t.so") kToolbox (manifest_text vt) = Got (Ok (demo_plugin "/p/t.so" kToolbox "toolbox")) /\
  (forall g, g ∈ earlier kToolbox -> has_value (load_from_handle demo_system g (Some 1) (str "/p/t.so")) = false).
Proof.
  apply (proj2 (catalog_agrees_with_loaders demo_system demo_parser (fun _ => None) (Some 1) (str "/p/t.so")
           (demo_plugin "/p/t.so" kToolbox "toolbox")) kToolbox).
  - right. by right.
  - split; [vm_compute; reflexivity|done].
Defined.

Example dialog_lookup_defined_witness :
  resolve_dialog_vtable demo_system kToolbox (mkLibrary (Some StaticAnchor) None None (str "static://") []) <> Undef.
Proof. by apply dialog_lookup_defined. Defined.

(** ** Native parser modules from files

    [NativeParserModule::load] ([pj_plugins/src/native_parser_module.cpp], [detail/native_parser_module_loader.hpp],
    [detail/native_parser_module_state.hpp]): a parser module is opened, its exports are resolved in it, its ABI is checked and
    its manifest is read.  [ModuleRuntime] models what a loaded module does, [ClaimManifest] what its manifest claims.

    [call] is what an export without parameters returns, [memory] what is readable from an address on. *)

(** The exports, in the order they are resolved. *)
Definition module_exports : list string :=
  ["pj_module_abi"; "pj_module_create"; "pj_module_destroy"; "pj_module_bind"; "pj_module_parse"; "pj_module_last_error";
   "pj_module_alloc"; "pj_module_free"; "pj_module_manifest_addr"; "pj_module_manifest_len"]%string.

(** [NativeParserModuleState]: the addresses of the exports, in that order. *)
Record NativeParserModuleState : Set := mkModuleState {
  nps_handle : Z; nps_path : bytes; nps_manifest_json : bytes; nps_exports : list Z }.

(** What the process has besides: the handles kept for the session, and what the sink was handed. *)
Record Session : Set := mkSession { session_handles : list Z; session_sink : bool; session_sent : list Diagnostic }.

Section Load.
Context (sys : System) (call : Z -> Z) (memory : Z -> bytes).

Definition openNativeParserModule (path : bytes) : Expected (Z * LibraryPathIdentity) := loadLibraryHandle sys path.

Definition resolveNativeParserModuleSymbol (handle : option Z) (name : string) (candidate : LibraryPathIdentity) : Expected Z :=
  match handle with
  | None => Err "native parser module is not loaded"
  | Some _ => resolveSymbol sys handle name candidate
  end.

Definition retainForSession (handle : Z) (s : Session) : Session :=
  mkSession (session_handles s ++ [handle]) (session_sink s) (session_sent s).

Definition rejectLoad (path : bytes) (message : string) (s : Session) : Expected NativeParserModuleState * Session :=
  (Err message,
   if session_sink s then mkSession (session_handles s) true (session_sent s ++ [mkDiagnostic kError path message]) else s).

Definition resolve_exports (handle : Z) (candidate : LibraryPathIdentity) (names : list string) : Expected (list Z) :=
  each_entry (fun name => resolveNativeParserModuleSymbol (Some handle) name candidate) names.

(** [Undef]: the manifest is longer than the memory it is in. *)
Definition load_module (path : bytes) (s : Session) : exec (Expected NativeParserModuleState * Session) :=
  match openNativeParserModule path with
  | Err error => Val (rejectLoad path ("failed to open native parser module: " +:+ error) s)
  | Ok (handle, recorded) =>
    let s := retainForSession handle s in
    match resolve_exports handle recorded module_exports with
    | Err error => Val (rejectLoad path error s)
    | Ok exports =>
      let export i := List.nth i exports 0 in
      let actual_abi := wrap 32 (call (export 0%nat)) in
      if negb (actual_abi =? PJ_PARSER_MODULE_ABI_VERSION)
      then Val (rejectLoad path ("native parser module ABI mismatch (expected " +:+ pretty PJ_PARSER_MODULE_ABI_VERSION +:+ ", got "
                                 +:+ pretty actual_abi +:+ ")") s)
      else
        let manifest_addr := wrap 64 (call (export 8%nat)) in
        let manifest_len := wrap 64 (call (export 9%nat)) in
        if (manifest_addr =? 0) || (manifest_len =? 0) || (manifest_len >? UINT64_MAX)
        then Val (rejectLoad path "native parser module manifest is unreadable" s)
        else if Z.of_nat (length (memory manifest_addr)) <? manifest_len then Undef
        else
          Val (Ok (mkModuleState handle path (take (Z.to_nat manifest_len) (memory manifest_addr)) exports), s)
    end
  end.

(** [path] and [manifestJson] of a module, [None] when it is empty. *)
Definition module_path (m : option NativeParserModuleState) : bytes := match m with Some m => nps_path m | None => [] end.
Definition manifestJson (m : option NativeParserModuleState) : bytes := match m with Some m => nps_manifest_json m | None => [] end.

(** An export of the module's own file. *)
Definition own_export (identity : LibraryPathIdentity) (handle : Z) (name : string) (address : Z) : Prop :=
  dlsym sys handle name = inl (Some address) /\ own_symbol sys identity address.

(** A rejection after [opened] handles were opened. *)
Ltac rejected opened sink :=
  split; [exists opened; destruct sink; cbn; rewrite ?app_nil_r; (split; [done|lia])|];
  split; [destruct sink; cbn; by rewrite ?app_nil_r|by intros m [=]].

(** Loading tells the sink of a rejection once and of nothing else; what was opened stays open for the session.  A module that
    loads is of the host's ABI, all its exports are its own, and its manifest is not empty. *)
Theorem module_loaded path s r s' :
  load_module path s = Val (r, s') ->
  (exists opened, session_handles s' = session_handles s ++ opened /\ (length opened <= 1)%nat) /\
  session_sent s' = session_sent s ++
    (match r with Err error => if session_sink s then [mkDiagnostic kError path error] else [] | Ok _ => [] end) /\
  forall m, r = Ok m ->
    nps_path m = path /\ nps_manifest_json m <> [] /\ session_handles s' = session_handles s ++ [nps_handle m] /\
    exists identity, Forall2 (own_export identity (nps_handle m)) module_exports (nps_exports m) /\
    wrap 32 (call (List.nth 0 (nps_exports m) 0)) = PJ_PARSER_MODULE_ABI_VERSION.
Proof.
  unfold load_module, rejectLoad, retainForSession. destruct s as [hs sink sent]. cbn [session_handles session_sink session_sent].
  destruct (openNativeParserModule path) as [[h identity]|e].
  2: { intros [= <- <-]. rejected (@nil Z) sink. }
  destruct (resolve_exports h identity module_exports) as [exports|e] eqn:Ex.
  2: { intros [= <- <-]. rejected [h] sink. }
  destruct (negb _) eqn:Ea.
  { intros [= <- <-]. rejected [h] sink. }
  destruct (_ || _ || _) eqn:Em.
  { intros [= <- <-]. rejected [h] sink. }
  destruct (_ <? _) eqn:El; [done|]. intros [= <- <-]. split; [by exists [h]|]. split; [by rewrite app_nil_r|].
  intros m [= <-]. cbn [nps_path nps_manifest_json nps_handle nps_exports].
  apply orb_false_iff in Em as [[Em1 Em2]%orb_false_iff _]. split_and!; [done| |done|].
  - intros E. apply (f_equal length) in E. rewrite length_take in E. cbn [length] in E.
    pose proof (wrap_range 64 (call (nth 9 exports 0)) ltac:(lia)) as [Hr _]. apply Z.eqb_neq in Em2. apply Z.ltb_ge in El. lia.
  - exists identity. split; [|by apply negb_false_iff, Z.eqb_eq in Ea]. apply each_entry_sound in Ex.
    eapply Forall2_impl; [exact Ex|]. intros name address H. apply (resolveSymbol_ok sys (Some h)) in H as (h' & [= <-] & Hs & Ho). done.
Qed.

End Load.

(** ** Runs *)

Definition module_system : System := {|
  absolute p := inl p;
  weakly_canonical _ := None;
  equivalent a b := inl true;
  dlopen p := if bytes_eqb p (str "/m.so") then inl 7 else inr None;
  dlsym h name := if String.eqb name "pj_module_manifest_addr" then inl (Some 9) else if String.eqb name "pj_module_manifest_len" then inl (Some 10)
    else inl (Some 1);
  dladdr a := Some (str "/m.so");
  word_at _ := 5; vtable_from _ := None; exists_path _ := true; is_directory _ := true; visits _ := inl [] |}.

Definition module_call (a : Z) : Z := if a =? 9 then 4096 else if a =? 10 then 2 else 1.

(** From the file to the catalog. *)
Example module_ingested :
  match load_module module_system module_call (fun _ => str "{}tail") (str "/m.so") (mkSession [] true []) with
  | Val (Ok m, s) =>
    let '(r, k) := ingestModuleManifest sample_manifest_parser (manifestJson (Some m)) kFolderDrop 4 (catalog_new true) in
    (manifestJson (Some m), session_handles s, has_value r, length (claims k))
  | _ => ([], [], false, O)
  end = (str "{}", [7], true, 2%nat).
Proof. vm_compute. reflexivity. Qed.

Example module_missing :
  load_module module_system module_call (fun _ => []) (str "/n.so") (mkSession [] true [])
  = Val (Err "failed to open native parser module: ",
         mkSession [] true [mkDiagnostic kError (str "/n.so") "failed to open native parser module: "]).
Proof. vm_compute. reflexivity. Qed.

Example module_loaded_witness :
  nps_path (mkModuleState 7 (str "/m.so") (str "{}") [1; 1; 1; 1; 1; 1; 1; 1; 9; 10]) = str "/m.so".
Proof.
  apply (module_loaded module_system module_call (fun _ => str "{}tail") (str "/m.so") (mkSession [] true [])
           (Ok (mkModuleState 7 (str "/m.so") (str "{}") [1; 1; 1; 1; 1; 1; 1; 1; 9; 10])) (mkSession [7] true [])); [|done].
  vm_compute. reflexivity.
Defined.
