(* ===== verification/ServiceRegistry.v ===== *)
(** * ServiceRegistry: services of the host by name

    The registry a host hands to a plugin's [bind]: the builder
    ([pj_plugins/include/pj_plugins/host/service_registry_builder.hpp]), the plugin's lookup
    ([pj_base/sdk/service_registry.hpp]), the rule for names ([sdk/service_traits.hpp]) and the errors that cross
    ([fillError] of [plugin_data_api.hpp]).  Pointers are numbers, null is [None]; the registry the plugin sees is a
    function, [None] when it has no context or table. *)

From stdpp Require Import base list gmap.
From S2P Require Import Prelude Text Json ClaimCatalog ProviderJob ImportJob.

(** ** Errors across the interface *)

Definition PJ_ERROR_DOMAIN_MAX : nat := 32.
Definition PJ_ERROR_MESSAGE_MAX : nat := 224.

(** A text of C: it ends at the first NUL. *)
Fixpoint c_text (b : bytes) : bytes :=
  match b with [] => [] | c :: b' => if byte_eqb c (z2b 0) then [] else c :: c_text b' end.

(** [setErrorField] and [writeField]: what a field of [size] characters reads as afterwards. *)
Definition setErrorField (size : nat) (src : string) : string := text_of (c_text (take (size - 1) (str src))).

Definition fillError (domain message : string) : PjError :=
  mkPjError (setErrorField PJ_ERROR_DOMAIN_MAX domain) (setErrorField PJ_ERROR_MESSAGE_MAX message).

(** A call that returns, or throws: an [std::exception] with its text, or anything else ([None]). *)
Notation calls A := (A + option string)%type.

(** The error of a call that threw. *)
Definition thrown_error (call : string) (what : option string) : PjError :=
  match what with
  | Some what => fillError "plugin" (call +:+ " threw: " +:+ what)
  | None => fillError "plugin" ("unknown exception in " +:+ call)
  end.

(** ** Names *)

Definition isDigitRun (s : bytes) : bool :=
  match s with [] => false | _ => forallb isAsciiDigit s end.

Definition isValidServiceName (name : bytes) : bool :=
  if negb (starts_with (str "pj.") name) then false
  else if starts_with (str "pj.experimental.") name then
    match find_char (ch "/") name with
    | None => false
    | Some slash =>
      let after := drop (S slash) name in
      if negb (starts_with (str "draft-") after) then false else isDigitRun (drop 6 after)
    end
  else
    match rfind_char (ch ".") name with
    | None => false
    | Some last_dot =>
      if (last_dot <=? 3)%nat then false
      else
        match drop (S last_dot) name with
        | c :: ((_ :: _) as run) => if byte_eqb c (ch "v") then isDigitRun run else false
        | _ => false
        end
    end.

(** ** The builder *)

Record Service : Set := mkService { svc_ctx : option Z; svc_vtable : option Z }.
Record Entry : Set := mkEntry_ { entry_version : Z; entry_service : Service }.

(** [entries_] *)
Notation Builder := (gmap bytes Entry).

Definition validateService (svc : Service) : bool :=
  match svc_ctx svc, svc_vtable svc with Some _, Some _ => true | _, _ => false end.

Definition tryRegisterService (name : bytes) (protocol_version : Z) (service : Service) (b : Builder)
  : Expected unit * Builder :=
  if negb (validateService service)
  then (Err ("registerService: null ctx or vtable for '" +:+ text_of name +:+ "'"), b)
  else
    match b !! name with
    | Some _ => (Err ("registerService: duplicate name '" +:+ text_of name +:+ "'"), b)
    | None => (Ok tt, <[name := mkEntry_ protocol_version service]> b)
    end.

(** Without the assertion, as in a release build. *)
Definition registerService (name : bytes) (protocol_version : Z) (service : Service) (b : Builder) : Builder :=
  snd (tryRegisterService name protocol_version service b).

Definition unregisterService (name : bytes) (b : Builder) : Builder := delete name b.

Definition makeError (message : string) : PjError := fillError "registry" message.

(** [dispatchGetService], with an [out_service] or without. *)
Definition dispatchGetService (b : Builder) (has_out : bool) (name : bytes) (min_version : Z) : PjError + Service :=
  if negb has_out then inl (makeError "out_service pointer is null")
  else
    match b !! name with
    | None => inl (makeError "unknown service name")
    | Some e =>
      if entry_version e <? min_version then inl (makeError "registered service version is lower than requested minimum")
      else if negb (validateService (entry_service e)) then inl (makeError "registered service has null ctx or vtable")
      else inr (entry_service e)
    end.

(** ** The plugin's side *)

Definition GetService : Type := bytes -> Z -> PjError + Service.

(** [view] *)
Definition view_registry (b : Builder) : option GetService := Some (dispatchGetService b true).

Definition lookup_service (r : option GetService) (name : bytes) (min_version : Z) : PjError + Service :=
  match r with
  | None => inl (fillError "registry" "service registry not bound")
  | Some get_service => get_service name min_version
  end.

Definition get_service_opt (r : option GetService) (name : bytes) (min_version : Z) : option Service :=
  match lookup_service r name min_version with
  | inl _ => None
  | inr svc => if negb (validateService svc) then None else Some svc
  end.

Definition require_service (r : option GetService) (name : bytes) (min_version : Z) : Expected Service :=
  match lookup_service r name min_version with
  | inl err =>
    Err ("service unavailable: " +:+ text_of name +:+
         (if String.eqb (err_message err) "" then "" else " (" +:+ err_message err +:+ ")"))
  | inr svc =>
    if negb (validateService svc) then Err ("service returned invalid fat pointer: " +:+ text_of name) else Ok svc
  end.

(** A history of a builder. *)
Inductive BuilderOp : Set :=
  | OpRegister (name : bytes) (version : Z) (service : Service)
  | OpUnregister (name : bytes).

Definition builder_step (b : Builder) (op : BuilderOp) : Builder :=
  match op with
  | OpRegister name version service => registerService name version service b
  | OpUnregister name => unregisterService name b
  end.

Definition builder_run (ops : list BuilderOp) : Builder := fold_left builder_step ops ∅.

(** ** What is found

    The registration that counts for a name: the first complete one since the name was last removed. *)
Fixpoint registered (name : bytes) (ops : list BuilderOp) (now : option Entry) : option Entry :=
  match ops with
  | [] => now
  | OpRegister n version service :: ops' =>
    registered name ops'
      (if bytes_eqb n name && validateService service && bool_decide (now = None)
       then Some (mkEntry_ version service) else now)
  | OpUnregister n :: ops' => registered name ops' (if bytes_eqb n name then None else now)
  end.

#[export] Instance service_eq_dec : EqDecision Service.
Proof. solve_decision. Defined.
#[export] Instance entry_eq_dec : EqDecision Entry.
Proof. solve_decision. Defined.

(** ** Names *)

Lemma isDigitRun_spec s : isDigitRun s = true <-> s <> [] /\ Forall (fun c => isAsciiDigit c = true) s.
Proof.
  unfold isDigitRun. destruct s as [|c s]; [by split; [|intros []]|].
  rewrite forallb_forall, Forall_forall. setoid_rewrite list_elem_of_In. naive_solver.
Qed.

Lemma digits_without c s : isAsciiDigit c = false -> isDigitRun s = true -> c ∉ s.
Proof. intros Hc [_ Hs]%isDigitRun_spec Hin. rewrite Forall_forall in Hs. by rewrite (Hs c Hin) in Hc. Qed.

(** A name with the experimental prefix: what follows the first slash is [draft-] and a number. *)
Lemma experimental_grammar rest :
  isValidServiceName (str "pj.experimental." ++ rest) = true <->
  exists x n, rest = x ++ str "/draft-" ++ n /\ ch "/" ∉ x /\ isDigitRun n = true.
Proof.
  unfold isValidServiceName.
  assert (starts_with (str "pj.") (str "pj.experimental." ++ rest) = true) as -> by done.
  rewrite starts_with_self. cbn [negb].
  destruct (find_char_view (ch "/") rest) as [[Hf Hn]|(x & tl & Hf & -> & Hx & _)].
  - rewrite (proj2 (find_char_none _ _)) by (rewrite elem_of_app; intros [H|H]; [revert H; by_compute|done]).
    split; [done|]. intros (x & n & -> & _). exfalso. apply Hn. rewrite elem_of_app. right. left.
  - assert (ch "/" ∉ str "pj.experimental." ++ x) as Hp by (rewrite elem_of_app; intros [H|H]; [revert H; by_compute|done]).
    rewrite app_assoc, find_char_app, drop_app_first by done. split.
    + destruct (starts_with (str "draft-") tl) eqn:E; cbn [negb]; [|done]. intros Hr. apply starts_with_cut in E.
      exists x, (drop 6 tl). split; [by rewrite E at 1|done].
    + intros (x' & n & E & Hx' & Hr). assert (x' = x /\ tl = str "draft-" ++ n) as [-> ->].
      { pose proof (find_char_app (ch "/") x tl Hx) as F. change (str "/draft-" ++ n) with (ch "/" :: str "draft-" ++ n) in E.
        rewrite E, (find_char_app (ch "/") x' _ Hx') in F. injection F as F. by apply app_inj_1 in E as [-> [= ->]]. }
      rewrite starts_with_self. cbn [negb]. exact Hr.
Qed.

Lemma stable_grammar rest :
  starts_with (str "pj.experimental.") (str "pj." ++ rest) = false ->
  isValidServiceName (str "pj." ++ rest) = true <->
  exists x n, rest = x ++ str ".v" ++ n /\ x <> [] /\ isDigitRun n = true.
Proof.
  intros He. unfold isValidServiceName. rewrite He, starts_with_self. cbn [negb]. split.
  - destruct (rfind_char (ch ".") (str "pj." ++ rest)) as [i|] eqn:Er; [|done]. destruct (i <=? 3)%nat eqn:Ei; [done|].
    apply rfind_found in Er as [Et Hi]. apply Nat.leb_gt in Ei.
    destruct (drop (S i) _) as [|c [|b n]]; [done..|]. destruct (byte_eqb c (ch "v")) eqn:Ec; [|done].
    apply byte_eqb_eq in Ec as ->. intros Hr. exists (drop 3 (take i (str "pj." ++ rest))), (b :: n).
    split_and!; [| |done].
    + apply (f_equal (drop 3)) in Et. rewrite (drop_app_le (take i (str "pj." ++ rest))) in Et by (rewrite Hi; lia). exact Et.
    + intros H. apply (f_equal length) in H. rewrite length_drop in H.
      assert (i - 3 = 0)%nat; [rewrite <-Hi at 1; exact H|lia].
  - intros (x & n & -> & Hx & Hr). change (str ".v" ++ n) with (ch "." :: ch "v" :: n).
    rewrite app_assoc, rfind_after.
    2: { rewrite elem_of_cons. intros [H|H]; [discriminate H|]. by apply (digits_without (ch ".") n). }
    assert (length (str "pj." ++ x) <=? 3 = false)%nat as ->.
    { apply Nat.leb_gt. destruct x; [done|]. rewrite length_app. cbn [length str]. cbn. lia. }
    rewrite drop_app_first. destruct n as [|b n]; [done|]. exact Hr.
Qed.

(** The names the rule admits.  A stable name may have empty components, and an experimental one an empty name. *)
Theorem service_name_grammar name :
  isValidServiceName name = true <-> exists x n, isDigitRun n = true /\
  ((name = str "pj.experimental." ++ x ++ str "/draft-" ++ n /\ ch "/" ∉ x) \/
   (name = str "pj." ++ x ++ str ".v" ++ n /\ x <> [] /\ starts_with (str "pj.experimental.") name = false)).
Proof.
  destruct (starts_with (str "pj.experimental.") name) eqn:Ee.
  - apply starts_with_cut in Ee as E. rewrite E at 1. rewrite experimental_grammar. split.
    + intros (x & n & Ed & Hx & Hn). exists x, n. split; [done|]. left. by rewrite E, Ed.
    + intros (x & n & Hn & [[En Hx]|(_ & _ & H)]); [|done]. exists x, n. split_and!; [|done..].
      rewrite En. apply drop_app_length.
  - destruct (starts_with (str "pj.") name) eqn:Ep.
    + apply starts_with_cut in Ep as E. rewrite E in Ee |- *. rewrite stable_grammar by done. split.
      * intros (x & n & Ed & Hx & Hn). exists x, n. split; [done|]. right. by rewrite Ed.
      * intros (x & n & Hn & [[En Hx]|(En & Hx & _)]).
        -- exfalso. rewrite En, starts_with_self in Ee. done.
        -- exists x, n. split_and!; [|done..]. by apply app_inj_1 in En as [_ ?].
    + unfold isValidServiceName. rewrite Ep. cbn [negb]. split; [done|].
      intros (x & n & _ & [[-> _]|(-> & _)]); [by rewrite starts_with_self in Ee|by rewrite starts_with_self in Ep].
Qed.

Example service_names :
  map (fun s => isValidServiceName (str s))
    ["pj.source_write.v1"; "pj.experimental.diagnostics/draft-1"; "pj.experimental./draft-1"; "pj.a..v12"; "pj.v1"; "pj..v1"; "pj.x.v"]%string
  = [true; true; true; true; false; false; false].
Proof. vm_compute. reflexivity. Qed.

(** ** Lookup *)

Definition entries_ok (b : Builder) : Prop := map_Forall (fun _ e => validateService (entry_service e) = true) b.

Lemma builder_step_lookup b op name : builder_step b op !! name = registered name [op] (b !! name).
Proof.
  destruct op as [n version service|n]; cbn [builder_step registered].
  - unfold registerService, tryRegisterService. destruct (bytes_eqb n name) eqn:En; cbn [andb].
    + apply bytes_eqb_eq in En as ->. destruct (validateService service); cbn [negb andb snd]; [|done].
      destruct (b !! name) as [e|] eqn:E; cbn [snd]; [by rewrite E|]. by rewrite lookup_insert_eq.
    + apply bytes_eqb_neq in En. destruct (validateService service); cbn [negb snd]; [|done].
      destruct (b !! n); cbn [snd]; [done|]. by rewrite lookup_insert_ne.
  - unfold unregisterService. destruct (bytes_eqb n name) eqn:En.
    + apply bytes_eqb_eq in En as ->. apply lookup_delete_eq.
    + apply bytes_eqb_neq in En. by apply lookup_delete_ne.
Qed.

Lemma registered_app name ops ops' now : registered name (ops ++ ops') now = registered name ops' (registered name ops now).
Proof. revert now. induction ops as [|[] ops IH]; intros now; cbn [app registered]; [done|apply IH..]. Qed.

Lemma builder_run_lookup ops name : builder_run ops !! name = registered name ops None.
Proof.
  unfold builder_run. rewrite <-(lookup_empty (M:=gmap bytes) name). generalize (∅ : Builder) as b.
  induction ops as [|op ops IH]; intros b; cbn [fold_left]; [done|]. rewrite IH, builder_step_lookup.
  by rewrite (registered_app name [op] ops).
Qed.

Lemma entries_ok_run ops : entries_ok (builder_run ops).
Proof.
  unfold builder_run. assert (entries_ok ∅) as H by apply map_Forall_empty. revert H. generalize (∅ : Builder) as b.
  induction ops as [|op ops IH]; intros b Hb; cbn [fold_left]; [done|]. apply IH.
  destruct op as [n version service|n]; cbn [builder_step]; [|by apply map_Forall_delete].
  unfold registerService, tryRegisterService. destruct (validateService service) eqn:Ev; cbn [negb snd]; [|done].
  destruct (b !! n); cbn [snd]; [done|]. by apply map_Forall_insert_2.
Qed.

(** A plugin is given the service that the host registered under the name first since the name was last removed, if it was
    complete and of the version the plugin asks for or a later one; otherwise it is told why not.  Later registrations of
    the name do not replace it. *)
Theorem service_found ops name min_version :
  require_service (view_registry (builder_run ops)) name min_version =
    match registered name ops None with
    | Some (mkEntry_ version service) =>
      if version <? min_version
      then Err ("service unavailable: " +:+ text_of name +:+ " (registered service version is lower than requested minimum)")
      else Ok service
    | None => Err ("service unavailable: " +:+ text_of name +:+ " (unknown service name)")
    end /\
  get_service_opt (view_registry (builder_run ops)) name min_version =
    match registered name ops None with
    | Some (mkEntry_ version service) => if version <? min_version then None else Some service
    | None => None
    end.
Proof.
  unfold require_service, get_service_opt, lookup_service, view_registry, dispatchGetService. cbn [negb].
  rewrite builder_run_lookup. destruct (registered name ops None) as [[version service]|] eqn:E; [|done].
  cbn [entry_version entry_service]. destruct (version <? min_version); [done|].
  pose proof (entries_ok_run ops name (mkEntry_ version service)) as H. rewrite builder_run_lookup in H. specialize (H E).
  cbn [entry_service] in H. rewrite H. cbn [negb]. by rewrite H.
Qed.

Example second_registration_ignored :
  require_service (view_registry (builder_run
    [OpRegister (str "pj.a.v1") 1 (mkService (Some 1) (Some 1)); OpRegister (str "pj.a.v1") 2 (mkService (Some 2) (Some 2))]))
    (str "pj.a.v1") 1 = Ok (mkService (Some 1) (Some 1)).
Proof. vm_compute. reflexivity. Qed.
