(* ===== verification/WidgetHandle.v ===== *)
(** * WidgetHandle: widget plugins in the host

    The host's side of the widget protocol: [WidgetLibrary] ([pj_plugins/widget_protocol/src/widget_library.cpp]) and
    [WidgetHandle] ([widget_protocol/include/pj_plugins/host/widget_handle.hpp]): admission of a library, the texts and
    inputs it takes from a plugin, and the life of the instances. *)

From stdpp Require Import base list pretty.
From S2P Require Import Prelude Text Json ClaimCatalog PluginCatalog PluginLoader ImportJob.

(** ** Texts of a plugin

    A view is the memory from its address on ([None] when null) and a size. *)
Record StringView : Set := mkView { sv_data : option bytes; sv_size : Z }.

(** [toAbiString] *)
Definition view_of (s : bytes) : StringView := mkView (Some s) (Z.of_nat (length s)).

Definition fitsObject (count element_size : Z) : bool := count <=? 9223372036854775807 / element_size.

Definition validView (view : StringView) : bool :=
  (match sv_data view with Some _ => true | None => false end || (sv_size view =? 0)) && fitsObject (sv_size view) 1.

(** The text of a view that passed the checks; [Undef] when the memory is shorter than the view says. *)
Definition read_view (view : StringView) : exec bytes :=
  match sv_data view with
  | Some memory => if Z.of_nat (length memory) <? sv_size view then Undef else Val (take (Z.to_nat (sv_size view)) memory)
  | None => Undef
  end.

Definition checkedWidgetView (view : StringView) (max_bytes : Z) (what : string) : exec (Expected bytes) :=
  if sv_size view =? 0 then Val (Ok [])
  else if negb (validView view) || (sv_size view >? max_bytes)
  then Val (Err ("widget plugin produced an invalid " +:+ what +:+ " string view"))
  else let! text := read_view view in Val (Ok text).

(** ** Libraries *)

(** The build identity a table answers with. *)
Record BuildInfo : Set := mkBuildInfo { bi_struct_size : Z; bi_compiler : StringView; bi_version : StringView }.

(** Five 32-bit numbers, padding, and two views of sixteen bytes. *)
Definition kMinBuildInfoSize : Z := 24 + 16 + 16.
Definition kMaxBuildInfoTextBytes : Z := 4096.

Definition checkBuildInfo (info : option BuildInfo) : exec (Expected unit) :=
  match info with
  | None => Val (Err "Widget build_info returned null")
  | Some info =>
    if bi_struct_size info <? kMinBuildInfoSize then Val (Err "Widget build_info smaller than the v1 layout")
    else
      let! compiler := checkedWidgetView (bi_compiler info) kMaxBuildInfoTextBytes "build_info compiler" in
      match compiler with
      | Err error => Val (Err error)
      | Ok _ =>
        let! version := checkedWidgetView (bi_version info) kMaxBuildInfoTextBytes "build_info version" in
        Val (let? _ := version in Ok tt)
      end
  end.

Section Library.
Context (sys : System) (build_info : Vtable -> option BuildInfo).

(** [checkVtable], of a table that is not null. *)
Definition checkVtable (vt : Vtable) : exec (Expected unit) :=
  match admit_vtable kWidget "" (Some vt) with
  | Err error => Val (Err error)
  | Ok vt => checkBuildInfo (build_info vt)
  end.

Record WidgetLibrary : Type := mkWidgetLibrary { wl_handle : option Owner; wl_vtable : option Vtable; wl_path : bytes }.

Definition no_library : WidgetLibrary := mkWidgetLibrary None None [].

Definition widget_library_valid (l : WidgetLibrary) : bool :=
  match wl_handle l, wl_vtable l with Some _, Some _ => true | _, _ => false end.

(** [pinned]: the handles that are never closed. *)
Definition widget_load_with_identity (handle : option Z) (recorded : LibraryPathIdentity) (pinned : list Z)
  : exec (Expected WidgetLibrary * list Z) :=
  match handle with
  | None => Val (Err "library not loaded", pinned)
  | Some h =>
    match
      (let? _ := checkPluginAbiVersion sys handle recorded in
       let? entry := resolveSymbol sys handle (getter kWidget) recorded in
       match vtable_from sys entry with Some vt => Ok vt | None => Err (getter kWidget +:+ " returned null") end)
    with
    | Err error => Val (Err error, pinned)
    | Ok vt =>
      let! checked := checkVtable vt in
      match checked with
      | Err error => Val (Err error, pinned)
      | Ok _ => Val (Ok (mkWidgetLibrary (Some (NativeHandle h)) (Some vt) (load_path recorded)), pinned ++ [h])
      end
    end
  end.

Definition widget_load (path : bytes) (pinned : list Z) : exec (Expected WidgetLibrary * list Z) :=
  match loadLibraryHandle sys path with
  | Err error => Val (Err error, pinned)
  | Ok (h, recorded) => widget_load_with_identity (Some h) recorded pinned
  end.

Definition widget_load_from_handle (handle : option Z) (origin : bytes) (pinned : list Z)
  : exec (Expected WidgetLibrary * list Z) :=
  match recordLibraryPathIdentity sys origin with
  | Err error => Val (Err error, pinned)
  | Ok recorded => widget_load_with_identity handle recorded pinned
  end.

Definition widget_load_static (vtable : option Vtable) : exec (Expected WidgetLibrary) :=
  match vtable with
  | None => Val (Err "static Widget vtable is null")
  | Some vt =>
    let! checked := checkVtable vt in
    Val (let? _ := checked in Ok (mkWidgetLibrary (Some StaticAnchor) (Some vt) (str "static://")))
  end.

Definition widget_library_reset (l : WidgetLibrary) : WidgetLibrary :=
  match wl_handle l with Some _ => no_library | None => l end.

(** Moving, as for the other libraries. *)
Definition widget_library_move (path : bytes) (other : WidgetLibrary) : WidgetLibrary * WidgetLibrary :=
  (other, mkWidgetLibrary None None path).

Definition widget_library_assign (path : bytes) (l other : WidgetLibrary) : WidgetLibrary * WidgetLibrary :=
  let l := widget_library_reset l in
  (mkWidgetLibrary (wl_handle other) (wl_vtable other) (wl_path other), mkWidgetLibrary None None path).

End Library.

(** ** Inputs *)

(** An [enum class : uint32_t] holds any 32-bit value. *)
Definition kNumber : Z := 0.
Definition kText : Z := 1.
Definition kObject_ : Z := 2.

Record WidgetInput : Set := mkInput { in_name : bytes; in_label : bytes; in_unit : bytes; in_kind : Z; in_multiple : bool }.

(** [PJ_widget_input_t] *)
Record RawInput : Set := mkRawInput {
  ri_name : StringView; ri_label : StringView; ri_unit : StringView; ri_kind : Z; ri_flags : Z }.

Definition PJ_WIDGET_INPUT_MULTIPLE : Z := 1.
Definition kMaxInputs : Z := 4096.
Definition kMaxInputTextBytes : Z := 1048576.
Definition kMaxConfigBytes : Z := 67108864.

Definition xview {A} (v : exec (Expected bytes)) (k : bytes -> exec (Expected A)) : exec (Expected A) :=
  let! e := v in match e with Err error => Val (Err error) | Ok text => k text end.

(** The body of the loop over the entries; [names] are those before it. *)
Definition read_input (names : list bytes) (r : RawInput) : exec (Expected WidgetInput) :=
  let! name := checkedWidgetView (ri_name r) kMaxInputTextBytes "input name" in
  let! label := checkedWidgetView (ri_label r) kMaxInputTextBytes "input label" in
  let! unit := checkedWidgetView (ri_unit r) kMaxInputTextBytes "input unit" in
  xview (Val name) (fun name => xview (Val label) (fun label => xview (Val unit) (fun unit =>
    if bool_decide (name = []) then Val (Err "widget plugin returned an input with an empty name")
    else if bool_decide (name ∈ names)
    then Val (Err ("widget plugin returned the input name '" +:+ text_of name +:+ "' twice"))
    else if negb (ri_kind r =? kNumber) && negb (ri_kind r =? kText) && negb (ri_kind r =? kObject_)
    then Val (Err ("widget plugin returned input '" +:+ text_of name +:+ "' with unknown kind " +:+ pretty (ri_kind r)))
    else Val (Ok (mkInput name label unit (ri_kind r) (negb (Z.land (ri_flags r) PJ_WIDGET_INPUT_MULTIPLE =? 0))))))).

(** The loop over [count] entries of the array; [Undef] past its end. *)
Fixpoint inputs_loop (count : nat) (array : list RawInput) (result : list WidgetInput) : exec (Expected (list WidgetInput)) :=
  match count, array with
  | O, _ => Val (Ok result)
  | S _, [] => Undef
  | S count', r :: array' =>
    let! item := read_input (map in_name result) r in
    match item with
    | Err error => Val (Err error)
    | Ok i => inputs_loop count' array' (result ++ [i])
    end
  end.

(** [WidgetHandle::inputs], from what the slot answered. *)
Definition handle_inputs (answer : PjError + option (list RawInput) * Z) : exec (Expected (list WidgetInput)) :=
  match answer with
  | inl err => Val (Err (if String.eqb (err_message err) "" then "inputs failed" else errorToString err))
  | inr (array, count) =>
    if count =? 0 then Val (Ok [])
    else
      match array with
      | None => Val (Err "widget plugin returned a null inputs array with a non-zero count")
      | Some entries =>
        if count >? kMaxInputs then Val (Err "widget plugin returned an impossible number of inputs")
        else inputs_loop (Z.to_nat count) entries []
      end
  end.

(** [WidgetHandle::saveConfig]: it throws when the view cannot be valid. *)
Definition handle_save_config (answer : PjError + StringView) : exec (thrown (Expected bytes)) :=
  match answer with
  | inl err => Val (Got (Err (errorToString err)))
  | inr view =>
    let! json := checkedWidgetView view kMaxConfigBytes "save_config" in
    Val (match json with Ok text => Got (Ok text) | Err _ => Throws end)
  end.

(** [WidgetHandle::bind] and [WidgetHandle::loadConfig] *)
Definition handle_status (answer : PjError + unit) : Expected unit :=
  match answer with inl err => Err (errorToString err) | inr _ => Ok tt end.

(** [WidgetHandle::createQWidget] *)
Definition handle_create_qwidget (answer : option Z * PjError) : Expected Z :=
  match answer with
  | (Some widget, _) => Ok widget
  | (None, err) => Err (if String.eqb (err_message err) "" then "create_qwidget returned null" else errorToString err)
  end.

(** ** Instances

    The handles of a host, their plugin's contexts as numbers.  An object that was destroyed is left empty. *)
Record Handle : Set := mkHandle { hd_bound : bool; hd_ctx : option Z }.

Definition empty_handle : Handle := mkHandle false None.

Definition handle_valid (h : Handle) : bool := hd_bound h && match hd_ctx h with Some _ => true | None => false end.

(** [WidgetHandle::WidgetHandle]: [answer] is what [create] returns. *)
Definition new_handle (has_table : bool) (answer : option Z) : Handle := mkHandle has_table (if has_table then answer else None).

(** [WidgetLibrary::createHandle] *)
Definition createHandle (l : WidgetLibrary) (type : bytes) (create : bytes -> option Z) : Expected Handle :=
  if negb (widget_library_valid l) then Err "widget library not loaded"
  else
    let handle := new_handle true (create type) in
    if negb (handle_valid handle) then Err ("widget plugin could not create type '" +:+ text_of type +:+ "'") else Ok handle.

(** [reset], with the contexts it hands to [destroy]. *)
Definition handle_reset (h : Handle) : Handle * list Z :=
  (mkHandle (hd_bound h) None,
   match hd_ctx h with Some ctx => if hd_bound h then [ctx] else [] | None => [] end).

(** Move construction: the new object and what is left of the other. *)
Definition handle_move (other : Handle) : Handle * Handle := (other, empty_handle).

(** Move assignment between two objects. *)
Definition handle_move_assign (h other : Handle) : Handle * Handle * list Z :=
  let '(_, destroyed) := handle_reset h in
  (other, empty_handle, destroyed).

Record Host : Set := mkHost { handles : list Handle; created_ : list Z; destroyed_ : list Z }.

Definition no_handles : Host := mkHost [] [] [].

(** One call of the host.  A plugin's context is not one it returned before. *)
Inductive host_step : Host -> Host -> Prop :=
  | host_creates s ctx :
    ctx ∉ created_ s ->
    host_step s (mkHost (handles s ++ [new_handle true (Some ctx)]) (created_ s ++ [ctx]) (destroyed_ s))
  | host_fails s has_table :
    host_step s (mkHost (handles s ++ [new_handle has_table None]) (created_ s) (destroyed_ s))
  | host_moves s i h :
    handles s !! i = Some h ->
    host_step s (mkHost (<[i := (handle_move h).2]> (handles s) ++ [(handle_move h).1]) (created_ s) (destroyed_ s))
  | host_assigns s i j h other :
    i <> j -> handles s !! i = Some h -> handles s !! j = Some other ->
    host_step s (mkHost (<[i := (handle_move_assign h other).1.1]> (<[j := (handle_move_assign h other).1.2]> (handles s)))
                   (created_ s) (destroyed_ s ++ (handle_move_assign h other).2))
  | host_resets s i h :
    handles s !! i = Some h ->
    host_step s (mkHost (<[i := (handle_reset h).1]> (handles s)) (created_ s) (destroyed_ s ++ (handle_reset h).2))
  | host_ends s i h :
    handles s !! i = Some h ->
    host_step s (mkHost (<[i := empty_handle]> (handles s)) (created_ s) (destroyed_ s ++ (handle_reset h).2)).

Inductive host_reaches : Host -> Prop :=
  | host_starts : host_reaches no_handles
  | host_goes s s' : host_reaches s -> host_step s s' -> host_reaches s'.

(** The contexts that handles own. *)
Definition owns (h : Handle) : option Z := if hd_bound h then hd_ctx h else None.
Definition owned (hs : list Handle) : list Z := omap owns hs.

Definition host_ok (s : Host) : Prop := NoDup (created_ s) /\ created_ s ≡ₚ destroyed_ s ++ owned (handles s).

Definition opt_list {A} (o : option A) : list A := match o with Some x => [x] | None => [] end.

Lemma owned_cons h hs : owned (h :: hs) = opt_list (owns h) ++ owned hs.
Proof. unfold owned. cbn [omap list_omap]. by destruct (owns h). Qed.

Lemma owned_app hs hs' : owned (hs ++ hs') = owned hs ++ owned hs'.
Proof. apply omap_app. Qed.

Lemma owned_perm hs hs' : hs ≡ₚ hs' -> owned hs ≡ₚ owned hs'.
Proof. intros H. unfold owned. by rewrite H. Qed.

(** Replacing a handle replaces what it owns. *)
Lemma owned_insert hs i h x :
  hs !! i = Some h -> opt_list (owns h) ++ owned (<[i := x]> hs) ≡ₚ opt_list (owns x) ++ owned hs.
Proof.
  revert i. induction hs as [|y hs IH]; intros i; [done|]. destruct i as [|i]; cbn [lookup list_lookup insert list_insert].
  - intros [= ->]. rewrite !owned_cons. rewrite !app_assoc. apply Permutation_app_tail, Permutation_app_comm.
  - intros Hi%IH. rewrite !owned_cons. rewrite (Permutation_app_swap_app _ (opt_list (owns y))), Hi.
    apply Permutation_app_swap_app.
Qed.

Lemma reset_owns h : (handle_reset h).2 = opt_list (owns h).
Proof. unfold handle_reset, owns. destruct h as [[] [ctx|]]; done. Qed.

Lemma host_ok_step s s' : host_ok s -> host_step s s' -> host_ok s'.
Proof.
  intros [Hn Hp] Hs. destruct Hs as [s ctx Hf|s b|s i h Hi|s i j h other Hij Hi Hj|s i h Hi|s i h Hi];
    unfold host_ok; cbn [created_ destroyed_ handles].
  - split; [apply NoDup_app; split_and!; [done| |apply NoDup_singleton]|].
    + by intros x Hx ->%list_elem_of_singleton.
    + rewrite owned_app, app_assoc, <-Hp. done.
  - split; [done|]. rewrite owned_app. assert (owned [new_handle b None] = []) as -> by (by destruct b).
    by rewrite app_nil_r.
  - split; [done|]. rewrite owned_app, Hp. apply Permutation_app_head.
    pose proof (owned_insert (handles s) i h empty_handle Hi) as H. cbn [opt_list owns empty_handle hd_bound app] in H.
    rewrite <-H, (Permutation_app_comm _ (owned _)). cbn [handle_move fst snd]. by rewrite owned_cons, app_nil_r.
  - split; [done|]. unfold handle_move_assign. cbn [handle_reset fst snd].
    pose proof (reset_owns h) as Hr. cbn [handle_reset snd] in Hr. rewrite Hr. rewrite Hp, <-app_assoc. apply Permutation_app_head.
    pose proof (owned_insert (handles s) j other empty_handle Hj) as H1. cbn [opt_list owns empty_handle hd_bound app] in H1.
    assert (<[j := empty_handle]> (handles s) !! i = Some h) as Hi' by (by rewrite list_lookup_insert_ne).
    pose proof (owned_insert _ i h other Hi') as H2. by rewrite H2.
  - split; [done|]. rewrite reset_owns, Hp, <-app_assoc. apply Permutation_app_head.
    pose proof (owned_insert (handles s) i h (handle_reset h).1 Hi) as H. rewrite H. cbn [handle_reset fst].
    unfold owns. cbn [hd_bound hd_ctx]. by destruct (hd_bound h).
  - split; [done|]. rewrite reset_owns, Hp, <-app_assoc. apply Permutation_app_head.
    by rewrite (owned_insert (handles s) i h empty_handle Hi).
Qed.

(** However handles are moved, assigned, reset and destroyed, each instance a plugin created is owned by exactly one handle or
    was destroyed, once; when no handle owns one, all were destroyed. *)
Theorem instances_destroyed_once s :
  host_reaches s ->
  NoDup (destroyed_ s ++ owned (handles s)) /\ (forall ctx, ctx ∈ created_ s <-> ctx ∈ destroyed_ s \/ ctx ∈ owned (handles s)).
Proof.
  intros H. assert (host_ok s) as [Hn Hp].
  { induction H as [|s s' _ IH Hs]; [split; [constructor|done]|by eapply host_ok_step]. }
  split; [by rewrite <-Hp|]. intros ctx. by rewrite Hp, elem_of_app.
Qed.
