(* ===== verification/WidgetPlugin.v ===== *)
(** * WidgetPlugin: widget plugins

    The plugin's side of the widget protocol ([pj_plugins/widget_protocol/include/pj_plugins/sdk/widget_plugin_base.hpp]),
    the host's callbacks ([widget_protocol/include/pj_plugins/host/widget_host_bridge.hpp]), and both sides together.

    The author's methods are functions on a state [W] that return or throw; [WidgetAuthor] holds them.  A
    sample is of a type [V].  What the host does with a history query is a [Delivery]: it may go on
    whatever the sink answers. *)

From stdpp Require Import base list.
From S2P Require Import Prelude Text Json ClaimCatalog ImportJob ServiceRegistry PluginCatalog PluginLoader WidgetHandle.

Record WidgetAuthor (W : Type) : Type := mkAuthor {
  wa_inputs : W -> calls (list WidgetInput);
  wa_createWidget : W -> option Z -> W * calls (option Z);
  wa_onUpdate : W -> Z -> W * calls unit;
  wa_bind : W -> option GetService -> W * calls (Expected unit);
  wa_saveConfig : W -> calls bytes;
  wa_loadConfig : W -> bytes -> W * calls (Expected unit);
  wa_pluginExtension : W -> bytes -> calls (option Z) }.
Arguments wa_inputs {W} _ _.
Arguments wa_createWidget {W} _ _ _.
Arguments wa_onUpdate {W} _ _ _.
Arguments wa_bind {W} _ _ _.
Arguments wa_saveConfig {W} _ _.
Arguments wa_loadConfig {W} _ _ _.
Arguments wa_pluginExtension {W} _ _ _.

(** [WidgetMessageLevel] *)
Definition kMessageWarning : Z := 1.
Definition kMessageError : Z := 2.

(** [WidgetPluginBase]: the author's object, whether its host view is valid, the buffers, and the messages it sent. *)
Record Instance (W : Type) : Type := mkInstance {
  author : W; host_bound : bool; config_buf : bytes; inputs_snapshot : list WidgetInput; inputs_abi : list RawInput;
  on_update_failure_reported : bool; messages : list (Z * string) }.
Arguments mkInstance {W} _ _ _ _ _ _ _.
Arguments author {W} _.
Arguments host_bound {W} _.
Arguments config_buf {W} _.
Arguments inputs_snapshot {W} _.
Arguments inputs_abi {W} _.
Arguments on_update_failure_reported {W} _.
Arguments messages {W} _.

Section Plugin.
Context {W : Type} (A : WidgetAuthor W).

Definition set_author (w : W) (s : Instance W) : Instance W :=
  mkInstance w (host_bound s) (config_buf s) (inputs_snapshot s) (inputs_abi s) (on_update_failure_reported s) (messages s).

Definition trampoline_bind (registry : option GetService) (s : Instance W) : Instance W * (PjError + unit) :=
  let '(w, called) := wa_bind A (author s) registry in
  (set_author w s,
   match called with
   | inl (Ok _) => inr tt
   | inl (Err error) => inl (fillError "plugin" error)
   | inr what => inl (thrown_error "bind" what)
   end).

(** The entry of one input. *)
Definition input_entry (i : WidgetInput) : RawInput :=
  mkRawInput (view_of (in_name i)) (view_of (in_label i)) (view_of (in_unit i)) (in_kind i)
    (if in_multiple i then PJ_WIDGET_INPUT_MULTIPLE else 0).

(** [has_out]: the two out-parameters are there. *)
Definition trampoline_inputs (has_out : bool) (s : Instance W) : Instance W * (PjError + option (list RawInput) * Z) :=
  if negb has_out then (s, inl (fillError "plugin" "inputs called with null out_inputs or out_count"))
  else
    match wa_inputs A (author s) with
    | inl snapshot =>
      let abi := map input_entry snapshot in
      (mkInstance (author s) (host_bound s) (config_buf s) snapshot abi (on_update_failure_reported s) (messages s),
       inr (Some abi, wrap 32 (Z.of_nat (length abi))))
    | inr what => (s, inl (thrown_error "inputs" what))
    end.

Definition no_error : PjError := mkPjError "" "".

Definition trampoline_create_qwidget (parent : option Z) (s : Instance W) : Instance W * (option Z * PjError) :=
  let '(w, called) := wa_createWidget A (author s) parent in
  (set_author w s,
   match called with
   | inl (Some widget) => (Some widget, no_error)
   | inl None => (None, fillError "plugin" "createWidget returned null")
   | inr what => (None, thrown_error "createWidget" what)
   end).

(** [WidgetHostView::reportWidgetMessage] *)
Definition reportWidgetMessage (level : Z) (message : string) (s : Instance W) : Instance W :=
  if host_bound s
  then mkInstance (author s) (host_bound s) (config_buf s) (inputs_snapshot s) (inputs_abi s) (on_update_failure_reported s)
         (messages s ++ [(level, message)])
  else s.

Definition set_reported (b : bool) (s : Instance W) : Instance W :=
  mkInstance (author s) (host_bound s) (config_buf s) (inputs_snapshot s) (inputs_abi s) b (messages s).

Definition reportOnUpdateFailure (what : option string) (s : Instance W) : Instance W :=
  if on_update_failure_reported s then s
  else
    reportWidgetMessage kMessageError
      (match what with Some what => "onUpdate threw: " +:+ what | None => "unknown exception in onUpdate" end)
      (set_reported true s).

(** [update] stands for the values and the time. *)
Definition trampoline_on_update (update : Z) (s : Instance W) : Instance W :=
  let '(w, called) := wa_onUpdate A (author s) update in
  match called with
  | inl _ => set_reported false (set_author w s)
  | inr what => reportOnUpdateFailure what (set_author w s)
  end.

Definition trampoline_save_config (has_out : bool) (s : Instance W) : Instance W * (PjError + StringView) :=
  if negb has_out then (s, inl (fillError "plugin" "save_config called with null out_json"))
  else
    match wa_saveConfig A (author s) with
    | inl json =>
      (mkInstance (author s) (host_bound s) json (inputs_snapshot s) (inputs_abi s) (on_update_failure_reported s) (messages s),
       inr (view_of json))
    | inr what => (s, inl (thrown_error "save_config" what))
    end.

Definition trampoline_load_config (config : bytes) (s : Instance W) : Instance W * (PjError + unit) :=
  let s := mkInstance (author s) (host_bound s) (config_buf s) [] [] (on_update_failure_reported s) (messages s) in
  let '(w, called) := wa_loadConfig A (author s) config in
  (set_author w s,
   match called with
   | inl (Ok _) => inr tt
   | inl (Err error) => inl (fillError "plugin" error)
   | inr what => inl (thrown_error "load_config" what)
   end).

Definition trampoline_get_plugin_extension (id : bytes) (s : Instance W) : option Z :=
  match wa_pluginExtension A (author s) id with inl extension => extension | inr _ => None end.

(** [WidgetPluginBase::bind]: the default needs the widget host. *)
Definition PJ_WIDGET_HOST_SERVICE_V1 : bytes := str "pj.widget_host.v1".

Definition default_bind (registry : option GetService) (s : Instance W) : Instance W * Expected unit :=
  match require_service registry PJ_WIDGET_HOST_SERVICE_V1 1 with
  | Err error => (s, Err error)
  | Ok _ =>
    (mkInstance (author s) true (config_buf s) (inputs_snapshot s) (inputs_abi s) (on_update_failure_reported s) (messages s),
     Ok tt)
  end.

End Plugin.

(** ** History *)

(** What the host's [history] function does with the sink: it delivers a sample and goes on with the answer, returns a
    total or an error, or throws. *)
Inductive Delivery (V : Type) : Type :=
  | Deliver (value : V) (go_on : bool -> Delivery V)
  | Delivered (total : Expected Z)
  | DeliveryThrows (what : option string).
Arguments Deliver {V} _ _.
Arguments Delivered {V} _.
Arguments DeliveryThrows {V} _.

Section History.
Context {V U : Type}.

(** The bridge's sink; the plugin's [sink] runs on a state [U]. *)
Fixpoint run_history (sink : V -> U -> U * bool) (d : Delivery V) (stopped : bool) (u : U) : U * calls (Expected Z) :=
  match d with
  | Deliver value go_on =>
    if stopped then run_history sink (go_on false) true u
    else
      let '(u, more) := sink value u in
      run_history sink (go_on more) (negb more) u
  | Delivered total => (u, inl total)
  | DeliveryThrows what => (u, inr what)
  end.

(** [WidgetHostBridge::queryHistory]: with the total, or with the error and total 0. *)
Definition bridge_queryHistory (history : option (Delivery V)) (sink : V -> U -> U * bool) (u : U) : U * (PjError + Z) :=
  match history with
  | None => (u, inl (fillError "widget_host" "history is not available"))
  | Some d =>
    let '(u, called) := run_history sink d false u in
    (u, match called with
        | inl (Ok total) => inr total
        | inl (Err error) => inl (fillError "widget_host" error)
        | inr (Some what) => inl (fillError "widget_host" ("history threw: " +:+ what))
        | inr None => inl (fillError "widget_host" "history threw")
        end)
  end.

(** The sink of [WidgetHostView::queryHistory] around the author's callback, which returns [true] to go on; [thrown] is what
    it threw, the empty text when there is none. *)
Definition view_sink (callback : V -> U -> U * calls bool) (value : V) (state : U * option string) : (U * option string) * bool :=
  let '(u, thrown) := state in
  let '(u, called) := callback value u in
  match called with
  | inl more => ((u, thrown), more)
  | inr what => ((u, Some (default ""%string what)), false)
  end.

End History.

(** [WidgetHostView::queryHistory], given the slot, if there is one. *)
Definition view_queryHistory {V U : Type}
    (query : option ((V -> U * option string -> (U * option string) * bool) -> U * option string -> (U * option string) * (PjError + Z)))
    (callback : V -> U -> U * calls bool) (u : U) : U * Expected Z :=
  match query with
  | None => (u, Err "widget host does not provide query_history")
  | Some query =>
    let '((u, thrown), answer) := query (view_sink callback) (u, None) in
    (u, match answer with
        | inl err => Err (errorToString err)
        | inr total =>
          match thrown with
          | Some what => Err (if String.eqb what "" then "history callback threw" else "history callback threw: " +:+ what)
          | None => Ok total
          end
        end)
  end.

(** [reportWidgetMessage] of the bridge: what reaches the host. *)
Definition bridge_report (level : Z) (message : StringView) : exec (Z * string) :=
  let! text := checkedWidgetView message kMaxInputTextBytes "message" in
  Val (match text with Ok text => (level, text_of text) | Err error => (kMessageWarning, error) end).

(** ** Inputs across the interface *)

Definition text_fits (max : Z) (s : bytes) : Prop := Z.of_nat (length s) <= max.

#[export] Instance text_fits_dec max s : Decision (text_fits max s).
Proof. unfold text_fits. apply _. Defined.

Definition input_ok (i : WidgetInput) : Prop :=
  text_fits kMaxInputTextBytes (in_name i) /\ text_fits kMaxInputTextBytes (in_label i) /\ text_fits kMaxInputTextBytes (in_unit i) /\
  in_name i <> [] /\ (in_kind i = kNumber \/ in_kind i = kText \/ in_kind i = kObject_).

(** The inputs a host takes. *)
Definition inputs_ok (l : list WidgetInput) : Prop :=
  Z.of_nat (length l) <= kMaxInputs /\ Forall input_ok l /\ NoDup (map in_name l).

Lemma read_view_of s : read_view (view_of s) = Val s.
Proof.
  unfold read_view, view_of. cbn [sv_data sv_size]. rewrite Z.ltb_irrefl, Nat2Z.id, firstn_all. done.
Qed.

(** A text of a plugin that is a whole [std::string] is read back, or refused for its length. *)
Lemma checked_view_of s max what :
  0 <= max < 2 ^ 63 ->
  checkedWidgetView (view_of s) max what
  = Val (if bool_decide (text_fits max s) then Ok s else Err ("widget plugin produced an invalid " +:+ what +:+ " string view")).
Proof.
  intros Hmax. unfold checkedWidgetView, text_fits. cbn [view_of sv_size].
  destruct (Z.of_nat (length s) =? 0) eqn:E0.
  { destruct s; [|by cbn in E0]. by rewrite bool_decide_eq_true_2 by (cbn; lia). }
  case_bool_decide as Hs.
  - assert (validView (view_of s) = true) as -> by (unfold validView, fitsObject, view_of; cbn [sv_data sv_size]; rewrite Z.div_1_r; blia).
    assert (Z.of_nat (length s) >? max = false) as -> by blia. cbn [negb orb]. by rewrite read_view_of.
  - assert (Z.of_nat (length s) >? max = true) as -> by blia. by rewrite orb_true_r.
Qed.

Lemma xview_val {B} (e : Expected bytes) (k : bytes -> exec (Expected B)) :
  xview (Val e) k = match e with Err error => Val (Err error) | Ok text => k text end.
Proof. done. Qed.

Lemma read_input_entry names i :
  exists r, read_input names (input_entry i) = Val r /\
  (input_ok i /\ in_name i ∉ names -> r = Ok i) /\ (forall i', r = Ok i' -> input_ok i /\ in_name i ∉ names /\ i' = i).
Proof.
  unfold read_input, input_entry. cbn [ri_name ri_label ri_unit ri_kind ri_flags].
  rewrite !checked_view_of by (unfold kMaxInputTextBytes; lia). cbn [xbind].
  case_bool_decide as H1; rewrite xview_val; [|eexists; split; [done|]; split; [intros [[? _] _]; done|done]].
  case_bool_decide as H2; rewrite xview_val; [|eexists; split; [done|]; split; [intros [(_ & ? & _) _]; done|done]].
  case_bool_decide as H3; rewrite xview_val; [|eexists; split; [done|]; split; [intros [(_ & _ & ? & _) _]; done|done]].
  case_bool_decide as H4; [eexists; split; [done|]; split; [intros [(_ & _ & _ & ? & _) _]; done|done]|].
  case_bool_decide as H5; [eexists; split; [done|]; split; [intros [_ ?]; done|done]|].
  destruct (negb _ && _ && _) eqn:E.
  - eexists. split; [done|]. split; [|done]. intros [(_ & _ & _ & _ & Hk) _]. exfalso.
    apply andb_prop in E as [[E1%negb_true_iff E2%negb_true_iff]%andb_prop E3%negb_true_iff].
    apply Z.eqb_neq in E1, E2, E3. tauto.
  - assert (input_ok i) as Hok.
    { split_and!; [done..|]. apply andb_false_iff in E as [[E|E]%andb_false_iff|E]; apply negb_false_iff, Z.eqb_eq in E; tauto. }
    assert (mkInput (in_name i) (in_label i) (in_unit i) (in_kind i)
      (negb (Z.land (if in_multiple i then PJ_WIDGET_INPUT_MULTIPLE else 0) PJ_WIDGET_INPUT_MULTIPLE =? 0)) = i) as ->
      by (by destruct i as [? ? ? ? []]).
    eexists. split; [done|]. split; [done|]. by intros i' [= <-].
Qed.

Lemma inputs_loop_entries l acc :
  exists r, inputs_loop (length l) (map input_entry l) acc = Val r /\
  (Forall input_ok l /\ NoDup (map in_name (acc ++ l)) -> r = Ok (acc ++ l)) /\
  (forall l', r = Ok l' -> NoDup (map in_name acc) -> Forall input_ok l /\ NoDup (map in_name (acc ++ l)) /\ l' = acc ++ l).
Proof.
  revert acc. induction l as [|i l IH]; intros acc; cbn [length map inputs_loop].
  { exists (Ok acc). rewrite app_nil_r. split; [done|]. split; [done|]. by intros l' [= <-] Hn. }
  destruct (read_input_entry (map in_name acc) i) as (r & -> & Hr1 & Hr2). cbn [xbind].
  assert (NoDup (map in_name (acc ++ i :: l)) -> in_name i ∉ map in_name acc) as Hfresh.
  { rewrite map_app, NoDup_app. intros (_ & Hd & _) Hin. apply (Hd _ Hin). left. }
  destruct r as [i'|error].
  - destruct (Hr2 i' eq_refl) as (Hi & Hni & ->). destruct (IH (acc ++ [i])) as (r & -> & Hl1 & Hl2).
    rewrite <-!app_assoc in *. exists r. split; [done|]. cbn [app] in *. split.
    + intros [[_ Hf]%Forall_cons Hn]. by apply Hl1.
    + intros l' E Hn. destruct (Hl2 l' E) as (Hf & Hn' & ->); [|split_and!; [by constructor|done..]].
      rewrite map_app. apply NoDup_app. split_and!; [done| |apply NoDup_singleton]. by intros x Hx ->%list_elem_of_singleton.
  - exists (Err error). split; [done|]. split; [|done]. intros [[Hi _]%Forall_cons Hn]. exfalso.
    assert (Err error = Ok i) as H by (apply Hr1; split; [done|by apply Hfresh]). done.
Qed.

Section Boundary.
Context {W : Type} (A : WidgetAuthor W).

(** C36 The inputs an author returns reach the host unchanged, names, texts, kinds and order, exactly when they are inputs a host
    takes; otherwise the host is told an error and nothing is read out of bounds.  The configuration an author saves is the text the
    host gets.  When a method throws, the host gets an error with the method's name and the instance keeps the inputs the host may
    still be reading. *)
Theorem widget_boundary s :
  match wa_inputs A (author s) with
  | inl l =>
    Z.of_nat (length l) < 2 ^ 32 ->
    (exists r, handle_inputs (trampoline_inputs A true s).2 = Val r /\
     (inputs_ok l -> r = Ok l) /\ forall l', r = Ok l' -> inputs_ok l /\ l' = l) /\
    inputs_snapshot (trampoline_inputs A true s).1 = l
  | inr what =>
    trampoline_inputs A true s = (s, inl (thrown_error "inputs" what)) /\
    handle_inputs (trampoline_inputs A true s).2 = Val (Err (errorToString (thrown_error "inputs" what)))
  end /\
  match wa_saveConfig A (author s) with
  | inl json =>
    handle_save_config (trampoline_save_config A true s).2
    = Val (if bool_decide (text_fits kMaxConfigBytes json) then Got (Ok json) else Throws)
  | inr what =>
    handle_save_config (trampoline_save_config A true s).2 = Val (Got (Err (errorToString (thrown_error "save_config" what))))
  end.
Proof.
  unfold trampoline_inputs, trampoline_save_config. cbn [negb]. split.
  - destruct (wa_inputs A (author s)) as [l|what]; cbn [fst snd].
    + intros Hl. split; [|done]. unfold handle_inputs. rewrite length_map.
      assert (wrap 32 (Z.of_nat (length l)) = Z.of_nat (length l)) as -> by (apply Z.mod_small; lia).
      destruct (Z.of_nat (length l) =? 0) eqn:E0.
      { destruct l; [|by cbn in E0]. exists (Ok []). split; [done|]. split; [done|]. intros l' [= <-]. split; [|done].
        split_and!; [done|constructor..]. }
      destruct (Z.of_nat (length l) >? kMaxInputs) eqn:Em.
      { eexists. split; [done|]. split; [|done]. intros (H & _). blia. }
      rewrite Nat2Z.id. destruct (inputs_loop_entries l []) as (r & -> & H1 & H2). exists r. split; [done|]. split.
      * intros (_ & Hf & Hn). by apply H1.
      * intros l' E. destruct (H2 l' E) as (Hf & Hn & ->); [constructor|]. split; [|done]. split_and!; [blia|done..].
    + split; [done|]. unfold handle_inputs, thrown_error. destruct what as [what|]; [|done].
      cbn [fillError err_message]. destruct (String.eqb _ "") eqn:E; [|done]. apply String.eqb_eq in E. by vm_compute in E.
  - destruct (wa_saveConfig A (author s)) as [json|what]; cbn [snd]; [|done].
    unfold handle_save_config. rewrite checked_view_of by (unfold kMaxConfigBytes; lia). cbn [xbind]. by case_bool_decide.
Qed.

End Boundary.

(** ** History *)

Section Histories.
Context {V : Type} (answer : V -> calls bool).

(** The author's callback, with the samples it was given so far. *)
Definition logging (v : V) (log : list V) : list V * calls bool := (log ++ [v], answer v).

(** The samples of [log] were all taken, the last one apart if the delivery stopped. *)
Definition taken (stopped : bool) (log : list V) : Prop :=
  if stopped then exists before v, log = before ++ [v] /\ Forall (fun v => answer v = inl true) before /\ answer v <> inl true
  else Forall (fun v => answer v = inl true) log.

Definition last_throws (log : list V) (thrown : option string) : Prop :=
  match thrown with
  | Some what => exists before v, log = before ++ [v] /\ exists t, answer v = inr t /\ what = default ""%string t
  | None => Forall (fun v => exists b, answer v = inl b) log
  end.

Lemma run_history_taken d stopped log thrown :
  taken stopped log -> last_throws log thrown -> (stopped = false -> thrown = None) ->
  exists stopped' log' thrown', (run_history (view_sink logging) d stopped (log, thrown)).1 = (log', thrown') /\
  taken stopped' log' /\ last_throws log' thrown'.
Proof.
  revert stopped log thrown. induction d as [v go_on IH|total|what]; intros stopped log thrown Ht Hl Hs; cbn [run_history].
  - destruct stopped; [by apply IH|]. rewrite (Hs eq_refl) in *. cbn [view_sink logging taken last_throws] in *.
    destruct (answer v) as [[]|what] eqn:Ea; cbn [negb]; apply IH; try done.
    + cbn [taken]. apply Forall_app_2; [done|by constructor].
    + cbn [last_throws]. apply Forall_app_2; [done|constructor; [by exists true|constructor]].
    + exists log, v. split_and!; [done..|]. by rewrite Ea.
    + cbn [last_throws]. apply Forall_app_2; [done|constructor; [by exists false|constructor]].
    + exists log, v. split_and!; [done..|]. by rewrite Ea.
    + exists log, v. split; [done|]. by exists what.
  - by exists stopped, log, thrown.
  - by exists stopped, log, thrown.
Qed.

(** Once the callback refused a sample or threw it is not called again, whatever the host does; it was given every sample until
    then.  A total is returned only if it did not throw. *)
Theorem history_stops d :
  exists stopped log, (view_queryHistory (Some (bridge_queryHistory (Some d))) logging []).1 = log /\ taken stopped log /\
  forall total, (view_queryHistory (Some (bridge_queryHistory (Some d))) logging []).2 = Ok total ->
    Forall (fun v => exists b, answer v = inl b) log.
Proof.
  destruct (run_history_taken d false [] None) as (stopped & log & thrown & E & Ht & Hl); [constructor|constructor|done|].
  exists stopped, log. unfold view_queryHistory, bridge_queryHistory.
  destruct (run_history (view_sink logging) d false ([], None)) as [[log' thrown'] called]. cbn [fst] in E.
  injection E as -> ->. split; [done|]. split; [done|]. intros total.
  destruct called as [[t|e]|[what|]]; cbn [snd]; try done. by destruct thrown.
Qed.

End Histories.

(** ** Reports of failing updates *)

Section Updates.
Context {W : Type} (A : WidgetAuthor W).

Definition update_run (s : Instance W) (updates : list Z) : Instance W := fold_left (fun s u => trampoline_on_update A u s) updates s.

(** Which updates of a sequence threw. *)
Fixpoint failures (w : W) (updates : list Z) : list bool :=
  match updates with
  | [] => []
  | u :: updates' =>
    let '(w, called) := wa_onUpdate A w u in
    (match called with inl _ => false | inr _ => true end) :: failures w updates'
  end.

(** The runs of failing updates that begin, after one that [failing] or not. *)
Fixpoint failing_runs (failing : bool) (fs : list bool) : nat :=
  match fs with
  | [] => O
  | f :: fs' => ((if f && negb failing then 1 else 0) + failing_runs f fs')%nat
  end.

(** A host gets one message for each run of failing updates, not one per update. *)
Theorem one_report_per_run s updates :
  host_bound s = true ->
  length (messages (update_run s updates))
  = (length (messages s) + failing_runs (on_update_failure_reported s) (failures (author s) updates))%nat.
Proof.
  unfold update_run. revert s. induction updates as [|u updates IH]; intros s Hb; cbn [fold_left failures failing_runs]; [by rewrite Nat.add_0_r|].
  unfold trampoline_on_update at 2. destruct (wa_onUpdate A (author s) u) as [w [ok|what]] eqn:Eu; rewrite IH; cbn [failing_runs andb].
  - done.
  - done.
  - unfold reportOnUpdateFailure. cbn [on_update_failure_reported set_author].
    destruct (on_update_failure_reported s) eqn:Er; cbn [negb].
    + cbn [messages set_author author on_update_failure_reported]. rewrite Er. lia.
    + unfold reportWidgetMessage. cbn [host_bound set_reported set_author]. rewrite Hb.
      cbn [messages set_reported set_author author on_update_failure_reported]. rewrite length_app. cbn [length]. lia.
  - unfold reportOnUpdateFailure. destruct (on_update_failure_reported (set_author w s)); [done|].
    unfold reportWidgetMessage. cbn [host_bound set_reported set_author]. by rewrite Hb.
Qed.

End Updates.

(** ** Runs *)

Definition sample_inputs : list WidgetInput :=
  [mkInput (str "speed") (str "Speed") (str "m/s") kNumber true; mkInput (str "state") [] [] kText false].

(** An author whose state is what [inputs] does. *)
Definition sample_author : WidgetAuthor (calls (list WidgetInput)) :=
  mkAuthor _ (fun w => w) (fun w _ => (w, inl None)) (fun w u => (w, if u <? 0 then inr (Some "bad"%string) else inl tt))
    (fun w _ => (w, inl (Ok tt))) (fun _ => inl (str "{}")) (fun w _ => (w, inl (Ok tt))) (fun _ _ => inl None).

Definition sample_instance (w : calls (list WidgetInput)) : Instance (calls (list WidgetInput)) :=
  mkInstance w true [] [] [] false [].

Example inputs_refused :
  map (fun l => handle_inputs (trampoline_inputs sample_author true (sample_instance (inl l))).2)
    [sample_inputs ++ sample_inputs; [mkInput [] [] [] kText false]; [mkInput (str "a") [] [] 3 false]; []]
  = [Val (Err "widget plugin returned the input name 'speed' twice"); Val (Err "widget plugin returned an input with an empty name");
     Val (Err "widget plugin returned input 'a' with unknown kind 3"); Val (Ok [])].
Proof. vm_compute. reflexivity. Qed.

Example inputs_threw :
  handle_inputs (trampoline_inputs sample_author true (sample_instance (inr (Some "no topic"%string)))).2
  = Val (Err "plugin: inputs threw: no topic").
Proof. vm_compute. reflexivity. Qed.

Example updates_reported :
  messages (update_run sample_author (sample_instance (inl [])) [1; -1; -2; 3; -4])
  = [(kMessageError, "onUpdate threw: bad"%string); (kMessageError, "onUpdate threw: bad"%string)].
Proof. vm_compute. reflexivity. Qed.

(** A host that ignores the answer of the sink. *)
Example sink_not_called_again :
  view_queryHistory (Some (bridge_queryHistory (Some (Deliver 1 (fun _ => Deliver 2 (fun _ => Deliver 3 (fun _ => Delivered (Ok 3))))))))
    (logging (fun v => inl (v <? 2))) [] = ([1; 2], Ok 3).
Proof. reflexivity. Qed.

Lemma widget_boundary_witness :
  (exists r, handle_inputs (trampoline_inputs sample_author true (sample_instance (inl sample_inputs))).2 = Val r /\
   (inputs_ok sample_inputs -> r = Ok sample_inputs) /\ forall l', r = Ok l' -> inputs_ok sample_inputs /\ l' = sample_inputs) /\
  inputs_snapshot (trampoline_inputs sample_author true (sample_instance (inl sample_inputs))).1 = sample_inputs.
Proof. apply (proj1 (widget_boundary sample_author (sample_instance (inl sample_inputs)))). cbn. lia. Defined.
