(* ===== verification/IngestPolicy.v ===== *)
(** * IngestPolicy: the policies plugins share when they import data

    [src/pj_plugins/include/pj_plugins/sdk/]: the choice of the time axis of columnar data
    ([timestamp_policy.hpp]), the limit on arrays ([parser_array_policy.hpp]) and how a host treats
    deferred objects ([object_ingest_policy.hpp]). *)

From stdpp Require Import base list gmap.
From S2P Require Import Prelude Text Json TimeMath.

(** * Time axes *)

Inductive TimestampStorage : Set :=
  | kNativeTimestamp | kInt64 | kUInt64 | kFloat64 | kInt32 | kUInt32 | kNarrowInt | kFloat32 | kOther.

Inductive TimestampEligibility : Set := kEligible | kExplicitOnly | kIneligible.

#[export] Instance storage_eq_dec : EqDecision TimestampStorage.
Proof. solve_decision. Defined.
#[export] Instance eligibility_eq_dec : EqDecision TimestampEligibility.
Proof. solve_decision. Defined.

Definition kEligibleHorizonSeconds : Z := 2147483647.

Definition maxIntegerTicks (kind : TimestampStorage) : option Z :=
  match kind with
  | kInt64 => Some INT64_MAX
  | kUInt64 => Some UINT64_MAX
  | kInt32 => Some 2147483647
  | kUInt32 => Some UINT32_MAX
  | kNarrowInt => Some 127
  | kNativeTimestamp | kFloat64 | kFloat32 | kOther => None
  end.

Definition timestampEligibility (kind : TimestampStorage) (unit : TimeUnit) : TimestampEligibility :=
  match kind with
  | kNativeTimestamp | kFloat64 => kEligible
  | kFloat32 => kExplicitOnly
  | kOther => kIneligible
  | _ =>
    let ticks_per_second := wrap 64 (Z.quot 1000000000 (nanosecondsPer unit)) in
    let horizon_ticks := wrap 64 (kEligibleHorizonSeconds * ticks_per_second) in
    match maxIntegerTicks kind with
    | Some ticks => if ticks >=? horizon_ticks then kEligible else kExplicitOnly
    | None => kIneligible
    end
  end.

Definition explicitOnlyWarning (kind : TimestampStorage) (unit : TimeUnit) : string :=
  if negb (bool_decide (timestampEligibility kind unit = kExplicitOnly)) then ""
  else if bool_decide (kind = kFloat32)
  then "float32 keeps 24 significant bits, so instants near the present epoch are spaced over 100 s apart."
  else "Integer storage too narrow to reach present-day instants at the configured timestamp unit.".

Record TimestampCandidate : Set := mkCandidate { cand_name : bytes; cand_kind : TimestampStorage; is_list_element : bool }.

Record TimestampPolicy : Set := mkTimestampPolicy { policy_names : list bytes; case_insensitive : bool; policy_unit : TimeUnit }.

Definition kCanonicalTimestampNames : list bytes :=
  [str "timestamp_ns"; str "recording_timestamp_ns"; str "timestamp"; str "time"; str "ts"; str "t"; str "time_stamp";
   str "datetime"; str "date_time"; str "_timestamp"; str "_time"].

Definition kCanonicalPolicy : TimestampPolicy := mkTimestampPolicy kCanonicalTimestampNames true kNanoseconds.

Definition foldTimestampAscii (value : byte) : byte :=
  if (65 <=? b2z value) && (b2z value <=? 90) then z2b (b2z value + (97 - 65)) else value.

Fixpoint folded_loop (left right : bytes) : bool :=
  match left, right with
  | a :: left', b :: right' => byte_eqb (foldTimestampAscii a) (foldTimestampAscii b) && folded_loop left' right'
  | _, _ => true
  end.

Definition timestampNamesEqualFolded (left right : bytes) : bool :=
  if negb (length left =? length right)%nat then false else folded_loop left right.

(** A loop that returns the index of the first element that passes. *)
Fixpoint first_index {A} (p : A -> bool) (l : list A) : option nat :=
  match l with
  | [] => None
  | x :: l' => if p x then Some O else option_map S (first_index p l')
  end.

Definition timestampNamePriority (name : bytes) (policy : TimestampPolicy) : option nat :=
  match first_index (bytes_eqb name) (policy_names policy) with
  | Some index => Some index
  | None =>
    if negb (case_insensitive policy) then None
    else first_index (timestampNamesEqualFolded name) (policy_names policy)
  end.

Definition is_some {A} (o : option A) : bool := match o with Some _ => true | None => false end.

Definition native_scalar (c : TimestampCandidate) : bool :=
  negb (is_list_element c) && bool_decide (cand_kind c = kNativeTimestamp).

(** A scalar that may be chosen by its name, and has one of the policy's. *)
Definition named_scalar (unit : TimeUnit) (policy : TimestampPolicy) (c : TimestampCandidate) : bool :=
  negb (is_list_element c) && bool_decide (timestampEligibility (cand_kind c) unit = kEligible) &&
  is_some (timestampNamePriority (cand_name c) policy).

(** The loop over the names. *)
Fixpoint detect_named (candidates : list TimestampCandidate) (case_insensitive : bool) (unit : TimeUnit) (names : list bytes)
  : option nat :=
  match names with
  | [] => None
  | name :: names' =>
    let exact_policy := mkTimestampPolicy [name] false unit in
    match first_index (named_scalar unit exact_policy) candidates with
    | Some index => Some index
    | None =>
      if negb case_insensitive then detect_named candidates case_insensitive unit names'
      else
        let folded_policy := mkTimestampPolicy [name] true unit in
        match first_index (named_scalar unit folded_policy) candidates with
        | Some index => Some index
        | None => detect_named candidates case_insensitive unit names'
        end
    end
  end.

Definition detectTimestampColumn (candidates : list TimestampCandidate) (policy : TimestampPolicy) : option nat :=
  match first_index native_scalar candidates with
  | Some index => Some index
  | None => detect_named candidates (case_insensitive policy) (policy_unit policy) (policy_names policy)
  end.

Definition kTimestampUnitKey : bytes := str "timestamp_unit".

Definition timestampUnitFromJson (object : json) : option TimeUnit :=
  match jfind kTimestampUnitKey object with
  | None => Some kNanoseconds
  | Some (JString value) =>
    if bytes_eqb value (str "ns") then Some kNanoseconds
    else if bytes_eqb value (str "us") then Some kMicroseconds
    else if bytes_eqb value (str "ms") then Some kMilliseconds
    else if bytes_eqb value (str "s") then Some kSeconds
    else None
  | Some _ => None
  end.

Definition timestampUnitToJson (object : json) (unit : TimeUnit) : option json :=
  let short := match unit with kNanoseconds => "ns" | kMicroseconds => "us" | kMilliseconds => "ms" | kSeconds => "s" end in
  index_set kTimestampUnitKey (JString (str short)) object.

(** * Arrays *)

Inductive ArrayPolicy : Set := kClamp | kSkip.

Record ArrayLimit : Set := mkArrayLimit { max_size : Z; array_policy : ArrayPolicy }.

Definition default_limit : ArrayLimit := mkArrayLimit 500 kClamp.

Definition clamp (limit : ArrayLimit) : bool := match array_policy limit with kClamp => true | kSkip => false end.

Definition kMaxArraySizeKey : bytes := str "max_array_size".
Definition kArrayPolicyKey : bytes := str "array_policy".

Definition arrayLimitFromJson (cfg : json) : ArrayLimit :=
  match cfg with
  | JObject _ =>
    let size :=
      match jfind kMaxArraySizeKey cfg with
      | Some (JInt z | JUInt z) =>
        let value := to_signed 64 z in
        if (value >=? 0) && (value <=? UINT32_MAX) then value else max_size default_limit
      | _ => max_size default_limit
      end in
    let policy :=
      match jfind kArrayPolicyKey cfg with
      | Some (JString s) => if bytes_eqb s (str "skip") then kSkip else kClamp
      | _ =>
        match jfind (str "discard_large_arrays") cfg with
        | Some (JBool discard) => if discard then kSkip else kClamp
        | _ =>
          match jfind (str "clamp_large_arrays") cfg with
          | Some (JBool c) => if c then kClamp else kSkip
          | _ => array_policy default_limit
          end
        end
      end in
    mkArrayLimit size policy
  | _ => default_limit
  end.

(** [cfg[key] = v] throws on what is neither an object nor null. *)
Definition arrayLimitToJson (cfg : json) (limit : ArrayLimit) : option json :=
  cfg ← index_set kMaxArraySizeKey (JUInt (max_size limit)) cfg;
  cfg ← index_set kArrayPolicyKey (JString (if clamp limit then str "clamp" else str "skip")) cfg;
  cfg ← index_set (str "clamp_large_arrays") (JBool (clamp limit)) cfg;
  index_set (str "discard_large_arrays") (JBool (negb (clamp limit))) cfg.

(** * Objects *)

Inductive ObjectIngestPolicy : Set := kPureLazy | kLazyObjectsEagerScalars | kEager.

(** Object types are the numbers of [BuiltinObjectType]. *)
Record ObjectIngestPolicyResolver : Set := mkResolver {
  default_ : ObjectIngestPolicy; by_type_ : gmap Z ObjectIngestPolicy; by_source_ : gmap bytes ObjectIngestPolicy;
  by_topic_ : gmap bytes ObjectIngestPolicy }.

Definition new_resolver : ObjectIngestPolicyResolver := mkResolver kLazyObjectsEagerScalars ∅ ∅ ∅.

Definition setDefault (policy : ObjectIngestPolicy) (r : ObjectIngestPolicyResolver) : ObjectIngestPolicyResolver :=
  mkResolver policy (by_type_ r) (by_source_ r) (by_topic_ r).
Definition setForType (type : Z) (policy : ObjectIngestPolicy) (r : ObjectIngestPolicyResolver) : ObjectIngestPolicyResolver :=
  mkResolver (default_ r) (<[type := policy]> (by_type_ r)) (by_source_ r) (by_topic_ r).
Definition setForDataSource (source_id : bytes) (policy : ObjectIngestPolicy) (r : ObjectIngestPolicyResolver) : ObjectIngestPolicyResolver :=
  mkResolver (default_ r) (by_type_ r) (<[source_id := policy]> (by_source_ r)) (by_topic_ r).
Definition setForTopic (topic_name : bytes) (policy : ObjectIngestPolicy) (r : ObjectIngestPolicyResolver) : ObjectIngestPolicyResolver :=
  mkResolver (default_ r) (by_type_ r) (by_source_ r) (<[topic_name := policy]> (by_topic_ r)).

Definition resolve_policy (r : ObjectIngestPolicyResolver) (source_id topic_name : bytes) (object_type : Z) : ObjectIngestPolicy :=
  match by_topic_ r !! topic_name with
  | Some p => p
  | None =>
    match by_source_ r !! source_id with
    | Some p => p
    | None => match by_type_ r !! object_type with Some p => p | None => default_ r end
    end
  end.

(** * The choice of a column *)

Lemma first_index_some {A} (p : A -> bool) l i :
  first_index p l = Some i -> (exists x, l !! i = Some x /\ p x = true) /\ forall j x, (j < i)%nat -> l !! j = Some x -> p x = false.
Proof.
  revert i. induction l as [|x l IH]; intros i; cbn [first_index]; [done|]. destruct (p x) eqn:E.
  - intros [= <-]. split; [eauto|]. intros j y Hj. lia.
  - destruct (first_index p l) as [k|]; [|done]. intros [= <-]. destruct (IH k eq_refl) as [H1 H2]. split; [done|].
    intros [|j] y Hj Hy; [by injection Hy as <-|]. eapply H2; [|exact Hy]. lia.
Qed.

Lemma first_index_none {A} (p : A -> bool) l : first_index p l = None -> forall j x, l !! j = Some x -> p x = false.
Proof.
  induction l as [|x l IH]; cbn [first_index]; [done|]. destruct (p x) eqn:E; [done|].
  destruct (first_index p l); [done|]. intros _ [|j] y Hy; [by injection Hy as <-|by eapply (IH eq_refl j)].
Qed.

(** How well a name fits: the earlier the policy's name, the better, and in its own case before in another. *)
Fixpoint name_rank (names : list bytes) (ci : bool) (name : bytes) : option nat :=
  match names with
  | [] => None
  | n :: names' =>
    if bytes_eqb name n then Some 0%nat
    else if ci && timestampNamesEqualFolded name n then Some 1%nat
    else option_map (fun r => S (S r)) (name_rank names' ci name)
  end.

(** What may be chosen by its name. *)
Definition usable (unit : TimeUnit) (c : TimestampCandidate) : bool :=
  negb (is_list_element c) && bool_decide (timestampEligibility (cand_kind c) unit = kEligible).

Lemma named_exact unit n c : named_scalar unit (mkTimestampPolicy [n] false unit) c = usable unit c && bytes_eqb (cand_name c) n.
Proof. unfold named_scalar, usable, timestampNamePriority. cbn. by destruct (bytes_eqb (cand_name c) n). Qed.

Lemma named_folded unit n c :
  named_scalar unit (mkTimestampPolicy [n] true unit) c =
  usable unit c && (bytes_eqb (cand_name c) n || timestampNamesEqualFolded (cand_name c) n).
Proof.
  unfold named_scalar, usable, timestampNamePriority. cbn. destruct (bytes_eqb (cand_name c) n); [done|].
  by destruct (timestampNamesEqualFolded (cand_name c) n).
Qed.

(** The best column by name: the least rank, and among those the first. *)
Definition best_named (cands : list TimestampCandidate) (unit : TimeUnit) (rank : bytes -> option nat) (i : nat) : Prop :=
  exists c r, cands !! i = Some c /\ usable unit c = true /\ rank (cand_name c) = Some r /\
  forall j d r', cands !! j = Some d -> usable unit d = true -> rank (cand_name d) = Some r' -> (r < r' \/ r = r' /\ i <= j)%nat.

Definition none_named (cands : list TimestampCandidate) (unit : TimeUnit) (rank : bytes -> option nat) : Prop :=
  forall j d, cands !! j = Some d -> usable unit d = true -> rank (cand_name d) = None.

(** Ranks behind a name that nothing matches. *)
Lemma rank_skip cands unit n names ci :
  (forall j d, cands !! j = Some d -> usable unit d = true ->
     bytes_eqb (cand_name d) n = false /\ ci && timestampNamesEqualFolded (cand_name d) n = false) ->
  (forall i, best_named cands unit (name_rank names ci) i -> best_named cands unit (name_rank (n :: names) ci) i) /\
  (none_named cands unit (name_rank names ci) -> none_named cands unit (name_rank (n :: names) ci)).
Proof.
  intros H. assert (forall j d, cands !! j = Some d -> usable unit d = true ->
    name_rank (n :: names) ci (cand_name d) = option_map (fun r => S (S r)) (name_rank names ci (cand_name d))) as E.
  { intros j d Hj Hd. destruct (H j d Hj Hd) as [H1 H2]. cbn. by rewrite H1, H2. }
  split.
  - intros i (c & r & Hc & Hu & Hr & Hmin). exists c, (S (S r)). rewrite (E i c Hc Hu), Hr. split_and!; try done.
    intros j d r' Hd Hud. rewrite (E j d Hd Hud). destruct (name_rank names ci (cand_name d)) as [s|] eqn:Es; [|done].
    intros [= <-]. destruct (Hmin j d s Hd Hud Es); lia.
  - intros Hn j d Hd Hu. by rewrite (E j d Hd Hu), (Hn j d Hd Hu).
Qed.

Lemma detect_named_best cands ci unit names :
  match detect_named cands ci unit names with
  | Some i => best_named cands unit (name_rank names ci) i
  | None => none_named cands unit (name_rank names ci)
  end.
Proof.
  induction names as [|n names IH]; [by intros j d _ _|]. cbn [detect_named].
  destruct (first_index (named_scalar unit (mkTimestampPolicy [n] false unit)) cands) as [i|] eqn:E1.
  - apply first_index_some in E1 as [(c & Hc & Hp) Hlt]. rewrite named_exact in Hp. apply andb_prop in Hp as [Hu Hn].
    exists c, 0%nat. split_and!; [done|done|cbn; by rewrite Hn|]. intros j d r' Hd Hud Hr. destruct r' as [|r']; [right|lia].
    split; [done|]. destruct (decide (i <= j)%nat) as [|Hji]; [done|]. specialize (Hlt j d ltac:(lia) Hd).
    rewrite named_exact, Hud in Hlt. cbn [andb] in Hlt. cbn [name_rank] in Hr. rewrite Hlt in Hr.
    destruct (ci && _); [done|]. by destruct (name_rank names ci (cand_name d)).
  - assert (forall j d, cands !! j = Some d -> usable unit d = true -> bytes_eqb (cand_name d) n = false) as Hex.
    { intros j d Hd Hud. pose proof (first_index_none _ _ E1 j d Hd) as H. by rewrite named_exact, Hud in H. }
    destruct ci; cbn [negb].
    + destruct (first_index (named_scalar unit (mkTimestampPolicy [n] true unit)) cands) as [i|] eqn:E2.
      * apply first_index_some in E2 as [(c & Hc & Hp) Hlt]. rewrite named_folded in Hp. apply andb_prop in Hp as [Hu Hn].
        rewrite (Hex i c Hc Hu) in Hn. cbn [orb] in Hn. exists c, 1%nat. split_and!; [done|done|cbn; by rewrite (Hex i c Hc Hu), Hn|].
        intros j d r' Hd Hud Hr. cbn [name_rank] in Hr. rewrite (Hex j d Hd Hud) in Hr. cbn [andb] in Hr.
        destruct (timestampNamesEqualFolded (cand_name d) n) eqn:Ef.
        -- injection Hr as <-. right. split; [done|]. destruct (decide (i <= j)%nat) as [|Hji]; [done|].
           specialize (Hlt j d ltac:(lia) Hd). rewrite named_folded, Hud, Ef, orb_true_r in Hlt. done.
        -- destruct (name_rank names true (cand_name d)); [|done]. injection Hr as <-. left. lia.
      * destruct (rank_skip cands unit n names true) as [H1 H2].
        { intros j d Hd Hud. split; [by eapply Hex|]. pose proof (first_index_none _ _ E2 j d Hd) as H.
          rewrite named_folded, Hud, (Hex j d Hd Hud) in H. done. }
        destruct (detect_named cands true unit names); auto.
    + destruct (rank_skip cands unit n names false) as [H1 H2]; [intros j d Hd Hud; split; [by eapply Hex|done]|].
      destruct (detect_named cands false unit names); auto.
Qed.

(** An integer column is eligible exactly when its width reaches the horizon at its unit. *)
Lemma eligible_reach kind unit ticks :
  maxIntegerTicks kind = Some ticks ->
  (timestampEligibility kind unit = kEligible <-> kEligibleHorizonSeconds * 1000000000 <= ticks * nanosecondsPer unit).
Proof. destruct kind; try done; intros [= <-]; destruct unit; vm_compute; split; intros H; congruence || done. Qed.

(** ** Documents *)

Lemma unit_text_back object unit object' : timestampUnitToJson object unit = Some object' -> timestampUnitFromJson object' = Some unit.
Proof.
  unfold timestampUnitToJson, timestampUnitFromJson. destruct object as [| | | | | | |fs]; try done; cbn [index_set]; intros [= <-]; cbn [jfind].
  - cbn [obj_find]. rewrite bytes_eqb_refl. by destruct unit.
  - rewrite obj_find_set_eq. by destruct unit.
Qed.

Lemma index_set_finds k k' v j j' :
  index_set k v j = Some j' -> jfind k' j' = (if decide (k = k') then Some v else jfind k' j) /\ exists fs, j' = JObject fs.
Proof.
  destruct j as [| | | | | | |fs]; try done; cbn [index_set]; intros [= <-]; (split; [|by eexists]); cbn [jfind obj_find]; case_decide as E.
  - subst. by rewrite bytes_eqb_refl.
  - by rewrite (proj2 (bytes_eqb_neq k k')).
  - subst. apply obj_find_set_eq.
  - by apply obj_find_set_ne.
Qed.

(** A limit that was written is the one that is read, whatever the configuration held before. *)
Lemma array_limit_back cfg limit cfg' :
  0 <= max_size limit <= UINT32_MAX -> arrayLimitToJson cfg limit = Some cfg' -> arrayLimitFromJson cfg' = limit.
Proof.
  intros Hm. unfold arrayLimitToJson. destruct (index_set kMaxArraySizeKey _ cfg) as [c1|] eqn:E1; [|done]. cbn [mbind option_bind].
  destruct (index_set kArrayPolicyKey _ c1) as [c2|] eqn:E2; [|done]. cbn [mbind option_bind].
  destruct (index_set (str "clamp_large_arrays") _ c2) as [c3|] eqn:E3; [|done]. cbn [mbind option_bind]. intros E4.
  unfold arrayLimitFromJson.
  destruct (index_set_finds _ kMaxArraySizeKey _ _ _ E4) as [S4 [fs E]]. destruct (index_set_finds _ kArrayPolicyKey _ _ _ E4) as [P4 _].
  destruct (index_set_finds _ kMaxArraySizeKey _ _ _ E3) as [S3 _]. destruct (index_set_finds _ kArrayPolicyKey _ _ _ E3) as [P3 _].
  destruct (index_set_finds _ kMaxArraySizeKey _ _ _ E2) as [S2 _]. destruct (index_set_finds _ kArrayPolicyKey _ _ _ E2) as [P2 _].
  destruct (index_set_finds _ kMaxArraySizeKey _ _ _ E1) as [S1 _].
  rewrite decide_False in S4 by by_compute. rewrite decide_False in P4 by by_compute. rewrite decide_False in S3 by by_compute.
  rewrite decide_False in P3 by by_compute. rewrite decide_False in S2 by by_compute.
  rewrite decide_True in P2 by done. rewrite decide_True in S1 by done.
  rewrite S3, S2, S1 in S4. rewrite P3, P2 in P4. rewrite E in S4, P4 |- *. rewrite S4, P4.
  assert (to_signed 64 (max_size limit) = max_size limit) as -> by (apply to_signed64_small; lia).
  assert ((max_size limit >=? 0) && (max_size limit <=? UINT32_MAX) = true) as -> by blia.
  destruct limit as [m []]; reflexivity.
Qed.

(** ** Resolving *)

(** Calls of the setters. *)
Inductive policy_call : Set :=
  | CallDefault (p : ObjectIngestPolicy) | CallType (type : Z) (p : ObjectIngestPolicy)
  | CallSource (id : bytes) (p : ObjectIngestPolicy) | CallTopic (name : bytes) (p : ObjectIngestPolicy).

Definition apply_call (r : ObjectIngestPolicyResolver) (c : policy_call) : ObjectIngestPolicyResolver :=
  match c with
  | CallDefault p => setDefault p r | CallType t p => setForType t p r
  | CallSource s p => setForDataSource s p r | CallTopic t p => setForTopic t p r
  end.

(** The last of these calls that is about a thing. *)
Definition last_about (about : policy_call -> option ObjectIngestPolicy) (calls : list policy_call) : option ObjectIngestPolicy :=
  foldl (fun acc c => match about c with Some p => Some p | None => acc end) None calls.

Definition about_topic (t : bytes) (c : policy_call) := match c with CallTopic t' p => if decide (t' = t) then Some p else None | _ => None end.
Definition about_source (s : bytes) (c : policy_call) := match c with CallSource s' p => if decide (s' = s) then Some p else None | _ => None end.
Definition about_type (t : Z) (c : policy_call) := match c with CallType t' p => if decide (t' = t) then Some p else None | _ => None end.
Definition about_default (c : policy_call) := match c with CallDefault p => Some p | _ => None end.

Lemma resolver_history calls source topic type :
  let r := foldl apply_call new_resolver calls in
  by_topic_ r !! topic = last_about (about_topic topic) calls /\ by_source_ r !! source = last_about (about_source source) calls /\
  by_type_ r !! type = last_about (about_type type) calls /\
  default_ r = default kLazyObjectsEagerScalars (last_about about_default calls).
Proof.
  cbv zeta. induction calls as [|c calls IH] using rev_ind; [done|]. unfold last_about in *. rewrite !foldl_app. cbn [foldl].
  destruct IH as (H1 & H2 & H3 & H4). destruct c as [p|t p|s p|t p]; cbn [apply_call setDefault setForType setForDataSource setForTopic
    by_topic_ by_source_ by_type_ default_ about_topic about_source about_type about_default]; split_and!; try done;
    case_decide as E; subst; rewrite ?lookup_insert_eq, ?lookup_insert_ne; done.
Qed.

(** * Properties *)

(** The time axis is the first native scalar; without one it is the eligible scalar whose name fits best, and the first of
    those; none is chosen only when there is none.  Integers are eligible exactly when they reach the horizon at their
    unit; list elements never are. *)
Theorem column_detected cands policy :
  let rank := name_rank (policy_names policy) (case_insensitive policy) in
  match detectTimestampColumn cands policy with
  | Some i =>
    (exists c, cands !! i = Some c /\ native_scalar c = true /\ forall j d, (j < i)%nat -> cands !! j = Some d -> native_scalar d = false) \/
    ((forall j d, cands !! j = Some d -> native_scalar d = false) /\ best_named cands (policy_unit policy) rank i)
  | None => (forall j d, cands !! j = Some d -> native_scalar d = false) /\ none_named cands (policy_unit policy) rank
  end /\
  (forall kind unit ticks, maxIntegerTicks kind = Some ticks ->
     (timestampEligibility kind unit = kEligible <-> kEligibleHorizonSeconds * 1000000000 <= ticks * nanosecondsPer unit)).
Proof.
  cbv zeta. split; [|apply eligible_reach]. unfold detectTimestampColumn. destruct (first_index native_scalar cands) as [i|] eqn:E.
  - apply first_index_some in E as [(c & Hc & Hn) Hlt]. left. eauto.
  - pose proof (first_index_none _ _ E) as Hn. pose proof (detect_named_best cands (case_insensitive policy) (policy_unit policy) (policy_names policy)) as H.
    destruct (detect_named _ _ _ _); auto.
Qed.

(** After any history of setters the policy of an object is the last one set for its topic, else for its source, else
    for its type, else the last default; a written array limit and a written time unit are read back. *)
Theorem policies_kept calls source topic type :
  resolve_policy (foldl apply_call new_resolver calls) source topic type =
    (match last_about (about_topic topic) calls, last_about (about_source source) calls, last_about (about_type type) calls with
     | Some p, _, _ | None, Some p, _ | None, None, Some p => p
     | None, None, None => default kLazyObjectsEagerScalars (last_about about_default calls)
     end) /\
  (forall cfg limit cfg', 0 <= max_size limit <= UINT32_MAX -> arrayLimitToJson cfg limit = Some cfg' -> arrayLimitFromJson cfg' = limit) /\
  (forall object unit object', timestampUnitToJson object unit = Some object' -> timestampUnitFromJson object' = Some unit).
Proof.
  split_and!; [|exact array_limit_back|exact unit_text_back]. destruct (resolver_history calls source topic type) as (H1 & H2 & H3 & H4).
  unfold resolve_policy. rewrite H1, H2, H3, H4. by repeat case_match.
Qed.
