(* ===== verification/ModuleAbi.v ===== *)
(** * ModuleAbi: the blocks that cross the boundary of a parser module

    [pj_base/src/parser_module_abi.cpp] and [pj_base/parser_module_abi.h]: what the host
    writes for a module to bind and to parse, and the output descriptor it reads back.  All
    integers are little endian.  A [Span] is the bytes it shows; a view into a block is the
    bytes of that range. *)

From S2P Require Import Prelude ProtobufWire.

Notation UINT32_MAX := 4294967295.
Notation size_max := 18446744073709551615.

(** ** Values *)

(** [Route]: an [enum class] over [uint8_t] can hold any of its values. *)
Definition kScalar : Z := 1.
Definition kObject : Z := 2.

Record BindingInfoV1 : Set := mkBindingInfoV1 {
  bi_route : Z; bi_claim_index : Z; bi_expected_object_type : Z; bi_encoding : bytes; bi_type_name : bytes;
  bi_schema : bytes; bi_claim_id : bytes; bi_config_json : bytes; bi_schema_digest : bytes }.

Record ParseInputV1 : Set := mkParseInputV1 { pi_has_timestamp : bool; pi_timestamp_ns : Z; pi_payload : bytes }.

Record ObjectSpliceV1 : Set := mkObjectSpliceV1 { sp_field_number : Z; sp_input_offset : Z; sp_input_length : Z }.

Record ObjectOutputV1 : Set := mkObjectOutputV1 {
  oo_object_type : Z; oo_splice : option ObjectSpliceV1; oo_wire : bytes }.

(** A [double] is its bit pattern. *)
Inductive ScalarValueV1 : Set :=
  | ScalarDouble (bits : Z)
  | ScalarInt64 (v : Z)
  | ScalarUint64 (v : Z)
  | ScalarBool (b : bool)
  | ScalarString (s : bytes).

Record ScalarFieldV1 : Set := mkScalarFieldV1 { sf_name : bytes; sf_value : ScalarValueV1 }.

Record ScalarOutputV1 : Set := mkScalarOutputV1 {
  so_has_timestamp : bool; so_timestamp_ns : Z; so_fields : list ScalarFieldV1 }.

Inductive OutputDescriptorV1 : Set :=
  | ObjectOutput (o : ObjectOutputV1)
  | ScalarOutput (s : ScalarOutputV1).

(** ** ByteWriter and ByteReader *)

Definition u8 (v : Z) : wop := appendFixed_from 0 1 v.
Definition u16 (v : Z) : wop := appendFixed_from 0 2 v.
Definition u32 (v : Z) : wop := appendFixed_from 0 4 v.
Definition u64 (v : Z) : wop := appendFixed_from 0 8 v.
Definition write_i64 (v : Z) : wop := u64 (wrap 64 v).
Definition zeros (count : nat) : wop := insert_end (replicate count Byte.x00).

Definition read_u8 : rop Z := readFixed 1.
Definition read_u16 : rop Z := readFixed 2.
Definition read_u32 : rop Z := readFixed 4.
Definition read_u64 : rop Z := readFixed 8.
Definition read_i64 : rop Z := fun r =>
  let '(v, r') := read_u64 r in (option_map (to_signed 64) v, r').

Definition read_skip (count : nat) : rop unit := fun r =>
  if (length r <? count)%nat then (None, r) else (Some tt, drop count r).

Definition read_take (count : Z) : rop bytes := fun r =>
  if count >? remaining r then (None, r) else (Some (take (Z.to_nat count) r), drop (Z.to_nat count) r).

(** A read that fails ends the decoder with its message. *)
Definition malformed {A} (message : string) : Expected A := Err ("malformed parser module block: " +:+ message).

Notation "'read!' x := m 'or' e 'in' k" :=
  (fun r : reader => match m r with (Some x, r') => k r' | (None, _) => malformed e end)
  (at level 10, x pattern, m at level 100, e at level 0, k at level 200) : pj_scope.
Notation "'reject!' c 'or' e 'in' k" := (fun r : reader => if c then malformed e else k r)
  (at level 10, c at level 0, e at level 0, k at level 200) : pj_scope.
Notation "'yield!' v" := (fun _ : reader => Ok v) (at level 10) : pj_scope.

Definition checkedAdd (lhs rhs : Z) : option Z := if rhs >? size_max - lhs then None else Some (lhs + rhs).

Definition validRoute (route : Z) : bool := (route =? kScalar) || (route =? kObject).

Definition blen (l : bytes) : Z := Z.of_nat (length l).

(** ** BindingInfo *)

Definition kBindingHeaderSize : Z := 16.
Definition kBindingFieldCountV1 : Z := 6.
Definition kBindingFieldDescriptorSize : Z := 8.

Definition binding_fields (info : BindingInfoV1) : list bytes :=
  [bi_encoding info; bi_type_name info; bi_schema info; bi_claim_id info; bi_config_json info; bi_schema_digest info].

(** The loop that lays the fields out: their offsets and the end of the last. *)
Fixpoint binding_layout (total_size : Z) (fields : list bytes) : Expected (list Z * Z) :=
  match fields with
  | [] => Ok ([], total_size)
  | f :: rest =>
    if (blen f >? UINT32_MAX) || (total_size >? UINT32_MAX)
    then Err "BindingInfo v1 field exceeds the uint32 offset/length limit"
    else match checkedAdd total_size (blen f) with
      | None => Err "BindingInfo v1 size overflows the host size type"
      | Some total' => let? (offsets, e) := binding_layout total' rest in Ok (total_size :: offsets, e)
      end
  end.

Definition write_descriptor (d : Z * bytes) : wop := u32 d.1 ;> u32 (blen d.2).

Definition writeBindingInfoV1 (info : BindingInfoV1) : Expected bytes :=
  if negb (validRoute (bi_route info)) then Err "BindingInfo v1 route must be scalar or object"
  else
    let fields := binding_fields info in
    let? (offsets, total_size) :=
      binding_layout (kBindingHeaderSize + kBindingFieldCountV1 * kBindingFieldDescriptorSize) fields in
    if total_size >? UINT32_MAX then Err "BindingInfo v1 block exceeds the uint32 offset range"
    else Ok ((u16 1 ;> u16 (bi_route info) ;> u32 (bi_claim_index info) ;> u16 (bi_expected_object_type info)
              ;> u16 0 ;> u32 kBindingFieldCountV1
              ;> appendAll write_descriptor (combine offsets fields) ;> appendAll insert_end fields) []).

(** The loop over the field table: [count] more descriptors from [index] on. *)
Fixpoint read_binding_fields (count : nat) (index : Z) (block : bytes) (fields : list bytes) : reader -> Expected (list bytes) :=
  match count with
  | O => yield! fields
  | S count' =>
    read! offset := read_u32 or "truncated BindingInfo field descriptor" in
    read! len := read_u32 or "truncated BindingInfo field descriptor" in
    reject! ((offset >? blen block) || (len >? blen block - offset)) or "BindingInfo field range is outside the block" in
    read_binding_fields count' (index + 1) block
      (if index <? kBindingFieldCountV1
       then fields ++ [take (Z.to_nat len) (drop (Z.to_nat offset) block)] else fields)
  end.

Definition field_at (fields : list bytes) (i : nat) : bytes := default [] (fields !! i).

Definition decode_binding (block : bytes) : reader -> Expected BindingInfoV1 :=
  read! version := read_u16 or "truncated BindingInfo v1 header" in
   read! route := read_u16 or "truncated BindingInfo v1 header" in
   read! claim_index := read_u32 or "truncated BindingInfo v1 header" in
   read! expected_object_type := read_u16 or "truncated BindingInfo v1 header" in
   read! _ := read_skip 2 or "truncated BindingInfo v1 header" in
   read! field_count := read_u32 or "truncated BindingInfo v1 header" in
   reject! (negb (version =? 1)) or "unsupported BindingInfo version" in
   reject! (negb (validRoute route)) or "invalid BindingInfo route" in
   reject! (field_count <? kBindingFieldCountV1) or "BindingInfo v1 has fewer than six fields" in
   fun r => if field_count >? remaining r / kBindingFieldDescriptorSize
   then malformed "truncated BindingInfo field table"
   else
     let? fields := read_binding_fields (Z.to_nat field_count) 0 block [] r in
     Ok (mkBindingInfoV1 route claim_index expected_object_type (field_at fields 0) (field_at fields 1)
           (field_at fields 2) (field_at fields 3) (field_at fields 4) (field_at fields 5)).

Definition readBindingInfoV1 (block : bytes) : Expected BindingInfoV1 := decode_binding block block.

(** ** Parse input *)

Definition kParseInputHeaderSize : Z := 24.

Definition writeParseInputV1 (input : ParseInputV1) : Expected bytes :=
  match checkedAdd kParseInputHeaderSize (blen (pi_payload input)) with
  | None => Err "parse-input v1 size overflows the host size type"
  | Some _ =>
    Ok ((u8 (if pi_has_timestamp input then 1 else 0) ;> zeros 7 ;> write_i64 (pi_timestamp_ns input)
         ;> u64 (blen (pi_payload input)) ;> insert_end (pi_payload input)) [])
  end.

Definition readParseInputV1 : bytes -> Expected ParseInputV1 :=
  read! flags := read_u8 or "truncated parse-input v1 header" in
   read! _ := read_skip 7 or "truncated parse-input v1 header" in
   read! timestamp_ns := read_i64 or "truncated parse-input v1 header" in
   read! payload_length := read_u64 or "truncated parse-input v1 header" in
   reject! (negb (Z.land flags 254 =? 0)) or "parse-input v1 has unknown flag bits" in
   fun r => (reject! (negb (payload_length =? remaining r)) or "parse-input payload length does not match the block" in
   read! payload := (read_take payload_length) or "truncated parse-input payload" in
   yield! (mkParseInputV1 (negb (Z.land flags 1 =? 0)) timestamp_ns payload)) r.

(** ** Output descriptors *)

Definition kObjectOutputFixedSize : Z := 36.
Definition kScalarOutputFixedSize : Z := 24.
Definition kScalarFieldPrefixSize : Z := 9.

Definition scalarValueSize (value : ScalarValueV1) : Expected Z :=
  match value with
  | ScalarDouble _ | ScalarInt64 _ | ScalarUint64 _ => Ok 8
  | ScalarBool _ => Ok 1
  | ScalarString s =>
    if blen s >? UINT32_MAX then Err "scalar string exceeds the v1 uint32 length limit"
    else match checkedAdd 4 (blen s) with
      | None => Err "scalar string size overflows the host size type"
      | Some size => Ok size
      end
  end.

Definition writeObjectOutput (o : ObjectOutputV1) : Expected bytes :=
  match checkedAdd kObjectOutputFixedSize (blen (oo_wire o)) with
  | None => Err "object output v1 size overflows the host size type"
  | Some _ =>
    Ok ((u16 1 ;> u8 kObject ;> u8 0 ;> u16 (oo_object_type o)
         ;> u16 (if oo_splice o then 1 else 0)
         ;> u32 (match oo_splice o with Some s => sp_field_number s | None => 0 end)
         ;> u64 (match oo_splice o with Some s => sp_input_offset s | None => 0 end)
         ;> u64 (match oo_splice o with Some s => sp_input_length s | None => 0 end)
         ;> u64 (blen (oo_wire o)) ;> insert_end (oo_wire o)) [])
  end.

(** The first loop over the fields: where their values end. *)
Fixpoint scalar_values_end (values_end : Z) (fields : list ScalarFieldV1) : Expected Z :=
  match fields with
  | [] => Ok values_end
  | f :: rest =>
    let? value_size := scalarValueSize (sf_value f) in
    if blen (sf_name f) >? UINT32_MAX then Err "scalar output v1 field size exceeds its encoded range"
    else match checkedAdd values_end kScalarFieldPrefixSize with
      | None => Err "scalar output v1 field size exceeds its encoded range"
      | Some e => match checkedAdd e value_size with
        | None => Err "scalar output v1 field size exceeds its encoded range"
        | Some e' => scalar_values_end e' rest
        end
      end
  end.

(** The second loop: the offsets of the names. *)
Fixpoint scalar_name_offsets (total_size : Z) (fields : list ScalarFieldV1) : Expected (list Z) :=
  match fields with
  | [] => Ok []
  | f :: rest =>
    if total_size >? UINT32_MAX then Err "scalar output v1 name offset exceeds uint32"
    else match checkedAdd total_size (blen (sf_name f)) with
      | None => Err "scalar output v1 block exceeds the uint32 name-offset range"
      | Some total' =>
        if total' >? UINT32_MAX then Err "scalar output v1 block exceeds the uint32 name-offset range"
        else let? offsets := scalar_name_offsets total' rest in Ok (total_size :: offsets)
      end
  end.

Definition write_scalar_value (value : ScalarValueV1) : wop :=
  match value with
  | ScalarDouble bits => u8 0 ;> u64 bits
  | ScalarInt64 v => u8 1 ;> write_i64 v
  | ScalarUint64 v => u8 2 ;> u64 v
  | ScalarBool b => u8 3 ;> u8 (if b then 1 else 0)
  | ScalarString s => u8 4 ;> u32 (blen s) ;> insert_end s
  end.

Definition write_scalar_field (p : Z * ScalarFieldV1) : wop :=
  u32 p.1 ;> u32 (blen (sf_name p.2)) ;> write_scalar_value (sf_value p.2).

Definition writeScalarOutput (s : ScalarOutputV1) : Expected bytes :=
  if Z.of_nat (length (so_fields s)) >? UINT32_MAX then Err "scalar output v1 has too many fields"
  else
    let? values_end := scalar_values_end kScalarOutputFixedSize (so_fields s) in
    let? name_offsets := scalar_name_offsets values_end (so_fields s) in
    Ok ((u16 1 ;> u8 kScalar ;> u8 0 ;> u8 (if so_has_timestamp s then 1 else 0) ;> zeros 7
         ;> write_i64 (so_timestamp_ns s) ;> u32 (Z.of_nat (length (so_fields s)))
         ;> appendAll write_scalar_field (combine name_offsets (so_fields s))
         ;> appendAll insert_end (map sf_name (so_fields s))) []).

Definition writeOutputDescriptorV1 (output : OutputDescriptorV1) : Expected bytes :=
  match output with ObjectOutput o => writeObjectOutput o | ScalarOutput s => writeScalarOutput s end.

Definition readObjectOutput : reader -> Expected OutputDescriptorV1 :=
  read! object_type := read_u16 or "truncated object output descriptor" in
  read! splice_count := read_u16 or "truncated object output descriptor" in
  read! field_number := read_u32 or "truncated object output descriptor" in
  read! input_offset := read_u64 or "truncated object output descriptor" in
  read! input_length := read_u64 or "truncated object output descriptor" in
  read! wire_length := read_u64 or "truncated object output descriptor" in
  reject! (splice_count >? 1) or "object output splice_count is not 0 or 1" in
  fun r => (reject! (negb (wire_length =? remaining r)) or "object output wire length does not match the block" in
  read! wire := (read_take wire_length) or "truncated object output wire bytes" in
  yield! (ObjectOutput (mkObjectOutputV1 object_type
    (if splice_count =? 1 then Some (mkObjectSpliceV1 field_number input_offset input_length) else None) wire))) r.

Record DecodedField : Set := mkDecodedField { df_name_offset : Z; df_name_length : Z; df_value : ScalarValueV1 }.

(** The [switch] over the value kind, followed by the rest of the loop body. *)
Definition read_scalar_value {A} (value_kind : Z) (k : ScalarValueV1 -> reader -> Expected A) : reader -> Expected A :=
  if value_kind =? 0 then read! v := read_u64 or "truncated scalar float64 value" in k (ScalarDouble v)
  else if value_kind =? 1 then read! v := read_i64 or "truncated scalar int64 value" in k (ScalarInt64 v)
  else if value_kind =? 2 then read! v := read_u64 or "truncated scalar uint64 value" in k (ScalarUint64 v)
  else if value_kind =? 3 then
    read! v := read_u8 or "invalid scalar bool value" in
    reject! (v >? 1) or "invalid scalar bool value" in k (ScalarBool (negb (v =? 0)))
  else if value_kind =? 4 then
    read! len := read_u32 or "truncated scalar string value" in
    read! v := (read_take len) or "truncated scalar string value" in k (ScalarString v)
  else fun _ => malformed "unknown scalar value kind".

Fixpoint read_scalar_fields (count : nat) (decoded : list DecodedField) : reader -> Expected (list DecodedField) :=
  match count with
  | O => yield! decoded
  | S count' =>
    read! name_offset := read_u32 or "truncated scalar field descriptor" in
    read! name_length := read_u32 or "truncated scalar field descriptor" in
    read! value_kind := read_u8 or "truncated scalar field descriptor" in
    read_scalar_value value_kind (fun value =>
      read_scalar_fields count' (decoded ++ [mkDecodedField name_offset name_length value]))
  end.

(** The last loop: the names, from anywhere in the block. *)
Fixpoint resolve_names (block : bytes) (decoded : list DecodedField) : Expected (list ScalarFieldV1) :=
  match decoded with
  | [] => Ok []
  | f :: rest =>
    if (df_name_offset f >? blen block) || (df_name_length f >? blen block - df_name_offset f)
    then malformed "scalar field name range is outside the block"
    else
      let? fields := resolve_names block rest in
      Ok (mkScalarFieldV1 (take (Z.to_nat (df_name_length f)) (drop (Z.to_nat (df_name_offset f)) block)) (df_value f) :: fields)
  end.

Definition readScalarOutput (block : bytes) : reader -> Expected OutputDescriptorV1 :=
  read! has_timestamp := read_u8 or "truncated scalar output descriptor" in
  read! _ := read_skip 7 or "truncated scalar output descriptor" in
  read! timestamp_ns := read_i64 or "truncated scalar output descriptor" in
  read! field_count := read_u32 or "truncated scalar output descriptor" in
  reject! (has_timestamp >? 1) or "scalar output has_timestamp is not 0 or 1" in
  fun r => if field_count >? remaining r / (kScalarFieldPrefixSize + 1)
  then malformed "scalar output field count exceeds the block"
  else
    let? decoded := read_scalar_fields (Z.to_nat field_count) [] r in
    let? fields := resolve_names block decoded in
    Ok (ScalarOutput (mkScalarOutputV1 (negb (has_timestamp =? 0)) timestamp_ns fields)).

Definition decode_output (block : bytes) : reader -> Expected OutputDescriptorV1 :=
  read! version := read_u16 or "truncated output descriptor header" in
   read! route := read_u8 or "truncated output descriptor header" in
   read! _ := read_skip 1 or "truncated output descriptor header" in
   reject! (negb (version =? 1)) or "unsupported output descriptor version" in
   if route =? kObject then readObjectOutput
   else if route =? kScalar then readScalarOutput block
   else fun _ => malformed "invalid output descriptor route".

Definition readOutputDescriptorV1 (block : bytes) : Expected OutputDescriptorV1 := decode_output block block.

(** ** Reading what was written *)

Class Reads {A} (m : rop A) (w : wop) (a : A) : Prop := reads rest : m (w [] ++ rest) = (Some a, rest).

Lemma read_seq {A B} (m : rop A) w a e (k : A -> reader -> Expected B) w2 `{!Appends w2} rest R :
  Reads m w a -> k a (w2 [] ++ rest) = R ->
  (read! x := m or e in k x) ((w ;> w2) [] ++ rest) = R.
Proof. intros Hr <-. by rewrite wseq_bytes, <-app_assoc, Hr. Qed.

Lemma read_last {A B} (m : rop A) w a e (k : A -> reader -> Expected B) rest R :
  Reads m w a -> k a rest = R -> (read! x := m or e in k x) (w [] ++ rest) = R.
Proof. intros Hr <-. by rewrite Hr. Qed.

Lemma reads_fixed n v : in_u (8 * Z.of_nat n) v -> Reads (readFixed n) (appendFixed_from 0 n v) v.
Proof. intros H rest. by apply readFixed_appendFixed. Qed.

Lemma reads_i64 v : in_s 64 v -> Reads read_i64 (write_i64 v) v.
Proof.
  intros H rest. unfold read_i64, read_u64, write_i64, u64.
  rewrite readFixed_appendFixed by (apply wrap_range; lia). cbn [option_map]. by rewrite to_signed_wrap.
Qed.

Lemma reads_skip w n : length (w []) = n -> Reads (read_skip n) w tt.
Proof.
  intros <- rest. unfold read_skip. rewrite length_app, (proj2 (Nat.ltb_ge _ _)) by lia. by rewrite drop_length_app.
Qed.

Lemma reads_take (data : bytes) : Reads (read_take (blen data)) (insert_end data) data.
Proof.
  intros rest. unfold read_take, insert_end, remaining, blen. cbn [app].
  rewrite length_app. destruct (_ >? _) eqn:E; [blia|].
  by rewrite Nat2Z.id, take_length_app, drop_length_app.
Qed.

Lemma reject_false {A} (c : bool) (e k R : Expected A) : c = false -> k = R -> (if c then e else k) = R.
Proof. by intros -> <-. Qed.

Lemma in_u_bool w (b : bool) : 0 < w -> in_u w (if b then 1 else 0).
Proof. intros. unfold in_u. pose proof (Z.pow_gt_1 2 w). destruct b; lia. Qed.

#[export] Instance appends_u8 v : Appends (u8 v). Proof. unfold u8. apply _. Qed.
#[export] Instance appends_u16 v : Appends (u16 v). Proof. unfold u16. apply _. Qed.
#[export] Instance appends_u32 v : Appends (u32 v). Proof. unfold u32. apply _. Qed.
#[export] Instance appends_u64 v : Appends (u64 v). Proof. unfold u64. apply _. Qed.
#[export] Instance appends_i64 v : Appends (write_i64 v). Proof. unfold write_i64. apply _. Qed.
#[export] Instance appends_zeros n : Appends (zeros n). Proof. unfold zeros. apply _. Qed.
#[export] Instance appends_descriptor d : Appends (write_descriptor d). Proof. unfold write_descriptor. apply _. Qed.
#[export] Instance appends_scalar_value v : Appends (write_scalar_value v). Proof. destruct v; apply _. Qed.
#[export] Instance appends_scalar_field p : Appends (write_scalar_field p). Proof. unfold write_scalar_field. apply _. Qed.

Lemma checkedAdd_some a b c : checkedAdd a b = Some c -> c = a + b.
Proof. unfold checkedAdd. case_match; congruence. Qed.

Ltac fits_width := unfold in_u; cbn; lia.
Ltac read_fixed := apply reads_fixed; first [assumption | fits_width | by apply in_u_bool | by_compute].
Ltac next_read :=
  cbv beta; lazymatch goal with |- context [(_ ;> _) [] ++ _] => eapply read_seq | _ => eapply read_last end; try lazymatch goal with |- Appends _ => apply _ end.
Ltac solve_read :=
  next_read; [first [apply reads_i64; assumption | apply reads_take | apply reads_skip; reflexivity | read_fixed]|].

(** *** BindingInfo *)

Definition binding_wf (info : BindingInfoV1) : Prop :=
  in_u 32 (bi_claim_index info) /\ in_u 16 (bi_expected_object_type info).

Definition total_length (fields : list bytes) : Z := blen (concat fields).

Lemma appendAll_insert_end (fields : list bytes) : appendAll insert_end fields [] = concat fields.
Proof. induction fields as [|f l IH]; [done|]. by rewrite appendAll_cons, IH by apply _. Qed.

Lemma blen_app (a b : bytes) : blen (a ++ b) = blen a + blen b.
Proof. unfold blen. rewrite length_app. lia. Qed.

Lemma binding_layout_spec total fields os e :
  0 <= total -> binding_layout total fields = Ok (os, e) ->
  e = total + total_length fields /\ length os = length fields.
Proof.
  revert total os e. unfold total_length. induction fields as [|f l IH]; intros total os e Ht H; cbn [binding_layout concat] in H |- *.
  - simplify_eq. unfold blen. cbn. lia.
  - case_match; [done|]. destruct (checkedAdd _ _) eqn:Ec; [|done]. apply checkedAdd_some in Ec as ->.
    destruct (binding_layout _ l) as [[os' e']|] eqn:El; [|done]. cbn in H. simplify_eq.
    apply IH in El as [-> Hl]; [|unfold blen in *; lia]. rewrite blen_app. cbn [length]. split; [ring|by f_equal].
Qed.

(** The table of a block is read back field by field. *)
Lemma read_binding_fields_written pre fields os e block acc i rest :
  binding_layout (blen pre) fields = Ok (os, e) -> block = pre ++ concat fields ->
  i + Z.of_nat (length fields) <= 6 ->
  read_binding_fields (length fields) i block acc (appendAll write_descriptor (combine os fields) [] ++ rest) = Ok (acc ++ fields).
Proof.
  revert pre os e acc i rest. induction fields as [|f l IH]; intros pre os e acc i rest Hl Hb Hi.
  { cbn. by rewrite app_nil_r. }
  cbn [binding_layout] in Hl. destruct (_ || _) eqn:E1; [done|]. bprop.
  destruct (checkedAdd _ _) eqn:Ec; [|done]. apply checkedAdd_some in Ec as ->.
  destruct (binding_layout _ l) as [[os' e']|] eqn:El; [|done]. cbn in Hl. simplify_eq.
  cbn [length read_binding_fields combine]. rewrite appendAll_cons by apply _. rewrite <-app_assoc.
  unfold write_descriptor at 1. cbn [fst snd concat] in *. unfold blen in *.
  solve_read. solve_read. cbv beta. rewrite !length_app.
  apply reject_false. { destruct (_ || _) eqn:E2; [|done]. bprop. destruct E2; bprop; lia. }
  rewrite !Nat2Z.id, drop_length_app, take_length_app, (proj2 (Z.ltb_lt _ _)) by (cbn [length] in Hi; unfold kBindingFieldCountV1; lia).
  erewrite (IH (pre ++ f)).
  - by rewrite <-app_assoc.
  - rewrite length_app, Nat2Z.inj_add. exact El.
  - by rewrite <-app_assoc.
  - cbn [length] in Hi. lia.
Qed.

Lemma length_fixed i n v : length (appendFixed_from i n v []) = n.
Proof.
  revert i. induction n as [|n IH]; intros i; [done|]. cbn [appendFixed_from].
  rewrite (appends (w := appendFixed_from (S i) n v)), length_app, IH. done.
Qed.

Lemma length_appendAll {A} (f : A -> wop) n (l : list A) `{!forall a, Appends (f a)} :
  (forall a, length (f a []) = n) -> length (appendAll f l []) = (n * length l)%nat.
Proof. intros Hf. induction l as [|a l IH]; [done|]. rewrite appendAll_cons, length_app, IH, Hf by apply _. cbn [length]. lia. Qed.

Lemma length_descriptor d : length (write_descriptor d []) = 8%nat.
Proof. unfold write_descriptor, u32. rewrite wseq_bytes, length_app, !length_fixed by apply _. done. Qed.

Definition binding_header (info : BindingInfoV1) (os : list Z) : bytes :=
  u16 1 [] ++ u16 (bi_route info) [] ++ u32 (bi_claim_index info) [] ++ u16 (bi_expected_object_type info) []
    ++ u16 0 [] ++ u32 6 [] ++ appendAll write_descriptor (combine os (binding_fields info)) [].

Lemma length_binding_header info os : length os = 6%nat -> blen (binding_header info os) = 64.
Proof.
  intros Ho. unfold binding_header, blen, u16, u32. rewrite !length_app, !length_fixed.
  rewrite (length_appendAll _ 8) by first [apply length_descriptor|apply _]. by rewrite length_combine, Ho.
Qed.

Lemma binding_written info block :
  binding_wf info -> writeBindingInfoV1 info = Ok block -> readBindingInfoV1 block = Ok info.
Proof.
  intros [Hi Ht] H. unfold writeBindingInfoV1 in H. destruct (validRoute _) eqn:Er; cbn [negb] in H; [|done].
  destruct (binding_layout _ _) as [[os e]|] eqn:El; [|done]. cbn [ebind] in H. destruct (e >? _); [done|]. injection H as <-.
  assert (in_u 16 (bi_route info)) as Hr.
  { unfold validRoute, kScalar, kObject in Er. apply orb_true_iff in Er as [->%Z.eqb_eq| ->%Z.eqb_eq]; fits_width. }
  match goal with |- readBindingInfoV1 ?b = _ => set (block := b) end.
  pose proof (proj2 (binding_layout_spec 64 _ os e ltac:(done) El)) as Hn.
  assert (block = binding_header info os ++ concat (binding_fields info)) as Hb.
  { unfold block, binding_header. by rewrite !wseq_bytes, appendAll_insert_end, <-!app_assoc by apply _. }
  pose proof (length_binding_header info os Hn) as Hh.
  unfold readBindingInfoV1. rewrite <-(app_nil_r block) at 2. unfold block at 2, decode_binding.
  do 6 solve_read. cbv beta. do 3 (apply reject_false; [done || by rewrite Er|]).
  rewrite wseq_bytes, <-app_assoc by apply _.
  destruct (_ >? _) eqn:E.
  { exfalso. unfold remaining, kBindingFieldDescriptorSize, kBindingFieldCountV1 in E.
    rewrite !length_app, (length_appendAll _ 8), length_combine, Hn in E by first [apply length_descriptor|apply _]. bprop.
    revert E. apply Z.le_ngt, Z.div_le_lower_bound; cbn [length binding_fields]; lia. }
  change (Z.to_nat kBindingFieldCountV1) with (length (binding_fields info)).
  erewrite (read_binding_fields_written (binding_header info os)); [|by rewrite Hh|exact Hb|done].
  by destruct info.
Qed.

(** *** Parse input *)

Definition parse_input_wf (input : ParseInputV1) : Prop := in_s 64 (pi_timestamp_ns input).

Lemma parse_input_written input block :
  parse_input_wf input -> writeParseInputV1 input = Ok block -> readParseInputV1 block = Ok input.
Proof.
  intros Ht H. unfold writeParseInputV1 in H. destruct (checkedAdd _ _) eqn:Ec; [|done]. injection H as <-.
  assert (in_u 64 (blen (pi_payload input))) as Hl.
  { unfold checkedAdd, kParseInputHeaderSize in Ec. case_match; [done|]. bprop. unfold blen in *. fits_width. }
  match goal with |- _ ?b = _ => rewrite <-(app_nil_r b) end. unfold readParseInputV1.
  do 4 solve_read. cbv beta. apply reject_false; [by destruct (pi_has_timestamp input)|].
  apply reject_false.
  { unfold remaining, insert_end. cbn [app]. rewrite app_nil_r. unfold blen. by rewrite Z.eqb_refl. }
  solve_read. destruct input as [[] ? ?]; done.
Qed.

(** *** Output descriptors *)

Definition splice_wf (s : ObjectSpliceV1) : Prop :=
  in_u 32 (sp_field_number s) /\ in_u 64 (sp_input_offset s) /\ in_u 64 (sp_input_length s).

Definition object_output_wf (o : ObjectOutputV1) : Prop :=
  in_u 16 (oo_object_type o) /\ match oo_splice o with Some s => splice_wf s | None => True end.

Lemma object_output_written o block :
  object_output_wf o -> writeObjectOutput o = Ok block -> readOutputDescriptorV1 block = Ok (ObjectOutput o).
Proof.
  intros [Ht Hs] H. unfold writeObjectOutput in H. destruct (checkedAdd _ _) eqn:Ec; [|done]. injection H as <-.
  assert (in_u 64 (blen (oo_wire o))) as Hl.
  { unfold checkedAdd, kObjectOutputFixedSize in Ec. case_match; [done|]. bprop. unfold blen in *. fits_width. }
  match goal with |- readOutputDescriptorV1 ?b = _ => unfold readOutputDescriptorV1; generalize b at 1; intros block; rewrite <-(app_nil_r b) end.
  destruct o as [type splice wire]. cbn [oo_object_type oo_splice oo_wire] in *.
  assert (in_u 32 (match splice with Some s => sp_field_number s | None => 0 end)) as H1 by (destruct splice; [apply Hs|fits_width]).
  assert (in_u 64 (match splice with Some s => sp_input_offset s | None => 0 end)) as H2 by (destruct splice; [apply Hs|fits_width]).
  assert (in_u 64 (match splice with Some s => sp_input_length s | None => 0 end)) as H3 by (destruct splice; [apply Hs|fits_width]).
  assert (in_u 16 (if splice then 1 else 0)) as H4 by (destruct splice; fits_width).
  unfold decode_output. do 3 solve_read. cbv beta. apply reject_false; [done|]. cbn [Z.eqb kObject Pos.eqb].
  unfold readObjectOutput. do 6 solve_read. cbv beta. apply reject_false; [by destruct splice|].
  apply reject_false.
  { unfold remaining, insert_end. cbn [app]. rewrite app_nil_r. unfold blen. by rewrite Z.eqb_refl. }
  solve_read. by destruct splice as [[]|].
Qed.

Definition scalar_value_wf (v : ScalarValueV1) : Prop :=
  match v with
  | ScalarDouble bits => in_u 64 bits
  | ScalarInt64 v => in_s 64 v
  | ScalarUint64 v => in_u 64 v
  | ScalarBool _ | ScalarString _ => True
  end.

Definition scalar_output_wf (s : ScalarOutputV1) : Prop :=
  in_s 64 (so_timestamp_ns s) /\ Forall (fun f => scalar_value_wf (sf_value f)) (so_fields s).

Lemma length_scalar_value v n : scalarValueSize v = Ok n -> Z.of_nat (length (write_scalar_value v [])) = 1 + n.
Proof.
  assert (forall v, length (u8 v []) = 1%nat) as H8 by (intros; apply length_fixed).
  assert (forall v, length (u64 v []) = 8%nat) as H64 by (intros; apply length_fixed).
  assert (forall v, length (u32 v []) = 4%nat) as H32 by (intros; apply length_fixed).
  destruct v as [b|v|v|b|s]; cbn [scalarValueSize write_scalar_value]; intros H; unfold write_i64;
    rewrite ?wseq_bytes, ?length_app, ?H8, ?H64, ?H32 by apply _; try (injection H as <-; done).
  destruct (_ >? _); [done|]. destruct (checkedAdd _ _) eqn:Ec; [|done]. apply checkedAdd_some in Ec as ->. injection H as <-.
  unfold insert_end, blen. cbn [app]. lia.
Qed.

Lemma scalarValueSize_range v n : scalarValueSize v = Ok n -> 1 <= n.
Proof.
  destruct v; cbn; intros H; try (injection H as <-; lia). destruct (_ >? _); [done|].
  destruct (checkedAdd _ _) eqn:Ec; [|done]. apply checkedAdd_some in Ec as ->. injection H as <-. unfold blen. lia.
Qed.

Lemma length_scalar_field off f n :
  scalarValueSize (sf_value f) = Ok n -> blen (write_scalar_field (off, f) []) = 9 + n.
Proof.
  intros H%length_scalar_value. unfold write_scalar_field, blen, u32. cbn [fst snd].
  rewrite !wseq_bytes, !length_app, !length_fixed by apply _. lia.
Qed.

(** The first loop computes the end of the written values. *)
Lemma scalar_values_end_spec start fields e os :
  scalar_values_end start fields = Ok e -> length os = length fields ->
  e = start + blen (appendAll write_scalar_field (combine os fields) []) /\
  10 * Z.of_nat (length fields) <= blen (appendAll write_scalar_field (combine os fields) []).
Proof.
  revert start os. induction fields as [|f l IH]; intros start os H Ho; cbn [scalar_values_end] in H.
  - simplify_eq. rewrite combine_nil. unfold blen. cbn. lia.
  - destruct os as [|o os]; [done|]. destruct (scalarValueSize _) as [n|] eqn:En; [|done]. cbn [ebind] in H.
    destruct (_ >? _); [done|]. destruct (checkedAdd start _) eqn:E1; [|done]. apply checkedAdd_some in E1 as ->.
    destruct (checkedAdd (start + _) n) eqn:E2; [|done]. apply checkedAdd_some in E2 as ->.
    destruct (IH _ os H ltac:(by injection Ho)) as [-> Hn]. cbn [combine length].
    rewrite appendAll_cons, blen_app, (length_scalar_field o f n En) by apply _. unfold kScalarFieldPrefixSize.
    apply scalarValueSize_range in En. lia.
Qed.

Definition decoded_field (p : Z * ScalarFieldV1) : DecodedField :=
  mkDecodedField p.1 (blen (sf_name p.2)) (sf_value p.2).

Lemma read_scalar_value_written {A} v n (k : ScalarValueV1 -> reader -> Expected A) rest R :
  scalar_value_wf v -> scalarValueSize v = Ok n -> k v rest = R ->
  (read! kind := read_u8 or "truncated scalar field descriptor" in read_scalar_value kind k) (write_scalar_value v [] ++ rest) = R.
Proof.
  intros Hv Hn <-. destruct v as [b|v|v|b|s]; cbn [scalar_value_wf write_scalar_value scalarValueSize] in *;
    unfold read_scalar_value; solve_read; cbn [Z.eqb Pos.eqb].
  - solve_read. done.
  - solve_read. done.
  - solve_read. done.
  - solve_read. by destruct b.
  - assert (in_u 32 (blen s)) by (destruct (_ >? _) eqn:E; [done|]; bprop; unfold blen in *; fits_width).
    solve_read. solve_read. done.
Qed.

Lemma read_scalar_fields_written fields start e os total acc rest :
  Forall (fun f => scalar_value_wf (sf_value f)) fields -> scalar_values_end start fields = Ok e ->
  0 <= total -> scalar_name_offsets total fields = Ok os ->
  read_scalar_fields (length fields) acc (appendAll write_scalar_field (combine os fields) [] ++ rest) =
    Ok (acc ++ map decoded_field (combine os fields)) /\ length os = length fields.
Proof.
  revert start total os acc rest. induction fields as [|f l IH]; intros start total os acc rest Hwf He Ht Ho; cbn [scalar_name_offsets] in Ho.
  { simplify_eq. cbn. by rewrite app_nil_r. }
  inversion Hwf as [|? ? Hf Hl]; subst. cbn [scalar_values_end] in He.
  destruct (scalarValueSize _) as [n|] eqn:En; [|done]. cbn [ebind] in He.
  destruct (_ >? _) eqn:Ef; [done|]. destruct (checkedAdd start _); [|done]. destruct (checkedAdd _ n); [|done].
  destruct (total >? _) eqn:Eo; [done|]. destruct (checkedAdd total _) as [total'|] eqn:Et; [|done]. destruct (total' >? _); [done|].
  apply checkedAdd_some in Et as ->. destruct (scalar_name_offsets _ l) as [os'|] eqn:El; [|done]. cbn [ebind] in Ho. simplify_eq.
  bprop. unfold blen in *.
  cbn [length read_scalar_fields combine map]. rewrite appendAll_cons, <-app_assoc by apply _. unfold write_scalar_field at 1. cbn [fst snd].
  unfold blen. specialize (IH _ (total + Z.of_nat (length (sf_name f))) os' (acc ++ [decoded_field (total, f)]) rest Hl He ltac:(lia) El) as [IH Hlen].
  split; [|by f_equal]. do 2 solve_read. cbv beta.
  eapply read_scalar_value_written; [done|exact En|]. change (mkDecodedField _ _ _) with (decoded_field (total, f)).
  by rewrite IH, <-app_assoc.
Qed.

Lemma resolve_names_written pre fields os :
  scalar_name_offsets (blen pre) fields = Ok os ->
  resolve_names (pre ++ concat (map sf_name fields)) (map decoded_field (combine os fields)) = Ok fields.
Proof.
  revert pre os. induction fields as [|f l IH]; intros pre os H; cbn [scalar_name_offsets] in H; [by simplify_eq|].
  destruct (_ >? _) eqn:E1; [done|]. destruct (checkedAdd _ _) as [t|] eqn:Et; [|done]. apply checkedAdd_some in Et as ->.
  destruct (_ + _ >? _) eqn:E2; [done|]. destruct (scalar_name_offsets _ l) as [os'|] eqn:El; [|done]. cbn [ebind] in H. simplify_eq.
  cbn [combine map resolve_names concat decoded_field df_name_offset df_name_length fst snd].
  apply reject_false.
  { rewrite !blen_app. unfold blen. destruct (_ || _) eqn:E; [|done]. bprop. destruct E; bprop; lia. }
  unfold blen. rewrite !Nat2Z.id, drop_length_app, take_length_app. rewrite app_assoc, IH; [by destruct f|].
  by rewrite blen_app.
Qed.

Lemma scalar_output_written s block :
  scalar_output_wf s -> writeScalarOutput s = Ok block -> readOutputDescriptorV1 block = Ok (ScalarOutput s).
Proof.
  intros [Ht Hf] H. unfold writeScalarOutput in H. destruct (_ >? UINT32_MAX) eqn:Ec; [done|]. bprop.
  destruct (scalar_values_end _ _) as [e|] eqn:Ee; [|done]. cbn [ebind] in H. destruct (scalar_name_offsets e _) as [os|] eqn:Eo; [|done].
  cbn [ebind] in H. injection H as <-. destruct s as [has ts fields]. cbn [so_has_timestamp so_timestamp_ns so_fields] in *.
  set (header := (u16 1 ;> u8 kScalar ;> u8 0 ;> u8 (if has then 1 else 0) ;> zeros 7 ;> write_i64 ts ;> u32 (Z.of_nat (length fields))) []).
  match goal with |- _ ?b = _ => set (block := b) end.
  assert (Appends (appendAll write_scalar_field (combine os fields))) by apply _.
  assert (length os = length fields) as Hos.
  { clear -Eo. revert e os Eo. induction fields as [|f l IH]; intros e os Eo; cbn [scalar_name_offsets] in Eo; [by simplify_eq|].
    repeat case_match; try done. destruct (scalar_name_offsets _ l) eqn:El; [|done]. cbn in Eo. simplify_eq. cbn [length]. by erewrite IH. }
  destruct (scalar_values_end_spec _ _ _ os Ee Hos) as [He Hlen].
  assert (0 <= e) as He0 by (rewrite He; unfold blen, kScalarOutputFixedSize; lia).
  pose proof (fun acc rest => proj1 (read_scalar_fields_written fields _ _ os e acc rest Hf Ee He0 Eo)) as Hread.
  set (table := appendAll write_scalar_field (combine os fields) []) in *.
  assert (block = (header ++ table) ++ concat (map sf_name fields)) as Hb.
  { unfold block, header, table. rewrite !wseq_bytes, appendAll_insert_end, <-!app_assoc by apply _. done. }
  assert (blen (header ++ table) = e) as Hpre.
  { rewrite blen_app, He. f_equal. }
  assert (in_u 32 (Z.of_nat (length fields))) as Hc by fits_width.
  unfold readOutputDescriptorV1. rewrite <-(app_nil_r block) at 2. unfold block at 2. unfold decode_output.
  do 3 solve_read. cbv beta. apply reject_false; [done|]. cbn [Z.eqb kObject kScalar Pos.eqb].
  unfold readScalarOutput. do 4 solve_read. cbv beta. apply reject_false; [by destruct has|].
  rewrite wseq_bytes, appendAll_insert_end, <-app_assoc by apply _. fold table. apply reject_false.
  { unfold remaining. rewrite Z.gtb_ltb. apply Z.ltb_ge. apply Z.div_le_lower_bound; [done|].
    rewrite length_app. unfold blen, kScalarFieldPrefixSize in *. lia. }
  rewrite Nat2Z.id, Hread. cbn [ebind app]. rewrite Hb, resolve_names_written by (by rewrite Hpre).
  cbn [ebind]. by destruct has.
Qed.

(** ** What can be written *)

Lemma checkedAdd_iff a b c : checkedAdd a b = Some c <-> c = a + b /\ a + b <= size_max.
Proof. unfold checkedAdd. destruct (_ >? _) eqn:E; bprop; split; [done|lia| |]; intros H; [simplify_eq; lia|f_equal; lia]. Qed.

Lemma binding_layout_ok total fields :
  0 <= total -> total + total_length fields <= UINT32_MAX -> exists os, binding_layout total fields = Ok (os, total + total_length fields).
Proof.
  unfold total_length. revert total. induction fields as [|f l IH]; intros total Ht H; cbn [binding_layout concat] in *.
  { exists []. unfold blen. cbn. do 2 f_equal. lia. }
  rewrite blen_app in *. unfold blen in *. destruct (_ || _) eqn:E; [bprop; destruct E; bprop; lia|].
  rewrite (proj2 (checkedAdd_iff _ _ (total + Z.of_nat (length f)))) by lia.
  destruct (IH (total + Z.of_nat (length f))) as [os ->]; [lia..|]. eexists. cbn [ebind]. do 2 f_equal. lia.
Qed.

Lemma binding_written_iff info :
  (exists block, writeBindingInfoV1 info = Ok block) <->
  validRoute (bi_route info) = true /\ 64 + total_length (binding_fields info) <= UINT32_MAX.
Proof.
  unfold writeBindingInfoV1. change (kBindingHeaderSize + _) with 64. split.
  - intros [block H]. destruct (validRoute _); [split; [done|]|done]. cbn [negb] in H.
    destruct (binding_layout _ _) as [[os e]|] eqn:El; [|done]. apply binding_layout_spec in El as [-> _]; [|done].
    cbn [ebind] in H. destruct (_ >? _) eqn:E; [done|]. blia.
  - intros [-> H]. destruct (binding_layout_ok 64 (binding_fields info)) as [os ->]; [done..|]. cbn [negb ebind].
    rewrite (proj2 (Z.gtb_ltb _ _ )) || idtac. destruct (_ >? _) eqn:E; [blia|]. by eexists.
Qed.

(** The size of a scalar block. *)
Definition value_size (v : ScalarValueV1) : Z :=
  match v with
  | ScalarDouble _ | ScalarInt64 _ | ScalarUint64 _ => 8
  | ScalarBool _ => 1
  | ScalarString s => 4 + blen s
  end.

Fixpoint scalar_fields_size (fields : list ScalarFieldV1) : Z :=
  match fields with [] => 0 | f :: rest => 9 + value_size (sf_value f) + scalar_fields_size rest end.

Definition names_size (fields : list ScalarFieldV1) : Z := blen (concat (map sf_name fields)).

Lemma value_size_pos v : 1 <= value_size v.
Proof. destruct v; cbn; unfold blen; lia. Qed.

Lemma scalar_fields_size_pos fields : 10 * Z.of_nat (length fields) <= scalar_fields_size fields.
Proof. induction fields as [|f l IH]; [done|]. cbn [scalar_fields_size length]. pose proof (value_size_pos (sf_value f)). lia. Qed.

Lemma scalarValueSize_spec v : value_size v <= UINT32_MAX -> scalarValueSize v = Ok (value_size v).
Proof.
  destruct v; intros H; try done. cbn [value_size scalarValueSize] in *. destruct (_ >? _) eqn:E; [blia|].
  by rewrite (proj2 (checkedAdd_iff _ _ (4 + blen s))) by lia.
Qed.

Lemma scalarValueSize_value v n : scalarValueSize v = Ok n -> n = value_size v.
Proof.
  destruct v as [| | | |s]; cbn [scalarValueSize value_size]; try congruence. destruct (_ >? _); [done|].
  destruct (checkedAdd _ _) eqn:Ec; [apply checkedAdd_some in Ec|done]. congruence.
Qed.

Lemma scalar_values_end_value start fields e : scalar_values_end start fields = Ok e -> e = start + scalar_fields_size fields.
Proof.
  revert start. induction fields as [|f l IH]; intros start H; cbn [scalar_values_end scalar_fields_size] in *; [simplify_eq; lia|].
  destruct (scalarValueSize _) as [n|] eqn:En; [|done]. apply scalarValueSize_value in En as ->. cbn [ebind] in H.
  destruct (_ >? _); [done|].
  destruct (checkedAdd start _) eqn:E1; [|done]. apply checkedAdd_some in E1 as ->.
  destruct (checkedAdd (start + _) _) eqn:E2; [|done]. apply checkedAdd_some in E2 as ->.
  apply IH in H. unfold kScalarFieldPrefixSize in H. lia.
Qed.

Lemma scalar_values_end_ok start fields :
  0 <= start -> start + scalar_fields_size fields + names_size fields <= UINT32_MAX ->
  scalar_values_end start fields = Ok (start + scalar_fields_size fields).
Proof.
  revert start. unfold names_size. induction fields as [|f l IH]; intros start Hs H; cbn [scalar_values_end scalar_fields_size map concat] in *.
  { f_equal. lia. }
  rewrite blen_app in H. pose proof (scalar_fields_size_pos l). pose proof (value_size_pos (sf_value f)). unfold kScalarFieldPrefixSize.
  assert (0 <= blen (sf_name f) /\ 0 <= blen (concat (map sf_name l))) by (unfold blen; lia).
  rewrite scalarValueSize_spec by lia. cbn [ebind]. destruct (_ >? _) eqn:E; [blia|].
  rewrite (proj2 (checkedAdd_iff start _ (start + 9))), (proj2 (checkedAdd_iff _ _ (start + 9 + value_size (sf_value f)))) by lia.
  rewrite IH by lia. f_equal. lia.
Qed.

Lemma scalar_name_offsets_iff total fields :
  0 <= total <= UINT32_MAX -> (exists os, scalar_name_offsets total fields = Ok os) <-> total + names_size fields <= UINT32_MAX.
Proof.
  unfold names_size. revert total. induction fields as [|f l IH]; intros total Ht; cbn [scalar_name_offsets map concat].
  { split; [intros _; unfold blen; cbn; lia|by eexists]. }
  rewrite blen_app. assert (0 <= blen (sf_name f) /\ 0 <= blen (concat (map sf_name l))) by (unfold blen; lia).
  destruct (total >? _) eqn:E; [blia|]. destruct (checkedAdd _ _) as [t|] eqn:Ec.
  - apply checkedAdd_some in Ec as ->. destruct (_ + _ >? _) eqn:E2; bprop; [split; [by intros [? ?]|lia]|].
    rewrite Z.add_assoc, <-IH by lia. destruct (scalar_name_offsets _ l); cbn [ebind]; split; intros [? ?]; try done; by eexists.
  - split; [by intros [? ?]|]. intros. rewrite (proj2 (checkedAdd_iff _ _ (total + blen (sf_name f)))) in Ec by lia. done.
Qed.

Definition scalar_size (s : ScalarOutputV1) : Z := 24 + scalar_fields_size (so_fields s) + names_size (so_fields s).

Lemma scalar_written_iff s : (exists block, writeScalarOutput s = Ok block) <-> scalar_size s <= UINT32_MAX.
Proof.
  unfold writeScalarOutput, scalar_size. change kScalarOutputFixedSize with 24. set (fields := so_fields s).
  pose proof (scalar_fields_size_pos fields). assert (0 <= names_size fields) by (unfold names_size, blen; lia). split.
  - intros [block H']. destruct (_ >? _); [done|]. destruct (scalar_values_end _ _) as [e|] eqn:Ee; [|done]. cbn [ebind] in H'.
    apply scalar_values_end_value in Ee as ->. destruct (scalar_name_offsets _ _) as [os|] eqn:Eo; [|done].
    destruct (24 + scalar_fields_size fields >? UINT32_MAX) eqn:E; bprop.
    + destruct fields as [|f l]; [done|]. cbn [scalar_name_offsets] in Eo. rewrite Z.gtb_ltb, (proj2 (Z.ltb_lt _ _)) in Eo; done.
    + apply scalar_name_offsets_iff; [lia|]. by eexists.
  - intros Hs. destruct (_ >? _) eqn:E; [blia|]. rewrite scalar_values_end_ok by lia. cbn [ebind].
    destruct (proj2 (scalar_name_offsets_iff (24 + scalar_fields_size fields) fields ltac:(lia))) as [os ->]; [lia|]. by eexists.
Qed.

Definition output_wf (output : OutputDescriptorV1) : Prop :=
  match output with ObjectOutput o => object_output_wf o | ScalarOutput s => scalar_output_wf s end.

Definition output_fits (output : OutputDescriptorV1) : Prop :=
  match output with ObjectOutput o => 36 + blen (oo_wire o) <= size_max | ScalarOutput s => scalar_size s <= UINT32_MAX end.

Lemma output_written output block :
  output_wf output -> writeOutputDescriptorV1 output = Ok block -> readOutputDescriptorV1 block = Ok output.
Proof. destruct output; [apply object_output_written|apply scalar_output_written]. Qed.

(** The blocks of the module boundary: a binding, a parse input or an output descriptor is written exactly when
    its offsets and lengths fit their fields (a block of bindings or scalars fits 32 bits), an unknown
    route being refused; and reading what was written gives the value back. *)
Theorem abi_blocks_roundtrip info input output :
  binding_wf info -> parse_input_wf input -> output_wf output ->
  ((exists block, writeBindingInfoV1 info = Ok block) <->
     validRoute (bi_route info) = true /\ 64 + total_length (binding_fields info) <= UINT32_MAX) /\
  (forall block, writeBindingInfoV1 info = Ok block -> readBindingInfoV1 block = Ok info) /\
  ((exists block, writeParseInputV1 input = Ok block) <-> 24 + blen (pi_payload input) <= size_max) /\
  (forall block, writeParseInputV1 input = Ok block -> readParseInputV1 block = Ok input) /\
  ((exists block, writeOutputDescriptorV1 output = Ok block) <-> output_fits output) /\
  (forall block, writeOutputDescriptorV1 output = Ok block -> readOutputDescriptorV1 block = Ok output).
Proof.
  intros Hi Hp Ho. split_and!.
  - apply binding_written_iff.
  - intros block. by apply binding_written.
  - unfold writeParseInputV1, checkedAdd, kParseInputHeaderSize. destruct (_ >? _) eqn:E; bprop; split; [by intros [? ?]|lia|lia|by eexists].
  - intros block. by apply parse_input_written.
  - destruct output as [o|s]; cbn [writeOutputDescriptorV1 output_fits]; [|apply scalar_written_iff].
    unfold writeObjectOutput, checkedAdd, kObjectOutputFixedSize.
    destruct (_ >? _) eqn:E; bprop; split; [by intros [? ?]|lia|lia|by eexists].
  - intros block. by apply output_written.
Qed.

Definition sample_binding : BindingInfoV1 :=
  mkBindingInfoV1 kObject 3 20 (str "cdr") (str "nav_msgs/GridMap") (str "float32 x") (str "grid") (str "{}") [].
Definition sample_scalars : ScalarOutputV1 :=
  mkScalarOutputV1 true (-5) [mkScalarFieldV1 (str "x") (ScalarDouble 4607182418800017408); mkScalarFieldV1 (str "ok") (ScalarBool true);
    mkScalarFieldV1 [] (ScalarString (str "text")); mkScalarFieldV1 (str "n") (ScalarInt64 (-1)); mkScalarFieldV1 (str "u") (ScalarUint64 7)].

Lemma abi_blocks_roundtrip_witness :
  (exists block, writeBindingInfoV1 sample_binding = Ok block /\ readBindingInfoV1 block = Ok sample_binding) /\
  (exists block, writeOutputDescriptorV1 (ScalarOutput sample_scalars) = Ok block /\ readOutputDescriptorV1 block = Ok (ScalarOutput sample_scalars)).
Proof.
  assert (binding_wf sample_binding) as H1 by (split; by_compute).
  assert (parse_input_wf (mkParseInputV1 false 0 [])) as H2 by (unfold parse_input_wf; by_compute).
  assert (output_wf (ScalarOutput sample_scalars)) as H3 by (split; [by_compute|repeat constructor; by_compute]).
  destruct (abi_blocks_roundtrip _ _ _ H1 H2 H3) as (Hb & Hr & _ & _ & Ho & Hs). split.
  - destruct (proj2 Hb) as [block Hw]; [split; [reflexivity|vm_compute; congruence]|]. exists block. split; [exact Hw|apply Hr, Hw].
  - destruct (proj2 Ho) as [block Hw]; [vm_compute; congruence|]. exists block. split; [exact Hw|apply Hs, Hw].
Defined.
