(* ===== verification/ModuleManifest.v ===== *)
(** * ModuleManifest: the manifest inside a WebAssembly module

    [src/pj_base/src/parser_module_manifest.cpp]: a parser module carries its manifest in a custom
    section of its binary.  [appendManifestSection] adds one, [readManifestSection] finds it;
    both walk over the sections of the module.

    A position in the module is the bytes from it on.  Not modelled: allocation failures. *)

From S2P Require Import Prelude Text.

(** [Span<const uint8_t>]: whether its pointer is null, and its bytes. *)
Record Span : Set := mkSpan { sp_null : bool; sp_bytes : bytes }.

(** Storage is null under a size that is not zero. *)
Definition null_storage (s : Span) : bool := sp_null s && negb (bool_decide (sp_bytes s = [])).

Definition kWasmPreamble : bytes := map z2b [0; 97; 115; 109; 1; 0; 0; 0].
Definition kManifestSectionName : bytes := str "pj_parser_module_manifest".

Record ManifestScan : Set := mkScan { count : nat; found : bytes }.

(** [readVarUint32], from the byte with this index on; [n] bytes may follow. *)
Fixpoint read_var (n : nat) (index value : Z) (data : bytes) : Expected (Z * bytes) :=
  match n with
  | O => Err "wasm varuint32 exceeds five bytes"
  | S n' =>
    match data with
    | [] => Err "truncated wasm varuint32"
    | b :: data' =>
      let byte := b2z b in
      if (index =? 4) && negb (Z.land byte 240 =? 0) then Err "wasm varuint32 overflows uint32"
      else
        let value := Z.lor value (wrap 32 (Z.shiftl (Z.land byte 127) (index * 7))) in
        if Z.land byte 128 =? 0 then Ok (value, data') else read_var n' (index + 1) value data'
    end
  end.

Definition readVarUint32 (data : bytes) : Expected (Z * bytes) := read_var 5 0 0 data.

(** The loop of [appendVarUint32]; five turns shift a 32-bit value out. *)
Fixpoint append_var (fuel : nat) (value : Z) : bytes :=
  match fuel with
  | O => []
  | S fuel' =>
    let byte := Z.land value 127 in
    let value := Z.shiftr value 7 in
    if value =? 0 then [z2b byte] else z2b (Z.lor byte 128) :: append_var fuel' value
  end.

Definition appendVarUint32 (output : bytes) (value : Z) : bytes := output ++ append_var 5 value.

Fixpoint var_size (fuel : nat) (value size : Z) : Z :=
  match fuel with
  | O => size
  | S fuel' => if value >=? 128 then var_size fuel' (Z.shiftr value 7) (size + 1) else size
  end.

Definition varUint32Size (value : Z) : Z := var_size 5 value 1.

(** The body of a custom section. *)
Definition scan_custom (payload : bytes) (result : ManifestScan) : Expected ManifestScan :=
  match readVarUint32 payload with
  | Err e => Err ("malformed wasm custom-section name: " +:+ e)
  | Ok (name_size, rest) =>
    if name_size >? Z.of_nat (length rest) then Err "wasm custom-section name exceeds its section"
    else if bytes_eqb (take (Z.to_nat name_size) rest) kManifestSectionName
    then Ok (mkScan (S (count result)) (drop (Z.to_nat name_size) rest))
    else Ok result
  end.

(** The loop over the sections; each takes a byte at least. *)
Fixpoint scan_sections (fuel : nat) (wasm : bytes) (result : ManifestScan) : Expected ManifestScan :=
  match fuel with
  | O => Ok result
  | S fuel' =>
    match wasm with
    | [] => Ok result
    | section_id :: rest =>
      let? sized := readVarUint32 rest in
      let '(section_size, rest) := sized in
      if section_size >? Z.of_nat (length rest) then Err "wasm section exceeds the remaining module bytes"
      else
        let size := Z.to_nat section_size in
        let? result := (if b2z section_id =? 0 then scan_custom (take size rest) result else Ok result) in
        scan_sections fuel' (drop size rest) result
    end
  end.

Definition scanManifestSections (wasm : Span) : Expected ManifestScan :=
  if null_storage wasm || (length (sp_bytes wasm) <? length kWasmPreamble)%nat ||
     negb (bytes_eqb (take (length kWasmPreamble) (sp_bytes wasm)) kWasmPreamble)
  then Err "invalid or truncated wasm preamble"
  else scan_sections (length (sp_bytes wasm)) (drop (length kWasmPreamble) (sp_bytes wasm)) (mkScan 0 []).

Definition appendManifestSection (wasm manifest : Span) : Expected bytes :=
  let? scanned := scanManifestSections wasm in
  if negb (count scanned =? 0)%nat then Err "wasm already contains a parser-module manifest section"
  else if null_storage manifest then Err "manifest storage is null"
  else
    let manifest_size := Z.of_nat (length (sp_bytes manifest)) in
    if manifest_size >? UINT32_MAX then Err "manifest exceeds the wasm custom-section size range"
    else
      let name_size := Z.of_nat (length kManifestSectionName) in
      let payload_size := wrap 64 (varUint32Size name_size + name_size + manifest_size) in
      if (payload_size >? UINT32_MAX) || (payload_size >? UINT64_MAX)
      then Err "embedded wasm manifest size overflows the output range"
      else
        let section_header_size := 1 + varUint32Size payload_size in
        let size := Z.of_nat (length (sp_bytes wasm)) in
        if (size >? UINT64_MAX - section_header_size) ||
           (payload_size >? wrap 64 (UINT64_MAX - size - section_header_size))
        then Err "embedded wasm manifest size overflows the output range"
        else
          let output := sp_bytes wasm ++ [z2b 0] in
          let output := appendVarUint32 output payload_size in
          let output := appendVarUint32 output name_size in
          Ok (output ++ kManifestSectionName ++ sp_bytes manifest).

Definition readManifestSection (wasm : Span) : Expected bytes :=
  let? scanned := scanManifestSections wasm in
  if (count scanned =? 0)%nat then Err "wasm has no parser-module manifest section"
  else if negb (count scanned =? 1)%nat then Err "wasm has multiple parser-module manifest sections"
  else Ok (found scanned).

(** ** Variable-length integers *)

Lemma low_bits x :
  0 <= x < 128 ->
  Z.land x 127 = x /\ Z.land x 128 = 0 /\ Z.land (Z.lor x 128) 127 = x /\ Z.land (Z.lor x 128) 128 = 128 /\
  Z.lor x 128 = x + 128 /\ (x < 16 -> Z.land x 240 = 0).
Proof.
  intros Hx. assert (forallb (fun n => let x := Z.of_nat n in
    (Z.land x 127 =? x) && (Z.land x 128 =? 0) && (Z.land (Z.lor x 128) 127 =? x) &&
    (Z.land (Z.lor x 128) 128 =? 128) && (Z.lor x 128 =? x + 128) && ((16 <=? x) || (Z.land x 240 =? 0))) (seq 0 128) = true)
    as H by (vm_compute; reflexivity).
  rewrite forallb_forall in H. specialize (H (Z.to_nat x)). rewrite in_seq, Z2Nat.id in H by lia.
  specialize (H ltac:(lia)). cbv zeta in H. rewrite !andb_true_iff, !Z.eqb_eq, orb_true_iff, Z.leb_le, Z.eqb_eq in H. lia.
Qed.

Lemma shiftr7 v : Z.shiftr v 7 = v / 128.
Proof. by rewrite Z.shiftr_div_pow2. Qed.

Lemma land127 v : Z.land v 127 = v mod 128.
Proof. exact (Z.land_ones v 7 ltac:(lia)). Qed.

Lemma add_bits acc x i :
  0 <= i <= 4 -> 0 <= acc < 2 ^ (7 * i) -> 0 <= x < 128 -> (i = 4 -> x < 16) ->
  Z.lor acc (wrap 32 (Z.shiftl x (i * 7))) = acc + x * 2 ^ (7 * i).
Proof.
  intros Hi Hacc Hx H4. rewrite Z.shiftl_mul_pow2, (Z.mul_comm i 7) by lia. rewrite wrap_small.
  - rewrite <-Z.shiftl_mul_pow2 by lia. rewrite lor_shiftl_add by lia. by rewrite Z.shiftl_mul_pow2 by lia.
  - unfold in_u. assert (i = 0 \/ i = 1 \/ i = 2 \/ i = 3 \/ i = 4) as [->|[->|[->|[->| ->]]]] by lia; cbn; lia.
Qed.

Lemma read_append n : forall i acc v rest,
  i = 5 - Z.of_nat n -> (0 < n <= 5)%nat -> 0 <= acc < 2 ^ (7 * i) -> 0 <= v < 2 ^ (32 - 7 * i) ->
  read_var n i acc (append_var n v ++ rest) = Ok (acc + v * 2 ^ (7 * i), rest).
Proof.
  induction n as [|n IH]; intros i acc v rest Hi Hn Hacc Hv; [lia|]. cbn [append_var].
  rewrite land127, shiftr7. pose proof (Z.mod_pos_bound v 128 ltac:(lia)) as Hm.
  destruct (low_bits (v mod 128) Hm) as (L1 & L2 & L3 & L4 & L5 & L6).
  assert (0 <= i <= 4) as Hi4 by lia. pose proof (Z.div_mod v 128 ltac:(lia)) as Hd.
  assert (i = 4 -> v < 16) as Hv4 by (intros ->; cbn in Hv; lia).
  destruct (v / 128 =? 0) eqn:Hq.
  - apply Z.eqb_eq in Hq. assert (v mod 128 = v) as Ev by lia. rewrite Ev in *. cbn [app read_var].
    rewrite b2z_z2b_small, L2, L1, add_bits by lia.
    destruct (i =? 4) eqn:E4; [apply Z.eqb_eq in E4; rewrite (L6 (Hv4 E4))|]; done.
  - apply Z.eqb_neq in Hq. assert (i < 4) as Hlt.
    { destruct (decide (i = 4)) as [E|]; [|lia]. pose proof (Hv4 E). rewrite Z.div_small in Hq by lia. done. }
    cbn [app read_var]. rewrite b2z_z2b_small, L4, L3, add_bits by lia. rewrite (proj2 (Z.eqb_neq i 4)) by lia.
    cbn [andb Z.eqb]. rewrite IH; [|lia|lia| |].
    + f_equal. f_equal. replace (7 * (i + 1)) with (7 * i + 7) by lia. rewrite Z.pow_add_r by lia. change (2 ^ 7) with 128. nia.
    + replace (7 * (i + 1)) with (7 * i + 7) by lia. rewrite Z.pow_add_r by lia. change (2 ^ 7) with 128. nia.
    + replace (32 - 7 * i) with (32 - 7 * (i + 1) + 7) in Hv by lia. rewrite Z.pow_add_r in Hv by lia.
      change (2 ^ 7) with 128 in Hv. nia.
Qed.

Lemma read_appended v rest : 0 <= v <= UINT32_MAX -> readVarUint32 (append_var 5 v ++ rest) = Ok (v, rest).
Proof.
  intros Hv. unfold readVarUint32. rewrite (read_append 5 0 0 v rest); [|lia|lia|cbn; lia|cbn; lia].
  do 2 f_equal. cbn. lia.
Qed.

Lemma var_size_append fuel : forall v size,
  (0 < fuel)%nat -> 0 <= v < 2 ^ (7 * Z.of_nat fuel) ->
  var_size fuel v size = size - 1 + Z.of_nat (length (append_var fuel v)).
Proof.
  induction fuel as [|fuel IH]; intros v size Hf Hv; [lia|]. cbn [var_size append_var]. rewrite land127, shiftr7.
  pose proof (Z.div_mod v 128 ltac:(lia)) as Hd. pose proof (Z.mod_pos_bound v 128 ltac:(lia)) as Hm.
  destruct (v >=? 128) eqn:Hge.
  - apply Z.geb_le in Hge. assert (v / 128 <> 0) as Hne by nia. rewrite (proj2 (Z.eqb_neq _ _) Hne). cbn [length].
    replace (7 * Z.of_nat (S fuel)) with (7 * Z.of_nat fuel + 7) in Hv by lia. rewrite Z.pow_add_r in Hv by lia.
    change (2 ^ 7) with 128 in Hv. destruct fuel as [|fuel]; [cbn in Hv; lia|].
    rewrite IH; [lia|lia|]. split; [apply Z.div_pos; lia|]. apply Z.div_lt_upper_bound; lia.
  - rewrite Z.div_small by blia. cbn. lia.
Qed.

Lemma varUint32Size_length v : 0 <= v <= UINT32_MAX -> varUint32Size v = Z.of_nat (length (append_var 5 v)).
Proof. intros Hv. unfold varUint32Size. rewrite var_size_append; [lia|lia|cbn; lia]. Qed.

(** Bytes after a number do not change it. *)
Lemma read_more n : forall i acc data v rest extra,
  0 <= acc -> read_var n i acc data = Ok (v, rest) ->
  read_var n i acc (data ++ extra) = Ok (v, rest ++ extra) /\ (length rest < length data)%nat /\ 0 <= v.
Proof.
  induction n as [|n IH]; intros i acc data v rest extra Hacc; [done|]. destruct data as [|b data]; [done|].
  cbn [app read_var]. destruct (_ && _); [done|]. set (value := Z.lor _ _).
  assert (0 <= value) as Hval.
  { apply Z.lor_nonneg. split; [done|]. apply wrap_range. lia. }
  destruct (_ =? 0).
  - intros [= <- <-]. cbn. split_and!; [done|lia|done].
  - intros H. destruct (IH _ _ _ _ _ extra Hval H) as (-> & Hl & Hv). cbn. split_and!; [done|lia|done].
Qed.

Lemma readVarUint32_more data v rest extra :
  readVarUint32 data = Ok (v, rest) ->
  readVarUint32 (data ++ extra) = Ok (v, rest ++ extra) /\ (length rest < length data)%nat /\ 0 <= v.
Proof. by apply read_more. Qed.

(** ** Sections *)

Lemma scan_fuel fuel : forall fuel' wasm result,
  (length wasm <= fuel)%nat -> (length wasm <= fuel')%nat ->
  scan_sections fuel wasm result = scan_sections fuel' wasm result.
Proof.
  induction fuel as [|fuel IH]; intros fuel' wasm result H1 H2.
  { destruct wasm; [|cbn in H1; lia]. by destruct fuel'. }
  destruct wasm as [|b rest]; [by destruct fuel'|]. cbn in H1, H2. destruct fuel' as [|fuel']; [lia|].
  cbn [scan_sections]. destruct (readVarUint32 rest) as [[size rest']|] eqn:E; [|done]. cbn [ebind].
  destruct (readVarUint32_more _ _ _ [] E) as (_ & Hl & _). destruct (size >? _); [done|].
  destruct (if b2z b =? 0 then _ else _) as [r|]; [|done]. cbn [ebind].
  apply IH; rewrite length_drop; lia.
Qed.

(** Complete sections are read as they are, whatever follows them. *)
Lemma scan_app fuel : forall wasm result r extra,
  (length wasm <= fuel)%nat -> scan_sections fuel wasm result = Ok r ->
  scan_sections (length (wasm ++ extra)) (wasm ++ extra) result = scan_sections (length extra) extra r.
Proof.
  induction fuel as [|fuel IH]; intros wasm result r extra Hf H.
  { destruct wasm; [|cbn in Hf; lia]. by injection H as ->. }
  destruct wasm as [|b rest]; [by injection H as ->|]. cbn in Hf. cbn [app length scan_sections] in H |- *.
  destruct (readVarUint32 rest) as [[size rest']|] eqn:E; [|done]. cbn [ebind] in H.
  destruct (readVarUint32_more _ _ _ extra E) as (-> & Hl & Hv). cbn [ebind].
  destruct (size >? Z.of_nat (length rest')) eqn:Es; [done|].
  assert (Z.to_nat size <= length rest')%nat as Hsize by blia.
  assert (size >? Z.of_nat (length (rest' ++ extra)) = false) as -> by (rewrite length_app; blia).
  rewrite take_app_le, drop_app_le by done.
  destruct (if b2z b =? 0 then _ else _) as [r1|]; [|done]. cbn [ebind] in H |- *.
  rewrite <-(IH (drop (Z.to_nat size) rest') r1 r extra); [|rewrite length_drop; lia|exact H].
  apply scan_fuel; rewrite !length_app, ?length_drop; lia.
Qed.

(** The section [appendManifestSection] adds. *)
Definition name_length : Z := Z.of_nat (length kManifestSectionName).

Definition manifest_section (manifest : bytes) : bytes :=
  z2b 0 :: append_var 5 (1 + name_length + Z.of_nat (length manifest)) ++ append_var 5 name_length ++
  kManifestSectionName ++ manifest.

Lemma scan_manifest_section fuel manifest result :
  1 + name_length + Z.of_nat (length manifest) <= UINT32_MAX -> (length (manifest_section manifest) <= fuel)%nat ->
  scan_sections fuel (manifest_section manifest) result = Ok (mkScan (S (count result)) manifest).
Proof.
  intros Hfit Hfuel. assert (name_length = 25) as Hn by reflexivity. unfold manifest_section in *. destruct fuel as [|fuel]; [cbn in Hfuel; lia|].
  cbn [scan_sections]. rewrite read_appended by lia. cbn [ebind].
  set (payload := append_var 5 name_length ++ kManifestSectionName ++ manifest).
  assert (Z.of_nat (length payload) = 1 + name_length + Z.of_nat (length manifest)) as Hlen.
  { unfold payload. rewrite !length_app, !Nat2Z.inj_add. fold name_length. rewrite Hn. change (length (append_var 5 25)) with 1%nat. lia. }
  rewrite <-Hlen, Z.gtb_ltb, Z.ltb_irrefl, Nat2Z.id, firstn_all, skipn_all. rewrite b2z_z2b_small by lia.
  cbn [Z.eqb]. unfold scan_custom, payload. rewrite read_appended by lia.
  rewrite length_app.
  assert (name_length >? Z.of_nat (length kManifestSectionName + length manifest) = false) as ->
    by (unfold name_length; blia).
  unfold name_length. rewrite Nat2Z.id, take_length_app, drop_length_app, bytes_eqb_refl. cbn [ebind].
  by destruct fuel.
Qed.

(** ** The two operations *)

Definition module_size_max : Z := UINT64_MAX - 5 - UINT32_MAX - 1.

(** The module with the section after it, scanned. *)
Lemma scan_appended wasm manifest r :
  scanManifestSections wasm = Ok r -> 1 + name_length + Z.of_nat (length manifest) <= UINT32_MAX ->
  scanManifestSections (mkSpan false (sp_bytes wasm ++ manifest_section manifest)) = Ok (mkScan (S (count r)) manifest).
Proof.
  unfold scanManifestSections. destruct (_ || _) eqn:E; [done|]. intros H Hfit.
  apply orb_false_iff in E as [E Ep]. apply orb_false_iff in E as [_ El].
  assert (length kWasmPreamble <= length (sp_bytes wasm))%nat as Hl by blia.
  cbn [sp_bytes sp_null null_storage andb]. rewrite take_app_le, drop_app_le, Ep by done.
  assert ((length (sp_bytes wasm ++ manifest_section manifest) <? length kWasmPreamble)%nat = false) as ->
    by (rewrite length_app; blia).
  cbn [null_storage sp_null andb orb].
  rewrite (scan_fuel _ (length (drop (length kWasmPreamble) (sp_bytes wasm) ++ manifest_section manifest)));
    [|rewrite !length_app, length_drop; lia|lia].
  rewrite (scan_app (length (sp_bytes wasm)) _ _ r); [|rewrite length_drop; lia|exact H].
  by apply scan_manifest_section.
Qed.

Lemma append_var_length fuel : forall v, (length (append_var fuel v) <= fuel)%nat.
Proof.
  induction fuel as [|fuel IH]; intros v; [done|]. cbn [append_var]. destruct (_ =? 0); cbn; [lia|].
  specialize (IH (Z.shiftr v 7)). lia.
Qed.

Lemma append_section wasm manifest :
  Z.of_nat (length (sp_bytes wasm)) <= module_size_max ->
  appendManifestSection wasm manifest =
    (let? scanned := scanManifestSections wasm in
     if negb (count scanned =? 0)%nat then Err "wasm already contains a parser-module manifest section"
     else if null_storage manifest then Err "manifest storage is null"
     else if Z.of_nat (length (sp_bytes manifest)) >? UINT32_MAX
     then Err "manifest exceeds the wasm custom-section size range"
     else if 1 + name_length + Z.of_nat (length (sp_bytes manifest)) >? UINT32_MAX
     then Err "embedded wasm manifest size overflows the output range"
     else Ok (sp_bytes wasm ++ manifest_section (sp_bytes manifest))).
Proof.
  intros Hsize. unfold module_size_max in Hsize. unfold appendManifestSection. fold name_length.
  assert (name_length = 25) as Hn by reflexivity.
  destruct (scanManifestSections wasm) as [r|e]; [|done]. cbn [ebind].
  destruct (negb (count r =? 0)%nat); [done|]. destruct (null_storage manifest); [done|].
  set (size := Z.of_nat (length (sp_bytes manifest))). destruct (size >? UINT32_MAX) eqn:E1; [done|].
  assert (0 <= size <= UINT32_MAX) as Hs by (split; [unfold size; lia|blia]).
  rewrite varUint32Size_length by lia. change (Z.of_nat (length (append_var 5 name_length))) with 1.
  rewrite wrap_small by (unfold in_u; lia).
  destruct (1 + name_length + size >? UINT32_MAX) eqn:E2; [done|]. cbn [orb].
  assert (1 + name_length + size <= UINT32_MAX) as Hp by blia.
  assert (1 + name_length + size >? UINT64_MAX = false) as -> by blia.
  rewrite varUint32Size_length by lia.
  assert (Z.of_nat (length (append_var 5 (1 + name_length + size))) <= 5) as Hv.
  { pose proof (append_var_length 5 (1 + name_length + size)). lia. }
  set (w := Z.of_nat (length (sp_bytes wasm))) in *. set (k := Z.of_nat (length (append_var 5 _))) in *.
  assert (w >? UINT64_MAX - (1 + k) = false) as -> by blia.
  rewrite wrap_small by (unfold in_u; lia).
  assert (1 + name_length + size >? UINT64_MAX - w - (1 + k) = false) as -> by blia.
  cbn [orb]. unfold appendVarUint32, manifest_section. by rewrite <-!app_assoc.
Qed.

(** C27 A manifest that was appended is the manifest that is read.  Appending succeeds exactly on a module whose
    sections parse and carry no manifest, with a manifest that is there and fits 32 bits with
    its name; it keeps the module's bytes and adds one section after them, with the sizes in their
    shortest form; reading the result gives the manifest back, and a second append is refused. *)
Theorem manifest_roundtrip wasm manifest out :
  Z.of_nat (length (sp_bytes wasm)) <= module_size_max ->
  appendManifestSection wasm manifest = Ok out <->
  (exists r, scanManifestSections wasm = Ok r /\ count r = 0%nat) /\ null_storage manifest = false /\
  1 + name_length + Z.of_nat (length (sp_bytes manifest)) <= UINT32_MAX /\
  out = sp_bytes wasm ++ manifest_section (sp_bytes manifest) /\
  readManifestSection (mkSpan false out) = Ok (sp_bytes manifest) /\
  (forall again, appendManifestSection (mkSpan false out) again
     = Err "wasm already contains a parser-module manifest section").
Proof.
  intros Hsize. rewrite append_section by done. assert (name_length = 25) as Hn by reflexivity. split.
  - destruct (scanManifestSections wasm) as [r|e] eqn:Es; [|done]. cbn [ebind].
    destruct (count r =? 0)%nat eqn:Ec; [|done]. apply Nat.eqb_eq in Ec. cbn [negb].
    destruct (null_storage manifest); [done|]. destruct (_ >? _); [done|]. destruct (_ >? _) eqn:E2; [done|].
    intros [= <-]. assert (1 + name_length + Z.of_nat (length (sp_bytes manifest)) <= UINT32_MAX) as Hfit by blia.
    pose proof (scan_appended wasm (sp_bytes manifest) r Es Hfit) as Hs. rewrite Ec in Hs.
    split_and!; [by exists r|done|done|done| |].
    + unfold readManifestSection. by rewrite Hs.
    + intros again. unfold appendManifestSection. by rewrite Hs.
  - intros ((r & -> & Hc) & -> & Hfit & -> & _). cbn [ebind]. rewrite Hc. cbn [Nat.eqb negb].
    assert (Z.of_nat (length (sp_bytes manifest)) >? UINT32_MAX = false) as -> by blia.
    by assert (1 + name_length + Z.of_nat (length (sp_bytes manifest)) >? UINT32_MAX = false) as -> by blia.
Qed.

(** A module with one empty custom section named x. *)
Definition small_module : Span := mkSpan false (kWasmPreamble ++ [z2b 0; z2b 2; z2b 1; z2b 120]).

Example manifest_roundtrip_witness :
  exists out, appendManifestSection small_module (mkSpan false (str "{}")) = Ok out /\
    readManifestSection (mkSpan false out) = Ok (str "{}").
Proof.
  eexists. split; [vm_compute; reflexivity|].
  refine (proj1 (proj2 (proj2 (proj2 (proj2 (proj1 (manifest_roundtrip small_module (mkSpan false (str "{}")) _ _) _)))))).
  - vm_compute. discriminate.
  - vm_compute. reflexivity.
Defined.
