(* ===== verification/ObjectWriter.v ===== *)
(** * ObjectWriter: what a parser module emits

    [pj_base/include/pj_base/parser_module/object_writer.hpp]: [WireWriter], the canonical wire
    format written into a [Blob] by fallible steps; [ObjectWriter] with the builders of its ten
    object types; [ScalarWriter].  [finish] makes the output descriptor of [ModuleAbi].

    A method is a function of the writer that returns its status and the writer after the call.
    A builder refers to its owner, so a call of a builder is a function of the [ObjectWriter]; the
    calls are data, so that a history is a list of them.  [alloc] says which allocations succeed:
    of that many bytes for a blob or a string, of that many elements for a vector.  The only
    exception they throw is [std::bad_alloc]. *)

From S2P Require Import Prelude ProtobufWire GeometryCodec ColorCodec PointCodecs ModuleAbi ParserCore.

(** ** WireWriter *)

Record WireWriter : Set := mkWireWriter { ww_bytes : Blob; ww_status : Status }.

Definition ww_new : WireWriter := mkWireWriter blob_empty status_ok.

(** A fallible step on a state. *)
Definition step (S : Type) : Type := S -> Status * S.
Notation wwop := (step WireWriter).

(** [if (status.isOk()) { status = g; }] after [status = f] *)
Definition and_then {S} (f g : step S) : step S := fun s =>
  let '(status, s1) := f s in if isOk status then g s1 else (status, s1).
Notation "f ?> g" := (and_then f g) (at level 60, right associativity) : pj_scope.

Definition step_ok {S} : step S := fun s => (status_ok, s).

(** [if (c && status.isOk()) { status = f; }] *)
Definition step_when {S} (c : bool) (f : step S) : step S := if c then f else step_ok.

(** The loop over [l] that stops at the first error. *)
Fixpoint each {A S} (f : A -> step S) (l : list A) : step S :=
  match l with [] => step_ok | a :: rest => f a ?> each f rest end.

(** [view()] of a blob; its contents were written. *)
Definition blob_view (b : Blob) : ByteView :=
  mkByteView (if b_capacity b =? 0 then None else Some (map (default Byte.x00) (b_data b))) (b_size b).

Definition string_view (s : bytes) : ByteView := mkByteView (Some s) (blen s).

Section Writer.
Context (alloc : Z -> bool).

Definition ww_fail (msg : bytes) : wwop := fun w =>
  let status := if isOk (ww_status w) then status_error msg else ww_status w in
  (status, mkWireWriter (ww_bytes w) status).

Definition ww_push (b : Z) : wwop := fun w =>
  let '(pushed, bytes_) := blob_push alloc (ww_bytes w) (z2b b) in
  if negb (isOk pushed) then ww_fail (ParserCore.message pushed) (mkWireWriter bytes_ (ww_status w))
  else (status_ok, mkWireWriter bytes_ (ww_status w)).

(** [do { ... } while (value != 0)]: at most ten bytes for a [uint64_t]. *)
Fixpoint ww_varint_loop (fuel : nat) (value : Z) : wwop :=
  match fuel with
  | O => step_ok
  | S fuel' =>
    let byte := Z.land value 127 in
    let value' := Z.shiftr value 7 in
    ww_push (if negb (value' =? 0) then Z.lor byte 128 else byte)
    ?> if negb (value' =? 0) then ww_varint_loop fuel' value' else step_ok
  end.

Definition ww_varint (value : Z) : wwop := fun w =>
  if negb (isOk (ww_status w)) then (ww_status w, w) else ww_varint_loop 10 value w.

Definition ww_tag (field_number wire_type : Z) : wwop :=
  if (field_number =? 0) || (field_number >? 0x1FFFFFFF) || (wire_type >? 5) || (wire_type =? 3) || (wire_type =? 4)
  then ww_fail (str "invalid canonical-wire tag")
  else ww_varint (Z.lor (Z.shiftl field_number 3) wire_type).

Definition ww_varintField (field_number value : Z) : wwop := ww_tag field_number 0 ?> ww_varint value.

(** [littleEndian]: [width] more bytes from byte [index] on. *)
Fixpoint ww_little (index width : nat) (value : Z) : wwop :=
  match width with
  | O => step_ok
  | S width' => ww_push (Z.shiftr value (8 * Z.of_nat index)) ?> ww_little (S index) width' value
  end.

Definition ww_littleEndian (value : Z) (width : nat) : wwop := ww_little 0 width value.

Definition ww_fixed32Field (field_number value : Z) : wwop := ww_tag field_number 5 ?> ww_littleEndian value 4.
Definition ww_fixed64Field (field_number value : Z) : wwop := ww_tag field_number 1 ?> ww_littleEndian value 8.
Definition ww_rawFixed64 (value : Z) : wwop := ww_littleEndian value 8.
Definition ww_doubleField (field_number bits : Z) : wwop := ww_fixed64Field field_number bits.
Definition ww_floatField (field_number bits : Z) : wwop := ww_fixed32Field field_number bits.

Definition ww_append (value : ByteView) : wwop := fun w =>
  let '(appended, bytes_) := blob_append alloc (ww_bytes w) value in
  if isOk appended then (status_ok, mkWireWriter bytes_ (ww_status w))
  else ww_fail (ParserCore.message appended) (mkWireWriter bytes_ (ww_status w)).

Definition ww_lengthDelimited (field_number : Z) (value : ByteView) : wwop :=
  ww_tag field_number 2 ?> ww_varint (bv_size value) ?> ww_append value.

Definition ww_stringField (field_number : Z) (value : bytes) : wwop := ww_lengthDelimited field_number (string_view value).

Definition ww_messageField (field_number : Z) (nested : WireWriter) : wwop :=
  if negb (isOk (ww_status nested)) then ww_fail (ParserCore.message (ww_status nested))
  else ww_lengthDelimited field_number (blob_view (ww_bytes nested)).

(** [WireWriter nested; Status status = build; return status.isOk() ? writer.messageField(field, nested) : status;] *)
Definition ww_nested (field : Z) (build : wwop) : wwop := fun w =>
  let '(status, nested) := build ww_new in
  if isOk status then ww_messageField field nested w else (status, w).

(** ** The messages shared by the object types *)

Definition kNanosPerSecond : Z := 1000000000.

Definition ow_writeTimestamp (timestamp_ns : Z) : wwop :=
  let seconds := Z.quot timestamp_ns kNanosPerSecond in
  let nanos := Z.rem timestamp_ns kNanosPerSecond in
  let '(seconds, nanos) := if nanos <? 0 then (seconds - 1, nanos + kNanosPerSecond) else (seconds, nanos) in
  ww_nested 1 (ww_varintField 1 (wrap 64 seconds) ?> ww_varintField 2 (wrap 32 nanos)).

Definition ow_writeVector2 (field : Z) (v : Vector2) : wwop :=
  ww_nested field (ww_doubleField 1 (v2_x v) ?> ww_doubleField 2 (v2_y v)).

Definition ow_writeVector3 (field : Z) (v : Vector3) : wwop :=
  ww_nested field (ww_doubleField 1 (v3_x v) ?> ww_doubleField 2 (v3_y v) ?> ww_doubleField 3 (v3_z v)).

Definition ow_writePose (field : Z) (p : Pose) : wwop :=
  ww_nested field
    (ow_writeVector3 1 (position p)
     ?> ww_nested 2 (ww_doubleField 1 (q_x (orientation p)) ?> ww_doubleField 2 (q_y (orientation p))
                     ?> ww_doubleField 3 (q_z (orientation p)) ?> ww_doubleField 4 (q_w (orientation p)))).

Definition ow_writeColor (field : Z) (c : Channels) : wwop :=
  ww_nested field (ww_doubleField 1 (ch_r c) ?> ww_doubleField 2 (ch_g c) ?> ww_doubleField 3 (ch_b c) ?> ww_doubleField 4 (ch_a c)).

Definition ow_writePointField (field_number : Z) (f : PointField) : wwop :=
  ww_nested field_number
    (ww_stringField 1 (pf_name f) ?> ww_varintField 2 (pf_offset f)
     ?> ww_varintField 3 (pointFieldDatatypeToWire (pf_datatype f)) ?> ww_varintField 4 (pf_count f)).

(** The nested writer's status is checked by the loop, not by [lengthDelimited]. *)
Definition ow_writePackedDoubles (field : Z) (values : list Z) : wwop := fun w =>
  let '(status, packed) := each ww_rawFixed64 values ww_new in
  if isOk status then ww_lengthDelimited field (blob_view (ww_bytes packed)) w else (status, w).

End Writer.

Notation ColorState := Channels.

(** ** The states of the builders

    [PointFieldState] and [PoseState] with its parts have the shape of the canonical
    types of [PointCodecs] and [GeometryCodec]. *)

Record PointCloudState : Set := mkPointCloudState {
  pcs_timestamp_ns : Z; pcs_width : Z; pcs_height : Z; pcs_point_step : Z; pcs_row_step : Z; pcs_is_bigendian : bool;
  pcs_is_dense : bool; pcs_fields : list PointField; pcs_data : Blob; pcs_frame_id : bytes }.

#[export] Instance eta_PointCloudState : Eta PointCloudState := fun s =>
  mkPointCloudState (pcs_timestamp_ns s) (pcs_width s) (pcs_height s) (pcs_point_step s) (pcs_row_step s)
  (pcs_is_bigendian s) (pcs_is_dense s) (pcs_fields s) (pcs_data s) (pcs_frame_id s).

Definition PointCloudState_default : PointCloudState :=
  mkPointCloudState 0 0 1 0 0 false true [] blob_empty [].

Record ImageState : Set := mkImageState {
  ims_timestamp_ns : Z; ims_width : Z; ims_height : Z; ims_encoding : bytes; ims_row_step : Z;
  ims_is_bigendian : bool; ims_data : Blob; ims_has_compressed_depth_min : bool; ims_compressed_depth_min : Z;
  ims_has_compressed_depth_max : bool; ims_compressed_depth_max : Z; ims_frame_id : bytes }.

#[export] Instance eta_ImageState : Eta ImageState := fun s =>
  mkImageState (ims_timestamp_ns s) (ims_width s) (ims_height s) (ims_encoding s) (ims_row_step s)
  (ims_is_bigendian s) (ims_data s) (ims_has_compressed_depth_min s) (ims_compressed_depth_min s)
  (ims_has_compressed_depth_max s) (ims_compressed_depth_max s) (ims_frame_id s).

Definition ImageState_default : ImageState :=
  mkImageState 0 0 0 [] 0 false blob_empty false 0 false 0 [].

Record DepthImageState : Set := mkDepthImageState {
  dis_timestamp_ns : Z; dis_width : Z; dis_height : Z; dis_encoding : bytes; dis_data : Blob;
  dis_intrinsics : list Z; dis_distortion_model : bytes; dis_distortion : list Z }.

#[export] Instance eta_DepthImageState : Eta DepthImageState := fun s =>
  mkDepthImageState (dis_timestamp_ns s) (dis_width s) (dis_height s) (dis_encoding s) (dis_data s)
  (dis_intrinsics s) (dis_distortion_model s) (dis_distortion s).

Definition DepthImageState_default : DepthImageState :=
  mkDepthImageState 0 0 0 [] blob_empty (replicate 9 0) [] [].

Record OccupancyGridState : Set := mkOccupancyGridState {
  ogs_timestamp_ns : Z; ogs_frame_id : bytes; ogs_origin : Pose; ogs_resolution : Z; ogs_width : Z; ogs_height : Z;
  ogs_data : Blob }.

#[export] Instance eta_OccupancyGridState : Eta OccupancyGridState := fun s =>
  mkOccupancyGridState (ogs_timestamp_ns s) (ogs_frame_id s) (ogs_origin s) (ogs_resolution s) (ogs_width s)
  (ogs_height s) (ogs_data s).

Definition OccupancyGridState_default : OccupancyGridState :=
  mkOccupancyGridState 0 [] pose_default 0 0 0 blob_empty.

Record CompressedPointCloudState : Set := mkCompressedPointCloudState {
  cps_timestamp_ns : Z; cps_frame_id : bytes; cps_format : bytes; cps_data : Blob }.

#[export] Instance eta_CompressedPointCloudState : Eta CompressedPointCloudState := fun s =>
  mkCompressedPointCloudState (cps_timestamp_ns s) (cps_frame_id s) (cps_format s) (cps_data s).

Definition CompressedPointCloudState_default : CompressedPointCloudState :=
  mkCompressedPointCloudState 0 [] [] blob_empty.

Record Mesh3DState : Set := mkMesh3DState {
  mes_timestamp_ns : Z; mes_frame_id : bytes; mes_id : bytes; mes_pose : Pose; mes_scale : Vector3;
  mes_format : bytes; mes_data : Blob; mes_url : bytes; mes_color : ColorState; mes_override_color : bool }.

#[export] Instance eta_Mesh3DState : Eta Mesh3DState := fun s =>
  mkMesh3DState (mes_timestamp_ns s) (mes_frame_id s) (mes_id s) (mes_pose s) (mes_scale s) (mes_format s)
  (mes_data s) (mes_url s) (mes_color s) (mes_override_color s).

Definition Mesh3DState_default : Mesh3DState :=
  mkMesh3DState 0 [] [] pose_default (mkVector3 double_one double_one double_one) [] blob_empty []
  (mkChannels 0 0 0 double_one) false.

Record VideoFrameState : Set := mkVideoFrameState {
  vfs_timestamp_ns : Z; vfs_frame_id : bytes; vfs_data : Blob; vfs_format : bytes }.

#[export] Instance eta_VideoFrameState : Eta VideoFrameState := fun s =>
  mkVideoFrameState (vfs_timestamp_ns s) (vfs_frame_id s) (vfs_data s) (vfs_format s).

Definition VideoFrameState_default : VideoFrameState :=
  mkVideoFrameState 0 [] blob_empty [].

Record OccupancyGridUpdateState : Set := mkOccupancyGridUpdateState {
  ous_timestamp_ns : Z; ous_frame_id : bytes; ous_x : Z; ous_y : Z; ous_width : Z; ous_height : Z; ous_data : Blob }.

#[export] Instance eta_OccupancyGridUpdateState : Eta OccupancyGridUpdateState := fun s =>
  mkOccupancyGridUpdateState (ous_timestamp_ns s) (ous_frame_id s) (ous_x s) (ous_y s) (ous_width s) (ous_height s)
  (ous_data s).

Definition OccupancyGridUpdateState_default : OccupancyGridUpdateState :=
  mkOccupancyGridUpdateState 0 [] 0 0 0 0 blob_empty.

Record VoxelGridState : Set := mkVoxelGridState {
  vgs_timestamp_ns : Z; vgs_frame_id : bytes; vgs_origin : Pose; vgs_cell_size : Vector3; vgs_column_count : Z;
  vgs_row_count : Z; vgs_slice_count : Z; vgs_cell_stride : Z; vgs_row_stride : Z; vgs_slice_stride : Z;
  vgs_fields : list PointField; vgs_data : Blob }.

#[export] Instance eta_VoxelGridState : Eta VoxelGridState := fun s =>
  mkVoxelGridState (vgs_timestamp_ns s) (vgs_frame_id s) (vgs_origin s) (vgs_cell_size s) (vgs_column_count s)
  (vgs_row_count s) (vgs_slice_count s) (vgs_cell_stride s) (vgs_row_stride s) (vgs_slice_stride s) (vgs_fields s)
  (vgs_data s).

Definition VoxelGridState_default : VoxelGridState :=
  mkVoxelGridState 0 [] pose_default vector3_default 0 0 0 0 0 0 [] blob_empty.

Record GridMapState : Set := mkGridMapState {
  gms_timestamp_ns : Z; gms_frame_id : bytes; gms_origin : Pose; gms_cell_size : Vector2; gms_column_count : Z;
  gms_row_count : Z; gms_cell_stride : Z; gms_row_stride : Z; gms_fields : list PointField; gms_data : Blob }.

#[export] Instance eta_GridMapState : Eta GridMapState := fun s =>
  mkGridMapState (gms_timestamp_ns s) (gms_frame_id s) (gms_origin s) (gms_cell_size s) (gms_column_count s)
  (gms_row_count s) (gms_cell_stride s) (gms_row_stride s) (gms_fields s) (gms_data s).

Definition GridMapState_default : GridMapState :=
  mkGridMapState 0 [] pose_default vector2_default 0 0 0 0 [] blob_empty.

Inductive Kind : Set :=
  | kNone | kPointCloud | kImage | kDepthImage | kOccupancyGrid | kCompressedPointCloud | kMesh3D | kVideoFrame
  | kOccupancyGridUpdate | kVoxelGrid | kGridMap.

#[global] Instance Kind_eq_dec : EqDecision Kind.
Proof. solve_decision. Defined.

Inductive DataSource : Set := dsNone | dsCopied | dsSpliced.

#[global] Instance DataSource_eq_dec : EqDecision DataSource.
Proof. solve_decision. Defined.

Record InputSpanRef : Set := mkInputSpanRef { ref_offset : Z; ref_length : Z }.

(** [SpliceState] is the reference, when it has a value. *)
Record ObjectWriter : Set := mkObjectWriter {
  kind_ : Kind; status_ : Status; input_payload_ : ByteView; data_source_ : DataSource;
  point_cloud_ : PointCloudState; image_ : ImageState; depth_image_ : DepthImageState;
  occupancy_grid_ : OccupancyGridState; compressed_point_cloud_ : CompressedPointCloudState; mesh3d_ : Mesh3DState;
  video_frame_ : VideoFrameState; occupancy_grid_update_ : OccupancyGridUpdateState; voxel_grid_ : VoxelGridState;
  grid_map_ : GridMapState; splice_ : option InputSpanRef }.

#[export] Instance eta_ObjectWriter : Eta ObjectWriter := fun o =>
  mkObjectWriter (kind_ o) (status_ o) (input_payload_ o) (data_source_ o) (point_cloud_ o) (image_ o)
  (depth_image_ o) (occupancy_grid_ o) (compressed_point_cloud_ o) (mesh3d_ o) (video_frame_ o)
  (occupancy_grid_update_ o) (voxel_grid_ o) (grid_map_ o) (splice_ o).

Definition ObjectWriter_new (input_payload : ByteView) : ObjectWriter :=
  mkObjectWriter kNone status_ok input_payload dsNone PointCloudState_default ImageState_default
  DepthImageState_default OccupancyGridState_default CompressedPointCloudState_default Mesh3DState_default
  VideoFrameState_default OccupancyGridUpdateState_default VoxelGridState_default GridMapState_default None.

(** ** Selection, errors and the shared setters *)

Notation ow := (step ObjectWriter).

Definition ow_fail (msg : bytes) : ow := fun o =>
  let o' := if isOk (status_ o) then o <| status_ := status_error msg |> else o in (status_ o', o').

Definition ow_select (kind : Kind) : ow := fun o =>
  if bool_decide (kind_ o <> kNone) && bool_decide (kind_ o <> kind)
  then ow_fail (str "ObjectWriter may emit only one object per parse call") o
  else let o' := o <| kind_ := kind |> in (status_ o', o').

(** An assignment to a member, which returns [owner_->status_]. *)
Definition ow_assign (put : ObjectWriter -> ObjectWriter) : ow := fun o => let o' := put o in (status_ o', o').

(** [memcpy] to the start of an allocated blob. *)
Definition blob_copy (b : Blob) (v : ByteView) : Blob :=
  mkBlob (write_cells (b_data b) 0 (map Some (view_bytes v))) (b_size b) (b_capacity b).

(** [InputSpanRef] against the payload: the subtraction does not wrap where it is evaluated. *)
Definition span_outside (r : InputSpanRef) (size : Z) : bool :=
  (ref_offset r >? size) || (ref_length r >? wrap 64 (size - ref_offset r)).

Section Builders.
Context (alloc : Z -> bool).

(** A [push_back] of vectors, and [addField] and [addDistortionCoefficient]. *)
Definition ow_add {A} (failed : string) (elements : list A) (put : list A -> ObjectWriter -> ObjectWriter) (a : A) : ow := fun o =>
  if negb (isOk (status_ o)) then (status_ o, o)
  else if alloc (Z.of_nat (S (length elements))) then (status_ok, put (elements ++ [a]) o)
  else ow_fail (str failed) o.

Definition ow_setString (put : bytes -> ObjectWriter -> ObjectWriter) (value : bytes) : ow := fun o =>
  if negb (isOk (status_ o)) then (status_ o, o)
  else if alloc (blen value) then (status_ok, put value o)
  else ow_fail (str "ObjectWriter string allocation failed") o.

Definition ow_setData (put : Blob -> ObjectWriter -> ObjectWriter) (value : ByteView) : ow := fun o =>
  if bool_decide (data_source_ o <> dsNone)
  then ow_fail (str "pj.parser.contract_violation: object bulk data source was selected more than once") o
  else
    match allocateBlob alloc (bv_size value) with
    | Failed s => ow_fail (ParserCore.message s) o
    | Value allocated =>
      if negb (bv_size value =? 0) && bool_decide (bv_data value = None)
      then ow_fail (str "ObjectWriter data source is null") o
      else
        let destination := if bv_size value =? 0 then allocated else blob_copy allocated value in
        (status_ok, put destination o <| data_source_ := dsCopied |>)
    end.

Definition ow_setDataFromInput (reference : InputSpanRef) : ow := fun o =>
  if bool_decide (data_source_ o <> dsNone)
  then ow_fail (str "pj.parser.contract_violation: object bulk data source was selected more than once") o
  else if span_outside reference (bv_size (input_payload_ o))
  then ow_fail (str "pj.parser.contract_violation: object splice range is outside the parse payload") o
  else if bool_decide (bv_data (input_payload_ o) = None) && negb (bv_size (input_payload_ o) =? 0)
  then ow_fail (str "pj.parser.contract_violation: object splice payload storage is null") o
  else (status_ok, o <| splice_ := Some reference |> <| data_source_ := dsSpliced |>).

(** ** The builders *)

Inductive PointCloudCall : Set :=
  | pcs_setTimestamp (v : Z)
  | pcs_setWidth (v : Z)
  | pcs_setHeight (v : Z)
  | pcs_setPointStep (v : Z)
  | pcs_setRowStep (v : Z)
  | pcs_setBigEndian (v : bool)
  | pcs_setDense (v : bool)
  | pcs_setFrameId (v : bytes)
  | pcs_setData (v : ByteView)
  | pcs_setDataFromInput (r : InputSpanRef)
  | pcs_addField (name : bytes) (offset : Z) (datatype : Datatype) (count : Z).

Definition PointCloudBuilder (c : PointCloudCall) : ow :=
  match c with
  | pcs_setTimestamp v => ow_assign (fun o => o <| point_cloud_ := (point_cloud_ o) <| pcs_timestamp_ns := v |> |>)
  | pcs_setWidth v => ow_assign (fun o => o <| point_cloud_ := (point_cloud_ o) <| pcs_width := v |> |>)
  | pcs_setHeight v => ow_assign (fun o => o <| point_cloud_ := (point_cloud_ o) <| pcs_height := v |> |>)
  | pcs_setPointStep v => ow_assign (fun o => o <| point_cloud_ := (point_cloud_ o) <| pcs_point_step := v |> |>)
  | pcs_setRowStep v => ow_assign (fun o => o <| point_cloud_ := (point_cloud_ o) <| pcs_row_step := v |> |>)
  | pcs_setBigEndian v => ow_assign (fun o => o <| point_cloud_ := (point_cloud_ o) <| pcs_is_bigendian := v |> |>)
  | pcs_setDense v => ow_assign (fun o => o <| point_cloud_ := (point_cloud_ o) <| pcs_is_dense := v |> |>)
  | pcs_setFrameId v => ow_setString (fun v o => o <| point_cloud_ := (point_cloud_ o) <| pcs_frame_id := v |> |>) v
  | pcs_setData v => ow_setData (fun v o => o <| point_cloud_ := (point_cloud_ o) <| pcs_data := v |> |>) v
  | pcs_setDataFromInput r => ow_setDataFromInput r
  | pcs_addField name offset datatype count => fun o =>
    ow_add "ObjectWriter point-field allocation failed" (pcs_fields (point_cloud_ o)) (fun v o => o <| point_cloud_ := (point_cloud_ o) <| pcs_fields := v |> |>)
      (mkPointField name offset datatype count) o
  end.

Inductive ImageCall : Set :=
  | ims_setTimestamp (v : Z)
  | ims_setWidth (v : Z)
  | ims_setHeight (v : Z)
  | ims_setEncoding (v : bytes)
  | ims_setRowStep (v : Z)
  | ims_setBigEndian (v : bool)
  | ims_setData (v : ByteView)
  | ims_setDataFromInput (r : InputSpanRef)
  | ims_setCompressedDepthMin (bits : Z)
  | ims_setCompressedDepthMax (bits : Z)
  | ims_setFrameId (v : bytes).

Definition ImageBuilder (c : ImageCall) : ow :=
  match c with
  | ims_setTimestamp v => ow_assign (fun o => o <| image_ := (image_ o) <| ims_timestamp_ns := v |> |>)
  | ims_setWidth v => ow_assign (fun o => o <| image_ := (image_ o) <| ims_width := v |> |>)
  | ims_setHeight v => ow_assign (fun o => o <| image_ := (image_ o) <| ims_height := v |> |>)
  | ims_setEncoding v => ow_setString (fun v o => o <| image_ := (image_ o) <| ims_encoding := v |> |>) v
  | ims_setRowStep v => ow_assign (fun o => o <| image_ := (image_ o) <| ims_row_step := v |> |>)
  | ims_setBigEndian v => ow_assign (fun o => o <| image_ := (image_ o) <| ims_is_bigendian := v |> |>)
  | ims_setData v => ow_setData (fun v o => o <| image_ := (image_ o) <| ims_data := v |> |>) v
  | ims_setDataFromInput r => ow_setDataFromInput r
  | ims_setCompressedDepthMin bits =>
    ow_assign (fun o => o <| image_ := (image_ o) <| ims_has_compressed_depth_min := true |> <| ims_compressed_depth_min := bits |> |>)
  | ims_setCompressedDepthMax bits =>
    ow_assign (fun o => o <| image_ := (image_ o) <| ims_has_compressed_depth_max := true |> <| ims_compressed_depth_max := bits |> |>)
  | ims_setFrameId v => ow_setString (fun v o => o <| image_ := (image_ o) <| ims_frame_id := v |> |>) v
  end.

Inductive DepthImageCall : Set :=
  | dis_setTimestamp (v : Z)
  | dis_setWidth (v : Z)
  | dis_setHeight (v : Z)
  | dis_setEncoding (v : bytes)
  | dis_setData (v : ByteView)
  | dis_setDataFromInput (r : InputSpanRef)
  | dis_setIntrinsics (v : list Z)
  | dis_setDistortionModel (v : bytes)
  | dis_addDistortionCoefficient (bits : Z).

Definition DepthImageBuilder (c : DepthImageCall) : ow :=
  match c with
  | dis_setTimestamp v => ow_assign (fun o => o <| depth_image_ := (depth_image_ o) <| dis_timestamp_ns := v |> |>)
  | dis_setWidth v => ow_assign (fun o => o <| depth_image_ := (depth_image_ o) <| dis_width := v |> |>)
  | dis_setHeight v => ow_assign (fun o => o <| depth_image_ := (depth_image_ o) <| dis_height := v |> |>)
  | dis_setEncoding v => ow_setString (fun v o => o <| depth_image_ := (depth_image_ o) <| dis_encoding := v |> |>) v
  | dis_setData v => ow_setData (fun v o => o <| depth_image_ := (depth_image_ o) <| dis_data := v |> |>) v
  | dis_setDataFromInput r => ow_setDataFromInput r
  | dis_setIntrinsics v => ow_assign (fun o => o <| depth_image_ := (depth_image_ o) <| dis_intrinsics := v |> |>)
  | dis_setDistortionModel v => ow_setString (fun v o => o <| depth_image_ := (depth_image_ o) <| dis_distortion_model := v |> |>) v
  | dis_addDistortionCoefficient bits => fun o =>
    ow_add "ObjectWriter distortion allocation failed" (dis_distortion (depth_image_ o)) (fun v o => o <| depth_image_ := (depth_image_ o) <| dis_distortion := v |> |>) bits o
  end.

Inductive OccupancyGridCall : Set :=
  | ogs_setTimestamp (v : Z)
  | ogs_setFrameId (v : bytes)
  | ogs_setOrigin (px py pz qx qy qz qw : Z)
  | ogs_setResolution (bits : Z)
  | ogs_setWidth (v : Z)
  | ogs_setHeight (v : Z)
  | ogs_setData (v : ByteView)
  | ogs_setDataFromInput (r : InputSpanRef).

Definition OccupancyGridBuilder (c : OccupancyGridCall) : ow :=
  match c with
  | ogs_setTimestamp v => ow_assign (fun o => o <| occupancy_grid_ := (occupancy_grid_ o) <| ogs_timestamp_ns := v |> |>)
  | ogs_setFrameId v => ow_setString (fun v o => o <| occupancy_grid_ := (occupancy_grid_ o) <| ogs_frame_id := v |> |>) v
  | ogs_setOrigin px py pz qx qy qz qw => ow_assign (fun o => o <| occupancy_grid_ := (occupancy_grid_ o) <| ogs_origin := mkPose (mkVector3 px py pz) (mkQuaternion qx qy qz qw) |> |>)
  | ogs_setResolution bits => ow_assign (fun o => o <| occupancy_grid_ := (occupancy_grid_ o) <| ogs_resolution := bits |> |>)
  | ogs_setWidth v => ow_assign (fun o => o <| occupancy_grid_ := (occupancy_grid_ o) <| ogs_width := v |> |>)
  | ogs_setHeight v => ow_assign (fun o => o <| occupancy_grid_ := (occupancy_grid_ o) <| ogs_height := v |> |>)
  | ogs_setData v => ow_setData (fun v o => o <| occupancy_grid_ := (occupancy_grid_ o) <| ogs_data := v |> |>) v
  | ogs_setDataFromInput r => ow_setDataFromInput r
  end.

Inductive CompressedPointCloudCall : Set :=
  | cps_setTimestamp (v : Z)
  | cps_setFrameId (v : bytes)
  | cps_setFormat (v : bytes)
  | cps_setData (v : ByteView)
  | cps_setDataFromInput (r : InputSpanRef).

Definition CompressedPointCloudBuilder (c : CompressedPointCloudCall) : ow :=
  match c with
  | cps_setTimestamp v => ow_assign (fun o => o <| compressed_point_cloud_ := (compressed_point_cloud_ o) <| cps_timestamp_ns := v |> |>)
  | cps_setFrameId v => ow_setString (fun v o => o <| compressed_point_cloud_ := (compressed_point_cloud_ o) <| cps_frame_id := v |> |>) v
  | cps_setFormat v => ow_setString (fun v o => o <| compressed_point_cloud_ := (compressed_point_cloud_ o) <| cps_format := v |> |>) v
  | cps_setData v => ow_setData (fun v o => o <| compressed_point_cloud_ := (compressed_point_cloud_ o) <| cps_data := v |> |>) v
  | cps_setDataFromInput r => ow_setDataFromInput r
  end.

Inductive Mesh3DCall : Set :=
  | mes_setTimestamp (v : Z)
  | mes_setFrameId (v : bytes)
  | mes_setId (v : bytes)
  | mes_setPose (px py pz qx qy qz qw : Z)
  | mes_setScale (x y z : Z)
  | mes_setFormat (v : bytes)
  | mes_setData (v : ByteView)
  | mes_setDataFromInput (r : InputSpanRef)
  | mes_setUrl (v : bytes)
  | mes_setColor (r g b a : Z)
  | mes_setOverrideColor (v : bool).

Definition Mesh3DBuilder (c : Mesh3DCall) : ow :=
  match c with
  | mes_setTimestamp v => ow_assign (fun o => o <| mesh3d_ := (mesh3d_ o) <| mes_timestamp_ns := v |> |>)
  | mes_setFrameId v => ow_setString (fun v o => o <| mesh3d_ := (mesh3d_ o) <| mes_frame_id := v |> |>) v
  | mes_setId v => ow_setString (fun v o => o <| mesh3d_ := (mesh3d_ o) <| mes_id := v |> |>) v
  | mes_setPose px py pz qx qy qz qw => ow_assign (fun o => o <| mesh3d_ := (mesh3d_ o) <| mes_pose := mkPose (mkVector3 px py pz) (mkQuaternion qx qy qz qw) |> |>)
  | mes_setScale x y z => ow_assign (fun o => o <| mesh3d_ := (mesh3d_ o) <| mes_scale := mkVector3 x y z |> |>)
  | mes_setFormat v => ow_setString (fun v o => o <| mesh3d_ := (mesh3d_ o) <| mes_format := v |> |>) v
  | mes_setData v => ow_setData (fun v o => o <| mesh3d_ := (mesh3d_ o) <| mes_data := v |> |>) v
  | mes_setDataFromInput r => ow_setDataFromInput r
  | mes_setUrl v => ow_setString (fun v o => o <| mesh3d_ := (mesh3d_ o) <| mes_url := v |> |>) v
  | mes_setColor r g b a => ow_assign (fun o => o <| mesh3d_ := (mesh3d_ o) <| mes_color := mkChannels r g b a |> |>)
  | mes_setOverrideColor v => ow_assign (fun o => o <| mesh3d_ := (mesh3d_ o) <| mes_override_color := v |> |>)
  end.

Inductive VideoFrameCall : Set :=
  | vfs_setTimestamp (v : Z)
  | vfs_setFrameId (v : bytes)
  | vfs_setData (v : ByteView)
  | vfs_setDataFromInput (r : InputSpanRef)
  | vfs_setFormat (v : bytes).

Definition VideoFrameBuilder (c : VideoFrameCall) : ow :=
  match c with
  | vfs_setTimestamp v => ow_assign (fun o => o <| video_frame_ := (video_frame_ o) <| vfs_timestamp_ns := v |> |>)
  | vfs_setFrameId v => ow_setString (fun v o => o <| video_frame_ := (video_frame_ o) <| vfs_frame_id := v |> |>) v
  | vfs_setData v => ow_setData (fun v o => o <| video_frame_ := (video_frame_ o) <| vfs_data := v |> |>) v
  | vfs_setDataFromInput r => ow_setDataFromInput r
  | vfs_setFormat v => ow_setString (fun v o => o <| video_frame_ := (video_frame_ o) <| vfs_format := v |> |>) v
  end.

Inductive OccupancyGridUpdateCall : Set :=
  | ous_setTimestamp (v : Z)
  | ous_setFrameId (v : bytes)
  | ous_setX (v : Z)
  | ous_setY (v : Z)
  | ous_setWidth (v : Z)
  | ous_setHeight (v : Z)
  | ous_setData (v : ByteView)
  | ous_setDataFromInput (r : InputSpanRef).

Definition OccupancyGridUpdateBuilder (c : OccupancyGridUpdateCall) : ow :=
  match c with
  | ous_setTimestamp v => ow_assign (fun o => o <| occupancy_grid_update_ := (occupancy_grid_update_ o) <| ous_timestamp_ns := v |> |>)
  | ous_setFrameId v => ow_setString (fun v o => o <| occupancy_grid_update_ := (occupancy_grid_update_ o) <| ous_frame_id := v |> |>) v
  | ous_setX v => ow_assign (fun o => o <| occupancy_grid_update_ := (occupancy_grid_update_ o) <| ous_x := v |> |>)
  | ous_setY v => ow_assign (fun o => o <| occupancy_grid_update_ := (occupancy_grid_update_ o) <| ous_y := v |> |>)
  | ous_setWidth v => ow_assign (fun o => o <| occupancy_grid_update_ := (occupancy_grid_update_ o) <| ous_width := v |> |>)
  | ous_setHeight v => ow_assign (fun o => o <| occupancy_grid_update_ := (occupancy_grid_update_ o) <| ous_height := v |> |>)
  | ous_setData v => ow_setData (fun v o => o <| occupancy_grid_update_ := (occupancy_grid_update_ o) <| ous_data := v |> |>) v
  | ous_setDataFromInput r => ow_setDataFromInput r
  end.

Inductive VoxelGridCall : Set :=
  | vgs_setTimestamp (v : Z)
  | vgs_setFrameId (v : bytes)
  | vgs_setOrigin (px py pz qx qy qz qw : Z)
  | vgs_setCellSize (x y z : Z)
  | vgs_setColumnCount (v : Z)
  | vgs_setRowCount (v : Z)
  | vgs_setSliceCount (v : Z)
  | vgs_setCellStride (v : Z)
  | vgs_setRowStride (v : Z)
  | vgs_setSliceStride (v : Z)
  | vgs_addField (name : bytes) (offset : Z) (datatype : Datatype) (count : Z)
  | vgs_setData (v : ByteView)
  | vgs_setDataFromInput (r : InputSpanRef).

Definition VoxelGridBuilder (c : VoxelGridCall) : ow :=
  match c with
  | vgs_setTimestamp v => ow_assign (fun o => o <| voxel_grid_ := (voxel_grid_ o) <| vgs_timestamp_ns := v |> |>)
  | vgs_setFrameId v => ow_setString (fun v o => o <| voxel_grid_ := (voxel_grid_ o) <| vgs_frame_id := v |> |>) v
  | vgs_setOrigin px py pz qx qy qz qw => ow_assign (fun o => o <| voxel_grid_ := (voxel_grid_ o) <| vgs_origin := mkPose (mkVector3 px py pz) (mkQuaternion qx qy qz qw) |> |>)
  | vgs_setCellSize x y z => ow_assign (fun o => o <| voxel_grid_ := (voxel_grid_ o) <| vgs_cell_size := mkVector3 x y z |> |>)
  | vgs_setColumnCount v => ow_assign (fun o => o <| voxel_grid_ := (voxel_grid_ o) <| vgs_column_count := v |> |>)
  | vgs_setRowCount v => ow_assign (fun o => o <| voxel_grid_ := (voxel_grid_ o) <| vgs_row_count := v |> |>)
  | vgs_setSliceCount v => ow_assign (fun o => o <| voxel_grid_ := (voxel_grid_ o) <| vgs_slice_count := v |> |>)
  | vgs_setCellStride v => ow_assign (fun o => o <| voxel_grid_ := (voxel_grid_ o) <| vgs_cell_stride := v |> |>)
  | vgs_setRowStride v => ow_assign (fun o => o <| voxel_grid_ := (voxel_grid_ o) <| vgs_row_stride := v |> |>)
  | vgs_setSliceStride v => ow_assign (fun o => o <| voxel_grid_ := (voxel_grid_ o) <| vgs_slice_stride := v |> |>)
  | vgs_addField name offset datatype count => fun o =>
    ow_add "ObjectWriter voxel-field allocation failed" (vgs_fields (voxel_grid_ o)) (fun v o => o <| voxel_grid_ := (voxel_grid_ o) <| vgs_fields := v |> |>)
      (mkPointField name offset datatype count) o
  | vgs_setData v => ow_setData (fun v o => o <| voxel_grid_ := (voxel_grid_ o) <| vgs_data := v |> |>) v
  | vgs_setDataFromInput r => ow_setDataFromInput r
  end.

Inductive GridMapCall : Set :=
  | gms_setTimestamp (v : Z)
  | gms_setFrameId (v : bytes)
  | gms_setOrigin (px py pz qx qy qz qw : Z)
  | gms_setCellSize (x y : Z)
  | gms_setColumnCount (v : Z)
  | gms_setRowCount (v : Z)
  | gms_setCellStride (v : Z)
  | gms_setRowStride (v : Z)
  | gms_addField (name : bytes) (offset : Z) (datatype : Datatype) (count : Z)
  | gms_setData (v : ByteView)
  | gms_setDataFromInput (r : InputSpanRef).

Definition GridMapBuilder (c : GridMapCall) : ow :=
  match c with
  | gms_setTimestamp v => ow_assign (fun o => o <| grid_map_ := (grid_map_ o) <| gms_timestamp_ns := v |> |>)
  | gms_setFrameId v => ow_setString (fun v o => o <| grid_map_ := (grid_map_ o) <| gms_frame_id := v |> |>) v
  | gms_setOrigin px py pz qx qy qz qw => ow_assign (fun o => o <| grid_map_ := (grid_map_ o) <| gms_origin := mkPose (mkVector3 px py pz) (mkQuaternion qx qy qz qw) |> |>)
  | gms_setCellSize x y => ow_assign (fun o => o <| grid_map_ := (grid_map_ o) <| gms_cell_size := mkVector2 x y |> |>)
  | gms_setColumnCount v => ow_assign (fun o => o <| grid_map_ := (grid_map_ o) <| gms_column_count := v |> |>)
  | gms_setRowCount v => ow_assign (fun o => o <| grid_map_ := (grid_map_ o) <| gms_row_count := v |> |>)
  | gms_setCellStride v => ow_assign (fun o => o <| grid_map_ := (grid_map_ o) <| gms_cell_stride := v |> |>)
  | gms_setRowStride v => ow_assign (fun o => o <| grid_map_ := (grid_map_ o) <| gms_row_stride := v |> |>)
  | gms_addField name offset datatype count => fun o =>
    ow_add "ObjectWriter grid-map-field allocation failed" (gms_fields (grid_map_ o)) (fun v o => o <| grid_map_ := (grid_map_ o) <| gms_fields := v |> |>)
      (mkPointField name offset datatype count) o
  | gms_setData v => ow_setData (fun v o => o <| grid_map_ := (grid_map_ o) <| gms_data := v |> |>) v
  | gms_setDataFromInput r => ow_setDataFromInput r
  end.

(** A call on a builder, or the construction of one. *)
Inductive Call : Set :=
  | Select (kind : Kind)
  | OnPointCloud (c : PointCloudCall)
  | OnImage (c : ImageCall)
  | OnDepthImage (c : DepthImageCall)
  | OnOccupancyGrid (c : OccupancyGridCall)
  | OnCompressedPointCloud (c : CompressedPointCloudCall)
  | OnMesh3D (c : Mesh3DCall)
  | OnVideoFrame (c : VideoFrameCall)
  | OnOccupancyGridUpdate (c : OccupancyGridUpdateCall)
  | OnVoxelGrid (c : VoxelGridCall)
  | OnGridMap (c : GridMapCall).

Definition ow_call (c : Call) : ow :=
  match c with
  | Select kind => ow_select kind
  | OnPointCloud c => PointCloudBuilder c
  | OnImage c => ImageBuilder c
  | OnDepthImage c => DepthImageBuilder c
  | OnOccupancyGrid c => OccupancyGridBuilder c
  | OnCompressedPointCloud c => CompressedPointCloudBuilder c
  | OnMesh3D c => Mesh3DBuilder c
  | OnVideoFrame c => VideoFrameBuilder c
  | OnOccupancyGridUpdate c => OccupancyGridUpdateBuilder c
  | OnVoxelGrid c => VoxelGridBuilder c
  | OnGridMap c => GridMapBuilder c
  end.

Definition ow_calls (l : list Call) (o : ObjectWriter) : ObjectWriter := foldl (fun o c => (ow_call c o).2) o l.

(** ** The writers of the selected object *)

Definition writePointCloud (spliced : bool) (s : PointCloudState) : wwop :=
  ow_writeTimestamp alloc (pcs_timestamp_ns s)
  ?> ww_varintField alloc 2 (pcs_width s)
  ?> ww_varintField alloc 3 (pcs_height s)
  ?> ww_varintField alloc 4 (pcs_point_step s)
  ?> ww_varintField alloc 5 (pcs_row_step s)
  ?> ww_varintField alloc 6 (if pcs_is_bigendian s then 1 else 0)
  ?> ww_varintField alloc 7 (if pcs_is_dense s then 1 else 0)
  ?> each (ow_writePointField alloc 8) (pcs_fields s)
  ?> step_when (negb spliced) (ww_lengthDelimited alloc 9 (blob_view (pcs_data s)))
  ?> ww_stringField alloc 10 (pcs_frame_id s).

Definition writeImage (spliced : bool) (s : ImageState) : wwop :=
  ow_writeTimestamp alloc (ims_timestamp_ns s)
  ?> ww_varintField alloc 2 (ims_width s)
  ?> ww_varintField alloc 3 (ims_height s)
  ?> ww_stringField alloc 4 (ims_encoding s)
  ?> ww_varintField alloc 5 (ims_row_step s)
  ?> ww_varintField alloc 6 (if ims_is_bigendian s then 1 else 0)
  ?> step_when (negb spliced) (ww_lengthDelimited alloc 7 (blob_view (ims_data s)))
  ?> step_when (ims_has_compressed_depth_min s) (ww_floatField alloc 8 (ims_compressed_depth_min s))
  ?> step_when (ims_has_compressed_depth_max s) (ww_floatField alloc 9 (ims_compressed_depth_max s))
  ?> ww_stringField alloc 10 (ims_frame_id s).

Definition writeDepthImage (spliced : bool) (s : DepthImageState) : wwop :=
  ow_writeTimestamp alloc (dis_timestamp_ns s)
  ?> ww_varintField alloc 2 (dis_width s)
  ?> ww_varintField alloc 3 (dis_height s)
  ?> ww_stringField alloc 4 (dis_encoding s)
  ?> step_when (negb spliced) (ww_lengthDelimited alloc 5 (blob_view (dis_data s)))
  ?> ow_writePackedDoubles alloc 6 (dis_intrinsics s)
  ?> ww_stringField alloc 7 (dis_distortion_model s)
  ?> ow_writePackedDoubles alloc 8 (dis_distortion s).

Definition writeOccupancyGrid (spliced : bool) (s : OccupancyGridState) : wwop :=
  ow_writeTimestamp alloc (ogs_timestamp_ns s)
  ?> ww_stringField alloc 2 (ogs_frame_id s)
  ?> ow_writePose alloc 3 (ogs_origin s)
  ?> ww_doubleField alloc 4 (ogs_resolution s)
  ?> ww_varintField alloc 5 (ogs_width s)
  ?> ww_varintField alloc 6 (ogs_height s)
  ?> step_when (negb spliced) (ww_lengthDelimited alloc 7 (blob_view (ogs_data s))).

Definition writeCompressedPointCloud (spliced : bool) (s : CompressedPointCloudState) : wwop :=
  ow_writeTimestamp alloc (cps_timestamp_ns s)
  ?> ww_stringField alloc 2 (cps_frame_id s)
  ?> ww_stringField alloc 3 (cps_format s)
  ?> step_when (negb spliced) (ww_lengthDelimited alloc 4 (blob_view (cps_data s))).

Definition writeMesh3D (spliced : bool) (s : Mesh3DState) : wwop :=
  ow_writeTimestamp alloc (mes_timestamp_ns s)
  ?> ww_stringField alloc 2 (mes_frame_id s)
  ?> ww_stringField alloc 3 (mes_id s)
  ?> ow_writePose alloc 4 (mes_pose s)
  ?> ow_writeVector3 alloc 5 (mes_scale s)
  ?> ww_stringField alloc 6 (mes_format s)
  ?> step_when (negb spliced) (ww_lengthDelimited alloc 7 (blob_view (mes_data s)))
  ?> ww_stringField alloc 8 (mes_url s)
  ?> ow_writeColor alloc 9 (mes_color s)
  ?> ww_varintField alloc 10 (if mes_override_color s then 1 else 0).

Definition writeVideoFrame (spliced : bool) (s : VideoFrameState) : wwop :=
  ow_writeTimestamp alloc (vfs_timestamp_ns s)
  ?> ww_stringField alloc 2 (vfs_frame_id s)
  ?> step_when (negb spliced) (ww_lengthDelimited alloc 3 (blob_view (vfs_data s)))
  ?> ww_stringField alloc 4 (vfs_format s).

Definition writeOccupancyGridUpdate (spliced : bool) (s : OccupancyGridUpdateState) : wwop :=
  ow_writeTimestamp alloc (ous_timestamp_ns s)
  ?> ww_stringField alloc 2 (ous_frame_id s)
  ?> ww_varintField alloc 3 (wrap 32 (ous_x s))
  ?> ww_varintField alloc 4 (wrap 32 (ous_y s))
  ?> ww_varintField alloc 5 (ous_width s)
  ?> ww_varintField alloc 6 (ous_height s)
  ?> step_when (negb spliced) (ww_lengthDelimited alloc 7 (blob_view (ous_data s))).

Definition writeVoxelGrid (spliced : bool) (s : VoxelGridState) : wwop :=
  ow_writeTimestamp alloc (vgs_timestamp_ns s)
  ?> ww_stringField alloc 2 (vgs_frame_id s)
  ?> ow_writePose alloc 3 (vgs_origin s)
  ?> ow_writeVector3 alloc 4 (vgs_cell_size s)
  ?> ww_varintField alloc 5 (vgs_column_count s)
  ?> ww_varintField alloc 6 (vgs_row_count s)
  ?> ww_varintField alloc 7 (vgs_slice_count s)
  ?> ww_varintField alloc 8 (vgs_cell_stride s)
  ?> ww_varintField alloc 9 (vgs_row_stride s)
  ?> ww_varintField alloc 10 (vgs_slice_stride s)
  ?> each (ow_writePointField alloc 11) (vgs_fields s)
  ?> step_when (negb spliced) (ww_lengthDelimited alloc 12 (blob_view (vgs_data s))).

Definition writeGridMap (spliced : bool) (s : GridMapState) : wwop :=
  ow_writeTimestamp alloc (gms_timestamp_ns s)
  ?> ww_stringField alloc 2 (gms_frame_id s)
  ?> ow_writePose alloc 3 (gms_origin s)
  ?> ow_writeVector2 alloc 4 (gms_cell_size s)
  ?> ww_varintField alloc 5 (gms_column_count s)
  ?> ww_varintField alloc 6 (gms_row_count s)
  ?> ww_varintField alloc 7 (gms_cell_stride s)
  ?> ww_varintField alloc 8 (gms_row_stride s)
  ?> each (ow_writePointField alloc 9) (gms_fields s)
  ?> step_when (negb spliced) (ww_lengthDelimited alloc 10 (blob_view (gms_data s))).

(** [return status.isOk() ? Expected<Blob>(writer.take()) : Expected<Blob>(status)] *)
Definition written (w : wwop) : PjExpected Blob :=
  let '(status, writer) := w ww_new in if isOk status then Value (ww_bytes writer) else Failed status.

Definition writeSelected (o : ObjectWriter) : PjExpected Blob :=
  let spliced := match splice_ o with Some _ => true | None => false end in
  match kind_ o with
  | kPointCloud => written (writePointCloud spliced (point_cloud_ o))
  | kImage => written (writeImage spliced (image_ o))
  | kDepthImage => written (writeDepthImage spliced (depth_image_ o))
  | kOccupancyGrid => written (writeOccupancyGrid spliced (occupancy_grid_ o))
  | kCompressedPointCloud => written (writeCompressedPointCloud spliced (compressed_point_cloud_ o))
  | kMesh3D => written (writeMesh3D spliced (mesh3d_ o))
  | kVideoFrame => written (writeVideoFrame spliced (video_frame_ o))
  | kOccupancyGridUpdate => written (writeOccupancyGridUpdate spliced (occupancy_grid_update_ o))
  | kVoxelGrid => written (writeVoxelGrid spliced (voxel_grid_ o))
  | kGridMap => written (writeGridMap spliced (grid_map_ o))
  | kNone => Failed (status_error (str "ObjectWriter has no selected object type"))
  end.

Definition selectedObjectType (kind : Kind) : Z :=
  match kind with
  | kPointCloud => 3
  | kImage => 1
  | kDepthImage => 4
  | kOccupancyGrid => 7
  | kCompressedPointCloud => 8
  | kMesh3D => 9
  | kVideoFrame => 10
  | kOccupancyGridUpdate => 15
  | kVoxelGrid => 18
  | kGridMap => 20
  | kNone => 0
  end.

Definition selectedSpliceField (kind : Kind) : Z :=
  match kind with
  | kPointCloud => 9
  | kImage => 7
  | kDepthImage => 5
  | kOccupancyGrid => 7
  | kCompressedPointCloud => 4
  | kMesh3D => 7
  | kVideoFrame => 3
  | kOccupancyGridUpdate => 7
  | kVoxelGrid => 12
  | kGridMap => 10
  | kNone => 0
  end.

(** ** Descriptors *)

Notation bop := (step Blob).

Fixpoint appendLittle_from (index width : nat) (value : Z) : bop :=
  match width with
  | O => step_ok
  | S width' => (fun b => blob_push alloc b (z2b (Z.shiftr value (8 * Z.of_nat index)))) ?> appendLittle_from (S index) width' value
  end.

Definition appendLittle (value : Z) (width : nat) : bop := appendLittle_from 0 width value.
Definition bpush (value : Z) : bop := fun b => blob_push alloc b (z2b value).
Definition bappend (v : ByteView) : bop := fun b => blob_append alloc b v.
Definition breserve (size : Z) : bop := fun b => blob_reserve alloc b size.

Definition finished (f : bop) : PjExpected Blob :=
  let '(status, b) := f blob_empty in if isOk status then Value b else Failed status.

Definition ObjectWriter_finish (o : ObjectWriter) : PjExpected Blob :=
  if negb (isOk (status_ o)) then Failed (status_ o)
  else if bool_decide (kind_ o = kNone) then Failed (status_error (str "ObjectWriter has no selected object type"))
  else
    match writeSelected o with
    | Failed s => Failed s
    | Value wire =>
      let object_type := selectedObjectType (kind_ o) in
      let splice_field := selectedSpliceField (kind_ o) in
      let when_spliced (v : InputSpanRef -> Z) := match splice_ o with Some r => v r | None => 0 end in
      finished
        (breserve (wrap 64 (40 + b_size wire))
         ?> appendLittle 1 2
         ?> bpush 2
         ?> bpush 0
         ?> appendLittle object_type 2
         ?> appendLittle (when_spliced (fun _ => 1)) 2
         ?> appendLittle (when_spliced (fun _ => splice_field)) 4
         ?> appendLittle (when_spliced ref_offset) 8
         ?> appendLittle (when_spliced ref_length) 8
         ?> appendLittle (b_size wire) 8
         ?> bappend (blob_view wire))
    end.

(** ** ScalarWriter

    The value of a field owns its string. *)

Record ScalarWriter : Set := mkScalarWriter {
  has_timestamp_ : bool; timestamp_ns_ : Z; fields_ : list ScalarFieldV1; sw_status_ : Status }.

#[export] Instance eta_ScalarWriter : Eta ScalarWriter := fun s =>
  mkScalarWriter (has_timestamp_ s) (timestamp_ns_ s) (fields_ s) (sw_status_ s).

Definition ScalarWriter_new : ScalarWriter := mkScalarWriter false 0 [] status_ok.

Definition sw_fail (msg : bytes) : step ScalarWriter := fun s =>
  let s' := if isOk (sw_status_ s) then s <| sw_status_ := status_error msg |> else s in (sw_status_ s', s').

(** [setTimestamp], and [add] for a value of each kind: a string is copied before [addValue]. *)
Inductive ScalarCall : Set :=
  | sw_setTimestamp (timestamp_ns : Z)
  | sw_add (name : bytes) (value : ScalarValueV1).

Definition sw_addValue (name : bytes) (value : ScalarValueV1) : step ScalarWriter := fun s =>
  if negb (isOk (sw_status_ s)) then (sw_status_ s, s)
  else if alloc (blen name) && alloc (Z.of_nat (S (length (fields_ s))))
  then (status_ok, s <| fields_ := fields_ s ++ [mkScalarFieldV1 name value] |>)
  else sw_fail (str "ScalarWriter allocation failed") s.

Definition sw_call (c : ScalarCall) : step ScalarWriter :=
  match c with
  | sw_setTimestamp ts => fun s => let s' := s <| has_timestamp_ := true |> <| timestamp_ns_ := ts |> in (sw_status_ s', s')
  | sw_add name (ScalarString v) =>
    if alloc (blen v) then sw_addValue name (ScalarString v) else sw_fail (str "ScalarWriter string allocation failed")
  | sw_add name value => sw_addValue name value
  end.

Definition sw_calls (l : list ScalarCall) (s : ScalarWriter) : ScalarWriter := foldl (fun s c => (sw_call c s).2) s l.

(** The first loop of [finish]: the end of the values. *)
Fixpoint sw_names_offset (names_offset : Z) (fields : list ScalarFieldV1) : PjExpected Z :=
  match fields with
  | [] => Value names_offset
  | f :: rest =>
    let value_size :=
      match sf_value f with
      | ScalarBool _ => Some 1
      | ScalarString s => if blen s >? UINT32_MAX then None else Some (4 + blen s)
      | _ => Some 8
      end in
    match value_size with
    | None => Failed (status_error (str "scalar string exceeds the descriptor length range"))
    | Some value_size =>
      if names_offset >? wrap 64 (wrap 64 (SIZE_MAX - 9) - value_size)
      then Failed (status_error (str "scalar output descriptor size overflow"))
      else sw_names_offset (wrap 64 (names_offset + (9 + value_size))) rest
    end
  end.

Fixpoint sw_total_size (total_size : Z) (fields : list ScalarFieldV1) : PjExpected Z :=
  match fields with
  | [] => Value total_size
  | f :: rest =>
    if (blen (sf_name f) >? UINT32_MAX) || (blen (sf_name f) >? wrap 64 (SIZE_MAX - total_size))
    then Failed (status_error (str "scalar field names exceed the descriptor offset range"))
    else sw_total_size (wrap 64 (total_size + blen (sf_name f))) rest
  end.

Definition sw_value (value : ScalarValueV1) : bop :=
  match value with
  | ScalarDouble bits => bpush 0 ?> appendLittle bits 8
  | ScalarInt64 v => bpush 1 ?> appendLittle (wrap 64 v) 8
  | ScalarUint64 v => bpush 2 ?> appendLittle v 8
  | ScalarBool b => bpush 3 ?> bpush (if b then 1 else 0)
  | ScalarString s => bpush 4 ?> appendLittle (blen s) 4 ?> bappend (string_view s)
  end.

(** The loop that writes the fields, with [current_name]. *)
Fixpoint sw_fields (current_name : Z) (fields : list ScalarFieldV1) : bop :=
  match fields with
  | [] => step_ok
  | f :: rest =>
    appendLittle current_name 4 ?> appendLittle (blen (sf_name f)) 4 ?> sw_value (sf_value f)
    ?> sw_fields (wrap 64 (current_name + blen (sf_name f))) rest
  end.

Definition ScalarWriter_finish (s : ScalarWriter) : PjExpected Blob :=
  if negb (isOk (sw_status_ s)) then Failed (sw_status_ s)
  else
    match sw_names_offset 24 (fields_ s) with
    | Failed e => Failed e
    | Value names_offset =>
      match sw_total_size names_offset (fields_ s) with
      | Failed e => Failed e
      | Value total_size =>
        if (total_size >? UINT32_MAX) || (Z.of_nat (length (fields_ s)) >? UINT32_MAX)
        then Failed (status_error (str "scalar output descriptor exceeds the v1 offset range"))
        else
          finished
            (breserve total_size
             ?> appendLittle 1 2
             ?> bpush 1
             ?> bpush 0
             ?> bpush (if has_timestamp_ s then 1 else 0)
             ?> each bpush (replicate 7 0)
             ?> appendLittle (wrap 64 (timestamp_ns_ s)) 8
             ?> appendLittle (Z.of_nat (length (fields_ s))) 4
             ?> sw_fields names_offset (fields_ s)
             ?> each (fun f => bappend (string_view (sf_name f))) (fields_ s))
      end
    end.
End Builders.
