(* ===== verification/ObjectWriterProofs.v ===== *)
(** * ObjectWriterProofs: the object writer implements the canonical wire format

    A step of a [WireWriter] appends the bytes of a [wop] of [ProtobufWire], unless an
    allocation fails or the bytes are half the address space; so do the writers of the ten
    object types, whose bytes the decoders of the canonical types read back. *)

From S2P Require Import Prelude TimeMath ProtobufWire FieldLoop GeometryCodec ColorCodec MessageCodecs SensorCodecs PointCodecs SceneCodecs ModuleAbi ParserCore ObjectWriter.

Section Writes.
Context (alloc : Z -> bool).

Definition starved (l : bytes) : Prop := (exists n, alloc n = false) \/ 2 ^ 63 <= blen l.

Lemma starved_app l k : starved l -> starved (l ++ k).
Proof. intros [H|H]; [by left|right]. rewrite blen_app. unfold blen in *. lia. Qed.

Lemma starved_app_r l k : starved k -> starved (l ++ k).
Proof. intros [H|H]; [by left|right]. rewrite blen_app. unfold blen in *. lia. Qed.

Definition ww_holds (x : WireWriter) (l : bytes) : Prop := ww_status x = status_ok /\ blob_holds (ww_bytes x) l.

Lemma ww_new_holds : ww_holds ww_new [].
Proof. split; [done|]. by vm_compute. Qed.

(** What a step promises: its bytes and success, or an error and the reason for it. *)
Definition outcome {S} (holds : S -> bytes -> Prop) (l : bytes) (r : Status * S) : Prop :=
  (r.1 = status_ok /\ holds r.2 l) \/ (isOk r.1 = false /\ starved l).

Class Writes (f : step WireWriter) (w : wop) : Prop :=
  writes x l : ww_holds x l -> outcome ww_holds (w l) (f x).

Lemma outcome_then {S} (holds : S -> bytes -> Prop) (f g : step S) (w1 w2 : wop) `{!Appends w2} x l :
  outcome holds (w1 l) (f x) -> (forall y, holds y (w1 l) -> outcome holds (w2 (w1 l)) (g y)) ->
  outcome holds (w2 (w1 l)) ((f ?> g) x).
Proof.
  intros [[Hs Hh]|[Hs Hd]] Hg; unfold and_then; destruct (f x) as [status y]; cbn [fst snd] in *.
  - rewrite Hs. by apply Hg.
  - rewrite Hs. right. cbn [fst]. split; [done|]. rewrite (appends (w := w2)). by apply starved_app.
Qed.

#[export] Instance writes_then f g w1 w2 `{!Appends w2} `{!Writes f w1} `{!Writes g w2} : Writes (f ?> g) (w1 ;> w2).
Proof. intros x l Hx. apply (outcome_then ww_holds f g w1 w2); [by apply writes|intros; by apply writes]. Qed.

#[export] Instance writes_ok : Writes step_ok wskip.
Proof. intros x l Hx. by left. Qed.

(** A conditional step writes under the same condition. *)
Definition wwhen (c : bool) (w : wop) : wop := if c then w else wskip.

#[export] Instance appends_when c w `{!Appends w} : Appends (wwhen c w).
Proof. destruct c; apply _. Qed.

#[export] Instance writes_when c f w `{!Writes f w} : Writes (step_when c f) (wwhen c w).
Proof. destruct c; [exact _|apply writes_ok]. Qed.

Lemma writes_each {A} (f : A -> step WireWriter) (w : A -> wop) (l : list A) `{!forall a, Appends (w a)} :
  Forall (fun a => Writes (f a) (w a)) l -> Writes (each f l) (appendAll w l).
Proof.
  induction 1 as [|a k Ha Hk IH]; intros x out Hx; [by left|].
  change (each f (a :: k)) with (f a ?> each f k). change (appendAll w (a :: k) out) with (appendAll w k (w a out)).
  apply (outcome_then ww_holds (f a) (each f k) (w a) (appendAll w k)); [by apply Ha|intros y Hy; by apply IH].
Qed.

Lemma ww_fail_outcome msg x l : ww_status x = status_ok -> starved l -> outcome ww_holds l (ww_fail msg x).
Proof. intros Hs Hd. right. unfold ww_fail. by rewrite Hs. Qed.

#[export] Instance writes_push b : Writes (ww_push alloc b) (push_back b).
Proof.
  intros x l [Hs Hb]. unfold ww_push, push_back.
  destruct (blob_push_refines alloc _ l (z2b b) Hb) as [(b' & -> & Hb')|(e & -> & Hd)]; cbn [isOk code status_ok negb].
  - left. split; [done|]. by split.
  - by apply ww_fail_outcome.
Qed.

#[export] Instance writes_append v : byte_view_wf v -> Writes (ww_append alloc v) (insert_end (view_bytes v)).
Proof.
  intros Hv x l [Hs Hb]. unfold ww_append, insert_end.
  destruct (blob_append_refines alloc _ l v Hb Hv) as [(b' & -> & Hb')|(e & -> & Hd)]; cbn [isOk code status_ok].
  - left. split; [done|]. by split.
  - by apply ww_fail_outcome.
Qed.

(** ** Integers and tags *)

Lemma push_land v : push_back (Z.land v 127) = push_back (v mod 128).
Proof. unfold push_back. by rewrite land_127. Qed.

Lemma writes_varint_loop n v : 0 <= v -> Writes (ww_varint_loop alloc n v) (appendVarint_loop n v).
Proof.
  revert v. induction n as [|n IH]; intros v Hv; [exact writes_ok|]. cbn [ww_varint_loop]. rewrite shiftr_7. intros x l Hx.
  cbn [appendVarint_loop]. rewrite shiftr_7.
  assert (v / 128 =? 0 = negb (v >=? 128)) as ->.
  { rewrite Z.geb_leb. destruct (128 <=? v) eqn:E; bprop; cbn [negb].
    - apply Z.eqb_neq. pose proof (Z.div_le_lower_bound v 128 1). lia.
    - apply Z.div_small. lia. }
  destruct (v >=? 128) eqn:E; cbn [negb].
  - pose proof (IH (v / 128) ltac:(apply Z.div_pos; lia)) as Hn.
    apply (outcome_then ww_holds _ _ (push_back (Z.lor (Z.land v 127) 128)) (appendVarint_loop n (v / 128))); [by apply writes_push|].
    intros y Hy. by apply Hn.
  - assert (push_back v = push_back (Z.land v 127)) as ->.
    { rewrite push_land, Z.mod_small by blia. done. }
    apply (outcome_then ww_holds _ _ (push_back (Z.land v 127)) wskip); [by apply writes_push|]. intros y Hy. by apply writes_ok.
Qed.

Lemma writes_varint v : 0 <= v -> Writes (ww_varint alloc v) (appendVarint v).
Proof.
  intros Hv x l Hx. unfold ww_varint. rewrite (proj1 Hx). cbn [isOk code status_ok negb]. by apply writes_varint_loop.
Qed.

Lemma writes_tag f t : field_ok f -> wire_ok t = true -> Writes (ww_tag alloc f (wire_raw t)) (wtag f t).
Proof.
  unfold field_ok. change (2 ^ 29) with 536870912. intros Hf Ht. unfold ww_tag, wtag.
  destruct (f =? 0) eqn:E1; [blia|]. destruct (f >? 0x1FFFFFFF) eqn:E2; [blia|]. cbn [orb].
  assert ((wire_raw t >? 5) || (wire_raw t =? 3) || (wire_raw t =? 4) = false) as ->.
  { destruct t; try done. }
  apply writes_varint. apply Z.lor_nonneg. pose proof (wire_raw_range t Ht). split; [apply Z.shiftl_nonneg; lia|lia].
Qed.
Lemma push_low v : push_back (Z.land v 255) = push_back v.
Proof. unfold push_back. change 255 with (Z.ones 8). rewrite Z.land_ones, z2b_mod by lia. done. Qed.

Lemma writes_little i n v : Writes (ww_little alloc i n v) (appendFixed_from i n v).
Proof.
  revert i. induction n as [|n IH]; intros i x l Hx; [by apply writes_ok|]. cbn [ww_little appendFixed_from].
  rewrite push_low.
  apply (outcome_then ww_holds _ _ (push_back (Z.shiftr v (8 * Z.of_nat i))) (appendFixed_from (S i) n v)); [by apply writes_push|].
  intros y Hy. by apply IH.
Qed.

Lemma writes_fixed64 v : Writes (ww_littleEndian alloc v 8) (appendFixed64 v).
Proof. apply writes_little. Qed.
Lemma writes_fixed32 v : Writes (ww_littleEndian alloc v 4) (appendFixed32 v).
Proof. apply writes_little. Qed.

(** ** Fields *)

Lemma writes_varintField f v : field_ok f -> 0 <= v -> Writes (ww_varintField alloc f v) (varint f v).
Proof. intros Hf Hv. apply writes_then; [apply _|by apply (writes_tag f kVarint)|by apply writes_varint]. Qed.

Lemma writes_doubleField f v : field_ok f -> Writes (ww_doubleField alloc f v) (doubleField f v).
Proof. intros Hf. apply writes_then; [apply _|by apply (writes_tag f kFixed64)|apply writes_fixed64]. Qed.

Lemma writes_floatField f v : field_ok f -> Writes (ww_floatField alloc f v) (floatField f v).
Proof. intros Hf. apply writes_then; [apply _|by apply (writes_tag f kFixed32)|apply writes_fixed32]. Qed.

Lemma writes_lengthDelimited f v :
  field_ok f -> byte_view_wf v -> Writes (ww_lengthDelimited alloc f v) (wbytes f (view_bytes v)).
Proof.
  intros Hf Hv. apply writes_then; [apply _|by apply (writes_tag f kLengthDelimited)|].
  rewrite (view_bytes_length v Hv).
  apply writes_then; [apply _|apply writes_varint|by apply writes_append]. destruct Hv as [[? ?] _]. lia.
Qed.

Lemma string_view_wf s : blen s < 2 ^ 64 -> byte_view_wf (string_view s).
Proof. intros H. split; [unfold in_u; cbn [string_view bv_size]; unfold blen in *; lia|apply Z.le_refl]. Qed.

Lemma string_view_bytes s : view_bytes (string_view s) = s.
Proof. unfold view_bytes, string_view, blen. cbn [bv_data bv_size]. rewrite Nat2Z.id. apply firstn_all. Qed.

Lemma writes_stringField f s : field_ok f -> blen s < 2 ^ 64 -> Writes (ww_stringField alloc f s) (wstring f s).
Proof.
  intros Hf Hs. unfold ww_stringField, wstring. rewrite <-(string_view_bytes s) at 2.
  apply writes_lengthDelimited; [done|by apply string_view_wf].
Qed.

(** A blob's contents, seen through its view. *)
Lemma blob_view_holds b l : blob_holds b l -> byte_view_wf (blob_view b) /\ view_bytes (blob_view b) = l.
Proof.
  intros (Hs & Hc & Hle & Hmax & Ht). unfold blob_view, byte_view_wf, view_bytes. cbn [bv_data bv_size].
  rewrite Hs, Nat2Z.id. destruct (b_capacity b =? 0) eqn:E; bprop.
  - destruct l; [|cbn [length] in *; lia]. split; [|done]. split; [by compute|done].
  - split; [split|].
    + unfold in_u. change (2 ^ 64) with 18446744073709551616. lia.
    + rewrite length_map. unfold cell in *. lia.
    + rewrite firstn_map. unfold cell in *. rewrite Ht, map_map. apply map_id.
Qed.

(** [memcpy] over the contents of a blob. *)
Lemma blob_copy_holds b v l :
  blob_holds b l -> byte_view_wf v -> length l = length (view_bytes v) -> blob_holds (blob_copy b v) (view_bytes v).
Proof.
  unfold blob_copy, blob_holds, cell. intros (Hs & Hc & Hle & Hmax & Ht) Hv Hl. cbn [b_data b_size b_capacity].
  assert (length (map Some (view_bytes v)) = length (view_bytes v)) as Hm by apply length_map.
  assert (0 + length (map Some (view_bytes v)) <= length (b_data b))%nat as Hw by (unfold cell in *; lia).
  pose proof (length_write_cells _ 0 _ Hw) as Hlw. unfold cell in *. rewrite Hlw. split_and!; try (unfold cell in *; lia).
  pose proof (take_write_cells (b_data b) 0 (map Some (view_bytes v)) ltac:(cbn; lia)) as Htk. cbn [Z.to_nat Nat.add take app] in Htk.
  unfold cell in *. by rewrite Hm in Htk.
Qed.

Lemma writes_view f b l : field_ok f -> blob_holds b l -> Writes (ww_lengthDelimited alloc f (blob_view b)) (wbytes f l).
Proof.
  intros Hf Hb. destruct (blob_view_holds b l Hb) as [Hw Hv]. rewrite <-Hv. by apply writes_lengthDelimited.
Qed.

Lemma writes_nested f build w : field_ok f -> Writes build w -> Writes (ww_nested alloc f build) (ProtobufWire.message f w).
Proof.
  intros Hf Hw x l Hx. unfold ww_nested, ProtobufWire.message. destruct (Hw ww_new [] ww_new_holds) as [[Hs [Hok Hb]]|[Hs Hd]];
    destruct (build ww_new) as [status nested]; cbn [fst snd] in *.
  - rewrite Hs. cbn [isOk code status_ok]. unfold ww_messageField. rewrite Hok. cbn [isOk code status_ok negb].
    by apply writes_view.
  - rewrite Hs. right. split; [done|]. rewrite wbytes_bytes || idtac. rewrite (appends (w := wbytes f (w []))).
    apply starved_app_r. unfold wbytes. rewrite !wseq_bytes by apply _. by do 2 apply starved_app_r.
Qed.

(** ** Shared messages *)

Ltac solve_field := unfold field_ok; change (2 ^ 29) with 536870912; lia.

Ltac solve_written :=
  lazymatch goal with
  | |- Writes (_ ?> _) _ => apply writes_then; [apply _|solve_written|solve_written]
  | |- Writes (step_when _ _) _ => apply writes_when; solve_written
  | |- Writes (ww_nested _ _ _) _ => apply writes_nested; [solve_field|solve_written]
  | |- Writes (ww_varintField _ _ _) _ => apply writes_varintField; [solve_field|]
  | |- Writes (ww_doubleField _ _ _) _ => apply writes_doubleField; solve_field
  | |- Writes (ww_floatField _ _ _) _ => apply writes_floatField; solve_field
  | |- Writes (ww_stringField _ _ _) _ => apply writes_stringField; [solve_field|try assumption]
  | |- Writes (ww_lengthDelimited _ _ (blob_view _)) _ => apply writes_view; [solve_field|try eassumption]
  | |- _ => idtac
  end.

Lemma writes_timestamp t : in_s 64 t -> Writes (ow_writeTimestamp alloc t) (ProtobufWire.message 1 (writeTimestamp t)).
Proof.
  intros Ht. unfold ow_writeTimestamp, writeTimestamp, splitTimestamp.
  change kNanosecondsPerSecond with kNanosPerSecond. unfold in_s in Ht.
  pose proof (Z.rem_bound_abs t kNanosPerSecond ltac:(done)) as Hr. unfold kNanosPerSecond in *.
  assert (to_signed 32 (Z.rem t 1000000000) = Z.rem t 1000000000) as ->.
  { rewrite <-(to_signed_wrap 32 (Z.rem t 1000000000)) at 2; [|done|unfold in_s; lia].
    unfold to_signed. by rewrite wrap_wrap. }
  destruct (_ <? 0); cbn [seconds nanos]; solve_written; apply wrap_range; lia.
Qed.

Lemma writes_vector2 f v : field_ok f -> Writes (ow_writeVector2 alloc f v) (ProtobufWire.message f (writeVector2 v)).
Proof. intros. apply writes_nested; [done|]. unfold writeVector2. solve_written. Qed.

Lemma writes_vector3 f v : field_ok f -> Writes (ow_writeVector3 alloc f v) (ProtobufWire.message f (writeVector3 v)).
Proof. intros. apply writes_nested; [done|]. unfold writeVector3. solve_written. Qed.

Lemma writes_pose f p : field_ok f -> Writes (ow_writePose alloc f p) (ProtobufWire.message f (writePose p)).
Proof.
  intros. apply writes_nested; [done|]. unfold writePose, writeQuaternion.
  apply writes_then; [apply _|apply writes_vector3; solve_field|]. solve_written.
Qed.

Definition writeChannels (c : Channels) : wop :=
  doubleField 1 (ch_r c) ;> doubleField 2 (ch_g c) ;> doubleField 3 (ch_b c) ;> doubleField 4 (ch_a c).

Lemma writes_color f c : field_ok f -> Writes (ow_writeColor alloc f c) (ProtobufWire.message f (writeChannels c)).
Proof. intros. apply writes_nested; [done|]. unfold writeChannels. solve_written. Qed.

Definition point_fields_wf (fields : list PointField) : Prop := Forall (fun f => point_field_wf f /\ blen (pf_name f) < 2 ^ 64) fields.

Lemma writes_point_fields f fields :
  field_ok f -> point_fields_wf fields ->
  Writes (each (ow_writePointField alloc f) fields) (appendAll (fun field => ProtobufWire.message f (writePointField field)) fields).
Proof.
  intros Hf Hwf. apply writes_each; [intros; apply _|]. induction Hwf as [|pf l [[[Ho _] [Hc _]] Hn] Hl IH]; constructor; [|done].
  apply writes_nested; [done|]. unfold writePointField. solve_written; try done. by destruct (pf_datatype pf).
Qed.

Definition packedBytes (field : Z) (values : list Z) : wop := wbytes field (appendAll appendFixed64 values []).

Lemma writes_packed f values : field_ok f -> Writes (ow_writePackedDoubles alloc f values) (packedBytes f values).
Proof.
  intros Hf x l Hx. unfold ow_writePackedDoubles, packedBytes.
  assert (Writes (each (ww_rawFixed64 alloc) values) (appendAll appendFixed64 values)) as Hw.
  { apply writes_each; [apply _|]. apply Forall_true. intros. apply writes_fixed64. }
  destruct (Hw ww_new [] ww_new_holds) as [[Hs [Hok Hb]]|[Hs Hd]]; destruct (each _ _ _) as [status packed]; cbn [fst snd] in *.
  - rewrite Hs. cbn [isOk code status_ok]. by apply writes_view.
  - rewrite Hs. right. split; [done|]. rewrite (appends (w := wbytes f _)). apply starved_app_r.
    unfold wbytes. rewrite !wseq_bytes by apply _. by do 2 apply starved_app_r.
Qed.
End Writes.
