(* ===== verification/ObjectWire.v ===== *)
(** * ObjectWire: the wire of each object type

    For every object type of [ObjectWriter]: the bytes its writer writes ([wire_X]), with the bulk
    field or, for a splice, without it; the canonical object they stand for ([as_X]); and that the
    decoder of the canonical type reads that object back. *)

From S2P Require Import Prelude TimeMath ProtobufWire FieldLoop GeometryCodec ColorCodec MessageCodecs SensorCodecs PointCodecs SceneCodecs ModuleAbi ParserCore ObjectWriter ObjectWriterProofs.

Notation wmessage := ProtobufWire.message.

Definition blob_bytes (b : Blob) : bytes := view_bytes (blob_view b).

(** Every byte of the blob was written. *)
Definition blob_ok (b : Blob) : Prop := blob_holds b (blob_bytes b).

Lemma blob_ok_holds b l : blob_holds b l -> blob_ok b /\ blob_bytes b = l.
Proof. intros H. unfold blob_ok, blob_bytes. by rewrite (proj2 (blob_view_holds b l H)). Qed.

Lemma blob_empty_ok : blob_ok blob_empty.
Proof. by apply (blob_ok_holds _ []). Qed.

Definition channels_wf (c : Channels) : Prop := in_u 64 (ch_r c) /\ in_u 64 (ch_g c) /\ in_u 64 (ch_b c) /\ in_u 64 (ch_a c).

(** The bulk data as the decoder sees it. *)
Definition bulk (spliced : bool) (b : Blob) : bytes := if spliced then [] else blob_bytes b.

(** A colour written as four doubles. *)
Lemma decodeColor_written c0 c : channels_wf c -> fits (writeChannels c []) -> decodeColor c0 (writeChannels c []) = (true, to_color c, []).
Proof.
  intros (Hr & Hg & Hb & Ha) Hf. unfold decodeColor.
  rewrite (encodes_done color_handler _ _ c); [done| |done]. unfold writeChannels. destruct c. cbn in *. solve_writes.
Qed.

Section encodes.
Context {St : Type} (h : handler St) `{!Consumes h}.

Lemma encodes_channels get set f c s :
  field_ok f -> channels_wf c -> (forall r, h (mkTag f kLengthDelimited) s r = read_nested decodeColor get set s r) ->
  encodes h (wmessage f (writeChannels c)) s (set (to_color c) s).
Proof.
  intros Hf Hc Hh. apply encodes_wbytes; [done|done|]. intros Hfit rest. rewrite Hh.
  eapply read_nested_written; [done|]. by apply decodeColor_written.
Qed.

(** Packed doubles, the empty list included: a field of no bytes. *)
Lemma encodes_packedBytes get set f vs s :
  field_ok f -> Forall (in_u 64) vs -> (forall r, h (mkTag f kLengthDelimited) s r = read_packed readPackedDouble get set s r) ->
  encodes h (packedBytes f vs) s (set (get s ++ vs) s).
Proof.
  intros Hf Hvs Hh. apply encodes_wbytes; [done|done|]. intros Hfit rest. rewrite Hh.
  unfold read_packed, readPackedDouble. pose proof (length_appendAll_fixed 8 vs Hvs) as Hl.
  change (appendFixed_from 0 8) with appendFixed64 in Hl. rewrite Hl, Nat2Z.inj_mul.
  by rewrite (readPacked_written 8) by (done || lia).
Qed.

Lemma encodes_packedArrayBytes N get set f vs s :
  field_ok f -> Forall (in_u 64) vs -> length vs = N ->
  (forall r, h (mkTag f kLengthDelimited) s r = read_packed (readPackedDoubleArray N) get set s r) ->
  encodes h (packedBytes f vs) s (set vs s).
Proof.
  intros Hf Hvs <- Hh. apply encodes_wbytes; [done|done|]. intros Hfit rest. rewrite Hh.
  pose proof (length_appendAll_fixed 8 vs Hvs) as Hl. change (appendFixed_from 0 8) with appendFixed64 in Hl.
  rewrite Hl, Nat2Z.inj_mul. unfold read_packed. by rewrite readPackedDoubleArray_written by done.
Qed.
End encodes.

#[export] Instance appends_channels c : Appends (writeChannels c).
Proof. unfold writeChannels. apply _. Qed.
#[export] Instance appends_packedBytes f vs : Appends (packedBytes f vs).
Proof. unfold packedBytes. apply _. Qed.

Lemma u32_nonneg z : in_u 32 z -> 0 <= z. Proof. intros [? ?]. done. Qed.
Lemma bool_nonneg (b : bool) : 0 <= (if b then 1 else 0). Proof. by destruct b. Qed.

(** A field of a writer; what remains are integers that are not negative. *)
Ltac solve_wire :=
  lazymatch goal with
  | |- Writes _ (_ ?> _) _ => apply writes_then; [apply _|solve_wire|solve_wire]
  | |- Writes _ (step_when _ _) _ => apply writes_when; solve_wire
  | |- Writes _ (ow_writeTimestamp _ _) _ => apply writes_timestamp; assumption
  | |- Writes _ (ow_writePose _ _ _) _ => apply writes_pose; solve_field_ok
  | |- Writes _ (ow_writeVector3 _ _ _) _ => apply writes_vector3; solve_field_ok
  | |- Writes _ (ow_writeVector2 _ _ _) _ => apply writes_vector2; solve_field_ok
  | |- Writes _ (ow_writeColor _ _ _) _ => apply writes_color; solve_field_ok
  | |- Writes _ (ow_writePackedDoubles _ _ _) _ => apply writes_packed; solve_field_ok
  | |- Writes _ (each (ow_writePointField _ _) _) _ => apply writes_point_fields; [solve_field_ok|assumption]
  | |- Writes _ (ww_varintField _ _ _) _ =>
    apply writes_varintField; [solve_field_ok|first [by apply u32_nonneg|apply bool_nonneg|apply wrap_range; lia]]
  | |- Writes _ (ww_doubleField _ _ _) _ => apply writes_doubleField; solve_field_ok
  | |- Writes _ (ww_floatField _ _ _) _ => apply writes_floatField; solve_field_ok
  | |- Writes _ (ww_stringField _ _ _) _ => apply writes_stringField; [solve_field_ok|assumption]
  | |- Writes _ (ww_lengthDelimited _ _ (blob_view _)) _ => apply writes_view; [solve_field_ok|assumption]
  end.

Ltac encodes_wire :=
  lazymatch goal with
  | |- encodes _ (packedBytes _ _) _ _ =>
    first
      [ eapply encodes_packedArrayBytes; [apply _|solve_field_ok|done|eassumption|intros; eval_tag; reflexivity]
      | eapply encodes_packedBytes; [apply _|solve_field_ok|done|intros; eval_tag; reflexivity] ]
  | |- encodes _ (wmessage _ (writeChannels _)) _ _ =>
    eapply encodes_channels; [apply _|solve_field_ok|done|intros; eval_tag; reflexivity]
  | |- _ => encodes_write
  end.

Ltac solve_encodes_wire :=
  lazymatch goal with
  | |- encodes _ (_ ;> _) _ _ =>
    eapply encodes_seq; [apply _|eapply encodes_eq; [encodes_wire|cbn; reflexivity]|solve_encodes_wire]
  | |- encodes _ _ _ _ => eapply encodes_eq; [encodes_wire|]
  end.

Lemma point_fields_fields fields : point_fields_wf fields -> Forall point_field_wf fields.
Proof. intros H. eapply Forall_impl; [exact H|]. by intros ? [? _]. Qed.

Ltac split_wf := intros; repeat match goal with H : _ /\ _ |- _ => destruct H end.
Ltac finish_wire :=
  cbn; rewrite ?bool_roundtrip; rewrite ?to_signed_wrap by (done || lia); rewrite ?wrap_small by done; reflexivity.

(** ** PointCloud *)

Definition pcs_wf (s : PointCloudState) : Prop :=
  in_s 64 (pcs_timestamp_ns s) /\ in_u 32 (pcs_width s) /\ in_u 32 (pcs_height s) /\ in_u 32 (pcs_point_step s) /\
  in_u 32 (pcs_row_step s) /\ point_fields_wf (pcs_fields s) /\ blob_ok (pcs_data s) /\
  blen (pcs_frame_id s) < 2 ^ 64.

Definition as_PointCloud (spliced : bool) (s : PointCloudState) : PointCloud :=
  mkPointCloud (pcs_width s) (pcs_height s) (pcs_point_step s) (pcs_row_step s) (pcs_is_bigendian s) (pcs_is_dense s)
  (pcs_frame_id s) (pcs_fields s) (bulk spliced (pcs_data s)) (pcs_timestamp_ns s).

Definition wire_PointCloud (spliced : bool) (s : PointCloudState) : wop :=
  wmessage 1 (writeTimestamp (pcs_timestamp_ns s))
  ;> varint 2 (pcs_width s)
  ;> varint 3 (pcs_height s)
  ;> varint 4 (pcs_point_step s)
  ;> varint 5 (pcs_row_step s)
  ;> varint 6 (if pcs_is_bigendian s then 1 else 0)
  ;> varint 7 (if pcs_is_dense s then 1 else 0)
  ;> appendAll (fun field => wmessage 8 (writePointField field)) (pcs_fields s)
  ;> wwhen (negb spliced) (wbytes 9 (blob_bytes (pcs_data s)))
  ;> wstring 10 (pcs_frame_id s).

Lemma writes_PointCloud alloc spliced s : pcs_wf s -> Writes alloc (writePointCloud alloc spliced s) (wire_PointCloud spliced s).
Proof. unfold pcs_wf. split_wf. unfold writePointCloud, wire_PointCloud. solve_wire. Qed.

Lemma encodes_wire_PointCloud spliced s : pcs_wf s -> encodes point_cloud_handler (wire_PointCloud spliced s) point_cloud_default (as_PointCloud spliced s).
Proof.
  unfold pcs_wf. destruct s as [t w h ps rs be dn fs d fr]; split_wf; destruct spliced; cbn in *;
    repeat match goal with H : point_fields_wf _ |- _ => apply point_fields_fields in H end;
    unfold wire_PointCloud, as_PointCloud, bulk, wwhen; cbn [negb pcs_timestamp_ns pcs_width pcs_height pcs_point_step pcs_row_step pcs_is_bigendian pcs_is_dense pcs_fields pcs_data pcs_frame_id]; cbv beta iota; encodes_before_points;
    encodes_points (fun k => mkPointCloud (wrap 32 w) (wrap 32 h) (wrap 32 ps) (wrap 32 rs)
      (negb ((if be then 1 else 0) =? 0)) (negb ((if dn then 1 else 0) =? 0)) [] k [] t);
    solve_encodes_wire; finish_wire.
Qed.

(** ** Image *)

Definition ims_wf (s : ImageState) : Prop :=
  in_s 64 (ims_timestamp_ns s) /\ in_u 32 (ims_width s) /\ in_u 32 (ims_height s) /\
  blen (ims_encoding s) < 2 ^ 64 /\ in_u 32 (ims_row_step s) /\ blob_ok (ims_data s) /\
  in_u 32 (ims_compressed_depth_min s) /\ in_u 32 (ims_compressed_depth_max s) /\ blen (ims_frame_id s) < 2 ^ 64.

Definition as_Image (spliced : bool) (s : ImageState) : Image :=
  mkImage (ims_width s) (ims_height s) (ims_encoding s) (ims_row_step s) (ims_is_bigendian s)
  (bulk spliced (ims_data s)) (if ims_has_compressed_depth_min s then Some (ims_compressed_depth_min s) else None)
  (if ims_has_compressed_depth_max s then Some (ims_compressed_depth_max s) else None) (ims_timestamp_ns s)
  (ims_frame_id s).

Definition wire_Image (spliced : bool) (s : ImageState) : wop :=
  wmessage 1 (writeTimestamp (ims_timestamp_ns s))
  ;> varint 2 (ims_width s)
  ;> varint 3 (ims_height s)
  ;> wstring 4 (ims_encoding s)
  ;> varint 5 (ims_row_step s)
  ;> varint 6 (if ims_is_bigendian s then 1 else 0)
  ;> wwhen (negb spliced) (wbytes 7 (blob_bytes (ims_data s)))
  ;> wwhen (ims_has_compressed_depth_min s) (floatField 8 (ims_compressed_depth_min s))
  ;> wwhen (ims_has_compressed_depth_max s) (floatField 9 (ims_compressed_depth_max s))
  ;> wstring 10 (ims_frame_id s).

Lemma writes_Image alloc spliced s : ims_wf s -> Writes alloc (writeImage alloc spliced s) (wire_Image spliced s).
Proof. unfold ims_wf. split_wf. unfold writeImage, wire_Image. solve_wire. Qed.

Lemma encodes_wire_Image spliced s : ims_wf s -> encodes image_handler (wire_Image spliced s) image_default (as_Image spliced s).
Proof.
  unfold ims_wf. destruct s as [a0 a1 a2 a3 a4 a5 a6 [] a8 [] a10 a11]; split_wf; destruct spliced; cbn in *;
    unfold wire_Image, as_Image, bulk, wwhen; cbn [negb ims_timestamp_ns ims_width ims_height ims_encoding ims_row_step ims_is_bigendian ims_data ims_has_compressed_depth_min ims_compressed_depth_min ims_has_compressed_depth_max ims_compressed_depth_max ims_frame_id]; cbv beta iota; solve_encodes_wire; finish_wire.
Qed.

(** ** DepthImage *)

Definition dis_wf (s : DepthImageState) : Prop :=
  in_s 64 (dis_timestamp_ns s) /\ in_u 32 (dis_width s) /\ in_u 32 (dis_height s) /\
  blen (dis_encoding s) < 2 ^ 64 /\ blob_ok (dis_data s) /\ Forall (in_u 64) (dis_intrinsics s) /\
  length (dis_intrinsics s) = 9%nat /\ blen (dis_distortion_model s) < 2 ^ 64 /\ Forall (in_u 64) (dis_distortion s).

Definition as_DepthImage (spliced : bool) (s : DepthImageState) : DepthImage :=
  mkDepthImage (dis_width s) (dis_height s) (dis_encoding s) (bulk spliced (dis_data s)) (dis_intrinsics s)
  (dis_distortion_model s) (dis_distortion s) (dis_timestamp_ns s).

Definition wire_DepthImage (spliced : bool) (s : DepthImageState) : wop :=
  wmessage 1 (writeTimestamp (dis_timestamp_ns s))
  ;> varint 2 (dis_width s)
  ;> varint 3 (dis_height s)
  ;> wstring 4 (dis_encoding s)
  ;> wwhen (negb spliced) (wbytes 5 (blob_bytes (dis_data s)))
  ;> packedBytes 6 (dis_intrinsics s)
  ;> wstring 7 (dis_distortion_model s)
  ;> packedBytes 8 (dis_distortion s).

Lemma writes_DepthImage alloc spliced s : dis_wf s -> Writes alloc (writeDepthImage alloc spliced s) (wire_DepthImage spliced s).
Proof. unfold dis_wf. split_wf. unfold writeDepthImage, wire_DepthImage. solve_wire. Qed.

Lemma encodes_wire_DepthImage spliced s : dis_wf s -> encodes depth_image_handler (wire_DepthImage spliced s) depth_image_default (as_DepthImage spliced s).
Proof.
  unfold dis_wf. destruct s as [a0 a1 a2 a3 a4 a5 a6 a7]; split_wf; destruct spliced; cbn in *;
    unfold wire_DepthImage, as_DepthImage, bulk, wwhen; cbn [negb dis_timestamp_ns dis_width dis_height dis_encoding dis_data dis_intrinsics dis_distortion_model dis_distortion]; cbv beta iota; solve_encodes_wire; finish_wire.
Qed.

(** ** OccupancyGrid *)

Definition ogs_wf (s : OccupancyGridState) : Prop :=
  in_s 64 (ogs_timestamp_ns s) /\ blen (ogs_frame_id s) < 2 ^ 64 /\ pose_wf (ogs_origin s) /\
  in_u 64 (ogs_resolution s) /\ in_u 32 (ogs_width s) /\ in_u 32 (ogs_height s) /\ blob_ok (ogs_data s).

Definition as_OccupancyGrid (spliced : bool) (s : OccupancyGridState) : OccupancyGrid :=
  mkOccupancyGrid (ogs_timestamp_ns s) (ogs_frame_id s) (ogs_origin s) (ogs_resolution s) (ogs_width s)
  (ogs_height s) (bulk spliced (ogs_data s)).

Definition wire_OccupancyGrid (spliced : bool) (s : OccupancyGridState) : wop :=
  wmessage 1 (writeTimestamp (ogs_timestamp_ns s))
  ;> wstring 2 (ogs_frame_id s)
  ;> wmessage 3 (writePose (ogs_origin s))
  ;> doubleField 4 (ogs_resolution s)
  ;> varint 5 (ogs_width s)
  ;> varint 6 (ogs_height s)
  ;> wwhen (negb spliced) (wbytes 7 (blob_bytes (ogs_data s))).

Lemma writes_OccupancyGrid alloc spliced s : ogs_wf s -> Writes alloc (writeOccupancyGrid alloc spliced s) (wire_OccupancyGrid spliced s).
Proof. unfold ogs_wf. split_wf. unfold writeOccupancyGrid, wire_OccupancyGrid. solve_wire. Qed.

Lemma encodes_wire_OccupancyGrid spliced s : ogs_wf s -> encodes occupancy_grid_handler (wire_OccupancyGrid spliced s) occupancy_grid_default (as_OccupancyGrid spliced s).
Proof.
  unfold ogs_wf. destruct s as [a0 a1 a2 a3 a4 a5 a6]; split_wf; destruct spliced; cbn in *;
    unfold wire_OccupancyGrid, as_OccupancyGrid, bulk, wwhen; cbn [negb ogs_timestamp_ns ogs_frame_id ogs_origin ogs_resolution ogs_width ogs_height ogs_data]; cbv beta iota; solve_encodes_wire; finish_wire.
Qed.

(** ** CompressedPointCloud *)

Definition cps_wf (s : CompressedPointCloudState) : Prop :=
  in_s 64 (cps_timestamp_ns s) /\ blen (cps_frame_id s) < 2 ^ 64 /\ blen (cps_format s) < 2 ^ 64 /\
  blob_ok (cps_data s).

Definition as_CompressedPointCloud (spliced : bool) (s : CompressedPointCloudState) : CompressedPointCloud :=
  mkCompressedPointCloud (cps_timestamp_ns s) (cps_frame_id s) (cps_format s) (bulk spliced (cps_data s)).

Definition wire_CompressedPointCloud (spliced : bool) (s : CompressedPointCloudState) : wop :=
  wmessage 1 (writeTimestamp (cps_timestamp_ns s))
  ;> wstring 2 (cps_frame_id s)
  ;> wstring 3 (cps_format s)
  ;> wwhen (negb spliced) (wbytes 4 (blob_bytes (cps_data s))).

Lemma writes_CompressedPointCloud alloc spliced s : cps_wf s -> Writes alloc (writeCompressedPointCloud alloc spliced s) (wire_CompressedPointCloud spliced s).
Proof. unfold cps_wf. split_wf. unfold writeCompressedPointCloud, wire_CompressedPointCloud. solve_wire. Qed.

Lemma encodes_wire_CompressedPointCloud spliced s : cps_wf s -> encodes compressed_point_cloud_handler (wire_CompressedPointCloud spliced s) compressed_point_cloud_default (as_CompressedPointCloud spliced s).
Proof.
  unfold cps_wf. destruct s as [a0 a1 a2 a3]; split_wf; destruct spliced; cbn in *;
    unfold wire_CompressedPointCloud, as_CompressedPointCloud, bulk, wwhen; cbn [negb cps_timestamp_ns cps_frame_id cps_format cps_data]; cbv beta iota; solve_encodes_wire; finish_wire.
Qed.

(** ** Mesh3D *)

Definition mes_wf (s : Mesh3DState) : Prop :=
  in_s 64 (mes_timestamp_ns s) /\ blen (mes_frame_id s) < 2 ^ 64 /\ blen (mes_id s) < 2 ^ 64 /\
  pose_wf (mes_pose s) /\ vector3_wf (mes_scale s) /\ blen (mes_format s) < 2 ^ 64 /\ blob_ok (mes_data s) /\
  blen (mes_url s) < 2 ^ 64 /\ channels_wf (mes_color s).

Definition as_Mesh3D (spliced : bool) (s : Mesh3DState) : Mesh3D :=
  mkMesh3D (mes_timestamp_ns s) (mes_frame_id s) (mes_id s) (mes_pose s) (mes_scale s) (mes_format s)
  (bulk spliced (mes_data s)) (mes_url s) (to_color (mes_color s)) (mes_override_color s).

Definition wire_Mesh3D (spliced : bool) (s : Mesh3DState) : wop :=
  wmessage 1 (writeTimestamp (mes_timestamp_ns s))
  ;> wstring 2 (mes_frame_id s)
  ;> wstring 3 (mes_id s)
  ;> wmessage 4 (writePose (mes_pose s))
  ;> wmessage 5 (writeVector3 (mes_scale s))
  ;> wstring 6 (mes_format s)
  ;> wwhen (negb spliced) (wbytes 7 (blob_bytes (mes_data s)))
  ;> wstring 8 (mes_url s)
  ;> wmessage 9 (writeChannels (mes_color s))
  ;> varint 10 (if mes_override_color s then 1 else 0).

Lemma writes_Mesh3D alloc spliced s : mes_wf s -> Writes alloc (writeMesh3D alloc spliced s) (wire_Mesh3D spliced s).
Proof. unfold mes_wf. split_wf. unfold writeMesh3D, wire_Mesh3D. solve_wire. Qed.

Lemma encodes_wire_Mesh3D spliced s : mes_wf s -> encodes mesh3d_handler (wire_Mesh3D spliced s) mesh3d_default (as_Mesh3D spliced s).
Proof.
  unfold mes_wf. destruct s as [a0 a1 a2 a3 a4 a5 a6 a7 a8 a9]; split_wf; destruct spliced; cbn in *;
    unfold wire_Mesh3D, as_Mesh3D, bulk, wwhen; cbn [negb mes_timestamp_ns mes_frame_id mes_id mes_pose mes_scale mes_format mes_data mes_url mes_color mes_override_color]; cbv beta iota; solve_encodes_wire; finish_wire.
Qed.

(** ** VideoFrame *)

Definition vfs_wf (s : VideoFrameState) : Prop :=
  in_s 64 (vfs_timestamp_ns s) /\ blen (vfs_frame_id s) < 2 ^ 64 /\ blob_ok (vfs_data s) /\
  blen (vfs_format s) < 2 ^ 64.

Definition as_VideoFrame (spliced : bool) (s : VideoFrameState) : VideoFrame :=
  mkVideoFrame (vfs_timestamp_ns s) (vfs_frame_id s) (bulk spliced (vfs_data s)) (vfs_format s).

Definition wire_VideoFrame (spliced : bool) (s : VideoFrameState) : wop :=
  wmessage 1 (writeTimestamp (vfs_timestamp_ns s))
  ;> wstring 2 (vfs_frame_id s)
  ;> wwhen (negb spliced) (wbytes 3 (blob_bytes (vfs_data s)))
  ;> wstring 4 (vfs_format s).

Lemma writes_VideoFrame alloc spliced s : vfs_wf s -> Writes alloc (writeVideoFrame alloc spliced s) (wire_VideoFrame spliced s).
Proof. unfold vfs_wf. split_wf. unfold writeVideoFrame, wire_VideoFrame. solve_wire. Qed.

Lemma encodes_wire_VideoFrame spliced s : vfs_wf s -> encodes video_frame_handler (wire_VideoFrame spliced s) video_frame_default (as_VideoFrame spliced s).
Proof.
  unfold vfs_wf. destruct s as [a0 a1 a2 a3]; split_wf; destruct spliced; cbn in *;
    unfold wire_VideoFrame, as_VideoFrame, bulk, wwhen; cbn [negb vfs_timestamp_ns vfs_frame_id vfs_data vfs_format]; cbv beta iota; solve_encodes_wire; finish_wire.
Qed.

(** ** OccupancyGridUpdate *)

Definition ous_wf (s : OccupancyGridUpdateState) : Prop :=
  in_s 64 (ous_timestamp_ns s) /\ blen (ous_frame_id s) < 2 ^ 64 /\ in_s 32 (ous_x s) /\ in_s 32 (ous_y s) /\
  in_u 32 (ous_width s) /\ in_u 32 (ous_height s) /\ blob_ok (ous_data s).

Definition as_OccupancyGridUpdate (spliced : bool) (s : OccupancyGridUpdateState) : OccupancyGridUpdate :=
  mkOccupancyGridUpdate (ous_timestamp_ns s) (ous_frame_id s) (ous_x s) (ous_y s) (ous_width s) (ous_height s)
  (bulk spliced (ous_data s)).

Definition wire_OccupancyGridUpdate (spliced : bool) (s : OccupancyGridUpdateState) : wop :=
  wmessage 1 (writeTimestamp (ous_timestamp_ns s))
  ;> wstring 2 (ous_frame_id s)
  ;> varint 3 (wrap 32 (ous_x s))
  ;> varint 4 (wrap 32 (ous_y s))
  ;> varint 5 (ous_width s)
  ;> varint 6 (ous_height s)
  ;> wwhen (negb spliced) (wbytes 7 (blob_bytes (ous_data s))).

Lemma writes_OccupancyGridUpdate alloc spliced s : ous_wf s -> Writes alloc (writeOccupancyGridUpdate alloc spliced s) (wire_OccupancyGridUpdate spliced s).
Proof. unfold ous_wf. split_wf. unfold writeOccupancyGridUpdate, wire_OccupancyGridUpdate. solve_wire. Qed.

Lemma encodes_wire_OccupancyGridUpdate spliced s : ous_wf s -> encodes occupancy_grid_update_handler (wire_OccupancyGridUpdate spliced s) occupancy_grid_update_default (as_OccupancyGridUpdate spliced s).
Proof.
  unfold ous_wf. destruct s as [a0 a1 a2 a3 a4 a5 a6]; split_wf; destruct spliced; cbn in *;
    unfold wire_OccupancyGridUpdate, as_OccupancyGridUpdate, bulk, wwhen; cbn [negb ous_timestamp_ns ous_frame_id ous_x ous_y ous_width ous_height ous_data]; cbv beta iota; solve_encodes_wire; finish_wire.
Qed.

(** ** VoxelGrid *)

Definition vgs_wf (s : VoxelGridState) : Prop :=
  in_s 64 (vgs_timestamp_ns s) /\ blen (vgs_frame_id s) < 2 ^ 64 /\ pose_wf (vgs_origin s) /\
  vector3_wf (vgs_cell_size s) /\ in_u 32 (vgs_column_count s) /\ in_u 32 (vgs_row_count s) /\
  in_u 32 (vgs_slice_count s) /\ in_u 32 (vgs_cell_stride s) /\ in_u 32 (vgs_row_stride s) /\
  in_u 32 (vgs_slice_stride s) /\ point_fields_wf (vgs_fields s) /\ blob_ok (vgs_data s).

Definition as_VoxelGrid (spliced : bool) (s : VoxelGridState) : VoxelGrid :=
  mkVoxelGrid (vgs_timestamp_ns s) (vgs_frame_id s) (vgs_origin s) (vgs_cell_size s) (vgs_column_count s)
  (vgs_row_count s) (vgs_slice_count s) (vgs_cell_stride s) (vgs_row_stride s) (vgs_slice_stride s) (vgs_fields s)
  (bulk spliced (vgs_data s)).

Definition wire_VoxelGrid (spliced : bool) (s : VoxelGridState) : wop :=
  wmessage 1 (writeTimestamp (vgs_timestamp_ns s))
  ;> wstring 2 (vgs_frame_id s)
  ;> wmessage 3 (writePose (vgs_origin s))
  ;> wmessage 4 (writeVector3 (vgs_cell_size s))
  ;> varint 5 (vgs_column_count s)
  ;> varint 6 (vgs_row_count s)
  ;> varint 7 (vgs_slice_count s)
  ;> varint 8 (vgs_cell_stride s)
  ;> varint 9 (vgs_row_stride s)
  ;> varint 10 (vgs_slice_stride s)
  ;> appendAll (fun field => wmessage 11 (writePointField field)) (vgs_fields s)
  ;> wwhen (negb spliced) (wbytes 12 (blob_bytes (vgs_data s))).

Lemma writes_VoxelGrid alloc spliced s : vgs_wf s -> Writes alloc (writeVoxelGrid alloc spliced s) (wire_VoxelGrid spliced s).
Proof. unfold vgs_wf. split_wf. unfold writeVoxelGrid, wire_VoxelGrid. solve_wire. Qed.

Lemma encodes_wire_VoxelGrid spliced s : vgs_wf s -> encodes voxel_grid_handler (wire_VoxelGrid spliced s) voxel_grid_default (as_VoxelGrid spliced s).
Proof.
  unfold vgs_wf. destruct s as [t fr o cs cc rc sc ce ro sl fs d]; split_wf; destruct spliced; cbn in *;
    repeat match goal with H : point_fields_wf _ |- _ => apply point_fields_fields in H end;
    unfold wire_VoxelGrid, as_VoxelGrid, bulk, wwhen; cbn [negb vgs_timestamp_ns vgs_frame_id vgs_origin vgs_cell_size vgs_column_count vgs_row_count vgs_slice_count vgs_cell_stride vgs_row_stride vgs_slice_stride vgs_fields vgs_data]; cbv beta iota; encodes_before_points;
    encodes_points (fun k => mkVoxelGrid t fr o cs (wrap 32 cc) (wrap 32 rc) (wrap 32 sc)
      (wrap 32 ce) (wrap 32 ro) (wrap 32 sl) k []);
    solve_encodes_wire; finish_wire.
Qed.

(** ** GridMap *)

Definition gms_wf (s : GridMapState) : Prop :=
  in_s 64 (gms_timestamp_ns s) /\ blen (gms_frame_id s) < 2 ^ 64 /\ pose_wf (gms_origin s) /\
  vector2_wf (gms_cell_size s) /\ in_u 32 (gms_column_count s) /\ in_u 32 (gms_row_count s) /\
  in_u 32 (gms_cell_stride s) /\ in_u 32 (gms_row_stride s) /\ point_fields_wf (gms_fields s) /\ blob_ok (gms_data s).

Definition as_GridMap (spliced : bool) (s : GridMapState) : GridMap :=
  mkGridMap (gms_timestamp_ns s) (gms_frame_id s) (gms_origin s) (gms_cell_size s) (gms_column_count s)
  (gms_row_count s) (gms_cell_stride s) (gms_row_stride s) (gms_fields s) (bulk spliced (gms_data s)).

Definition wire_GridMap (spliced : bool) (s : GridMapState) : wop :=
  wmessage 1 (writeTimestamp (gms_timestamp_ns s))
  ;> wstring 2 (gms_frame_id s)
  ;> wmessage 3 (writePose (gms_origin s))
  ;> wmessage 4 (writeVector2 (gms_cell_size s))
  ;> varint 5 (gms_column_count s)
  ;> varint 6 (gms_row_count s)
  ;> varint 7 (gms_cell_stride s)
  ;> varint 8 (gms_row_stride s)
  ;> appendAll (fun field => wmessage 9 (writePointField field)) (gms_fields s)
  ;> wwhen (negb spliced) (wbytes 10 (blob_bytes (gms_data s))).

Lemma writes_GridMap alloc spliced s : gms_wf s -> Writes alloc (writeGridMap alloc spliced s) (wire_GridMap spliced s).
Proof. unfold gms_wf. split_wf. unfold writeGridMap, wire_GridMap. solve_wire. Qed.

Lemma encodes_wire_GridMap spliced s : gms_wf s -> encodes grid_map_handler (wire_GridMap spliced s) grid_map_default (as_GridMap spliced s).
Proof.
  unfold gms_wf. destruct s as [t fr o cs cc rc ce ro fs d]; split_wf; destruct spliced; cbn in *;
    repeat match goal with H : point_fields_wf _ |- _ => apply point_fields_fields in H end;
    unfold wire_GridMap, as_GridMap, bulk, wwhen; cbn [negb gms_timestamp_ns gms_frame_id gms_origin gms_cell_size gms_column_count gms_row_count gms_cell_stride gms_row_stride gms_fields gms_data]; cbv beta iota; encodes_before_points;
    encodes_points (fun k => mkGridMap t fr o cs (wrap 32 cc) (wrap 32 rc) (wrap 32 ce) (wrap 32 ro) k []);
    solve_encodes_wire; finish_wire.
Qed.

