(* ===== verification/ObjectContract.v ===== *)
(** * ObjectContract: histories of an object writer

    What holds of an [ObjectWriter] after any calls on its builders, and what [finish] makes
    of it: an output descriptor that the host reads back, whose wire decodes to the object that the
    calls described. *)

From S2P Require Import Prelude TimeMath ProtobufWire FieldLoop GeometryCodec ColorCodec MessageCodecs SensorCodecs PointCodecs SceneCodecs BuiltinCodec ModuleAbi ParserCore ObjectWriter ObjectWriterProofs ObjectWire.

(** ** Values at the width of their types *)

Definition span_wf (r : InputSpanRef) : Prop := in_u 64 (ref_offset r) /\ in_u 64 (ref_length r).

Definition pcs_call_wf (c : PointCloudCall) : Prop :=
  match c with
  | pcs_setTimestamp v => in_s 64 v
  | pcs_setWidth v => in_u 32 v
  | pcs_setHeight v => in_u 32 v
  | pcs_setPointStep v => in_u 32 v
  | pcs_setRowStep v => in_u 32 v
  | pcs_setBigEndian _ => True
  | pcs_setDense _ => True
  | pcs_setFrameId v => blen v < 2 ^ 64
  | pcs_setData v => byte_view_wf v
  | pcs_setDataFromInput r => span_wf r
  | pcs_addField name offset _ count => blen name < 2 ^ 64 /\ in_u 32 offset /\ in_u 32 count
  end.

Definition ims_call_wf (c : ImageCall) : Prop :=
  match c with
  | ims_setTimestamp v => in_s 64 v
  | ims_setWidth v => in_u 32 v
  | ims_setHeight v => in_u 32 v
  | ims_setEncoding v => blen v < 2 ^ 64
  | ims_setRowStep v => in_u 32 v
  | ims_setBigEndian _ => True
  | ims_setData v => byte_view_wf v
  | ims_setDataFromInput r => span_wf r
  | ims_setCompressedDepthMin v => in_u 32 v
  | ims_setCompressedDepthMax v => in_u 32 v
  | ims_setFrameId v => blen v < 2 ^ 64
  end.

Definition dis_call_wf (c : DepthImageCall) : Prop :=
  match c with
  | dis_setTimestamp v => in_s 64 v
  | dis_setWidth v => in_u 32 v
  | dis_setHeight v => in_u 32 v
  | dis_setEncoding v => blen v < 2 ^ 64
  | dis_setData v => byte_view_wf v
  | dis_setDataFromInput r => span_wf r
  | dis_setIntrinsics v => length v = 9%nat /\ Forall (in_u 64) v
  | dis_setDistortionModel v => blen v < 2 ^ 64
  | dis_addDistortionCoefficient bits => in_u 64 bits
  end.

Definition ogs_call_wf (c : OccupancyGridCall) : Prop :=
  match c with
  | ogs_setTimestamp v => in_s 64 v
  | ogs_setFrameId v => blen v < 2 ^ 64
  | ogs_setOrigin px py pz qx qy qz qw => pose_wf (mkPose (mkVector3 px py pz) (mkQuaternion qx qy qz qw))
  | ogs_setResolution v => in_u 64 v
  | ogs_setWidth v => in_u 32 v
  | ogs_setHeight v => in_u 32 v
  | ogs_setData v => byte_view_wf v
  | ogs_setDataFromInput r => span_wf r
  end.

Definition cps_call_wf (c : CompressedPointCloudCall) : Prop :=
  match c with
  | cps_setTimestamp v => in_s 64 v
  | cps_setFrameId v => blen v < 2 ^ 64
  | cps_setFormat v => blen v < 2 ^ 64
  | cps_setData v => byte_view_wf v
  | cps_setDataFromInput r => span_wf r
  end.

Definition mes_call_wf (c : Mesh3DCall) : Prop :=
  match c with
  | mes_setTimestamp v => in_s 64 v
  | mes_setFrameId v => blen v < 2 ^ 64
  | mes_setId v => blen v < 2 ^ 64
  | mes_setPose px py pz qx qy qz qw => pose_wf (mkPose (mkVector3 px py pz) (mkQuaternion qx qy qz qw))
  | mes_setScale x y z => vector3_wf (mkVector3 x y z)
  | mes_setFormat v => blen v < 2 ^ 64
  | mes_setData v => byte_view_wf v
  | mes_setDataFromInput r => span_wf r
  | mes_setUrl v => blen v < 2 ^ 64
  | mes_setColor r g b a => channels_wf (mkChannels r g b a)
  | mes_setOverrideColor _ => True
  end.

Definition vfs_call_wf (c : VideoFrameCall) : Prop :=
  match c with
  | vfs_setTimestamp v => in_s 64 v
  | vfs_setFrameId v => blen v < 2 ^ 64
  | vfs_setData v => byte_view_wf v
  | vfs_setDataFromInput r => span_wf r
  | vfs_setFormat v => blen v < 2 ^ 64
  end.

Definition ous_call_wf (c : OccupancyGridUpdateCall) : Prop :=
  match c with
  | ous_setTimestamp v => in_s 64 v
  | ous_setFrameId v => blen v < 2 ^ 64
  | ous_setX v => in_s 32 v
  | ous_setY v => in_s 32 v
  | ous_setWidth v => in_u 32 v
  | ous_setHeight v => in_u 32 v
  | ous_setData v => byte_view_wf v
  | ous_setDataFromInput r => span_wf r
  end.

Definition vgs_call_wf (c : VoxelGridCall) : Prop :=
  match c with
  | vgs_setTimestamp v => in_s 64 v
  | vgs_setFrameId v => blen v < 2 ^ 64
  | vgs_setOrigin px py pz qx qy qz qw => pose_wf (mkPose (mkVector3 px py pz) (mkQuaternion qx qy qz qw))
  | vgs_setCellSize x y z => vector3_wf (mkVector3 x y z)
  | vgs_setColumnCount v => in_u 32 v
  | vgs_setRowCount v => in_u 32 v
  | vgs_setSliceCount v => in_u 32 v
  | vgs_setCellStride v => in_u 32 v
  | vgs_setRowStride v => in_u 32 v
  | vgs_setSliceStride v => in_u 32 v
  | vgs_addField name offset _ count => blen name < 2 ^ 64 /\ in_u 32 offset /\ in_u 32 count
  | vgs_setData v => byte_view_wf v
  | vgs_setDataFromInput r => span_wf r
  end.

Definition gms_call_wf (c : GridMapCall) : Prop :=
  match c with
  | gms_setTimestamp v => in_s 64 v
  | gms_setFrameId v => blen v < 2 ^ 64
  | gms_setOrigin px py pz qx qy qz qw => pose_wf (mkPose (mkVector3 px py pz) (mkQuaternion qx qy qz qw))
  | gms_setCellSize x y => vector2_wf (mkVector2 x y)
  | gms_setColumnCount v => in_u 32 v
  | gms_setRowCount v => in_u 32 v
  | gms_setCellStride v => in_u 32 v
  | gms_setRowStride v => in_u 32 v
  | gms_addField name offset _ count => blen name < 2 ^ 64 /\ in_u 32 offset /\ in_u 32 count
  | gms_setData v => byte_view_wf v
  | gms_setDataFromInput r => span_wf r
  end.

Definition call_wf (c : Call) : Prop :=
  match c with
  | Select kind => kind <> kNone
  | OnPointCloud c => pcs_call_wf c
  | OnImage c => ims_call_wf c
  | OnDepthImage c => dis_call_wf c
  | OnOccupancyGrid c => ogs_call_wf c
  | OnCompressedPointCloud c => cps_call_wf c
  | OnMesh3D c => mes_call_wf c
  | OnVideoFrame c => vfs_call_wf c
  | OnOccupancyGridUpdate c => ous_call_wf c
  | OnVoxelGrid c => vgs_call_wf c
  | OnGridMap c => gms_call_wf c
  end.

Definition states_wf (o : ObjectWriter) : Prop :=
  pcs_wf (point_cloud_ o) /\ ims_wf (image_ o) /\ dis_wf (depth_image_ o) /\ ogs_wf (occupancy_grid_ o) /\
  cps_wf (compressed_point_cloud_ o) /\ mes_wf (mesh3d_ o) /\ vfs_wf (video_frame_ o) /\
  ous_wf (occupancy_grid_update_ o) /\ vgs_wf (voxel_grid_ o) /\ gms_wf (grid_map_ o).

(** A splice lies in the payload and is the bulk data's only source. *)
Definition splice_ok (o : ObjectWriter) : Prop :=
  match splice_ o with
  | Some r => span_wf r /\ ref_offset r + ref_length r <= bv_size (input_payload_ o) /\ data_source_ o = dsSpliced
  | None => data_source_ o <> dsSpliced
  end.

Definition ow_inv (payload : ByteView) (o : ObjectWriter) : Prop :=
  states_wf o /\ splice_ok o /\ input_payload_ o = payload.

(** ** Storage *)

Section History.
Context (alloc : Z -> bool) (payload : ByteView) (payload_wf : byte_view_wf payload).

Lemma allocateBlob_spec v :
  byte_view_wf v ->
  match allocateBlob alloc (bv_size v) with
  | Value b => blob_holds b (replicate (Z.to_nat (bv_size v)) Byte.x00)
  | Failed s => isOk s = false
  end.
Proof.
  intros [Hv _]. unfold allocateBlob.
  destruct (blob_resize_refines alloc blob_empty [] (bv_size v)) as [(b & -> & Hb)|(e & -> & _)]; [by vm_compute|done| |done].
  cbn [isOk code status_ok negb]. cbn [blob_spec] in Hb. by rewrite take_nil, Nat.sub_0_r in Hb.
Qed.

Lemma set_data_blob v b :
  byte_view_wf v -> allocateBlob alloc (bv_size v) = Value b ->
  blob_ok (if bv_size v =? 0 then b else blob_copy b v) /\ blob_bytes (if bv_size v =? 0 then b else blob_copy b v) = view_bytes v.
Proof.
  intros Hv Hb. pose proof (allocateBlob_spec v Hv) as Ha. rewrite Hb in Ha. pose proof (view_bytes_length v Hv) as Hl.
  apply blob_ok_holds. destruct (bv_size v =? 0) eqn:E; bprop.
  - rewrite E in *. cbn in Ha. by destruct (view_bytes v).
  - apply (blob_copy_holds b v _ Ha Hv). rewrite length_replicate. lia.
Qed.

(** ** The invariant *)

(** What the shared setters may do: keep the writer but for its status, or run their assignment. *)
Definition keeps (f : step ObjectWriter) : Prop := forall o, ow_inv payload o -> ow_inv payload (f o).2.

Lemma inv_status o s : ow_inv payload o -> ow_inv payload (o <| status_ := s |>).
Proof. by destruct o. Qed.

Lemma inv_fail msg o : ow_inv payload o -> ow_inv payload (ow_fail msg o).2.
Proof. intros H. unfold ow_fail. cbn [snd]. destruct (isOk _); [by apply inv_status|done]. Qed.

Lemma keeps_select kind : keeps (ow_select kind).
Proof. intros o H. unfold ow_select. destruct (_ && _); [by apply inv_fail|]. by destruct o. Qed.

Lemma keeps_assign put : (forall o, ow_inv payload o -> ow_inv payload (put o)) -> keeps (ow_assign put).
Proof. intros Hp o H. by apply Hp. Qed.

Lemma keeps_string put v :
  (forall o, ow_inv payload o -> ow_inv payload (put v o)) -> keeps (ow_setString alloc put v).
Proof. intros Hp o H. unfold ow_setString. destruct (negb _); [done|]. destruct (alloc _); [by apply Hp|by apply inv_fail]. Qed.

Lemma inv_add {A} failed (elements : list A) put a o :
  ow_inv payload o -> ow_inv payload (put (elements ++ [a]) o) -> ow_inv payload (ow_add alloc failed elements put a o).2.
Proof. intros H Hp. unfold ow_add. destruct (negb _); [done|]. destruct (alloc _); [done|by apply inv_fail]. Qed.

Lemma inv_copied o : ow_inv payload o -> data_source_ o = dsNone -> ow_inv payload (o <| data_source_ := dsCopied |>).
Proof.
  intros (Hw & Hs & Hp) Hd. split; [|split]; [by destruct o| |by destruct o]. destruct o. unfold splice_ok in *. cbn in *.
  destruct splice_; [|done]. destruct Hs as (_ & _ & ?). congruence.
Qed.

Lemma keeps_data put v :
  byte_view_wf v -> (forall b o, blob_ok b -> ow_inv payload o -> ow_inv payload (put b o) /\ data_source_ (put b o) = data_source_ o) ->
  keeps (ow_setData alloc put v).
Proof.
  intros Hv Hp o H. unfold ow_setData. destruct (bool_decide (data_source_ o <> dsNone)) eqn:Ed; [by apply inv_fail|].
  apply bool_decide_eq_false in Ed. destruct (allocateBlob _ _) as [b|s] eqn:Eb; [|by apply inv_fail].
  destruct (_ && _); [by apply inv_fail|]. cbn [snd]. destruct (set_data_blob v b Hv Eb) as [Hb _].
  destruct (Hp _ o Hb H) as [Hi Hd]. apply inv_copied; [done|]. rewrite Hd. destruct (data_source_ o); [done|exfalso; by apply Ed..].
Qed.

Lemma keeps_input r : span_wf r -> keeps (ow_setDataFromInput r).
Proof.
  intros Hr o H. unfold ow_setDataFromInput. destruct (bool_decide _); [by apply inv_fail|].
  destruct (span_outside _ _) eqn:Eo; [by apply inv_fail|]. destruct (_ && _); [by apply inv_fail|]. cbn [snd].
  destruct H as (Hw & _ & Hp). split; [|split]; [by destruct o| |by destruct o].
  unfold span_outside in Eo. rewrite Hp in Eo. bprop. destruct payload_wf as [Hsz _]. destruct Hr as [Ho Hl].
  rewrite wrap_small in * by (unfold in_u in *; lia). unfold splice_ok. destruct o. cbn in *. subst. split_and!; [by split|lia|done].
Qed.

(** An updated state is well formed when the new value is. *)
Ltac update_wf wf :=
  lazymatch goal with
  | H : wf ?s |- _ =>
    let s' := fresh "s" in
    generalize dependent s; intros s'; destruct s'; unfold wf; cbn; intros;
    repeat match goal with H : _ /\ _ |- _ => destruct H end; split_and!; try done;
    try (unfold point_fields_wf; apply Forall_app; split; [done|]; apply Forall_singleton; first [assumption|split; [split|]; assumption])
  end.

Ltac keeps_builder inv_put wf_get wf :=
  lazymatch goal with
  | |- keeps (ow_setDataFromInput _) => by apply keeps_input
  | |- keeps (ow_assign _) =>
    apply keeps_assign; let o := fresh "o" in let H := fresh "H" in
    intros o H; pose proof (wf_get o H); apply inv_put; [done|update_wf wf]
  | |- keeps (ow_setString _ _ _) =>
    apply keeps_string; let o := fresh "o" in let H := fresh "H" in
    intros o H; pose proof (wf_get o H); apply inv_put; [done|update_wf wf]
  | |- keeps (ow_setData _ _ _) =>
    apply keeps_data; [done|]; let b := fresh "b" in let o := fresh "o" in let Hb := fresh "Hb" in let H := fresh "H" in
    intros b o Hb H; split; [pose proof (wf_get o H); apply inv_put; [done|update_wf wf]|by destruct o]
  | |- keeps _ =>
    let o := fresh "o" in let H := fresh "H" in
    intros o H; apply inv_add; [done|]; pose proof (wf_get o H); apply inv_put; [done|update_wf wf]
  end.

Lemma inv_point_cloud o s : ow_inv payload o -> pcs_wf s -> ow_inv payload (o <| point_cloud_ := s |>).
Proof. intros (Hw & Hs & Hp) H. destruct o. split; [unfold states_wf in *; cbn in *; tauto|done]. Qed.

Lemma wf_point_cloud o : ow_inv payload o -> pcs_wf (point_cloud_ o).
Proof. intros (Hw & _). unfold states_wf in Hw. tauto. Qed.

Lemma keeps_point_cloud c : pcs_call_wf c -> keeps (PointCloudBuilder alloc c).
Proof. destruct c; cbn [pcs_call_wf PointCloudBuilder]; intros Hc; keeps_builder inv_point_cloud wf_point_cloud pcs_wf. Qed.

Lemma inv_image o s : ow_inv payload o -> ims_wf s -> ow_inv payload (o <| image_ := s |>).
Proof. intros (Hw & Hs & Hp) H. destruct o. split; [unfold states_wf in *; cbn in *; tauto|done]. Qed.

Lemma wf_image o : ow_inv payload o -> ims_wf (image_ o).
Proof. intros (Hw & _). unfold states_wf in Hw. tauto. Qed.

Lemma keeps_image c : ims_call_wf c -> keeps (ImageBuilder alloc c).
Proof. destruct c; cbn [ims_call_wf ImageBuilder]; intros Hc; keeps_builder inv_image wf_image ims_wf. Qed.

Lemma inv_depth_image o s : ow_inv payload o -> dis_wf s -> ow_inv payload (o <| depth_image_ := s |>).
Proof. intros (Hw & Hs & Hp) H. destruct o. split; [unfold states_wf in *; cbn in *; tauto|done]. Qed.

Lemma wf_depth_image o : ow_inv payload o -> dis_wf (depth_image_ o).
Proof. intros (Hw & _). unfold states_wf in Hw. tauto. Qed.

Lemma keeps_depth_image c : dis_call_wf c -> keeps (DepthImageBuilder alloc c).
Proof. destruct c; cbn [dis_call_wf DepthImageBuilder]; intros Hc; keeps_builder inv_depth_image wf_depth_image dis_wf. Qed.

Lemma inv_occupancy_grid o s : ow_inv payload o -> ogs_wf s -> ow_inv payload (o <| occupancy_grid_ := s |>).
Proof. intros (Hw & Hs & Hp) H. destruct o. split; [unfold states_wf in *; cbn in *; tauto|done]. Qed.

Lemma wf_occupancy_grid o : ow_inv payload o -> ogs_wf (occupancy_grid_ o).
Proof. intros (Hw & _). unfold states_wf in Hw. tauto. Qed.

Lemma keeps_occupancy_grid c : ogs_call_wf c -> keeps (OccupancyGridBuilder alloc c).
Proof. destruct c; cbn [ogs_call_wf OccupancyGridBuilder]; intros Hc; keeps_builder inv_occupancy_grid wf_occupancy_grid ogs_wf. Qed.

Lemma inv_compressed_point_cloud o s : ow_inv payload o -> cps_wf s -> ow_inv payload (o <| compressed_point_cloud_ := s |>).
Proof. intros (Hw & Hs & Hp) H. destruct o. split; [unfold states_wf in *; cbn in *; tauto|done]. Qed.

Lemma wf_compressed_point_cloud o : ow_inv payload o -> cps_wf (compressed_point_cloud_ o).
Proof. intros (Hw & _). unfold states_wf in Hw. tauto. Qed.

Lemma keeps_compressed_point_cloud c : cps_call_wf c -> keeps (CompressedPointCloudBuilder alloc c).
Proof. destruct c; cbn [cps_call_wf CompressedPointCloudBuilder]; intros Hc; keeps_builder inv_compressed_point_cloud wf_compressed_point_cloud cps_wf. Qed.

Lemma inv_mesh3d o s : ow_inv payload o -> mes_wf s -> ow_inv payload (o <| mesh3d_ := s |>).
Proof. intros (Hw & Hs & Hp) H. destruct o. split; [unfold states_wf in *; cbn in *; tauto|done]. Qed.

Lemma wf_mesh3d o : ow_inv payload o -> mes_wf (mesh3d_ o).
Proof. intros (Hw & _). unfold states_wf in Hw. tauto. Qed.

Lemma keeps_mesh3d c : mes_call_wf c -> keeps (Mesh3DBuilder alloc c).
Proof. destruct c; cbn [mes_call_wf Mesh3DBuilder]; intros Hc; keeps_builder inv_mesh3d wf_mesh3d mes_wf. Qed.

Lemma inv_video_frame o s : ow_inv payload o -> vfs_wf s -> ow_inv payload (o <| video_frame_ := s |>).
Proof. intros (Hw & Hs & Hp) H. destruct o. split; [unfold states_wf in *; cbn in *; tauto|done]. Qed.

Lemma wf_video_frame o : ow_inv payload o -> vfs_wf (video_frame_ o).
Proof. intros (Hw & _). unfold states_wf in Hw. tauto. Qed.

Lemma keeps_video_frame c : vfs_call_wf c -> keeps (VideoFrameBuilder alloc c).
Proof. destruct c; cbn [vfs_call_wf VideoFrameBuilder]; intros Hc; keeps_builder inv_video_frame wf_video_frame vfs_wf. Qed.

Lemma inv_occupancy_grid_update o s : ow_inv payload o -> ous_wf s -> ow_inv payload (o <| occupancy_grid_update_ := s |>).
Proof. intros (Hw & Hs & Hp) H. destruct o. split; [unfold states_wf in *; cbn in *; tauto|done]. Qed.

Lemma wf_occupancy_grid_update o : ow_inv payload o -> ous_wf (occupancy_grid_update_ o).
Proof. intros (Hw & _). unfold states_wf in Hw. tauto. Qed.

Lemma keeps_occupancy_grid_update c : ous_call_wf c -> keeps (OccupancyGridUpdateBuilder alloc c).
Proof. destruct c; cbn [ous_call_wf OccupancyGridUpdateBuilder]; intros Hc; keeps_builder inv_occupancy_grid_update wf_occupancy_grid_update ous_wf. Qed.

Lemma inv_voxel_grid o s : ow_inv payload o -> vgs_wf s -> ow_inv payload (o <| voxel_grid_ := s |>).
Proof. intros (Hw & Hs & Hp) H. destruct o. split; [unfold states_wf in *; cbn in *; tauto|done]. Qed.

Lemma wf_voxel_grid o : ow_inv payload o -> vgs_wf (voxel_grid_ o).
Proof. intros (Hw & _). unfold states_wf in Hw. tauto. Qed.

Lemma keeps_voxel_grid c : vgs_call_wf c -> keeps (VoxelGridBuilder alloc c).
Proof. destruct c; cbn [vgs_call_wf VoxelGridBuilder]; intros Hc; keeps_builder inv_voxel_grid wf_voxel_grid vgs_wf. Qed.

Lemma inv_grid_map o s : ow_inv payload o -> gms_wf s -> ow_inv payload (o <| grid_map_ := s |>).
Proof. intros (Hw & Hs & Hp) H. destruct o. split; [unfold states_wf in *; cbn in *; tauto|done]. Qed.

Lemma wf_grid_map o : ow_inv payload o -> gms_wf (grid_map_ o).
Proof. intros (Hw & _). unfold states_wf in Hw. tauto. Qed.

Lemma keeps_grid_map c : gms_call_wf c -> keeps (GridMapBuilder alloc c).
Proof. destruct c; cbn [gms_call_wf GridMapBuilder]; intros Hc; keeps_builder inv_grid_map wf_grid_map gms_wf. Qed.

Lemma keeps_call c : call_wf c -> keeps (ow_call alloc c).
Proof.
  destruct c; cbn [call_wf ow_call]; intros Hc; [apply keeps_select|..];
    [by apply keeps_point_cloud|by apply keeps_image|by apply keeps_depth_image|by apply keeps_occupancy_grid|by apply keeps_compressed_point_cloud|by apply keeps_mesh3d|by apply keeps_video_frame|by apply keeps_occupancy_grid_update|by apply keeps_voxel_grid|by apply keeps_grid_map].
Qed.

(** ** Histories *)

Lemma inv_new : ow_inv payload (ObjectWriter_new payload).
Proof.
  split; [|by split]. unfold states_wf. cbn. split_and!;
    repeat match goal with |- ?wf ?s => unfold wf; cbn; split_and? end;
    first [exact blob_empty_ok | by constructor | by_compute | split_and!; by_compute | repeat constructor; by_compute].
Qed.

Lemma inv_calls l : Forall call_wf l -> ow_inv payload (ow_calls alloc l (ObjectWriter_new payload)).
Proof.
  intros Hl. unfold ow_calls. generalize inv_new. generalize (ObjectWriter_new payload).
  induction Hl as [|c l Hc Hl IH]; intros o H; [done|]. cbn [foldl]. apply IH. by apply keeps_call.
Qed.
(** ** One object, one source *)

(** A call of a builder leaves the selection alone; it does not clear an error; and it chooses the
    source of the bulk data exactly when it is a bulk call. *)
Definition frame (bulk_call : bool) (f : step ObjectWriter) : Prop := forall o,
  kind_ (f o).2 = kind_ o /\
  (isOk (status_ (f o).2) = true -> isOk (status_ o) = true /\
     if bulk_call then data_source_ o = dsNone /\ data_source_ (f o).2 <> dsNone else data_source_ (f o).2 = data_source_ o).

(** The parts that an assignment to a state does not touch. *)
Definition same (put : ObjectWriter -> ObjectWriter) : Prop := forall o,
  kind_ (put o) = kind_ o /\ status_ (put o) = status_ o /\ data_source_ (put o) = data_source_ o.

Lemma fail_kind msg o : kind_ (ow_fail msg o).2 = kind_ o.
Proof. unfold ow_fail. destruct o. cbn. by destruct (isOk _). Qed.

Lemma fail_status msg o : isOk (status_ (ow_fail msg o).2) = false.
Proof. unfold ow_fail. destruct (isOk (status_ o)) eqn:E; [by destruct o|done]. Qed.

Lemma frame_fail (Q : Prop) msg o :
  kind_ (ow_fail msg o).2 = kind_ o /\ (isOk (status_ (ow_fail msg o).2) = true -> Q).
Proof. split; [apply fail_kind|]. by rewrite fail_status. Qed.

Lemma frame_assign put : same put -> frame false (ow_assign put).
Proof. intros Hs o. unfold ow_assign. cbn [snd]. destruct (Hs o) as (-> & -> & ->). done. Qed.

Lemma frame_string put v : same (put v) -> frame false (ow_setString alloc put v).
Proof.
  intros Hs o. unfold ow_setString. destruct (isOk (status_ o)) eqn:E; cbn [negb]; [|cbn [snd]; by rewrite E].
  destruct (alloc _); [|apply frame_fail]. cbn [snd]. destruct (Hs o) as (-> & -> & ->). done.
Qed.

Lemma frame_add {A} failed (elements : ObjectWriter -> list A) put a :
  (forall l, same (put l)) -> frame false (fun o => ow_add alloc failed (elements o) put a o).
Proof.
  intros Hs o. unfold ow_add. destruct (isOk (status_ o)) eqn:E; cbn [negb]; [|cbn [snd]; by rewrite E].
  destruct (alloc _); [|apply frame_fail]. cbn [snd]. destruct (Hs (elements o ++ [a]) o) as (-> & -> & ->). done.
Qed.

Lemma frame_data put v : (forall b, same (put b)) -> frame true (ow_setData alloc put v).
Proof.
  intros Hs o. unfold ow_setData. destruct (bool_decide _) eqn:Ed; [apply frame_fail|].
  destruct (allocateBlob _ _) as [b|s]; [|apply frame_fail]. destruct (_ && _); [apply frame_fail|]. cbn [snd].
  destruct (Hs (if bv_size v =? 0 then b else blob_copy b v) o) as (Hk & Ht & Hd). destruct (put _ o). cbn in *. subst.
  split; [done|]. apply bool_decide_eq_false in Ed. destruct (data_source_ o); try (by exfalso; apply Ed). done.
Qed.

Lemma frame_input r : frame true (ow_setDataFromInput r).
Proof.
  intros o. unfold ow_setDataFromInput. destruct (bool_decide (data_source_ o <> dsNone)) eqn:Ed; [apply frame_fail|].
  destruct (span_outside _ _); [apply frame_fail|]. destruct (_ && _); [apply frame_fail|]. cbn [snd].
  apply bool_decide_eq_false in Ed. destruct o as [? ? ? [] ? ? ? ? ? ? ? ? ? ? ?]; cbn in *; try (by exfalso; apply Ed). done.
Qed.

Ltac frame_builder :=
  lazymatch goal with
  | |- frame _ (ow_setDataFromInput _) => apply frame_input
  | |- frame _ (ow_assign _) => apply frame_assign; intros []; done
  | |- frame _ (ow_setString _ _ _) => apply frame_string; intros []; done
  | |- frame _ (ow_setData _ _ _) => apply frame_data; intros ? []; done
  | |- frame _ _ => apply frame_add; intros ? []; done
  end.

Definition is_bulk (c : Call) : bool :=
  match c with
  | Select _ => false
  | OnPointCloud (pcs_setData _) | OnPointCloud (pcs_setDataFromInput _) => true
  | OnPointCloud _ => false
  | OnImage (ims_setData _) | OnImage (ims_setDataFromInput _) => true
  | OnImage _ => false
  | OnDepthImage (dis_setData _) | OnDepthImage (dis_setDataFromInput _) => true
  | OnDepthImage _ => false
  | OnOccupancyGrid (ogs_setData _) | OnOccupancyGrid (ogs_setDataFromInput _) => true
  | OnOccupancyGrid _ => false
  | OnCompressedPointCloud (cps_setData _) | OnCompressedPointCloud (cps_setDataFromInput _) => true
  | OnCompressedPointCloud _ => false
  | OnMesh3D (mes_setData _) | OnMesh3D (mes_setDataFromInput _) => true
  | OnMesh3D _ => false
  | OnVideoFrame (vfs_setData _) | OnVideoFrame (vfs_setDataFromInput _) => true
  | OnVideoFrame _ => false
  | OnOccupancyGridUpdate (ous_setData _) | OnOccupancyGridUpdate (ous_setDataFromInput _) => true
  | OnOccupancyGridUpdate _ => false
  | OnVoxelGrid (vgs_setData _) | OnVoxelGrid (vgs_setDataFromInput _) => true
  | OnVoxelGrid _ => false
  | OnGridMap (gms_setData _) | OnGridMap (gms_setDataFromInput _) => true
  | OnGridMap _ => false
  end.

Lemma frame_call c : match c with Select _ => True | _ => frame (is_bulk c) (ow_call alloc c) end.
Proof. destruct c as [kind|c|c|c|c|c|c|c|c|c|c]; cbn [is_bulk ow_call]; [done|..]; destruct c;
  cbn [PointCloudBuilder ImageBuilder DepthImageBuilder OccupancyGridBuilder CompressedPointCloudBuilder Mesh3DBuilder VideoFrameBuilder OccupancyGridUpdateBuilder VoxelGridBuilder GridMapBuilder]; frame_builder. Qed.

Lemma select_status kind o :
  kind <> kNone -> isOk (status_ (ow_select kind o).2) = true ->
  isOk (status_ o) = true /\ (kind_ o = kNone \/ kind_ o = kind) /\
  kind_ (ow_select kind o).2 = kind /\ data_source_ (ow_select kind o).2 = data_source_ o.
Proof.
  intros Hk. unfold ow_select. destruct (_ && _) eqn:E; [by rewrite fail_status|]. cbn [snd]. destruct o. cbn in *.
  intros H. split_and!; try done. apply andb_false_iff in E as [E|E]; apply bool_decide_eq_false in E; [left|right];
    by destruct (decide (kind_ = kNone)), (decide (kind_ = kind)); auto; exfalso; apply E.
Qed.

(** A writer without an error has seen one kind of object and at most one bulk call. *)
Lemma calls_selected l o :
  Forall call_wf l -> isOk (status_ (ow_calls alloc l o)) = true ->
  isOk (status_ o) = true /\ (kind_ o <> kNone -> kind_ (ow_calls alloc l o) = kind_ o) /\
  (forall kind, Select kind ∈ l -> kind_ (ow_calls alloc l o) = kind) /\
  (length (filter (fun c => is_bulk c = true) l) <= if bool_decide (data_source_ o = dsNone) then 1 else 0)%nat.
Proof.
  unfold ow_calls. intros Hl. revert o. induction Hl as [|c l Hc Hl IH]; intros o Hok; cbn [foldl] in *.
  { split_and!; [done|done|by intros ? ?%elem_of_nil|]. cbn. lia. }
  destruct (IH _ Hok) as (Hok1 & Hkind & Hsel & Hbulk). rewrite filter_cons.
  assert (forall kind, Select kind ∈ c :: l -> c = Select kind \/ Select kind ∈ l) as Hcons.
  { intros kind [->|H]%elem_of_cons; auto. }
  destruct c as [kind|c|c|c|c|c|c|c|c|c|c].
  { apply select_status in Hok1 as (Ho & Hor & Hk & Hd); [|done]. cbn [call_wf] in Hc.
    cbn [ow_call] in *. rewrite Hk, Hd in *. specialize (Hkind Hc).
    split_and!; [done| | |done].
    - intros Hn. rewrite Hkind. by destruct Hor.
    - intros k [[= <-]|Hin]%Hcons; [done|by apply Hsel]. }
  all: match goal with Hok1 : isOk (status_ (ow_call alloc ?c ?o).2) = true |- _ => pose proof (frame_call c o) as [Hk Hf] end;
    destruct (Hf Hok1) as [Ho Hd]; rewrite Hk in *; split_and!; [done|done|by intros k [[=]|Hin]%Hcons; apply Hsel|];
    revert Hd; case_match; intros Hd.
  all: first
    [ destruct Hd as [Hd1 Hd2]; rewrite decide_True by done; rewrite bool_decide_eq_false_2 in Hbulk by done;
      rewrite bool_decide_eq_true_2 by done; cbn [length]; lia
    | rewrite decide_False by done; by rewrite Hd in Hbulk ].
Qed.

(** ** The wire of a writer, and the object it stands for *)

Definition is_spliced (o : ObjectWriter) : bool := match splice_ o with Some _ => true | None => false end.

Definition wire_of (o : ObjectWriter) : wop :=
  match kind_ o with
  | kPointCloud => wire_PointCloud (is_spliced o) (point_cloud_ o)
  | kImage => wire_Image (is_spliced o) (image_ o)
  | kDepthImage => wire_DepthImage (is_spliced o) (depth_image_ o)
  | kOccupancyGrid => wire_OccupancyGrid (is_spliced o) (occupancy_grid_ o)
  | kCompressedPointCloud => wire_CompressedPointCloud (is_spliced o) (compressed_point_cloud_ o)
  | kMesh3D => wire_Mesh3D (is_spliced o) (mesh3d_ o)
  | kVideoFrame => wire_VideoFrame (is_spliced o) (video_frame_ o)
  | kOccupancyGridUpdate => wire_OccupancyGridUpdate (is_spliced o) (occupancy_grid_update_ o)
  | kVoxelGrid => wire_VoxelGrid (is_spliced o) (voxel_grid_ o)
  | kGridMap => wire_GridMap (is_spliced o) (grid_map_ o)
  | kNone => wskip
  end.

Definition as_object (o : ObjectWriter) : BuiltinObject :=
  match kind_ o with
  | kPointCloud => OPointCloud (as_PointCloud (is_spliced o) (point_cloud_ o))
  | kImage => OImage (as_Image (is_spliced o) (image_ o))
  | kDepthImage => ODepthImage (as_DepthImage (is_spliced o) (depth_image_ o))
  | kOccupancyGrid => OOccupancyGrid (as_OccupancyGrid (is_spliced o) (occupancy_grid_ o))
  | kCompressedPointCloud => OCompressedPointCloud (as_CompressedPointCloud (is_spliced o) (compressed_point_cloud_ o))
  | kMesh3D => OMesh3D (as_Mesh3D (is_spliced o) (mesh3d_ o))
  | kVideoFrame => OVideoFrame (as_VideoFrame (is_spliced o) (video_frame_ o))
  | kOccupancyGridUpdate => OOccupancyGridUpdate (as_OccupancyGridUpdate (is_spliced o) (occupancy_grid_update_ o))
  | kVoxelGrid => OVoxelGrid (as_VoxelGrid (is_spliced o) (voxel_grid_ o))
  | kGridMap => OGridMap (as_GridMap (is_spliced o) (grid_map_ o))
  | kNone => NoObject
  end.

#[export] Instance appends_wire_of o : Appends (wire_of o).
Proof. unfold wire_of. destruct (kind_ o); [apply _|..]; unfold wire_PointCloud, wire_Image, wire_DepthImage, wire_OccupancyGrid, wire_CompressedPointCloud, wire_Mesh3D, wire_VideoFrame, wire_OccupancyGridUpdate, wire_VoxelGrid, wire_GridMap; apply _. Qed.

Lemma written_spec f w :
  Writes alloc f w ->
  match written f with
  | Value b => blob_holds b (w [])
  | Failed s => isOk s = false /\ starved alloc (w [])
  end.
Proof.
  intros Hw. unfold written. destruct (Hw ww_new [] ww_new_holds) as [[Hs [_ Hb]]|[Hs Hd]];
    destruct (f ww_new) as [status writer]; cbn [fst snd] in *; rewrite Hs; done.
Qed.

Lemma writeSelected_spec o :
  states_wf o -> kind_ o <> kNone ->
  match writeSelected alloc o with
  | Value b => blob_holds b (wire_of o [])
  | Failed s => isOk s = false /\ starved alloc (wire_of o [])
  end.
Proof.
  unfold states_wf. intros Hw Hk. repeat match goal with H : _ /\ _ |- _ => destruct H end.
  unfold writeSelected, wire_of, is_spliced. destruct (kind_ o); [done|..]; apply written_spec;
    [by apply writes_PointCloud|by apply writes_Image|by apply writes_DepthImage|by apply writes_OccupancyGrid|by apply writes_CompressedPointCloud|by apply writes_Mesh3D|by apply writes_VideoFrame|by apply writes_OccupancyGridUpdate|by apply writes_VoxelGrid|by apply writes_GridMap].
Qed.

(** The dispatcher accepts what a codec decodes, but for the layout check of grid maps. *)
Definition accepted (object : BuiltinObject) : Expected BuiltinObject :=
  match object with
  | OGridMap m => let? _ := validateLayout m (negb (length (gm_data m) =? 0)%nat) in Ok object
  | _ => Ok object
  end.

Lemma deserializeAs_ok {T} (wrap : T -> BuiltinObject) default deserialize data m :
  data <> [] -> deserialize data = Ok m -> deserializeAs wrap default deserialize data = Ok (wrap m).
Proof. unfold deserializeAs. intros Hn ->. by destruct data. Qed.

Lemma wire_nonempty f w w' `{!Appends w'} : field_ok f -> (wmessage f w ;> w') [] <> [].
Proof. by apply write_nonempty. Qed.

Lemma eof_false (r : reader) : eof r = false <-> r <> [].
Proof. by destruct r. Qed.

Ltac nonempty_wire := apply wire_nonempty; [apply _|solve_field_ok].

Ltac decode_wire H :=
  apply deserializeAs_ok; [nonempty_wire|]; apply deserialize_encodes; [by apply H|done|nonempty_wire].

Lemma wire_decodes o :
  states_wf o -> kind_ o <> kNone -> fits (wire_of o []) ->
  deserializeBuiltinObject (selectedObjectType (kind_ o)) (wire_of o []) = accepted (as_object o).
Proof.
  unfold states_wf. intros Hw Hk. repeat match goal with H : _ /\ _ |- _ => destruct H end.
  unfold wire_of, as_object. destruct (kind_ o); intros Hf; [done|..]; cbn [selectedObjectType accepted];
    unfold deserializeBuiltinObject; cbn [Z.eqb Pos.eqb];
    [decode_wire encodes_wire_PointCloud|decode_wire encodes_wire_Image|decode_wire encodes_wire_DepthImage|decode_wire encodes_wire_OccupancyGrid|decode_wire encodes_wire_CompressedPointCloud|decode_wire encodes_wire_Mesh3D|decode_wire encodes_wire_VideoFrame|decode_wire encodes_wire_OccupancyGridUpdate|decode_wire encodes_wire_VoxelGrid|].
  set (s := grid_map_ o) in *. set (spliced := is_spliced o) in *.
  assert (wire_GridMap spliced s [] <> []) as Hn by nonempty_wire.
  unfold deserializeAs. rewrite (proj2 (eof_false _)) by exact Hn. unfold deserializeGridMap.
  rewrite (deserialize_encodes "GridMap" grid_map_handler _ _ (as_GridMap spliced s)); [|by apply encodes_wire_GridMap|done|done].
  cbn [ebind]. by destruct (validateLayout _ _).
Qed.

(** ** Descriptors *)

Class BWrites (f : step Blob) (w : wop) : Prop :=
  bwrites b l : blob_holds b l -> outcome alloc blob_holds (w l) (f b).

#[export] Instance bwrites_then f g w1 w2 `{!Appends w2} `{!BWrites f w1} `{!BWrites g w2} : BWrites (f ?> g) (w1 ;> w2).
Proof. intros b l Hb. apply (outcome_then alloc blob_holds f g w1 w2); [by apply bwrites|intros; by apply bwrites]. Qed.

Lemma bwrites_ok : BWrites step_ok wskip.
Proof. intros b l Hb. by left. Qed.

Lemma bwrites_byte c : BWrites (fun b => blob_push alloc b c) (insert_end [c]).
Proof.
  intros b l Hb. unfold insert_end. destruct (blob_push_refines alloc b l c Hb) as [(b' & -> & Hb')|(e & -> & Hd)]; [by left|by right].
Qed.

Lemma bwrites_append v : byte_view_wf v -> BWrites (bappend alloc v) (insert_end (view_bytes v)).
Proof.
  intros Hv b l Hb. unfold bappend, insert_end.
  destruct (blob_append_refines alloc b l v Hb Hv) as [(b' & -> & Hb')|(e & -> & Hd)]; [by left|by right].
Qed.

Lemma bwrites_reserve size : in_u 64 size -> BWrites (breserve alloc size) wskip.
Proof.
  intros Hs b l Hb. unfold breserve.
  destruct (blob_reserve_spec alloc b l size Hb Hs) as [(Ha & _ & e & ->)|(b' & -> & Hb' & _)]; [right|by left].
  split; [done|]. left. by exists size.
Qed.

Lemma insert_byte v : insert_end [z2b v] = push_back v.
Proof. done. Qed.

Lemma bwrites_little i n v : BWrites (appendLittle_from alloc i n v) (appendFixed_from i n v).
Proof.
  revert i. induction n as [|n IH]; intros i b l Hb; [by apply bwrites_ok|]. cbn [appendLittle_from appendFixed_from].
  rewrite push_low.
  apply (outcome_then alloc blob_holds _ _ (push_back (Z.shiftr v (8 * Z.of_nat i))) (appendFixed_from (S i) n v));
    [rewrite <-insert_byte; by apply bwrites_byte|]. intros y Hy. by apply IH.
Qed.

Lemma bwrites_u8 v : BWrites (bpush alloc v) (u8 v).
Proof.
  intros b l Hb. unfold bpush, u8. cbn [appendFixed_from]. rewrite push_low, <-insert_byte. by apply bwrites_byte.
Qed.

Lemma finished_spec f w :
  BWrites f w ->
  match finished f with
  | Value b => blob_holds b (w [])
  | Failed s => isOk s = false /\ starved alloc (w [])
  end.
Proof.
  intros Hw. unfold finished. destruct (Hw blob_empty [] ltac:(by vm_compute)) as [[Hs Hb]|[Hs Hd]];
    destruct (f blob_empty) as [status b]; cbn [fst snd] in *; rewrite Hs; done.
Qed.

(** The descriptor of a writer, as [ModuleAbi] describes it. *)
Definition descriptor_of (o : ObjectWriter) : ObjectOutputV1 :=
  mkObjectOutputV1 (selectedObjectType (kind_ o))
    (match splice_ o with Some r => Some (mkObjectSpliceV1 (selectedSpliceField (kind_ o)) (ref_offset r) (ref_length r)) | None => None end)
    (wire_of o []).

Definition object_block (o : ObjectOutputV1) : wop :=
  u16 1 ;> u8 kObject ;> u8 0 ;> u16 (oo_object_type o) ;> u16 (if oo_splice o then 1 else 0)
  ;> u32 (match oo_splice o with Some s => sp_field_number s | None => 0 end)
  ;> u64 (match oo_splice o with Some s => sp_input_offset s | None => 0 end)
  ;> u64 (match oo_splice o with Some s => sp_input_length s | None => 0 end)
  ;> u64 (blen (oo_wire o)) ;> insert_end (oo_wire o).

Lemma object_block_written d : 36 + blen (oo_wire d) <= size_max -> writeObjectOutput d = Ok (object_block d []).
Proof. intros H. unfold writeObjectOutput. by rewrite (proj2 (checkedAdd_iff _ _ (36 + blen (oo_wire d)))) by done. Qed.

Lemma descriptor_wf o : ow_inv payload o -> object_output_wf (descriptor_of o).
Proof.
  intros (_ & Hs & _). unfold object_output_wf, descriptor_of. cbn [oo_object_type oo_splice].
  split; [by destruct (kind_ o); by_compute|]. unfold splice_ok in Hs. destruct (splice_ o) as [r|]; [|done].
  destruct Hs as ([? ?] & _). split; [|by split]. by destruct (kind_ o); by_compute.
Qed.

Lemma blob_fits b l : blob_holds b l -> blen l <= size_max.
Proof. unfold blen. intros (_ & Hc & Hle & Hmax & _). unfold cell in *. lia. Qed.

(** [finish] makes exactly the descriptor's block; it fails when a call failed, when no object was
    selected or when it starves. *)
Lemma finish_spec o :
  ow_inv payload o ->
  match ObjectWriter_finish alloc o with
  | Value b =>
    isOk (status_ o) = true /\ kind_ o <> kNone /\
    exists block, writeOutputDescriptorV1 (ObjectOutput (descriptor_of o)) = Ok block /\ blob_holds b block
  | Failed s =>
    isOk s = false /\ (isOk (status_ o) = false \/ kind_ o = kNone \/ starved alloc (object_block (descriptor_of o) []))
  end.
Proof.
  intros (Hw & Hs & _). unfold ObjectWriter_finish. destruct (isOk (status_ o)) eqn:Eo; cbn [negb]; [|split; [done|by left]].
  destruct (bool_decide (kind_ o = kNone)) eqn:Ek; [apply bool_decide_eq_true in Ek; split; [done|by right; left]|].
  apply bool_decide_eq_false in Ek. pose proof (writeSelected_spec o Hw Ek) as Hsel.
  destruct (writeSelected alloc o) as [wire|s].
  2: { destruct Hsel as [Hf Hd]. split; [done|]. right; right. unfold object_block.
       repeat (rewrite wseq_bytes by apply _; apply starved_app_r). exact Hd. }
  destruct (blob_view_holds wire _ Hsel) as [Hv Hb].
  match goal with |- match finished ?f with _ => _ end =>
    assert (BWrites f (wskip ;> object_block (descriptor_of o))) as Hwr end.
  { unfold object_block, descriptor_of. cbn [oo_object_type oo_splice oo_wire].
    apply bwrites_then; [apply _|apply bwrites_reserve, wrap_range; lia|].
    apply bwrites_then; [apply _|apply bwrites_little|]. apply bwrites_then; [apply _|apply bwrites_u8|].
    apply bwrites_then; [apply _|apply bwrites_u8|]. apply bwrites_then; [apply _|apply bwrites_little|].
    destruct (splice_ o) as [r|]; do 4 (apply bwrites_then; [apply _|apply bwrites_little|]);
    (apply bwrites_then; [apply _| |pose proof (bwrites_append _ Hv) as Ha; rewrite Hb in Ha; exact Ha]);
    rewrite (proj1 Hsel); apply bwrites_little. }
  apply finished_spec in Hwr. destruct (finished _) as [b|s].
  - split; [done|]. split; [done|]. exists (object_block (descriptor_of o) []). split; [|exact Hwr].
    apply object_block_written. pose proof (blob_fits _ _ Hwr) as Hf. change ((wskip ;> ?w) []) with (w []) in Hf.
    revert Hf. unfold object_block. rewrite !wseq_bytes, !blen_app by apply _. unfold insert_end at 1. cbn [app].
    unfold u16, u8, u32, u64, blen. rewrite !length_fixed. lia.
  - destruct Hwr as [Hf Hd]. split; [done|]. by right; right.
Qed.
End History.

(** ** Scalars *)

Section Scalars.
Context (alloc : Z -> bool).
Notation BWrites := (BWrites alloc).

Definition scalar_field_ok (f : ScalarFieldV1) : Prop :=
  blen (sf_name f) < 2 ^ 64 /\ scalar_value_wf (sf_value f) /\
  match sf_value f with ScalarString s => blen s < 2 ^ 64 | _ => True end.

Definition as_scalar (s : ScalarWriter) : ScalarOutputV1 := mkScalarOutputV1 (has_timestamp_ s) (timestamp_ns_ s) (fields_ s).

Definition sw_wf (s : ScalarWriter) : Prop := in_s 64 (timestamp_ns_ s) /\ Forall scalar_field_ok (fields_ s).

Lemma bwrites_ext f w w' : (forall l, w l = w' l) -> BWrites f w -> BWrites f w'.
Proof. intros He Hf b l Hb. rewrite <-He. by apply Hf. Qed.

Lemma bwrites_each {A} (f : A -> step Blob) (w : A -> wop) (l : list A) `{!forall a, Appends (w a)} :
  Forall (fun a => BWrites (f a) (w a)) l -> BWrites (each f l) (appendAll w l).
Proof.
  induction 1 as [|a k Ha Hk IH]; intros b out Hb; [by left|].
  change (each f (a :: k)) with (f a ?> each f k). change (appendAll w (a :: k) out) with (appendAll w k (w a out)).
  apply (outcome_then alloc blob_holds (f a) (each f k) (w a) (appendAll w k)); [by apply Ha|intros y Hy; by apply IH].
Qed.

Lemma bwrites_zeros n : BWrites (each (bpush alloc) (replicate n 0)) (zeros n).
Proof.
  apply (bwrites_ext _ (appendAll u8 (replicate n 0))).
  - unfold zeros, insert_end. induction n as [|n IH]; intros l; [by rewrite app_nil_r|].
    change (appendAll u8 (replicate (S n) 0) l) with (appendAll u8 (replicate n 0) (l ++ [Byte.x00])). rewrite IH, <-app_assoc. done.
  - apply bwrites_each; [apply _|]. apply Forall_true. intros. apply bwrites_u8.
Qed.

Lemma bwrites_string s : blen s < 2 ^ 64 -> BWrites (bappend alloc (string_view s)) (insert_end s).
Proof. intros Hs. pose proof (bwrites_append alloc _ (string_view_wf s Hs)) as H. by rewrite string_view_bytes in H. Qed.

Lemma bwrites_value v : match v with ScalarString s => blen s < 2 ^ 64 | _ => True end -> BWrites (sw_value alloc v) (write_scalar_value v).
Proof.
  destruct v; intros Hv; cbn [sw_value write_scalar_value]; apply bwrites_then; try apply _; try apply bwrites_u8; try apply bwrites_little.
  apply bwrites_then; [apply _|apply bwrites_little|by apply bwrites_string].
Qed.

Lemma bwrites_fields current fields os :
  0 <= current -> scalar_name_offsets current fields = Ok os -> Forall scalar_field_ok fields ->
  BWrites (sw_fields alloc current fields) (appendAll write_scalar_field (combine os fields)).
Proof.
  intros Hc Ho Hf. revert current os Hc Ho. induction Hf as [|f l [Hn [_ Hv]] Hl IH]; intros current os Hc Ho b out Hb.
  { cbn in Ho. simplify_eq. by left. }
  cbn [scalar_name_offsets] in Ho. destruct (current >? _) eqn:E1; [done|]. destruct (checkedAdd _ _) as [t|] eqn:Et; [|done].
  destruct (t >? _) eqn:E2; [done|]. apply checkedAdd_some in Et as ->. destruct (scalar_name_offsets _ l) as [os'|] eqn:El; [|done].
  cbn [ebind] in Ho. simplify_eq. cbn [sw_fields combine].
  change (appendAll write_scalar_field ((current, f) :: combine os' l) out)
    with (appendAll write_scalar_field (combine os' l) (write_scalar_field (current, f) out)).
  assert (wrap 64 (current + blen (sf_name f)) = current + blen (sf_name f)) as Hw by (apply wrap_small; unfold in_u; change UINT32_MAX with 4294967295 in *; unfold blen in *; bprop; cbn; lia).
  rewrite Hw.
  assert (BWrites (appendLittle alloc current 4 ?> appendLittle alloc (blen (sf_name f)) 4 ?> sw_value alloc (sf_value f) ?>
    sw_fields alloc (current + blen (sf_name f)) l) (u32 current ;> u32 (blen (sf_name f)) ;> write_scalar_value (sf_value f) ;>
      appendAll write_scalar_field (combine os' l))) as Hall.
  { apply bwrites_then; [apply _|apply bwrites_little|]. apply bwrites_then; [apply _|apply bwrites_little|].
    apply bwrites_then; [apply _|by apply bwrites_value|]. apply IH; [unfold blen in *; lia|done]. }
  exact (Hall b out Hb).
Qed.

(** The size computations of [finish] are those of the abstract size, and refuse only what does not fit. *)
Lemma sw_names_offset_spec start fields :
  0 <= start <= SIZE_MAX -> Forall scalar_field_ok fields ->
  match sw_names_offset start fields with
  | Value n => n = start + scalar_fields_size fields /\ n <= SIZE_MAX
  | Failed s => isOk s = false /\ UINT32_MAX < start + scalar_fields_size fields
  end.
Proof.
  intros Hs Hf. revert start Hs. induction Hf as [|f l (Hn & _ & Hv) Hl IH]; intros start Hs; cbn [sw_names_offset scalar_fields_size].
  { split; lia. }
  pose proof (scalar_fields_size_pos l) as Hp. pose proof (value_size_pos (sf_value f)) as Hvp.
  set (vs := match sf_value f with ScalarBool _ => _ | ScalarString s => _ | _ => _ end).
  assert ((vs = None /\ UINT32_MAX < value_size (sf_value f)) \/ (vs = Some (value_size (sf_value f)) /\ value_size (sf_value f) <= UINT32_MAX + 4)) as [[-> Hbig]|[-> Hsm]].
  { subst vs. destruct (sf_value f) as [| | | |str]; cbn [value_size] in *; try (right; split; [done|cbn; lia]).
    destruct (blen str >? _) eqn:E; rewrite Z.gtb_ltb in E; [apply Z.ltb_lt in E; left|apply Z.ltb_ge in E; right]; split; done || lia. }
  { split; [done|]. lia. }
  generalize dependent (value_size (sf_value f)). intros v Hv1 Hv2. change UINT32_MAX with 4294967295 in *. change SIZE_MAX with 18446744073709551615 in *.
  rewrite (wrap_small 64 (_ - 9)), (wrap_small 64 (_ - v)) by (unfold in_u; cbn; lia).
  destruct (start >? _) eqn:E; rewrite Z.gtb_ltb in E; [apply Z.ltb_lt in E|apply Z.ltb_ge in E].
  { split; [done|]. lia. }
  rewrite wrap_small by (unfold in_u; cbn; lia). specialize (IH (start + (9 + v)) ltac:(lia)).
  destruct (sw_names_offset _ l); [destruct IH|destruct IH]; split; done || lia.
Qed.

Lemma sw_total_size_spec start fields :
  0 <= start <= SIZE_MAX -> Forall scalar_field_ok fields ->
  match sw_total_size start fields with
  | Value n => n = start + names_size fields /\ n <= SIZE_MAX
  | Failed s => isOk s = false /\ UINT32_MAX < start + names_size fields
  end.
Proof.
  unfold names_size. intros Hs Hf. revert start Hs. induction Hf as [|f l (Hn & _) Hl IH]; intros start Hs; cbn [sw_total_size map concat].
  { unfold blen. cbn. split; lia. }
  rewrite blen_app. assert (0 <= blen (sf_name f) /\ 0 <= blen (concat (map sf_name l))) as [Hp Hq] by (unfold blen; lia).
  change UINT32_MAX with 4294967295 in *. change SIZE_MAX with 18446744073709551615 in *.
  rewrite (wrap_small 64 (_ - start)) by (unfold in_u; cbn; lia).
  destruct (_ || _) eqn:E; bprop; [split; [done|]; lia|]. rewrite wrap_small by (unfold in_u; cbn; lia).
  specialize (IH (start + blen (sf_name f)) ltac:(lia)). destruct (sw_total_size _ l); [destruct IH|destruct IH]; split; done || lia.
Qed.

Definition scalar_block (s : ScalarOutputV1) (offsets : list Z) : wop :=
  u16 1 ;> u8 kScalar ;> u8 0 ;> u8 (if so_has_timestamp s then 1 else 0) ;> zeros 7
  ;> write_i64 (so_timestamp_ns s) ;> u32 (Z.of_nat (length (so_fields s)))
  ;> appendAll write_scalar_field (combine offsets (so_fields s)) ;> appendAll insert_end (map sf_name (so_fields s)).

Definition scalar_offsets (s : ScalarOutputV1) : list Z :=
  match scalar_name_offsets (24 + scalar_fields_size (so_fields s)) (so_fields s) with Ok os => os | Err _ => [] end.

Lemma scalar_block_written s :
  scalar_size s <= UINT32_MAX -> writeOutputDescriptorV1 (ScalarOutput s) = Ok (scalar_block s (scalar_offsets s) []).
Proof.
  intros Hs. cbn [writeOutputDescriptorV1]. unfold writeScalarOutput, scalar_offsets, scalar_size in *. change kScalarOutputFixedSize with 24.
  pose proof (scalar_fields_size_pos (so_fields s)). assert (0 <= names_size (so_fields s)) by (unfold names_size, blen; lia).
  destruct (_ >? _) eqn:E; [blia|]. rewrite scalar_values_end_ok by lia. cbn [ebind].
  destruct (proj2 (scalar_name_offsets_iff (24 + scalar_fields_size (so_fields s)) (so_fields s) ltac:(lia))) as [os ->]; [lia|]. done.
Qed.

Lemma bwrites_names fields : Forall scalar_field_ok fields ->
  BWrites (each (fun f => bappend alloc (string_view (sf_name f))) fields) (appendAll insert_end (map sf_name fields)).
Proof.
  intros Hf. apply (bwrites_ext _ (appendAll (fun f => insert_end (sf_name f)) fields)).
  - unfold appendAll. intros l. revert l. clear. induction fields as [|f k IH]; intros l; [done|]. cbn. apply IH.
  - apply bwrites_each; [apply _|]. eapply Forall_impl; [exact Hf|]. intros f (Hn & _). by apply bwrites_string.
Qed.

(** [ScalarWriter::finish] makes exactly the block of the scalars added. *)
Lemma scalar_finish_spec s :
  sw_wf s ->
  match ScalarWriter_finish alloc s with
  | Value b =>
    isOk (sw_status_ s) = true /\ exists block, writeOutputDescriptorV1 (ScalarOutput (as_scalar s)) = Ok block /\ blob_holds b block
  | Failed e =>
    isOk e = false /\ (isOk (sw_status_ s) = false \/ UINT32_MAX < scalar_size (as_scalar s) \/
      starved alloc (scalar_block (as_scalar s) (scalar_offsets (as_scalar s)) []))
  end.
Proof.
  intros [Ht Hf]. unfold ScalarWriter_finish. destruct (isOk (sw_status_ s)) eqn:Eo; cbn [negb]; [|split; [done|by left]].
  unfold scalar_size. cbn [as_scalar so_fields]. set (fields := fields_ s) in *.
  pose proof (scalar_fields_size_pos fields) as Hp. assert (0 <= names_size fields) as Hq by (unfold names_size, blen; lia).
  pose proof (sw_names_offset_spec 24 fields ltac:(done) Hf) as H1. destruct (sw_names_offset 24 fields) as [no|e1].
  2: { destruct H1. split; [done|]. right; left. lia. }
  destruct H1 as [-> H1]. pose proof (sw_total_size_spec (24 + scalar_fields_size fields) fields ltac:(lia) Hf) as H2.
  destruct (sw_total_size _ fields) as [n|e2]; [|destruct H2; split; [done|]; right; left; lia]. destruct H2 as [-> H2].
  destruct (_ || _) eqn:E; bprop; [split; [done|]; right; left; change UINT32_MAX with 4294967295 in *; lia|].
  assert (scalar_size (as_scalar s) <= UINT32_MAX) as Hsize by (unfold scalar_size; cbn [as_scalar so_fields]; fold fields; lia).
  match goal with |- match finished ?f with _ => _ end =>
    assert (BWrites f (wskip ;> scalar_block (as_scalar s) (scalar_offsets (as_scalar s)))) as Hwr end.
  { unfold scalar_block. cbn [as_scalar so_has_timestamp so_timestamp_ns so_fields]. fold fields.
    apply bwrites_then; [apply _|apply bwrites_reserve; unfold in_u; change UINT32_MAX with 4294967295 in *; cbn; lia|].
    apply bwrites_then; [apply _|apply bwrites_little|]. apply bwrites_then; [apply _|apply bwrites_u8|].
    apply bwrites_then; [apply _|apply bwrites_u8|]. apply bwrites_then; [apply _|apply bwrites_u8|].
    apply bwrites_then; [apply _|apply bwrites_zeros|]. do 2 (apply bwrites_then; [apply _|apply bwrites_little|]).
    apply bwrites_then; [apply _| |by apply bwrites_names]. apply bwrites_fields; [lia| |done]. unfold scalar_offsets. cbn [as_scalar so_fields]. fold fields.
    destruct (proj2 (scalar_name_offsets_iff (24 + scalar_fields_size fields) fields ltac:(lia))) as [os ->]; [lia|]. done. }
  apply finished_spec in Hwr. destruct (finished _) as [b|e].
  - split; [done|]. eexists. split; [by apply scalar_block_written|]. exact Hwr.
  - destruct Hwr as [Hb Hd]. split; [done|]. by right; right.
Qed.

Lemma sw_wf_new : sw_wf ScalarWriter_new.
Proof. split; [by_compute|constructor]. Qed.

Definition scalar_call_wf (c : ScalarCall) : Prop :=
  match c with sw_setTimestamp ts => in_s 64 ts | sw_add name v => scalar_field_ok (mkScalarFieldV1 name v) end.

Lemma sw_wf_call c s : scalar_call_wf c -> sw_wf s -> sw_wf (sw_call alloc c s).2.
Proof.
  intros Hc [Ht Hf]. assert (forall msg, sw_wf (sw_fail msg s).2) as Hfail by (intros; unfold sw_fail; cbn; case_match; by split).
  assert (forall name v, scalar_field_ok (mkScalarFieldV1 name v) -> sw_wf (sw_addValue alloc name v s).2) as Hadd.
  { intros name v Hv. unfold sw_addValue. destruct (negb _); [by split|]. destruct (_ && _); [|apply Hfail].
    split; [exact Ht|]. apply Forall_app. split; [exact Hf|by constructor]. }
  destruct c as [ts|name v]; [by split|]. cbn [sw_call]. destruct v; try by apply Hadd. destruct (alloc _); [by apply Hadd|apply Hfail].
Qed.

Lemma sw_wf_calls l s : Forall scalar_call_wf l -> sw_wf s -> sw_wf (sw_calls alloc l s).
Proof.
  unfold sw_calls. intros Hl. revert s. induction Hl as [|c l Hc Hl IH]; intros s Hs; [done|]. cbn [foldl]. by apply IH, sw_wf_call.
Qed.

(** What a history of calls describes: the last timestamp, and the fields in the order of their [add]s. *)
Definition called_scalar (l : list ScalarCall) : ScalarOutputV1 :=
  mkScalarOutputV1 (existsb (fun c => match c with sw_setTimestamp _ => true | _ => false end) l)
    (foldl (fun t c => match c with sw_setTimestamp ts => ts | _ => t end) 0 l)
    (concat (map (fun c => match c with sw_add name v => [mkScalarFieldV1 name v] | _ => [] end) l)).

Lemma sw_fail_bad msg s : isOk (sw_status_ (sw_fail msg s).2) = false.
Proof. unfold sw_fail. cbn. by destruct (isOk (sw_status_ s)) eqn:E. Qed.

Lemma sw_call_sticky c s : isOk (sw_status_ s) = false -> sw_status_ (sw_call alloc c s).2 = sw_status_ s.
Proof.
  intros E. destruct c as [ts|name v]; [done|]. cbn [sw_call].
  assert (forall w, sw_status_ (sw_addValue alloc name w s).2 = sw_status_ s) as Ha by (intros w; unfold sw_addValue; by rewrite E).
  destruct v; rewrite ?Ha; try done. destruct (alloc _); rewrite ?Ha; try done. unfold sw_fail. cbn. by rewrite E.
Qed.

Lemma sw_calls_sticky l s : isOk (sw_status_ s) = false -> isOk (sw_status_ (sw_calls alloc l s)) = false.
Proof.
  unfold sw_calls. revert s. induction l as [|c l IH]; intros s E; [done|]. cbn [foldl]. apply IH. by rewrite sw_call_sticky.
Qed.

Lemma sw_call_accepted c s : isOk (sw_status_ (sw_call alloc c s).2) = true ->
  (sw_call alloc c s).2 = match c with
    | sw_setTimestamp ts => s <| has_timestamp_ := true |> <| timestamp_ns_ := ts |>
    | sw_add name v => s <| fields_ := fields_ s ++ [mkScalarFieldV1 name v] |> end.
Proof.
  destruct c as [ts|name v]; [done|]. cbn [sw_call].
  assert (forall msg, isOk (sw_status_ (sw_fail msg s).2) = true -> False) as Hno by (intros msg H; by rewrite sw_fail_bad in H).
  assert (forall w, isOk (sw_status_ (sw_addValue alloc name w s).2) = true ->
    (sw_addValue alloc name w s).2 = s <| fields_ := fields_ s ++ [mkScalarFieldV1 name w] |>) as Ha.
  { intros w. unfold sw_addValue. destruct (isOk (sw_status_ s)) eqn:E; cbn [negb]; [|cbn; by rewrite E].
    destruct (_ && _); [done|]. intros H. by apply Hno in H. }
  destruct v; try apply Ha. destruct (alloc _); [apply Ha|]. intros H. by apply Hno in H.
Qed.

(** When no call failed, the writer holds what was called. *)
Lemma sw_calls_described l :
  isOk (sw_status_ (sw_calls alloc l ScalarWriter_new)) = true -> as_scalar (sw_calls alloc l ScalarWriter_new) = called_scalar l.
Proof.
  assert (forall s, isOk (sw_status_ (sw_calls alloc l s)) = true ->
    as_scalar (sw_calls alloc l s) = mkScalarOutputV1 (has_timestamp_ s || so_has_timestamp (called_scalar l))
      (foldl (fun t c => match c with sw_setTimestamp ts => ts | _ => t end) (timestamp_ns_ s) l) (fields_ s ++ so_fields (called_scalar l))) as H.
  2: { intros E. by rewrite (H _ E). }
  unfold called_scalar. cbn [so_has_timestamp so_timestamp_ns so_fields].
  induction l as [|c l IH]; intros s E; [cbn; rewrite orb_false_r, app_nil_r; by destruct s|].
  change (sw_calls alloc (c :: l) s) with (sw_calls alloc l (sw_call alloc c s).2) in *. rewrite (IH _ E).
  assert (isOk (sw_status_ (sw_call alloc c s).2) = true) as E'.
  { destruct (isOk (sw_status_ (sw_call alloc c s).2)) eqn:E'; [done|]. by rewrite sw_calls_sticky in E. }
  rewrite (sw_call_accepted _ _ E'). destruct c as [ts|name v]; cbn [existsb foldl map concat app]; [by rewrite orb_true_r|].
  cbn. by rewrite <-app_assoc.
Qed.
End Scalars.

(** ** The contract *)

Lemma descriptor_fits w block : writeOutputDescriptorV1 (ObjectOutput (descriptor_of w)) = Ok block -> fits (wire_of w []).
Proof.
  intros H. cbn [writeOutputDescriptorV1] in H. unfold writeObjectOutput, checkedAdd in H. cbn [descriptor_of oo_wire] in H.
  destruct (_ >? _) eqn:E; [done|]. rewrite Z.gtb_ltb in E. apply Z.ltb_ge in E. unfold fits, blen, kObjectOutputFixedSize in *. cbn. lia.
Qed.

(** C11 Any history of calls on an object writer and its builders, with any allocator: when [finish] succeeds, one kind of object
    was selected, its bulk data had at most one source, and the host reads from the block the object's type,
    its splice, which lies in the input payload, and a wire that decodes to the object of the calls; [finish]
    fails only when a call failed, nothing was selected or storage ran out. *)
Theorem object_writer_contract alloc payload calls :
  byte_view_wf payload -> Forall call_wf calls ->
  let w := ow_calls alloc calls (ObjectWriter_new payload) in
  match ObjectWriter_finish alloc w with
  | Value b =>
    kind_ w <> kNone /\ (forall kind, Select kind ∈ calls -> kind_ w = kind) /\
    (length (filter (fun c => is_bulk c = true) calls) <= 1)%nat /\
    readOutputDescriptorV1 (blob_bytes b) = Ok (ObjectOutput (descriptor_of w)) /\
    deserializeBuiltinObject (selectedObjectType (kind_ w)) (wire_of w []) = accepted (as_object w) /\
    (forall r, splice_ w = Some r -> ref_offset r + ref_length r <= bv_size payload)
  | Failed s =>
    isOk s = false /\ (isOk (status_ w) = false \/ kind_ w = kNone \/ starved alloc (object_block (descriptor_of w) []))
  end.
Proof.
  intros Hp Hc w. pose proof (inv_calls alloc payload Hp calls Hc) as Hinv. fold w in Hinv.
  pose proof (finish_spec alloc payload w Hinv) as Hf. destruct (ObjectWriter_finish alloc w) as [b|s]; [|done].
  destruct Hf as (Hok & Hk & block & Hb & Hholds). destruct (calls_selected alloc calls (ObjectWriter_new payload) Hc Hok) as (_ & _ & Hsel & Hbulk).
  destruct (blob_view_holds _ _ Hholds) as [_ Hbytes]. pose proof Hinv as (Hw & Hs & Hin). split_and!; [done|exact Hsel|exact Hbulk|..].
  - unfold blob_bytes. rewrite Hbytes. exact (object_output_written _ _ (descriptor_wf payload w Hinv) Hb).
  - apply wire_decodes; [done..|]. by apply descriptor_fits with block.
  - intros r Hr. unfold splice_ok in Hs. rewrite Hr, Hin in Hs. by destruct Hs as (_ & Hs & _).
Qed.

(** A video frame whose data is a span of the payload. *)
Definition sample_calls : list Call :=
  [Select kVideoFrame; OnVideoFrame (vfs_setTimestamp 5); OnVideoFrame (vfs_setFormat (str "h264"));
   OnVideoFrame (vfs_setDataFromInput (mkInputSpanRef 1 2))].
Definition sample_payload : ByteView := mkByteView (Some [Byte.x01; Byte.x02; Byte.x03; Byte.x04]) 4.

Lemma sample_calls_wf : Forall call_wf sample_calls.
Proof. repeat (constructor; [first [done | split; by_compute | by_compute]|]); constructor. Qed.

Lemma object_writer_contract_witness :
  byte_view_wf sample_payload /\ Forall call_wf sample_calls /\
  let w := ow_calls (fun _ => true) sample_calls (ObjectWriter_new sample_payload) in
  hasValue (ObjectWriter_finish (fun _ => true) w) = true /\ splice_ w = Some (mkInputSpanRef 1 2) /\
  (length (filter (fun c => is_bulk c = true) sample_calls) <= 1)%nat.
Proof.
  assert (byte_view_wf sample_payload) as Hp by (split; [by_compute|done]).
  pose proof sample_calls_wf as Hc.
  pose proof (object_writer_contract (fun _ => true) sample_payload sample_calls Hp Hc) as H.
  split; [exact Hp|]. split; [exact Hc|]. split; [vm_compute; reflexivity|]. split; [vm_compute; reflexivity|].
  cbv zeta in H. destruct (ObjectWriter_finish (fun _ => true) (ow_calls (fun _ => true) sample_calls (ObjectWriter_new sample_payload))) as [b|s] eqn:E; [exact (proj1 (proj2 (proj2 H)))|vm_compute in E; discriminate E].
Defined.
