(* ===== verification/ModuleReaders.v ===== *)
(** * ModuleReaders: the blocks as a module reads them

    [pj_base/parser_module/module.hpp]: [LittleEndianReader], [readBindingInfo],
    [BindingInfo::owningCopy] and [readParseInput].  A module decodes its input with views
    into the caller's buffer; [ModuleAbi] has the decoders of the host for the same blocks, and
    the theorem says that they agree on every block. *)

From S2P Require Import Prelude ProtobufWire ModuleAbi ParserCore ObjectWriter ObjectWriterProofs.

Record BindingInfo : Set := mkBindingInfo {
  route_ : Z; claim_index_ : Z; expected_object_type_ : Z; encoding_ : ByteView; type_name_ : ByteView;
  schema_ : ByteView; claim_id_ : ByteView; config_json_ : ByteView; schema_digest_ : ByteView }.

Record OwnedBindingInfo : Set := mkOwnedBindingInfo {
  owned_route : Z; owned_claim_index : Z; owned_expected_object_type : Z; owned_encoding : Blob; owned_type_name : Blob;
  owned_schema : Blob; owned_claim_id : Blob; owned_config_json : Blob; owned_schema_digest : Blob }.

Record ParseInput : Set := mkParseInput { has_timestamp : bool; timestamp_ns : Z; payload : ByteView }.

(** ** LittleEndianReader *)

Record LittleEndianReader : Set := mkLittleEndianReader { ler_bytes : ByteView; ler_position : Z }.

Definition byte_at (v : ByteView) (index : Z) : Z :=
  match bv_data v with Some data => b2z (default Byte.x00 (data !! Z.to_nat index)) | None => 0 end.

Definition ler_blocked (size : Z) (r : LittleEndianReader) : bool :=
  (ler_position r >? bv_size (ler_bytes r)) || (size >? wrap 64 (bv_size (ler_bytes r) - ler_position r)).

(** [read] of an unsigned type of [width] bytes. *)
Definition ler_read (width : nat) (r : LittleEndianReader) : option Z * LittleEndianReader :=
  if ler_blocked (Z.of_nat width) r then (None, r)
  else
    let value := foldl (fun value index =>
      Z.lor value (Z.shiftl (byte_at (ler_bytes r) (ler_position r + Z.of_nat index)) (8 * Z.of_nat index))) 0 (seq 0 width) in
    (Some value, mkLittleEndianReader (ler_bytes r) (ler_position r + Z.of_nat width)).

Definition ler_skip (size : Z) (r : LittleEndianReader) : option unit * LittleEndianReader :=
  if ler_blocked size r then (None, r)
  else (Some tt, mkLittleEndianReader (ler_bytes r) (ler_position r + size)).

Notation "'fetch!' x := m 'or' e 'in' k" :=
  (fun r : LittleEndianReader => match m r with (Some x, r') => k r' | (None, _) => Failed (status_error (str e)) end)
  (at level 10, x pattern, m at level 100, e at level 0, k at level 200) : pj_scope.
Notation "'unless!' c 'or' e 'in' k" := (fun r : LittleEndianReader => if c then Failed (status_error (str e)) else k r)
  (at level 10, c at level 0, e at level 0, k at level 200) : pj_scope.

(** ** BindingInfo *)

(** The loop over the field table; [fields] is the array of six views. *)
Fixpoint fetch_fields (count : nat) (index : Z) (block : ByteView) (fields : list ByteView) : LittleEndianReader -> PjExpected (list ByteView) :=
  match count with
  | O => fun _ => Value fields
  | S count' =>
    fetch! offset := ler_read 4 or "truncated BindingInfo field descriptor" in
    fetch! len := ler_read 4 or "truncated BindingInfo field descriptor" in
    unless! ((offset >? bv_size block) || (len >? bv_size block - offset)) or "BindingInfo field range is outside the block" in
    fetch_fields count' (index + 1) block
      (if index <? 6
       then <[Z.to_nat index := mkByteView (option_map (drop (Z.to_nat offset)) (bv_data block)) len]> fields else fields)
  end.

Definition null_view : ByteView := mkByteView None 0.

Definition view_at (fields : list ByteView) (i : nat) : ByteView := default null_view (fields !! i).

Definition fetch_binding (block : ByteView) : LittleEndianReader -> PjExpected BindingInfo :=
  fetch! version := ler_read 2 or "truncated BindingInfo v1 header" in
   fetch! route := ler_read 2 or "truncated BindingInfo v1 header" in
   fetch! claim_index := ler_read 4 or "truncated BindingInfo v1 header" in
   fetch! expected_type := ler_read 2 or "truncated BindingInfo v1 header" in
   fetch! _ := ler_read 2 or "truncated BindingInfo v1 header" in
   fetch! field_count := ler_read 4 or "truncated BindingInfo v1 header" in
   unless! (negb (version =? 1) || (negb (route =? 1) && negb (route =? 2))) or "unsupported BindingInfo version or route" in
   fun r => if (field_count <? 6) || (field_count >? (bv_size block - ler_position r) / 8)
   then Failed (status_error (str "truncated BindingInfo field table"))
   else
     match fetch_fields (Z.to_nat field_count) 0 block (replicate 6 null_view) r with
     | Failed s => Failed s
     | Value fields =>
       Value (mkBindingInfo route claim_index expected_type (view_at fields 0) (view_at fields 1)
                (view_at fields 2) (view_at fields 3) (view_at fields 4) (view_at fields 5))
     end.

Definition readBindingInfo (block : ByteView) : PjExpected BindingInfo :=
  if match bv_data block with None => true | _ => false end || (bv_size block <? 16)
  then Failed (status_error (str "truncated BindingInfo v1 header"))
  else fetch_binding block (mkLittleEndianReader block 0).

Section Owned.
Context (alloc : Z -> bool).

(** The lambda [copy] of [owningCopy]. *)
Definition copy_field (destination : Blob) (source : ByteView) : Status * Blob :=
  let '(resized, destination) := blob_resize alloc destination (bv_size source) in
  if negb (isOk resized) then (resized, destination)
  else if negb (bv_size source =? 0) then
    match bv_data source with
    | None => (status_error (str "BindingInfo field has null storage"), destination)
    | Some _ => (status_ok, blob_copy destination source)
    end
  else (status_ok, destination).

(** The loop over the six fields. *)
Fixpoint copy_fields (sources : list ByteView) : PjExpected (list Blob) :=
  match sources with
  | [] => Value []
  | source :: rest =>
    let '(copied, destination) := copy_field blob_empty source in
    if negb (isOk copied) then Failed copied
    else match copy_fields rest with Failed s => Failed s | Value blobs => Value (destination :: blobs) end
  end.

Definition view_fields (info : BindingInfo) : list ByteView :=
  [encoding_ info; type_name_ info; schema_ info; claim_id_ info; config_json_ info; schema_digest_ info].

Definition owningCopy (info : BindingInfo) : PjExpected OwnedBindingInfo :=
  match copy_fields (view_fields info) with
  | Failed s => Failed s
  | Value blobs =>
    let blob i := default blob_empty (blobs !! i) in
    Value (mkOwnedBindingInfo (route_ info) (claim_index_ info) (expected_object_type_ info)
             (blob 0%nat) (blob 1%nat) (blob 2%nat) (blob 3%nat) (blob 4%nat) (blob 5%nat))
  end.

End Owned.

(** ** ParseInput *)

Definition fetch_input (block : ByteView) (flags : Z) : LittleEndianReader -> PjExpected ParseInput :=
  fetch! _ := ler_skip 8 or "truncated ParseInput v1 flags" in
   fetch! timestamp_bits := ler_read 8 or "truncated ParseInput v1 header" in
   fetch! payload_length := ler_read 8 or "truncated ParseInput v1 header" in
   fun r => if (payload_length >? SIZE_MAX) || negb (payload_length =? bv_size block - ler_position r)
   then Failed (status_error (str "ParseInput payload length does not match the block"))
   else Value (mkParseInput (negb (Z.land flags 1 =? 0)) (to_signed 64 timestamp_bits)
     (mkByteView (option_map (drop (Z.to_nat (ler_position r))) (bv_data block)) payload_length)).

Definition readParseInput (block : ByteView) : PjExpected ParseInput :=
  if match bv_data block with None => true | _ => false end || (bv_size block <? 24)
  then Failed (status_error (str "truncated ParseInput v1 header"))
  else
    let flags := byte_at block 0 in
    if negb (Z.land flags 254 =? 0) then Failed (status_error (str "ParseInput v1 has unknown flag bits"))
    else fetch_input block flags (mkLittleEndianReader block 0).

(** ** The two decoders of a block *)

(** A reader at [position] of a block of readable bytes stands for the rest of its bytes. *)
Definition ler_at (block : ByteView) (position : Z) (rest : bytes) : Prop :=
  0 <= position <= bv_size block /\ rest = drop (Z.to_nat position) (view_bytes block).

Lemma readFixed_range width r v r' : readFixed width r = (Some v, r') -> in_u (8 * Z.of_nat width) v.
Proof.
  intros H. destruct (decide (width <= length r)%nat) as [Hl|Hl].
  - rewrite readFixed_spec in H by done. simplify_eq. pose proof (le_val_range (take width r)) as Hr. rewrite length_take_le in Hr by done. done.
  - unfold readFixed in H. by rewrite (proj2 (Nat.ltb_lt _ _)) in H by lia.
Qed.

Section Agree.
Context (block : ByteView) (data : bytes) (block_wf : byte_view_wf block) (block_data : bv_data block = Some data).

Lemma block_bytes : view_bytes block = take (Z.to_nat (bv_size block)) data /\ bv_size block = blen (view_bytes block).
Proof.
  destruct block_wf as [Hs Hd]. unfold view_bytes. rewrite block_data in *. split; [done|].
  unfold blen. rewrite length_take. unfold in_u in Hs. lia.
Qed.

Lemma ler_rest position rest : ler_at block position rest -> blen rest = bv_size block - position.
Proof. intros [Hp ->]. destruct block_bytes as [_ Hs]. unfold blen in *. rewrite length_drop. lia. Qed.

Lemma ler_blocked_iff position rest size :
  ler_at block position rest -> ler_blocked size (mkLittleEndianReader block position) = (size >? blen rest).
Proof.
  intros Hat. rewrite (ler_rest _ _ Hat). destruct Hat as [Hp _], block_wf as [Hs _]. unfold ler_blocked, in_u in *. cbn [ler_bytes ler_position].
  rewrite wrap_small by (unfold in_u; lia). destruct (position >? _) eqn:E; [blia|done].
Qed.

Lemma ler_advance position rest n :
  ler_at block position rest -> Z.of_nat n <= blen rest -> ler_at block (position + Z.of_nat n) (drop n rest).
Proof.
  intros Hat Hn. pose proof (ler_rest _ _ Hat) as Hr. destruct Hat as [Hp ->]. split; [lia|]. rewrite drop_drop. f_equal. lia.
Qed.

Lemma ler_byte position rest i :
  ler_at block position rest -> (i < length rest)%nat -> byte_at block (position + Z.of_nat i) = b2z (default Byte.x00 (rest !! i)).
Proof.
  intros [Hp ->] Hi. destruct block_bytes as [Hb Hs]. unfold byte_at. rewrite block_data, lookup_drop, Hb, lookup_take_lt.
  - do 3 f_equal. lia.
  - rewrite length_drop in Hi. unfold blen in Hs. lia.
Qed.

Lemma assemble_value (f : nat -> Z) (l : bytes) i n out :
  (n <= length l)%nat -> (forall j, (j < n)%nat -> f (i + j)%nat = b2z (default Byte.x00 (l !! j))) ->
  foldl (fun value index => Z.lor value (Z.shiftl (f index) (8 * Z.of_nat index))) out (seq i n) = readFixed_from i n out l.
Proof.
  revert i out l. induction n as [|n IH]; intros i out l Hn Hf; [done|]. destruct l as [|b l]; [cbn in Hn; lia|].
  cbn [seq foldl readFixed_from]. rewrite <-(IH (S i)).
  - specialize (Hf 0%nat ltac:(lia)). rewrite Nat.add_0_r in Hf. by rewrite Hf.
  - cbn [length] in Hn. lia.
  - intros j Hj. specialize (Hf (S j) ltac:(lia)). by rewrite Nat.add_succ_comm.
Qed.

(** One read of the module is the host's read of the rest. *)
Lemma ler_read_spec position rest width :
  ler_at block position rest ->
  match readFixed width rest with
  | (Some v, rest') => ler_read width (mkLittleEndianReader block position) = (Some v, mkLittleEndianReader block (position + Z.of_nat width)) /\
      ler_at block (position + Z.of_nat width) rest'
  | (None, _) => (ler_read width (mkLittleEndianReader block position)).1 = None
  end.
Proof.
  intros Hat. unfold ler_read, readFixed. rewrite (ler_blocked_iff _ _ _ Hat). unfold blen.
  destruct (length rest <? width)%nat eqn:E, (Z.of_nat width >? Z.of_nat (length rest)) eqn:E2; bprop; try lia; [done|].
  cbn [ler_bytes ler_position]. split; [|apply ler_advance; [done|unfold blen; lia]].
  do 2 f_equal. apply (assemble_value (fun i => byte_at block (position + Z.of_nat i))); [lia|].
  intros j Hj. apply ler_byte; [done|lia].
Qed.

Lemma ler_skip_spec position rest size :
  ler_at block position rest ->
  match read_skip size rest with
  | (Some _, rest') => ler_skip (Z.of_nat size) (mkLittleEndianReader block position) = (Some tt, mkLittleEndianReader block (position + Z.of_nat size)) /\
      ler_at block (position + Z.of_nat size) rest'
  | (None, _) => (ler_skip (Z.of_nat size) (mkLittleEndianReader block position)).1 = None
  end.
Proof.
  intros Hat. unfold ler_skip, read_skip. rewrite (ler_blocked_iff _ _ _ Hat). unfold blen.
  destruct (length rest <? size)%nat eqn:E, (Z.of_nat size >? Z.of_nat (length rest)) eqn:E2; bprop; try lia; [done|].
  split; [done|]. apply ler_advance; [done|unfold blen; lia].
Qed.

(** Both decoders give related values, or both refuse. *)
Definition agree {A B} (R : A -> B -> Prop) (m : PjExpected A) (h : Expected B) : Prop :=
  match m, h with Value a, Ok b => R a b | Failed s, Err _ => isOk s = false | _, _ => False end.

Context {A B : Type} (R : A -> B -> Prop).
Notation at_ p := (mkLittleEndianReader block p).

Lemma agree_read position rest width e e' (k : Z -> LittleEndianReader -> PjExpected A) (k' : Z -> reader -> Expected B) :
  ler_at block position rest ->
  (forall v rest', in_u (8 * Z.of_nat width) v -> ler_at block (position + Z.of_nat width) rest' -> agree R (k v (at_ (position + Z.of_nat width))) (k' v rest')) ->
  agree R ((fetch! x := ler_read width or e in k x) (at_ position)) ((read! x := readFixed width or e' in k' x) rest).
Proof.
  intros Hat Hk. cbv beta. pose proof (ler_read_spec _ _ width Hat) as H. destruct (readFixed width rest) as [[v|] rest'] eqn:E.
  - destruct H as [-> H']. refine (Hk _ _ _ H'). exact (readFixed_range _ _ _ _ E).
  - by destruct (ler_read _ _) as [o r]; cbn [fst] in H; subst.
Qed.

Lemma agree_read_signed position rest e e' (k : Z -> LittleEndianReader -> PjExpected A) (k' : Z -> reader -> Expected B) :
  ler_at block position rest ->
  (forall v rest', ler_at block (position + 8) rest' -> agree R (k v (at_ (position + 8))) (k' (to_signed 64 v) rest')) ->
  agree R ((fetch! x := ler_read 8 or e in k x) (at_ position)) ((read! x := read_i64 or e' in k' x) rest).
Proof.
  intros Hat Hk. cbv beta. pose proof (ler_read_spec _ _ 8 Hat) as H. unfold read_i64, read_u64. destruct (readFixed 8 rest) as [[v|] rest'].
  - destruct H as [-> H']. exact (Hk _ _ H').
  - by destruct (ler_read _ _) as [o r]; cbn [fst] in H; subst.
Qed.

Lemma agree_skip position rest size e e' (k : LittleEndianReader -> PjExpected A) (k' : reader -> Expected B) :
  ler_at block position rest ->
  (forall rest', ler_at block (position + Z.of_nat size) rest' -> agree R (k (at_ (position + Z.of_nat size))) (k' rest')) ->
  agree R ((fetch! _ := ler_skip (Z.of_nat size) or e in k) (at_ position)) ((read! _ := read_skip size or e' in k') rest).
Proof.
  intros Hat Hk. cbv beta. pose proof (ler_skip_spec _ _ size Hat) as H. destruct (read_skip size rest) as [[v|] rest'].
  - destruct H as [-> H']. exact (Hk _ H').
  - by destruct (ler_skip _ _) as [o r]; cbn [fst] in H; subst.
Qed.

(** The module reads the reserved bytes that the host skips. *)
Lemma agree_reserved position rest width e e' (k : LittleEndianReader -> PjExpected A) (k' : reader -> Expected B) :
  ler_at block position rest ->
  (forall rest', ler_at block (position + Z.of_nat width) rest' -> agree R (k (at_ (position + Z.of_nat width))) (k' rest')) ->
  agree R ((fetch! _ := ler_read width or e in k) (at_ position)) ((read! _ := read_skip width or e' in k') rest).
Proof.
  intros Hat Hk. cbv beta. pose proof (ler_read_spec _ _ width Hat) as H. unfold readFixed in H. unfold read_skip.
  destruct (_ <? _)%nat; [by destruct (ler_read _ _) as [o r]; cbn [fst] in H; subst|]. destruct H as [-> H']. exact (Hk _ H').
Qed.
End Agree.

Lemma agree_mono {A B} (R R' : A -> B -> Prop) m h : (forall a b, R a b -> R' a b) -> agree R m h -> agree R' m h.
Proof. destruct m, h; cbn; auto. Qed.

(** The array of views that the module fills, beside the list that the host grows. *)
Definition fields_at (index : Z) (views : list ByteView) (fields : list bytes) : Prop :=
  length views = 6%nat /\ length fields = Z.to_nat (Z.min index 6) /\
  forall i, (i < length fields)%nat -> fields !! i = option_map view_bytes (views !! i).

Lemma window_of_take {A} (l : list A) o n s : 
  0 <= o -> 0 <= n -> o + n <= s -> take (Z.to_nat n) (drop (Z.to_nat o) (take (Z.to_nat s) l)) = take (Z.to_nat n) (drop (Z.to_nat o) l).
Proof. intros. rewrite !take_drop_commute, take_take. do 2 f_equal. lia. Qed.

Lemma agree_fields block data count index views fields position rest :
  byte_view_wf block -> bv_data block = Some data -> 0 <= index -> ler_at block position rest -> fields_at index views fields ->
  agree (fields_at (index + Z.of_nat count)) (fetch_fields count index block views (mkLittleEndianReader block position))
    (read_binding_fields count index (view_bytes block) fields rest).
Proof.
  intros Hwf Hd. revert index views fields position rest. induction count as [|count IH]; intros index views fields position rest Hi Hat Hf.
  { cbn. by rewrite Z.add_0_r. }
  cbn [fetch_fields read_binding_fields]. apply (agree_read block data); [done..|]. intros offset r1 Ho H1. apply (agree_read block data); [done..|]. intros len r2 Hlen H2.
  destruct (block_bytes block data Hwf Hd) as [Hb Hs]. rewrite <-Hs.
  destruct (_ || _) eqn:E; [done|]. replace (index + Z.of_nat (S count)) with (index + 1 + Z.of_nat count) by lia.
  apply IH; [lia|done|]. destruct Hf as (Hl & Hn & Hv). unfold kBindingFieldCountV1. destruct (index <? 6) eqn:E6; bprop.
  - split_and!; [by rewrite length_insert|rewrite length_app; cbn [length]; lia|]. intros i Hlt. rewrite length_app in Hlt. cbn [length] in Hlt.
    destruct (decide (i = Z.to_nat index)) as [->|Hne].
    + rewrite list_lookup_insert_eq, lookup_app_r by lia. replace (_ - _)%nat with 0%nat by lia. cbn. f_equal.
      unfold in_u in *. rewrite Hd. unfold view_bytes. cbn [bv_data bv_size option_map]. rewrite Hd. apply window_of_take; lia.
    + rewrite list_lookup_insert_ne, lookup_app_l by lia. apply Hv. lia.
  - split_and!; [done|lia|done].
Qed.

(** *** The theorems *)

(** A binding whose views show the bytes of the host's binding. *)
Definition same_binding (info : BindingInfo) (host : BindingInfoV1) : Prop :=
  route_ info = bi_route host /\ claim_index_ info = bi_claim_index host /\ expected_object_type_ info = bi_expected_object_type host /\
  map view_bytes (view_fields info) = binding_fields host.

Definition same_input (input : ParseInput) (host : ParseInputV1) : Prop :=
  has_timestamp input = pi_has_timestamp host /\ timestamp_ns input = pi_timestamp_ns host /\ view_bytes (payload input) = pi_payload host.

Lemma ler_start block data : byte_view_wf block -> bv_data block = Some data -> ler_at block 0 (view_bytes block).
Proof. intros [[H0 H1] _] _. split; [lia|done]. Qed.

Lemma fields_none : fields_at 0 (replicate 6 null_view) [].
Proof. split_and!; [done..|]. intros i Hi. cbn in Hi. lia. Qed.

Lemma fields_full n views fields : 6 <= n -> fields_at n views fields -> fields = map view_bytes views /\ length views = 6%nat.
Proof.
  intros Hn (Hl & Hf & Hv). split; [|done]. apply (list_eq_same_length _ _ 6); [by rewrite length_map|rewrite Hf; lia|].
  intros i x y Hi Hx Hy. rewrite Hv in Hx by lia. change (map view_bytes views) with (view_bytes <$> views) in Hy. rewrite list_lookup_fmap in Hy.
  destruct (views !! i); cbn in *; congruence.
Qed.

(** A block too short for its header: the host refuses what only a longer block could satisfy. *)
Lemma agree_short {A B} (R : A -> B -> Prop) (size minimum : Z) (e : string) m h :
  agree (fun a b => R a b /\ minimum <= size) m h -> agree R (if size <? minimum then Failed (status_error (str e)) else m) h.
Proof.
  intros H. destruct (size <? minimum) eqn:E; [|by eapply agree_mono; [|exact H]; intros a b []].
  apply Z.ltb_lt in E. destruct m, h; cbn in *; try done. destruct H. lia.
Qed.

Lemma fetch_binding_agrees block data :
  byte_view_wf block -> bv_data block = Some data ->
  agree (fun a b => same_binding a b /\ 16 <= bv_size block) (fetch_binding block (mkLittleEndianReader block 0)) (readBindingInfoV1 (view_bytes block)).
Proof.
  intros Hwf Hd. destruct (block_bytes block data Hwf Hd) as [Hb Hs]. pose proof (ler_start block data Hwf Hd) as Hat.
  unfold fetch_binding, readBindingInfoV1, decode_binding.
  apply (agree_read block data); [done..|]. intros version r1 _ H1.
  apply (agree_read block data); [done..|]. intros route r2 _ H2.
  apply (agree_read block data); [done..|]. intros claim r3 _ H3.
  apply (agree_read block data); [done..|]. intros type r4 _ H4.
  apply (agree_reserved block data); [done..|]. intros r5 H5.
  apply (agree_read block data); [done..|]. intros count r6 Hc H6. cbv beta.
  pose proof (ler_rest block data Hwf Hd _ _ H6) as Hr. cbn [ler_position]. set (p := 0 + _ + _ + _ + _ + _ + _) in *.
  change (validRoute route) with ((route =? 1) || (route =? 2)). unfold remaining. change (Z.of_nat (length r6)) with (blen r6). rewrite Hr.
  unfold kBindingFieldCountV1, kBindingFieldDescriptorSize. rewrite <-negb_orb.
  destruct (version =? 1); [|done]. cbn [negb orb]. destruct ((route =? 1) || (route =? 2)); [|done]. cbn [negb orb].
  destruct (count <? 6) eqn:E6; [done|]. destruct (count >? _); [done|]. cbn [orb]. apply Z.ltb_ge in E6.
  pose proof (agree_fields block data (Z.to_nat count) 0 (replicate 6 null_view) [] p r6 Hwf Hd ltac:(lia) H6 fields_none) as Hf.
  destruct (fetch_fields _ _ _ _ _) as [views|s], (read_binding_fields _ _ _ _ _) as [fields|e]; try done.
  apply fields_full in Hf as [-> Hl]; [|lia]. cbn [ebind agree]. split; [|destruct H6; lia].
  do 6 (destruct views as [|? views]; [done|]). destruct views; [|done]. done.
Qed.

(** The module and the host agree on every block of a binding. *)
Lemma readBindingInfo_agrees block : byte_view_wf block -> agree same_binding (readBindingInfo block) (readBindingInfoV1 (view_bytes block)).
Proof.
  intros Hwf. unfold readBindingInfo. destruct (bv_data block) as [data|] eqn:Hd; cbn [orb]; [|unfold view_bytes; by rewrite Hd].
  by apply agree_short, fetch_binding_agrees with data.
Qed.

(** The module tests the flags before it reads on, the host after its reads. *)
Lemma fetch_input_agrees block data :
  byte_view_wf block -> bv_data block = Some data ->
  agree (fun a b => same_input a b /\ 24 <= bv_size block)
    (if negb (Z.land (byte_at block 0) 254 =? 0) then Failed (status_error (str "ParseInput v1 has unknown flag bits"))
     else fetch_input block (byte_at block 0) (mkLittleEndianReader block 0)) (readParseInputV1 (view_bytes block)).
Proof.
  intros Hwf Hd. destruct (block_bytes block data Hwf Hd) as [Hb Hs]. pose proof (ler_start block data Hwf Hd) as Hat.
  unfold readParseInputV1. destruct (view_bytes block) as [|b l] eqn:Ev.
  { unfold fetch_input. pose proof (ler_skip_spec block data Hwf Hd 0 _ 8 Hat) as H. destruct (ler_skip _ _) as [o r]. cbn in H. subst o. by destruct (negb _). }
  assert (byte_at block 0 = b2z b) as Hflags by exact (ler_byte block data Hwf Hd 0 (b :: l) 0 Hat ltac:(cbn; lia)).
  assert (read_u8 (b :: l) = (Some (b2z b), l)) as Hu8.
  { unfold read_u8. rewrite readFixed_spec by (cbn; lia). cbn [take drop le_val]. by rewrite Z.mul_0_r, Z.add_0_r. }
  rewrite Hflags, Hu8. destruct (Z.land (b2z b) 254 =? 0) eqn:Ef; cbn [negb].
  2: { destruct (read_skip 7 l) as [[|] r1]; [|done]. destruct (read_i64 r1) as [[|] r2]; [|done]. by destruct (read_u64 r2) as [[|] r3]. }
  unfold fetch_input. pose proof (ler_skip_spec block data Hwf Hd 0 _ 8 Hat) as H. unfold read_skip in *. cbn [length] in H.
  change (S (length l) <? 8)%nat with (length l <? 7)%nat in H. destruct (length l <? 7)%nat.
  { destruct (ler_skip _ _) as [o r]. cbn in H. by subst o. }
  change (Z.of_nat 8) with 8 in H. cbn [drop] in H. destruct H as [-> H1]. cbn [Z.add] in *.
  apply (agree_read_signed block data); [done..|]. intros ts r2 H2.
  apply (agree_read block data); [done..|]. intros len r3 Hlen H3. cbv beta. cbn [ler_position].
  pose proof (ler_rest block data Hwf Hd _ _ H3) as Hr. unfold remaining. change (Z.of_nat (length r3)) with (blen r3). rewrite Hr.
  change (0 + 8 + 8 + Z.of_nat 8) with 24 in *. destruct (len >? SIZE_MAX) eqn:El; [unfold in_u in Hlen; cbn in Hlen; blia|]. cbn [orb].
  destruct (len =? bv_size block - 24) eqn:Ee; [|done]. cbn [negb]. apply Z.eqb_eq in Ee. unfold read_take, remaining.
  change (Z.of_nat (length r3)) with (blen r3). rewrite Hr, Z.gtb_ltb, (proj2 (Z.ltb_ge _ _)) by lia. cbn [agree].
  split; [|destruct H3; lia]. split_and!; [done..|]. cbn [payload pi_payload]. destruct H3 as [H3 ->]. rewrite Ev, Hb, Hd. unfold view_bytes. cbn [bv_data bv_size option_map].
  symmetry. apply window_of_take; lia.
Qed.

Lemma readParseInput_agrees block : byte_view_wf block -> agree same_input (readParseInput block) (readParseInputV1 (view_bytes block)).
Proof.
  intros Hwf. unfold readParseInput. destruct (bv_data block) as [data|] eqn:Hd; cbn [orb]; [|unfold view_bytes; by rewrite Hd].
  by apply agree_short, fetch_input_agrees with data.
Qed.

(** A copy owns the bytes its view shows; it fails only when the storage is not there. *)
Lemma copy_field_spec alloc source :
  byte_view_wf source ->
  let '(s, b) := copy_field alloc blob_empty source in
  (s = status_ok /\ blob_holds b (view_bytes source)) \/ (isOk s = false /\ starved alloc (view_bytes source)).
Proof.
  intros Hv. pose proof (view_bytes_length _ Hv) as Hl. unfold copy_field.
  destruct (blob_resize_refines alloc blob_empty [] (bv_size source)) as [(b & -> & Hb)|(e & -> & He)]; [by vm_compute|by destruct Hv| |].
  - cbn [isOk code status_ok negb blob_spec] in *. rewrite take_nil, Nat.sub_0_r in Hb. cbn [app] in Hb. destruct (bv_size source =? 0) eqn:E; bprop; cbn [negb].
    + left. split; [done|]. rewrite E in *. cbn in Hb. by destruct (view_bytes source).
    + assert (bv_data source <> None) as Hd by (intros Hd; destruct Hv as [_ Hv]; rewrite Hd in Hv; done). destruct (bv_data source); [|done].
      left. split; [done|]. apply (blob_copy_holds b source _ Hb Hv). rewrite length_replicate. lia.
  - right. split; [done|]. destruct He as [He|He]; [by left|right]. cbn [blob_spec] in He. rewrite take_nil, Nat.sub_0_r in He. cbn [app] in He.
    rewrite length_replicate in He. unfold blen. destruct Hv as [[? ?] _]. lia.
Qed.

Definition owned_fields (owned : OwnedBindingInfo) : list Blob :=
  [owned_encoding owned; owned_type_name owned; owned_schema owned; owned_claim_id owned; owned_config_json owned; owned_schema_digest owned].

Lemma copy_fields_spec alloc sources :
  Forall byte_view_wf sources ->
  match copy_fields alloc sources with
  | Value blobs => Forall2 (fun b v => blob_holds b (view_bytes v)) blobs sources
  | Failed s => isOk s = false /\ Exists (fun v => starved alloc (view_bytes v)) sources
  end.
Proof.
  induction 1 as [|v l Hv Hl IH]; cbn [copy_fields]; [constructor|]. pose proof (copy_field_spec alloc v Hv) as Hc.
  destruct (copy_field alloc blob_empty v) as [s b]. destruct Hc as [[-> Hc]|[E Hc]]; [cbn [negb isOk code status_ok]|rewrite E; cbn [negb]].
  - destruct (copy_fields alloc l) as [blobs|s]; [by constructor|]. destruct IH as [? IH]. split; [done|by constructor 2].
  - split; [exact E|by constructor].
Qed.

(** [owningCopy] owns the bytes of every view, or fails when storage fails. *)
Lemma owningCopy_spec alloc info :
  Forall byte_view_wf (view_fields info) ->
  match owningCopy alloc info with
  | Value owned =>
    owned_route owned = route_ info /\ owned_claim_index owned = claim_index_ info /\
    owned_expected_object_type owned = expected_object_type_ info /\
    Forall2 (fun b v => blob_holds b (view_bytes v)) (owned_fields owned) (view_fields info)
  | Failed s => isOk s = false /\ Exists (fun v => starved alloc (view_bytes v)) (view_fields info)
  end.
Proof.
  intros Hf. unfold owningCopy. pose proof (copy_fields_spec alloc _ Hf) as H. destruct (copy_fields _ _) as [blobs|s]; [|done].
  split_and!; [done..|]. pose proof (Forall2_length _ _ _ H) as Hl. do 6 (destruct blobs as [|? blobs]; [done|]). destruct blobs; [exact H|done].
Qed.

Lemma ler_read_nonneg width r v r' : ler_read width r = (Some v, r') -> 0 <= v.
Proof.
  unfold ler_read. destruct (ler_blocked _ _); [done|]. intros H. injection H as <- _.
  assert (forall l acc, 0 <= acc -> 0 <= foldl (fun value index => Z.lor value (Z.shiftl (byte_at (ler_bytes r) (ler_position r + Z.of_nat index)) (8 * Z.of_nat index))) acc l) as Hn.
  { induction l as [|i l IH]; intros acc Ha; [done|]. cbn [foldl]. apply IH. apply Z.lor_nonneg. split; [done|]. apply Z.shiftl_nonneg.
    unfold byte_at. destruct (bv_data _); [apply b2z_range|done]. }
  by apply Hn.
Qed.

Lemma ler_read_position width r v r' : ler_read width r = (Some v, r') -> ler_position r' = ler_position r + Z.of_nat width.
Proof. unfold ler_read. destruct (ler_blocked _ _); [done|]. intros H. by injection H as _ <-. Qed.

Lemma ler_skip_position size r v r' : ler_skip size r = (Some v, r') -> ler_position r' = ler_position r + size.
Proof. unfold ler_skip. destruct (ler_blocked _ _); [done|]. intros H. by injection H as _ <-. Qed.

(** The views of a binding that was read lie in its block. *)
Lemma fetch_fields_wf count index block views r fields :
  byte_view_wf block -> Forall byte_view_wf views -> fetch_fields count index block views r = Value fields -> Forall byte_view_wf fields.
Proof.
  intros Hwf. revert index views r. induction count as [|count IH]; intros index views r Hv H; cbn [fetch_fields] in H; [by injection H as <-|].
  destruct (ler_read 4 r) as [[offset|] r1] eqn:E1; [|done]. destruct (ler_read 4 r1) as [[len|] r2] eqn:E2; [|done].
  destruct (_ || _) eqn:E; [done|]. apply IH in H; [done|]. destruct (index <? 6); [|done].
  apply Forall_insert; [done|]. apply orb_false_elim in E as [Eo El]. rewrite Z.gtb_ltb in Eo, El. apply Z.ltb_ge in Eo, El.
  apply ler_read_nonneg in E1, E2. destruct Hwf as [[H0 H1] Hd]. split; cbn [bv_size bv_data]; [unfold in_u; lia|].
  destruct (bv_data block); cbn [option_map]; [rewrite length_drop; lia|lia].
Qed.
Lemma read_binding_wf block info : byte_view_wf block -> readBindingInfo block = Value info -> Forall byte_view_wf (view_fields info).
Proof.
  intros Hwf H. unfold readBindingInfo, fetch_binding in H. repeat (case_match; try done). injection H as <-.
  match goal with E : fetch_fields _ _ _ _ _ = Value ?fields |- _ =>
    apply (fetch_fields_wf _ _ _ _ _ _ Hwf) in E; [|by repeat constructor];
    unfold view_fields, view_at; cbn [encoding_ type_name_ schema_ claim_id_ config_json_ schema_digest_];
    repeat (constructor; [match goal with |- byte_view_wf (default _ (_ !! ?i)) => destruct (fields !! i) eqn:Ei; [exact (Forall_lookup_1 _ _ _ _ E Ei)|done] end|]); constructor end.
Qed.

(** The module's decoders are the host's: for every block, a module accepts a binding or a parse input exactly
    when the host's own decoder does, and then its views show the host's fields; [owningCopy] of an accepted
    binding owns those bytes, and fails only when storage does. *)
Theorem module_readers_agree block :
  byte_view_wf block ->
  agree same_binding (readBindingInfo block) (readBindingInfoV1 (view_bytes block)) /\
  agree same_input (readParseInput block) (readParseInputV1 (view_bytes block)) /\
  forall alloc info, readBindingInfo block = Value info ->
    match owningCopy alloc info with
    | Value owned => Forall2 (fun b v => blob_holds b (view_bytes v)) (owned_fields owned) (view_fields info) /\
        owned_route owned = route_ info /\ owned_claim_index owned = claim_index_ info /\
        owned_expected_object_type owned = expected_object_type_ info
    | Failed s => isOk s = false /\ Exists (fun v => starved alloc (view_bytes v)) (view_fields info)
    end.
Proof.
  intros Hwf. split_and!; [by apply readBindingInfo_agrees|by apply readParseInput_agrees|]. intros alloc info Hr.
  pose proof (owningCopy_spec alloc info (read_binding_wf _ _ Hwf Hr)) as H. destruct (owningCopy alloc info); [|done]. by destruct H as (? & ? & ? & ?).
Qed.

Definition written_binding : ByteView :=
  match writeBindingInfoV1 sample_binding with Ok block => string_view block | Err _ => null_view end.

Lemma module_readers_agree_witness :
  byte_view_wf written_binding /\ hasValue (readBindingInfo written_binding) = true /\ bv_size written_binding = 98 /\
  agree same_binding (readBindingInfo written_binding) (readBindingInfoV1 (view_bytes written_binding)).
Proof.
  assert (byte_view_wf written_binding) as Hwf by (split; [by_compute|]; by vm_compute).
  split; [exact Hwf|]. split; [vm_compute; reflexivity|]. split; [vm_compute; reflexivity|].
  exact (proj1 (module_readers_agree written_binding Hwf)).
Defined.
