(* ===== verification/ModuleExports.v ===== *)
(** * ModuleExports: the entry points of a parser module

    [pj_base/parser_module/module.hpp]: [FunctionalParser], the table of instances with its
    generation tokens, and [pj_module_create], [destroy], [bind], [parse] and [last_error].

    The parser that a module's author writes is the parameter [FunctionalParser]: it acts on a writer by
    calls on its builders only, so what it did is the history of those calls; [None] in
    place of a status is an exception.  An address with a length is a [ByteView]. The host serialises the
    calls on one token, so an instance is reached through its slot. *)

From S2P Require Import Prelude ProtobufWire ModuleAbi ParserCore ObjectWriter ObjectWriterProofs ModuleReaders.

Definition kModuleOk : Z := 0.
Definition kModuleDecline : Z := 1.
Definition kModuleError : Z := -1.
Definition kModuleBadToken : Z := -2.
Definition kModuleMalformedInput : Z := -3.
Definition kModuleBadClaimIndex : Z := -4.
Definition kCreationErrorToken : Z := 0.
Definition kErrorBufferSize : nat := 512.

(** ** The author's parser *)

Record Timestamp : Set := mkTimestamp { ts_has_value : bool; ts_nanoseconds : Z }.

Class FunctionalParser (P : Type) := {
  new_parser : option P;
  parser_bind : P -> BindingInfo -> P * option Status;
  parseObject : P -> ByteView -> Timestamp -> P * list Call * option Status;
  parseScalars : P -> ByteView -> Timestamp -> P * list ScalarCall * option Status }.

(** The virtual methods that a parser of one route does not override. *)
Definition default_parseObject {P} (p : P) (_ : ByteView) (_ : Timestamp) : P * list Call * option Status :=
  (p, [], Some (status_error (str "object route is not implemented by this parser module"))).
Definition default_parseScalars {P} (p : P) (_ : ByteView) (_ : Timestamp) : P * list ScalarCall * option Status :=
  (p, [], Some (status_error (str "scalar route is not implemented by this parser module"))).

(** ** The state of a module *)

Record Instance_ (P : Type) := mkInstance {
  parser : P; claim_index : Z; route : Z; bound : bool; output : Blob; error : bytes }.
Arguments mkInstance {P} _ _ _ _ _ _.
Arguments parser {P} _.
Arguments claim_index {P} _.
Arguments route {P} _.
Arguments bound {P} _.
Arguments output {P} _.
Arguments error {P} _.

#[export] Instance eta_Instance {P} : Eta (Instance_ P) := fun r =>
  mkInstance (parser r) (claim_index r) (route r) (bound r) (output r) (error r).

Record Slot (P : Type) := mkSlot { instance : option (Instance_ P); generation : Z }.
Arguments mkSlot {P} _ _.
Arguments instance {P} _.
Arguments generation {P} _.

Record Table (P : Type) := mkTable { slots : list (Slot P); size : Z; capacity : Z }.
Arguments mkTable {P} _ _ _.
Arguments slots {P} _.
Arguments size {P} _.
Arguments capacity {P} _.

(** The statics of [ModuleExports<Parser>]. *)
Record Module_ (P : Type) := mkModule { instances : Table P; creationError : bytes; badTokenError : bytes }.
Arguments mkModule {P} _ _ _.
Arguments instances {P} _.
Arguments creationError {P} _.
Arguments badTokenError {P} _.

#[export] Instance eta_Module {P} : Eta (Module_ P) := fun r => mkModule (instances r) (creationError r) (badTokenError r).

Definition no_error : bytes := replicate kErrorBufferSize Byte.x00.
Definition table_empty {P} : Table P := mkTable [] 0 0.
Definition module_new {P} : Module_ P := mkModule table_empty no_error no_error.
Definition slot_default {P} : Slot P := mkSlot None 1.

(** [recordError]: [copyMessage] into the array. *)
Definition recordError (destination : bytes) (message : bytes) : bytes :=
  default destination (copyMessage (Some destination) kErrorBufferSize message).

(** [error[0] = '\0']. *)
Definition clear_error (destination : bytes) : bytes := <[0%nat := Byte.x00]> destination.

(** The characters before the terminator: the loop of [lastError]. *)
Fixpoint c_length (source : bytes) : nat :=
  match source with [] => O | c :: rest => if decide (c = Byte.x00) then O else S (c_length rest) end.

(** What the allocator does in one call of [create]. *)
Record Allocations : Set := mkAllocations { instance_allocated : bool; table_allocated : bool }.

Section Exports.
Context {P : Type} `{FunctionalParser P} (alloc : Z -> bool) (claim_count : Z).

(** ** The table *)

Definition table_grow (allocated : bool) (t : Table P) : option (Table P) :=
  let next_capacity := if capacity t =? 0 then 8 else wrap 64 (capacity t * 2) in
  if (next_capacity <? capacity t) || (next_capacity >? UINT32_MAX) then None
  else if negb allocated then None
  else
    let allocation := replicate (Z.to_nat next_capacity) slot_default in
    Some (mkTable (take (Z.to_nat (size t)) (slots t) ++ drop (Z.to_nat (size t)) allocation) (size t) next_capacity).

Definition tokenFor (index generation : Z) : Z := Z.lor (Z.shiftl generation 32) (wrap 64 (index + 1)).

(** A slot as an index. *)
Definition findSlotLocked (t : Table P) (token : Z) : option nat :=
  let encoded_index := wrap 32 token in
  let gen := wrap 32 (Z.shiftr token 32) in
  if (encoded_index =? 0) || (gen =? 0) then None
  else
    let index := encoded_index - 1 in
    if index >=? size t then None
    else match slots t !! Z.to_nat index with
      | Some slot =>
        match instance slot with
        | Some _ => if generation slot =? gen then Some (Z.to_nat index) else None
        | None => None
        end
      | None => None
      end.

Definition find (t : Table P) (token : Z) : option (Instance_ P) :=
  match findSlotLocked t token with Some index => slots t !! index ≫= instance | None => None end.

(** The loop of [create] over the slots that are taken or retired. *)
Fixpoint free_slot (slot_index : nat) (l : list (Slot P)) : nat :=
  match l with
  | [] => slot_index
  | s :: rest =>
    if match instance s with Some _ => true | None => false end || (generation s =? 0)
    then free_slot (S slot_index) rest else slot_index
  end.

Definition set_instance (t : Table P) (index : nat) (i : option (Instance_ P)) : Table P :=
  mkTable (alter (fun s => mkSlot i (generation s)) index (slots t)) (size t) (capacity t).

(** The locked part of [create]: the token, or the message of its failure. *)
Definition create_slot (allocated : bool) (i : Instance_ P) (t : Table P) : option Z * Table P * bytes :=
  let slot_index := free_slot 0 (take (Z.to_nat (size t)) (slots t)) in
  let place t :=
    let t' := set_instance t slot_index (Some i) in
    if Z.of_nat slot_index >=? UINT32_MAX
    then (None, set_instance t' slot_index None, str "parser-module instance table is full")
    else (Some (tokenFor (Z.of_nat slot_index) (match slots t !! slot_index with Some s => generation s | None => 0 end)), t', []) in
  if Z.of_nat slot_index =? size t then
    match (if size t =? capacity t then table_grow allocated t else Some t) with
    | None => (None, t, str "parser-module instance-table allocation failed")
    | Some t' => place (mkTable (slots t') (size t' + 1) (capacity t'))
    end
  else place t.

(** ** The exports *)

Definition create (env : Allocations) (index : Z) (m : Module_ P) : Z * Module_ P :=
  let failed message m := (kCreationErrorToken, m <| creationError := recordError (creationError m) message |>) in
  if index >=? claim_count then failed (str "claim index is outside the module manifest") m
  else if negb (instance_allocated env) then failed (str "parser-module instance allocation failed") m
  else
    match new_parser with
    | None => failed (str "parser-module constructor failed") m
    | Some p =>
      let '(token, t, message) :=
        create_slot (table_allocated env) (mkInstance p index kScalar false blob_empty no_error) (instances m) in
      match token with
      | Some token => (token, m <| instances := t |>)
      | None => failed message (m <| instances := t |>)
      end
    end.

Definition destroy (token : Z) (m : Module_ P) : Module_ P :=
  match findSlotLocked (instances m) token with
  | None => m <| badTokenError := recordError (badTokenError m) (str "pj_module_destroy received a stale or unknown instance token") |>
  | Some index =>
    let t := instances m in
    m <| instances := mkTable (alter (fun s => mkSlot None (wrap 32 (generation s + 1))) index (slots t)) (size t) (capacity t) |>
  end.

Definition failBadToken (message : bytes) (m : Module_ P) : Z * Module_ P :=
  (kModuleBadToken, m <| badTokenError := recordError (badTokenError m) message |>).

(** A call that has found its instance stores what it leaves of it. *)
Definition stored {R} (index : nat) (m : Module_ P) (r : R * Instance_ P) : R * Module_ P :=
  (r.1, m <| instances := set_instance (instances m) index (Some r.2) |>).

Definition fail (code : Z) (message : bytes) (i : Instance_ P) : Z * Instance_ P :=
  (code, i <| error := recordError (error i) message |>).

Definition bind_instance (block : ByteView) (i : Instance_ P) : Z * Instance_ P :=
  if match bv_data block with None => true | _ => false end || (bv_size block >? SIZE_MAX)
  then fail kModuleMalformedInput (str "BindingInfo buffer is unreadable") i
  else
    match readBindingInfo block with
    | Failed s => fail kModuleMalformedInput (message s) i
    | Value info =>
      if negb (claim_index_ info =? claim_index i)
      then fail kModuleBadClaimIndex (str "BindingInfo claim index does not match the instance") i
      else
        let '(p, status) := parser_bind (parser i) info in
        let i := i <| parser := p |> in
        match status with
        | None => fail kModuleError (str "parser-module bind threw an exception") i
        | Some status =>
          let i := i <| bound := isOk status |> <| route := route_ info |> in
          if isOk status then (kModuleOk, i <| error := clear_error (error i) |>)
          else fail (if isDecline status then kModuleDecline else kModuleError) (message status) i
        end
    end.

Definition bind (token : Z) (block : ByteView) (m : Module_ P) : Z * Module_ P :=
  match findSlotLocked (instances m) token, find (instances m) token with
  | Some index, Some i => stored index m (bind_instance block i)
  | _, _ => failBadToken (str "pj_module_bind received a stale or unknown instance token") m
  end.

(** What the parser made of the input on the bound route: a status, [None] for an exception, and the output. *)
Definition run_parser (i : Instance_ P) (input : ParseInput) : P * option (Status * PjExpected Blob) :=
  let invalid := Failed (status_error (str "parser route is invalid")) in
  let ts := mkTimestamp (has_timestamp input) (timestamp_ns input) in
  if route i =? kObject then
    let '(p, calls, parsed) := parseObject (parser i) (payload input) ts in
    let writer := ow_calls alloc calls (ObjectWriter_new (payload input)) in
    (p, match parsed with
        | None => None
        | Some parsed => Some (parsed, if isOk parsed then ObjectWriter_finish alloc writer else invalid)
        end)
  else
    let '(p, calls, parsed) := parseScalars (parser i) (payload input) ts in
    let writer := sw_calls alloc calls ScalarWriter_new in
    (p, match parsed with
        | None => None
        | Some parsed => Some (parsed, if isOk parsed then ScalarWriter_finish alloc writer else invalid)
        end).

(** The result code, and what is stored in the two output parameters: the instance's output. *)
Definition parse_instance (block : ByteView) (outputs_readable : bool) (i : Instance_ P) : (Z * option ByteView) * Instance_ P :=
  let fail code message i := let '(code, i) := fail code message i in ((code, None), i) in
  if negb (bound i) then fail kModuleError (str "parser-module instance is not bound") i
  else if match bv_data block with None => true | _ => false end || negb outputs_readable || (bv_size block >? SIZE_MAX)
  then fail kModuleMalformedInput (str "ParseInput buffer is unreadable") i
  else
    match readParseInput block with
    | Failed s => fail kModuleMalformedInput (message s) i
    | Value input =>
      let '(p, result) := run_parser i input in
      let i := i <| parser := p |> in
      match result with
      | None => fail kModuleError (str "parser-module parse threw an exception") i
      | Some (parsed, out) =>
        if negb (isOk parsed) then fail kModuleError (message parsed) i
        else
          match out with
          | Failed s => fail kModuleError (message s) i
          | Value b => ((kModuleOk, Some (blob_view b)), i <| output := b |> <| error := clear_error (error i) |>)
          end
      end
    end.

Definition parse (token : Z) (block : ByteView) (outputs_readable : bool) (m : Module_ P) : (Z * option ByteView) * Module_ P :=
  match findSlotLocked (instances m) token, find (instances m) token with
  | Some index, Some i => stored index m (parse_instance block outputs_readable i)
  | _, _ => let '(code, m) := failBadToken (str "pj_module_parse received a stale or unknown instance token") m in ((code, None), m)
  end.

(** The characters that [lastError] writes to [address]; it returns their number. *)
Definition lastError (token : Z) (readable : bool) (cap : Z) (m : Module_ P) : bytes :=
  if negb readable || (cap =? 0) || (cap >? SIZE_MAX) then []
  else
    let source :=
      if token =? kCreationErrorToken then creationError m
      else match find (instances m) token with Some i => error i | None => badTokenError m end in
    let len := c_length source in
    let written := if Z.of_nat len <? cap then len else Z.to_nat cap in
    take written source.
End Exports.
