(* ===== verification/ModuleTokens.v ===== *)
(** * ModuleTokens: the instances of a module and their tokens

    What holds of [ModuleExports]'s table after any calls: a token names one instance from its [create]
    to its [destroy] and never again, also when a slot is reused or its generation wraps. *)

From S2P Require Import Prelude ProtobufWire ModuleAbi ParserCore ObjectWriter ModuleReaders ModuleExports.

(** ** Tokens *)

Lemma token_fields i g : 0 <= i < 2 ^ 32 - 1 -> in_u 32 g ->
  in_u 64 (tokenFor i g) /\ wrap 32 (tokenFor i g) = i + 1 /\ Z.shiftr (tokenFor i g) 32 = g.
Proof.
  intros Hi Hg. unfold tokenFor, in_u in *. rewrite (wrap_small 64) by (unfold in_u; lia).
  rewrite Z.lor_comm, lor_shiftl_add by lia. change (2 ^ 32) with 4294967296 in *. change (2 ^ 64) with 18446744073709551616.
  split; [lia|]. split; [unfold wrap; change (2 ^ 32) with 4294967296; rewrite Z.mod_add by lia; apply Z.mod_small; lia|].
  rewrite Z.shiftr_div_pow2 by lia. change (2 ^ 32) with 4294967296. rewrite Z.div_add, Z.div_small by lia. lia.
Qed.

Lemma token_inj i g i' g' : 0 <= i < 2 ^ 32 - 1 -> 0 <= i' < 2 ^ 32 - 1 -> in_u 32 g -> in_u 32 g' -> tokenFor i g = tokenFor i' g' -> i = i' /\ g = g'.
Proof.
  intros Hi Hi' Hg Hg' E. destruct (token_fields i g Hi Hg) as (_ & H1 & H2), (token_fields i' g' Hi' Hg') as (_ & H3 & H4).
  rewrite E in H1, H2. lia.
Qed.

(** Every token is the token of the fields that it encodes. *)
Lemma token_of_fields tok : in_u 64 tok -> wrap 32 tok <> 0 -> tok = tokenFor (wrap 32 tok - 1) (Z.shiftr tok 32) /\ in_u 32 (Z.shiftr tok 32).
Proof.
  unfold in_u, tokenFor. intros Ht Hn. pose proof (wrap_range 32 tok ltac:(lia)) as Hw. unfold in_u in Hw.
  change (2 ^ 64) with 18446744073709551616 in *. change (2 ^ 32) with 4294967296 in *.
  rewrite Z.shiftr_div_pow2 by lia. change (2 ^ 32) with 4294967296.
  rewrite Z.sub_add, (wrap_small 64) by (unfold in_u; cbn; lia). rewrite Z.lor_comm, lor_shiftl_add by (cbn; lia). unfold wrap.
  change (2 ^ 32) with 4294967296. pose proof (Z.div_mod tok 4294967296). split; [lia|]. split; [apply Z.div_pos; lia|]. apply Z.div_lt_upper_bound; lia.
Qed.

Section Tokens.
Context {P : Type} `{FunctionalParser P} (alloc : Z -> bool) (claim_count : Z).
Implicit Types (t : Table P) (m : Module_ P) (tok : Z).

(** ** The table's invariant *)

Definition slot_wf (s : Slot P) : Prop := in_u 32 (generation s) /\ (generation s = 0 -> instance s = None).

Definition table_wf t : Prop :=
  0 <= size t <= capacity t /\ capacity t <= UINT32_MAX /\ capacity t = Z.of_nat (length (slots t)) /\
  Forall slot_wf (slots t) /\ forall i, size t <= Z.of_nat i < capacity t -> slots t !! i = Some slot_default.

(** A token that was issued for a slot: the slot holds its instance, or has moved past its generation. *)
Definition issued_ok t tok : Prop :=
  exists i s g, slots t !! i = Some s /\ Z.of_nat i < size t /\ tok = tokenFor (Z.of_nat i) g /\ 0 < g < 2 ^ 32 /\
    (generation s = 0 \/ g < generation s \/ (g = generation s /\ instance s <> None)).

Lemma slot_range t i s : table_wf t -> slots t !! i = Some s -> 0 <= Z.of_nat i < 2 ^ 32 - 1 /\ slot_wf s.
Proof.
  intros (Hs & Hc & Hl & Hf & _) Hi. split; [|exact (Forall_lookup_1 _ _ _ _ Hf Hi)]. apply lookup_lt_Some in Hi. cbn. lia.
Qed.

Lemma live_below t i s x : table_wf t -> slots t !! i = Some s -> instance s = Some x -> Z.of_nat i < size t.
Proof.
  intros (Hs & Hc & Hl & Hf & Hd) Hi Hx. destruct (Z.lt_ge_cases (Z.of_nat i) (size t)) as [|Hge]; [done|].
  rewrite Hd in Hi by (apply lookup_lt_Some in Hi; lia). by injection Hi as <-.
Qed.

Lemma find_slot_iff t tok i :
  table_wf t -> in_u 64 tok ->
  findSlotLocked t tok = Some i <-> exists s, slots t !! i = Some s /\ instance s <> None /\ tok = tokenFor (Z.of_nat i) (generation s).
Proof.
  intros Hwf Ht. unfold findSlotLocked. pose proof (wrap_range 32 tok ltac:(lia)) as Hw. unfold in_u in Hw. split.
  - destruct (_ =? 0) eqn:E1; [done|]. apply Z.eqb_neq in E1. destruct (token_of_fields tok Ht E1) as [Etok Hg].
    rewrite (wrap_small _ _ Hg). destruct (_ =? 0) eqn:E2; [done|]. cbn [orb]. rewrite Z.geb_leb. destruct (_ <=? _) eqn:E3; [done|]. apply Z.leb_gt in E3.
    destruct (slots t !! _) as [s|] eqn:Es; [|done]. destruct (instance s) as [x|] eqn:Ex; [|done]. destruct (generation s =? _) eqn:E4; [|done].
    apply Z.eqb_eq in E4. intros H'. injection H' as <-. exists s. split_and!; [done|by rewrite Ex|]. rewrite E4, Z2Nat.id by lia. exact Etok.
  - intros (s & Hs & Hx & ->). destruct (slot_range t i s Hwf Hs) as [Hi [Hg Hz]]. destruct (token_fields _ _ Hi Hg) as (_ & E1 & E2).
    rewrite E1, E2, (wrap_small _ _ Hg), Z.add_simpl_r. destruct (instance s) as [x|] eqn:Ex; [|done].
    assert (generation s <> 0) as Hn by (intros E; by apply Hz in E).
    rewrite (proj2 (Z.eqb_neq _ _)) by lia. rewrite (proj2 (Z.eqb_neq _ _)) by lia. cbn [orb]. pose proof (live_below t i s x Hwf Hs Ex).
    rewrite Z.geb_leb, (proj2 (Z.leb_gt _ _)), Nat2Z.id, Hs, Ex, Z.eqb_refl by lia. done.
Qed.

Lemma find_iff t tok x :
  table_wf t -> in_u 64 tok ->
  find t tok = Some x <-> exists i s, slots t !! i = Some s /\ instance s = Some x /\ tok = tokenFor (Z.of_nat i) (generation s).
Proof.
  intros Hwf Ht. unfold find. split.
  - destruct (findSlotLocked t tok) as [i|] eqn:E; [|done]. apply find_slot_iff in E as (s & Hs & Hx & Hg); [|done..].
    rewrite Hs. cbn. intros Hi. by exists i, s.
  - intros (i & s & Hs & Hx & Hg). rewrite (proj2 (find_slot_iff t tok i Hwf Ht)); [by rewrite Hs|]. exists s. by rewrite Hx.
Qed.

(** ** One slot changes *)

Definition with_slot t (i : nat) (f : Slot P -> Slot P) : Table P := mkTable (alter f i (slots t)) (size t) (capacity t).

Lemma with_slot_wf t i f :
  table_wf t -> Z.of_nat i < size t -> (forall s, slots t !! i = Some s -> slot_wf (f s)) -> table_wf (with_slot t i f).
Proof.
  intros (Hs & Hc & Hl & Hf & Hd) Hi Hw. unfold table_wf. cbn [with_slot size capacity slots]. rewrite length_alter. split_and!; try done; try lia.
  - apply Forall_lookup. intros j s Hj. destruct (decide (j = i)) as [->|Hne].
    + rewrite list_lookup_alter_eq in Hj. destruct (slots t !! i) as [s0|] eqn:E; [|done]. cbn in Hj. injection Hj as <-. by apply Hw.
    + rewrite list_lookup_alter_ne in Hj by done. exact (Forall_lookup_1 _ _ _ _ Hf Hj).
  - intros j Hj. rewrite list_lookup_alter_ne by lia. by apply Hd.
Qed.

(** Only the tokens of that slot can change what they find. *)
Lemma find_with_slot t i f s tok :
  table_wf t -> table_wf (with_slot t i f) -> in_u 64 tok -> slots t !! i = Some s ->
  (generation (f s) = generation s \/ instance (f s) = None) ->
  find (with_slot t i f) tok = if decide (tok = tokenFor (Z.of_nat i) (generation s)) then instance (f s) else find t tok.
Proof.
  intros Hwf Hwf' Ht Hs Hf. apply option_eq. intros x. rewrite find_iff by done. cbn [with_slot slots].
  assert (forall j s', slots t !! j = Some s' -> tokenFor (Z.of_nat j) (generation s') = tokenFor (Z.of_nat i) (generation s) -> j = i) as Hinj.
  { intros j s' Hj E. destruct (slot_range t j s' Hwf Hj) as [H1 [H2 _]], (slot_range t i s Hwf Hs) as [H3 [H4 _]].
    apply token_inj in E as [E _]; try done. lia. }
  case_decide as E; [subst tok|rewrite find_iff by done]; split.
  - intros (j & s' & Hj & Hx & E). destruct (decide (j = i)) as [->|Hne].
    + rewrite list_lookup_alter_eq, Hs in Hj. cbn in Hj. by injection Hj as <-.
    + rewrite list_lookup_alter_ne in Hj by done. symmetry in E. by apply Hinj in E.
  - intros Hx. exists i, (f s). rewrite list_lookup_alter_eq, Hs. split_and!; [done..|]. destruct Hf as [->|Hf]; [done|congruence].
  - intros (j & s' & Hj & Hx & ->). exists j, s'. destruct (decide (j = i)) as [->|Hne]; [|by rewrite list_lookup_alter_ne in Hj].
    rewrite list_lookup_alter_eq, Hs in Hj. cbn in Hj. injection Hj as <-. destruct Hf as [Hf|Hf]; congruence.
  - intros (j & s' & Hj & Hx & ->). exists j, s'. destruct (decide (j = i)) as [->|Hne]; [|by rewrite list_lookup_alter_ne].
    rewrite Hs in Hj. by injection Hj as <-.
Qed.

(** A slot that keeps its generation, or leaves it behind, keeps the issued tokens issued. *)
Lemma issued_with_slot t i f s tok :
  slots t !! i = Some s ->
  (generation (f s) = 0 \/ generation s < generation (f s) \/ (generation (f s) = generation s /\ instance (f s) <> None)) ->
  (generation s = 0 -> generation (f s) = 0) -> issued_ok t tok -> issued_ok (with_slot t i f) tok.
Proof.
  intros Hs Hf Hz (j & s' & g & Hj & Hlt & -> & Hg & Hcase). destruct (decide (j = i)) as [->|Hne].
  - rewrite Hs in Hj. injection Hj as <-. exists i, (f s), g. cbn [with_slot slots size]. rewrite list_lookup_alter_eq, Hs. split_and!; try done; try lia.
    destruct Hcase as [E|[E|[E Hx]]]; [left; auto| |]; destruct Hf as [Hf|[Hf|[Hf Hx']]]; [by left|right; left; lia|right; left; lia|by left|right; left; lia|].
    right; right. split; [congruence|done].
  - exists j, s', g. cbn [with_slot slots size]. rewrite list_lookup_alter_ne by done. done.
Qed.

(** ** The table grows *)

Definition extends t t' : Prop :=
  size t <= size t' /\ (forall i, Z.of_nat i < size t -> slots t' !! i = slots t !! i) /\
  (forall i s, size t <= Z.of_nat i -> slots t' !! i = Some s -> s = slot_default).

Lemma find_extends t t' tok : table_wf t -> table_wf t' -> extends t t' -> in_u 64 tok -> find t' tok = find t tok.
Proof.
  intros Hwf Hwf' (Hs & Hsame & Hnew) Ht. apply option_eq. intros x. rewrite !find_iff by done.
  split; intros (i & s & Hi & Hx & E); exists i, s; (destruct (Z.lt_ge_cases (Z.of_nat i) (size t)) as [Hlt|Hge]; [rewrite Hsame in * by done; done|]).
  - apply Hnew in Hi; [|done]. by subst.
  - pose proof (live_below t i s x Hwf Hi Hx). lia.
Qed.

Lemma issued_extends t t' tok : extends t t' -> issued_ok t tok -> issued_ok t' tok.
Proof. intros (Hs & Hsame & _) (i & s & g & Hi & Hlt & H'). exists i, s, g. rewrite Hsame by done. split; [done|]. split; [lia|done]. Qed.

Lemma table_grow_spec allocated t t' :
  table_wf t -> size t = capacity t -> table_grow allocated t = Some t' ->
  size t' = size t /\ size t < capacity t' /\ capacity t' <= UINT32_MAX /\ slots t' = slots t ++ replicate (Z.to_nat (capacity t' - capacity t)) slot_default /\
  allocated = true.
Proof.
  intros (Hs & Hc & Hl & _) Hfull. unfold table_grow. rewrite wrap_small by (unfold in_u; cbn; lia).
  set (next := if capacity t =? 0 then 8 else capacity t * 2). assert (capacity t < next) as Hn by (subst next; destruct (_ =? _) eqn:E; bprop; lia).
  destruct (_ || _) eqn:E; [done|]. destruct allocated; [|done]. cbn [negb]. intros H'. injection H' as <-. cbn [size capacity slots].
  apply orb_false_elim in E as [_ E]. rewrite Z.gtb_ltb in E. apply Z.ltb_ge in E. split_and!; try done; try lia.
  rewrite take_ge by lia. f_equal. rewrite drop_replicate. f_equal. lia.
Qed.

(** The slot behind the last, after the table grew when it was full. *)
Lemma make_room allocated t t' :
  table_wf t -> (if size t =? capacity t then table_grow allocated t else Some t) = Some t' ->
  let u := mkTable (slots t') (size t' + 1) (capacity t') in
  table_wf u /\ extends t u /\ slots u !! Z.to_nat (size t) = Some slot_default /\ size u = size t + 1.
Proof.
  intros Hwf Hroom u. pose proof Hwf as (Hs & Hc & Hl & Hf & Hd). destruct (size t =? capacity t) eqn:E; bprop.
  - destruct (table_grow_spec _ _ _ Hwf E Hroom) as (Es & Hlt & Hmax & Hsl & _). subst u. cbn [slots size capacity]. rewrite Es.
    assert (forall i, size t <= Z.of_nat i < capacity t' -> slots t' !! i = Some slot_default) as Hnew.
    { intros i Hi. rewrite Hsl, lookup_app_r by lia. apply lookup_replicate_2. lia. }
    assert (capacity t' = Z.of_nat (length (slots t'))) as Hlen by (rewrite Hsl, length_app, length_replicate; lia).
    split_and!.
    + split_and!; cbn [slots size capacity]; try lia; [|intros i Hi; apply Hnew; lia]. rewrite Hsl. apply Forall_app. split; [done|].
      apply Forall_replicate. by split.
    + split_and!; cbn [slots size]; [lia|intros i Hi; rewrite Hsl, lookup_app_l by lia; done|].
      intros i s Hi E'. rewrite Hnew in E'; [by injection E' as <-|]. apply lookup_lt_Some in E'. lia.
    + apply Hnew. lia.
    + done.
  - injection Hroom as <-. subst u. cbn [slots size capacity]. split_and!.
    + split_and!; cbn [slots size capacity]; try done; try lia. intros i Hi. apply Hd. lia.
    + split_and!; cbn [slots size]; [lia|done|]. intros i s Hi E'. rewrite Hd in E'; [by injection E' as <-|]. apply lookup_lt_Some in E'. lia.
    + apply Hd. lia.
    + done.
Qed.

Lemma free_slot_spec n (l : list (Slot P)) :
  exists k, free_slot n l = (n + k)%nat /\ (k <= length l)%nat /\
    forall s, l !! k = Some s -> instance s = None /\ generation s <> 0.
Proof.
  revert n. induction l as [|s l IH]; intros n; cbn [free_slot].
  { exists 0%nat. split; [lia|]. split; [done|]. done. }
  destruct (_ || _) eqn:E.
  - destruct (IH (S n)) as (k & -> & Hk & Hs). exists (S k). cbn [length]. split_and!; [lia|lia|exact Hs].
  - exists 0%nat. split; [lia|]. split; [lia|]. intros s' Hs. injection Hs as <-. apply orb_false_elim in E as [E1 E2].
    apply Z.eqb_neq in E2. by destruct (instance s).
Qed.

(** Filling a free slot issues a token that was never issued. *)
Lemma fill_slot t i s x :
  table_wf t -> Z.of_nat i < size t -> slots t !! i = Some s -> instance s = None -> generation s <> 0 ->
  let t' := set_instance t i (Some x) in
  let tok := tokenFor (Z.of_nat i) (generation s) in
  table_wf t' /\ in_u 64 tok /\ tok <> 0 /\ issued_ok t' tok /\
  (forall k, issued_ok t k -> issued_ok t' k /\ k <> tok) /\
  (forall k, in_u 64 k -> find t' k = if decide (k = tok) then Some x else find t k).
Proof.
  intros Hwf Hi Hs Hn Hg t' tok. destruct (slot_range t i s Hwf Hs) as [Hr [Hg1 Hg2]]. unfold in_u in Hg1.
  destruct (token_fields _ _ Hr Hg1) as (T1 & T2 & T3). change t' with (with_slot t i (fun s => mkSlot (Some x) (generation s))).
  assert (table_wf (with_slot t i (fun s => mkSlot (Some x) (generation s)))) as Hwf'.
  { apply with_slot_wf; [done..|]. intros s' Hs'. rewrite Hs in Hs'. injection Hs' as <-. split; cbn; [exact Hg1|done]. }
  split_and!; try done.
  - intros E. fold tok in T2. rewrite E in T2. unfold wrap in T2. rewrite Z.mod_0_l in T2 by done. lia.
  - exists i, (mkSlot (Some x) (generation s)), (generation s). cbn [with_slot slots size]. rewrite list_lookup_alter_eq, Hs.
    split_and!; try done; try lia. right; right. done.
  - intros k Hk. split; [apply (issued_with_slot _ _ _ s); [done| |done|done]; right; right; done|].
    intros ->. destruct Hk as (j & s' & g & Hj & Hlt & E & Hg' & Hcase). destruct (slot_range t j s' Hwf Hj) as [Hrj _].
    apply token_inj in E as [Eij Eg]; [|lia|lia|done|unfold in_u; lia]. assert (j = i) as -> by lia. rewrite Hs in Hj. injection Hj as <-.
    destruct Hcase as [?|[?|[_ ?]]]; [done|lia|done].
  - intros k Hk. apply find_with_slot; [done..|]. by left.
Qed.

(** [create] makes a new token, or leaves what tokens find. *)
Lemma create_slot_spec allocated x t :
  table_wf t ->
  match create_slot allocated x t with
  | (Some tok, t', _) =>
    table_wf t' /\ in_u 64 tok /\ tok <> 0 /\ issued_ok t' tok /\
    (forall k, issued_ok t k -> issued_ok t' k /\ k <> tok) /\
    (forall k, in_u 64 k -> find t' k = if decide (k = tok) then Some x else find t k)
  | (None, t', _) => t' = t /\ size t = capacity t /\ (allocated = false \/ 2 ^ 31 <= size t)
  end.
Proof.
  intros Hwf. pose proof Hwf as (Hs & Hc & Hl & _). unfold create_slot.
  destruct (free_slot_spec 0 (take (Z.to_nat (size t)) (slots t))) as (k & E & Hk & Hfree). rewrite E. cbn [Nat.add].
  rewrite length_take in Hk. destruct (Z.of_nat k =? size t) eqn:Ek; bprop.
  - destruct (if size t =? capacity t then _ else _) as [t'|] eqn:Er.
    + destruct (make_room allocated t t' Hwf Er) as (Hwf' & Hext & Hnew & Hsz). rewrite <-Ek, Nat2Z.id in Hnew.
      set (u := mkTable _ _ _) in *. cbv zeta. rewrite ?Z.geb_leb, (proj2 (Z.leb_gt _ _)) by (destruct Hwf' as (? & ? & _); lia). rewrite Hnew.
      destruct (fill_slot u k slot_default x Hwf' ltac:(lia) Hnew eq_refl ltac:(done)) as (W & T & T0 & I & Io & F). split_and!; try done.
      * intros j Hj. apply Io. by apply (issued_extends t).
      * intros j Hj. rewrite (F j Hj). case_decide; [done|]. by apply find_extends.
    + destruct (size t =? capacity t) eqn:Ef; [|done]. apply Z.eqb_eq in Ef. split; [done|]. split; [done|].
      unfold table_grow in Er. rewrite wrap_small in Er by (unfold in_u; cbn; lia). destruct allocated; [right|by left]. cbn [negb] in Er.
      destruct (_ || _) eqn:E2; [|done]. apply orb_true_iff in E2. rewrite Z.gtb_ltb, !Z.ltb_lt in E2. destruct (capacity t =? 0) eqn:E0; bprop; lia.
  - assert (exists s, slots t !! k = Some s) as [s Hks] by (apply lookup_lt_is_Some_2; lia).
    cbv zeta. rewrite ?Z.geb_leb, (proj2 (Z.leb_gt _ _)) by lia. rewrite Hks.
    assert (instance s = None /\ generation s <> 0) as [Hn Hg] by (apply Hfree; rewrite lookup_take_lt by lia; done).
    apply (fill_slot t k s x); [done|lia|done..].
Qed.

(** A call that found its instance keeps its token. *)
Lemma store_spec t i s x tok :
  table_wf t -> in_u 64 tok -> slots t !! i = Some s -> instance s <> None -> tok = tokenFor (Z.of_nat i) (generation s) ->
  table_wf (set_instance t i (Some x)) /\ (forall k, issued_ok t k -> issued_ok (set_instance t i (Some x)) k) /\
  (forall k, in_u 64 k -> find (set_instance t i (Some x)) k = if decide (k = tok) then Some x else find t k).
Proof.
  intros Hwf Ht Hs Hx ->. destruct (slot_range t i s Hwf Hs) as [Hr [Hg1 Hg2]]. destruct (instance s) as [y|] eqn:Ey; [|done].
  change (set_instance t i (Some x)) with (with_slot t i (fun s => mkSlot (Some x) (generation s))).
  assert (table_wf (with_slot t i (fun s => mkSlot (Some x) (generation s)))) as Hwf'.
  { apply with_slot_wf; [done|by eapply live_below|]. intros s' Hs'. rewrite Hs in Hs'. injection Hs' as <-. split; [exact Hg1|]. intros E. by apply Hg2 in E. }
  split_and!; [done| |].
  - intros k Hk. apply (issued_with_slot _ _ _ s); [done| |done|done]. right; right. done.
  - intros k Hk. apply find_with_slot; [done..|]. by left.
Qed.

Lemma retire_spec t i s tok :
  table_wf t -> in_u 64 tok -> slots t !! i = Some s -> instance s <> None -> tok = tokenFor (Z.of_nat i) (generation s) ->
  let t' := with_slot t i (fun s => mkSlot None (wrap 32 (generation s + 1))) in
  table_wf t' /\ (forall k, issued_ok t k -> issued_ok t' k) /\
  (forall k, in_u 64 k -> find t' k = if decide (k = tok) then None else find t k).
Proof.
  intros Hwf Ht Hs Hx -> t'. destruct (slot_range t i s Hwf Hs) as [Hr [Hg1 Hg2]]. destruct (instance s) as [y|] eqn:Ey; [|done].
  assert (table_wf t') as Hwf'.
  { apply with_slot_wf; [done|by eapply live_below|]. intros s' Hs'. split; [by apply wrap_range|done]. }
  split_and!; [done| |].
  - intros k Hk. apply (issued_with_slot _ _ _ s); [done| |intros E; by apply Hg2 in E|done]. cbn [generation]. unfold in_u in Hg1.
    destruct (decide (generation s = 2 ^ 32 - 1)) as [->|Hne]; [by left|]. right; left. rewrite wrap_small by (unfold in_u; lia). lia.
  - intros k Hk. apply find_with_slot; [done..|]. by right.
Qed.

(** ** Histories *)

Inductive command : Type :=
  | Create (env : Allocations) (index : Z)
  | Destroy (tok : Z)
  | Bind (tok : Z) (block : ByteView)
  | Parse (tok : Z) (block : ByteView) (outputs_readable : bool).

Definition target (c : command) : option Z :=
  match c with Create _ _ => None | Destroy tok | Bind tok _ | Parse tok _ _ => Some tok end.

Definition command_wf (c : command) : Prop := match target c with Some tok => in_u 64 tok | None => True end.

(** A module with the tokens it has issued and those not destroyed since. *)
Record Trace := mkTrace { tr_module : Module_ P; tr_issued : list Z; tr_live : list Z }.

Definition trace_new : Trace := mkTrace module_new [] [].

Definition run_command (tr : Trace) (c : command) : Trace :=
  match c with
  | Create env index =>
    let '(tok, m) := create claim_count env index (tr_module tr) in
    if tok =? kCreationErrorToken then mkTrace m (tr_issued tr) (tr_live tr)
    else mkTrace m (tok :: tr_issued tr) (tok :: tr_live tr)
  | Destroy tok => mkTrace (destroy tok (tr_module tr)) (tr_issued tr) (filter (fun k => k <> tok) (tr_live tr))
  | Bind tok block => mkTrace (bind tok block (tr_module tr)).2 (tr_issued tr) (tr_live tr)
  | Parse tok block ok => mkTrace (parse alloc tok block ok (tr_module tr)).2 (tr_issued tr) (tr_live tr)
  end.

Definition found m tok : option (Instance_ P) := find (instances m) tok.

Definition trace_inv (tr : Trace) : Prop :=
  table_wf (instances (tr_module tr)) /\ Forall (issued_ok (instances (tr_module tr))) (tr_issued tr) /\ NoDup (tr_issued tr) /\
  tr_live tr ⊆ tr_issued tr /\ Forall (in_u 64) (tr_issued tr) /\
  forall tok, in_u 64 tok -> tok ∈ tr_live tr <-> is_Some (found (tr_module tr) tok).

Lemma find_slot_found t tok i : table_wf t -> in_u 64 tok -> findSlotLocked t tok = Some i -> exists s x,
  slots t !! i = Some s /\ instance s = Some x /\ tok = tokenFor (Z.of_nat i) (generation s) /\ find t tok = Some x.
Proof.
  intros Hwf Ht E. pose proof E as E'. apply find_slot_iff in E as (s & Hs & Hx & Hg); [|done..]. destruct (instance s) as [x|] eqn:Ex; [|done].
  exists s, x. split_and!; try done. unfold find. rewrite E', Hs. done.
Qed.

Lemma find_none t tok : findSlotLocked t tok = None -> find t tok = None.
Proof. unfold find. by intros ->. Qed.

(** A call on a token stores an instance under the token, when there is one. *)
Lemma call_spec {R} t tok : table_wf t -> in_u 64 tok ->
  forall (f : Instance_ P -> R * Instance_ P) m, instances m = t ->
  match findSlotLocked t tok, find t tok with
  | Some i, Some x => let m' := (stored i m (f x)).2 in table_wf (instances m') /\ (forall k, issued_ok t k -> issued_ok (instances m') k) /\
      (forall k, in_u 64 k -> found m' k = if decide (k = tok) then Some (f x).2 else found m k)
  | _, _ => found m tok = None
  end.
Proof.
  intros Hwf Ht f m Hm. unfold found. rewrite Hm. destruct (findSlotLocked t tok) as [i|] eqn:E; [|by apply find_none].
  destruct (find_slot_found t tok i Hwf Ht E) as (s & x & Hs & Hx & Hg & ->). cbn. rewrite Hm. apply (store_spec t i s (f x).2 tok); [done..| |done]. by rewrite Hx.
Qed.

Lemma inv_stored tr m' tok f :
  trace_inv tr -> in_u 64 tok -> found (tr_module tr) tok <> None ->
  table_wf (instances m') -> (forall k, issued_ok (instances (tr_module tr)) k -> issued_ok (instances m') k) ->
  (forall k, in_u 64 k -> found m' k = if decide (k = tok) then Some f else found (tr_module tr) k) ->
  trace_inv (mkTrace m' (tr_issued tr) (tr_live tr)).
Proof.
  intros (Hw & Hi & Hn & Hl & Hu & Hlive) Ht Hx Hw' Hi' Hf. split_and!; cbn [tr_module tr_issued tr_live]; try done.
  - eapply Forall_impl; [exact Hi|exact Hi'].
  - intros k Hk. rewrite Hlive, Hf by done. case_decide; [subst k|done]. destruct (found _ tok); [|done]. by split.
Qed.

(** A module whose table did not change. *)
Lemma inv_same tr m' : instances m' = instances (tr_module tr) -> trace_inv tr -> trace_inv (mkTrace m' (tr_issued tr) (tr_live tr)).
Proof. intros E H'. unfold trace_inv, found in *. cbn [tr_module tr_issued tr_live]. by rewrite E. Qed.

(** A command keeps the invariant, and what the tokens of other live instances find. *)
Definition good_step (tr : Trace) (c : command) : Prop :=
  trace_inv (run_command tr c) /\
  forall k, k ∈ tr_live tr -> target c <> Some k -> found (tr_module (run_command tr c)) k = found (tr_module tr) k.

Lemma good_create tr env index : trace_inv tr -> good_step tr (Create env index).
Proof.
  intros Hinv. pose proof Hinv as (Hw & Hi & Hn & Hl & Hu & Hlive). unfold good_step, run_command, create.
  assert (forall msg m, instances m = instances (tr_module tr) ->
    let m' := m <| creationError := recordError (creationError m) msg |> in
    trace_inv (mkTrace m' (tr_issued tr) (tr_live tr)) /\
    forall k, k ∈ tr_live tr -> target (Create env index) <> Some k -> found m' k = found (tr_module tr) k) as Hfail.
  { intros msg m E m'. assert (instances m' = instances (tr_module tr)) as E' by done. split; [by apply inv_same|].
    intros k _ _. unfold found. by rewrite E'. }
  destruct (index >=? claim_count); [by apply Hfail|]. destruct (instance_allocated env); [cbn [negb]|by apply Hfail].
  destruct new_parser as [p|]; [|by apply Hfail]. set (x := mkInstance _ _ _ _ _ _).
  pose proof (create_slot_spec (table_allocated env) x _ Hw) as Hc. destruct (create_slot _ _ _) as [[[tok|] t'] msg].
  - destruct Hc as (Hw' & Ht & H0 & Hti & Hio & Hf). rewrite (proj2 (Z.eqb_neq _ _)) by done. split.
    + split_and!; cbn [tr_module tr_issued tr_live]; try done.
      * constructor; [done|]. eapply Forall_impl; [exact Hi|]. intros k Hk. by apply Hio.
      * constructor; [|done]. intros Hin. destruct (Hio tok (proj1 (Forall_forall _ _) Hi _ Hin)). done.
      * intros k Hk. apply elem_of_cons in Hk as [->|Hk]; [by left|right; by apply Hl].
      * by constructor.
      * intros k Hk. unfold found. cbn. rewrite elem_of_cons, Hf by done. case_decide; [by split; [|left]|]. rewrite Hlive by done. unfold found. naive_solver.
    + intros k Hk _. unfold found. cbn. assert (k ∈ tr_issued tr) as Hki by by apply Hl.
      rewrite Hf by exact (proj1 (Forall_forall _ _) Hu _ Hki). destruct (Hio k (proj1 (Forall_forall _ _) Hi _ Hki)). by rewrite decide_False.
  - destruct Hc as (-> & _). cbn [Z.eqb kCreationErrorToken]. by apply Hfail.
Qed.

Lemma filter_other (l : list Z) tok : tok ∉ l -> filter (fun k => k <> tok) l = l.
Proof.
  induction l as [|k l IH]; intros Hn; [done|]. apply not_elem_of_cons in Hn as [Hk Hn]. rewrite filter_cons_True by congruence. by rewrite IH.
Qed.

(** The module after [destroy] found the slot [i]. *)
Definition destroyed tr (i : nat) : Module_ P :=
  tr_module tr <| instances := with_slot (instances (tr_module tr)) i (fun s => mkSlot None (wrap 32 (generation s + 1))) |>.

Lemma good_destroy tr tok : trace_inv tr -> in_u 64 tok -> good_step tr (Destroy tok).
Proof.
  intros Hinv Ht. pose proof Hinv as (Hw & Hi & Hn & Hl & Hu & Hlive). unfold good_step, run_command, destroy.
  destruct (findSlotLocked _ tok) as [i|] eqn:E.
  - destruct (find_slot_found _ tok i Hw Ht E) as (s & x & Hs & Hx & Hg & Hfx).
    destruct (retire_spec _ i s tok Hw Ht Hs ltac:(by rewrite Hx) Hg) as (Hw' & Hio & Hf).
    change (forall k, in_u 64 k -> found (destroyed tr i) k = if decide (k = tok) then None else found (tr_module tr) k) in Hf.
    change (tr_module tr <| instances := _ |>) with (destroyed tr i). split.
    + split_and!; cbn [tr_module tr_issued tr_live]; try done.
      * eapply Forall_impl; [exact Hi|exact Hio].
      * intros k Hk. apply list_elem_of_filter in Hk as [_ Hk]. by apply Hl.
      * intros k Hk. rewrite list_elem_of_filter, (Hf k Hk). case_decide; [subst; split; [by intros []|by intros []]|].
        rewrite Hlive by done. naive_solver.
    + intros k Hk Hne. cbn [tr_module]. rewrite Hf by exact (proj1 (Forall_forall _ _) Hu _ (Hl _ Hk)).
      rewrite decide_False; [done|]. intros ->. done.
  - assert (tok ∉ tr_live tr) as Hnot by (intros Hin; apply Hlive in Hin; [|done]; unfold found in Hin; rewrite find_none in Hin by done; by destruct Hin).
    replace (filter _ (tr_live tr)) with (tr_live tr); [|symmetry; apply filter_other; done].
    split; [by apply inv_same|]. done.
Qed.

Lemma good_call {R} tr c tok (f : Instance_ P -> R * Instance_ P) m' :
  trace_inv tr -> in_u 64 tok -> target c = Some tok ->
  run_command tr c = mkTrace m' (tr_issued tr) (tr_live tr) ->
  match findSlotLocked (instances (tr_module tr)) tok, find (instances (tr_module tr)) tok with
  | Some i, Some x => m' = (stored i (tr_module tr) (f x)).2
  | _, _ => instances m' = instances (tr_module tr)
  end -> good_step tr c.
Proof.
  intros Hinv Ht Hc Hrun Hm. pose proof Hinv as (Hw & _ & _ & Hl & Hu & _). pose proof (call_spec _ tok Hw Ht f (tr_module tr) eq_refl) as Hcall.
  unfold good_step. rewrite Hrun. unfold found in Hcall.
  destruct (findSlotLocked _ tok) as [i|]; [destruct (find _ tok) as [x|] eqn:Ex|].
  2,3: split; [by apply inv_same|]; intros k _ _; unfold found; cbn [tr_module]; by rewrite Hm.
  destruct Hcall as (Hw' & Hio & Hf). rewrite <-Hm in Hw', Hio, Hf. split; [eapply inv_stored; try done; unfold found; by rewrite Ex|].
  intros k Hk Hne. cbn [tr_module]. unfold found. rewrite Hf by exact (proj1 (Forall_forall _ _) Hu _ (Hl _ Hk)). rewrite decide_False; [done|]. intros ->. done.
Qed.

Lemma run_command_good tr c : trace_inv tr -> command_wf c -> good_step tr c.
Proof.
  intros Hinv Hc. destruct c as [env index|tok|tok block|tok block ok]; [by apply good_create|by apply good_destroy|..].
  - eapply (good_call tr _ tok (bind_instance block)); try done. unfold bind. destruct (findSlotLocked _ tok); [|done]. by destruct (find _ tok).
  - eapply (good_call tr _ tok (parse_instance alloc block ok)); try done. unfold parse. destruct (findSlotLocked _ tok); [|done]. by destruct (find _ tok).
Qed.

Lemma trace_inv_new : trace_inv trace_new.
Proof.
  assert (forall tok, found module_new tok = None) as Hnone.
  { intros tok. unfold found, find, findSlotLocked. cbn [instances module_new table_empty size slots]. destruct (_ || _) eqn:E; [done|].
    apply orb_false_elim in E as [E _]. apply Z.eqb_neq in E. pose proof (wrap_range 32 tok ltac:(lia)) as Hw. unfold in_u in Hw.
    rewrite Z.geb_leb, (proj2 (Z.leb_le _ _)) by lia. done. }
  split_and!; cbn [trace_new tr_module tr_issued tr_live module_new instances]; try constructor; cbn; try lia; try done.
  - split_and!; [lia|done|constructor|intros; lia].
  - by intros ?%elem_of_nil.
  - rewrite Hnone. by intros [? ?].
Qed.

Definition run_commands (tr : Trace) (l : list command) : Trace := foldl run_command tr l.

Lemma run_commands_inv l tr : Forall command_wf l -> trace_inv tr -> trace_inv (run_commands tr l).
Proof. intros Hl. revert tr. induction Hl as [|c l Hc Hl IH]; intros tr Hi; [done|]. cbn. apply IH. by apply run_command_good. Qed.

Lemma call_dead m tok : found m tok = None ->
  (forall block, (bind tok block m).1 = kModuleBadToken) /\ (forall block ok, (parse alloc tok block ok m).1 = (kModuleBadToken, None)).
Proof.
  intros Hn. unfold found in Hn. split; intros; unfold bind, parse; rewrite Hn; by destruct (findSlotLocked _ tok).
Qed.

(** C12 The tokens of a module, after any calls: every token that [create] returns is new, also when it reuses a
    slot or a generation has wrapped; a token finds an instance from its [create] to its [destroy] and never
    again, and [bind] and [parse] on any other token answer [kModuleBadToken]; no call touches the instance of
    another token. *)
Theorem tokens_never_revive l :
  Forall command_wf l ->
  let tr := run_commands trace_new l in
  NoDup (tr_issued tr) /\ tr_live tr ⊆ tr_issued tr /\
  (forall tok, in_u 64 tok -> tok ∈ tr_live tr <-> is_Some (found (tr_module tr) tok)) /\
  (forall tok, in_u 64 tok -> tok ∉ tr_live tr ->
     (forall block, (bind tok block (tr_module tr)).1 = kModuleBadToken) /\
     (forall block ok, (parse alloc tok block ok (tr_module tr)).1 = (kModuleBadToken, None))) /\
  (forall c, command_wf c ->
     NoDup (tr_issued (run_command tr c)) /\
     forall tok, tok ∈ tr_live tr -> target c <> Some tok -> found (tr_module (run_command tr c)) tok = found (tr_module tr) tok).
Proof.
  intros Hl tr. pose proof (run_commands_inv l trace_new Hl trace_inv_new) as Hinv. fold tr in Hinv.
  pose proof Hinv as (_ & _ & Hn & Hsub & _ & Hlive). split_and!; try done.
  - intros tok Ht Hd. apply call_dead. destruct (found _ tok) eqn:E; [|done]. destruct Hd. apply Hlive; [done|]. by rewrite E.
  - intros c Hc. destruct (run_command_good tr c Hinv Hc) as [(_ & _ & Hn' & _) Hk]. done.
Qed.
End Tokens.

(** A parser that accepts every binding and makes an empty scalar output. *)
#[local] Instance trivial_parser : FunctionalParser unit := {|
  new_parser := Some tt;
  parser_bind := fun p _ => (p, Some status_ok);
  parseObject := default_parseObject;
  parseScalars := fun p _ _ => (p, [], Some status_ok) |}.

(** A slot is filled, left and filled again: the first token stays dead. *)
Definition reuse : list (command) :=
  [Create (mkAllocations true true) 0; Destroy 4294967297; Create (mkAllocations true true) 0; Bind 4294967297 null_view].

Lemma tokens_never_revive_witness :
  let tr := run_commands (P := unit) (fun _ => true) 1 trace_new reuse in
  tr_issued tr = [8589934593; 4294967297] /\ tr_live tr = [8589934593] /\
  NoDup (tr_issued tr) /\ (bind 4294967297 null_view (tr_module tr)).1 = kModuleBadToken.
Proof.
  assert (Forall command_wf reuse) as Hl by (repeat (constructor; [by_compute || done|]); constructor).
  destruct (tokens_never_revive (P := unit) (fun _ => true) 1 reuse Hl) as (Hn & _ & _ & Hd & _).
  split; [vm_compute; reflexivity|]. split; [vm_compute; reflexivity|]. split; [exact Hn|].
  refine (proj1 (Hd 4294967297 _ _) null_view); [by_compute|]. by_compute.
Defined.
