(* ===== verification/ModuleRuntime.v ===== *)
(** * ModuleRuntime: the host's side of a parser module

    [pj_plugins/src/parser_module_runtime.cpp]: [NativeParserModuleInstance] with its owned
    outputs, and [ParserModuleStrikeTracker]; the splice table of [pj_base/builtin_object_abi.h].

    The functions of a loaded module are the class [NativeParserModule]: whatever they answer, the theorems hold;
    [boundary] makes [ModuleExports] an instance.  A pair of an address and a length is a [ByteView]. *)

From stdpp Require Import pretty.
From S2P Require Import Prelude ProtobufWire BuiltinCodec MessageCodecs SensorCodecs PointCodecs SceneCodecs ModuleAbi ParserCore.

(** ** The functions of a module *)

(** [parse] also gives what it left in the two output parameters, which start as zero; [last_error] gives its result
    and what it left in the zeroed buffer of 512 characters. *)
Class NativeParserModule (M : Type) := {
  nm_create : Z -> M -> Z * M;
  nm_destroy : Z -> M -> M;
  nm_bind : Z -> ByteView -> M -> Z * M;
  nm_parse : Z -> ByteView -> M -> (Z * ByteView) * M;
  nm_last_error : Z -> M -> Z * bytes }.

Definition PJ_MODULE_OK : Z := 0.
Definition PJ_MODULE_DECLINE : Z := 1.
Definition PJ_MODULE_ERR_GENERIC : Z := -1.
Definition PJ_MODULE_ERR_BAD_TOKEN : Z := -2.
Definition PJ_MODULE_CREATION_ERROR_TOKEN : Z := 0.
Definition PJ_MODULE_ERROR_BUFFER_SIZE : Z := 512.

(** ** Results *)

Inductive ParserModuleFaultKind : Set := fkNone | fkDataError | fkContractViolation.
Inductive ParserModuleBindOutcome : Set := kAccept | kDeclined | kBindError.

#[export] Instance fault_eq_dec : EqDecision ParserModuleFaultKind.
Proof. solve_decision. Defined.

Record ParserModuleBindResult : Set := mkBindResult {
  br_outcome : ParserModuleBindOutcome; br_fault : ParserModuleFaultKind; br_code : Z; br_message : bytes }.

Record ParserModuleScalarField : Set := mkParserModuleScalarField { pf_name : bytes; pf_value : ScalarValueV1 }.
Record ParserModuleScalarOutput : Set := mkParserModuleScalarOutput {
  po_has_timestamp : bool; po_timestamp_ns : Z; po_fields : list ParserModuleScalarField }.
Record ParserModuleObjectSplice : Set := mkParserModuleObjectSplice {
  ps_field_number : Z; ps_input_offset : Z; ps_payload_bytes : bytes }.
Record ParserModuleObjectOutput : Type := mkParserModuleObjectOutput {
  po_object : BuiltinObject; po_wire : bytes; po_splice : option ParserModuleObjectSplice }.

Inductive ParserModuleOutput : Type :=
  | ScalarResult (s : ParserModuleScalarOutput)
  | ObjectResult (o : ParserModuleObjectOutput).

Record ParserModuleParseResult : Type := mkParseResult {
  pr_fault : ParserModuleFaultKind; pr_code : Z; pr_message : bytes; pr_output : option ParserModuleOutput }.

Definition contractViolation (code : Z) (message : bytes) : ParserModuleParseResult :=
  mkParseResult fkContractViolation code message None.

(** ** Owned outputs *)

Definition ownScalarOutput (scalar : ScalarOutputV1) : ParserModuleScalarOutput :=
  mkParserModuleScalarOutput (so_has_timestamp scalar) (so_timestamp_ns scalar)
    (map (fun f => mkParserModuleScalarField (sf_name f) (sf_value f)) (so_fields scalar)).

(** [pj_builtin_object_splice_fields_v1], and the lookup in it. *)
Definition splice_fields_v1 : list (Z * Z) := [(1, 7); (3, 9); (4, 5); (7, 7); (8, 4); (9, 7); (10, 3); (15, 7); (18, 12); (20, 10)].

Fixpoint splice_lookup (fields : list (Z * Z)) (object_type : Z) : option Z :=
  match fields with
  | [] => None
  | (type, field_number) :: rest => if type =? object_type then Some field_number else splice_lookup rest object_type
  end.

Definition splice_field_number_v1 (object_type : Z) : option Z := splice_lookup splice_fields_v1 object_type.

#[export] Instance eta_Image : Eta Image := fun r => mkImage (im_width r) (im_height r) (im_encoding r) (im_row_step r)
  (im_is_bigendian r) (im_data r) (im_compressed_depth_min r) (im_compressed_depth_max r) (im_timestamp_ns r) (im_frame_id r).
#[export] Instance eta_PointCloud : Eta PointCloud := fun r => mkPointCloud (pc_width r) (pc_height r) (pc_point_step r)
  (pc_row_step r) (pc_is_bigendian r) (pc_is_dense r) (pc_frame_id r) (pc_fields r) (pc_data r) (pc_timestamp_ns r).
#[export] Instance eta_DepthImage : Eta DepthImage := fun r => mkDepthImage (di_width r) (di_height r) (di_encoding r)
  (di_data r) (di_K r) (di_distortion_model r) (di_D r) (di_timestamp_ns r).
#[export] Instance eta_OccupancyGrid : Eta OccupancyGrid := fun r => mkOccupancyGrid (og_timestamp_ns r) (og_frame_id r)
  (og_origin r) (og_resolution r) (og_width r) (og_height r) (og_data r).
#[export] Instance eta_CompressedPointCloud : Eta CompressedPointCloud := fun r =>
  mkCompressedPointCloud (cpc_timestamp_ns r) (cpc_frame_id r) (cpc_format r) (cpc_data r).
#[export] Instance eta_Mesh3D : Eta Mesh3D := fun r => mkMesh3D (m3_timestamp_ns r) (m3_frame_id r) (m3_id r) (m3_pose r)
  (m3_scale r) (m3_format r) (m3_data r) (m3_url r) (m3_color r) (m3_override_color r).
#[export] Instance eta_VideoFrame : Eta VideoFrame := fun r => mkVideoFrame (vf_timestamp_ns r) (vf_frame_id r) (vf_data r) (vf_format r).
#[export] Instance eta_OccupancyGridUpdate : Eta OccupancyGridUpdate := fun r => mkOccupancyGridUpdate (ogu_timestamp_ns r)
  (ogu_frame_id r) (ogu_x r) (ogu_y r) (ogu_width r) (ogu_height r) (ogu_data r).
#[export] Instance eta_VoxelGrid : Eta VoxelGrid := fun r => mkVoxelGrid (vg_timestamp_ns r) (vg_frame_id r) (vg_origin r)
  (vg_cell_size r) (vg_column_count r) (vg_row_count r) (vg_slice_count r) (vg_cell_stride r) (vg_row_stride r) (vg_slice_stride r) (vg_fields r) (vg_data r).
#[export] Instance eta_GridMap : Eta GridMap := fun r => mkGridMap (gm_timestamp_ns r) (gm_frame_id r) (gm_origin r)
  (gm_cell_size r) (gm_column_count r) (gm_row_count r) (gm_cell_stride r) (gm_row_stride r) (gm_fields r) (gm_data r).

(** The lambda [attach] under the [switch]: the object has the type's alternative, and its data is replaced. *)
Definition attach (type : Z) (object : BuiltinObject) (materialized : bytes) : option BuiltinObject :=
  match object with
  | OImage m => if type =? 1 then Some (OImage (m <| im_data := materialized |>)) else None
  | OPointCloud m => if type =? 3 then Some (OPointCloud (m <| pc_data := materialized |>)) else None
  | ODepthImage m => if type =? 4 then Some (ODepthImage (m <| di_data := materialized |>)) else None
  | OOccupancyGrid m => if type =? 7 then Some (OOccupancyGrid (m <| og_data := materialized |>)) else None
  | OCompressedPointCloud m => if type =? 8 then Some (OCompressedPointCloud (m <| cpc_data := materialized |>)) else None
  | OMesh3D m => if type =? 9 then Some (OMesh3D (m <| m3_data := materialized |>)) else None
  | OVideoFrame m => if type =? 10 then Some (OVideoFrame (m <| vf_data := materialized |>)) else None
  | OOccupancyGridUpdate m => if type =? 15 then Some (OOccupancyGridUpdate (m <| ogu_data := materialized |>)) else None
  | OVoxelGrid m => if type =? 18 then Some (OVoxelGrid (m <| vg_data := materialized |>)) else None
  | OGridMap m => if type =? 20 then Some (OGridMap (m <| gm_data := materialized |>)) else None
  | _ => None
  end.

(** The range of the payload that a splice names. *)
Definition spliced_range (s : ObjectSpliceV1) (input_payload : bytes) : bytes :=
  take (Z.to_nat (sp_input_length s)) (drop (Z.to_nat (sp_input_offset s)) input_payload).

Definition prefixed {A} (prefix : string) (m : Expected A) : Expected A :=
  match m with Ok a => Ok a | Err e => Err (prefix +:+ e) end.

Definition ownObjectOutput (object : ObjectOutputV1) (input_payload : bytes) (expected_type : Z) : Expected ParserModuleObjectOutput :=
  if negb (oo_object_type object =? expected_type)
  then Err ("output object type " +:+ pretty (oo_object_type object) +:+ " does not match bound type " +:+ pretty expected_type)
  else
    let type := oo_object_type object in
    let? decoded := prefixed "output canonical wire is malformed: " (deserializeBuiltinObject type (oo_wire object)) in
    match oo_splice object with
    | None => Ok (mkParserModuleObjectOutput decoded (oo_wire object) None)
    | Some splice =>
      if negb (bool_decide (splice_field_number_v1 type = Some (sp_field_number splice)))
      then Err "output splice field is not eligible for the object type"
      else if (sp_input_offset splice >? blen input_payload)
           || (sp_input_length splice >? wrap 64 (blen input_payload - sp_input_offset splice))
      then Err "output splice range is outside the parse payload"
      else
        let materialized := spliced_range splice input_payload in
        match attach type decoded materialized with
        | None => Err "output splice could not be attached to its canonical object"
        | Some object' =>
          let? _ := prefixed "output spliced GridMap layout is invalid: "
            (match object' with OGridMap m => validateGridMap m | _ => Ok tt end) in
          Ok (mkParserModuleObjectOutput object' (oo_wire object)
                (Some (mkParserModuleObjectSplice (sp_field_number splice) (sp_input_offset splice) materialized)))
        end
    end.

(** ** Instances *)

Record NativeParserModuleInstance : Set := mkNativeInstance {
  token_ : Z; ni_claim_index : Z; bound_route_ : Z; ni_expected_object_type : Z; bound_ : bool }.

#[export] Instance eta_NativeInstance : Eta NativeParserModuleInstance := fun r =>
  mkNativeInstance (token_ r) (ni_claim_index r) (bound_route_ r) (ni_expected_object_type r) (bound_ r).

Definition valid (i : NativeParserModuleInstance) : bool := negb (token_ i =? PJ_MODULE_CREATION_ERROR_TOKEN).

Section Runtime.
Context {M : Type} `{NativeParserModule M}.

(** The characters of the buffer up to its terminator. *)
Fixpoint until_nul (l : bytes) : bytes :=
  match l with [] => [] | c :: rest => if decide (c = Byte.x00) then [] else c :: until_nul rest end.

Definition copyLastError (m : M) (token : Z) : Expected bytes :=
  let '(written, buffer) := nm_last_error token m in
  if written >? PJ_MODULE_ERROR_BUFFER_SIZE then Err "pj_module_last_error returned a length larger than its buffer"
  else Ok (until_nul (take (Z.to_nat written) buffer)).

(** [NativeParserModuleInstance::create] of a valid module. *)
Definition native_create (claim_index : Z) (m : M) : Expected NativeParserModuleInstance * M :=
  let '(token, m) := nm_create claim_index m in
  if token =? PJ_MODULE_CREATION_ERROR_TOKEN
  then (match copyLastError m PJ_MODULE_CREATION_ERROR_TOKEN with Ok s => Err (String.string_of_list_byte s) | Err e => Err e end, m)
  else (Ok (mkNativeInstance token claim_index kScalar 0 false), m).

Definition bytes_view (l : bytes) : ByteView := mkByteView (Some l) (blen l).

Definition native_bind (info : BindingInfoV1) (i : NativeParserModuleInstance) (m : M)
    : Expected ParserModuleBindResult * NativeParserModuleInstance * M :=
  if negb (valid i) then (Err "cannot bind an invalid native parser-module instance", i, m)
  else if negb (bi_claim_index info =? ni_claim_index i)
  then (Err "BindingInfo claim_index does not match the created instance", i, m)
  else
    match writeBindingInfoV1 info with
    | Err e => (Err e, i, m)
    | Ok encoded =>
      let '(code, m) := nm_bind (token_ i) (bytes_view encoded) m in
      if code =? PJ_MODULE_OK
      then (Ok (mkBindResult kAccept fkNone code []),
            i <| bound_route_ := bi_route info |> <| ni_expected_object_type := bi_expected_object_type info |> <| bound_ := true |>, m)
      else
        let i := i <| bound_ := false |> in
        let with_message outcome fault :=
          match copyLastError m (token_ i) with
          | Err e => mkBindResult outcome fkContractViolation code (str e)
          | Ok message => mkBindResult outcome fault code message
          end in
        if code =? PJ_MODULE_DECLINE then (Ok (with_message kDeclined fkNone), i, m)
        else if code <? 0
        then (Ok (with_message kBindError (if code =? PJ_MODULE_ERR_BAD_TOKEN then fkContractViolation else fkNone)), i, m)
        else (Ok (mkBindResult kBindError fkContractViolation code (str "pj_module_bind returned an out-of-contract positive result")), i, m)
    end.

(** What [parse] makes of the answer of a module that accepted the input. *)
Definition consume_output (i : NativeParserModuleInstance) (code : Z) (output : ByteView) (input_payload : bytes) : ParserModuleParseResult :=
  if match bv_data output with None => true | _ => false end || (bv_size output =? 0)
  then contractViolation code (str "pj_module_parse returned an unreadable output descriptor")
  else
    match readOutputDescriptorV1 (view_bytes output) with
    | Err e => contractViolation code (str ("malformed output descriptor: " +:+ e))
    | Ok descriptor =>
      if bound_route_ i =? kScalar then
        match descriptor with
        | ScalarOutput scalar => mkParseResult fkNone code [] (Some (ScalarResult (ownScalarOutput scalar)))
        | ObjectOutput _ => contractViolation code (str "output descriptor route does not match the scalar binding")
        end
      else
        match descriptor with
        | ScalarOutput _ => contractViolation code (str "output descriptor route does not match the object binding")
        | ObjectOutput object =>
          match ownObjectOutput object input_payload (ni_expected_object_type i) with
          | Err e => contractViolation code (str e)
          | Ok owned => mkParseResult fkNone code [] (Some (ObjectResult owned))
          end
        end
    end.

Definition native_parse (input : ParseInputV1) (i : NativeParserModuleInstance) (m : M) : Expected ParserModuleParseResult * M :=
  if negb (valid i) then (Err "cannot parse with an invalid native parser-module instance", m)
  else if negb (bound_ i) then (Err "cannot parse before an accepted module bind", m)
  else
    match writeParseInputV1 input with
    | Err e => (Err e, m)
    | Ok encoded =>
      let '((code, output), m) := nm_parse (token_ i) (bytes_view encoded) m in
      if code <? 0 then
        (Ok (match copyLastError m (token_ i) with
             | Err e => contractViolation code (str e)
             | Ok message => mkParseResult (if code =? PJ_MODULE_ERR_BAD_TOKEN then fkContractViolation else fkDataError) code message None
             end), m)
      else if negb (code =? PJ_MODULE_OK)
      then (Ok (contractViolation code (str "pj_module_parse returned a nonzero non-error result")), m)
      else (Ok (consume_output i code output (pi_payload input)), m)
    end.

Definition native_reset (i : NativeParserModuleInstance) (m : M) : NativeParserModuleInstance * M :=
  (i <| token_ := PJ_MODULE_CREATION_ERROR_TOKEN |> <| bound_ := false |>, if valid i then nm_destroy (token_ i) m else m).

(** The move constructor: the new instance, and what it leaves of [other]. *)
Definition native_move (other : NativeParserModuleInstance) : NativeParserModuleInstance * NativeParserModuleInstance :=
  (other, other <| token_ := PJ_MODULE_CREATION_ERROR_TOKEN |> <| bound_ := false |>).

(** The move assignment of a different instance: what it had is destroyed first. *)
Definition native_assign (this other : NativeParserModuleInstance) (m : M) : NativeParserModuleInstance * NativeParserModuleInstance * M :=
  let '(_, m) := native_reset this m in (native_move other, m).
End Runtime.

(** ** ParserModuleStrikeTracker *)

Inductive ParserModuleClaimHealth : Set := kActive | kQuarantined | kDisabled.

#[export] Instance health_eq_dec : EqDecision ParserModuleClaimHealth.
Proof. solve_decision. Defined.

Record ParserModuleStrikeState : Set := mkStrikeState { health : ParserModuleClaimHealth; strikes : Z; quarantine_count : Z }.

#[export] Instance eta_StrikeState : Eta ParserModuleStrikeState := fun r => mkStrikeState (health r) (strikes r) (quarantine_count r).

Definition strike_new : ParserModuleStrikeState := mkStrikeState kActive 0 0.

(** [std::map] from (module, claim) to the state, as a list without double keys. *)
Definition ClaimKey : Set := bytes * bytes.
Definition StrikeTracker : Set := list (ClaimKey * ParserModuleStrikeState).

Fixpoint tracker_find (key : ClaimKey) (t : StrikeTracker) : option ParserModuleStrikeState :=
  match t with
  | [] => None
  | (k, s) :: rest => if decide (k = key) then Some s else tracker_find key rest
  end.

Fixpoint tracker_store (key : ClaimKey) (s : ParserModuleStrikeState) (t : StrikeTracker) : StrikeTracker :=
  match t with
  | [] => [(key, s)]
  | (k, s') :: rest => if decide (k = key) then (k, s) :: rest else (k, s') :: tracker_store key s rest
  end.

Definition strike (s : ParserModuleStrikeState) (fault : ParserModuleFaultKind) : ParserModuleStrikeState :=
  if negb (bool_decide (fault = fkContractViolation)) || negb (bool_decide (health s = kActive)) then s
  else
    let s := s <| strikes := wrap 8 (strikes s + 1) |> in
    if strikes s =? 3 then
      let s := s <| strikes := 0 |> <| quarantine_count := wrap 8 (quarantine_count s + 1) |> in
      if quarantine_count s =? 1 then s <| health := kQuarantined |> else s <| health := kDisabled |>
    else s.

Definition recordFault (key : ClaimKey) (fault : ParserModuleFaultKind) (t : StrikeTracker) : ParserModuleStrikeState * StrikeTracker :=
  let s := strike (default strike_new (tracker_find key t)) fault in (s, tracker_store key s t).

Definition markRecreated (key : ClaimKey) (t : StrikeTracker) : bool * StrikeTracker :=
  match tracker_find key t with
  | None => (false, t)
  | Some s =>
    if negb (bool_decide (health s = kQuarantined)) then (false, t)
    else (true, tracker_store key (s <| health := kActive |>) t)
  end.

Definition tracker_state (key : ClaimKey) (t : StrikeTracker) : ParserModuleStrikeState := default strike_new (tracker_find key t).
