(* ===== verification/StrikeContract.v ===== *)
(** * StrikeContract: what the strike tracker does over a history

    Theorems on [ModuleRuntime]'s [ParserModuleStrikeTracker]: a claim's state depends on its own contract
    violations and recreations only, three violations end an activation, and the second time for good. *)

From S2P Require Import Prelude ModuleRuntime.

Inductive tracker_event : Set :=
  | Fault (key : ClaimKey) (fault : ParserModuleFaultKind)
  | Recreate (key : ClaimKey).

#[export] Instance event_eq_dec : EqDecision tracker_event.
Proof. solve_decision. Defined.

Definition event_key (e : tracker_event) : ClaimKey := match e with Fault k _ | Recreate k => k end.

Definition run_event (t : StrikeTracker) (e : tracker_event) : StrikeTracker :=
  match e with Fault k f => (recordFault k f t).2 | Recreate k => (markRecreated k t).2 end.

Definition run_events (t : StrikeTracker) (l : list tracker_event) : StrikeTracker := foldl run_event t l.

(** What an event does to the state of its own claim. *)
Definition own_event (s : ParserModuleStrikeState) (e : tracker_event) : ParserModuleStrikeState :=
  match e with
  | Fault _ f => strike s f
  | Recreate _ => if bool_decide (health s = kQuarantined) then s <| health := kActive |> else s
  end.

(** The events that matter to a claim: its violations and its recreations. *)
Definition matters (key : ClaimKey) (e : tracker_event) : bool :=
  bool_decide (event_key e = key) && match e with Fault _ f => bool_decide (f = fkContractViolation) | Recreate _ => true end.

Definition own_history (key : ClaimKey) (l : list tracker_event) : list tracker_event := filter (fun e => matters key e = true) l.

Definition violations (key : ClaimKey) (l : list tracker_event) : nat :=
  length (filter (fun e => e = Fault key fkContractViolation) l).
Definition recreations (key : ClaimKey) (l : list tracker_event) : nat := length (filter (fun e => e = Recreate key) l).

(** ** The map *)

Lemma find_store key key' s t : tracker_find key (tracker_store key' s t) = if decide (key = key') then Some s else tracker_find key t.
Proof.
  induction t as [|[k s'] t IH]; cbn [tracker_store tracker_find].
  - by repeat case_decide; subst.
  - destruct (decide (k = key')) as [->|Hne]; cbn [tracker_find]; [repeat case_decide; congruence|].
    rewrite IH. repeat case_decide; congruence.
Qed.

Lemma state_event key t e :
  tracker_state key (run_event t e) = if decide (event_key e = key) then own_event (tracker_state key t) e else tracker_state key t.
Proof.
  unfold tracker_state. destruct e as [k f|k]; cbn [run_event event_key own_event]; unfold recordFault; cbv zeta; cbn [snd].
  - rewrite find_store. repeat case_decide; try congruence. by subst.
  - unfold markRecreated. destruct (tracker_find k t) as [s|] eqn:E.
    + destruct (bool_decide (health s = kQuarantined)) eqn:Eq; cbn [negb snd].
      * rewrite find_store. destruct (decide (k = key)) as [->|]; [rewrite decide_True by done|by rewrite decide_False by done].
        rewrite E. cbn [default from_option id]. by rewrite Eq.
      * destruct (decide (k = key)) as [->|]; [|done]. rewrite E. cbn [default from_option id]. by rewrite Eq.
    + destruct (decide (k = key)) as [->|]; [|done]. cbn [snd]. by rewrite E.
Qed.

Lemma strike_ignored s f : f <> fkContractViolation -> strike s f = s.
Proof. intros Hf. unfold strike. by rewrite bool_decide_false by done. Qed.

(** Other claims and data errors leave a claim's state alone. *)
Lemma state_events key l t :
  tracker_state key (run_events t l) = foldl own_event (tracker_state key t) (own_history key l).
Proof.
  revert t. unfold run_events, own_history. induction l as [|e l IH]; intros t; [done|]. cbn [foldl]. rewrite IH, state_event.
  destruct (matters key e) eqn:E; [rewrite filter_cons_True by done|rewrite filter_cons_False by congruence]; unfold matters in E.
  - apply andb_prop in E as [E _]. apply bool_decide_eq_true in E. cbn [foldl]. by rewrite decide_True.
  - case_decide as Hk; [|done]. rewrite bool_decide_true in E by done. cbn [andb] in E. destruct e as [k f|k]; [|done].
    apply bool_decide_eq_false in E. cbn [own_event]. by rewrite strike_ignored.
Qed.

(** ** The life of a claim *)

(** Its states, with the violations counted so far. *)
Definition strike_ok (s : ParserModuleStrikeState) (v r : nat) : Prop :=
  match health s with
  | kActive => 0 <= strikes s < 3 /\ ((quarantine_count s = 0 /\ strikes s = Z.of_nat v) \/
      (quarantine_count s = 1 /\ strikes s + 3 <= Z.of_nat v /\ (1 <= r)%nat))
  | kQuarantined => strikes s = 0 /\ quarantine_count s = 1 /\ (3 <= v)%nat
  | kDisabled => strikes s = 0 /\ quarantine_count s = 2 /\ (6 <= v)%nat /\ (1 <= r)%nat
  end.

Lemma strike_ok_fault s v r : strike_ok s v r -> strike_ok (strike s fkContractViolation) (S v) r.
Proof.
  unfold strike, strike_ok. destruct s as [h n q]. rewrite (bool_decide_true (_ = fkContractViolation)) by done. cbn [health strikes quarantine_count negb orb].
  destruct h; [rewrite bool_decide_true by done|rewrite bool_decide_false by done; cbn; lia..]. cbn [negb].
  intros (Hn & Hq). assert (n = 0 \/ n = 1 \/ n = 2) as [->|[->| ->]] by lia; destruct Hq as [[-> Hq]|(-> & Hq & Hr)]; cbn;
    change (wrap 8 (0 + 1)) with 1; change (wrap 8 (1 + 1)) with 2; change (wrap 8 (2 + 1)) with 3; cbn; lia.
Qed.

Lemma strike_ok_recreate s k v r : strike_ok s v r -> strike_ok (own_event s (Recreate k)) v (S r).
Proof.
  unfold strike_ok. destruct s as [h n q]. cbn [own_event health].
  destruct h; [rewrite bool_decide_false by done|rewrite bool_decide_true by done|rewrite bool_decide_false by done]; cbn; [|lia..].
  intros (Hn & Hq). split; [done|]. lia.
Qed.

Lemma strike_ok_own key l s v r :
  strike_ok s v r -> strike_ok (foldl own_event s (own_history key l)) (v + violations key l) (r + recreations key l).
Proof.
  unfold own_history, violations, recreations. revert s v r. induction l as [|e l IH]; intros s v r H; [by rewrite !Nat.add_0_r|].
  destruct (matters key e) eqn:E; unfold matters in E.
  - rewrite (filter_cons_True (fun e => matters key e = true)) by done. apply andb_prop in E as [E1 E2]. apply bool_decide_eq_true in E1. cbn [foldl].
    destruct e as [k f|k]; cbn in E1; subst k.
    + apply bool_decide_eq_true in E2. subst f. rewrite filter_cons_True, filter_cons_False by done. cbn [length]. rewrite <-Nat.add_succ_comm.
      by apply IH, strike_ok_fault.
    + rewrite filter_cons_False, filter_cons_True by done. cbn [length]. rewrite <-(Nat.add_succ_comm r). by apply IH, strike_ok_recreate.
  - rewrite (filter_cons_False (fun e => matters key e = true)) by (unfold matters; congruence).
    rewrite !filter_cons_False; [by apply IH|..]; intros ->; cbn in E; by rewrite !bool_decide_true in E.
Qed.

Lemma disabled_stays s l : health s = kDisabled -> foldl own_event s l = s.
Proof.
  intros Hs. induction l as [|e l IH]; [done|]. cbn [foldl]. assert (own_event s e = s) as ->; [|done].
  destruct e; cbn [own_event]; [unfold strike|]; rewrite Hs; [|done]. rewrite (bool_decide_false (kDisabled = kActive)) by done. by rewrite orb_true_r.
Qed.

(** The strike tracker, over any history: a claim's state is that of its own violations and recreations (data
    errors and other claims never change it); it is active with fewer than three strikes, and every violation so
    far is a strike, until the third quarantines it; only [markRecreated] on a quarantined claim reactivates it,
    once: a claim is disabled after six violations and a recreation at least, and stays disabled. *)
Theorem strike_lifecycle key l l' :
  let s := tracker_state key (run_events [] l) in
  s = foldl own_event strike_new (own_history key l) /\
  strike_ok s (violations key l) (recreations key l) /\
  ((violations key l < 3)%nat -> health s = kActive /\ strikes s = Z.of_nat (violations key l)) /\
  ((markRecreated key (run_events [] l)).1 = true <-> health s = kQuarantined) /\
  (health s = kDisabled -> tracker_state key (run_events [] (l ++ l')) = s).
Proof.
  assert (forall l, tracker_state key (run_events [] l) = foldl own_event strike_new (own_history key l)) as Hs by (intros; by rewrite state_events).
  assert (strike_ok (tracker_state key (run_events [] l)) (violations key l) (recreations key l)) as Hok.
  { rewrite Hs. apply (strike_ok_own key l strike_new 0 0). cbn. lia. }
  split_and!; [done|done|..].
  - intros Hv. revert Hok. unfold strike_ok. destruct (health _); intros Hok; first [exfalso; lia|split; [done|lia]].
  - unfold markRecreated, tracker_state. destruct (tracker_find key _) as [s|]; [|done]. cbn [default].
    destruct (bool_decide (health s = kQuarantined)) eqn:E; [apply bool_decide_eq_true in E|apply bool_decide_eq_false in E]; done.
  - intros Hd. rewrite (Hs (l ++ l')). unfold own_history. rewrite filter_app, foldl_app. fold (own_history key l). rewrite <-Hs. by apply disabled_stays.
Qed.

(** A claim that comes back once. *)
Definition sample_history : list tracker_event :=
  let key : ClaimKey := (str "mod", str "claim") in
  let v := Fault key fkContractViolation in
  [v; Fault key fkDataError; v; Fault (str "mod", str "other") fkContractViolation; v; v; Recreate key; v; v; v].

Example sample_disabled : health (tracker_state (str "mod", str "claim") (run_events [] sample_history)) = kDisabled.
Proof. by vm_compute. Qed.
