(* ===== verification/ModuleContract.v ===== *)
(** * ModuleContract: what crosses the boundary of a parser module

    Theorems on [ModuleRuntime]: what the host accepts from any module, and, with [ModuleExports]
    on the other side, that what a module's parser described is what the host owns. *)

From S2P Require Import Prelude ProtobufWire BuiltinCodec MessageCodecs SensorCodecs PointCodecs SceneCodecs ModuleAbi ParserCore ObjectWriter ObjectWriterProofs ObjectWire ObjectContract ModuleReaders ModuleExports ModuleTokens ModuleRuntime.

(** ** What the host accepts *)

(** The bulk data of the types that have one. *)
Definition bulk_data (object : BuiltinObject) : option bytes :=
  match object with
  | OImage m => Some (im_data m)
  | OPointCloud m => Some (pc_data m)
  | ODepthImage m => Some (di_data m)
  | OOccupancyGrid m => Some (og_data m)
  | OCompressedPointCloud m => Some (cpc_data m)
  | OMesh3D m => Some (m3_data m)
  | OVideoFrame m => Some (vf_data m)
  | OOccupancyGridUpdate m => Some (ogu_data m)
  | OVoxelGrid m => Some (vg_data m)
  | OGridMap m => Some (gm_data m)
  | _ => None
  end.

(** An owned object: decoded from its wire at the bound type, with the payload's bytes where it names a splice. *)
Definition owned_ok (input_payload : bytes) (expected_type : Z) (o : ParserModuleObjectOutput) : Prop :=
  typeOf (po_object o) = expected_type /\
  exists decoded, deserializeBuiltinObject expected_type (po_wire o) = Ok decoded /\
    match po_splice o with
    | None => po_object o = decoded
    | Some s =>
      splice_field_number_v1 expected_type = Some (ps_field_number s) /\
      ps_input_offset s + blen (ps_payload_bytes s) <= blen input_payload /\
      (exists before after, input_payload = before ++ ps_payload_bytes s ++ after /\ blen before = ps_input_offset s) /\
      attach expected_type decoded (ps_payload_bytes s) = Some (po_object o) /\
      bulk_data (po_object o) = Some (ps_payload_bytes s) /\
      (forall m, po_object o = OGridMap m -> validateGridMap m = Ok tt)
    end.

Lemma attach_bulk type object materialized object' :
  attach type object materialized = Some object' -> typeOf object' = typeOf object /\ bulk_data object' = Some materialized.
Proof. destruct object; cbn [attach]; try done; (destruct (type =? _); [|done]); intros H; by injection H as <-. Qed.

Lemma prefixed_ok {A} prefix (m : Expected A) a : prefixed prefix m = Ok a -> m = Ok a.
Proof. destruct m; [|done]. intros H. by injection H as <-. Qed.

Lemma own_object_ok object input_payload expected_type o :
  object_output_wf object -> blen input_payload < 2 ^ 64 ->
  ownObjectOutput object input_payload expected_type = Ok o -> owned_ok input_payload expected_type o.
Proof.
  intros [Ht Hs] Hp H. unfold ownObjectOutput in H. destruct (oo_object_type object =? expected_type) eqn:E; [|done]. cbn [negb] in H.
  apply Z.eqb_eq in E. rewrite E in H. destruct (prefixed _ (deserializeBuiltinObject _ _)) as [decoded|] eqn:Ed; [|done]. cbn [ebind] in H.
  apply prefixed_ok in Ed. pose proof (deserialize_type _ _ _ Ed) as Htype. destruct (oo_splice object) as [sp|].
  2: { injection H as <-. split; [done|]. by exists decoded. }
  destruct (bool_decide _) eqn:Ef; [|done]. apply bool_decide_eq_true in Ef. cbn [negb] in H.
  destruct (_ || _) eqn:Er; [done|]. apply orb_false_elim in Er as [E1 E2]. rewrite Z.gtb_ltb in E1, E2. apply Z.ltb_ge in E1, E2.
  destruct Hs as (? & Ho & Hl). unfold in_u in Ho, Hl. rewrite wrap_small in E2 by (unfold in_u, blen in *; lia).
  destruct (attach _ _ _) as [object'|] eqn:Ea; [|done]. destruct (attach_bulk _ _ _ _ Ea) as [Ht' Hb].
  destruct (prefixed _ (match object' with _ => _ end)) as [[]|] eqn:Ev; [|done]. cbn [ebind] in H. injection H as <-. apply prefixed_ok in Ev.
  split; [cbn [po_object]; by rewrite Ht'|]. exists decoded. split; [done|]. cbn [po_splice po_object ps_field_number ps_payload_bytes ps_input_offset].
  assert (blen (spliced_range sp input_payload) = sp_input_length sp) as Hlen.
  { unfold spliced_range, blen in *. rewrite length_take, length_drop. lia. }
  split_and!; [done|lia| |done|done|intros m ->; done].
  exists (take (Z.to_nat (sp_input_offset sp)) input_payload), (drop (Z.to_nat (sp_input_length sp)) (drop (Z.to_nat (sp_input_offset sp)) input_payload)).
  unfold spliced_range. rewrite !take_drop. split; [done|]. unfold blen in *. rewrite length_take. lia.
Qed.

Lemma read_fixed_some {A} width e (k : Z -> reader -> Expected A) r a :
  (read! x := readFixed width or e in k x) r = Ok a -> exists v r', in_u (8 * Z.of_nat width) v /\ k v r' = Ok a.
Proof. cbv beta. destruct (readFixed width r) as [[v|] r'] eqn:E; [|done]. intros H. exists v, r'. split; [by eapply readFixed_range|done]. Qed.

Lemma read_some {A B} (m : rop A) e (k : A -> reader -> Expected B) r b :
  (read! x := m or e in k x) r = Ok b -> exists v r', k v r' = Ok b.
Proof. cbv beta. destruct (m r) as [[v|] r'] eqn:E; [|done]. intros H. by exists v, r'. Qed.

Lemma reject_some {A} (c : bool) e (k : reader -> Expected A) r a : (reject! c or e in k) r = Ok a -> k r = Ok a.
Proof. cbv beta. by destruct c. Qed.

(** Whatever a block holds, the object that is read has the width of its fields. *)
Lemma read_object_wf block o : readOutputDescriptorV1 block = Ok (ObjectOutput o) -> object_output_wf o.
Proof.
  intros H. unfold readOutputDescriptorV1, decode_output in H.
  apply read_some in H as (version & r1 & H). apply read_some in H as (route & r2 & H). apply read_some in H as (_ & r3 & H).
  apply reject_some in H. destruct (route =? kObject).
  - unfold readObjectOutput in H. apply read_fixed_some in H as (type & r4 & Ht & H). apply read_fixed_some in H as (count & r5 & _ & H).
    apply read_fixed_some in H as (field & r6 & Hf & H). apply read_fixed_some in H as (offset & r7 & Ho & H).
    apply read_fixed_some in H as (len & r8 & Hl & H). apply read_fixed_some in H as (wl & r9 & _ & H).
    destruct (count >? 1); [done|]. destruct (negb _); [done|]. destruct (read_take wl r9) as [[wire|] r10]; [|done]. injection H as <-. split; [exact Ht|]. cbn. by destruct (count =? 1).
  - destruct (route =? kScalar); [|done]. unfold readScalarOutput in H. do 4 apply read_some in H as (? & ? & H). do 2 (destruct (_ >? _); [done|]). destruct (read_scalar_fields _ _ _) as [ds|]; [|done]. cbn [ebind] in H. destruct (resolve_names _ _); done.
Qed.

Section AnyModule.
Context {M : Type} `{NativeParserModule M}.

(** What a result of [parse] says. *)
Definition result_ok (i : NativeParserModuleInstance) (input_payload : bytes) (r : ParserModuleParseResult) : Prop :=
  match pr_fault r with
  | fkNone => pr_code r = PJ_MODULE_OK /\
      match pr_output r with
      | Some (ScalarResult _) => bound_route_ i = kScalar
      | Some (ObjectResult o) => bound_route_ i <> kScalar /\ owned_ok input_payload (ni_expected_object_type i) o
      | None => False
      end
  | fkDataError => pr_output r = None /\ pr_code r < 0 /\ pr_code r <> PJ_MODULE_ERR_BAD_TOKEN
  | fkContractViolation => pr_output r = None
  end.

Lemma consume_output_ok i code output input_payload :
  code = PJ_MODULE_OK -> blen input_payload < 2 ^ 64 -> result_ok i input_payload (consume_output i code output input_payload).
Proof.
  intros -> Hp. unfold consume_output. destruct (_ || _); [done|]. destruct (readOutputDescriptorV1 _) as [[object|scalar]|e] eqn:Er; [| |done].
  - destruct (bound_route_ i =? kScalar) eqn:Eb; [done|]. destruct (ownObjectOutput _ _ _) as [o|e] eqn:Eo; [|done].
    apply Z.eqb_neq in Eb. split; [done|]. split; [done|]. eapply own_object_ok; [by eapply read_object_wf|done|exact Eo].
  - destruct (bound_route_ i =? kScalar) eqn:Eb; [|done]. apply Z.eqb_eq in Eb. by split.
Qed.

(** C8 The host trusts no module: whatever a module's functions answer, a parse gives an output exactly when it is not
    at fault. An accepted object has the bound type, is decoded from the wire it keeps, and where it names a splice,
    the field is the eligible one, the bytes lie in the payload at their offset, and they are the object's data (a
    grid map then passes its whole validation). Only a negative code other than a bad token is a data error. *)
Theorem native_parse_sound input i m :
  let '(r, m') := native_parse input i m in
  match r with
  | Ok r => valid i = true /\ bound_ i = true /\ result_ok i (pi_payload input) r /\
      (pr_output r <> None <-> pr_fault r = fkNone)
  | Err _ => (valid i = false \/ bound_ i = false \/ size_max < 24 + blen (pi_payload input)) /\ m' = m
  end.
Proof.
  unfold native_parse. destruct (valid i); [cbn [negb]|by split; [left|]].
  destruct (bound_ i); [cbn [negb]|by split; [right; left|]].
  destruct (writeParseInputV1 input) as [encoded|e] eqn:Ew.
  2: { split; [|done]. right; right. unfold writeParseInputV1, checkedAdd, kParseInputHeaderSize in Ew.
       destruct (_ >? _) eqn:E; [|done]. bprop. lia. }
  assert (blen (pi_payload input) < 2 ^ 64) as Hp.
  { unfold writeParseInputV1, checkedAdd, kParseInputHeaderSize in Ew. destruct (_ >? _) eqn:E; [done|]. bprop. cbn. lia. }
  assert (forall r, result_ok i (pi_payload input) r -> true = true /\ true = true /\ result_ok i (pi_payload input) r /\
    (pr_output r <> None <-> pr_fault r = fkNone)) as Hwrap.
  { intros r0 Hr. split; [done|]. split; [done|]. split; [done|]. unfold result_ok in Hr.
    destruct (pr_fault r0), (pr_output r0); naive_solver. }
  destruct (nm_parse _ _ m) as [[code output] m1]. destruct (code <? 0) eqn:Ec; [|destruct (code =? PJ_MODULE_OK) eqn:E0]; cbn [negb]; apply Hwrap.
  - destruct (copyLastError m1 _); [|done]. destruct (code =? _) eqn:E2; [done|]. apply Z.eqb_neq in E2. apply Z.ltb_lt in Ec. done.
  - apply Z.eqb_eq in E0. by apply consume_output_ok.
  - done.
Qed.
End AnyModule.

(** ** Error messages *)

Lemma until_nul_take l : take (c_length l) l = until_nul l.
Proof. induction l as [|c l IH]; [done|]. cbn [c_length until_nul]. case_decide; [done|]. cbn [take]. by rewrite IH. Qed.

Lemma c_length_le l : (c_length l <= length l)%nat.
Proof. induction l as [|c l IH]; cbn [c_length]; [done|]. case_decide; cbn [length]; lia. Qed.

Lemma until_nul_idem l : until_nul (until_nul l) = until_nul l.
Proof. induction l as [|c l IH]; [done|]. cbn [until_nul]. destruct (decide (c = Byte.x00)) as [|Hn] eqn:E; [done|]. cbn [until_nul]. by rewrite E, IH. Qed.

Lemma until_nul_app l k : until_nul (l ++ Byte.x00 :: k) = until_nul l.
Proof. induction l as [|c l IH]; cbn [app until_nul]; [by rewrite decide_True|]. case_decide; [done|]. by rewrite IH. Qed.

Lemma recordError_text old msg : length old = kErrorBufferSize ->
  length (recordError old msg) = kErrorBufferSize /\ until_nul (recordError old msg) = until_nul (take 511 msg).
Proof.
  intros Hl. unfold recordError, copyMessage, kErrorBufferSize in *. cbn [Nat.eqb default from_option id].
  assert (take (if (length msg <? 512 - 1)%nat then length msg else (512 - 1)%nat) msg = take 511 msg) as Ht.
  { destruct (_ <? _)%nat eqn:E; bprop; [by rewrite !take_ge by lia|done]. }
  rewrite Ht. split; [|apply until_nul_app]. rewrite !length_app, length_take, length_drop, Hl. cbn [length]. destruct (_ <? _)%nat eqn:E; bprop; lia.
Qed.

(** ** The blocks that the host hands over *)

Lemma binding_block info block :
  writeBindingInfoV1 info = Ok block -> byte_view_wf (bytes_view block) /\ validRoute (bi_route info) = true.
Proof.
  intros H. destruct (proj1 (binding_written_iff info) (ex_intro _ block H)) as [Hr Ht]. split; [|done].
  unfold writeBindingInfoV1 in H. rewrite Hr in H. cbn [negb] in H. destruct (binding_layout _ _) as [[os e]|] eqn:El; [|done].
  pose proof (binding_layout_spec 64 _ os e ltac:(done) El) as [He Hn]. cbn [ebind] in H. destruct (e >? _); [done|]. injection H as <-.
  unfold byte_view_wf, bytes_view. cbn [bv_data bv_size]. split; [|done]. unfold in_u, blen.
  rewrite !wseq_bytes, appendAll_insert_end, !length_app by apply _. unfold u16, u32. rewrite !length_fixed.
  rewrite (length_appendAll _ 8), length_combine, Hn by first [apply length_descriptor|apply _]. unfold total_length, blen in Ht.
  change (length (binding_fields info)) with 6%nat. change (2 ^ 64) with 18446744073709551616. unfold u8. lia.
Qed.

Lemma input_block input block :
  writeParseInputV1 input = Ok block -> exists header, block = header ++ pi_payload input /\ length header = 24%nat /\ byte_view_wf (bytes_view block).
Proof.
  intros H. unfold writeParseInputV1 in H. destruct (checkedAdd _ _) as [n|] eqn:Ec; [|done]. unfold checkedAdd, kParseInputHeaderSize in Ec.
  destruct (_ >? _) eqn:E; [done|]. injection H as <-. rewrite Z.gtb_ltb in E. apply Z.ltb_ge in E.
  rewrite !wseq_bytes by apply _. rewrite !app_assoc. eexists. split; [reflexivity|].
  match goal with |- length ?h = _ /\ _ => assert (length h = 24%nat) as Hh end.
  { rewrite !length_app. unfold u8, u64, write_i64, zeros, insert_end. cbn [app]. rewrite !length_fixed. done. }
  split; [exact Hh|]. unfold byte_view_wf, bytes_view. cbn [bv_data bv_size]. unfold insert_end. cbn [app]. unfold in_u, blen in *. rewrite length_app, Hh. cbn. lia.
Qed.

(** What a module reads of them. *)
Lemma binding_read info block : binding_wf info -> writeBindingInfoV1 info = Ok block ->
  exists info', readBindingInfo (bytes_view block) = Value info' /\ same_binding info' info.
Proof.
  intros Hwf Hw. destruct (binding_block _ _ Hw) as [Hb _]. pose proof (readBindingInfo_agrees _ Hb) as Ha.
  assert (view_bytes (bytes_view block) = block) as Hv by (apply take_ge; unfold blen; cbn [bytes_view bv_size]; unfold blen; lia).
  rewrite Hv, (binding_written info block) in Ha by done. destruct (readBindingInfo _) as [info'|s]; [|done]. by exists info'.
Qed.

Lemma input_read input block : parse_input_wf input -> writeParseInputV1 input = Ok block ->
  readParseInput (bytes_view block) = Value (mkParseInput (pi_has_timestamp input) (pi_timestamp_ns input) (bytes_view (pi_payload input))).
Proof.
  intros Hwf Hw. destruct (input_block _ _ Hw) as (header & Eb & Hh & Hb). pose proof (readParseInput_agrees _ Hb) as Ha.
  assert (view_bytes (bytes_view block) = block) as Hv by (apply take_ge; unfold blen; cbn [bytes_view bv_size]; unfold blen; lia).
  rewrite Hv, (parse_input_written input block) in Ha by done. destruct (readParseInput _) as [input'|s] eqn:Er; [|done].
  destruct Ha as (H1 & H2 & _). f_equal. destruct input' as [h t p]. cbn [has_timestamp timestamp_ns] in *. subst h t. f_equal.
  unfold readParseInput, fetch_input in Er. cbn [bytes_view bv_data orb] in Er.
  destruct (_ <? 24); [done|]. destruct (negb (Z.land _ 254 =? 0)); [done|].
  destruct (ler_skip 8 _) as [[u|] r1] eqn:E1; [|done]. destruct (ler_read 8 r1) as [[ts|] r2] eqn:E2; [|done].
  destruct (ler_read 8 r2) as [[n|] r3] eqn:E3; [|done]. destruct (_ || _) eqn:E4; [done|]. apply orb_false_elim in E4 as [_ E4].
  apply ler_skip_position in E1. apply ler_read_position in E2, E3. cbn [ler_position] in E1. apply negb_false_iff, Z.eqb_eq in E4.
  assert (ler_position r3 = 24) as E5 by lia. rewrite E5 in Er, E4. injection Er as _ _ <-. cbn [bytes_view bv_data bv_size option_map].
  rewrite Eb in *. unfold bytes_view, blen in *. cbn [bv_size] in E4. rewrite length_app, Hh in E4. change (Z.to_nat 24) with 24%nat.
  rewrite <-Hh at 1. rewrite drop_length_app. f_equal. lia.
Qed.

(** ** The object that a writer describes *)

(** A spliced object has the bytes of the payload that its reference names. *)
Definition described (w : ObjectWriter) (input_payload : bytes) : BuiltinObject :=
  match splice_ w with
  | None => as_object w
  | Some r => default NoObject (attach (selectedObjectType (kind_ w)) (as_object w)
      (take (Z.to_nat (ref_length r)) (drop (Z.to_nat (ref_offset r)) input_payload)))
  end.

(** What the host validates of it: the layout of a grid map. *)
Definition layout_ok (w : ObjectWriter) (input_payload : bytes) : bool :=
  has_value (accepted (as_object w)) &&
  match splice_ w, described w input_payload with
  | Some _, OGridMap m => has_value (validateGridMap m)
  | _, _ => true
  end.

Lemma accepted_value o o' : accepted o = Ok o' -> o' = o.
Proof. destruct o; cbn [accepted]; try congruence. destruct (validateLayout _ _); [|done]. cbn. congruence. Qed.

Lemma attach_described w materialized :
  kind_ w <> kNone -> exists o, attach (selectedObjectType (kind_ w)) (as_object w) materialized = Some o.
Proof. unfold as_object. destruct (kind_ w); intros Hk; [done|..]; by eexists. Qed.

Lemma own_described w input_payload expected :
  ow_inv (bytes_view input_payload) w -> kind_ w <> kNone -> fits (wire_of w []) -> blen input_payload < 2 ^ 64 ->
  match ownObjectOutput (descriptor_of w) input_payload expected with
  | Ok o =>
    selectedObjectType (kind_ w) = expected /\ layout_ok w input_payload = true /\ po_object o = described w input_payload /\
    po_wire o = wire_of w [] /\ option_map ps_input_offset (po_splice o) = option_map ref_offset (splice_ w)
  | Err _ => selectedObjectType (kind_ w) <> expected \/ layout_ok w input_payload = false
  end.
Proof.
  intros (Hw & Hs & Hin) Hk Hf Hp. unfold ownObjectOutput, descriptor_of. cbn [oo_object_type oo_splice oo_wire].
  destruct (Z.eqb_spec (selectedObjectType (kind_ w)) expected) as [He|He]; cbn [negb]; [|by left]. cbv zeta.
  rewrite (wire_decodes w Hw Hk Hf). unfold layout_ok, described. destruct (accepted (as_object w)) as [o|e] eqn:Ea; cbn [prefixed ebind has_value andb]; [|by right].
  apply accepted_value in Ea as ->. unfold splice_ok in Hs. destruct (splice_ w) as [r|]; [|by split_and!].
  cbn [sp_field_number sp_input_offset sp_input_length]. destruct Hs as ([Ho Hl] & Hr & _). rewrite Hin in Hr. cbn [bytes_view bv_size] in Hr. unfold in_u in Ho, Hl.
  rewrite (bool_decide_true (splice_field_number_v1 _ = _)) by (by destruct (kind_ w)). cbn [negb].
  rewrite wrap_small by (unfold in_u, blen in *; lia). rewrite !Z.gtb_ltb, !(proj2 (Z.ltb_ge _ _)) by lia. cbn [orb].
  unfold spliced_range. cbn [sp_input_offset sp_input_length].
  destruct (attach_described w (take (Z.to_nat (ref_length r)) (drop (Z.to_nat (ref_offset r)) input_payload)) Hk) as [o' Ho']. rewrite Ho'. cbn [default from_option id].
  destruct o' as [| | | | | | | | | | | | | | | | | |g]; cbn [prefixed ebind]; try (by split_and!).
  destruct (validateGridMap g) as [[]|e]; cbn [prefixed ebind has_value]; [by split_and!|by right].
Qed.

Section Boundary.
Context {P : Type} `{FunctionalParser P} (alloc : Z -> bool) (claim_count : Z) (env : Allocations).

(** The exports of [PJ_FUNCTIONAL_PARSER], as the host calls them. *)
#[export] Instance functional_module : NativeParserModule (Module_ P) := {|
  nm_create := fun index m => create claim_count env index m;
  nm_destroy := destroy;
  nm_bind := bind;
  nm_parse := fun token block m => let '((code, out), m') := parse alloc token block true m in ((code, default null_view out), m');
  nm_last_error := fun token m =>
    let written := lastError token true 512 m in (blen written, written ++ replicate (512 - length written) Byte.x00) |}.

Lemma copyLastError_text (m : Module_ P) token x :
  token <> kCreationErrorToken -> find (instances m) token = Some x -> length (error x) = kErrorBufferSize ->
  copyLastError m token = Ok (until_nul (error x)).
Proof.
  intros Ht Hx Hl. unfold copyLastError. cbn [nm_last_error functional_module]. unfold lastError. cbn [negb orb Z.eqb].
  rewrite (proj2 (Z.eqb_neq _ _)) by done. rewrite Hx. pose proof (c_length_le (error x)) as Hle. unfold kErrorBufferSize in Hl.
  assert (take (if Z.of_nat (c_length (error x)) <? 512 then c_length (error x) else Z.to_nat 512) (error x) = until_nul (error x)) as E.
  { rewrite <-until_nul_take. f_equal. destruct (_ <? _) eqn:E; bprop; lia. }
  change (512 >? SIZE_MAX) with false. cbn [negb orb]. rewrite E. unfold blen. assert (length (until_nul (error x)) <= 512)%nat as Hn by (rewrite <-until_nul_take, length_take; lia).
  rewrite Z.gtb_ltb, (proj2 (Z.ltb_ge _ _)) by (unfold PJ_MODULE_ERROR_BUFFER_SIZE; lia).
  rewrite Nat2Z.id, take_length_app. by rewrite until_nul_idem.
Qed.

(** *** A host's instance and the module's *)

(** The commands that others send to the module. *)
Definition other_command (c : command) (m : Module_ P) : Module_ P := tr_module (run_command alloc claim_count (mkTrace m [] []) c).

(** What leads a host to hold an instance: the calls on it, between calls on other tokens. *)
Inductive session : NativeParserModuleInstance -> Module_ P -> Prop :=
  | session_create l index i m :
      Forall command_wf l ->
      native_create index (tr_module (run_commands alloc claim_count trace_new l)) = (Ok i, m) -> session i m
  | session_bind info i m r i' m' :
      session i m -> binding_wf info -> native_bind info i m = (r, i', m') -> session i' m'
  | session_parse input i m r m' :
      session i m -> native_parse input i m = (r, m') -> session i m'
  | session_other c i m :
      session i m -> command_wf c -> target c <> Some (token_ i) -> session i (other_command c m).

(** The two sides agree on whether the instance is bound, and to which route. *)
Definition inst_ok (i : NativeParserModuleInstance) (x : Instance_ P) : Prop :=
  length (error x) = kErrorBufferSize /\
  (bound_ i = true -> bound x = true /\ route x = bound_route_ i /\ validRoute (bound_route_ i) = true).

Definition linked (i : NativeParserModuleInstance) (m : Module_ P) : Prop :=
  valid i = true /\ (exists issued live, trace_inv (mkTrace m issued live) /\ token_ i ∈ live) /\
  exists x, found m (token_ i) = Some x /\ inst_ok i x.

Lemma clear_error_length (l : bytes) : length (clear_error l) = length l.
Proof. apply length_insert. Qed.

Lemma fail_error code msg (x : Instance_ P) : length (error x) = kErrorBufferSize ->
  length (error (fail code msg x).2) = kErrorBufferSize /\ until_nul (error (fail code msg x).2) = until_nul (take 511 msg).
Proof. apply recordError_text. Qed.

Lemma bind_instance_ok block (x : Instance_ P) : length (error x) = kErrorBufferSize ->
  let '(code, x') := bind_instance block x in
  length (error x') = kErrorBufferSize /\
  (code = kModuleOk -> bound x' = true /\ exists info, readBindingInfo block = Value info /\ route x' = route_ info).
Proof.
  intros Hl. assert (forall code msg (y : Instance_ P), code <> kModuleOk -> length (error y) = kErrorBufferSize ->
    let '(c, x') := fail code msg y in length (error x') = kErrorBufferSize /\ (c = kModuleOk -> bound x' = true /\
      exists info, readBindingInfo block = Value info /\ route x' = route_ info)) as Hf.
  { intros code msg y Hc Hy. split; [exact (proj1 (fail_error code msg y Hy))|]. by intros. }
  unfold bind_instance. destruct (_ || _); [by apply Hf|]. destruct (readBindingInfo block) as [info|s]; [|by apply Hf].
  destruct (negb _); [by apply Hf|]. destruct (parser_bind _ _) as [p [status|]]; [|by apply Hf].
  destruct (isOk status) eqn:E.
  - split; [cbn; by rewrite length_insert|]. intros _. split; [done|]. by exists info.
  - apply Hf; [|done]. by destruct (isDecline status).
Qed.

Lemma parse_instance_ok block (x : Instance_ P) : length (error x) = kErrorBufferSize ->
  let '(_, x') := parse_instance alloc block true x in
  length (error x') = kErrorBufferSize /\ bound x' = bound x /\ route x' = route x.
Proof.
  intros Hl. assert (forall code msg (y : Instance_ P), length (error y) = kErrorBufferSize -> bound y = bound x -> route y = route x ->
    let '(_, x') := (let '(code, i) := fail code msg y in ((code, @None ByteView), i)) in
    length (error x') = kErrorBufferSize /\ bound x' = bound x /\ route x' = route x) as Hf.
  { intros code msg y Hy Hb Hr. split; [exact (proj1 (fail_error code msg y Hy))|done]. }
  unfold parse_instance. destruct (negb _); [by apply Hf|]. destruct (_ || _); [by apply Hf|].
  destruct (readParseInput block) as [input|s]; [|by apply Hf]. destruct (run_parser _ x input) as [p [[parsed out]|]]; [|by apply Hf].
  destruct (negb _); [by apply Hf|]. destruct out as [b|s]; [|by apply Hf]. split; [cbn; by rewrite length_insert|done].
Qed.

Definition traced (m : Module_ P) (tok : Z) : Prop := exists issued live, trace_inv (mkTrace m issued live) /\ tok ∈ live.

Lemma traced_token m tok : traced m tok -> in_u 64 tok /\ table_wf (instances m).
Proof.
  intros (issued & live & (Hw & _ & _ & Hl & Hu & _) & Ht). split; [|exact Hw]. exact (proj1 (Forall_forall _ _) Hu _ (Hl _ Ht)).
Qed.

(** A command to a module keeps the live tokens but the one it destroys. *)
Lemma traced_command m tok c : traced m tok -> command_wf c -> (forall k, c = Destroy k -> k <> tok) -> traced (other_command c m) tok.
Proof.
  intros (issued & live & Hinv & Ht) Hc Hd. destruct (run_command_good alloc claim_count _ c Hinv Hc) as [Hinv' _].
  unfold other_command. destruct c as [e index|k|k block|k block ok]; cbn [run_command tr_module tr_issued tr_live] in *.
  - destruct (create _ _ _ _) as [t m']. destruct (t =? _); cbn [tr_module]; [by exists issued, live|]. exists (t :: issued), (t :: live). split; [done|by right].
  - eexists _, _. split; [exact Hinv'|]. apply list_elem_of_filter. split; [|done]. intros E. exact (Hd k eq_refl (eq_sym E)).
  - by exists issued, live.
  - by exists issued, live.
Qed.

Lemma found_command m tok c : traced m tok -> command_wf c -> target c <> Some tok -> found (other_command c m) tok = found m tok.
Proof.
  intros (issued & live & Hinv & Ht) Hc Hd. destruct (run_command_good alloc claim_count _ c Hinv Hc) as [_ Hf].
  specialize (Hf tok Ht Hd). cbn [tr_module] in Hf. unfold other_command. rewrite <-Hf. destruct c as [e index|k|k block|k block ok]; cbn [run_command tr_module]; try done.
  destruct (create _ _ _ _) as [t m']. by destruct (t =? _).
Qed.

(** A call on a live token runs on its instance. *)
Lemma call_found {R} (f : Instance_ P -> R * Instance_ P) m tok x :
  traced m tok -> found m tok = Some x ->
  exists j, findSlotLocked (instances m) tok = Some j /\ find (instances m) tok = Some x /\ found (stored j m (f x)).2 tok = Some (f x).2.
Proof.
  intros Ht Hx. destruct (traced_token m tok Ht) as [Hu Hw]. pose proof (call_spec _ tok Hw Hu f m eq_refl) as H'. unfold found in Hx. rewrite Hx in H'.
  destruct (findSlotLocked _ tok) as [j|]; [|unfold found in H'; congruence]. exists j. split; [done|]. split; [done|]. destruct H' as (_ & _ & H').
  rewrite H' by done. by rewrite decide_True.
Qed.

Lemma bind_found block m tok x : traced m tok -> found m tok = Some x ->
  (bind tok block m).1 = (bind_instance block x).1 /\ traced (bind tok block m).2 tok /\ found (bind tok block m).2 tok = Some (bind_instance block x).2.
Proof.
  intros Ht Hx. split_and!.
  - destruct (call_found (bind_instance block) m tok x Ht Hx) as (j & Hj & Hf & _). unfold bind. by rewrite Hj, Hf.
  - apply (traced_command m tok (Bind tok block)); [done| |done]. exact (proj1 (traced_token _ _ Ht)).
  - destruct (call_found (bind_instance block) m tok x Ht Hx) as (j & Hj & Hf & Hs). unfold bind. by rewrite Hj, Hf.
Qed.

Lemma parse_found block m tok x : traced m tok -> found m tok = Some x ->
  (parse alloc tok block true m).1 = (parse_instance alloc block true x).1 /\ traced (parse alloc tok block true m).2 tok /\
  found (parse alloc tok block true m).2 tok = Some (parse_instance alloc block true x).2.
Proof.
  intros Ht Hx. split_and!.
  - destruct (call_found (parse_instance alloc block true) m tok x Ht Hx) as (j & Hj & Hf & _). unfold parse. by rewrite Hj, Hf.
  - apply (traced_command m tok (Parse tok block true)); [done| |done]. exact (proj1 (traced_token _ _ Ht)).
  - destruct (call_found (parse_instance alloc block true) m tok x Ht Hx) as (j & Hj & Hf & Hs). unfold parse. by rewrite Hj, Hf.
Qed.

(** [create] answers a live token. *)
Lemma created_linked l index i m :
  Forall command_wf l -> native_create index (tr_module (run_commands alloc claim_count trace_new l)) = (Ok i, m) -> linked i m.
Proof.
  intros Hl Hc. pose proof (run_commands_inv alloc claim_count l trace_new Hl trace_inv_new) as Hinv. set (tr := run_commands _ _ _ l) in *.
  unfold native_create in Hc. cbn [nm_create functional_module] in Hc. pose proof (run_command_good alloc claim_count tr (Create env index) Hinv I) as [Hinv' _].
  cbn [run_command] in Hinv'. destruct (create claim_count env index (tr_module tr)) as [tok m1] eqn:Ec.
  change PJ_MODULE_CREATION_ERROR_TOKEN with 0 in Hc. change kCreationErrorToken with 0 in Hinv'. destruct (tok =? 0) eqn:E0.
  { destruct (copyLastError m1 0); done. }
  injection Hc as <- <-. split_and!; [unfold valid; cbn [token_]; by change PJ_MODULE_CREATION_ERROR_TOKEN with 0; rewrite E0|eexists _, _; split; [exact Hinv'|by left]|].
  pose proof Hinv as (Hw & _). unfold create in Ec. destruct (index >=? claim_count); [injection Ec as <- <-; done|]. destruct (instance_allocated env); [|injection Ec as <- <-; done].
  cbn [negb] in Ec. destruct new_parser as [p|]; [|injection Ec as <- <-; done].
  pose proof (create_slot_spec (table_allocated env) (mkInstance p index kScalar false blob_empty no_error) _ Hw) as Hs.
  destruct (create_slot _ _ _) as [[[t|] t'] msg]; [|injection Ec as <- <-; done]. injection Ec as <- <-. destruct Hs as (_ & Ht & _ & _ & _ & Hf).
  exists (mkInstance p index kScalar false blob_empty no_error). split; [unfold found; cbn; rewrite Hf by done; by rewrite decide_True|].
  split; [done|]. done.
Qed.

Lemma bind_linked info i m r i' m' : linked i m -> binding_wf info -> native_bind info i m = (r, i', m') -> linked i' m'.
Proof.
  intros (Hv & Ht & x & Hx & Hl & Hb) Hwf H'. unfold native_bind in H'. rewrite Hv in H'. cbn [negb] in H'.
  assert (linked i m) as Hsame by (split_and!; [done..|by exists x]).
  destruct (negb _); [by injection H' as _ <- <-|]. destruct (writeBindingInfoV1 info) as [block|e] eqn:Ew; [|by injection H' as _ <- <-].
  destruct (binding_block _ _ Ew) as [_ Hr]. destruct (binding_read _ _ Hwf Ew) as (info' & Er & Hs & _).
  destruct (bind_found (bytes_view block) m (token_ i) x Ht Hx) as (Hc & Ht' & Hx').
  pose proof (bind_instance_ok (bytes_view block) x Hl) as Hok. destruct (bind_instance _ x) as [code x'] eqn:Ei. destruct Hok as [Hl' Hok].
  cbn [nm_bind functional_module] in H'. destruct (bind (token_ i) (bytes_view block) m) as [c m1] eqn:Eb. cbn [fst snd] in *. subst c.
  assert (forall i1, token_ i1 = token_ i -> (bound_ i1 = true -> bound x' = true /\ route x' = bound_route_ i1 /\ validRoute (bound_route_ i1) = true) -> linked i1 m1) as Hlink.
  { intros i1 E1 Hb1. unfold linked, valid. rewrite E1. split_and!; [exact Hv|done|]. exists x'. by split_and!. }
  destruct (code =? PJ_MODULE_OK) eqn:E0.
  - injection H' as _ <- <-. apply Hlink; [done|]. intros _. apply Z.eqb_eq in E0. destruct (Hok E0) as (Hbd & info2 & Er2 & Hr2).
    rewrite Er in Er2. injection Er2 as <-. cbn. by rewrite Hr2, Hs.
  - assert (i' = i <| bound_ := false |> /\ m1 = m') as [-> <-].
    { destruct (code =? PJ_MODULE_DECLINE); [|destruct (code <? 0)]; by injection H' as _ <- <-. }
    by apply Hlink.
Qed.

Lemma parse_linked input i m r m' : linked i m -> native_parse input i m = (r, m') -> linked i m'.
Proof.
  intros (Hv & Ht & x & Hx & Hl & Hb) H'. unfold native_parse in H'. rewrite Hv in H'. cbn [negb] in H'.
  assert (linked i m) as Hsame by (split_and!; [done..|by exists x]).
  destruct (negb _); [by injection H' as _ <-|]. destruct (writeParseInputV1 input) as [block|e] eqn:Ew; [|by injection H' as _ <-].
  destruct (parse_found (bytes_view block) m (token_ i) x Ht Hx) as (Hc & Ht' & Hx').
  pose proof (parse_instance_ok (bytes_view block) x Hl) as Hok. destruct (parse_instance _ _ _ x) as [res x'] eqn:Ei.
  cbn [nm_parse functional_module] in H'. destruct (parse _ _ _ _ _) as [[code out] m1] eqn:Ep. cbn [fst snd] in *.
  assert (m' = m1) as ->. { destruct (code <? 0); [|destruct (negb _)]; by injection H' as _ <-. }
  destruct Hok as (Hl' & Hbd & Hrt). split; [done|]. split; [done|]. exists x'. split; [done|]. split; [done|]. by rewrite Hbd, Hrt.
Qed.

Lemma session_linked i m : session i m -> linked i m.
Proof.
  induction 1 as [l index i m Hl Hc|info i m r i' m' Hs IH Hwf Hb|input i m r m' Hs IH Hp|c i m Hs IH Hc Ht].
  - by eapply created_linked.
  - by eapply bind_linked.
  - by eapply parse_linked.
  - destruct IH as (Hv & Htr & x & Hx & Hok). split_and!; [done| |].
    + apply traced_command; [done..|]. intros k -> ->. done.
    + exists x. split; [|done]. by rewrite found_command.
Qed.

(** *** One parse *)

Definition data_error (msg : bytes) : ParserModuleParseResult := mkParseResult fkDataError kModuleError (until_nul (take 511 msg)) None.

(** What the host makes of what the parser did. *)
Definition outcome_of (i : NativeParserModuleInstance) (input_payload : bytes) (result : option (Status * PjExpected Blob)) : ParserModuleParseResult :=
  match result with
  | None => data_error (str "parser-module parse threw an exception")
  | Some (parsed, out) =>
    if isOk parsed then
      match out with Failed s => data_error (message s) | Value b => consume_output i PJ_MODULE_OK (blob_view b) input_payload end
    else data_error (message parsed)
  end.

Lemma parse_instance_runs block input (x : Instance_ P) p result :
  bound x = true -> length (error x) = kErrorBufferSize -> byte_view_wf block -> bv_data block <> None -> readParseInput block = Value input ->
  run_parser alloc x input = (p, result) ->
  let '(res, x') := parse_instance alloc block true x in
  match result with
  | Some (parsed, Value b) => if isOk parsed then res = (kModuleOk, Some (blob_view b))
      else res = (kModuleError, None) /\ until_nul (error x') = until_nul (take 511 (message parsed))
  | Some (parsed, Failed s) => res = (kModuleError, None) /\ until_nul (error x') = until_nul (take 511 (message (if isOk parsed then s else parsed)))
  | None => res = (kModuleError, None) /\ until_nul (error x') = until_nul (take 511 (str "parser-module parse threw an exception"))
  end.
Proof.
  intros Hb Hl [[_ Hs] _] Hd Hr Hp. unfold parse_instance. rewrite Hb, Hr, Hp. cbn [negb].
  destruct (bv_data block); [|done]. cbn [orb]. change (negb true) with false. cbn [orb]. change SIZE_MAX with (2 ^ 64 - 1).
  rewrite Z.gtb_ltb, (proj2 (Z.ltb_ge _ _)) by lia.
  assert (forall msg, until_nul (error (x <| parser := p |> <| error := recordError (error (x <| parser := p |>)) msg |>)) = until_nul (take 511 msg)) as Hf.
  { intros msg. exact (proj2 (recordError_text (error x) msg Hl)). }
  destruct result as [[parsed [b|s]]|]; [destruct (isOk parsed) eqn:E; cbn [negb]|destruct (isOk parsed) eqn:E; cbn [negb]|]; cbn; try done; (split; [done|apply Hf]).
Qed.

Lemma native_parse_runs input i m p result x :
  linked i m -> bound_ i = true -> parse_input_wf input -> 24 + blen (pi_payload input) <= size_max -> found m (token_ i) = Some x ->
  run_parser alloc x (mkParseInput (pi_has_timestamp input) (pi_timestamp_ns input) (bytes_view (pi_payload input))) = (p, result) ->
  (native_parse input i m).1 = Ok (outcome_of i (pi_payload input) result).
Proof.
  intros (Hv & Ht & x' & Hx & Hl & Hb) Hbd Hwf Hsize Hx' Hp. rewrite Hx in Hx'. injection Hx' as ->. destruct (Hb Hbd) as (Hbx & Hrt & Hvr).
  unfold native_parse. rewrite Hv, Hbd. cbn [negb].
  destruct (writeParseInputV1 input) as [block|e] eqn:Ew.
  2: { exfalso. unfold writeParseInputV1, checkedAdd, kParseInputHeaderSize in Ew. destruct (_ >? _) eqn:E; [|done]. rewrite Z.gtb_ltb in E. apply Z.ltb_lt in E. lia. }
  destruct (input_block _ _ Ew) as (_ & _ & _ & Hbw). pose proof (input_read _ _ Hwf Ew) as Hr.
  destruct (parse_found (bytes_view block) m (token_ i) x Ht Hx) as (Hc & Ht' & Hxn).
  pose proof (parse_instance_runs (bytes_view block) _ x p result Hbx Hl Hbw ltac:(done) Hr Hp) as Hrun.
  pose proof (parse_instance_ok (bytes_view block) x Hl) as Hok. destruct (parse_instance alloc (bytes_view block) true x) as [res xn].
  cbn [nm_parse functional_module]. destruct (parse alloc (token_ i) (bytes_view block) true m) as [[code out] m1]. cbn [fst snd] in *. subst res.
  destruct Hok as (Hln & _). assert (token_ i <> kCreationErrorToken) as Hn by (intros E; unfold valid in Hv; rewrite E in Hv; done).
  assert (forall msg, until_nul (error xn) = until_nul (take 511 msg) -> copyLastError m1 (token_ i) = Ok (until_nul (take 511 msg))) as Hmsg.
  { intros msg <-. exact (copyLastError_text m1 (token_ i) xn Hn Hxn Hln). }
  unfold outcome_of, data_error. destruct result as [[parsed [b|s]]|]; [destruct (isOk parsed) eqn:E|destruct (isOk parsed) eqn:E|];
    first [injection Hrun as -> ->; reflexivity | destruct Hrun as [Hrun Hm]; injection Hrun as -> ->;
      change (kModuleError <? 0) with true; change (kModuleError =? PJ_MODULE_ERR_BAD_TOKEN) with false; cbn [fst]; by rewrite (Hmsg _ Hm)].
Qed.

Lemma consume_block i b d block input_payload : blob_holds b block -> readOutputDescriptorV1 block = Ok d -> block <> [] ->
  consume_output i PJ_MODULE_OK (blob_view b) input_payload =
  match d with
  | ScalarOutput scalar =>
    if bound_route_ i =? kScalar then mkParseResult fkNone PJ_MODULE_OK [] (Some (ScalarResult (ownScalarOutput scalar)))
    else contractViolation PJ_MODULE_OK (str "output descriptor route does not match the object binding")
  | ObjectOutput object =>
    if bound_route_ i =? kScalar then contractViolation PJ_MODULE_OK (str "output descriptor route does not match the scalar binding")
    else match ownObjectOutput object input_payload (ni_expected_object_type i) with
      | Err e => contractViolation PJ_MODULE_OK (str e)
      | Ok owned => mkParseResult fkNone PJ_MODULE_OK [] (Some (ObjectResult owned))
      end
  end.
Proof.
  intros Hb Hd Hn. destruct (blob_view_holds _ _ Hb) as [Hw Hv]. pose proof (view_bytes_length _ Hw) as Hl. unfold consume_output. rewrite Hv, Hd.
  destruct (bv_data (blob_view b)) as [data|] eqn:Ed; [|unfold view_bytes in Hv; rewrite Ed in Hv; by subst].
  rewrite Hv in Hl. destruct (bv_size (blob_view b) =? 0) eqn:E; [apply Z.eqb_eq in E; rewrite E in Hl; by destruct block|].
  cbn [orb]. destruct d; by destruct (bound_route_ i =? kScalar).
Qed.

(** C7 Objects cross the boundary of a module. A host binds an instance to the object route, in any order with calls on
    other instances; its parser sees the payload and the timestamp of the input, and acts on its writer by any
    calls. When the parser and the writer's [finish] succeed, the host owns the object that the calls described,
    with the payload's bytes where it was spliced; it refuses it only for another type than the bound one or a
    grid map's layout. When they fail the host reports a data error with the message. *)
Theorem objects_cross_boundary i m input :
  session i m -> bound_ i = true -> bound_route_ i = kObject -> parse_input_wf input -> 24 + blen (pi_payload input) <= size_max ->
  exists x, found m (token_ i) = Some x /\
  forall p calls parsed,
    parseObject (parser x) (bytes_view (pi_payload input)) (mkTimestamp (pi_has_timestamp input) (pi_timestamp_ns input)) = (p, calls, parsed) ->
    Forall call_wf calls ->
    let w := ow_calls alloc calls (ObjectWriter_new (bytes_view (pi_payload input))) in
    exists r, (native_parse input i m).1 = Ok r /\
    match parsed with
    | None => r = data_error (str "parser-module parse threw an exception")
    | Some status =>
      if isOk status then
        match ObjectWriter_finish alloc w with
        | Failed s => r = data_error (message s)
        | Value _ =>
          match pr_output r with
          | Some (ObjectResult o) => pr_fault r = fkNone /\ selectedObjectType (kind_ w) = ni_expected_object_type i /\
              layout_ok w (pi_payload input) = true /\ po_object o = described w (pi_payload input) /\ po_wire o = wire_of w []
          | Some (ScalarResult _) => False
          | None => pr_fault r = fkContractViolation /\
              (selectedObjectType (kind_ w) <> ni_expected_object_type i \/ layout_ok w (pi_payload input) = false)
          end
        end
      else r = data_error (message status)
    end.
Proof.
  intros Hs Hb Hroute Hwf Hsize. pose proof (session_linked _ _ Hs) as Hlink. pose proof Hlink as (_ & _ & x & Hx & _ & Hbd).
  exists x. split; [exact Hx|]. intros p calls parsed Hp Hcalls w. destruct (Hbd Hb) as (_ & Hrx & _).
  pose proof (fun result => native_parse_runs input i m p result x Hlink Hb Hwf Hsize Hx) as Hrun. unfold run_parser in Hrun.
  cbn [payload has_timestamp timestamp_ns] in Hrun. rewrite Hrx, Hroute, Hp in Hrun. change (kObject =? kObject) with true in Hrun. cbv iota in Hrun.
  fold w in Hrun. eexists. split; [exact (Hrun _ eq_refl)|]. clear Hrun. destruct parsed as [status|]; [|done]. cbn [outcome_of].
  destruct (isOk status); [|done]. assert (blen (pi_payload input) < 2 ^ 64) as Hlen by (cbn; lia).
  assert (byte_view_wf (bytes_view (pi_payload input))) as Hview by (unfold byte_view_wf, bytes_view, blen in *; cbn [bv_size bv_data]; unfold in_u; lia).
  pose proof (inv_calls alloc _ Hview calls Hcalls) as Hinv. fold w in Hinv. pose proof (finish_spec alloc _ w Hinv) as Hfin.
  destruct (ObjectWriter_finish alloc w) as [b|s]; [|done]. destruct Hfin as (_ & Hk & block & Hblock & Hholds).
  pose proof (object_output_written _ block (descriptor_wf _ w Hinv) Hblock) as Hread.
  assert (block <> []) as Hn by (intros ->; done).
  rewrite (consume_block i b _ block _ Hholds Hread Hn), Hroute. change (kObject =? kScalar) with false. cbv iota.
  pose proof (descriptor_fits w block Hblock) as Hfits.
  pose proof (own_described w (pi_payload input) (ni_expected_object_type i) Hinv Hk Hfits Hlen) as Hown.
  destruct (ownObjectOutput _ _ _) as [o|e]; cbn [pr_output pr_fault contractViolation]; [|by split]. destruct Hown as (? & ? & ? & ? & _). by split_and!.
Qed.

(** Scalars cross the boundary of a module: the host owns the timestamp and the fields of the parser's calls, in their
    order, when the parser and [finish] succeed; else it reports a data error with the message. *)
Theorem scalars_cross_boundary i m input :
  session i m -> bound_ i = true -> bound_route_ i = kScalar -> parse_input_wf input -> 24 + blen (pi_payload input) <= size_max ->
  exists x, found m (token_ i) = Some x /\
  forall p calls parsed,
    parseScalars (parser x) (bytes_view (pi_payload input)) (mkTimestamp (pi_has_timestamp input) (pi_timestamp_ns input)) = (p, calls, parsed) ->
    Forall scalar_call_wf calls ->
    (native_parse input i m).1 = Ok
      match parsed with
      | None => data_error (str "parser-module parse threw an exception")
      | Some status =>
        if isOk status then
          match ScalarWriter_finish alloc (sw_calls alloc calls ScalarWriter_new) with
          | Failed s => data_error (message s)
          | Value _ => let described := called_scalar calls in
            mkParseResult fkNone PJ_MODULE_OK [] (Some (ScalarResult
              (mkParserModuleScalarOutput (so_has_timestamp described) (so_timestamp_ns described)
                (map (fun f => mkParserModuleScalarField (sf_name f) (sf_value f)) (so_fields described)))))
          end
        else data_error (message status)
      end.
Proof.
  intros Hs Hb Hroute Hwf Hsize. pose proof (session_linked _ _ Hs) as Hlink. pose proof Hlink as (_ & _ & x & Hx & _ & Hbd).
  exists x. split; [exact Hx|]. intros p calls parsed Hp Hcalls. destruct (Hbd Hb) as (_ & Hrx & _).
  pose proof (fun result => native_parse_runs input i m p result x Hlink Hb Hwf Hsize Hx) as Hrun. unfold run_parser in Hrun.
  cbn [payload has_timestamp timestamp_ns] in Hrun. rewrite Hrx, Hroute, Hp in Hrun. change (kScalar =? kObject) with false in Hrun. cbv iota in Hrun.
  rewrite (Hrun _ eq_refl). clear Hrun. f_equal. destruct parsed as [status|]; [|done]. cbn [outcome_of]. destruct (isOk status); [|done].
  set (w := sw_calls alloc calls ScalarWriter_new). pose proof (sw_wf_calls alloc calls _ Hcalls sw_wf_new) as Hw. fold w in Hw.
  pose proof (scalar_finish_spec alloc w Hw) as Hfin. destruct (ScalarWriter_finish alloc w) as [b|s]; [|done].
  destruct Hfin as (Hok & block & Hblock & Hholds). cbn [writeOutputDescriptorV1] in Hblock.
  assert (scalar_output_wf (as_scalar w)) as Hswf.
  { destruct Hw as [Ht Hf]. split; [exact Ht|]. cbn [as_scalar so_fields]. eapply Forall_impl; [exact Hf|]. by intros f (_ & Hv & _). }
  pose proof (scalar_output_written _ block Hswf Hblock) as Hread. assert (block <> []) as Hn by (intros ->; done).
  rewrite (consume_block i b _ block _ Hholds Hread Hn), Hroute. change (kScalar =? kScalar) with true. cbv iota.
  by rewrite <-(sw_calls_described alloc calls Hok).
Qed.
End Boundary.

(** ** A parser of both routes *)

(** It splices a video frame out of its input, or reports its length; its state counts the parses. *)
#[local] Instance sample_parser : FunctionalParser Z := {|
  new_parser := Some 0;
  parser_bind := fun p _ => (p, Some status_ok);
  parseObject := fun p payload ts => (p + 1, sample_calls, Some status_ok);
  parseScalars := fun p payload ts =>
    (p + 1, [sw_setTimestamp (ts_nanoseconds ts); sw_add (str "length") (ScalarUint64 (wrap 64 (bv_size payload)))], Some status_ok) |}.

Definition always : Z -> bool := fun _ => true.
Definition sample_env : Allocations := mkAllocations true true.
#[local] Existing Instance functional_module.

Definition route_binding (r type : Z) : BindingInfoV1 := mkBindingInfoV1 r 0 type (str "cdr") (str "t") [] (str "claim") [] [].
Definition sample_input : ParseInputV1 := mkParseInputV1 true 7 [Byte.x01; Byte.x02; Byte.x03; Byte.x04].
Definition created : NativeParserModuleInstance := mkNativeInstance 4294967297 0 kScalar 0 false.
Definition module_created : Module_ Z := (create 1 sample_env 0 module_new).2.
Definition bound_to (r type : Z) : NativeParserModuleInstance * Module_ Z :=
  let '(_, i, m) := native_bind (H := functional_module always 1 sample_env) (route_binding r type) created module_created in (i, m).

Lemma bound_session r type : in_u 16 type -> r = kScalar \/ r = kObject -> session always 1 sample_env (bound_to r type).1 (bound_to r type).2.
Proof.
  intros Ht Hr. unfold bound_to. destruct (native_bind _ _ _) as [[res i] m] eqn:E. apply (session_bind always 1 sample_env (route_binding r type) created module_created res i m); [|by split; [by_compute|]|exact E].
  apply (session_create always 1 sample_env [] 0); [constructor|]. vm_compute. reflexivity.
Qed.

Lemma objects_cross_boundary_witness :
  exists r o, (native_parse (H := functional_module always 1 sample_env) sample_input (bound_to kObject 10).1 (bound_to kObject 10).2).1 = Ok r /\
    pr_output r = Some (ObjectResult o) /\ bulk_data (po_object o) = Some [Byte.x02; Byte.x03].
Proof.
  destruct (objects_cross_boundary always 1 sample_env (bound_to kObject 10).1 (bound_to kObject 10).2 sample_input) as (x & Hx & Hall).
  - apply bound_session; [by_compute|by right].
  - vm_compute. reflexivity.
  - vm_compute. reflexivity.
  - by_compute.
  - vm_compute. congruence.
  - destruct (Hall _ sample_calls (Some status_ok) eq_refl) as (r & Hr & Hres).
    { exact sample_calls_wf. }
    exists r. cbv zeta in Hres. cbn [isOk code status_ok] in Hres.
    destruct (ObjectWriter_finish always _) as [b|s] eqn:Ef; [|vm_compute in Ef; discriminate Ef].
    destruct (pr_output r) as [[sc|o]|]; [destruct Hres| |].
    + exists o. split; [exact Hr|]. split; [reflexivity|]. destruct Hres as (_ & _ & _ & -> & _). vm_compute. reflexivity.
    + exfalso. destruct Hres as [_ [Hbad|Hbad]]; [apply Hbad; vm_compute; reflexivity|vm_compute in Hbad; discriminate Hbad].
Defined.

Lemma scalars_cross_boundary_witness :
  exists out, (native_parse (H := functional_module always 1 sample_env) sample_input (bound_to kScalar 0).1 (bound_to kScalar 0).2).1
      = Ok (mkParseResult fkNone 0 [] (Some (ScalarResult out))) /\
    out = mkParserModuleScalarOutput true 7 [mkParserModuleScalarField (str "length") (ScalarUint64 4)].
Proof.
  destruct (scalars_cross_boundary always 1 sample_env (bound_to kScalar 0).1 (bound_to kScalar 0).2 sample_input) as (x & Hx & Hall).
  - apply bound_session; [by_compute|by left].
  - vm_compute. reflexivity.
  - vm_compute. reflexivity.
  - by_compute.
  - vm_compute. congruence.
  - eexists. split; [|reflexivity]. rewrite (Hall _ _ (Some status_ok) eq_refl).
    + vm_compute. reflexivity.
    + constructor; [change (in_s 64 7); by_compute|]. constructor; [|constructor].
      split; [vm_compute; reflexivity|]. split; [change (in_u 64 4); by_compute|exact I].
Defined.

(** A grid map of one cell that has neither data nor a splice: its length is never validated. *)
Definition hollow_grid : GridMap :=
  grid_map_default <| gm_column_count := 1 |> <| gm_row_count := 1 |> <| gm_cell_stride := 4 |> <| gm_row_stride := 4 |>.

Theorem unspliced_grid_map_unvalidated :
  exists o, ownObjectOutput (mkObjectOutputV1 20 None (serializeGridMap hollow_grid)) [] 20 = Ok o /\
    po_object o = OGridMap hollow_grid /\ has_value (validateGridMap hollow_grid) = false.
Proof. eexists. split; [vm_compute; reflexivity|]. split; vm_compute; reflexivity. Qed.
