(* ===== verification/MessageParser.v ===== *)
(** * MessageParser: message parsers on both sides of their interface

    The host's handle ([pj_plugins/include/pj_plugins/host/message_parser_handle.hpp]), the base class of plugins with its
    trampolines ([pj_plugins/sdk/message_parser_plugin_base.hpp], [sdk/detail/message_parser_trampolines.hpp]) and the structs between
    them ([pj_base/parser_functional_protocol.h], [parser_route_claims_protocol.h], [message_parser_protocol.h]).

    A plugin that parses calls the host's sink back.  A [Provider] is what it does: it calls the sink and goes on
    with the answer, or returns.  Any provider may be behind the handle; the trampolines of the base class are
    providers.  An error is [None] where the caller passes no struct for it; its extended payload is null throughout.
    The anchors that keep buffers alive are shared pointers of the C++ library: objects are modelled by their bytes.
    A handle that is not valid, and a null context in a slot that uses it, are undefined behaviour.
    Not modelled: exhausted memory, the layout of the class for hosts before 0.21. *)

From stdpp Require Import base gmap list.
From S2P Require Import Prelude Text TypeTree ClaimCatalog ProtobufWire BuiltinCodec MessageCodecs SensorCodecs PointCodecs SceneCodecs ImportJob ServiceRegistry ModuleAbi ParserCore ModuleRuntime ModuleContract.

(** ** Errors across the interface *)

(** [PJ_error_t], with the texts of its fields. *)
Record ParserError : Set := mkParserError { pe_code : Z; pe_texts : PjError; pe_kind : string }.

Notation OutError := (option ParserError).

Definition PJ_ERROR_KIND_MAX : nat := 32.
Definition PJ_PARSER_ERROR_KIND_DATA_ERROR : string := "pj.parser.data_error".
Definition PJ_PARSER_ERROR_KIND_SINK_REJECTED : string := "pj.parser.sink_rejected".
Definition PJ_PARSER_ERROR_KIND_CONTRACT_VIOLATION : string := "pj.parser.contract_violation".

(** [PJ_error_t err{}] *)
Definition zero_error : ParserError := mkParserError 0 (mkPjError "" "") "".

(** [fillError] *)
Definition storeError (code : Z) (domain message : string) (out : OutError) : OutError :=
  match out with Some _ => Some (mkParserError code (fillError domain message) "") | None => None end.

Definition setExtended (kind : string) (out : OutError) : OutError :=
  match out with Some e => Some (mkParserError (pe_code e) (pe_texts e) (setErrorField PJ_ERROR_KIND_MAX kind)) | None => None end.

Definition storeErrorKind (code : Z) (domain message kind : string) (out : OutError) : OutError :=
  setExtended kind (storeError code domain message out).

Definition fillContractViolation (message : string) (out : OutError) : OutError :=
  setExtended PJ_PARSER_ERROR_KIND_CONTRACT_VIOLATION (storeError 2 "host" message out).

Definition error_text (out : OutError) : string := errorToString (pe_texts (default zero_error out)).

(** ** Scalar values *)

(** [ValueRef]; a number is its value, of a floating-point type its bits, of [bool] 0 or 1. *)
Inductive ValueRef : Set :=
  | NullValue
  | TypedNull (type : PrimitiveType)
  | NumberValue (type : PrimitiveType) (v : Z)
  | StringValue (s : bytes).

Definition isNull (v : ValueRef) : bool := match v with NullValue | TypedNull _ => true | _ => false end.

Definition value_type (v : ValueRef) : PrimitiveType :=
  match v with NullValue => kUnspecified | TypedNull t => t | NumberValue t _ => t | StringValue _ => kString end.

(** The values of the enumeration, also those of [PJ_primitive_type_t]. *)
Definition toAbiType (t : PrimitiveType) : Z :=
  match t with
  | kFloat32 => 0 | kFloat64 => 1 | kInt8 => 2 | kInt16 => 3 | kInt32 => 4 | kInt64 => 5 | kUint8 => 6 | kUint16 => 7
  | kUint32 => 8 | kUint64 => 9 | kBool => 10 | kString => 11 | kUnspecified => 255
  end.

(** [PJ_scalar_value_data_t]: zeroed, or the member of the type. *)
Inductive ScalarData : Set :=
  | Zeroed
  | Member (type : PrimitiveType) (v : Z)
  | MemberString (s : ByteView).

Record PjScalarValue : Set := mkScalarValue { sv_type : Z; sv_data : ScalarData }.

Definition toAbiScalar (v : ValueRef) : PjScalarValue :=
  mkScalarValue (toAbiType (value_type v))
    (match v with
     | NullValue | TypedNull _ => Zeroed
     | NumberValue t n => Member t n
     | StringValue s => MemberString (bytes_view s)
     end).

Record NamedFieldValue : Set := mkNamedField { nf_name : bytes; nf_value : ValueRef }.
Record PjNamedFieldValue : Set := mkPjNamedField { pnf_name : ByteView; pnf_is_null : bool; pnf_value : PjScalarValue }.

Definition toAbiNamed (fields : list NamedFieldValue) : list PjNamedFieldValue :=
  map (fun f => mkPjNamedField (bytes_view (nf_name f)) (isNull (nf_value f)) (toAbiScalar (nf_value f))) fields.

Record ScalarRecord : Set := mkScalarRecord { sr_ts : option Z; sr_fields : list NamedFieldValue }.
Record ObjectRecord : Type := mkObjectRecord { or_ts : option Z; or_object : BuiltinObject }.

(** ** Providers and sinks *)

(** The arguments of [accept_record]: the fields are an array, [None] when null, and a count. *)
Record ScalarCall : Set := mkScalarCall {
  sc_has_timestamp : bool; sc_timestamp_ns : Z; sc_fields : option (list PjNamedFieldValue); sc_count : Z }.

(** The arguments of [accept_object], and what [accept_object_spliced] has besides. *)
Record CompleteCall : Set := mkCompleteCall {
  cc_has_timestamp : bool; cc_timestamp_ns : Z; cc_object_type : Z; cc_wire : ByteView }.

Inductive ObjectCall : Set :=
  | Complete (c : CompleteCall)
  | Spliced (c : CompleteCall) (splice_field_number input_offset input_length : Z).

(** What a plugin does in [parse_scalars] or [parse_object]: a call of the sink with its context, or with null ([ctx]), or a
    return of [R]. *)
Inductive Provider (C R : Type) : Type :=
  | Emit (ctx : bool) (out : OutError) (call : C) (go_on : bool * OutError -> Provider C R)
  | Return (r : R).
Arguments Emit {C R} _ _ _ _.
Arguments Return {C R} _.

Section Run.
Context {C R S : Type} (sink : bool -> OutError -> C -> S -> S * (bool * OutError)).

Fixpoint run_provider (p : Provider C R) (s : S) : S * R :=
  match p with
  | Return r => (s, r)
  | Emit ctx out call go_on => let '(s, answer) := sink ctx out call s in run_provider (go_on answer) s
  end.

(** The calls that are made, in order. *)
Fixpoint provider_calls (p : Provider C R) (s : S) : list (bool * C) :=
  match p with
  | Return _ => []
  | Emit ctx out call go_on => let '(s, answer) := sink ctx out call s in (ctx, call) :: provider_calls (go_on answer) s
  end.

Lemma run_emit ctx out call go_on s s' answer :
  sink ctx out call s = (s', answer) ->
  run_provider (Emit ctx out call go_on) s = run_provider (go_on answer) s' /\
  provider_calls (Emit ctx out call go_on) s = (ctx, call) :: provider_calls (go_on answer) s'.
Proof. intros E. cbn [run_provider provider_calls]. by rewrite E. Qed.
End Run.

(** The timestamp of a record, if it has one. *)
Definition record_ts (has_timestamp : bool) (timestamp_ns : Z) : option Z := if has_timestamp then Some timestamp_ns else None.

(** ** The host's sinks *)

Section ScalarSink.
Context {S : Type} (sink : option Z -> list PjNamedFieldValue -> S -> S * calls (Expected unit)).

Definition call_fields (c : ScalarCall) : list PjNamedFieldValue :=
  match sc_fields c with Some l => take (Z.to_nat (sc_count c)) l | None => [] end.

(** The answer once the embedding host's function ran. *)
Definition scalar_reply (called : calls (Expected unit)) (out : OutError) : bool * OutError :=
  match called with
  | inl (Ok _) => (true, out)
  | inl (Err error) => (false, storeError 1 "host" error out)
  | inr (Some what) => (false, storeError 1 "host" ("scalar sink threw: " +:+ what) out)
  | inr None => (false, storeError 1 "host" "unknown exception in scalar sink" out)
  end.

Definition null_fields (c : ScalarCall) : bool := match sc_fields c with None => negb (sc_count c =? 0) | Some _ => false end.

(** [acceptScalarRecord]; the state is the embedding host's and the number of calls. *)
Definition acceptScalarRecord (ctx : bool) (out : OutError) (c : ScalarCall) (state : S * Z) : (S * Z) * (bool * OutError) :=
  if negb ctx then (state, (false, storeError 2 "host" "scalar callback received invalid context" out))
  else
    let '(s, call_count) := state in
    let call_count := wrap 32 (call_count + 1) in
    if negb (call_count =? 1)
    then ((s, call_count), (false, storeError 2 "host" "functional parser emitted more than one scalar record" out))
    else if null_fields c
    then ((s, call_count), (false, storeError 2 "host" "scalar callback received invalid fields" out))
    else
      let '(s, called) := sink (record_ts (sc_has_timestamp c) (sc_timestamp_ns c)) (call_fields c) s in
      ((s, call_count), scalar_reply called out).

Lemma accept_scalar_first out c s :
  null_fields c = false ->
  acceptScalarRecord true out c (s, 0)
  = let '(s, called) := sink (record_ts (sc_has_timestamp c) (sc_timestamp_ns c)) (call_fields c) s in ((s, 1), scalar_reply called out).
Proof.
  intros Hn. unfold acceptScalarRecord. rewrite Hn. by destruct (sink _ _ s).
Qed.
End ScalarSink.

Record ObjectSinkState : Type := mkObjectSinkState {
  os_record : option ObjectRecord; os_input_payload : ByteView; os_expected_object_type : option Z; os_call_count : Z }.

Definition os_counted (s : ObjectSinkState) : ObjectSinkState :=
  mkObjectSinkState (os_record s) (os_input_payload s) (os_expected_object_type s) (wrap 32 (os_call_count s + 1)).

Definition os_recorded (r : ObjectRecord) (s : ObjectSinkState) : ObjectSinkState :=
  mkObjectSinkState (Some r) (os_input_payload s) (os_expected_object_type s) (os_call_count s).

(** [validateExpectedObjectType]: without a classification, or with that of no object, any type goes. *)
Definition expects (expected : option Z) (object_type : Z) : bool :=
  match expected with Some t => (t =? 0) || (t =? object_type) | None => true end.

Definition wrong_type : string := "functional parser emitted an object type that differs from the bound classification".

Definition unreadable (wire : ByteView) : bool :=
  match bv_data wire with None => negb (bv_size wire =? 0) | Some _ => false end.

(** A first call with context, judged: the object, or the violation of the contract. *)
Definition judge_complete (expected : option Z) (c : CompleteCall) : Expected BuiltinObject :=
  if unreadable (cc_wire c) then Err "object callback received invalid canonical wire bytes"
  else if negb (expects expected (cc_object_type c)) then Err wrong_type
  else if bv_size (cc_wire c) >? size_max then Err "canonical object wire exceeds the host size range"
  else deserializeBuiltinObject (cc_object_type c) (view_bytes (cc_wire c)).

Definition object_record (c : CompleteCall) (object : BuiltinObject) : ObjectRecord :=
  mkObjectRecord (record_ts (cc_has_timestamp c) (cc_timestamp_ns c)) object.

(** [acceptObject] *)
Definition acceptObject (ctx : bool) (out : OutError) (c : CompleteCall) (s : ObjectSinkState) : ObjectSinkState * (bool * OutError) :=
  if negb ctx then (s, (false, storeError 2 "host" "object callback received invalid context" out))
  else
    let s := os_counted s in
    if negb (os_call_count s =? 1)
    then (s, (false, storeError 2 "host" "functional parser emitted more than one canonical object" out))
    else
      match judge_complete (os_expected_object_type s) c with
      | Err violation => (s, (false, fillContractViolation violation out))
      | Ok object => (os_recorded (object_record c object) s, (true, out))
      end.

(** The bytes of the payload that a splice names. *)
Definition payload_range (payload : ByteView) (offset len : Z) : bytes :=
  take (Z.to_nat len) (drop (Z.to_nat offset) (view_bytes payload)).

Definition judge_spliced (payload : ByteView) (expected : option Z) (c : CompleteCall) (splice_field_number input_offset input_length : Z)
    : Expected BuiltinObject :=
  let type := cc_object_type c in
  let payload_size := bv_size payload in
  if negb (expects expected type) then Err wrong_type
  else if negb (bool_decide (splice_field_number_v1 type = Some splice_field_number))
  then Err "functional parser emitted an ineligible object splice field"
  else if (input_offset >? payload_size) || (input_length >? wrap 64 (payload_size - input_offset))
  then Err "functional parser emitted an out-of-bounds object splice"
  else if unreadable (cc_wire c) || (bv_size (cc_wire c) >? size_max)
  then Err "spliced-object callback received invalid canonical wire bytes"
  else
    let? decoded := prefixed "spliced canonical object wire is malformed: " (deserializeBuiltinObject type (view_bytes (cc_wire c))) in
    match attach type decoded (payload_range payload input_offset input_length) with
    | None => Err "functional parser splice object type is not materializable"
    | Some object =>
      let? _ := prefixed "spliced GridMap layout is invalid: " (match object with OGridMap m => validateGridMap m | _ => Ok tt end) in
      Ok object
    end.

(** [acceptObjectSpliced] *)
Definition acceptObjectSpliced (ctx : bool) (out : OutError) (c : CompleteCall) (splice_field_number input_offset input_length : Z)
    (s : ObjectSinkState) : ObjectSinkState * (bool * OutError) :=
  if negb ctx then (s, (false, fillContractViolation "spliced-object callback received invalid context" out))
  else
    let s := os_counted s in
    if negb (os_call_count s =? 1)
    then (s, (false, fillContractViolation "functional parser emitted more than one canonical object" out))
    else
      match judge_spliced (os_input_payload s) (os_expected_object_type s) c splice_field_number input_offset input_length with
      | Err violation => (s, (false, fillContractViolation violation out))
      | Ok object => (os_recorded (object_record c object) s, (true, out))
      end.

(** The two functions of the v2 sink. *)
Definition accept_v2 (ctx : bool) (out : OutError) (c : ObjectCall) : ObjectSinkState -> ObjectSinkState * (bool * OutError) :=
  match c with
  | Complete c => acceptObject ctx out c
  | Spliced c field offset len => acceptObjectSpliced ctx out c field offset len
  end.

(** ** The tables of a plugin *)

(** What the plugin sees of a sink: null, or its size, whether its context is set, and which functions are. *)
Record SinkTable : Set := mkSinkTable { st_struct_size : Z; st_ctx : bool; st_accept : bool; st_accept_spliced : bool }.

Definition PJ_PARSER_SCALAR_SINK_V1_MIN_SIZE : Z := 16 + 8.
Definition PJ_PARSER_OBJECT_SINK_V1_MIN_SIZE : Z := 16 + 8.
Definition PJ_PARSER_OBJECT_SINK_V2_MIN_SIZE : Z := 24 + 8.
Definition PJ_PARSER_FUNCTIONAL_V1_MIN_SIZE : Z := 16 + 8.
Definition PJ_PARSER_FUNCTIONAL_V2_MIN_SIZE : Z := 16 + 8.
Definition PJ_PARSER_FUNCTIONAL_EXTENSION_V1 : string := "pj.parser_functional.v1".
Definition PJ_PARSER_FUNCTIONAL_EXTENSION_V2 : string := "pj.parser_functional.v2".
Definition PJ_PARSER_ROUTE_CLAIMS_EXTENSION_V1 : string := "pj.parser_route_claims.v1".

(** [PJ_payload_t]: the bytes, and which members of the anchor are set. *)
Record PjPayload : Set := mkPayload { pp_bytes : ByteView; pp_anchor_ctx : bool; pp_anchor_release : bool }.

Section Tables.
Context (W : Type).

(** A function that parses: the context after it, whether it succeeded, and the error. *)
Definition Parses (C : Type) : Type := Provider C (W * (bool * OutError)).

Record FunctionalV1 : Type := mkFunctionalV1 {
  f1_struct_size : Z;
  f1_parse_scalars : option (W -> Z -> ByteView -> option SinkTable -> OutError -> Parses ScalarCall);
  f1_parse_object : option (W -> Z -> PjPayload -> option SinkTable -> OutError -> Parses CompleteCall) }.

Record FunctionalV2 : Type := mkFunctionalV2 {
  f2_struct_size : Z;
  f2_parse_scalars : option (W -> Z -> ByteView -> option SinkTable -> OutError -> Parses ScalarCall);
  f2_parse_object : option (W -> Z -> PjPayload -> option SinkTable -> OutError -> Parses ObjectCall) }.

Definition ClassifyRoutes : Type :=
  W -> ByteView -> ByteView -> bool -> OutError -> (bool * OutError) * option RouteClassification.

(** What [get_plugin_extension] returns: null, or a pointer to a table. *)
Inductive Extension : Type :=
  | NoExtension
  | ExtensionV1 (t : FunctionalV1)
  | ExtensionV2 (t : FunctionalV2)
  | ExtensionRoutes (struct_size : Z) (classify_routes : ClassifyRoutes)
  | OtherExtension (address : Z).

(** [PJ_message_parser_vtable_t]; a slot that fails leaves its error. *)
Record ParserVtable : Type := mkParserVtable {
  pv_protocol_version : Z; pv_struct_size : Z; pv_create : option W; pv_manifest_json : option bytes;
  pv_bind : W -> option GetService -> W * (PjError + unit);
  pv_bind_schema : W -> ByteView -> ByteView -> W * (PjError + unit);
  pv_save_config : W -> W * (PjError + ByteView);
  pv_load_config : W -> ByteView -> W * (PjError + unit);
  pv_parse : W -> Z -> ByteView -> W * (PjError + unit);
  pv_get_plugin_extension : option (W -> ByteView -> W * Extension);
  pv_classify_schema : option (W -> ByteView -> ByteView -> W * (PjError + Z)) }.
End Tables.

Arguments mkFunctionalV1 {W} _ _ _.
Arguments mkFunctionalV2 {W} _ _ _.
Arguments f1_struct_size {W} _.
Arguments f1_parse_scalars {W} _.
Arguments f1_parse_object {W} _.
Arguments f2_struct_size {W} _.
Arguments f2_parse_scalars {W} _.
Arguments f2_parse_object {W} _.
Arguments NoExtension {W}.
Arguments ExtensionV1 {W} _.
Arguments ExtensionV2 {W} _.
Arguments ExtensionRoutes {W} _ _.
Arguments OtherExtension {W} _.
Arguments mkParserVtable {W} _ _ _ _ _ _ _ _ _ _ _.
Arguments pv_protocol_version {W} _.
Arguments pv_struct_size {W} _.
Arguments pv_create {W} _.
Arguments pv_manifest_json {W} _.
Arguments pv_bind {W} _.
Arguments pv_bind_schema {W} _.
Arguments pv_save_config {W} _.
Arguments pv_load_config {W} _.
Arguments pv_parse {W} _.
Arguments pv_get_plugin_extension {W} _.
Arguments pv_classify_schema {W} _.

(** ** The host's handle *)

(** [MessageParserHandle]; the library's owner is a shared pointer and is left out. *)
Record MessageParserHandle (W : Type) : Type := mkParserHandle {
  ph_vt : option (ParserVtable W); ph_context : option W; ph_expected_object_type : option Z }.
Arguments mkParserHandle {W} _ _ _.
Arguments ph_vt {W} _.
Arguments ph_context {W} _.
Arguments ph_expected_object_type {W} _.

Section Handle.
Context {W : Type}.

Definition PJ_MESSAGE_PARSER_PROTOCOL_VERSION : Z := 4.

(** The constructor; without the assertion, as in a release build. *)
Definition parser_handle_new (vt : option (ParserVtable W)) : MessageParserHandle W :=
  mkParserHandle vt (match vt with Some vt => pv_create vt | None => None end) None.

(** The destructor: the instance that is destroyed. *)
Definition parser_handle_destroy (h : MessageParserHandle W) : option W :=
  match ph_vt h with Some _ => ph_context h | None => None end.

(** The move constructor, and the assignment of another handle. *)
Definition parser_handle_move (other : MessageParserHandle W) : MessageParserHandle W * MessageParserHandle W :=
  (other, mkParserHandle None None (ph_expected_object_type other)).
Definition parser_handle_assign (h other : MessageParserHandle W) : MessageParserHandle W * MessageParserHandle W := (other, h).

Definition parser_handle_valid (h : MessageParserHandle W) : bool :=
  match ph_vt h, ph_context h with Some _, Some _ => true | _, _ => false end.

Definition parser_manifest (h : MessageParserHandle W) : exec bytes :=
  match ph_vt h with Some vt => Val (default [] (pv_manifest_json vt)) | None => Undef end.

(** A method on a valid handle. *)
Definition on_instance {A} (h : MessageParserHandle W) (k : ParserVtable W -> W -> exec A) : exec A :=
  match ph_vt h, ph_context h with Some vt, Some w => k vt w | _, _ => Undef end.

Definition with_context (w : W) (h : MessageParserHandle W) : MessageParserHandle W :=
  mkParserHandle (ph_vt h) (Some w) (ph_expected_object_type h).
Definition with_expected (t : option Z) (h : MessageParserHandle W) : MessageParserHandle W :=
  mkParserHandle (ph_vt h) (ph_context h) t.

(** The status of a slot that only succeeds or fails. *)
Definition slot_status (answer : PjError + unit) : Expected unit :=
  match answer with inl err => Err (errorToString err) | inr _ => Ok tt end.

Definition parser_bind (registry : option GetService) (h : MessageParserHandle W) : exec (MessageParserHandle W * Expected unit) :=
  on_instance h (fun vt w => let '(w, answer) := pv_bind vt w registry in Val (with_context w h, slot_status answer)).

Definition parser_load_config (config_json : ByteView) (h : MessageParserHandle W) : exec (MessageParserHandle W * Expected unit) :=
  on_instance h (fun vt w => let '(w, answer) := pv_load_config vt w config_json in Val (with_context w h, slot_status answer)).

Definition parser_parse (timestamp_ns : Z) (payload : ByteView) (h : MessageParserHandle W)
    : exec (MessageParserHandle W * Expected unit) :=
  on_instance h (fun vt w => let '(w, answer) := pv_parse vt w timestamp_ns payload in Val (with_context w h, slot_status answer)).

(** A null text is read as the literal of one NUL. *)
Definition parser_save_config (h : MessageParserHandle W) : exec (MessageParserHandle W * Expected bytes) :=
  on_instance h (fun vt w =>
    let '(w, answer) := pv_save_config vt w in
    match answer with
    | inl err => Val (with_context w h, Err (errorToString err))
    | inr text =>
      let data := default [Byte.x00] (bv_data text) in
      if bv_size text >? blen data then Undef else Val (with_context w h, Ok (take (Z.to_nat (bv_size text)) data))
    end).

(** [PJ_HAS_TAIL_SLOT] of the slots at 72 and 80. *)
Definition tail_slot {A} (vt : ParserVtable W) (offset : Z) (slot : option A) : option A :=
  if pv_struct_size vt >=? offset + 8 then slot else None.
Definition classify_slot (vt : ParserVtable W) : option (W -> ByteView -> ByteView -> W * (PjError + Z)) :=
  tail_slot vt 80 (pv_classify_schema vt).

Definition parser_bind_schema (type_name schema : ByteView) (h : MessageParserHandle W)
    : exec (MessageParserHandle W * Expected unit) :=
  let h := with_expected None h in
  on_instance h (fun vt w =>
    let '(w, answer) := pv_bind_schema vt w type_name schema in
    match answer with
    | inl err => Val (with_context w h, Err (errorToString err))
    | inr _ =>
      match classify_slot vt with
      | None => Val (with_context w h, Ok tt)
      | Some classify_schema =>
        let '(w, classification) := classify_schema w type_name schema in
        Val (with_expected (match classification with inr t => Some t | inl _ => None end) (with_context w h), Ok tt)
      end
    end).

(** The expected type is only kept on success. *)
Definition parser_classify_schema (type_name schema : ByteView) (h : MessageParserHandle W) : exec (MessageParserHandle W * Z) :=
  on_instance h (fun vt w =>
    match classify_slot vt with
    | None => Val (h, 0)
    | Some classify_schema =>
      let '(w, classification) := classify_schema w type_name schema in
      Val (match classification with
           | inl _ => (with_context w h, 0)
           | inr t => (with_expected (Some t) (with_context w h), t)
           end)
    end).

Definition getPluginExtension (id : string) (vt : ParserVtable W) (w : W) : W * Extension W :=
  match tail_slot vt 72 (pv_get_plugin_extension vt) with
  | None => (w, NoExtension)
  | Some get_plugin_extension => get_plugin_extension w (bytes_view (str id))
  end.

(** The cast of the pointer; the table of another extension is undefined behaviour. *)
Definition as_v1 (e : Extension W) : exec (option (FunctionalV1 W)) :=
  match e with NoExtension => Val None | ExtensionV1 t => Val (Some t) | _ => Undef end.
Definition as_v2 (e : Extension W) : exec (option (FunctionalV2 W)) :=
  match e with NoExtension => Val None | ExtensionV2 t => Val (Some t) | _ => Undef end.

Definition usable_v1 (t : option (FunctionalV1 W)) : option (FunctionalV1 W) :=
  match t with
  | Some (mkFunctionalV1 struct_size (Some _) (Some _)) => if struct_size <? PJ_PARSER_FUNCTIONAL_V1_MIN_SIZE then None else t
  | _ => None
  end.
Definition usable_v2 (t : option (FunctionalV2 W)) : option (FunctionalV2 W) :=
  match t with
  | Some (mkFunctionalV2 struct_size (Some _) (Some _)) => if struct_size <? PJ_PARSER_FUNCTIONAL_V2_MIN_SIZE then None else t
  | _ => None
  end.

Definition functionalExtensions (vt : ParserVtable W) (w : W) : exec (W * (option (FunctionalV2 W) * option (FunctionalV1 W))) :=
  let '(w, e2) := getPluginExtension PJ_PARSER_FUNCTIONAL_EXTENSION_V2 vt w in
  let! v2 := as_v2 e2 in
  let '(w, e1) := getPluginExtension PJ_PARSER_FUNCTIONAL_EXTENSION_V1 vt w in
  let! v1 := as_v1 e1 in
  Val (w, (usable_v2 v2, usable_v1 v1)).

Definition supportsFunctionalParsing (h : MessageParserHandle W) : exec (MessageParserHandle W * bool) :=
  on_instance h (fun vt w =>
    let! r := functionalExtensions vt w in
    Val (with_context r.1 h, match r.2 with (None, None) => false | _ => true end)).

Definition no_functional_extension : string :=
  "message parser does not expose " +:+ PJ_PARSER_FUNCTIONAL_EXTENSION_V2 +:+ " or " +:+ PJ_PARSER_FUNCTIONAL_EXTENSION_V1.

(** The sinks that the host passes. *)
Definition host_scalar_sink : SinkTable := mkSinkTable 24 true true false.
Definition host_sink_v1 : SinkTable := mkSinkTable 24 true true false.
Definition host_sink_v2 : SinkTable := mkSinkTable 32 true true true.

(** The end of [parseScalarsFunctional]. *)
Definition scalar_result {S} (sink : option Z -> list PjNamedFieldValue -> S -> S * calls (Expected unit))
    (p : Parses W ScalarCall) (s : S) : W * S * Expected unit :=
  let '((s, call_count), (w, (ok, out))) := run_provider (acceptScalarRecord sink) p (s, 0) in
  (w, s,
   if negb ok then Err (error_text out)
   else if negb (call_count =? 1) then Err "functional parser returned success without exactly one scalar record"
   else Ok tt).

Definition parseScalarsFunctional {S} (timestamp_ns : Z) (payload : ByteView)
    (sink : option (option Z -> list PjNamedFieldValue -> S -> S * calls (Expected unit))) (s : S) (h : MessageParserHandle W)
    : exec (MessageParserHandle W * S * Expected unit) :=
  on_instance h (fun vt w =>
    let! r := functionalExtensions vt w in
    let '(w, (v2, v1)) := r in
    let parse_scalars := match v2 with Some t => f2_parse_scalars t | None => match v1 with Some t => f1_parse_scalars t | None => None end end in
    match parse_scalars, sink with
    | None, _ => Val (with_context w h, s, Err no_functional_extension)
    | _, None => Val (with_context w h, s, Err "scalar record sink is empty")
    | Some parse_scalars, Some sink =>
      let '(w, s, answer) := scalar_result sink (parse_scalars w timestamp_ns payload (Some host_scalar_sink) (Some zero_error)) s in
      Val (with_context w h, s, answer)
    end).

(** The end of [parseObjectFunctionalAbi]. *)
Definition object_result (s : ObjectSinkState) (ok : bool) (out : OutError) : Expected ObjectRecord :=
  if negb ok then Err (error_text out)
  else
    match os_record s with
    | Some r => if os_call_count s =? 1 then Ok r else Err "functional parser returned success without exactly one canonical object"
    | None => Err "functional parser returned success without exactly one canonical object"
    end.

Definition parse_object_with {C} (sink : bool -> OutError -> C -> ObjectSinkState -> ObjectSinkState * (bool * OutError))
    (p : Parses W C) (payload : ByteView) (expected : option Z) : W * Expected ObjectRecord :=
  let '(s, (w, (ok, out))) := run_provider sink p (mkObjectSinkState None payload expected 0) in
  (w, object_result s ok out).

(** [parseObjectFunctional], with an anchor for the payload or without. *)
Definition parseObjectFunctional (timestamp_ns : Z) (payload : ByteView) (anchored : bool) (h : MessageParserHandle W)
    : exec (MessageParserHandle W * Expected ObjectRecord) :=
  on_instance h (fun vt w =>
    let! r := functionalExtensions vt w in
    let '(w, (v2, v1)) := r in
    let abi_payload := mkPayload payload anchored anchored in
    let finish x := Val (with_context x.1 h, x.2) in
    match v2, v1 with
    | Some (mkFunctionalV2 _ _ (Some parse_object)), _ =>
      finish (parse_object_with accept_v2 (parse_object w timestamp_ns abi_payload (Some host_sink_v2) (Some zero_error))
                payload (ph_expected_object_type h))
    | _, Some (mkFunctionalV1 _ _ (Some parse_object)) =>
      finish (parse_object_with acceptObject (parse_object w timestamp_ns abi_payload (Some host_sink_v1) (Some zero_error))
                payload (ph_expected_object_type h))
    | _, _ => Val (with_context w h, Err no_functional_extension)
    end).
End Handle.

(** ** Plugins *)

(** [SchemaHandler]: the routes of one schema; the author's functions have a state [A]. *)
Record SchemaHandler (A : Type) : Type := mkSchemaHandler {
  sh_object_type : Z;
  sh_parse_scalars : option (A -> Z -> ByteView -> A * calls (Expected ScalarRecord));
  sh_parse_object : option (A -> Z -> ByteView -> A * calls (Expected ObjectRecord)) }.
Arguments mkSchemaHandler {A} _ _ _.
Arguments sh_object_type {A} _.
Arguments sh_parse_scalars {A} _.
Arguments sh_parse_object {A} _.

(** [MessageParserPluginBase]: the author's state, the bound type name, the handlers, the views of the host's services, the
    text that [save_config] shows, and the records that were appended to the write host. *)
Record ParserPlugin (A : Type) : Type := mkPlugin {
  pl_author : A; bound_type_name_ : bytes; handlers_ : gmap bytes (SchemaHandler A);
  service_registry_ : option GetService; write_host_view_ : option Service; object_write_host_view_ : option Service;
  parser_runtime_host_view_ : option Service; pl_config_buf : bytes; appended : list (Z * list PjNamedFieldValue) }.
Arguments mkPlugin {A} _ _ _ _ _ _ _ _ _.
Arguments pl_author {A} _.
Arguments bound_type_name_ {A} _.
Arguments handlers_ {A} _.
Arguments service_registry_ {A} _.
Arguments write_host_view_ {A} _.
Arguments object_write_host_view_ {A} _.
Arguments parser_runtime_host_view_ {A} _.
Arguments pl_config_buf {A} _.
Arguments appended {A} _.

#[export] Instance eta_Plugin A : Eta (ParserPlugin A) := fun p =>
  mkPlugin (pl_author p) (bound_type_name_ p) (handlers_ p) (service_registry_ p) (write_host_view_ p) (object_write_host_view_ p)
    (parser_runtime_host_view_ p) (pl_config_buf p) (appended p).

(** The virtual methods that an author may override. *)
Record ParserAuthor (A : Type) : Type := mkParserAuthor {
  pa_bind : ParserPlugin A -> option GetService -> ParserPlugin A * calls (Expected unit);
  pa_bindSchema : ParserPlugin A -> bytes -> ByteView -> ParserPlugin A * calls (Expected unit);
  pa_saveConfig : ParserPlugin A -> calls bytes;
  pa_loadConfig : ParserPlugin A -> bytes -> ParserPlugin A * calls (Expected unit);
  pa_parse : ParserPlugin A -> Z -> ByteView -> ParserPlugin A * calls (Expected unit);
  pa_pluginExtension : ParserPlugin A -> bytes -> ParserPlugin A * calls (Extension (ParserPlugin A)) }.
Arguments mkParserAuthor {A} _ _ _ _ _ _.
Arguments pa_bind {A} _ _ _.
Arguments pa_bindSchema {A} _ _ _ _.
Arguments pa_saveConfig {A} _ _.
Arguments pa_loadConfig {A} _ _ _.
Arguments pa_parse {A} _ _ _ _.
Arguments pa_pluginExtension {A} _ _ _.

Section Base.
Context {A : Type} (append_record : Service -> Z -> list PjNamedFieldValue -> PjError + unit).

(** *** The default methods *)

Definition base_bind (p : ParserPlugin A) (services : option GetService) : ParserPlugin A * Expected unit :=
  match require_service services (str "pj.parser_write.v1") 1 with
  | Err error => (p, Err error)
  | Ok write =>
    let p := p <| write_host_view_ := Some write |> in
    let p := match get_service_opt services (str "pj.parser_object_write.v1") 1 with
             | Some obj => p <| object_write_host_view_ := Some obj |>
             | None => p
             end in
    (p <| parser_runtime_host_view_ := get_service_opt services (str "pj.parser_runtime.v1") 1 |> <| service_registry_ := services |>,
     Ok tt)
  end.

Definition base_bindSchema (p : ParserPlugin A) (type_name : bytes) (schema : ByteView) : ParserPlugin A * Expected unit :=
  (p <| bound_type_name_ := type_name |>, Ok tt).

Definition base_saveConfig (p : ParserPlugin A) : bytes := str "{}".
Definition base_loadConfig (p : ParserPlugin A) (config_json : bytes) : ParserPlugin A * Expected unit := (p, Ok tt).

Definition registerSchemaHandler (type_name : bytes) (handler : SchemaHandler A) (p : ParserPlugin A) : ParserPlugin A :=
  p <| handlers_ := <[type_name := handler]> (handlers_ p) |>.

Definition findSchemaHandler (type_name : bytes) (p : ParserPlugin A) : option (SchemaHandler A) := handlers_ p !! type_name.

Definition classifySchema (type_name : bytes) (p : ParserPlugin A) : Z :=
  match findSchemaHandler type_name p with Some h => sh_object_type h | None => 0 end.

Definition not_registered (p : ParserPlugin A) : string := "parser does not register schema: " +:+ text_of (bound_type_name_ p).

Definition parseScalars (timestamp_ns : Z) (payload : ByteView) (p : ParserPlugin A) : ParserPlugin A * calls (Expected ScalarRecord) :=
  match findSchemaHandler (bound_type_name_ p) p with
  | None => (p, inl (Err (not_registered p)))
  | Some h =>
    match sh_parse_scalars h with
    | None => (p, inl (Err ("registered handler has no parse_scalars: " +:+ text_of (bound_type_name_ p))))
    | Some f => let '(a, called) := f (pl_author p) timestamp_ns payload in (p <| pl_author := a |>, called)
    end
  end.

Definition parseObject (timestamp_ns : Z) (payload : ByteView) (p : ParserPlugin A) : ParserPlugin A * calls (Expected ObjectRecord) :=
  match findSchemaHandler (bound_type_name_ p) p with
  | None => (p, inl (Err (not_registered p)))
  | Some h =>
    match sh_parse_object h with
    | None => (p, inl (Err ("registered handler has no parse_object: " +:+ text_of (bound_type_name_ p))))
    | Some f => let '(a, called) := f (pl_author p) timestamp_ns payload in (p <| pl_author := a |>, called)
    end
  end.

Definition writeHostBound (p : ParserPlugin A) : bool := match write_host_view_ p with Some s => validateService s | None => false end.

(** [ParserWriteHostView::appendRecord] *)
Definition appendRecord (timestamp : Z) (fields : list NamedFieldValue) (p : ParserPlugin A) : ParserPlugin A * Expected unit :=
  match write_host_view_ p with
  | Some s =>
    if negb (validateService s) then (p, Err "parser write host is not bound")
    else
      let raw := toAbiNamed fields in
      (p <| appended := appended p ++ [(timestamp, raw)] |>, slot_status (append_record s timestamp raw))
  | None => (p, Err "parser write host is not bound")
  end.

Definition base_parse (p : ParserPlugin A) (timestamp_ns : Z) (payload : ByteView) : ParserPlugin A * calls (Expected unit) :=
  if negb (writeHostBound p) then (p, inl (Err "write host not bound"))
  else
    let '(p, called) := parseScalars timestamp_ns payload p in
    match called with
    | inr what => (p, inr what)
    | inl (Err error) => (p, inl (Err error))
    | inl (Ok record) =>
      match sr_fields record with
      | [] => (p, inl (Ok tt))
      | fields => let '(p, status) := appendRecord (default timestamp_ns (sr_ts record)) fields p in (p, inl status)
      end
    end.

(** *** Trampolines *)

Context (author : ParserAuthor A).

Definition slot_answer (call : string) (called : calls (Expected unit)) : PjError + unit :=
  match called with
  | inl (Ok _) => inr tt
  | inl (Err error) => inl (fillError "plugin" error)
  | inr what => inl (thrown_error call what)
  end.

Definition parser_trampoline_bind (self : ParserPlugin A) (registry : option GetService) : ParserPlugin A * (PjError + unit) :=
  let '(self, called) := pa_bind author self registry in (self, slot_answer "bind" called).

Definition trampoline_bind_schema (self : ParserPlugin A) (type_name schema : ByteView) : ParserPlugin A * (PjError + unit) :=
  let '(self, called) := pa_bindSchema author self (view_bytes type_name) schema in (self, slot_answer "bind_schema" called).

(** [has_out]: the out-parameter is there. *)
Definition parser_trampoline_save_config (has_out : bool) (self : ParserPlugin A) : ParserPlugin A * (PjError + ByteView) :=
  if negb has_out then (self, inl (fillError "plugin" "save_config called with null out_json"))
  else
    match pa_saveConfig author self with
    | inl json => (self <| pl_config_buf := json |>, inr (bytes_view json))
    | inr what => (self, inl (thrown_error "save_config" what))
    end.

Definition parser_trampoline_load_config (self : ParserPlugin A) (config_json : ByteView) : ParserPlugin A * (PjError + unit) :=
  let '(self, called) := pa_loadConfig author self (view_bytes config_json) in (self, slot_answer "load_config" called).

Definition trampoline_parse (self : ParserPlugin A) (timestamp_ns : Z) (payload : ByteView) : ParserPlugin A * (PjError + unit) :=
  let '(self, called) := pa_parse author self timestamp_ns payload in (self, slot_answer "parse" called).

Definition trampoline_classify_schema (has_out : bool) (self : ParserPlugin A) (type_name schema : ByteView)
    : ParserPlugin A * (PjError + Z) :=
  (self,
   if negb has_out then inl (fillError "plugin" "classify_schema called with null out_classification")
   else inr (classifySchema (view_bytes type_name) self)).

(** [trampoline_classify_routes]; [ctx]: the context is there, which then is [self]; [has_out] as above. *)
Definition trampoline_classify_routes (ctx : bool) (self : ParserPlugin A) (type_name schema : ByteView) (has_out : bool) (out : OutError)
    : (bool * OutError) * option RouteClassification :=
  if negb ctx then ((false, storeError 2 "plugin" "classify_routes called with null plugin context" out), None)
  else if negb has_out then ((false, storeError 2 "plugin" "classify_routes called with null output" out), None)
  else if unreadable type_name || unreadable schema
  then ((false, storeError 2 "plugin" "classify_routes called with an invalid borrowed view" out), None)
  else
    ((true, out),
     Some (match findSchemaHandler (view_bytes type_name) self with
           | None => mkClassification 0 ROUTE_MATCH_EXACT ROUTE_STATUS_DECLINED 0
           | Some handler =>
             let scalar := match sh_parse_scalars handler with Some _ => true | None => false end in
             let object := match sh_parse_object handler with Some _ => true | None => false end in
             mkClassification (Z.lor (if scalar then ROUTE_FLAG_SCALAR else 0) (if object then ROUTE_FLAG_OBJECT else 0)) ROUTE_MATCH_EXACT
               ROUTE_STATUS_CLAIMED (if object then sh_object_type handler else 0)
           end)).

(** *** The functions that parse

    The two revisions differ in the kinds of their errors: [refuse] is [storeError] in v1, in v2 it adds the kind. *)

Definition refuse (v2 : bool) (code : Z) (message kind : string) (out : OutError) : OutError :=
  if v2 then storeErrorKind code "plugin" message kind out else storeError code "plugin" message out.

(** The error of a call that threw. *)
Definition refuse_thrown (v2 : bool) (call : string) (what : option string) (out : OutError) : OutError :=
  refuse v2 1 (match what with Some what => call +:+ " threw: " +:+ what | None => "unknown exception in " +:+ call end)
    PJ_PARSER_ERROR_KIND_CONTRACT_VIOLATION out.

(** After the sink: v2 marks a refusal that is no violation of the contract. *)
Definition after_sink (v2 : bool) (answer : bool * OutError) : bool * OutError :=
  let '(accepted, out) := answer in
  (accepted,
   if v2 && negb accepted
      && match out with Some e => negb (String.eqb (pe_kind e) PJ_PARSER_ERROR_KIND_CONTRACT_VIOLATION) | None => true end
   then setExtended PJ_PARSER_ERROR_KIND_SINK_REJECTED out else out).

Definition usable_sink (min_size : Z) (spliced : bool) (sink : option SinkTable) : bool :=
  match sink with
  | Some t => (st_struct_size t >=? min_size) && st_accept t && (negb spliced || st_accept_spliced t)
  | None => false
  end.

Definition sink_ctx (sink : option SinkTable) : bool := match sink with Some t => st_ctx t | None => false end.

(** [trampoline_parse_scalars_functional] and its v2 *)
Definition trampoline_parse_scalars (v2 ctx : bool) (self : ParserPlugin A) (timestamp_ns : Z) (payload : ByteView)
    (sink : option SinkTable) (out : OutError) : Parses (ParserPlugin A) ScalarCall :=
  let violation message := Return (self, (false, refuse v2 2 message PJ_PARSER_ERROR_KIND_CONTRACT_VIOLATION out)) in
  if negb ctx then violation "parse_scalars called with null plugin context"
  else if negb (usable_sink PJ_PARSER_SCALAR_SINK_V1_MIN_SIZE false sink) then violation "parse_scalars called with invalid scalar sink"
  else if unreadable payload then violation "parse_scalars called with invalid payload"
  else
    let '(self, called) := parseScalars timestamp_ns payload self in
    match called with
    | inr what => Return (self, (false, refuse_thrown v2 "parse_scalars" what out))
    | inl (Err error) => Return (self, (false, refuse v2 1 error PJ_PARSER_ERROR_KIND_DATA_ERROR out))
    | inl (Ok record) =>
      let fields := toAbiNamed (sr_fields record) in
      Emit (sink_ctx sink) out
        (mkScalarCall (match sr_ts record with Some _ => true | None => false end) (default 0 (sr_ts record))
           (match fields with [] => None | _ => Some fields end) (Z.of_nat (length fields)))
        (fun answer => Return (self, after_sink v2 answer))
    end.

(** [trampoline_parse_object_functional] and its v2; [lift] makes the call of the sink's type. *)
Definition trampoline_parse_object {C} (v2 : bool) (lift : CompleteCall -> C) (ctx : bool) (self : ParserPlugin A) (timestamp_ns : Z)
    (payload : PjPayload) (sink : option SinkTable) (out : OutError) : Parses (ParserPlugin A) C :=
  let violation message := Return (self, (false, refuse v2 2 message PJ_PARSER_ERROR_KIND_CONTRACT_VIOLATION out)) in
  if pp_anchor_ctx payload && negb (pp_anchor_release payload)
  then violation "parse_object payload anchor has context without release callback"
  else if negb ctx then violation "parse_object called with null plugin context"
  else if negb (usable_sink (if v2 then PJ_PARSER_OBJECT_SINK_V2_MIN_SIZE else PJ_PARSER_OBJECT_SINK_V1_MIN_SIZE) v2 sink)
  then violation (if v2 then "parse_object called with invalid v2 object sink" else "parse_object called with invalid object sink")%string
  else if unreadable (pp_bytes payload) then violation "parse_object called with invalid payload"
  else
    let '(self, called) := parseObject timestamp_ns (pp_bytes payload) self in
    match called with
    | inr what => Return (self, (false, refuse_thrown v2 "parse_object" what out))
    | inl (Err error) => Return (self, (false, refuse v2 1 error PJ_PARSER_ERROR_KIND_DATA_ERROR out))
    | inl (Ok record) =>
      match serializeBuiltinObject (or_object record) with
      | Err error => Return (self, (false, refuse v2 1 error PJ_PARSER_ERROR_KIND_CONTRACT_VIOLATION out))
      | Ok wire =>
        Emit (sink_ctx sink) out
          (lift (mkCompleteCall (match or_ts record with Some _ => true | None => false end) (default 0 (or_ts record))
                   (typeOf (or_object record)) (bytes_view wire)))
          (fun answer => Return (self, after_sink v2 answer))
      end
    end.

Definition functional_v1 : FunctionalV1 (ParserPlugin A) :=
  mkFunctionalV1 24 (Some (trampoline_parse_scalars false true)) (Some (trampoline_parse_object false id true)).
Definition functional_v2 : FunctionalV2 (ParserPlugin A) :=
  mkFunctionalV2 24 (Some (trampoline_parse_scalars true true)) (Some (trampoline_parse_object true Complete true)).

(** A bound schema has the functional route if it has a handler; before, any handler will do. *)
Definition functional_route_available (self : ParserPlugin A) : bool :=
  if bool_decide (bound_type_name_ self = []) then negb (bool_decide (handlers_ self = ∅))
  else match findSchemaHandler (bound_type_name_ self) self with Some _ => true | None => false end.

Definition trampoline_get_plugin_extension (self : ParserPlugin A) (id : ByteView) : ParserPlugin A * Extension (ParserPlugin A) :=
  let sv := view_bytes id in
  if bool_decide (sv = str PJ_PARSER_ROUTE_CLAIMS_EXTENSION_V1) then (self, ExtensionRoutes 16 (trampoline_classify_routes true))
  else if bool_decide (sv = str PJ_PARSER_FUNCTIONAL_EXTENSION_V1) && functional_route_available self then (self, ExtensionV1 functional_v1)
  else if bool_decide (sv = str PJ_PARSER_FUNCTIONAL_EXTENSION_V2) && functional_route_available self then (self, ExtensionV2 functional_v2)
  else
    let '(self, called) := pa_pluginExtension author self sv in
    (self, match called with inl extension => extension | inr _ => NoExtension end).

(** [vtableWithCreate] *)
Definition parser_vtable (create : option (ParserPlugin A)) (manifest : bytes) : ParserVtable (ParserPlugin A) :=
  mkParserVtable PJ_MESSAGE_PARSER_PROTOCOL_VERSION 88 create (Some manifest)
    parser_trampoline_bind trampoline_bind_schema (parser_trampoline_save_config true) parser_trampoline_load_config trampoline_parse
    (Some trampoline_get_plugin_extension) (Some (trampoline_classify_schema true)).

End Base.

(** ** What the host takes from any plugin *)

(** The record of one call of the sink: a wire that decodes as an object of the expected type, or that does with the bytes of
    the payload where a splice names them. *)
Definition complete_ok (expected : option Z) (c : CompleteCall) (r : ObjectRecord) : Prop :=
  unreadable (cc_wire c) = false /\ bv_size (cc_wire c) <= size_max /\ expects expected (cc_object_type c) = true /\
  deserializeBuiltinObject (cc_object_type c) (view_bytes (cc_wire c)) = Ok (or_object r) /\
  or_ts r = record_ts (cc_has_timestamp c) (cc_timestamp_ns c).

Definition spliced_ok (payload : ByteView) (expected : option Z) (c : CompleteCall) (field offset len : Z) (r : ObjectRecord) : Prop :=
  splice_field_number_v1 (cc_object_type c) = Some field /\ offset + len <= bv_size payload /\
  exists decoded, complete_ok expected c (mkObjectRecord (or_ts r) decoded) /\
    attach (cc_object_type c) decoded (payload_range payload offset len) = Some (or_object r) /\
    forall m, or_object r = OGridMap m -> validateGridMap m = Ok tt.

Definition delivered (payload : ByteView) (expected : option Z) (c : ObjectCall) (r : ObjectRecord) : Prop :=
  match c with
  | Complete c => complete_ok expected c r
  | Spliced c field offset len => spliced_ok payload expected c field offset len r
  end.

(** The numbers of a call at their width. *)
Definition call_wf (c : ObjectCall) : Prop :=
  match c with Complete _ => True | Spliced _ _ offset len => in_u 64 offset /\ in_u 64 len end.

(** What the theorems need of a sink: a call without context is refused, each other call is counted, and only the first can
    leave a record. *)
Class CountingSink {C} (sink : bool -> OutError -> C -> ObjectSinkState -> ObjectSinkState * (bool * OutError)) : Prop := {
  sink_no_ctx out c s : (sink false out c s).1 = s;
  sink_out ctx out c s : (sink ctx out c s).1 = (sink ctx None c s).1;
  sink_counts out c s : os_call_count (sink true out c s).1 = wrap 32 (os_call_count s + 1);
  sink_later out c s : wrap 32 (os_call_count s + 1) <> 1 -> os_record (sink true out c s).1 = os_record s }.

Ltac walk_sink :=
  repeat match goal with |- context [if ?b then _ else _] => destruct b eqn:? | |- context [match ?e with _ => _ end] => destruct e eqn:? end.

#[export] Instance accept_v1_counts : CountingSink acceptObject.
Proof.
  split; intros; unfold acceptObject; [done|walk_sink; done|cbn [negb]; walk_sink; done|].
  match goal with H : _ <> _ |- _ => rename H into Hn end. cbn [negb os_counted os_call_count]. apply Z.eqb_neq in Hn. by rewrite Hn.
Qed.

#[export] Instance accept_v2_counts : CountingSink accept_v2.
Proof.
  split; intros; (destruct c as [c|c field offset len]; cbn [accept_v2]; [by apply accept_v1_counts|]);
    unfold acceptObjectSpliced; [done|walk_sink; done|cbn [negb]; walk_sink; done|].
  match goal with H : _ <> _ |- _ => rename H into Hn end. cbn [negb os_counted os_call_count]. apply Z.eqb_neq in Hn. by rewrite Hn.
Qed.

(** The calls with the context of the sink. *)
Definition with_ctx {C} (l : list (bool * C)) : list C := omap (fun x : bool * C => if x.1 then Some x.2 else None) l.

Section Counting.
Context {C R : Type} (sink : bool -> OutError -> C -> ObjectSinkState -> ObjectSinkState * (bool * OutError)) `{!CountingSink sink}.

(** After the first call nothing changes the record. *)
Lemma run_later (p : Provider C R) : forall s,
  1 <= os_call_count s -> os_call_count s + Z.of_nat (length (with_ctx (provider_calls sink p s))) < 2 ^ 32 ->
  os_record (run_provider sink p s).1 = os_record s /\
  os_call_count (run_provider sink p s).1 = os_call_count s + Z.of_nat (length (with_ctx (provider_calls sink p s))).
Proof.
  induction p as [ctx out c go_on IH|r]; intros s H1 H2; [|by rewrite Z.add_0_r].
  cbn [run_provider provider_calls] in *. destruct (sink ctx out c s) as [s' a] eqn:E.
  destruct ctx; cbn [with_ctx omap list_omap fst snd length] in *.
  - pose proof (sink_counts out c s) as Hc. pose proof (sink_later out c s) as Hr. rewrite E in Hc, Hr. cbn [fst] in Hc, Hr.
    fold (with_ctx (provider_calls sink (go_on a) s')) in *.
    rewrite wrap_small in Hc, Hr by (unfold in_u; lia).
    destruct (IH a s') as [-> ->]; [lia..|]. split; [apply Hr; lia|lia].
  - pose proof (sink_no_ctx out c s) as Hs. rewrite E in Hs. cbn [fst] in Hs. subst s'. by apply IH.
Qed.

(** The first call with the context decides the record. *)
Lemma run_first (p : Provider C R) s r :
  os_call_count s = 0 -> os_record s = None -> Z.of_nat (length (with_ctx (provider_calls sink p s))) < 2 ^ 32 ->
  let s' := (run_provider sink p s).1 in
  os_call_count s' = Z.of_nat (length (with_ctx (provider_calls sink p s))) /\
  (os_record s' = Some r <-> exists c cs, with_ctx (provider_calls sink p s) = c :: cs /\
  os_record (sink true None c s).1 = Some r).
Proof.
  intros H0 Hr. induction p as [ctx out c go_on IH|r0]; cbn [run_provider provider_calls].
  2: { intros _. cbn. rewrite Hr, H0. split; [done|]. split; [done|]. by intros (? & ? & ? & _). }
  destruct (sink ctx out c s) as [s' a] eqn:E. destruct ctx; cbn [with_ctx omap list_omap fst snd length] in *.
  - fold (with_ctx (provider_calls sink (go_on a) s')) in *. intros Hl.
    pose proof (sink_counts out c s) as Hc. rewrite E, H0 in Hc. cbn [fst] in Hc. change (wrap 32 (0 + 1)) with 1 in Hc.
    destruct (run_later (go_on a) s') as [-> ->]; [lia..|]. split; [lia|]. split.
    + intros H. exists c, (with_ctx (provider_calls sink (go_on a) s')). split; [done|]. by rewrite <-(sink_out true out), E.
    + intros (c' & cs & [= <- _] & H). by rewrite <-(sink_out true out), E in H.
  - pose proof (sink_no_ctx out c s) as Hs. rewrite E in Hs. cbn [fst] in Hs. subst s'. apply IH.
Qed.
End Counting.

Definition sink_start (payload : ByteView) (expected : option Z) : ObjectSinkState := mkObjectSinkState None payload expected 0.

Lemma accept_complete payload expected out c :
  acceptObject true out c (sink_start payload expected)
  = match judge_complete expected c with
    | Err violation => (mkObjectSinkState None payload expected 1, (false, fillContractViolation violation out))
    | Ok object => (mkObjectSinkState (Some (object_record c object)) payload expected 1, (true, out))
    end.
Proof. done. Qed.

Lemma accept_spliced payload expected out c field offset len :
  acceptObjectSpliced true out c field offset len (sink_start payload expected)
  = match judge_spliced payload expected c field offset len with
    | Err violation => (mkObjectSinkState None payload expected 1, (false, fillContractViolation violation out))
    | Ok object => (mkObjectSinkState (Some (object_record c object)) payload expected 1, (true, out))
    end.
Proof. done. Qed.

(** The record that a judgement leaves. *)
Lemma judged_record (judge : Expected BuiltinObject) payload expected out c r :
  os_record (match judge with
    | Err violation => (mkObjectSinkState None payload expected 1, (false, fillContractViolation violation out))
    | Ok object => (mkObjectSinkState (Some (object_record c object)) payload expected 1, (true, out))
    end).1 = Some r <-> judge = Ok (or_object r) /\ or_ts r = record_ts (cc_has_timestamp c) (cc_timestamp_ns c).
Proof.
  destruct judge as [object|e]; cbn [fst os_record]; [|by split; [|intros [? _]]]. unfold object_record. split.
  - by intros [= <-].
  - intros [[= ->] <-]. by destruct r.
Qed.

Lemma judge_complete_ok expected c object :
  judge_complete expected c = Ok object <->
  unreadable (cc_wire c) = false /\ bv_size (cc_wire c) <= size_max /\ expects expected (cc_object_type c) = true /\
  deserializeBuiltinObject (cc_object_type c) (view_bytes (cc_wire c)) = Ok object.
Proof.
  unfold judge_complete. destruct (unreadable (cc_wire c)); [by split; [|intros [? _]]|].
  destruct (expects expected (cc_object_type c)); cbn [negb]; [|by split; [|intros (_ & _ & ? & _)]].
  destruct (bv_size (cc_wire c) >? size_max) eqn:Es; [split; [done|intros (_ & ? & _); blia]|].
  split; [intros H; split_and!; [done|blia|done..]|by intros (_ & _ & _ & ?)].
Qed.

Lemma complete_record payload expected c r :
  os_record (acceptObject true None c (sink_start payload expected)).1 = Some r <-> complete_ok expected c r.
Proof. rewrite accept_complete, judged_record, judge_complete_ok. unfold complete_ok. tauto. Qed.

Lemma judge_spliced_ok payload expected c field offset len object :
  in_u 64 (bv_size payload) -> in_u 64 offset -> in_u 64 len ->
  judge_spliced payload expected c field offset len = Ok object <->
  splice_field_number_v1 (cc_object_type c) = Some field /\ offset + len <= bv_size payload /\
  exists decoded, judge_complete expected c = Ok decoded /\
    attach (cc_object_type c) decoded (payload_range payload offset len) = Some object /\
    forall m, object = OGridMap m -> validateGridMap m = Ok tt.
Proof.
  intros Hp Ho Hl. setoid_rewrite judge_complete_ok. unfold judge_spliced.
  destruct (expects expected (cc_object_type c)); cbn [negb]; [|by split; [|intros (_ & _ & ? & (_ & _ & ? & _) & _)]].
  case_bool_decide as Hf; cbn [negb]; [|by split; [|intros [? _]]].
  destruct ((offset >? bv_size payload) || (len >? wrap 64 (bv_size payload - offset))) eqn:Er.
  { split; [done|]. intros (_ & Hb & _). unfold in_u in *. rewrite wrap_small in Er by (unfold in_u; lia). blia. }
  assert (offset + len <= bv_size payload) as Hb.
  { apply orb_false_elim in Er as [E1 E2]. unfold in_u in *. rewrite wrap_small in E2 by (unfold in_u; blia). blia. }
  destruct (unreadable (cc_wire c)); [by split; [|intros (_ & _ & ? & (? & _) & _)]|]. cbn [orb].
  destruct (bv_size (cc_wire c) >? size_max) eqn:Es; [split; [done|intros (_ & _ & ? & (_ & ? & _) & _); blia]|].
  destruct (deserializeBuiltinObject _ _) as [decoded|e]; cbn [prefixed ebind]; [|by split; [|intros (_ & _ & ? & (_ & _ & _ & ?) & _)]].
  transitivity (attach (cc_object_type c) decoded (payload_range payload offset len) = Some object /\
    forall m, object = OGridMap m -> validateGridMap m = Ok tt).
  2: { split; [intros [? ?]; split_and!; [done..|]; exists decoded; split_and!; [done|blia|done..]|]. by intros (_ & _ & ? & (_ & _ & _ & [= <-]) & ?). }
  destruct (attach _ _ _) as [o|]; [|by split; [|intros [? _]]].
  assert (match o with OGridMap m => validateGridMap m | _ => Ok tt end = Ok tt <-> forall m, o = OGridMap m -> validateGridMap m = Ok tt) as Hg
    by (destruct o; naive_solver).
  destruct (match o with OGridMap m => validateGridMap m | _ => Ok tt end) as [[]|e]; cbn [prefixed ebind].
  - split; [intros [= <-]; split; [done|by apply Hg]|by intros [[= <-] _]].
  - split; [done|]. intros [[= <-] Hv]. by apply Hg in Hv.
Qed.

Lemma spliced_record payload expected c field offset len r :
  in_u 64 (bv_size payload) -> in_u 64 offset -> in_u 64 len ->
  os_record (acceptObjectSpliced true None c field offset len (sink_start payload expected)).1 = Some r <->
  spliced_ok payload expected c field offset len r.
Proof.
  intros Hp Ho Hl. rewrite accept_spliced, judged_record, judge_spliced_ok by done. unfold spliced_ok, complete_ok.
  setoid_rewrite judge_complete_ok. cbn [or_object or_ts]. split.
  - intros [(Hf & Hb & d & Hd & Ha & Hg) Ht]. split_and!; [done..|]. exists d. tauto.
  - intros (Hf & Hb & d & Hd & Ha & Hg). split_and!; [done..| |tauto]. exists d. tauto.
Qed.

Lemma first_record payload expected c r :
  in_u 64 (bv_size payload) -> call_wf c ->
  os_record (accept_v2 true None c (sink_start payload expected)).1 = Some r <-> delivered payload expected c r.
Proof. destruct c; intros Hp Hc; [apply complete_record|destruct Hc; by apply spliced_record]. Qed.

Section AnyPlugin.
Context {W : Type} (payload : ByteView) (expected : option Z).

(** A parse gives a record when it returns [true] and called the sink once, and that call left the record. *)
Lemma parse_result {C} sink `{!CountingSink sink} (p : Parses W C) r :
  Z.of_nat (length (with_ctx (provider_calls sink p (sink_start payload expected)))) < 2 ^ 32 ->
  (parse_object_with sink p payload expected).2 = Ok r <->
  (run_provider sink p (sink_start payload expected)).2.2.1 = true /\
  exists c, with_ctx (provider_calls sink p (sink_start payload expected)) = [c] /\
    os_record (sink true None c (sink_start payload expected)).1 = Some r.
Proof.
  intros Hl. destruct (run_first sink p (sink_start payload expected) r eq_refl eq_refl Hl) as [Hn Hr].
  unfold parse_object_with. fold (sink_start payload expected).
  destruct (run_provider sink p (sink_start payload expected)) as [s [w [ok out]]]. cbn [fst snd] in *. unfold object_result.
  destruct ok; cbn [negb]; [|naive_solver]. split.
  - intros H. split; [done|]. destruct (os_record s) as [r'|]; [|done]. destruct (os_call_count s =? 1) eqn:E1; [|done].
    injection H as ->. destruct Hr as [Hr _]. destruct (Hr eq_refl) as (c & cs & Hc & Hd). exists c. rewrite Hc in *. split; [|done].
    cbn [length] in Hn. destruct cs; [done|]. cbn [length] in Hn. blia.
  - intros (_ & c & Hc & Hd). destruct Hr as [_ Hr]. rewrite Hr by (exists c, []; by rewrite Hc). rewrite Hn, Hc. done.
Qed.

(** C10 The host trusts no plugin: whatever a plugin does in [parse_object], with either revision of the extension, the host has
    a record exactly when the plugin reports success, called the sink exactly once, and that call delivered the record: a
    readable wire that decodes as an object of the type that was bound, or that does with the payload's bytes in its eligible
    field, within the payload. *)
Theorem host_accepts_exactly r :
  in_u 64 (bv_size payload) ->
  (forall p : Parses W ObjectCall,
    let run := run_provider accept_v2 p (sink_start payload expected) in
    let sunk := with_ctx (provider_calls accept_v2 p (sink_start payload expected)) in
    Z.of_nat (length sunk) < 2 ^ 32 -> Forall call_wf sunk ->
    (parse_object_with accept_v2 p payload expected).2 = Ok r <->
    run.2.2.1 = true /\ exists c, sunk = [c] /\ delivered payload expected c r) /\
  (forall p : Parses W CompleteCall,
    let run := run_provider acceptObject p (sink_start payload expected) in
    let sunk := with_ctx (provider_calls acceptObject p (sink_start payload expected)) in
    Z.of_nat (length sunk) < 2 ^ 32 ->
    (parse_object_with acceptObject p payload expected).2 = Ok r <->
    run.2.2.1 = true /\ exists c, sunk = [c] /\ complete_ok expected c r).
Proof.
  intros Hp. split; intros p run sunk Hl.
  - intros Hw. rewrite (parse_result accept_v2 p r Hl). fold run sunk.
    assert (forall c, sunk = [c] -> os_record (accept_v2 true None c (sink_start payload expected)).1 = Some r <-> delivered payload expected c r) as Hd.
    { intros c Hc. rewrite Hc in Hw. rewrite Forall_singleton in Hw. exact (first_record payload expected c r Hp Hw). }
    naive_solver.
  - rewrite (parse_result acceptObject p r Hl). fold run sunk.
    split; intros (Hok & c & Hc & Hd); (split; [done|]); exists c; (split; [done|]).
    + exact (proj1 (complete_record payload expected c r) Hd).
    + exact (proj2 (complete_record payload expected c r) Hd).
Qed.
End AnyPlugin.

(** ** From the author's function to the host *)

Lemma view_bytes_view l : view_bytes (bytes_view l) = l.
Proof. unfold view_bytes, bytes_view, blen. cbn [bv_data bv_size]. by rewrite Nat2Z.id, firstn_all. Qed.

Lemma refuse_text v2 code message kind e :
  error_text (refuse v2 code message kind (Some e)) = errorToString (fillError "plugin" message).
Proof. by destruct v2. Qed.

Lemma refuse_thrown_text v2 call what e : error_text (refuse_thrown v2 call what (Some e)) = errorToString (thrown_error call what).
Proof. unfold refuse_thrown. rewrite refuse_text. by destruct what. Qed.

(** What a record needs to cross: its object at the width of its types, and bytes that fit. *)
Definition crosses (called : calls (Expected ObjectRecord)) : Prop :=
  match called with
  | inl (Ok r) => object_wf (or_object r) /\ exists data, serializeBuiltinObject (or_object r) = Ok data /\ fits data
  | _ => True
  end.

(** The host's answer to what the author's function did. *)
Definition object_answer (expected : option Z) (called : calls (Expected ObjectRecord)) : Expected ObjectRecord :=
  match called with
  | inl (Ok r) => if expects expected (typeOf (or_object r)) then Ok r else Err (errorToString (fillError "host" wrong_type))
  | inl (Err error) => Err (errorToString (fillError "plugin" error))
  | inr what => Err (errorToString (thrown_error "parse_object" what))
  end.

Definition scalar_answer {S} (sink : option Z -> list PjNamedFieldValue -> S -> S * calls (Expected unit)) (s : S)
    (called : calls (Expected ScalarRecord)) : S * Expected unit :=
  match called with
  | inl (Ok r) =>
    let '(s, status) := sink (sr_ts r) (toAbiNamed (sr_fields r)) s in
    (s, match status with
        | inl (Ok _) => Ok tt
        | inl (Err error) => Err (errorToString (fillError "host" error))
        | inr (Some what) => Err (errorToString (fillError "host" ("scalar sink threw: " +:+ what)))
        | inr None => Err (errorToString (fillError "host" "unknown exception in scalar sink"))
        end)
  | inl (Err error) => (s, Err (errorToString (fillError "plugin" error)))
  | inr what => (s, Err (errorToString (thrown_error "parse_scalars" what)))
  end.

Lemma record_ts_option (t : option Z) : record_ts (match t with Some _ => true | None => false end) (default 0 t) = t.
Proof. by destruct t. Qed.

(** The call for a record that crosses. *)
Definition record_call (r : ObjectRecord) (data : bytes) : CompleteCall :=
  mkCompleteCall (match or_ts r with Some _ => true | None => false end) (default 0 (or_ts r)) (typeOf (or_object r)) (bytes_view data).

Lemma accept_written payload expected r data out :
  object_wf (or_object r) -> serializeBuiltinObject (or_object r) = Ok data -> fits data ->
  acceptObject true out (record_call r data) (sink_start payload expected)
  = if expects expected (typeOf (or_object r))
    then (mkObjectSinkState (Some r) payload expected 1, (true, out))
    else (mkObjectSinkState None payload expected 1, (false, fillContractViolation wrong_type out)).
Proof.
  intros Hwf Hs Hfit. rewrite accept_complete. destruct (expects expected (typeOf (or_object r))) eqn:E.
  - assert (judge_complete expected (record_call r data) = Ok (or_object r)) as ->.
    { apply judge_complete_ok. split_and!; [done|unfold fits, record_call, bytes_view, blen in *; cbn; lia|done|].
      unfold record_call. cbn [cc_wire cc_object_type]. rewrite view_bytes_view. by apply written_decodes. }
    unfold object_record, record_call. cbn [cc_has_timestamp cc_timestamp_ns]. rewrite record_ts_option. by destruct r.
  - assert (judge_complete expected (record_call r data) = Err wrong_type) as ->; [|done].
    unfold judge_complete, record_call. cbn [cc_object_type]. by rewrite E.
Qed.

Section Boundary.
Context {A : Type} (author : ParserAuthor A) (create : option (ParserPlugin A)) (manifest : bytes).

Notation vtable := (parser_vtable author create manifest).

(** A handle on an instance. *)
Definition handle_on (p : ParserPlugin A) (expected : option Z) : MessageParserHandle (ParserPlugin A) :=
  mkParserHandle (Some vtable) (Some p) expected.

Lemma extensions_of_bound p h :
  findSchemaHandler (bound_type_name_ p) p = Some h ->
  functionalExtensions vtable p = Val (p, (Some functional_v2, Some functional_v1)).
Proof.
  intros Hh. assert (functional_route_available p = true) as Ha.
  { unfold functional_route_available. case_bool_decide as Hn; [|by rewrite Hh]. apply negb_true_iff, bool_decide_eq_false_2.
    intros He. unfold findSchemaHandler in Hh. by rewrite He, lookup_empty in Hh. }
  unfold functionalExtensions, getPluginExtension.
  change (tail_slot vtable 72 (pv_get_plugin_extension vtable)) with (Some (trampoline_get_plugin_extension author)). cbn beta iota.
  unfold trampoline_get_plugin_extension. rewrite !view_bytes_view, Ha.
  change (bool_decide (str PJ_PARSER_FUNCTIONAL_EXTENSION_V2 = str PJ_PARSER_ROUTE_CLAIMS_EXTENSION_V1)) with false.
  change (bool_decide (str PJ_PARSER_FUNCTIONAL_EXTENSION_V2 = str PJ_PARSER_FUNCTIONAL_EXTENSION_V1)) with false.
  change (bool_decide (str PJ_PARSER_FUNCTIONAL_EXTENSION_V2 = str PJ_PARSER_FUNCTIONAL_EXTENSION_V2)) with true.
  change (bool_decide (str PJ_PARSER_FUNCTIONAL_EXTENSION_V1 = str PJ_PARSER_ROUTE_CLAIMS_EXTENSION_V1)) with false.
  change (bool_decide (str PJ_PARSER_FUNCTIONAL_EXTENSION_V1 = str PJ_PARSER_FUNCTIONAL_EXTENSION_V1)) with true.
  cbn [andb as_v1 as_v2 xbind]. rewrite ?Ha. reflexivity.
Qed.

(** What [parse_object] of the base class does when it is called with a sink and a readable payload. *)
Lemma trampoline_object {C : Type} (v2 : bool) (lift : CompleteCall -> C) (p : ParserPlugin A) ts payload anchored sink :
  usable_sink (if v2 then PJ_PARSER_OBJECT_SINK_V2_MIN_SIZE else PJ_PARSER_OBJECT_SINK_V1_MIN_SIZE) v2 (Some sink) = true ->
  st_ctx sink = true -> unreadable payload = false ->
  trampoline_parse_object v2 lift true p ts (mkPayload payload anchored anchored) (Some sink) (Some zero_error)
  = match (parseObject ts payload p).2 with
    | inr what => Return ((parseObject ts payload p).1, (false, refuse_thrown v2 "parse_object" what (Some zero_error)))
    | inl (Err error) => Return ((parseObject ts payload p).1, (false, refuse v2 1 error PJ_PARSER_ERROR_KIND_DATA_ERROR (Some zero_error)))
    | inl (Ok record) =>
      match serializeBuiltinObject (or_object record) with
      | Err error => Return ((parseObject ts payload p).1, (false, refuse v2 1 error PJ_PARSER_ERROR_KIND_CONTRACT_VIOLATION (Some zero_error)))
      | Ok wire => Emit true (Some zero_error) (lift (record_call record wire))
          (fun answer => Return ((parseObject ts payload p).1, after_sink v2 answer))
      end
    end.
Proof.
  intros Hs Hc Hp. unfold trampoline_parse_object. cbn [pp_anchor_ctx pp_anchor_release pp_bytes]. rewrite andb_negb_r, Hs, Hp. cbn [negb sink_ctx].
  rewrite Hc. by destruct (parseObject ts payload p).
Qed.

(** The host's answer, through the second revision, which it prefers. *)
Lemma object_through_v2 (p : ParserPlugin A) ts payload anchored expected :
  unreadable payload = false -> crosses (parseObject ts payload p).2 ->
  parse_object_with accept_v2
    (trampoline_parse_object true Complete true p ts (mkPayload payload anchored anchored) (Some host_sink_v2) (Some zero_error)) payload expected
  = ((parseObject ts payload p).1, object_answer expected (parseObject ts payload p).2).
Proof.
  intros Hp Hc. rewrite trampoline_object by done. destruct (parseObject ts payload p) as [p' [[r|error]|what]]; cbn [fst snd] in *.
  - destruct Hc as (Hwf & data & Hs & Hfit). rewrite Hs. unfold parse_object_with. cbn [run_provider accept_v2 object_answer].
    fold (sink_start payload expected). rewrite accept_written by done. destruct (expects expected (typeOf (or_object r))); done.
  - unfold parse_object_with, object_result. cbn [run_provider negb object_answer]. by rewrite refuse_text.
  - unfold parse_object_with, object_result. cbn [run_provider negb object_answer]. by rewrite refuse_thrown_text.
Qed.

(** The call for a record. *)
Definition scalar_call (r : ScalarRecord) : ScalarCall :=
  let fields := toAbiNamed (sr_fields r) in
  mkScalarCall (match sr_ts r with Some _ => true | None => false end) (default 0 (sr_ts r))
    (match fields with [] => None | _ => Some fields end) (Z.of_nat (length fields)).

Lemma scalar_call_fields r :
  null_fields (scalar_call r) = false /\ record_ts (sc_has_timestamp (scalar_call r)) (sc_timestamp_ns (scalar_call r)) = sr_ts r /\
  call_fields (scalar_call r) = toAbiNamed (sr_fields r).
Proof.
  unfold scalar_call, null_fields, call_fields. cbn [sc_fields sc_count sc_has_timestamp sc_timestamp_ns]. split_and!.
  - by destruct (toAbiNamed (sr_fields r)).
  - apply record_ts_option.
  - destruct (toAbiNamed (sr_fields r)) as [|f fs] eqn:E; [done|]. by rewrite Nat2Z.id, firstn_all.
Qed.

Lemma trampoline_scalars v2 (p : ParserPlugin A) ts payload sink :
  usable_sink PJ_PARSER_SCALAR_SINK_V1_MIN_SIZE false (Some sink) = true -> st_ctx sink = true -> unreadable payload = false ->
  trampoline_parse_scalars v2 true p ts payload (Some sink) (Some zero_error)
  = match (parseScalars ts payload p).2 with
    | inr what => Return ((parseScalars ts payload p).1, (false, refuse_thrown v2 "parse_scalars" what (Some zero_error)))
    | inl (Err error) => Return ((parseScalars ts payload p).1, (false, refuse v2 1 error PJ_PARSER_ERROR_KIND_DATA_ERROR (Some zero_error)))
    | inl (Ok record) =>
      Emit true (Some zero_error) (scalar_call record) (fun answer => Return ((parseScalars ts payload p).1, after_sink v2 answer))
    end.
Proof.
  intros Hs Hc Hp. unfold trampoline_parse_scalars. rewrite Hs, Hp. cbn [negb sink_ctx]. rewrite Hc. by destruct (parseScalars ts payload p).
Qed.

Lemma scalar_through_v2 {S} (sink : option Z -> list PjNamedFieldValue -> S -> S * calls (Expected unit)) s (p : ParserPlugin A) ts payload :
  unreadable payload = false ->
  scalar_result sink (trampoline_parse_scalars true true p ts payload (Some host_scalar_sink) (Some zero_error)) s
  = ((parseScalars ts payload p).1, (scalar_answer sink s (parseScalars ts payload p).2).1, (scalar_answer sink s (parseScalars ts payload p).2).2).
Proof.
  intros Hp. rewrite trampoline_scalars by done. destruct (parseScalars ts payload p) as [p' [[r|error]|what]]; cbn [fst snd scalar_answer].
  - unfold scalar_result. cbn [run_provider]. rewrite accept_scalar_first by apply scalar_call_fields.
    destruct (scalar_call_fields r) as (_ & -> & ->). destruct (sink _ _ _) as [s' [[[]|e]|[what|]]]; done.
  - unfold scalar_result. cbn [run_provider negb]. by rewrite refuse_text.
  - unfold scalar_result. cbn [run_provider negb]. by rewrite refuse_thrown_text.
Qed.

(** The handle after the host bound a schema, for an author who keeps the default [bindSchema]. *)
Lemma bind_default p name schema expected :
  (forall p name schema, pa_bindSchema author p name schema = let '(p, r) := base_bindSchema p name schema in (p, inl r)) ->
  parser_bind_schema (bytes_view name) schema (handle_on p expected)
  = Val (handle_on (p <| bound_type_name_ := name |>) (Some (classifySchema name p)), Ok tt).
Proof.
  intros Hb. unfold parser_bind_schema, on_instance, handle_on. cbn [with_expected ph_vt ph_context].
  change (pv_bind_schema vtable) with (trampoline_bind_schema author).
  change (classify_slot vtable) with (Some (@trampoline_classify_schema A true)). unfold trampoline_bind_schema.
  rewrite Hb, view_bytes_view. unfold base_bindSchema, trampoline_classify_schema. cbn [slot_answer negb]. by rewrite view_bytes_view.
Qed.

(** C9 What an author's handler returns is what the host receives.  Once a schema with a registered handler is bound, the host's
    [parseObjectFunctional] gives the record of the author's function, timestamp and object, whatever the type, unless the handler
    was registered for another type of object: that is refused; the object is one the codec can carry ([crosses]), and the author
    kept the default [bindSchema].  [parseScalarsFunctional] hands the record's timestamp and
    fields to the host's function once and gives its status.  Errors and exceptions of the author come with their text.  The
    author's state is the one its function left. *)
Theorem author_reaches_host p name schema expected h :
  (forall p name schema, pa_bindSchema author p name schema = let '(p, r) := base_bindSchema p name schema in (p, inl r)) ->
  handlers_ p !! name = Some h ->
  exists bound,
    parser_bind_schema (bytes_view name) schema (handle_on p expected) = Val (handle_on bound (Some (sh_object_type h)), Ok tt) /\
    pl_author bound = pl_author p /\
    (forall f ts payload anchored, sh_parse_object h = Some f -> unreadable payload = false ->
      let '(a, called) := f (pl_author p) ts payload in
      crosses called ->
      parseObjectFunctional ts payload anchored (handle_on bound (Some (sh_object_type h)))
      = Val (handle_on (bound <| pl_author := a |>) (Some (sh_object_type h)), object_answer (Some (sh_object_type h)) called)) /\
    (forall S (sink : option Z -> list PjNamedFieldValue -> S -> S * calls (Expected unit)) s f ts payload,
      sh_parse_scalars h = Some f -> unreadable payload = false ->
      let '(a, called) := f (pl_author p) ts payload in
      parseScalarsFunctional ts payload (Some sink) s (handle_on bound (Some (sh_object_type h)))
      = Val (handle_on (bound <| pl_author := a |>) (Some (sh_object_type h)), (scalar_answer sink s called).1, (scalar_answer sink s called).2)).
Proof.
  intros Hb Hh. exists (p <| bound_type_name_ := name |>). rewrite bind_default by done. unfold classifySchema, findSchemaHandler. rewrite Hh.
  split; [done|]. split; [done|].
  assert (findSchemaHandler (bound_type_name_ (p <| bound_type_name_ := name |>)) (p <| bound_type_name_ := name |>) = Some h) as Hf by done.
  pose proof (extensions_of_bound _ h Hf) as He. set (bound := p <| bound_type_name_ := name |>) in *. split.
  - intros f ts payload anchored Ho Hp. destruct (f (pl_author p) ts payload) as [a called] eqn:Ef. intros Hc.
    assert (parseObject ts payload bound = (bound <| pl_author := a |>, called)) as Ho'
      by (unfold parseObject; rewrite Hf, Ho; change (pl_author bound) with (pl_author p); by rewrite Ef).
    unfold parseObjectFunctional, on_instance. cbn [handle_on ph_vt ph_context ph_expected_object_type]. rewrite He. cbn [xbind functional_v2].
    rewrite object_through_v2 by (by rewrite ?Ho'). by rewrite Ho'.
  - intros S sink s f ts payload Ho Hp. destruct (f (pl_author p) ts payload) as [a called] eqn:Ef.
    assert (parseScalars ts payload bound = (bound <| pl_author := a |>, called)) as Ho'
      by (unfold parseScalars; rewrite Hf, Ho; change (pl_author bound) with (pl_author p); by rewrite Ef).
    unfold parseScalarsFunctional, on_instance. cbn [handle_on ph_vt ph_context]. rewrite He. cbn [xbind functional_v2 f2_parse_scalars].
    rewrite scalar_through_v2 by done. by rewrite Ho'.
Qed.
End Boundary.

(** ** The plugin's own answers *)

Section Answers.
Context {A : Type} (append_record : Service -> Z -> list PjNamedFieldValue -> PjError + unit) (author : ParserAuthor A).

(** The three ways to ask agree: a route is claimed for exactly the registered names; it has the object flag for exactly the
    handlers that make objects, and then the type that [classifySchema] answers; once the name is bound, the functional
    extensions are there for exactly these names. *)
Theorem routes_agree (p : ParserPlugin A) name schema out :
  unreadable schema = false ->
  exists c, trampoline_classify_routes true p (bytes_view name) schema true out = ((true, out), Some c) /\
  (rc_status c = ROUTE_STATUS_CLAIMED <-> is_Some (findSchemaHandler name p)) /\
  (Z.testbit (rc_route_flags c) 0 = true <-> exists h, findSchemaHandler name p = Some h /\ is_Some (sh_parse_scalars h)) /\
  (Z.testbit (rc_route_flags c) 1 = true <-> exists h, findSchemaHandler name p = Some h /\ is_Some (sh_parse_object h)) /\
  (Z.testbit (rc_route_flags c) 1 = true -> rc_object_type c = classifySchema name p) /\
  (name <> [] -> functional_route_available (p <| bound_type_name_ := name |>) = true <-> rc_status c = ROUTE_STATUS_CLAIMED).
Proof.
  intros Hs. unfold trampoline_classify_routes. rewrite Hs, view_bytes_view. cbn [negb unreadable bytes_view bv_data orb].
  eexists. split; [reflexivity|]. unfold functional_route_available, classifySchema.
  assert (findSchemaHandler name (p <| bound_type_name_ := name |>) = findSchemaHandler name p) as Hf by done.
  change (bound_type_name_ (p <| bound_type_name_ := name |>)) with name. rewrite Hf.
  destruct (findSchemaHandler name p) as [[type [f|] [g|]]|]; cbn [rc_status rc_route_flags rc_object_type sh_parse_scalars sh_parse_object sh_object_type];
    (split_and!; [..|intros Hn; rewrite bool_decide_eq_false_2 by done]); vm_compute; naive_solver.
Qed.

(** The claim that the host's catalog makes of the classification: none without a handler, else one for the handler's routes
    and its type of object. *)
Theorem classification_claimed (p : ParserPlugin A) provider provenance encodings encoding name schema digests out c :
  trampoline_classify_routes true p (bytes_view name) schema true out = ((true, out), Some c) -> In encoding encodings ->
  exact_claim provider provenance encodings (mkExact encoding name c digests)
  = match findSchemaHandler name p with
    | None => Ok None
    | Some h =>
      if bytes_eqb name (str "*") then Err "parser route classification extension cannot report wildcard claims"
      else
        let? type := normalizeParserTypeName encoding name in
        let? validated := normalizeAndValidateClaim
          (mkClaim encoding type (rc_route_flags c)
             (match sh_parse_object h with Some _ => Some (sh_object_type h) | None => None end) digests provider
             (str "handler:" ++ encoding ++ str ":" ++ type) 0 provenance) in
        Ok (Some validated)
    end.
Proof.
  intros Hc He. unfold trampoline_classify_routes in Hc. rewrite view_bytes_view in Hc. cbn [negb unreadable bytes_view bv_data orb] in Hc.
  destruct (unreadable schema); [done|]. unfold exact_claim. cbn [classification ex_encoding ex_type_name ex_schema_digests].
  assert (existsb (fun e => bytes_eqb e encoding) encodings = true) as ->.
  { apply existsb_exists. exists encoding. split; [done|]. by apply bytes_eqb_eq. }
  cbn [negb]. injection Hc as <-. destruct (findSchemaHandler name p) as [[type f g]|]; [|done].
  cbn [sh_parse_scalars sh_parse_object sh_object_type rc_match rc_status rc_route_flags rc_object_type].
  change (ROUTE_MATCH_EXACT =? ROUTE_MATCH_EXACT) with true. change (ROUTE_STATUS_CLAIMED =? ROUTE_STATUS_DECLINED) with false.
  change (ROUTE_STATUS_CLAIMED =? ROUTE_STATUS_CLAIMED) with true. cbn [negb]. destruct (bytes_eqb name (str "*")); [done|].
  by destruct f, g.
Qed.

(** The default [parse] appends one record to a bound write host, with the record's own timestamp if it has one, and nothing
    when the author's function fails or gives no fields. *)
Theorem default_parse_appends (p : ParserPlugin A) ts payload :
  let '(p', status) := base_parse append_record p ts payload in
  (writeHostBound p = true /\ (exists q r f fs, parseScalars ts payload p = (q, inl (Ok r)) /\ sr_fields r = f :: fs /\
     appended p' = appended p ++ [(default ts (sr_ts r), toAbiNamed (f :: fs))]) \/
   appended p' = appended p /\
   (status = inl (Ok tt) -> writeHostBound p = true /\ exists q r, parseScalars ts payload p = (q, inl (Ok r)) /\ sr_fields r = [])).
Proof.
  unfold base_parse. destruct (writeHostBound p) eqn:Hw; cbn [negb]; [|by right].
  assert (appended (parseScalars ts payload p).1 = appended p /\ write_host_view_ (parseScalars ts payload p).1 = write_host_view_ p) as [Ha Hv].
  { unfold parseScalars. destruct (findSchemaHandler _ p) as [h|]; [|done]. destruct (sh_parse_scalars h) as [f|]; [|done]. by destruct (f _ _ _). }
  destruct (parseScalars ts payload p) as [q [[r|e]|what]] eqn:E; cbn [fst] in *; [|by right..].
  destruct (sr_fields r) as [|f fs] eqn:Ef.
  - right. split; [done|]. intros _. split; [done|]. by exists q, r.
  - unfold appendRecord. unfold writeHostBound in Hw. rewrite Hv. destruct (write_host_view_ p) as [svc|]; [|done]. rewrite Hw. cbn [negb].
    left. split; [done|]. exists q, r, f, fs. split; [done|]. split; [done|]. rewrite <-Ha. done.
Qed.

(** A second [bind] without the object service keeps the view of the first. *)
Lemma rebind_keeps_object_host (p : ParserPlugin A) services p' :
  base_bind p services = (p', Ok tt) -> get_service_opt services (str "pj.parser_object_write.v1") 1 = None ->
  object_write_host_view_ p' = object_write_host_view_ p /\
  parser_runtime_host_view_ p' = get_service_opt services (str "pj.parser_runtime.v1") 1.
Proof. unfold base_bind. destruct (require_service _ _ _); [|done]. intros [= <-] ->. done. Qed.
End Answers.

(** A handler without routes is allowed, and its claim refused: the plugin's claims are not made. *)
Example routeless_handler_refused :
  let p : ParserPlugin Z := registerSchemaHandler (str "pkg/Legacy") (mkSchemaHandler 0 None None) (mkPlugin 0 [] ∅ None None None None [] []) in
  exists c, trampoline_classify_routes true p (bytes_view (str "pkg/Legacy")) (bytes_view []) true None = ((true, None), Some c) /\
  synthesizeParserPluginClaims (str "plugin") [str "ros2msg"] [mkExact (str "ros2msg") (str "pkg/Legacy") c []] kFolderDrop
  = Err "parser claim route_flags must contain only scalar and/or object".
Proof. cbv zeta. eexists. split; [by vm_compute|]. by vm_compute. Qed.

(** Each instance is destroyed once: what a move or an assignment leaves behind is destroyed with the handle that has it. *)
Lemma parser_moves_keep_instances {W} (h other : MessageParserHandle W) :
  (let '(h', other') := parser_handle_move other in
   parser_handle_destroy h' = parser_handle_destroy other /\ parser_handle_destroy other' = None) /\
  (let '(h', other') := parser_handle_assign h other in
   parser_handle_destroy h' = parser_handle_destroy other /\ parser_handle_destroy other' = parser_handle_destroy h).
Proof. done. Qed.

(** A splice of two bytes of the payload into an image. *)
Definition sample_payload : ByteView := bytes_view [Byte.x01; Byte.x02; Byte.x03; Byte.x04].
Definition sample_call : ObjectCall := Spliced (mkCompleteCall true 5 1 (bytes_view [])) 7 1 2.
Definition sample_image : ObjectRecord := mkObjectRecord (Some 5) (OImage (image_default <| im_data := [Byte.x02; Byte.x03] |>)).

Example host_accepts_exactly_witness :
  let p : Parses unit ObjectCall := Emit true None sample_call (fun answer => Return (tt, answer)) in
  (parse_object_with accept_v2 p sample_payload (Some 1)).2 = Ok sample_image /\
  (parse_object_with accept_v2 (Emit true None sample_call (fun _ => p)) sample_payload (Some 1)).2 <> Ok sample_image.
Proof.
  cbv zeta. destruct (host_accepts_exactly (W:=unit) sample_payload (Some 1) sample_image ltac:(by_compute)) as [H _]. split.
  - apply H; [by vm_compute|repeat constructor; by_compute|]. split; [by vm_compute|]. exists sample_call. split; [by vm_compute|].
    split_and!; [by vm_compute|by vm_compute|]. exists (OImage image_default). split_and!; [|by vm_compute|done].
    split_and!; by vm_compute.
  - intros E. apply H in E; [|by vm_compute|repeat constructor; by_compute]. destruct E as [_ (c & Hc & _)]. by vm_compute in Hc.
Defined.

(** A plugin that counts its messages and logs their payload. *)
Definition sample_handler : SchemaHandler Z :=
  mkSchemaHandler 16
    (Some (fun count ts payload => (count + 1, inl (Ok (mkScalarRecord (Some (ts + 1)) [mkNamedField (str "n") (NumberValue kInt64 count)])))))
    (Some (fun count ts payload => (count + 1, inl (Ok (mkObjectRecord None (OLog (mkLog ts kFatal (view_bytes payload) []))))))).

Definition sample_plugin : ParserPlugin Z :=
  registerSchemaHandler (str "log") sample_handler (mkPlugin 0 [] ∅ None None None None [] []).

Definition default_author : ParserAuthor Z :=
  mkParserAuthor (fun p r => let '(p, r) := base_bind p r in (p, inl r))
    (fun p name schema => let '(p, r) := base_bindSchema p name schema in (p, inl r))
    (fun p => inl (base_saveConfig p)) (fun p config => let '(p, r) := base_loadConfig p config in (p, inl r))
    (fun p ts payload => base_parse (fun _ _ _ => inr tt) p ts payload) (fun p id => (p, inl NoExtension)).

Example author_reaches_host_witness :
  exists bound, parser_bind_schema (bytes_view (str "log")) (bytes_view []) (handle_on default_author None [] sample_plugin None)
    = Val (handle_on default_author None [] bound (Some 16), Ok tt) /\
  parseObjectFunctional 7 (bytes_view (str "hello")) true (handle_on default_author None [] bound (Some 16))
  = Val (handle_on default_author None [] (bound <| pl_author := 1 |>) (Some 16),
         Ok (mkObjectRecord None (OLog (mkLog 7 kFatal (str "hello") [])))) /\
  parseScalarsFunctional 7 (bytes_view []) (Some (fun ts fields seen => (seen ++ [(ts, fields)], inl (Ok tt)))) []
    (handle_on default_author None [] bound (Some 16))
  = Val (handle_on default_author None [] (bound <| pl_author := 1 |>) (Some 16),
         [(Some 8, toAbiNamed [mkNamedField (str "n") (NumberValue kInt64 0)])], Ok tt).
Proof.
  destruct (author_reaches_host default_author None [] sample_plugin (str "log") (bytes_view []) None sample_handler) as (bound & Hb & Ha & Ho & Hs);
    [done|apply lookup_insert_eq|].
  exists bound. split; [exact Hb|]. split.
  - apply (Ho _ 7 (bytes_view (str "hello")) true eq_refl eq_refl). split; [by_compute|]. eexists. split; [done|]. by vm_compute.
  - apply (Hs _ (fun ts fields seen => (seen ++ [(ts, fields)], inl (Ok tt))) [] _ 7 (bytes_view []) eq_refl eq_refl).
Defined.
