(* ===== verification/Decimal.v ===== *)
(** * Decimal: lemmas on decimal texts, and the limits read from the environment

    The limits are [src/pj_base/src/source/limits.cpp].  Before them, what the components that print and parse numbers share: [digits_value] and [pretty] of [Json.v]
    against each other, digit by digit, and texts of a fixed width. *)

From stdpp Require Import base list pretty.
From S2P Require Import Prelude Text Json.

Lemma pretty_go_snoc n s : str (pretty_N_go n s) = str (pretty_N_go n "") ++ str s.
Proof.
  revert s. induction (N.lt_wf_0 n) as [n _ IH]. intros s. destruct (decide (0 < n)%N) as [Hn|Hn].
  - rewrite !(pretty_N_go_step n) by done. rewrite IH by (by apply N.div_lt).
    rewrite (IH (n `div` 10)%N ltac:(by apply N.div_lt) (String _ "")). by rewrite <-app_assoc.
  - assert (n = 0%N) as -> by lia. by rewrite !pretty_N_go_0.
Qed.

Lemma digits_value_snoc t c acc :
  digits_value acc (t ++ [c]) =
  match digits_value acc t with
  | Some v => if isAsciiDigit c then Some (v * 10 + (b2z c - 48)) else None
  | None => None
  end.
Proof. revert acc. induction t as [|b t IH]; intros acc; cbn; [done|]. by destruct (isAsciiDigit b). Qed.

Lemma digit_text c : isAsciiDigit c = true -> str (String (pretty_N_char (Z.to_N (b2z c - 48))) "") = [c].
Proof. destruct c; by try discriminate. Qed.

(** A decimal without a leading zero is the print of its value. *)
Lemma decimal_printed t v :
  t <> [] -> starts_with [ch "0"] t = false -> digits_value 0 t = Some v ->
  0 < v /\ str (pretty_N_go (Z.to_N v) "") = t.
Proof.
  revert v. induction t as [|c t IH] using rev_ind; [done|]. intros v _ Hz Hv. rewrite digits_value_snoc in Hv.
  destruct (digits_value 0 t) as [u|] eqn:Eu; [|done]. destruct (isAsciiDigit c) eqn:Ec; [|done]. injection Hv as <-.
  pose proof (digit_text c Ec) as Hd. assert (48 <= b2z c <= 57) as Hc by (unfold isAsciiDigit in Ec; blia).
  destruct (decide (t = [])) as [->|Ht].
  - injection Eu as <-. cbn in Hz. rewrite Z.mul_0_l, Z.add_0_l. assert (b2z c <> 48) as H0.
    { intros E. clear -E Hz. destruct c; first [discriminate E|discriminate Hz]. }
    split; [lia|]. rewrite pretty_N_go_step, pretty_go_snoc by lia. rewrite N.div_small, pretty_N_go_0 by lia.
    rewrite N.mod_small by lia. exact Hd.
  - destruct (IH u Ht) as [Hu Hp]; [by destruct t|done|]. split; [lia|].
    rewrite pretty_N_go_step, pretty_go_snoc by lia.
    assert (Z.to_N (u * 10 + (b2z c - 48)) = (Z.to_N u * 10 + Z.to_N (b2z c - 48))%N) as -> by lia.
    assert (Z.to_N (b2z c - 48) < 10)%N as Hlt by lia.
    rewrite N.div_add_l, N.div_small, N.add_0_r, Hp by lia.
    rewrite (N.add_comm (_ * 10)), N.Div0.mod_add, N.mod_small by lia. by rewrite Hd.
Qed.

Lemma pretty_go_step n : (0 < n)%N ->
  str (pretty_N_go n "") = str (pretty_N_go (n `div` 10) "") ++ [byte_of_ascii (pretty_N_char (n `mod` 10))].
Proof. intros H. by rewrite pretty_N_go_step, pretty_go_snoc. Qed.

Lemma pretty_go_short k n : (n < 10 ^ N.of_nat k)%N -> (length (str (pretty_N_go n "")) <= k)%nat.
Proof.
  revert n. induction k as [|k IH]; intros n Hn.
  - assert (n = 0)%N as -> by (cbn in Hn; lia). by rewrite pretty_N_go_0.
  - destruct (decide (0 < n)%N) as [H|H]; [|assert (n = 0%N) as -> by lia; rewrite pretty_N_go_0; cbn; lia].
    rewrite pretty_go_step, length_app by done. cbn [length].
    assert (length (str (pretty_N_go (n `div` 10) "")) <= k)%nat; [|lia]. apply IH.
    apply N.Div0.div_lt_upper_bound. by rewrite <-N.pow_succ_r', <-Nat2N.inj_succ.
Qed.

Lemma pretty_go_nonzero n : (0 < n)%N -> starts_with [ch "0"] (str (pretty_N_go n "")) = false.
Proof.
  induction (N.lt_wf_0 n) as [n _ IH]. intros Hn. rewrite pretty_go_step by done.
  destruct (decide (0 < n `div` 10)%N) as [H|H].
  - specialize (IH (n `div` 10)%N ltac:(by apply N.div_lt) H).
    assert (str (pretty_N_go (n `div` 10) "") <> []) as Hne
      by (rewrite pretty_go_step by done; intros E%app_nil; naive_solver).
    by destruct (str (pretty_N_go (n `div` 10) "")).
  - apply N.nlt_ge, N.le_0_r in H. rewrite H, pretty_N_go_0. cbn [str app].
    assert (n < 10)%N as Hlt by (by apply N.div_small_iff in H). rewrite N.mod_small by done.
    destruct n as [|q]; [done|]. by do 4 (destruct q as [q|q|]; try done).
Qed.

(** ** Fixed width *)

(** As many digits and the same value: the same text. *)
Lemma digits_unique t1 t2 v :
  length t1 = length t2 -> digits_value 0 t1 = Some v -> digits_value 0 t2 = Some v -> t1 = t2.
Proof.
  revert t2 v. induction t1 as [|c t1 IH] using rev_ind; intros t2 v Hl H1 H2; [by destruct t2|].
  destruct t2 as [|d t2 _] using rev_ind; [rewrite length_app in Hl; cbn in Hl; lia|].
  rewrite !length_app in Hl. cbn in Hl. rewrite digits_value_snoc in H1, H2.
  destruct (digits_value 0 t1) as [u|] eqn:E1; [|done]. destruct (digits_value 0 t2) as [w|] eqn:E2; [|done].
  destruct (isAsciiDigit c) eqn:Ec; [|done]. destruct (isAsciiDigit d) eqn:Ed; [|done]. unfold isAsciiDigit in *.
  injection H1 as H1. injection H2 as H2. assert (b2z c = b2z d /\ u = w) as [->%b2z_inj ->] by blia.
  f_equal. eapply IH; [lia|done|exact E2].
Qed.

Lemma digits_zeros k t : digits_value 0 (repeat (ch "0") k ++ t) = digits_value 0 t.
Proof. induction k; [done|exact IHk]. Qed.

(** The [%0wd] of [printf] for a number that is not negative. *)
Definition pad (w : nat) (v : Z) : bytes :=
  let digits := str (pretty (Z.to_N v)) in repeat (ch "0") (w - length digits) ++ digits.

Lemma pad_value w v : 0 <= v -> digits_value 0 (pad w v) = Some v.
Proof. intros Hv. unfold pad. rewrite digits_zeros, digits_pretty, Z2N.id by done. done. Qed.

Lemma pad_length w v : (0 < w)%nat -> 0 <= v < 10 ^ Z.of_nat w -> length (pad w v) = w.
Proof.
  intros Hw Hv. unfold pad. rewrite length_app, repeat_length.
  assert (length (str (pretty (Z.to_N v))) <= w)%nat; [|lia]. unfold pretty, pretty_N. case_decide; [cbn; lia|].
  apply pretty_go_short. apply N2Z.inj_lt. rewrite Z2N.id, N2Z.inj_pow, nat_N_Z by lia. cbn. lia.
Qed.

Lemma digits_value_bound t acc v :
  digits_value acc t = Some v -> 0 <= acc -> acc * 10 ^ Z.of_nat (length t) <= v < (acc + 1) * 10 ^ Z.of_nat (length t).
Proof.
  revert acc. induction t as [|c t IH]; intros acc; cbn [digits_value length]; [intros [= <-]; cbn; lia|].
  destruct (isAsciiDigit c) eqn:Ec; [|done]. unfold isAsciiDigit in Ec. intros H Ha.
  apply IH in H; [|blia]. rewrite Nat2Z.inj_succ, Z.pow_succ_r by lia.
  assert (0 < 10 ^ Z.of_nat (length t)) by (apply Z.pow_pos_nonneg; lia).
  assert (48 <= b2z c <= 57) by blia. nia.
Qed.

(** A text of digits is the number it shows, padded to its length. *)
Lemma digits_padded t v :
  t <> [] -> digits_value 0 t = Some v -> t = pad (length t) v /\ 0 <= v < 10 ^ Z.of_nat (length t).
Proof.
  intros Hne H. pose proof (digits_value_bound _ _ _ H ltac:(lia)) as Hb. split; [|lia].
  apply (digits_unique _ _ v); [|done|apply pad_value; lia]. symmetry. apply pad_length; [by destruct t; [|cbn; lia]|lia].
Qed.

(** ** Ceilings on what a source may transfer

    [src/pj_base/src/source/limits.cpp] and [limits.hpp]: a ceiling from the environment, and the tighter of two.
    The environment is a parameter. *)

(** [PJ::parseNumber<std::uint64_t>]: [std::from_chars] over the whole text. *)
Definition parse_u64 (text : bytes) : option Z :=
  if bool_decide (text = []) then None
  else match digits_value 0 text with Some v => if v >? UINT64_MAX then None else Some v | None => None end.

Definition envLimit (getEnv : bytes -> option bytes) (name : bytes) (fallback_value : Z) : Z :=
  match getEnv name with
  | None => fallback_value
  | Some raw =>
    if (20 <? length raw)%nat then fallback_value
    else match parse_u64 raw with Some v => v | None => fallback_value end
  end.

Definition minNonzero (first second : Z) : Z :=
  if first =? 0 then second else if (second =? 0) || (first <? second) then first else second.

(** A limit is the value of at most twenty digits in range, or the fallback. *)
Lemma envLimit_spec getEnv name fallback :
  envLimit getEnv name fallback = fallback \/
  exists raw, getEnv name = Some raw /\ (1 <= length raw <= 20)%nat /\ digits_value 0 raw = Some (envLimit getEnv name fallback) /\
    0 <= envLimit getEnv name fallback <= UINT64_MAX.
Proof.
  unfold envLimit. destruct (getEnv name) as [raw|]; [|by left]. destruct (20 <? length raw)%nat eqn:El; [by left|].
  unfold parse_u64. case_bool_decide as Ee; [by left|]. destruct (digits_value 0 raw) as [v|] eqn:Ev; [|by left].
  destruct (v >? UINT64_MAX) eqn:Er; [by left|]. right. exists raw. apply Nat.ltb_ge in El.
  pose proof (digits_value_bound _ _ _ Ev ltac:(lia)) as Hb. split_and!; [done|destruct raw; [done|cbn; lia]|lia|done|lia|blia].
Qed.

(** Zero means no ceiling: the result is the minimum of those that are ceilings. *)
Lemma minNonzero_spec a b x :
  0 <= a -> 0 <= b -> 0 < x ->
  (minNonzero a b = 0 \/ x <= minNonzero a b) <-> ((a = 0 \/ x <= a) /\ (b = 0 \/ x <= b)).
Proof.
  intros Ha Hb Hx. unfold minNonzero. destruct (a =? 0) eqn:Ea; [blia|]. destruct ((b =? 0) || (a <? b)) eqn:Eb; blia.
Qed.
