(* ===== verification/Origin.v ===== *)
(** * Origin: the origins of servers

    [src/pj_base/src/source/origin.cpp], with the helpers of
    [src/pj_base/include/pj_base/sdk/text_utils.hpp]: the origin of a URI under a policy, its
    canonical key, lists of origins and the bare [host:port] form.  Trust is keyed by origins, so
    what is not well-formed is refused.

    The C library's [tolower] and [isspace] are those of the "C" locale. *)

From stdpp Require Import base list gmap pretty.
From S2P Require Import Prelude Text Json Decimal.

(** ** Text helpers *)

(** [std::tolower] of a byte. *)
Definition lower (c : byte) : byte := if (65 <=? b2z c) && (b2z c <=? 90) then z2b (b2z c + 32) else c.

Definition lowerAscii (value : bytes) : bytes := map lower value.

(** [std::from_chars] of an unsigned 32-bit number over the whole text. *)
Definition parsePort (text : bytes) : option Z :=
  if bool_decide (text = []) then None
  else
    match digits_value 0 text with
    | Some value => if (value >? UINT32_MAX) || (value =? 0) || (value >? 65535) then None else Some value
    | None => None
    end.

(** [std::to_string] of a port. *)
Definition port_text (port : Z) : bytes := str (pretty (Z.to_N port)).

(** ** Origins *)

Definition host_byte (c : byte) : bool :=
  (97 <=? b2z c) && (b2z c <=? 122) || (48 <=? b2z c) && (b2z c <=? 57) || byte_eqb c (ch ".")
  || byte_eqb c (ch "-") || byte_eqb c (ch "_").

Definition validHostBytes (host : bytes) : bool :=
  if bool_decide (host = []) then false else forallb host_byte host.

Definition validateSchemelessOrigin (origin : bytes) : Expected unit :=
  match find_char (ch ":") origin with
  | None | Some O => Err "origin must be host:port"
  | Some colon =>
    if negb (validHostBytes (take colon origin)) then Err "origin host must be lowercase [a-z0-9._-]"
    else
      let port := drop (S colon) origin in
      if bool_decide (port = []) || (5 <? length port)%nat || starts_with [ch "0"] port ||
         negb (if parsePort port then true else false)
      then Err "origin port must be a 1..65535 decimal with no leading zero"
      else Ok tt
  end.

Record Origin : Set := mkOrigin { scheme : bytes; host : bytes; port : Z }.

#[export] Instance origin_eq_dec : EqDecision Origin.
Proof. solve_decision. Defined.

Record OriginPolicy : Set := mkOriginPolicy { allowed_schemes : list bytes; default_ports : gmap bytes Z }.

Definition contains_char (c : byte) (text : bytes) : bool := if find_char c text then true else false.

(** The host and port of an authority. *)
Definition parse_authority (scheme authority : bytes) (policy : OriginPolicy) : option Origin :=
  match rfind_char (ch ":") authority with
  | None =>
    match default_ports policy !! scheme with
    | None => None
    | Some default_port => Some (mkOrigin scheme (lowerAscii authority) default_port)
    end
  | Some colon =>
    match colon, parsePort (drop (S colon) authority) with
    | O, _ | _, None => None
    | _, Some port => Some (mkOrigin scheme (lowerAscii (take colon authority)) port)
    end
  end.

Definition parseOrigin (uri : bytes) (policy : OriginPolicy) : option Origin :=
  match find_sub (str "://") uri with
  | None | Some O => None
  | Some scheme_end =>
    let scheme := lowerAscii (take scheme_end uri) in
    if negb (existsb (bytes_eqb scheme) (allowed_schemes policy)) then None
    else if contains_char (ch "?") uri || contains_char (ch "#") uri then None
    else
      let rest := drop (scheme_end + 3) uri in
      let authority := match find_char (ch "/") rest with Some path_start => take path_start rest | None => rest end in
      if bool_decide (authority = []) then None
      else
        match parse_authority scheme authority policy with
        | Some origin => if validHostBytes (host origin) then Some origin else None
        | None => None
        end
  end.

Definition originKey (origin : Origin) : bytes :=
  scheme origin ++ str "://" ++ host origin ++ str ":" ++ port_text (port origin).

Definition sameOrigin (a b : bytes) (policy : OriginPolicy) : bool :=
  match parseOrigin a policy, parseOrigin b policy with
  | Some origin_a, Some origin_b => bool_decide (origin_a = origin_b)
  | _, _ => false
  end.

(** [text[end] == ',' || text[end] == ';' || std::isspace(text[end])] *)
Definition separates (c : byte) : bool :=
  byte_eqb c (ch ",") || byte_eqb c (ch ";") || (b2z c =? 32) || (9 <=? b2z c) && (b2z c <=? 13).

(** The inner loop of [parseOriginList]: the length of the entry at the start of the text. *)
Fixpoint entry_length (text : bytes) : nat :=
  match text with
  | c :: text' => if separates c then O else S (entry_length text')
  | [] => O
  end.

(** The outer loop, at a position that is in the text or at its end; each turn moves on. *)
Fixpoint origin_list (fuel : nat) (text : bytes) (policy : OriginPolicy) : list Origin :=
  match fuel with
  | O => []
  | S fuel' =>
    let e := entry_length text in
    let origins := match e with
                   | O => []
                   | _ => match parseOrigin (take e text) policy with Some o => [o] | None => [] end
                   end in
    origins ++ (if (e <? length text)%nat then origin_list fuel' (drop (S e) text) policy else [])
  end.

Definition parseOriginList (text : bytes) (policy : OriginPolicy) : list Origin :=
  origin_list (S (length text)) text policy.

Definition originAllowed (uri : bytes) (allowlist : list Origin) (policy : OriginPolicy) : bool :=
  match parseOrigin uri policy with
  | Some origin => existsb (fun o => bool_decide (origin = o)) allowlist
  | None => false
  end.

(** ** Texts that are lowered *)

Lemma lower_lower c : lower (lower c) = lower c.
Proof. by destruct c. Qed.

Lemma lower_host c : host_byte c = true -> lower c = c.
Proof. by destruct c. Qed.

(** The bytes that end the parts of a URI are no letters. *)
Definition fixed (p : byte) : Prop := forall c, lower c = p <-> c = p.

Lemma fixed_marks : Forall fixed (str ":/?#").
Proof. repeat constructor; intros H; try (by subst); by destruct c. Qed.

Lemma lowerAscii_twice t : lowerAscii (lowerAscii t) = lowerAscii t.
Proof. unfold lowerAscii. rewrite map_map. apply map_ext, lower_lower. Qed.

Lemma lowerAscii_host h : forallb host_byte h = true -> lowerAscii h = h.
Proof.
  intros H. rewrite forallb_forall in H. unfold lowerAscii. rewrite <-(map_id h) at 2. apply map_ext_in. intros c Hc.
  by apply lower_host, H.
Qed.

Lemma not_in_lowered p t : fixed p -> p ∉ lowerAscii t <-> p ∉ t.
Proof.
  intros Hp. unfold lowerAscii. rewrite !list_elem_of_In, in_map_iff. split; intros H Hin; apply H.
  - exists p. split; [by apply Hp|done].
  - destruct Hin as (c & Hc & Hin). by apply Hp in Hc as ->.
Qed.

Lemma starts_with_lower pat t : Forall fixed pat -> starts_with pat (lowerAscii t) = starts_with pat t.
Proof.
  intros H. revert t. induction H as [|p pat Hp _ IH]; intros [|c t]; [done..|]. cbn. rewrite IH. f_equal.
  apply bool_decide_ext. split; intros E; symmetry; symmetry in E; by apply Hp.
Qed.

Lemma find_sub_lower pat t : Forall fixed pat -> find_sub pat (lowerAscii t) = find_sub pat t.
Proof.
  intros H. induction t as [|c t IH]; cbn [lowerAscii map find_sub].
  - done.
  - fold (lowerAscii t). rewrite IH. change (lower c :: lowerAscii t) with (lowerAscii (c :: t)).
    by rewrite starts_with_lower.
Qed.

(** ** Searching *)

Lemma find_sub_found pat t i :
  find_sub pat t = Some i -> t = take i t ++ pat ++ drop (i + length pat) t /\ length (take i t) = i.
Proof.
  revert i. induction t as [|b t IH]; intros i; cbn [find_sub]; destruct (starts_with pat _) eqn:E.
  - intros [= <-]. apply starts_with_cut in E. by split.
  - done.
  - intros [= <-]. apply starts_with_cut in E. by split.
  - destruct (find_sub pat t) as [j|]; [|done]. intros [= <-]. destruct (IH j eq_refl) as [Ht Hl].
    cbn [take drop length app plus]. rewrite <-Ht, Hl. done.
Qed.

(** What follows the first occurrence does not move it. *)
Lemma find_sub_follow pat u x y :
  find_sub pat (u ++ pat ++ x) = Some (length u) -> find_sub pat (u ++ pat ++ y) = Some (length u).
Proof.
  induction u as [|b u IH].
  - intros _. pose proof (starts_with_self pat y). cbn [app]. destruct (pat ++ y); cbn [find_sub]; by rewrite H.
  - cbn [app find_sub length]. intros H.
    pose proof (starts_with_long pat (b :: u ++ pat) x y) as Hs. cbn [app] in Hs. rewrite <-!app_assoc in Hs.
    rewrite <-Hs by (cbn [length]; rewrite length_app; lia).
    destruct (starts_with pat _); [done|]. destruct (find_sub pat (u ++ pat ++ x)) as [j|]; [|done].
    injection H as ->. by rewrite IH.
Qed.

Lemma contains_char_false c t : contains_char c t = false <-> c ∉ t.
Proof. unfold contains_char. rewrite <-find_char_none. by destruct (find_char c t). Qed.

(** ** Ports *)

Lemma port_text_digits p : forallb isAsciiDigit (port_text p) = true /\ port_text p <> [].
Proof. apply pretty_digits_only. Qed.

Lemma not_digit c t : forallb isAsciiDigit t = true -> isAsciiDigit c = false -> c ∉ t.
Proof.
  intros H Hc Hin%list_elem_of_In. rewrite forallb_forall in H. apply H in Hin. congruence.
Qed.

Lemma not_host c t : forallb host_byte t = true -> host_byte c = false -> c ∉ t.
Proof.
  intros H Hc Hin%list_elem_of_In. rewrite forallb_forall in H. apply H in Hin. congruence.
Qed.

Lemma parsePort_range t p : parsePort t = Some p -> 1 <= p <= 65535.
Proof.
  unfold parsePort. case_bool_decide; [done|]. destruct (digits_value 0 t) as [v|] eqn:E; [|done].
  destruct ((v >? UINT32_MAX) || (v =? 0) || (v >? 65535)) eqn:Ev; [done|]. intros [= <-].
  assert (0 <= v); [|blia]. clear Ev H.
  assert (forall acc, 0 <= acc -> digits_value acc t = Some v -> 0 <= v) as Hg; [|by apply (Hg 0)].
  clear E. induction t as [|c t IH]; intros acc Ha; cbn [digits_value]; [intros [= <-]; done|].
  destruct (isAsciiDigit c) eqn:Ec; [|done]. apply IH. unfold isAsciiDigit in Ec. blia.
Qed.

Lemma parsePort_text p : 1 <= p <= 65535 -> parsePort (port_text p) = Some p.
Proof.
  intros Hp. unfold parsePort. destruct (port_text_digits p) as [_ Hne]. rewrite bool_decide_eq_false_2 by done.
  unfold port_text. rewrite digits_pretty, Z2N.id by lia.
  assert ((p >? UINT32_MAX) || (p =? 0) || (p >? 65535) = false) as -> by blia. done.
Qed.

Lemma parsePort_digits t p : parsePort t = Some p -> forallb isAsciiDigit t = true.
Proof.
  unfold parsePort. case_bool_decide; [done|]. destruct (digits_value 0 t) eqn:E; [|done]. intros _.
  by eapply digits_value_digits.
Qed.

(** ** What is accepted *)

(** The URIs with this origin: a scheme of the policy, a host, a port where the scheme implies
    none, and perhaps a path. *)
Definition has_origin (uri : bytes) (policy : OriginPolicy) (o : Origin) : Prop :=
  exists s h p path,
    uri = s ++ str "://" ++ h ++ p ++ path /\ find_sub (str "://") uri = Some (length s) /\ s <> [] /\
    scheme o = lowerAscii s /\ In (scheme o) (allowed_schemes policy) /\ ch "?" ∉ uri /\ ch "#" ∉ uri /\
    host o = lowerAscii h /\ validHostBytes (host o) = true /\ (path = [] \/ exists q, path = ch "/" :: q) /\
    ((p = [] /\ default_ports policy !! scheme o = Some (port o)) \/
     exists d, p = ch ":" :: d /\ parsePort d = Some (port o)).

Lemma in_existsb s l : existsb (bytes_eqb s) l = true <-> In s l.
Proof.
  rewrite existsb_exists. split.
  - by intros (x & Hx & ->%bytes_eqb_eq).
  - intros H. exists s. by rewrite bytes_eqb_refl.
Qed.

Lemma authority_cut rest :
  exists path,
    rest = match find_char (ch "/") rest with Some i => take i rest | None => rest end ++ path /\
    (path = [] \/ exists q, path = ch "/" :: q).
Proof.
  destruct (find_char_view (ch "/") rest) as [[-> _]|(l & tl & -> & -> & _ & Ht & _)].
  - exists []. rewrite app_nil_r. auto.
  - exists (ch "/" :: tl). rewrite take_app_first. eauto.
Qed.

Lemma authority_of h p path :
  ch "/" ∉ h ++ p -> (path = [] \/ exists q, path = ch "/" :: q) ->
  let rest := h ++ p ++ path in
  match find_char (ch "/") rest with Some i => take i rest | None => rest end = h ++ p.
Proof.
  intros Hn [->|[q ->]]; cbv zeta.
  - rewrite app_nil_r. by rewrite (proj2 (find_char_none _ _) Hn).
  - rewrite app_assoc, find_char_app by done. apply take_app_first.
Qed.

Lemma valid_host h : validHostBytes h = true <-> h <> [] /\ forallb host_byte h = true.
Proof. unfold validHostBytes. case_bool_decide; naive_solver. Qed.

Lemma lowered_host_free c h : fixed c -> host_byte c = false -> validHostBytes (lowerAscii h) = true -> c ∉ h.
Proof. intros Hf Hc [_ Hh]%valid_host. apply (not_in_lowered _ _ Hf). by apply not_host. Qed.

Lemma fixed_of c : c ∈ str ":/?#" -> fixed c.
Proof. intros H. pose proof fixed_marks as F. rewrite Forall_forall in F. by apply F. Qed.

Ltac mark := apply fixed_of; by_compute.

Lemma parseOrigin_sound uri policy o : parseOrigin uri policy = Some o -> has_origin uri policy o.
Proof.
  unfold parseOrigin. destruct (find_sub (str "://") uri) as [[|e]|] eqn:Ef; [done| |done].
  set (i := S e) in *. destruct (find_sub_found _ _ _ Ef) as [Hu Hi].
  destruct (existsb _ _) eqn:Ea; [|done]. apply in_existsb in Ea. cbn [negb].
  destruct (contains_char (ch "?") uri) eqn:Eq; [done|]. destruct (contains_char (ch "#") uri) eqn:Eh; [done|]. cbn [orb].
  apply contains_char_false in Eq, Eh. change (length (str "://")) with 3%nat in Hu.
  set (rest := drop (i + 3) uri) in *. destruct (authority_cut rest) as (path & Hr & Hpath).
  set (authority := match find_char (ch "/") rest with Some j => take j rest | None => rest end) in *.
  destruct (bool_decide (authority = [])) eqn:Eau; [done|]. unfold parse_authority.
  assert (take i uri <> []) as Hs by (intros E; by rewrite E in Hi).
  assert (forall h p o, authority = h ++ p -> validHostBytes (host o) = true -> host o = lowerAscii h ->
    scheme o = lowerAscii (take i uri) ->
    ((p = [] /\ default_ports policy !! scheme o = Some (port o)) \/ exists d, p = ch ":" :: d /\ parsePort d = Some (port o)) ->
    has_origin uri policy o) as Hform.
  { intros h p o' Hau Hv Hh Hsc Hp. exists (take i uri), h, p, path. rewrite Hi, Hsc. rewrite Hau, <-app_assoc in Hr.
    rewrite <-Hr. split_and!; try done. by rewrite <-Hsc. }
  destruct (rfind_char (ch ":") authority) as [colon|] eqn:Ec.
  - apply rfind_found in Ec as [Hau Hl]. destruct colon as [|c]; [done|]. set (j := S c) in *.
    destruct (parsePort (drop (S j) authority)) as [p|] eqn:Ep; [|done].
    destruct (validHostBytes _) eqn:Ev; [|done]. intros [= <-].
    apply (Hform (take j authority) (ch ":" :: drop (S j) authority)); try done. right. eauto.
  - destruct (default_ports policy !! _) as [p|] eqn:Ed; [|done].
    destruct (validHostBytes _) eqn:Ev; [|done]. intros [= <-].
    apply (Hform authority []); try done; [by rewrite app_nil_r|]. by left.
Qed.

Lemma parseOrigin_complete uri policy o : has_origin uri policy o -> parseOrigin uri policy = Some o.
Proof.
  intros (s & h & p & path & Hu & Hf & Hs & Hsc & Ha & Hq & Hh & Hho & Hv & Hpath & Hp).
  assert (ch ":" ∉ h) as Hcolon by (apply lowered_host_free; [mark|done|by rewrite <-Hho]).
  assert (ch "/" ∉ h) as Hslash by (apply lowered_host_free; [mark|done|by rewrite <-Hho]).
  assert (h <> []) as Hne by (intros ->; by rewrite Hho in Hv).
  assert (ch "/" ∉ h ++ p) as Hsl.
  { apply not_elem_of_app. split; [done|]. destruct Hp as [[-> _]|(d & -> & Hd%parsePort_digits)]; [apply not_elem_of_nil|].
    apply not_elem_of_cons. split; [done|]. by eapply not_digit. }
  unfold parseOrigin. rewrite Hf. destruct (length s) as [|n] eqn:El; [by destruct s|]. rewrite <-El.
  assert (take (length s) uri = s) as -> by (by rewrite Hu, take_app_length).
  rewrite <-Hsc, (proj2 (in_existsb _ _) Ha). cbn [negb].
  rewrite (proj2 (contains_char_false _ _) Hq), (proj2 (contains_char_false _ _) Hh). cbn [orb].
  assert (drop (length s + 3) uri = h ++ p ++ path) as ->.
  { rewrite Hu, app_assoc. apply drop_app_length'. rewrite length_app. done. }
  rewrite (authority_of h p path Hsl Hpath). rewrite bool_decide_eq_false_2 by (by destruct h).
  unfold parse_authority. destruct Hp as [[-> Hd]|(d & -> & Hd)].
  - rewrite app_nil_r. assert (rfind_char (ch ":") h = None) as ->.
    { destruct (rfind_char (ch ":") h) as [j|] eqn:E; [|done]. apply rfind_found in E as [E _].
      exfalso. apply Hcolon. rewrite E. set_solver. }
    rewrite Hd, <-Hho. destruct o as [so ho po]. cbn in *. by rewrite Hv.
  - assert (ch ":" ∉ d) as Hcd by (eapply not_digit; [by eapply parsePort_digits|done]).
    rewrite rfind_after by done. destruct (length h) as [|k] eqn:Eh; [by destruct h|]. rewrite <-Eh.
    rewrite drop_app_first, take_app_first, Hd, <-Hho. destruct o as [so ho po]. cbn in *. by rewrite Hv.
Qed.

(** ** Keys *)

(** Ports that a scheme implies are ports. *)
Definition ports_valid (policy : OriginPolicy) : Prop := map_Forall (fun _ p => 1 <= p <= 65535) (default_ports policy).

Lemma origin_port uri policy o : ports_valid policy -> parseOrigin uri policy = Some o -> 1 <= port o <= 65535.
Proof.
  intros Hp H%parseOrigin_sound. destruct H as (s & h & p & path & _ & _ & _ & _ & _ & _ & _ & _ & _ & _ & [[_ H]|(d & _ & H)]).
  - by apply (Hp (scheme o)).
  - by eapply parsePort_range.
Qed.

Lemma key_parses uri policy o :
  ports_valid policy -> parseOrigin uri policy = Some o -> parseOrigin (originKey o) policy = Some o.
Proof.
  intros Hports H. pose proof (origin_port _ _ _ Hports H) as Hport.
  apply parseOrigin_sound in H as (s & h & p & path & Hu & Hf & Hs & Hsc & Ha & Hq & Hh & Hho & Hv & _).
  destruct (proj1 (valid_host _) Hv) as [_ Hhost].
  assert (forall c, c = ch "?" \/ c = ch "#" -> c ∉ uri -> c ∉ originKey o) as Hfree.
  { intros c Hc Hn. assert (fixed c) as Hfix by (destruct Hc as [-> | ->]; mark).
    assert (isAsciiDigit c = false /\ host_byte c = false /\ c ∉ str "://" /\ c ∉ str ":") as (Hd & Hb & H1 & H2).
    { destruct Hc as [-> | ->]; (split; [done|]); (split; [done|]); split; by_compute. }
    unfold originKey. rewrite !not_elem_of_app. split_and!; try done.
    - rewrite Hsc. apply (not_in_lowered _ _ Hfix). rewrite Hu, not_elem_of_app in Hn. by destruct Hn.
    - by apply not_host.
    - apply not_digit; [apply port_text_digits|done]. }
  apply parseOrigin_complete. exists (scheme o), (host o), (str ":" ++ port_text (port o)), []. split_and!; try done.
  - unfold originKey. by rewrite app_nil_r.
  - unfold originKey. rewrite Hsc. apply (find_sub_follow _ _ (lowerAscii (h ++ p ++ path))).
    assert (length (lowerAscii s) = length s) as -> by apply length_map.
    rewrite <-Hf, <-(find_sub_lower (str "://") uri).
    + f_equal. rewrite Hu. unfold lowerAscii. by rewrite !map_app.
    + repeat constructor; mark.
  - rewrite Hsc. by destruct s.
  - by rewrite Hsc, lowerAscii_twice.
  - apply Hfree; [by left|done].
  - apply Hfree; [by right|done].
  - by rewrite lowerAscii_host.
  - by left.
  - right. exists (port_text (port o)). split; [done|]. by apply parsePort_text.
Qed.

(** ** Lists *)

(** The texts between the separators. *)
Fixpoint entries (text : bytes) : list bytes :=
  match text with
  | [] => [[]]
  | c :: text' =>
    if separates c then [] :: entries text'
    else match entries text' with e :: es => (c :: e) :: es | [] => [[c]] end
  end.

Lemma entries_cut t :
  entries t = take (entry_length t) t ::
              (if (entry_length t <? length t)%nat then entries (drop (S (entry_length t)) t) else []).
Proof.
  induction t as [|c t IH]; [done|]. cbn [entries entry_length]. destruct (separates c); [done|].
  rewrite IH. cbn [take length drop]. by destruct (entry_length t <? length t)%nat eqn:E; cbn [Nat.ltb Nat.leb] in *; rewrite E.
Qed.

Lemma origin_list_entries fuel t policy :
  (length t < fuel)%nat -> origin_list fuel t policy = omap (fun e => parseOrigin e policy) (entries t).
Proof.
  revert t. induction fuel as [|fuel IH]; intros t Hf; [lia|]. rewrite entries_cut. cbn [origin_list omap list_omap].
  assert (forall tl, (match entry_length t with
      | O => []
      | S _ => match parseOrigin (take (entry_length t) t) policy with Some o => [o] | None => [] end
      end) ++ tl = match parseOrigin (take (entry_length t) t) policy with Some o => o :: tl | None => tl end) as ->.
  { intros tl. destruct (entry_length t) eqn:E; [done|]. by destruct (parseOrigin _ _). }
  destruct (entry_length t <? length t)%nat eqn:E; [|done]. rewrite IH; [done|].
  apply Nat.ltb_lt in E. rewrite length_drop. lia.
Qed.

(** ** Ports without leading zeros *)

Lemma port_text_go p : 0 < p -> port_text p = str (pretty_N_go (Z.to_N p) "").
Proof. intros H. unfold port_text, pretty, pretty_N. case_decide; [lia|done]. Qed.

(** [validateSchemelessOrigin] accepts a valid host, a colon and the print of a port, and nothing else. *)
Lemma schemeless_grammar o :
  validateSchemelessOrigin o = Ok tt <->
  exists h p, o = h ++ ch ":" :: port_text p /\ validHostBytes h = true /\ 1 <= p <= 65535.
Proof.
  unfold validateSchemelessOrigin. split.
  - destruct (find_char_view (ch ":") o) as [[-> _]|(h & d & -> & -> & Hc & -> & ->)]; [done|].
    destruct h as [|b h]; [done|]. cbn [length]. destruct (validHostBytes _) eqn:Ev; [|done]. cbn [negb].
    destruct (bool_decide (d = [])) eqn:Ed; [done|]. destruct (5 <? length d)%nat; [done|].
    destruct (starts_with _ d) eqn:Ez; [done|]. destruct (parsePort d) as [p|] eqn:Ep; [|done]. intros _.
    exists (b :: h), p. pose proof (parsePort_range _ _ Ep) as Hr. split_and!; try done; [|lia..]. do 2 f_equal.
    rewrite port_text_go by lia. apply bool_decide_eq_false in Ed.
    unfold parsePort in Ep. rewrite bool_decide_eq_false_2 in Ep by done.
    destruct (digits_value 0 d) as [v|] eqn:Edv; [|done].
    destruct ((v >? UINT32_MAX) || (v =? 0) || (v >? 65535)); [done|]. injection Ep as <-.
    symmetry. by apply decimal_printed.
  - intros (h & p & -> & Hv & Hp). destruct (proj1 (valid_host _) Hv) as [Hne Hh].
    rewrite find_char_app by (by apply not_host). destruct (length h) as [|n] eqn:El; [by destruct h|]. rewrite <-El.
    rewrite take_app_first, drop_app_first, Hv, parsePort_text by done. cbn [negb].
    destruct (port_text_digits p) as [Hd Hn]. rewrite bool_decide_eq_false_2 by done.
    assert (5 <? length (port_text p) = false /\ starts_with [ch "0"] (port_text p) = false)%nat as [-> ->]; [|done].
    rewrite port_text_go by lia. split.
    + apply Nat.ltb_ge, pretty_go_short. cbn. lia.
    + apply pretty_go_nonzero. lia.
Qed.

(** * Properties *)

(** C28 For a policy whose default ports are ports, an origin is accepted exactly for the URIs of the strict form ([has_origin]); its key is a URI with
    that origin, so storing keys loses nothing: two accepted URIs are of one origin exactly when their keys are
    equal, and a URI that is not accepted is the same as none, itself included. *)
Theorem origin_key_faithful policy uri o :
  ports_valid policy ->
  (parseOrigin uri policy = Some o <-> has_origin uri policy o) /\
  (parseOrigin uri policy = Some o -> parseOrigin (originKey o) policy = Some o /\ 1 <= port o <= 65535) /\
  (forall a b, sameOrigin a b policy = true <->
     exists x y, parseOrigin a policy = Some x /\ parseOrigin b policy = Some y /\ originKey x = originKey y).
Proof.
  intros Hp. split_and!.
  - split; [apply parseOrigin_sound|apply parseOrigin_complete].
  - intros H. split; [by eapply key_parses|by eapply origin_port].
  - intros a b. unfold sameOrigin. split.
    + destruct (parseOrigin a policy) as [x|], (parseOrigin b policy) as [y|]; try done. intros ->%bool_decide_eq_true. eauto.
    + intros (x & y & Hx & Hy & Hk). rewrite Hx, Hy. apply bool_decide_eq_true.
      apply key_parses in Hx, Hy; [|done..]. rewrite Hk in Hx. congruence.
Qed.

(** An allowlist admits exactly the URIs of the origin of one of its entries: parsing the list, with its
    commas, semicolons and white space, drops nothing but the entries that are no origins, which match no URI. *)
Theorem allowlist_exact text policy uri :
  parseOriginList text policy = omap (fun e => parseOrigin e policy) (entries text) /\
  originAllowed uri (parseOriginList text policy) policy = existsb (fun e => sameOrigin uri e policy) (entries text).
Proof.
  assert (parseOriginList text policy = omap (fun e => parseOrigin e policy) (entries text)) as E
    by (apply origin_list_entries; lia).
  split; [exact E|]. rewrite E. clear E. unfold originAllowed, sameOrigin.
  destruct (parseOrigin uri policy) as [o|]; [|by induction (entries text)].
  induction (entries text) as [|e es IH]; [done|]. cbn [omap list_omap existsb].
  destruct (parseOrigin e policy) as [x|]; cbn [existsb]; by rewrite IH.
Qed.

(** ** Runs *)

Definition grpc_policy : OriginPolicy := mkOriginPolicy [str "grpc"; str "https"] {[ str "https" := 443 ]}.

Lemma grpc_ports : ports_valid grpc_policy.
Proof. apply map_Forall_singleton. lia. Qed.

Example origin_key_faithful_witness :
  parseOrigin (str "HTTPS://Data.Example/run/7") grpc_policy = Some (mkOrigin (str "https") (str "data.example") 443) /\
  parseOrigin (str "https://data.example:443") grpc_policy = Some (mkOrigin (str "https") (str "data.example") 443).
Proof.
  split; [vm_compute; reflexivity|].
  apply (origin_key_faithful grpc_policy (str "HTTPS://Data.Example/run/7") (mkOrigin (str "https") (str "data.example") 443) grpc_ports).
  vm_compute. reflexivity.
Defined.
