(* ===== verification/TimeFormat.v ===== *)
(** * TimeFormat: times as text

    [src/pj_base/src/time_format.cpp]: the formatters of UTC times and durations, and the parser of ISO 8601
    texts.  The calendar is that of [std::chrono]: the proleptic Gregorian one, whose dates and
    day numbers are related by [next_day_number] and [civil_days] below. *)

From stdpp Require Import base list pretty.
From S2P Require Import Prelude Text Json Decimal TimeMath.

(** ** The calendar of [std::chrono] *)

Record ymd : Set := mkYmd { year : Z; month : Z; day : Z }.

Definition is_leap (y : Z) : bool := (y mod 4 =? 0) && (negb (y mod 100 =? 0) || (y mod 400 =? 0)).

Definition month_days : list Z := [31; 28; 31; 30; 31; 30; 31; 31; 30; 31; 30; 31].

(** The days of the months of a year. *)
Definition months_of (y : Z) : list Z := if is_leap y then <[1%nat := 29]> month_days else month_days.

Definition last_day (y m : Z) : Z := nth (Z.to_nat (m - 1)) (months_of y) 0.

(** [year_month_day::ok], for years of at most four digits. *)
Definition ymd_ok (d : ymd) : bool :=
  (1 <=? month d) && (month d <=? 12) && (1 <=? day d) && (day d <=? last_day (year d) (month d)).

(** Days before the first of January of a year, from that of the year 1. *)
Definition days_before_year (y : Z) : Z :=
  let p := y - 1 in 365 * p + p / 4 - p / 100 + p / 400.

Definition zsum (l : list Z) : Z := foldr Z.add 0 l.

(** [sys_days{date}]: days since 1970-01-01. *)
Definition sys_days (d : ymd) : Z :=
  days_before_year (year d) + zsum (take (Z.to_nat (month d - 1)) (months_of (year d))) + (day d - 1) - 719162.

(** The month and day of a day of a year. *)
Fixpoint month_of (m doy : Z) (l : list Z) : Z * Z :=
  match l with
  | n :: l' => if doy <? n then (m, doy + 1) else month_of (m + 1) (doy - n) l'
  | [] => (m, doy + 1)
  end.

(** [year_month_day{days}] *)
Definition year_month_day (days : Z) : ymd :=
  let n := days + 719162 in
  let n400 := n / 146097 in let r := n mod 146097 in
  let c := Z.min (r / 36524) 3 in let r := r - 36524 * c in
  let q := r / 1461 in let r := r mod 1461 in
  let a := Z.min (r / 365) 3 in
  let y := 400 * n400 + 100 * c + 4 * q + a + 1 in
  let (m, d) := month_of 1 (r - 365 * a) (months_of y) in mkYmd y m d.

(** ** Formatting *)

Record UtcTime : Set := mkUtc { u_year : Z; u_month : Z; u_day : Z; hour : Z; minute : Z; second : Z }.

Definition utcFromNanoseconds (ts_ns : Z) : UtcTime :=
  let whole := ts_ns / 1000000000 in
  let midnight := whole / 86400 in
  let date := year_month_day midnight in
  let time := whole - midnight * 86400 in
  mkUtc (year date) (month date) (day date) (time / 3600) (time mod 3600 / 60) (time mod 60).

(** [%0wd] *)
Definition print_int (w : nat) (z : Z) : bytes := if z <? 0 then ch "-" :: pad (w - 1) (- z) else pad w z.

(** [snprintf] into a buffer of this size, which it ends with a NUL. *)
Definition snprintf (size : nat) (text : bytes) : bytes := take (size - 1) text.

Definition formatDate (utc : UtcTime) (separator : byte) (day_first : bool) : bytes :=
  if day_first
  then snprintf 32 (print_int 2 (u_day utc) ++ [separator] ++ print_int 2 (u_month utc) ++ [separator] ++ print_int 4 (u_year utc))
  else snprintf 32 (print_int 4 (u_year utc) ++ [separator] ++ print_int 2 (u_month utc) ++ [separator] ++ print_int 2 (u_day utc)).

Definition formatTime (utc : UtcTime) : bytes :=
  snprintf 16 (print_int 2 (hour utc) ++ str ":" ++ print_int 2 (minute utc) ++ str ":" ++ print_int 2 (second utc)).

Definition formatTimestamp (ts_ns : Z) (long_format : bool) : bytes :=
  let utc := utcFromNanoseconds ts_ns in
  if negb long_format then formatTime utc
  else snprintf 16 (print_int 2 (u_day utc) ++ str "/" ++ print_int 2 (u_month utc) ++ str " ") ++ formatTime utc.

Definition formatDuration (duration_ns : Z) : bytes :=
  let total_secs := Z.quot duration_ns 1000000000 in
  if total_secs <? 60 then int_text total_secs ++ str "s"
  else
    let days := Z.quot total_secs 86400 in
    let hours := Z.quot (Z.rem total_secs 86400) 3600 in
    let minutes := Z.quot (Z.rem total_secs 3600) 60 in
    let secs := Z.rem total_secs 60 in
    if days >? 0 then int_text days ++ str "d " ++ int_text hours ++ str "h " ++ int_text minutes ++ str "m"
    else if hours >? 0 then int_text hours ++ str "h " ++ int_text minutes ++ str "m"
    else int_text minutes ++ str "m " ++ int_text secs ++ str "s".

Definition needsLongFormat (span_ns : Z) : bool := span_ns >? 24 * 3600 * 1000000000.

Definition formatIso8601Utc (timestamp_ns : Z) : bytes :=
  let utc := utcFromNanoseconds timestamp_ns in formatDate utc (ch "-") false ++ str "T" ++ formatTime utc.

Definition formatDateTimeUtc (timestamp_ns : Z) : bytes :=
  let utc := utcFromNanoseconds timestamp_ns in formatDate utc (ch "/") true ++ str " " ++ formatTime utc ++ str " UTC".

Definition formatDateDDMMYYYY (timestamp_ns : Z) : bytes := formatDate (utcFromNanoseconds timestamp_ns) (ch "/") true.

Definition formatDateOnlyIso (timestamp_ns : Z) : bytes := formatDate (utcFromNanoseconds timestamp_ns) (ch "-") false.

(** ** Parsing *)

Definition parseFixedDigits (text : bytes) (offset count : nat) : option Z :=
  if (length text <? offset + count)%nat then None else digits_value 0 (take count (drop offset text)).

Definition char_is (text : bytes) (i : nat) (c : byte) : bool :=
  match text !! i with Some b => byte_eqb b c | None => false end.

(** The loop over the digits of a fraction, from the [n]-th one on. *)
Fixpoint fraction_loop (text : bytes) (n : nat) (fractional_ns : Z) : option (nat * Z * bytes) :=
  match text with
  | c :: text' =>
    if isAsciiDigit c then
      if (9 <=? n)%nat then None else fraction_loop text' (S n) (fractional_ns * 10 + (b2z c - 48))
    else Some (n, fractional_ns, text)
  | [] => Some (n, fractional_ns, [])
  end.

(** The fraction at the start of a text, and what follows. *)
Definition parse_fraction (text : bytes) : option (Z * bytes) :=
  match text with
  | c :: text' =>
    if byte_eqb c (ch ".") then
      match fraction_loop text' 0 0 with
      | Some (O, _, _) | None => None
      | Some (fraction_digits, ns, rest) => Some (ns * 10 ^ Z.of_nat (9 - fraction_digits), rest)
      end
    else Some (0, text)
  | [] => Some (0, [])
  end.

(** The zone suffix: its offset in seconds, and what follows. *)
Definition parse_zone (text : bytes) : option (Z * bytes) :=
  match text with
  | c :: text' =>
    if byte_eqb c (ch "Z") then Some (0, text')
    else if byte_eqb c (ch "+") || byte_eqb c (ch "-") then
      let sign := if byte_eqb c (ch "-") then -1 else 1 in
      match parseFixedDigits text' 0 2 with
      | None => None
      | Some offset_hours =>
        let text' := drop 2 text' in
        let minutes :=
          match text' with
          | [] => Some (0, [])
          | d :: text'' =>
            let text' := if byte_eqb d (ch ":") then text'' else text' in
            match parseFixedDigits text' 0 2 with Some m => Some (m, drop 2 text') | None => None end
          end in
        match minutes with
        | None => None
        | Some (offset_minutes, rest) =>
          if (offset_hours >? 23) || (offset_minutes >? 59) then None
          else Some (sign * (offset_hours * 3600 + offset_minutes * 60), rest)
        end
      end
    else Some (0, text)
  | [] => Some (0, [])
  end.

Definition parseIso8601Utc (text : bytes) : exec (option Z) :=
  if (length text <? 19)%nat then Val None
  else if negb (char_is text 4 (ch "-") && char_is text 7 (ch "-") && char_is text 10 (ch "T") &&
                char_is text 13 (ch ":") && char_is text 16 (ch ":")) then Val None
  else
    match parseFixedDigits text 0 4, parseFixedDigits text 5 2, parseFixedDigits text 8 2,
          parseFixedDigits text 11 2, parseFixedDigits text 14 2, parseFixedDigits text 17 2 with
    | Some year, Some month, Some day, Some hour, Some minute, Some second =>
      let date := mkYmd year month day in
      if negb (ymd_ok date) || (hour >? 23) || (minute >? 59) || (second >? 59) then Val None
      else
        match parse_fraction (drop 19 text) with
        | None => Val None
        | Some (fractional_ns, rest) =>
          match parse_zone rest with
          | Some (offset_seconds, []) =>
            let midnight_seconds := sys_days date * 86400 in
            combineSecondsAndNanos
              (midnight_seconds + hour * 3600 + minute * 60 + second - offset_seconds) fractional_ns
          | _ => Val None
          end
        end
    | _, _, _, _, _, _ => Val None
    end.

(** ** The calendar *)

Definition year_days (y : Z) : Z := zsum (months_of y).

Lemma year_days_cases y : year_days y = if is_leap y then 366 else 365.
Proof. unfold year_days, months_of. by destruct (is_leap y). Qed.

Lemma is_leap_spec y : is_leap y = true <-> y mod 4 = 0 /\ (y mod 100 <> 0 \/ y mod 400 = 0).
Proof. unfold is_leap. rewrite andb_true_iff, orb_true_iff, negb_true_iff, !Z.eqb_eq, Z.eqb_neq. done. Qed.

Lemma days_before_next y : days_before_year (y + 1) = days_before_year y + year_days y.
Proof.
  rewrite year_days_cases. unfold days_before_year. replace (y + 1 - 1) with y by lia.
  destruct (is_leap y) eqn:E.
  - apply is_leap_spec in E as [H4 H]. Z.to_euclidean_division_equations. lia.
  - assert (y mod 4 <> 0 \/ (y mod 100 = 0 /\ y mod 400 <> 0)) as H.
    { destruct (decide (y mod 4 = 0)) as [H4|]; [|by left]. right.
      destruct (decide (y mod 100 = 0)) as [H1|H1], (decide (y mod 400 = 0)) as [H2|H2]; try done;
        (assert (is_leap y = true) as Ht by (apply is_leap_spec; auto); congruence). }
    clear E. Z.to_euclidean_division_equations. lia.
Qed.

(** Splitting a day number into cycles of 400, 100, 4 and 1 years. *)
Lemma cycles n400 c q a :
  0 <= c <= 3 -> 0 <= q <= 24 -> 0 <= a <= 3 ->
  let y := 400 * n400 + 100 * c + 4 * q + a + 1 in
  days_before_year y = 146097 * n400 + 36524 * c + 1461 * q + 365 * a /\
  (a = 3 -> q <> 24 \/ c = 3 -> is_leap y = true).
Proof.
  intros Hc Hq Ha. cbv zeta. split.
  - unfold days_before_year.
    replace (400 * n400 + 100 * c + 4 * q + a + 1 - 1) with (400 * n400 + 100 * c + 4 * q + a) by lia.
    assert ((400 * n400 + 100 * c + 4 * q + a) / 4 = 100 * n400 + 25 * c + q) as -> by (symmetry; apply (Z.div_unique _ _ _ a); lia).
    assert ((400 * n400 + 100 * c + 4 * q + a) / 100 = 4 * n400 + c) as -> by (symmetry; apply (Z.div_unique _ _ _ (4 * q + a)); lia).
    assert ((400 * n400 + 100 * c + 4 * q + a) / 400 = n400) as -> by (symmetry; apply (Z.div_unique _ _ _ (100 * c + 4 * q + a)); lia).
    lia.
  - intros -> H. apply is_leap_spec.
    set (y := 400 * n400 + 100 * c + 4 * q + 3 + 1). split.
    + symmetry. apply (Z.mod_unique _ _ (100 * n400 + 25 * c + q + 1)); lia.
    + destruct H as [H| ->].
      * left. assert (y mod 100 = 4 * q + 4) as ->; [|lia]. symmetry. apply (Z.mod_unique _ _ (4 * n400 + c)); lia.
      * destruct (decide (q = 24)) as [->|Hq2].
        -- right. symmetry. apply (Z.mod_unique _ _ (n400 + 1)); lia.
        -- left. assert (y mod 100 = 4 * q + 4) as ->; [|lia]. symmetry. apply (Z.mod_unique _ _ (4 * n400 + 3)); lia.
Qed.

Lemma month_of_spec l : forall m doy, 0 <= doy < zsum l -> Forall (fun n => 0 <= n) l ->
  exists i d, month_of m doy l = (m + Z.of_nat i, d) /\ (i < length l)%nat /\ 1 <= d <= nth i l 0 /\
    zsum (take i l) + (d - 1) = doy.
Proof.
  induction l as [|n l IH]; intros m doy Hd Hl; [cbn in Hd; lia|]. apply Forall_cons in Hl as [Hn Hl].
  cbn [month_of zsum foldr] in *. destruct (doy <? n) eqn:E.
  - exists 0%nat, (doy + 1). cbn. split_and!; [f_equal; lia|lia|blia|blia|lia].
  - destruct (IH (m + 1) (doy - n)) as (i & d & -> & Hi & Hdd & Hs); [fold zsum in *; unfold zsum in *; blia|done|].
    exists (S i), d. cbn [length nth take zsum foldr]. fold (zsum (take i l)). split_and!; [f_equal; lia|lia|lia|lia|lia].
Qed.

Lemma months_length y : length (months_of y) = 12%nat.
Proof. unfold months_of. by destruct (is_leap y). Qed.

Lemma months_nonneg y : Forall (fun n => 0 <= n) (months_of y).
Proof. unfold months_of. destruct (is_leap y); repeat constructor; lia. Qed.

(** The date of a day number is valid and has that number. *)
Lemma year_month_day_spec n : ymd_ok (year_month_day n) = true /\ sys_days (year_month_day n) = n.
Proof.
  unfold year_month_day. set (k := n + 719162). pose proof (Z.div_mod k 146097 ltac:(lia)) as Hk.
  pose proof (Z.mod_pos_bound k 146097 ltac:(lia)) as Hr. set (n400 := k / 146097) in *. set (r := k mod 146097) in *.
  set (c := Z.min (r / 36524) 3). assert (0 <= c <= 3 /\ 0 <= r - 36524 * c /\ (r - 36524 * c < 36524 \/ c = 3 /\ r - 36524 * c <= 36524)) as (Hc & Hr1 & Hr1').
  { unfold c. Z.to_euclidean_division_equations. lia. }
  set (r1 := r - 36524 * c) in *. pose proof (Z.div_mod r1 1461 ltac:(lia)) as Hq. pose proof (Z.mod_pos_bound r1 1461 ltac:(lia)) as Hr2.
  set (q := r1 / 1461) in *. set (r2 := r1 mod 1461) in *. assert (0 <= q <= 24) as Hqb by lia.
  set (a := Z.min (r2 / 365) 3). assert (0 <= a <= 3 /\ 0 <= r2 - 365 * a /\ (r2 - 365 * a < 365 \/ a = 3 /\ r2 - 365 * a = 365)) as (Ha & Hd & Hd').
  { unfold a. Z.to_euclidean_division_equations. lia. }
  destruct (cycles n400 c q a Hc Hqb Ha) as [Hy Hleap]. set (y := 400 * n400 + 100 * c + 4 * q + a + 1) in *.
  assert (r2 - 365 * a < zsum (months_of y)) as Hlt.
  { change (zsum (months_of y)) with (year_days y). rewrite year_days_cases.
    destruct Hd' as [Hd'|[Ha3 Hd']]; [destruct (is_leap y); lia|]. rewrite Hleap; [lia|done|]. lia. }
  destruct (month_of_spec (months_of y) 1 (r2 - 365 * a) (conj Hd Hlt) (months_nonneg y)) as (i & d & -> & Hi & Hdd & Hs).
  rewrite months_length in Hi. unfold ymd_ok, sys_days, last_day. cbn [year month day].
  replace (Z.to_nat (1 + Z.of_nat i - 1)) with i by lia. split.
  - rewrite !andb_true_iff, !Z.leb_le. lia.
  - rewrite Hy. unfold k in Hk. lia.
Qed.

Lemma ymd_ok_spec d : ymd_ok d = true <-> 1 <= month d <= 12 /\ 1 <= day d <= last_day (year d) (month d).
Proof. unfold ymd_ok. rewrite !andb_true_iff, !Z.leb_le. lia. Qed.

(** The day after a date. *)
Definition next_day (d : ymd) : ymd :=
  if day d <? last_day (year d) (month d) then mkYmd (year d) (month d) (day d + 1)
  else if month d <? 12 then mkYmd (year d) (month d + 1) 1
  else mkYmd (year d + 1) 1 1.

Lemma zsum_take_S l i : zsum (take (S i) l) = zsum (take i l) + nth i l 0.
Proof.
  unfold zsum. revert i. induction l as [|n l IH]; intros i; [by destruct i|]. rewrite firstn_cons. cbn [foldr].
  destruct i as [|i]; [rewrite firstn_O; cbn; lia|]. rewrite IH, firstn_cons. cbn [foldr nth]. lia.
Qed.

Lemma next_day_number d : ymd_ok d = true -> ymd_ok (next_day d) = true /\ sys_days (next_day d) = sys_days d + 1.
Proof.
  rewrite !ymd_ok_spec. intros [Hm Hd]. unfold next_day. destruct (day d <? last_day (year d) (month d)) eqn:E1.
  - unfold sys_days. cbn [year month day]. split; [blia|lia].
  - destruct (month d <? 12) eqn:E2; unfold sys_days; cbn [year month day].
    + assert (0 < last_day (year d) (month d + 1)) as Hl.
      { unfold last_day. assert (Forall (fun n => 0 < n) (months_of (year d))) as Hf by
          (unfold months_of; destruct (is_leap (year d)); repeat constructor; lia).
        rewrite Forall_forall in Hf. apply Hf, list_elem_of_In, nth_In. rewrite months_length. lia. }
      split; [blia|]. replace (Z.to_nat (month d + 1 - 1)) with (S (Z.to_nat (month d - 1))) by lia.
      rewrite zsum_take_S. fold (last_day (year d) (month d)). blia.
    + assert (month d = 12) as Em by blia. split.
      { assert (last_day (year d + 1) 1 = 31) as -> by (unfold last_day, months_of; by destruct (is_leap _)). lia. }
      rewrite days_before_next. change (Z.to_nat (1 - 1)) with 0%nat. rewrite firstn_O. change (zsum []) with 0.
      unfold year_days. rewrite <-(take_ge (months_of (year d)) 12) at 1 by (rewrite months_length; lia).
      change 12%nat with (S 11). rewrite zsum_take_S, Em. change (Z.to_nat (12 - 1)) with 11%nat.
      assert (nth 11 (months_of (year d)) 0 = day d) as ->; [|lia]. rewrite Em in *. unfold last_day in *.
      change (Z.to_nat (12 - 1)) with 11%nat in *. blia.
Qed.

Lemma days_before_mono y1 y2 : y1 <= y2 -> days_before_year y1 <= days_before_year y2.
Proof. intros H. unfold days_before_year. Z.to_euclidean_division_equations. lia. Qed.

Lemma zsum_take_mono l i j :
  Forall (fun n => 0 <= n) l -> (i <= j)%nat -> zsum (take i l) <= zsum (take j l).
Proof.
  intros Hl Hij. induction Hij as [|j _ IH]; [lia|]. rewrite zsum_take_S.
  assert (0 <= nth j l 0); [|lia]. destruct (nth_in_or_default j l 0) as [Hn| ->]; [|lia].
  rewrite Forall_forall in Hl. apply Hl. by apply list_elem_of_In.
Qed.

(** The day of the year of a date. *)
Definition day_of_year (d : ymd) : Z := zsum (take (Z.to_nat (month d - 1)) (months_of (year d))) + (day d - 1).

Lemma day_of_year_range d : ymd_ok d = true -> 0 <= day_of_year d < year_days (year d).
Proof.
  rewrite ymd_ok_spec. intros [Hm Hd]. unfold day_of_year, year_days.
  pose proof (zsum_take_mono _ 0 (Z.to_nat (month d - 1)) (months_nonneg (year d)) ltac:(lia)) as H0.
  rewrite firstn_O in H0. change (zsum []) with 0 in H0. split; [lia|].
  rewrite <-(take_ge (months_of (year d)) 12) at 2 by (rewrite months_length; lia).
  pose proof (zsum_take_mono _ (S (Z.to_nat (month d - 1))) 12 (months_nonneg (year d)) ltac:(lia)) as H1.
  rewrite zsum_take_S in H1. fold (last_day (year d) (month d)) in H1. lia.
Qed.

Lemma sys_days_inj d1 d2 : ymd_ok d1 = true -> ymd_ok d2 = true -> sys_days d1 = sys_days d2 -> d1 = d2.
Proof.
  intros H1 H2 E. pose proof (day_of_year_range _ H1) as R1. pose proof (day_of_year_range _ H2) as R2.
  assert (days_before_year (year d1) + day_of_year d1 = days_before_year (year d2) + day_of_year d2) as Ed
    by (unfold sys_days, day_of_year in *; lia).
  assert (forall a b, days_before_year (year a) + day_of_year a = days_before_year (year b) + day_of_year b ->
    0 <= day_of_year a < year_days (year a) -> 0 <= day_of_year b -> year b <= year a) as Hy.
  { intros a b Hab Ra Rb. destruct (Z_le_gt_dec (year b) (year a)) as [|H]; [done|].
    pose proof (days_before_mono (year a + 1) (year b) ltac:(lia)) as Hm. rewrite days_before_next in Hm. lia. }
  assert (year d1 = year d2) as Ey by (pose proof (Hy d1 d2 Ed R1 ltac:(lia)); pose proof (Hy d2 d1 (eq_sym Ed) R2 ltac:(lia)); lia).
  rewrite Ey in Ed. clear Hy R1 R2 E. apply ymd_ok_spec in H1 as [Hm1 Hd1], H2 as [Hm2 Hd2].
  assert (forall a b, day_of_year a = day_of_year b -> year a = year b -> 1 <= month a -> month b <= 12 -> 1 <= day b ->
    day a <= last_day (year a) (month a) -> month b <= month a) as Hm.
  { intros a b Hab Hyab Ha Hb Hdb Hda. destruct (Z_le_gt_dec (month b) (month a)) as [|H]; [done|].
    pose proof (zsum_take_mono _ (S (Z.to_nat (month a - 1))) (Z.to_nat (month b - 1)) (months_nonneg (year a)) ltac:(lia)) as Hs.
    rewrite zsum_take_S in Hs. fold (last_day (year a) (month a)) in Hs. unfold day_of_year in Hab. rewrite <-Hyab in Hab. lia. }
  assert (month d1 = month d2) as Em.
  { pose proof (Hm d1 d2 ltac:(lia) Ey ltac:(lia) ltac:(lia) ltac:(lia) ltac:(lia)).
    pose proof (Hm d2 d1 ltac:(lia) (eq_sym Ey) ltac:(lia) ltac:(lia) ltac:(lia) ltac:(lia)). lia. }
  destruct d1 as [y1 m1 a1], d2 as [y2 m2 a2]. unfold day_of_year in Ed. cbn in *. subst y2 m2. f_equal. lia.
Qed.

(** Dates and day numbers are in bijection, day after day. *)
Lemma civil_days d : ymd_ok d = true -> year_month_day (sys_days d) = d.
Proof.
  intros H. destruct (year_month_day_spec (sys_days d)) as [Hok Hs]. by apply sys_days_inj.
Qed.

(** ** ISO 8601 texts *)

Inductive zone : Set :=
  | ZoneNone | ZoneUtc
  | ZoneOffset (negative : bool) (hours : Z) (minutes : option (bool * Z)).   (** with a colon or without *)

Record iso : Set := mkIso { i_date : ymd; i_hour : Z; i_minute : Z; i_second : Z; i_fraction : option bytes; i_zone : zone }.

Definition zone_text (z : zone) : bytes :=
  match z with
  | ZoneNone => []
  | ZoneUtc => str "Z"
  | ZoneOffset negative h m =>
    (if negative then ch "-" else ch "+") :: pad 2 h ++
    match m with Some (colon, m) => (if colon : bool then str ":" else []) ++ pad 2 m | None => [] end
  end.

Definition zone_ok (z : zone) : Prop :=
  match z with
  | ZoneOffset _ h m => 0 <= h <= 23 /\ match m with Some (_, m) => 0 <= m <= 59 | None => True end
  | _ => True
  end.

(** Seconds east of UTC. *)
Definition zone_offset (z : zone) : Z :=
  match z with
  | ZoneOffset negative h m =>
    (if negative then -1 else 1) * (h * 3600 + match m with Some (_, m) => m | None => 0 end * 60)
  | _ => 0
  end.

Definition fraction_text (f : option bytes) : bytes := match f with Some ds => ch "." :: ds | None => [] end.

Definition fraction_ok (f : option bytes) : Prop :=
  match f with Some ds => (1 <= length ds <= 9)%nat /\ forallb isAsciiDigit ds = true | None => True end.

Definition fraction_ns (f : option bytes) : Z :=
  match f with Some ds => default 0 (digits_value 0 ds) * 10 ^ Z.of_nat (9 - length ds) | None => 0 end.

Definition clock_text (h m s : Z) : bytes := pad 2 h ++ ch ":" :: pad 2 m ++ ch ":" :: pad 2 s.

Definition iso_text (w : iso) : bytes :=
  pad 4 (year (i_date w)) ++ ch "-" :: pad 2 (month (i_date w)) ++ ch "-" :: pad 2 (day (i_date w)) ++ ch "T" ::
  clock_text (i_hour w) (i_minute w) (i_second w) ++ fraction_text (i_fraction w) ++ zone_text (i_zone w).

Definition iso_ok (w : iso) : Prop :=
  0 <= year (i_date w) <= 9999 /\ ymd_ok (i_date w) = true /\ 0 <= i_hour w <= 23 /\ 0 <= i_minute w <= 59 /\
  0 <= i_second w <= 59 /\ fraction_ok (i_fraction w) /\ zone_ok (i_zone w).

(** The instant it names, in nanoseconds since 1970. *)
Definition instant (w : iso) : Z :=
  (sys_days (i_date w) * 86400 + i_hour w * 3600 + i_minute w * 60 + i_second w - zone_offset (i_zone w)) * 1000000000
  + fraction_ns (i_fraction w).

(** A text without a digit at its start. *)
Definition no_digit (t : bytes) : bool := match t with c :: _ => negb (isAsciiDigit c) | [] => true end.

Lemma fraction_loop_sound t : forall n acc n' v rest,
  (n <= 9)%nat -> fraction_loop t n acc = Some (n', v, rest) ->
  exists ds, t = ds ++ rest /\ digits_value acc ds = Some v /\ n' = (n + length ds)%nat /\ (n' <= 9)%nat.
Proof.
  induction t as [|c t IH]; intros n acc n' v rest Hn; cbn [fraction_loop].
  - intros [= <- <- <-]. exists []. split_and!; [done|done|cbn; lia|lia].
  - destruct (isAsciiDigit c) eqn:Ec.
    + destruct (9 <=? n)%nat eqn:E9; [done|]. apply Nat.leb_gt in E9. intros H. apply IH in H as (ds & -> & Hv & -> & Hl); [|lia].
      exists (c :: ds). cbn [digits_value length app]. rewrite Ec. split_and!; [done|done|lia|lia].
    + intros [= <- <- <-]. exists []. split_and!; [done|done|cbn; lia|lia].
Qed.

Lemma fraction_loop_complete ds : forall n acc v rest,
  (n + length ds <= 9)%nat -> digits_value acc ds = Some v -> no_digit rest = true ->
  fraction_loop (ds ++ rest) n acc = Some ((n + length ds)%nat, v, rest).
Proof.
  induction ds as [|c ds IH]; intros n acc v rest Hl; cbn [digits_value length app].
  - intros [= ->] Hr. rewrite Nat.add_0_r. destruct rest as [|c rest]; [done|]. cbn in Hr |- *.
    by destruct (isAsciiDigit c).
  - cbn [fraction_loop]. destruct (isAsciiDigit c); [|done]. cbn [length] in Hl. intros Hv Hr.
    assert (9 <=? n = false)%nat as -> by (apply Nat.leb_gt; lia). rewrite (IH (S n) _ v) by (done || lia). do 3 f_equal. lia.
Qed.

Lemma digits_value_some t acc : forallb isAsciiDigit t = true -> exists v, digits_value acc t = Some v.
Proof.
  revert acc. induction t as [|c t IH]; intros acc; cbn; [eauto|]. destruct (isAsciiDigit c); [|done]. apply IH.
Qed.

Lemma parse_fraction_sound t ns rest :
  parse_fraction t = Some (ns, rest) -> exists f, fraction_ok f /\ t = fraction_text f ++ rest /\ ns = fraction_ns f.
Proof.
  unfold parse_fraction. destruct t as [|c t]; [intros [= <- <-]; by exists None|].
  destruct (byte_eqb c (ch ".")) eqn:E; [|intros [= <- <-]; by exists None]. apply byte_eqb_eq in E as ->.
  destruct (fraction_loop t 0 0) as [[[[|n] v] r]|] eqn:Ef; [done| |done]. intros [= <- <-].
  apply fraction_loop_sound in Ef as (ds & -> & Hv & Hn & Hl); [|lia]. cbn [Nat.add] in Hn. exists (Some ds).
  cbn [fraction_ok fraction_text fraction_ns]. rewrite Hv, <-Hn. split_and!; [lia|lia|exact (digits_value_digits _ _ _ Hv)|done|done].
Qed.

Lemma parse_fraction_complete f rest :
  fraction_ok f -> no_digit rest = true -> (f = None -> char_is rest 0 (ch ".") = false) ->
  parse_fraction (fraction_text f ++ rest) = Some (fraction_ns f, rest).
Proof.
  destruct f as [ds|]; cbn [fraction_ok fraction_text fraction_ns app].
  - intros [Hl Hd] Hr _. cbn [parse_fraction]. rewrite byte_eqb_refl. destruct (digits_value_some ds 0 Hd) as [v Hv].
    rewrite (fraction_loop_complete ds 0 0 v) by (done || lia). rewrite Hv. cbn [Nat.add]. by destruct (length ds); [lia|].
  - intros _ _ Hr. specialize (Hr eq_refl). destruct rest as [|c rest]; [done|]. cbn in Hr |- *. by rewrite Hr.
Qed.

Lemma two_digits t v : length t = 2%nat -> digits_value 0 t = Some v -> t = pad 2 v /\ 0 <= v < 100.
Proof.
  intros Hl H. destruct (digits_padded t v) as [E Hb]; [by destruct t|done|]. rewrite Hl in E, Hb. done.
Qed.

Lemma fixed_two t v :
  parseFixedDigits t 0 2 = Some v -> t = pad 2 v ++ drop 2 t /\ 0 <= v < 100.
Proof.
  unfold parseFixedDigits. destruct (length t <? 0 + 2)%nat eqn:El; [done|]. apply Nat.ltb_ge in El. rewrite drop_0.
  intros H. destruct (two_digits (take 2 t) v) as [E Hv]; [rewrite length_take; lia|done|]. split; [|done].
  by rewrite <-E, take_drop.
Qed.

Lemma fixed_pad v rest : 0 <= v < 100 -> parseFixedDigits (pad 2 v ++ rest) 0 2 = Some v /\ drop 2 (pad 2 v ++ rest) = rest.
Proof.
  intros Hv. assert (length (pad 2 v) = 2%nat) as Hl by (apply pad_length; lia). unfold parseFixedDigits.
  rewrite length_app, Hl. assert (2 + length rest <? 0 + 2 = false)%nat as -> by (apply Nat.ltb_ge; lia).
  rewrite drop_0, (take_app_length' (pad 2 v)), (drop_app_length' (pad 2 v)) by done.
  split; [apply pad_value; lia|done].
Qed.

Lemma pad_head_digit w v : (0 < w)%nat -> 0 <= v < 10 ^ Z.of_nat w ->
  exists c t, pad w v = c :: t /\ isAsciiDigit c = true.
Proof.
  intros Hw Hv. pose proof (pad_length w v Hw Hv) as Hl. pose proof (digits_value_digits 0 (pad w v) v (pad_value w v ltac:(lia))) as Hd.
  destruct (pad w v) as [|c t]; [cbn in Hl; lia|]. cbn in Hd. apply andb_prop in Hd as [Hd _]. eauto.
Qed.

Lemma parse_zone_sound t off :
  parse_zone t = Some (off, []) -> exists z, zone_ok z /\ t = zone_text z /\ off = zone_offset z.
Proof.
  unfold parse_zone. destruct t as [|c t]; [intros [= <-]; by exists ZoneNone|].
  destruct (byte_eqb c (ch "Z")) eqn:Ez; [apply byte_eqb_eq in Ez as ->; intros [= <- ->]; by exists ZoneUtc|].
  destruct (byte_eqb c (ch "+") || byte_eqb c (ch "-")) eqn:Es; [|by intros [= _ ?]].
  destruct (parseFixedDigits t 0 2) as [h|] eqn:Eh; [|done]. apply fixed_two in Eh as [Ht Hh].
  assert (c = if byte_eqb c (ch "-") then ch "-" else ch "+") as Hc.
  { destruct (byte_eqb c (ch "-")) eqn:Em; [by apply byte_eqb_eq in Em|]. rewrite orb_false_r in Es. by apply byte_eqb_eq in Es. }
  set (neg := byte_eqb c (ch "-")) in *. destruct (drop 2 t) as [|d r].
  - destruct ((h >? 23) || (0 >? 59)) eqn:El; [done|]. intros [= <-]. exists (ZoneOffset neg h None).
    cbn [zone_ok zone_text zone_offset]. split; [split; [blia|done]|split; [|by destruct neg]].
    rewrite Hc at 1. rewrite Ht at 1. by destruct neg.
  - set (r' := if byte_eqb d (ch ":") then r else d :: r).
    destruct (parseFixedDigits r' 0 2) as [m|] eqn:Em; [|done]. apply fixed_two in Em as [Hr Hm].
    destruct ((h >? 23) || (m >? 59)) eqn:El; [done|]. intros [= <- E]. rewrite E, app_nil_r in Hr.
    exists (ZoneOffset neg h (Some (byte_eqb d (ch ":"), m))). cbn [zone_ok zone_text zone_offset].
    split; [split; blia|split; [|by destruct neg]]. rewrite Hc at 1. rewrite Ht at 1. do 2 f_equal.
    unfold r' in Hr. destruct (byte_eqb d (ch ":")) eqn:Ed; [apply byte_eqb_eq in Ed as ->|]; by rewrite Hr.
Qed.

Lemma parse_zone_complete z : zone_ok z -> parse_zone (zone_text z) = Some (zone_offset z, []).
Proof.
  destruct z as [| |neg h [[colon m]|]]; [done|done|..]; cbn [zone_ok]; intros [Hh Hm].
  - destruct (fixed_pad h ((if colon then str ":" else []) ++ pad 2 m) ltac:(lia)) as [E1 E2].
    destruct (pad_head_digit 2 m ltac:(lia) ltac:(lia)) as (c & t & Hp & Hc).
    assert (byte_eqb c (ch ":") = false) as Hcc by (apply byte_eqb_neq; intros ->; done).
    destruct (fixed_pad m [] ltac:(lia)) as [E3 E4]. rewrite app_nil_r in E3, E4.
    assert ((h >? 23) || (m >? 59) = false) as Hlim by blia.
    cbn [zone_text parse_zone zone_offset].
    assert (forall s, byte_eqb s (ch "Z") = false -> byte_eqb s (ch "+") || byte_eqb s (ch "-") = true ->
      parse_zone (s :: pad 2 h ++ (if colon then str ":" else []) ++ pad 2 m) =
      Some ((if byte_eqb s (ch "-") then -1 else 1) * (h * 3600 + m * 60), [])) as Hgo.
    { intros s Hs1 Hs2. unfold parse_zone. rewrite Hs1, Hs2, E1, E2. destruct colon.
      - change (str ":" ++ pad 2 m) with (ch ":" :: pad 2 m). cbv iota beta. rewrite byte_eqb_refl. by rewrite E3, E4, Hlim.
      - cbn [app]. rewrite Hp in *. rewrite Hcc. by rewrite E3, E4, Hlim. }
    by destruct neg; apply Hgo.
  - destruct (fixed_pad h [] ltac:(lia)) as [E1 E2].
    assert ((h >? 23) || (0 >? 59) = false) as Hlim by blia. cbn [zone_text zone_offset].
    unfold parse_zone. by destruct neg; cbn [byte_eqb]; rewrite E1, E2, Hlim.
Qed.

Lemma zone_text_head z : zone_ok z -> no_digit (zone_text z) = true /\ char_is (zone_text z) 0 (ch ".") = false.
Proof. by destruct z as [| |[|] h m]. Qed.

(** ** The whole text *)

Lemma parse_fixed a b c : parseFixedDigits (a ++ b ++ c) (length a) (length b) = digits_value 0 b.
Proof.
  unfold parseFixedDigits. rewrite !length_app.
  assert (length a + (length b + length c) <? length a + length b = false)%nat as -> by (apply Nat.ltb_ge; lia).
  by rewrite drop_app_length, take_app_length.
Qed.

(** The parser on a text of nineteen bytes and a rest. *)
Lemma parse_nineteen c0 c1 c2 c3 c4 c5 c6 c7 c8 c9 c10 c11 c12 c13 c14 c15 c16 c17 c18 rest :
  parseIso8601Utc (c0 :: c1 :: c2 :: c3 :: c4 :: c5 :: c6 :: c7 :: c8 :: c9 :: c10 :: c11 :: c12 :: c13 :: c14 ::
                   c15 :: c16 :: c17 :: c18 :: rest) =
  if negb (byte_eqb c4 (ch "-") && byte_eqb c7 (ch "-") && byte_eqb c10 (ch "T") && byte_eqb c13 (ch ":") && byte_eqb c16 (ch ":"))
  then Val None
  else
    match digits_value 0 [c0; c1; c2; c3], digits_value 0 [c5; c6], digits_value 0 [c8; c9], digits_value 0 [c11; c12],
          digits_value 0 [c14; c15], digits_value 0 [c17; c18] with
    | Some year, Some month, Some day, Some hour, Some minute, Some second =>
      let date := mkYmd year month day in
      if negb (ymd_ok date) || (hour >? 23) || (minute >? 59) || (second >? 59) then Val None
      else
        match parse_fraction rest with
        | None => Val None
        | Some (fractional_ns, rest) =>
          match parse_zone rest with
          | Some (offset_seconds, []) =>
            combineSecondsAndNanos (sys_days date * 86400 + hour * 3600 + minute * 60 + second - offset_seconds) fractional_ns
          | _ => Val None
          end
        end
    | _, _, _, _, _, _ => Val None
    end.
Proof.
  set (text := c0 :: _). unfold parseIso8601Utc.
  assert (length text <? 19 = false)%nat as -> by (apply Nat.ltb_ge; cbn; lia).
  change (char_is text 4 (ch "-")) with (byte_eqb c4 (ch "-")). change (char_is text 7 (ch "-")) with (byte_eqb c7 (ch "-")).
  change (char_is text 10 (ch "T")) with (byte_eqb c10 (ch "T")). change (char_is text 13 (ch ":")) with (byte_eqb c13 (ch ":")).
  change (char_is text 16 (ch ":")) with (byte_eqb c16 (ch ":")).
  assert (parseFixedDigits text 0 4 = digits_value 0 [c0; c1; c2; c3]) as -> by exact (parse_fixed [] [_; _; _; _] _).
  assert (parseFixedDigits text 5 2 = digits_value 0 [c5; c6]) as -> by exact (parse_fixed [_; _; _; _; _] [_; _] _).
  assert (parseFixedDigits text 8 2 = digits_value 0 [c8; c9]) as -> by exact (parse_fixed [_; _; _; _; _; _; _; _] [_; _] _).
  assert (parseFixedDigits text 11 2 = digits_value 0 [c11; c12]) as ->
    by exact (parse_fixed [_; _; _; _; _; _; _; _; _; _; _] [_; _] _).
  assert (parseFixedDigits text 14 2 = digits_value 0 [c14; c15]) as ->
    by exact (parse_fixed [_; _; _; _; _; _; _; _; _; _; _; _; _; _] [_; _] _).
  assert (parseFixedDigits text 17 2 = digits_value 0 [c17; c18]) as ->
    by exact (parse_fixed [_; _; _; _; _; _; _; _; _; _; _; _; _; _; _; _; _] [_; _] _).
  reflexivity.
Qed.

Lemma pad2_cut v : 0 <= v < 100 -> exists a b, pad 2 v = [a; b] /\ digits_value 0 [a; b] = Some v.
Proof.
  intros Hv. pose proof (pad_length 2 v ltac:(lia) ltac:(cbn; lia)) as Hl. pose proof (pad_value 2 v ltac:(lia)) as Hd.
  destruct (pad 2 v) as [|a [|b [|]]]; try done. eauto.
Qed.

Lemma pad4_cut v : 0 <= v < 10000 -> exists a b c d, pad 4 v = [a; b; c; d] /\ digits_value 0 [a; b; c; d] = Some v.
Proof.
  intros Hv. pose proof (pad_length 4 v ltac:(lia) ltac:(cbn; lia)) as Hl. pose proof (pad_value 4 v ltac:(lia)) as Hd.
  destruct (pad 4 v) as [|a [|b [|c [|d [|]]]]]; try done. eauto 10.
Qed.

Lemma sys_days_bound d : 0 <= year d <= 9999 -> ymd_ok d = true -> -719528 <= sys_days d < 2932897.
Proof.
  intros Hy Hok. pose proof (day_of_year_range d Hok) as Hd. pose proof (days_before_mono 0 (year d) ltac:(lia)) as H0.
  pose proof (days_before_mono (year d + 1) 10000 ltac:(lia)) as H1. rewrite days_before_next in H1.
  change (days_before_year 0) with (-366) in H0. change (days_before_year 10000) with 3652059 in H1.
  unfold sys_days. fold (day_of_year d) in *. unfold day_of_year in Hd. lia.
Qed.

Lemma fraction_range f : fraction_ok f -> 0 <= fraction_ns f < 1000000000.
Proof.
  destruct f as [ds|]; cbn; [|lia]. intros [Hl Hd]. destruct (digits_value_some ds 0 Hd) as [v Hv]. rewrite Hv. cbn [default].
  pose proof (digits_value_bound _ _ _ Hv ltac:(lia)) as Hb. rewrite Z.mul_0_l, Z.mul_1_l in Hb.
  assert (10 ^ Z.of_nat (length ds) * 10 ^ Z.of_nat (9 - length ds) = 1000000000) as E.
  { rewrite <-Z.pow_add_r by lia. replace (Z.of_nat (length ds) + Z.of_nat (9 - length ds)) with 9 by lia. done. }
  assert (0 < 10 ^ Z.of_nat (9 - length ds)) by (apply Z.pow_pos_nonneg; lia). unfold id. nia.
Qed.

Lemma zone_range z : zone_ok z -> -90000 < zone_offset z < 90000.
Proof. destruct z as [| |neg h [[c m]|]]; cbn; [lia|lia|..]; intros [Hh Hm]; destruct neg; lia. Qed.

Lemma parse_iso w : iso_ok w -> parseIso8601Utc (iso_text w) = Val (in_range_or_null (instant w)).
Proof.
  destruct w as [[y m d] hh mm ss f z]. intros (Hy & Hok & Hh & Hm & Hs & Hf & Hz).
  cbn [i_date i_hour i_minute i_second i_fraction i_zone year] in *. pose proof (proj1 (ymd_ok_spec _) Hok) as [Hmo Hda].
  cbn [year month day] in Hmo, Hda. assert (d <= 31) as Hd31.
  { assert (last_day y m <= 31); [|lia]. unfold last_day. destruct (nth_in_or_default (Z.to_nat (m - 1)) (months_of y) 0) as [Hn| ->]; [|lia].
    assert (Forall (fun n => n <= 31) (months_of y)) as F by (unfold months_of; destruct (is_leap y); repeat constructor; lia).
    rewrite Forall_forall in F. by apply F, list_elem_of_In. }
  unfold iso_text, clock_text. cbn [i_date i_hour i_minute i_second i_fraction i_zone year month day].
  destruct (pad4_cut y ltac:(lia)) as (y0 & y1 & y2 & y3 & -> & Ey). destruct (pad2_cut m ltac:(lia)) as (m0 & m1 & -> & Em).
  destruct (pad2_cut d ltac:(lia)) as (d0 & d1 & -> & Ed). destruct (pad2_cut hh ltac:(lia)) as (h0 & h1 & -> & Eh).
  destruct (pad2_cut mm ltac:(lia)) as (n0 & n1 & -> & En). destruct (pad2_cut ss ltac:(lia)) as (s0 & s1 & -> & Es).
  cbn [app]. rewrite parse_nineteen, !byte_eqb_refl, Ey, Em, Ed, Eh, En, Es. cbn [andb negb]. cbv zeta. rewrite Hok.
  assert ((hh >? 23) = false /\ (mm >? 59) = false /\ (ss >? 59) = false) as (-> & -> & ->) by (split_and!; blia). cbn [negb orb].
  destruct (zone_text_head z Hz) as [Hz1 Hz2]. rewrite parse_fraction_complete by done. rewrite parse_zone_complete by done.
  pose proof (sys_days_bound (mkYmd y m d) Hy Hok) as Hb. pose proof (fraction_range f Hf) as Hfr. pose proof (zone_range z Hz) as Hzr.
  rewrite combineSecondsAndNanos_spec by (rewrite in_s64_iff; lia).
  assert ((0 <=? fraction_ns f) && (fraction_ns f <? kNanosecondsPerSecond) = true) as -> by (unfold kNanosecondsPerSecond; blia).
  reflexivity.
Qed.

Lemma digits2_padded a b v : digits_value 0 [a; b] = Some v -> [a; b] = pad 2 v.
Proof. intros H. by destruct (two_digits [a; b] v eq_refl H). Qed.

Lemma digits4_padded a b c d v : digits_value 0 [a; b; c; d] = Some v -> [a; b; c; d] = pad 4 v /\ 0 <= v < 10000.
Proof. intros H. by destruct (digits_padded [a; b; c; d] v ltac:(done) H). Qed.

Lemma digits2_range a b v : digits_value 0 [a; b] = Some v -> 0 <= v < 100.
Proof. intros H. by destruct (two_digits [a; b] v eq_refl H). Qed.

(** A text is refused at once, or has the form. *)
Lemma parse_cases text :
  parseIso8601Utc text = Val None \/ exists w, iso_ok w /\ text = iso_text w.
Proof.
  destruct (length text <? 19)%nat eqn:El; [left; unfold parseIso8601Utc; by rewrite El|]. apply Nat.ltb_ge in El.
  do 19 (destruct text as [|? text]; [cbn in El; lia|]). rewrite parse_nineteen. clear El.
  destruct (_ && _) eqn:Esep; [|by left]. cbn [negb]. rewrite !andb_true_iff, !byte_eqb_eq in Esep.
  destruct Esep as [[[[-> ->] ->] ->] ->].
  destruct (digits_value 0 [_; _; _; _]) as [y|] eqn:Ey; [|by left]. destruct (digits_value 0 [b4; b5]) as [mo|] eqn:Emo; [|by left].
  destruct (digits_value 0 [b7; b8]) as [d|] eqn:Ed; [|by left]. destruct (digits_value 0 [b10; b11]) as [h|] eqn:Eh; [|by left].
  destruct (digits_value 0 [b13; b14]) as [mi|] eqn:Emi; [|by left]. destruct (digits_value 0 [b16; b17]) as [s|] eqn:Es; [|by left].
  cbv zeta. destruct (negb _ || _ || _ || _) eqn:Eok; [by left|].
  destruct (parse_fraction text) as [[ns rest]|] eqn:Ef; [|by left]. destruct (parse_zone rest) as [[off [|]]|] eqn:Ez; [|by left|by left].
  right. apply parse_fraction_sound in Ef as (f & Hf & -> & _). apply parse_zone_sound in Ez as (z & Hz & -> & _).
  exists (mkIso (mkYmd y mo d) h mi s f z).
  split.
  - assert (ymd_ok (mkYmd y mo d) = true /\ h <= 23 /\ mi <= 59 /\ s <= 59) as (Hok & Hh & Hm & Hs).
    { destruct (ymd_ok _); cbn [negb orb] in Eok; [split; [done|blia]|done]. }
    pose proof (digits2_range _ _ _ Eh). pose proof (digits2_range _ _ _ Emi). pose proof (digits2_range _ _ _ Es).
    destruct (digits4_padded _ _ _ _ _ Ey) as [_ Hy].
    unfold iso_ok. cbn [i_date i_hour i_minute i_second i_fraction i_zone year]. split_and!; done || lia.
  - unfold iso_text, clock_text. cbn [i_date i_hour i_minute i_second i_fraction i_zone year month day].
    destruct (digits4_padded _ _ _ _ _ Ey) as [<- _].
    by rewrite <-(digits2_padded _ _ _ Emo), <-(digits2_padded _ _ _ Ed), <-(digits2_padded _ _ _ Eh),
      <-(digits2_padded _ _ _ Emi), <-(digits2_padded _ _ _ Es).
Qed.

(** ** Formatting *)

Ltac text_length := repeat first [rewrite length_app | rewrite pad_length by (cbn; lia) | progress cbn]; lia.

Lemma formatTime_text utc :
  0 <= hour utc < 100 -> 0 <= minute utc < 100 -> 0 <= second utc < 100 ->
  formatTime utc = clock_text (hour utc) (minute utc) (second utc).
Proof.
  intros Hh Hm Hs. unfold formatTime, clock_text, print_int, snprintf.
  rewrite !(proj2 (Z.ltb_ge _ 0)) by lia. apply take_ge. text_length.
Qed.

Lemma formatDate_text utc :
  0 <= u_year utc < 10000 -> 0 <= u_month utc < 100 -> 0 <= u_day utc < 100 ->
  formatDate utc (ch "-") false = pad 4 (u_year utc) ++ ch "-" :: pad 2 (u_month utc) ++ ch "-" :: pad 2 (u_day utc).
Proof.
  intros Hy Hm Hd. unfold formatDate, print_int, snprintf.
  rewrite !(proj2 (Z.ltb_ge _ 0)) by lia. apply take_ge. text_length.
Qed.

Lemma last_day_31 y m : last_day y m <= 31.
Proof.
  unfold last_day. destruct (nth_in_or_default (Z.to_nat (m - 1)) (months_of y) 0) as [Hn| ->]; [|lia].
  assert (Forall (fun n => n <= 31) (months_of y)) as F by (unfold months_of; destruct (is_leap y); repeat constructor; lia).
  rewrite Forall_forall in F. by apply F, list_elem_of_In.
Qed.

Lemma year_range d : ymd_ok d = true -> -719528 <= sys_days d < 2932897 -> 0 <= year d <= 9999.
Proof.
  intros Hok Hb. pose proof (day_of_year_range d Hok) as Hd.
  assert (sys_days d = days_before_year (year d) + day_of_year d - 719162) as E by (unfold sys_days, day_of_year; lia).
  split.
  - destruct (Z_le_gt_dec 0 (year d)) as [|H]; [done|]. pose proof (days_before_mono (year d + 1) 0 ltac:(lia)) as Hm.
    rewrite days_before_next in Hm. change (days_before_year 0) with (-366) in Hm. lia.
  - destruct (Z_le_gt_dec (year d) 9999) as [|H]; [done|]. pose proof (days_before_mono 10000 (year d) ltac:(lia)) as Hm.
    change (days_before_year 10000) with 3652059 in Hm. lia.
Qed.

(** What is formatted: the second in which a time lies, without a fraction and a zone. *)
Definition second_of (d : ymd) (tod : Z) : iso :=
  mkIso d (tod / 3600) (tod mod 3600 / 60) (tod mod 60) None ZoneNone.

Lemma clock_split tod :
  0 <= tod < 86400 ->
  0 <= tod / 3600 <= 23 /\ 0 <= tod mod 3600 / 60 <= 59 /\ 0 <= tod mod 60 <= 59 /\
  tod / 3600 * 3600 + tod mod 3600 / 60 * 60 + tod mod 60 = tod.
Proof. intros H. Z.to_euclidean_division_equations. lia. Qed.

Lemma formatIso_second d tod ns :
  ymd_ok d = true -> 0 <= tod < 86400 -> 0 <= ns < 1000000000 -> 0 <= year d <= 9999 ->
  formatIso8601Utc ((sys_days d * 86400 + tod) * 1000000000 + ns) = iso_text (second_of d tod).
Proof.
  intros Hok Htod Hns Hy. unfold formatIso8601Utc, utcFromNanoseconds.
  assert (((sys_days d * 86400 + tod) * 1000000000 + ns) / 1000000000 = sys_days d * 86400 + tod) as ->
    by (symmetry; apply (Z.div_unique _ _ _ ns); lia).
  assert ((sys_days d * 86400 + tod) / 86400 = sys_days d) as -> by (symmetry; apply (Z.div_unique _ _ _ tod); lia).
  rewrite civil_days by done. replace (sys_days d * 86400 + tod - sys_days d * 86400) with tod by lia.
  destruct (clock_split tod Htod) as (Hh & Hm & Hs & _). pose proof (proj1 (ymd_ok_spec d) Hok) as [Hmo Hda].
  pose proof (last_day_31 (year d) (month d)).
  rewrite formatDate_text, formatTime_text by (cbn; lia). cbn [u_year u_month u_day hour minute second].
  unfold iso_text, second_of. cbn [i_date i_hour i_minute i_second i_fraction i_zone fraction_text zone_text].
  cbn [app]. rewrite app_nil_r, <-!app_assoc. cbn [app]. by rewrite <-app_assoc.
Qed.

Lemma second_of_ok d tod :
  ymd_ok d = true -> 0 <= tod < 86400 -> 0 <= year d <= 9999 ->
  iso_ok (second_of d tod) /\ instant (second_of d tod) = (sys_days d * 86400 + tod) * 1000000000.
Proof.
  intros Hok Htod Hy. destruct (clock_split tod Htod) as (Hh & Hm & Hs & E). split.
  - unfold iso_ok, second_of. by cbn [i_date i_hour i_minute i_second i_fraction i_zone fraction_ok zone_ok].
  - unfold instant, second_of. cbn [i_date i_hour i_minute i_second i_fraction i_zone fraction_ns zone_offset]. lia.
Qed.

Lemma parse_defined text : exists r, parseIso8601Utc text = Val r.
Proof. destruct (parse_cases text) as [->|(w & Hw & ->)]; [eauto|]. rewrite parse_iso by done. eauto. Qed.

Lemma val_eq {A} (a b : A) : Val a = Val b -> a = b.
Proof. by intros [= ->]. Qed.

Lemma in_range_or_null_some v t : in_range_or_null v = Some t <-> t = v /\ INT64_MIN <= t <= INT64_MAX.
Proof.
  unfold in_range_or_null. case_decide as Er; rewrite in_s64_iff in Er; split; [|intros [-> _]; done|done|].
  - intros [= <-]. done.
  - intros [-> H]. done.
Qed.

Lemma parse_accepts text t :
  parseIso8601Utc text = Val (Some t) <->
  exists w, iso_ok w /\ text = iso_text w /\ t = instant w /\ INT64_MIN <= t <= INT64_MAX.
Proof.
  split.
  - intros H. destruct (parse_cases text) as [E|(w & Hw & ->)]; [congruence|]. exists w. rewrite parse_iso in H by done.
    apply val_eq, in_range_or_null_some in H. done.
  - intros (w & Hw & -> & H). rewrite (parse_iso w Hw). f_equal. by apply in_range_or_null_some.
Qed.

(** * Properties *)

(** C29 The parser accepts exactly the ISO 8601 texts of a valid date and time of four-digit years, with a
    fraction of one to nine digits or none, and [Z], an offset in one of its three forms, or no zone; the value is the
    instant it names, in UTC, and it is none exactly when the instant is outside 64 bits.  No operation overflows. *)
Theorem iso8601_grammar text :
  (exists r, parseIso8601Utc text = Val r) /\
  (forall w, iso_ok w -> parseIso8601Utc (iso_text w) = Val (in_range_or_null (instant w))) /\
  (forall t, parseIso8601Utc text = Val (Some t) <->
     exists w, iso_ok w /\ text = iso_text w /\ t = instant w /\ INT64_MIN <= t <= INT64_MAX).
Proof.
  split; [exact (parse_defined text)|]. split; [exact parse_iso|exact (parse_accepts text)].
Qed.

(** Every 64-bit time is printed as its second, and the text parses to the start of that second, unless it
    is before the least 64-bit time; and what is parsed without an offset prints as the first nineteen characters of
    its text. *)
Theorem iso8601_roundtrip ts :
  in_s 64 ts ->
  parseIso8601Utc (formatIso8601Utc ts) = Val (in_range_or_null (ts / 1000000000 * 1000000000)) /\
  (forall w, iso_ok w -> zone_offset (i_zone w) = 0 -> formatIso8601Utc (instant w) = take 19 (iso_text w)).
Proof.
  rewrite in_s64_iff. intros Hts. split.
  - pose proof (Z.div_mod ts 1000000000 ltac:(lia)) as E1. pose proof (Z.mod_pos_bound ts 1000000000 ltac:(lia)) as B1.
    set (s := ts / 1000000000) in *. pose proof (Z.div_mod s 86400 ltac:(lia)) as E2. pose proof (Z.mod_pos_bound s 86400 ltac:(lia)) as B2.
    destruct (year_month_day_spec (s / 86400)) as [Hok Hs]. pose proof (year_range _ Hok ltac:(lia)) as Hy.
    rewrite E1 at 1. rewrite (Z.mul_comm 1000000000), E2 at 1. rewrite (Z.mul_comm 86400), <-Hs, formatIso_second by done.
    destruct (second_of_ok _ _ Hok B2 Hy) as [Hw Hi]. rewrite parse_iso by done. rewrite Hi, Hs. do 2 f_equal. lia.
  - intros w (Hy & Hok & Hh & Hm & Hs & Hf & Hz) Hoff. pose proof (fraction_range _ Hf) as Hfr. unfold instant. rewrite Hoff.
    set (tod := i_hour w * 3600 + i_minute w * 60 + i_second w).
    replace (sys_days (i_date w) * 86400 + i_hour w * 3600 + i_minute w * 60 + i_second w - 0) with (sys_days (i_date w) * 86400 + tod) by lia.
    rewrite formatIso_second by (done || lia).
    assert (tod / 3600 = i_hour w /\ tod mod 3600 / 60 = i_minute w /\ tod mod 60 = i_second w) as (E1 & E2 & E3)
      by (unfold tod; Z.to_euclidean_division_equations; lia).
    unfold iso_text at 1, second_of. cbn [i_date i_hour i_minute i_second i_fraction i_zone fraction_text zone_text].
    rewrite E1, E2, E3, app_nil_r. unfold iso_text. symmetry.
    pose proof (proj1 (ymd_ok_spec _) Hok) as [Hmo Hda]. pose proof (last_day_31 (year (i_date w)) (month (i_date w))).
    set (l := fraction_text _ ++ _). unfold clock_text.
    rewrite !(app_comm_cons), !app_assoc. apply take_app_length'.
    text_length.
Qed.

(** ** Runs *)

Example iso8601_grammar_witness :
  parseIso8601Utc (str "2024-02-29T12:30:05.25+05:30") = Val (Some 1709190005250000000).
Proof.
  assert (iso_ok (mkIso (mkYmd 2024 2 29) 12 30 5 (Some (str "25")) (ZoneOffset false 5 (Some (true, 30))))) as H
    by (unfold iso_ok; cbn; split_and!; lia || done).
  destruct (iso8601_grammar []) as (_ & Hp & _). exact (Hp _ H).
Defined.

Example iso8601_roundtrip_witness :
  parseIso8601Utc (formatIso8601Utc (-1)) = Val (Some (-1000000000)) /\
  parseIso8601Utc (formatIso8601Utc INT64_MIN) = Val None.
Proof.
  destruct (iso8601_roundtrip (-1)) as [H1 _]; [by_compute|]. destruct (iso8601_roundtrip INT64_MIN) as [H2 _]; [by_compute|].
  split; [rewrite H1|rewrite H2]; vm_compute; reflexivity.
Defined.
