(* ===== verification/Presentation.v ===== *)
(** * Presentation: how a source is shown

    [src/pj_base/src/source/presentation.cpp]: the settings group of a source, named by its identity in
    base64url, and the texts kept there, which are shown beside trust decisions: control and format code points
    are dropped, and the text is cut at 200 UTF-16 units.

    The settings are a service of the host: a class with a read and a write. *)

From stdpp Require Import base list.
From S2P Require Import Prelude Text.

Definition kMaxPresentationChars : Z := 200.
Definition kSettingsPrefix : bytes := str "source_presentation/v1/".
Definition kBase64UrlAlphabet : bytes := str "ABCDEFGHIJKLMNOPQRSTUVWXYZabcdefghijklmnopqrstuvwxyz0123456789-_".

(** [kBase64UrlAlphabet[(value >> shift) & 0x3f]] *)
Definition sextet (value shift : Z) : byte := nth (Z.to_nat (Z.land (Z.shiftr value shift) 63)) kBase64UrlAlphabet (z2b 0).

Fixpoint base64UrlUnpadded (data : bytes) : bytes :=
  match data with
  | b0 :: b1 :: b2 :: data' =>
    let value := Z.lor (Z.lor (Z.shiftl (b2z b0) 16) (Z.shiftl (b2z b1) 8)) (b2z b2) in
    sextet value 18 :: sextet value 12 :: sextet value 6 :: sextet value 0 :: base64UrlUnpadded data'
  | [b0] => let value := Z.shiftl (b2z b0) 16 in [sextet value 18; sextet value 12]
  | [b0; b1] =>
    let value := Z.lor (Z.shiftl (b2z b0) 16) (Z.shiftl (b2z b1) 8) in [sextet value 18; sextet value 12; sextet value 6]
  | [] => []
  end.

Definition isControlOrFormat (code_point : Z) : bool :=
  (code_point <? 32) || (code_point =? 127) || (128 <=? code_point) && (code_point <=? 159) || (code_point =? 1564) ||
  (8203 <=? code_point) && (code_point <=? 8207) || (8232 <=? code_point) && (code_point <=? 8238) ||
  (8288 <=? code_point) && (code_point <=? 8292) || (8294 <=? code_point) && (code_point <=? 8297) || (code_point =? 65279).

(** The bytes and UTF-16 units that a lead byte announces. *)
Definition announced (lead : Z) : nat * Z :=
  if (194 <=? lead) && (lead <=? 223) then (2%nat, 1)
  else if (224 <=? lead) && (lead <=? 239) then (3%nat, 1)
  else if (240 <=? lead) && (lead <=? 244) then (4%nat, 2)
  else (1%nat, 1).

Definition is_continuation (c : byte) : bool := Z.land (b2z c) 192 =? 128.

(** [bytes + width <= text.size()], and the loop over the continuations. *)
Definition is_complete (text : bytes) (width : nat) : bool :=
  (width <=? length text)%nat && forallb is_continuation (take (width - 1) (drop 1 text)).

(** The code point at the start of a text: its value, bytes and UTF-16 units. *)
Definition code_point_at (lead : byte) (text : bytes) : Z * nat * Z :=
  let '(width, units) := announced (b2z lead) in
  let complete := is_complete text width in
  let '(width, units) := if complete then (width, units) else (1%nat, 1) in
  let at_ i := b2z (nth i text (z2b 0)) in
  let code_point :=
    if complete && (width =? 2)%nat then Z.lor (Z.shiftl (Z.land (b2z lead) 31) 6) (Z.land (at_ 1%nat) 63)
    else if complete && (width =? 3)%nat
    then Z.lor (Z.lor (Z.shiftl (Z.land (b2z lead) 15) 12) (Z.shiftl (Z.land (at_ 1%nat) 63) 6)) (Z.land (at_ 2%nat) 63)
    else if complete && (width =? 4)%nat then 65536
    else b2z lead in
  (code_point, width, units).

(** The loop of [capPresentation], which takes a byte at least. *)
Fixpoint cap_loop (fuel : nat) (text : bytes) (utf16_units : Z) : bytes :=
  match fuel with
  | O => []
  | S fuel' =>
    match text with
    | [] => []
    | lead :: _ =>
      let '(code_point, width, units) := code_point_at lead text in
      if isControlOrFormat code_point then cap_loop fuel' (drop width text) utf16_units
      else if utf16_units + units >? kMaxPresentationChars then []
      else take width text ++ cap_loop fuel' (drop width text) (utf16_units + units)
    end
  end.

Definition capPresentation (text : bytes) : bytes := cap_loop (length text) text 0.

(** [SettingsView]: the text of a value, unless the read fails, and a write. *)
Class Settings (S : Type) : Type := {
  value : S -> bytes -> option bytes;
  setValue : S -> bytes -> bytes -> S
}.

Definition setIfChanged {S} `{Settings S} (settings : S) (key text : bytes) : S :=
  match value settings key with
  | Some current => if bytes_eqb current text then settings else setValue settings key text
  | None => setValue settings key text
  end.

Definition sourcePresentationSettingsGroup (identity : bytes) : bytes := kSettingsPrefix ++ base64UrlUnpadded identity.

Record SourcePresentation : Set := mkPresentation { display_name : bytes; fallback_name : bytes; origin : bytes }.

Definition recordSourcePresentation {S} `{Settings S} (settings_view : S) (identity : bytes) (presentation : SourcePresentation) : S :=
  if bool_decide (identity = []) then settings_view
  else
    let group := sourcePresentationSettingsGroup identity in
    let name := capPresentation (if bool_decide (display_name presentation = []) then fallback_name presentation
                                 else display_name presentation) in
    let settings_view := setIfChanged settings_view (group ++ str "/display_name") name in
    if bool_decide (origin presentation = []) then settings_view
    else setIfChanged settings_view (group ++ str "/origin") (capPresentation (origin presentation)).

(** ** UTF-8 *)

(** Unicode scalar values and their encoding. *)
Definition scalar_value (cp : Z) : Prop := 0 <= cp < 55296 \/ 57344 <= cp <= 1114111.

Definition utf8 (cp : Z) : bytes :=
  if cp <? 128 then [z2b cp]
  else if cp <? 2048 then [z2b (192 + cp / 64); z2b (128 + cp mod 64)]
  else if cp <? 65536 then [z2b (224 + cp / 4096); z2b (128 + cp / 64 mod 64); z2b (128 + cp mod 64)]
  else [z2b (240 + cp / 262144); z2b (128 + cp / 4096 mod 64); z2b (128 + cp / 64 mod 64); z2b (128 + cp mod 64)].

(** UTF-16 units of a code point. *)
Definition units (cp : Z) : Z := if cp <? 65536 then 1 else 2.

(** What may be shown of a text: the longest prefix, without controls, of at most [n] units. *)
Fixpoint shown (n : Z) (cps : list Z) : list Z :=
  match cps with
  | [] => []
  | cp :: cps' => if units cp >? n then [] else cp :: shown (n - units cp) cps'
  end.

Definition visible (cps : list Z) : list Z := List.filter (fun cp => negb (isControlOrFormat cp)) cps.

Lemma continuation_byte m : 0 <= m < 64 -> is_continuation (z2b (128 + m)) = true.
Proof.
  intros Hm. assert (128 <= b2z (z2b (128 + m)) < 192) as H by (rewrite b2z_z2b_small; lia).
  destruct (z2b (128 + m)); first [reflexivity|exfalso; cbn in H; lia].
Qed.

Lemma low_six m : 0 <= m < 64 -> Z.land (b2z (z2b (128 + m))) 63 = m.
Proof. intros Hm. rewrite b2z_z2b_small by lia. change 63 with (2 ^ 6 - 1). rewrite land_low by lia. Z.to_euclidean_division_equations. lia. Qed.

Lemma lor_add a b n : 0 <= n -> 0 <= b < 2 ^ n -> Z.lor (Z.shiftl a n) b = a * 2 ^ n + b.
Proof. intros Hn Hb. rewrite Z.lor_comm, lor_shiftl_add by done. lia. Qed.

Lemma utf8_length cp : scalar_value cp -> (1 <= length (utf8 cp))%nat.
Proof. intros _. unfold utf8. repeat case_match; cbn; lia. Qed.

(** The decoder on an encoded code point. *)
Lemma decode_utf8 cp rest :
  scalar_value cp -> exists lead tl, utf8 cp ++ rest = lead :: tl /\
  code_point_at lead (utf8 cp ++ rest) = (Z.min cp 65536, length (utf8 cp), units cp).
Proof.
  intros Hcp. unfold utf8, units. destruct (cp <? 128) eqn:E1; [|destruct (cp <? 2048) eqn:E2; [|destruct (cp <? 65536) eqn:E3]].
  - eexists _, _. split; [reflexivity|]. unfold code_point_at, announced. rewrite b2z_z2b_small by (unfold scalar_value in Hcp; blia).
    assert ((194 <=? cp) && (cp <=? 223) = false) as -> by blia. assert ((224 <=? cp) && (cp <=? 239) = false) as -> by blia.
    assert ((240 <=? cp) && (cp <=? 244) = false) as -> by blia. unfold is_complete. cbn [app length Nat.sub drop Nat.leb andb]. rewrite firstn_O. cbn [forallb andb Nat.eqb]. assert (cp <? 65536 = true) as -> by blia. do 2 f_equal. blia.
  - eexists _, _. split; [reflexivity|]. assert (2 <= cp / 64 < 32 /\ 0 <= cp mod 64 < 64) as [Hq Hr] by (Z.to_euclidean_division_equations; blia).
    unfold code_point_at, announced. rewrite b2z_z2b_small by lia.
    assert ((194 <=? 192 + cp / 64) && (192 + cp / 64 <=? 223) = true) as -> by blia.
    unfold is_complete. cbn [app length Nat.sub drop take forallb Nat.leb nth]. rewrite ?firstn_O. cbn [forallb]. rewrite continuation_byte by done. cbn [andb Nat.eqb].
    rewrite low_six by done. change 31 with (2 ^ 5 - 1). rewrite land_low by lia.
    assert ((192 + cp / 64) mod 2 ^ 5 = cp / 64) as -> by (Z.to_euclidean_division_equations; lia).
    rewrite lor_add by lia. assert (cp <? 65536 = true) as -> by blia. do 2 f_equal. Z.to_euclidean_division_equations; blia.
  - eexists _, _. split; [reflexivity|].
    assert (0 <= cp / 4096 < 16 /\ 0 <= cp / 64 mod 64 < 64 /\ 0 <= cp mod 64 < 64 /\ cp = cp / 4096 * 4096 + cp / 64 mod 64 * 64 + cp mod 64)
      as (Hq & Hm & Hr & Hsum) by (Z.to_euclidean_division_equations; blia).
    unfold code_point_at, announced. rewrite b2z_z2b_small by lia.
    assert ((194 <=? 224 + cp / 4096) && (224 + cp / 4096 <=? 223) = false) as -> by blia.
    assert ((224 <=? 224 + cp / 4096) && (224 + cp / 4096 <=? 239) = true) as -> by blia.
    unfold is_complete. cbn [app length Nat.sub drop take forallb Nat.leb nth]. rewrite ?firstn_O. cbn [forallb]. rewrite !continuation_byte by done. cbn [andb Nat.eqb].
    rewrite !low_six by done. change 15 with (2 ^ 4 - 1). rewrite land_low by lia.
    assert ((224 + cp / 4096) mod 2 ^ 4 = cp / 4096) as -> by (Z.to_euclidean_division_equations; lia).
    rewrite <-(Z.lor_assoc (Z.shiftl _ 12)), (lor_add _ _ 6), lor_add by lia. do 2 f_equal. blia.
  - eexists _, _. split; [reflexivity|].
    assert (0 <= cp / 262144 <= 4 /\ 0 <= cp / 4096 mod 64 < 64 /\ 0 <= cp / 64 mod 64 < 64 /\ 0 <= cp mod 64 < 64)
      as (Hq & Hn & Hm & Hr) by (unfold scalar_value in Hcp; Z.to_euclidean_division_equations; blia).
    unfold code_point_at, announced. rewrite b2z_z2b_small by lia.
    assert ((194 <=? 240 + cp / 262144) && (240 + cp / 262144 <=? 223) = false) as -> by blia.
    assert ((224 <=? 240 + cp / 262144) && (240 + cp / 262144 <=? 239) = false) as -> by blia.
    assert ((240 <=? 240 + cp / 262144) && (240 + cp / 262144 <=? 244) = true) as -> by blia.
    unfold is_complete. cbn [app length Nat.sub drop take forallb Nat.leb nth]. rewrite ?firstn_O. cbn [forallb]. rewrite !continuation_byte by done. cbn [andb Nat.eqb].
    do 2 f_equal. blia.
Qed.

Lemma control_capped cp : isControlOrFormat (Z.min cp 65536) = isControlOrFormat cp.
Proof.
  destruct (Z_le_gt_dec cp 65536); [by rewrite Z.min_l|]. rewrite Z.min_r by lia. symmetry.
  change (isControlOrFormat 65536) with false. unfold isControlOrFormat. blia.
Qed.

Lemma cap_loop_utf8 cps : forall fuel used,
  Forall scalar_value cps -> (length (flat_map utf8 cps) <= fuel)%nat ->
  cap_loop fuel (flat_map utf8 cps) used = flat_map utf8 (shown (kMaxPresentationChars - used) (visible cps)).
Proof.
  induction cps as [|cp cps IH]; intros fuel used Hs Hf; [by destruct fuel|].
  apply Forall_cons in Hs as [Hcp Hs]. cbn [flat_map] in *. rewrite length_app in Hf. pose proof (utf8_length cp Hcp) as Hl.
  destruct fuel as [|fuel]; [lia|]. destruct (decode_utf8 cp (flat_map utf8 cps) Hcp) as (lead & tl & E & Hd).
  cbn [cap_loop]. rewrite E in Hd |- *. rewrite Hd, <-E, drop_app_length, take_app_length, control_capped.
  cbn [visible List.filter]. destruct (isControlOrFormat cp) eqn:Ec; cbn [negb].
  - apply IH; [done|lia].
  - cbn [shown]. replace (units cp >? kMaxPresentationChars - used) with (used + units cp >? kMaxPresentationChars)
      by (apply eq_true_iff_eq; rewrite !Z.gtb_lt; lia).
    destruct (used + units cp >? kMaxPresentationChars); [done|]. cbn [flat_map]. f_equal.
    rewrite IH by (done || lia). do 2 f_equal. lia.
Qed.

(** ** base64url *)

Fixpoint index_in (c : byte) (l : bytes) : Z :=
  match l with [] => 0 | b :: l' => if byte_eqb b c then 0 else 1 + index_in c l' end.

Definition sextet_value (c : byte) : Z := index_in c kBase64UrlAlphabet.

Fixpoint base64_decode (text : bytes) : bytes :=
  match text with
  | a :: b :: c :: d :: text' =>
    let v := sextet_value a * 262144 + sextet_value b * 4096 + sextet_value c * 64 + sextet_value d in
    z2b (v / 65536) :: z2b (v / 256) :: z2b v :: base64_decode text'
  | [a; b] => [z2b ((sextet_value a * 262144 + sextet_value b * 4096) / 65536)]
  | [a; b; c] =>
    let v := sextet_value a * 262144 + sextet_value b * 4096 + sextet_value c * 64 in [z2b (v / 65536); z2b (v / 256)]
  | _ => []
  end.

Lemma alphabet_index i : (i < 64)%nat -> sextet_value (nth i kBase64UrlAlphabet (z2b 0)) = Z.of_nat i.
Proof. intros H. do 64 (destruct i as [|i]; [reflexivity|]). lia. Qed.

Lemma sextet_back v s : 0 <= s -> sextet_value (sextet v s) = v / 2 ^ s mod 64.
Proof.
  intros Hs. unfold sextet. change 63 with (2 ^ 6 - 1). rewrite land_low, Z.shiftr_div_pow2 by lia. change (2 ^ 6) with 64.
  pose proof (Z.mod_pos_bound (v / 2 ^ s) 64 ltac:(lia)) as H. rewrite alphabet_index by lia. lia.
Qed.

Lemma sextet_in v s : sextet v s ∈ kBase64UrlAlphabet.
Proof.
  unfold sextet. change 63 with (2 ^ 6 - 1). rewrite land_low by lia. change (2 ^ 6) with 64.
  apply list_elem_of_In, nth_In. pose proof (Z.mod_pos_bound (Z.shiftr v s) 64 ltac:(lia)). change (length kBase64UrlAlphabet) with 64%nat. lia.
Qed.

Lemma z2b_eq b z : z mod 256 = b2z b -> z2b z = b.
Proof. intros H. apply b2z_inj. by rewrite b2z_z2b. Qed.

Lemma list_three_ind {A} (P : list A -> Prop) :
  P [] -> (forall a, P [a]) -> (forall a b, P [a; b]) -> (forall a b c l, P l -> P (a :: b :: c :: l)) -> forall l, P l.
Proof.
  intros H0 H1 H2 H3 l. assert (P l /\ (forall a, P (a :: l)) /\ forall a b, P (a :: b :: l)) as [H _]; [|exact H].
  induction l as [|x l (IH0 & IH1 & IH2)]; [done|]. split_and!; [apply IH1|intros a; apply IH2|intros a b; by apply H3].
Qed.

Lemma base64_back data : base64_decode (base64UrlUnpadded data) = data.
Proof.
  induction data as [|a|a b|a b c data IH] using list_three_ind; [done|..]; cbn [base64UrlUnpadded base64_decode];
    rewrite !sextet_back by lia; change (2 ^ 0) with 1; change (2 ^ 6) with 64; change (2 ^ 12) with 4096; change (2 ^ 18) with 262144;
    pose proof (b2z_range a) as Ha; try pose proof (b2z_range b) as Hb; try pose proof (b2z_range c) as Hc.
  - rewrite Z.shiftl_mul_pow2 by lia. change (2 ^ 16) with 65536. f_equal. apply z2b_eq. Z.to_euclidean_division_equations. lia.
  - rewrite lor_add by (rewrite ?Z.shiftl_mul_pow2 by lia; lia). rewrite Z.shiftl_mul_pow2 by lia.
    change (2 ^ 16) with 65536. change (2 ^ 8) with 256.
    f_equal; [|f_equal]; apply z2b_eq; Z.to_euclidean_division_equations; lia.
  - rewrite <-Z.lor_assoc, (lor_add (b2z b) _ 8) by lia.
    rewrite lor_add by lia. change (2 ^ 16) with 65536. change (2 ^ 8) with 256.
    rewrite IH. f_equal; [|f_equal; [|f_equal]]; apply z2b_eq; Z.to_euclidean_division_equations; lia.
Qed.

Lemma base64_in data c : c ∈ base64UrlUnpadded data -> c ∈ kBase64UrlAlphabet.
Proof.
  induction data as [|a|a b|x a b data IH] using list_three_ind; cbn [base64UrlUnpadded]; rewrite ?elem_of_cons;
    [by intros ?%elem_of_nil|..]; intros H; repeat (destruct H as [->|H]; [apply sextet_in|]); try (by apply elem_of_nil in H). by apply IH.
Qed.

(** ** Groups *)

Lemma cut_unique (c : byte) (a b x y : bytes) : c ∉ a -> c ∉ b -> a ++ c :: x = b ++ c :: y -> a = b /\ x = y.
Proof.
  intros Ha Hb E. pose proof (find_char_app c a x Ha) as Fa. pose proof (find_char_app c b y Hb) as Fb.
  rewrite E in Fa. assert (length a = length b) as Hl by congruence. apply app_inj_1 in E as [-> E]; [|done]. by injection E.
Qed.

Lemma group_key_inj id1 id2 x y :
  sourcePresentationSettingsGroup id1 ++ ch "/" :: x = sourcePresentationSettingsGroup id2 ++ ch "/" :: y -> id1 = id2 /\ x = y.
Proof.
  unfold sourcePresentationSettingsGroup. rewrite <-!app_assoc. intros E%app_inv_head.
  assert (forall d, ch "/" ∉ base64UrlUnpadded d) as Hn.
  { intros d Hin%base64_in. assert (ch "/" ∉ kBase64UrlAlphabet) as H by by_compute. done. }
  apply cut_unique in E as [E ->]; [|apply Hn..]. split; [|done]. by rewrite <-(base64_back id1), E, base64_back.
Qed.

Lemma shown_spec n cps :
  foldr (fun cp u => units cp + u) 0 (shown n cps) <= Z.max n 0 /\ shown n cps `prefix_of` cps /\
  (shown n cps = cps \/ exists cp, shown n cps ++ [cp] `prefix_of` cps /\ n < foldr (fun cp u => units cp + u) 0 (shown n cps) + units cp).
Proof.
  revert n. induction cps as [|cp cps IH]; intros n; cbn [shown foldr]; [split_and!; [lia|done|by left]|].
  assert (1 <= units cp <= 2) as Hu by (unfold units; case_match; lia).
  destruct (units cp >? n) eqn:E; cbn [foldr].
  - split_and!; [lia|apply prefix_nil|right; exists cp; split; [apply (prefix_app [cp] [] cps), prefix_nil|blia]].
  - destruct (IH (n - units cp)) as (Hs & Hp & Hm). assert (units cp <= n) by blia. split_and!; [lia|by apply prefix_cons|].
    destruct Hm as [->|(c & Hc & Hlt)]; [by left|right]. exists c. split; [by apply (prefix_cons cp)|lia].
Qed.

(** * Properties *)

(** Of a text of code points in UTF-8 the presentation is, in UTF-8, the longest prefix of its visible code points that has
    at most 200 UTF-16 units: no control or format code point is left, and no code point is cut. *)
Theorem presentation_shown cps :
  Forall scalar_value cps ->
  let out := shown 200 (visible cps) in
  capPresentation (flat_map utf8 cps) = flat_map utf8 out /\
  foldr (fun cp u => units cp + u) 0 out <= 200 /\ Forall (fun cp => isControlOrFormat cp = false) out /\
  (out = visible cps \/
   exists cp, out ++ [cp] `prefix_of` visible cps /\ 200 < foldr (fun cp u => units cp + u) 0 out + units cp).
Proof.
  intros Hs out. destruct (shown_spec 200 (visible cps)) as (Hu & [tl Hp] & Hm). split_and!; [|exact Hu| |exact Hm].
  - unfold capPresentation. by rewrite cap_loop_utf8.
  - assert (Forall (fun cp => isControlOrFormat cp = false) (visible cps)) as Hv.
    { apply Forall_forall. intros cp Hin%list_elem_of_In. apply filter_In in Hin as [_ Hc]. by apply negb_true_iff in Hc. }
    rewrite Hp in Hv. by apply Forall_app in Hv as [Hv _].
Qed.

Section Recording.
(** Settings that keep what is written. *)
Context {S : Type} `{!Settings S}.
Context (get_set : forall (s : S) k v, value (setValue s k v) k = Some v).
Context (get_other : forall (s : S) k k' v, k <> k' -> value (setValue s k v) k' = value s k').

Lemma changed_here s k v : value (setIfChanged (S:=S) s k v) k = Some v.
Proof.
  unfold setIfChanged. destruct (value s k) as [c|] eqn:E; [|apply get_set]. destruct (bytes_eqb c v) eqn:Ec; [|apply get_set].
  apply bytes_eqb_eq in Ec as ->. exact E.
Qed.

Lemma changed_elsewhere s k k' v : k <> k' -> value (setIfChanged (S:=S) s k v) k' = value s k'.
Proof. intros H. unfold setIfChanged. destruct (value s k) as [c|]; [destruct (bytes_eqb c v)|]; auto. Qed.

Lemma write_skipped s k v : value s k = Some v -> setIfChanged (S:=S) s k v = s.
Proof. intros H. unfold setIfChanged. by rewrite H, bytes_eqb_refl. Qed.

(** Recording the presentation of a source sets its two values and no others: not those of another identity,
    whatever separators identities contain; recording it again changes nothing. *)
Theorem presentation_recorded (s : S) identity p :
  identity <> [] ->
  let s' := recordSourcePresentation s identity p in
  let key := fun id name => sourcePresentationSettingsGroup id ++ ch "/" :: name in
  value s' (key identity (str "display_name")) =
    Some (capPresentation (if bool_decide (display_name p = []) then fallback_name p else display_name p)) /\
  (origin p <> [] -> value s' (key identity (str "origin")) = Some (capPresentation (origin p))) /\
  (forall id name, id <> identity -> value s' (key id name) = value s (key id name)) /\
  recordSourcePresentation s' identity p = s'.
Proof.
  intros Hid s' key. set (name := if bool_decide (display_name p = []) then fallback_name p else display_name p) in *.
  set (s1 := setIfChanged s (key identity (str "display_name")) (capPresentation name)).
  assert (forall t, recordSourcePresentation t identity p =
    let t1 := setIfChanged t (key identity (str "display_name")) (capPresentation name) in
    if bool_decide (origin p = []) then t1 else setIfChanged t1 (key identity (str "origin")) (capPresentation (origin p))) as Hrec
    by (intros t; unfold recordSourcePresentation; by rewrite bool_decide_eq_false_2).
  assert (key identity (str "origin") <> key identity (str "display_name")) as Hne by (intros E; by apply group_key_inj in E as [_ E]).
  assert (forall id n m, id <> identity -> key identity n <> key id m) as Hother by (intros id n m Hi E; apply group_key_inj in E as [E _]; congruence).
  assert (s' = if bool_decide (origin p = []) then s1 else setIfChanged s1 (key identity (str "origin")) (capPresentation (origin p))) as Hs by apply Hrec.
  destruct (bool_decide (origin p = [])) eqn:Eo.
  - apply bool_decide_eq_true in Eo. rewrite Hs. split_and!; [apply changed_here|done|intros; by apply changed_elsewhere, Hother|].
    rewrite Hrec. cbv zeta. rewrite ?bool_decide_eq_true_2 by done. apply write_skipped, changed_here.
  - rewrite Hs. split_and!.
    + rewrite changed_elsewhere by done. apply changed_here.
    + intros _. apply changed_here.
    + intros id n Hi. rewrite changed_elsewhere by (by apply Hother). by apply changed_elsewhere, Hother.
    + rewrite Hrec. cbv zeta. rewrite ?Eo, (write_skipped _ _ (capPresentation name)).
      * apply write_skipped, changed_here.
      * rewrite changed_elsewhere by done. apply changed_here.
Qed.

End Recording.

(** ** Runs *)

#[export] Instance assoc_settings : Settings (list (bytes * bytes)) := {
  value s k := option_map snd (List.find (fun e => bytes_eqb e.1 k) s);
  setValue s k v := (k, v) :: s
}.

Example presentation_shown_witness :
  capPresentation (flat_map utf8 [72; 8238; 105; 128512]) = flat_map utf8 [72; 105; 128512].
Proof.
  assert (Forall scalar_value [72; 8238; 105; 128512]) as H by (repeat constructor; unfold scalar_value; lia).
  destruct (presentation_shown _ H) as [E _]. rewrite E. vm_compute. reflexivity.
Defined.

Example presentation_recorded_witness :
  value (recordSourcePresentation [] (str "a/b") (mkPresentation [] (str "run") (str "h:1"))) (str "source_presentation/v1/YS9i/display_name")
  = Some (str "run").
Proof.
  destruct (presentation_recorded (S:=list (bytes * bytes))) with (s := @nil (bytes * bytes)) (identity := str "a/b")
    (p := mkPresentation [] (str "run") (str "h:1")) as [E _].
  - intros s k v. cbn. by rewrite bytes_eqb_refl.
  - intros s k k' v H. cbn. by rewrite (proj2 (bytes_eqb_neq k k')).
  - done.
  - exact E.
Defined.
