(* ===== verification/Sha256.v ===== *)
(** * Sha256: the digest behind descriptor identities

    [pj_base/src/source/sha256.cpp].  A [std::uint32_t] is a [Z] in its range; a
    block is read from its first byte on.  [Fips] is the standard, FIPS 180-4, on bit
    strings and apart from the code; the theorem is that the two agree. *)

From S2P Require Import Prelude.

Definition kK : list Z :=
  [1116352408; 1899447441; 3049323471; 3921009573; 961987163; 1508970993;
   2453635748; 2870763221; 3624381080; 310598401; 607225278; 1426881987;
   1925078388; 2162078206; 2614888103; 3248222580; 3835390401; 4022224774;
   264347078; 604807628; 770255983; 1249150122; 1555081692; 1996064986;
   2554220882; 2821834349; 2952996808; 3210313671; 3336571891; 3584528711;
   113926993; 338241895; 666307205; 773529912; 1294757372; 1396182291;
   1695183700; 1986661051; 2177026350; 2456956037; 2730485921; 2820302411;
   3259730800; 3345764771; 3516065817; 3600352804; 4094571909; 275423344;
   430227734; 506948616; 659060556; 883997877; 958139571; 1322822218;
   1537002063; 1747873779; 1955562222; 2024104815; 2227730452; 2361852424;
   2428436474; 2756734187; 3204031479; 3329325298].

Definition rotr (x n : Z) : Z := Z.lor (Z.shiftr x n) (wrap 32 (Z.shiftl x (32 - n))).

Definition byte_at (data : bytes) (i : nat) : Z := b2z (nth i data Byte.x00).
Definition word_at (w : list Z) (i : nat) : Z := nth i w 0.

(** The first loop of [compress]: a word of the block. *)
Definition block_word (block : bytes) (t : nat) : Z :=
  Z.lor (Z.lor (Z.lor (Z.shiftl (byte_at block (4 * t)) 24) (Z.shiftl (byte_at block (4 * t + 1)) 16))
    (Z.shiftl (byte_at block (4 * t + 2)) 8)) (byte_at block (4 * t + 3)).

(** Its second loop: the word after the first [t] ones. *)
Definition next_word (w : list Z) (t : nat) : Z :=
  let w15 := word_at w (t - 15) in
  let w2 := word_at w (t - 2) in
  let s0 := Z.lxor (Z.lxor (rotr w15 7) (rotr w15 18)) (Z.shiftr w15 3) in
  let s1 := Z.lxor (Z.lxor (rotr w2 17) (rotr w2 19)) (Z.shiftr w2 10) in
  wrap 32 (word_at w (t - 16) + s0 + word_at w (t - 7) + s1).

Definition schedule (block : bytes) : list Z :=
  foldl (fun w t => w ++ [next_word w t]) (map (block_word block) (seq 0 16)) (seq 16 48).

Record Hash : Set := mkHash {
  h0 : Z; h1 : Z; h2 : Z; h3 : Z; h4 : Z; h5 : Z; h6 : Z; h7 : Z }.

(** A round of the third loop; the record holds [a] to [hh]. *)
Definition round (w : list Z) (v : Hash) (t : nat) : Hash :=
  let 'mkHash a b c d e f g hh := v in
  let big_s1 := Z.lxor (Z.lxor (rotr e 6) (rotr e 11)) (rotr e 25) in
  let ch := Z.lxor (Z.land e f) (Z.land (wrap 32 (Z.lnot e)) g) in
  let t1 := wrap 32 (hh + big_s1 + ch + word_at kK t + word_at w t) in
  let big_s0 := Z.lxor (Z.lxor (rotr a 2) (rotr a 13)) (rotr a 22) in
  let maj := Z.lxor (Z.lxor (Z.land a b) (Z.land a c)) (Z.land b c) in
  let t2 := wrap 32 (big_s0 + maj) in
  mkHash (wrap 32 (t1 + t2)) a b c (wrap 32 (d + t1)) e f g.

Definition compress (h : Hash) (block : bytes) : Hash :=
  let w := schedule block in
  let v := foldl (round w) h (seq 0 64) in
  mkHash (wrap 32 (h0 h + h0 v)) (wrap 32 (h1 h + h1 v)) (wrap 32 (h2 h + h2 v)) (wrap 32 (h3 h + h3 v))
    (wrap 32 (h4 h + h4 v)) (wrap 32 (h5 h + h5 v)) (wrap 32 (h6 h + h6 v)) (wrap 32 (h7 h + h7 v)).

Definition initial : Hash :=
  mkHash 1779033703 3144134277 1013904242 2773480762 1359893119 2600822924 528734635 1541459225.

(** The loop over whole blocks: the hash and the bytes left from [off] on. *)
Fixpoint whole_blocks (fuel : nat) (h : Hash) (data : bytes) : Hash * bytes :=
  match fuel with
  | O => (h, data)
  | S fuel' =>
    if (64 <=? length data)%nat then whole_blocks fuel' (compress h data) (drop 64 data) else (h, data)
  end.

(** An element of a C array, overwritten. *)
Definition store (l : bytes) (i : nat) (v : Z) : bytes := <[i := z2b v]> l.

(** The padding block or blocks of [rem] bytes of a message of [n] bytes. *)
Definition tail_blocks (rem : nat) : nat := if (rem + 1 + 8 <=? 64)%nat then 1 else 2.

Definition tail_of (rest : bytes) (n : nat) : bytes :=
  let rem := length rest in
  let tail := rest ++ replicate (128 - rem) Byte.x00 in
  let tail := store tail rem 128 in
  let bit_len := wrap 64 (Z.of_nat n * 8) in
  foldl (fun tail i => store tail (tail_blocks rem * 64 - 1 - i) (Z.shiftr bit_len (8 * Z.of_nat i)))
    tail (seq 0 8).

Definition digest_word (x : Z) : bytes :=
  [z2b (Z.shiftr x 24); z2b (Z.shiftr x 16); z2b (Z.shiftr x 8); z2b x].

Definition sha256 (data : bytes) : bytes :=
  let '(h, rest) := whole_blocks (S (length data)) initial data in
  let tail := tail_of rest (length data) in
  let h := compress h tail in
  let h := if (tail_blocks (length rest) =? 2)%nat then compress h (drop 64 tail) else h in
  flat_map digest_word [h0 h; h1 h; h2 h; h3 h; h4 h; h5 h; h6 h; h7 h].

Definition hex_digit (v : Z) : byte := nth (Z.to_nat v) (str "0123456789abcdef") Byte.x00.

Definition hex_of (b : byte) : bytes :=
  [hex_digit (Z.shiftr (b2z b) 4); hex_digit (Z.land (b2z b) 15)].

(** The published test vectors. *)
Example sha256_empty :
  flat_map hex_of (sha256 []) = str "e3b0c44298fc1c149afbf4c8996fb92427ae41e4649b934ca495991b7852b855".
Proof. vm_compute. reflexivity. Qed.
Example sha256_abc :
  flat_map hex_of (sha256 (str "abc")) = str "ba7816bf8f01cfea414140de5dae2223b00361a396177a9cb410ff61f20015ad".
Proof. vm_compute. reflexivity. Qed.
Example sha256_two_blocks :
  flat_map hex_of (sha256 (str "abcdbcdecdefdefgefghfghighijhijkijkljklmklmnlmnomnopnopq"))
  = str "248d6a61d20638b8e5c026930c3e6039a33ce45964ff2167f6ecedd419db06c1".
Proof. vm_compute. reflexivity. Qed.

(** ** The padded message of FIPS 180-4 *)

(** [pad data]: a one bit, zeros, and the bit length in 64 bits, most significant byte
    first, to a multiple of 64 bytes. *)
Definition zero_count (n : nat) : nat := (119 - n mod 64) mod 64.

Definition be64 (v : Z) : bytes := map (fun i => z2b (Z.shiftr v (8 * Z.of_nat (7 - i)))) (seq 0 8).

Definition pad (data : bytes) : bytes :=
  data ++ [z2b 128] ++ replicate (zero_count (length data)) Byte.x00 ++ be64 (wrap 64 (Z.of_nat (length data) * 8)).

(** The first [n] blocks of 64 bytes. *)
Fixpoint blocks (n : nat) (data : bytes) : list bytes :=
  match n with
  | O => []
  | S n' => take 64 data :: blocks n' (drop 64 data)
  end.

Definition words_of (h : Hash) : list Z := [h0 h; h1 h; h2 h; h3 h; h4 h; h5 h; h6 h; h7 h].

(** The code's compression over the blocks of the padded message: the form [Fips]
    below is compared with. *)
Definition reference_sha256 (data : bytes) : bytes :=
  let padded := pad data in
  flat_map digest_word (words_of (foldl compress initial (blocks (length padded / 64) padded))).

Lemma compress_take h data : compress h (take 64 data) = compress h data.
Proof.
  assert (forall i, (i < 64)%nat -> byte_at (take 64 data) i = byte_at data i) as H.
  { intros i Hi. unfold byte_at. by rewrite !nth_lookup, lookup_take_lt. }
  assert (schedule (take 64 data) = schedule data) as E.
  { unfold schedule. f_equal. apply map_ext_in. intros t Ht%in_seq. unfold block_word. by rewrite !H by lia. }
  unfold compress. by rewrite E.
Qed.

Lemma blocks_app n data rest :
  (64 * n <= length data)%nat -> blocks n (data ++ rest) = blocks n data.
Proof.
  revert data. induction n as [|n IH]; intros data Hn; cbn [blocks]; [done|].
  rewrite take_app_le, drop_app_le by lia. rewrite IH by (rewrite length_drop; lia). done.
Qed.

Lemma blocks_plus n m data : blocks (n + m) data = blocks n data ++ blocks m (drop (64 * n) data).
Proof.
  revert data. induction n as [|n IH]; intros data; [by rewrite drop_0|].
  cbn [blocks Nat.add app]. rewrite IH, drop_drop. do 4 f_equal. lia.
Qed.

Lemma whole_blocks_spec fuel : forall h data,
  (length data < fuel)%nat ->
  whole_blocks fuel h data
  = (foldl compress h (blocks (length data / 64) data), drop (64 * (length data / 64)) data).
Proof.
  induction fuel as [|fuel IH]; intros h data Hfuel; [lia|]. cbn [whole_blocks].
  destruct (64 <=? length data)%nat eqn:E; bprop.
  - rewrite IH by (rewrite length_drop; lia). rewrite length_drop, drop_drop.
    assert (length data / 64 = S ((length data - 64) / 64))%nat as ->.
    { replace (length data) with (length data - 64 + 1 * 64)%nat at 1 by lia. rewrite Nat.div_add by lia. lia. }
    cbn [blocks foldl]. rewrite compress_take. do 2 f_equal. lia.
  - rewrite Nat.div_small by lia. done.
Qed.

Lemma tail_of_eq rest n :
  (length rest < 64)%nat ->
  tail_of rest n =
    rest ++ [z2b 128] ++ replicate (zero_count (length rest)) Byte.x00 ++ be64 (wrap 64 (Z.of_nat n * 8)) ++
    replicate (128 - 64 * tail_blocks (length rest)) Byte.x00.
Proof.
  intros Hr. unfold tail_of. set (len := wrap 64 (Z.of_nat n * 8)). 
  remember (length rest) as rem eqn:Hrem. set (tb := tail_blocks rem).
  assert (zero_count rem = 64 * tb - 9 - rem /\ 9 + rem <= 64 * tb /\ 64 * tb <= 128)%nat as (Hz & Htb & Htb2).
  { unfold zero_count, tb, tail_blocks. rewrite (Nat.mod_small rem 64) by lia.
    destruct (rem + 1 + 8 <=? 64)%nat eqn:E; bprop.
    - replace (119 - rem)%nat with (55 - rem + 1 * 64)%nat by lia. rewrite Nat.mod_add, Nat.mod_small by lia. lia.
    - rewrite Nat.mod_small by lia. lia. }
  assert (store (rest ++ replicate (128 - rem) Byte.x00) rem 128 =
    (rest ++ [z2b 128] ++ replicate (zero_count rem) Byte.x00) ++
    replicate 8 Byte.x00 ++ replicate (128 - 64 * tb) Byte.x00) as ->.
  { unfold store. replace (128 - rem)%nat with (S (zero_count rem + (8 + (128 - 64 * tb)))) by lia.
    rewrite insert_app_r_alt by lia. replace (rem - length rest)%nat with 0%nat by lia.
    rewrite <-!app_assoc. cbn [replicate]. rewrite !replicate_add. done. }
  set (pre := rest ++ [z2b 128] ++ replicate (zero_count rem) Byte.x00).
  assert (length pre = tb * 64 - 8)%nat as Hpre.
  { unfold pre. rewrite !length_app, length_replicate. cbn [length]. lia. }
  assert (forall l i v, (i < 8)%nat -> store (pre ++ l) (tb * 64 - 1 - i) v = pre ++ store l (7 - i) v) as Hst.
  { intros l i v Hi. unfold store. rewrite insert_app_r_alt by lia. do 2 f_equal. lia. }
  cbn [seq foldl]. rewrite !Hst by lia. unfold pre. rewrite <-!app_assoc. do 3 f_equal.
Qed.

(** The padded message: the whole blocks of the message, and the tail. *)
Lemma pad_split data :
  let n := (length data / 64)%nat in
  let rest := drop (64 * n) data in
  pad data = take (64 * n) data ++ take (64 * tail_blocks (length rest)) (tail_of rest (length data)).
Proof.
  intros n rest. pose proof (Nat.div_mod (length data) 64 ltac:(lia)) as Hdm. fold n in Hdm.
  pose proof (Nat.mod_upper_bound (length data) 64 ltac:(lia)) as Hmod.
  assert (length rest = length data mod 64)%nat as Hrest by (unfold rest; rewrite length_drop; lia).
  unfold pad. rewrite <-(take_drop (64 * n) data) at 1. fold rest. rewrite <-app_assoc. f_equal.
  assert (zero_count (length rest) = zero_count (length data)) as Hz
    by (unfold zero_count; rewrite Hrest, Nat.Div0.mod_mod; done).
  rewrite tail_of_eq, !app_assoc by lia. rewrite take_app_length'; [by rewrite Hz, <-!app_assoc|].
  rewrite !length_app, length_replicate. cbn [length].
  change (length (be64 (wrap 64 (Z.of_nat (length data) * 8)))) with 8%nat.
  unfold zero_count, tail_blocks. rewrite (Nat.mod_small (length rest) 64) by lia.
  destruct (length rest + 1 + 8 <=? 64)%nat eqn:E; bprop.
  - replace (119 - length rest)%nat with (55 - length rest + 1 * 64)%nat by lia.
    rewrite Nat.mod_add, Nat.mod_small by lia. lia.
  - rewrite Nat.mod_small by lia. lia.
Qed.

Lemma tail_of_length rest n : (length rest < 64)%nat -> length (tail_of rest n) = 128%nat.
Proof.
  intros. unfold tail_of, store. cbn [seq foldl]. rewrite !length_insert, length_app, length_replicate. lia.
Qed.

Lemma tail_blocks_cases n : tail_blocks n = 1%nat \/ tail_blocks n = 2%nat.
Proof. unfold tail_blocks. destruct (_ <=? 64)%nat; auto. Qed.

Lemma sha256_reference data :
  (length (pad data) mod 64 = 0)%nat /\ sha256 data = reference_sha256 data.
Proof.
  unfold sha256, reference_sha256. rewrite whole_blocks_spec by lia. pose proof (pad_split data) as Hpad.
  cbn zeta in Hpad. set (n := (length data / 64)%nat) in *. set (rest := drop (64 * n) data) in *.
  pose proof (Nat.div_mod (length data) 64 ltac:(lia)) as Hdm. fold n in Hdm.
  pose proof (Nat.mod_upper_bound (length data) 64 ltac:(lia)) as Hmod.
  assert (length (tail_of rest (length data)) = 128)%nat as Hlen
    by (apply tail_of_length; unfold rest; rewrite length_drop; lia).
  set (tail := tail_of rest (length data)) in *. set (tb := tail_blocks (length rest)) in *.
  pose proof (tail_blocks_cases (length rest)) as Htb. fold tb in Htb.
  assert (length (pad data) = (n + tb) * 64)%nat as Hpl
    by (rewrite Hpad, length_app, !length_take; lia).
  rewrite Hpl, Nat.Div0.mod_mul, Nat.div_mul by lia. split; [done|].
  rewrite blocks_plus, Hpad, blocks_app by (rewrite length_take; lia).
  assert (drop (64 * n) (take (64 * n) data ++ take (64 * tb) tail) = take (64 * tb) tail) as ->
    by (apply drop_app_length'; rewrite length_take; lia).
  assert (blocks n (take (64 * n) data) = blocks n data) as ->.
  { rewrite <-(blocks_app n (take (64 * n) data) rest) by (rewrite length_take; lia).
    unfold rest. by rewrite take_drop. }
  rewrite foldl_app. do 2 f_equal.
  destruct Htb as [-> | ->]; cbn [Nat.eqb blocks foldl Nat.mul Nat.add]; rewrite take_take.
  - by rewrite compress_take.
  - change (Nat.min 64 128) with 64%nat. rewrite compress_take, (take_ge tail 128), compress_take by lia. done.
Qed.

(** ** The message schedule *)

Lemma schedule_prefix w ts :
  exists new, foldl (fun w t => w ++ [next_word w t]) w ts = w ++ new /\ length new = length ts.
Proof.
  revert w. induction ts as [|t ts IH]; intros w; cbn [foldl]; [exists []; by rewrite app_nil_r|].
  destruct (IH (w ++ [next_word w t])) as (new & -> & Hl). exists (next_word w t :: new).
  rewrite <-app_assoc. split; [done|]. cbn. by rewrite Hl.
Qed.

Lemma word_at_app w new i : (i < length w)%nat -> word_at (w ++ new) i = word_at w i.
Proof. intros. unfold word_at. by rewrite app_nth1. Qed.

Lemma next_word_app w new t :
  (16 <= t <= length w)%nat -> next_word (w ++ new) t = next_word w t.
Proof. intros. unfold next_word. by rewrite !word_at_app by lia. Qed.

Lemma schedule_words block t :
  (t < 64)%nat ->
  word_at (schedule block) t =
    if (t <? 16)%nat then block_word block t else next_word (schedule block) t.
Proof.
  intros Ht. unfold schedule. set (w0 := map (block_word block) (seq 0 16)).
  assert (length w0 = 16)%nat as Hw0 by (unfold w0; by rewrite length_map, length_seq).
  destruct (t <? 16)%nat eqn:E; bprop.
  - destruct (schedule_prefix w0 (seq 16 48)) as (new & -> & _). rewrite word_at_app by lia.
    unfold word_at, w0. rewrite nth_indep with (d' := block_word block 0) by (rewrite length_map, length_seq; lia).
    rewrite map_nth, seq_nth by lia. done.
  - replace 48%nat with ((t - 16) + S (63 - t))%nat by lia. rewrite seq_app, foldl_app.
    replace (16 + (t - 16))%nat with t by lia.
    destruct (schedule_prefix w0 (seq 16 (t - 16))) as (new & -> & Hl). rewrite length_seq in Hl.
    cbn [seq foldl].
    destruct (schedule_prefix ((w0 ++ new) ++ [next_word (w0 ++ new) t]) (seq (S t) (63 - t))) as (more & -> & _).
    assert (length (w0 ++ new) = t) as Hlen by (rewrite length_app; lia).
    rewrite <-(app_assoc (w0 ++ new)), (next_word_app (w0 ++ new)) by lia.
    unfold word_at. rewrite app_nth2 by lia. by rewrite Hlen, Nat.sub_diag.
Qed.

(** A right rotation of a 32-bit word. *)
Lemma rotr_bits x n i :
  in_u 32 x -> 0 < n < 32 -> 0 <= i < 32 -> Z.testbit (rotr x n) i = Z.testbit x ((i + n) mod 32).
Proof.
  unfold in_u. intros Hx Hn Hi. unfold rotr, wrap.
  rewrite Z.lor_spec, Z.shiftr_spec, Z.mod_pow2_bits_low, Z.shiftl_spec by lia.
  destruct (Z.lt_ge_cases (i + n) 32).
  - rewrite (Z.mod_small (i + n)) by lia. rewrite (Z.testbit_neg_r x (i - (32 - n))) by lia.
    apply orb_false_r.
  - assert ((i + n) mod 32 = i - (32 - n)) as ->.
    { replace (i + n) with (i - (32 - n) + 1 * 32) by lia. rewrite Z.mod_add, Z.mod_small; lia. }
    rewrite <-(Z.mod_small x (2 ^ 32)) at 1 by lia. by rewrite Z.mod_pow2_bits_high by lia.
Qed.

(** * FIPS 180-4

    The standard's own definitions, on bit strings with the most significant bit
    first and nothing taken from the code: the constants are computed from the
    primes, the functions are given bit by bit, the schedule and the rounds follow
    the numbered equations, and the message is padded and parsed as bits. *)

Module Fips.

(** ** Words and bit strings *)

Fixpoint value (bits : list bool) : Z :=
  match bits with
  | [] => 0
  | b :: bits' => Z.b2z b * 2 ^ Z.of_nat (length bits') + value bits'
  end.

(** The [n] bits [f (n - 1)], ..., [f 0]. *)
Fixpoint bits_from (n : nat) (f : Z -> bool) : list bool :=
  match n with
  | O => []
  | S n' => f (Z.of_nat n') :: bits_from n' f
  end.

Definition to_bits (n : nat) (x : Z) : list bool := bits_from n (Z.testbit x).

(** The 32-bit word whose bit of weight [2 ^ i] is [f i]. *)
Definition word (f : Z -> bool) : Z := value (bits_from 32 f).

Definition bits_of (data : bytes) : list bool := flat_map (fun b => to_bits 8 (b2z b)) data.

(** ** Section 2.2.2 and 4.1.2: operations and functions on 32-bit words *)

Definition add (x y : Z) : Z := (x + y) mod 2 ^ 32.
Definition ROTR (n x : Z) : Z := word (fun i => Z.testbit x ((i + n) mod 32)).
Definition SHR (n x : Z) : Z := x / 2 ^ n.
Definition parity (x y z : Z) : Z := word (fun i => xorb (Z.testbit x i) (xorb (Z.testbit y i) (Z.testbit z i))).
Definition Ch (x y z : Z) : Z := word (fun i => if Z.testbit x i then Z.testbit y i else Z.testbit z i).
Definition Maj (x y z : Z) : Z :=
  word (fun i => (2 <=? Z.b2z (Z.testbit x i) + Z.b2z (Z.testbit y i) + Z.b2z (Z.testbit z i))).
Definition Sigma0 (x : Z) : Z := parity (ROTR 2 x) (ROTR 13 x) (ROTR 22 x).
Definition Sigma1 (x : Z) : Z := parity (ROTR 6 x) (ROTR 11 x) (ROTR 25 x).
Definition sigma0 (x : Z) : Z := parity (ROTR 7 x) (ROTR 18 x) (SHR 3 x).
Definition sigma1 (x : Z) : Z := parity (ROTR 17 x) (ROTR 19 x) (SHR 10 x).

(** ** Section 4.2.2 and 5.3.3: the constants *)

Definition is_prime (n : nat) : bool := forallb (fun d => negb (n mod d =? 0)%nat) (seq 2 (n - 2)).
Definition primes : list Z := map Z.of_nat (filter is_prime (seq 2 310)).

(** The largest [r] below [2 ^ n] with [r ^ 3 <= x], bit by bit from [r]. *)
Fixpoint cube_root (n : nat) (r x : Z) : Z :=
  match n with
  | O => r
  | S n' =>
    let r' := r + 2 ^ Z.of_nat n' in
    cube_root n' (if r' ^ 3 <=? x then r' else r) x
  end.

(** The first 32 bits of the fractional part of a square root and of a cube root. *)
Definition sqrt_fraction (p : Z) : Z := Z.sqrt (p * 2 ^ 64) mod 2 ^ 32.
Definition cbrt_fraction (p : Z) : Z := cube_root 40 0 (p * 2 ^ 96) mod 2 ^ 32.

Definition K : list Z := map cbrt_fraction primes.
Definition H0 : list Z := map sqrt_fraction (take 8 primes).

(** ** Section 5: padding and parsing *)

(** The zeros: the least [k] with [l + 1 + k] congruent to 448 modulo 512. *)
Definition zeros (l : Z) : Z := (447 - l) mod 512.

Definition padded (message : list bool) : list bool :=
  let l := Z.of_nat (length message) in
  message ++ [true] ++ replicate (Z.to_nat (zeros l)) false ++ to_bits 64 l.

Fixpoint chunks (size n : nat) (l : list bool) : list (list bool) :=
  match n with
  | O => []
  | S n' => take size l :: chunks size n' (drop size l)
  end.

(** The message blocks, each the list of its sixteen words. *)
Definition parse (l : list bool) : list (list Z) :=
  map (fun block => map value (chunks 32 16 block)) (chunks 512 (length l / 512) l).

(** ** Section 6.2.2: the computation *)

(** Step 1: [W_0] to [W_(n-1)]. *)
Fixpoint W (M : list Z) (n : nat) : list Z :=
  match n with
  | O => []
  | S t =>
    let w := W M t in
    w ++ [if (t <? 16)%nat then nth t M 0
          else add (add (add (sigma1 (nth (t - 2) w 0)) (nth (t - 7) w 0)) (sigma0 (nth (t - 15) w 0)))
                 (nth (t - 16) w 0)]
  end.

Definition vars : Set := Z * Z * Z * Z * Z * Z * Z * Z.

(** Step 3, for the constant [k] and the schedule's word [w] of a round. *)
Definition step (v : vars) (kw : Z * Z) : vars :=
  let '(a, b, c, d, e, f, g, h) := v in
  let '(k, w) := kw in
  let T1 := add (add (add (add h (Sigma1 e)) (Ch e f g)) k) w in
  let T2 := add (Sigma0 a) (Maj a b c) in
  (add T1 T2, a, b, c, add d T1, e, f, g).

(** Steps 2 to 4: the hash value after a block. *)
Definition block_step (H : vars) (M : list Z) : vars :=
  let '(a, b, c, d, e, f, g, h) := foldl step H (zip K (W M 64)) in
  let '(a', b', c', d', e', f', g', h') := H in
  (add a a', add b b', add c c', add d d', add e e', add f f', add g g', add h h').

Definition vars_of (l : list Z) : vars :=
  (nth 0 l 0, nth 1 l 0, nth 2 l 0, nth 3 l 0, nth 4 l 0, nth 5 l 0, nth 6 l 0, nth 7 l 0).

(** The 256-bit digest of a message of any number of bits. *)
Definition digest (message : list bool) : list bool :=
  let '(a, b, c, d, e, f, g, h) := foldl block_step (vars_of H0) (parse (padded message)) in
  flat_map (to_bits 32) [a; b; c; d; e; f; g; h].

(** ** What the definitions say *)

Lemma zeros_least l :
  (l + 1 + zeros l) mod 512 = 448 /\ forall k, 0 <= k < zeros l -> (l + 1 + k) mod 512 <> 448.
Proof.
  unfold zeros. set (z := (447 - l) mod 512).
  assert (exists q, 447 - l = 512 * q + z /\ 0 <= z < 512) as (q & Hq & Hz).
  { exists ((447 - l) / 512). pose proof (Z.div_mod (447 - l) 512 ltac:(lia)).
    pose proof (Z.mod_pos_bound (447 - l) 512 ltac:(lia)). unfold z. lia. }
  split.
  - replace (l + 1 + z) with (448 + - q * 512) by lia. by rewrite Z.mod_add.
  - intros k Hk E. pose proof (Z.div_mod (l + 1 + k) 512 ltac:(lia)). nia.
Qed.

Lemma cube_root_spec n : forall r x,
  0 <= r -> r ^ 3 <= x < (r + 2 ^ Z.of_nat n) ^ 3 ->
  let c := cube_root n r x in 0 <= c /\ c ^ 3 <= x < (c + 1) ^ 3.
Proof.
  induction n as [|n IH]; intros r x Hr Hx; cbn [cube_root]; [done|].
  rewrite Nat2Z.inj_succ, Z.pow_succ_r in Hx by lia. pose proof (Z.pow_pos_nonneg 2 (Z.of_nat n)).
  destruct (_ <=? x) eqn:E; bprop; apply IH; try lia.
Qed.

(** [cbrt_fraction p] is [floor (2 ^ 32 * cbrt p)] modulo [2 ^ 32]. *)
Lemma cbrt_fraction_spec p :
  0 <= p < 512 -> exists c, 0 <= c /\ c ^ 3 <= p * (2 ^ 32) ^ 3 < (c + 1) ^ 3 /\ cbrt_fraction p = c mod 2 ^ 32.
Proof.
  intros Hp. unfold cbrt_fraction. change ((2 ^ 32) ^ 3) with (2 ^ 96).
  assert (0 <= p * 2 ^ 96 < 2 ^ 120) as [Hlo Hhi].
  { change (2 ^ 120) with (2 ^ 24 * 2 ^ 96). split; [lia|]. apply Z.mul_lt_mono_pos_r; lia. }
  generalize dependent (p * 2 ^ 96). intros x Hlo Hhi. exists (cube_root 40 0 x).
  destruct (cube_root_spec 40 0 x (Z.le_refl 0) (conj Hlo Hhi)) as (H1 & H2). split; [exact H1|].
  split; [exact H2|reflexivity].
Qed.

Lemma is_prime_spec n : (2 <= n)%nat -> is_prime n = true <-> Znumtheory.prime (Z.of_nat n).
Proof.
  intros Hn. rewrite <-Znumtheory.prime_alt. unfold is_prime, Znumtheory.prime'. rewrite forallb_forall. split.
  - intros H. split; [lia|]. intros d Hd Hdiv. specialize (H (Z.to_nat d)).
    rewrite in_seq in H. specialize (H ltac:(lia)). apply negb_true_iff, Nat.eqb_neq in H. apply H.
    apply Nat2Z.inj. rewrite Nat2Z.inj_mod, Z2Nat.id by lia. by apply Z.mod_divide; [lia|].
  - intros [_ H] d Hd. rewrite in_seq in Hd. apply negb_true_iff, Nat.eqb_neq. intros E.
    apply (H (Z.of_nat d)); [lia|]. apply Z.mod_divide; [lia|]. by rewrite <-Nat2Z.inj_mod, E.
Qed.

(** [primes] holds the first 64 primes. *)
Lemma first_64_primes :
  length primes = 64%nat /\ forall p, In p primes <-> Znumtheory.prime p /\ p < 312.
Proof.
  split; [by vm_compute|]. intros p. unfold primes. rewrite in_map_iff. split.
  - intros (n & <- & Hn). apply list_elem_of_In, list_elem_of_filter in Hn as [Hp Hn].
    apply elem_of_seq in Hn. rewrite <-is_prime_spec by lia. split; [by apply Is_true_true|lia].
  - intros [Hp Hlt]. pose proof (Znumtheory.prime_ge_2 p Hp). exists (Z.to_nat p).
    rewrite Z2Nat.id by lia. split; [done|]. apply list_elem_of_In, list_elem_of_filter.
    rewrite elem_of_seq. split; [|lia]. apply Is_true_true, is_prime_spec; [lia|]. by rewrite Z2Nat.id by lia.
Qed.

(** ** Bit strings *)

Lemma bits_from_length n f : length (bits_from n f) = n.
Proof. induction n; cbn; congruence. Qed.

Lemma value_range l : 0 <= value l < 2 ^ Z.of_nat (length l).
Proof.
  induction l as [|b l IH]; cbn [value length]; [lia|].
  rewrite Nat2Z.inj_succ, Z.pow_succ_r by lia. destruct b; cbn [Z.b2z]; lia.
Qed.

Lemma value_app l1 l2 : value (l1 ++ l2) = value l1 * 2 ^ Z.of_nat (length l2) + value l2.
Proof.
  induction l1 as [|b l1 IH]; cbn [value app]; [lia|].
  rewrite IH, length_app, Nat2Z.inj_add, Z.pow_add_r by lia. lia.
Qed.

Lemma bits_from_ext n f g :
  (forall i, 0 <= i < Z.of_nat n -> f i = g i) -> bits_from n f = bits_from n g.
Proof.
  induction n as [|n IH]; intros H; cbn [bits_from]; [done|].
  f_equal; [apply H; lia|]. apply IH. intros i Hi. apply H. lia.
Qed.

Lemma value_to_bits n x : value (to_bits n x) = x mod 2 ^ Z.of_nat n.
Proof.
  unfold to_bits. induction n as [|n IH]; cbn [bits_from value]; [by rewrite Z.mod_1_r|].
  rewrite bits_from_length, IH, Nat2Z.inj_succ, Z.pow_succ_r by lia.
  rewrite Z.testbit_spec' by lia. pose proof (Z.pow_pos_nonneg 2 (Z.of_nat n) ltac:(lia) ltac:(lia)).
  rewrite (Z.mul_comm 2), Z.rem_mul_r by lia. lia.
Qed.

Lemma to_bits_mod n x : to_bits n (x mod 2 ^ Z.of_nat n) = to_bits n x.
Proof. apply bits_from_ext. intros i Hi. apply Z.mod_pow2_bits_low. lia. Qed.

Lemma word_range f : in_u 32 (word f).
Proof. pose proof (value_range (bits_from 32 f)) as H. by rewrite bits_from_length in H. Qed.

(** A 32-bit word is determined by its bits. *)
Lemma word_eq x f :
  in_u 32 x -> (forall i, 0 <= i < 32 -> Z.testbit x i = f i) -> x = word f.
Proof.
  unfold in_u. intros Hx Hf. unfold word. rewrite <-(bits_from_ext 32 (Z.testbit x)) by done.
  fold (to_bits 32 x). rewrite value_to_bits. by rewrite Z.mod_small.
Qed.

Lemma in_u_high x i : in_u 32 x -> 32 <= i -> Z.testbit x i = false.
Proof. unfold in_u. intros Hx Hi. rewrite <-(Z.mod_small x (2 ^ 32)) by lia. apply Z.mod_pow2_bits_high. lia. Qed.

Lemma in_u_bits x : 0 <= x -> (forall i, 32 <= i -> Z.testbit x i = false) -> in_u 32 x.
Proof.
  intros Hx H. assert (x = x mod 2 ^ 32) as ->; [|apply Z.mod_pos_bound; lia].
  apply Z.bits_inj'. intros i Hi. destruct (Z.lt_ge_cases i 32).
  - by rewrite Z.mod_pow2_bits_low.
  - rewrite H, Z.mod_pow2_bits_high by lia. done.
Qed.

(** ** The code's word operations are the standard's *)

Lemma rotr_ROTR x n : in_u 32 x -> 0 < n < 32 -> rotr x n = ROTR n x.
Proof.
  intros Hx Hn. apply word_eq; [|intros i Hi; by apply rotr_bits]. pose proof (wrap_range 32 (Z.shiftl x (32 - n)) ltac:(lia)) as Hw.
  apply in_u_bits.
  - apply Z.lor_nonneg. split; [apply Z.shiftr_nonneg|]; unfold in_u in *; lia.
  - intros i Hi. unfold rotr. rewrite Z.lor_spec, Z.shiftr_spec, (in_u_high x), (in_u_high _ i Hw) by (done || lia). done.
Qed.

Lemma xor_parity x y z :
  in_u 32 x -> in_u 32 y -> in_u 32 z -> Z.lxor (Z.lxor x y) z = parity x y z.
Proof.
  intros Hx Hy Hz. apply word_eq.
  - apply in_u_bits; [unfold in_u in *; rewrite !Z.lxor_nonneg; lia|].
    intros i Hi. by rewrite !Z.lxor_spec, !in_u_high.
  - intros i Hi. by rewrite !Z.lxor_spec, xorb_assoc.
Qed.

Lemma shiftr_SHR x n : 0 <= n -> Z.shiftr x n = SHR n x.
Proof. apply Z.shiftr_div_pow2. Qed.

Lemma SHR_range x n : in_u 32 x -> 0 <= n -> in_u 32 (SHR n x).
Proof.
  unfold in_u, SHR. intros Hx Hn. pose proof (Z.pow_pos_nonneg 2 n ltac:(lia) ltac:(lia)).
  split; [apply Z.div_pos; lia|]. apply Z.div_lt_upper_bound; nia.
Qed.

Lemma choice_Ch e f g :
  in_u 32 e -> in_u 32 f -> in_u 32 g ->
  Z.lxor (Z.land e f) (Z.land (wrap 32 (Z.lnot e)) g) = Ch e f g.
Proof.
  intros He Hf Hg. apply word_eq.
  - apply in_u_bits.
    + unfold in_u in *. rewrite Z.lxor_nonneg, !Z.land_nonneg. lia.
    + intros i Hi. by rewrite Z.lxor_spec, !Z.land_spec, (in_u_high e), (in_u_high g), andb_false_r by done.
  - intros i Hi. rewrite Z.lxor_spec, !Z.land_spec. unfold wrap.
    rewrite Z.mod_pow2_bits_low, Z.lnot_spec by lia. by destruct (Z.testbit e i), (Z.testbit f i), (Z.testbit g i).
Qed.

Lemma majority_Maj a b c :
  in_u 32 a -> in_u 32 b -> in_u 32 c ->
  Z.lxor (Z.lxor (Z.land a b) (Z.land a c)) (Z.land b c) = Maj a b c.
Proof.
  intros Ha Hb Hc. apply word_eq.
  - apply in_u_bits.
    + unfold in_u in *. rewrite !Z.lxor_nonneg, !Z.land_nonneg. lia.
    + intros i Hi. by rewrite !Z.lxor_spec, !Z.land_spec, (in_u_high a), (in_u_high b) by done.
  - intros i Hi. rewrite !Z.lxor_spec, !Z.land_spec.
    by destruct (Z.testbit a i), (Z.testbit b i), (Z.testbit c i).
Qed.

Lemma constants : kK = K /\ words_of initial = H0.
Proof. split; by vm_compute. Qed.

(** ** The rounds *)

Definition hash_ok (h : Hash) : Prop := Forall (in_u 32) (words_of h).
Definition to_vars (h : Hash) : vars := vars_of (words_of h).

Lemma xor_rotr x a b c :
  in_u 32 x -> 0 < a < 32 -> 0 < b < 32 -> 0 < c < 32 ->
  Z.lxor (Z.lxor (rotr x a) (rotr x b)) (rotr x c) = parity (ROTR a x) (ROTR b x) (ROTR c x).
Proof. intros. rewrite !rotr_ROTR, xor_parity by (done || apply word_range). done. Qed.

Lemma xor_shift x a b c :
  in_u 32 x -> 0 < a < 32 -> 0 < b < 32 -> 0 <= c ->
  Z.lxor (Z.lxor (rotr x a) (rotr x b)) (Z.shiftr x c) = parity (ROTR a x) (ROTR b x) (SHR c x).
Proof.
  intros. rewrite !rotr_ROTR, shiftr_SHR, xor_parity by (done || apply word_range || by apply SHR_range). done.
Qed.

Lemma add5 a b c d e : add (add (add (add a b) c) d) e = wrap 32 (a + b + c + d + e).
Proof.
  unfold add, wrap.
  by rewrite (Zplus_mod_idemp_l (a + b)), (Zplus_mod_idemp_l (a + b + c)), (Zplus_mod_idemp_l (a + b + c + d)).
Qed.

Lemma round_step w v t :
  hash_ok v -> hash_ok (round w v t) /\ to_vars (round w v t) = step (to_vars v) (word_at kK t, word_at w t).
Proof.
  destruct v as [a b c d e f g h]. unfold hash_ok, words_of. cbn [h0 h1 h2 h3 h4 h5 h6 h7].
  rewrite !Forall_cons. intros (Ha & Hb & Hc & Hd & He & Hf & Hg & Hh & _). split.
  { cbn [round h0 h1 h2 h3 h4 h5 h6 h7]. split_and!; try done; by apply wrap_range. }
  unfold to_vars, vars_of, words_of, round, step. cbn [h0 h1 h2 h3 h4 h5 h6 h7 nth].
  rewrite choice_Ch, majority_Maj, (xor_rotr e), (xor_rotr a), !(add5 h (Sigma1 e)) by (done || lia).
  unfold Sigma0, Sigma1, add, wrap. reflexivity.
Qed.

Lemma rounds_steps w ts : forall v,
  hash_ok v ->
  hash_ok (foldl (round w) v ts) /\
  to_vars (foldl (round w) v ts) = foldl step (to_vars v) (zip (map (word_at kK) ts) (map (word_at w) ts)).
Proof.
  induction ts as [|t ts IH]; intros v Hv; cbn [foldl map zip zip_with]; [done|].
  destruct (round_step w v t Hv) as [Hok <-]. by apply IH.
Qed.

(** ** Blocks and their schedule *)

Lemma bits_of_app l1 l2 : bits_of (l1 ++ l2) = bits_of l1 ++ bits_of l2.
Proof. apply flat_map_app. Qed.

Lemma bits_of_length l : length (bits_of l) = (8 * length l)%nat.
Proof. induction l as [|b l IH]; [done|]. cbn [bits_of flat_map length]. rewrite length_app. fold (bits_of l). rewrite IH. cbn. lia. Qed.

Lemma bits_of_split n l : take (8 * n) (bits_of l) = bits_of (take n l) /\ drop (8 * n) (bits_of l) = bits_of (drop n l).
Proof.
  destruct (Nat.le_ge_cases n (length l)).
  - rewrite <-(take_drop n l) at 1 3. rewrite bits_of_app. assert (length (bits_of (take n l)) = 8 * n)%nat.
    { rewrite bits_of_length, length_take. lia. }
    by rewrite take_app_length', drop_app_length'.
  - rewrite !(take_ge _ n), !(drop_ge _ n), !take_ge, !drop_ge by (rewrite ?bits_of_length; lia). done.
Qed.

Lemma nth_chunks size n : forall l t,
  (t < n)%nat -> nth t (map value (chunks size n l)) 0 = value (take size (drop (size * t) l)).
Proof.
  induction n as [|n IH]; intros l t Ht; [lia|]. cbn [chunks map]. destruct t as [|t]; cbn [nth].
  - by rewrite Nat.mul_0_r, drop_0.
  - rewrite IH, drop_drop by lia. do 3 f_equal. lia.
Qed.

Lemma value_byte b : value (to_bits 8 (b2z b)) = b2z b.
Proof. rewrite value_to_bits. apply Z.mod_small. apply b2z_range. Qed.

Lemma four_bytes (l : bytes) k :
  (k + 4 <= length l)%nat -> take 4 (drop k l) = map (fun i => nth (k + i) l Byte.x00) [0; 1; 2; 3]%nat.
Proof.
  intros Hk. apply (nth_ext _ _ Byte.x00 Byte.x00); [rewrite length_take, length_drop, length_map; cbn [length]; lia|].
  intros n Hn. rewrite length_take, length_drop in Hn.
  rewrite !nth_lookup, lookup_take_lt, lookup_drop by lia. rewrite <-nth_lookup.
  do 4 (destruct n as [|n]; [done|]). lia.
Qed.

Lemma lor_add_low a b n : 0 <= n -> 0 <= b < 2 ^ n -> Z.lor (Z.shiftl a n) b = a * 2 ^ n + b.
Proof. intros. rewrite Z.lor_comm, lor_shiftl_add by done. lia. Qed.

Lemma block_word_value block t :
  (4 * t + 4 <= length block)%nat ->
  value (take 32 (drop (32 * t) (bits_of block))) = block_word block t /\ in_u 32 (block_word block t).
Proof.
  intros Ht. replace (32 * t)%nat with (8 * (4 * t))%nat by lia. rewrite (proj2 (bits_of_split _ _)).
  change 32%nat with (8 * 4)%nat. rewrite (proj1 (bits_of_split _ _)), four_bytes by lia.
  unfold block_word, byte_at. cbn [map]. rewrite Nat.add_0_r.
  pose proof (b2z_range (nth (4 * t) block Byte.x00)). pose proof (b2z_range (nth (4 * t + 1) block Byte.x00)).
  pose proof (b2z_range (nth (4 * t + 2) block Byte.x00)). pose proof (b2z_range (nth (4 * t + 3) block Byte.x00)).
  cbn [bits_of flat_map]. rewrite app_nil_r, !value_app, !value_byte.
  rewrite !length_app. unfold to_bits. rewrite !bits_from_length.
  generalize dependent (b2z (nth (4 * t) block Byte.x00)). intros b0.
  generalize dependent (b2z (nth (4 * t + 1) block Byte.x00)). intros b1.
  generalize dependent (b2z (nth (4 * t + 2) block Byte.x00)). intros b2.
  generalize dependent (b2z (nth (4 * t + 3) block Byte.x00)). intros b3 Hb3 Hb2 Hb1 Hb0.
  assert (Z.lor (Z.lor (Z.lor (Z.shiftl b0 24) (Z.shiftl b1 16)) (Z.shiftl b2 8)) b3
          = b0 * 2 ^ 24 + (b1 * 2 ^ 16 + (b2 * 2 ^ 8 + b3))) as ->.
  { rewrite (lor_add_low b0) by (rewrite ?Z.shiftl_mul_pow2; lia). rewrite (Z.shiftl_mul_pow2 b1) by lia.
    replace (b0 * 2 ^ 24 + b1 * 2 ^ 16) with ((b0 * 2 ^ 8 + b1) * 2 ^ 16) by lia. rewrite <-Z.shiftl_mul_pow2 by lia.
    rewrite lor_add_low by (rewrite ?Z.shiftl_mul_pow2; lia). rewrite (Z.shiftl_mul_pow2 b2) by lia.
    replace ((b0 * 2 ^ 8 + b1) * 2 ^ 16 + b2 * 2 ^ 8) with (((b0 * 2 ^ 8 + b1) * 2 ^ 8 + b2) * 2 ^ 8) by lia.
    rewrite <-Z.shiftl_mul_pow2 by lia. rewrite lor_add_low by lia. lia. }
  unfold in_u. change (Z.of_nat (8 + (8 + 8))) with 24. change (Z.of_nat (8 + 8)) with 16. lia.
Qed.

Lemma next_word_eq w t :
  in_u 32 (word_at w (t - 2)) -> in_u 32 (word_at w (t - 15)) ->
  next_word w t = add (add (add (sigma1 (word_at w (t - 2))) (word_at w (t - 7))) (sigma0 (word_at w (t - 15))))
                    (word_at w (t - 16)).
Proof.
  intros H2 H15. unfold next_word. rewrite (xor_shift (word_at w (t - 15))), (xor_shift (word_at w (t - 2))) by (done || lia).
  unfold sigma0, sigma1.
  generalize (parity (ROTR 7 (word_at w (t - 15))) (ROTR 18 (word_at w (t - 15))) (SHR 3 (word_at w (t - 15)))).
  generalize (parity (ROTR 17 (word_at w (t - 2))) (ROTR 19 (word_at w (t - 2))) (SHR 10 (word_at w (t - 2)))).
  intros s1 s0. unfold add, wrap.
  rewrite (Zplus_mod_idemp_l (s1 + word_at w (t - 7))), (Zplus_mod_idemp_l (s1 + word_at w (t - 7) + s0)).
  f_equal. lia.
Qed.

Lemma schedule_W block t :
  length block = 64%nat -> (t <= 64)%nat ->
  let w := schedule block in
  W (map value (chunks 32 16 (bits_of block))) t = map (word_at w) (seq 0 t) /\
  forall i, (i < t)%nat -> in_u 32 (word_at w i).
Proof.
  intros Hl Ht w. induction t as [|t IH]; [split; [done|lia]|]. destruct IH as [IH Hin]; [lia|].
  assert (forall i, (i < t)%nat -> nth i (map (word_at w) (seq 0 t)) 0 = word_at w i) as Hnth.
  { intros i Hi. rewrite nth_indep with (d' := word_at w 0) by (rewrite length_map, length_seq; lia).
    by rewrite map_nth, seq_nth. }
  cbn [W]. rewrite IH, seq_S, map_app. cbn [map Nat.add].
  pose proof (schedule_words block t ltac:(lia)) as E. fold w in E.
  destruct (t <? 16)%nat eqn:Hlt; bprop.
  - destruct (block_word_value block t) as [Hv Hr]; [lia|]. rewrite nth_chunks, Hv, E by lia. split; [done|].
    intros i Hi. destruct (decide (i = t)) as [->|]; [by rewrite E|]. apply Hin. lia.
  - rewrite !Hnth, <-next_word_eq, E by (try apply Hin; lia). split; [done|].
    intros i Hi. destruct (decide (i = t)) as [->|]; [rewrite E; by apply wrap_range|]. apply Hin. lia.
Qed.

Lemma compress_block h block :
  hash_ok h -> length block = 64%nat ->
  hash_ok (compress h block) /\
  to_vars (compress h block) = block_step (to_vars h) (map value (chunks 32 16 (bits_of block))).
Proof.
  intros Hh Hl. unfold compress, block_step. destruct (schedule_W block 64 Hl) as [HW _]; [lia|]. rewrite HW.
  destruct (rounds_steps (schedule block) (seq 0 64) h Hh) as [Hok E].
  replace (map (word_at kK) (seq 0 64)) with K in E by (by vm_compute).
  rewrite <-E. generalize dependent (foldl (round (schedule block)) h (seq 0 64)). intros v Hv _.
  split.
  - unfold hash_ok, words_of. cbn [h0 h1 h2 h3 h4 h5 h6 h7]. repeat (apply Forall_cons; split; [by apply wrap_range|]). done.
  - unfold to_vars, vars_of, words_of. cbn [h0 h1 h2 h3 h4 h5 h6 h7 nth]. unfold add, wrap.
    repeat (f_equal; [|by rewrite Z.add_comm]). by rewrite Z.add_comm.
Qed.

(** ** Padding, parsing and the digest *)

Lemma bits_from_app m n f : bits_from (m + n) f = bits_from m (fun i => f (i + Z.of_nat n)) ++ bits_from n f.
Proof.
  induction m as [|m IH]; cbn [bits_from Nat.add app]; [done|]. rewrite IH. by rewrite Nat2Z.inj_add.
Qed.

Lemma byte_bits x k n :
  0 <= k -> 0 <= k <= n - 8 -> to_bits 8 (b2z (z2b (Z.shiftr (wrap n x) k))) = bits_from 8 (fun i => Z.testbit x (i + k)).
Proof.
  intros Hk Hn. apply bits_from_ext. intros i Hi. rewrite b2z_z2b. change 256 with (2 ^ 8).
  rewrite Z.mod_pow2_bits_low, Z.shiftr_spec by lia. unfold wrap. by rewrite Z.mod_pow2_bits_low by lia.
Qed.

(** A number written byte by byte, most significant byte first. *)
Lemma bytes_bits m x n :
  8 * Z.of_nat m <= n ->
  bits_of (map (fun i => z2b (Z.shiftr (wrap n x) (8 * Z.of_nat (m - 1 - i)))) (seq 0 m)) = to_bits (8 * m) x.
Proof.
  intros Hn. assert (forall j, (j <= m)%nat ->
    bits_of (map (fun i => z2b (Z.shiftr (wrap n x) (8 * Z.of_nat (m - 1 - i)))) (seq (m - j) j)) = to_bits (8 * j) x) as H.
  { induction j as [|j IH]; intros Hj; [done|]. cbn [seq map]. replace (S (m - S j)) with (m - j)%nat by lia.
    cbn [bits_of flat_map]. rewrite byte_bits by lia. etransitivity; [apply f_equal, IH; lia|].
    unfold to_bits. replace (8 * S j)%nat with (8 + 8 * j)%nat by lia. rewrite (bits_from_app 8 (8 * j)). f_equal.
    apply bits_from_ext. intros i Hi. f_equal. lia. }
  specialize (H m ltac:(lia)). by rewrite Nat.sub_diag in H.
Qed.

Lemma digest_word_bits x : in_u 32 x -> bits_of (digest_word x) = to_bits 32 x.
Proof. intros Hx. pose proof (bytes_bits 4 x 32 ltac:(lia)) as E. by rewrite (wrap_small 32 x Hx) in E. Qed.

Lemma be64_bits x : bits_of (be64 (wrap 64 x)) = to_bits 64 x.
Proof. apply (bytes_bits 8 x 64). lia. Qed.

Lemma zeros_bits n : Z.to_nat (zeros (Z.of_nat (8 * n))) = (7 + 8 * zero_count n)%nat.
Proof.
  unfold zeros, zero_count. pose proof (Nat.div_mod n 64 ltac:(lia)) as Hn.
  pose proof (Nat.mod_upper_bound n 64 ltac:(lia)) as Hr.
  set (q := (n / 64)%nat) in *. set (r := (n mod 64)%nat) in *. clearbody q r. subst n.
  replace (447 - Z.of_nat (8 * (64 * q + r))) with (447 - 8 * Z.of_nat r + - Z.of_nat q * 512) by lia.
  rewrite Z.mod_add by lia. destruct (Nat.le_gt_cases r 55).
  - rewrite Z.mod_small by lia. replace (119 - r)%nat with (55 - r + 1 * 64)%nat by lia.
    rewrite Nat.Div0.mod_add, Nat.mod_small by lia. lia.
  - replace (447 - 8 * Z.of_nat r) with (959 - 8 * Z.of_nat r + -1 * 512) by lia.
    rewrite Z.mod_add, Z.mod_small, Nat.mod_small by lia. lia.
Qed.

Lemma bits_of_zeros k : bits_of (replicate k Byte.x00) = replicate (8 * k) false.
Proof.
  induction k as [|k IH]; [done|]. cbn [replicate bits_of flat_map]. etransitivity; [apply f_equal, IH|].
  by replace (8 * S k)%nat with (8 + 8 * k)%nat by lia.
Qed.

Lemma padded_bits data : padded (bits_of data) = bits_of (pad data).
Proof.
  unfold padded, pad. rewrite !bits_of_app, bits_of_length, zeros_bits, bits_of_zeros, Nat2Z.inj_mul, Z.mul_comm, be64_bits.
  rewrite replicate_add. done.
Qed.

Lemma chunks_blocks n l : chunks 512 n (bits_of l) = map bits_of (blocks n l).
Proof.
  revert l. induction n as [|n IH]; intros l; [done|]. cbn [chunks blocks map].
  destruct (bits_of_split 64 l) as [Ht Hd]. change (8 * 64)%nat with 512%nat in *. by rewrite Ht, Hd, IH.
Qed.

Lemma blocks_length n l : (64 * n <= length l)%nat -> Forall (fun b => length b = 64%nat) (blocks n l).
Proof.
  revert l. induction n as [|n IH]; intros l Hn; cbn [blocks]; constructor.
  - rewrite length_take. lia.
  - apply IH. rewrite length_drop. lia.
Qed.

Lemma compress_blocks bs : forall h,
  hash_ok h -> Forall (fun b => length b = 64%nat) bs ->
  hash_ok (foldl compress h bs) /\
  to_vars (foldl compress h bs)
  = foldl block_step (to_vars h) (map (fun block => map value (chunks 32 16 block)) (map bits_of bs)).
Proof.
  induction bs as [|b bs IH]; intros h Hh Hbs; cbn [foldl map]; [done|]. apply Forall_cons in Hbs as [Hb Hbs].
  destruct (compress_block h b Hh Hb) as [Hc <-]. by apply IH.
Qed.

Lemma digest_reference data : digest (bits_of data) = bits_of (reference_sha256 data).
Proof.
  unfold digest, parse, reference_sha256. rewrite padded_bits, bits_of_length, chunks_blocks.
  replace (8 * length (pad data) / 512)%nat with (length (pad data) / 64)%nat
    by (change 512%nat with (8 * 64)%nat; by rewrite Nat.Div0.div_mul_cancel_l).
  destruct (compress_blocks (blocks (length (pad data) / 64) (pad data)) initial) as [Hok E].
  { unfold hash_ok. by_compute. }
  { apply blocks_length. apply Nat.Div0.mul_div_le. }
  replace (vars_of H0) with (to_vars initial) by (unfold to_vars; by rewrite (proj2 constants)).
  rewrite <-E. generalize dependent (foldl compress initial (blocks (length (pad data) / 64) (pad data))).
  intros [a b c d e f g h] Hok _. revert Hok. unfold hash_ok, words_of, to_vars, vars_of, words_of.
  cbn [h0 h1 h2 h3 h4 h5 h6 h7 nth flat_map]. rewrite !Forall_cons. intros (?&?&?&?&?&?&?&?&_).
  by rewrite !bits_of_app, !digest_word_bits.
Qed.

End Fips.

(** * Properties *)

(** C14 The digest is that of FIPS 180-4 for every message.  [Fips.digest] is the
    standard on bit strings, and shares nothing with the code: the constants are the
    first 32 bits of the fractional parts of the cube roots of the first 64 primes and
    of the square roots of the first 8, computed; the functions are given bit by bit;
    the message is padded by a one bit, the least number of zeros and its length, cut
    into blocks of sixteen words, and each block goes through the schedule and the 64
    rounds.  The bits of [sha256 data] are the digest of the bits of [data] (the
    length modulo [2 ^ 64] bits, as in the code), and the digest has 32 bytes. *)
Theorem sha256_fips data :
  Fips.bits_of (sha256 data) = Fips.digest (Fips.bits_of data) /\ length (sha256 data) = 32%nat.
Proof.
  destruct (sha256_reference data) as [_ Hs]. rewrite Fips.digest_reference, <-Hs. split; [done|].
  unfold sha256. destruct (whole_blocks _ _ _) as [h rest]. by destruct (_ =? 2)%nat.
Qed.
