(* ===== verification/SourceDescriptor.v ===== *)
(** * SourceDescriptor: allowlisted, bounded and content-addressed descriptors

    [pj_base/src/source/source_descriptor.cpp] and [record_envelope.cpp] (with
    [pj_base/sdk/source/source_descriptor.hpp]).  The JSON parser and printer are
    those of [JsonText]; [ordered_json] prints its members in insertion order with
    the same printer.  A [None] of [canonicalSourceDescriptorJson] is an exception of
    the printer. *)

From stdpp Require Import sorting pretty sets.
From S2P Require Import Prelude Text ClaimCatalog Json Sha256.

(** ** Identities *)

(** [normalizedHexChars] *)
Definition normalizedHexChars (hex_chars : Z) : Z :=
  if hex_chars <? 32 then 32
  else if hex_chars >? 64 then 64
  else hex_chars - hex_chars mod 2.

Definition sha256Hex (data : bytes) (hex_chars : Z) : bytes :=
  flat_map hex_of (take (Z.to_nat (normalizedHexChars hex_chars / 2)) (sha256 data)).

Record IdentityScheme : Set := mkScheme { prefix : bytes; digest_hex_chars : Z }.

Definition hexChars (scheme : IdentityScheme) : Z := normalizedHexChars (digest_hex_chars scheme).

Definition identityFor (scheme : IdentityScheme) (canonical_json : bytes) : bytes :=
  prefix scheme ++ sha256Hex canonical_json (hexChars scheme).

(** [(c >= '0' && c <= '9') || (c >= 'a' && c <= 'f')] *)
Definition lower_hex (c : byte) : bool :=
  (48 <=? b2z c) && (b2z c <=? 57) || (97 <=? b2z c) && (b2z c <=? 102).

Definition digestOf (scheme : IdentityScheme) (identity : bytes) : option bytes :=
  let hex_chars := hexChars scheme in
  if negb (Z.of_nat (length identity) =? Z.of_nat (length (prefix scheme)) + hex_chars)
     || negb (starts_with (prefix scheme) identity)
  then None
  else
    let hex := drop (length (prefix scheme)) identity in
    if forallb lower_hex hex then Some hex else None.

(** [parseDecimalNs] *)
Definition parseDecimalNs (text : bytes) : option Z :=
  if bool_decide (text = []) || (20 <? length text)%nat || negb (forallb isAsciiDigit text) then None
  else parseNumber 64 text.

(** ** Policies *)

Record SourceDescriptorPolicy : Set := mkPolicy {
  identity_fields : list bytes; presentation_fields : list bytes; denied_keys : list bytes;
  identity : IdentityScheme;
  max_descriptor_bytes : Z; max_string_bytes : Z; max_container_entries : Z }.

(** The member initializers of the struct. *)
Definition default_policy (ids presentation denied : list bytes) (scheme : IdentityScheme)
  : SourceDescriptorPolicy := mkPolicy ids presentation denied scheme (64 * 1024) 4096 4096.

Definition kMaxDepth : Z := 16.

Definition in_fields (key : bytes) (fields : list bytes) : bool := existsb (bytes_eqb key) fields.

Definition isAllowedField (key : bytes) (policy : SourceDescriptorPolicy) : bool :=
  in_fields key (identity_fields policy) || in_fields key (presentation_fields policy).

Definition kDeniedKeyViolationPrefix : string := "carries credential-shaped key: ".

(** An unsigned number, printed. *)
Definition to_string (z : Z) : string := pretty z.

Definition quoted (s : string) : string := String "034"%char (s +:+ String "034"%char EmptyString).

Section Bounds.
Context (policy : SourceDescriptorPolicy).

Fixpoint boundsViolation (value : json) (depth : Z) : option string :=
  if depth >? kMaxDepth
  then Some ("descriptor nests deeper than " +:+ to_string kMaxDepth +:+ " levels")%string
  else
    match value with
    | JString s =>
      if Z.of_nat (length s) >? max_string_bytes policy
      then Some ("a string value exceeds the " +:+ to_string (max_string_bytes policy) +:+ "-byte limit")%string
      else None
    | JArray l =>
      if Z.of_nat (length l) >? max_container_entries policy
      then Some ("an array exceeds the " +:+ to_string (max_container_entries policy) +:+ "-entry limit")%string
      else
        (fix entries (l : list json) : option string :=
           match l with
           | [] => None
           | entry :: l' =>
             match boundsViolation entry (depth + 1) with
             | Some violation => Some violation
             | None => entries l'
             end
           end) l
    | JObject fs =>
      if Z.of_nat (length fs) >? max_container_entries policy
      then Some ("an object exceeds the " +:+ to_string (max_container_entries policy) +:+ "-member limit")%string
      else
        (fix items (fs : members) : option string :=
           match fs with
           | [] => None
           | (key, item) :: fs' =>
             if Z.of_nat (length key) >? max_string_bytes policy
             then Some ("an object key exceeds the " +:+ to_string (max_string_bytes policy) +:+ "-byte limit")%string
             else if in_fields key (denied_keys policy)
             then Some (kDeniedKeyViolationPrefix +:+ text_of key)%string
             else
               match boundsViolation item (depth + 1) with
               | Some violation => Some violation
               | None => items fs'
               end
           end) fs
    | _ => None
    end.
End Bounds.

Section Text.
Context {JT : JsonText}.

Definition parseSourceDescriptor (text : bytes) (policy : SourceDescriptorPolicy) : Expected json :=
  if Z.of_nat (length text) >? max_descriptor_bytes policy
  then Err ("descriptor exceeds the " +:+ to_string (max_descriptor_bytes policy) +:+ "-byte limit")
  else
    match parse text with
    | None => Err "descriptor is not valid JSON"
    | Some (JObject fs) =>
      match find (fun item => negb (isAllowedField item.1 policy)) fs with
      | Some item => Err ("unknown field " +:+ quoted (text_of item.1))
      | None =>
        match boundsViolation policy (JObject fs) 0 with
        | Some violation => Err violation
        | None => Ok (JObject fs)
        end
      end
    | Some _ => Err "descriptor is not a JSON object"
    end.

(** [std::sort] and [std::unique]. *)
Definition string_not_after (a b : bytes) : Prop := is_lt (string_cmp b a) = false.

#[export] Instance string_not_after_dec : RelDecision string_not_after.
Proof. intros a b. unfold string_not_after. apply _. Defined.

Fixpoint unique (l : list bytes) : list bytes :=
  match l with
  | a :: ((b :: _) as l') => if bytes_eqb a b then unique l' else a :: unique l'
  | _ => l
  end.

Definition sorted_fields (policy : SourceDescriptorPolicy) : list bytes :=
  unique (merge_sort string_not_after (identity_fields policy)).

(** [canonical[field] = value] of an [ordered_json] object. *)
Fixpoint ordered_set (key : bytes) (v : json) (fs : members) : members :=
  match fs with
  | [] => [(key, v)]
  | (k, w) :: fs' => if bytes_eqb k key then (k, v) :: fs' else (k, w) :: ordered_set key v fs'
  end.

Definition canonical_members (descriptor : json) (policy : SourceDescriptorPolicy) : members :=
  foldl (fun canonical field =>
           match jfind field descriptor with
           | Some v => ordered_set field v canonical
           | None => canonical
           end) [] (sorted_fields policy).

Definition canonicalSourceDescriptorJson (descriptor : json) (policy : SourceDescriptorPolicy)
  : option bytes := dump (JObject (canonical_members descriptor policy)).

Definition sourceDescriptorIdentity (descriptor : json) (policy : SourceDescriptorPolicy)
  : option bytes :=
  option_map (identityFor (identity policy)) (canonicalSourceDescriptorJson descriptor policy).

(** ** Record envelopes *)

Definition envelope_policy : SourceDescriptorPolicy :=
  default_policy [str "kind"; str "request"; str "v"] [str "label"]
    [str "api_key"; str "apikey"; str "token"; str "password"; str "secret"; str "credentials";
     str "authorization"; str "cert_path"] (mkScheme [] 32).

Definition is_string (j : option json) : bool := match j with Some (JString _) => true | _ => false end.
Definition is_nonempty_string (j : option json) : bool :=
  match j with Some (JString (_ :: _)) => true | _ => false end.
Definition is_number_unsigned (j : option json) : bool := match j with Some (JUInt _) => true | _ => false end.
Definition is_object (j : option json) : bool := match j with Some (JObject _) => true | _ => false end.

Definition parseSourceRecordEnvelope (text : bytes) : Expected json :=
  if bool_decide (text = []) then Err "source record descriptor is empty"
  else
    match parseSourceDescriptor text envelope_policy with
    | Err e =>
      if String.prefix kDeniedKeyViolationPrefix e then Err ("source record " +:+ e)
      else Err ("source record refused: " +:+ e)
    | Ok parsed =>
      if negb (is_nonempty_string (jfind (str "kind") parsed))
      then Err "source record needs a non-empty string 'kind'"
      else if negb (is_number_unsigned (jfind (str "v") parsed))
      then Err "source record needs an unsigned integer 'v'"
      else if negb (is_object (jfind (str "request") parsed))
      then Err "source record needs an object 'request'"
      else if bool_decide (jfind (str "label") parsed <> None) && negb (is_string (jfind (str "label") parsed))
      then Err "source record needs a string 'label'"
      else Ok parsed
    end.
End Text.

(** ** Bounds at every depth *)

(** [inside d root v]: [v] is [root] or a value nested [d] levels below it. *)
Inductive inside : Z -> json -> json -> Prop :=
  | inside_root v : inside 0 v v
  | inside_array d l entry v : entry ∈ l -> inside d entry v -> inside (d + 1) (JArray l) v
  | inside_object d fs key item v : (key, item) ∈ fs -> inside d item v -> inside (d + 1) (JObject fs) v.

(** The limits on one value. *)
Definition within_limits (policy : SourceDescriptorPolicy) (v : json) : Prop :=
  match v with
  | JString s => Z.of_nat (length s) <= max_string_bytes policy
  | JArray l => Z.of_nat (length l) <= max_container_entries policy
  | JObject fs =>
    Z.of_nat (length fs) <= max_container_entries policy /\
    forall key, key ∈ map fst fs ->
      Z.of_nat (length key) <= max_string_bytes policy /\ key ∉ denied_keys policy
  | _ => True
  end.

Definition bounded (policy : SourceDescriptorPolicy) (depth : Z) (root : json) : Prop :=
  forall d v, inside d root v -> depth + d <= kMaxDepth /\ within_limits policy v.

Lemma inside_nonneg d root v : inside d root v -> 0 <= d.
Proof. induction 1; lia. Qed.

Lemma in_fields_spec key fields : in_fields key fields = true <-> key ∈ fields.
Proof.
  unfold in_fields. rewrite existsb_exists, list_elem_of_In. split.
  - intros (x & Hx & E). apply bytes_eqb_eq in E. by subst.
  - intros H. exists key. split; [done|apply bytes_eqb_refl].
Qed.

Lemma bounded_array policy depth l :
  bounded policy depth (JArray l) <->
  depth <= kMaxDepth /\ Z.of_nat (length l) <= max_container_entries policy /\
  Forall (bounded policy (depth + 1)) l.
Proof.
  split.
  - intros H. destruct (H 0 _ (inside_root _)) as [H1 H2]. split_and!; [lia|done|].
    apply Forall_forall. intros e He d v Hv. destruct (H (d + 1) v (inside_array d l e v He Hv)). split; [lia|done].
  - intros (H1 & H2 & H3) d v Hv. rewrite Forall_forall in H3. inversion Hv; subst.
    + split; [lia|done].
    + destruct (H3 entry ltac:(done) d0 v ltac:(done)). split; [lia|done].
Qed.

Lemma bounded_object policy depth fs :
  bounded policy depth (JObject fs) <->
  depth <= kMaxDepth /\ Z.of_nat (length fs) <= max_container_entries policy /\
  Forall (fun e : bytes * json => Z.of_nat (length e.1) <= max_string_bytes policy /\ e.1 ∉ denied_keys policy /\
    bounded policy (depth + 1) e.2) fs.
Proof.
  split.
  - intros H. destruct (H 0 _ (inside_root _)) as [H1 [H2 Hk]]. split_and!; [lia|done|].
    apply Forall_forall. intros [k e] He. destruct (Hk k) as [Hk1 Hk2]; [by apply (list_elem_of_fmap_2 fst _ (k, e))|].
    split_and!; [done..|]. intros d v Hv.
    destruct (H (d + 1) v (inside_object d fs k e v He Hv)). split; [lia|done].
  - intros (H1 & H2 & H3) d v Hv. rewrite Forall_forall in H3. inversion Hv; subst.
    + split; [lia|]. split; [done|]. intros key ([k e] & -> & He)%list_elem_of_fmap.
      by destruct (H3 _ He) as (? & ? & _).
    + destruct (H3 (key, item) ltac:(done)) as (_ & _ & H). destruct (H d0 v ltac:(done)). split; [lia|done].
Qed.

Lemma boundsViolation_spec policy value : forall depth,
  boundsViolation policy value depth = None <-> bounded policy depth value.
Proof.
  induction value as [|b|z|z|f|s|l IH|fs IH] using json_nested_ind; intros depth; cbn [boundsViolation];
    (destruct (depth >? kMaxDepth) eqn:E;
     [split; [done|]; intros H; destruct (H 0 _ (inside_root _)); blia|]); bprop.
  1-5: split; [|done]; intros _ d v Hv; inversion Hv; subst; (split; [lia|done]).
  - destruct (max_string_bytes policy <? _) eqn:Es; bprop.
    + split; [done|]. intros H. destruct (H 0 _ (inside_root _)) as [_ H2]. cbn in H2. lia.
    + split; [|done]. intros _ d v Hv. inversion Hv; subst. split; [lia|done].
  - rewrite bounded_array. destruct (max_container_entries policy <? _) eqn:Es; bprop.
    + split; [done|]. intros (_ & H & _). lia.
    + transitivity (Forall (bounded policy (depth + 1)) l); [|tauto]. clear -IH.
      induction IH as [|e l He Hl IHl]; [done|]. rewrite Forall_cons, <-He.
      destruct (boundsViolation policy e (depth + 1)); [split; [done|by intros []]|]. rewrite IHl. naive_solver.
  - rewrite bounded_object. destruct (max_container_entries policy <? _) eqn:Es; bprop.
    + split; [done|]. intros (_ & H & _). lia.
    + match goal with |- _ <-> _ /\ _ /\ ?F => transitivity F; [|tauto] end. clear -IH.
      induction IH as [|[k e] fs He Hl IHl]; [done|]. rewrite Forall_cons. cbn [fst snd].
      pose proof (in_fields_spec k (denied_keys policy)) as Hk.
      destruct (_ >? max_string_bytes policy) eqn:Es; bprop; [split; [done|]; intros [[? _] _]; lia|].
      destruct (in_fields k (denied_keys policy)); [split; [done|]; intros [[_ [Hd _]] _]; by destruct Hd; apply Hk|].
      cbn [snd] in He. rewrite <-He.
      destruct (boundsViolation policy e (depth + 1)); [split; [done|]; by intros [(_ & _ & ?) _]|].
      rewrite IHl. split; [|by intros [_ ?]]. intros H. split; [|done]. split_and!; [lia| |done].
      intros Hin. by apply Hk in Hin.
Qed.

(** ** Accepted descriptors *)

Lemma find_none_forall {A} (f : A -> bool) l : find f l = None <-> Forall (fun a => f a = false) l.
Proof.
  induction l as [|a l IH]; cbn; [done|]. rewrite Forall_cons. destruct (f a); [split; [done|by intros []]|].
  rewrite IH. naive_solver.
Qed.

Definition allowed (policy : SourceDescriptorPolicy) (fs : members) : Prop :=
  forall key, key ∈ map fst fs -> key ∈ identity_fields policy \/ key ∈ presentation_fields policy.

Lemma isAllowedField_spec key policy :
  isAllowedField key policy = true <-> key ∈ identity_fields policy \/ key ∈ presentation_fields policy.
Proof. unfold isAllowedField. by rewrite orb_true_iff, !in_fields_spec. Qed.

Lemma allowed_spec policy fs :
  find (fun item => negb (isAllowedField item.1 policy)) fs = None <-> allowed policy fs.
Proof.
  rewrite find_none_forall, Forall_forall. unfold allowed. split.
  - intros H key ([k v] & -> & Hin)%list_elem_of_fmap. apply isAllowedField_spec.
    specialize (H _ Hin). by apply negb_false_iff in H.
  - intros H [k v] Hin. apply negb_false_iff, isAllowedField_spec, H. by apply (list_elem_of_fmap_2 fst _ (k, v)).
Qed.

Section Parsed.
Context {JT : JsonText}.

Lemma parseSourceDescriptor_ok text policy obj :
  parseSourceDescriptor text policy = Ok obj <->
  Z.of_nat (length text) <= max_descriptor_bytes policy /\ parse text = Some obj /\
  exists fs, obj = JObject fs /\ allowed policy fs /\ bounded policy 0 obj.
Proof.
  unfold parseSourceDescriptor. destruct (_ >? max_descriptor_bytes policy) eqn:E; bprop.
  { split; [done|]. intros (H & _). lia. }
  destruct (parse text) as [j|] eqn:Ep; [|split; [done|]; by intros (_ & ? & _)].
  destruct j as [| | | | | | |fs]; try (split; [done|]; by intros (_ & [= <-] & fs & ? & _)).
  pose proof (allowed_spec policy fs) as Ha. pose proof (boundsViolation_spec policy (JObject fs) 0) as Hb.
  destruct (find _ fs).
  { split; [done|]. intros (_ & [= <-] & fs' & [= <-] & H & _). by apply Ha in H. }
  destruct (boundsViolation policy (JObject fs) 0).
  { split; [done|]. intros (_ & [= <-] & fs' & [= <-] & _ & H). by apply Hb in H. }
  split.
  - intros [= <-]. split_and!; [done..|]. exists fs. split_and!; [done|by apply Ha|by apply Hb].
  - by intros (_ & [= <-] & _).
Qed.
End Parsed.

(** ** The canonical field order *)

Lemma ascending_sorted l : keys_ascending l = true <-> StronglySorted (fun a b => string_cmp a b = Lt) l.
Proof.
  induction l as [|a l IH]; [split; constructor|]. rewrite keys_ascending_cons, IH. split.
  - intros [? ?]. by constructor.
  - by intros [? ?]%StronglySorted_inv.
Qed.

Lemma lt_irrefl a : string_cmp a a <> Lt.
Proof. by rewrite string_cmp_refl. Qed.

Lemma ascending_nodup l : keys_ascending l = true -> NoDup l.
Proof.
  induction l as [|a l IH]; [constructor|]. intros [Hl Ha]%keys_ascending_cons. constructor; [|by apply IH].
  intros Hin. rewrite Forall_forall in Ha. by apply (lt_irrefl a), Ha.
Qed.

(** A strictly ascending list is determined by its elements. *)
Lemma ascending_unique l k :
  keys_ascending l = true -> keys_ascending k = true -> (forall x, x ∈ l <-> x ∈ k) -> l = k.
Proof.
  intros Hl Hk Hin. apply (StronglySorted_unique_strong (fun a b => string_cmp a b = Lt)).
  - intros x y _ _ H1 H2. rewrite (cmp_flip (P:=fun _ => True) x y), H1 in H2 by done. done.
  - by apply ascending_sorted.
  - by apply ascending_sorted.
  - apply NoDup_Permutation; [by apply ascending_nodup..|done].
Qed.

Lemma unique_spec l :
  StronglySorted string_not_after l ->
  keys_ascending (unique l) = true /\ forall x, x ∈ unique l <-> x ∈ l.
Proof.
  induction l as [|a l IH]; [done|]. intros [Hl Ha]%StronglySorted_inv.
  destruct (IH Hl) as [H1 H2]. destruct l as [|b l]; [done|].
  cbn [unique]. fold (unique (b :: l)). destruct (bytes_eqb a b) eqn:E.
  - apply bytes_eqb_eq in E as ->. split; [done|]. intros x. rewrite H2, !elem_of_cons. tauto.
  - apply bytes_eqb_neq in E. split; [|intros x; rewrite !(elem_of_cons _ x a), H2; done].
    apply keys_ascending_cons. split; [done|]. apply Forall_forall. intros x Hx. apply H2 in Hx.
    assert (forall y, string_not_after a y -> a <> y -> string_cmp a y = Lt) as Hlt.
    { unfold string_not_after. intros y Hy Hne. rewrite (cmp_flip (P:=fun _ => True) a y) in Hy by done.
      destruct (string_cmp a y) eqn:Ec; [by apply string_cmp_eq in Ec|done..]. }
    rewrite Forall_forall in Ha. apply elem_of_cons in Hx as [->|Hx]; [apply Hlt; [apply Ha; apply elem_of_cons; by left|done]|].
    apply Hlt; [apply Ha; apply elem_of_cons; by right|]. intros <-.
    apply StronglySorted_inv in Hl as [_ Hb]. rewrite Forall_forall in Hb. specialize (Hb a Hx).
    assert (string_not_after a b) as Hab by (apply Ha, elem_of_cons; by left).
    unfold string_not_after in *. rewrite (cmp_flip (P:=fun _ => True) a b) in Hab by done.
    destruct (string_cmp a b) eqn:Ec; [by apply string_cmp_eq in Ec|done..].
Qed.

#[export] Instance string_total : Total string_not_after.
Proof.
  intros a b. unfold string_not_after. rewrite (cmp_flip (P:=fun _ => True) a b) by done.
  destruct (string_cmp a b); cbn; auto.
Qed.

#[export] Instance string_trans : Transitive string_not_after.
Proof.
  intros x y z Hxy Hyz. unfold string_not_after in *. destruct (string_cmp z x) eqn:E; try done.
  destruct (string_cmp y x) eqn:E1; try done.
  - apply string_cmp_eq in E1. subst y. by rewrite E in Hyz.
  - assert (string_cmp x y = Lt) as E2 by (by rewrite (cmp_flip (P:=fun _ => True) y x), E1 by done).
    by rewrite (cmp_lt_trans (P:=fun _ => True) z x y I I I E E2) in Hyz.
Qed.

Lemma sorted_fields_spec policy :
  keys_ascending (sorted_fields policy) = true /\
  forall x, x ∈ sorted_fields policy <-> x ∈ identity_fields policy.
Proof.
  destruct (unique_spec (merge_sort string_not_after (identity_fields policy))) as [H1 H2].
  { apply (StronglySorted_merge_sort string_not_after). }
  split; [done|]. intros x. unfold sorted_fields. by rewrite H2, merge_sort_Permutation.
Qed.

(** ** Canonical members *)

Definition chosen (descriptor : json) (fields : list bytes) : members :=
  omap (fun field => v ← jfind field descriptor; Some (field, v)) fields.

Lemma ordered_set_new key v fs : key ∉ map fst fs -> ordered_set key v fs = fs ++ [(key, v)].
Proof.
  induction fs as [|[k w] fs IH]; cbn; [done|]. rewrite not_elem_of_cons. intros [Hk Hfs].
  rewrite (proj2 (bytes_eqb_neq k key)) by done. by rewrite IH.
Qed.

Lemma chosen_keys descriptor fields key : key ∈ map fst (chosen descriptor fields) <->
  key ∈ fields /\ jfind key descriptor <> None.
Proof.
  unfold chosen. induction fields as [|f fs IH]; cbn; [set_solver|].
  destruct (jfind f descriptor) as [v|] eqn:E; cbn; rewrite ?elem_of_cons, IH; naive_solver.
Qed.

Lemma canonical_members_chosen descriptor policy :
  canonical_members descriptor policy = chosen descriptor (sorted_fields policy).
Proof.
  unfold canonical_members. pose proof (ascending_nodup _ (proj1 (sorted_fields_spec policy))) as Hn.
  revert Hn. generalize (sorted_fields policy). intros fields Hn.
  enough (forall acc : members, (forall x, x ∈ fields -> x ∉ map fst acc) ->
    foldl (fun canonical field => match jfind field descriptor with
           | Some v => ordered_set field v canonical | None => canonical end) acc fields
    = acc ++ chosen descriptor fields) as H by (apply H; intros x _; apply not_elem_of_nil).
  induction fields as [|f fs IH]; intros acc Hacc; cbn [foldl]; [by rewrite app_nil_r|].
  apply NoDup_cons in Hn as [Hf Hn]. unfold chosen. cbn [omap list_omap].
  destruct (jfind f descriptor) as [v|] eqn:E; cbn [mbind option_bind].
  - rewrite ordered_set_new by (apply Hacc, elem_of_cons; by left). rewrite IH; [by rewrite <-app_assoc|done|].
    intros x Hx. rewrite map_app, not_elem_of_app. split; [apply Hacc, elem_of_cons; by right|].
    cbn. rewrite list_elem_of_singleton. by intros ->.
  - rewrite IH; [done..|]. intros x Hx. apply Hacc, elem_of_cons. by right.
Qed.

Lemma chosen_ext d1 d2 fields :
  (forall f, f ∈ fields -> jfind f d1 = jfind f d2) -> chosen d1 fields = chosen d2 fields.
Proof.
  intros H. unfold chosen. induction fields as [|f fs IH]; cbn; [done|].
  rewrite (H f) by (apply elem_of_cons; by left). rewrite IH; [done|]. intros g Hg. apply H, elem_of_cons. by right.
Qed.

(** ** Digests *)

Lemma normalized_range n : 32 <= normalizedHexChars n <= 64 /\ normalizedHexChars n mod 2 = 0.
Proof.
  unfold normalizedHexChars. destruct (n <? 32) eqn:E1; [by split; [lia|]|].
  destruct (n >? 64) eqn:E2; [by split; [lia|]|]. bprop. pose proof (Z.mod_pos_bound n 2 ltac:(lia)).
  assert (n - n mod 2 = n / 2 * 2) as H1 by (pose proof (Z.div_mod n 2 ltac:(lia)); lia).
  split; [|rewrite H1; apply Z.mod_mul; lia]. pose proof (Z.div_le_mono 32 n 2 ltac:(lia) ltac:(lia)).
  change (32 / 2) with 16 in *. lia.
Qed.

Lemma normalized_idem n : normalizedHexChars (normalizedHexChars n) = normalizedHexChars n.
Proof.
  pose proof (normalized_range n) as [H1 H2]. unfold normalizedHexChars at 1.
  destruct (_ <? 32) eqn:E1; bprop; [lia|]. destruct (64 <? _) eqn:E2; bprop; [lia|]. lia.
Qed.

Lemma hex_of_ok b : forallb lower_hex (hex_of b) = true.
Proof. by destruct b. Qed.

Lemma hex_text_ok l : length (flat_map hex_of l) = (2 * length l)%nat /\ forallb lower_hex (flat_map hex_of l) = true.
Proof.
  induction l as [|b l [IH1 IH2]]; [done|]. cbn [flat_map]. rewrite length_app, forallb_app, IH1, IH2, hex_of_ok.
  split; [cbn; lia|done].
Qed.

Lemma sha256_length data : length (sha256 data) = 32%nat.
Proof. unfold sha256. destruct (whole_blocks _ _ _) as [h rest]. by destruct (_ =? 2)%nat. Qed.

Lemma sha256Hex_ok data n :
  Z.of_nat (length (sha256Hex data n)) = normalizedHexChars n /\ forallb lower_hex (sha256Hex data n) = true.
Proof.
  unfold sha256Hex. destruct (hex_text_ok (take (Z.to_nat (normalizedHexChars n / 2)) (sha256 data))) as [H1 H2].
  split; [|done]. rewrite H1, length_take, sha256_length. pose proof (normalized_range n) as [Hr Hm].
  assert (normalizedHexChars n = 2 * (normalizedHexChars n / 2)) as Hd by (pose proof (Z.div_mod (normalizedHexChars n) 2); lia).
  lia.
Qed.

Lemma sha256Hex_normalized data n : sha256Hex data (normalizedHexChars n) = sha256Hex data n.
Proof. unfold sha256Hex. by rewrite normalized_idem. Qed.

Lemma digestOf_spec scheme id d :
  digestOf scheme id = Some d <->
  id = prefix scheme ++ d /\ Z.of_nat (length d) = hexChars scheme /\ forallb lower_hex d = true.
Proof.
  unfold digestOf. destruct (_ =? _) eqn:E1; bprop; cbn [negb orb].
  - destruct (starts_with (prefix scheme) id) eqn:E2; cbn [negb].
    + apply starts_with_cut in E2. remember (drop (length (prefix scheme)) id) as hex eqn:Eh. clear Eh. subst id.
      rewrite length_app in E1. destruct (forallb lower_hex hex) eqn:E3.
      * split; [intros [= <-]; split_and!; [done|lia|done]|]. intros (He & _). by apply app_inv_head in He as ->.
      * split; [done|]. intros (He & _ & Hx). apply app_inv_head in He as ->. by rewrite E3 in Hx.
    + split; [done|]. intros (-> & _). by rewrite starts_with_self in E2.
  - split; [done|]. intros (-> & Hl & _). rewrite length_app in E1. lia.
Qed.

(** ** Re-importing canonical text *)

Lemma chosen_sub descriptor fields fs :
  descriptor = JObject fs -> Forall (fun e => e ∈ fs) (chosen descriptor fields).
Proof.
  intros ->. apply Forall_forall. intros [k v] (f & Hf & Hv)%list_elem_of_omap. cbn in Hv.
  destruct (obj_find f fs) as [w|] eqn:E; [|done]. injection Hv as <- <-. clear -E.
  induction fs as [|[k w'] fs IH]; [done|]. cbn in E. destruct (bytes_eqb k f) eqn:Ek.
  - injection E as ->. apply bytes_eqb_eq in Ek as ->. apply elem_of_cons. by left.
  - apply elem_of_cons. right. by apply IH.
Qed.

Lemma chosen_ascending descriptor fields :
  keys_ascending fields = true -> keys_ascending (map fst (chosen descriptor fields)) = true.
Proof.
  induction fields as [|f fs IH]; [done|]. intros [Hl Hf]%keys_ascending_cons. unfold chosen. cbn.
  destruct (jfind f descriptor); cbn; [|by apply IH]. apply keys_ascending_cons. split; [by apply IH|].
  rewrite Forall_forall in Hf |- *. intros x [Hx _]%(chosen_keys descriptor fs). by apply Hf.
Qed.

Lemma obj_find_ascending key v fs :
  keys_ascending (map fst fs) = true -> (key, v) ∈ fs -> obj_find key fs = Some v.
Proof.
  induction fs as [|[k w] fs IH]; [by intros _ ?%elem_of_nil|]. intros [Hk Hlt]%keys_ascending_cons Hin. cbn.
  apply elem_of_cons in Hin as [[= -> ->]|Hin]; [by rewrite bytes_eqb_refl|].
  rewrite (proj2 (bytes_eqb_neq k key)); [by apply IH|]. intros ->. rewrite Forall_forall in Hlt.
  apply (lt_irrefl key), Hlt. by apply (list_elem_of_fmap_2 fst _ (key, v)).
Qed.

Lemma chosen_again descriptor fields :
  keys_ascending fields = true -> chosen (JObject (chosen descriptor fields)) fields = chosen descriptor fields.
Proof.
  intros Ha. apply chosen_ext. intros f Hf. cbn [jfind].
  destruct (jfind f descriptor) as [v|] eqn:E.
  - apply obj_find_ascending; [by apply chosen_ascending|].
    apply list_elem_of_omap. exists f. split; [done|]. by rewrite E.
  - destruct (obj_find f (chosen descriptor fields)) as [w|] eqn:E1; [|done]. exfalso.
    assert (f ∈ map fst (chosen descriptor fields)) as Hin.
    { clear -E1. revert E1. generalize (chosen descriptor fields). intros fs. induction fs as [|[k x] fs IH]; [done|].
      cbn. destruct (bytes_eqb k f) eqn:Ek; [apply bytes_eqb_eq in Ek as ->|]; rewrite elem_of_cons; auto. }
    apply chosen_keys in Hin as [_ Hin]. by rewrite E in Hin.
Qed.

Lemma wire_members fs :
  wire (JObject fs) = JObject fs -> Forall (fun e : bytes * json => wire e.2 = e.2) fs.
Proof.
  cbn. intros [= H]. induction fs as [|[k v] fs IH]; [constructor|]. cbn in H. injection H as Hv H.
  constructor; [done|by apply IH].
Qed.

Lemma wire_members_eq fs :
  Forall (fun e : bytes * json => wire e.2 = e.2) fs -> wire (JObject fs) = JObject fs.
Proof.
  intros H. cbn. f_equal. induction H as [|[k v] fs Hv H IH]; [done|]. cbn in *. by rewrite Hv, IH.
Qed.

Lemma members_le fs fs' :
  NoDup (map fst fs') -> Forall (fun e : bytes * json => e ∈ fs) fs' -> (length fs' <= length fs)%nat.
Proof.
  intros Hn Hs. rewrite <-(length_map fst fs'), <-(length_map fst fs). apply submseteq_length.
  apply NoDup_submseteq; [done|]. rewrite Forall_forall in Hs.
  intros k ([k' v] & -> & Hin)%list_elem_of_fmap. apply (list_elem_of_fmap_2 fst _ (k', v)). by apply Hs.
Qed.

Lemma bounded_sub policy depth fs fs' :
  NoDup (map fst fs') -> Forall (fun e : bytes * json => e ∈ fs) fs' ->
  bounded policy depth (JObject fs) -> bounded policy depth (JObject fs').
Proof.
  rewrite !bounded_object. intros Hn Hs (H1 & H2 & H3). pose proof (members_le fs fs' Hn Hs). split_and!; [done|lia|].
  rewrite Forall_forall in Hs, H3 |- *. intros e He. by apply H3, Hs.
Qed.

(** What re-imports: the canonical members of an accepted descriptor. *)
Lemma canonical_accepted {JT : JsonText} policy fs text :
  wf (JObject fs) = true -> wire (JObject fs) = JObject fs -> bounded policy 0 (JObject fs) ->
  canonicalSourceDescriptorJson (JObject fs) policy = Some text ->
  Z.of_nat (length text) <= max_descriptor_bytes policy ->
  parseSourceDescriptor text policy = Ok (JObject (canonical_members (JObject fs) policy)).
Proof.
  intros Hwf Hwire Hb Ht Hlen. rewrite canonical_members_chosen. unfold canonicalSourceDescriptorJson in Ht.
  rewrite canonical_members_chosen in Ht. destruct (sorted_fields_spec policy) as [Hasc Hin].
  set (fields := sorted_fields policy) in *. pose proof (chosen_sub (JObject fs) fields fs eq_refl) as Hsub.
  pose proof (chosen_ascending (JObject fs) fields Hasc) as Hkeys. set (cs := chosen (JObject fs) fields) in *.
  assert (wf (JObject cs) = true) as Hwfc.
  { apply wf_object in Hwf as [_ Hwf]. apply wf_object. split; [done|]. rewrite Forall_forall in Hwf, Hsub |- *. auto. }
  assert (wire (JObject cs) = JObject cs) as Hwirec.
  { apply wire_members in Hwire. apply wire_members_eq. rewrite Forall_forall in Hwire, Hsub |- *. auto. }
  apply parseSourceDescriptor_ok. split_and!; [done| |].
  - by rewrite (parse_dump _ _ Hwfc Ht), Hwirec.
  - exists cs. split_and!; [done| |].
    + intros key Hkey. left. apply Hin. by apply chosen_keys in Hkey as [? _].
    + apply (bounded_sub policy 0 fs); [by apply ascending_nodup|done..].
Qed.

(** * Properties *)

(** C16 [parseSourceDescriptor] accepts exactly the texts within the size limit that
    parse to an object whose keys are all listed by the policy and in which, at every depth,
    nesting stays within 16 levels, strings, keys and containers within the
    policy's limits, and no key is a denied one: no credential-shaped key gets
    through at any depth. *)
Theorem descriptor_accepts {JT : JsonText} text policy obj :
  parseSourceDescriptor text policy = Ok obj <->
  Z.of_nat (length text) <= max_descriptor_bytes policy /\ parse text = Some obj /\
  exists fs, obj = JObject fs /\
    (forall key, key ∈ map fst fs -> key ∈ identity_fields policy \/ key ∈ presentation_fields policy) /\
    (forall d v, inside d obj v -> d <= 16 /\ within_limits policy v).
Proof. apply parseSourceDescriptor_ok. Qed.

(** Identities mint and parse consistently: whatever width is configured, a digest
    has between 32 and 64 lowercase hex digits, the digest of a minted identity is the
    hash's prefix, and [digestOf] accepts exactly the scheme's prefix followed by such
    a digest, so that a digest that names a file holds nothing but hex digits. *)
Theorem identity_roundtrip scheme canonical_json :
  digestOf scheme (identityFor scheme canonical_json)
    = Some (sha256Hex canonical_json (digest_hex_chars scheme)) /\
  32 <= hexChars scheme <= 64 /\ hexChars scheme mod 2 = 0 /\
  (forall id d, digestOf scheme id = Some d <->
     id = prefix scheme ++ d /\ Z.of_nat (length d) = hexChars scheme /\ forallb lower_hex d = true) /\
  (forall id1 id2 d, digestOf scheme id1 = Some d -> digestOf scheme id2 = Some d -> id1 = id2).
Proof.
  pose proof (normalized_range (digest_hex_chars scheme)) as [Hr Hm].
  refine (conj _ (conj Hr (conj Hm (conj _ _)))).
  - apply digestOf_spec. unfold identityFor, hexChars. rewrite sha256Hex_normalized.
    split; [done|]. apply sha256Hex_ok.
  - intros id d. apply digestOf_spec.
  - intros id1 id2 d (-> & _)%digestOf_spec (-> & _)%digestOf_spec. done.
Qed.

(** C15 The identity addresses the request: it depends only on the members the policy
    calls identity fields (not on presentation fields, nor on the order or
    repetition of the policy's list); and the canonical text of an accepted
    descriptor is itself accepted and has the same canonical text and identity, so a
    re-import does not change the request. *)
Theorem canonical_identity {JT : JsonText} policy fs text :
  wf (JObject fs) = true -> wire (JObject fs) = JObject fs -> bounded policy 0 (JObject fs) ->
  canonicalSourceDescriptorJson (JObject fs) policy = Some text ->
  Z.of_nat (length text) <= max_descriptor_bytes policy ->
  (exists again, parseSourceDescriptor text policy = Ok again /\
     canonicalSourceDescriptorJson again policy = Some text /\
     sourceDescriptorIdentity again policy = sourceDescriptorIdentity (JObject fs) policy) /\
  forall fs' policy',
    (forall f, f ∈ identity_fields policy' <-> f ∈ identity_fields policy) ->
    (forall f, f ∈ identity_fields policy -> obj_find f fs' = obj_find f fs) ->
    identity policy' = identity policy ->
    sourceDescriptorIdentity (JObject fs') policy' = sourceDescriptorIdentity (JObject fs) policy.
Proof.
  intros Hwf Hwire Hb Ht Hlen. destruct (sorted_fields_spec policy) as [Hasc Hin]. split.
  - eexists. split; [by apply canonical_accepted|].
    assert (canonical_members (JObject (canonical_members (JObject fs) policy)) policy
            = canonical_members (JObject fs) policy) as Hc
      by (rewrite !canonical_members_chosen; by apply chosen_again).
    unfold sourceDescriptorIdentity, canonicalSourceDescriptorJson in *. by rewrite Hc.
  - intros fs' policy' Hfields Hfind Hid.
    destruct (sorted_fields_spec policy') as [Hasc' Hin'].
    assert (sorted_fields policy' = sorted_fields policy) as Heq.
    { apply ascending_unique; [done..|]. intros x. by rewrite Hin', Hin, Hfields. }
    unfold sourceDescriptorIdentity, canonicalSourceDescriptorJson.
    rewrite !canonical_members_chosen, Heq, Hid. do 3 f_equal. apply chosen_ext. intros f Hf. by apply Hfind, Hin.
Qed.

Definition sample_policy : SourceDescriptorPolicy :=
  default_policy [str "u"; str "t"; str "u"] [str "l"] [str "token"] (mkScheme (str "x:") 32).

Definition sample_descriptor : members :=
  [(str "l", JNull); (str "t", JBool true); (str "u", JObject [(str "p", JUInt 4)])].

Lemma sample_canonical_length :
  match @canonicalSourceDescriptorJson TreeText.tree_text (JObject sample_descriptor) sample_policy with
  | Some text => Z.of_nat (length text) <=? max_descriptor_bytes sample_policy
  | None => false
  end = true.
Proof. vm_compute. reflexivity. Qed.

Example canonical_identity_witness :
  @sourceDescriptorIdentity TreeText.tree_text
    (JObject [(str "t", JBool true); (str "u", JObject [(str "p", JUInt 4)])]) sample_policy
  = @sourceDescriptorIdentity TreeText.tree_text (JObject sample_descriptor) sample_policy.
Proof.
  pose proof sample_canonical_length as Hlength.
  destruct (@canonicalSourceDescriptorJson TreeText.tree_text (JObject sample_descriptor) sample_policy) as [text|] eqn:E.
  - refine (proj2 (@canonical_identity TreeText.tree_text sample_policy sample_descriptor text _ _ _ E _) _ _ _ _ _).
    + reflexivity.
    + reflexivity.
    + apply boundsViolation_spec. vm_compute. reflexivity.
    + by apply Z.leb_le.
    + reflexivity.
    + intros f Hf. apply elem_of_cons in Hf as [->|Hf]; [reflexivity|]. apply elem_of_cons in Hf as [->|Hf]; [reflexivity|].
      apply elem_of_cons in Hf as [->|Hf]; [reflexivity|]. by apply elem_of_nil in Hf.
    + reflexivity.
  - discriminate Hlength.
Defined.

(** [parseSourceRecordEnvelope] accepts exactly the descriptors of the envelope's
    policy with a non-empty string [kind], an unsigned [v], an object [request] and, if
    there is one, a string [label]; and nothing else but those four members. *)
Theorem envelope_accepts {JT : JsonText} text obj :
  parseSourceRecordEnvelope text = Ok obj <->
  text <> [] /\ parseSourceDescriptor text envelope_policy = Ok obj /\
  (exists c s, jfind (str "kind") obj = Some (JString (c :: s))) /\
  (exists v, jfind (str "v") obj = Some (JUInt v)) /\
  (exists request, jfind (str "request") obj = Some (JObject request)) /\
  (jfind (str "label") obj = None \/ exists label, jfind (str "label") obj = Some (JString label)).
Proof.
  unfold parseSourceRecordEnvelope. case_bool_decide as Ht; [split; [done|]; by intros (? & _)|].
  destruct (parseSourceDescriptor text envelope_policy) as [parsed|e].
  2: { destruct (String.prefix _ e); (split; [done|]; by intros (_ & ? & _)). }
  transitivity (parsed = obj /\ is_nonempty_string (jfind (str "kind") parsed) = true /\
    is_number_unsigned (jfind (str "v") parsed) = true /\ is_object (jfind (str "request") parsed) = true /\
    (jfind (str "label") parsed = None \/ is_string (jfind (str "label") parsed) = true)).
  - destruct (is_nonempty_string _); cbn [negb]; [|split; [done|by intros (_ & ? & _)]].
    destruct (is_number_unsigned _); cbn [negb]; [|split; [done|by intros (_ & _ & ? & _)]].
    destruct (is_object _); cbn [negb]; [|split; [done|by intros (_ & _ & _ & ? & _)]].
    destruct (jfind (str "label") parsed) as [j|]; cbn [bool_decide negb].
    + rewrite bool_decide_true by done. cbn [andb]. destruct (is_string (Some j)); cbn [negb].
      * split; [intros [= ->]; auto 6|by intros [-> _]].
      * split; [done|]. by intros (_ & _ & _ & _ & [?|?]).
    + rewrite bool_decide_false by (intros H; by apply H). cbn [andb]. split; [intros [= ->]; auto 6|by intros [-> _]].
  - split.
    + intros (-> & H1 & H2 & H3 & H4). split_and!; [done..| | | |].
      * destruct (jfind (str "kind") obj) as [[| | | | |[|c s]| |]|]; try done. eauto.
      * destruct (jfind (str "v") obj) as [[]|]; try done. eauto.
      * destruct (jfind (str "request") obj) as [[]|]; try done. eauto.
      * destruct H4 as [H4|H4]; [by left|right]. destruct (jfind (str "label") obj) as [[]|]; try done. eauto.
    + intros (_ & [= ->] & (c & s & ->) & (v & ->) & (r & ->) & [->|(l & ->)]); cbn; auto 6.
Qed.
