(* ===== verification/RequestCache.v ===== *)
(** * RequestCache: the artifact cache as programs of system calls

    [pj_base/src/source/request_cache.cpp] and [file_lock.cpp].  An operation is a
    program: a tree of calls of the operating system and of the validator, each
    followed by what the code does with the answer.  What the calls do is in
    [CacheSystem.v]; nothing here depends on it.

    A path is the name of a file in the cache's root; the texts of system errors are part
    of the answers.  The programs are those of the POSIX build; a lock conversion is
    spelled with its two halves, the removal of the old lock and the attempt at the new one,
    which is what both builds do. *)

From stdpp Require Import sorting pretty.
From S2P Require Import Prelude Text SourceDescriptor.

(** ** Layout *)

Record CacheSpec : Set := mkSpec {
  root : bytes; artifact_suffix : bytes; cs_identity : IdentityScheme }.

Section Layout.
Context (spec : CacheSpec).

(** [CacheLayout::artifact] *)
Definition artifact_of (digest : bytes) : bytes := digest ++ artifact_suffix spec.
Definition lockOf (artifact : bytes) : bytes := artifact ++ str ".lock".
Definition touchOf (artifact : bytes) : bytes := artifact ++ str ".touch".
Definition partialOf (pid : N) (artifact : bytes) : bytes := artifact ++ str ".partial." ++ str (pretty pid).

Inductive Kind : Set := kArtifact | kPartial | kOther.

Definition marker : bytes := artifact_suffix spec ++ str ".partial.".

(** The kind of a file name, and the artifact it belongs to. *)
Definition classify (name : bytes) : Kind * bytes :=
  let hex := Z.to_nat (hexChars (cs_identity spec)) in
  if negb ((hex <=? length name)%nat && forallb lower_hex (take hex name)) then (kOther, [])
  else
    let rest := drop hex name in
    if bytes_eqb rest (artifact_suffix spec) then (kArtifact, name)
    else if (length marker <? length rest)%nat && starts_with marker rest then
      if forallb isAsciiDigit (drop (length marker) rest)
      then (kPartial, take hex name ++ artifact_suffix spec)
      else (kOther, [])
    else (kOther, []).
End Layout.

(** ** Calls *)

(** [std::error_code]: none, "no such file", or another. *)
Inductive Errc : Set := ENone | EMissing | EOther (text : string).

Definition is_error (ec : Errc) : bool := match ec with ENone => false | _ => true end.
Definition isMissing (ec : Errc) : bool := match ec with EMissing => true | _ => false end.
Definition ec_message (ec : Errc) : string :=
  match ec with ENone => "Success" | EMissing => "No such file or directory" | EOther text => text end.

(** [fs::file_status] of the root. *)
Inductive RootStatus : Set := RootMissing | RootDirectory | RootOther.

Inductive FlockAnswer : Set := Locked | WouldBlock | FlockError (text : string).

Notation fd := nat.

Inductive call : Set -> Type :=
  | IsRegular (f : bytes) : call (bool * Errc)            (** [fs::is_regular_file(f, ec)] *)
  | FileSize (f : bytes) : call (Z * Errc)                (** [fs::file_size(f, ec)] *)
  | GetTime (f : bytes) : call (Z * Errc)                 (** [fs::last_write_time(f, ec)] *)
  | SetTime (f : bytes) (time : Z) : call Errc            (** [fs::last_write_time(f, time, ec)] *)
  | Truncate (f : bytes) : call unit                      (** [std::ofstream(f, binary | trunc)] *)
  | Remove (f : bytes) : call (bool * Errc)               (** [fs::remove(f, ec)] *)
  | Rename (from to : bytes) : call Errc                  (** [fs::rename(from, to, ec)] *)
  | Chmod0600 (f : bytes) : call unit
  | SyncFile (f : bytes) : call (option string)           (** [None]: synced; [Some reason]: not *)
  | SyncDir : call unit
  | EnsureDir : call unit                                 (** [ensureDir0700(root)] *)
  | StatusRoot : call (RootStatus * Errc)                 (** [fs::status(root, ec)] *)
  | ListRoot : call (list bytes * Errc)                   (** a pass of a [directory_iterator] *)
  | Space : call (Z * Errc)                               (** [fs::space(root, ec).available] *)
  | Now : call Z                                          (** [file_time_type::clock::now()] *)
  | Open (f : bytes) : call (fd + string)                 (** [open(f, O_RDWR | O_CREAT | O_CLOEXEC, 0600)] *)
  | Flock (h : fd) (exclusive : bool) : call FlockAnswer  (** [flock(h, (LOCK_EX or LOCK_SH) | LOCK_NB)] *)
  | Unflock (h : fd) : call unit                          (** the first half of a lock conversion *)
  | Close (h : fd) : call unit
  | Validate (f digest : bytes) : call (option string).   (** [None]: accepted; [Some reason]: rejected *)

Inductive prog (A : Type) : Type :=
  | Ret (a : A)
  | Do {X : Set} (c : call X) (k : X -> prog A).
Arguments Ret {A} a.
Arguments Do {A X} c k.

Fixpoint pthen {A B} (m : prog A) (f : A -> prog B) : prog B :=
  match m with Ret a => f a | Do c k => Do c (fun x => pthen (k x) f) end.

Definition do_ {X : Set} (c : call X) : prog X := Do c Ret.

Notation "'let>' x := m 'in' k" := (pthen m (fun x => k))
  (at level 10, x pattern, m at level 100, k at level 200) : pj_scope.

(** ** File locks *)

(** [tryAcquireHandle]: the handle, or whether the lock is held elsewhere and the error. *)
Definition tryAcquireHandle (path : bytes) (exclusive : bool) : prog (fd + (bool * string)) :=
  let> opened := do_ (Open path) in
  match opened with
  | inr text => Ret (inr (false, ("could not open lock file " +:+ ClaimCatalog.text_of path +:+ ": " +:+ text)%string))
  | inl h =>
    let> locked := do_ (Flock h exclusive) in
    match locked with
    | Locked => Ret (inl h)
    | WouldBlock =>
      let> _ := do_ (Close h) in
      Ret (inr (true, ("lock is held elsewhere: " +:+ ClaimCatalog.text_of path)%string))
    | FlockError text =>
      let> _ := do_ (Close h) in
      Ret (inr (false, ("flock failed on " +:+ ClaimCatalog.text_of path +:+ ": " +:+ text)%string))
    end
  end.

Definition tryExclusive (path : bytes) : prog (fd + (bool * string)) := tryAcquireHandle path true.

Definition tryShared (path : bytes) : prog (fd + string) :=
  let> r := tryAcquireHandle path false in
  Ret (match r with inl h => inl h | inr (_, e) => inr e end).

(** [FileLock::release] of a lock that may have been released. *)
Definition release (handle : option fd) : prog unit :=
  match handle with Some h => do_ (Close h) | None => Ret tt end.

(** [downgradeToShared] of a lock that is held: its handle afterwards, [None] when the
    lock had to be released. *)
Definition downgradeToShared (h : fd) : prog (option fd) :=
  let> _ := do_ (Unflock h) in
  let> locked := do_ (Flock h false) in
  match locked with
  | Locked => Ret (Some h)
  | _ => let> _ := do_ (Close h) in Ret None
  end.

(** ** The LRU stamp *)

Definition touchStamp (artifact : bytes) : prog unit :=
  let stamp := touchOf artifact in
  let> _ := do_ (Truncate stamp) in
  let> now := do_ Now in
  let> _ := do_ (SetTime stamp now) in
  do_ (Chmod0600 stamp).

Definition readLruStamp (artifact : bytes) : prog (option Z * Errc) :=
  let> r := do_ (GetTime (touchOf artifact)) in
  if negb (is_error r.2) then Ret (Some r.1, r.2)
  else
    let> r := do_ (GetTime artifact) in
    if negb (is_error r.2) then Ret (Some r.1, r.2) else Ret (None, r.2).

(** ** The cache's operations *)

Record CacheError : Set := mkError { error_message : string; retryable : bool }.

(** [Hit]: its lease is the handle of a shared lock. *)
Record Hit : Set := mkHit { hit_path : bytes; hit_lease : fd }.

(** [WriteTransaction::Impl] until it is finished; a [WriteTransaction] is an optional one. *)
Record WriteTransaction : Set := mkTransaction {
  wt_digest : bytes; wt_artifact : bytes; wt_partial : bytes; wt_lock : fd }.

Section Cache.
Context (spec : CacheSpec) (has_validator : bool).

Definition resolveIdentity (identity : bytes) : CacheError + (bytes * bytes) :=
  match digestOf (cs_identity spec) identity with
  | None =>
    inl (mkError ("invalid descriptor identity (want " +:+ ClaimCatalog.text_of (prefix (cs_identity spec)) +:+ "<" +:+
                  to_string (hexChars (cs_identity spec)) +:+ " lowercase hex>)") false)
  | Some digest =>
    if bool_decide (root spec = []) then inl (mkError "cache root is not configured" false)
    else inr (digest, artifact_of spec digest)
  end.

(** [resolveIdentity] with [create_root]. *)
Definition resolve_creating (identity : bytes) : prog (CacheError + (bytes * bytes)) :=
  match resolveIdentity identity with
  | inl e => Ret (inl e)
  | inr r => let> _ := do_ EnsureDir in Ret (inr r)
  end.

Definition pathFor (identity : bytes) : bytes :=
  match resolveIdentity identity with inl _ => [] | inr (_, artifact) => artifact end.

(** [lookup]: why it missed, or the hit. *)
Definition lookup (identity : bytes) : prog (string + Hit) :=
  match resolveIdentity identity with
  | inl e => Ret (inl (error_message e))
  | inr (digest, artifact) =>
    if negb has_validator then Ret (inl "no artifact validator configured"%string)
    else
      let> there := do_ (IsRegular artifact) in
      if negb there.1 || is_error there.2 then Ret (inl "no artifact for this identity"%string)
      else
        let> lease := tryShared (lockOf artifact) in
        match lease with
        | inr e => Ret (inl ("artifact is locked by a materialization or eviction (retry): " +:+ e)%string)
        | inl h =>
          let> rejected := do_ (Validate artifact digest) in
          match rejected with
          | Some reason => let> _ := do_ (Close h) in Ret (inl ("artifact rejected: " +:+ reason)%string)
          | None => let> _ := touchStamp artifact in Ret (inr (mkHit artifact h))
          end
        end
  end.

Definition acquireReadLease (identity : bytes) : prog (CacheError + (bytes * fd)) :=
  let> resolved := resolve_creating identity in
  match resolved with
  | inl e => Ret (inl e)
  | inr (_, artifact) =>
    let> lease := tryShared (lockOf artifact) in
    match lease with
    | inr e => Ret (inl (mkError ("cache read lease unavailable: " +:+ e) true))
    | inl h => Ret (inr (artifact, h))
    end
  end.

(** [pid] is the number of the calling process. *)
Definition beginWrite (pid : N) (identity : bytes) : prog (CacheError + WriteTransaction) :=
  let> resolved := resolve_creating identity in
  match resolved with
  | inl e => Ret (inl e)
  | inr (digest, artifact) =>
    let> lock := tryExclusive (lockOf artifact) in
    match lock with
    | inr (contended, e) => Ret (inl (mkError ("cache materialize lock unavailable: " +:+ e) contended))
    | inl h => Ret (inr (mkTransaction digest artifact (partialOf pid artifact) h))
    end
  end.

(** The lambda [fail] of [commit]. *)
Definition commit_fail (t : WriteTransaction) (reason : string) : prog (CacheError + Hit) :=
  let> _ := do_ (Remove (wt_partial t)) in
  let> _ := do_ (Close (wt_lock t)) in
  Ret (inl (mkError reason false)).

(** [commit] from [downgradeToShared] on. *)
Definition hand_off (t : WriteTransaction) : prog (CacheError + Hit) :=
  let> kept := downgradeToShared (wt_lock t) in
  match kept with
  | Some h => Ret (inr (mkHit (wt_artifact t) h))
  | None =>
    let> lease := tryShared (lockOf (wt_artifact t)) in
    match lease with
    | inr _ =>
      Ret (inl (mkError "published, but the read lease was lost to a concurrent holder; retry the lookup" true))
    | inl h =>
      let> there := do_ (IsRegular (wt_artifact t)) in
      if negb there.1 || is_error there.2
      then let> _ := do_ (Close h) in Ret (inl (mkError "artifact vanished during the lease handoff" false))
      else Ret (inr (mkHit (wt_artifact t) h))
    end
  end.

(** [commit] of a transaction that is not finished. *)
Definition commit_pending (t : WriteTransaction) : prog (CacheError + Hit) :=
  let what := ("cache commit rejected " +:+ ClaimCatalog.text_of (wt_partial t) +:+ ": ")%string in
  if negb has_validator then commit_fail t (what +:+ "no artifact validator configured")
  else
    let> rejected := do_ (Validate (wt_partial t) (wt_digest t)) in
    match rejected with
    | Some reason => commit_fail t (what +:+ reason)
    | None =>
      let> _ := do_ (Chmod0600 (wt_partial t)) in
      let> synced := do_ (SyncFile (wt_partial t)) in
      match synced with
      | Some reason => commit_fail t reason
      | None =>
        let> ec := do_ (Rename (wt_partial t) (wt_artifact t)) in
        if is_error ec then commit_fail t ("atomic rename failed: " +:+ ec_message ec)
        else
          let> _ := do_ SyncDir in
          let> _ := touchStamp (wt_artifact t) in
          hand_off t
      end
    end.

Definition commit (impl : option WriteTransaction) : prog (CacheError + Hit) :=
  match impl with
  | None => Ret (inl (mkError "write transaction already finished" false))
  | Some t => commit_pending t
  end.

(** [abort], which the destructor and the move assignment run too. *)
Definition abort (impl : option WriteTransaction) : prog unit :=
  match impl with
  | None => Ret tt
  | Some t => let> _ := do_ (Remove (wt_partial t)) in do_ (Close (wt_lock t))
  end.
End Cache.

(** ** Cleanup *)

Record CleanupPolicy : Set := mkCleanupPolicy {
  max_total_bytes : Z; min_free_bytes : Z; orphan_partial_age : Z }.

Record CleanupResult : Set := mkResult {
  bytes_scanned : Z; bytes_reclaimed : Z; bytes_held_over_target : Z; target_met : bool; had_errors : bool }.

Definition result_default : CleanupResult := mkResult 0 0 0 true false.

Definition saturatedAdd (a b : Z) : Z := if b >? UINT64_MAX - a then UINT64_MAX else a + b.

Definition set_scanned v r := mkResult v (bytes_reclaimed r) (bytes_held_over_target r) (target_met r) (had_errors r).
Definition add_reclaimed v r :=
  mkResult (bytes_scanned r) (saturatedAdd (bytes_reclaimed r) v) (bytes_held_over_target r) (target_met r) (had_errors r).
Definition set_met held met r := mkResult (bytes_scanned r) (bytes_reclaimed r) held met (had_errors r).
Definition note_if (error : bool) r :=
  mkResult (bytes_scanned r) (bytes_reclaimed r) (bytes_held_over_target r) (target_met r) (had_errors r || error).

Definition noteErrorUnlessMissing (ec : Errc) (r : CleanupResult) : CleanupResult :=
  note_if (is_error ec && negb (isMissing ec)) r.

(** [cleanupResultSummary] *)
Definition cleanupResultSummary (r : CleanupResult) : string :=
  ("cache cleanup scanned " +:+ to_string (bytes_scanned r) +:+ " bytes and reclaimed " +:+
   to_string (bytes_reclaimed r) +:+ " bytes; target " +:+ (if target_met r then "met" else "not met") +:+
   (if negb (Z.eqb (bytes_held_over_target r) 0%Z)
    then ", " +:+ to_string (bytes_held_over_target r) +:+ " bytes remain over target" else "") +:+
   (if had_errors r then ", filesystem or lock errors occurred" else ""))%string.

Record StalePartial : Set := mkStale { sp_file : bytes; sp_artifact : bytes }.
Record EvictionCandidate : Set := mkCandidate { ec_file : bytes; ec_size : Z; ec_stamp : Z }.
Record Scan : Set := mkScan {
  stale_partials : list StalePartial; candidates : list EvictionCandidate; scan_total : Z }.

Section Cleanup.
Context (spec : CacheSpec) (policy : CleanupPolicy).

Fixpoint scan_entries (entries : list bytes) (now : Z) (scan : Scan) (result : CleanupResult)
  : prog (Scan * CleanupResult) :=
  match entries with
  | [] => Ret (scan, result)
  | entry :: entries' =>
    let> regular := do_ (IsRegular entry) in
    if negb regular.1 || is_error regular.2
    then scan_entries entries' now scan (note_if (is_error regular.2) result)
    else
      match classify spec entry with
      | (kPartial, artifact) =>
        let> mtime := do_ (GetTime entry) in
        let scan :=
          if negb (is_error mtime.2) && (now - mtime.1 >=? orphan_partial_age policy)
          then mkScan (stale_partials scan ++ [mkStale entry artifact]) (candidates scan) (scan_total scan)
          else scan in
        scan_entries entries' now scan (note_if (is_error mtime.2) result)
      | (kArtifact, _) =>
        let> size := do_ (FileSize entry) in
        if is_error size.2 then scan_entries entries' now scan (note_if true result)
        else
          let> stamp := readLruStamp entry in
          let candidate := mkCandidate entry size.1 (default INT64_MIN stamp.1) in
          scan_entries entries' now
            (mkScan (stale_partials scan) (candidates scan ++ [candidate]) (saturatedAdd (scan_total scan) size.1)) result
      | (kOther, _) => scan_entries entries' now scan result
      end
  end.

Definition scanRoot (result : CleanupResult) : prog (Scan * CleanupResult) :=
  let> now := do_ Now in
  let> entries := do_ ListRoot in
  let> scanned := scan_entries entries.1 now (mkScan [] [] 0) result in
  Ret (if is_error entries.2
       then (scanned.1, note_if true (set_met (bytes_held_over_target scanned.2) false scanned.2))
       else scanned).

(** The body of the loop of [removeStalePartials], under the lock. *)
Definition remove_stale (file : bytes) (result : CleanupResult) : prog CleanupResult :=
  let> regular := do_ (IsRegular file) in
  if negb regular.1 then Ret (noteErrorUnlessMissing regular.2 result)
  else
    let> mtime := do_ (GetTime file) in
    if is_error mtime.2 then Ret (noteErrorUnlessMissing mtime.2 result)
    else
      let> now := do_ Now in
      if now - mtime.1 <? orphan_partial_age policy then Ret result
      else
        let> size := do_ (FileSize file) in
        let> removed := do_ (Remove file) in
        let result := noteErrorUnlessMissing removed.2 result in
        Ret (if negb (is_error removed.2) && removed.1 && negb (is_error size.2)
             then add_reclaimed size.1 result else result).

Fixpoint removeStalePartials (partials : list StalePartial) (result : CleanupResult) : prog CleanupResult :=
  match partials with
  | [] => Ret result
  | partial :: partials' =>
    let> lock := tryExclusive (lockOf (sp_artifact partial)) in
    match lock with
    | inr (contended, _) => removeStalePartials partials' (note_if (negb contended) result)
    | inl h =>
      let> result := remove_stale (sp_file partial) result in
      let> _ := do_ (Close h) in
      removeStalePartials partials' result
    end
  end.

Definition bytesOverTarget (total : Z) (available : option Z) : Z :=
  let size_excess := if total >? max_total_bytes policy then total - max_total_bytes policy else 0 in
  let free_deficit :=
    match available with
    | Some a => if a <? min_free_bytes policy then min_free_bytes policy - a else 0
    | None => 0
    end in
  Z.max size_excess free_deficit.

(** The accounts of the eviction loop: [total], [available] and the result. *)
Record Accounts : Set := mkAccounts { a_total : Z; a_available : option Z; a_result : CleanupResult }.

Definition with_result (f : CleanupResult -> CleanupResult) (a : Accounts) : Accounts :=
  mkAccounts (a_total a) (a_available a) (f (a_result a)).

(** The body of the loop of [evictUntilUnderBudget], under the victim's lock. *)
Definition evict (victim : EvictionCandidate) (a : Accounts) : prog Accounts :=
  let> regular := do_ (IsRegular (ec_file victim)) in
  if negb regular.1 then Ret (with_result (noteErrorUnlessMissing regular.2) a)
  else
    let> size := do_ (FileSize (ec_file victim)) in
    if is_error size.2 then Ret (with_result (noteErrorUnlessMissing size.2) a)
    else if negb (size.1 =? ec_size victim) then Ret a
    else
      let> stamp := readLruStamp (ec_file victim) in
      match stamp.1 with
      | None => Ret (with_result (noteErrorUnlessMissing stamp.2) a)
      | Some current =>
        if negb (current =? ec_stamp victim) then Ret a
        else
          let> removed := do_ (Remove (ec_file victim)) in
          let a := with_result (noteErrorUnlessMissing removed.2) a in
          if is_error removed.2 || negb removed.1 then Ret a
          else
            let> touch := do_ (Remove (touchOf (ec_file victim))) in
            Ret (mkAccounts (wrap 64 (a_total a - ec_size victim))
                   (option_map (fun v => saturatedAdd v (ec_size victim)) (a_available a))
                   (note_if (is_error touch.2) (add_reclaimed (ec_size victim) (a_result a))))
      end.

Fixpoint evict_all (victims : list EvictionCandidate) (a : Accounts) : prog Accounts :=
  match victims with
  | [] => Ret a
  | victim :: victims' =>
    if bytesOverTarget (a_total a) (a_available a) =? 0 then Ret a
    else
      let> lock := tryExclusive (lockOf (ec_file victim)) in
      match lock with
      | inr (contended, _) => evict_all victims' (with_result (note_if (negb contended)) a)
      | inl h =>
        let> a := evict victim a in
        let> _ := do_ (Close h) in
        evict_all victims' a
      end
  end.

(** [std::sort] by stamp. *)
Definition stamp_le (a b : EvictionCandidate) : Prop := ec_stamp a <= ec_stamp b.

#[export] Instance stamp_le_dec : RelDecision stamp_le.
Proof. intros a b. unfold stamp_le. apply _. Defined.

Definition evictUntilUnderBudget (cs : list EvictionCandidate) (total : Z) (result : CleanupResult)
  : prog CleanupResult :=
  let run available :=
    let> a := evict_all (merge_sort stamp_le cs) (mkAccounts total available result) in
    let held := bytesOverTarget (a_total a) (a_available a) in
    Ret (set_met held (held =? 0) (a_result a)) in
  if negb (min_free_bytes policy =? 0) then
    let> space := do_ Space in
    if is_error space.2 then Ret (note_if true (set_met (bytes_held_over_target result) false result))
    else run (Some space.1)
  else run None.

(** [cleanupImpl] without a probe. *)
Definition cleanup : prog CleanupResult :=
  if bool_decide (root spec = []) then Ret result_default
  else
    let> status := do_ StatusRoot in
    match status with
    | (RootMissing, ENone) | (_, EMissing) => Ret result_default
    | (RootDirectory, ENone) =>
      let> scanned := scanRoot result_default in
      let '(scan, result) := scanned in
      if negb (target_met result) then Ret result
      else
        let result := set_scanned (scan_total scan) result in
        let> result := removeStalePartials (stale_partials scan) result in
        evictUntilUnderBudget (candidates scan) (scan_total scan) result
    | _ =>
      let has_budget := negb (max_total_bytes policy =? UINT64_MAX) || negb (min_free_bytes policy =? 0) in
      Ret (note_if true (set_met 0 (negb has_budget) result_default))
    end.
End Cleanup.
