(* ===== verification/CacheSystem.v ===== *)
(** * CacheSystem: the operating system under the cache, and the agents that use it

    What the calls of [RequestCache.v] do, as a relation that allows every failure: the
    contents of the root, advisory locks on open files, and handles.  A handle stands for an
    open file description, so that locks conflict between handles of one process as
    between processes; numbers are not reused.  Any number of agents, in
    any processes, run operations, write to the file of a transaction, and keep and
    release hits and leases; one step is one call of one agent.

    Not modelled: other programs that change the root, permissions, durability,
    directories and links among the entries, and reads of a file that overlap a write
    (a validator sees one state of its file, and rejects a file that is not there). *)

From stdpp Require Import gmap sorting.
From S2P Require Import Prelude Text SourceDescriptor RequestCache.

Record File : Set := mkFile { content : bytes; mtime : Z }.

#[export] Instance file_eq_dec : EqDecision File.
Proof. solve_decision. Defined.

Record os : Set := mkOs {
  files : gmap bytes File; opened : gmap fd bytes; locks : gmap fd bool; next_fd : fd; has_root : bool }.

Definition set_files (fs : gmap bytes File) (s : os) : os :=
  mkOs fs (opened s) (locks s) (next_fd s) (has_root s).
Definition set_locks (ls : gmap fd bool) (s : os) : os :=
  mkOs (files s) (opened s) ls (next_fd s) (has_root s).

(** A lock can be had unless another handle of the same file holds a conflicting one. *)
Definition lock_free (s : os) (h : fd) (f : bytes) (exclusive : bool) : Prop :=
  forall h' exclusive', h' <> h -> opened s !! h' = Some f -> locks s !! h' = Some exclusive' ->
    exclusive = false /\ exclusive' = false.

Section System.
Context (validator : bytes -> bytes -> option string).

(** [sys s c x s']: in the state [s] the call [c] may answer [x] and lead to [s']. *)
Definition sys (s : os) {X} (c : call X) : X -> os -> Prop :=
  match c in call X return X -> os -> Prop with
  | IsRegular f => fun x s' => s' = s /\
    (x = (true, ENone) /\ is_Some (files s !! f) \/
     x.1 = false /\ (files s !! f = None \/ exists text, x.2 = EOther text))
  | FileSize f => fun x s' => s' = s /\
    ((exists file, files s !! f = Some file /\ x = (Z.of_nat (length (content file)), ENone)) \/
     files s !! f = None /\ x.2 = EMissing \/ exists text, x.2 = EOther text)
  | GetTime f => fun x s' => s' = s /\
    ((exists file, files s !! f = Some file /\ x = (mtime file, ENone)) \/
     files s !! f = None /\ x.2 = EMissing \/ exists text, x.2 = EOther text)
  | SetTime f time => fun x s' =>
    (exists file, files s !! f = Some file /\ x = ENone /\
       s' = set_files (<[f := mkFile (content file) time]> (files s)) s) \/
    is_error x = true /\ s' = s
  | Truncate f => fun _ s' =>
    s' = s \/ exists time, s' = set_files (<[f := mkFile [] time]> (files s)) s
  | Remove f => fun x s' =>
    x = (true, ENone) /\ is_Some (files s !! f) /\ s' = set_files (delete f (files s)) s \/
    x.1 = false /\ s' = s /\ (files s !! f = None \/ is_error x.2 = true)
  | Rename from to => fun x s' =>
    (exists file, files s !! from = Some file /\ x = ENone /\
       s' = set_files (<[to := file]> (delete from (files s))) s) \/
    is_error x = true /\ s' = s
  | Chmod0600 _ => fun _ s' => s' = s
  | SyncFile _ => fun _ s' => s' = s
  | SyncDir => fun _ s' => s' = s
  | EnsureDir => fun _ s' =>
    s' = s \/ s' = mkOs (files s) (opened s) (locks s) (next_fd s) true
  | StatusRoot => fun x s' => s' = s /\
    (x = (RootDirectory, ENone) /\ has_root s = true \/
     x = (RootMissing, EMissing) /\ has_root s = false \/
     x.1 <> RootDirectory /\ exists text, x.2 = EOther text)
  | ListRoot => fun _ s' => s' = s
  | Space => fun _ s' => s' = s
  | Now => fun _ s' => s' = s
  | Open f => fun x s' =>
    (exists text, x = inr text /\ s' = s) \/
    x = inl (next_fd s) /\
    exists file, file = default (mkFile [] (mtime file)) (files s !! f) /\
      s' = mkOs (<[f := file]> (files s)) (<[next_fd s := f]> (opened s)) (locks s) (S (next_fd s)) (has_root s)
  | Flock h exclusive => fun x s' =>
    x = Locked /\ (exists f, opened s !! h = Some f /\ lock_free s h f exclusive) /\
      s' = set_locks (<[h := exclusive]> (locks s)) s \/
    x <> Locked /\ s' = s
  | Unflock h => fun _ s' => s' = set_locks (delete h (locks s)) s
  | Close h => fun _ s' =>
    s' = mkOs (files s) (delete h (opened s)) (delete h (locks s)) (next_fd s) (has_root s)
  | Validate f digest => fun x s' => s' = s /\
    match files s !! f with
    | Some file => x = validator (content file) digest
    | None => x <> None
    end
  end.

(** ** Agents *)

(** What an operation of the cache ends with. *)
Inductive outcome : Set :=
  | OLookup (r : string + Hit)
  | OLease (r : CacheError + (bytes * fd))
  | OBegin (r : CacheError + WriteTransaction)
  | OCommit (r : CacheError + Hit)
  | OCleanup (r : CleanupResult)
  | ODone.

(** An agent runs an operation or keeps what one gave it. *)
Inductive agent : Type :=
  | Running (p : prog outcome)
  | LookedUp (hit : Hit)
  | Committed (hit : Hit)
  | Leased (artifact : bytes) (lease : fd)
  | Writing (t : WriteTransaction)
  | Finished (o : outcome).

Definition agent_of (o : outcome) : agent :=
  match o with
  | OLookup (inr hit) => LookedUp hit
  | OLease (inr (artifact, lease)) => Leased artifact lease
  | OBegin (inr t) => Writing t
  | OCommit (inr hit) => Committed hit
  | _ => Finished o
  end.

Definition returning {A} (f : A -> outcome) (p : prog A) : prog outcome := let> a := p in Ret (f a).

Context (spec : CacheSpec) (has_validator : bool).

(** The operations a client may start. *)
Inductive starts : prog outcome -> Prop :=
  | start_lookup identity : starts (returning OLookup (lookup spec has_validator identity))
  | start_lease identity : starts (returning OLease (acquireReadLease spec identity))
  | start_write pid identity : starts (returning OBegin (beginWrite spec pid identity))
  | start_cleanup policy : starts (returning OCleanup (cleanup spec policy)).

Record world : Type := mkWorld { system : os; agents : list agent }.

Inductive step : world -> world -> Prop :=
  | step_start s ags p : starts p -> step (mkWorld s ags) (mkWorld s (ags ++ [Running p]))
  | step_call s ags i (X : Set) (c : call X) k x s' :
    ags !! i = Some (Running (Do c k)) -> sys s c x s' ->
    step (mkWorld s ags) (mkWorld s' (<[i := Running (k x)]> ags))
  | step_return s ags i o :
    ags !! i = Some (Running (Ret o)) -> step (mkWorld s ags) (mkWorld s (<[i := agent_of o]> ags))
  | step_write s ags i t file :
    ags !! i = Some (Writing t) ->
    step (mkWorld s ags) (mkWorld (set_files (<[wt_partial t := file]> (files s)) s) ags)
  | step_commit s ags i t :
    ags !! i = Some (Writing t) ->
    step (mkWorld s ags) (mkWorld s (<[i := Running (returning OCommit (commit has_validator (Some t)))]> ags))
  | step_abort s ags i t :
    ags !! i = Some (Writing t) ->
    step (mkWorld s ags) (mkWorld s (<[i := Running (returning (fun _ => ODone) (abort (Some t)))]> ags))
  | step_release s ags i a h :
    ags !! i = Some a -> a = LookedUp h \/ a = Committed h \/ a = Leased (hit_path h) (hit_lease h) ->
    step (mkWorld s ags)
      (mkWorld s (<[i := Running (returning (fun _ => ODone) (release (Some (hit_lease h))))]> ags)).

Inductive reachable (s0 : os) : world -> Prop :=
  | reachable_start : reachable s0 (mkWorld s0 [])
  | reachable_step w w' : reachable s0 w -> step w w' -> reachable s0 w'.

(** ** A system in which nothing fails *)

(** A lock is free, decided. *)
Definition lock_freeb (s : os) (h : fd) (f : bytes) (exclusive : bool) : bool :=
  forallb (fun e : fd * bool =>
    (e.1 =? h)%nat || negb (bool_decide (opened s !! e.1 = Some f)) || negb exclusive && negb e.2)
    (map_to_list (locks s)).

(** The answer and the state when nothing fails: free space and the clock are given. *)
Definition answer (space now : Z) (s : os) {X} (c : call X) : X * os :=
  match c in call X return X * os with
  | IsRegular f => (match files s !! f with Some _ => (true, ENone) | None => (false, EMissing) end, s)
  | FileSize f =>
    (match files s !! f with Some file => (Z.of_nat (length (content file)), ENone) | None => (0, EMissing) end, s)
  | GetTime f => (match files s !! f with Some file => (mtime file, ENone) | None => (0, EMissing) end, s)
  | SetTime f time =>
    match files s !! f with
    | Some file => (ENone, set_files (<[f := mkFile (content file) time]> (files s)) s)
    | None => (EMissing, s)
    end
  | Truncate f => (tt, set_files (<[f := mkFile [] now]> (files s)) s)
  | Remove f =>
    match files s !! f with
    | Some _ => ((true, ENone), set_files (delete f (files s)) s)
    | None => ((false, ENone), s)
    end
  | Rename from to =>
    match files s !! from with
    | Some file => (ENone, set_files (<[to := file]> (delete from (files s))) s)
    | None => (EMissing, s)
    end
  | Chmod0600 _ => (tt, s)
  | SyncFile _ => (None, s)
  | SyncDir => (tt, s)
  | EnsureDir => (tt, mkOs (files s) (opened s) (locks s) (next_fd s) true)
  | StatusRoot => (if has_root s then (RootDirectory, ENone) else (RootMissing, EMissing), s)
  | ListRoot => ((map fst (map_to_list (files s)), ENone), s)
  | Space => ((space, ENone), s)
  | Now => (now, s)
  | Open f =>
    (inl (next_fd s),
     mkOs (<[f := default (mkFile [] now) (files s !! f)]> (files s)) (<[next_fd s := f]> (opened s))
       (locks s) (S (next_fd s)) (has_root s))
  | Flock h exclusive =>
    match opened s !! h with
    | Some f =>
      if lock_freeb s h f exclusive
      then (Locked, set_locks (<[h := exclusive]> (locks s)) s) else (WouldBlock, s)
    | None => (WouldBlock, s)
    end
  | Unflock h => (tt, set_locks (delete h (locks s)) s)
  | Close h =>
    (tt, mkOs (files s) (delete h (opened s)) (delete h (locks s)) (next_fd s) (has_root s))
  | Validate f digest =>
    (match files s !! f with Some file => validator (content file) digest | None => Some "no file"%string end, s)
  end.

(** A program run alone in that system. *)
Fixpoint run {A} (space now : Z) (p : prog A) (s : os) : A * os :=
  match p with
  | Ret a => (a, s)
  | Do c k => let '(x, s') := answer space now s c in run space now (k x) s'
  end.

Lemma lock_freeb_spec s h f exclusive : lock_freeb s h f exclusive = true -> lock_free s h f exclusive.
Proof.
  unfold lock_freeb, lock_free. intros H h' e Hne Hopen Hlock. rewrite forallb_forall in H.
  apply elem_of_map_to_list, list_elem_of_In in Hlock. specialize (H _ Hlock). cbn in H.
  rewrite bool_decide_true in H by done. apply Nat.eqb_neq in Hne. rewrite Hne in H. cbn in H.
  by destruct exclusive, e.
Qed.

(** The answers are possible ones. *)
Lemma answer_sys space now s X (c : call X) : sys s c (answer space now s c).1 (answer space now s c).2.
Proof.
  destruct c; cbn [answer sys fst snd]; try done.
  - split; [done|]. destruct (files s !! f); cbn; [left; eauto|right; eauto].
  - split; [done|]. destruct (files s !! f) as [file|]; cbn; eauto.
  - split; [done|]. destruct (files s !! f) as [file|]; cbn; eauto.
  - destruct (files s !! f) as [file|]; cbn; eauto 6.
  - eauto.
  - destruct (files s !! f) as [file|]; cbn; eauto 6.
  - destruct (files s !! from) as [file|]; cbn; eauto 6.
  - auto.
  - split; [done|]. destruct (has_root s); auto.
  - right. split; [done|]. eexists. split; [|done]. by destruct (files s !! f).
  - destruct (opened s !! h) as [f|] eqn:E; cbn; [|by right].
    destruct (lock_freeb s h f exclusive) eqn:El; cbn; [left|by right].
    split_and!; [done| |done]. exists f. split; [done|]. by apply lock_freeb_spec.
  - split; [done|]. by destruct (files s !! f).
Qed.
End System.
