(* ===== verification/CacheSafety.v ===== *)
(** * CacheSafety: what no interleaving of the cache's operations can break

    A small logic of programs: [wp p Q R K] says that from the handles [R] and the
    knowledge [K] about files, [p] uses the system as the cache's discipline allows
    (whoever changes an artifact or a partial holds its identity's lock exclusively, and
    nobody removes a lock file) and ends in [Q].  Its soundness lemma [call_sound]
    carries an invariant of all agents through any call of one of them. *)

From stdpp Require Import gmap sorting pretty.
From S2P Require Import Prelude Text SourceDescriptor RequestCache CacheSystem.

(** ** Names *)

Section Names.
Context (spec : CacheSpec).

Definition is_digest (d : bytes) : Prop :=
  Z.of_nat (length d) = hexChars (cs_identity spec) /\ forallb lower_hex d = true.

Definition is_artifact (f : bytes) : Prop := exists d, is_digest d /\ f = artifact_of spec d.
Definition is_lock (f : bytes) : Prop := exists a, is_artifact a /\ f = lockOf a.
Definition is_touch (f : bytes) : Prop := exists a, is_artifact a /\ f = touchOf a.

(** The lock file that guards a name, if it is an artifact or a partial. *)
Definition guard (f : bytes) : option bytes :=
  match classify spec f with (kOther, _) => None | (_, a) => Some (lockOf a) end.

Definition managed (f : bytes) : Prop := guard f <> None \/ is_touch f \/ is_lock f.

Lemma digest_parts d rest :
  is_digest d ->
  let hex := Z.to_nat (hexChars (cs_identity spec)) in
  ((hex <=? length (d ++ rest))%nat && forallb lower_hex (take hex (d ++ rest))) = true /\
  drop hex (d ++ rest) = rest /\ take hex (d ++ rest) = d.
Proof.
  intros [Hl Hx] hex. assert (hex = length d) as -> by (unfold hex; lia).
  rewrite take_app_length, drop_app_length, length_app, Hx, andb_true_r. split_and!; [|done..].
  apply Nat.leb_le. lia.
Qed.

Lemma classify_artifact a : is_artifact a -> classify spec a = (kArtifact, a).
Proof.
  intros (d & Hd & ->). unfold classify, artifact_of.
  destruct (digest_parts d (artifact_suffix spec) Hd) as (-> & -> & _). by rewrite bytes_eqb_refl.
Qed.

Lemma guard_artifact a : is_artifact a -> guard a = Some (lockOf a).
Proof. intros Ha. unfold guard. by rewrite classify_artifact. Qed.

Lemma suffix_ne (a b : bytes) : b <> [] -> bytes_eqb (a ++ b) a = false.
Proof. intros Hb. apply bytes_eqb_neq. intros H. apply Hb. rewrite <-(app_nil_r a) in H at 2. by apply app_inv_head in H. Qed.

(** A name that continues an artifact's: a partial, or none of the managed kinds. *)
Lemma classify_beside a tl :
  is_artifact a -> tl <> [] ->
  classify spec (a ++ tl) =
    if (9 <? length tl)%nat && starts_with (str ".partial.") tl && forallb isAsciiDigit (drop 9 tl)
    then (kPartial, a) else (kOther, []).
Proof.
  intros (d & Hd & ->) Htl. unfold classify, artifact_of. rewrite <-app_assoc.
  destruct (digest_parts d (artifact_suffix spec ++ tl) Hd) as (-> & -> & ->). cbn [negb].
  rewrite suffix_ne by done. unfold marker. rewrite starts_with_same, !length_app.
  change (length (str ".partial.")) with 9%nat.
  assert ((length (artifact_suffix spec) + 9 <? length (artifact_suffix spec) + length tl)%nat = (9 <? length tl)%nat)
    as -> by (destruct (9 <? length tl)%nat eqn:E; blia).
  destruct (_ && _) eqn:E; [|done]. cbn [andb].
  replace (drop (length (artifact_suffix spec) + 9) (artifact_suffix spec ++ tl)) with (drop 9 tl); [done|].
  by rewrite <-drop_drop, drop_app_length.
Qed.

Lemma guard_partial pid a : is_artifact a -> guard (partialOf pid a) = Some (lockOf a).
Proof.
  intros Ha. unfold guard, partialOf. destruct (Json.pretty_digits_only pid) as [Hd Hne].
  rewrite classify_beside by done. rewrite length_app. change (length (str ".partial.")) with 9%nat.
  change (drop 9 (str ".partial." ++ str (pretty pid))) with (str (pretty pid)). rewrite Hd.
  assert ((9 <? 9 + length (str (pretty pid)))%nat = true) as ->.
  { apply Nat.ltb_lt. destruct (str (pretty pid)); [done|]. cbn. lia. }
  done.
Qed.

Lemma guard_lock f : is_lock f -> guard f = None.
Proof. intros (a & Ha & ->). unfold guard, lockOf. by rewrite classify_beside. Qed.

Lemma guard_touch f : is_touch f -> guard f = None.
Proof. intros (a & Ha & ->). unfold guard, touchOf. by rewrite classify_beside. Qed.

Lemma touch_not_lock f : is_touch f -> is_lock f -> False.
Proof.
  intros (a & _ & ->) (b & _ & H). unfold touchOf, lockOf in H.
  assert (last (a ++ str ".touch") = last (b ++ str ".lock")) as E by by rewrite H.
  rewrite !last_app in E. by cbn in E.
Qed.

Lemma classify_kind f k a : classify spec f = (k, a) -> k <> kOther -> is_artifact a.
Proof.
  unfold classify. set (hex := Z.to_nat (hexChars (cs_identity spec))).
  destruct (negb _) eqn:E; [by intros [= <- <-]|]. apply negb_false_iff, andb_prop in E as [Hl Hx].
  apply Nat.leb_le in Hl.
  assert (is_digest (take hex f)) as Hd.
  { split; [|done]. rewrite length_take, Nat.min_l by done. unfold hex, hexChars.
    pose proof (normalized_range (digest_hex_chars (cs_identity spec))) as [Hr _]. lia. }
  destruct (bytes_eqb _ _) eqn:Es.
  - apply bytes_eqb_eq in Es. intros [= <- <-] _. exists (take hex f). split; [done|].
    unfold artifact_of. by rewrite <-Es, take_drop.
  - destruct (_ && _); [|by intros [= <- <-]]. destruct (forallb isAsciiDigit _); [|by intros [= <- <-]].
    intros [= <- <-] _. by exists (take hex f).
Qed.

Lemma guard_is_lock f l : guard f = Some l -> is_lock l.
Proof.
  unfold guard. destruct (classify spec f) as [k a] eqn:E. destruct k; [| |done]; intros [= <-]; exists a;
    (split; [by eapply classify_kind|done]).
Qed.

Lemma lockOf_inj a b : lockOf a = lockOf b -> a = b.
Proof. apply app_inv_tail. Qed.
End Names.

(** ** A logic of programs *)

(** What an agent holds: handles, each with its lock file and the mode it holds it
    in, if it does; and what it knows of files: that one exists, or also that the
    validator accepts it for a digest. *)
Notation handles := (gmap fd (bytes * option bool)).
Notation knowledge := (gmap bytes (option bytes)).

Section Logic.
Context (spec : CacheSpec).

Definition guarded (R : handles) (f : bytes) : Prop :=
  exists h l m, guard spec f = Some l /\ R !! h = Some (l, Some m).

Definition guarded_exclusive (R : handles) (f : bytes) : Prop :=
  exists h l, guard spec f = Some l /\ R !! h = Some (l, Some true).

(** Knowledge of a guarded file may be kept. *)
Definition learns (R : handles) (K : knowledge) (f : bytes) (v : option bytes) (K' : knowledge) : Prop :=
  K' = K \/ guarded R f /\ K' = <[f := v]> K.

Definition renamed (K : knowledge) (from to : bytes) : knowledge :=
  match K !! from with Some v => <[to := v]> (delete from K) | None => delete to (delete from K) end.

Definition wp_call {X} (c : call X) : (X -> handles -> knowledge -> Prop) -> handles -> knowledge -> Prop :=
  match c in call X return (X -> handles -> knowledge -> Prop) -> handles -> knowledge -> Prop with
  | IsRegular f => fun Q R K =>
    (exists K', learns R K f None K' /\ Q (true, ENone) R K') /\ forall ec, Q (false, ec) R K
  | Validate f d => fun Q R K =>
    (exists K', learns R K f (Some d) K' /\ Q None R K') /\ forall reason, Q (Some reason) R K
  | SetTime f _ => fun Q R K => is_touch spec f /\ forall x, Q x R K
  | Truncate f => fun Q R K => is_touch spec f /\ Q tt R K
  | Remove f => fun Q R K =>
    (guarded_exclusive R f \/ is_touch spec f) /\ forall x, Q x R (delete f K)
  | Rename from to => fun Q R K =>
    guarded_exclusive R from /\ guarded_exclusive R to /\ Q ENone R (renamed K from to) /\
    forall ec, is_error ec = true -> Q ec R K
  | Open f => fun Q R K =>
    is_lock spec f /\ (forall h, R !! h = None -> Q (inl h) (<[h := (f, None)]> R) K) /\ forall e, Q (inr e) R K
  | Flock h exclusive => fun Q R K =>
    exists f, R !! h = Some (f, None) /\ Q Locked (<[h := (f, Some exclusive)]> R) K /\
      forall x, x <> Locked -> Q x R K
  | Unflock h => fun Q R K => exists f m, R !! h = Some (f, m) /\ Q tt (<[h := (f, None)]> R) ∅
  | Close h => fun Q R K => is_Some (R !! h) /\ Q tt (delete h R) ∅
  | _ => fun Q R K => forall x, Q x R K
  end.

Fixpoint wp {A} (p : prog A) (Q : A -> handles -> knowledge -> Prop) (R : handles) (K : knowledge) : Prop :=
  match p with
  | Ret a => Q a R K
  | Do c k => wp_call c (fun x R K => wp (k x) Q R K) R K
  end.

Lemma wp_call_mono {X} (c : call X) (Q1 Q2 : X -> handles -> knowledge -> Prop) R K :
  (forall x R K, Q1 x R K -> Q2 x R K) -> wp_call c Q1 R K -> wp_call c Q2 R K.
Proof. intros H. destruct c; cbn; try (by auto); naive_solver. Qed.

Lemma wp_mono {A} (p : prog A) (Q1 Q2 : A -> handles -> knowledge -> Prop) R K :
  (forall a R K, Q1 a R K -> Q2 a R K) -> wp p Q1 R K -> wp p Q2 R K.
Proof.
  intros H. revert R K. induction p as [a|X c k IH]; intros R K; cbn [wp]; [apply H|].
  apply wp_call_mono. intros x R' K'. apply IH.
Qed.

Lemma wp_then {A B} (m : prog A) (f : A -> prog B) Q R K :
  wp m (fun a R K => wp (f a) Q R K) R K -> wp (pthen m f) Q R K.
Proof.
  revert R K. induction m as [a|X c k IH]; intros R K; cbn [pthen wp]; [done|].
  apply wp_call_mono. intros x R' K'. apply IH.
Qed.

Lemma wp_do {X : Set} (c : call X) Q R K : wp_call c Q R K -> wp (do_ c) Q R K.
Proof. done. Qed.

(** ** Invariant *)

Context (validator : bytes -> bytes -> option string).

Notation owner := (handles * knowledge)%type.

Definition true_of (s : os) (f : bytes) (v : option bytes) : Prop :=
  exists file, files s !! f = Some file /\
    match v with Some d => validator (content file) d = None | None => True end.

Record invariant (s : os) (owners : list owner) : Prop := {
  held_open : forall i R K h f m, owners !! i = Some (R, K) -> R !! h = Some (f, m) ->
    opened s !! h = Some f /\ locks s !! h = m /\ (h < next_fd s)%nat;
  held_apart : forall i j R1 K1 R2 K2 h, owners !! i = Some (R1, K1) -> owners !! j = Some (R2, K2) ->
    is_Some (R1 !! h) -> is_Some (R2 !! h) -> i = j;
  compatible : forall h1 h2 f e1 e2, h1 <> h2 -> opened s !! h1 = Some f -> opened s !! h2 = Some f ->
    locks s !! h1 = Some e1 -> locks s !! h2 = Some e2 -> e1 = false /\ e2 = false;
  known : forall i R K f v, owners !! i = Some (R, K) -> K !! f = Some v -> guarded R f /\ true_of s f v;
  fresh : forall h, (next_fd s <= h)%nat -> opened s !! h = None /\ locks s !! h = None;
  owned : forall h, is_Some (opened s !! h) \/ is_Some (locks s !! h) ->
    exists i R K, owners !! i = Some (R, K) /\ is_Some (R !! h) }.

(** Two agents cannot guard a file when one of them does so exclusively. *)
Lemma guard_excludes s owners i j R1 K1 R2 K2 f :
  invariant s owners -> owners !! i = Some (R1, K1) -> owners !! j = Some (R2, K2) -> i <> j ->
  guarded_exclusive R1 f -> guarded R2 f -> False.
Proof.
  intros I Hi Hj Hij (h1 & l & Hg & H1) (h2 & l' & m & Hg' & H2). rewrite Hg in Hg'. injection Hg' as <-.
  destruct (held_open _ _ I _ _ _ _ _ _ Hi H1) as (Ho1 & Hl1 & _).
  destruct (held_open _ _ I _ _ _ _ _ _ Hj H2) as (Ho2 & Hl2 & _).
  assert (h1 <> h2) as Hne.
  { intros ->. apply Hij. by eapply (held_apart _ _ I); [exact Hi|exact Hj|eexists..]. }
  by destruct (compatible _ _ I _ _ _ _ _ Hne Ho1 Ho2 Hl1 Hl2).
Qed.

(** A change by one agent that leaves the handles and the files of the others. *)
Lemma agent_changed s s' owners i R K R' K' :
  invariant s owners -> owners !! i = Some (R, K) ->
  (next_fd s <= next_fd s')%nat ->
  (forall h, R !! h = None -> (h < next_fd s)%nat -> opened s' !! h = opened s !! h /\ locks s' !! h = locks s !! h) ->
  (forall h f m, R' !! h = Some (f, m) ->
     opened s' !! h = Some f /\ locks s' !! h = m /\ (h < next_fd s')%nat /\ (is_Some (R !! h) \/ h = next_fd s)) ->
  (forall h1 h2 f e1 e2, h1 <> h2 -> opened s' !! h1 = Some f -> opened s' !! h2 = Some f ->
     locks s' !! h1 = Some e1 -> locks s' !! h2 = Some e2 -> e1 = false /\ e2 = false) ->
  (forall h, (next_fd s' <= h)%nat -> opened s' !! h = None /\ locks s' !! h = None) ->
  (forall h, is_Some (R !! h) \/ (next_fd s <= h)%nat -> is_Some (opened s' !! h) \/ is_Some (locks s' !! h) -> is_Some (R' !! h)) ->
  (forall j R2 K2 f v, j <> i -> owners !! j = Some (R2, K2) -> K2 !! f = Some v -> true_of s' f v) ->
  (forall f v, K' !! f = Some v -> guarded R' f /\ true_of s' f v) ->
  invariant s' (<[i := (R', K')]> owners).
Proof.
  intros I Hi Hnext Hkeep Hmine Hcompat Hfresh Hleft Hothers Hown.
  pose proof (lookup_lt_Some _ _ _ Hi) as Hlen.
  assert (forall j R1 K1, <[i := (R', K')]> owners !! j = Some (R1, K1) ->
    j = i /\ R1 = R' /\ K1 = K' \/ j <> i /\ owners !! j = Some (R1, K1)) as Hj.
  { intros j R1 K1 H. destruct (decide (j = i)) as [->|Hne].
    - rewrite list_lookup_insert_eq in H by (by apply lookup_lt_Some in Hi). injection H as <- <-. auto.
    - rewrite list_lookup_insert_ne in H by done. auto. }
  assert (forall j R1 K1 h, j <> i -> owners !! j = Some (R1, K1) -> is_Some (R1 !! h) ->
    R !! h = None /\ (h < next_fd s)%nat) as Hother.
  { intros j R1 K1 h Hne H [[f m] Hh]. split; [|by destruct (held_open _ _ I _ _ _ _ _ _ H Hh) as (_ & _ & ?)].
    destruct (R !! h) eqn:E; [|done]. exfalso. apply Hne. eapply (held_apart _ _ I); [exact H|exact Hi|eexists..]; done. }
  constructor; [..|exact Hfresh|].
  - intros j R1 K1 h f m [(-> & -> & ->)|[Hne H]]%Hj Hh.
    + by destruct (Hmine h f m Hh) as (? & ? & ? & _).
    + destruct (held_open _ _ I _ _ _ _ _ _ H Hh) as (Ho & Hl & Hlt).
      destruct (Hother j R1 K1 h Hne H ltac:(by eexists)) as [Hn _].
      destruct (Hkeep h Hn Hlt) as [-> ->]. split_and!; [done..|lia].
  - intros j1 j2 R1 K1 R2 K2 h [(-> & -> & ->)|[Hne1 H1]]%Hj [(-> & -> & ->)|[Hne2 H2]]%Hj Hh1 Hh2; [done|..].
    + exfalso. destruct (Hother j2 R2 K2 h Hne2 H2 Hh2) as [Hn Hlt]. destruct Hh1 as [[f m] Hh1].
      destruct (Hmine h f m Hh1) as (_ & _ & _ & [[x Hx]|Hx]); [by rewrite Hn in Hx|lia].
    + exfalso. destruct (Hother j1 R1 K1 h Hne1 H1 Hh1) as [Hn Hlt]. destruct Hh2 as [[f m] Hh2].
      destruct (Hmine h f m Hh2) as (_ & _ & _ & [[x Hx]|Hx]); [by rewrite Hn in Hx|lia].
    + exact (held_apart _ _ I _ _ _ _ _ _ _ H1 H2 Hh1 Hh2).
  - exact Hcompat.
  - intros j R1 K1 f v [(-> & -> & ->)|[Hne H]]%Hj Hf; [by apply Hown|].
    split; [by destruct (known _ _ I _ _ _ _ _ H Hf)|]. by apply (Hothers j R1 K1).
  - intros h Hh. destruct (decide (is_Some (R !! h) \/ (next_fd s <= h)%nat)) as [Hd|Hd].
    { exists i, R', K'. rewrite list_lookup_insert_eq by done. split; [done|]. by apply Hleft. }
    assert (R !! h = None) as Hn by (destruct (R !! h) eqn:E; [exfalso; apply Hd; left; by eexists|done]).
    destruct (Hkeep h Hn ltac:(lia)) as [Ho Hl]. rewrite Ho, Hl in Hh.
    destruct (owned _ _ I h Hh) as (j & R2 & K2 & Hj2 & Hs).
    exists j, R2, K2. rewrite list_lookup_insert_ne; [done|]. intros <-. rewrite Hi in Hj2. injection Hj2 as <- <-.
    rewrite Hn in Hs. by destruct Hs.
Qed.

(** Handles that stay are still held. *)
Lemma own_left s owners R :
  invariant s owners ->
  forall h, is_Some (R !! h) \/ (next_fd s <= h)%nat -> is_Some (opened s !! h) \/ is_Some (locks s !! h) ->
    is_Some ((R : handles) !! h).
Proof.
  intros I h [Hh|Hh] Hs; [done|]. destruct (fresh _ _ I h Hh) as [Ho Hl]. rewrite Ho, Hl in Hs. by destruct Hs as [[]|[]].
Qed.

(** A change of files alone. *)
Lemma files_changed s fs owners i R K K' :
  invariant s owners -> owners !! i = Some (R, K) ->
  (forall j R' K2 f v, j <> i -> owners !! j = Some (R', K2) -> K2 !! f = Some v -> true_of (set_files fs s) f v) ->
  (forall f v, K' !! f = Some v -> guarded R f /\ true_of (set_files fs s) f v) ->
  invariant (set_files fs s) (<[i := (R, K')]> owners).
Proof.
  intros I Hi Hothers Hown. apply (agent_changed s _ owners i R K); try done; cbn [next_fd opened locks set_files].
  - intros h f m Hh. destruct (held_open _ _ I _ _ _ _ _ _ Hi Hh) as (? & ? & ?). eauto 6.
  - apply (compatible _ _ I).
  - apply (fresh _ _ I).
  - by apply (own_left s owners).
Qed.

(** New knowledge. *)
Lemma knowledge_changed s owners i R K K' :
  invariant s owners -> owners !! i = Some (R, K) ->
  (forall f v, K' !! f = Some v -> guarded R f /\ true_of s f v) ->
  invariant s (<[i := (R, K')]> owners).
Proof.
  intros I Hi Hown. assert (s = set_files (files s) s) as E by (by destruct s). rewrite E.
  apply (files_changed s _ owners i R K); [done|done| |by rewrite <-E].
  rewrite <-E. intros j R' K2 f v _ H Hf. by destruct (known _ _ I _ _ _ _ _ H Hf).
Qed.

Lemma learned s owners i R K f v K' :
  invariant s owners -> owners !! i = Some (R, K) -> learns R K f v K' -> true_of s f v ->
  invariant s (<[i := (R, K')]> owners).
Proof.
  intros I Hi Hl Hv. apply (knowledge_changed s owners i R K); [done..|]. intros f' v' Hf.
  destruct Hl as [->|[Hg ->]]; [by apply (known _ _ I i R K)|].
  destruct (decide (f' = f)) as [->|Hne].
  - rewrite lookup_insert_eq in Hf. by injection Hf as <-.
  - rewrite lookup_insert_ne in Hf by done. by apply (known _ _ I i R K).
Qed.

(** What another agent knows survives a change of a file guarded here. *)
Lemma others_keep s fs owners i R K :
  invariant s owners -> owners !! i = Some (R, K) ->
  (forall f, fs !! f <> files s !! f -> guarded_exclusive R f \/ guard spec f = None) ->
  forall j R' K2 f v, j <> i -> owners !! j = Some (R', K2) -> K2 !! f = Some v -> true_of (set_files fs s) f v.
Proof.
  intros I Hi Hch j R' K2 f v Hne Hj Hf. destruct (known _ _ I _ _ _ _ _ Hj Hf) as [Hg (file & Hfile & Hv)].
  exists file. split; [|done]. cbn. destruct (decide (fs !! f = files s !! f)) as [->|Hd]; [done|]. exfalso.
  destruct (Hch f Hd) as [Hx|Hx].
  - by apply (guard_excludes s owners i j R K R' K2 f I).
  - destruct Hg as (h & l & m & Hg & _). by rewrite Hg in Hx.
Qed.

(** ** Calls *)

Definition call_sound_for {X} (c : call X) : Prop :=
  forall s owners i R K Q x s',
    invariant s owners -> owners !! i = Some (R, K) -> wp_call c Q R K -> sys validator s c x s' ->
    exists R' K', Q x R' K' /\ invariant s' (<[i := (R', K')]> owners).

Lemma unchanged s owners i R K : invariant s owners -> owners !! i = Some (R, K) -> invariant s (<[i := (R, K)]> owners).
Proof. intros I Hi. by rewrite list_insert_id. Qed.

Lemma touch_set s fs owners i R K f :
  invariant s owners -> owners !! i = Some (R, K) -> is_touch spec f ->
  (forall f', f' <> f -> fs !! f' = files s !! f') -> invariant (set_files fs s) (<[i := (R, K)]> owners).
Proof.
  intros I Hi Ht Hfs. pose proof (guard_touch spec f Ht) as Hg.
  assert (forall f', fs !! f' <> files s !! f' -> guarded_exclusive R f' \/ guard spec f' = None) as Hch.
  { intros f' Hne. right. destruct (decide (f' = f)) as [->|Hd]; [done|]. by rewrite (Hfs f' Hd) in Hne. }
  apply (files_changed s fs owners i R K); [done..|by apply (others_keep s fs owners i R K)|].
  intros f' v Hf. destruct (known _ _ I _ _ _ _ _ Hi Hf) as [Hg' (file & Hfile & Hv)]. split; [done|].
  exists file. split; [|done]. cbn. rewrite Hfs; [done|]. intros ->.
  destruct Hg' as (h & l & m & Hg' & _). by rewrite Hg in Hg'.
Qed.

Lemma settime_sound f time : call_sound_for (SetTime f time).
Proof.
  intros s owners i R K Q x s' I Hi [Ht HQ] Hs. exists R, K. split; [apply HQ|].
  destruct Hs as [(file & _ & _ & ->)|[_ ->]]; [|by apply unchanged].
  apply (touch_set s _ owners i R K f); [done..|]. intros f' Hne. by rewrite lookup_insert_ne.
Qed.

Lemma truncate_sound f : call_sound_for (Truncate f).
Proof.
  intros s owners i R K Q [] s' I Hi [Ht HQ] Hs. exists R, K. split; [done|].
  destruct Hs as [->|[time ->]]; [by apply unchanged|].
  apply (touch_set s _ owners i R K f); [done..|]. intros f' Hne. by rewrite lookup_insert_ne.
Qed.

Lemma remove_sound f : call_sound_for (Remove f).
Proof.
  intros s owners i R K Q x s' I Hi [Hg HQ] Hs. exists R, (delete f K). split; [apply HQ|].
  assert (forall f' v, delete f K !! f' = Some v -> f' <> f /\ K !! f' = Some v) as Hd.
  { intros f' v Hf'. apply lookup_delete_Some in Hf' as [? ?]. split; [congruence|done]. }
  destruct Hs as [(_ & _ & ->)|(_ & -> & _)].
  - assert (forall f', delete f (files s) !! f' <> files s !! f' -> guarded_exclusive R f' \/ guard spec f' = None) as Hch.
    { intros f' Hne. destruct (decide (f' = f)) as [->|Hn]; [|by rewrite lookup_delete_ne in Hne].
      destruct Hg as [Hg|Ht]; [by left|right; by apply guard_touch]. }
    apply (files_changed s _ owners i R K); [done..|by apply (others_keep s _ owners i R K)|].
    intros f' v [Hne Hf]%Hd. destruct (known _ _ I _ _ _ _ _ Hi Hf) as [Hg' (file & Hfile & Hv)]. split; [done|].
    exists file. split; [|done]. cbn. by rewrite lookup_delete_ne.
  - apply (knowledge_changed s owners i R K); [done..|]. intros f' v [_ Hf]%Hd. by apply (known _ _ I i R K).
Qed.

Lemma rename_sound from to : call_sound_for (Rename from to).
Proof.
  intros s owners i R K Q x s' I Hi (Hg1 & Hg2 & HQ & HQe) Hs.
  destruct Hs as [(file & Hfile & -> & ->)|[He ->]].
  2: { exists R, K. split; [by apply HQe|by apply unchanged]. }
  exists R, (renamed K from to). split; [done|].
  set (fs := <[to := file]> (delete from (files s))).
  assert (forall f', f' <> from -> f' <> to -> fs !! f' = files s !! f') as Hfs
    by (intros; unfold fs; rewrite lookup_insert_ne, lookup_delete_ne by done; done).
  assert (forall f', fs !! f' <> files s !! f' -> guarded_exclusive R f' \/ guard spec f' = None) as Hch.
  { intros f' Hne. left. destruct (decide (f' = from)) as [->|H1]; [done|].
    destruct (decide (f' = to)) as [->|H2]; [done|]. by rewrite Hfs in Hne. }
  apply (files_changed s fs owners i R K); [done..|by apply (others_keep s fs owners i R K)|].
  intros f v Hf. destruct (decide (f = to)) as [->|Hto].
  - unfold renamed in Hf. destruct (K !! from) as [v'|] eqn:Ek.
    + rewrite lookup_insert_eq in Hf. injection Hf as <-. destruct (known _ _ I _ _ _ _ _ Hi Ek) as [_ (file' & Hf' & Hv)].
      split; [destruct Hg2 as (h & l & ? & ?); by exists h, l, true|].
      exists file'. split; [|done]. cbn. unfold fs. rewrite lookup_insert_eq. by rewrite Hfile in Hf'.
    + by rewrite lookup_delete_eq in Hf.
  - assert (K !! f = Some v /\ f <> from) as [Hk Hfrom].
    { unfold renamed in Hf. destruct (K !! from); [rewrite lookup_insert_ne in Hf by done|rewrite lookup_delete_ne in Hf by done];
        apply lookup_delete_Some in Hf as [? ?]; (split; [done|congruence]). }
    destruct (known _ _ I _ _ _ _ _ Hi Hk) as [Hg (file' & Hf' & Hv)]. split; [done|]. exists file'. split; [|done].
    cbn. by rewrite Hfs.
Qed.

Lemma open_sound f : call_sound_for (Open f).
Proof.
  intros s owners i R K Q x s' I Hi (Hl & HQ & HQe) Hs.
  destruct Hs as [(text & -> & ->)|(-> & file & Hfile & ->)].
  { exists R, K. split; [apply HQe|by apply unchanged]. }
  assert (R !! next_fd s = None) as Hnew.
  { destruct (R !! next_fd s) as [[f' m]|] eqn:E; [|done].
    destruct (held_open _ _ I _ _ _ _ _ _ Hi E) as (_ & _ & ?). lia. }
  exists (<[next_fd s := (f, None)]> R), K. split; [by apply HQ|].
  assert (forall f' v, true_of s f' v ->
    true_of (mkOs (<[f := file]> (files s)) (<[next_fd s := f]> (opened s)) (locks s) (S (next_fd s)) (has_root s)) f' v) as Ht.
  { intros f' v (file' & Hf' & Hv). destruct (decide (f' = f)) as [->|Hne].
    - exists file'. split; [|done]. cbn. rewrite lookup_insert_eq. rewrite Hf' in Hfile. by cbn in Hfile; subst.
    - exists file'. split; [|done]. cbn. by rewrite lookup_insert_ne. }
  destruct (fresh _ _ I (next_fd s) ltac:(lia)) as [Hfo Hfl].
  apply (agent_changed s _ owners i R K); try done; cbn [next_fd opened locks].
  - lia.
  - intros h Hn Hlt. rewrite lookup_insert_ne by lia. done.
  - intros h f' m Hh. destruct (decide (h = next_fd s)) as [->|Hne].
    + rewrite lookup_insert_eq in Hh. injection Hh as <- <-. rewrite lookup_insert_eq. split_and!; [done..|lia|by right].
    + rewrite lookup_insert_ne in Hh by done. rewrite lookup_insert_ne by done. destruct (held_open _ _ I _ _ _ _ _ _ Hi Hh) as (? & ? & ?).
      split_and!; [done..|lia|left; by eexists].
  - intros h1 h2 f' e1 e2 Hne H1 H2 Hl1 Hl2.
    assert (forall h e, locks s !! h = Some e -> h <> next_fd s) as Hold by (intros h e He ->; by rewrite Hfl in He).
    rewrite lookup_insert_ne in H1, H2 by (apply not_eq_sym; eauto). by eapply (compatible _ _ I).
  - intros h Hh. rewrite lookup_insert_ne by lia. apply (fresh _ _ I). lia.
  - intros h Hh Ho. destruct (decide (h = next_fd s)) as [->|Hne]; [rewrite lookup_insert_eq; by eexists|].
    rewrite lookup_insert_ne by done. rewrite lookup_insert_ne in Ho by done.
    apply (own_left s owners); [done| |done]. destruct Hh as [Hh|Hh]; [by left|right]. lia.
  - intros j R2 K2 f' v Hne Hj Hf. apply Ht. by destruct (known _ _ I _ _ _ _ _ Hj Hf).
  - intros f' v Hf. destruct (known _ _ I _ _ _ _ _ Hi Hf) as [(h & l & m & Hg & Hh) Hv]. split; [|by apply Ht].
    exists h, l, m. split; [done|]. rewrite lookup_insert_ne; [done|]. intros <-. by rewrite Hnew in Hh.
Qed.

Lemma flock_sound h exclusive : call_sound_for (Flock h exclusive).
Proof.
  intros s owners i R K Q x s' I Hi (f & Hh & HQ & HQe) Hs.
  destruct Hs as [(-> & (f' & Hf' & Hfree) & ->)|[Hx ->]].
  2: { exists R, K. split; [by apply HQe|by apply unchanged]. }
  destruct (held_open _ _ I _ _ _ _ _ _ Hi Hh) as (Ho & Hl & Hlt). rewrite Ho in Hf'. injection Hf' as <-.
  exists (<[h := (f, Some exclusive)]> R), K. split; [done|].
  apply (agent_changed s _ owners i R K); try done; cbn [next_fd opened locks set_locks].
  - intros h' Hn _. split; [done|]. rewrite lookup_insert_ne; [done|]. intros <-. by rewrite Hh in Hn.
  - intros h' f' m Hh'. destruct (decide (h' = h)) as [->|Hne].
    + rewrite lookup_insert_eq in Hh'. injection Hh' as <- <-. rewrite lookup_insert_eq.
      split_and!; [done..|left; by eexists].
    + rewrite lookup_insert_ne in Hh' by done. rewrite lookup_insert_ne by done.
      destruct (held_open _ _ I _ _ _ _ _ _ Hi Hh') as (? & ? & ?). split_and!; [done..|left; by eexists].
  - intros h1 h2 f' e1 e2 Hne H1 H2 Hl1 Hl2. destruct (decide (h1 = h)) as [->|Hn1].
    + rewrite lookup_insert_eq in Hl1. injection Hl1 as <-. rewrite lookup_insert_ne in Hl2 by done.
      rewrite Ho in H1. injection H1 as <-. exact (Hfree h2 e2 ltac:(done) H2 Hl2).
    + rewrite lookup_insert_ne in Hl1 by done. destruct (decide (h2 = h)) as [->|Hn2].
      * rewrite lookup_insert_eq in Hl2. injection Hl2 as <-. rewrite Ho in H2. injection H2 as <-.
        by destruct (Hfree h1 e1 Hn1 H1 Hl1).
      * rewrite lookup_insert_ne in Hl2 by done. exact (compatible _ _ I _ _ _ _ _ Hne H1 H2 Hl1 Hl2).
  - intros h' Hh'. rewrite lookup_insert_ne by lia. by apply (fresh _ _ I).
  - intros h' Hh' Hs'. destruct (decide (h' = h)) as [->|Hne]; [rewrite lookup_insert_eq; by eexists|].
    rewrite lookup_insert_ne in Hs' by done. rewrite lookup_insert_ne by done. by apply (own_left s owners).
  - intros j R2 K2 f' v Hne Hj Hf. by destruct (known _ _ I _ _ _ _ _ Hj Hf) as [_ Ht].
  - intros f' v Hf. destruct (known _ _ I _ _ _ _ _ Hi Hf) as [(h' & l & m & Hg & Hh') Hv]. split; [|done].
    exists h', l, m. split; [done|]. rewrite lookup_insert_ne; [done|]. intros <-. by rewrite Hh in Hh'.
Qed.

Lemma unflock_sound h : call_sound_for (Unflock h).
Proof.
  intros s owners i R K Q [] s' I Hi (f & m & Hh & HQ) ->.
  exists (<[h := (f, None)]> R), ∅. split; [done|].
  destruct (held_open _ _ I _ _ _ _ _ _ Hi Hh) as (Ho & Hl & Hlt).
  apply (agent_changed s _ owners i R K); try done; cbn [next_fd opened locks set_locks].
  - intros h' Hn _. split; [done|]. rewrite lookup_delete_ne; [done|]. intros <-. by rewrite Hh in Hn.
  - intros h' f' m' Hh'. destruct (decide (h' = h)) as [->|Hne].
    + rewrite lookup_insert_eq in Hh'. injection Hh' as <- <-. rewrite lookup_delete_eq.
      split_and!; [done..|left; by eexists].
    + rewrite lookup_insert_ne in Hh' by done. rewrite lookup_delete_ne by done.
      destruct (held_open _ _ I _ _ _ _ _ _ Hi Hh') as (? & ? & ?). split_and!; [done..|left; by eexists].
  - intros h1 h2 f' e1 e2 Hne H1 H2 [_ Hl1]%lookup_delete_Some [_ Hl2]%lookup_delete_Some.
    exact (compatible _ _ I _ _ _ _ _ Hne H1 H2 Hl1 Hl2).
  - intros h' Hh'. destruct (fresh _ _ I h' Hh') as [? Hn]. split; [done|].
    apply eq_None_not_Some. intros [e [_ He]%lookup_delete_Some]. by rewrite Hn in He.
  - intros h' Hh' Hs'. destruct (decide (h' = h)) as [->|Hne]; [rewrite lookup_insert_eq; by eexists|].
    rewrite lookup_delete_ne in Hs' by done. rewrite lookup_insert_ne by done. by apply (own_left s owners).
  - intros j R2 K2 f' v Hne Hj Hf. by destruct (known _ _ I _ _ _ _ _ Hj Hf) as [_ Ht].
Qed.

Lemma close_sound h : call_sound_for (Close h).
Proof.
  intros s owners i R K Q [] s' I Hi ([[f m] Hh] & HQ) ->.
  exists (delete h R), ∅. split; [done|].
  apply (agent_changed s _ owners i R K); try done; cbn [next_fd opened locks].
  - intros h' Hn _. rewrite !lookup_delete_ne; [done|intros <-; by rewrite Hh in Hn..].
  - intros h' f' m' [Hne Hh']%lookup_delete_Some. rewrite !lookup_delete_ne by done.
    destruct (held_open _ _ I _ _ _ _ _ _ Hi Hh') as (? & ? & ?). split_and!; [done..|left; by eexists].
  - intros h1 h2 f' e1 e2 Hne [_ H1]%lookup_delete_Some [_ H2]%lookup_delete_Some
      [_ Hl1]%lookup_delete_Some [_ Hl2]%lookup_delete_Some.
    exact (compatible _ _ I _ _ _ _ _ Hne H1 H2 Hl1 Hl2).
  - intros h' Hh'. destruct (fresh _ _ I h' Hh') as [Ho Hn].
    split; apply eq_None_not_Some; intros [e [_ He]%lookup_delete_Some]; congruence.
  - intros h' Hh' Hs'. destruct (decide (h' = h)) as [->|Hne].
    { rewrite !lookup_delete_eq in Hs'. by destruct Hs' as [[]|[]]. }
    rewrite !lookup_delete_ne in Hs' by done. rewrite lookup_delete_ne by done. by apply (own_left s owners).
  - intros j R2 K2 f' v Hne Hj Hf. by destruct (known _ _ I _ _ _ _ _ Hj Hf) as [_ Ht].
Qed.

Lemma regular_sound f : call_sound_for (IsRegular f).
Proof.
  intros s owners i R K Q x s' I Hi [(K' & Hl & HQ) HQf] [-> Hx].
  destruct Hx as [[-> [file Hfile]]|[Hx _]].
  - exists R, K'. split; [done|]. apply (learned s owners i R K f None); [done..|]. by exists file.
  - exists R, K. destruct x as [b ec]. cbn in Hx. subst b. split; [apply HQf|by apply unchanged].
Qed.

Lemma validator_call_sound f digest : call_sound_for (Validate f digest).
Proof.
  intros s owners i R K Q x s' I Hi [(K' & Hl & HQ) HQf] [-> Hx].
  destruct x as [reason|].
  - exists R, K. split; [apply HQf|by apply unchanged].
  - destruct (files s !! f) as [file|] eqn:E; [|done]. exists R, K'. split; [done|].
    apply (learned s owners i R K f (Some digest)); [done..|]. by exists file.
Qed.

Lemma call_sound {X} (c : call X) : call_sound_for c.
Proof.
  destruct c; try (by (apply settime_sound || apply truncate_sound || apply remove_sound || apply rename_sound ||
    apply open_sound || apply flock_sound || apply unflock_sound || apply close_sound || apply regular_sound ||
    apply validator_call_sound));
  intros s owners i R K Q x s' I Hi HQ Hs; exists R, K; (split; [apply HQ|]).
  all: try (subst s'; by apply unchanged).
  all: try (destruct Hs as [-> _]; by apply unchanged).
  destruct Hs as [->| ->]; [by apply unchanged|]. apply (agent_changed s _ owners i R K); try done.
  - intros h f m Hh. destruct (held_open _ _ I _ _ _ _ _ _ Hi Hh) as (? & ? & ?). split_and!; [done..|left; by eexists].
  - apply (compatible _ _ I).
  - apply (fresh _ _ I).
  - by apply (own_left s owners).
  - intros j R2 K2 f' v Hne Hj Hf. by destruct (known _ _ I _ _ _ _ _ Hj Hf) as [_ Ht].
  - intros f v Hf. exact (known _ _ I _ _ _ _ _ Hi Hf).
Qed.

(** What a call may do to files. *)
Lemma call_effect {X} (c : call X) s Q R K x s' f :
  wp_call c Q R K -> sys validator s c x s' -> files s' !! f <> files s !! f ->
  guarded_exclusive R f \/ is_touch spec f \/ is_lock spec f /\ files s !! f = None.
Proof.
  destruct c; cbn [wp_call sys]; intros Hwp Hs Hne;
    try (subst s'; done); try (by (destruct Hs as [-> _])).
  - destruct Hwp as [Ht _]. destruct Hs as [(file & _ & _ & ->)|[_ ->]]; [|done]. right; left.
    destruct (decide (f = f0)) as [->|Hn]; [done|]. cbn in Hne. by rewrite lookup_insert_ne in Hne.
  - destruct Hwp as [Ht _]. destruct Hs as [->|[time ->]]; [done|]. right; left.
    destruct (decide (f = f0)) as [->|Hn]; [done|]. cbn in Hne. by rewrite lookup_insert_ne in Hne.
  - destruct Hwp as [Ht _]. destruct Hs as [(_ & _ & ->)|(_ & -> & _)]; [|done].
    destruct (decide (f = f0)) as [->|Hn]; [by destruct Ht; auto|]. cbn in Hne. by rewrite lookup_delete_ne in Hne.
  - destruct Hwp as (H1 & H2 & _). destruct Hs as [(file & _ & _ & ->)|[_ ->]]; [|done]. left.
    destruct (decide (f = to)) as [->|Hn]; [done|]. destruct (decide (f = from)) as [->|Hn']; [done|].
    cbn in Hne. by rewrite lookup_insert_ne, lookup_delete_ne in Hne.
  - destruct Hs as [->| ->]; done.
  - destruct Hwp as [Hl _]. destruct Hs as [(text & _ & ->)|(_ & file & Hfile & ->)]; [done|]. right; right.
    destruct (decide (f = f0)) as [->|Hn]; [|cbn in Hne; by rewrite lookup_insert_ne in Hne].
    split; [done|]. destruct (files s !! f0) as [file'|] eqn:E; [|done]. cbn in Hne, Hfile.
    exfalso. apply Hne. by rewrite lookup_insert_eq, Hfile.
  - destruct Hs as [(_ & _ & ->)|[_ ->]]; done.
Qed.

(** A new agent without handles. *)
Lemma agent_added s owners : invariant s owners -> invariant s (owners ++ [(∅, ∅)]).
Proof.
  intros I.
  assert (forall i R K, (owners ++ [(∅, ∅)]) !! i = Some (R, K) -> owners !! i = Some (R, K) \/ R = ∅ /\ K = ∅) as Hi.
  { intros i R K [H|[_ H]]%lookup_app_Some; [by left|right]. apply list_lookup_singleton_Some in H as [_ [= <- <-]]. done. }
  constructor.
  - intros i R K h f m [H|[-> _]]%Hi Hh; [exact (held_open _ _ I _ _ _ _ _ _ H Hh)|]. by rewrite lookup_empty in Hh.
  - intros i j R1 K1 R2 K2 h [H1|[-> _]]%Hi [H2|[-> _]]%Hi Hh1 Hh2;
      [exact (held_apart _ _ I _ _ _ _ _ _ _ H1 H2 Hh1 Hh2)|..];
      first [by (rewrite lookup_empty in Hh1; destruct Hh1)|by (rewrite lookup_empty in Hh2; destruct Hh2)].
  - apply (compatible _ _ I).
  - intros i R K f v [H|[_ ->]]%Hi Hf; [exact (known _ _ I _ _ _ _ _ H Hf)|]. by rewrite lookup_empty in Hf.
  - apply (fresh _ _ I).
  - intros h Hh. destruct (owned _ _ I h Hh) as (i & R & K & H & Hs). exists i, R, K. split; [|done].
    by apply lookup_app_l_Some.
Qed.
End Logic.
