(* ===== verification/CacheDiscipline.v ===== *)
(** * CacheDiscipline: every operation of the cache keeps the discipline

    Each operation of [RequestCache.v] is proved in the logic of [CacheSafety.v]: from
    no handles it ends with the handles its result stands for and no others, on
    every path; the theorems about all interleavings follow. *)

From stdpp Require Import gmap sorting.
From S2P Require Import Prelude Text SourceDescriptor RequestCache CacheSystem CacheSafety.

Section Operations.
Context (validator : bytes -> bytes -> option string) (spec : CacheSpec) (has_validator : bool).

Notation wp := (wp spec).

(** ** Locks and stamps *)

Lemma wp_tryAcquire f exclusive Q R K :
  is_lock spec f ->
  (forall h, R !! h = None -> Q (inl h) (<[h := (f, Some exclusive)]> R) K) ->
  (forall e K', Q (inr e) R K') ->
  wp (tryAcquireHandle f exclusive) Q R K.
Proof.
  intros Hl Hok Hfail. unfold tryAcquireHandle. apply wp_then. split; [done|]. split; [|intros e; apply Hfail].
  intros h Hn. apply wp_then. exists f. rewrite lookup_insert_eq. split; [done|].
  assert (forall e, wp_call spec (Close h) (fun _ R K => Q (inr e) R K) (<[h := (f, None)]> R) K) as Hclose.
  { intros e. split; [rewrite lookup_insert_eq; by eexists|]. by rewrite delete_insert_id. }
  split.
  - rewrite insert_insert_eq. by apply Hok.
  - intros x Hx. destruct x; [done|apply wp_then; apply Hclose..].
Qed.

Lemma wp_tryShared f Q R K :
  is_lock spec f ->
  (forall h, R !! h = None -> Q (inl h) (<[h := (f, Some false)]> R) K) ->
  (forall e K', Q (inr e) R K') ->
  wp (tryShared f) Q R K.
Proof.
  intros Hl Hok Hfail. apply wp_then. apply wp_tryAcquire; [done|apply Hok|]. intros [b e] K'. apply Hfail.
Qed.

Lemma wp_touchStamp a (Q : unit -> _ -> _ -> Prop) R K :
  is_artifact spec a -> Q tt R K -> wp (touchStamp a) Q R K.
Proof.
  intros Ha HQ. assert (is_touch spec (touchOf a)) as Ht by (by exists a).
  apply wp_then. split; [done|]. apply wp_then. intros now. apply wp_then. split; [done|]. intros x [].
  exact HQ.
Qed.

Lemma wp_readLruStamp a Q R K : (forall x, Q x R K) -> wp (readLruStamp a) Q R K.
Proof.
  intros HQ. apply wp_then. intros [v ec]. destruct ec; [apply HQ|..];
    (apply wp_then; intros [v' ec']; destruct ec'; apply HQ).
Qed.

Lemma resolve_ok identity d a : resolveIdentity spec identity = inr (d, a) -> is_digest spec d /\ a = artifact_of spec d.
Proof.
  unfold resolveIdentity. destruct (digestOf _ _) as [d'|] eqn:E; [|done]. destruct (bool_decide _); [done|].
  intros [= <- <-]. apply digestOf_spec in E as (_ & ? & ?). by repeat split.
Qed.

Lemma artifact_digest d : is_digest spec d -> is_artifact spec (artifact_of spec d).
Proof. intros Hd. by exists d. Qed.

Lemma artifact_lock a : is_artifact spec a -> is_lock spec (lockOf a).
Proof. intros Ha. by exists a. Qed.

(** ** What an agent keeps *)

Definition lease_of (a : bytes) (h : fd) : gmap fd (bytes * option bool) := {[h := (lockOf a, Some false)]}.

Definition transaction_ok (t : WriteTransaction) : Prop :=
  is_digest spec (wt_digest t) /\ wt_artifact t = artifact_of spec (wt_digest t) /\
  exists pid, wt_partial t = partialOf pid (wt_artifact t).

Definition kept (a : agent) (R : gmap fd (bytes * option bool)) (K : gmap bytes (option bytes)) : Prop :=
  match a with
  | Running _ => False
  | LookedUp hit =>
    R = lease_of (hit_path hit) (hit_lease hit) /\
    exists d, is_digest spec d /\ hit_path hit = artifact_of spec d /\ K !! hit_path hit = Some (Some d)
  | Committed hit => R = lease_of (hit_path hit) (hit_lease hit) /\ is_artifact spec (hit_path hit)
  | Leased artifact h => R = lease_of artifact h /\ is_artifact spec artifact
  | Writing t => R = {[wt_lock t := (lockOf (wt_artifact t), Some true)]} /\ transaction_ok t
  | Finished _ => R = ∅
  end.

Definition ends (o : outcome) R K : Prop := kept (agent_of o) R K.

Lemma wp_returning {A} (f : A -> outcome) (p : prog A) Q R K :
  wp p (fun a R K => Q (f a) R K) R K -> wp (returning f p) Q R K.
Proof. intros H. by apply wp_then. Qed.

(** ** The operations *)

Lemma wp_lookup identity : wp (returning OLookup (lookup spec has_validator identity)) ends ∅ ∅.
Proof.
  apply wp_returning. unfold lookup. destruct (resolveIdentity spec identity) as [e|[d a]] eqn:E; [done|].
  apply resolve_ok in E as [Hd ->]. set (a := artifact_of spec d).
  assert (is_artifact spec a) as Ha by by apply artifact_digest.
  destruct (negb has_validator); [done|]. apply wp_then. split.
  2: { intros ec. done. }
  exists ∅. split; [by left|]. cbn [fst snd negb orb is_error]. apply wp_then.
  apply wp_tryShared; [by apply artifact_lock| |done]. intros h _. apply wp_then. split.
  - assert (guarded spec (<[h := (lockOf a, Some false)]> ∅) a) as Hg.
    { exists h, (lockOf a), false. rewrite guard_artifact by done. by rewrite lookup_insert_eq. }
    eexists. split; [right; split; [exact Hg|reflexivity]|]. apply wp_then. apply wp_touchStamp; [done|].
    split; [done|]. exists d. cbn [hit_path]. rewrite lookup_insert_eq. done.
  - intros reason. apply wp_then. split; [rewrite lookup_insert_eq; by eexists|]. by rewrite delete_insert_id.
Qed.

Lemma wp_resolve_creating identity Q R K :
  (forall e, Q (inl e) R K) ->
  (forall d a, is_digest spec d -> a = artifact_of spec d -> Q (inr (d, a)) R K) ->
  wp (resolve_creating spec identity) Q R K.
Proof.
  intros Hf Hok. unfold resolve_creating. destruct (resolveIdentity spec identity) as [e|[d a]] eqn:E; [apply Hf|].
  apply resolve_ok in E as [Hd Ha]. apply wp_then. intros []. by apply Hok.
Qed.

Lemma wp_lease identity : wp (returning OLease (acquireReadLease spec identity)) ends ∅ ∅.
Proof.
  apply wp_returning, wp_then. apply wp_resolve_creating; [done|]. intros d a Hd ->.
  pose proof (artifact_digest d Hd) as Ha. apply wp_then. apply wp_tryShared; [by apply artifact_lock| |done].
  intros h _. by split.
Qed.

Lemma wp_begin pid identity : wp (returning OBegin (beginWrite spec pid identity)) ends ∅ ∅.
Proof.
  apply wp_returning, wp_then. apply wp_resolve_creating; [done|]. intros d a Hd ->.
  pose proof (artifact_digest d Hd) as Ha. apply wp_then. apply wp_tryAcquire; [by apply artifact_lock| |].
  - intros h _. split; [done|]. split_and!; try done. by exists pid.
  - by intros [contended e] K'.
Qed.

Section Transaction.
Context (t : WriteTransaction) (Ht : transaction_ok t).

Definition held_by_t : gmap fd (bytes * option bool) := {[wt_lock t := (lockOf (wt_artifact t), Some true)]}.

Lemma transaction_artifact : is_artifact spec (wt_artifact t).
Proof. destruct Ht as (Hd & -> & _). by apply artifact_digest. Qed.

Lemma transaction_guard f : f = wt_artifact t \/ f = wt_partial t -> guarded_exclusive spec held_by_t f.
Proof.
  pose proof transaction_artifact as Ha. destruct Ht as (_ & _ & pid & Hp).
  intros Hf. exists (wt_lock t), (lockOf (wt_artifact t)). unfold held_by_t. rewrite lookup_singleton_eq. split; [|done].
  destruct Hf as [->| ->]; [by apply guard_artifact|]. rewrite Hp. by apply guard_partial.
Qed.

Lemma wp_fail reason K : wp (commit_fail t reason) (fun r => ends (OCommit r)) held_by_t K.
Proof.
  apply wp_then. split; [left; apply transaction_guard; by right|]. intros x. apply wp_then.
  unfold held_by_t. split; [rewrite lookup_singleton_eq; by eexists|]. by rewrite delete_singleton_eq.
Qed.

Lemma wp_hand_off K : wp (hand_off t) (fun r => ends (OCommit r)) held_by_t K.
Proof.
  pose proof transaction_artifact as Ha. apply wp_then. apply wp_then.
  exists (lockOf (wt_artifact t)), (Some true). unfold held_by_t. rewrite lookup_singleton_eq. split; [done|].
  rewrite insert_singleton_eq. apply wp_then. exists (lockOf (wt_artifact t)). rewrite lookup_singleton_eq. split; [done|].
  rewrite insert_singleton_eq. split; [by split|].
  assert (forall K, wp (let> lease := tryShared (lockOf (wt_artifact t)) in
    match lease with
    | inr _ => Ret (inl (mkError "published, but the read lease was lost to a concurrent holder; retry the lookup" true))
    | inl h =>
      let> there := do_ (IsRegular (wt_artifact t)) in
      if negb there.1 || is_error there.2
      then let> _ := do_ (Close h) in Ret (inl (mkError "artifact vanished during the lease handoff" false))
      else Ret (inr (mkHit (wt_artifact t) h))
    end) (fun r => ends (OCommit r)) ∅ K) as Hagain.
  { intros K'. apply wp_then. apply wp_tryShared; [by apply artifact_lock| |done]. intros h _. apply wp_then. split.
    - eexists. split; [by left|]. by split.
    - intros ec. apply wp_then. split; [rewrite lookup_insert_eq; by eexists|]. by rewrite delete_insert_id. }
  intros x Hx. destruct x; [done|..]; (apply wp_then; split; [rewrite lookup_singleton_eq; by eexists|]);
    rewrite delete_singleton_eq; apply Hagain.
Qed.

Lemma wp_commit K : wp (returning OCommit (commit has_validator (Some t))) ends held_by_t K.
Proof.
  apply wp_returning. cbn [commit]. unfold commit_pending. destruct (negb has_validator); [apply wp_fail|]. apply wp_then. split.
  2: { intros reason. apply wp_fail. }
  eexists. split; [by left|]. apply wp_then. intros []. apply wp_then. intros [reason|]; [apply wp_fail|].
  apply wp_then. split; [|split; [|split]].
  - apply transaction_guard. by right.
  - apply transaction_guard. by left.
  - cbn [is_error]. apply wp_then. intros []. apply wp_then. apply wp_touchStamp; [apply transaction_artifact|].
    apply wp_hand_off.
  - intros [| |text] Hec; [done|apply wp_fail..].
Qed.

Lemma wp_abort K : wp (returning (fun _ => ODone) (abort (Some t))) ends held_by_t K.
Proof.
  apply wp_returning, wp_then. split; [left; apply transaction_guard; by right|]. intros x.
  unfold held_by_t. split; [rewrite lookup_singleton_eq; by eexists|]. by rewrite delete_singleton_eq.
Qed.
End Transaction.

Lemma wp_release a h K : wp (returning (fun _ => ODone) (release (Some h))) ends (lease_of a h) K.
Proof.
  apply wp_returning. unfold lease_of. split; [rewrite lookup_singleton_eq; by eexists|]. by rewrite delete_singleton_eq.
Qed.

(** ** Cleanup *)

(** One call of a program. *)
Ltac wp_step := apply wp_then; cbn [CacheSafety.wp do_ wp_call]; cbv beta.

Section Cleanup.
Context (policy : CleanupPolicy).

(** What a scan collects belongs to identities of the cache. *)
Definition stale_ok (p : StalePartial) : Prop :=
  is_artifact spec (sp_artifact p) /\ guard spec (sp_file p) = Some (lockOf (sp_artifact p)).
Definition candidate_ok (c : EvictionCandidate) : Prop := is_artifact spec (ec_file c).
Definition scan_ok (scan : Scan) : Prop := Forall stale_ok (stale_partials scan) /\ Forall candidate_ok (candidates scan).

Lemma wp_scan_entries entries now : forall scan result Q R,
  scan_ok scan -> (forall scan' result', scan_ok scan' -> Q (scan', result') R ∅) ->
  wp (scan_entries spec policy entries now scan result) Q R ∅.
Proof.
  induction entries as [|entry entries IH]; intros scan result Q R Hok HQ; cbn [scan_entries]; [by apply HQ|].
  wp_step. split.
  2: { intros ec. cbn [fst snd negb orb]. by apply IH. }
  exists ∅. split; [by left|]. cbn [fst snd negb orb is_error].
  destruct (classify spec entry) as [k a] eqn:E. destruct k; [| |by apply IH].
  - wp_step. intros size. destruct (is_error size.2); [by apply IH|]. apply wp_then, wp_readLruStamp; cbv beta. intros stamp.
    apply IH; [|done]. destruct Hok as [H1 H2]. split; [done|]. apply Forall_app. split; [done|]. constructor; [|done].
    unfold candidate_ok. cbn. pose proof (classify_kind spec entry _ _ E ltac:(done)) as Ha.
    assert (entry = a) as ->; [|done]. clear -E. revert E. unfold classify.
    destruct (negb _); [done|]. destruct (bytes_eqb _ _); [by intros [= ->]|]. destruct (_ && _); [|done].
    by destruct (forallb isAsciiDigit _).
  - wp_step. intros mtime. apply IH; [|done]. destruct Hok as [H1 H2]. destruct (_ && _); [|by split].
    split; [|done]. apply Forall_app. split; [done|]. constructor; [|done].
    split; cbn; [by eapply classify_kind|]. unfold guard. by rewrite E.
Qed.

Lemma exclusive_guards f a h (R : gmap fd (bytes * option bool)) :
  guard spec f = Some (lockOf a) -> guarded_exclusive spec (<[h := (lockOf a, Some true)]> R) f.
Proof. intros Hg. exists h, (lockOf a). by rewrite lookup_insert_eq. Qed.

(** The body of a loop runs under the lock, and the lock is given back. *)
Lemma wp_locked {A B} a (body : prog A) h (f : A -> prog B) Q :
  (forall Q' K, (forall r K', Q' r {[h := (lockOf a, Some true)]} K') -> wp body Q' {[h := (lockOf a, Some true)]} K) ->
  (forall r, wp (f r) Q ∅ ∅) ->
  forall K, wp (let> r := body in let> _ := do_ (Close h) in f r) Q {[h := (lockOf a, Some true)]} K.
Proof.
  intros Hb Hf K. apply wp_then, Hb. intros r K'. apply wp_then.
  split; [rewrite lookup_singleton_eq; by eexists|]. rewrite delete_singleton_eq. apply Hf.
Qed.

Lemma wp_remove_stale p h result Q K :
  stale_ok p -> (forall r K', Q r {[h := (lockOf (sp_artifact p), Some true)]} K') ->
  wp (remove_stale policy (sp_file p) result) Q {[h := (lockOf (sp_artifact p), Some true)]} K.
Proof.
  intros [_ Hg] HQ. wp_step. split; [|intros ec; apply HQ]. exists K. split; [by left|]. cbn [fst snd negb].
  wp_step. intros mtime. destruct (is_error mtime.2); [apply HQ|]. wp_step. intros now.
  destruct (_ <? _); [apply HQ|]. wp_step. intros size. apply wp_then.
  split; [left; by apply exclusive_guards|]. intros x. apply HQ.
Qed.

Lemma wp_evict c h a Q K :
  candidate_ok c -> (forall r K', Q r {[h := (lockOf (ec_file c), Some true)]} K') ->
  wp (evict c a) Q {[h := (lockOf (ec_file c), Some true)]} K.
Proof.
  intros Hc HQ. wp_step. split; [|intros ec; apply HQ]. exists K. split; [by left|]. cbn [fst snd negb].
  wp_step. intros size. destruct (is_error size.2); [apply HQ|]. destruct (negb (_ =? _)); [apply HQ|].
  apply wp_then, wp_readLruStamp; cbv beta. intros stamp. destruct stamp.1; [|apply HQ]. destruct (negb (_ =? _)); [apply HQ|].
  wp_step. split; [left; apply exclusive_guards; by apply guard_artifact|]. intros x.
  destruct (is_error x.2 || negb x.1); [apply HQ|]. wp_step. split; [right; by exists (ec_file c)|].
  intros y. apply HQ.
Qed.

Lemma wp_removeStalePartials partials : forall result Q K,
  Forall stale_ok partials -> (forall r K', Q r ∅ K') -> wp (removeStalePartials policy partials result) Q ∅ K.
Proof.
  induction partials as [|p partials IH]; intros result Q K Hall HQ; cbn [removeStalePartials]; [apply HQ|].
  apply Forall_cons in Hall as [Hp Hall]. apply wp_then.
  apply wp_tryAcquire; [by apply artifact_lock; destruct Hp| |intros [contended e] K'; by apply IH].
  intros h _. cbv beta. apply (wp_locked (sp_artifact p)); [|by intros r; apply IH].
  intros Q' K' HQ'. by apply wp_remove_stale.
Qed.

Lemma wp_evict_all victims : forall a Q K,
  Forall candidate_ok victims -> (forall r K', Q r ∅ K') -> wp (evict_all policy victims a) Q ∅ K.
Proof.
  induction victims as [|c victims IH]; intros a Q K Hall HQ; cbn [evict_all]; [apply HQ|].
  destruct (_ =? 0); [apply HQ|]. apply Forall_cons in Hall as [Hc Hall]. apply wp_then.
  apply wp_tryAcquire; [by apply artifact_lock| |intros [contended e] K'; by apply IH].
  intros h _. cbv beta. apply (wp_locked (ec_file c)); [|by intros r; apply IH].
  intros Q' K' HQ'. by apply wp_evict.
Qed.

Lemma wp_evictUntilUnderBudget cs total result Q K :
  Forall candidate_ok cs -> (forall r K', Q r ∅ K') -> wp (evictUntilUnderBudget policy cs total result) Q ∅ K.
Proof.
  intros Hcs HQ. unfold evictUntilUnderBudget.
  assert (forall available K, wp (let> a := evict_all policy (merge_sort stamp_le cs) (mkAccounts total available result) in
    Ret (set_met (bytesOverTarget policy (a_total a) (a_available a))
      (bytesOverTarget policy (a_total a) (a_available a) =? 0) (a_result a))) Q ∅ K) as Hrun.
  { intros available K'. apply wp_then, wp_evict_all; [|intros r K2; apply HQ].
    rewrite Forall_forall in Hcs |- *. intros c Hc. apply Hcs. by rewrite merge_sort_Permutation in Hc. }
  destruct (negb _); [|apply Hrun]. wp_step. intros space. destruct (is_error space.2); [apply HQ|apply Hrun].
Qed.

Lemma wp_cleanup : wp (returning OCleanup (cleanup spec policy)) ends ∅ ∅.
Proof.
  apply wp_returning. unfold cleanup. case_bool_decide; [done|]. wp_step. intros [st ec].
  destruct st, ec; try done. apply wp_then. unfold scanRoot. wp_step. intros now. wp_step. intros entries.
  apply wp_then. apply wp_scan_entries; [by split; constructor|]. intros scan result Hok. cbv beta.
  cbn [CacheSafety.wp]. destruct (is_error entries.2); [done|].
  destruct (negb (target_met result)); [done|]. apply wp_then. destruct Hok as [H1 H2].
  apply wp_removeStalePartials; [done|]. intros r K. by apply wp_evictUntilUnderBudget.
Qed.
End Cleanup.

Lemma wp_starts p : starts spec has_validator p -> wp p ends ∅ ∅.
Proof. destruct 1; [apply wp_lookup|apply wp_lease|apply wp_begin|apply wp_cleanup]. Qed.
End Operations.
