(* ===== verification/CacheEviction.v ===== *)
(** * CacheEviction: what a cleanup of the cache removes

    A cleanup that runs while the other agents hold still, in a system where
    nothing fails: [cleanup] removes the orphaned partials that are old enough and
    unlocked, then the unlocked artifacts with the oldest stamps, as many as the budget
    asks for and no more, and reports what it did.  The theorem rests on one lemma for
    each loop of [request_cache.cpp]. *)

From stdpp Require Import gmap sorting.
From S2P Require Import Prelude Text SourceDescriptor RequestCache CacheSystem CacheSafety CacheDiscipline.

(** ** Programs that run alone *)

Section Running.
Context (validator : bytes -> bytes -> option string) (space now : Z).

Notation run := (run validator space now).

Lemma run_then {A B} (m : prog A) (f : A -> prog B) s :
  run (pthen m f) s = let '(a, s') := run m s in run (f a) s'.
Proof.
  revert s. induction m as [a|X c k IH]; intros s; [done|]. cbn [pthen CacheSystem.run].
  destruct (answer validator space now s c) as [x s']. apply IH.
Qed.

(** Handles from [next_fd] on were never used. *)
Definition fresh (s : os) : Prop :=
  forall h, (next_fd s <= h)%nat -> opened s !! h = None /\ locks s !! h = None.

(** No handle holds a lock of the file [l]. *)
Definition unlocked (s : os) (l : bytes) : bool :=
  forallb (fun e : fd * bool => negb (bool_decide (opened s !! e.1 = Some l))) (map_to_list (locks s)).

(** The state after a handle of the lock file [l] came and went. *)
Definition touched_lock (l : bytes) (s : os) : os :=
  mkOs (<[l := default (mkFile [] now) (files s !! l)]> (files s)) (opened s) (locks s) (S (next_fd s)) (has_root s).

(** The state in which the next handle holds [l] exclusively. *)
Definition with_lock (l : bytes) (s : os) : os :=
  mkOs (files (touched_lock l s)) (<[next_fd s := l]> (opened s)) (<[next_fd s := true]> (locks s))
    (S (next_fd s)) (has_root s).

Lemma forallb_ext_in {A} (f g : A -> bool) l : (forall x, In x l -> f x = g x) -> forallb f l = forallb g l.
Proof.
  induction l as [|x l IH]; intros H; [done|]. cbn. rewrite (H x) by by left. f_equal. apply IH.
  intros y Hy. apply H. by right.
Qed.

Lemma unlocked_free s l :
  fresh s -> lock_freeb (mkOs (files s) (<[next_fd s := l]> (opened s)) (locks s) (S (next_fd s)) (has_root s))
    (next_fd s) l true = unlocked s l.
Proof.
  intros Hf. unfold lock_freeb, unlocked. apply forallb_ext_in. intros [h e] Hin. cbn.
  apply list_elem_of_In, elem_of_map_to_list in Hin.
  assert (h <> next_fd s) as Hne by (intros ->; destruct (Hf (next_fd s)) as [_ H]; [done|by rewrite H in Hin]).
  rewrite (proj2 (Nat.eqb_neq _ _) Hne), lookup_insert_ne by done. by rewrite orb_false_r.
Qed.

Lemma run_try_exclusive l s :
  fresh s ->
  run (tryExclusive l) s =
    if unlocked s l then (inl (next_fd s), with_lock l s)
    else (inr (true, ("lock is held elsewhere: " +:+ ClaimCatalog.text_of l)%string), touched_lock l s).
Proof.
  intros Hf. unfold tryExclusive, tryAcquireHandle. rewrite run_then.
  cbn [do_ CacheSystem.run answer]. rewrite run_then. cbn [do_ CacheSystem.run answer opened].
  rewrite lookup_insert_eq. change (lock_freeb _ (next_fd s) l true) with
    (lock_freeb (mkOs (files s) (<[next_fd s := l]> (opened s)) (locks s) (S (next_fd s)) (has_root s)) (next_fd s) l true).
  rewrite unlocked_free by done. destruct (Hf (next_fd s) (le_n _)) as [Ho Hl].
  destruct (unlocked s l); [done|]. rewrite run_then. cbn [do_ CacheSystem.run answer opened locks files next_fd has_root].
  by rewrite delete_insert_id, delete_id.
Qed.

(** Closing the handle of a lock taken by the next handle, whatever became of the files. *)
Lemma run_close l s fs :
  fresh s -> run (do_ (Close (next_fd s))) (set_files fs (with_lock l s)) = (tt, set_files fs (touched_lock l s)).
Proof.
  intros Hf. destruct (Hf (next_fd s) (le_n _)) as [Ho Hl].
  cbn [do_ CacheSystem.run answer set_files with_lock touched_lock opened locks files next_fd has_root].
  by rewrite !delete_insert_id.
Qed.

Lemma fresh_touched l fs s : fresh s -> fresh (set_files fs (touched_lock l s)).
Proof. intros Hf h Hh. cbn in Hh |- *. apply Hf. lia. Qed.
End Running.

(** States that differ in their files and unused handles only. *)
Definition quiet (s s' : os) : Prop :=
  opened s' = opened s /\ locks s' = locks s /\ has_root s' = has_root s /\ fresh s'.

Lemma quiet_unlocked s s' l : quiet s s' -> unlocked s' l = unlocked s l.
Proof. intros (Ho & Hl & _). unfold unlocked. by rewrite Ho, Hl. Qed.

Lemma quiet_trans s1 s2 s3 : quiet s1 s2 -> quiet s2 s3 -> quiet s1 s3.
Proof. intros (? & ? & ? & _) (? & ? & ? & ?). unfold quiet. split_and!; congruence || done. Qed.

(** ** Results *)

Definition reclaim (v : Z) (r : CleanupResult) : CleanupResult :=
  mkResult (bytes_scanned r) (bytes_reclaimed r + v) (bytes_held_over_target r) (target_met r) (had_errors r).

Lemma saturatedAdd_fits a b : a + b <= UINT64_MAX -> saturatedAdd a b = a + b.
Proof. intros H. unfold saturatedAdd. destruct (b >? UINT64_MAX - a) eqn:E; [apply Z.gtb_lt in E; lia|done]. Qed.

Lemma add_reclaimed_fits v r : bytes_reclaimed r + v <= UINT64_MAX -> add_reclaimed v r = reclaim v r.
Proof. intros H. unfold add_reclaimed, reclaim. by rewrite saturatedAdd_fits. Qed.

Lemma note_if_false r : note_if false r = r.
Proof. destruct r as [? ? ? ? []]; done. Qed.

Lemma reclaim_zero r : reclaim 0 r = r.
Proof. destruct r. unfold reclaim. cbn. by rewrite Z.add_0_r. Qed.

Lemma reclaim_reclaim v w r : reclaim w (reclaim v r) = reclaim (v + w) r.
Proof. unfold reclaim. cbn. by rewrite Z.add_assoc. Qed.

Fixpoint sum (l : list Z) : Z := match l with [] => 0 | z :: l' => z + sum l' end.

Lemma sum_nonneg l : Forall (fun z => 0 <= z) l -> 0 <= sum l.
Proof. induction 1; cbn; lia. Qed.

Lemma sum_app l k : sum (l ++ k) = sum l + sum k.
Proof. induction l; cbn; lia. Qed.

(** ** Names of different kinds *)

Section Cleaning.
Context (validator : bytes -> bytes -> option string) (spec : CacheSpec) (space now : Z) (policy : CleanupPolicy).

Notation run := (run validator space now).

Lemma guarded_not_lock f : guard spec f <> None -> ~ is_lock spec f.
Proof. intros H Hl. apply H. by apply guard_lock. Qed.

Lemma guarded_not_touch f : guard spec f <> None -> ~ is_touch spec f.
Proof. intros H Hl. apply H. by apply guard_touch. Qed.

Lemma classified_guard f k a : classify spec f = (k, a) -> k <> kOther -> guard spec f = Some (lockOf a).
Proof. intros H Hk. unfold guard. rewrite H. by destruct k. Qed.

(** ** The scan *)

Definition size_of (F : gmap bytes File) (f : bytes) : Z :=
  match F !! f with Some file => Z.of_nat (length (content file)) | None => 0 end.

Definition stamp_of (F : gmap bytes File) (f : bytes) : Z :=
  match F !! touchOf f, F !! f with
  | Some touch, _ => mtime touch
  | None, Some file => mtime file
  | None, None => INT64_MIN
  end.

Definition candidate_of (F : gmap bytes File) (f : bytes) : option EvictionCandidate :=
  match classify spec f with
  | (kArtifact, _) => Some (mkCandidate f (size_of F f) (stamp_of F f))
  | _ => None
  end.

(** A partial is orphaned when it is as old as the policy says. *)
Definition old (F : gmap bytes File) (f : bytes) : bool :=
  match F !! f with Some file => now - mtime file >=? orphan_partial_age policy | None => false end.

Definition orphan_of (F : gmap bytes File) (f : bytes) : option StalePartial :=
  match classify spec f with
  | (kPartial, a) => if old F f then Some (mkStale f a) else None
  | _ => None
  end.

Definition present (F : gmap bytes File) (f : bytes) : Prop := is_Some (F !! f).

Lemma run_readLruStamp f s :
  present (files s) f -> run (readLruStamp f) s = ((Some (stamp_of (files s) f), ENone), s).
Proof.
  intros [file Hf]. unfold readLruStamp, stamp_of. rewrite run_then, Hf.
  cbn [do_ CacheSystem.run answer]. destruct (files s !! touchOf f) as [t|]; [done|]. cbn [snd is_error negb].
  rewrite run_then. cbn [do_ CacheSystem.run answer]. by rewrite Hf.
Qed.

Definition total (F : gmap bytes File) (entries : list bytes) : Z :=
  sum (map ec_size (omap (candidate_of F) entries)).

Lemma sizes_nonneg F entries : Forall (fun z => 0 <= z) (map ec_size (omap (candidate_of F) entries)).
Proof.
  induction entries as [|f entries IH]; [constructor|]. cbn. unfold candidate_of at 1, size_of.
  destruct (classify spec f) as [[] a]; try done. cbn. constructor; [|done]. cbn. destruct (F !! f); lia.
Qed.

Lemma run_scan entries : forall scan r s,
  Forall (present (files s)) entries -> scan_total scan + total (files s) entries <= UINT64_MAX ->
  run (scan_entries spec policy entries now scan r) s =
    ((mkScan (stale_partials scan ++ omap (orphan_of (files s)) entries)
        (candidates scan ++ omap (candidate_of (files s)) entries)
        (scan_total scan + total (files s) entries), r), s).
Proof.
  induction entries as [|f entries IH]; intros scan r s Hp Hfit; cbn [scan_entries].
  { cbn. unfold total. cbn. rewrite !app_nil_r, Z.add_0_r. by destruct scan. }
  inversion_clear Hp as [|? ? [file Hf] Hps]. rewrite run_then. cbn [do_ CacheSystem.run answer]. rewrite Hf.
  cbn [fst snd negb is_error orb]. unfold total in *. cbn [omap list_omap] in Hfit |- *.
  pose proof (sum_nonneg _ (sizes_nonneg (files s) entries)) as Hnn.
  assert (candidate_of (files s) f = match classify spec f with
    | (kArtifact, _) => Some (mkCandidate f (Z.of_nat (length (content file))) (stamp_of (files s) f))
    | _ => None end) as Hcand by (unfold candidate_of, size_of; by rewrite Hf).
  assert (orphan_of (files s) f = match classify spec f with
    | (kPartial, a) => if now - mtime file >=? orphan_partial_age policy then Some (mkStale f a) else None
    | _ => None end) as Horphan by (unfold orphan_of, old; by rewrite Hf).
  destruct (classify spec f) as [[] a] eqn:Hc; rewrite Hcand in Hfit |- *; rewrite Horphan.
  - rewrite run_then. cbn [do_ CacheSystem.run answer]. rewrite Hf. cbn [snd is_error].
    rewrite run_then, run_readLruStamp by (by eexists). cbn [fst default map sum ec_size] in Hfit |- *.
    rewrite saturatedAdd_fits by lia. rewrite IH; [|done|cbn [scan_total]; lia].
    cbn [stale_partials candidates scan_total]. rewrite <-!app_assoc. cbn [app]. do 3 f_equal. lia.
  - rewrite run_then. cbn [do_ CacheSystem.run answer]. rewrite Hf. cbn [fst snd is_error negb andb].
    rewrite note_if_false. destruct (_ >=? _); rewrite IH by done; [|done].
    cbn [stale_partials candidates scan_total]. by rewrite <-app_assoc.
  - by rewrite IH.
Qed.

(** ** Removing files under their locks *)

Lemma touched_files l s f : is_lock spec l -> ~ is_lock spec f -> files (touched_lock now l s) !! f = files s !! f.
Proof. intros Hl Hf. cbn. rewrite lookup_insert_ne; [done|]. by intros ->. Qed.

Lemma touched_quiet l s fs : fresh s -> quiet s (set_files fs (touched_lock now l s)).
Proof. intros Hf. repeat split; apply fresh_touched; done. Qed.

Lemma touched_quiet' l s : fresh s -> quiet s (touched_lock now l s).
Proof. intros Hf. by apply (touched_quiet l s (files (touched_lock now l s))). Qed.

(** The files of [s'] are those of [s] without [gone], lock files apart. *)
Definition without (gone : list bytes) (s s' : os) : Prop :=
  forall f, ~ is_lock spec f -> files s' !! f = if bool_decide (f ∈ gone) then None else files s !! f.

Lemma without_trans g1 g2 s1 s2 s3 : without g1 s1 s2 -> without g2 s2 s3 -> without (g1 ++ g2) s1 s3.
Proof.
  intros H1 H2 f Hf. rewrite H2, H1 by done. repeat case_bool_decide; set_solver.
Qed.

Lemma without_touched l s : is_lock spec l -> without [] s (touched_lock now l s).
Proof. intros Hl f Hf. rewrite touched_files by done. by rewrite bool_decide_false by set_solver. Qed.

Lemma without_delete f l s :
  is_lock spec l -> without [f] s (set_files (delete f (files (touched_lock now l s))) (touched_lock now l s)).
Proof.
  intros Hl g Hg. cbn [set_files files]. destruct (decide (g = f)) as [->|Hne].
  - rewrite lookup_delete_eq, bool_decide_true; [done|set_solver].
  - rewrite lookup_delete_ne, bool_decide_false; [|set_solver|done]. by apply touched_files.
Qed.

Lemma size_nonneg F fs : 0 <= sum (map (size_of F) fs).
Proof. induction fs as [|f fs IH]; cbn [map sum]; [done|]. unfold size_of at 1. destruct (F !! f); lia. Qed.

Definition orphan_ok (F : gmap bytes File) (p : StalePartial) : Prop :=
  classify spec (sp_file p) = (kPartial, sp_artifact p) /\ old F (sp_file p) = true.

Lemma run_remove_stale f r s :
  old (files s) f = true -> bytes_reclaimed r + size_of (files s) f <= UINT64_MAX ->
  run (remove_stale policy f r) s = (reclaim (size_of (files s) f) r, set_files (delete f (files s)) s).
Proof.
  unfold old, size_of. destruct (files s !! f) as [file|] eqn:Hf; [|done]. intros Hold Hfit.
  unfold remove_stale. rewrite run_then. cbn [do_ CacheSystem.run answer]. rewrite Hf. cbn [fst negb].
  rewrite run_then. cbn [do_ CacheSystem.run answer]. rewrite Hf. cbn [snd fst is_error].
  rewrite run_then. cbn [do_ CacheSystem.run answer].
  assert (now - mtime file <? orphan_partial_age policy = false) as -> by blia.
  rewrite run_then. cbn [do_ CacheSystem.run answer]. rewrite Hf. cbn [CacheSystem.run].
  rewrite run_then. cbn [do_ CacheSystem.run answer]. rewrite Hf. cbn [snd fst is_error negb andb CacheSystem.run].
  unfold noteErrorUnlessMissing. cbn [is_error andb]. by rewrite note_if_false, add_reclaimed_fits.
Qed.

(** The partials of [ps] whose identities nobody has locked. *)
Definition removable (s : os) (ps : list StalePartial) : list bytes :=
  map sp_file (List.filter (fun p => unlocked s (lockOf (sp_artifact p))) ps).

Lemma removable_cons s p ps :
  removable s (p :: ps) =
    if unlocked s (lockOf (sp_artifact p)) then sp_file p :: removable s ps else removable s ps.
Proof. unfold removable. cbn. by destruct (unlocked _ _). Qed.

Lemma removable_quiet s s' ps : quiet s s' -> removable s' ps = removable s ps.
Proof.
  intros H. unfold removable. f_equal. induction ps as [|p ps IH]; [done|]. cbn.
  by rewrite IH, (quiet_unlocked s s').
Qed.

Lemma removable_sub s ps f : f ∈ removable s ps -> f ∈ map sp_file ps.
Proof.
  unfold removable. rewrite !list_elem_of_In, !in_map_iff. intros (p & <- & Hp). apply filter_In in Hp as [Hp _]. eauto.
Qed.

Lemma sizes_same F F' fs : (forall f, f ∈ fs -> F' !! f = F !! f) -> map (size_of F') fs = map (size_of F) fs.
Proof.
  intros H. induction fs as [|f fs IH]; [done|]. cbn. unfold size_of at 1 3. rewrite H by set_solver. f_equal.
  apply IH. intros f' Hf'. apply H. set_solver.
Qed.

Lemma run_removeStale ps : forall r s,
  fresh s -> Forall (orphan_ok (files s)) ps -> NoDup (map sp_file ps) ->
  bytes_reclaimed r + sum (map (size_of (files s)) (removable s ps)) <= UINT64_MAX ->
  exists s', run (removeStalePartials policy ps r) s =
      (reclaim (sum (map (size_of (files s)) (removable s ps))) r, s') /\
    quiet s s' /\ without (removable s ps) s s'.
Proof.
  induction ps as [|p ps IH]; intros r s Hfresh Hok Hnd Hfit; cbn [removeStalePartials].
  { exists s. cbn. rewrite reclaim_zero. split_and!; [done|by split_and!|]. intros f _. by rewrite bool_decide_false by set_solver. }
  apply Forall_cons in Hok as [[Hc Hold] Hok]. apply NoDup_cons in Hnd as [Hnin Hnd].
  set (l := lockOf (sp_artifact p)). pose proof (classified_guard _ _ _ Hc ltac:(done)) as Hg.
  assert (is_lock spec l) as Hl by by eapply guard_is_lock.
  assert (~ is_lock spec (sp_file p)) as Hnl by (apply guarded_not_lock; by rewrite Hg).
  assert (forall q, q ∈ ps -> ~ is_lock spec (sp_file q)) as Hlocks.
  { intros q Hq. rewrite Forall_forall in Hok. destruct (Hok q Hq) as [Hq' _].
    apply guarded_not_lock. by rewrite (classified_guard _ _ _ Hq'). }
  assert (forall s1, quiet s s1 -> (forall q, q ∈ ps -> files s1 !! sp_file q = files s !! sp_file q) ->
    Forall (orphan_ok (files s1)) ps /\ removable s1 ps = removable s ps /\
    map (size_of (files s1)) (removable s1 ps) = map (size_of (files s)) (removable s ps)) as Hnext.
  { intros s1 Hq1 Hsame. split_and!.
    - apply Forall_forall. intros q Hq. rewrite Forall_forall in Hok. destruct (Hok q Hq) as [H1 H2]. split; [done|].
      unfold old. by rewrite Hsame.
    - by apply removable_quiet.
    - rewrite (removable_quiet s s1) by done. apply sizes_same. intros f Hf. apply removable_sub in Hf.
      apply list_elem_of_In, in_map_iff in Hf as (q & <- & Hq). apply Hsame. by apply list_elem_of_In. }
  rewrite removable_cons in Hfit |- *. fold l in Hfit |- *.
  pose proof (size_nonneg (files s) (removable s ps)) as Hnn.
  rewrite run_then, run_try_exclusive by done. destruct (unlocked s l) eqn:Hu.
  - rewrite run_then. cbn [map sum] in Hfit |- *.
    assert (files (with_lock now l s) !! sp_file p = files s !! sp_file p) as Hf by (by apply (touched_files l s)).
    assert (size_of (files (with_lock now l s)) (sp_file p) = size_of (files s) (sp_file p)) as Hs
      by (unfold size_of; by rewrite Hf).
    rewrite run_remove_stale; [|unfold old; by rewrite Hf|rewrite Hs; lia].
    rewrite Hs, run_then, run_close by done. set (s1 := set_files _ _).
    assert (quiet s s1) as Hq1 by (by apply touched_quiet).
    pose proof (without_delete (sp_file p) l s Hl : without _ s s1) as Hw1.
    destruct (Hnext s1 Hq1) as (H1 & H2 & H3).
    { intros q Hq. rewrite Hw1 by auto. rewrite bool_decide_false; [done|]. intros Hin.
      apply list_elem_of_singleton in Hin. apply Hnin. rewrite <-Hin.
      apply list_elem_of_In, in_map, list_elem_of_In, Hq. }
    destruct (IH (reclaim (size_of (files s) (sp_file p)) r) s1) as (s' & -> & Hq2 & Hw); [apply Hq1|done|done| |].
    { rewrite H3. cbn [reclaim bytes_reclaimed]. lia. }
    exists s'. rewrite H3, reclaim_reclaim. split; [done|]. split; [exact (quiet_trans _ _ _ Hq1 Hq2)|].
    rewrite H2 in Hw. exact (without_trans [_] _ _ _ _ Hw1 Hw).
  - cbn [negb]. rewrite note_if_false. set (s1 := touched_lock now l s).
    assert (quiet s s1) as Hq1 by (by apply touched_quiet').
    destruct (Hnext s1 Hq1) as (H1 & H2 & H3).
    { intros q Hq. by apply touched_files; auto. }
    destruct (IH r s1) as (s' & -> & Hq2 & Hw); [apply Hq1|done|done|by rewrite H3|].
    exists s'. rewrite H3. split; [done|]. split; [exact (quiet_trans _ _ _ Hq1 Hq2)|].
    rewrite H2 in Hw. exact (without_trans [] _ _ _ _ (without_touched l s Hl) Hw).
Qed.

(** ** Eviction *)

Definition candidate_ok (F : gmap bytes File) (c : EvictionCandidate) : Prop :=
  is_artifact spec (ec_file c) /\ present F (ec_file c) /\
  ec_size c = size_of F (ec_file c) /\ ec_stamp c = stamp_of F (ec_file c).

(** The accounts after evicting candidates of [v] bytes. *)
Definition charge (v : Z) (a : Accounts) : Accounts :=
  mkAccounts (a_total a - v) (option_map (fun free => free + v) (a_available a)) (reclaim v (a_result a)).

(** The accounts stay in range when another [v] bytes are evicted. *)
Definition fits (v : Z) (a : Accounts) : Prop :=
  v <= a_total a <= UINT64_MAX /\ (forall free, a_available a = Some free -> free + v <= UINT64_MAX) /\
  bytes_reclaimed (a_result a) + v <= UINT64_MAX.

Lemma charge_zero a : charge 0 a = a.
Proof.
  destruct a as [t [free|] r]; unfold charge; cbn; rewrite reclaim_zero, ?Z.sub_0_r, ?Z.add_0_r; done.
Qed.

Lemma charge_charge v w a : charge w (charge v a) = charge (v + w) a.
Proof.
  unfold charge. cbn. rewrite reclaim_reclaim. f_equal; [lia|]. destruct (a_available a); cbn; [f_equal; lia|done].
Qed.

Lemma fits_charge v w a : 0 <= v -> fits (v + w) a -> fits w (charge v a).
Proof.
  intros Hv (Ht & Ha & Hr). unfold fits, charge. cbn. split_and!; [lia|lia| |lia].
  intros free. destruct (a_available a) as [f|] eqn:E; [|done]. intros [= <-]. pose proof (Ha f eq_refl). lia.
Qed.

Lemma run_evict v a s :
  candidate_ok (files s) v -> fits (ec_size v) a ->
  run (evict v a) s =
    (charge (ec_size v) a, set_files (delete (touchOf (ec_file v)) (delete (ec_file v) (files s))) s).
Proof.
  intros (_ & [file Hf] & Hsize & Hstamp) (Ht & Ha & Hr). unfold evict.
  rewrite run_then. cbn [do_ CacheSystem.run answer]. rewrite Hf. cbn [fst negb].
  rewrite run_then. cbn [do_ CacheSystem.run answer]. rewrite Hf. cbn [fst snd is_error].
  unfold size_of in Hsize. rewrite Hf in Hsize. rewrite <-Hsize, Z.eqb_refl. cbn [negb].
  rewrite run_then, run_readLruStamp by (by eexists). cbn [fst].
  rewrite <-Hstamp, Z.eqb_refl. cbn [negb]. rewrite run_then. cbn [do_ CacheSystem.run answer]. rewrite Hf.
  cbn [fst snd is_error negb orb]. unfold noteErrorUnlessMissing. cbn [is_error andb].
  rewrite run_then. cbn [do_ CacheSystem.run answer set_files files with_result a_total a_available a_result].
  assert (0 <= ec_size v) as Hpos by lia.
  rewrite note_if_false. unfold charge. rewrite wrap_small by (unfold in_u; change (2 ^ 64) with (UINT64_MAX + 1); lia).
  assert (option_map (fun v0 => saturatedAdd v0 (ec_size v)) (a_available a) =
          option_map (fun free => free + ec_size v) (a_available a)) as ->.
  { destruct (a_available a) as [free|]; [|done]. cbn. by rewrite saturatedAdd_fits by auto. }
  destruct (delete (ec_file v) (files s) !! touchOf (ec_file v)) eqn:Et; cbn [fst snd is_error CacheSystem.run];
    rewrite note_if_false, add_reclaimed_fits by done; [done|].
  by rewrite (delete_id _ _ Et).
Qed.

Definition sizes (cs : list EvictionCandidate) : Z := sum (map ec_size cs).

Definition excess (a : Accounts) : Z := bytesOverTarget policy (a_total a) (a_available a).

(** The accounts after the first [n] of [free]. *)
Definition after (n : nat) (free : list EvictionCandidate) (a : Accounts) : Accounts := charge (sizes (take n free)) a.

(** [n] is the least number of evictions that reaches the target, or all there are. *)
Definition stops (n : nat) (free : list EvictionCandidate) (a : Accounts) : Prop :=
  (n <= length free)%nat /\ (excess (after n free a) = 0 \/ n = length free) /\
  forall m, (m < n)%nat -> excess (after m free a) <> 0.

Lemma after_zero free a : after 0 free a = a.
Proof. apply charge_zero. Qed.

Lemma after_cons n v free a : after (S n) (v :: free) a = after n free (charge (ec_size v) a).
Proof. unfold after. by rewrite charge_charge. Qed.

Lemma stops_cons n v free a :
  excess a <> 0 -> stops n free (charge (ec_size v) a) -> stops (S n) (v :: free) a.
Proof.
  intros Ha (Hn & Hs & Hm). split; [cbn; lia|]. rewrite after_cons. split; [destruct Hs as [?| ->]; auto|].
  intros [|m] Hlt; [by rewrite after_zero|]. rewrite after_cons. apply Hm. lia.
Qed.

(** The candidates whose identities nobody has locked. *)
Definition idle (s : os) (vs : list EvictionCandidate) : list EvictionCandidate :=
  List.filter (fun v => unlocked s (lockOf (ec_file v))) vs.

Lemma idle_quiet s s' vs : quiet s s' -> idle s' vs = idle s vs.
Proof.
  intros H. unfold idle. induction vs as [|v vs IH]; [done|]. cbn. by rewrite IH, (quiet_unlocked s s').
Qed.

(** What goes with a victim: the artifact and its stamp. *)
Definition gone (vs : list EvictionCandidate) : list bytes :=
  flat_map (fun v => [ec_file v; touchOf (ec_file v)]) vs.

Lemma touchOf_inj a b : touchOf a = touchOf b -> a = b.
Proof. apply app_inv_tail. Qed.

Lemma artifact_not_touch a b : is_artifact spec a -> is_artifact spec b -> a <> touchOf b.
Proof.
  intros Ha Hb E. assert (guard spec a = None) as Hg by (apply guard_touch; by exists b).
  by rewrite guard_artifact in Hg.
Qed.

Lemma artifact_guarded a : is_artifact spec a -> guard spec a <> None.
Proof. intros Ha. by rewrite guard_artifact. Qed.

(** Evicting one candidate leaves the others as they were scanned. *)
Lemma candidate_kept gone s s1 c :
  without gone s s1 -> ec_file c ∉ gone -> touchOf (ec_file c) ∉ gone ->
  candidate_ok (files s) c -> candidate_ok (files s1) c.
Proof.
  intros Hw Hf Ht (Ha & Hp & Hsize & Hstamp).
  assert (files s1 !! ec_file c = files s !! ec_file c) as E1.
  { rewrite Hw by by apply guarded_not_lock, artifact_guarded. by rewrite bool_decide_false. }
  assert (files s1 !! touchOf (ec_file c) = files s !! touchOf (ec_file c)) as E2.
  { rewrite Hw, bool_decide_false; [done|done|]. intros Hl. by apply (touch_not_lock spec (touchOf (ec_file c))); [exists (ec_file c)|]. }
  unfold candidate_ok, present, size_of, stamp_of in *. by rewrite E1, E2.
Qed.

Lemma without_pair f t l s :
  is_lock spec l ->
  without [f; t] s (set_files (delete t (delete f (files (touched_lock now l s)))) (touched_lock now l s)).
Proof.
  intros Hl g Hg. cbn [set_files files]. destruct (decide (g = t)) as [->|Ht].
  { rewrite lookup_delete_eq, bool_decide_true; [done|set_solver]. }
  rewrite lookup_delete_ne by done. destruct (decide (g = f)) as [->|Hf].
  { rewrite lookup_delete_eq, bool_decide_true; [done|set_solver]. }
  rewrite lookup_delete_ne, bool_decide_false; [|set_solver|done]. by apply touched_files.
Qed.

Lemma candidate_size F c : candidate_ok F c -> 0 <= ec_size c.
Proof. intros (_ & _ & -> & _). unfold size_of. destruct (F !! ec_file c); lia. Qed.

Lemma stops_zero free a : excess a = 0 \/ free = [] -> stops 0 free a.
Proof. intros H. split; [lia|]. rewrite after_zero. split; [by destruct H as [?| ->]; auto|]. lia. Qed.

Lemma quiet_refl s : fresh s -> quiet s s.
Proof. done. Qed.

Lemma without_none s : without [] s s.
Proof. intros f _. done. Qed.

(** The other candidates stay as they were scanned when one is evicted or skipped. *)
Lemma candidates_kept v vs s s1 gone' :
  Forall (candidate_ok (files s)) (v :: vs) -> ec_file v ∉ map ec_file vs ->
  without gone' s s1 -> (gone' = [] \/ gone' = [ec_file v; touchOf (ec_file v)]) ->
  Forall (candidate_ok (files s1)) vs.
Proof.
  intros Hok Hnin Hw Hg. apply Forall_cons in Hok as [[Hv _] Hok]. apply Forall_forall. intros c Hc.
  rewrite Forall_forall in Hok. pose proof (Hok c Hc) as Hcok. destruct Hcok as [Hca _].
  assert (ec_file c <> ec_file v) as Hne.
  { intros E. apply Hnin. rewrite <-E. by apply list_elem_of_In, in_map, list_elem_of_In. }
  pose proof (artifact_not_touch _ _ Hca Hv). pose proof (artifact_not_touch _ _ Hv Hca) as Hn.
  assert (touchOf (ec_file c) <> touchOf (ec_file v)) by (by intros E%touchOf_inj).
  apply (candidate_kept gone' s); [done| | |by apply Hok]; destruct Hg as [-> | ->]; set_solver.
Qed.

Lemma candidates_size F vs : Forall (candidate_ok F) vs -> 0 <= sizes vs.
Proof. induction 1 as [|v vs Hv Hvs IH]; [done|]. unfold sizes. cbn. apply candidate_size in Hv. fold (sizes vs). lia. Qed.

Lemma fits_le v w a : v <= w -> fits w a -> fits v a.
Proof.
  intros Hle (Ht & Ha & Hr). split_and!; [lia..| |lia]. intros free Hfree. specialize (Ha free Hfree). lia.
Qed.

Lemma run_evict_all vs : forall a s,
  fresh s -> Forall (candidate_ok (files s)) vs -> NoDup (map ec_file vs) -> fits (sizes vs) a ->
  exists n s', run (evict_all policy vs a) s = (after n (idle s vs) a, s') /\
    stops n (idle s vs) a /\ quiet s s' /\ without (gone (take n (idle s vs))) s s'.
Proof.
  induction vs as [|v vs IH]; intros a s Hfresh Hok Hnd Hfit; cbn [evict_all].
  { exists 0%nat, s. rewrite after_zero. split_and!; [done|apply stops_zero; by right|done|apply without_none]. }
  fold (excess a). destruct (excess a =? 0) eqn:Hex.
  { exists 0%nat, s. rewrite after_zero. apply Z.eqb_eq in Hex.
    split_and!; [done|apply stops_zero; by left|done|apply without_none]. }
  apply Z.eqb_neq in Hex. pose proof Hok as Hoks. apply Forall_cons in Hok as [Hv Hok].
  apply NoDup_cons in Hnd as [Hnin Hnd]. set (l := lockOf (ec_file v)).
  assert (is_lock spec l) as Hl by (exists (ec_file v); split; [apply Hv|done]).
  pose proof (candidate_size _ _ Hv) as Hpos. pose proof (candidates_size _ _ Hok) as Hposs. unfold sizes in Hfit. cbn [map sum] in Hfit. fold (sizes vs) in Hfit.
  rewrite run_then, run_try_exclusive by done. unfold idle. cbn [List.filter]. fold l. fold (idle s vs).
  destruct (unlocked s l) eqn:Hu.
  - rewrite run_then. rewrite run_evict; [|exact (candidate_kept [] s _ v (without_touched l s Hl) ltac:(set_solver) ltac:(set_solver) Hv)|apply (fits_le _ (ec_size v + sizes vs)); [lia|done]]. rewrite run_then, run_close by done. set (s1 := set_files _ _).
    pose proof (without_pair (ec_file v) (touchOf (ec_file v)) l s Hl : without _ s s1) as Hw1.
    assert (quiet s s1) as Hq1 by (by apply touched_quiet).
    destruct (IH (charge (ec_size v) a) s1) as (n & s' & -> & Hst & Hq2 & Hw2).
    + apply Hq1.
    + eapply candidates_kept; eauto.
    + done.
    + by apply fits_charge.
    + rewrite (idle_quiet _ _ _ Hq1) in Hst, Hw2 |- *. exists (S n), s'. rewrite after_cons.
      split_and!; [done|by apply stops_cons|exact (quiet_trans _ _ _ Hq1 Hq2)|].
      exact (without_trans _ _ _ _ _ Hw1 Hw2).
  - cbn [negb]. unfold with_result. rewrite note_if_false. set (s1 := touched_lock now l s).
    pose proof (without_touched l s Hl : without _ s s1) as Hw1.
    assert (quiet s s1) as Hq1 by (by apply touched_quiet').
    destruct (IH a s1) as (n & s' & Hr & Hst & Hq2 & Hw2).
    + apply Hq1.
    + eapply candidates_kept; eauto.
    + done.
    + apply (fits_le _ (ec_size v + sizes vs)); [lia|done].
    + exists n, s'. rewrite (idle_quiet _ _ _ Hq1) in Hr, Hst, Hw2.
      split_and!; [|done|exact (quiet_trans _ _ _ Hq1 Hq2)|exact (without_trans [] _ _ _ _ Hw1 Hw2)].
      rewrite <-Hr. by destruct a.
Qed.

(** ** A whole cleanup *)

Definition listing (s : os) : list bytes := map fst (map_to_list (files s)).

(** The candidates and the orphaned partials of a state. *)
Definition artifacts (s : os) : list EvictionCandidate := omap (candidate_of (files s)) (listing s).
Definition orphans (s : os) : list StalePartial := omap (orphan_of (files s)) (listing s).
Definition orphan_bytes (s : os) : Z := sum (map (size_of (files s)) (removable s (orphans s))).

Definition free_space : option Z := if min_free_bytes policy =? 0 then None else Some space.

(** The accounts before the first eviction. *)
Definition opening (s : os) : Accounts :=
  mkAccounts (sizes (artifacts s)) free_space (mkResult (sizes (artifacts s)) (orphan_bytes s) 0 true false).

Lemma listing_present s : Forall (present (files s)) (listing s).
Proof.
  apply Forall_forall. intros f Hf. apply list_elem_of_In, in_map_iff in Hf as ([f' file] & <- & Hin).
  apply list_elem_of_In, elem_of_map_to_list in Hin. by exists file.
Qed.

Lemma NoDup_omap {A B} (f : A -> option B) (key : B -> A) l :
  (forall a b, f a = Some b -> key b = a) -> NoDup l -> NoDup (map key (omap f l)).
Proof.
  intros Hkey. induction 1 as [|a l Hn Hnd IH]; cbn; [constructor|]. destruct (f a) as [b|] eqn:E; [|done]. cbn.
  constructor; [|done]. rewrite (Hkey _ _ E). intros Hin. apply Hn.
  apply list_elem_of_In, in_map_iff in Hin as (b' & Hb' & Hin). apply list_elem_of_In, list_elem_of_omap in Hin as (a' & Ha' & Hf).
  by rewrite <-Hb', (Hkey _ _ Hf).
Qed.

Lemma classify_self f a : classify spec f = (kArtifact, a) -> a = f.
Proof.
  unfold classify. destruct (negb _); [done|]. destruct (bytes_eqb _ _); [by intros [= ->]|].
  destruct (_ && _); [|done]. by destruct (forallb isAsciiDigit _).
Qed.

Lemma candidate_of_spec F f c : present F f -> candidate_of F f = Some c -> ec_file c = f /\ candidate_ok F c.
Proof.
  unfold candidate_of. intros Hp. destruct (classify spec f) as [[] a] eqn:Hc; try done. intros [= <-].
  pose proof (classify_self _ _ Hc) as ->. split; [done|]. by split_and!; [apply (classify_kind spec f kArtifact)|..].
Qed.

Lemma orphan_of_spec F f p : orphan_of F f = Some p -> sp_file p = f /\ orphan_ok F p.
Proof.
  unfold orphan_of. destruct (classify spec f) as [[] a] eqn:Hc; try done.
  destruct (old F f) eqn:Ho; [|done]. by intros [= <-].
Qed.

Lemma artifacts_ok s : Forall (candidate_ok (files s)) (artifacts s) /\ NoDup (map ec_file (artifacts s)).
Proof.
  pose proof (listing_present s) as Hl. rewrite Forall_forall in Hl. split.
  - apply Forall_forall. intros c Hc. apply list_elem_of_omap in Hc as (f & Hf & Hc).
    by apply (candidate_of_spec _ f c (Hl f Hf)).
  - apply NoDup_omap; [|apply NoDup_fst_map_to_list]. intros f c. unfold candidate_of.
    destruct (classify spec f) as [[] a]; [|done..]. by intros [= <-].
Qed.

Lemma orphans_ok s : Forall (orphan_ok (files s)) (orphans s) /\ NoDup (map sp_file (orphans s)).
Proof.
  split.
  - apply Forall_forall. intros p Hp. apply list_elem_of_omap in Hp as (f & _ & Hp). by apply (orphan_of_spec _ f).
  - apply NoDup_omap; [|apply NoDup_fst_map_to_list]. intros f p Hp. by apply orphan_of_spec in Hp as [? _].
Qed.

(** Removing the orphaned partials leaves the candidates. *)
Lemma artifacts_after_orphans s s1 :
  without (removable s (orphans s)) s s1 -> Forall (candidate_ok (files s1)) (artifacts s).
Proof.
  intros Hw. destruct (artifacts_ok s) as [Hok _]. destruct (orphans_ok s) as [Hor _]. rewrite Forall_forall in Hok; rewrite Forall_forall in Hor.
  assert (forall f, f ∈ removable s (orphans s) -> exists a, classify spec f = (kPartial, a)) as Hp.
  { intros f Hf%removable_sub. apply list_elem_of_In, in_map_iff in Hf as (p & <- & Hp).
    apply list_elem_of_In in Hp. exists (sp_artifact p). by apply Hor. }
  apply Forall_forall. intros c Hc. pose proof (Hok c Hc) as Hcok. destruct Hcok as [Ha _].
  apply (candidate_kept (removable s (orphans s)) s); [done| | |by apply Hok].
  - intros [a Hf]%Hp. by rewrite classify_artifact in Hf.
  - intros [a Hf]%Hp. apply (guarded_not_touch (touchOf (ec_file c))); [|by exists (ec_file c)].
    by rewrite (classified_guard _ _ _ Hf).
Qed.

Lemma opening_fits s :
  orphan_bytes s + sizes (artifacts s) <= UINT64_MAX -> space + sizes (artifacts s) <= UINT64_MAX ->
  fits (sizes (artifacts s)) (opening s).
Proof.
  intros H1 H2. pose proof (size_nonneg (files s) (removable s (orphans s))) as Ho. fold (orphan_bytes s) in Ho.
  unfold fits, opening, free_space. cbn. split_and!; [lia|lia| |lia]. intros free.
  destruct (min_free_bytes policy =? 0); [done|]. by intros [= <-].
Qed.

Lemma run_scanRoot r s :
  sizes (artifacts s) <= UINT64_MAX ->
  run (scanRoot spec policy r) s = ((mkScan (orphans s) (artifacts s) (sizes (artifacts s)), r), s).
Proof.
  intros Hfit. unfold scanRoot. rewrite run_then. cbn [do_ CacheSystem.run answer].
  rewrite run_then. cbn [do_ CacheSystem.run answer]. fold (listing s). rewrite run_then.
  rewrite run_scan; [done|apply listing_present|done].
Qed.

Lemma sizes_perm l k : l ≡ₚ k -> sizes l = sizes k.
Proof. unfold sizes. induction 1; cbn; lia. Qed.

Lemma run_evictUntil cs s a :
  fresh s -> Forall (candidate_ok (files s)) cs -> NoDup (map ec_file cs) ->
  a_available a = free_space -> fits (sizes cs) a ->
  let order := merge_sort stamp_le cs in
  exists n s', run (evictUntilUnderBudget policy cs (a_total a) (a_result a)) s =
      (let last := after n (idle s order) a in
       (set_met (excess last) (excess last =? 0) (a_result last), s')) /\
    stops n (idle s order) a /\ quiet s s' /\ without (gone (take n (idle s order))) s s'.
Proof.
  intros Hfresh Hok Hnd Hav Hfit order.
  assert (order ≡ₚ cs) as Hperm by apply merge_sort_Permutation.
  destruct (run_evict_all order a s) as (n & s' & Hr & Hst & Hq & Hw).
  - done.
  - by rewrite Hperm.
  - unfold order in *. by rewrite (Permutation_map ec_file Hperm).
  - by rewrite (sizes_perm _ _ Hperm).
  - exists n, s'. split; [|done]. unfold evictUntilUnderBudget. unfold free_space in Hav. fold order.
    assert (a = mkAccounts (a_total a) (if min_free_bytes policy =? 0 then None else Some space) (a_result a)) as Ha
      by (destruct a; cbn in *; by rewrite Hav).
    destruct (min_free_bytes policy =? 0); cbn [negb].
    + rewrite run_then, <-Ha, Hr. done.
    + rewrite run_then. cbn [do_ CacheSystem.run answer snd is_error fst]. rewrite run_then, <-Ha, Hr. done.
Qed.

(** C21 What a cleanup removes: run while the other agents hold still, in a system
    where nothing fails, it deletes the partials that are old enough and the
    artifacts with the oldest stamps, each only when nobody has locked its identity; of the
    unlocked artifacts it evicts the least number that meets the budget, or all; it
    touches no other file but its own lock files, gives back every lock, and reports the bytes
    it scanned, reclaimed and left over the target, without an error. *)
Theorem cleanup_evicts_lru s :
  root spec <> [] -> has_root s = true -> fresh s ->
  orphan_bytes s + sizes (artifacts s) <= UINT64_MAX -> space + sizes (artifacts s) <= UINT64_MAX ->
  exists order n s',
    order ≡ₚ artifacts s /\ Sorted (fun a b => ec_stamp a <= ec_stamp b) order /\ stops n (idle s order) (opening s) /\
    (let evicted := take n (idle s order) in
     let over := excess (after n (idle s order) (opening s)) in
     run (cleanup spec policy) s =
       (mkResult (sizes (artifacts s)) (orphan_bytes s + sizes evicted) over (over =? 0) false, s') /\
     forall f, ~ is_lock spec f ->
       files s' !! f =
         if bool_decide (f ∈ removable s (orphans s) ++ gone evicted) then None else files s !! f) /\
    opened s' = opened s /\ locks s' = locks s.
Proof.
  intros Hroot Hhas Hfresh Hb1 Hb2. destruct (artifacts_ok s) as [Hok Hnd]. destruct (orphans_ok s) as [Hor Hno].
  pose proof (candidates_size _ _ Hok) as Hpos. pose proof (size_nonneg (files s) (removable s (orphans s))) as Hopos.
  fold (orphan_bytes s) in Hopos.
  set (r0 := mkResult (sizes (artifacts s)) 0 0 true false).
  destruct (run_removeStale (orphans s) r0 s Hfresh Hor Hno) as (s1 & Hr1 & Hq1 & Hw1); [cbn; fold (orphan_bytes s); lia|].
  fold (orphan_bytes s) in Hr1. pose proof (artifacts_after_orphans s s1 Hw1) as Hok1.
  destruct (run_evictUntil (artifacts s) s1 (opening s)) as (n & s' & Hr2 & Hst & Hq2 & Hw2);
    [apply Hq1|done|done|done|by apply opening_fits|].
  rewrite (idle_quiet _ _ _ Hq1) in Hr2, Hst, Hw2.
  exists (merge_sort stamp_le (artifacts s)), n, s'.
  split; [apply merge_sort_Permutation|]. split; [apply Sorted_merge_sort; intros x y; unfold stamp_le; lia|].
  split; [done|]. split; [split|].
  - unfold cleanup. rewrite bool_decide_false by done. rewrite run_then. cbn [do_ CacheSystem.run answer]. rewrite Hhas.
    rewrite run_then, run_scanRoot by lia. cbn [negb target_met result_default].
    change (set_scanned _ result_default) with r0. cbn [stale_partials candidates scan_total].
    rewrite run_then, Hr1. exact Hr2.
  - exact (without_trans _ _ _ _ _ Hw1 Hw2).
  - pose proof (quiet_trans _ _ _ Hq1 Hq2) as (? & ? & _). done.
Qed.
End Cleaning.
