(* ===== verification/CachePublish.v ===== *)
(** * CachePublish: what is committed is what a lookup finds

    One agent materializes an artifact while the others hold still, in a system where
    nothing fails: the transaction begins, a lookup misses as long as it runs,
    [commit] publishes the file written and hands over a shared lease, and once that is
    released a lookup returns the same file. *)

From stdpp Require Import gmap sorting.
From S2P Require Import Prelude Text SourceDescriptor RequestCache CacheSystem CacheSafety CacheDiscipline CacheEviction.

Section Publish.
Context (validator : bytes -> bytes -> option string) (spec : CacheSpec) (space now : Z).

Notation run := (run validator space now).
Notation touched_lock := (touched_lock now).

(** The state in which the next handle holds [l] in a mode. *)
Definition holding (exclusive : bool) (l : bytes) (s : os) : os :=
  mkOs (files (touched_lock l s)) (<[next_fd s := l]> (opened s)) (<[next_fd s := exclusive]> (locks s))
    (S (next_fd s)) (has_root s).

Lemma lock_freeb_shared s h l : lock_freeb s h l true = true -> lock_freeb s h l false = true.
Proof.
  unfold lock_freeb. rewrite !forallb_forall. intros H e He. specialize (H e He). cbn in H |- *.
  rewrite orb_false_r in H. by rewrite H.
Qed.

Lemma run_try_shared l s :
  fresh s -> unlocked s l = true -> run (tryShared l) s = (inl (next_fd s), holding false l s).
Proof.
  intros Hf Hu. unfold tryShared. rewrite run_then. unfold tryAcquireHandle. rewrite run_then.
  cbn [do_ CacheSystem.run answer]. rewrite run_then. cbn [do_ CacheSystem.run answer opened].
  rewrite lookup_insert_eq. rewrite <-(unlocked_free s l Hf) in Hu. apply lock_freeb_shared in Hu.
  unfold lock_freeb in *. cbn [opened locks] in *. rewrite Hu. done.
Qed.

(** While a handle holds [l] exclusively, no other handle gets it. *)
Lemma run_try_busy l s h :
  opened s !! h = Some l -> locks s !! h = Some true -> fresh s ->
  exists e, run (tryShared l) s = (inr e, touched_lock l s).
Proof.
  intros Ho Hl Hf. unfold tryShared. rewrite run_then. unfold tryAcquireHandle. rewrite run_then.
  cbn [do_ CacheSystem.run answer]. rewrite run_then. cbn [do_ CacheSystem.run answer opened].
  rewrite lookup_insert_eq. destruct (Hf (next_fd s) (le_n _)) as [Ho' Hl'].
  match goal with |- context [lock_freeb ?s ?h ?l false] => destruct (lock_freeb s h l false) eqn:E end.
  - exfalso. unfold lock_freeb in E. cbn [opened locks] in E. rewrite forallb_forall in E.
    apply elem_of_map_to_list, list_elem_of_In in Hl as Hin. specialize (E _ Hin). cbn in E.
    assert (h <> next_fd s) as Hne by (intros ->; by rewrite Ho in Ho').
    rewrite (proj2 (Nat.eqb_neq _ _) Hne), lookup_insert_ne, bool_decide_true in E by done. done.
  - rewrite run_then. cbn [do_ CacheSystem.run answer opened locks files next_fd has_root].
    rewrite delete_insert_id, delete_id by done. by eexists.
Qed.

Lemma run_touchStamp a s :
  run (touchStamp a) s = (tt, set_files (<[touchOf a := mkFile [] now]> (files s)) s).
Proof.
  unfold touchStamp. rewrite run_then. cbn [do_ CacheSystem.run answer]. rewrite run_then.
  cbn [do_ CacheSystem.run answer]. rewrite run_then. cbn [do_ CacheSystem.run answer set_files files].
  rewrite lookup_insert_eq. cbn. by rewrite insert_insert_eq.
Qed.

(** ** The operations *)

Context (identity digest : bytes) (artifact : bytes).
Hypothesis Hresolve : resolveIdentity spec identity = inr (digest, artifact).

Let lock := lockOf artifact.
Let rooted (s : os) : os := mkOs (files s) (opened s) (locks s) (next_fd s) true.

Lemma artifact_named : is_artifact spec artifact.
Proof. destruct (resolve_ok _ _ _ _ Hresolve) as [Hd ->]. by apply artifact_digest. Qed.

Lemma run_beginWrite pid s :
  fresh s -> unlocked s lock = true ->
  run (beginWrite spec pid identity) s =
    (inr (mkTransaction digest artifact (partialOf pid artifact) (next_fd s)), holding true lock (rooted s)).
Proof.
  intros Hf Hu. unfold beginWrite, resolve_creating. rewrite Hresolve, run_then, run_then.
  cbn [do_ CacheSystem.run answer]. fold (rooted s). rewrite run_then. fold lock.
  rewrite (run_try_exclusive validator space now lock (rooted s)) by done.
  change (unlocked (rooted s) lock) with (unlocked s lock). by rewrite Hu.
Qed.

Lemma names_apart pid :
  artifact <> lock /\ touchOf artifact <> artifact /\ touchOf artifact <> lock /\
  partialOf pid artifact <> lock /\ partialOf pid artifact <> artifact /\ partialOf pid artifact <> touchOf artifact.
Proof.
  pose proof artifact_named as Ha. assert (is_lock spec lock) as Hl by by exists artifact.
  assert (is_touch spec (touchOf artifact)) as Ht by by exists artifact.
  pose proof (guard_artifact spec _ Ha) as Ga. pose proof (guard_partial spec pid _ Ha) as Gp.
  pose proof (guard_lock spec _ Hl) as Gl. pose proof (guard_touch spec _ Ht) as Gt.
  split_and!; intros E; rewrite ?E in *; try congruence.
  - by apply (touch_not_lock spec lock).
  - unfold partialOf in E. rewrite <-(app_nil_r artifact) in E at 2. by apply app_inv_head in E.
Qed.

(** The files after a commit of [file]. *)
Definition published (pid : N) (file : File) (fs : gmap bytes File) : gmap bytes File :=
  <[touchOf artifact := mkFile [] now]> (<[artifact := file]> (delete (partialOf pid artifact) fs)).

Lemma published_artifact pid file fs : published pid file fs !! artifact = Some file.
Proof.
  destruct (names_apart pid) as (_ & Ht & _). unfold published. rewrite lookup_insert_ne by done. by rewrite lookup_insert_eq.
Qed.

Lemma lock_freeb_relocked s m fs :
  fresh s -> unlocked s lock = true ->
  lock_freeb (set_locks (delete (next_fd s) (locks (holding m lock s))) (set_files fs (holding m lock s)))
    (next_fd s) lock false = true.
Proof.
  intros Hf Hu. rewrite <-(unlocked_free s lock Hf) in Hu. apply lock_freeb_shared in Hu.
  unfold lock_freeb in *. cbn [opened locks set_locks set_files holding] in *.
  rewrite delete_insert_id by apply (Hf (next_fd s) (le_n _)). done.
Qed.

Lemma run_commit pid s fs file :
  fresh s -> unlocked s lock = true -> fs !! partialOf pid artifact = Some file ->
  validator (content file) digest = None ->
  run (commit true (Some (mkTransaction digest artifact (partialOf pid artifact) (next_fd s))))
      (set_files fs (holding true lock s)) =
    (inr (mkHit artifact (next_fd s)), set_files (published pid file fs) (holding false lock s)).
Proof.
  intros Hf Hu Hfile Hv. cbn [commit]. unfold commit_pending. cbn [negb wt_partial wt_digest wt_artifact].
  rewrite run_then. cbn [do_ CacheSystem.run answer set_files files]. rewrite Hfile, Hv.
  rewrite run_then. cbn [do_ CacheSystem.run answer]. rewrite run_then. cbn [do_ CacheSystem.run answer].
  rewrite run_then. cbn [do_ CacheSystem.run answer set_files files]. rewrite Hfile. cbn [is_error].
  rewrite run_then. cbn [do_ CacheSystem.run answer]. rewrite run_then, run_touchStamp.
  cbn [set_files files opened locks next_fd has_root]. fold (published pid file fs).
  unfold hand_off. cbn [wt_lock wt_artifact]. rewrite run_then. unfold downgradeToShared. rewrite run_then.
  cbn [do_ CacheSystem.run answer]. rewrite run_then. cbn [do_ CacheSystem.run answer].
  assert (opened (holding true lock s) !! next_fd s = Some lock) as Ho by apply lookup_insert_eq.
  pose proof (lock_freeb_relocked s true (published pid file fs) Hf Hu) as Hl.
  cbn [set_files set_locks opened locks files next_fd has_root] in Hl |- *. rewrite Ho.
  unfold set_locks, set_files in Hl |- *. cbn [opened locks files next_fd has_root] in Hl |- *. rewrite Hl.
  cbn [CacheSystem.run]. cbn [holding locks opened next_fd has_root].
  rewrite delete_insert_id by apply (Hf (next_fd s) (le_n _)). done.
Qed.

Lemma run_release m fs s :
  fresh s ->
  run (release (Some (next_fd s))) (set_files fs (holding m lock s)) = (tt, set_files fs (touched_lock lock s)).
Proof.
  intros Hf. destruct (Hf (next_fd s) (le_n _)) as [Ho Hl]. cbn [release do_ CacheSystem.run answer].
  cbn [set_files holding touched_lock files opened locks next_fd has_root]. by rewrite !delete_insert_id.
Qed.

Lemma run_lookup s file :
  fresh s -> unlocked s lock = true -> files s !! artifact = Some file -> validator (content file) digest = None ->
  run (lookup spec true identity) s =
    (inr (mkHit artifact (next_fd s)),
     set_files (<[touchOf artifact := mkFile [] now]> (files (touched_lock lock s))) (holding false lock s)).
Proof.
  intros Hf Hu Hfile Hv. unfold lookup. rewrite Hresolve. cbn [negb]. rewrite run_then.
  cbn [do_ CacheSystem.run answer]. rewrite Hfile. cbn [fst snd negb is_error orb].
  rewrite run_then. fold lock. rewrite run_try_shared by done. rewrite run_then.
  cbn [do_ CacheSystem.run answer]. destruct (names_apart 0) as (Hne & _).
  assert (files (holding false lock s) !! artifact = Some file) as ->.
  { cbn. by rewrite lookup_insert_ne. }
  rewrite Hv. rewrite run_then, run_touchStamp. done.
Qed.

Lemma run_lookup_busy s h :
  fresh s -> opened s !! h = Some lock -> locks s !! h = Some true ->
  exists reason s', run (lookup spec true identity) s = (inl reason, s').
Proof.
  intros Hf Ho Hl. unfold lookup. rewrite Hresolve. cbn [negb]. rewrite run_then.
  cbn [do_ CacheSystem.run answer]. destruct (files s !! artifact); cbn [fst snd negb is_error orb]; [|by eexists _, _].
  rewrite run_then. fold lock. destruct (run_try_busy lock s h Ho Hl Hf) as [e ->]. by eexists _, _.
Qed.

(** C20 What is committed is what a lookup finds: for an identity of the cache's scheme
    that nobody has locked, in a system where nothing fails, [beginWrite] gives a transaction; while
    it runs a lookup misses; when the file its owner wrote is one the validator accepts, [commit]
    publishes it under a shared lease, removes the partial, and after
    the lease is released a lookup hits that file. *)
Theorem committed_is_found s pid :
  fresh s -> unlocked s lock = true ->
  exists t s1, run (beginWrite spec pid identity) s = (inr t, s1) /\
    (exists reason s', run (lookup spec true identity) s1 = (inl reason, s')) /\
    forall file, validator (content file) digest = None ->
      exists hit s2, run (commit true (Some t)) (set_files (<[wt_partial t := file]> (files s1)) s1) = (inr hit, s2) /\
        hit_path hit = pathFor spec identity /\ files s2 !! hit_path hit = Some file /\
        files s2 !! wt_partial t = None /\ locks s2 !! hit_lease hit = Some false /\
        exists hit' s4, run (lookup spec true identity) (run (release (Some (hit_lease hit))) s2).2 = (inr hit', s4) /\
          hit_path hit' = hit_path hit /\ files s4 !! hit_path hit' = Some file /\ locks s4 !! hit_lease hit' = Some false.
Proof.
  intros Hf Hu. rewrite run_beginWrite by done. eexists _, _. split; [reflexivity|].
  assert (fresh (rooted s)) as Hfr by exact Hf. assert (unlocked (rooted s) lock = true) as Hur by exact Hu.
  assert (fresh (holding true lock (rooted s))) as Hfh.
  { intros h Hh. cbn in Hh |- *. rewrite !lookup_insert_ne by lia. apply Hf. lia. }
  split. { apply (run_lookup_busy _ (next_fd s)); [done|apply lookup_insert_eq|apply lookup_insert_eq]. }
  cbn [wt_partial]. intros file Hv. destruct (names_apart pid) as (Hal & Hta & Htl & Hpl & Hpa & Hpt).
  set (fs := <[partialOf pid artifact := file]> (files (holding true lock (rooted s)))).
  eexists _, _. split; [exact (run_commit pid (rooted s) fs file Hfr Hur (lookup_insert_eq _ _ _) Hv)|]. cbn [hit_path hit_lease].
  assert (pathFor spec identity = artifact) as -> by (unfold pathFor; by rewrite Hresolve).
  split; [done|]. split; [apply published_artifact|]. split.
  { cbn [set_files files]. unfold published. rewrite !lookup_insert_ne by done. apply lookup_delete_eq. }
  split; [apply lookup_insert_eq|].
  rewrite (run_release false _ (rooted s) Hfr). cbn [snd]. set (s3 := set_files _ _).
  rewrite (run_lookup s3 file).
  - eexists _, _. split; [reflexivity|]. cbn [hit_path hit_lease]. split; [done|]. split; [|apply lookup_insert_eq].
    cbn [set_files files touched_lock]. rewrite !lookup_insert_ne by done. apply published_artifact.
  - by apply fresh_touched.
  - exact Hur.
  - apply published_artifact.
  - done.
Qed.
End Publish.
