(* ===== verification/CacheContract.v ===== *)
(** * CacheContract: what the cache promises, whatever its users interleave

    From any directory and no open handles, over every interleaving of lookups,
    leases, materializations and cleanups by any number of agents, with system calls
    failing at will. *)

From stdpp Require Import gmap.
From S2P Require Import Prelude Text SourceDescriptor RequestCache CacheSystem CacheSafety CacheDiscipline.

Section Contract.
Context (validator : bytes -> bytes -> option string) (spec : CacheSpec) (has_validator : bool).

(** An agent with what it holds and knows. *)
Definition agent_ok (a : agent) (o : gmap fd (bytes * option bool) * gmap bytes (option bytes)) : Prop :=
  match a with Running p => wp spec p (ends spec) o.1 o.2 | _ => kept spec a o.1 o.2 end.

Definition world_ok (w : world) : Prop :=
  exists owners, invariant spec validator (system w) owners /\ Forall2 agent_ok (agents w) owners.

(** No handle is open. *)
Definition clean (s : os) : Prop := opened s = ∅ /\ locks s = ∅.

Lemma clean_ok s : clean s -> world_ok (mkWorld s []).
Proof.
  intros [Ho Hl]. exists []. split; [|constructor]. constructor; cbn [system]; try done.
  - intros h1 h2 f e1 e2 _ H. by rewrite Ho, lookup_empty in H.
  - intros h _. by rewrite Ho, Hl, !lookup_empty.
  - intros h Hh. rewrite Ho, Hl, !lookup_empty in Hh. by destruct Hh as [[]|[]].
Qed.

Lemma agent_of_ok o R K : ends spec o R K -> agent_ok (agent_of o) (R, K).
Proof. unfold ends. destruct o as [[]|[|[]]|[]|[]| |]; done. Qed.

(** An agent is replaced. *)
Lemma world_ok_replace s' ags owners i a a' o o' :
  Forall2 agent_ok ags owners -> ags !! i = Some a -> owners !! i = Some o ->
  invariant spec validator s' (<[i := o']> owners) -> agent_ok a' o' -> world_ok (mkWorld s' (<[i := a']> ags)).
Proof. intros H2 Ha Ho I Hok. exists (<[i := o']> owners). split; [done|]. by apply Forall2_insert. Qed.

Lemma step_ok w w' : step validator spec has_validator w w' -> world_ok w -> world_ok w'.
Proof.
  destruct 1 as [s ags p Hp|s ags i X c k x s' Hi Hs|s ags i o Hi|s ags i t file Hi|s ags i t Hi|s ags i t Hi|s ags i a h Hi Ha];
    intros (owners & I & H2); cbn [system agents] in *.
  - exists (owners ++ [(∅, ∅)]). split; [by apply agent_added|]. apply Forall2_app; [done|]. constructor; [|done].
    cbn. by apply (wp_starts spec has_validator).
  - destruct (Forall2_lookup_l _ _ _ _ _ H2 Hi) as ([R K] & Ho & Hok). cbn in Hok.
    destruct (call_sound spec validator c s owners i R K _ x s' I Ho Hok Hs) as (R' & K' & HQ & I').
    by apply (world_ok_replace s' ags owners i (Running (Do c k)) _ (R, K) (R', K')).
  - destruct (Forall2_lookup_l _ _ _ _ _ H2 Hi) as ([R K] & Ho & Hok). cbn in Hok.
    apply (world_ok_replace s ags owners i (Running (Ret o)) _ (R, K) (R, K)); [done..|by apply unchanged|].
    by apply (agent_of_ok o R K).
  - destruct (Forall2_lookup_l _ _ _ _ _ H2 Hi) as ([R K] & Ho & [HR Ht]). cbn in HR.
    assert (guarded_exclusive spec R (wt_partial t)) as Hg.
    { rewrite HR. apply transaction_guard; [done|by right]. }
    exists (<[i := (R, ∅)]> owners). split.
    + apply (files_changed spec validator s _ owners i R K); try done.
      apply (others_keep spec validator s _ owners i R K); [done..|]. intros f Hne. left.
      destruct (decide (f = wt_partial t)) as [->|Hn]; [done|]. by rewrite lookup_insert_ne in Hne.
    + rewrite <-(list_insert_id ags i (Writing t)) by done. by apply Forall2_insert.
  - destruct (Forall2_lookup_l _ _ _ _ _ H2 Hi) as ([R K] & Ho & [HR Ht]). cbn in HR.
    apply (world_ok_replace s ags owners i (Writing t) _ (R, K) (R, K)); [done..|by apply unchanged|].
    cbn. rewrite HR. exact (wp_commit spec has_validator t Ht K).
  - destruct (Forall2_lookup_l _ _ _ _ _ H2 Hi) as ([R K] & Ho & [HR Ht]). cbn in HR.
    apply (world_ok_replace s ags owners i (Writing t) _ (R, K) (R, K)); [done..|by apply unchanged|].
    cbn. rewrite HR. exact (wp_abort spec t Ht K).
  - destruct (Forall2_lookup_l _ _ _ _ _ H2 Hi) as ([R K] & Ho & Hok).
    apply (world_ok_replace s ags owners i a _ (R, K) (R, K)); [done..|by apply unchanged|].
    assert (R = lease_of (hit_path h) (hit_lease h)) as -> by (destruct Ha as [->|[->| ->]]; by destruct Hok).
    exact (wp_release spec (hit_path h) (hit_lease h) K).
Qed.

Lemma reachable_ok s0 w : clean s0 -> reachable validator spec has_validator s0 w -> world_ok w.
Proof. intros Hc. induction 1 as [|w w' Hr IH Hs]; [by apply clean_ok|]. by apply (step_ok w w'). Qed.

(** The artifact an agent keeps a lock for, and whether the lock is exclusive. *)
Definition holds (a : agent) : option (bytes * fd * bool) :=
  match a with
  | LookedUp hit | Committed hit => Some (hit_path hit, hit_lease hit, false)
  | Leased artifact h => Some (artifact, h, false)
  | Writing t => Some (wt_artifact t, wt_lock t, true)
  | _ => None
  end.

Lemma holds_handle w owners i a artifact h e :
  Forall2 agent_ok (agents w) owners -> agents w !! i = Some a -> holds a = Some (artifact, h, e) ->
  exists R K, owners !! i = Some (R, K) /\ R !! h = Some (lockOf artifact, Some e) /\ is_artifact spec artifact.
Proof.
  intros H2 Hi Hh. destruct (Forall2_lookup_l _ _ _ _ _ H2 Hi) as ([R K] & Ho & Hok). exists R, K. split; [done|].
  destruct a as [p|hit|hit|a' l|t|o]; try done; cbn in Hh; injection Hh as <- <- <-.
  - destruct Hok as (HR & d & Hd & Hp & _). cbn in HR. rewrite HR. unfold lease_of. rewrite lookup_singleton_eq. split; [done|].
    rewrite Hp. by apply artifact_digest.
  - destruct Hok as (HR & Ha). cbn in HR. rewrite HR. unfold lease_of. rewrite lookup_singleton_eq. done.
  - destruct Hok as (HR & Ha). cbn in HR. rewrite HR. unfold lease_of. rewrite lookup_singleton_eq. done.
  - destruct Hok as (HR & Ht). cbn in HR. rewrite HR. rewrite lookup_singleton_eq. split; [done|].
    by apply transaction_artifact.
Qed.

(** * Properties *)

(** C19 A hit of a lookup is protected as long as it is kept: its artifact is in the
    root, is the one of a digest of the cache's scheme, and the validator accepts its
    contents for that digest, and its lease is a held shared lock of that artifact; whatever the
    other agents do, cleanups and materializations of the same identity included.  Of the hit of a
    commit the lease alone is promised: it is a held shared lock of an artifact of the scheme (the
    file may be gone in its first instant, see [commit_hit_may_vanish] of [CacheRace]). *)
Theorem lookup_hit_protected s0 w i :
  clean s0 -> reachable validator spec has_validator s0 w ->
  (forall hit, agents w !! i = Some (LookedUp hit) ->
     exists d file, is_digest spec d /\ hit_path hit = artifact_of spec d /\
       files (system w) !! hit_path hit = Some file /\ validator (content file) d = None /\
       opened (system w) !! hit_lease hit = Some (lockOf (hit_path hit)) /\
       locks (system w) !! hit_lease hit = Some false) /\
  (forall hit, agents w !! i = Some (Committed hit) ->
     is_artifact spec (hit_path hit) /\ opened (system w) !! hit_lease hit = Some (lockOf (hit_path hit)) /\
     locks (system w) !! hit_lease hit = Some false).
Proof.
  intros Hc Hr. destruct (reachable_ok s0 w Hc Hr) as (owners & I & H2). split; intros hit Hi.
  - destruct (Forall2_lookup_l _ _ _ _ _ H2 Hi) as ([R K] & Ho & (HR & d & Hd & Hp & Hk)). cbn in HR, Hk.
    destruct (known _ _ _ _ I _ _ _ _ _ Ho Hk) as (_ & file & Hfile & Hv).
    assert (R !! hit_lease hit = Some (lockOf (hit_path hit), Some false)) as Hh
      by (rewrite HR; apply lookup_singleton_eq).
    destruct (held_open _ _ _ _ I _ _ _ _ _ _ Ho Hh) as (? & ? & _). exists d, file. split_and!; try done; apply Hd.
  - destruct (holds_handle w owners i _ _ _ _ H2 Hi eq_refl) as (R & K & Ho & Hh & Hart).
    by destruct (held_open _ _ _ _ I _ _ _ _ _ _ Ho Hh) as (? & ? & _).
Qed.

(** Materialization excludes use: the artifact an agent writes is not the one of
    any hit, lease or transaction that another agent keeps, in any process. *)
Theorem writer_excludes s0 w i j a b artifact written h1 h2 e :
  clean s0 -> reachable validator spec has_validator s0 w -> i <> j ->
  agents w !! i = Some a -> agents w !! j = Some b ->
  holds a = Some (artifact, h1, e) -> holds b = Some (written, h2, true) -> artifact <> written.
Proof.
  intros Hc Hr Hij Hi Hj Ha Hb <-. destruct (reachable_ok s0 w Hc Hr) as (owners & I & H2).
  destruct (holds_handle w owners i a artifact h1 e H2 Hi Ha) as (R1 & K1 & Ho1 & Hh1 & Hart).
  destruct (holds_handle w owners j b artifact h2 true H2 Hj Hb) as (R2 & K2 & Ho2 & Hh2 & _).
  apply (guard_excludes spec validator (system w) owners j i R2 K2 R1 K1 artifact I); [done..|by apply not_eq_sym| |].
  - exists h2, (lockOf artifact). split; [by apply guard_artifact|done].
  - exists h1, (lockOf artifact), e. split; [by apply guard_artifact|done].
Qed.

(** No operation touches what is not the cache's: a step changes only artifacts
    and partials of the scheme's digests and their sidecars, and it never removes or
    changes a lock file that is there, so that two locks of one name are locks
    of one file. *)
Theorem foreign_files_untouched s0 w w' f :
  clean s0 -> reachable validator spec has_validator s0 w -> step validator spec has_validator w w' ->
  (~ managed spec f -> files (system w') !! f = files (system w) !! f) /\
  (is_lock spec f -> forall file, files (system w) !! f = Some file -> files (system w') !! f = Some file).
Proof.
  intros Hc Hr Hs. destruct (reachable_ok s0 w Hc Hr) as (owners & I & H2).
  assert (files (system w') !! f <> files (system w) !! f ->
    guard spec f <> None \/ is_touch spec f \/ is_lock spec f /\ files (system w) !! f = None) as Hch.
  { destruct Hs as [| s ags i X c k x s' Hi Hs | |s ags i t file Hi| | |]; cbn [system agents] in *; try done; intros Hne.
    - destruct (Forall2_lookup_l _ _ _ _ _ H2 Hi) as ([R K] & Ho & Hok). cbn in Hok.
      destruct (call_effect spec validator c s _ R K x s' f Hok Hs Hne) as [(h & l & Hg & _)|[Ht|Hl]]; [left|auto..].
      by rewrite Hg.
    - destruct (Forall2_lookup_l _ _ _ _ _ H2 Hi) as ([R K] & Ho & [HR Ht]). left.
      destruct (decide (f = wt_partial t)) as [->|Hn]; [|cbn in Hne; by rewrite lookup_insert_ne in Hne].
      destruct (transaction_guard spec t Ht (wt_partial t) (or_intror eq_refl)) as (h & l & Hg & _). by rewrite Hg. }
  split.
  - intros Hm. destruct (decide (files (system w') !! f = files (system w) !! f)) as [|Hne]; [done|]. exfalso.
    apply Hm. destruct (Hch Hne) as [?|[?|[? _]]]; unfold managed; auto.
  - intros Hl file Hfile. destruct (decide (files (system w') !! f = files (system w) !! f)) as [->|Hne]; [done|].
    exfalso. destruct (Hch Hne) as [Hg|[Ht|[_ Hn]]].
    + apply Hg. by apply guard_lock.
    + by apply (touch_not_lock spec f).
    + by rewrite Hfile in Hn.
Qed.

(** Nothing leaks: when no agent runs an operation or keeps a hit, a lease or a
    transaction, no handle is open and no lock is held, on whatever error paths the
    operations ended. *)
Theorem locks_released s0 w :
  clean s0 -> reachable validator spec has_validator s0 w ->
  (forall i a, agents w !! i = Some a -> exists o, a = Finished o) -> clean (system w).
Proof.
  intros Hc Hr Hall. destruct (reachable_ok s0 w Hc Hr) as (owners & I & H2).
  assert (forall h, ~ (is_Some (opened (system w) !! h) \/ is_Some (locks (system w) !! h))) as Hno.
  { intros h Hh. destruct (owned _ _ _ _ I h Hh) as (i & R & K & Ho & Hs).
    destruct (Forall2_lookup_r _ _ _ _ _ H2 Ho) as (a & Hi & Hok). destruct (Hall i a Hi) as [o ->].
    cbn in Hok. rewrite Hok, lookup_empty in Hs. by destruct Hs. }
  split; apply map_empty; intros h; apply eq_None_not_Some; intros Hh; apply (Hno h); auto.
Qed.
End Contract.
