(* ===== verification/CacheRace.v ===== *)
(** * CacheRace: executed schedules, and a race in the hand-off of [commit]

    Schedules of agents run against the system of [CacheSystem.v] in which nothing
    fails; what a schedule reaches is reachable.  One of them shows that the hit of a
    [commit] need not name a file: the lock conversion of [downgradeToShared] first gives
    the lock up, a cleanup can take it, evict the artifact just published and release
    the lock again before the second half of the conversion, which then succeeds; the
    code looks for the file again only when the conversion failed. *)

From stdpp Require Import gmap sorting.
From S2P Require Import Prelude Text SourceDescriptor RequestCache CacheSystem CacheSafety CacheDiscipline CacheEviction CachePublish CacheContract.

Section Schedules.
Context (validator : bytes -> bytes -> option string) (spec : CacheSpec) (has_validator : bool) (space now : Z).

(** Start an operation, make some calls of an agent, or let one go on. *)
Inductive move : Type :=
  | MLookup (identity : bytes)
  | MBegin (pid : N) (identity : bytes)
  | MCleanup (policy : CleanupPolicy)
  | MCalls (i n : nat)
  | MReturn (i : nat)
  | MWrite (i : nat) (file : File)
  | MCommit (i : nat).

Definition with_agent (i : nat) (a : agent) (w : world) : world := mkWorld (system w) (<[i := a]> (agents w)).

Definition exec_call (i : nat) (w : world) : option world :=
  match agents w !! i with
  | Some (Running (Do c k)) =>
    let '(x, s') := answer validator space now (system w) c in
    Some (mkWorld s' (<[i := Running (k x)]> (agents w)))
  | _ => None
  end.

Fixpoint exec_calls (n i : nat) (w : world) : option world :=
  match n with O => Some w | S n' => w' ← exec_call i w; exec_calls n' i w' end.

Definition start (p : prog outcome) (w : world) : option world :=
  Some (mkWorld (system w) (agents w ++ [Running p])).

Definition exec_move (m : move) (w : world) : option world :=
  match m with
  | MLookup identity => start (returning OLookup (lookup spec has_validator identity)) w
  | MBegin pid identity => start (returning OBegin (beginWrite spec pid identity)) w
  | MCleanup policy => start (returning OCleanup (cleanup spec policy)) w
  | MCalls i n => exec_calls n i w
  | MReturn i =>
    match agents w !! i with Some (Running (Ret o)) => Some (with_agent i (agent_of o) w) | _ => None end
  | MWrite i file =>
    match agents w !! i with
    | Some (Writing t) =>
      Some (mkWorld (set_files (<[wt_partial t := file]> (files (system w))) (system w)) (agents w))
    | _ => None
    end
  | MCommit i =>
    match agents w !! i with
    | Some (Writing t) => Some (with_agent i (Running (returning OCommit (commit has_validator (Some t)))) w)
    | _ => None
    end
  end.

Fixpoint exec_moves (ms : list move) (w : world) : option world :=
  match ms with [] => Some w | m :: ms' => w' ← exec_move m w; exec_moves ms' w' end.

Notation reachable := (reachable validator spec has_validator).

Lemma exec_call_step i w w' : exec_call i w = Some w' -> step validator spec has_validator w w'.
Proof.
  unfold exec_call. destruct (agents w !! i) as [[p| | | | |]|] eqn:Hi; try done.
  destruct p as [o|X c k]; [done|]. pose proof (answer_sys validator space now (system w) X c) as Hs.
  destruct (answer validator space now (system w) c) as [x s']. intros [= <-].
  destruct w as [s ags]. by eapply step_call.
Qed.

Lemma exec_call_reachable s0 i w w' : reachable s0 w -> exec_call i w = Some w' -> reachable s0 w'.
Proof. intros Hr H. eapply reachable_step; [exact Hr|]. by eapply exec_call_step. Qed.

Lemma exec_calls_reachable s0 n i : forall w w', reachable s0 w -> exec_calls n i w = Some w' -> reachable s0 w'.
Proof.
  induction n as [|n IH]; intros w w' Hr; cbn [exec_calls]; [by intros [= <-]|].
  destruct (exec_call i w) as [w1|] eqn:E; [|done]. cbn [mbind option_bind].
  apply IH. by eapply exec_call_reachable.
Qed.

Lemma exec_move_reachable s0 m w w' : reachable s0 w -> exec_move m w = Some w' -> reachable s0 w'.
Proof.
  intros Hr. destruct w as [s ags]. destruct m as [id|pid id|policy|i n|i|i file|i]; cbn [exec_move start system agents].
  1-3: intros [= <-]; (eapply reachable_step; [exact Hr|]); constructor; constructor.
  - by apply exec_calls_reachable.
  - destruct (ags !! i) as [[[o|]| | | | |]|] eqn:Hi; try done. intros [= <-]. eapply reachable_step; [exact Hr|].
    by apply step_return.
  - destruct (ags !! i) as [[| | | |t|]|] eqn:Hi; try done. intros [= <-]. eapply reachable_step; [exact Hr|].
    by apply (step_write _ _ _ s ags i t).
  - destruct (ags !! i) as [[| | | |t|]|] eqn:Hi; try done. intros [= <-]. eapply reachable_step; [exact Hr|].
    by apply step_commit.
Qed.

Lemma exec_moves_reachable s0 ms : forall w w', reachable s0 w -> exec_moves ms w = Some w' -> reachable s0 w'.
Proof.
  induction ms as [|m ms IH]; intros w w' Hr; cbn [exec_moves]; [by intros [= <-]|].
  destruct (exec_move m w) as [w1|] eqn:E; [|done]. cbn [mbind option_bind].
  apply IH. by eapply exec_move_reachable.
Qed.
End Schedules.

(** ** A concrete cache *)

Definition sample_spec : CacheSpec := mkSpec (str "r") (str ".a") (mkScheme (str "x:") 32).
Definition sample_digest : bytes := str "00000000000000000000000000000000".
Definition sample_identity : bytes := str "x:" ++ sample_digest.
Definition accept_all (content digest : bytes) : option string := None.
Definition empty_system : os := mkOs ∅ ∅ ∅ 0 true.

(** One agent materializes up to the first half of its lock conversion; another cleans
    up with no budget; the first one ends its [commit]. *)
Definition race : list move :=
  [MBegin 7 sample_identity; MCalls 0 3; MReturn 0; MWrite 0 (mkFile (str "data") 5); MCommit 0; MCalls 0 10;
   MCleanup (mkCleanupPolicy 0 0 0)].

Definition race_world (ms : list move) : option world :=
  exec_moves accept_all sample_spec true 0 9 ms (mkWorld empty_system []).

Lemma race_reachable ms w : race_world ms = Some w -> reachable accept_all sample_spec true empty_system w.
Proof. apply exec_moves_reachable. apply reachable_start. Qed.

Lemma empty_clean : clean empty_system.
Proof. done. Qed.

(** The hit and the file of an agent that committed. *)
Definition committed_file (i : nat) (w : world) : option (Hit * option bool * option File) :=
  match agents w !! i with
  | Some (Committed hit) => Some (hit, locks (system w) !! hit_lease hit, files (system w) !! hit_path hit)
  | _ => None
  end.

Lemma race_ends :
  option_map (committed_file 0) (race_world (race ++ [MCalls 1 16; MCalls 0 1; MReturn 0]))
  = Some (Some (mkHit (sample_digest ++ str ".a") 0, Some false, None)).
Proof. vm_compute. reflexivity. Qed.

(** The hit of a [commit] may name a file that is gone although its lease is held: the
    promise that a hit always names a file that existed under its lease fails when a
    cleanup runs within the lock conversion and the conversion still succeeds. *)
Theorem commit_hit_may_vanish :
  exists w hit, reachable accept_all sample_spec true empty_system w /\
    agents w !! 0%nat = Some (Committed hit) /\ locks (system w) !! hit_lease hit = Some false /\
    files (system w) !! hit_path hit = None.
Proof.
  pose proof race_ends as H. destruct (race_world _) as [w|] eqn:Hw; [|discriminate H]. cbn [option_map] in H.
  injection H as H. unfold committed_file in H. destruct (agents w !! 0%nat) as [[| |hit| | |]|] eqn:Ha; try discriminate H.
  injection H as Hh Hl Hf. pose proof (race_reachable _ _ Hw) as Hr. clear Hw Hh.
  exists w, hit. exact (conj Hr (conj Ha (conj Hl Hf))).
Qed.

(** ** The theorems of the contract, on schedules *)

Definition publish : list move :=
  [MBegin 7 sample_identity; MCalls 0 3; MReturn 0; MWrite 0 (mkFile (str "data") 5); MCommit 0; MCalls 0 11; MReturn 0].

Definition agent_at (i : nat) (w : world) : option agent :=
  match agents w !! i with Some (Running _) => None | a => a end.

Definition kept_after (ms : list move) (i : nat) : option agent := w ← race_world ms; agent_at i w.

(** An agent that keeps something at the end of a schedule. *)
Lemma kept_reachable ms i a :
  kept_after ms i = Some a ->
  exists w, race_world ms = Some w /\ reachable accept_all sample_spec true empty_system w /\ agents w !! i = Some a.
Proof.
  unfold kept_after, agent_at. destruct (race_world ms) as [w|] eqn:Hw; [|done]. cbn [mbind option_bind].
  intros H. pose proof (race_reachable _ _ Hw) as Hr. exists w. split; [reflexivity|]. split; [exact Hr|]. by destruct (agents w !! i) as [[]|].
Qed.

Example lookup_hit_protected_witness :
  exists w file, reachable accept_all sample_spec true empty_system w /\
    files (system w) !! (sample_digest ++ str ".a") = Some file /\ locks (system w) !! 1%nat = Some false.
Proof.
  destruct (kept_reachable (publish ++ [MLookup sample_identity; MCalls 1 8; MReturn 1]) 1
    (LookedUp (mkHit (sample_digest ++ str ".a") 1))) as (w & _ & Hr & Hi); [vm_compute; reflexivity|].
  destruct (proj1 (lookup_hit_protected accept_all sample_spec true empty_system w 1 empty_clean Hr) _ Hi)
    as (d & file & _ & _ & Hfile & _ & _ & Hlock).
  exists w, file. exact (conj Hr (conj Hfile Hlock)).
Defined.

Definition other_identity : bytes := str "x:11111111111111111111111111111111".

Definition two_agents : list move :=
  publish ++ [MLookup sample_identity; MCalls 1 8; MReturn 1; MBegin 7 other_identity; MCalls 2 3; MReturn 2].

Definition other_transaction : WriteTransaction :=
  mkTransaction (str "11111111111111111111111111111111") (str "11111111111111111111111111111111.a")
    (str "11111111111111111111111111111111.a.partial.7") 2.

Example writer_excludes_witness : sample_digest ++ str ".a" <> wt_artifact other_transaction.
Proof.
  destruct (kept_reachable two_agents 1 (LookedUp (mkHit (sample_digest ++ str ".a") 1)))
    as (w & Hw & Hr & H1); [vm_compute; reflexivity|].
  destruct (kept_reachable two_agents 2 (Writing other_transaction)) as (w' & Hw' & _ & H2); [vm_compute; reflexivity|].
  rewrite Hw in Hw'. injection Hw' as <-.
  exact (writer_excludes accept_all sample_spec true empty_system w 1 2 _ _ _ _ _ _ false empty_clean Hr
    ltac:(discriminate) H1 H2 eq_refl eq_refl).
Defined.

Lemma notes_unmanaged : ~ managed sample_spec (str "notes.txt").
Proof.
  assert (forall a, is_artifact sample_spec a -> exists c rest, a = c :: rest /\ lower_hex c = true) as Hhead.
  { intros a (d & [Hl Hx] & ->). destruct d as [|c d]; [cbn in Hl; done|]. cbn in Hx. apply andb_prop in Hx as [Hc _].
    by exists c, (d ++ artifact_suffix sample_spec). }
  intros [H|[(a & Ha & H)|(a & Ha & H)]]; [by apply H|..];
    destruct (Hhead a Ha) as (c & rest & -> & Hc); injection H as <- _; done.
Qed.

(** The world a schedule reaches, and the one after another call. *)
Definition call_after (ms : list move) (i : nat) : option (world * world) :=
  w ← race_world ms; w' ← exec_call accept_all 0 9 i w; Some (w, w').

Definition is_some {A} (o : option A) : bool := match o with Some _ => true | None => false end.

Lemma call_after_step ms i :
  is_some (call_after ms i) = true ->
  exists w w', reachable accept_all sample_spec true empty_system w /\ step accept_all sample_spec true w w'.
Proof.
  unfold call_after. destruct (race_world ms) as [w|] eqn:Hw; [|discriminate].
  pose proof (race_reachable _ _ Hw) as Hr. cbn [mbind option_bind]. clear Hw.
  destruct (exec_call accept_all 0 9 i w) as [w'|] eqn:Hw'; [|discriminate]. intros _.
  pose proof (exec_call_step accept_all sample_spec true 0 9 i w w' Hw') as Hs.
  exists w, w'. exact (conj Hr Hs).
Qed.

Lemma eviction_call : is_some (call_after (race ++ [MCalls 1 9]) 1) = true.
Proof. vm_compute. reflexivity. Qed.

Example foreign_files_untouched_witness :
  exists w w', step accept_all sample_spec true w w' /\ files (system w') !! str "notes.txt" = files (system w) !! str "notes.txt".
Proof.
  destruct (call_after_step _ _ eviction_call) as (w & w' & Hr & Hs). exists w, w'. split; [exact Hs|].
  exact (proj1 (foreign_files_untouched accept_all sample_spec true empty_system w w' (str "notes.txt")
    empty_clean Hr Hs) notes_unmanaged).
Defined.

Example locks_released_witness :
  exists w, reachable accept_all sample_spec true empty_system w /\ agents w <> [] /\ clean (system w).
Proof.
  destruct (kept_reachable [MCleanup (mkCleanupPolicy 0 0 0); MCalls 0 3; MReturn 0] 0 (Finished (OCleanup result_default)))
    as (w & Hw & Hr & Hi); [vm_compute; reflexivity|].
  exists w. split; [exact Hr|]. split; [intros E; rewrite E in Hi; discriminate Hi|].
  apply (locks_released accept_all sample_spec true empty_system w empty_clean Hr).
  intros [|i] a Ha.
  - rewrite Hi in Ha. injection Ha as <-. eexists. reflexivity.
  - exfalso. assert (option_map (fun w => length (agents w))
      (race_world [MCleanup (mkCleanupPolicy 0 0 0); MCalls 0 3; MReturn 0]) = Some 1%nat) as Hlen by (vm_compute; reflexivity).
    rewrite Hw in Hlen. injection Hlen as Hlen. apply lookup_lt_Some in Ha. rewrite Hlen in Ha. lia.
Defined.

(** ** A cleanup and a publication, alone *)

Lemma empty_fresh : fresh empty_system.
Proof. done. Qed.

Example committed_is_found_witness :
  exists t s1, run accept_all 0 9 (beginWrite sample_spec 7 sample_identity) empty_system = (inr t, s1).
Proof.
  destruct (committed_is_found accept_all sample_spec 0 9 sample_identity sample_digest (sample_digest ++ str ".a")
    ltac:(vm_compute; reflexivity) empty_system 7 empty_fresh ltac:(vm_compute; reflexivity)) as (t & s1 & H & _).
  exists t, s1. exact H.
Defined.

(** Two artifacts of four bytes, the older with a stamp file, and a partial that is two hours old. *)
Definition littered : os :=
  mkOs (list_to_map
      [(sample_digest ++ str ".a", mkFile (str "data") 900);
       (sample_digest ++ str ".a.touch", mkFile [] 100);
       (str "11111111111111111111111111111111.a", mkFile (str "more") 300);
       (str "22222222222222222222222222222222.a.partial.5", mkFile (str "half") 0);
       (str "notes.txt", mkFile (str "mine") 0)]) ∅ ∅ 0 true.

Definition half_budget : CleanupPolicy := mkCleanupPolicy 4 0 500.

Example littered_cleaned :
  (let '(result, s') := run accept_all 0 1000 (cleanup sample_spec half_budget) littered in
   bool_decide (map fst (map_to_list (files s')) ≡ₚ
     [str "notes.txt"; str "11111111111111111111111111111111.a"; sample_digest ++ str ".a.lock";
      str "22222222222222222222222222222222.a.lock"]) &&
   bool_decide ((bytes_scanned result, bytes_reclaimed result, bytes_held_over_target result, target_met result)
     = (8, 8, 0, true))) = true.
Proof. vm_compute. reflexivity. Qed.

Lemma littered_small :
  (orphan_bytes sample_spec 1000 half_budget littered + sizes (artifacts sample_spec littered) <=? UINT64_MAX) &&
  (0 + sizes (artifacts sample_spec littered) <=? UINT64_MAX) = true.
Proof. vm_compute. reflexivity. Qed.

Example cleanup_evicts_lru_witness :
  exists s' result, run accept_all 0 1000 (cleanup sample_spec half_budget) littered = (result, s') /\
    locks s' = locks littered.
Proof.
  pose proof littered_small as [H1%Z.leb_le H2%Z.leb_le]%andb_prop.
  destruct (cleanup_evicts_lru accept_all sample_spec 0 1000 half_budget littered ltac:(discriminate) eq_refl
    ltac:(done) H1 H2) as (order & n & s' & _ & _ & _ & [Hrun _] & _ & Hl).
  eexists s', _. split; [exact Hrun|exact Hl].
Defined.
